(* ===== verification/_CoqProject ===== *)
-Q . S2P
Prelude.v
SessionTypes.v
SessionState.v
SessionInvariant.v
SessionFork.v
SessionStorage.v
SessionProperties.v
SessionContext.v
Reducer.v
ReducerProtocol.v
ReducerProperties.v
Utf8.v
Numbers.v
Cbor.v
CborCodec.v
CborProperties.v
Framing.v
FramingProperties.v
Truncate.v
TruncateProperties.v
Compaction.v
CompactionProperties.v
Retry.v
RetryProperties.v
Summary.v
SummaryProperties.v
BranchSummary.v
BranchSummaryProperties.v
AgentLoop.v
AgentLoopSpec.v
AgentLoopRules.v
AgentLoopTurns.v
AgentLoopTermination.v
AgentLoopProperties.v
Agent.v
AgentProperties.v
EventStream.v
EditDiff.v
EditProperties.v
EditLines.v
EditOutput.v
Json.v
JsonProperties.v
JsonViews.v
SessionJson.v
Jsonl.v
JsonlCodec.v
JsonlProperties.v
JsonlRecovery.v
JsonValidation.v
JsonlRepo.v
JsonlRepoProperties.v
ManagerTypes.v
SessionManager.v
ManagerOps.v
ManagerTree.v
ManagerProperties.v
ManagerBranch.v
ManagerInvariant.v
ManagerForest.v
StdinBuffer.v
StdinProperties.v
LlmMessages.v
MutationQueue.v
ObjectBundle.v
ObjectClosureProperties.v
ObjectArchive.v
ObjectTar.v
ObjectArchiveProperties.v
ObjectGc.v
ObjectExamples.v
WordNavigation.v
TextInput.v
InputProperties.v
InputHistory.v
PromptTemplates.v
StackLayout.v
LiveSessions.v
TransformMessages.v
JsonRepair.v
