(* ===== verification/Prelude.v ===== *)
(** * A verification of the pi agent core

    The repository is a coding agent written in TypeScript.  This library models
    the parts that decide what is durable, what a model is shown, what goes over
    the wire and what is written to the user's files, and proves them correct.
    Paths below are relative to packages/ of the repository.

    ** The program

    A session is an append-only log of mutations (agent/src/harness/session).
    [SessionState] keeps the log and its indexes: the tree of entries, named
    lanes that point at leaves of the tree, labels, records of the operations
    that run on a lane, and statistics.  Storages (in memory or JSONL files)
    apply mutations to it and [Session] is the facade callers query.  On top of
    that, context.ts turns the branch of a lane into the messages a model is
    shown; reducer.ts validates the records of a lane after a crash and
    recovers the state of its interrupted operation; compaction/ replaces old
    messages by a summary when the context grows, or summarizes a branch that
    is left; truncate.ts bounds tool output.  agent-loop.ts runs the turns of an
    agent: it streams the provider's answer, executes its tool calls and feeds
    queued messages in, telling a sink what happens; agent.ts wraps it in a
    class with queues, listeners and an abort controller.  Requests go through
    ai/src/api/transform-messages.ts, which makes a history acceptable to the model
    it is sent to, and the retry policy of ai/src/utils/retry.ts; identifiers come
    from ai/src/utils/uuid.ts.  Between processes, protocol/src encodes values as
    CBOR and sends them in length-prefixed frames.

    The application (coding-agent/src) keeps its own sessions: session-manager.ts
    stores a tree of entries in a file, one JSON value per line, and moves a leaf
    over it.  Its edit tool replaces text in files (edit-diff.ts) under a queue
    per file (file-mutation-queue.ts), and its messages.ts projects the messages
    of a session for the provider.  agent/src/core/objects stores content-addressed
    objects that refer to each other: closures of references are walked, packed
    into archives, imported, and what is not reachable from a root is collected.
    Prompt templates, in agent/src/harness and in coding-agent/src/core, are texts
    with placeholders that a command fills with its arguments.
    tui/src/stdin-buffer.ts cuts the bytes of a terminal into key sequences,
    tui/src/components/input.ts is the line editor that receives them, and
    stack.ts beside it gives stacked components their sizes.
    server/src/sessions.ts keeps the sessions that connections share: it opens
    one when it is first asked for and disposes it when nobody uses it.

    ** The files

    - [Prelude]: strings as code units, thrown errors ([Result], [rfold]),
      JavaScript maps, shared lemmas, tactics and hint databases.
    - [SessionTypes]: the data of ai/src/types.ts, harness/messages.ts and
      session/types.ts: records for interfaces, inductive types for unions.
    - [SessionState]: session/state.ts; [applyMutation] and the queries.
      [SessionInvariant] states well-formedness, its preservation and what the
      queries return, [SessionFork] forks.
    - [SessionStorage]: session/memory.ts and the queries of session/session.ts.
      The class [SessionStorage] is the storage interface and
      [SessionStorageSpec] its contract, which the in-memory storage discharges
      and the facade's theorems assume.  [SessionProperties] has the theorems.
    - [SessionContext]: session/context.ts and the message projection of
      harness/messages.ts, with their theorems.
    - [Reducer]: harness/reducer.ts.  [ReducerProtocol] is the record protocol
      as a step relation and its equivalence with validation,
      [ReducerProperties] the theorems.
    - [Utf8], [Numbers]: UTF-8 of code units and doubles as the codecs use them.
    - [Cbor]: protocol/src/cbor; [CborCodec] and [CborProperties] its proofs.
    - [Framing]: protocol/src/framing.ts; [FramingProperties] the byte machine it
      refines and the theorems.
    - [Truncate], [TruncateProperties]: harness/utils/truncate.ts.
    - [Compaction], [CompactionProperties]: the planning half of
      harness/compaction/compaction.ts and utils.ts.
    - [Retry], [RetryProperties]: ai/src/utils/retry.ts and uuid.ts.
    - [Summary], [SummaryProperties]: the requests of compaction.ts, the
      serialization of utils.ts and ai/src/utils/text.ts.
    - [BranchSummary], [BranchSummaryProperties]: branch-summarization.ts.
    - [AgentLoop]: agent/src/agent-loop.ts over an arbitrary environment (event
      sink, abort signal, clock, scheduler: the class [AgentEnv]; provider, tools
      and hooks as functions).  [AgentLoopSpec] has the event protocol, the
      contracts of environments and a program logic, [AgentLoopRules] and
      [AgentLoopTurns] its rules, [AgentLoopTermination] the fuel argument and
      [AgentLoopProperties] the theorems with a concrete environment.
    - [Agent], [AgentProperties]: agent/src/agent.ts, the operations of the class
      and the runs they start.  [EventStream]: ai/src/utils/event-stream.ts and
      the streams [agentLoop] returns.
    - [EditDiff]: the edit tool's edit-diff.ts; [EditProperties] exact edits,
      [EditLines] fuzzy ones, [EditOutput] the file written and the diff shown.
    - [Json], [JsonProperties]: JSON text, [JSON.parse] and [JSON.stringify];
      [JsonViews] and [SessionJson]: the session types as JSON values.
    - [Jsonl]: harness/session/jsonl.ts over a file system; [JsonlProperties] has
      its contract [FileSystemSpec] and a file system in memory that keeps it;
      [JsonlCodec] and [JsonlRecovery] are the other proofs.  [JsonValidation]:
      the check that a value can be stored.
      [JsonlRepo], [JsonlRepoProperties]: the directory of session files.
    - [ManagerTypes], [SessionManager], [ManagerOps], [ManagerTree]:
      coding-agent/src/core/session-manager.ts, over the class [SessionEnv] of
      what it asks of its process.  [ManagerProperties] (with the contract
      [SessionEnvSpec]), [ManagerBranch], [ManagerInvariant] (with a storage in
      memory) and [ManagerForest] have the proofs.
    - [LlmMessages]: coding-agent/src/core/messages.ts.  [MutationQueue]:
      tools/file-mutation-queue.ts as a step relation on promises.
    - [StdinBuffer], [StdinProperties]: tui/src/stdin-buffer.ts.
    - [WordNavigation], [TextInput]: tui/src/word-navigation.ts, kill-ring.ts,
      undo-stack.ts, components/input.ts and the key reports of keys.ts;
      [InputProperties] describes every operation on the text around the cursor,
      [InputHistory] has the theorems.
    - [ObjectBundle], [ObjectArchive], [ObjectTar], [ObjectGc]:
      the closure walk, the archive writer and reader and the collector of
      agent/src/core/objects, over the classes [ObjectStoreSpec] and [ObjectAdminSpec];
      [ObjectClosureProperties] and [ObjectArchiveProperties] the proofs,
      [ObjectExamples] a concrete store.
    - [PromptTemplates]: both prompt-templates.ts, in the modules [Harness] and
      [CodingAgent].  [StackLayout]: tui/src/components/stack.ts.
    - [TransformMessages]: ai/src/api/transform-messages.ts.  [JsonRepair]:
      ai/src/utils/json-parse.ts, on the JSON texts of [Json].
    - [LiveSessions]: server/src/sessions.ts as steps between awaits, with the
      invariant of its table.

    Definitions carry the names of the functions they translate.  A method that
    assigns fields takes the state and returns the new one; a method that may
    throw returns a [Result]; a loop is a fold or a [Fixpoint] over the data it
    consumes, named after its function.

    ** The theorems

    - Sessions ([SessionProperties]): every reachable state and every log that
      replays is well formed, with at most one open operation per lane; branch
      queries terminate and return the parent chain; forks replay to the same
      content; the open-operation index agrees with the log; reads of the log
      are suffixes; appends extend one lane; writes fail only by their guards;
      the facade is correct over any storage that keeps the contract.
    - Session files ([JsonlRecovery], [JsonValidation], [JsonlRepoProperties]):
      whatever a crash leaves of the last append, opening recovers the log before
      or after it; the file storage simulates the one in memory; a fork is there
      whole or not at all; the serializability check accepts exactly the finite
      acyclic JSON values; a created session is found again.
    - The session manager ([ManagerInvariant], [ManagerForest]): every operation
      keeps the log a tree with distinct ids and the index, the leaf, the labels and
      the file in agreement with it, as long as random UUIDs do not repeat and the
      files that are opened are absent, empty or trees of the current version; a
      session reopened from its file is the session written; a branched session
      holds the path it was cut at; [getBranch] is that path and diverges
      exactly on cyclic files; the tree view holds every entry once.
    - The agent loop ([AgentLoopProperties]): the events of every run follow
      the protocol; in a run that is not aborted every answer that did not fail is
      followed by a result for each of its tool calls; an aborted run takes nothing
      from its queues; a run returns what
      it announced; results come in source order under any scheduler; runs end
      when what keeps them going costs a budget; the pending calls of a
      transcript.  [AgentProperties]: every operation of the class is refused
      without a change or leaves an idle agent with the messages its run announced,
      when its hooks start and end no run.  [EventStream]: a consumer sees the events
      of the run in order and then its result.
    - Edits: an exact edit replaces exactly the matched occurrence and rejects
      absent, repeated and overlapping matches; a fuzzy edit leaves every line
      outside the matched ones as it was; the byte order mark and the line
      ending of the file survive; the diff's rows are the lines of both texts.
    - The mutation queue: two operations on one file never overlap and run in the
      order they were queued.  Provider messages come in the order of the
      session, exactly the excluded ones left out, but for custom messages among the
      results of an answer, which come after the results.
    - Context ([SessionContext]): it starts at the newest compaction and never
      shows a deferred placeholder.
    - Recovery ([ReducerProperties]): validation accepts exactly the logs of the
      protocol; the recovered tool batch, pending inputs and configuration are
      those the log determines.
    - CBOR ([CborProperties]): round trip, bounds on decoded values, rejection
      of cycles and unpaired surrogates, sufficiency of the recursion bound.
    - Frames ([FramingProperties]): refinement of a byte machine whatever the
      chunk boundaries, round trip, truncated streams, complete frames.
    - Objects: the walk visits exactly the objects reachable from its roots, and
      ends; an import stores nothing it has not checked; an exported bundle
      imports to the same objects when the collation of the host orders their
      addresses by code units, and is refused otherwise; the collector deletes
      nothing reachable and nothing its plan does not name.
    - Terminal input ([StdinProperties]): the sequences emitted do not depend on
      how the input is cut into chunks, and a bracketed paste is emitted whole.
    - The line editor ([InputHistory]): the cursor stays inside the text, unless a yank
      is taken back after [setValue] replaced its text; kills and a yank cancel out;
      undo leads back to any earlier text and to the empty one; a paste arrives as its text without line breaks.
    - Requests ([TransformMessages]): in what is sent every tool call is answered in
      its turn, complete histories are sent as they are, a model gets no images or
      thinking it cannot take (system messages are passed on as they are), and cached
      prefixes hold only stable messages.  Tool arguments
      ([JsonRepair]): repairs change no JSON text, and texts with raw control
      characters are read as the values they stand for.
    - Prompt templates: both versions fill a template with the arguments its
      placeholders name, and quoted arguments reach it unchanged.  Stacks: sizes
      respect their bounds and fill the space as far as the bounds allow.
    - The server's sessions ([LiveSessions]): in every interleaving without
      removals a runtime is disposed at most once and never while it is used, and
      connections and sessions agree on who is attached.
    - Truncation ([TruncateProperties]): exact byte counts, longest prefix and
      suffix of whole lines, whole characters.
    - Compaction planning ([CompactionProperties]): a partition of the messages,
      no orphaned tool result, the token budget, complete file lists.
    - Retries and identifiers ([RetryProperties]): exact classification of
      transient failures, the whole trace of calls, delays and reports, and
      strictly increasing identifiers.
    - Summaries ([SummaryProperties], [BranchSummaryProperties]): [compact]
      refines its planned exchanges; exactly the abandoned entries, and the
      newest messages within the budget.

    ** Bounds and fuel

    Loops over lists are structural.  The parent walk has the number of entries
    plus one as fuel, and [findEntriesOnBranch_total] shows it suffices.  The
    recursion of the CBOR codec counts remaining nesting levels
    ([cbor_depth_fuel]).  [pushEach] has the length of the chunk as fuel, because
    each step consumes a byte, and the growth of the encoder's buffer its number
    of doublings.  The walk of
    [collectEntriesForBranchSummary] has the length of the old branch
    ([collectEntries_abandoned]) and the retry loop the number of retries left.
    The agent loop may run forever; its fuel bounds turns and scheduling steps,
    more fuel never changes an outcome, and [run_terminates] says when some fuel
    is enough.  The serializability check counts the values left to visit
    ([assertJsonSerializable_decides] shows which fuel decides).  The session
    manager's parent walk ends when the file has no cycle
    ([getBranch_is_path]), and [tree_of] has the number of entries as fuel
    ([getTree_holds_log]).  The loops of [StdinBuffer] have the length of the text,
    since each step removes a code unit.  The closure walk counts rounds
    ([closure_walk_exact] says how many are enough), and [read_objects] has the
    length of the archive, because each member takes a block of it.  A replacement
    in a text has the length of the text, and the rounds that resize a stack have
    the amount to distribute, since each but the last takes at least 1 of it
    ([stack_fills_space]).

    ** Parameters

    Code outside the repository is a parameter: typebox's [IsDeepEqual] in the
    reducer, the runtime's [Buffer] in truncation, number formatting and parsing
    in JSON, [String.prototype.normalize] and the npm package diff in the edit
    tool, [localeCompare] in listings and in object bundles (of which only a
    consistent order is assumed), [Intl.Segmenter] and the key bindings in the
    line editor, the npm packages yaml in prompt templates and partial-json in
    tool arguments, sha256 in object bundles, the file system,
    the object stores and their write windows, the provider, the abort signal,
    the clock and random bytes (a random UUID is assumed not to be drawn twice);
    so are the size of canonical JSON and the tree of objects that a large state of
    the session manager is kept in.  The contracts assumed of them are type classes,
    each with an instance that keeps it.  Sequence numbers, lengths, token
    estimates and timestamps are integers; usage, costs and JSON numbers are
    binary64.

    ** What is not modelled

    Provider APIs, authentication, the terminal rendering and web interfaces, the
    command line application, transports, clients and database backends are input
    and output around the parts above.  Of the session manager, the listing of
    sessions across projects, the reading of large states and the factories that
    choose paths are left out.  Of the server, the handshake and the routing of messages
    are left out, and of its session table the snapshots that are sent, listings
    and the final [close].  The harness class (agent/src/harness/agent-harness.ts)
    rejects every operation as not implemented in this version of the repository,
    so there is no orchestration to model.  Of the provider layer, the formats of
    the single providers and their request retries, which read dates and headers,
    are not covered; neither are the state of the client, the multi-line editor of
    the terminal, and the memory store, which is a database. *)

From stdpp Require Import base tactics list gmap strings pretty sorting.
From Stdlib Require Import ZArith Lia Ascii.
From Stdlib Require Export SpecFloat.
#[global] Set Default Goal Selector "!".

(** * JavaScript strings

    A JavaScript string is a sequence of 16-bit code units.  [js] embeds a
    literal of the source, whose characters are ASCII. *)

Abbreviation jstring := (list Z).

Fixpoint js (s : string) : jstring :=
  match s with
  | EmptyString => []
  | String a s' => Z.of_N (N_of_ascii a) :: js s'
  end.

(** Decimal rendering of an integer inside a template literal. *)
Definition js_of_Z (z : Z) : jstring := js (pretty z).

(** Its characters are digits and a minus sign. *)
Definition decimal_character (u : Z) : Prop := (u = 45 \/ 48 <= u <= 57)%Z.

Lemma pretty_N_go_decimal x s : Forall decimal_character (js s) -> Forall decimal_character (js (pretty_N_go x s)).
Proof.
  revert s. induction (N.lt_wf_0 x) as [x _ IH]; intros s Hs.
  destruct (decide (x = 0)%N) as [->|Hx]; [by rewrite pretty_N_go_0|].
  rewrite pretty_N_go_step by lia. apply IH; [apply N.div_lt; lia|]. simpl. constructor; [|done].
  unfold pretty_N_char, decimal_character. repeat case_match; simpl; lia.
Qed.

Lemma js_of_Z_decimal z : Forall decimal_character (js_of_Z z).
Proof.
  assert (HN : forall x : N, Forall decimal_character (js (pretty x))).
  { intros x. unfold pretty, pretty_N. case_decide; [|apply pretty_N_go_decimal; constructor].
    repeat constructor; unfold decimal_character; simpl; lia. }
  unfold js_of_Z. destruct z as [|p|p]; [apply (HN 0%N)|apply HN|].
  change (pretty (Z.neg p)) with (String "-"%char (pretty (N.pos p))). constructor; [by left|apply HN].
Qed.

(** * Numbers

    Fields the code treats as opaque numbers (costs, token counters reported
    by a provider, numbers inside JSON payloads) are IEEE binary64 values;
    [nadd] is the language's [+] on them.  Sequence numbers, indices, lengths
    and timestamps are integers and are modelled in [Z]. *)

Definition number := spec_float.
Definition nadd (a b : number) : number := SFadd 53 1024 a b.
Definition nzero : number := S754_zero false.

#[global] Instance number_eq_dec : EqDecision number.
Proof. solve_decision. Defined.

(** * Errors as values

    [Ok] is a normal return, [Err] a thrown exception. *)

Inductive Result (E A : Type) : Type :=
| Ok (a : A)
| Err (e : E).
Arguments Ok {E A} a.
Arguments Err {E A} e.

Definition rbind {E A B} (m : Result E A) (k : A -> Result E B) : Result E B :=
  match m with Ok a => k a | Err e => Err e end.

Definition rmap {E A B} (f : A -> B) (m : Result E A) : Result E B :=
  match m with Ok a => Ok (f a) | Err e => Err e end.

(** [if (!b) throw e]. *)
Definition rguard {E} (b : bool) (e : E) : Result E unit :=
  if b then Ok tt else Err e.

Declare Scope js_scope.
Delimit Scope js_scope with js.
Notation "'let*' x ':=' m 'in' k" := (rbind m (fun x => k))
  (at level 10, x pattern, m at level 100, k at level 200) : js_scope.
Notation "m ';;;' k" := (rbind m (fun _ => k))
  (at level 100, k at level 200, right associativity) : js_scope.
Open Scope js_scope.

(** A [for ... of] loop whose body may throw, threading the loop's variables. *)
Fixpoint rfold {E A S} (f : S -> A -> Result E S) (s : S) (l : list A) : Result E S :=
  match l with
  | [] => Ok s
  | x :: l' => let* s' := f s x in rfold f s' l'
  end.

Create HintDb result.

Lemma rbind_Ok_inv {E A B} (m : Result E A) (k : A -> Result E B) b :
  rbind m k = Ok b -> exists a, m = Ok a /\ k a = Ok b.
Proof. destruct m as [a|e]; simpl; [eauto | discriminate]. Qed.

Lemma rguard_Ok {E} b (e : E) u : rguard b e = Ok u <-> b = true.
Proof. destruct b, u; simpl; split; congruence. Qed.

Lemma rguard_bind_Ok {E A} b (e : E) (k : Result E A) r :
  rbind (rguard b e) (fun _ => k) = Ok r <-> b = true /\ k = Ok r.
Proof. destruct b; simpl; intuition congruence. Qed.

Lemma rfold_app {E A S} (f : S -> A -> Result E S) s l1 l2 :
  rfold f s (l1 ++ l2) = let* s' := rfold f s l1 in rfold f s' l2.
Proof.
  revert s; induction l1 as [|x l1 IH]; intros s; simpl; [done|].
  destruct (f s x); simpl; auto.
Qed.

(** A loop invariant carries through a throwing loop. *)
Lemma rfold_inv {E A S} (f : S -> A -> Result E S) (P : S -> Prop) l :
  (forall s x s', x ∈ l -> P s -> f s x = Ok s' -> P s') ->
  forall s s', P s -> rfold f s l = Ok s' -> P s'.
Proof.
  induction l as [|x l IH]; simpl; intros Hf s s' HP Hs; [congruence|].
  apply rbind_Ok_inv in Hs as (s1 & H1 & H2).
  eapply IH; [| |exact H2]; [|eapply Hf; [|exact HP|exact H1]; left].
  intros; eapply Hf; eauto; by right.
Qed.

(** Inverts every successful step of a throwing computation. *)
Ltac inv_result :=
  repeat match goal with
  | H : rbind (rguard _ _) _ = Ok _ |- _ => apply rguard_bind_Ok in H as [? H]
  | H : rbind _ _ = Ok _ |- _ =>
      let a := fresh "a" in let Ha := fresh "Ha" in
      apply rbind_Ok_inv in H as (a & Ha & H)
  | H : rguard _ _ = Ok _ |- _ => apply rguard_Ok in H
  | H : Ok _ = Ok _ |- _ => injection H as H
  | H : Err _ = Ok _ |- _ => discriminate H
  | H : Ok _ = Err _ |- _ => discriminate H
  end.

(** * JavaScript [Map]

    Keys keep the position of their first insertion; [set] on a present key
    replaces the value in place; [delete] removes the pair. *)

Section JsMap.
Context {K V : Type} `{Keq : EqDecision K}.
Implicit Types (m : list (K * V)).

Fixpoint map_get (k : K) m : option V :=
  match m with
  | [] => None
  | (k', v) :: m' => if decide (k = k') then Some v else map_get k m'
  end.

Definition map_has (k : K) m : bool :=
  match map_get k m with Some _ => true | None => false end.

Fixpoint map_set (k : K) (v : V) m : list (K * V) :=
  match m with
  | [] => [(k, v)]
  | (k', v') :: m' =>
      if decide (k = k') then (k', v) :: m' else (k', v') :: map_set k v m'
  end.

Fixpoint map_delete (k : K) m : list (K * V) :=
  match m with
  | [] => []
  | (k', v) :: m' => if decide (k = k') then m' else (k', v) :: map_delete k m'
  end.

Definition map_keys m : list K := m.*1.
Definition map_values m : list V := m.*2.

(** A [Map] never holds a key twice. *)
Definition map_wf m : Prop := NoDup (map_keys m).

Lemma map_get_set_eq k v m : map_get k (map_set k v m) = Some v.
Proof.
  induction m as [|[k' v'] m IH]; simpl; repeat (case_decide; simpl); congruence.
Qed.

Lemma map_get_set_ne k k' v m : k <> k' -> map_get k (map_set k' v m) = map_get k m.
Proof.
  intros Hne; induction m as [|[k2 v2] m IH]; simpl;
    repeat (case_decide; simpl; subst); congruence.
Qed.

Lemma map_get_set k k' v m :
  map_get k (map_set k' v m) = if decide (k = k') then Some v else map_get k m.
Proof.
  case_decide; subst; [apply map_get_set_eq | by apply map_get_set_ne].
Qed.

Lemma map_has_set k k' v m :
  map_has k (map_set k' v m) = bool_decide (k = k') || map_has k m.
Proof.
  unfold map_has. rewrite map_get_set. case_decide; case_bool_decide; done.
Qed.

Lemma map_has_Some k m : map_has k m = true <-> exists v, map_get k m = Some v.
Proof. unfold map_has. destruct (map_get k m); naive_solver. Qed.

Lemma map_has_keys k m : map_has k m = true <-> k ∈ map_keys m.
Proof.
  unfold map_has, map_keys; induction m as [|[k' v] m IH]; simpl.
  - split; [done | intros H; by apply not_elem_of_nil in H].
  - case_decide; subst; rewrite elem_of_cons; naive_solver.
Qed.

Lemma map_keys_set k v m :
  map_keys (map_set k v m) = if map_has k m then map_keys m else map_keys m ++ [k].
Proof.
  unfold map_has, map_keys; induction m as [|[k' v'] m IH]; csimpl; [done|].
  case_decide; subst; csimpl; [done|]. rewrite IH. by destruct (map_get k m).
Qed.

Lemma map_set_wf k v m : map_wf m -> map_wf (map_set k v m).
Proof.
  unfold map_wf. rewrite map_keys_set. destruct (map_has k m) eqn:E; [done|].
  intros H. apply NoDup_app. split_and!; [done| |apply NoDup_singleton].
  intros x Hx ->%list_elem_of_singleton.
  apply map_has_keys in Hx. congruence.
Qed.

Lemma map_delete_keys_sub k m x : x ∈ map_keys (map_delete k m) -> x ∈ map_keys m.
Proof.
  unfold map_keys; induction m as [|[k' v] m IH]; simpl; [done|].
  case_decide; simpl; rewrite ?elem_of_cons; naive_solver.
Qed.

Lemma map_delete_wf k m : map_wf m -> map_wf (map_delete k m).
Proof.
  unfold map_wf; induction m as [|[k' v] m IH]; simpl; [done|].
  intros [Hn Hd]%NoDup_cons. case_decide; [done|]. simpl. apply NoDup_cons.
  split; [|auto]. intros Hin. by apply Hn, (map_delete_keys_sub k).
Qed.

Lemma map_get_delete k k' m :
  map_wf m -> map_get k (map_delete k' m) = if decide (k = k') then None else map_get k m.
Proof.
  unfold map_wf; induction m as [|[k2 v2] m IH]; simpl; [intros _; by case_decide|].
  intros [Hn Hd]%NoDup_cons. destruct (decide (k' = k2)) as [->|E].
  - destruct (decide (k = k2)) as [->|E2]; [|done].
    destruct (map_get k2 m) eqn:E3; [|done].
    exfalso. apply Hn, map_has_keys. unfold map_has. by rewrite E3.
  - simpl. rewrite (IH Hd). repeat case_decide; subst; congruence.
Qed.

Lemma map_get_In k v m : map_get k m = Some v -> (k, v) ∈ m.
Proof.
  induction m as [|[k' v'] m IH]; simpl; [done|].
  case_decide; subst; [intros [= ->]; left | right; auto].
Qed.

Lemma map_set_fresh k v m : map_has k m = false -> map_set k v m = m ++ [(k, v)].
Proof.
  unfold map_has; induction m as [|[k' v'] m IH]; simpl; [done|].
  case_decide; [done|]. intros Hk. by rewrite IH.
Qed.

(** [m.values()] as elements: what [get] can return, and conversely. *)
Lemma map_values_elem v m : map_wf m -> v ∈ map_values m <-> exists k, map_get k m = Some v.
Proof.
  unfold map_wf, map_values; induction m as [|[k' v'] m IH]; simpl.
  - intros _; split; [by intros ?%not_elem_of_nil | by intros (k & ?)].
  - intros [Hn Hd]%NoDup_cons. rewrite elem_of_cons, (IH Hd). split.
    + intros [->|(k & Hk)]; [exists k'; by rewrite decide_True|].
      exists k. rewrite decide_False; [done|]. intros ->. apply Hn.
      apply map_has_keys, map_has_Some. eauto.
    + intros (k & Hk). case_decide; [left; congruence | right; eauto].
Qed.

End JsMap.

(** [new Map(pairs)] : pairs inserted left to right. *)
Definition map_of_list {K V} `{Keq : EqDecision K} (l : list (K * V)) : list (K * V) :=
  foldl (fun m kv => map_set kv.1 kv.2 m) [] l.

Lemma map_of_list_snoc {K V} `{Keq : EqDecision K} (l : list (K * V)) k v :
  map_of_list (l ++ [(k, v)]) = map_set k v (map_of_list l).
Proof. unfold map_of_list. by rewrite foldl_app. Qed.

Lemma map_of_list_wf {K V} `{Keq : EqDecision K} (l : list (K * V)) : map_wf (map_of_list l).
Proof.
  induction l as [|[k v] l IH] using rev_ind; [apply NoDup_nil_2|].
  rewrite map_of_list_snoc. by apply map_set_wf.
Qed.

Lemma map_of_list_has {K V} `{Keq : EqDecision K} (l : list (K * V)) k :
  map_has k (map_of_list l) = true <-> k ∈ l.*1.
Proof.
  induction l as [|[k' v] l IH] using rev_ind; [by rewrite map_has_keys|].
  rewrite map_of_list_snoc, map_has_set, fmap_app, elem_of_app, orb_true_iff, IH.
  simpl. rewrite list_elem_of_singleton, bool_decide_eq_true. naive_solver.
Qed.

Lemma map_of_list_get_In {K V} `{Keq : EqDecision K} (l : list (K * V)) k v :
  map_get k (map_of_list l) = Some v -> (k, v) ∈ l.
Proof.
  induction l as [|[k' v'] l IH] using rev_ind; [done|].
  rewrite map_of_list_snoc, map_get_set, elem_of_app, list_elem_of_singleton.
  case_decide; subst; [intros [= ->]; by right | intros; left; auto].
Qed.

(** Keys that occur once are stored in the order of the input. *)
Lemma map_of_list_NoDup {K V} `{Keq : EqDecision K} (l : list (K * V)) :
  NoDup l.*1 -> map_of_list l = l.
Proof.
  induction l as [|[k v] l IH] using rev_ind; [done|].
  rewrite fmap_app, NoDup_app. intros (Hd & Hx & _).
  rewrite map_of_list_snoc, (IH Hd). apply map_set_fresh.
  destruct (map_has k l) eqn:E; [|done]. apply map_has_keys in E.
  destruct (Hx k E). left.
Qed.

(** * Stable sort

    [values.sort((left, right) => left.key - right.key)]: JavaScript's sort is
    stable, so elements with equal keys keep their order. *)

Section SortBy.
Context {A : Type} (key : A -> Z).

Fixpoint insert_by (x : A) (l : list A) : list A :=
  match l with
  | [] => [x]
  | y :: l' => if (key x <=? key y)%Z then x :: y :: l' else y :: insert_by x l'
  end.

Definition sort_by (l : list A) : list A := foldr insert_by [] l.

Definition key_le (x y : A) : Prop := (key x <= key y)%Z.

Lemma insert_by_perm x l : insert_by x l ≡ₚ x :: l.
Proof.
  induction l as [|y l IH]; simpl; [done|].
  destruct (key x <=? key y)%Z; [done|]. rewrite IH. constructor.
Qed.

Lemma sort_by_perm l : sort_by l ≡ₚ l.
Proof.
  induction l as [|x l IH]; simpl; [done|]. by rewrite insert_by_perm, IH.
Qed.

Lemma insert_by_sorted x l :
  StronglySorted key_le l -> StronglySorted key_le (insert_by x l).
Proof.
  induction l as [|y l IH]; simpl; intros Hs.
  - repeat constructor.
  - inversion_clear Hs as [|? ? Hl Hy]. destruct (Z.leb_spec (key x) (key y)).
    + repeat constructor; [done|done|exact H|].
      eapply Forall_impl; [exact Hy|]. unfold key_le; lia.
    + constructor; [auto|]. rewrite insert_by_perm. constructor; [unfold key_le; lia|done].
Qed.

Lemma sort_by_sorted l : StronglySorted key_le (sort_by l).
Proof.
  induction l as [|x l IH]; simpl; [constructor | by apply insert_by_sorted].
Qed.

Lemma sort_by_id l : StronglySorted key_le l -> sort_by l = l.
Proof.
  induction 1 as [|x l Hl IH Hx]; simpl; [done|]. rewrite IH.
  destruct Hx as [|y l Hxy]; simpl; [done|].
  destruct (Z.leb_spec (key x) (key y)); [done | unfold key_le in Hxy; lia].
Qed.

Lemma sort_by_elem x l : x ∈ sort_by l <-> x ∈ l.
Proof. by rewrite sort_by_perm. Qed.

Lemma NoDup_map_inj l x y : NoDup (map key l) -> x ∈ l -> y ∈ l -> key x = key y -> x = y.
Proof.
  intros Hnd [i Hi]%list_elem_of_lookup [j Hj]%list_elem_of_lookup Hk.
  assert (Hki : map key l !! i = Some (key x)).
  { change (map key l) with (key <$> l). by rewrite list_lookup_fmap, Hi. }
  assert (Hkj : map key l !! j = Some (key x)).
  { change (map key l) with (key <$> l). rewrite list_lookup_fmap, Hj. simpl. by f_equal. }
  pose proof (NoDup_lookup _ _ _ _ Hnd Hki Hkj). congruence.
Qed.

(** With distinct keys the sorted list does not depend on the input order. *)
Lemma sort_by_order l l' : NoDup (map key l) -> l ≡ₚ l' -> sort_by l = sort_by l'.
Proof.
  intros Hnd Hp. apply (StronglySorted_unique_strong key_le).
  - intros x y Hx Hy H1 H2. rewrite sort_by_elem in Hx, Hy. rewrite <- Hp in Hy.
    eapply NoDup_map_inj; [done..|]. unfold key_le in *. lia.
  - apply sort_by_sorted.
  - apply sort_by_sorted.
  - by rewrite !sort_by_perm.
Qed.

(** With distinct keys the sorted list is strictly increasing. *)
Lemma sort_by_strict l :
  NoDup (map key l) -> StronglySorted (fun x y => key x < key y)%Z (sort_by l).
Proof.
  intros Hnd. pose proof (sort_by_sorted l) as Hs.
  assert (Hnd' : NoDup (map key (sort_by l))) by (by rewrite sort_by_perm).
  induction Hs as [|x l' Hs IH Hx]; [constructor|]. simpl in Hnd'.
  apply NoDup_cons in Hnd' as [Hn Hnd']. constructor; [auto|].
  apply Forall_forall. intros y Hy. rewrite Forall_forall in Hx. specialize (Hx _ Hy).
  unfold key_le in Hx. assert (key x <> key y); [|lia].
  intros E. apply Hn. rewrite E. by apply (list_elem_of_fmap_2 key).
Qed.
End SortBy.

#[export] Hint Resolve sort_by_sorted map_set_wf map_delete_wf map_of_list_wf : result.

(** * Bounded collection loops

    [for (const x of l) { if (!p(x)) continue; results.push(x);
                          if (results.length === limit) break; }] *)

Fixpoint collect {A} (p : A -> bool) (limit : option Z) (results l : list A) : list A :=
  match l with
  | [] => results
  | x :: l' =>
      if p x then
        let results' := results ++ [x] in
        if decide (Some (Z.of_nat (length results')) = limit) then results'
        else collect p limit results' l'
      else collect p limit results l'
  end.

(** What a bounded query returns: the first [limit] matches. *)
Definition limited {A} (limit : option Z) (l : list A) : list A :=
  match limit with None => l | Some n => take (Z.to_nat n) l end.

Lemma collect_limited {A} (p : A -> bool) limit (results l : list A) :
  (forall n, limit = Some n -> (Z.of_nat (length results) < n)%Z) ->
  collect p limit results l = limited limit (results ++ List.filter p l).
Proof.
  revert results; induction l as [|x l IH]; intros results Hlim; simpl.
  - rewrite app_nil_r. destruct limit as [n|]; simpl; [|done].
    specialize (Hlim n eq_refl). rewrite take_ge; [done|lia].
  - destruct (p x); [|by apply IH]. case_decide as E.
    + subst limit. simpl. rewrite Nat2Z.id.
      change (x :: List.filter p l) with ([x] ++ List.filter p l).
      by rewrite (app_assoc results [x]), take_app_length.
    + rewrite IH; [by rewrite <- (app_assoc _ [x])|].
      intros n ->. specialize (Hlim n eq_refl). rewrite length_app in *. simpl in *.
      destruct (decide (Z.of_nat (length results + 1) = n)); [subst; done|lia].
Qed.

Lemma filter_all {A} (p : A -> bool) l :
  (forall x, x ∈ l -> p x = true) -> List.filter p l = l.
Proof.
  induction l as [|x l IH]; intros Hp; simpl; [done|].
  rewrite (Hp x) by left. f_equal. apply IH. intros y Hy. apply Hp. by right.
Qed.
