(* ===== verification/SessionTypes.v ===== *)
(** * Messages, entries and lane records

    The data of packages/ai/src/types.ts (messages, usage, deferred handles),
    packages/agent/src/harness/messages.ts (the harness's own messages and the
    projection to provider messages) and packages/agent/src/harness/session/types.ts
    (tree entries, lane records, queries, session errors).  Every interface is a
    [Record] with the source's fields, every tagged union an [Inductive] with
    one constructor per tag, and an optional field is an [option]. *)

From stdpp Require Import base list gmap strings.
From Stdlib Require Import ZArith Lia.
From S2P Require Import Prelude.

(** JSON payloads ([JsonValue], and the [unknown] payloads the session requires
    to be JSON).  Objects keep their property order. *)
#[warnings="-register-all"]
Inductive json :=
| JNull
| JBool (b : bool)
| JNumber (n : number)
| JString (s : jstring)
| JArray (l : list json)
| JObject (fields : list (jstring * json)).

(** ** packages/ai/src/types.ts *)

Record TextContent := { text_text : jstring; text_textSignature : option jstring }.

Record ThinkingContent := {
  thinking_thinking : jstring;
  thinking_thinkingSignature : option jstring;
  thinking_redacted : option bool }.

Record ImageContent := { image_data : jstring; image_mimeType : jstring }.

Record ToolCall := {
  toolCall_id : jstring;
  toolCall_name : jstring;
  toolCall_arguments : list (jstring * json);
  toolCall_thoughtSignature : option jstring;
  toolCall_namespace : option jstring }.

Record Cost := {
  cost_input : number; cost_output : number; cost_cacheRead : number;
  cost_cacheWrite : number; cost_total : number }.

Record Usage := {
  usage_input : number;
  usage_output : number;
  usage_cacheRead : number;
  usage_cacheWrite : number;
  usage_cacheWrite1h : option number;
  usage_reasoning : option number;
  usage_totalTokens : number;
  usage_cost : Cost }.

Inductive StopReason :=
| SR_pending | SR_stop | SR_length | SR_toolUse | SR_error | SR_aborted | SR_deferred.

Record DeferredHandle := {
  handle_provider : jstring;
  handle_modelId : jstring;
  handle_api : jstring;
  handle_id : jstring;
  handle_expiresAt : option number;
  handle_pollAfterMs : option number;
  handle_data : option json }.

(** [(TextContent | ImageContent)] *)
Inductive UserBlock := UB_text (t : TextContent) | UB_image (i : ImageContent).

(** [string | (TextContent | ImageContent)[]] *)
Inductive UserContent := UC_string (s : jstring) | UC_blocks (l : list UserBlock).

(** [(TextContent | ThinkingContent | ToolCall)] *)
Inductive AssistantBlock :=
| AB_text (t : TextContent)
| AB_thinking (t : ThinkingContent)
| AB_toolCall (c : ToolCall).

Record SystemMessage := { sys_content : UserContent; sys_timestamp : Z }.
Record UserMessage := { user_content : UserContent; user_timestamp : Z }.

Record AssistantMessage := {
  asst_content : list AssistantBlock;
  asst_api : jstring;
  asst_provider : jstring;
  asst_model : jstring;
  asst_responseModel : option jstring;
  asst_responseId : option jstring;
  asst_diagnostics : option (list json);
  asst_usage : Usage;
  asst_stopReason : StopReason;
  asst_deferred : option DeferredHandle;
  asst_errorMessage : option jstring;
  asst_rawStopReason : option jstring;
  asst_endTurn : option bool;
  asst_timestamp : Z }.

Record ToolResultMessage := {
  tres_toolCallId : jstring;
  tres_toolName : jstring;
  tres_content : list UserBlock;
  tres_details : option json;
  tres_usage : option Usage;
  tres_addedToolNames : option (list jstring);
  tres_isError : bool;
  tres_timestamp : Z }.

(** [Message]: what a provider accepts. *)
Inductive Message :=
| M_system (m : SystemMessage)
| M_user (m : UserMessage)
| M_assistant (m : AssistantMessage)
| M_toolResult (m : ToolResultMessage).

(** ** packages/agent/src/harness/messages.ts *)

Record BashExecutionMessage := {
  bash_command : jstring;
  bash_output : jstring;
  bash_exitCode : option Z;
  bash_cancelled : bool;
  bash_truncated : bool;
  bash_fullOutputPath : option jstring;
  bash_timestamp : Z;
  bash_excludeFromContext : option bool }.

Record CustomMessage := {
  cmsg_customType : jstring;
  cmsg_content : UserContent;
  cmsg_display : bool;
  cmsg_details : option json;
  cmsg_timestamp : Z }.

Record BranchSummaryMessage := {
  bsum_summary : jstring; bsum_fromId : jstring; bsum_timestamp : Z }.

Record CompactionSummaryMessage := {
  csum_summary : jstring; csum_tokensBefore : number; csum_timestamp : Z }.

(** [AgentMessage]: provider messages and the harness's own. *)
Inductive AgentMessage :=
| AM_message (m : Message)
| AM_bashExecution (m : BashExecutionMessage)
| AM_custom (m : CustomMessage)
| AM_branchSummary (m : BranchSummaryMessage)
| AM_compactionSummary (m : CompactionSummaryMessage).

Inductive Role :=
| R_system | R_user | R_assistant | R_toolResult
| R_bashExecution | R_custom | R_branchSummary | R_compactionSummary.

(** [message.role] *)
Definition role_of (m : AgentMessage) : Role :=
  match m with
  | AM_message (M_system _) => R_system
  | AM_message (M_user _) => R_user
  | AM_message (M_assistant _) => R_assistant
  | AM_message (M_toolResult _) => R_toolResult
  | AM_bashExecution _ => R_bashExecution
  | AM_custom _ => R_custom
  | AM_branchSummary _ => R_branchSummary
  | AM_compactionSummary _ => R_compactionSummary
  end.

(** ** packages/agent/src/harness/session/types.ts *)

(** The discriminant of an entry with its variant's own fields. *)
Inductive EntryPayload :=
| E_message (message : AgentMessage) (terminate : bool)
| E_model_change (provider modelId : jstring)
| E_thinking_level_change (thinkingLevel : jstring)
| E_active_tools_change (activeToolNames : list jstring)
| E_compaction (summary : jstring) (retainedTail : list AgentMessage)
    (tokensBefore : number) (details : option json) (usage : option Usage)
| E_branch_summary (fromId summary : jstring) (details : option json) (usage : option Usage)
| E_custom (customType : jstring) (data : option json).

Inductive EntryType :=
| T_message | T_model_change | T_thinking_level_change | T_active_tools_change
| T_compaction | T_branch_summary | T_custom.

Record Entry := {
  entry_id : jstring;
  entry_seq : Z;
  entry_parentId : option jstring;
  entry_timestamp : Z;
  entry_payload : EntryPayload }.

(** [Omit<Entry, "parentId" | "seq" | "timestamp">] *)
Record ProvisionedEntry := { pe_id : jstring; pe_payload : EntryPayload }.

(** [entry.type] *)
Definition type_of (p : EntryPayload) : EntryType :=
  match p with
  | E_message _ _ => T_message
  | E_model_change _ _ => T_model_change
  | E_thinking_level_change _ => T_thinking_level_change
  | E_active_tools_change _ => T_active_tools_change
  | E_compaction _ _ _ _ _ => T_compaction
  | E_branch_summary _ _ _ _ => T_branch_summary
  | E_custom _ _ => T_custom
  end.

Definition entry_type (e : Entry) : EntryType := type_of (entry_payload e).

Inductive Intent :=
| I_run (originalPrompt : list AgentMessage) (initialMessages : list ProvisionedEntry)
    (systemPromptOverride : option jstring) (resumeData : option (list (jstring * json)))
| I_compaction (customInstructions : option jstring) (resultEntryId : jstring)
| I_navigation (targetId : option jstring) (summarize : bool)
    (customInstructions label summaryEntryId : option jstring).

Inductive OperationKind := K_run | K_compaction | K_navigation.

Definition intent_kind (i : Intent) : OperationKind :=
  match i with
  | I_run _ _ _ _ => K_run
  | I_compaction _ _ => K_compaction
  | I_navigation _ _ _ _ _ => K_navigation
  end.

Inductive Outcome := O_completed | O_aborted | O_failed | O_declined.
Inductive StepKind := S_assistant | S_compaction | S_branch_summary.

(** A recorded [compactionReason]; the log is untrusted, so a value outside the
    declared union is representable. *)
Inductive CompactionReason := CR_manual | CR_threshold | CR_overflow | CR_other (v : json).

Inductive QueueKind := Q_steer | Q_followUp | Q_nextRun.
Inductive Replay := RP_never | RP_safe.

Inductive UsageCause :=
| UC_assistant | UC_compaction | UC_branch_summary | UC_deferred_fetch
| UC_tool | UC_hook | UC_adjustment.

(** The discriminant of a lane record with its variant's own fields. *)
Inductive RecordPayload :=
| P_operation_started (sourceLeafId : option jstring) (intent : Intent)
| P_abort_requested (runId : jstring)
| P_operation_finished (runId : jstring) (outcome : Outcome) (error : option (jstring * jstring))
| P_step_attempt (runId : jstring) (step : StepKind) (attempt : Z) (resultEntryId : jstring)
    (compactionReason : option CompactionReason)
| P_tool_started (runId assistantEntryId : jstring) (toolIndex : Z)
    (toolCallId toolName : jstring) (effectiveArgs : list (jstring * json))
    (resultEntryId : jstring) (replay : Replay)
| P_queue_enqueued (queue : QueueKind) (runId : option jstring) (target : ProvisionedEntry)
| P_queue_cancelled (runId : option jstring) (entryId : jstring)
| P_write_deferred (runId : jstring) (target : ProvisionedEntry)
| P_usage (usage : Usage) (cause : UsageCause) (runId entryId : option jstring)
    (attempt : option Z) (stopReason : option StopReason) (toolCallId : option jstring)
    (details : option json).

Inductive RecordType :=
| RT_operation_started | RT_abort_requested | RT_operation_finished | RT_step_attempt
| RT_tool_started | RT_queue_enqueued | RT_queue_cancelled | RT_write_deferred | RT_usage.

Record LaneRecord := {
  rec_id : jstring;
  rec_seq : Z;
  rec_lane : jstring;
  rec_timestamp : Z;
  rec_payload : RecordPayload }.

(** [Omit<LaneRecord, "seq" | "timestamp">] *)
Record NewRecord := { nr_id : jstring; nr_lane : jstring; nr_payload : RecordPayload }.

Definition record_type (r : LaneRecord) : RecordType :=
  match rec_payload r with
  | P_operation_started _ _ => RT_operation_started
  | P_abort_requested _ => RT_abort_requested
  | P_operation_finished _ _ _ => RT_operation_finished
  | P_step_attempt _ _ _ _ _ => RT_step_attempt
  | P_tool_started _ _ _ _ _ _ _ _ => RT_tool_started
  | P_queue_enqueued _ _ _ => RT_queue_enqueued
  | P_queue_cancelled _ _ => RT_queue_cancelled
  | P_write_deferred _ _ => RT_write_deferred
  | P_usage _ _ _ _ _ _ _ _ => RT_usage
  end.

(** [record.runId], [None] when the property is absent. *)
Definition runId_of (r : LaneRecord) : option jstring :=
  match rec_payload r with
  | P_operation_started _ _ => None
  | P_abort_requested runId => Some runId
  | P_operation_finished runId _ _ => Some runId
  | P_step_attempt runId _ _ _ _ => Some runId
  | P_tool_started runId _ _ _ _ _ _ _ => Some runId
  | P_queue_enqueued _ runId _ => runId
  | P_queue_cancelled runId _ => runId
  | P_write_deferred runId _ => Some runId
  | P_usage _ _ runId _ _ _ _ _ => runId
  end.

(** An [OperationStartedRecord]: a lane record known to be an operation start. *)
Record OperationStartedRecord := {
  os_id : jstring;
  os_seq : Z;
  os_lane : jstring;
  os_timestamp : Z;
  os_sourceLeafId : option jstring;
  os_intent : Intent }.

(** [record.type === "operation_started"] narrows a record to its start. *)
Definition as_operation_started (r : LaneRecord) : option OperationStartedRecord :=
  match rec_payload r with
  | P_operation_started src intent =>
      Some {| os_id := rec_id r; os_seq := rec_seq r; os_lane := rec_lane r;
              os_timestamp := rec_timestamp r; os_sourceLeafId := src; os_intent := intent |}
  | _ => None
  end.

Inductive EntryOrder := newestFirst | oldestFirst.

(** [cursor] is [cursor.afterSeq] when a cursor is given. *)
Record EntryQuery := {
  eq_type : option EntryType;
  eq_customType : option jstring;
  eq_order : option EntryOrder;
  eq_limit : option Z;
  eq_cursor : option Z }.

Record BranchBounds := { bb_stopAtType : option EntryType; bb_stopAtId : option jstring }.

Record RecordQuery := {
  rq_lane : option jstring;
  rq_type : option RecordType;
  rq_runId : option jstring;
  rq_operationKind : option OperationKind;
  rq_afterSeq : option Z;
  rq_order : option EntryOrder;
  rq_limit : option Z }.

Record SessionMetadata := {
  meta_id : jstring; meta_createdAt : Z; meta_parentSessionId : option jstring }.

Record SessionStats := {
  stat_messageCount : Z;
  stat_cachedTokens : number;
  stat_uncachedTokens : number;
  stat_totalTokens : number;
  stat_costTotal : number }.

Inductive LogItem :=
| L_entry (seq : Z) (entry : Entry)
| L_record (seq : Z) (record : LaneRecord)
| L_lane (seq : Z) (lane : jstring) (leafId : option jstring)
| L_name (seq : Z) (name : option jstring)
| L_label (seq : Z) (targetId : jstring) (label : option jstring).

(** [item.seq] *)
Definition log_seq (i : LogItem) : Z :=
  match i with
  | L_entry s _ | L_record s _ | L_lane s _ _ | L_name s _ | L_label s _ _ => s
  end.

Record LogOptions := { lo_afterSeq : option Z; lo_limit : option Z }.

Inductive ForkPosition := F_before | F_at.

Inductive ForkOptions :=
| Fork_branch (entryId : option jstring) (position : option ForkPosition)
| Fork_tree.

Record SessionCreateOptions := {
  co_id : option jstring; co_parentSessionId : option jstring }.

Inductive SessionErrorCode :=
| C_not_found | C_already_exists | C_invalid_entry | C_invalid_payload
| C_invalid_lane | C_invalid_query | C_invalid_fork_target | C_storage.

Record SessionError := { err_code : SessionErrorCode; err_message : jstring }.

(** ** Decidable equality *)

#[global] Instance EntryType_eq_dec : EqDecision EntryType.
Proof. solve_decision. Defined.
#[global] Instance RecordType_eq_dec : EqDecision RecordType.
Proof. solve_decision. Defined.
#[global] Instance OperationKind_eq_dec : EqDecision OperationKind.
Proof. solve_decision. Defined.
#[global] Instance StepKind_eq_dec : EqDecision StepKind.
Proof. solve_decision. Defined.
#[global] Instance QueueKind_eq_dec : EqDecision QueueKind.
Proof. solve_decision. Defined.
#[global] Instance StopReason_eq_dec : EqDecision StopReason.
Proof. solve_decision. Defined.
#[global] Instance EntryOrder_eq_dec : EqDecision EntryOrder.
Proof. solve_decision. Defined.
#[global] Instance UsageCause_eq_dec : EqDecision UsageCause.
Proof. solve_decision. Defined.
#[global] Instance SessionErrorCode_eq_dec : EqDecision SessionErrorCode.
Proof. solve_decision. Defined.
#[global] Instance Role_eq_dec : EqDecision Role.
Proof. solve_decision. Defined.

Lemma json_rect_nested (P : json -> Type)
  (Hnull : P JNull) (Hbool : forall b, P (JBool b)) (Hnum : forall n, P (JNumber n))
  (Hstr : forall s, P (JString s))
  (Harr : forall l, (forall i x, l !! i = Some x -> P x) -> P (JArray l))
  (Hobj : forall l, (forall i k x, l !! i = Some (k, x) -> P x) -> P (JObject l)) :
  forall j, P j.
Proof.
  fix go 1. intros [| | | |l|l].
  - exact Hnull.
  - apply Hbool.
  - apply Hnum.
  - apply Hstr.
  - apply Harr. induction l as [|y l IH]; intros [|i] x Hx; try discriminate Hx.
    + injection Hx as <-. apply go.
    + exact (IH i x Hx).
  - apply Hobj. induction l as [|[k' y] l IH]; intros [|i] k x Hx; try discriminate Hx.
    + injection Hx as <- <-. apply go.
    + exact (IH i k x Hx).
Defined.

#[global] Instance json_eq_dec : EqDecision json.
Proof.
  intros x. induction x as [|b|n|s|l IH|l IH] using json_rect_nested;
    intros [|b'|n'|s'|l'|l']; try (right; discriminate); try (left; reflexivity).
  - destruct (decide (b = b')); [left; congruence | right; congruence].
  - destruct (decide (n = n')); [left; congruence | right; congruence].
  - destruct (decide (s = s')); [left; congruence | right; congruence].
  - assert (Hd : Decision (l = l')).
    { revert l' IH. induction l as [|x l IHl]; intros [|y l'] IH;
        try (left; reflexivity); try (right; discriminate).
      destruct (IH 0%nat x eq_refl y) as [Hx|Hx]; [|right; congruence].
      destruct (IHl l') as [Hl|Hl]; [|left; congruence|right; congruence].
      intros i z Hz. exact (IH (S i) z Hz). }
    destruct Hd; [left; congruence | right; congruence].
  - assert (Hd : Decision (l = l')).
    { revert l' IH. induction l as [|[k x] l IHl]; intros [|[k' y] l'] IH;
        try (left; reflexivity); try (right; discriminate).
      destruct (decide (k = k')); [|right; congruence].
      destruct (IH 0%nat k x eq_refl y) as [Hx|Hx]; [|right; congruence].
      destruct (IHl l') as [Hl|Hl]; [|left; congruence|right; congruence].
      intros i k2 z Hz. exact (IH (S i) k2 z Hz). }
    destruct Hd; [left; congruence | right; congruence].
Defined.

#[global] Instance CompactionReason_eq_dec : EqDecision CompactionReason.
Proof. solve_decision. Defined.
#[global] Instance TextContent_eq_dec : EqDecision TextContent.
Proof. solve_decision. Defined.
#[global] Instance ThinkingContent_eq_dec : EqDecision ThinkingContent.
Proof. solve_decision. Defined.
#[global] Instance ImageContent_eq_dec : EqDecision ImageContent.
Proof. solve_decision. Defined.
#[global] Instance ToolCall_eq_dec : EqDecision ToolCall.
Proof. solve_decision. Defined.
#[global] Instance Cost_eq_dec : EqDecision Cost.
Proof. solve_decision. Defined.
#[global] Instance Usage_eq_dec : EqDecision Usage.
Proof. solve_decision. Defined.
#[global] Instance DeferredHandle_eq_dec : EqDecision DeferredHandle.
Proof. solve_decision. Defined.
#[global] Instance UserBlock_eq_dec : EqDecision UserBlock.
Proof. solve_decision. Defined.
#[global] Instance UserContent_eq_dec : EqDecision UserContent.
Proof. solve_decision. Defined.
#[global] Instance AssistantBlock_eq_dec : EqDecision AssistantBlock.
Proof. solve_decision. Defined.
#[global] Instance SystemMessage_eq_dec : EqDecision SystemMessage.
Proof. solve_decision. Defined.
#[global] Instance UserMessage_eq_dec : EqDecision UserMessage.
Proof. solve_decision. Defined.
#[global] Instance AssistantMessage_eq_dec : EqDecision AssistantMessage.
Proof. solve_decision. Defined.
#[global] Instance ToolResultMessage_eq_dec : EqDecision ToolResultMessage.
Proof. solve_decision. Defined.
#[global] Instance Message_eq_dec : EqDecision Message.
Proof. solve_decision. Defined.
#[global] Instance BashExecutionMessage_eq_dec : EqDecision BashExecutionMessage.
Proof. solve_decision. Defined.
#[global] Instance CustomMessage_eq_dec : EqDecision CustomMessage.
Proof. solve_decision. Defined.
#[global] Instance BranchSummaryMessage_eq_dec : EqDecision BranchSummaryMessage.
Proof. solve_decision. Defined.
#[global] Instance CompactionSummaryMessage_eq_dec : EqDecision CompactionSummaryMessage.
Proof. solve_decision. Defined.
#[global] Instance AgentMessage_eq_dec : EqDecision AgentMessage.
Proof. solve_decision. Defined.
#[global] Instance EntryPayload_eq_dec : EqDecision EntryPayload.
Proof. solve_decision. Defined.
#[global] Instance Entry_eq_dec : EqDecision Entry.
Proof. solve_decision. Defined.
#[global] Instance ProvisionedEntry_eq_dec : EqDecision ProvisionedEntry.
Proof. solve_decision. Defined.
