(* ===== verification/SessionState.v ===== *)
(** * The session state

    packages/agent/src/harness/session/state.ts: the in-memory state every
    storage backend replays its mutation log into.  Entries form a forest of
    conversation branches, lanes are named pointers to their leaves, records
    are the lanes' operation logs, and one shared sequence numbers every
    mutation.  JavaScript [Map]s whose iteration order is observable (lanes,
    open operations) are insertion-ordered association lists; the others are
    finite maps. *)

From stdpp Require Import base list gmap strings pretty.
From Stdlib Require Import ZArith Lia.
From S2P Require Import Prelude SessionTypes.

Inductive SessionMutation :=
| Mut_entry (lane : option jstring) (entry : Entry)
| Mut_record (record : LaneRecord)
| Mut_lane (seq : Z) (lane : jstring) (leafId : option jstring)
| Mut_name (seq : Z) (name : option jstring)
| Mut_label (seq : Z) (targetId : jstring) (label : option jstring).

Definition session_error (code : SessionErrorCode) (message : jstring) : SessionError :=
  {| err_code := code; err_message := message |}.

Definition invalidMutation (message : jstring) : SessionError :=
  session_error C_invalid_entry (js "Invalid session mutation: " ++ message).

Definition assertValidLimit (limit : option Z) : Result SessionError unit :=
  match limit with
  | Some n =>
      if (n <=? 0)%Z then Err (session_error C_invalid_query (js "limit must be a positive integer"))
      else Ok tt
  | None => Ok tt
  end.

Definition assertValidCursor (afterSeq : option Z) : Result SessionError unit :=
  match afterSeq with
  | Some n =>
      if (n <? 0)%Z
      then Err (session_error C_invalid_query (js "cursor sequence must be a non-negative integer"))
      else Ok tt
  | None => Ok tt
  end.

Definition ordered {A} (items : list A) (order : option EntryOrder) : list A :=
  match order with
  | Some oldestFirst => items
  | _ => reverse items
  end.

Record SessionState := {
  st_sequence : Z;
  st_usedIds : gset jstring;
  st_entries : list Entry;
  st_entriesById : gmap jstring Entry;
  st_records : list LaneRecord;
  st_openOperationsByLane : gmap jstring (list (jstring * OperationStartedRecord));
  st_lanes : list (jstring * option jstring);
  st_log : list LogItem;
  st_stats : SessionStats;
  st_name : option jstring;
  st_labels : gmap jstring jstring }.

Definition main_lane : jstring := js "main".

Definition init_stats : SessionStats :=
  {| stat_messageCount := 0; stat_cachedTokens := nzero; stat_uncachedTokens := nzero;
     stat_totalTokens := nzero; stat_costTotal := nzero |}.

(** [new SessionState()] *)
Definition init_state : SessionState :=
  {| st_sequence := 0; st_usedIds := ∅; st_entries := []; st_entriesById := ∅;
     st_records := []; st_openOperationsByLane := ∅; st_lanes := [(main_lane, None)];
     st_log := []; st_stats := init_stats; st_name := None; st_labels := ∅ |}.

Definition nextSequence (s : SessionState) : Z := st_sequence s + 1.

Definition getLanes (s : SessionState) : list (jstring * option jstring) := st_lanes s.

Definition requireLane (s : SessionState) (lane : jstring) : Result SessionError (option jstring) :=
  match map_get lane (st_lanes s) with
  | None => Err (session_error C_invalid_lane (js "Lane not found: " ++ lane))
  | Some leafId => Ok leafId
  end.

Definition validateNewLane (s : SessionState) (lane : jstring) : Result SessionError unit :=
  if map_has lane (st_lanes s)
  then Err (session_error C_already_exists (js "Lane already exists: " ++ lane))
  else Ok tt.

Definition has_entry (s : SessionState) (id : jstring) : bool :=
  match st_entriesById s !! id with Some _ => true | None => false end.

Definition validateTarget (s : SessionState) (targetId : option jstring) : Result SessionError unit :=
  match targetId with
  | Some id =>
      if has_entry s id then Ok tt
      else Err (session_error C_not_found (js "Entry not found: " ++ id))
  | None => Ok tt
  end.

Definition validateUnusedId (s : SessionState) (id : jstring) : Result SessionError unit :=
  if bool_decide (id ∈ st_usedIds s)
  then Err (session_error C_already_exists (js "Session id already exists: " ++ id))
  else Ok tt.

Definition mutation_seq (m : SessionMutation) : Z :=
  match m with
  | Mut_entry _ entry => entry_seq entry
  | Mut_record record => rec_seq record
  | Mut_lane seq _ _ | Mut_name seq _ | Mut_label seq _ _ => seq
  end.

(** The [lane] checks of an entry mutation. *)
Definition check_entry_lane (s : SessionState) (lane : option jstring) (entry : Entry)
    : Result SessionError unit :=
  match lane with
  | None => Ok tt
  | Some lane =>
      match map_get lane (st_lanes s) with
      | None => Err (invalidMutation (js "references missing lane " ++ lane))
      | Some leafId =>
          rguard (bool_decide (entry_parentId entry = leafId))
                 (invalidMutation (js "does not chain to the lane leaf"))
      end
  end.

Definition add_message_stat (stats : SessionStats) (entry : Entry) : SessionStats :=
  if decide (entry_type entry = T_message)
  then {| stat_messageCount := stat_messageCount stats + 1;
          stat_cachedTokens := stat_cachedTokens stats;
          stat_uncachedTokens := stat_uncachedTokens stats;
          stat_totalTokens := stat_totalTokens stats;
          stat_costTotal := stat_costTotal stats |}
  else stats.

Definition add_usage_stat (stats : SessionStats) (record : LaneRecord) : SessionStats :=
  match rec_payload record with
  | P_usage usage _ _ _ _ _ _ _ =>
      {| stat_messageCount := stat_messageCount stats;
         stat_cachedTokens := nadd (stat_cachedTokens stats) (usage_cacheRead usage);
         stat_uncachedTokens := nadd (stat_uncachedTokens stats)
                                     (nadd (usage_input usage) (usage_cacheWrite usage));
         stat_totalTokens := nadd (stat_totalTokens stats) (usage_totalTokens usage);
         stat_costTotal := nadd (stat_costTotal stats) (cost_total (usage_cost usage)) |}
  | _ => stats
  end.

(** The open-operation index after a record. *)
Definition track_operation (open : gmap jstring (list (jstring * OperationStartedRecord)))
    (record : LaneRecord) : gmap jstring (list (jstring * OperationStartedRecord)) :=
  match as_operation_started record with
  | Some start =>
      <[rec_lane record := map_set (rec_id record) start (default [] (open !! rec_lane record))]> open
  | None =>
      match rec_payload record with
      | P_operation_finished runId _ _ => alter (map_delete runId) (rec_lane record) open
      | _ => open
      end
  end.

Definition apply_entry (s : SessionState) (lane : option jstring) (entry : Entry) : SessionState :=
  {| st_sequence := entry_seq entry;
     st_usedIds := {[entry_id entry]} ∪ st_usedIds s;
     st_entries := st_entries s ++ [entry];
     st_entriesById := <[entry_id entry := entry]> (st_entriesById s);
     st_records := st_records s;
     st_openOperationsByLane := st_openOperationsByLane s;
     st_lanes := match lane with
                 | Some l => map_set l (Some (entry_id entry)) (st_lanes s)
                 | None => st_lanes s
                 end;
     st_log := st_log s ++ [L_entry (entry_seq entry) entry];
     st_stats := add_message_stat (st_stats s) entry;
     st_name := st_name s;
     st_labels := st_labels s |}.

Definition apply_record (s : SessionState) (record : LaneRecord) : SessionState :=
  {| st_sequence := rec_seq record;
     st_usedIds := {[rec_id record]} ∪ st_usedIds s;
     st_entries := st_entries s;
     st_entriesById := st_entriesById s;
     st_records := st_records s ++ [record];
     st_openOperationsByLane := track_operation (st_openOperationsByLane s) record;
     st_lanes := st_lanes s;
     st_log := st_log s ++ [L_record (rec_seq record) record];
     st_stats := add_usage_stat (st_stats s) record;
     st_name := st_name s;
     st_labels := st_labels s |}.

Definition apply_lane (s : SessionState) (seq : Z) (lane : jstring) (leafId : option jstring)
    : SessionState :=
  {| st_sequence := seq;
     st_usedIds := st_usedIds s;
     st_entries := st_entries s;
     st_entriesById := st_entriesById s;
     st_records := st_records s;
     st_openOperationsByLane := st_openOperationsByLane s;
     st_lanes := map_set lane leafId (st_lanes s);
     st_log := st_log s ++ [L_lane seq lane leafId];
     st_stats := st_stats s;
     st_name := st_name s;
     st_labels := st_labels s |}.

Definition apply_name (s : SessionState) (seq : Z) (name : option jstring) : SessionState :=
  {| st_sequence := seq;
     st_usedIds := st_usedIds s;
     st_entries := st_entries s;
     st_entriesById := st_entriesById s;
     st_records := st_records s;
     st_openOperationsByLane := st_openOperationsByLane s;
     st_lanes := st_lanes s;
     st_log := st_log s ++ [L_name seq name];
     st_stats := st_stats s;
     st_name := name;
     st_labels := st_labels s |}.

Definition apply_label (s : SessionState) (seq : Z) (targetId : jstring) (label : option jstring)
    : SessionState :=
  {| st_sequence := seq;
     st_usedIds := st_usedIds s;
     st_entries := st_entries s;
     st_entriesById := st_entriesById s;
     st_records := st_records s;
     st_openOperationsByLane := st_openOperationsByLane s;
     st_lanes := st_lanes s;
     st_log := st_log s ++ [L_label seq targetId label];
     st_stats := st_stats s;
     st_name := st_name s;
     st_labels := match label with
                  | None => delete targetId (st_labels s)
                  | Some l => <[targetId := l]> (st_labels s)
                  end |}.

(** [SessionState.applyMutation] *)
Definition applyMutation (s : SessionState) (m : SessionMutation) : Result SessionError SessionState :=
  rguard (mutation_seq m =? st_sequence s + 1)%Z
         (invalidMutation (js "has non-consecutive seq " ++ js_of_Z (mutation_seq m))) ;;;
  match m with
  | Mut_entry lane entry =>
      rguard (negb (bool_decide (entry_id entry ∈ st_usedIds s)))
             (invalidMutation (js "contains duplicate id " ++ entry_id entry)) ;;;
      check_entry_lane s lane entry ;;;
      match entry_parentId entry with
      | Some p =>
          rguard (has_entry s p) (invalidMutation (js "references missing parent " ++ p))
      | None => Ok tt
      end ;;;
      Ok (apply_entry s lane entry)
  | Mut_record record =>
      rguard (map_has (rec_lane record) (st_lanes s))
             (invalidMutation (js "references missing lane " ++ rec_lane record)) ;;;
      rguard (negb (bool_decide (rec_id record ∈ st_usedIds s)))
             (invalidMutation (js "contains duplicate id " ++ rec_id record)) ;;;
      Ok (apply_record s record)
  | Mut_lane seq lane leafId =>
      match leafId with
      | Some id => rguard (has_entry s id) (invalidMutation (js "references missing lane target " ++ id))
      | None => Ok tt
      end ;;;
      Ok (apply_lane s seq lane leafId)
  | Mut_name seq name => Ok (apply_name s seq name)
  | Mut_label seq targetId label =>
      rguard (has_entry s targetId)
             (invalidMutation (js "references missing label target " ++ targetId)) ;;;
      Ok (apply_label s seq targetId label)
  end.

Definition getEntry (s : SessionState) (id : jstring) : option Entry := st_entriesById s !! id.

Definition matchesEntryQuery (entry : Entry) (q : EntryQuery) : bool :=
  match eq_type q with None => true | Some t => bool_decide (entry_type entry = t) end &&
  match eq_customType q with
  | None => true
  | Some ct => match entry_payload entry with
               | E_custom customType _ => bool_decide (customType = ct)
               | _ => false
               end
  end &&
  match eq_cursor q with
  | None => true
  | Some afterSeq =>
      match eq_order q with
      | Some oldestFirst => (afterSeq <? entry_seq entry)%Z
      | _ => (entry_seq entry <? afterSeq)%Z
      end
  end.

Definition matchesRecordQuery (r : LaneRecord) (q : RecordQuery) : bool :=
  match rq_lane q with None => true | Some l => bool_decide (rec_lane r = l) end &&
  match rq_type q with None => true | Some t => bool_decide (record_type r = t) end &&
  match rq_runId q with
  | None => true
  | Some id => match as_operation_started r with
               | Some _ => bool_decide (rec_id r = id)
               | None => bool_decide (runId_of r = Some id)
               end
  end &&
  match rq_operationKind q with
  | None => true
  | Some k => match as_operation_started r with
              | Some start => bool_decide (intent_kind (os_intent start) = k)
              | None => false
              end
  end &&
  match rq_afterSeq q with None => true | Some n => (n <? rec_seq r)%Z end.

Definition findEntries (s : SessionState) (q : EntryQuery) : Result SessionError (list Entry) :=
  assertValidLimit (eq_limit q) ;;;
  assertValidCursor (eq_cursor q) ;;;
  Ok (collect (fun e => matchesEntryQuery e q) (eq_limit q) [] (ordered (st_entries s) (eq_order q))).

Definition findRecords (s : SessionState) (q : RecordQuery) : Result SessionError (list LaneRecord) :=
  assertValidLimit (rq_limit q) ;;;
  assertValidCursor (rq_afterSeq q) ;;;
  Ok (collect (fun r => matchesRecordQuery r q) (rq_limit q) [] (ordered (st_records s) (rq_order q))).

Definition findOpenOperations (s : SessionState) (lane : jstring) (limit : option Z)
    : Result SessionError (list OperationStartedRecord) :=
  assertValidLimit limit ;;;
  let openOperations :=
    match st_openOperationsByLane s !! lane with
    | Some m => reverse (map_values m)
    | None => []
    end in
  Ok (limited limit openOperations).

Definition getLog (s : SessionState) (o : LogOptions) : Result SessionError (list LogItem) :=
  assertValidLimit (lo_limit o) ;;;
  assertValidCursor (lo_afterSeq o) ;;;
  Ok (collect (fun item => match lo_afterSeq o with
                           | Some n => negb (log_seq item <=? n)%Z
                           | None => true
                           end) (lo_limit o) [] (st_log s)).

Definition getName (s : SessionState) : option jstring := st_name s.
Definition getLabel (s : SessionState) (id : jstring) : option jstring := st_labels s !! id.
Definition getStats (s : SessionState) : SessionStats := st_stats s.

(** ** Walking a branch

    [walkToRoot] is a generator that may throw after it yielded: its run is the
    list of yielded entries with the exception that ends it, if any.  The
    number of entries bounds the walk, because a repeated id throws. *)

Definition reached_bound (bounds : BranchBounds) (e : Entry) : bool :=
  match bb_stopAtId bounds with Some id => bool_decide (entry_id e = id) | None => false end ||
  match bb_stopAtType bounds with Some t => bool_decide (entry_type e = t) | None => false end.

Definition no_bounds : BranchBounds := {| bb_stopAtType := None; bb_stopAtId := None |}.

Definition cycle_error (id : jstring) : SessionError :=
  session_error C_invalid_entry (js "Session branch contains a cycle at " ++ id).

Fixpoint walk_loop (fuel : nat) (byId : gmap jstring Entry) (bounds : BranchBounds)
    (visited : gset jstring) (current : Entry) : list Entry * option SessionError :=
  match fuel with
  | O => ([], Some (cycle_error (entry_id current)))
  | S fuel' =>
      if bool_decide (entry_id current ∈ visited) then ([], Some (cycle_error (entry_id current)))
      else if reached_bound bounds current then ([current], None)
      else
        match entry_parentId current with
        | None => ([current], None)
        | Some parentId =>
            match byId !! parentId with
            | None => ([current], Some (session_error C_invalid_entry (js "Entry not found: " ++ parentId)))
            | Some parent =>
                let '(rest, e) :=
                  walk_loop fuel' byId bounds ({[entry_id current]} ∪ visited) parent in
                (current :: rest, e)
            end
        end
  end.

Definition walkToRoot (s : SessionState) (start : option jstring) (bounds : BranchBounds)
    : list Entry * option SessionError :=
  match start with
  | None => ([], None)
  | Some start =>
      match st_entriesById s !! start with
      | None => ([], Some (session_error C_not_found (js "Entry not found: " ++ start)))
      | Some current => walk_loop (S (length (st_entries s))) (st_entriesById s) bounds ∅ current
      end
  end.

(** The newest-first loop: it stops pulling the generator at the limit, so an
    exception behind the limit is never raised. *)
Fixpoint collect_branch (p : Entry -> bool) (limit : option Z) (results yielded : list Entry)
    (thrown : option SessionError) : Result SessionError (list Entry) :=
  match yielded with
  | [] => match thrown with Some e => Err e | None => Ok results end
  | x :: l =>
      let results' := if p x then results ++ [x] else results in
      if decide (Some (Z.of_nat (length results')) = limit) then Ok results'
      else collect_branch p limit results' l thrown
  end.

(** The oldest-first loop over the reversed full walk. *)
Fixpoint collect_from_root (p : Entry -> bool) (bounds : BranchBounds) (limit : option Z)
    (results path : list Entry) : list Entry :=
  match path with
  | [] => results
  | x :: l =>
      let results' := if p x then results ++ [x] else results in
      if reached_bound bounds x || bool_decide (Some (Z.of_nat (length results')) = limit)
      then results'
      else collect_from_root p bounds limit results' l
  end.

Definition findEntriesOnBranch (s : SessionState) (start : jstring) (q : EntryQuery)
    (bounds : BranchBounds) : Result SessionError (list Entry) :=
  assertValidLimit (eq_limit q) ;;;
  assertValidCursor (eq_cursor q) ;;;
  match eq_order q with
  | Some oldestFirst =>
      match walkToRoot s (Some start) no_bounds with
      | (_, Some e) => Err e
      | (path, None) =>
          Ok (collect_from_root (fun e => matchesEntryQuery e q) bounds (eq_limit q) [] (reverse path))
      end
  | _ =>
      let '(yielded, thrown) := walkToRoot s (Some start) bounds in
      collect_branch (fun e => matchesEntryQuery e q) (eq_limit q) [] yielded thrown
  end.

(** ** Forks *)

Definition with_seq (seq : Z) (e : Entry) : Entry :=
  {| entry_id := entry_id e; entry_seq := seq; entry_parentId := entry_parentId e;
     entry_timestamp := entry_timestamp e; entry_payload := entry_payload e |}.

(** The loop that renumbers the copied entries from [sequence]. *)
Fixpoint fork_entries (sequence : Z) (copied : list Entry) : list SessionMutation :=
  match copied with
  | [] => []
  | e :: l => Mut_entry None (with_seq sequence e) :: fork_entries (sequence + 1) l
  end.

Fixpoint fork_lanes (sequence : Z) (lanes : list (jstring * option jstring)) : list SessionMutation :=
  match lanes with
  | [] => []
  | (lane, leafId) :: l => Mut_lane sequence lane leafId :: fork_lanes (sequence + 1) l
  end.

Fixpoint fork_labels (labels : gmap jstring jstring) (sequence : Z) (copied : list Entry)
    : list SessionMutation :=
  match copied with
  | [] => []
  | e :: l =>
      match labels !! entry_id e with
      | Some label =>
          Mut_label sequence (entry_id e) (Some label) :: fork_labels labels (sequence + 1) l
      | None => fork_labels labels sequence l
      end
  end.

Definition oldest_first_query : EntryQuery :=
  {| eq_type := None; eq_customType := None; eq_order := Some oldestFirst;
     eq_limit := None; eq_cursor := None |}.

(** The entry a branch fork copies up to, [None] for the empty branch. *)
Definition fork_target (s : SessionState) (entryId : option jstring) (position : option ForkPosition)
    : Result SessionError (option jstring) :=
  let* selected := match entryId with
                   | Some id => Ok (Some id)
                   | None => requireLane s main_lane
                   end in
  match selected with
  | None => Ok None
  | Some selectedEntryId =>
      let invalid := session_error C_invalid_fork_target
                       (js "Fork target is not a message entry: " ++ selectedEntryId) in
      match getEntry s selectedEntryId with
      | None => Err invalid
      | Some entry =>
          if decide (entry_type entry = T_message) then
            let position := match position with
                            | Some p => p
                            | None => match entryId with None => F_at | Some _ => F_before end
                            end in
            Ok (match position with F_at => Some (entry_id entry) | F_before => entry_parentId entry end)
          else Err invalid
      end
  end.

(** The entries a fork copies, oldest first, and the lanes it recreates. *)
Definition fork_source (s : SessionState) (options : ForkOptions)
    : Result SessionError (list Entry * list (jstring * option jstring)) :=
  match options with
  | Fork_tree =>
      let* copied := findEntries s oldest_first_query in
      Ok (copied, getLanes s)
  | Fork_branch entryId position =>
      let* targetId := fork_target s entryId position in
      let* copied := match targetId with
                     | None => Ok []
                     | Some id => findEntriesOnBranch s id oldest_first_query no_bounds
                     end in
      Ok (copied, [(main_lane, targetId)])
  end.

Definition createForkMutations (s : SessionState) (options : ForkOptions)
    : Result SessionError (list SessionMutation) :=
  let* src := fork_source s options in
  let copied := src.1 in
  let lanes := src.2 in
  let n := Z.of_nat (length copied) in
  let k := Z.of_nat (length lanes) in
  let names := match st_name s with
               | Some name => [Mut_name (1 + n + k) (Some name)]
               | None => []
               end in
  Ok (fork_entries 1 copied ++ fork_lanes (1 + n) lanes ++ names ++
      fork_labels (st_labels s) (1 + n + k + Z.of_nat (length names)) copied).
