(* ===== verification/SessionInvariant.v ===== *)
(** * The invariant of the session state, and its queries

    [state_wf] relates the indexes [SessionState] maintains (entries by id, used
    ids, lanes, labels, open operations, statistics) to its append-only log, and
    every accepted mutation preserves it.  On a well-formed state the branch
    walk ends at the root without hitting its cycle or missing-parent errors,
    bounded queries return the first matches of the sequence they scan, and the
    open-operation index holds the started operations no later record finished. *)

From stdpp Require Import base list gmap strings pretty sorting.
From Stdlib Require Import ZArith Lia.
From S2P Require Import Prelude SessionTypes SessionState.

Definition log_entry (i : LogItem) : option Entry :=
  match i with L_entry _ e => Some e | _ => None end.

Definition log_record (i : LogItem) : option LaneRecord :=
  match i with L_record _ r => Some r | _ => None end.

(** A log item carries the sequence number of what it logs. *)
Definition log_item_ok (i : LogItem) : Prop :=
  match i with
  | L_entry seq e => entry_seq e = seq
  | L_record seq r => rec_seq r = seq
  | _ => True
  end.

(** Every id in use, entries first. *)
Definition all_ids (s : SessionState) : list jstring :=
  map entry_id (st_entries s) ++ map rec_id (st_records s).

(** The statistics recomputed from the log. *)
Definition log_stats (stats : SessionStats) (i : LogItem) : SessionStats :=
  match i with
  | L_entry _ e => add_message_stat stats e
  | L_record _ r => add_usage_stat stats r
  | _ => stats
  end.

(** Parents come earlier in the list. *)
Definition parents_before (l : list Entry) : Prop :=
  forall i e p, l !! i = Some e -> entry_parentId e = Some p ->
    exists j e', (j < i)%nat /\ l !! j = Some e' /\ entry_id e' = p.

Record state_wf (s : SessionState) : Prop := {
  wf_sequence : st_sequence s = Z.of_nat (length (st_log s));
  wf_log_seq : forall i item, st_log s !! i = Some item -> log_seq item = (Z.of_nat i + 1)%Z;
  wf_log_items : Forall log_item_ok (st_log s);
  wf_entries : st_entries s = omap log_entry (st_log s);
  wf_records : st_records s = omap log_record (st_log s);
  wf_byId : forall id e, st_entriesById s !! id = Some e <-> e ∈ st_entries s /\ entry_id e = id;
  wf_used : forall id, id ∈ st_usedIds s <-> id ∈ all_ids s;
  wf_ids_NoDup : NoDup (all_ids s);
  wf_parents : parents_before (st_entries s);
  wf_lanes : map_wf (st_lanes s);
  wf_main : map_has main_lane (st_lanes s) = true;
  wf_leaves : forall lane id, map_get lane (st_lanes s) = Some (Some id) -> has_entry s id = true;
  wf_labels : forall id l, st_labels s !! id = Some l -> has_entry s id = true;
  wf_record_lanes : Forall (fun r => map_has (rec_lane r) (st_lanes s) = true) (st_records s);
  wf_open : st_openOperationsByLane s = foldl track_operation ∅ (st_records s);
  wf_stats : st_stats s = foldl log_stats init_stats (st_log s) }.

Lemma init_state_wf : state_wf init_state.
Proof.
  split; simpl; try done.
  - intros id e. rewrite lookup_empty, elem_of_nil. naive_solver.
  - intros id. rewrite elem_of_nil. set_solver.
  - constructor.
  - apply NoDup_singleton.
  - intros lane id. case_decide; congruence.
Qed.

Lemma has_entry_elem s id :
  state_wf s -> has_entry s id = true <-> exists e, e ∈ st_entries s /\ entry_id e = id.
Proof.
  intros Hwf. unfold has_entry. destruct (st_entriesById s !! id) as [e|] eqn:E.
  - apply (wf_byId _ Hwf) in E. naive_solver.
  - split; [done|]. intros (e & He). apply (wf_byId _ Hwf) in He. congruence.
Qed.

Lemma has_entry_apply_entry s lane e id :
  has_entry (apply_entry s lane e) id = bool_decide (id = entry_id e) || has_entry s id.
Proof.
  unfold has_entry; simpl. rewrite lookup_insert.
  repeat case_decide; repeat case_bool_decide; naive_solver.
Qed.

Lemma omap_snoc {A B} (f : A -> option B) l x :
  omap f (l ++ [x]) = omap f l ++ match f x with Some y => [y] | None => [] end.
Proof. rewrite omap_app. simpl. by destruct (f x). Qed.

Lemma log_seq_snoc s item :
  state_wf s -> log_seq item = (st_sequence s + 1)%Z ->
  forall i it, (st_log s ++ [item]) !! i = Some it -> log_seq it = (Z.of_nat i + 1)%Z.
Proof.
  intros Hwf Hseq i it Hi. apply lookup_app_Some in Hi as [Hi|[Hge Hi]].
  - by apply (wf_log_seq _ Hwf).
  - apply list_lookup_singleton_Some in Hi as [Hi <-].
    rewrite Hseq, (wf_sequence _ Hwf). lia.
Qed.

Lemma parents_before_snoc l e :
  parents_before l ->
  (forall p, entry_parentId e = Some p -> exists e', e' ∈ l /\ entry_id e' = p) ->
  parents_before (l ++ [e]).
Proof.
  intros Hl He i x p Hi Hp. apply lookup_app_Some in Hi as [Hi|[Hge Hi]].
  - destruct (Hl _ _ _ Hi Hp) as (j & e' & Hj & Hl' & <-). exists j, e'.
    split_and!; [done| |done]. by apply lookup_app_l_Some.
  - apply list_lookup_singleton_Some in Hi as [Hi <-].
    destruct (He _ Hp) as (e' & Hin & <-).
    apply list_elem_of_lookup in Hin as [j Hj]. exists j, e'.
    pose proof (lookup_lt_Some _ _ _ Hj). split_and!; [lia| |done].
    by apply lookup_app_l_Some.
Qed.

(** What it takes for an entry mutation to be accepted. *)
Lemma apply_entry_Ok s lane e s' :
  applyMutation s (Mut_entry lane e) = Ok s' ->
  entry_seq e = (st_sequence s + 1)%Z /\ (entry_id e ∉ st_usedIds s) /\
  (forall l, lane = Some l -> map_get l (st_lanes s) = Some (entry_parentId e)) /\
  (forall p, entry_parentId e = Some p -> has_entry s p = true) /\
  s' = apply_entry s lane e.
Proof.
  unfold applyMutation. intros H. apply rguard_bind_Ok in H as [Hseq H].
  apply rguard_bind_Ok in H as [Hid H].
  apply rbind_Ok_inv in H as (u & Hlane & H). apply rbind_Ok_inv in H as (v & Hp & H).
  injection H as <-. simpl in Hseq. split_and!; [lia| | | |done].
  - by apply negb_true_iff, bool_decide_eq_false in Hid.
  - intros l ->. simpl in Hlane. destruct (map_get l (st_lanes s)) as [leaf|]; [|done].
    apply rguard_Ok, bool_decide_eq_true in Hlane. by rewrite Hlane.
  - intros p Ep. rewrite Ep in Hp. by apply rguard_Ok in Hp.
Qed.

Lemma apply_record_Ok s r s' :
  applyMutation s (Mut_record r) = Ok s' ->
  rec_seq r = (st_sequence s + 1)%Z /\ (rec_id r ∉ st_usedIds s) /\
  map_has (rec_lane r) (st_lanes s) = true /\ s' = apply_record s r.
Proof.
  unfold applyMutation. intros H. apply rguard_bind_Ok in H as [Hseq H].
  apply rguard_bind_Ok in H as [Hl H]. apply rguard_bind_Ok in H as [Hid H].
  injection H as <-. simpl in Hseq. split_and!; [lia| |done|done].
  by apply negb_true_iff, bool_decide_eq_false in Hid.
Qed.

Lemma apply_lane_Ok s seq lane leaf s' :
  applyMutation s (Mut_lane seq lane leaf) = Ok s' ->
  seq = (st_sequence s + 1)%Z /\ (forall id, leaf = Some id -> has_entry s id = true) /\
  s' = apply_lane s seq lane leaf.
Proof.
  unfold applyMutation. intros H. apply rguard_bind_Ok in H as [Hseq H].
  apply rbind_Ok_inv in H as (u & Hl & H). injection H as <-. simpl in Hseq.
  split_and!; [lia| |done]. intros id ->. by apply rguard_Ok in Hl.
Qed.

Lemma apply_name_Ok s seq name s' :
  applyMutation s (Mut_name seq name) = Ok s' ->
  seq = (st_sequence s + 1)%Z /\ s' = apply_name s seq name.
Proof.
  unfold applyMutation. intros H. apply rguard_bind_Ok in H as [Hseq H].
  injection H as <-. simpl in Hseq. split; [lia|done].
Qed.

Lemma apply_label_Ok s seq id label s' :
  applyMutation s (Mut_label seq id label) = Ok s' ->
  seq = (st_sequence s + 1)%Z /\ has_entry s id = true /\ s' = apply_label s seq id label.
Proof.
  unfold applyMutation. intros H. apply rguard_bind_Ok in H as [Hseq H].
  apply rguard_bind_Ok in H as [Hl H]. injection H as <-. simpl in Hseq. split_and!; [lia|done|done].
Qed.

Lemma all_ids_apply_entry s lane e :
  all_ids (apply_entry s lane e) ≡ₚ entry_id e :: all_ids s.
Proof.
  unfold all_ids; simpl. rewrite map_app. simpl.
  rewrite <- (app_assoc _ [entry_id e]). simpl. by rewrite Permutation_middle.
Qed.

Lemma all_ids_apply_record s r :
  all_ids (apply_record s r) ≡ₚ rec_id r :: all_ids s.
Proof.
  unfold all_ids; simpl. rewrite map_app, app_assoc. simpl.
  by rewrite Permutation_app_comm.
Qed.

Lemma apply_entry_wf s lane e :
  state_wf s -> entry_seq e = (st_sequence s + 1)%Z -> entry_id e ∉ st_usedIds s ->
  (forall p, entry_parentId e = Some p -> has_entry s p = true) ->
  state_wf (apply_entry s lane e).
Proof.
  intros Hwf Hseq Hid Hp. pose proof (all_ids_apply_entry s lane e) as Hids.
  assert (Hfresh : entry_id e ∉ all_ids s) by (by rewrite <- (wf_used _ Hwf)).
  split.
  - simpl. rewrite length_app, Hseq, (wf_sequence _ Hwf). simpl. lia.
  - simpl. by apply log_seq_snoc.
  - simpl. apply Forall_app. split; [apply wf_log_items; done|]. by repeat constructor.
  - simpl. by rewrite omap_snoc, <- (wf_entries _ Hwf).
  - simpl. by rewrite omap_snoc, <- (wf_records _ Hwf), app_nil_r.
  - intros id x. simpl. rewrite lookup_insert_Some, elem_of_app, list_elem_of_singleton, (wf_byId _ Hwf).
    split; [naive_solver|]. intros [[Hx| ->] <-]; [|naive_solver].
    right. split; [|done]. intros E. apply Hfresh. rewrite E.
    apply elem_of_app. left. by apply list_elem_of_fmap_2.
  - intros id. simpl. rewrite Hids, elem_of_cons, elem_of_union, elem_of_singleton. by rewrite (wf_used _ Hwf).
  - rewrite Hids. apply NoDup_cons. split; [done|apply wf_ids_NoDup; done].
  - simpl. apply parents_before_snoc; [apply wf_parents; done|].
    intros p Ep. by apply has_entry_elem, Hp.
  - simpl. destruct lane; [apply map_set_wf|]; by apply wf_lanes.
  - simpl. destruct lane; [rewrite map_has_set|]; rewrite (wf_main _ Hwf); by rewrite ?orb_true_r.
  - intros l id Hl. rewrite has_entry_apply_entry. simpl in Hl. destruct lane as [l'|].
    + rewrite map_get_set in Hl. case_decide.
      * injection Hl as <-. by rewrite bool_decide_true.
      * by rewrite (wf_leaves _ Hwf _ _ Hl), orb_true_r.
    + by rewrite (wf_leaves _ Hwf _ _ Hl), orb_true_r.
  - intros id l Hl. rewrite has_entry_apply_entry, (wf_labels _ Hwf _ _ Hl). apply orb_true_r.
  - simpl. eapply Forall_impl; [by apply wf_record_lanes|]. simpl. intros r Hr.
    destruct lane; [rewrite map_has_set|]; rewrite Hr; by rewrite ?orb_true_r.
  - simpl. by apply wf_open.
  - simpl. rewrite foldl_app. simpl. by rewrite (wf_stats _ Hwf).
Qed.

Lemma apply_record_wf s r :
  state_wf s -> rec_seq r = (st_sequence s + 1)%Z -> rec_id r ∉ st_usedIds s ->
  map_has (rec_lane r) (st_lanes s) = true ->
  state_wf (apply_record s r).
Proof.
  intros Hwf Hseq Hid Hl. pose proof (all_ids_apply_record s r) as Hids. split; simpl.
  - rewrite length_app, Hseq, (wf_sequence _ Hwf). simpl. lia.
  - by apply log_seq_snoc.
  - apply Forall_app. split; [apply wf_log_items; done|]. by repeat constructor.
  - by rewrite omap_snoc, <- (wf_entries _ Hwf), app_nil_r.
  - by rewrite omap_snoc, <- (wf_records _ Hwf).
  - by apply wf_byId.
  - intros id. rewrite Hids, elem_of_cons, elem_of_union, elem_of_singleton. by rewrite (wf_used _ Hwf).
  - rewrite Hids. apply NoDup_cons. split; [by rewrite <- (wf_used _ Hwf)|apply wf_ids_NoDup; done].
  - by apply wf_parents.
  - by apply wf_lanes.
  - by apply wf_main.
  - exact (wf_leaves _ Hwf).
  - exact (wf_labels _ Hwf).
  - apply Forall_app. split; [by apply wf_record_lanes|]. by repeat constructor.
  - by rewrite foldl_app, <- (wf_open _ Hwf).
  - rewrite foldl_app. simpl. by rewrite (wf_stats _ Hwf).
Qed.

Lemma apply_lane_wf s seq lane leaf :
  state_wf s -> seq = (st_sequence s + 1)%Z ->
  (forall id, leaf = Some id -> has_entry s id = true) ->
  state_wf (apply_lane s seq lane leaf).
Proof.
  intros Hwf Hseq Hleaf. split; simpl.
  - rewrite length_app, Hseq, (wf_sequence _ Hwf). simpl. lia.
  - by apply log_seq_snoc.
  - apply Forall_app. split; [apply wf_log_items; done|]. by repeat constructor.
  - by rewrite omap_snoc, <- (wf_entries _ Hwf), app_nil_r.
  - by rewrite omap_snoc, <- (wf_records _ Hwf), app_nil_r.
  - by apply wf_byId.
  - exact (wf_used _ Hwf).
  - exact (wf_ids_NoDup _ Hwf).
  - by apply wf_parents.
  - apply map_set_wf. by apply wf_lanes.
  - by rewrite map_has_set, (wf_main _ Hwf), orb_true_r.
  - intros l id. rewrite map_get_set. case_decide; [intros [= ->]; by apply Hleaf | exact (wf_leaves _ Hwf l id)].
  - exact (wf_labels _ Hwf).
  - eapply Forall_impl; [by apply wf_record_lanes|]. simpl. intros r Hr.
    by rewrite map_has_set, Hr, orb_true_r.
  - by apply wf_open.
  - rewrite foldl_app. simpl. by apply wf_stats.
Qed.

Lemma apply_name_wf s seq name :
  state_wf s -> seq = (st_sequence s + 1)%Z -> state_wf (apply_name s seq name).
Proof.
  intros Hwf Hseq. pose proof Hwf as []; split; simpl; try done.
  - rewrite length_app. simpl. lia.
  - by apply log_seq_snoc.
  - apply Forall_app. by repeat constructor.
  - by rewrite omap_snoc, app_nil_r.
  - by rewrite omap_snoc, app_nil_r.
  - by rewrite foldl_app.
Qed.

Lemma apply_label_wf s seq id label :
  state_wf s -> seq = (st_sequence s + 1)%Z -> has_entry s id = true ->
  state_wf (apply_label s seq id label).
Proof.
  intros Hwf Hseq Hid. pose proof Hwf as []; split; simpl; try done.
  - rewrite length_app. simpl. lia.
  - by apply log_seq_snoc.
  - apply Forall_app. by repeat constructor.
  - by rewrite omap_snoc, app_nil_r.
  - by rewrite omap_snoc, app_nil_r.
  - intros id' l. destruct label as [l'|].
    + rewrite lookup_insert_Some. intros [[<- _]|[_ Hl]]; [done|eauto].
    + rewrite lookup_delete_Some. intros [_ Hl]. eauto.
  - by rewrite foldl_app.
Qed.

Lemma applyMutation_wf s m s' : state_wf s -> applyMutation s m = Ok s' -> state_wf s'.
Proof.
  intros Hwf H. destruct m as [lane e|r|seq lane leaf|seq name|seq id label].
  - apply apply_entry_Ok in H as (? & ? & _ & ? & ->). by apply apply_entry_wf.
  - apply apply_record_Ok in H as (? & ? & ? & ->). by apply apply_record_wf.
  - apply apply_lane_Ok in H as (? & ? & ->). by apply apply_lane_wf.
  - apply apply_name_Ok in H as (? & ->). by apply apply_name_wf.
  - apply apply_label_Ok in H as (? & ? & ->). by apply apply_label_wf.
Qed.

(** Replaying mutations from a well-formed state. *)
Definition replay (s : SessionState) (ms : list SessionMutation) : Result SessionError SessionState :=
  rfold applyMutation s ms.

Lemma replay_wf s ms s' : state_wf s -> replay s ms = Ok s' -> state_wf s'.
Proof.
  intros Hwf H. eapply (rfold_inv applyMutation state_wf); [|exact Hwf|exact H].
  intros s1 m s2 _. apply applyMutation_wf.
Qed.

#[export] Hint Resolve init_state_wf applyMutation_wf replay_wf : result.

(** ** Queries of the session state *)

(** [branch byId e path]: [path] is the chain of parents from [e] to a root. *)
Inductive branch (byId : gmap jstring Entry) : Entry -> list Entry -> Prop :=
| branch_root e : entry_parentId e = None -> branch byId e [e]
| branch_step e p e' path :
    entry_parentId e = Some p -> byId !! p = Some e' -> branch byId e' path ->
    branch byId e (e :: path).

(** The scan of a branch: up to and including the first entry at a bound. *)
Fixpoint upto_bound (bounds : BranchBounds) (l : list Entry) : list Entry :=
  match l with
  | [] => []
  | x :: l' => if reached_bound bounds x then [x] else x :: upto_bound bounds l'
  end.

Lemma upto_no_bounds l : upto_bound no_bounds l = l.
Proof. induction l as [|x l IH]; simpl; [done|]. by rewrite IH. Qed.

Lemma branch_functional byId e path path' :
  branch byId e path -> branch byId e path' -> path = path'.
Proof.
  intros H; revert path'; induction H as [e He|e p e1 path He H1 Hb IH]; intros path' H';
    inversion H'; subst; simplify_eq; f_equal; auto.
Qed.

(** The walk from the [i]-th entry, when no entry up to [i] was visited. *)
Lemma walk_loop_branch s bounds fuel :
  state_wf s -> forall i e visited,
  st_entries s !! i = Some e -> (i < fuel)%nat ->
  (forall j e', (j <= i)%nat -> st_entries s !! j = Some e' -> entry_id e' ∉ visited) ->
  exists path, branch (st_entriesById s) e path /\
    walk_loop fuel (st_entriesById s) bounds visited e = (upto_bound bounds path, None).
Proof.
  intros Hwf. induction fuel as [|fuel IH]; intros i e visited Hi Hlt Hvis; [lia|].
  simpl. rewrite bool_decide_false by eauto.
  destruct (entry_parentId e) as [p|] eqn:Ep.
  - destruct (wf_parents _ Hwf _ _ _ Hi Ep) as (j & e' & Hj & He' & Hid).
    assert (Hp : st_entriesById s !! p = Some e').
    { apply (wf_byId _ Hwf). split; [by eapply list_elem_of_lookup_2|done]. }
    rewrite Hp.
    destruct (IH j e' ({[entry_id e]} ∪ visited) He') as (path & Hb & Hw); [lia| |].
    { intros k e2 Hk He2. rewrite not_elem_of_union, not_elem_of_singleton.
      split; [|eapply Hvis; [|exact He2]; lia]. intros E.
      pose proof (wf_ids_NoDup _ Hwf) as Hnd. apply NoDup_app in Hnd as [Hnd _].
      assert (k = i); [|lia]. eapply (NoDup_lookup _ _ _ (entry_id e) Hnd).
      - change (map entry_id (st_entries s)) with (entry_id <$> st_entries s).
        by rewrite list_lookup_fmap, He2, <- E.
      - change (map entry_id (st_entries s)) with (entry_id <$> st_entries s).
        by rewrite list_lookup_fmap, Hi. }
    exists (e :: path). split; [by econstructor|]. simpl.
    destruct (reached_bound bounds e); [done|]. by rewrite Hw.
  - exists [e]. split; [by constructor|]. simpl. by destruct (reached_bound bounds e).
Qed.

Lemma walkToRoot_branch s start e :
  state_wf s -> st_entriesById s !! start = Some e ->
  exists path, branch (st_entriesById s) e path /\
    forall bounds, walkToRoot s (Some start) bounds = (upto_bound bounds path, None).
Proof.
  intros Hwf He. pose proof He as [Hin Hid]%(wf_byId _ Hwf).
  apply list_elem_of_lookup in Hin as [i Hi]. pose proof (lookup_lt_Some _ _ _ Hi) as Hlt.
  destruct (walk_loop_branch s no_bounds (S (length (st_entries s))) Hwf i e ∅)
    as (path & Hb & _); [done|lia|set_solver|].
  exists path. split; [done|]. intros bounds.
  destruct (walk_loop_branch s bounds (S (length (st_entries s))) Hwf i e ∅)
    as (path' & Hb' & Hw); [done|lia|set_solver|].
  unfold walkToRoot. rewrite He, Hw. by rewrite (branch_functional _ _ _ _ Hb' Hb).
Qed.

(** ** Bounded loops over a branch *)

Lemma collect_branch_limited p limit results l :
  (forall n, limit = Some n -> (Z.of_nat (length results) < n)%Z) ->
  collect_branch p limit results l None = Ok (limited limit (results ++ List.filter p l)).
Proof.
  intros Hlim. rewrite <- (collect_limited p limit results l Hlim).
  revert results Hlim; induction l as [|x l IH]; intros results Hlim; simpl; [done|].
  destruct (p x).
  - case_decide as E; [done|]. apply IH. intros n ->. specialize (Hlim n eq_refl).
    rewrite length_app in *. simpl in *.
    destruct (decide (Z.of_nat (length results + 1) = n)); [subst; done|lia].
  - case_decide as E; [|by apply IH]. specialize (Hlim _ (eq_sym E)). lia.
Qed.

Lemma collect_from_root_limited p bounds limit results l :
  (forall n, limit = Some n -> (Z.of_nat (length results) < n)%Z) ->
  collect_from_root p bounds limit results l =
  limited limit (results ++ List.filter p (upto_bound bounds l)).
Proof.
  intros Hlim. rewrite <- (collect_limited p limit results _ Hlim).
  revert results Hlim; induction l as [|x l IH]; intros results Hlim; simpl; [done|].
  destruct (reached_bound bounds x); simpl.
  - destruct (p x); simpl; [by case_decide|done].
  - destruct (p x); simpl.
    + case_bool_decide as E; rewrite ?decide_True, ?decide_False by done; [done|].
      apply IH. intros n ->. specialize (Hlim n eq_refl). rewrite length_app in *. simpl in *.
      destruct (decide (Z.of_nat (length results + 1) = n)); [subst; done|lia].
    + case_bool_decide as E; [|by apply IH]. specialize (Hlim _ (eq_sym E)). lia.
Qed.

Lemma limit_room {A} (limit : option Z) (results : list A) :
  assertValidLimit limit = Ok tt -> results = [] ->
  forall n, limit = Some n -> (Z.of_nat (length results) < n)%Z.
Proof.
  intros Hl -> n ->. simpl in *. destruct (Z.leb_spec n 0); [discriminate|lia].
Qed.

(** The path a branch query scans. *)
Definition branch_scan (q : EntryQuery) (bounds : BranchBounds) (path : list Entry) : list Entry :=
  match eq_order q with
  | Some oldestFirst => upto_bound bounds (reverse path)
  | _ => upto_bound bounds path
  end.

Lemma findEntriesOnBranch_path s start e q bounds :
  state_wf s -> st_entriesById s !! start = Some e ->
  assertValidLimit (eq_limit q) = Ok tt -> assertValidCursor (eq_cursor q) = Ok tt ->
  exists path, branch (st_entriesById s) e path /\
    findEntriesOnBranch s start q bounds =
    Ok (limited (eq_limit q) (List.filter (fun e => matchesEntryQuery e q) (branch_scan q bounds path))).
Proof.
  intros Hwf He Hl Hc. destruct (walkToRoot_branch s start e Hwf He) as (path & Hb & Hw).
  exists path. split; [done|]. unfold findEntriesOnBranch, branch_scan.
  rewrite Hl, Hc. cbn [rbind]. destruct (eq_order q) as [[]|]; rewrite Hw.
  - apply collect_branch_limited. by apply limit_room.
  - rewrite upto_no_bounds. f_equal. apply collect_from_root_limited. by apply limit_room.
  - apply collect_branch_limited. by apply limit_room.
Qed.

(** Sequence numbers strictly decrease along a branch, so it never revisits. *)
Lemma entry_seq_lookup s i j e e' :
  state_wf s -> st_entries s !! i = Some e -> st_entries s !! j = Some e' -> (i < j)%nat ->
  (entry_seq e < entry_seq e')%Z.
Proof.
  intros Hwf. rewrite (wf_entries _ Hwf).
  pose proof (wf_log_seq _ Hwf) as Hseq. pose proof (wf_log_items _ Hwf) as Hok.
  revert i j. induction (st_log s) as [|x l IH] using rev_ind; [done|]. intros i j.
  rewrite omap_snoc. apply Forall_app in Hok as [Hok Hx]. rewrite Forall_singleton in Hx.
  assert (Hseq' : forall k it, l !! k = Some it -> log_seq it = (Z.of_nat k + 1)%Z).
  { intros k it Hk. apply Hseq. by apply lookup_app_l_Some. }
  assert (Hin : forall k e0, omap log_entry l !! k = Some e0 -> (entry_seq e0 <= Z.of_nat (length l))%Z).
  { intros k e0 Hk. apply list_elem_of_lookup_2, list_elem_of_omap in Hk as (it & Hit & Eit).
    apply list_elem_of_lookup in Hit as [m Hm]. pose proof (lookup_lt_Some _ _ _ Hm).
    specialize (Hseq' _ _ Hm). rewrite Forall_lookup in Hok. specialize (Hok _ _ Hm).
    destruct it as [seq e1| | | |]; try discriminate. injection Eit as <-. simpl in *. lia. }
  destruct (log_entry x) as [ex|] eqn:Ex.
  - intros Hi Hj Hlt. apply lookup_app_Some in Hj as [Hj|[Hge Hj]].
    + pose proof (lookup_lt_Some _ _ _ Hj). rewrite lookup_app_l in Hi by lia.
      by eapply IH.
    + apply list_lookup_singleton_Some in Hj as [Hj <-]. rewrite lookup_app_l in Hi by lia.
      specialize (Hin _ _ Hi). specialize (Hseq (length l) x).
      rewrite lookup_app_r, Nat.sub_diag in Hseq by lia. specialize (Hseq eq_refl).
      destruct x as [seq e1| | | |]; try discriminate. injection Ex as <-. simpl in *. lia.
  - rewrite app_nil_r. by apply IH.
Qed.

Lemma branch_decreasing s e path :
  state_wf s -> branch (st_entriesById s) e path ->
  forall i, st_entries s !! i = Some e ->
  StronglySorted (fun a b => (entry_seq b < entry_seq a)%Z) path /\
  Forall (fun a => (entry_seq a <= entry_seq e)%Z) path.
Proof.
  intros Hwf Hb. induction Hb as [e He|e p e' path He Hp Hb IH]; intros i Hi.
  - repeat constructor; lia.
  - destruct (wf_parents _ Hwf _ _ _ Hi He) as (j & e2 & Hj & He2 & Hid).
    assert (e2 = e') as ->.
    { pose proof (proj2 (wf_byId _ Hwf p e2)) as H2.
      rewrite H2 in Hp; [congruence|]. split; [by eapply list_elem_of_lookup_2|done]. }
    destruct (IH j He2) as [Hs Hf]. pose proof (entry_seq_lookup s j i e' e Hwf He2 Hi Hj).
    split; [constructor; [done|]|constructor; [lia|]];
      (eapply Forall_impl; [exact Hf|]; simpl; lia).
Qed.

(** ** Session-wide queries *)

Lemma findEntries_Ok s q :
  assertValidLimit (eq_limit q) = Ok tt -> assertValidCursor (eq_cursor q) = Ok tt ->
  findEntries s q =
  Ok (limited (eq_limit q)
       (List.filter (fun e => matchesEntryQuery e q) (ordered (st_entries s) (eq_order q)))).
Proof.
  intros Hl Hc. unfold findEntries. rewrite Hl, Hc. simpl. f_equal.
  rewrite collect_limited; [done|by apply limit_room].
Qed.

Lemma findRecords_Ok s q :
  assertValidLimit (rq_limit q) = Ok tt -> assertValidCursor (rq_afterSeq q) = Ok tt ->
  findRecords s q =
  Ok (limited (rq_limit q)
       (List.filter (fun r => matchesRecordQuery r q) (ordered (st_records s) (rq_order q)))).
Proof.
  intros Hl Hc. unfold findRecords. rewrite Hl, Hc. simpl. f_equal.
  rewrite collect_limited; [done|by apply limit_room].
Qed.

(** The log after a sequence number is the log's suffix. *)
Lemma filter_after_drop (l : list LogItem) (b n : Z) :
  (0 <= n)%Z ->
  (forall i it, l !! i = Some it -> log_seq it = (b + Z.of_nat i + 1)%Z) ->
  (b <= n)%Z ->
  List.filter (fun it => negb (log_seq it <=? n)%Z) l = drop (Z.to_nat (n - b)) l.
Proof.
  intros Hn. revert b; induction l as [|x l IH]; intros b Hseq Hb; [by rewrite drop_nil|].
  simpl. pose proof (Hseq 0%nat x eq_refl) as Hx.
  assert (Hseq' : forall i it, l !! i = Some it -> log_seq it = ((b + 1) + Z.of_nat i + 1)%Z).
  { intros i it Hi. specialize (Hseq (S i) it Hi). lia. }
  destruct (Z.leb_spec (log_seq x) n); simpl.
  - rewrite (IH (b + 1)%Z Hseq') by lia.
    replace (Z.to_nat (n - b)) with (S (Z.to_nat (n - (b + 1)))) by lia. done.
  - replace (Z.to_nat (n - b)) with 0%nat by lia. simpl. f_equal.
    apply filter_all. intros it Hit. apply list_elem_of_lookup in Hit as [i Hi].
    specialize (Hseq' _ _ Hi). destruct (Z.leb_spec (log_seq it) n); [lia|done].
Qed.

Lemma getLog_Ok s o :
  state_wf s -> assertValidLimit (lo_limit o) = Ok tt -> assertValidCursor (lo_afterSeq o) = Ok tt ->
  getLog s o = Ok (limited (lo_limit o) (drop (Z.to_nat (default 0%Z (lo_afterSeq o))) (st_log s))).
Proof.
  intros Hwf Hl Hc. unfold getLog. rewrite Hl, Hc. cbn [rbind]. f_equal.
  rewrite collect_limited by (by apply limit_room). simpl. f_equal.
  destruct (lo_afterSeq o) as [n|]; simpl; [|by apply filter_all].
  simpl in Hc. destruct (Z.ltb_spec n 0); [discriminate|].
  rewrite (filter_after_drop _ 0 n); [by rewrite Z.sub_0_r|lia| |lia].
  intros i it Hi. rewrite (wf_log_seq _ Hwf _ _ Hi). lia.
Qed.

(** ** Open operations *)

(** [r] finishes operation [id] of [lane]. *)
Definition finishes (lane id : jstring) (r : LaneRecord) : bool :=
  match rec_payload r with
  | P_operation_finished runId _ _ => bool_decide (runId = id) && bool_decide (rec_lane r = lane)
  | _ => false
  end.

(** The open operations of a lane recomputed from its records, oldest first:
    every start no later record finishes. *)
Fixpoint open_starts (lane : jstring) (records : list LaneRecord) : list OperationStartedRecord :=
  match records with
  | [] => []
  | r :: rest =>
      match as_operation_started r with
      | Some start =>
          if bool_decide (rec_lane r = lane) && negb (existsb (finishes lane (rec_id r)) rest)
          then start :: open_starts lane rest
          else open_starts lane rest
      | None => open_starts lane rest
      end
  end.

Lemma open_starts_id lane rs start :
  start ∈ open_starts lane rs -> os_id start ∈ map rec_id rs.
Proof.
  induction rs as [|r rs IH]; simpl; [by rewrite elem_of_nil|].
  destruct (as_operation_started r) as [st|] eqn:Est; [|intros; right; auto].
  destruct (_ && _); [|intros; right; auto].
  intros [->|H]%elem_of_cons; [|right; auto].
  unfold as_operation_started in Est. destruct (rec_payload r); simplify_eq/=. left.
Qed.

Lemma open_starts_snoc_start lane rs r start :
  as_operation_started r = Some start ->
  open_starts lane (rs ++ [r]) =
  open_starts lane rs ++ (if bool_decide (rec_lane r = lane) then [start] else []).
Proof.
  intros Hr. induction rs as [|x rs IH]; simpl.
  - rewrite Hr. simpl. rewrite andb_true_r. by case_bool_decide.
  - destruct (as_operation_started x); [|done]. rewrite existsb_app. simpl.
    assert (finishes lane (rec_id x) r = false) as ->.
    { unfold finishes. unfold as_operation_started in Hr. by destruct (rec_payload r). }
    rewrite !orb_false_r, IH. by destruct (_ && _).
Qed.

Lemma open_starts_snoc_other lane rs r :
  as_operation_started r = None -> (forall id, finishes lane id r = false) ->
  open_starts lane (rs ++ [r]) = open_starts lane rs.
Proof.
  intros Hr Hf. induction rs as [|x rs IH]; simpl; [by rewrite Hr|].
  destruct (as_operation_started x); [|done]. by rewrite existsb_app, IH; simpl; rewrite Hf, !orb_false_r.
Qed.

Lemma open_starts_snoc_finish lane rs r runId outcome err :
  rec_payload r = P_operation_finished runId outcome err -> rec_lane r = lane ->
  open_starts lane (rs ++ [r]) = List.filter (fun st => negb (bool_decide (os_id st = runId))) (open_starts lane rs).
Proof.
  intros Hr Hl. induction rs as [|x rs IH]; simpl.
  - unfold as_operation_started. by rewrite Hr.
  - destruct (as_operation_started x) as [st|] eqn:Est; [|done]. rewrite existsb_app. simpl.
    assert (os_id st = rec_id x) as Hid.
    { unfold as_operation_started in Est. destruct (rec_payload x); by simplify_eq/=. }
    unfold finishes at 2. rewrite Hr, Hl, IH. rewrite (bool_decide_true (lane = lane)) by done.
    rewrite andb_true_r, orb_false_r, negb_orb.
    destruct (bool_decide (rec_lane x = lane)); simpl; [|done].
    destruct (existsb (finishes lane (rec_id x)) rs); simpl; [done|].
    rewrite Hid. rewrite (bool_decide_ext (runId = rec_id x) (rec_id x = runId)) by (split; congruence).
    by destruct (bool_decide (rec_id x = runId)).
Qed.

Lemma map_delete_filter (m : list (jstring * OperationStartedRecord)) k :
  map_wf m -> Forall (fun kv => os_id kv.2 = kv.1) m ->
  map_values (map_delete k m) = List.filter (fun st => negb (bool_decide (os_id st = k))) (map_values m).
Proof.
  unfold map_wf, map_values, map_keys. induction m as [|[k' v] m IH]; csimpl; [done|].
  intros [Hn Hd]%NoDup_cons [Hv Hm]%Forall_cons. simpl in Hv. rewrite Hv.
  case_decide as E.
  - subst k'. rewrite bool_decide_true by done. simpl. symmetry. apply filter_all.
    intros st Hst. apply list_elem_of_fmap in Hst as ([k2 v2] & -> & Hin). simpl.
    rewrite Forall_forall in Hm. specialize (Hm _ Hin). simpl in Hm.
    rewrite bool_decide_false; [done|]. rewrite Hm. intros ->. apply Hn. rewrite <- E. exact (list_elem_of_fmap_2 fst _ _ Hin).
  - rewrite bool_decide_false by congruence. csimpl. f_equal. by apply IH.
Qed.

(** The index [track_operation] maintains is the recomputation. *)
Lemma track_operations_spec rs :
  NoDup (map rec_id rs) -> forall lane,
  map_wf (default [] (foldl track_operation ∅ rs !! lane)) /\
  Forall (fun kv => os_id kv.2 = kv.1) (default [] (foldl track_operation ∅ rs !! lane)) /\
  map_values (default [] (foldl track_operation ∅ rs !! lane)) = open_starts lane rs.
Proof.
  induction rs as [|r rs IH] using rev_ind; intros Hnd lane.
  { simpl. rewrite lookup_empty. simpl. split_and!; constructor. }
  rewrite map_app, NoDup_app in Hnd. destruct Hnd as (Hnd & Hfresh & _).
  specialize (IH Hnd). pose proof (IH (rec_lane r)) as IHr. specialize (IH lane).
  rewrite foldl_app. simpl. set (open := foldl track_operation ∅ rs) in *.
  destruct IH as (Hw & Hid & Hv), IHr as (Hwr & Hidr & Hvr).
  unfold track_operation.
  destruct (as_operation_started r) as [start|] eqn:Er.
  - rewrite (open_starts_snoc_start _ _ _ _ Er). rewrite lookup_insert.
    destruct (decide (rec_lane r = lane)) as [->|Hne].
    + rewrite bool_decide_true by done. simpl.
      assert (Hnew : map_has (rec_id r) (default [] (open !! lane)) = false).
      { destruct (map_has _ _) eqn:E; [|done]. apply map_has_keys in E.
        apply list_elem_of_fmap in E as ([k v] & Hk & Hin).
        rewrite Forall_forall in Hid. specialize (Hid _ Hin). simpl in *.
        destruct (Hfresh (os_id v)); [|by rewrite Hid, Hk; left].
        apply (open_starts_id lane). rewrite <- Hv. exact (list_elem_of_fmap_2 snd _ _ Hin). }
      rewrite map_set_fresh by done. split_and!.
      * rewrite <- map_set_fresh by done. by apply map_set_wf.
      * apply Forall_app. split; [done|]. repeat constructor. simpl.
        unfold as_operation_started in Er. by destruct (rec_payload r); simplify_eq/=.
      * unfold map_values in *. rewrite fmap_app, Hv. done.
    + rewrite bool_decide_false, app_nil_r by done. done.
  - destruct (rec_payload r) as [| |runId out err| | | | | |] eqn:Ep;
      try (rewrite open_starts_snoc_other;
           [done|done|intros; unfold finishes; by rewrite Ep]).
    rewrite lookup_alter. destruct (decide (rec_lane r = lane)) as [Hl|Hne].
    + rewrite (open_starts_snoc_finish _ _ _ _ _ _ Ep Hl), Hl.
      destruct (open !! lane) as [m|]; simpl in *.
      * split_and!; [by apply map_delete_wf| |by rewrite map_delete_filter, Hv].
        rewrite Forall_forall in *. intros kv Hkv. apply Hid.
        clear -Hkv. induction m as [|[k v] m IH]; simpl in *; [done|].
        case_decide; [by right|]. apply elem_of_cons in Hkv as [->|Hkv]; [left|right; auto].
      * split_and!; [done|done|]. by rewrite <- Hv.
    + rewrite open_starts_snoc_other; [done|done|]. intros id. unfold finishes. rewrite Ep.
      rewrite (bool_decide_false (rec_lane r = lane)) by done. apply andb_false_r.
Qed.

Lemma findOpenOperations_starts s lane limit :
  state_wf s -> assertValidLimit limit = Ok tt ->
  findOpenOperations s lane limit = Ok (limited limit (reverse (open_starts lane (st_records s)))).
Proof.
  intros Hwf Hl. unfold findOpenOperations. rewrite Hl. cbn [rbind].
  pose proof (wf_ids_NoDup _ Hwf) as Hnd. apply NoDup_app in Hnd as (_ & _ & Hnd).
  destruct (track_operations_spec _ Hnd lane) as (_ & _ & Hv).
  rewrite <- (wf_open _ Hwf) in Hv. rewrite <- Hv.
  by destruct (st_openOperationsByLane s !! lane).
Qed.
