(* ===== verification/SessionFork.v ===== *)
(** * Forking a session

    [createForkMutations] of a well-formed session replays without error into an
    empty session, and the result holds the copied entries in order with fresh
    consecutive sequence numbers, the copied lanes, the name and the labels. *)

From stdpp Require Import base list gmap strings pretty sorting.
From Stdlib Require Import ZArith Lia.
From S2P Require Import Prelude SessionTypes SessionState SessionInvariant.

(** The copied entries as the fork stores them. *)
Fixpoint renumber (n : Z) (l : list Entry) : list Entry :=
  match l with
  | [] => []
  | e :: l' => with_seq n e :: renumber (n + 1) l'
  end.

(** The tree structure of a list of entries. *)
Definition links (l : list Entry) : list (jstring * option jstring) :=
  (fun e => (entry_id e, entry_parentId e)) <$> l.

Lemma links_lookup l i e :
  links l !! i = Some (entry_id e, entry_parentId e) <->
  exists e', l !! i = Some e' /\ entry_id e' = entry_id e /\ entry_parentId e' = entry_parentId e.
Proof.
  unfold links. rewrite list_lookup_fmap. destruct (l !! i) as [x|]; simpl.
  - split; [intros [= H1 H2]; eauto | by intros (? & [= ->] & -> & ->)].
  - split; [done | by intros (? & ? & _)].
Qed.

Lemma parents_before_links l l' : links l = links l' -> parents_before l -> parents_before l'.
Proof.
  intros Heq Hl i e p Hi Hp.
  assert (Hli : links l' !! i = Some (entry_id e, entry_parentId e)) by (apply links_lookup; eauto).
  rewrite <- Heq in Hli. apply links_lookup in Hli as (e1 & He1 & Hid1 & Hp1).
  rewrite <- Hp1 in Hp. destruct (Hl _ _ _ He1 Hp) as (j & e2 & Hj & He2 & Hid2).
  assert (Hlj : links l !! j = Some (entry_id e2, entry_parentId e2)) by (apply links_lookup; eauto).
  rewrite Heq in Hlj. apply links_lookup in Hlj as (e3 & He3 & Hid3 & _).
  exists j, e3. split_and!; [done|done|congruence].
Qed.

Lemma with_seq_link n e : (entry_id (with_seq n e), entry_parentId (with_seq n e)) = (entry_id e, entry_parentId e).
Proof. done. Qed.

(** The state after a phase of the replay: only what the phase changes differs. *)
Record same_rest (s s' : SessionState) : Prop := {
  sr_records : st_records s' = st_records s;
  sr_name : st_name s' = st_name s;
  sr_labels : st_labels s' = st_labels s }.

Lemma replay_fork_entries copied : forall s,
  state_wf s ->
  Forall (fun e => entry_id e ∉ st_usedIds s) copied ->
  NoDup (map entry_id copied) ->
  parents_before (st_entries s ++ copied) ->
  exists s', replay s (fork_entries (st_sequence s + 1) copied) = Ok s' /\ state_wf s' /\
    st_sequence s' = (st_sequence s + Z.of_nat (length copied))%Z /\
    st_entries s' = st_entries s ++ renumber (st_sequence s + 1) copied /\
    st_lanes s' = st_lanes s /\ same_rest s s'.
Proof.
  induction copied as [|e copied IH]; intros s Hwf Hfresh Hnd Hpar.
  { exists s. simpl. rewrite app_nil_r. split_and!; try done. lia. }
  apply Forall_cons in Hfresh as [He Hfresh]. simpl in Hnd. apply NoDup_cons in Hnd as [Hne Hnd].
  set (e1 := with_seq (st_sequence s + 1) e).
  assert (Hp : forall p, entry_parentId e1 = Some p -> has_entry s p = true).
  { intros p Hp. destruct (Hpar (length (st_entries s)) e p) as (j & e' & Hj & He' & Hid).
    - by rewrite lookup_app_r, Nat.sub_diag by lia.
    - done.
    - rewrite lookup_app_l in He' by lia. apply has_entry_elem; [done|].
      exists e'. split; [by eapply list_elem_of_lookup_2|done]. }
  assert (Happ : applyMutation s (Mut_entry None e1) = Ok (apply_entry s None e1)).
  { unfold applyMutation. simpl. rewrite Z.eqb_refl. simpl.
    rewrite bool_decide_false by done. simpl. destruct (entry_parentId e) as [p|] eqn:Ep; [|done].
    by rewrite (Hp p Ep). }
  destruct (IH (apply_entry s None e1)) as (s' & Hr & Hwf' & Hseq & Hents & Hlanes & [Hrec Hname Hlab]).
  - eauto with result.
  - simpl. rewrite Forall_forall in *. intros x Hx.
    rewrite not_elem_of_union, not_elem_of_singleton. split; [|by apply Hfresh].
    intros E. apply Hne. rewrite <- E. by apply (list_elem_of_fmap_2 entry_id).
  - done.
  - simpl. eapply parents_before_links; [|exact Hpar]. unfold links.
    rewrite <- app_assoc, !fmap_app. done.
  - exists s'. simpl. fold e1. unfold replay in *. cbn [rfold]. rewrite Happ. cbn [rbind].
    simpl in Hr. rewrite Hr. split_and!; try done.
    + rewrite Hseq. simpl. lia.
    + rewrite Hents. simpl. by rewrite <- app_assoc.
Qed.

Lemma replay_fork_lanes lanes : forall s,
  state_wf s ->
  Forall (fun p => forall id, p.2 = Some id -> has_entry s id = true) lanes ->
  exists s', replay s (fork_lanes (st_sequence s + 1) lanes) = Ok s' /\ state_wf s' /\
    st_sequence s' = (st_sequence s + Z.of_nat (length lanes))%Z /\
    st_entries s' = st_entries s /\ st_entriesById s' = st_entriesById s /\
    st_lanes s' = foldl (fun m p => map_set p.1 p.2 m) (st_lanes s) lanes /\ same_rest s s'.
Proof.
  induction lanes as [|[lane leaf] lanes IH]; intros s Hwf Hleaf.
  { exists s. simpl. split_and!; try done. lia. }
  apply Forall_cons in Hleaf as [Hl Hleaf]. simpl in Hl.
  assert (Happ : applyMutation s (Mut_lane (st_sequence s + 1) lane leaf) =
                 Ok (apply_lane s (st_sequence s + 1) lane leaf)).
  { unfold applyMutation. simpl. rewrite Z.eqb_refl. simpl.
    destruct leaf as [id|]; [|done]. by rewrite (Hl id). }
  destruct (IH (apply_lane s (st_sequence s + 1) lane leaf))
    as (s' & Hr & Hwf' & Hseq & Hents & Hby & Hlanes & [Hrec Hname Hlab]).
  - eauto with result.
  - exact Hleaf.
  - exists s'. unfold replay in *. cbn [rfold fork_lanes]. rewrite Happ. cbn [rbind].
    simpl in Hr. rewrite Hr. split_and!; try done. rewrite Hseq. simpl. lia.
Qed.

(** The labels of the copied entries, as a map update. *)
Definition copy_labels (labels : gmap jstring jstring) (copied : list Entry)
    (m : gmap jstring jstring) : gmap jstring jstring :=
  foldl (fun m e => match labels !! entry_id e with
                    | Some l => <[entry_id e := l]> m
                    | None => m
                    end) m copied.

Lemma replay_fork_labels labels copied : forall s,
  state_wf s ->
  Forall (fun e => has_entry s (entry_id e) = true) copied ->
  exists s', replay s (fork_labels labels (st_sequence s + 1) copied) = Ok s' /\ state_wf s' /\
    st_entries s' = st_entries s /\ st_lanes s' = st_lanes s /\
    st_name s' = st_name s /\ st_records s' = st_records s /\
    st_labels s' = copy_labels labels copied (st_labels s).
Proof.
  induction copied as [|e copied IH]; intros s Hwf Hin; [by exists s|].
  apply Forall_cons in Hin as [He Hin]. simpl.
  destruct (labels !! entry_id e) as [l|] eqn:El; [|by apply IH].
  assert (Happ : applyMutation s (Mut_label (st_sequence s + 1) (entry_id e) (Some l)) =
                 Ok (apply_label s (st_sequence s + 1) (entry_id e) (Some l))).
  { unfold applyMutation. simpl. rewrite Z.eqb_refl. simpl. by rewrite He. }
  destruct (IH (apply_label s (st_sequence s + 1) (entry_id e) (Some l)))
    as (s' & Hr & Hwf' & Hents & Hlanes & Hname & Hrec & Hlab).
  - eauto with result.
  - exact Hin.
  - exists s'. unfold replay in *. cbn [rfold]. rewrite Happ. cbn [rbind].
    simpl in Hr. rewrite Hr. by split_and!.
Qed.

Lemma copy_labels_lookup labels copied m id :
  copy_labels labels copied m !! id =
  (if decide (id ∈ map entry_id copied) then
     match labels !! id with Some l => Some l | None => m !! id end
   else m !! id).
Proof.
  revert m; induction copied as [|e copied IH]; intros m; simpl; [done|].
  unfold copy_labels in *. rewrite IH. destruct (decide (id = entry_id e)) as [->|Hne].
  - rewrite (decide_True (P := entry_id e ∈ entry_id e :: _)) by left.
    destruct (labels !! entry_id e); [|by case_decide].
    rewrite lookup_insert_eq; by case_decide.
  - rewrite (decide_ext (id ∈ entry_id e :: map entry_id copied) (id ∈ map entry_id copied))
      by (rewrite elem_of_cons; naive_solver).
    destruct (labels !! entry_id e); [by rewrite lookup_insert_ne|done].
Qed.

(** ** What a fork copies *)

Record fork_copy (s : SessionState) (copied : list Entry) (lanes : list (jstring * option jstring)) : Prop := {
  fc_parents : parents_before copied;
  fc_ids : NoDup (map entry_id copied);
  fc_sub : forall e, e ∈ copied -> e ∈ st_entries s;
  fc_leaves : forall lane id, (lane, Some id) ∈ lanes -> id ∈ map entry_id copied }.

Lemma branch_links s e path :
  state_wf s -> branch (st_entriesById s) e path ->
  parents_before (reverse path) /\ last (reverse path) = Some e.
Proof.
  intros Hwf Hb. induction Hb as [e He|e p e' path He Hp Hb [IH Hlast]].
  - split; [|done]. intros [|i] x p; [intros [= <-]; congruence | done].
  - rewrite reverse_cons. split; [|apply last_snoc]. apply parents_before_snoc; [done|].
    intros q Hq. assert (q = p) as -> by congruence. exists e'. split.
    + rewrite last_lookup in Hlast. by eapply list_elem_of_lookup_2.
    + by apply (wf_byId _ Hwf) in Hp as [_ ?].
Qed.

Lemma branch_entries s e path :
  state_wf s -> e ∈ st_entries s -> branch (st_entriesById s) e path ->
  forall x, x ∈ path -> x ∈ st_entries s.
Proof.
  intros Hwf He Hb. induction Hb as [e Hr|e p e' path Hr Hp Hb IH]; intros x.
  - by intros ->%list_elem_of_singleton.
  - intros [->|Hx]%elem_of_cons; [done|]. apply IH; [|done]. by apply (wf_byId _ Hwf) in Hp as [? _].
Qed.

Lemma branch_ids_NoDup s e path :
  state_wf s -> e ∈ st_entries s -> branch (st_entriesById s) e path -> NoDup (map entry_id path).
Proof.
  intros Hwf He Hb. apply list_elem_of_lookup in He as [i Hi].
  destruct (branch_decreasing s e path Hwf Hb i Hi) as [Hs _].
  pose proof (branch_entries s e path Hwf (list_elem_of_lookup_2 _ _ _ Hi) Hb) as Hsub.
  clear Hb Hi. induction Hs as [|x path Hs IH Hx]; simpl; [constructor|].
  apply NoDup_cons. split; [|apply IH; intros; apply Hsub; by right].
  intros Hin. apply list_elem_of_fmap in Hin as (y & Hid & Hy).
  assert (x = y) as ->.
  { pose proof (proj2 (wf_byId _ Hwf (entry_id x) x) (conj (Hsub x ltac:(left)) eq_refl)).
    pose proof (proj2 (wf_byId _ Hwf (entry_id x) y) (conj (Hsub y ltac:(by right)) (eq_sym Hid))).
    congruence. }
  rewrite Forall_forall in Hx. specialize (Hx _ Hy). simpl in Hx. lia.
Qed.

Lemma filter_oldest_first l : List.filter (fun e => matchesEntryQuery e oldest_first_query) l = l.
Proof. by apply filter_all. Qed.

Lemma fork_branch_source s (id : jstring) e :
  state_wf s -> st_entriesById s !! id = Some e ->
  exists path, branch (st_entriesById s) e path /\
    findEntriesOnBranch s id oldest_first_query no_bounds = Ok (reverse path) /\
    fork_copy s (reverse path) [(main_lane, Some id)].
Proof.
  intros Hwf He. pose proof He as [Hin Hid]%(wf_byId _ Hwf).
  destruct (findEntriesOnBranch_path s id e oldest_first_query no_bounds Hwf He) as (path & Hb & Hf);
    [done|done|].
  exists path. split; [done|]. split.
  { rewrite Hf. simpl. unfold branch_scan. simpl. by rewrite filter_oldest_first, upto_no_bounds. }
  destruct (branch_links s e path Hwf Hb) as [Hpar Hlast]. split.
  - done.
  - rewrite <- (reverse_involutive path) in Hb. pose proof (branch_ids_NoDup s e _ Hwf Hin Hb) as Hnd.
    rewrite reverse_involutive in Hnd.
    rewrite (reverse_Permutation path). done.
  - intros x. rewrite elem_of_reverse. by apply (branch_entries s e).
  - intros lane id' [= -> ->]%list_elem_of_singleton. rewrite <- Hid.
    apply (list_elem_of_fmap_2 entry_id). rewrite last_lookup in Hlast.
    by eapply list_elem_of_lookup_2.
Qed.

Lemma fork_target_cases s entryId position :
  state_wf s ->
  match fork_target s entryId position with
  | Ok (Some id) => exists e, st_entriesById s !! id = Some e
  | Ok None => True
  | Err e => err_code e = C_invalid_fork_target
  end.
Proof.
  intros Hwf. unfold fork_target.
  assert (Hsel : exists sel, match entryId with Some id => Ok (Some id) | None => requireLane s main_lane end
                 = Ok (E := SessionError) sel).
  { destruct entryId as [id|]; [by eexists|]. unfold requireLane.
    pose proof (wf_main _ Hwf) as Hm. unfold map_has in Hm.
    destruct (map_get main_lane (st_lanes s)); [by eexists|done]. }
  destruct Hsel as (sel & Hsel). rewrite Hsel. cbn [rbind].
  destruct sel as [id|]; [|done]. unfold getEntry.
  destruct (st_entriesById s !! id) as [e|] eqn:E; [|done].
  destruct (decide (entry_type e = T_message)); [|done].
  pose proof E as [Hin Hid]%(wf_byId _ Hwf).
  set (pos := match position with Some p => p | None => _ end). destruct pos.
  - destruct (entry_parentId e) as [p|] eqn:Ep; [|done].
    apply list_elem_of_lookup in Hin as [i Hi].
    destruct (wf_parents _ Hwf _ _ _ Hi Ep) as (j & e' & _ & He' & Hid').
    exists e'. apply (wf_byId _ Hwf). split; [by eapply list_elem_of_lookup_2|done].
  - exists e. by rewrite Hid.
Qed.

Lemma fork_source_copy s options :
  state_wf s ->
  match fork_source s options with
  | Ok (copied, lanes) => fork_copy s copied lanes
  | Err e => err_code e = C_invalid_fork_target
  end.
Proof.
  intros Hwf. unfold fork_source. destruct options as [entryId position|].
  - pose proof (fork_target_cases s entryId position Hwf) as Ht.
    destruct (fork_target s entryId position) as [[id|]|e]; cbn [rbind]; [| |done].
    + destruct Ht as (e & He). destruct (fork_branch_source s id e Hwf He) as (path & _ & Hf & Hc).
      rewrite Hf. done.
    + split; simpl; [by intros [|i]|constructor|by intros ? ?%not_elem_of_nil|].
      by intros lane id ?%list_elem_of_singleton.
  - rewrite findEntries_Ok by done. cbn [rbind]. simpl. rewrite filter_oldest_first. split.
    + by apply wf_parents.
    + pose proof (wf_ids_NoDup _ Hwf) as Hnd. by apply NoDup_app in Hnd as [? _].
    + done.
    + intros lane id Hin. unfold getLanes in Hin.
      assert (Hg : map_get lane (st_lanes s) = Some (Some id)).
      { pose proof (wf_lanes _ Hwf) as Hw. clear -Hin Hw. unfold map_wf in Hw.
        induction (st_lanes s) as [|[k v] m IH]; [by apply not_elem_of_nil in Hin|].
        simpl in *. apply NoDup_cons in Hw as [Hk Hw].
        apply elem_of_cons in Hin as [[= <- <-]|Hin]; [by rewrite decide_True|].
        rewrite decide_False; [auto|]. intros ->. apply Hk. exact (list_elem_of_fmap_2 fst _ _ Hin). }
      apply (wf_leaves _ Hwf) in Hg. apply has_entry_elem in Hg as (e & He & <-); [|done].
      by apply (list_elem_of_fmap_2 entry_id).
Qed.

Lemma renumber_ids n l : map entry_id (renumber n l) = map entry_id l.
Proof. revert n; induction l as [|e l IH]; intros n; simpl; [done|]. by rewrite IH. Qed.

Lemma has_entry_ids s id :
  state_wf s -> has_entry s id = true <-> id ∈ map entry_id (st_entries s).
Proof.
  intros Hwf. rewrite has_entry_elem by done. split.
  - intros (e & He & <-). by apply (list_elem_of_fmap_2 entry_id).
  - intros (e & -> & He)%list_elem_of_fmap. eauto.
Qed.

(** The session a fork of [copied], [lanes] and the source's facts replays into. *)
Definition forked (s : SessionState) (copied : list Entry) (lanes : list (jstring * option jstring))
    (s' : SessionState) : Prop :=
  state_wf s' /\ st_entries s' = renumber 1 copied /\
  st_lanes s' = foldl (fun m p => map_set p.1 p.2 m) [(main_lane, None)] lanes /\
  st_records s' = [] /\ st_name s' = st_name s /\
  (forall id, st_labels s' !! id =
     if decide (id ∈ map entry_id copied) then st_labels s !! id else None).

Lemma fork_copy_replay s copied lanes :
  fork_copy s copied lanes ->
  exists s',
    replay init_state
      (fork_entries 1 copied ++ fork_lanes (1 + Z.of_nat (length copied)) lanes ++
       (match st_name s with
        | Some name => [Mut_name (1 + Z.of_nat (length copied) + Z.of_nat (length lanes)) (Some name)]
        | None => []
        end) ++
       fork_labels (st_labels s)
         (1 + Z.of_nat (length copied) + Z.of_nat (length lanes) +
          Z.of_nat (length (match st_name s with
             | Some name => [Mut_name (1 + Z.of_nat (length copied) + Z.of_nat (length lanes)) (Some name)]
             | None => []
             end))) copied) = Ok s' /\
    forked s copied lanes s'.
Proof.
  intros [Hpar Hnd Hsub Hleaf].
  destruct (replay_fork_entries copied init_state) as (s1 & R1 & W1 & Q1 & E1 & L1 & [C1 N1 B1]);
    [apply init_state_wf|by apply Forall_forall; set_solver|done|done|].
  destruct (replay_fork_lanes lanes s1 W1) as (s2 & R2 & W2 & Q2 & E2 & Y2 & L2 & [C2 N2 B2]).
  { apply Forall_forall. intros [lane leaf] Hin id. simpl. intros ->.
    apply has_entry_ids; [done|]. rewrite E1. simpl. rewrite renumber_ids. by eapply Hleaf. }
  set (names := match st_name s with Some name => _ | None => _ end).
  assert (H3 : exists s3, replay s2 names = Ok s3 /\ state_wf s3 /\
    st_sequence s3 = (st_sequence s2 + Z.of_nat (length names))%Z /\ st_entries s3 = st_entries s2 /\
    st_lanes s3 = st_lanes s2 /\ st_records s3 = st_records s2 /\ st_labels s3 = st_labels s2 /\
    st_name s3 = st_name s).
  { subst names. destruct (st_name s) as [name|]; simpl.
    - replace (1 + _ + _)%Z with (st_sequence s2 + 1)%Z by (rewrite Q2, Q1; simpl; lia).
      exists (apply_name s2 (st_sequence s2 + 1) (Some name)). unfold replay. simpl.
      unfold applyMutation. simpl. rewrite Z.eqb_refl. simpl. split_and!; try done.
      by apply apply_name_wf.
    - exists s2. split_and!; try done; [lia|]. by rewrite N2, N1. }
  destruct H3 as (s3 & R3 & W3 & Q3 & E3 & L3 & C3 & B3 & N3).
  destruct (replay_fork_labels (st_labels s) copied s3 W3) as (s4 & R4 & W4 & E4 & L4 & N4 & C4 & B4).
  { apply Forall_forall. intros e He. apply has_entry_ids; [done|].
    rewrite E3, E2, E1. simpl. rewrite renumber_ids. by apply (list_elem_of_fmap_2 entry_id). }
  exists s4. split.
  - unfold replay in *. rewrite !rfold_app. change (st_sequence init_state + 1)%Z with 1%Z in R1. rewrite R1.
    cbn [rbind].
    assert (A1 : (1 + Z.of_nat (length copied))%Z = (st_sequence s1 + 1)%Z) by (rewrite Q1; simpl; lia).
    rewrite A1, rfold_app, R2. cbn [rbind]. rewrite rfold_app, R3. cbn [rbind]. rewrite <- R4.
    do 2 f_equal.
    rewrite Q3, Q2. lia.
  - split_and!; [done|by rewrite E4, E3, E2, E1|by rewrite L4, L3, L2, L1|by rewrite C4, C3, C2, C1|by rewrite N4|].
    intros id. rewrite B4, B3, B2, B1, copy_labels_lookup. simpl. rewrite lookup_empty.
    by destruct (st_labels s !! id).
Qed.

Lemma createForkMutations_forked s options :
  state_wf s ->
  match createForkMutations s options with
  | Ok ms => exists copied lanes s', fork_source s options = Ok (copied, lanes) /\
      fork_copy s copied lanes /\ replay init_state ms = Ok s' /\ forked s copied lanes s'
  | Err e => err_code e = C_invalid_fork_target
  end.
Proof.
  intros Hwf. pose proof (fork_source_copy s options Hwf) as Hc. unfold createForkMutations.
  destruct (fork_source s options) as [[copied lanes]|e]; cbn [rbind]; [|done].
  destruct (fork_copy_replay s copied lanes Hc) as (s' & Hr & Hf). exists copied, lanes, s'.
  split_and!; done.
Qed.
