(* ===== verification/SessionStorage.v ===== *)
(** * Session storage

    packages/agent/src/harness/session/memory.ts: [InMemorySessionStorage] and
    [InMemorySessionRepo] over [SessionState], and the storage-facing part of
    packages/agent/src/harness/session/session.ts, which is written against the
    [SessionStorage] interface of session/types.ts: the class [SessionStorage]
    below, with the contract [SessionStorageSpec] a backend owes its clients. *)

From stdpp Require Import base list gmap strings pretty sorting.
From Stdlib Require Import ZArith Lia.
From S2P Require Import Prelude SessionTypes SessionState SessionInvariant SessionFork.

(** ** InMemorySessionStorage *)

Record InMemorySessionStorage := { ms_metadata : SessionMetadata; ms_state : SessionState }.

Definition new_InMemorySessionStorage (metadata : SessionMetadata) : InMemorySessionStorage :=
  {| ms_metadata := metadata; ms_state := init_state |}.

Definition with_state (st : InMemorySessionStorage) (s : SessionState) : InMemorySessionStorage :=
  {| ms_metadata := ms_metadata st; ms_state := s |}.

Definition fork (st : InMemorySessionStorage) (metadata : SessionMetadata) (options : ForkOptions)
    : Result SessionError InMemorySessionStorage :=
  let* mutations := createForkMutations (ms_state st) options in
  let* s := replay (ms_state (new_InMemorySessionStorage metadata)) mutations in
  Ok (with_state (new_InMemorySessionStorage metadata) s).

Definition createLane (s : SessionState) (lane : jstring) (at_ : option jstring)
    : Result SessionError SessionState :=
  validateNewLane s lane ;;;
  validateTarget s at_ ;;;
  applyMutation s (Mut_lane (nextSequence s) lane at_).

Definition moveLane (s : SessionState) (lane : jstring) (to : option jstring)
    : Result SessionError SessionState :=
  requireLane s lane ;;;
  validateTarget s to ;;;
  applyMutation s (Mut_lane (nextSequence s) lane to).

(** [now] is the value of [Date.now()]. *)
Definition appendEntry (s : SessionState) (now : Z) (newEntry : ProvisionedEntry) (lane : jstring)
    : Result SessionError (Entry * SessionState) :=
  let* parentId := requireLane s lane in
  validateUnusedId s (pe_id newEntry) ;;;
  let entry := {| entry_id := pe_id newEntry; entry_seq := nextSequence s;
                  entry_parentId := parentId; entry_timestamp := now;
                  entry_payload := pe_payload newEntry |} in
  let* s' := applyMutation s (Mut_entry (Some lane) entry) in
  Ok (entry, s').

Definition appendRecord (s : SessionState) (now : Z) (newRecord : NewRecord)
    : Result SessionError (LaneRecord * SessionState) :=
  requireLane s (nr_lane newRecord) ;;;
  validateUnusedId s (nr_id newRecord) ;;;
  let* open := findOpenOperations s (nr_lane newRecord) (Some 1%Z) in
  match nr_payload newRecord, head open with
  | P_operation_started _ _, Some current =>
      Err (session_error C_storage (js "Lane " ++ nr_lane newRecord ++
             js " already has an open operation " ++ os_id current))
  | _, _ => Ok tt
  end ;;;
  let record := {| rec_id := nr_id newRecord; rec_seq := nextSequence s;
                   rec_lane := nr_lane newRecord; rec_timestamp := now;
                   rec_payload := nr_payload newRecord |} in
  let* s' := applyMutation s (Mut_record record) in
  Ok (record, s').

Definition setName (s : SessionState) (name : option jstring) : Result SessionError SessionState :=
  applyMutation s (Mut_name (nextSequence s) name).

Definition setLabel (s : SessionState) (id : jstring) (label : option jstring)
    : Result SessionError SessionState :=
  validateTarget s (Some id) ;;;
  applyMutation s (Mut_label (nextSequence s) id label).

(** ** The storage interface *)

(** The writes a storage offers, as data: a session's history is a list of them. *)
Inductive StorageOp :=
| Op_createLane (lane : jstring) (at_ : option jstring)
| Op_moveLane (lane : jstring) (to : option jstring)
| Op_appendEntry (now : Z) (newEntry : ProvisionedEntry) (lane : jstring)
| Op_appendRecord (now : Z) (newRecord : NewRecord)
| Op_setName (name : option jstring)
| Op_setLabel (id : jstring) (label : option jstring).

Definition run_op (s : SessionState) (op : StorageOp) : Result SessionError SessionState :=
  match op with
  | Op_createLane lane at_ => createLane s lane at_
  | Op_moveLane lane to => moveLane s lane to
  | Op_appendEntry now e lane => rmap snd (appendEntry s now e lane)
  | Op_appendRecord now r => rmap snd (appendRecord s now r)
  | Op_setName name => setName s name
  | Op_setLabel id label => setLabel s id label
  end.

(** States a storage goes through: a failed call leaves the state unchanged. *)
Inductive reachable : SessionState -> Prop :=
| reach_init : reachable init_state
| reach_fork s options ms s' :
    reachable s -> createForkMutations s options = Ok ms -> replay init_state ms = Ok s' ->
    reachable s'
| reach_op s op s' : reachable s -> run_op s op = Ok s' -> reachable s'.

(** [SessionStorage]: the reads the session facade calls. *)
Class SessionStorage (S : Type) := {
  storage_getLanes : S -> list (jstring * option jstring);
  storage_getEntry : S -> jstring -> option Entry;
  storage_findEntries : S -> EntryQuery -> Result SessionError (list Entry);
  storage_findEntriesOnBranch : S -> jstring -> EntryQuery -> BranchBounds -> Result SessionError (list Entry);
  storage_findRecords : S -> RecordQuery -> Result SessionError (list LaneRecord);
  storage_getLog : S -> LogOptions -> Result SessionError (list LogItem) }.

(** What a backend promises: its reads are those of a reachable session state. *)
Class SessionStorageSpec (S : Type) `{SessionStorage S} := {
  storage_abs : S -> SessionState;
  storage_ok : S -> Prop;
  storage_reachable : forall st, storage_ok st -> reachable (storage_abs st);
  storage_lanes_abs : forall st, storage_ok st -> storage_getLanes st = getLanes (storage_abs st);
  storage_getEntry_abs : forall st id, storage_ok st -> storage_getEntry st id = getEntry (storage_abs st) id;
  storage_branch_abs : forall st start q b, storage_ok st ->
    storage_findEntriesOnBranch st start q b = findEntriesOnBranch (storage_abs st) start q b;
  storage_entries_abs : forall st q, storage_ok st ->
    storage_findEntries st q = findEntries (storage_abs st) q }.

#[global] Instance memory_storage : SessionStorage InMemorySessionStorage := {
  storage_getLanes st := getLanes (ms_state st);
  storage_getEntry st id := getEntry (ms_state st) id;
  storage_findEntries st q := findEntries (ms_state st) q;
  storage_findEntriesOnBranch st start q b := findEntriesOnBranch (ms_state st) start q b;
  storage_findRecords st q := findRecords (ms_state st) q;
  storage_getLog st o := getLog (ms_state st) o }.

#[global] Instance memory_storage_spec : SessionStorageSpec InMemorySessionStorage.
Proof.
  refine {| storage_abs := ms_state; storage_ok st := reachable (ms_state st) |}; done.
Defined.

(** ** Session: the facade over a storage *)

Section Session.
Context {S : Type} `{SessionStorage S}.

Definition getLeafIdForLane (st : S) (lane : jstring) : Result SessionError (option jstring) :=
  match List.find (fun p => bool_decide (p.1 = lane)) (storage_getLanes st) with
  | None => Err (session_error C_invalid_lane (js "Lane not found: " ++ lane))
  | Some pointer => Ok pointer.2
  end.

Definition with_limit (limit : option Z) (q : EntryQuery) : EntryQuery :=
  {| eq_type := eq_type q; eq_customType := eq_customType q; eq_order := eq_order q;
     eq_limit := limit; eq_cursor := eq_cursor q |}.

Definition queryEntries (st : S) (q : EntryQuery) (resultLimit : option Z)
    : Result SessionError (list Entry) :=
  assertValidLimit (eq_limit q) ;;;
  assertValidCursor (eq_cursor q) ;;;
  storage_findEntries st (with_limit resultLimit q).

Definition queryBranchEntries (st : S) (defaultLane : jstring) (start : option jstring)
    (q : EntryQuery) (bounds : BranchBounds) (resultLimit : option Z)
    : Result SessionError (list Entry) :=
  assertValidLimit (eq_limit q) ;;;
  assertValidCursor (eq_cursor q) ;;;
  let* start := match start with
                | Some id => Ok (Some id)
                | None => getLeafIdForLane st defaultLane
                end in
  match start with
  | None => Ok []
  | Some start => storage_findEntriesOnBranch st start (with_limit resultLimit q) bounds
  end.

Definition queryRecords (st : S) (q : RecordQuery) : Result SessionError (list LaneRecord) :=
  assertValidLimit (rq_limit q) ;;;
  assertValidCursor (rq_afterSeq q) ;;;
  match rq_operationKind q with
  | Some _ =>
      rguard (bool_decide (rq_type q = Some RT_operation_started))
        (session_error C_invalid_query (js "operationKind requires type " ++ [34%Z] ++ js "operation_started" ++ [34%Z]))
  | None => Ok tt
  end ;;;
  storage_findRecords st q.

Definition queryLog (st : S) (o : LogOptions) : Result SessionError (list LogItem) :=
  assertValidLimit (lo_limit o) ;;;
  assertValidCursor (lo_afterSeq o) ;;;
  storage_getLog st o.

Definition findEntry (st : S) (q : EntryQuery) : Result SessionError (option Entry) :=
  rmap head (queryEntries st q (Some 1%Z)).

Definition findEntryOnBranch (st : S) (lane : jstring) (start : option jstring) (q : EntryQuery)
    (bounds : BranchBounds) : Result SessionError (option Entry) :=
  rmap head (queryBranchEntries st lane start q bounds (Some 1%Z)).
End Session.

(** ** InMemorySessionRepo *)

Abbreviation repo := (list (jstring * InMemorySessionStorage)).

(** [fresh] is the value of [uuidv7()], used when the caller gives no id. *)
Definition repo_create (r : repo) (fresh : jstring) (now : Z) (o : SessionCreateOptions)
    : Result SessionError repo :=
  let id := default fresh (co_id o) in
  rguard (negb (map_has id r)) (session_error C_already_exists (js "Session already exists: " ++ id)) ;;;
  Ok (map_set id (new_InMemorySessionStorage
                    {| meta_id := id; meta_createdAt := now;
                       meta_parentSessionId := co_parentSessionId o |}) r).

Definition requireStorage (r : repo) (id : jstring) : Result SessionError InMemorySessionStorage :=
  match map_get id r with
  | None => Err (session_error C_not_found (js "Session not found: " ++ id))
  | Some storage => Ok storage
  end.

Definition repo_list (r : repo) : list SessionMetadata := map ms_metadata (map_values r).

Definition repo_delete (r : repo) (m : SessionMetadata) : repo := map_delete (meta_id m) r.

Definition repo_fork (r : repo) (fresh : jstring) (now : Z) (source : SessionMetadata)
    (options : ForkOptions) (o : SessionCreateOptions) : Result SessionError repo :=
  let* sourceStorage := requireStorage r (meta_id source) in
  let id := default fresh (co_id o) in
  rguard (negb (map_has id r)) (session_error C_already_exists (js "Session already exists: " ++ id)) ;;;
  let parent := match co_parentSessionId o with Some p => p | None => meta_id source end in
  let* storage := fork sourceStorage
                    {| meta_id := id; meta_createdAt := now; meta_parentSessionId := Some parent |}
                    options in
  Ok (map_set id storage r).

(** ** Facts about the writes *)

(** At most one operation of a lane is open. *)
Definition single_open (s : SessionState) : Prop :=
  forall lane, (length (open_starts lane (st_records s)) <= 1)%nat.

Lemma createLane_Ok s lane at_ s' :
  createLane s lane at_ = Ok s' ->
  applyMutation s (Mut_lane (nextSequence s) lane at_) = Ok s' /\ map_has lane (st_lanes s) = false.
Proof.
  unfold createLane, validateNewLane. destruct (map_has lane (st_lanes s)); [done|].
  simpl. intros H. by apply rbind_Ok_inv in H as (? & _ & H).
Qed.

Lemma appendEntry_Ok s now e lane entry s' :
  appendEntry s now e lane = Ok (entry, s') ->
  exists parentId, map_get lane (st_lanes s) = Some parentId /\ (pe_id e ∉ st_usedIds s) /\
    entry = {| entry_id := pe_id e; entry_seq := nextSequence s; entry_parentId := parentId;
               entry_timestamp := now; entry_payload := pe_payload e |} /\
    applyMutation s (Mut_entry (Some lane) entry) = Ok s'.
Proof.
  unfold appendEntry, requireLane, validateUnusedId. intros H.
  destruct (map_get lane (st_lanes s)) as [parentId|]; [|done]. cbn [rbind] in H.
  case_bool_decide as Hid; [done|]. cbn [rbind] in H.
  apply rbind_Ok_inv in H as (s1 & H1 & H). injection H as <- <-. eauto.
Qed.

Lemma appendRecord_Ok s now r record s' :
  state_wf s -> appendRecord s now r = Ok (record, s') ->
  record = {| rec_id := nr_id r; rec_seq := nextSequence s; rec_lane := nr_lane r;
              rec_timestamp := now; rec_payload := nr_payload r |} /\
  applyMutation s (Mut_record record) = Ok s' /\
  (as_operation_started record <> None -> open_starts (nr_lane r) (st_records s) = []).
Proof.
  unfold appendRecord, validateUnusedId. intros Hwf H.
  apply rbind_Ok_inv in H as (leaf & _ & H).
  case_bool_decide as Hid; [done|]. cbn [rbind] in H.
  rewrite (findOpenOperations_starts s (nr_lane r) (Some 1%Z) Hwf eq_refl) in H. cbn [rbind] in H.
  apply rbind_Ok_inv in H as (u & Hopen & H).
  apply rbind_Ok_inv in H as (s1 & H1 & H). injection H as <- <-. split_and!; [done|done|].
  unfold as_operation_started. simpl in *. intros Hst.
  destruct (nr_payload r); try done.
  destruct (open_starts (nr_lane r) (st_records s)) as [|x l _] using rev_ind; [done|].
  by rewrite reverse_snoc in Hopen.
Qed.

Lemma run_op_mutation s op s' :
  state_wf s -> run_op s op = Ok s' -> exists m, applyMutation s m = Ok s'.
Proof.
  intros Hwf. destruct op as [lane a|lane to|now e lane|now r|name|id label]; simpl.
  - intros [? _]%createLane_Ok. eauto.
  - unfold moveLane. intros H. apply rbind_Ok_inv in H as (? & _ & H).
    apply rbind_Ok_inv in H as (? & _ & H). eauto.
  - destruct (appendEntry s now e lane) as [[en s1]|] eqn:E; simpl; [|done]. intros [= <-].
    apply appendEntry_Ok in E as (? & _ & _ & _ & ?). eauto.
  - destruct (appendRecord s now r) as [[en s1]|] eqn:E; simpl; [|done]. intros [= <-].
    apply appendRecord_Ok in E as (_ & ? & _); [|done]. eauto.
  - unfold setName. eauto.
  - unfold setLabel. intros H. apply rbind_Ok_inv in H as (? & _ & H). eauto.
Qed.

Lemma run_op_wf s op s' : state_wf s -> run_op s op = Ok s' -> state_wf s'.
Proof. intros Hwf H. destruct (run_op_mutation s op s' Hwf H) as (m & Hm). by eapply applyMutation_wf. Qed.

Lemma forked_single_open s copied lanes s' : forked s copied lanes s' -> single_open s'.
Proof. intros (_ & _ & _ & Hr & _) lane. rewrite Hr. simpl. lia. Qed.

(** A mutation other than a record leaves the records alone. *)
Lemma applyMutation_records s m s' :
  applyMutation s m = Ok s' ->
  st_records s' = st_records s ++ match m with Mut_record r => [r] | _ => [] end.
Proof.
  intros H. destruct m as [lane e|r|seq lane leaf|seq name|seq id label].
  - apply apply_entry_Ok in H as (_ & _ & _ & _ & ->). by rewrite app_nil_r.
  - by apply apply_record_Ok in H as (_ & _ & _ & ->).
  - apply apply_lane_Ok in H as (_ & _ & ->). by rewrite app_nil_r.
  - apply apply_name_Ok in H as (_ & ->). by rewrite app_nil_r.
  - apply apply_label_Ok in H as (_ & _ & ->). by rewrite app_nil_r.
Qed.

Lemma single_open_snoc s r :
  single_open s ->
  (as_operation_started r <> None -> open_starts (rec_lane r) (st_records s) = []) ->
  forall lane, (length (open_starts lane (st_records s ++ [r])) <= 1)%nat.
Proof.
  intros Hs Hr lane. destruct (as_operation_started r) as [st|] eqn:Est.
  - rewrite (open_starts_snoc_start _ _ _ _ Est). case_bool_decide as Hl.
    + subst lane. rewrite Hr by done. simpl. lia.
    + rewrite app_nil_r. apply Hs.
  - destruct (decide (rec_lane r = lane)) as [Hl|Hl].
    + destruct (rec_payload r) as [| |runId o e| | | | | |] eqn:Ep;
        try (rewrite open_starts_snoc_other; [apply Hs|done|intros; unfold finishes; by rewrite Ep]).
      rewrite (open_starts_snoc_finish _ _ _ _ _ _ Ep Hl).
      etransitivity; [apply List.filter_length_le|apply Hs].
    + rewrite open_starts_snoc_other; [apply Hs|done|]. intros id. unfold finishes.
      destruct (rec_payload r); try done. rewrite (bool_decide_false (rec_lane r = lane)) by done.
      apply andb_false_r.
Qed.

Lemma run_op_single_open s op s' :
  state_wf s -> single_open s -> run_op s op = Ok s' -> single_open s'.
Proof.
  intros Hwf Hs Hop.
  destruct op as [lane a|lane to|now e lane|now r|name|id label].
  4: { simpl in Hop. destruct (appendRecord s now r) as [[rec s1]|] eqn:E; [|done].
       injection Hop as <-. apply appendRecord_Ok in E as (Hrec & Hm & Hopen); [|done].
       intros lane. rewrite (applyMutation_records _ _ _ Hm).
       apply single_open_snoc; [done|]. subst rec. exact Hopen. }
  all: intros l; enough (st_records s' = st_records s) as -> by apply Hs; simpl in Hop.
  - apply createLane_Ok in Hop as [Hm _]. rewrite (applyMutation_records _ _ _ Hm). apply app_nil_r.
  - unfold moveLane in Hop. apply rbind_Ok_inv in Hop as (? & _ & Hop).
    apply rbind_Ok_inv in Hop as (? & _ & Hop). rewrite (applyMutation_records _ _ _ Hop). apply app_nil_r.
  - destruct (appendEntry s now e lane) as [[en s1]|] eqn:E; simpl in Hop; [|done].
    injection Hop as <-. apply appendEntry_Ok in E as (? & _ & _ & _ & Hm).
    rewrite (applyMutation_records _ _ _ Hm). apply app_nil_r.
  - unfold setName in Hop. rewrite (applyMutation_records _ _ _ Hop). apply app_nil_r.
  - unfold setLabel in Hop. apply rbind_Ok_inv in Hop as (? & _ & Hop).
    rewrite (applyMutation_records _ _ _ Hop). apply app_nil_r.
Qed.

Lemma reachable_inv s : reachable s -> state_wf s /\ single_open s.
Proof.
  induction 1 as [|s options ms s' Hr [Hwf Hs] Hf Hms|s op s' Hr [Hwf Hs] Hop].
  - split; [apply init_state_wf|]. intros lane. simpl. lia.
  - pose proof (createForkMutations_forked s options Hwf) as H. rewrite Hf in H.
    destruct H as (copied & lanes & s2 & _ & _ & H2 & Hfk).
    assert (s2 = s') as -> by congruence. split; [apply Hfk|]. by eapply forked_single_open.
  - split; [by eapply run_op_wf|by eapply run_op_single_open].
Qed.

(** ** Guarded mutations are accepted *)

Lemma entry_guarded s lane leaf e :
  state_wf s -> map_get lane (st_lanes s) = Some leaf -> entry_id e ∉ st_usedIds s ->
  entry_seq e = nextSequence s -> entry_parentId e = leaf ->
  applyMutation s (Mut_entry (Some lane) e) = Ok (apply_entry s (Some lane) e).
Proof.
  intros Hwf Hl Hid Hseq <-. unfold applyMutation. simpl.
  rewrite Hseq. unfold nextSequence. rewrite Z.eqb_refl, Hl. simpl.
  rewrite bool_decide_false by done. simpl. rewrite bool_decide_true by done. simpl.
  destruct (entry_parentId e) as [p|]; [|done]. by rewrite (wf_leaves _ Hwf _ _ Hl).
Qed.

Lemma record_guarded s r :
  map_has (rec_lane r) (st_lanes s) = true -> rec_id r ∉ st_usedIds s -> rec_seq r = nextSequence s ->
  applyMutation s (Mut_record r) = Ok (apply_record s r).
Proof.
  intros Hl Hid Hseq. unfold applyMutation. simpl. rewrite Hseq. unfold nextSequence.
  rewrite Z.eqb_refl, Hl. simpl. by rewrite bool_decide_false.
Qed.

Lemma lane_guarded s lane leaf :
  validateTarget s leaf = Ok tt ->
  applyMutation s (Mut_lane (nextSequence s) lane leaf) = Ok (apply_lane s (nextSequence s) lane leaf).
Proof.
  intros Ht. unfold applyMutation, nextSequence. simpl. rewrite Z.eqb_refl. simpl.
  destruct leaf as [id|]; [|done]. simpl in Ht. by destruct (has_entry s id).
Qed.

Lemma name_guarded s name :
  applyMutation s (Mut_name (nextSequence s) name) = Ok (apply_name s (nextSequence s) name).
Proof. unfold applyMutation, nextSequence. simpl. by rewrite Z.eqb_refl. Qed.

Lemma label_guarded s id label :
  has_entry s id = true ->
  applyMutation s (Mut_label (nextSequence s) id label) = Ok (apply_label s (nextSequence s) id label).
Proof. intros Hid. unfold applyMutation, nextSequence. simpl. by rewrite Z.eqb_refl, Hid. Qed.

(** The error codes a guarded write can report. *)
Definition guard_codes : list SessionErrorCode :=
  [C_invalid_lane; C_already_exists; C_not_found; C_storage].

Lemma validateTarget_cases s t :
  match validateTarget s t with Ok _ => validateTarget s t = Ok tt | Err e => err_code e ∈ guard_codes end.
Proof. destruct t as [id|]; simpl; [|done]. destruct (has_entry s id); [done|]. simpl. set_solver. Qed.

Lemma lane_write_errors s lane leaf err :
  (validateTarget s leaf ;;; applyMutation s (Mut_lane (nextSequence s) lane leaf)) = Err err ->
  err_code err ∈ guard_codes.
Proof.
  pose proof (validateTarget_cases s leaf) as Ht. intros H.
  destruct (validateTarget s leaf) as [[]|e] eqn:E; cbn [rbind] in H.
  - by rewrite lane_guarded in H.
  - by injection H as <-.
Qed.

Lemma appendEntry_errors s now e lane err :
  state_wf s -> appendEntry s now e lane = Err err -> err_code err ∈ guard_codes.
Proof.
  intros Hwf. unfold appendEntry, requireLane, validateUnusedId.
  destruct (map_get lane (st_lanes s)) as [leaf|] eqn:El; cbn [rbind]; [|intros [= <-]; simpl; set_solver].
  case_bool_decide; cbn [rbind]; [intros [= <-]; simpl; set_solver|].
  by rewrite (entry_guarded s lane leaf).
Qed.

Lemma appendRecord_errors s now r err :
  state_wf s -> appendRecord s now r = Err err -> err_code err ∈ guard_codes.
Proof.
  intros Hwf. unfold appendRecord, requireLane, validateUnusedId.
  destruct (map_get (nr_lane r) (st_lanes s)) as [leaf|] eqn:El; cbn [rbind]; [|intros [= <-]; simpl; set_solver].
  case_bool_decide; cbn [rbind]; [intros [= <-]; simpl; set_solver|].
  rewrite (findOpenOperations_starts s (nr_lane r) (Some 1%Z) Hwf eq_refl). cbn [rbind].
  rewrite record_guarded; [|by unfold map_has; simpl; rewrite El|done|done].
  destruct (head (limited (Some 1%Z) _)) as [current|].
  - destruct (nr_payload r); simpl; try done. intros [= <-]. simpl. set_solver.
  - by destruct (nr_payload r).
Qed.

Lemma run_op_errors s op err :
  state_wf s -> run_op s op = Err err -> err_code err ∈ guard_codes.
Proof.
  intros Hwf Hop. destruct op as [lane a|lane to|now e lane|now r|name|id label]; simpl in Hop.
  - unfold createLane, validateNewLane in Hop. destruct (map_has lane (st_lanes s)).
    + injection Hop as <-. simpl. set_solver.
    + by eapply lane_write_errors.
  - unfold moveLane, requireLane in Hop. destruct (map_get lane (st_lanes s)).
    + by eapply lane_write_errors.
    + injection Hop as <-. simpl. set_solver.
  - destruct (appendEntry s now e lane) eqn:E; [done|]. injection Hop as <-. by eapply appendEntry_errors.
  - destruct (appendRecord s now r) eqn:E; [done|]. injection Hop as <-. by eapply appendRecord_errors.
  - unfold setName in Hop. by rewrite name_guarded in Hop.
  - unfold setLabel in Hop. simpl in Hop. destruct (has_entry s id) eqn:E; simpl in Hop.
    + by rewrite label_guarded in Hop.
    + injection Hop as <-. simpl. set_solver.
Qed.
