(* ===== verification/SessionProperties.v ===== *)
(** * Properties of sessions

    The statements a client of the session layer relies on, for states reached
    through the storage operations and for storages behind the interface. *)

From stdpp Require Import base list gmap strings pretty sorting.
From Stdlib Require Import ZArith Lia.
From S2P Require Import Prelude SessionTypes SessionState SessionInvariant SessionFork SessionStorage.

(** ** A concrete session for the witnesses *)

Definition ex_user (text : string) : EntryPayload :=
  E_message (AM_message (M_user {| user_content := UC_string (js text); user_timestamp := 0 |})) false.

Definition ex_start : NewRecord :=
  {| nr_id := js "op1"; nr_lane := main_lane;
     nr_payload := P_operation_started None (I_compaction None (js "r1")) |}.

Definition ex_ops : list StorageOp :=
  [ Op_appendEntry 10 {| pe_id := js "a"; pe_payload := ex_user "hi" |} main_lane;
    Op_appendEntry 11 {| pe_id := js "b"; pe_payload := ex_user "there" |} main_lane;
    Op_createLane (js "side") (Some (js "a"));
    Op_setLabel (js "a") (Some (js "start"));
    Op_appendRecord 12 ex_start ].

(** The state after [ex_ops]. *)
Definition ex_state : SessionState :=
  match rfold run_op init_state ex_ops with Ok s => s | Err _ => init_state end.

Lemma rfold_reachable ops : forall s s', reachable s -> rfold run_op s ops = Ok s' -> reachable s'.
Proof.
  induction ops as [|op ops IH]; simpl; intros s s' Hs H; [congruence|].
  apply rbind_Ok_inv in H as (s1 & H1 & H). eapply IH; [|exact H]. by econstructor 3.
Defined.

Lemma ex_state_reachable : reachable ex_state.
Proof. apply (rfold_reachable ex_ops init_state); [constructor | vm_compute; reflexivity]. Defined.

(** ** Statements *)

(** C1: every state a storage reaches, through any sequence of successful writes
    and forks, is well formed (its indexes agree with its log) and has at most
    one open operation per lane. *)
Theorem reachable_well_formed (s : SessionState) (H : reachable s) :
  state_wf s /\ single_open s.
Proof. by apply reachable_inv. Qed.

Lemma reachable_well_formed_witness :
  state_wf ex_state /\ single_open ex_state.
Proof. apply (reachable_well_formed ex_state). exact ex_state_reachable. Defined.

(** whatever mutations a session file holds, a replay that succeeds yields a
    well-formed state: applyMutation alone enforces the invariant. *)
Theorem replay_well_formed (ms : list SessionMutation) (s : SessionState)
    (H : replay init_state ms = Ok s) : state_wf s.
Proof. eauto with result. Qed.

Lemma replay_well_formed_witness :
  state_wf (apply_name init_state 1 (Some (js "n"))).
Proof.
  apply (replay_well_formed [Mut_name 1 (Some (js "n"))]). vm_compute. reflexivity.
Defined.

(** on a reachable state a branch query from an existing entry always
    succeeds: it returns the matching entries of the parent chain up to the
    first bound, in the requested order and cut at the limit, and the chain has
    strictly decreasing sequence numbers. The cycle and missing-parent errors
    of walkToRoot never fire. *)
Theorem findEntriesOnBranch_total (s : SessionState) (start : jstring) (e : Entry)
    (q : EntryQuery) (bounds : BranchBounds)
    (Hs : reachable s) (He : getEntry s start = Some e)
    (Hl : assertValidLimit (eq_limit q) = Ok tt) (Hc : assertValidCursor (eq_cursor q) = Ok tt) :
  exists path, branch (st_entriesById s) e path /\
    StronglySorted (fun a b => (entry_seq b < entry_seq a)%Z) path /\
    findEntriesOnBranch s start q bounds =
    Ok (limited (eq_limit q) (List.filter (fun e => matchesEntryQuery e q) (branch_scan q bounds path))).
Proof.
  apply reachable_inv in Hs as [Hwf _].
  destruct (findEntriesOnBranch_path s start e q bounds Hwf He Hl Hc) as (path & Hb & Hf).
  exists path. split_and!; [done| |done].
  apply (wf_byId _ Hwf) in He as [Hin _]. apply list_elem_of_lookup in Hin as [i Hi].
  by destruct (branch_decreasing s e path Hwf Hb i Hi).
Qed.

Lemma findEntriesOnBranch_total_witness :
  exists e, getEntry ex_state (js "b") = Some e /\
  exists path, branch (st_entriesById ex_state) e path /\
    StronglySorted (fun a b => (entry_seq b < entry_seq a)%Z) path /\
    findEntriesOnBranch ex_state (js "b") oldest_first_query no_bounds =
    Ok (limited None (List.filter (fun e => matchesEntryQuery e oldest_first_query)
                       (branch_scan oldest_first_query no_bounds path))).
Proof.
  eexists. split; [vm_compute; reflexivity|].
  apply (findEntriesOnBranch_total ex_state (js "b") _ oldest_first_query no_bounds);
    [exact ex_state_reachable | vm_compute; reflexivity | reflexivity | reflexivity].
Defined.

(** C2: forking a reachable session either reports an invalid fork target or
    yields mutations that replay into an empty session without error; the fork
    holds the copied entries, renumbered consecutively, the copied lanes, the
    name and exactly the labels of copied entries, and no records. *)
Theorem fork_replays (s : SessionState) (options : ForkOptions) (Hs : reachable s) :
  match createForkMutations s options with
  | Ok ms => exists copied lanes s', fork_source s options = Ok (copied, lanes) /\
      fork_copy s copied lanes /\ replay init_state ms = Ok s' /\ forked s copied lanes s'
  | Err e => err_code e = C_invalid_fork_target
  end.
Proof. apply createForkMutations_forked. by apply reachable_inv. Qed.

Lemma fork_replays_witness :
  match createForkMutations ex_state Fork_tree with
  | Ok ms => exists copied lanes s', fork_source ex_state Fork_tree = Ok (copied, lanes) /\
      fork_copy ex_state copied lanes /\ replay init_state ms = Ok s' /\ forked ex_state copied lanes s'
  | Err e => err_code e = C_invalid_fork_target
  end.
Proof. apply (fork_replays ex_state Fork_tree). exact ex_state_reachable. Defined.

(** findOpenOperations returns, newest first and cut at the limit, exactly
    the started operations of the lane that no later record of the lane
    finished. *)
Theorem findOpenOperations_unfinished (s : SessionState) (lane : jstring) (limit : option Z)
    (Hs : reachable s) (Hl : assertValidLimit limit = Ok tt) :
  findOpenOperations s lane limit = Ok (limited limit (reverse (open_starts lane (st_records s)))).
Proof. apply findOpenOperations_starts; [by apply reachable_inv|done]. Qed.

Lemma findOpenOperations_unfinished_witness :
  findOpenOperations ex_state main_lane (Some 1%Z) =
    Ok (limited (Some 1%Z) (reverse (open_starts main_lane (st_records ex_state)))) /\
  length (open_starts main_lane (st_records ex_state)) = 1%nat.
Proof.
  split; [|vm_compute; reflexivity].
  apply (findOpenOperations_unfinished ex_state main_lane (Some 1%Z));
    [exact ex_state_reachable | reflexivity].
Defined.

(** reading the log after a sequence number returns exactly the items logged
    after it, oldest first and cut at the limit: sequence numbers are the
    positions of the log. *)
Theorem getLog_suffix (s : SessionState) (o : LogOptions) (Hs : reachable s)
    (Hl : assertValidLimit (lo_limit o) = Ok tt) (Hc : assertValidCursor (lo_afterSeq o) = Ok tt) :
  getLog s o = Ok (limited (lo_limit o) (drop (Z.to_nat (default 0%Z (lo_afterSeq o))) (st_log s))).
Proof. apply getLog_Ok; [by apply reachable_inv|done|done]. Qed.

Lemma getLog_suffix_witness :
  getLog ex_state {| lo_afterSeq := Some 3%Z; lo_limit := Some 1%Z |} =
  Ok (take 1 (drop 3 (st_log ex_state))) /\ length (st_log ex_state) = 5%nat.
Proof.
  split; [|vm_compute; reflexivity].
  apply (getLog_suffix ex_state {| lo_afterSeq := Some 3%Z; lo_limit := Some 1%Z |});
    [exact ex_state_reachable | reflexivity | reflexivity].
Defined.

(** The path of a lane pointer: the branch of its leaf, empty for an empty lane. *)
Definition leaf_path (s : SessionState) (leaf : option jstring) (path : list Entry) : Prop :=
  match leaf with
  | None => path = []
  | Some id => exists e, getEntry s id = Some e /\ branch (st_entriesById s) e path
  end.

Lemma branch_insert byId x e path :
  byId !! entry_id x = None -> branch byId e path -> branch (<[entry_id x := x]> byId) e path.
Proof.
  intros Hx. induction 1 as [e He|e p e' path He Hp Hb IH]; [by constructor|].
  econstructor; [done| |done]. rewrite lookup_insert_ne; [done|]. intros <-. congruence.
Qed.

(** appending an entry to a lane extends that lane's branch by the entry and
    changes no other lane; it fails exactly when the lane is missing or the id
    is taken. *)
Theorem appendEntry_extends_lane (s : SessionState) (now : Z) (e : ProvisionedEntry)
    (lane : jstring) (path : list Entry)
    (Hs : reachable s) (Hp : forall leaf, map_get lane (st_lanes s) = Some leaf -> leaf_path s leaf path) :
  match appendEntry s now e lane with
  | Ok (entry, s') =>
      entry_seq entry = nextSequence s /\ pe_id e = entry_id entry /\ pe_payload e = entry_payload entry /\
      leaf_path s' (Some (entry_id entry)) (entry :: path) /\
      (forall l, map_get l (st_lanes s') =
         if decide (l = lane) then Some (Some (entry_id entry)) else map_get l (st_lanes s))
  | Err err =>
      (err_code err = C_invalid_lane /\ map_has lane (st_lanes s) = false) \/
      (err_code err = C_already_exists /\ pe_id e ∈ all_ids s)
  end.
Proof.
  apply reachable_inv in Hs as [Hwf _]. unfold appendEntry, requireLane, validateUnusedId.
  destruct (map_get lane (st_lanes s)) as [leaf|] eqn:El.
  2: { left. unfold map_has. by rewrite El. }
  cbn [rbind]. case_bool_decide as Hid; [right; split; [done|]; by apply (wf_used _ Hwf)|].
  cbn [rbind]. set (entry := {| entry_id := pe_id e |}).
  assert (Hbyid : st_entriesById s !! pe_id e = None).
  { destruct (st_entriesById s !! pe_id e) as [x|] eqn:E; [|done]. destruct Hid.
    apply (wf_used _ Hwf), elem_of_app. left. apply (wf_byId _ Hwf) in E as [Hin <-].
    by apply (list_elem_of_fmap_2 entry_id). }
  assert (Happ : applyMutation s (Mut_entry (Some lane) entry) = Ok (apply_entry s (Some lane) entry))
    by (by apply (entry_guarded s lane leaf)).
  rewrite Happ. cbn [rbind]. split_and!; try done.
  - exists entry. unfold getEntry. simpl. rewrite lookup_insert_eq. split; [done|].
    specialize (Hp _ eq_refl). destruct leaf as [p|]; simpl in Hp.
    + destruct Hp as (e' & He' & Hb). apply (branch_step _ _ p e'); [done| |].
      * rewrite lookup_insert_ne; [done|]. simpl. intros <-. unfold getEntry in He'. congruence.
      * by apply (branch_insert _ entry).
    + subst path. by constructor.
  - intros l. simpl. apply map_get_set.
Qed.

Lemma appendEntry_extends_lane_witness :
  match appendEntry init_state 1 {| pe_id := js "x"; pe_payload := ex_user "q" |} main_lane with
  | Ok (entry, s') =>
      entry_seq entry = nextSequence init_state /\ js "x" = entry_id entry /\
      ex_user "q" = entry_payload entry /\
      leaf_path s' (Some (entry_id entry)) [entry] /\
      (forall l, map_get l (st_lanes s') =
         if decide (l = main_lane) then Some (Some (entry_id entry)) else map_get l (st_lanes init_state))
  | Err err =>
      (err_code err = C_invalid_lane /\ map_has main_lane (st_lanes init_state) = false) \/
      (err_code err = C_already_exists /\ js "x" ∈ all_ids init_state)
  end.
Proof.
  apply (appendEntry_extends_lane init_state 1 {| pe_id := js "x"; pe_payload := ex_user "q" |} main_lane []).
  - constructor.
  - intros leaf. vm_compute. intros [= <-]. reflexivity.
Defined.

(** C3: a storage write fails only through its own guards (missing lane, taken
    lane or id, missing target, lane already running an operation); the
    consistency checks of applyMutation never reject a guarded write. *)
Theorem storage_write_errors (s : SessionState) (op : StorageOp) (Hs : reachable s) :
  match run_op s op with
  | Ok s' => reachable s'
  | Err e => err_code e ∈ guard_codes
  end.
Proof.
  destruct (run_op s op) as [s'|err] eqn:Hop; [by econstructor 3|].
  eapply run_op_errors; [|exact Hop]. by apply reachable_inv.
Qed.

Lemma storage_write_errors_witness :
  match run_op ex_state (Op_appendRecord 13 {| nr_id := js "op2"; nr_lane := main_lane;
                                              nr_payload := nr_payload ex_start |}) with
  | Ok s' => reachable s'
  | Err e => err_code e ∈ guard_codes
  end.
Proof. apply (storage_write_errors ex_state). exact ex_state_reachable. Defined.

(** ** The facade over any storage that keeps the contract *)

Lemma find_map_get (m : list (jstring * option jstring)) lane :
  List.find (fun p => bool_decide (p.1 = lane)) m = (fun v => (lane, v)) <$> map_get lane m.
Proof.
  induction m as [|[k v] m IH]; simpl; [done|].
  case_bool_decide; case_decide; subst; simpl in *; try congruence; done.
Qed.

(** over any backend that keeps the storage contract, a branch query without
    an explicit start scans the branch of the default lane's leaf: it fails with
    invalid_lane for a missing lane, returns nothing for an empty lane, and
    otherwise returns the matching entries of that branch, newest first. *)
Theorem queryBranchEntries_default_lane {S : Type} `{SessionStorageSpec S} (st : S) (lane : jstring)
    (Hok : storage_ok st) :
  let q := {| eq_type := None; eq_customType := None; eq_order := None; eq_limit := None; eq_cursor := None |} in
  match map_get lane (getLanes (storage_abs st)) with
  | None => exists err, queryBranchEntries st lane None q no_bounds None = Err err /\ err_code err = C_invalid_lane
  | Some leaf => exists path, leaf_path (storage_abs st) leaf path /\
                   queryBranchEntries st lane None q no_bounds None = Ok path
  end.
Proof.
  intros q. pose proof (storage_reachable st Hok) as Hr. apply reachable_inv in Hr as [Hwf _].
  unfold queryBranchEntries, getLeafIdForLane. cbn [rbind assertValidLimit assertValidCursor eq_limit eq_cursor q].
  rewrite (storage_lanes_abs st Hok), find_map_get. unfold getLanes.
  destruct (map_get lane (st_lanes (storage_abs st))) as [leaf|] eqn:El; simpl; [|by eexists].
  destruct leaf as [id|]; [|by exists []].
  pose proof (wf_leaves _ Hwf _ _ El) as Hid. unfold has_entry in Hid.
  destruct (st_entriesById (storage_abs st) !! id) as [e|] eqn:Ee; [|done].
  rewrite (storage_branch_abs st _ _ _ Hok).
  destruct (findEntriesOnBranch_path (storage_abs st) id e (with_limit None q) no_bounds Hwf Ee)
    as (path & Hb & Hf); [done|done|].
  exists path. split; [by exists e|]. rewrite Hf. simpl. unfold branch_scan. simpl.
  rewrite upto_no_bounds. f_equal. by apply filter_all.
Qed.

Lemma queryBranchEntries_default_lane_witness :
  let st := {| ms_metadata := {| meta_id := js "s"; meta_createdAt := 0; meta_parentSessionId := None |};
               ms_state := ex_state |} in
  let q := {| eq_type := None; eq_customType := None; eq_order := None; eq_limit := None; eq_cursor := None |} in
  match map_get main_lane (getLanes (storage_abs st)) with
  | None => exists err, queryBranchEntries st main_lane None q no_bounds None = Err err /\
              err_code err = C_invalid_lane
  | Some leaf => exists path, leaf_path (storage_abs st) leaf path /\
                   queryBranchEntries st main_lane None q no_bounds None = Ok path
  end.
Proof.
  intros st. apply (queryBranchEntries_default_lane st main_lane). exact ex_state_reachable.
Defined.
