(* ===== verification/SessionContext.v ===== *)
(** * From a branch to provider messages

    packages/agent/src/harness/session/context.ts (which entries of a branch make
    the context, and the model, thinking level and tools in force) and the
    conversions of packages/agent/src/harness/messages.ts. *)

From stdpp Require Import base list gmap strings pretty.
From Stdlib Require Import ZArith Lia.
From S2P Require Import Prelude SessionTypes.

(** ** messages.ts *)

Definition COMPACTION_SUMMARY_PREFIX : jstring :=
  js "The conversation history before this point was compacted into the following summary:

<summary>
".

Definition COMPACTION_SUMMARY_SUFFIX : jstring :=
  js "
</summary>".

Definition BRANCH_SUMMARY_PREFIX : jstring :=
  js "The following is a summary of a branch that this conversation came back from:

<summary>
".

Definition BRANCH_SUMMARY_SUFFIX : jstring := js "</summary>".

(** [nl] is the newline character of a template literal. *)
Definition nl : jstring := [10%Z].

(** [if (s)] on an optional string: present and not empty. *)
Definition truthy (s : option jstring) : bool :=
  match s with Some (_ :: _) => true | _ => false end.

Definition bashExecutionToText (m : BashExecutionMessage) : jstring :=
  js "Ran `" ++ bash_command m ++ js "`" ++ nl ++
  match bash_output m with
  | [] => js "(no output)"
  | out => js "```" ++ nl ++ out ++ nl ++ js "```"
  end ++
  (if bash_cancelled m then nl ++ nl ++ js "(command cancelled)"
   else match bash_exitCode m with
        | Some code => if (code =? 0)%Z then []
                       else nl ++ nl ++ js "Command exited with code " ++ js_of_Z code
        | None => []
        end) ++
  (if bash_truncated m && truthy (bash_fullOutputPath m)
   then nl ++ nl ++ js "[Output truncated. Full output: " ++ default [] (bash_fullOutputPath m) ++ js "]"
   else []).

Definition createBranchSummaryMessage (summary fromId : jstring) (timestamp : Z) : BranchSummaryMessage :=
  {| bsum_summary := summary; bsum_fromId := fromId; bsum_timestamp := timestamp |}.

Definition createCompactionSummaryMessage (summary : jstring) (tokensBefore : number) (timestamp : Z)
    : CompactionSummaryMessage :=
  {| csum_summary := summary; csum_tokensBefore := tokensBefore; csum_timestamp := timestamp |}.

Definition text_block (s : jstring) : UserBlock :=
  UB_text {| text_text := s; text_textSignature := None |}.

Definition user_text (blocks : list UserBlock) (timestamp : Z) : Message :=
  M_user {| user_content := UC_blocks blocks; user_timestamp := timestamp |}.

(** The callback of [messages.map] in [convertToLlm]. *)
Definition convertMessage (m : AgentMessage) : option Message :=
  match m with
  | AM_bashExecution b =>
      if default false (bash_excludeFromContext b) then None
      else Some (user_text [text_block (bashExecutionToText b)] (bash_timestamp b))
  | AM_custom c =>
      Some (user_text (match cmsg_content c with
                       | UC_string s => [text_block s]
                       | UC_blocks l => l
                       end) (cmsg_timestamp c))
  | AM_branchSummary b =>
      Some (user_text [text_block (BRANCH_SUMMARY_PREFIX ++ bsum_summary b ++ BRANCH_SUMMARY_SUFFIX)]
              (bsum_timestamp b))
  | AM_compactionSummary c =>
      Some (user_text [text_block (COMPACTION_SUMMARY_PREFIX ++ csum_summary c ++ COMPACTION_SUMMARY_SUFFIX)]
              (csum_timestamp c))
  | AM_message (M_user _ as m) | AM_message (M_assistant _ as m) | AM_message (M_toolResult _ as m) => Some m
  | AM_message (M_system _) => None
  end.

Definition convertToLlm (messages : list AgentMessage) : list Message := omap convertMessage messages.

(** ** context.ts *)

Record SessionContext := {
  ctx_messages : list AgentMessage;
  ctx_thinkingLevel : jstring;
  ctx_model : option (jstring * jstring);
  ctx_activeToolNames : option (list jstring) }.

(** [entryProjectors] is the property lookup [options.entryProjectors?.[customType]]. *)
Record SessionContextBuildOptions := {
  opt_entryTransforms : list (list Entry -> list Entry);
  opt_entryProjectors : jstring -> option (Entry -> nat -> list Entry -> option (list AgentMessage)) }.

Definition no_options : SessionContextBuildOptions :=
  {| opt_entryTransforms := []; opt_entryProjectors := fun _ => None |}.

(** The thinking level, model and tools, as the loop's variables. *)
Record ContextState := {
  cs_thinkingLevel : jstring;
  cs_model : option (jstring * jstring);
  cs_activeToolNames : option (list jstring) }.

Definition context_step (c : ContextState) (e : Entry) : ContextState :=
  match entry_payload e with
  | E_thinking_level_change level =>
      {| cs_thinkingLevel := level; cs_model := cs_model c; cs_activeToolNames := cs_activeToolNames c |}
  | E_model_change provider modelId =>
      {| cs_thinkingLevel := cs_thinkingLevel c; cs_model := Some (provider, modelId);
         cs_activeToolNames := cs_activeToolNames c |}
  | E_message (AM_message (M_assistant m)) _ =>
      {| cs_thinkingLevel := cs_thinkingLevel c; cs_model := Some (asst_provider m, asst_model m);
         cs_activeToolNames := cs_activeToolNames c |}
  | E_active_tools_change names =>
      {| cs_thinkingLevel := cs_thinkingLevel c; cs_model := cs_model c; cs_activeToolNames := Some names |}
  | _ => c
  end.

Definition deriveSessionContextState (pathEntries : list Entry) : ContextState :=
  foldl context_step
    {| cs_thinkingLevel := js "off"; cs_model := None; cs_activeToolNames := None |} pathEntries.

(** The backwards scan for the newest compaction: [index] counts down from the
    end of the path. *)
Fixpoint find_compaction (rev_path : list Entry) (index : nat) : option (Entry * nat) :=
  match rev_path with
  | [] => None
  | e :: l =>
      if decide (entry_type e = T_compaction) then Some (e, index) else find_compaction l (index - 1)
  end.

Definition defaultContextEntryTransform (pathEntries : list Entry) : list Entry :=
  match find_compaction (reverse pathEntries) (length pathEntries - 1) with
  | None => pathEntries
  | Some (compaction, compactionIndex) => compaction :: drop (compactionIndex + 1) pathEntries
  end.

Definition buildContextEntries (pathEntries : list Entry) (options : SessionContextBuildOptions) : list Entry :=
  foldl (fun entries transform => transform entries) (defaultContextEntryTransform pathEntries)
    (opt_entryTransforms options).

Definition sessionEntryToContextMessages (entry : Entry) (index : nat) (entries : list Entry)
    (options : SessionContextBuildOptions) : list AgentMessage :=
  match entry_payload entry with
  | E_message (AM_message (M_assistant a) as m) _ =>
      if decide (asst_stopReason a = SR_deferred) then [] else [m]
  | E_message m _ => [m]
  | E_compaction summary retainedTail tokensBefore _ _ =>
      AM_compactionSummary (createCompactionSummaryMessage summary tokensBefore (entry_timestamp entry))
        :: retainedTail
  | E_branch_summary fromId summary _ _ =>
      match summary with
      | [] => []
      | _ => [AM_branchSummary (createBranchSummaryMessage summary fromId (entry_timestamp entry))]
      end
  | E_custom customType _ =>
      match opt_entryProjectors options customType with
      | Some project => default [] (project entry index entries)
      | None => []
      end
  | _ => []
  end.

Definition buildSessionContext (pathEntries : list Entry) (options : SessionContextBuildOptions)
    : SessionContext :=
  let state := deriveSessionContextState pathEntries in
  let contextEntries := buildContextEntries pathEntries options in
  let messages := concat (imap (fun index entry =>
                     sessionEntryToContextMessages entry index contextEntries options) contextEntries) in
  {| ctx_messages := messages; ctx_thinkingLevel := cs_thinkingLevel state;
     ctx_model := cs_model state; ctx_activeToolNames := cs_activeToolNames state |}.

(** ** Facts *)

Definition is_compaction (e : Entry) : bool := bool_decide (entry_type e = T_compaction).

Lemma find_compaction_app (post : list Entry) c (pre : list Entry) :
  Forall (fun e => is_compaction e = false) post -> is_compaction c = true ->
  find_compaction (reverse (pre ++ c :: post)) (length (pre ++ c :: post) - 1) = Some (c, length pre).
Proof.
  intros Hpost Hc. unfold is_compaction in *. apply bool_decide_eq_true in Hc.
  induction post as [|x post IH] using rev_ind.
  - rewrite reverse_app. simpl. rewrite decide_True by done. rewrite length_app. simpl.
    do 2 f_equal. lia.
  - apply Forall_app in Hpost as [Hpost Hx]. rewrite Forall_singleton in Hx.
    apply bool_decide_eq_false in Hx. rewrite app_comm_cons, app_assoc, reverse_snoc. simpl.
    rewrite decide_False by done.
    replace (length ((pre ++ c :: post) ++ [x]) - 1 - 1)%nat with (length (pre ++ c :: post) - 1)%nat
      by (rewrite (length_app (pre ++ c :: post)); simpl; lia).
    by apply IH.
Qed.

Lemma find_compaction_none path n :
  Forall (fun e => is_compaction e = false) path -> find_compaction path n = None.
Proof.
  unfold is_compaction. intros H; revert n; induction H as [|e l He Hl IH]; intros n; simpl; [done|].
  apply bool_decide_eq_false in He. by rewrite decide_False.
Qed.

Lemma transform_compacted pre c post :
  is_compaction c = true -> Forall (fun e => is_compaction e = false) post ->
  defaultContextEntryTransform (pre ++ c :: post) = c :: post.
Proof.
  intros Hc Hpost. unfold defaultContextEntryTransform. rewrite find_compaction_app by done.
  f_equal. rewrite cons_middle, app_assoc, drop_app_length'; [done|]. rewrite length_app. simpl. lia.
Qed.

Lemma transform_uncompacted path :
  Forall (fun e => is_compaction e = false) path -> defaultContextEntryTransform path = path.
Proof.
  intros H. unfold defaultContextEntryTransform.
  by rewrite find_compaction_none by (by apply Forall_reverse).
Qed.

(** Every path either has no compaction or splits at its newest one. *)
Lemma compaction_split path :
  Forall (fun e => is_compaction e = false) path \/
  exists pre c post, path = pre ++ c :: post /\ is_compaction c = true /\
    Forall (fun e => is_compaction e = false) post.
Proof.
  induction path as [|e path IH]; [by left|]. destruct IH as [IH|(pre & c & post & -> & Hc & Hp)].
  - destruct (is_compaction e) eqn:E; [right; by exists [], e, path | left; by constructor].
  - right. by exists (e :: pre), c, post.
Qed.

(** What an entry sets. *)
Definition entry_model (e : Entry) : option (jstring * jstring) :=
  match entry_payload e with
  | E_model_change provider modelId => Some (provider, modelId)
  | E_message (AM_message (M_assistant m)) _ => Some (asst_provider m, asst_model m)
  | _ => None
  end.

Definition entry_level (e : Entry) : option jstring :=
  match entry_payload e with E_thinking_level_change level => Some level | _ => None end.

Definition entry_tools (e : Entry) : option (list jstring) :=
  match entry_payload e with E_active_tools_change names => Some names | _ => None end.

Lemma last_snoc_or {A} (l : list A) (o : option A) :
  last (l ++ match o with Some y => [y] | None => [] end) = match o with Some y => Some y | None => last l end.
Proof. destruct o; [apply last_snoc|by rewrite app_nil_r]. Qed.

Lemma omap_snoc_last {A B} (f : A -> option B) l x :
  last (omap f (l ++ [x])) = match f x with Some y => Some y | None => last (omap f l) end.
Proof. rewrite omap_app. simpl. rewrite <- last_snoc_or. by destruct (f x). Qed.

Lemma context_state_last path :
  cs_model (deriveSessionContextState path) = last (omap entry_model path) /\
  cs_thinkingLevel (deriveSessionContextState path) = default (js "off") (last (omap entry_level path)) /\
  cs_activeToolNames (deriveSessionContextState path) = last (omap entry_tools path).
Proof.
  induction path as [|e path IH] using rev_ind; [done|].
  unfold deriveSessionContextState in *. rewrite foldl_app. simpl. rewrite !omap_snoc_last.
  destruct IH as (Hm & Hl & Ht).
  unfold context_step, entry_model, entry_level, entry_tools.
  destruct (entry_payload e) as [[[| | |]| | | |]| | | | | |]; simpl; rewrite ?Hm, ?Hl, ?Ht; done.
Qed.

Lemma imap_shift {A B} (f : nat -> A -> B) x l : imap f (x :: l) = f 0%nat x :: imap (fun i => f (S i)) l.
Proof. by rewrite imap_cons. Qed.

(** ** Statements *)

(** the context of a branch starts at its newest compaction: the summary
    message, then the retained tail, then the messages of the later entries;
    nothing before the compaction contributes a message, while the model, the
    thinking level and the tools are the last ones set on the whole branch. *)
Theorem context_from_newest_compaction (pre post : list Entry) (c : Entry)
    (options : SessionContextBuildOptions) (summary : jstring) (tail : list AgentMessage)
    (tokens : number) (details : option json) (usage : option Usage)
    (Hopt : opt_entryTransforms options = [])
    (Hc : entry_payload c = E_compaction summary tail tokens details usage)
    (Hpost : Forall (fun e => is_compaction e = false) post) :
  let ctx := buildSessionContext (pre ++ c :: post) options in
  ctx_messages ctx =
    AM_compactionSummary (createCompactionSummaryMessage summary tokens (entry_timestamp c)) :: tail ++
    concat (imap (fun i e => sessionEntryToContextMessages e (S i) (c :: post) options) post) /\
  ctx_model ctx = last (omap entry_model (pre ++ c :: post)) /\
  ctx_thinkingLevel ctx = default (js "off") (last (omap entry_level (pre ++ c :: post))) /\
  ctx_activeToolNames ctx = last (omap entry_tools (pre ++ c :: post)).
Proof.
  intros ctx. destruct (context_state_last (pre ++ c :: post)) as (Hm & Hl & Ht).
  assert (Hcc : is_compaction c = true).
  { unfold is_compaction, entry_type. by rewrite Hc. }
  split_and!; [|exact Hm|exact Hl|exact Ht].
  subst ctx. unfold buildSessionContext, buildContextEntries. rewrite Hopt. cbn [foldl ctx_messages].
  rewrite transform_compacted by done. rewrite imap_shift. cbn [concat].
  unfold sessionEntryToContextMessages at 1. by rewrite Hc.
Qed.

Definition ex_entry (id : string) (payload : EntryPayload) : Entry :=
  {| entry_id := js id; entry_seq := 1; entry_parentId := None; entry_timestamp := 7; entry_payload := payload |}.

Lemma context_from_newest_compaction_witness :
  let c := ex_entry "c" (E_compaction (js "sum") [] nzero None None) in
  let pre := [ex_entry "m" (E_model_change (js "p") (js "m1"))] in
  let post := [ex_entry "t" (E_thinking_level_change (js "high"))] in
  let ctx := buildSessionContext (pre ++ c :: post) no_options in
  ctx_messages ctx =
    AM_compactionSummary (createCompactionSummaryMessage (js "sum") nzero 7) :: [] ++
    concat (imap (fun i e => sessionEntryToContextMessages e (S i) (c :: post) no_options) post) /\
  ctx_model ctx = last (omap entry_model (pre ++ c :: post)) /\
  ctx_thinkingLevel ctx = default (js "off") (last (omap entry_level (pre ++ c :: post))) /\
  ctx_activeToolNames ctx = last (omap entry_tools (pre ++ c :: post)).
Proof.
  intros c pre post.
  apply (context_from_newest_compaction pre post c no_options (js "sum") [] nzero None None);
    [reflexivity | reflexivity | repeat constructor].
Defined.

(** A message a provider must not see: a deferred placeholder. *)
Definition is_deferred (m : AgentMessage) : bool :=
  match m with
  | AM_message (M_assistant a) => bool_decide (asst_stopReason a = SR_deferred)
  | _ => false
  end.

(** The retained tail of a compaction entry. *)
Definition retained (e : Entry) : list AgentMessage :=
  match entry_payload e with E_compaction _ tail _ _ _ => tail | _ => [] end.

Lemma entry_messages_not_deferred e i l :
  Forall (fun m => is_deferred m = false) (retained e) ->
  Forall (fun m => is_deferred m = false) (sessionEntryToContextMessages e i l no_options).
Proof.
  unfold retained, sessionEntryToContextMessages. intros H.
  destruct (entry_payload e) as [m t| | | | |fromId sum d u|]; try by constructor.
  - destruct m as [[| |a|]| | | |]; try by repeat constructor.
    case_decide; [constructor|]. repeat constructor. simpl. by apply bool_decide_eq_false.
  - by destruct sum; repeat constructor.
Qed.

(** without custom projectors, a deferred assistant placeholder of the
    branch never reaches the provider: it is in no context message unless a
    compaction retained it, and every provider message is a user, assistant or
    tool-result message. *)
Theorem context_hides_deferred (path : list Entry)
    (Hr : Forall (fun e => Forall (fun m => is_deferred m = false) (retained e)) path) :
  Forall (fun m => match m with
                   | M_assistant a => asst_stopReason a <> SR_deferred
                   | M_system _ => False
                   | _ => True
                   end)
    (convertToLlm (ctx_messages (buildSessionContext path no_options))).
Proof.
  assert (Hctx : Forall (fun m => is_deferred m = false) (ctx_messages (buildSessionContext path no_options))).
  { unfold buildSessionContext, buildContextEntries. cbn [ctx_messages foldl opt_entryTransforms no_options].
    apply Forall_concat. apply Forall_forall. intros ms Hms.
    apply list_elem_of_lookup in Hms as [i Hi]. rewrite list_lookup_imap in Hi.
    destruct (defaultContextEntryTransform path !! i) as [e|] eqn:Ee; [|done]. injection Hi as <-.
    apply entry_messages_not_deferred. rewrite Forall_forall in Hr. apply Hr.
    apply list_elem_of_lookup_2 in Ee.
    destruct (compaction_split path) as [Hn|(pre & c & post & -> & Hc & Hp)].
    - by rewrite transform_uncompacted in Ee.
    - rewrite transform_compacted in Ee by done. apply elem_of_app. by right. }
  unfold convertToLlm. apply Forall_forall. intros m Hm.
  apply list_elem_of_omap in Hm as (am & Ham & Hm). rewrite Forall_forall in Hctx. specialize (Hctx _ Ham).
  destruct am as [[]|b|c|b|c]; simpl in *; simplify_eq; try done.
  - by apply bool_decide_eq_false in Hctx.
  - destruct (default false _); [done|]. by injection Hm as <-.
Qed.

Lemma context_hides_deferred_witness :
  Forall (fun m => match m with
                   | M_assistant a => asst_stopReason a <> SR_deferred
                   | M_system _ => False
                   | _ => True
                   end)
    (convertToLlm (ctx_messages (buildSessionContext
       [ex_entry "u" (E_message (AM_message (M_user {| user_content := UC_string (js "q"); user_timestamp := 1 |})) false)]
       no_options))).
Proof. apply context_hides_deferred. repeat constructor. Defined.
