(* ===== verification/Reducer.v ===== *)
(** * Lane recovery

    packages/agent/src/harness/reducer.ts: [validateRecordLog] rejects record
    logs the single-writer protocol cannot produce, and [reduceLaneState]
    reconstructs a lane's orchestration state (open operation, current step,
    tool batch, pending queues, configuration, terminal failure) from its
    durable records and entries.

    [Guard.IsDeepEqual] is typebox's structural comparison, a parameter here. *)

From stdpp Require Import base list gmap strings pretty sorting.
From Stdlib Require Import ZArith Lia.
From S2P Require Import Prelude SessionTypes.

Inductive RecordLogCorruptionReason :=
| X_multiple_open_operations | X_unknown_operation | X_record_after_finish
| X_non_consecutive_attempt | X_invalid_compaction_reason | X_queue_after_abort
| X_invalid_queue_cancellation | X_inconsistent_step | X_tool_call_mismatch
| X_duplicate_tool_invocation | X_provisioned_entry_mismatch | X_invalid_deferred_handle.

Record RecordLogCorruption := { corruption_reason : RecordLogCorruptionReason; corruption_message : jstring }.

Definition corrupt {A} (reason : RecordLogCorruptionReason) (message : jstring) : Result RecordLogCorruption A :=
  Err {| corruption_reason := reason; corruption_message := message |}.

Record RecordLogSlice := {
  slice_lane : jstring;
  slice_openOperations : list OperationStartedRecord;
  slice_records : list LaneRecord;
  slice_entries : list Entry }.

Record EffectiveLaneConfiguration := {
  cfg_model : jstring * jstring;
  cfg_thinkingLevel : jstring;
  cfg_activeToolNames : list jstring }.

Inductive FailureSource := FS_step | FS_deferred_fetch.

Record TerminalFailureState := {
  tf_entryId : jstring; tf_source : FailureSource; tf_message : AssistantMessage }.

Record ToolCallState := {
  tc_toolIndex : Z;
  tc_toolCall : ToolCall;
  tc_started : option LaneRecord;
  tc_resultExists : bool;
  tc_terminate : bool }.

Record ToolBatchState := {
  tb_assistantEntryId : jstring;
  tb_calls : list ToolCallState;
  tb_truncated : bool;
  tb_unresolved : bool }.

Record StepState := {
  step_kind : StepKind;
  step_attempts : Z;
  step_resultEntryId : jstring;
  step_compactionReason : option CompactionReason }.

Record NewestOwn := {
  no_entryId : jstring;
  no_type : EntryType;
  no_role : option Role;
  no_stopReason : option StopReason }.

Record Targets := { target_result : option bool; target_summary : option bool }.

Record OperationState := {
  op_id : jstring;
  op_kind : OperationKind;
  op_intent : Intent;
  op_aborting : bool;
  op_step : option StepState;
  op_toolBatch : option ToolBatchState;
  op_missingInitialMessages : list ProvisionedEntry;
  op_pendingSteer : list ProvisionedEntry;
  op_pendingFollowUp : list ProvisionedEntry;
  op_pendingWrites : list ProvisionedEntry;
  op_deferred : option DeferredHandle;
  op_overflowRecoveryUsed : bool;
  op_newestOwn : option NewestOwn;
  op_targets : Targets }.

Record LaneState := {
  ls_lane : jstring;
  ls_leafId : option jstring;
  ls_operation : option OperationState;
  ls_pendingNextRun : list ProvisionedEntry }.

Record LaneReductionInput := {
  in_slice : RecordLogSlice;
  in_leafId : option jstring;
  in_ownEntries : list Entry;
  in_configurationEntries : list Entry;
  in_defaults : EffectiveLaneConfiguration }.

Record LaneReductionResult := {
  out_laneState : LaneState;
  out_effectiveConfiguration : EffectiveLaneConfiguration;
  out_terminalFailure : option TerminalFailureState }.

(** [new Map(entries.map(entry => [entry.id, entry]))] *)
Definition entries_by_id (entries : list Entry) : list (jstring * Entry) :=
  map_of_list ((fun e => (entry_id e, e)) <$> entries).

(** [entry.message] when it is an assistant message. *)
Definition assistant_of (e : Entry) : option AssistantMessage :=
  match entry_payload e with E_message (AM_message (M_assistant a)) _ => Some a | _ => None end.

(** [entry.message] when it is a tool result. *)
Definition tool_result_of (e : Entry) : option ToolResultMessage :=
  match entry_payload e with E_message (AM_message (M_toolResult r)) _ => Some r | _ => None end.

(** [message.content.filter(content => content.type === "toolCall")] *)
Definition tool_calls (a : AssistantMessage) : list ToolCall :=
  omap (fun b => match b with AB_toolCall c => Some c | _ => None end) (asst_content a).

(** JavaScript indexing: [undefined] outside the array. *)
Definition at_index {A} (l : list A) (i : Z) : option A :=
  if (i <? 0)%Z then None else l !! Z.to_nat i.

Definition show_step (s : StepKind) : jstring :=
  match s with
  | S_assistant => js "assistant" | S_compaction => js "compaction" | S_branch_summary => js "branch_summary"
  end.

Definition show_queue (q : QueueKind) : jstring :=
  match q with Q_steer => js "steer" | Q_followUp => js "followUp" | Q_nextRun => js "nextRun" end.

(** A step attempt record, narrowed. *)
Record StepAttempt := {
  sa_id : jstring;
  sa_seq : Z;
  sa_runId : jstring;
  sa_step : StepKind;
  sa_attempt : Z;
  sa_resultEntryId : jstring;
  sa_compactionReason : option CompactionReason }.

Definition as_step_attempt (r : LaneRecord) : option StepAttempt :=
  match rec_payload r with
  | P_step_attempt runId step attempt resultEntryId reason =>
      Some {| sa_id := rec_id r; sa_seq := rec_seq r; sa_runId := runId; sa_step := step;
              sa_attempt := attempt; sa_resultEntryId := resultEntryId; sa_compactionReason := reason |}
  | _ => None
  end.

Section Reducer.
Context (IsDeepEqual : ProvisionedEntry -> ProvisionedEntry -> bool).

Definition matchesProvisionedEntry (entry : Entry) (target : ProvisionedEntry) : bool :=
  IsDeepEqual {| pe_id := entry_id entry; pe_payload := entry_payload entry |} target.

Definition validateExactProvisionedEntry (byId : list (jstring * Entry)) (target : ProvisionedEntry)
    : Result RecordLogCorruption unit :=
  match map_get (pe_id target) byId with
  | Some entry =>
      if matchesProvisionedEntry entry target then Ok tt
      else corrupt X_provisioned_entry_mismatch
             (js "Provisioned entry " ++ pe_id target ++ js " exists with content different from its intent")
  | None => Ok tt
  end.

Definition validateResultEntry (byId : list (jstring * Entry)) (resultEntryId : jstring)
    (matches : Entry -> bool) (description : jstring) : Result RecordLogCorruption unit :=
  match map_get resultEntryId byId with
  | Some entry =>
      if matches entry then Ok tt
      else corrupt X_provisioned_entry_mismatch
             (js "Provisioned " ++ description ++ js " entry " ++ resultEntryId ++ js " exists with different content")
  | None => Ok tt
  end.

Definition validateAttemptReason (r : StepAttempt) : Result RecordLogCorruption unit :=
  match sa_step r with
  | S_compaction =>
      match sa_compactionReason r with
      | Some CR_manual | Some CR_threshold | Some CR_overflow => Ok tt
      | _ => corrupt X_invalid_compaction_reason
               (js "Compaction attempt " ++ sa_id r ++ js " has no valid compaction reason")
      end
  | _ =>
      match sa_compactionReason r with
      | None => Ok tt
      | Some _ => corrupt X_invalid_compaction_reason
                    (show_step (sa_step r) ++ js " attempt " ++ sa_id r ++ js " has a compaction reason")
      end
  end.

(** Whether an attempt continues the series of the run's previous attempt. *)
Definition continues_series (byId : list (jstring * Entry)) (previous : option StepAttempt) (r : StepAttempt)
    : option StepAttempt :=
  match previous with
  | None => None
  | Some p =>
      if bool_decide (sa_step p = sa_step r) &&
         match map_get (sa_resultEntryId p) byId with
         | None => true
         | Some result => (sa_seq r <=? entry_seq result)%Z
         end
      then Some p else None
  end.

Definition validateAttemptSequence (r : StepAttempt) (previous : option StepAttempt)
    (byId : list (jstring * Entry)) : Result RecordLogCorruption unit :=
  let series := continues_series byId previous r in
  let expectedAttempt := match series with Some p => (sa_attempt p + 1)%Z | None => 1%Z end in
  (if (sa_attempt r =? expectedAttempt)%Z then Ok tt
   else corrupt X_non_consecutive_attempt
          (show_step (sa_step r) ++ js " attempt " ++ sa_id r ++ js " is " ++ js_of_Z (sa_attempt r) ++
           js "; expected " ++ js_of_Z expectedAttempt)) ;;;
  match series, sa_step r with
  | None, _ | _, S_assistant => Ok tt
  | Some p, _ =>
      (if decide (sa_resultEntryId r = sa_resultEntryId p) then Ok tt
       else corrupt X_inconsistent_step (show_step (sa_step r) ++ js " attempts disagree on their result entry id")) ;;;
      (if decide (sa_compactionReason r = sa_compactionReason p) then Ok tt
       else corrupt X_inconsistent_step (show_step (sa_step r) ++ js " attempts disagree on their compaction reason"))
  end.

Definition validateAttemptResult (byId : list (jstring * Entry)) (r : StepAttempt)
    : Result RecordLogCorruption unit :=
  match sa_step r with
  | S_assistant =>
      validateResultEntry byId (sa_resultEntryId r)
        (fun e => match assistant_of e with Some _ => true | None => false end) (js "assistant result")
  | S_compaction =>
      validateResultEntry byId (sa_resultEntryId r)
        (fun e => bool_decide (entry_type e = T_compaction)) (js "compaction result")
  | S_branch_summary =>
      validateResultEntry byId (sa_resultEntryId r)
        (fun e => bool_decide (entry_type e = T_branch_summary)) (js "branch-summary result")
  end.

Definition invocation_key (assistantEntryId : jstring) (toolIndex : Z) : jstring :=
  assistantEntryId ++ [0%Z] ++ js_of_Z toolIndex.

Definition validateToolStart (id assistantEntryId : jstring) (toolIndex : Z)
    (toolCallId toolName resultEntryId : jstring) (byId : list (jstring * Entry))
    (invocations : gset jstring) : Result RecordLogCorruption (gset jstring) :=
  let invocation := invocation_key assistantEntryId toolIndex in
  if bool_decide (invocation ∈ invocations) then
    corrupt X_duplicate_tool_invocation
      (js "Tool invocation " ++ assistantEntryId ++ js ":" ++ js_of_Z toolIndex ++ js " is duplicated")
  else
    match map_get assistantEntryId byId ≫= assistant_of with
    | None => corrupt X_tool_call_mismatch (js "Tool start " ++ id ++ js " does not reference an assistant entry")
    | Some assistant =>
        match at_index (tool_calls assistant) toolIndex with
        | Some call =>
            if bool_decide (toolCall_id call = toolCallId) && bool_decide (toolCall_name call = toolName) then
              validateResultEntry byId resultEntryId
                (fun e => match tool_result_of e with
                          | Some t => bool_decide (tres_toolCallId t = toolCallId) &&
                                      bool_decide (tres_toolName t = toolName)
                          | None => false
                          end) (js "tool result") ;;;
              Ok ({[invocation]} ∪ invocations)
            else corrupt X_tool_call_mismatch
                   (js "Tool start " ++ id ++ js " does not match its assistant tool-call ordinal")
        | None => corrupt X_tool_call_mismatch
                    (js "Tool start " ++ id ++ js " does not match its assistant tool-call ordinal")
        end
    end.

Fixpoint validateDeferredHandles (entries : list Entry) : Result RecordLogCorruption unit :=
  match entries with
  | [] => Ok tt
  | e :: l =>
      match assistant_of e with
      | Some a =>
          if decide (asst_stopReason a = SR_deferred) then
            match asst_deferred a with
            | None => corrupt X_invalid_deferred_handle
                        (js "Deferred assistant entry " ++ entry_id e ++ js " does not carry a handle")
            | Some _ => validateDeferredHandles l
            end
          else validateDeferredHandles l
      | None => validateDeferredHandles l
      end
  end.

Definition validateOperationResult (byId : list (jstring * Entry)) (start : OperationStartedRecord)
    : Result RecordLogCorruption unit :=
  match os_intent start with
  | I_run _ initialMessages _ _ =>
      rfold (fun _ target => validateExactProvisionedEntry byId target) tt initialMessages
  | I_compaction _ resultEntryId =>
      validateResultEntry byId resultEntryId
        (fun e => bool_decide (entry_type e = T_compaction)) (js "manual compaction")
  | I_navigation _ _ _ _ summaryEntryId =>
      match summaryEntryId with
      | Some (u :: id) =>
          validateResultEntry byId (u :: id)
            (fun e => bool_decide (entry_type e = T_branch_summary)) (js "navigation summary")
      | _ => Ok tt
      end
  end.

(** The maps the validation loop fills. *)
Record ValidationState := {
  vs_starts : gmap jstring OperationStartedRecord;
  vs_finishedAt : gmap jstring Z;
  vs_abortedAt : gmap jstring Z;
  vs_queueEnqueues : gmap jstring LaneRecord;
  vs_latestAttempt : gmap jstring StepAttempt;
  vs_toolInvocations : gset jstring }.

Definition init_validation : ValidationState :=
  {| vs_starts := ∅; vs_finishedAt := ∅; vs_abortedAt := ∅; vs_queueEnqueues := ∅;
     vs_latestAttempt := ∅; vs_toolInvocations := ∅ |}.

(** The checks on a record that names its operation. *)
Definition validateRunId (v : ValidationState) (r : LaneRecord) : Result RecordLogCorruption unit :=
  match runId_of r with
  | None => Ok tt
  | Some runId =>
      (if bool_decide (is_Some (vs_starts v !! runId)) then Ok tt
       else corrupt X_unknown_operation
              (js "Record " ++ rec_id r ++ js " references unknown operation " ++ runId)) ;;;
      match vs_finishedAt v !! runId with
      | Some finishSeq =>
          if (finishSeq <? rec_seq r)%Z
          then corrupt X_record_after_finish
                 (js "Record " ++ rec_id r ++ js " follows the finish of operation " ++ runId)
          else Ok tt
      | None => Ok tt
      end
  end.

Definition validate_enqueue (byId : list (jstring * Entry)) (v : ValidationState) (r : LaneRecord)
    (queue : QueueKind) (runId : option jstring) (target : ProvisionedEntry)
    : Result RecordLogCorruption ValidationState :=
  match queue, runId ≫= (fun id => vs_abortedAt v !! id) with
  | Q_nextRun, _ => Ok tt
  | _, Some abortSeq =>
      if (abortSeq <? rec_seq r)%Z
      then corrupt X_queue_after_abort
             (show_queue queue ++ js " item " ++ pe_id target ++ js " was enqueued after abort")
      else Ok tt
  | _, None => Ok tt
  end ;;;
  validateExactProvisionedEntry byId target ;;;
  Ok {| vs_starts := vs_starts v; vs_finishedAt := vs_finishedAt v; vs_abortedAt := vs_abortedAt v;
        vs_queueEnqueues := <[pe_id target := r]> (vs_queueEnqueues v);
        vs_latestAttempt := vs_latestAttempt v; vs_toolInvocations := vs_toolInvocations v |}.

Definition validate_cancel (byId : list (jstring * Entry)) (v : ValidationState) (r : LaneRecord)
    (runId : option jstring) (entryId : jstring) : Result RecordLogCorruption ValidationState :=
  let invalid := corrupt X_invalid_queue_cancellation
                   (js "Queue cancellation " ++ rec_id r ++ js " has no pending matching enqueue") in
  match vs_queueEnqueues v !! entryId with
  | None => invalid
  | Some enqueue =>
      if (rec_seq r <=? rec_seq enqueue)%Z || negb (bool_decide (runId_of enqueue = runId)) ||
         map_has entryId byId
      then invalid else Ok v
  end.

(** The body of the loop over the records. *)
Definition validateRecord (byId : list (jstring * Entry)) (v : ValidationState) (r : LaneRecord)
    : Result RecordLogCorruption ValidationState :=
  match as_operation_started r with
  | Some start =>
      validateOperationResult byId start ;;;
      Ok {| vs_starts := <[rec_id r := start]> (vs_starts v); vs_finishedAt := vs_finishedAt v;
            vs_abortedAt := vs_abortedAt v; vs_queueEnqueues := vs_queueEnqueues v;
            vs_latestAttempt := vs_latestAttempt v; vs_toolInvocations := vs_toolInvocations v |}
  | None =>
      validateRunId v r ;;;
      match rec_payload r with
      | P_operation_started _ _ => Ok v
      | P_operation_finished runId _ _ =>
          Ok {| vs_starts := vs_starts v; vs_finishedAt := <[runId := rec_seq r]> (vs_finishedAt v);
                vs_abortedAt := vs_abortedAt v; vs_queueEnqueues := vs_queueEnqueues v;
                vs_latestAttempt := vs_latestAttempt v; vs_toolInvocations := vs_toolInvocations v |}
      | P_abort_requested runId =>
          Ok {| vs_starts := vs_starts v; vs_finishedAt := vs_finishedAt v;
                vs_abortedAt := <[runId := rec_seq r]> (vs_abortedAt v);
                vs_queueEnqueues := vs_queueEnqueues v; vs_latestAttempt := vs_latestAttempt v;
                vs_toolInvocations := vs_toolInvocations v |}
      | P_step_attempt runId step attempt resultEntryId reason =>
          let a := {| sa_id := rec_id r; sa_seq := rec_seq r; sa_runId := runId; sa_step := step;
                      sa_attempt := attempt; sa_resultEntryId := resultEntryId;
                      sa_compactionReason := reason |} in
          validateAttemptReason a ;;;
          validateAttemptSequence a (vs_latestAttempt v !! runId) byId ;;;
          validateAttemptResult byId a ;;;
          Ok {| vs_starts := vs_starts v; vs_finishedAt := vs_finishedAt v; vs_abortedAt := vs_abortedAt v;
                vs_queueEnqueues := vs_queueEnqueues v;
                vs_latestAttempt := <[runId := a]> (vs_latestAttempt v);
                vs_toolInvocations := vs_toolInvocations v |}
      | P_tool_started _ assistantEntryId toolIndex toolCallId toolName _ resultEntryId _ =>
          let* invocations := validateToolStart (rec_id r) assistantEntryId toolIndex toolCallId toolName
                                resultEntryId byId (vs_toolInvocations v) in
          Ok {| vs_starts := vs_starts v; vs_finishedAt := vs_finishedAt v; vs_abortedAt := vs_abortedAt v;
                vs_queueEnqueues := vs_queueEnqueues v; vs_latestAttempt := vs_latestAttempt v;
                vs_toolInvocations := invocations |}
      | P_queue_enqueued queue runId target => validate_enqueue byId v r queue runId target
      | P_queue_cancelled runId entryId => validate_cancel byId v r runId entryId
      | P_write_deferred _ target => validateExactProvisionedEntry byId target ;;; Ok v
      | P_usage _ _ _ _ _ _ _ _ => Ok v
      end
  end.

Definition validateRecordLog (input : RecordLogSlice) : Result RecordLogCorruption unit :=
  (if (1 <? length (slice_openOperations input))%nat
   then corrupt X_multiple_open_operations
          (js "Lane " ++ slice_lane input ++ js " has at least two open operations")
   else Ok tt) ;;;
  let byId := entries_by_id (slice_entries input) in
  validateDeferredHandles (map_values byId) ;;;
  rfold (validateRecord byId) init_validation (sort_by rec_seq (slice_records input)) ;;;
  Ok tt.

(** ** Reconstruction *)

Definition configuration_step (c : EffectiveLaneConfiguration) (e : Entry) : EffectiveLaneConfiguration :=
  match entry_payload e with
  | E_model_change provider modelId =>
      {| cfg_model := (provider, modelId); cfg_thinkingLevel := cfg_thinkingLevel c;
         cfg_activeToolNames := cfg_activeToolNames c |}
  | E_thinking_level_change level =>
      {| cfg_model := cfg_model c; cfg_thinkingLevel := level; cfg_activeToolNames := cfg_activeToolNames c |}
  | E_active_tools_change names =>
      {| cfg_model := cfg_model c; cfg_thinkingLevel := cfg_thinkingLevel c; cfg_activeToolNames := names |}
  | E_message (AM_message (M_assistant m)) _ =>
      {| cfg_model := (asst_provider m, asst_model m); cfg_thinkingLevel := cfg_thinkingLevel c;
         cfg_activeToolNames := cfg_activeToolNames c |}
  | _ => c
  end.

Definition deriveEffectiveConfiguration (input : LaneReductionInput) : EffectiveLaneConfiguration :=
  let byId := entries_by_id (in_configurationEntries input ++ in_ownEntries input) in
  foldl configuration_step (in_defaults input) (sort_by entry_seq (map_values byId)).

Definition deriveNewestOwn (e : option Entry) : option NewestOwn :=
  match e with
  | None => None
  | Some e =>
      Some match entry_payload e with
           | E_message (AM_message (M_assistant a) as m) _ =>
               {| no_entryId := entry_id e; no_type := entry_type e; no_role := Some (role_of m);
                  no_stopReason := Some (asst_stopReason a) |}
           | E_message m _ =>
               {| no_entryId := entry_id e; no_type := entry_type e; no_role := Some (role_of m);
                  no_stopReason := None |}
           | _ => {| no_entryId := entry_id e; no_type := entry_type e; no_role := None; no_stopReason := None |}
           end
  end.

(** The tool starts of one assistant entry, keyed by ordinal; the latest wins. *)
Definition batch_starts (operationId assistantEntryId : jstring) (records : list LaneRecord)
    : list (Z * LaneRecord) :=
  foldl (fun m r => match rec_payload r with
                    | P_tool_started runId aid toolIndex _ _ _ _ _ =>
                        if bool_decide (runId = operationId) && bool_decide (aid = assistantEntryId)
                        then map_set toolIndex r m else m
                    | _ => m
                    end) [] records.

Definition started_result (r : LaneRecord) : option jstring :=
  match rec_payload r with P_tool_started _ _ _ _ _ _ resultEntryId _ => Some resultEntryId | _ => None end.

Definition entry_terminate (e : Entry) : bool :=
  match entry_payload e with E_message _ terminate => terminate | _ => false end.

Definition tool_call_state (assistantSeq : Z) (starts : list (Z * LaneRecord)) (ownEntries : list Entry)
    (byId : list (jstring * Entry)) (deferredWriteIds : gset jstring) (toolIndex : nat) (call : ToolCall)
    : ToolCallState :=
  let started := map_get (Z.of_nat toolIndex) starts in
  let startedResult := (started ≫= started_result) ≫= (fun id => map_get id byId) in
  let blockedResult := List.find (fun e =>
        (assistantSeq <? entry_seq e)%Z && negb (bool_decide (entry_id e ∈ deferredWriteIds)) &&
        match tool_result_of e with
        | Some t => bool_decide (tres_toolCallId t = toolCall_id call)
        | None => false
        end) ownEntries in
  let result := match startedResult with Some e => Some e | None => blockedResult end in
  {| tc_toolIndex := Z.of_nat toolIndex; tc_toolCall := call; tc_started := started;
     tc_resultExists := match result with Some _ => true | None => false end;
     tc_terminate := match result with Some e => entry_terminate e | None => false end |}.

Definition deriveToolBatch (operationId : jstring) (records : list LaneRecord) (ownEntries : list Entry)
    (byId : list (jstring * Entry)) (deferredWriteIds : gset jstring) : option ToolBatchState :=
  let has_calls e := match assistant_of e with
                     | Some a => match tool_calls a with [] => false | _ => true end
                     | None => false
                     end in
  match List.find has_calls (reverse ownEntries) with
  | None => None
  | Some assistantEntry =>
      match assistant_of assistantEntry with
      | None => None
      | Some a =>
          let starts := batch_starts operationId (entry_id assistantEntry) records in
          let calls := imap (tool_call_state (entry_seq assistantEntry) starts ownEntries byId deferredWriteIds)
                         (tool_calls a) in
          Some {| tb_assistantEntryId := entry_id assistantEntry;
                  tb_calls := calls;
                  tb_truncated := bool_decide (asst_stopReason a = SR_length);
                  tb_unresolved := existsb (fun c => negb (tc_resultExists c)) calls |}
      end
  end.

(** A record of the open operation. *)
Definition belongs_to (operationId : jstring) (r : LaneRecord) : bool :=
  match as_operation_started r with
  | Some _ => bool_decide (rec_id r = operationId)
  | None => bool_decide (runId_of r = Some operationId)
  end.

(** Queue items neither delivered nor cancelled: queue, run and target. *)
Definition pending_queue (byId : list (jstring * Entry)) (cancelled : gset jstring) (r : LaneRecord)
    : option (QueueKind * option jstring * ProvisionedEntry) :=
  match rec_payload r with
  | P_queue_enqueued queue runId target =>
      if negb (map_has (pe_id target) byId) && negb (bool_decide (pe_id target ∈ cancelled))
      then Some (queue, runId, target) else None
  | _ => None
  end.

Definition cancelled_ids (records : list LaneRecord) : gset jstring :=
  list_to_set (omap (fun r => match rec_payload r with P_queue_cancelled _ id => Some id | _ => None end) records).

Definition deferred_write (r : LaneRecord) : option ProvisionedEntry :=
  match rec_payload r with P_write_deferred _ target => Some target | _ => None end.

Definition initial_messages (i : Intent) : list ProvisionedEntry :=
  match i with I_run _ initial _ _ => initial | _ => [] end.

(** The pending items of one queue of the open operation. *)
Definition pending_of (queue : QueueKind) (operationId : jstring)
    (pending : list (QueueKind * option jstring * ProvisionedEntry)) : list ProvisionedEntry :=
  (fun p => p.2) <$> List.filter (fun p => bool_decide (p.1.1 = queue) && bool_decide (p.1.2 = Some operationId)) pending.

Definition derive_step (byId : list (jstring * Entry)) (records : list LaneRecord) : option StepState :=
  match last (omap as_step_attempt records) with
  | Some a =>
      if map_has (sa_resultEntryId a) byId then None
      else Some {| step_kind := sa_step a; step_attempts := sa_attempt a;
                   step_resultEntryId := sa_resultEntryId a;
                   step_compactionReason := match sa_step a with
                                            | S_compaction => sa_compactionReason a
                                            | _ => None
                                            end |}
  | None => None
  end.

(** The ids of the inputs the operation may have consumed. *)
Definition consumed_ids (start : OperationStartedRecord) (records : list LaneRecord) : list jstring :=
  (pe_id <$> initial_messages (os_intent start)) ++
  omap (fun r => match rec_payload r with
                 | P_queue_enqueued queue _ target =>
                     if decide (queue = Q_nextRun) then None else Some (pe_id target)
                 | _ => None
                 end) records.

(** The newest consumed input's sequence; [None] is negative infinity. *)
Definition newest_consumed (byId : list (jstring * Entry)) (ids : list jstring) : option Z :=
  foldl (fun newest id => match map_get id byId with
                          | Some e =>
                              if decide (entry_type e = T_message) then
                                match newest with
                                | Some n => Some (Z.max n (entry_seq e))
                                | None => Some (entry_seq e)
                                end
                              else newest
                          | None => newest
                          end) None ids.

Definition overflow_used (newest : option Z) (records : list LaneRecord) : bool :=
  existsb (fun r => match as_step_attempt r with
                    | Some a => bool_decide (sa_step a = S_compaction) &&
                                bool_decide (sa_compactionReason a = Some CR_overflow) &&
                                match newest with Some n => (n <? rec_seq r)%Z | None => true end
                    | None => false
                    end) records.

Definition derive_deferred (e : option Entry) : option DeferredHandle :=
  match e ≫= assistant_of with
  | Some a => if decide (asst_stopReason a = SR_deferred) then asst_deferred a else None
  | None => None
  end.

Definition derive_targets (byId : list (jstring * Entry)) (i : Intent) : Targets :=
  match i with
  | I_compaction _ resultEntryId =>
      {| target_result := Some (map_has resultEntryId byId); target_summary := None |}
  | I_navigation _ _ _ _ (Some (u :: id)) =>
      {| target_result := None; target_summary := Some (map_has (u :: id) byId) |}
  | _ => {| target_result := None; target_summary := None |}
  end.

Definition derive_failure (records : list LaneRecord) (ownEntries : list Entry)
    (deferredWriteIds : gset jstring) : option TerminalFailureState :=
  match last ownEntries with
  | Some newest =>
      match assistant_of newest with
      | Some a =>
          if bool_decide (asst_stopReason a = SR_error) && negb (bool_decide (entry_id newest ∈ deferredWriteIds))
          then
            let producedByStep := existsb (fun r => match as_step_attempt r with
                                                    | Some s => bool_decide (sa_resultEntryId s = entry_id newest)
                                                    | None => false
                                                    end) records in
            let previous := at_index ownEntries (Z.of_nat (length ownEntries) - 2) in
            let producedByDeferredFetch :=
              existsb (fun r => match rec_payload r with
                                | P_usage _ UC_deferred_fetch _ (Some id) _ _ _ _ => bool_decide (id = entry_id newest)
                                | _ => false
                                end) records ||
              match previous ≫= assistant_of with
              | Some p => bool_decide (asst_stopReason p = SR_deferred)
              | None => false
              end in
            if producedByStep || producedByDeferredFetch
            then Some {| tf_entryId := entry_id newest;
                         tf_source := if producedByStep then FS_step else FS_deferred_fetch;
                         tf_message := a |}
            else None
          else None
      | None => None
      end
  | None => None
  end.

Definition reduceLaneState (input : LaneReductionInput) : Result RecordLogCorruption LaneReductionResult :=
  let slice := in_slice input in
  validateRecordLog slice ;;;
  let records := sort_by rec_seq (slice_records slice) in
  let ownEntries := sort_by entry_seq (in_ownEntries input) in
  let byId := entries_by_id (slice_entries slice ++ ownEntries) in
  let pendingQueueRecords := omap (pending_queue byId (cancelled_ids records)) records in
  let started := head (slice_openOperations slice) in
  let captured := match started with
                  | Some st => pe_id <$> initial_messages (os_intent st)
                  | None => []
                  end in
  let pendingNextRun :=
    (fun p => p.2) <$> List.filter (fun p => bool_decide (p.1.1 = Q_nextRun) &&
                                      negb (bool_decide (pe_id p.2 ∈ captured))) pendingQueueRecords in
  let configuration := deriveEffectiveConfiguration input in
  match started with
  | None =>
      Ok {| out_laneState := {| ls_lane := slice_lane slice; ls_leafId := in_leafId input;
                                ls_operation := None; ls_pendingNextRun := pendingNextRun |};
            out_effectiveConfiguration := configuration; out_terminalFailure := None |}
  | Some start =>
      let operationRecords := List.filter (belongs_to (os_id start)) records in
      let aborting := existsb (fun r => bool_decide (record_type r = RT_abort_requested)) operationRecords in
      let deferredWriteIds := list_to_set (pe_id <$> omap deferred_write operationRecords) in
      Ok {| out_laneState :=
              {| ls_lane := slice_lane slice;
                 ls_leafId := in_leafId input;
                 ls_operation :=
                   Some {| op_id := os_id start;
                           op_kind := intent_kind (os_intent start);
                           op_intent := os_intent start;
                           op_aborting := aborting;
                           op_step := derive_step byId operationRecords;
                           op_toolBatch := deriveToolBatch (os_id start) operationRecords ownEntries byId deferredWriteIds;
                           op_missingInitialMessages :=
                             List.filter (fun t => negb (map_has (pe_id t) byId)) (initial_messages (os_intent start));
                           op_pendingSteer := if aborting then [] else pending_of Q_steer (os_id start) pendingQueueRecords;
                           op_pendingFollowUp := if aborting then [] else pending_of Q_followUp (os_id start) pendingQueueRecords;
                           op_pendingWrites :=
                             List.filter (fun t => negb (map_has (pe_id t) byId)) (omap deferred_write operationRecords);
                           op_deferred := derive_deferred (last ownEntries);
                           op_overflowRecoveryUsed :=
                             overflow_used (newest_consumed byId (consumed_ids start operationRecords)) operationRecords;
                           op_newestOwn := deriveNewestOwn (last ownEntries);
                           op_targets := derive_targets byId (os_intent start) |};
                 ls_pendingNextRun := pendingNextRun |};
            out_effectiveConfiguration := configuration;
            out_terminalFailure := derive_failure operationRecords ownEntries deferredWriteIds |}
  end.
End Reducer.
