(* ===== verification/ReducerProtocol.v ===== *)
(** * The record protocol

    The single-writer protocol a lane's record log follows, as a step relation
    on logs in sequence order: [accepts] says when a record may follow the
    records before it, [protocol] is its closure.  [validateRecord_accepts]
    relates one iteration of the validation loop of reducer.ts, with its six
    accumulating maps, to one step of the protocol. *)

From stdpp Require Import base list gmap strings pretty sorting.
From Stdlib Require Import ZArith Lia Ascii.
From S2P Require Import Prelude SessionTypes Reducer.

(** ** Tool invocation keys

    The code identifies an invocation by the string
    [`${assistantEntryId}\u0000${toolIndex}`]. *)

Lemma js_inj s t : js s = js t -> s = t.
Proof.
  revert t; induction s as [|a s IH]; intros [|b t]; simpl; try done.
  intros [= Hab Hst]. f_equal; [|auto].
  assert (N_of_ascii a = N_of_ascii b) by lia.
  rewrite <- (ascii_N_embedding a), <- (ascii_N_embedding b). congruence.
Qed.

Lemma js_of_Z_inj x y : js_of_Z x = js_of_Z y -> x = y.
Proof. unfold js_of_Z. intros H%js_inj. by apply (inj pretty). Qed.

Lemma js_of_Z_no_nul z : (0%Z ∉ js_of_Z z).
Proof.
  intros Hz. pose proof (js_of_Z_decimal z) as Hd. rewrite Forall_forall in Hd. specialize (Hd _ Hz). unfold decimal_character in Hd. lia.
Qed.

Lemma app_separator_inj {A} (c : A) l1 l2 k1 k2 :
  (c ∉ k1) -> (c ∉ k2) -> l1 ++ [c] ++ k1 = l2 ++ [c] ++ k2 -> l1 = l2 /\ k1 = k2.
Proof.
  intros H1 H2. revert l2; induction l1 as [|a l1 IH]; intros [|b l2]; simpl; intros E;
    simplify_eq.
  - done.
  - exfalso. apply H1. apply elem_of_app. right. left.
  - exfalso. apply H2. apply elem_of_app. right. left.
  - destruct (IH l2) as [-> ->]; done.
Qed.

Lemma invocation_key_inj a1 i1 a2 i2 :
  invocation_key a1 i1 = invocation_key a2 i2 -> a1 = a2 /\ i1 = i2.
Proof.
  unfold invocation_key. intros [-> H]%app_separator_inj; [|apply js_of_Z_no_nul..].
  split; [done|by apply js_of_Z_inj].
Qed.

(** ** Views of the records read so far *)

Section Views.
Implicit Types (earlier : list LaneRecord) (r : LaneRecord).

Definition started earlier (id : jstring) : Prop :=
  exists r, r ∈ earlier /\ rec_id r = id /\ is_Some (as_operation_started r).

Definition finished earlier (id : jstring) : Prop :=
  exists r outcome error, r ∈ earlier /\ rec_payload r = P_operation_finished id outcome error.

Definition abort_requested earlier (id : jstring) : Prop :=
  exists r, r ∈ earlier /\ rec_payload r = P_abort_requested id.

Definition invoked earlier (aid : jstring) (index : Z) : Prop :=
  exists r runId callId name args result meta,
    r ∈ earlier /\ rec_payload r = P_tool_started runId aid index callId name args result meta.

Definition enqueues (id : jstring) r : bool :=
  match rec_payload r with P_queue_enqueued _ _ target => bool_decide (pe_id target = id) | _ => false end.

Definition latest_enqueue earlier (id : jstring) : option LaneRecord :=
  last (List.filter (enqueues id) earlier).

Definition latest_attempt earlier (runId : jstring) : option StepAttempt :=
  last (List.filter (fun a => bool_decide (sa_runId a = runId)) (omap as_step_attempt earlier)).
Lemma exists_snoc {A} (P : A -> Prop) (l : list A) x :
  (exists y, y ∈ l ++ [x] /\ P y) <-> (exists y, y ∈ l /\ P y) \/ P x.
Proof.
  split.
  - intros (y & [Hy | ->%list_elem_of_singleton]%elem_of_app & HP); eauto.
  - intros [(y & Hy & HP)|HP]; [exists y|exists x]; (split; [|done]); apply elem_of_app; [by left|right; left].
Qed.

Lemma started_snoc earlier r id :
  started (earlier ++ [r]) id <-> started earlier id \/ (rec_id r = id /\ is_Some (as_operation_started r)).
Proof. apply (exists_snoc (fun r => rec_id r = id /\ is_Some (as_operation_started r))). Qed.

Lemma finished_snoc earlier r id :
  finished (earlier ++ [r]) id <->
  finished earlier id \/ (exists outcome error, rec_payload r = P_operation_finished id outcome error).
Proof.
  pose proof (exists_snoc (fun r => exists o e, rec_payload r = P_operation_finished id o e) earlier r) as E.
  unfold finished. split.
  - intros (r0 & o & e & H). destruct E as [E _]. destruct E as [(r1 & ? & o1 & e1 & ?)|?]; [naive_solver|left; eauto 6|by right].
  - intros H. destruct E as [_ E]. destruct E as (r1 & ? & o1 & e1 & ?); [|eauto].
    destruct H as [(r0 & o & e & ?)|?]; [left; naive_solver|by right].
Qed.

Lemma abort_requested_snoc earlier r id :
  abort_requested (earlier ++ [r]) id <-> abort_requested earlier id \/ rec_payload r = P_abort_requested id.
Proof. apply (exists_snoc (fun r => rec_payload r = P_abort_requested id)). Qed.

(** The invocation a record starts. *)
Definition invocation_of r : option (jstring * Z) :=
  match rec_payload r with P_tool_started _ aid index _ _ _ _ _ => Some (aid, index) | _ => None end.

Lemma invoked_iff earlier aid i :
  invoked earlier aid i <-> exists r, r ∈ earlier /\ invocation_of r = Some (aid, i).
Proof.
  unfold invoked, invocation_of. split.
  - intros (r & ? & ? & ? & ? & ? & ? & ? & E). exists r. by rewrite E.
  - intros (r & ? & E). destruct (rec_payload r) eqn:Hp; simplify_eq. eauto 10.
Qed.

Lemma invoked_snoc earlier r aid i :
  invoked (earlier ++ [r]) aid i <-> invoked earlier aid i \/ invocation_of r = Some (aid, i).
Proof. rewrite !invoked_iff. apply (exists_snoc (fun r => invocation_of r = Some (aid, i))). Qed.

Lemma latest_enqueue_snoc earlier r id :
  latest_enqueue (earlier ++ [r]) id = if enqueues id r then Some r else latest_enqueue earlier id.
Proof.
  unfold latest_enqueue. rewrite List.filter_app. simpl. destruct (enqueues id r); simpl.
  - apply last_snoc.
  - by rewrite app_nil_r.
Qed.

Lemma latest_attempt_snoc earlier r runId :
  latest_attempt (earlier ++ [r]) runId =
    match as_step_attempt r with
    | Some a => if decide (sa_runId a = runId) then Some a else latest_attempt earlier runId
    | None => latest_attempt earlier runId
    end.
Proof.
  unfold latest_attempt. rewrite omap_app, List.filter_app. csimpl.
  destruct (as_step_attempt r) as [a|]; simpl; [|by rewrite app_nil_r].
  case_bool_decide; case_decide; try done; [apply last_snoc|by rewrite app_nil_r].
Qed.
End Views.

(** ** The protocol *)

Section Protocol.
Context (IsDeepEqual : ProvisionedEntry -> ProvisionedEntry -> bool).
Context (byId : list (jstring * Entry)).
Implicit Types (earlier : list LaneRecord) (r : LaneRecord) (v : ValidationState).

(** An entry that exists under a reserved id satisfies the reservation. *)
Definition reserved (id : jstring) (ok : Entry -> bool) : Prop :=
  forall e, map_get id byId = Some e -> ok e = true.

Definition provisioned (target : ProvisionedEntry) : Prop :=
  reserved (pe_id target) (fun e => matchesProvisionedEntry IsDeepEqual e target).

Definition is_assistant (e : Entry) : bool := match assistant_of e with Some _ => true | None => false end.

Definition is_tool_result (callId name : jstring) (e : Entry) : bool :=
  match tool_result_of e with
  | Some t => bool_decide (tres_toolCallId t = callId) && bool_decide (tres_toolName t = name)
  | None => false
  end.

Definition result_type (s : StepKind) (e : Entry) : bool :=
  match s with
  | S_assistant => is_assistant e
  | S_compaction => bool_decide (entry_type e = T_compaction)
  | S_branch_summary => bool_decide (entry_type e = T_branch_summary)
  end.

Definition intent_provisioned (i : Intent) : Prop :=
  match i with
  | I_run _ initialMessages _ _ => Forall provisioned initialMessages
  | I_compaction _ id => reserved id (fun e => bool_decide (entry_type e = T_compaction))
  | I_navigation _ _ _ _ id =>
      forall i, id = Some i -> i <> [] -> reserved i (fun e => bool_decide (entry_type e = T_branch_summary))
  end.

(** Exactly the compaction steps carry a known reason. *)
Definition reason_ok (s : StepKind) (reason : option CompactionReason) : Prop :=
  match s, reason with
  | S_compaction, Some (CR_manual | CR_threshold | CR_overflow) => True
  | S_compaction, _ => False
  | _, None => True
  | _, Some _ => False
  end.

(** Attempts are numbered from 1 within a series; the retries of a compaction
    or branch summary keep its result id and reason. *)
Definition attempt_ok (previous : option StepAttempt) (a : StepAttempt) : Prop :=
  reason_ok (sa_step a) (sa_compactionReason a) /\
  reserved (sa_resultEntryId a) (result_type (sa_step a)) /\
  match continues_series byId previous a with
  | None => sa_attempt a = 1%Z
  | Some p =>
      sa_attempt a = (sa_attempt p + 1)%Z /\
      (sa_step a <> S_assistant ->
       sa_resultEntryId a = sa_resultEntryId p /\ sa_compactionReason a = sa_compactionReason p)
  end.

(** What the payload of a record demands of the records before it. *)
Definition payload_ok earlier r : Prop :=
  match rec_payload r with
  | P_operation_started _ intent => intent_provisioned intent
  | P_operation_finished _ _ _ | P_abort_requested _ | P_usage _ _ _ _ _ _ _ _ => True
  | P_step_attempt runId step attempt resultEntryId reason =>
      attempt_ok (latest_attempt earlier runId)
        {| sa_id := rec_id r; sa_seq := rec_seq r; sa_runId := runId; sa_step := step; sa_attempt := attempt;
           sa_resultEntryId := resultEntryId; sa_compactionReason := reason |}
  | P_tool_started _ aid index callId name _ resultEntryId _ =>
      ~ invoked earlier aid index /\
      (exists e a call, map_get aid byId = Some e /\ assistant_of e = Some a /\
         at_index (tool_calls a) index = Some call /\ toolCall_id call = callId /\ toolCall_name call = name) /\
      reserved resultEntryId (is_tool_result callId name)
  | P_queue_enqueued queue runId target =>
      (queue <> Q_nextRun -> forall id, runId = Some id -> ~ abort_requested earlier id) /\ provisioned target
  | P_queue_cancelled runId entryId =>
      map_get entryId byId = None /\
      exists enqueue, latest_enqueue earlier entryId = Some enqueue /\ runId_of enqueue = runId
  | P_write_deferred _ target => provisioned target
  end.

(** A record may follow [earlier] when its operation is started and not
    finished and its payload is consistent. *)
Definition accepts earlier r : Prop :=
  (forall id, runId_of r = Some id -> started earlier id /\ ~ finished earlier id) /\ payload_ok earlier r.

Inductive protocol : list LaneRecord -> Prop :=
| protocol_nil : protocol []
| protocol_snoc rs r : protocol rs -> accepts rs r -> protocol (rs ++ [r]).

(** ** The validation state describes the records read *)

Record tracks earlier v : Prop := {
  tr_starts id : is_Some (vs_starts v !! id) <-> started earlier id;
  tr_finished id : is_Some (vs_finishedAt v !! id) <-> finished earlier id;
  tr_finished_seq id s : vs_finishedAt v !! id = Some s -> exists r, r ∈ earlier /\ rec_seq r = s;
  tr_aborted id : is_Some (vs_abortedAt v !! id) <-> abort_requested earlier id;
  tr_aborted_seq id s : vs_abortedAt v !! id = Some s -> exists r, r ∈ earlier /\ rec_seq r = s;
  tr_enqueues id : vs_queueEnqueues v !! id = latest_enqueue earlier id;
  tr_attempts id : vs_latestAttempt v !! id = latest_attempt earlier id;
  tr_invocations aid i : (invocation_key aid i ∈ vs_toolInvocations v) <-> invoked earlier aid i }.

Lemma latest_enqueue_in earlier id r : latest_enqueue earlier id = Some r -> r ∈ earlier.
Proof.
  unfold latest_enqueue. intros H%last_Some_elem_of.
  by apply list_elem_of_In, filter_In in H as [H%list_elem_of_In _].
Qed.

Lemma tracks_init : tracks [] init_validation.
Proof.
  split; simpl; intros;
    repeat match goal with H : context[_ !! _] |- _ => rewrite lookup_empty in H end; try done.
  - rewrite lookup_empty. split; [by intros [? ?]|by intros (? & ?%elem_of_nil & _)].
  - rewrite lookup_empty. split; [by intros [? ?]|by intros (? & ? & ? & ?%elem_of_nil & _)].
  - rewrite lookup_empty. split; [by intros [? ?]|by intros (? & ?%elem_of_nil & _)].
  - split; [set_solver|]. by intros (? & ? & ? & ? & ? & ? & ? & ?%elem_of_nil & _).
Qed.
(** The maps after reading [r]. *)
Definition track v r : ValidationState :=
  {| vs_starts := match as_operation_started r with
                  | Some start => <[rec_id r := start]> (vs_starts v)
                  | None => vs_starts v
                  end;
     vs_finishedAt := match rec_payload r with
                      | P_operation_finished runId _ _ => <[runId := rec_seq r]> (vs_finishedAt v)
                      | _ => vs_finishedAt v
                      end;
     vs_abortedAt := match rec_payload r with
                     | P_abort_requested runId => <[runId := rec_seq r]> (vs_abortedAt v)
                     | _ => vs_abortedAt v
                     end;
     vs_queueEnqueues := match rec_payload r with
                         | P_queue_enqueued _ _ target => <[pe_id target := r]> (vs_queueEnqueues v)
                         | _ => vs_queueEnqueues v
                         end;
     vs_latestAttempt := match as_step_attempt r with
                         | Some a => <[sa_runId a := a]> (vs_latestAttempt v)
                         | None => vs_latestAttempt v
                         end;
     vs_toolInvocations := match invocation_of r with
                           | Some (aid, i) => {[invocation_key aid i]} ∪ vs_toolInvocations v
                           | None => vs_toolInvocations v
                           end |}.

Lemma is_Some_insert {A} (m : gmap jstring A) k k' x :
  is_Some (<[k := x]> m !! k') <-> is_Some (m !! k') \/ k = k'.
Proof. rewrite lookup_insert_is_Some'. tauto. Qed.

(** The description stays true as records are read. *)
Lemma tracks_snoc earlier v r : tracks earlier v -> tracks (earlier ++ [r]) (track v r).
Proof.
  intros []. split; simpl; intros.
  - rewrite started_snoc, <- tr_starts0. destruct (as_operation_started r); rewrite ?is_Some_insert, ?is_Some_alt; naive_solver.
  - rewrite finished_snoc, <- tr_finished0. destruct (rec_payload r); rewrite ?is_Some_insert; naive_solver.
  - enough ((exists r0, r0 ∈ earlier /\ rec_seq r0 = s) \/ rec_seq r = s) by (by apply (exists_snoc (fun r => rec_seq r = s))).
    destruct (rec_payload r); try (left; eauto; fail). apply lookup_insert_Some in H as [[? ?]|[? ?]]; eauto.
  - rewrite abort_requested_snoc, <- tr_aborted0. destruct (rec_payload r); rewrite ?is_Some_insert; naive_solver.
  - enough ((exists r0, r0 ∈ earlier /\ rec_seq r0 = s) \/ rec_seq r = s) by (by apply (exists_snoc (fun r => rec_seq r = s))).
    destruct (rec_payload r); try (left; eauto; fail). apply lookup_insert_Some in H as [[? ?]|[? ?]]; eauto.
  - rewrite latest_enqueue_snoc, <- tr_enqueues0. unfold enqueues. destruct (rec_payload r); try done.
    rewrite lookup_insert. by repeat case_decide; repeat case_bool_decide.
  - rewrite latest_attempt_snoc, <- tr_attempts0. destruct (as_step_attempt r); [|done].
    by rewrite lookup_insert.
  - rewrite invoked_snoc, <- tr_invocations0. destruct (invocation_of r) as [[aid' i']|]; [|naive_solver].
    rewrite elem_of_union, elem_of_singleton. split.
    + intros [[-> ->]%invocation_key_inj|?]; auto.
    + intros [?|[= -> ->]]; auto.
Qed.

(** ** One iteration is one protocol step *)

Lemma rseq_Ok {E A} (m : Result E unit) (k : Result E A) x : (m ;;; k) = Ok x <-> m = Ok tt /\ k = Ok x.
Proof. destruct m as [[]|]; simpl; intuition congruence. Qed.

Lemma rif_Ok {E} (b : bool) (e : E) : (if b then Ok tt else Err e) = Ok tt <-> b = true.
Proof. by destruct b. Qed.

Lemma validateResultEntry_iff id ok what : validateResultEntry byId id ok what = Ok tt <-> reserved id ok.
Proof.
  unfold validateResultEntry, reserved. destruct (map_get id byId) as [e|]; [|by split].
  unfold corrupt. rewrite rif_Ok. naive_solver.
Qed.

Lemma validateExact_iff t : validateExactProvisionedEntry IsDeepEqual byId t = Ok tt <-> provisioned t.
Proof.
  unfold validateExactProvisionedEntry, provisioned, reserved. destruct (map_get _ byId) as [e|]; [|by split].
  unfold corrupt. rewrite rif_Ok. naive_solver.
Qed.

Lemma validateOperationResult_iff start :
  validateOperationResult IsDeepEqual byId start = Ok tt <-> intent_provisioned (os_intent start).
Proof.
  unfold validateOperationResult. destruct (os_intent start) as [? msgs ? ?|? ?|? ? ? ? [[|u id]|]]; simpl.
  - induction msgs as [|t l IH]; simpl; [by split|].
    rewrite Forall_cons, <- validateExact_iff.
    destruct (validateExactProvisionedEntry IsDeepEqual byId t) as [[]|]; simpl; rewrite ?IH; naive_solver.
  - apply validateResultEntry_iff.
  - naive_solver.
  - rewrite validateResultEntry_iff. naive_solver.
  - naive_solver.
Qed.

Lemma validateAttemptReason_iff a :
  validateAttemptReason a = Ok tt <-> reason_ok (sa_step a) (sa_compactionReason a).
Proof.
  unfold validateAttemptReason. by destruct (sa_step a), (sa_compactionReason a) as [[]|].
Qed.

Lemma validateAttemptResult_iff a :
  validateAttemptResult byId a = Ok tt <-> reserved (sa_resultEntryId a) (result_type (sa_step a)).
Proof. unfold validateAttemptResult. destruct (sa_step a); apply validateResultEntry_iff. Qed.

Lemma validateAttemptSequence_iff a previous :
  validateAttemptSequence a previous byId = Ok tt <->
  match continues_series byId previous a with
  | None => sa_attempt a = 1%Z
  | Some p =>
      sa_attempt a = (sa_attempt p + 1)%Z /\
      (sa_step a <> S_assistant ->
       sa_resultEntryId a = sa_resultEntryId p /\ sa_compactionReason a = sa_compactionReason p)
  end.
Proof.
  unfold validateAttemptSequence, corrupt. rewrite rseq_Ok, rif_Ok, Z.eqb_eq.
  destruct (continues_series byId previous a) as [p|]; [|naive_solver].
  destruct (sa_step a); rewrite ?rseq_Ok; repeat case_decide; naive_solver.
Qed.

Lemma validateRunId_iff earlier v r :
  tracks earlier v -> (forall r0, r0 ∈ earlier -> (rec_seq r0 < rec_seq r)%Z) ->
  validateRunId v r = Ok tt <-> (forall id, runId_of r = Some id -> started earlier id /\ ~ finished earlier id).
Proof.
  intros [] Hseq. unfold validateRunId, corrupt. destruct (runId_of r) as [id|]; [|naive_solver].
  rewrite rseq_Ok, rif_Ok, bool_decide_eq_true, tr_starts0.
  assert (Hf : match vs_finishedAt v !! id with
               | Some s => if (s <? rec_seq r)%Z then Err {| corruption_reason := X_record_after_finish;
                    corruption_message := js "Record " ++ rec_id r ++ js " follows the finish of operation " ++ id |} else Ok tt
               | None => Ok tt end = Ok tt <-> ~ finished earlier id).
  { rewrite <- tr_finished0. destruct (vs_finishedAt v !! id) as [s|] eqn:Es.
    - destruct (tr_finished_seq0 _ _ Es) as (r0 & Hr0 & <-). specialize (Hseq _ Hr0).
      replace (rec_seq r0 <? rec_seq r)%Z with true by lia. split; [done|]. intros []. eauto.
    - split; [by intros _ [? ?]|done]. }
  rewrite Hf. naive_solver.
Qed.

Lemma validate_enqueue_iff earlier v r queue runId target v' :
  tracks earlier v -> (forall r0, r0 ∈ earlier -> (rec_seq r0 < rec_seq r)%Z) ->
  rec_payload r = P_queue_enqueued queue runId target ->
  validate_enqueue IsDeepEqual byId v r queue runId target = Ok v' <-> payload_ok earlier r /\ v' = track v r.
Proof.
  intros Htr Hseq Hp. unfold validate_enqueue, payload_ok, track, as_operation_started, as_step_attempt, invocation_of.
  rewrite Hp, !rseq_Ok, validateExact_iff. simpl.
  assert (Ha : match queue, runId ≫= (fun id => vs_abortedAt v !! id) with
    | Q_nextRun, _ => Ok tt
    | _, Some abortSeq =>
        if (abortSeq <? rec_seq r)%Z
        then corrupt X_queue_after_abort (show_queue queue ++ js " item " ++ pe_id target ++ js " was enqueued after abort")
        else Ok tt
    | _, None => Ok tt
    end = Ok tt <-> (queue <> Q_nextRun -> forall id, runId = Some id -> ~ abort_requested earlier id)).
  { destruct Htr. destruct runId as [id|]; [|destruct queue; naive_solver]. simpl.
    destruct (vs_abortedAt v !! id) as [s|] eqn:Es.
    - destruct (tr_aborted_seq0 _ _ Es) as (r0 & Hr0 & <-). specialize (Hseq _ Hr0).
      assert (abort_requested earlier id) by (apply tr_aborted0; eauto).
      replace (rec_seq r0 <? rec_seq r)%Z with true by lia. destruct queue; naive_solver.
    - assert (~ abort_requested earlier id).
      { rewrite <- tr_aborted0, Es. by intros [? ?]. }
      destruct queue; naive_solver. }
  rewrite Ha. naive_solver.
Qed.

Lemma validate_cancel_iff earlier v r runId entryId v' :
  tracks earlier v -> (forall r0, r0 ∈ earlier -> (rec_seq r0 < rec_seq r)%Z) ->
  rec_payload r = P_queue_cancelled runId entryId ->
  validate_cancel byId v r runId entryId = Ok v' <-> payload_ok earlier r /\ v' = track v r.
Proof.
  intros Htr Hseq Hp. unfold validate_cancel, payload_ok, track, as_operation_started, as_step_attempt, invocation_of.
  rewrite Hp. rewrite (tr_enqueues _ _ Htr).
  destruct (latest_enqueue earlier entryId) as [q|] eqn:Eq; [|naive_solver].
  pose proof (Hseq _ (latest_enqueue_in _ _ _ Eq)) as Hlt.
  replace (rec_seq r <=? rec_seq q)%Z with false by lia. simpl. unfold map_has.
  case_bool_decide as Hrun; destruct (map_get entryId byId) as [e|]; simpl; destruct v; naive_solver.
Qed.

Lemma validateToolStart_iff earlier v r runId aid index callId name args resultId meta w :
  tracks earlier v -> rec_payload r = P_tool_started runId aid index callId name args resultId meta ->
  validateToolStart (rec_id r) aid index callId name resultId byId (vs_toolInvocations v) = Ok w <->
  payload_ok earlier r /\ w = {[invocation_key aid index]} ∪ vs_toolInvocations v.
Proof.
  intros Htr Hp. unfold validateToolStart, payload_ok. rewrite Hp. rewrite <- (tr_invocations _ _ Htr).
  case_bool_decide as Hin; [naive_solver|].
  destruct (map_get aid byId) as [e|]; simpl;
    [|by split; [|intros [(_ & (? & ? & ? & ? & _) & _) _]]].
  destruct (assistant_of e) as [a|] eqn:Ea;
    [|by split; [|intros [(_ & (? & ? & ? & ? & ? & _) & _) _]; simplify_eq]].
  destruct (at_index (tool_calls a) index) as [call|] eqn:Ec;
    [|by split; [|intros [(_ & (? & ? & ? & ? & ? & ? & _) & _) _]; simplify_eq]].
  destruct (bool_decide (toolCall_id call = callId) && bool_decide (toolCall_name call = name)) eqn:Hc.
  - rewrite rseq_Ok, validateResultEntry_iff. apply andb_prop in Hc as [?%bool_decide_eq_true ?%bool_decide_eq_true].
    unfold is_tool_result. split; [intros [? [= <-]]; split; [|done]; split; [done|]; eauto 10|naive_solver].
  - apply andb_false_iff in Hc. rewrite !bool_decide_eq_false in Hc.
    split; [done|]. intros [(_ & (? & ? & ? & ? & ? & ? & ? & ?) & _) _]. simplify_eq. tauto.
Qed.

Lemma validateRecord_accepts earlier v r v' :
  tracks earlier v -> (forall r0, r0 ∈ earlier -> (rec_seq r0 < rec_seq r)%Z) ->
  validateRecord IsDeepEqual byId v r = Ok v' <-> accepts earlier r /\ v' = track v r.
Proof.
  intros Htr Hseq. unfold validateRecord, accepts.
  destruct (as_operation_started r) as [start|] eqn:Hs.
  - unfold as_operation_started in Hs. unfold track, payload_ok, as_step_attempt, invocation_of, runId_of.
    unfold as_operation_started. destruct (rec_payload r) eqn:Hp; simplify_eq.
    rewrite rseq_Ok, validateOperationResult_iff. naive_solver.
  - rewrite rseq_Ok, (validateRunId_iff earlier) by done. rewrite <- (and_assoc (forall id, _)). apply and_iff_compat_l.
    destruct (rec_payload r) as [| | |runId step att res reason|runId aid index callId name args res meta|q runId t|runId eid|? t|] eqn:Hp.
    + unfold as_operation_started in Hs. by rewrite Hp in Hs.
    + unfold payload_ok, track, as_step_attempt, invocation_of. rewrite Hp, Hs. naive_solver.
    + unfold payload_ok, track, as_step_attempt, invocation_of. rewrite Hp, Hs. naive_solver.
    + rewrite !rseq_Ok, validateAttemptReason_iff, validateAttemptSequence_iff, validateAttemptResult_iff.
      rewrite (tr_attempts _ _ Htr). unfold payload_ok, attempt_ok, track, as_step_attempt, invocation_of.
      rewrite Hp, Hs. simpl. naive_solver.
    + destruct (validateToolStart _ _ _ _ _ _ _ _) as [w|x] eqn:Ew; simpl.
      * apply (validateToolStart_iff earlier v r _ _ _ _ _ _ _ _ _ Htr Hp) in Ew as [Hok ->].
        unfold track, as_step_attempt, invocation_of. rewrite Hp, Hs. naive_solver.
      * split; [done|]. intros [Hok _]. exfalso.
        assert (Ho := proj2 (validateToolStart_iff earlier v r _ _ _ _ _ _ _ _ _ Htr Hp) (conj Hok eq_refl)). congruence.
    + by apply validate_enqueue_iff.
    + by apply validate_cancel_iff.
    + rewrite rseq_Ok, validateExact_iff. unfold payload_ok, track, as_step_attempt, invocation_of.
      rewrite Hp, Hs. destruct v; naive_solver.
    + unfold payload_ok, track, as_step_attempt, invocation_of. rewrite Hp, Hs. destruct v; naive_solver.
Qed.

(** The validation loop accepts exactly the logs of the protocol. *)
Lemma validate_loop_protocol rs :
  StronglySorted (fun a b => rec_seq a < rec_seq b)%Z rs ->
  (exists v, rfold (validateRecord IsDeepEqual byId) init_validation rs = Ok v) <-> protocol rs.
Proof.
  intros Hs.
  enough (H : forall v, rfold (validateRecord IsDeepEqual byId) init_validation rs = Ok v <->
                        protocol rs /\ v = foldl track init_validation rs).
  { split; [intros [v [? _]%H]; done|]. intros ?. eexists. by apply H. }
  assert (Htr : forall l, tracks l (foldl track init_validation l)).
  { intros l. induction l as [|r l IH] using rev_ind; [apply tracks_init|].
    rewrite foldl_snoc. by apply tracks_snoc. }
  induction rs as [|r rs IH] using rev_ind; intros v.
  - simpl. split; [intros [= <-]; split; [constructor|done]|naive_solver].
  - apply StronglySorted_app in Hs as (Hlt & Hs1 & _). specialize (IH Hs1).
    rewrite rfold_app, foldl_snoc. simpl.
    assert (Hseq : forall r0, r0 ∈ rs -> (rec_seq r0 < rec_seq r)%Z) by (intros; apply Hlt; [done|left]).
    split.
    + intros H. inv_result. apply IH in Ha as [Hp ->].
      destruct (validateRecord _ _ _ _) as [w|] eqn:Hw; simplify_eq/=.
      apply (validateRecord_accepts rs) in Hw as [? ->]; [|done..]. split; [by constructor|done].
    + intros [Hp ->]. inversion Hp as [|rs' r' Hp' Ha E]; [by destruct rs|].
      apply app_inj_tail in E as [-> ->].
      rewrite (proj2 (IH _) (conj Hp' eq_refl)). simpl.
      by rewrite (proj2 (validateRecord_accepts rs _ r _ (Htr rs) Hseq) (conj Ha eq_refl)).
Qed.
End Protocol.
