(* ===== verification/ReducerProperties.v ===== *)
(** * Properties of lane recovery

    Record-log validation is sound and complete for the record protocol, and
    the reconstructed lane state agrees with the records and entries: the tool
    batch with the assistant's calls, the queues with the undelivered
    enqueues, the configuration with the newest settings. *)

From stdpp Require Import base list gmap strings pretty sorting.
From Stdlib Require Import ZArith Lia.
From S2P Require Import Prelude SessionTypes Reducer ReducerProtocol.

(** ** Lemmas *)

Lemma validateDeferredHandles_iff es :
  validateDeferredHandles es = Ok tt <->
  Forall (fun e => forall a, assistant_of e = Some a -> asst_stopReason a = SR_deferred -> is_Some (asst_deferred a)) es.
Proof.
  induction es as [|e es IH]; simpl; [by split|]. rewrite Forall_cons.
  destruct (assistant_of e) as [a|]; [|rewrite IH; naive_solver].
  case_decide; [destruct (asst_deferred a) eqn:Ed|]; rewrite ?IH; unfold corrupt.
  - split; [intros; split; [|done]|by intros [_ ?]]. intros ? [= <-] _. rewrite Ed. eauto.
  - split; [done|]. intros [H1 _]. destruct (H1 a eq_refl) as [? ?]; [done|congruence].
  - naive_solver.
Qed.

Lemma protocol_elem IsDeepEqual byId rs r :
  protocol IsDeepEqual byId rs -> r ∈ rs -> exists earlier, accepts IsDeepEqual byId earlier r.
Proof.
  induction 1 as [|rs r' Hp IH Ha]; [by intros ?%elem_of_nil|].
  intros [?| ->%list_elem_of_singleton]%elem_of_app; eauto.
Qed.

Lemma batch_starts_get op aid records i r :
  map_get i (batch_starts op aid records) = Some r ->
  r ∈ records /\ exists c n args res rp, rec_payload r = P_tool_started op aid i c n args res rp.
Proof.
  unfold batch_starts. induction records as [|x l IH] using rev_ind; [done|].
  rewrite foldl_snoc. rewrite elem_of_app, list_elem_of_singleton.
  destruct (rec_payload x) eqn:Hx; try (intros ?%IH; naive_solver).
  destruct (bool_decide _ && bool_decide _) eqn:Hb; [|intros ?%IH; naive_solver].
  apply andb_prop in Hb as [->%bool_decide_eq_true ->%bool_decide_eq_true].
  rewrite map_get_set. case_decide; subst; [|intros ?%IH; naive_solver].
  intros [= <-]. split; [by right|]. eauto 10.
Qed.

Lemma find_reverse_newest (key : Entry -> Z) p l e e' :
  StronglySorted (key_le key) l -> List.find p (reverse l) = Some e -> e' ∈ l -> p e' = true ->
  (key e' <= key e)%Z.
Proof.
  induction l as [|x l IH] using rev_ind; intros Hs Hf He' Hp; [by apply elem_of_nil in He'|].
  apply StronglySorted_app in Hs as (Hlt & Hs & _). rewrite reverse_snoc in Hf. simpl in Hf.
  apply elem_of_app in He' as [He'| ->%list_elem_of_singleton].
  - destruct (p x); simplify_eq; [apply Hlt; [done|left]|auto].
  - rewrite Hp in Hf. simplify_eq. lia.
Qed.

Lemma elem_of_bfilter {A} (p : A -> bool) x l : (x ∈ List.filter p l) <-> p x = true /\ (x ∈ l).
Proof. rewrite !list_elem_of_In, filter_In. tauto. Qed.

Lemma fmap_imap_id {A B} (f : nat -> A -> B) (g : B -> A) l :
  (forall i x, g (f i x) = x) -> g <$> imap f l = l.
Proof.
  intros H. apply list_eq. intros n. rewrite list_lookup_fmap, list_lookup_imap.
  destruct (l !! n); simpl; by rewrite ?H.
Qed.

Lemma existsb_negb_false {A} (p : A -> bool) l :
  existsb (fun c => negb (p c)) l = false <-> forall c, c ∈ l -> p c = true.
Proof.
  induction l as [|x l IH]; simpl.
  - split; [by intros _ c ?%elem_of_nil|done].
  - rewrite orb_false_iff, negb_false_iff, IH. setoid_rewrite elem_of_cons. naive_solver.
Qed.

(** A successful reduction was validated. *)
Lemma reduceLaneState_validated IsDeepEqual input out :
  reduceLaneState IsDeepEqual input = Ok out ->
  validateRecordLog IsDeepEqual (in_slice input) = Ok tt.
Proof. unfold reduceLaneState. by intros (u & ? & _)%rbind_Ok_inv; destruct u. Qed.

Section Recovery.
Context (IsDeepEqual : ProvisionedEntry -> ProvisionedEntry -> bool).
Implicit Types (input : LaneReductionInput) (slice : RecordLogSlice).

Lemma validateRecordLog_iff slice :
  NoDup (map rec_seq (slice_records slice)) ->
  let byId := entries_by_id (slice_entries slice) in
  validateRecordLog IsDeepEqual slice = Ok tt <->
  (length (slice_openOperations slice) <= 1)%nat /\
  Forall (fun e => forall a, assistant_of e = Some a -> asst_stopReason a = SR_deferred ->
                   is_Some (asst_deferred a)) (map_values byId) /\
  protocol IsDeepEqual byId (sort_by rec_seq (slice_records slice)).
Proof.
  intros Hnd byId. unfold validateRecordLog. fold byId.
  rewrite !rseq_Ok, validateDeferredHandles_iff.
  rewrite <- (validate_loop_protocol IsDeepEqual byId _ (sort_by_strict rec_seq _ Hnd)).
  destruct (Nat.ltb_spec 1 (length (slice_openOperations slice))).
  - unfold corrupt. split; [naive_solver|lia].
  - destruct (rfold _ _ _) as [v|]; simpl; naive_solver lia.
Qed.

(** What makes an enqueued input pending: recorded for the queue and run,
    neither delivered as an entry nor cancelled. *)
Definition undelivered input (queue : QueueKind) (runId : option jstring) (t : ProvisionedEntry) : Prop :=
  (exists r, r ∈ slice_records (in_slice input) /\ rec_payload r = P_queue_enqueued queue runId t) /\
  (forall e, e ∈ slice_entries (in_slice input) ++ in_ownEntries input -> entry_id e <> pe_id t) /\
  (forall r runId', r ∈ slice_records (in_slice input) -> rec_payload r <> P_queue_cancelled runId' (pe_id t)).

Lemma entries_by_id_has id es : map_has id (entries_by_id es) = true <-> exists e, e ∈ es /\ entry_id e = id.
Proof.
  unfold entries_by_id. rewrite map_of_list_has, <- list_fmap_compose, list_elem_of_fmap. simpl. naive_solver.
Qed.

Lemma cancelled_ids_elem id rs :
  (id ∈ cancelled_ids rs) <-> exists r runId, r ∈ rs /\ rec_payload r = P_queue_cancelled runId id.
Proof.
  unfold cancelled_ids. rewrite elem_of_list_to_set, list_elem_of_omap. split.
  - intros (r & Hr & E). destruct (rec_payload r) eqn:Hp; simplify_eq. eauto.
  - intros (r & runId & Hr & E). exists r. by rewrite E.
Qed.

Lemma pending_queue_elem input queue runId t :
  let own := sort_by entry_seq (in_ownEntries input) in
  let records := sort_by rec_seq (slice_records (in_slice input)) in
  ((queue, runId, t) ∈ omap (pending_queue (entries_by_id (slice_entries (in_slice input) ++ own)) (cancelled_ids records)) records)
  <-> undelivered input queue runId t.
Proof.
  intros own records. rewrite list_elem_of_omap. unfold undelivered.
  assert (Hown : forall e, (e ∈ slice_entries (in_slice input) ++ own) <->
                           (e ∈ slice_entries (in_slice input) ++ in_ownEntries input)).
  { intros e. rewrite !elem_of_app. unfold own. by rewrite sort_by_elem. }
  assert (Hrec : forall r, (r ∈ records) <-> (r ∈ slice_records (in_slice input))) by (intros; apply sort_by_elem).
  split.
  - intros (r & Hr & Hp). unfold pending_queue in Hp. destruct (rec_payload r) eqn:E; try done.
    destruct (negb _ && negb _) eqn:Hb; simplify_eq. apply andb_prop in Hb as [H1 H2].
    rewrite negb_true_iff in H1, H2. rewrite bool_decide_eq_false, cancelled_ids_elem in H2. split; [|split].
    + exists r. by rewrite <- Hrec.
    + intros e He Hid. rewrite <- Hown in He. apply not_true_iff_false in H1. apply H1, entries_by_id_has. eauto.
    + intros r' runId' Hr' Hc. rewrite <- Hrec in Hr'. eauto.
  - intros ((r & Hr & E) & Hdel & Hcan). exists r. split; [by rewrite Hrec|]. unfold pending_queue. rewrite E.
    rewrite (bool_decide_eq_false_2 (_ ∈ _)).
    + destruct (map_has _ _) eqn:Hh; [|done]. apply entries_by_id_has in Hh as (e & He & Hid).
      rewrite Hown in He. by destruct (Hdel e).
    + rewrite cancelled_ids_elem. intros (r' & ? & Hr' & Hc). rewrite Hrec in Hr'. by apply Hcan in Hc.
Qed.

Lemma pending_of_elem queue op pending t :
  (t ∈ pending_of queue op pending) <-> (queue, Some op, t) ∈ pending.
Proof.
  unfold pending_of. rewrite list_elem_of_fmap. setoid_rewrite elem_of_bfilter.
  setoid_rewrite andb_true_iff. setoid_rewrite bool_decide_eq_true. split.
  - intros ([[q o] t'] & -> & [? ?] & ?). simplify_eq/=. done.
  - intros ?. by exists (queue, Some op, t).
Qed.

(** C36: record-log validation accepts exactly the logs of the single-writer
    protocol: at most one open operation, handles on every deferred answer, and
    records that, read in sequence order, only name started and unfinished
    operations, never repeat a tool invocation, cancel only a pending enqueue,
    number attempts consecutively and match the entries they reserve. *)
Theorem validateRecordLog_sound_complete slice (Hnd : NoDup (map rec_seq (slice_records slice))) :
  let byId := entries_by_id (slice_entries slice) in
  validateRecordLog IsDeepEqual slice = Ok tt <->
  (length (slice_openOperations slice) <= 1)%nat /\
  Forall (fun e => forall a, assistant_of e = Some a -> asst_stopReason a = SR_deferred ->
                   is_Some (asst_deferred a)) (map_values byId) /\
  protocol IsDeepEqual byId (sort_by rec_seq (slice_records slice)).
Proof. by apply validateRecordLog_iff. Qed.

(** the recovered tool batch is the newest own assistant entry with tool
    calls, in call order; a start attached to a call was recorded for that
    call's id and name, and the batch is resolved exactly when every call has a
    result. *)
Theorem toolBatch_matches_calls input out op batch
    (Hnd : NoDup (map rec_seq (slice_records (in_slice input))))
    (Hids : forall e e', e ∈ in_ownEntries input ->
       map_get (entry_id e) (entries_by_id (slice_entries (in_slice input))) = Some e' -> e' = e)
    (Hred : reduceLaneState IsDeepEqual input = Ok out)
    (Hop : ls_operation (out_laneState out) = Some op)
    (Hb : op_toolBatch op = Some batch) :
  exists e a, e ∈ in_ownEntries input /\ assistant_of e = Some a /\ tb_assistantEntryId batch = entry_id e /\
    (forall e' a', e' ∈ in_ownEntries input -> assistant_of e' = Some a' -> tool_calls a' <> [] ->
       (entry_seq e' <= entry_seq e)%Z) /\
    tc_toolCall <$> tb_calls batch = tool_calls a /\
    (forall n c, tb_calls batch !! n = Some c ->
       tc_toolIndex c = Z.of_nat n /\
       forall r, tc_started c = Some r ->
         r ∈ slice_records (in_slice input) /\
         exists args res rp, rec_payload r =
           P_tool_started (op_id op) (entry_id e) (Z.of_nat n) (toolCall_id (tc_toolCall c)) (toolCall_name (tc_toolCall c)) args res rp) /\
    (tb_unresolved batch = false <-> forall c, c ∈ tb_calls batch -> tc_resultExists c = true).
Proof.
  pose proof (reduceLaneState_validated _ _ _ Hred) as Hv.
  apply validateRecordLog_iff in Hv as (_ & _ & Hproto); [|done].
  unfold reduceLaneState in Hred. apply rbind_Ok_inv in Hred as (u & _ & Hred).
  destruct (head _) as [start|]; simplify_eq/=.
  unfold deriveToolBatch in Hb.
  destruct (List.find _ _) as [e|] eqn:Hf; [|done].
  destruct (assistant_of e) as [a|] eqn:Ha; simplify_eq/=. exists e, a.
  pose proof (find_some _ _ Hf) as [He%list_elem_of_In _]. rewrite elem_of_reverse, sort_by_elem in He.
  split; [done|]. split; [done|]. split; [done|]. split.
  { intros e' a' He' Ha' Hc. eapply (find_reverse_newest entry_seq); [apply sort_by_sorted|exact Hf|by rewrite sort_by_elem|].
    cbv beta. rewrite Ha'. by destruct (tool_calls a'). }
  split.
  { by apply fmap_imap_id. }
  split.
  - intros n c Hn. rewrite list_lookup_imap in Hn. destruct (tool_calls a !! n) as [call|] eqn:Hcall; simplify_eq/=.
    split; [done|]. intros r Hr. apply batch_starts_get in Hr as [Hr (c & nm & args & res & rp & Hp)].
    apply list_elem_of_In, filter_In in Hr as [Hr%list_elem_of_In _].
    destruct (protocol_elem _ _ _ _ Hproto Hr) as (earlier & _ & Hok).
    unfold payload_ok in Hok. rewrite Hp in Hok. destruct Hok as (_ & (e2 & a2 & call2 & H1 & H2 & H3 & H4 & H5) & _).
    apply Hids in H1; [|done]. subst e2. rewrite Ha in H2. simplify_eq.
    unfold at_index in H3. destruct (Z.ltb_spec (Z.of_nat n) 0); [lia|]. rewrite Nat2Z.id in H3. simplify_eq.
    rewrite sort_by_elem in Hr. eauto 10.
  - apply existsb_negb_false.
Qed.

(** a recovered operation's pending steering and follow-up inputs are
    exactly its enqueued, undelivered and uncancelled inputs, and none once an
    abort was requested; the pending next-run inputs are those the open
    operation did not capture as initial messages. *)
Theorem pending_inputs input out op
    (Hred : reduceLaneState IsDeepEqual input = Ok out)
    (Hop : ls_operation (out_laneState out) = Some op) :
  (forall t, t ∈ op_pendingSteer op <-> op_aborting op = false /\ undelivered input Q_steer (Some (op_id op)) t) /\
  (forall t, t ∈ op_pendingFollowUp op <-> op_aborting op = false /\ undelivered input Q_followUp (Some (op_id op)) t) /\
  (forall t, t ∈ ls_pendingNextRun (out_laneState out) <->
     (exists runId, undelivered input Q_nextRun runId t) /\
     (pe_id t ∉ pe_id <$> initial_messages (op_intent op))) /\
  (op_aborting op = true <->
     exists r, r ∈ slice_records (in_slice input) /\ rec_payload r = P_abort_requested (op_id op)).
Proof.
  unfold reduceLaneState in Hred. apply rbind_Ok_inv in Hred as (u & _ & Hred).
  destruct (head _) as [start|]; simplify_eq/=.
  assert (Hab : forall b : bool, forall l (t : ProvisionedEntry) (P : Prop), (t ∈ l <-> P) -> (t ∈ (if b then [] else l)) <-> b = false /\ P).
  { intros [] l t P H; [rewrite elem_of_nil; naive_solver|naive_solver]. }
  repeat split_and.
  - intros t. apply Hab. by rewrite pending_of_elem, pending_queue_elem.
  - intros t. apply Hab. by rewrite pending_of_elem, pending_queue_elem.
  - intros t. rewrite list_elem_of_fmap. setoid_rewrite elem_of_bfilter.
    setoid_rewrite andb_true_iff. setoid_rewrite negb_true_iff. setoid_rewrite bool_decide_eq_true.
    setoid_rewrite bool_decide_eq_false. split.
    + intros ([[q o] t'] & -> & [? ?] & Hin). simplify_eq/=. rewrite pending_queue_elem in Hin. split; [by exists o|done].
    + intros [[o Hu] Hn]. exists (Q_nextRun, o, t). by rewrite pending_queue_elem.
  - rewrite existsb_exists. setoid_rewrite filter_In. setoid_rewrite bool_decide_eq_true. split.
    + intros (r & [Hr%list_elem_of_In Hb] & Ht). rewrite sort_by_elem in Hr. exists r. split; [done|].
      unfold belongs_to, record_type, as_operation_started, runId_of in *.
      destruct (rec_payload r); try done. apply bool_decide_eq_true in Hb. by simplify_eq.
    + intros (r & Hr & E). exists r. rewrite <- list_elem_of_In, sort_by_elem.
      unfold belongs_to, record_type, as_operation_started, runId_of. rewrite E. split; [|done].
      split; [done|]. by apply bool_decide_eq_true.
Qed.

(** The setting an entry carries, per setting. *)
Definition model_setting (e : Entry) : option (jstring * jstring) :=
  match entry_payload e with
  | E_model_change provider modelId => Some (provider, modelId)
  | E_message (AM_message (M_assistant m)) _ => Some (asst_provider m, asst_model m)
  | _ => None
  end.

Definition thinking_setting (e : Entry) : option jstring :=
  match entry_payload e with E_thinking_level_change level => Some level | _ => None end.

Definition tools_setting (e : Entry) : option (list jstring) :=
  match entry_payload e with E_active_tools_change names => Some names | _ => None end.

(** the effective configuration takes each setting from the newest entry
    carrying it, independently of the other settings, and the lane's default
    when no entry does; an assistant answer counts as a model choice. *)
Theorem configuration_newest input :
  let es := sort_by entry_seq (map_values (entries_by_id (in_configurationEntries input ++ in_ownEntries input))) in
  let c := deriveEffectiveConfiguration input in
  cfg_model c = default (cfg_model (in_defaults input)) (last (omap model_setting es)) /\
  cfg_thinkingLevel c = default (cfg_thinkingLevel (in_defaults input)) (last (omap thinking_setting es)) /\
  cfg_activeToolNames c = default (cfg_activeToolNames (in_defaults input)) (last (omap tools_setting es)).
Proof.
  intros es c. unfold c, deriveEffectiveConfiguration. fold es. clearbody es. clear c.
  induction es as [|e es IH] using rev_ind; [done|].
  rewrite foldl_snoc, !omap_app. csimpl. destruct IH as (H1 & H2 & H3).
  unfold configuration_step, model_setting, thinking_setting, tools_setting.
  destruct (entry_payload e) as [[[]| | | |]| | | | | |]; simpl; rewrite ?app_nil_r, ?last_snoc; done.
Qed.
End Recovery.

(** ** Witnesses *)

Definition ex_usage : Usage :=
  {| usage_input := nzero; usage_output := nzero; usage_cacheRead := nzero; usage_cacheWrite := nzero;
     usage_cacheWrite1h := None; usage_reasoning := None; usage_totalTokens := nzero;
     usage_cost := {| cost_input := nzero; cost_output := nzero; cost_cacheRead := nzero;
                      cost_cacheWrite := nzero; cost_total := nzero |} |}.

Definition ex_assistant (blocks : list AssistantBlock) : AssistantMessage :=
  {| asst_content := blocks; asst_api := js "api"; asst_provider := js "p"; asst_model := js "m";
     asst_responseModel := None; asst_responseId := None; asst_diagnostics := None; asst_usage := ex_usage;
     asst_stopReason := SR_toolUse; asst_deferred := None; asst_errorMessage := None;
     asst_rawStopReason := None; asst_endTurn := None; asst_timestamp := 0 |}.

Definition ex_call : ToolCall :=
  {| toolCall_id := js "c1"; toolCall_name := js "read"; toolCall_arguments := [];
     toolCall_thoughtSignature := None; toolCall_namespace := None |}.

Definition ex_record (id : string) (seq : Z) (p : RecordPayload) : LaneRecord :=
  {| rec_id := js id; rec_seq := seq; rec_lane := js "main"; rec_timestamp := 0; rec_payload := p |}.

Definition ex_target (id : string) : ProvisionedEntry :=
  {| pe_id := js id;
     pe_payload := E_message (AM_message (M_user {| user_content := UC_string (js id); user_timestamp := 0 |})) false |}.

Definition ex_answer : Entry :=
  {| entry_id := js "a1"; entry_seq := 5; entry_parentId := None; entry_timestamp := 0;
     entry_payload := E_message (AM_message (M_assistant (ex_assistant [AB_toolCall ex_call]))) false |}.

(** A run whose first answer calls a tool that has been started, with one
    pending and one cancelled input; records are given out of order. *)
Definition ex_input : LaneReductionInput :=
  let intent := I_run [] [ex_target "u1"] None None in
  {| in_slice :=
       {| slice_lane := js "main";
          slice_openOperations :=
            [{| os_id := js "op1"; os_seq := 2; os_lane := js "main"; os_timestamp := 0;
                os_sourceLeafId := None; os_intent := intent |}];
          slice_records :=
            [ ex_record "q1" 7 (P_queue_enqueued Q_steer (Some (js "op1")) (ex_target "s1"));
              ex_record "op1" 2 (P_operation_started None intent);
              ex_record "t1" 6 (P_tool_started (js "op1") (js "a1") 0 (js "c1") (js "read") [] (js "r1") RP_safe);
              ex_record "x1" 4 (P_step_attempt (js "op1") S_assistant 1 (js "a1") None);
              ex_record "q2" 8 (P_queue_enqueued Q_followUp (Some (js "op1")) (ex_target "f1"));
              ex_record "q3" 9 (P_queue_cancelled (Some (js "op1")) (js "f1")) ];
          slice_entries := [ex_answer] |};
     in_leafId := Some (js "a1");
     in_ownEntries := [ex_answer];
     in_configurationEntries := [];
     in_defaults := {| cfg_model := (js "p0", js "m0"); cfg_thinkingLevel := js "off"; cfg_activeToolNames := [] |} |}.

Definition ex_equal (a b : ProvisionedEntry) : bool := bool_decide (a = b).

Definition ex_out : LaneReductionResult :=
  match reduceLaneState ex_equal ex_input with
  | Ok out => out
  | Err _ => {| out_laneState := {| ls_lane := []; ls_leafId := None; ls_operation := None; ls_pendingNextRun := [] |};
                out_effectiveConfiguration := in_defaults ex_input; out_terminalFailure := None |}
  end.

Lemma validateRecordLog_sound_complete_witness :
  let slice := in_slice ex_input in
  let byId := entries_by_id (slice_entries slice) in
  validateRecordLog ex_equal slice = Ok tt /\
  (validateRecordLog ex_equal slice = Ok tt <->
   (length (slice_openOperations slice) <= 1)%nat /\
   Forall (fun e => forall a, assistant_of e = Some a -> asst_stopReason a = SR_deferred ->
                    is_Some (asst_deferred a)) (map_values byId) /\
   protocol ex_equal byId (sort_by rec_seq (slice_records slice))).
Proof.
  intros slice byId. split; [vm_compute; reflexivity|].
  apply (validateRecordLog_sound_complete ex_equal slice). apply (bool_decide_unpack _). vm_compute. exact I.
Defined.

Lemma toolBatch_matches_calls_witness :
  exists op batch, ls_operation (out_laneState ex_out) = Some op /\ op_toolBatch op = Some batch /\
  exists e a, e ∈ in_ownEntries ex_input /\ assistant_of e = Some a /\ tb_assistantEntryId batch = entry_id e /\
    (forall e' a', e' ∈ in_ownEntries ex_input -> assistant_of e' = Some a' -> tool_calls a' <> [] ->
       (entry_seq e' <= entry_seq e)%Z) /\
    tc_toolCall <$> tb_calls batch = tool_calls a /\
    (forall n c, tb_calls batch !! n = Some c ->
       tc_toolIndex c = Z.of_nat n /\
       forall r, tc_started c = Some r ->
         r ∈ slice_records (in_slice ex_input) /\
         exists args res rp, rec_payload r =
           P_tool_started (op_id op) (entry_id e) (Z.of_nat n) (toolCall_id (tc_toolCall c)) (toolCall_name (tc_toolCall c)) args res rp) /\
    (tb_unresolved batch = false <-> forall c, c ∈ tb_calls batch -> tc_resultExists c = true).
Proof.
  eexists _, _. split; [vm_compute; reflexivity|]. split; [vm_compute; reflexivity|].
  eapply (toolBatch_matches_calls ex_equal ex_input ex_out).
  - apply (bool_decide_unpack _). vm_compute. exact I.
  - intros e e' He. apply list_elem_of_singleton in He. subst e. vm_compute. congruence.
  - vm_compute. reflexivity.
  - vm_compute. reflexivity.
  - vm_compute. reflexivity.
Defined.

Lemma pending_inputs_witness :
  exists op, ls_operation (out_laneState ex_out) = Some op /\ op_pendingSteer op = [ex_target "s1"] /\
  (forall t, t ∈ op_pendingSteer op <-> op_aborting op = false /\ undelivered ex_input Q_steer (Some (op_id op)) t) /\
  (forall t, t ∈ op_pendingFollowUp op <-> op_aborting op = false /\ undelivered ex_input Q_followUp (Some (op_id op)) t) /\
  (forall t, t ∈ ls_pendingNextRun (out_laneState ex_out) <->
     (exists runId, undelivered ex_input Q_nextRun runId t) /\
     (pe_id t ∉ pe_id <$> initial_messages (op_intent op))) /\
  (op_aborting op = true <->
     exists r, r ∈ slice_records (in_slice ex_input) /\ rec_payload r = P_abort_requested (op_id op)).
Proof.
  eexists. split; [vm_compute; reflexivity|]. split; [vm_compute; reflexivity|].
  apply (pending_inputs ex_equal ex_input ex_out); vm_compute; reflexivity.
Defined.
