(* ===== verification/Utf8.v ===== *)
(** * UTF-16 strings and UTF-8 bytes

    What the sources use of [TextEncoder] (unpaired surrogates become U+FFFD)
    and of [TextDecoder("utf-8", { fatal: true, ignoreBOM: true })] (malformed
    input throws, a byte-order mark is kept).  [utf8_roundtrip] and
    [utf8_decode_encode] characterize the strings that survive the trip. *)

From stdpp Require Import base list strings.
From Stdlib Require Import ZArith Lia.
From S2P Require Import Prelude.
Open Scope Z_scope.

Definition is_high_surrogate (u : Z) : bool := (0xD800 <=? u) && (u <=? 0xDBFF).
Definition is_low_surrogate (u : Z) : bool := (0xDC00 <=? u) && (u <=? 0xDFFF).
Definition is_surrogate (u : Z) : bool := (0xD800 <=? u) && (u <=? 0xDFFF).

Definition surrogate_pair (high low : Z) : Z := 0x10000 + (high - 0xD800) * 0x400 + (low - 0xDC00).

(** The scalar values of a string; an unpaired surrogate reads as U+FFFD. *)
Fixpoint scalar_values (s : jstring) : list Z :=
  match s with
  | [] => []
  | u :: s' =>
      if is_high_surrogate u then
        match s' with
        | v :: s'' =>
            if is_low_surrogate v then surrogate_pair u v :: scalar_values s''
            else 0xFFFD :: scalar_values s'
        | [] => [0xFFFD]
        end
      else if is_low_surrogate u then 0xFFFD :: scalar_values s'
      else u :: scalar_values s'
  end.

Definition utf8_of_scalar (c : Z) : list Z :=
  if c <? 0x80 then [c]
  else if c <? 0x800 then [0xC0 + c / 64; 0x80 + c mod 64]
  else if c <? 0x10000 then [0xE0 + c / 4096; 0x80 + (c / 64) mod 64; 0x80 + c mod 64]
  else [0xF0 + c / 262144; 0x80 + (c / 4096) mod 64; 0x80 + (c / 64) mod 64; 0x80 + c mod 64].

(** [textEncoder.encode(s)] *)
Definition utf8_encode (s : jstring) : list Z := concat (utf8_of_scalar <$> scalar_values s).

Definition utf16_of_scalar (c : Z) : jstring :=
  if c <? 0x10000 then [c]
  else [0xD800 + (c - 0x10000) / 0x400; 0xDC00 + (c - 0x10000) mod 0x400].

Definition is_continuation (b : Z) : bool := (0x80 <=? b) && (b <=? 0xBF).

(** [textDecoder.decode(bytes)]; [None] is the thrown [TypeError]. *)
Fixpoint utf8_decode (bytes : list Z) : option jstring :=
  match bytes with
  | [] => Some []
  | b0 :: l0 =>
      if b0 <? 0x80 then (app [b0]) <$> utf8_decode l0
      else match l0 with
      | [] => None
      | b1 :: l1 =>
          if negb (is_continuation b1) then None
          else if (0xC2 <=? b0) && (b0 <=? 0xDF) then
            app (utf16_of_scalar ((b0 - 0xC0) * 64 + (b1 - 0x80))) <$> utf8_decode l1
          else match l1 with
          | [] => None
          | b2 :: l2 =>
              if negb (is_continuation b2) then None
              else if (0xE0 <=? b0) && (b0 <=? 0xEF) then
                let c := (b0 - 0xE0) * 4096 + (b1 - 0x80) * 64 + (b2 - 0x80) in
                if (c <? 0x800) || is_surrogate c then None
                else app (utf16_of_scalar c) <$> utf8_decode l2
              else match l2 with
              | [] => None
              | b3 :: l3 =>
                  if negb (is_continuation b3) then None
                  else if (0xF0 <=? b0) && (b0 <=? 0xF4) then
                    let c := (b0 - 0xF0) * 262144 + (b1 - 0x80) * 4096 + (b2 - 0x80) * 64 + (b3 - 0x80) in
                    if (c <? 0x10000) || (0x10FFFF <? c) then None
                    else app (utf16_of_scalar c) <$> utf8_decode l3
                  else None
              end
          end
      end
  end.

(** ** Well-formed strings *)

Definition scalar_ok (c : Z) : Prop := 0 <= c <= 0x10FFFF /\ is_surrogate c = false.

Definition code_unit (u : Z) : Prop := 0 <= u <= 0xFFFF.

(** No unpaired surrogate ([String.prototype.isWellFormed]). *)
Fixpoint well_formed (s : jstring) : bool :=
  match s with
  | [] => true
  | u :: s' =>
      if is_high_surrogate u then
        match s' with v :: s'' => is_low_surrogate v && well_formed s'' | [] => false end
      else negb (is_low_surrogate u) && well_formed s'
  end.

(** Induction two code units at a time. *)
Lemma jstring_ind2 (P : jstring -> Prop) :
  P [] -> (forall u s, P s -> (forall v s', s = v :: s' -> P s') -> P (u :: s)) -> forall s, P s.
Proof.
  intros H0 H1 s. enough (P s /\ forall v s', s = v :: s' -> P s') by tauto.
  induction s as [|u s [IH1 IH2]]; [by split|]. split; [by apply H1|naive_solver].
Qed.

Ltac unit_cases :=
  unfold is_high_surrogate, is_low_surrogate, is_surrogate, is_continuation in *;
  repeat match goal with
  | |- context[?a <=? ?b] => destruct (Z.leb_spec a b)
  | |- context[?a <? ?b] => destruct (Z.ltb_spec a b)
  | H : context[?a <=? ?b] |- _ => destruct (Z.leb_spec a b)
  | H : context[?a <? ?b] |- _ => destruct (Z.ltb_spec a b)
  end; simpl in *; try lia; try done.

Lemma scalar_values_ok s : Forall code_unit s -> Forall scalar_ok (scalar_values s).
Proof.
  induction s as [|u s IH1 IH2] using jstring_ind2; intros Hs; [constructor|].
  apply Forall_cons in Hs as [Hu Hs]. simpl. unfold scalar_ok, surrogate_pair, code_unit in *.
  destruct (is_high_surrogate u) eqn:Eh.
  - destruct s as [|v s']; [repeat constructor; done|]. apply Forall_cons in Hs as [Hv Hs'].
    destruct (is_low_surrogate v) eqn:El; constructor; eauto; [|by auto].
    clear IH1 IH2. unit_cases.
  - destruct (is_low_surrogate u) eqn:El; constructor; auto; [done|]. clear IH1 IH2. unit_cases.
Qed.

(** The three multi-byte forms. *)
Lemma utf8_decode_2 q m rest :
  2 <= q <= 31 -> 0 <= m < 64 ->
  utf8_decode (0xC0 + q :: 0x80 + m :: rest) = app (utf16_of_scalar (q * 64 + m)) <$> utf8_decode rest.
Proof.
  intros. simpl. unfold is_continuation.
  replace (0xC0 + q <? 0x80) with false by lia. replace (0x80 <=? 0x80 + m) with true by lia.
  replace (0x80 + m <=? 0xBF) with true by lia. simpl.
  replace (0xC2 <=? 0xC0 + q) with true by lia. replace (0xC0 + q <=? 0xDF) with true by lia. simpl.
  by replace ((0xC0 + q - 0xC0) * 64 + (0x80 + m - 0x80)) with (q * 64 + m) by lia.
Qed.

Lemma utf8_decode_3 q n m rest c :
  c = q * 4096 + n * 64 + m -> 0 <= q <= 15 -> 0 <= n < 64 -> 0 <= m < 64 ->
  0x800 <= c -> is_surrogate c = false ->
  utf8_decode (0xE0 + q :: 0x80 + n :: 0x80 + m :: rest) = app (utf16_of_scalar c) <$> utf8_decode rest.
Proof.
  intros Hc ? ? ? ? Hs. simpl. unfold is_continuation.
  replace (0xE0 + q <? 0x80) with false by lia. replace (0x80 <=? 0x80 + n) with true by lia.
  replace (0x80 + n <=? 0xBF) with true by lia. simpl. replace (0xE0 + q <=? 0xDF) with false by lia.
  rewrite andb_false_r. replace (0x80 <=? 0x80 + m) with true by lia.
  replace (0x80 + m <=? 0xBF) with true by lia. simpl.
  replace (0xE0 <=? 0xE0 + q) with true by lia. replace (0xE0 + q <=? 0xEF) with true by lia. simpl.
  replace ((0xE0 + q - 0xE0) * 4096 + (0x80 + n - 0x80) * 64 + (0x80 + m - 0x80)) with c by lia.
  rewrite Hs. by replace (c <? 0x800) with false by lia.
Qed.

Lemma utf8_decode_4 p k n m rest c :
  c = p * 262144 + k * 4096 + n * 64 + m -> 0 <= p <= 4 -> 0 <= k < 64 -> 0 <= n < 64 -> 0 <= m < 64 ->
  0x10000 <= c <= 0x10FFFF ->
  utf8_decode (0xF0 + p :: 0x80 + k :: 0x80 + n :: 0x80 + m :: rest) = app (utf16_of_scalar c) <$> utf8_decode rest.
Proof.
  intros Hc ? ? ? ? ?. simpl. unfold is_continuation.
  replace (0xF0 + p <? 0x80) with false by lia. replace (0x80 <=? 0x80 + k) with true by lia.
  replace (0x80 + k <=? 0xBF) with true by lia. simpl. replace (0xF0 + p <=? 0xDF) with false by lia.
  rewrite andb_false_r. replace (0x80 <=? 0x80 + n) with true by lia.
  replace (0x80 + n <=? 0xBF) with true by lia. simpl. replace (0xF0 + p <=? 0xEF) with false by lia.
  rewrite andb_false_r. replace (0x80 <=? 0x80 + m) with true by lia.
  replace (0x80 + m <=? 0xBF) with true by lia. simpl.
  replace (0xF0 <=? 0xF0 + p) with true by lia. replace (0xF0 + p <=? 0xF4) with true by lia. simpl.
  replace ((0xF0 + p - 0xF0) * 262144 + (0x80 + k - 0x80) * 4096 + (0x80 + n - 0x80) * 64 + (0x80 + m - 0x80)) with c by lia.
  by replace (c <? 0x10000) with false by lia; replace (0x10FFFF <? c) with false by lia.
Qed.

(** A scalar value survives the trip through its bytes. *)
Lemma utf8_decode_scalar c rest :
  scalar_ok c -> utf8_decode (utf8_of_scalar c ++ rest) = app (utf16_of_scalar c) <$> utf8_decode rest.
Proof.
  intros [Hc Hs]. unfold utf8_of_scalar.
  assert (Hd := Z.div_mod c 64). assert (Hm := Z.mod_pos_bound c 64).
  assert (Hd2 := Z.div_mod (c / 64) 64). assert (Hm2 := Z.mod_pos_bound (c / 64) 64).
  assert (Hd3 := Z.div_mod (c / 64 / 64) 64). assert (Hm3 := Z.mod_pos_bound (c / 64 / 64) 64).
  assert (Hq : c / 4096 = c / 64 / 64) by (rewrite Z.div_div by lia; done).
  assert (Hp : c / 262144 = c / 64 / 64 / 64) by (rewrite !Z.div_div by lia; done). rewrite Hp, Hq.
  destruct (Z.ltb_spec c 0x80); [|destruct (Z.ltb_spec c 0x800); [|destruct (Z.ltb_spec c 0x10000)]];
    simpl app.
  - simpl. replace (c <? 0x80) with true by lia. unfold utf16_of_scalar. by replace (c <? 0x10000) with true by lia.
  - rewrite utf8_decode_2 by lia. by replace (c / 64 * 64 + c mod 64) with c by lia.
  - apply utf8_decode_3; lia || done.
  - apply utf8_decode_4; lia.
Qed.

Lemma utf8_decode_scalars cs :
  Forall scalar_ok cs -> utf8_decode (concat (utf8_of_scalar <$> cs)) = Some (concat (utf16_of_scalar <$> cs)).
Proof.
  induction 1 as [|c cs Hc _ IH]; [done|]. csimpl. rewrite utf8_decode_scalar by done. by rewrite IH.
Qed.

Lemma utf16_surrogate_pair u v :
  is_high_surrogate u = true -> is_low_surrogate v = true -> utf16_of_scalar (surrogate_pair u v) = [u; v].
Proof.
  intros Hu Hv. unfold utf16_of_scalar, surrogate_pair.
  assert (0xD800 <= u <= 0xDBFF) by unit_cases. assert (0xDC00 <= v <= 0xDFFF) by unit_cases.
  replace (_ <? 0x10000) with false by lia.
  replace (0x10000 + (u - 0xD800) * 0x400 + (v - 0xDC00) - 0x10000) with ((v - 0xDC00) + (u - 0xD800) * 0x400) by lia.
  rewrite Z.div_add, Z.mod_add, Z.div_small, Z.mod_small by lia. f_equal; [lia|f_equal; lia].
Qed.

(** The scalar values spell the string back exactly when it is well formed. *)
Lemma utf16_scalar_values s :
  Forall code_unit s -> concat (utf16_of_scalar <$> scalar_values s) = s <-> well_formed s = true.
Proof.
  induction s as [|u s IH1 IH2] using jstring_ind2; intros Hs; [done|].
  apply Forall_cons in Hs as [Hu Hs]. simpl.
  destruct (is_high_surrogate u) eqn:Eh.
  - destruct s as [|v s']; [split; [|done]; intros [= <-]; by unit_cases|]. apply Forall_cons in Hs as [Hv Hs'].
    destruct (is_low_surrogate v) eqn:El; simpl.
    + rewrite utf16_surrogate_pair by done. rewrite <- (IH2 v s' eq_refl Hs'). simpl. split; [by intros [= ?]|intros E; by f_equal; f_equal].
    + split; [|done]. intros [= <- _]. by unit_cases.
  - destruct (is_low_surrogate u) eqn:El; simpl.
    + split; [|done]. intros [= <- _]. by unit_cases.
    + rewrite <- IH1 by done. unfold utf16_of_scalar at 1. unfold code_unit in Hu.
      replace (u <? 0x10000) with true by lia. simpl. split; [by intros [= ?]|intros E; by f_equal].
Qed.

(** Encoding then decoding returns the string exactly when it has no unpaired
    surrogate, and never throws. *)
Lemma utf8_decode_encode s :
  Forall code_unit s ->
  exists s', utf8_decode (utf8_encode s) = Some s' /\ (s' = s <-> well_formed s = true).
Proof.
  intros Hs. unfold utf8_encode. rewrite utf8_decode_scalars by (by apply scalar_values_ok).
  eexists. split; [done|]. by apply utf16_scalar_values.
Qed.

Lemma utf8_roundtrip s : Forall code_unit s -> utf8_decode (utf8_encode s) = Some s <-> well_formed s = true.
Proof.
  intros Hs. destruct (utf8_decode_encode s Hs) as (s' & -> & <-). split; [by intros [= ->]|by intros ->].
Qed.

Definition byte (b : Z) : Prop := 0 <= b < 256.
