(* ===== verification/Numbers.v ===== *)
(** * JavaScript numbers

    Doubles as integers: [Number.isFinite], [Number.isInteger] and the integer
    a double is, the double of a safe integer, rounding functions, comparison,
    and the binary64 byte layout. *)

From stdpp Require Import base list.
From Stdlib Require Import ZArith Lia.
From S2P Require Import Prelude.
Open Scope Z_scope.

Definition MAX_SAFE_INTEGER : Z := 2 ^ 53 - 1.

Definition cond_neg (s : bool) (z : Z) : Z := if s then - z else z.

(** [Number.isFinite] *)
Definition is_finite (n : number) : bool :=
  match n with S754_infinity _ | S754_nan => false | _ => true end.

(** The integer a number is, when [Number.isInteger]. *)
Definition integer_value (n : number) : option Z :=
  match n with
  | S754_zero _ => Some 0
  | S754_finite s m e =>
      if 0 <=? e then Some (cond_neg s (Z.pos m * 2 ^ e))
      else if Z.pos m mod 2 ^ (- e) =? 0 then Some (cond_neg s (Z.pos m / 2 ^ (- e)))
      else None
  | _ => None
  end.

Definition safe (z : Z) : bool := Z.abs z <=? MAX_SAFE_INTEGER.

(** The double of a safe integer. *)
Definition number_of_Z (z : Z) : number :=
  match z with
  | Z0 => S754_zero false
  | Zpos p => S754_finite false (Z.to_pos (Z.pos p * 2 ^ (52 - Z.log2 (Z.pos p)))) (Z.log2 (Z.pos p) - 52)
  | Zneg p => S754_finite true (Z.to_pos (Z.pos p * 2 ^ (52 - Z.log2 (Z.pos p)))) (Z.log2 (Z.pos p) - 52)
  end.

(** Big-endian bytes. *)
Fixpoint be_bytes (n : nat) (v : Z) : list Z :=
  match n with
  | O => []
  | S n' => (v / 2 ^ (8 * Z.of_nat n')) mod 256 :: be_bytes n' v
  end.

Definition of_be (bytes : list Z) : Z := foldl (fun a b => a * 256 + b) 0 bytes.

(** [DataView.setFloat64] and [getFloat64], big-endian. *)
Definition float64_bits (n : number) : Z :=
  match n with
  | S754_zero s => (if s then 2 ^ 63 else 0)
  | S754_infinity s => (if s then 2 ^ 63 else 0) + 2047 * 2 ^ 52
  | S754_nan => 2047 * 2 ^ 52 + 2 ^ 51
  | S754_finite s m e =>
      (if s then 2 ^ 63 else 0) +
      (if Z.pos m <? 2 ^ 52 then Z.pos m else (e + 1075) * 2 ^ 52 + (Z.pos m - 2 ^ 52))
  end.

Definition float64_of_bits (v : Z) : number :=
  let s := 2 ^ 63 <=? v in
  let biased := (v / 2 ^ 52) mod 2048 in
  let fraction := v mod 2 ^ 52 in
  if biased =? 2047 then (if fraction =? 0 then S754_infinity s else S754_nan)
  else if biased =? 0 then (if fraction =? 0 then S754_zero s else S754_finite s (Z.to_pos fraction) (-1074))
  else S754_finite s (Z.to_pos (2 ^ 52 + fraction)) (biased - 1075).

(** The canonical doubles: what a JavaScript number can be. *)
Definition is_double (n : number) : Prop :=
  match n with
  | S754_finite _ m e =>
      (2 ^ 52 <= Z.pos m < 2 ^ 53 /\ -1074 <= e <= 971) \/ (Z.pos m < 2 ^ 52 /\ e = -1074)
  | _ => True
  end.

(** [a > b], [a || b] and [Math.floor] on doubles; a comparison with [NaN] is
    false. *)
Definition ngtb (a b : number) : bool :=
  match SFcompare a b with Some Gt => true | _ => false end.

Definition ntruthy (n : number) : bool :=
  match n with S754_zero _ | S754_nan => false | _ => true end.

Definition nor (a b : number) : number := if ntruthy a then a else b.

(** [Math.floor] of a finite number. *)
Definition nfloor (n : number) : Z :=
  match n with
  | S754_finite s m e =>
      if 0 <=? e then cond_neg s (Z.pos m * 2 ^ e) else cond_neg s (Z.pos m) / 2 ^ (- e)
  | _ => 0
  end.

Definition nmul (a b : number) : number := SFmul 53 1024 a b.
