(* ===== verification/Cbor.v ===== *)
(** * CBOR codec

    packages/protocol/src/cbor: the strict, definite-length RFC 8949 subset of
    the wire protocol.  options.ts (limits), encoder.ts ([CborWriter] with its
    growing buffer, [encodeValue] over a heap of possibly shared or cyclic
    JavaScript objects) and decoder.ts ([CborReader] over untrusted bytes).

    Recursion in both directions is bounded by [maxDepth]: the fuel of
    [encodeValue] and [readItem] counts the remaining levels and
    [encodeValue_fuel], [readItem_fuel] show that it never cuts a run short. *)

From stdpp Require Import base list gmap strings pretty sorting.
From Stdlib Require Import ZArith Lia.
From S2P Require Import Prelude Utf8 Numbers.
Open Scope Z_scope.

(** ** options.ts *)

Inductive CborFailure := CborError (message : jstring) | CborRangeError (message : jstring).

Definition UINT32_BASE : Z := 0x100000000.
Definition MAX_UINT32 : Z := 0xffffffff.
Definition MAX_CONFIGURED_DEPTH : Z := 512.
Definition DEFAULT_MAX_CBOR_BYTE_LENGTH : Z := 16 * 1024 * 1024.
Definition DEFAULT_MAX_CBOR_CONTAINER_LENGTH : Z := 1000000.
Definition DEFAULT_MAX_CBOR_DEPTH : Z := 64.

Record CborOptions := {
  o_maxByteLength : option number;
  o_maxContainerLength : option number;
  o_maxDepth : option number }.

Record ResolvedCborOptions := {
  maxByteLength : Z;
  maxContainerLength : Z;
  maxDepth : Z }.

Definition resolveLimit (name : jstring) (value : number) (maximum : Z) : Result CborFailure Z :=
  let bad := Err (CborRangeError (name ++ js " must be an integer between 0 and " ++ js_of_Z maximum)) in
  match integer_value value with
  | Some z => if negb (safe z) || (z <? 0) || (maximum <? z) then bad else Ok z
  | None => bad
  end.

Definition resolveOptions (options : option CborOptions) : Result CborFailure ResolvedCborOptions :=
  let get f d := default (number_of_Z d) (options ≫= f) in
  let* b := resolveLimit (js "maxByteLength") (get o_maxByteLength DEFAULT_MAX_CBOR_BYTE_LENGTH) MAX_UINT32 in
  let* c := resolveLimit (js "maxContainerLength") (get o_maxContainerLength DEFAULT_MAX_CBOR_CONTAINER_LENGTH) MAX_UINT32 in
  let* d := resolveLimit (js "maxDepth") (get o_maxDepth DEFAULT_MAX_CBOR_DEPTH) MAX_CONFIGURED_DEPTH in
  Ok {| maxByteLength := b; maxContainerLength := c; maxDepth := d |}.

(** ** encoder.ts: the writer *)

(** Assignment to a [Uint8Array] element keeps the low byte; [>>>] works on
    the low 32 bits. *)
Definition uint8 (v : Z) : Z := v mod 256.
Definition ushr (v k : Z) : Z := (v mod UINT32_BASE) / 2 ^ k.

Record CborWriter := { w_buffer : list Z; w_offset : nat; w_maxByteLength : Z }.

Definition new_CborWriter (max : Z) : CborWriter :=
  {| w_buffer := replicate (Z.to_nat (Z.min 256 max)) 0; w_offset := 0; w_maxByteLength := max |}.

Fixpoint grow_capacity (fuel : nat) (capacity required max : Z) : Z :=
  match fuel with
  | O => capacity
  | S fuel' =>
      if capacity <? required
      then grow_capacity fuel' (Z.min max (Z.max required (capacity * 2))) required max
      else capacity
  end.

(** [target.set(bytes, offset)] *)
Definition set_at (target bytes : list Z) (offset : nat) : list Z :=
  take offset target ++ bytes ++ drop (offset + length bytes) target.

Definition length_exceeded (max : Z) : CborFailure :=
  CborError (js "CBOR byte length exceeds configured limit of " ++ js_of_Z max).

Definition ensureCapacity (w : CborWriter) (additionalBytes : nat) : Result CborFailure CborWriter :=
  let required := (w_offset w + additionalBytes)%nat in
  if w_maxByteLength w <? Z.of_nat required then Err (length_exceeded (w_maxByteLength w))
  else if (required <=? length (w_buffer w))%nat then Ok w
  else
    let capacity := grow_capacity (S required) (Z.max 1 (Z.of_nat (length (w_buffer w)))) (Z.of_nat required)
                      (w_maxByteLength w) in
    Ok {| w_buffer := set_at (replicate (Z.to_nat capacity) 0) (w_buffer w) 0;
          w_offset := w_offset w; w_maxByteLength := w_maxByteLength w |}.

(** Stores at the offset and advances it. *)
Definition put (w : CborWriter) (bytes : list Z) : CborWriter :=
  {| w_buffer := set_at (w_buffer w) bytes (w_offset w); w_offset := w_offset w + length bytes;
     w_maxByteLength := w_maxByteLength w |}.

Definition writeByte (value : Z) (w : CborWriter) : Result CborFailure CborWriter :=
  let* w := ensureCapacity w 1 in Ok (put w [uint8 value]).

Definition writeBytes (bytes : list Z) (w : CborWriter) : Result CborFailure CborWriter :=
  let* w := ensureCapacity w (length bytes) in Ok (put w bytes).

Definition writeUint16 (value : Z) (w : CborWriter) : Result CborFailure CborWriter :=
  let* w := ensureCapacity w 2 in Ok (put w [uint8 (ushr value 8); uint8 value]).

Definition writeUint32 (value : Z) (w : CborWriter) : Result CborFailure CborWriter :=
  let* w := ensureCapacity w 4 in
  Ok (put w [uint8 (ushr value 24); uint8 (ushr value 16); uint8 (ushr value 8); uint8 value]).

Definition writeUint64 (value : Z) (w : CborWriter) : Result CborFailure CborWriter :=
  let high := value / UINT32_BASE in
  let low := value - high * UINT32_BASE in
  let* w := writeUint32 high w in writeUint32 low w.

Definition writeFloat64 (value : number) (w : CborWriter) : Result CborFailure CborWriter :=
  let* w := ensureCapacity w 9 in Ok (put w (0xfb :: be_bytes 8 (float64_bits value))).

Definition finish (w : CborWriter) : list Z := take (w_offset w) (w_buffer w).

Definition writeArgument (majorType value : Z) (w : CborWriter) : Result CborFailure CborWriter :=
  let prefix := Z.shiftl majorType 5 in
  if value <? 24 then writeByte (Z.lor prefix value) w
  else if value <=? 0xff then let* w := writeByte (Z.lor prefix 24) w in writeByte value w
  else if value <=? 0xffff then let* w := writeByte (Z.lor prefix 25) w in writeUint16 value w
  else if value <=? MAX_UINT32 then let* w := writeByte (Z.lor prefix 26) w in writeUint32 value w
  else let* w := writeByte (Z.lor prefix 27) w in writeUint64 value w.

(** ** JavaScript values

    Objects live in a heap, so that sharing and cycles are expressible.  An
    array hole reads as [VUndefined]; [VOther] is any other primitive or a
    function, with its [typeof]. *)

Definition loc := positive.

Inductive jsvalue :=
| VUndefined
| VNull
| VBool (b : bool)
| VNumber (n : number)
| VString (s : jstring)
| VObject (l : loc)
| VOther (typeof : jstring).

Inductive heap_object :=
| OBytes (bytes : list Z)
| OArray (elements : list jsvalue)
| OPlain (properties : list (jstring * jsvalue)) (enumerableSymbols : bool)
| OInstance.

Definition heap := loc -> heap_object.

Definition typeof (v : jsvalue) : jstring :=
  match v with
  | VUndefined => js "undefined"
  | VBool _ => js "boolean"
  | VNumber _ => js "number"
  | VString _ => js "string"
  | VNull | VObject _ => js "object"
  | VOther t => t
  end.

(** An array index key: the canonical decimal form of an integer below
    2^32 - 1. *)
Definition array_index (key : jstring) : option Z :=
  let value := foldl (fun a u => a * 10 + (u - 48)) 0 key in
  if forallb (fun u => (48 <=? u) && (u <=? 57)) key && bool_decide (js_of_Z value = key) && (value <? MAX_UINT32)
  then Some value else None.

(** [Object.keys] order: array indices ascending, then the other keys as
    created. *)
Definition own_properties {A} (properties : list (jstring * A)) : list (jstring * A) :=
  let index (p : jstring * A) := array_index p.1 in
  sort_by (fun p => default 0 (index p)) (List.filter (fun p => bool_decide (is_Some (index p))) properties) ++
  List.filter (fun p => negb (bool_decide (is_Some (index p)))) properties.

Definition is_undefined (v : jsvalue) : bool := match v with VUndefined => true | _ => false end.

Section Encoder.
Context (h : heap) (options : ResolvedCborOptions).

Definition limit_message (what : jstring) (limit : Z) : CborFailure :=
  CborError (js "CBOR " ++ what ++ js " exceeds configured limit of " ++ js_of_Z limit).

Definition encodeText (value : jstring) (w : CborWriter) : Result CborFailure CborWriter :=
  let bytes := utf8_encode value in
  if maxByteLength options <? Z.of_nat (length bytes)
  then Err (limit_message (js "text string length") (maxByteLength options))
  else if bool_decide (utf8_decode bytes = Some value)
  then let* w := writeArgument 3 (Z.of_nat (length bytes)) w in writeBytes bytes w
  else Err (CborError (js "CBOR text strings must contain valid Unicode scalar values")).

Definition encodeNumber (n : number) (w : CborWriter) : Result CborFailure CborWriter :=
  if negb (is_finite n) then Err (CborError (js "CBOR numbers must be finite"))
  else
    match integer_value n with
    | Some z =>
        if bool_decide (n = S754_zero true) then writeFloat64 n w
        else if negb (safe z) then Err (CborError (js "CBOR integers must be safe JavaScript integers"))
        else if 0 <=? z then writeArgument 0 z w else writeArgument 1 (-1 - z) w
    | None => writeFloat64 n w
    end.

Fixpoint encodeValue (fuel : nat) (w : CborWriter) (value : jsvalue) (depth : Z) (ancestors : gset loc)
    : Result CborFailure CborWriter :=
  if maxDepth options <? depth then Err (limit_message (js "nesting depth") (maxDepth options))
  else
    match fuel with
    | O => Err (limit_message (js "nesting depth") (maxDepth options))
    | S fuel' =>
        match value with
        | VNull => writeByte 0xf6 w
        | VBool b => writeByte (if b then 0xf5 else 0xf4) w
        | VNumber n => encodeNumber n w
        | VString s => encodeText s w
        | VUndefined | VOther _ => Err (CborError (js "Unsupported CBOR value type: " ++ typeof value))
        | VObject l =>
            match h l with
            | OBytes bytes =>
                if maxByteLength options <? Z.of_nat (length bytes)
                then Err (limit_message (js "byte string length") (maxByteLength options))
                else let* w := writeArgument 2 (Z.of_nat (length bytes)) w in writeBytes bytes w
            | OArray elements =>
                if bool_decide (l ∈ ancestors) then Err (CborError (js "CBOR values must not contain cycles"))
                else if maxContainerLength options <? Z.of_nat (length elements)
                then Err (limit_message (js "array length") (maxContainerLength options))
                else
                  let* w := writeArgument 4 (Z.of_nat (length elements)) w in
                  rfold (fun w element =>
                           if is_undefined element
                           then Err (CborError (js "CBOR arrays must not contain holes or undefined values"))
                           else encodeValue fuel' w element (depth + 1) ({[l]} ∪ ancestors)) w elements
            | OPlain properties enumerableSymbols =>
                if bool_decide (l ∈ ancestors) then Err (CborError (js "CBOR values must not contain cycles"))
                else if enumerableSymbols then Err (CborError (js "CBOR map keys must be strings"))
                else
                  let entries := List.filter (fun p => negb (is_undefined p.2)) (own_properties properties) in
                  if maxContainerLength options <? Z.of_nat (length entries)
                  then Err (limit_message (js "map length") (maxContainerLength options))
                  else
                    let* w := writeArgument 5 (Z.of_nat (length entries)) w in
                    rfold (fun w entry =>
                             let* w := encodeText entry.1 w in
                             encodeValue fuel' w entry.2 (depth + 1) ({[l]} ∪ ancestors)) w entries
            | OInstance => Err (CborError (js "Unsupported CBOR value type: " ++ typeof value))
            end
        end
    end.
End Encoder.

(** One level of fuel per nesting level. *)
Definition depth_fuel (options : ResolvedCborOptions) (depth : Z) : nat := Z.to_nat (maxDepth options + 1 - depth).

Definition encodeCbor (h : heap) (value : jsvalue) (options : option CborOptions) : Result CborFailure (list Z) :=
  let* resolved := resolveOptions options in
  let writer := new_CborWriter (maxByteLength resolved) in
  let* w := encodeValue h resolved (depth_fuel resolved 0) writer value 0 ∅ in
  Ok (finish w).

(** ** decoder.ts

    The reader's state is its unread bytes; decoded containers are fresh, so
    the result is a tree.  [CMap] lists the properties as they are defined. *)

#[warnings="-register-all"]
Inductive cbor :=
| CNull
| CBool (b : bool)
| CNumber (n : number)
| CText (s : jstring)
| CBytes (bytes : list Z)
| CArray (elements : list cbor)
| CMap (properties : list (jstring * cbor)).

Section Decoder.
Context (options : ResolvedCborOptions).

Definition truncated {A} : Result CborFailure A := Err (CborError (js "Truncated CBOR payload")).

Definition readByte (input : list Z) : Result CborFailure (Z * list Z) :=
  match input with [] => truncated | b :: rest => Ok (b, rest) end.

Definition readBytes (length_ : Z) (input : list Z) : Result CborFailure (list Z * list Z) :=
  if Z.of_nat (length input) <? length_ then truncated
  else Ok (take (Z.to_nat length_) input, drop (Z.to_nat length_) input).

Definition byte_at (bytes : list Z) (i : nat) : Z := default 0 (bytes !! i).

(** [readArgument(26)] *)
Definition readArgument_26 (input : list Z) : Result CborFailure (Z * list Z) :=
  let* (bytes, rest) := readBytes 4 input in
  Ok (byte_at bytes 0 * 0x1000000 + byte_at bytes 1 * 0x10000 + byte_at bytes 2 * 0x100 + byte_at bytes 3, rest).

Definition readArgument (additionalInformation : Z) (input : list Z) : Result CborFailure (Z * list Z) :=
  if additionalInformation <? 24 then Ok (additionalInformation, input)
  else if additionalInformation =? 24 then readByte input
  else if additionalInformation =? 25 then
    let* (bytes, rest) := readBytes 2 input in Ok (byte_at bytes 0 * 0x100 + byte_at bytes 1, rest)
  else if additionalInformation =? 26 then readArgument_26 input
  else if additionalInformation =? 27 then
    let* (high, rest) := readArgument_26 input in
    let* (low, rest) := readArgument_26 rest in
    if 0x1fffff <? high then Err (CborError (js "Decoded CBOR integer or length is outside the safe range"))
    else Ok (high * UINT32_BASE + low, rest)
  else if additionalInformation =? 31 then Err (CborError (js "Indefinite-length CBOR items are not supported"))
  else Err (CborError (js "Malformed CBOR additional information")).

Definition readLength (additionalInformation : Z) (kind : jstring) (limit : Z) (input : list Z)
    : Result CborFailure (Z * list Z) :=
  if additionalInformation =? 31
  then Err (CborError (js "Indefinite-length CBOR " ++ kind ++ js "s are not supported"))
  else
    let* (length_, rest) := readArgument additionalInformation input in
    if limit <? length_ then Err (limit_message (kind ++ js " length") limit) else Ok (length_, rest).

Definition readSimple (additionalInformation : Z) (input : list Z) : Result CborFailure (cbor * list Z) :=
  if additionalInformation =? 20 then Ok (CBool false, input)
  else if additionalInformation =? 21 then Ok (CBool true, input)
  else if additionalInformation =? 22 then Ok (CNull, input)
  else if additionalInformation =? 27 then
    let* (bytes, rest) := readBytes 8 input in
    let value := float64_of_bits (of_be bytes) in
    if negb (is_finite value) then Err (CborError (js "Decoded CBOR number must be finite"))
    else
      match integer_value value with
      | Some z => if negb (safe z) then Err (CborError (js "Decoded CBOR integer is outside the safe range"))
                  else Ok (CNumber value, rest)
      | None => Ok (CNumber value, rest)
      end
  else if additionalInformation =? 31 then Err (CborError (js "CBOR break marker is not supported"))
  else Err (CborError (js "Unsupported CBOR simple value or floating-point width")).

(** [for (let index = 0; index < n; index++)] over a stateful reader. *)
Fixpoint times {S} (n : nat) (body : S -> list Z -> Result CborFailure (S * list Z)) (s : S) (input : list Z)
    : Result CborFailure (S * list Z) :=
  match n with
  | O => Ok (s, input)
  | Datatypes.S n' => let* (s, input) := body s input in times n' body s input
  end.

(** The loop bodies of arrays and maps. *)
Definition read_element (readItem : list Z -> Result CborFailure (cbor * list Z)) (result : list cbor)
    (input : list Z) : Result CborFailure (list cbor * list Z) :=
  let* (element, rest) := readItem input in Ok (result ++ [element], rest).

Definition read_property (readItem : list Z -> Result CborFailure (cbor * list Z))
    (result : list (jstring * cbor)) (input : list Z) : Result CborFailure (list (jstring * cbor) * list Z) :=
  let* (key, rest) := readItem input in
  match key with
  | CText key =>
      if map_has key result then Err (CborError (js "CBOR map contains a duplicate key"))
      else let* (value, rest) := readItem rest in Ok (map_set key value result, rest)
  | _ => Err (CborError (js "CBOR map keys must be strings"))
  end.

Fixpoint readItem (fuel : nat) (depth : Z) (input : list Z) : Result CborFailure (cbor * list Z) :=
  if maxDepth options <? depth then Err (limit_message (js "nesting depth") (maxDepth options))
  else
    match fuel with
    | O => Err (limit_message (js "nesting depth") (maxDepth options))
    | S fuel' =>
        let* (initial, input) := readByte input in
        let majorType := ushr initial 5 in
        let info := Z.land initial 0x1f in
        if majorType =? 0 then
          let* (value, rest) := readArgument info input in Ok (CNumber (number_of_Z value), rest)
        else if majorType =? 1 then
          let* (argument, rest) := readArgument info input in
          if negb (safe (-1 - argument)) then Err (CborError (js "Decoded CBOR integer is outside the safe range"))
          else Ok (CNumber (number_of_Z (-1 - argument)), rest)
        else if majorType =? 2 then
          let* (length_, rest) := readLength info (js "byte string") (maxByteLength options) input in
          let* (bytes, rest) := readBytes length_ rest in
          Ok (CBytes bytes, rest)
        else if majorType =? 3 then
          let* (length_, rest) := readLength info (js "text string") (maxByteLength options) input in
          let* (bytes, rest) := readBytes length_ rest in
          match utf8_decode bytes with
          | Some s => Ok (CText s, rest)
          | None => Err (CborError (js "CBOR text string contains invalid UTF-8"))
          end
        else if majorType =? 4 then
          let* (length_, rest) := readLength info (js "array") (maxContainerLength options) input in
          let* (result, rest) := times (Z.to_nat length_)
                                   (read_element (readItem fuel' (depth + 1))) [] rest in
          Ok (CArray result, rest)
        else if majorType =? 5 then
          let* (length_, rest) := readLength info (js "map") (maxContainerLength options) input in
          let* (result, rest) := times (Z.to_nat length_)
                                   (read_property (readItem fuel' (depth + 1))) [] rest in
          Ok (CMap result, rest)
        else if majorType =? 6 then Err (CborError (js "CBOR tags are not supported"))
        else if majorType =? 7 then readSimple info input
        else Err (CborError (js "Malformed CBOR major type"))
    end.

Definition decode (bytes : list Z) : Result CborFailure cbor :=
  let* (value, rest) := readItem (depth_fuel options 0) 0 bytes in
  match rest with
  | [] => Ok value
  | _ => Err (CborError (js "CBOR payload contains trailing data"))
  end.
End Decoder.

Definition decodeCbor (bytes : list Z) (options : option CborOptions) : Result CborFailure cbor :=
  let* resolved := resolveOptions options in
  if maxByteLength resolved <? Z.of_nat (length bytes) then Err (length_exceeded (maxByteLength resolved))
  else decode resolved bytes.
