(* ===== verification/CborCodec.v ===== *)
(** * The codec's round trip

    Big-endian integers, the binary64 bit layout and the doubles of safe
    integers round-trip.  The writer's growing buffer refines an append-only
    byte list ([writes]); every argument, text and value the encoder emits is
    read back by the decoder, with the limits of the same options. *)

From stdpp Require Import base list gmap strings pretty sorting.
From Stdlib Require Import ZArith Lia.
From S2P Require Import Prelude Utf8 Numbers Cbor.

Open Scope Z_scope.

Lemma be_bytes_length n v : length (be_bytes n v) = n.
Proof. induction n; simpl; congruence. Qed.

Lemma of_be_step n v acc :
  foldl (fun a b => a * 256 + b) acc (be_bytes n v) = acc * 2 ^ (8 * Z.of_nat n) + v mod 2 ^ (8 * Z.of_nat n).
Proof.
  revert acc; induction n as [|n IH]; intros acc; simpl be_bytes; simpl foldl.
  - rewrite Z.mod_1_r. lia.
  - rewrite IH. set (k := 2 ^ (8 * Z.of_nat n)).
    replace (2 ^ (8 * Z.of_nat (S n))) with (k * 256)
      by (unfold k; rewrite Nat2Z.inj_succ, Z.mul_succ_r, Z.pow_add_r by lia; lia).
    assert (0 < k) by (apply Z.pow_pos_nonneg; lia).
    rewrite (Z.rem_mul_r v k 256) by lia. lia.
Qed.

Lemma of_be_bytes n v : 0 <= v < 2 ^ (8 * Z.of_nat n) -> of_be (be_bytes n v) = v.
Proof. intros H. unfold of_be. rewrite of_be_step, Z.mod_small by done. lia. Qed.

Ltac zpow := change (2 ^ 63) with 9223372036854775808 in *; change (2 ^ 64) with 18446744073709551616 in *;
             change (2 ^ 52) with 4503599627370496 in *; change (2 ^ 53) with 9007199254740992 in *;
             change (2 ^ 51) with 2251799813685248 in *.

(** The bits of sign, biased exponent and fraction. *)
Lemma float64_fields s b f :
  0 <= b < 2048 -> 0 <= f < 2 ^ 52 ->
  let v := (if s : bool then 2 ^ 63 else 0) + (b * 2 ^ 52 + f) in
  0 <= v < 2 ^ 64 /\ (2 ^ 63 <=? v) = s /\ (v / 2 ^ 52) mod 2048 = b /\ v mod 2 ^ 52 = f.
Proof.
  intros Hb Hf v.
  assert (Hv : v = ((if s then 2048 else 0) + b) * 2 ^ 52 + f) by (unfold v; zpow; destruct s; lia).
  split; [unfold v; zpow; destruct s; lia|].
  split; [unfold v; zpow; destruct s; [apply Z.leb_le|apply Z.leb_gt]; lia|].
  rewrite Hv, Z.div_add_l, (Z.div_small f), Z.add_0_r by (zpow; lia). split.
  - destruct s; [|by rewrite Z.mod_small by lia].
    rewrite <- (Z.mul_1_l 2048) at 1. rewrite Z.add_comm, Z.mod_add, Z.mod_small by lia. done.
  - rewrite Z.add_comm, Z.mod_add, Z.mod_small by (zpow; lia). done.
Qed.

Lemma float64_decode s b f :
  0 <= b < 2048 -> 0 <= f < 2 ^ 52 ->
  float64_of_bits ((if s : bool then 2 ^ 63 else 0) + (b * 2 ^ 52 + f)) =
    if b =? 2047 then (if f =? 0 then S754_infinity s else S754_nan)
    else if b =? 0 then (if f =? 0 then S754_zero s else S754_finite s (Z.to_pos f) (-1074))
    else S754_finite s (Z.to_pos (2 ^ 52 + f)) (b - 1075).
Proof.
  intros Hb Hf. destruct (float64_fields s b f Hb Hf) as (_ & H1 & H2 & H3).
  unfold float64_of_bits. by rewrite H1, H2, H3.
Qed.

(** The fields of a finite double. *)
Lemma float64_bits_finite n :
  is_double n -> is_finite n = true ->
  exists s b f, 0 <= b < 2047 /\ 0 <= f < 2 ^ 52 /\
    float64_bits n = (if s : bool then 2 ^ 63 else 0) + (b * 2 ^ 52 + f) /\ float64_of_bits (float64_bits n) = n.
Proof.
  intros Hd Hf. destruct n as [s|s| |s m e]; try done.
  - exists s, 0, 0. split; [lia|]. split; [zpow; lia|]. split; [simpl; lia|]. by destruct s.
  - simpl in Hd |- *. destruct Hd as [[Hm He]|[Hm ->]].
    + replace (Z.pos m <? 2 ^ 52) with false by lia.
      exists s, (e + 1075), (Z.pos m - 2 ^ 52). split; [lia|]. split; [zpow; lia|]. split; [done|].
      rewrite float64_decode by (zpow; lia).
      replace (e + 1075 =? 2047) with false by lia. replace (e + 1075 =? 0) with false by lia.
      replace (2 ^ 52 + (Z.pos m - 2 ^ 52)) with (Z.pos m) by lia. simpl. f_equal. lia.
    + replace (Z.pos m <? 2 ^ 52) with true by lia.
      exists s, 0, (Z.pos m). split; [lia|]. split; [zpow; lia|]. split; [done|].
      rewrite <- (Z.add_0_l (Z.pos m)). rewrite <- (Z.mul_0_l (2 ^ 52)).
      rewrite float64_decode by (zpow; lia). done.
Qed.

Lemma float64_roundtrip n :
  is_double n -> is_finite n = true -> float64_of_bits (of_be (be_bytes 8 (float64_bits n))) = n.
Proof.
  intros Hd Hf. destruct (float64_bits_finite n Hd Hf) as (s & b & f & Hb & Hfr & E & H).
  rewrite of_be_bytes; [done|]. rewrite E. destruct (float64_fields s b f) as [? _]; [lia|done|].
  change (2 ^ (8 * Z.of_nat 8)) with (2 ^ 64). done.
Qed.

(** A non-zero safe integer among the doubles has a 53-bit mantissa that ends
    in the zeros its exponent takes away. *)
Lemma safe_integer_shape s m e z :
  is_double (S754_finite s m e) -> integer_value (S754_finite s m e) = Some z -> safe z = true ->
  exists k p, 0 <= k <= 52 /\ e = - k /\ Z.pos m = Z.pos p * 2 ^ k /\ z = cond_neg s (Z.pos p) /\
              2 ^ 52 <= Z.pos m < 2 ^ 53.
Proof.
  unfold safe, MAX_SAFE_INTEGER. simpl. intros Hd Hi Hs%Z.leb_le.
  destruct (Z.leb_spec 0 e) as [He|He].
  - injection Hi as <-. destruct Hd as [[Hm _]|[_ ->]]; [|lia].
    assert (He0 : e = 0).
    { destruct (decide (e = 0)) as [|Hne]; [done|]. exfalso.
      assert (2 <= 2 ^ e) by (change 2 with (2 ^ 1) at 1; apply Z.pow_le_mono_r; lia).
      assert (Z.abs (cond_neg s (Z.pos m * 2 ^ e)) = Z.pos m * 2 ^ e) by (destruct s; simpl cond_neg; lia).
      zpow. nia. }
    exists 0, m. rewrite He0, Z.mul_1_r. split; [lia|]. done.
  - destruct (Z.eqb_spec (Z.pos m mod 2 ^ (- e)) 0) as [Hmod|]; [|done]. injection Hi as <-.
    assert (Hpow : 0 < 2 ^ (- e)) by (apply Z.pow_pos_nonneg; lia).
    assert (Hdiv : Z.pos m = Z.pos m / 2 ^ (- e) * 2 ^ (- e)) by (rewrite Z.mul_comm; apply Z.div_exact; lia).
    assert (Hpos : 0 < Z.pos m / 2 ^ (- e)) by nia.
    assert (Hle : - e <= 52).
    { destruct (decide (- e <= 52)) as [|Hgt]; [done|]. exfalso.
      assert (2 ^ 53 <= 2 ^ (- e)) by (apply Z.pow_le_mono_r; lia). zpow. nia. }
    destruct Hd as [[Hm _]|[_ ->]]; [|lia].
    exists (- e), (Z.to_pos (Z.pos m / 2 ^ (- e))). rewrite Z2Pos.id by done. repeat split; lia || done.
Qed.

(** A double that is a safe integer is the double of that integer. *)
Lemma number_of_integer_value n z :
  is_double n -> integer_value n = Some z -> safe z = true -> n <> S754_zero true -> number_of_Z z = n.
Proof.
  intros Hd Hi Hs Hz. destruct n as [s|s| |s m e]; try done.
  - destruct s; [done|]. by injection Hi as <-.
  - destruct (safe_integer_shape s m e z Hd Hi Hs) as (k & p & Hk & -> & Hp & -> & Hm).
    assert (Hlog : Z.log2 (Z.pos p) = 52 - k).
    { assert (H : Z.log2 (Z.pos p * 2 ^ k) = 52).
      { apply Z.log2_unique; [lia|]. rewrite <- Hp. change (Z.succ 52) with 53. done. }
      rewrite Z.log2_mul_pow2 in H by lia. lia. }
    destruct s; unfold cond_neg, number_of_Z; change (- Z.pos p) with (Z.neg p); cbv iota; rewrite Hlog; replace (52 - (52 - k)) with k by lia;
      rewrite <- Hp; cbn [Z.to_pos]; f_equal; lia.
Qed.

(** ** The codec's round trip *)

(** ** The writer appends *)

Record writer_ok (w : CborWriter) : Prop := {
  wo_fits : (w_offset w <= length (w_buffer w))%nat;
  wo_max : 0 <= w_maxByteLength w;
  wo_bound : Z.of_nat (length (w_buffer w)) <= w_maxByteLength w }.

(** A write appends exactly [bytes], and fails exactly when they do not fit. *)
Definition writes (f : CborWriter -> Result CborFailure CborWriter) (bytes : list Z) : Prop :=
  forall w, writer_ok w ->
  match f w with
  | Ok w' => writer_ok w' /\ finish w' = finish w ++ bytes /\ w_maxByteLength w' = w_maxByteLength w
  | Err e => e = length_exceeded (w_maxByteLength w) /\
             w_maxByteLength w < Z.of_nat (length (finish w ++ bytes))
  end.

Lemma grow_capacity_spec fuel capacity required max :
  1 <= capacity -> required <= max -> capacity <= max -> required < capacity + Z.of_nat fuel ->
  required <= grow_capacity fuel capacity required max <= max.
Proof.
  revert capacity; induction fuel as [|fuel IH]; intros capacity H1 Hr Hc Hf; simpl; [lia|].
  destruct (Z.ltb_spec capacity required); [apply IH; lia|lia].
Qed.

Lemma set_at_length target bytes offset :
  (offset + length bytes <= length target)%nat -> length (set_at target bytes offset) = length target.
Proof. intros. unfold set_at. rewrite !length_app, length_take, length_drop. lia. Qed.

Lemma finish_length w : writer_ok w -> length (finish w) = w_offset w.
Proof. intros []. unfold finish. rewrite length_take. lia. Qed.

Lemma ensureCapacity_spec w n :
  writer_ok w ->
  match ensureCapacity w n with
  | Ok w' => writer_ok w' /\ finish w' = finish w /\ w_maxByteLength w' = w_maxByteLength w /\
             (w_offset w' + n <= length (w_buffer w'))%nat
  | Err e => e = length_exceeded (w_maxByteLength w) /\ w_maxByteLength w < Z.of_nat (w_offset w + n)
  end.
Proof.
  intros Hw. destruct Hw. unfold ensureCapacity.
  destruct (Z.ltb_spec (w_maxByteLength w) (Z.of_nat (w_offset w + n))); [done|].
  destruct (Nat.leb_spec (w_offset w + n) (length (w_buffer w))); [split; [by constructor|done]|].
  set (capacity := grow_capacity _ _ _ _).
  assert (Hc : Z.of_nat (w_offset w + n) <= capacity <= w_maxByteLength w).
  { apply grow_capacity_spec; lia. }
  clearbody capacity.
  assert (Hl : length (set_at (replicate (Z.to_nat capacity) 0) (w_buffer w) 0) = Z.to_nat capacity).
  { rewrite set_at_length; rewrite length_replicate; lia. }
  split; [constructor; simpl; lia|]. split; [|split; simpl; [done|lia]].
  unfold finish, set_at; simpl. rewrite take_app_le by lia. done.
Qed.

Lemma put_spec w bytes :
  writer_ok w -> (w_offset w + length bytes <= length (w_buffer w))%nat ->
  writer_ok (put w bytes) /\ finish (put w bytes) = finish w ++ bytes.
Proof.
  intros [] Hfit. split.
  - constructor; simpl; rewrite ?set_at_length; lia.
  - unfold finish, put, set_at; simpl. rewrite app_assoc, take_app_le, take_ge; [done|..];
      rewrite length_app, length_take; lia.
Qed.

(** The shape of every primitive write. *)
Lemma writes_put bytes (f : CborWriter -> Result CborFailure CborWriter) :
  (forall w, f w = let* w := ensureCapacity w (length bytes) in Ok (put w bytes)) -> writes f bytes.
Proof.
  intros Hf w Hw. rewrite Hf. pose proof (ensureCapacity_spec w (length bytes) Hw) as He.
  destruct (ensureCapacity w (length bytes)) as [w1|e]; simpl.
  - destruct He as (Hw1 & Hfin & Hmax & Hfit). destruct (put_spec w1 bytes Hw1 Hfit) as [Hw2 H2].
    rewrite H2, Hfin. done.
  - by rewrite length_app, finish_length.
Qed.

Lemma writes_seq f g a b :
  writes f a -> writes g b -> writes (fun w => let* w := f w in g w) (a ++ b).
Proof.
  intros Hf Hg w Hw. pose proof (Hf w Hw) as H1. destruct (f w) as [w1|e]; simpl.
  - destruct H1 as (Hw1 & Hfin & Hmax). pose proof (Hg w1 Hw1) as H2. rewrite Hfin, Hmax in H2.
    rewrite (app_assoc (finish w)). exact H2.
  - destruct H1 as [-> H1]. split; [done|]. rewrite !length_app in *. lia.
Qed.

Lemma writeByte_writes v : writes (writeByte v) [uint8 v].
Proof. by apply writes_put. Qed.
Lemma writeBytes_writes bytes : writes (writeBytes bytes) bytes.
Proof. by apply writes_put. Qed.
Lemma writeUint16_writes v : writes (writeUint16 v) [uint8 (ushr v 8); uint8 v].
Proof. by apply writes_put. Qed.
Lemma writeUint32_writes v :
  writes (writeUint32 v) [uint8 (ushr v 24); uint8 (ushr v 16); uint8 (ushr v 8); uint8 v].
Proof. by apply writes_put. Qed.
Lemma writeFloat64_writes n : writes (writeFloat64 n) (0xfb :: be_bytes 8 (float64_bits n)).
Proof. by apply writes_put. Qed.

(** ** Arguments *)

Definition uint32_bytes (v : Z) : list Z := [uint8 (ushr v 24); uint8 (ushr v 16); uint8 (ushr v 8); uint8 v].

(** The bytes [writeArgument] emits. *)
Definition argument_bytes (majorType value : Z) : list Z :=
  let head info := uint8 (Z.lor (Z.shiftl majorType 5) info) in
  if value <? 24 then [head value]
  else if value <=? 0xff then head 24 :: [uint8 value]
  else if value <=? 0xffff then head 25 :: [uint8 (ushr value 8); uint8 value]
  else if value <=? MAX_UINT32 then head 26 :: uint32_bytes value
  else head 27 :: uint32_bytes (value / UINT32_BASE) ++ uint32_bytes (value - value / UINT32_BASE * UINT32_BASE).

Lemma writeArgument_writes majorType value : writes (writeArgument majorType value) (argument_bytes majorType value).
Proof.
  unfold writeArgument, argument_bytes. repeat case_match.
  - apply writeByte_writes.
  - apply (writes_seq _ _ [_]); apply writeByte_writes.
  - apply (writes_seq _ _ [_]); [apply writeByte_writes|apply writeUint16_writes].
  - apply (writes_seq _ _ [_]); [apply writeByte_writes|apply writeUint32_writes].
  - apply (writes_seq _ _ [_]); [apply writeByte_writes|].
    apply (writes_seq _ _ (uint32_bytes _)); apply writeUint32_writes.
Qed.

(** The initial byte carries the major type and the additional information. *)
Lemma initial_byte majorType info :
  0 <= majorType < 8 -> 0 <= info < 32 ->
  let b := uint8 (Z.lor (Z.shiftl majorType 5) info) in ushr b 5 = majorType /\ Z.land b 0x1f = info.
Proof.
  intros Hm Hi.
  assert (Hall : forallb (fun m => forallb (fun i =>
            let b := uint8 (Z.lor (Z.shiftl (Z.of_nat m) 5) (Z.of_nat i)) in
            (ushr b 5 =? Z.of_nat m) && (Z.land b 0x1f =? Z.of_nat i)) (seq 0 32)) (seq 0 8) = true)
    by (vm_compute; reflexivity).
  rewrite forallb_forall in Hall. specialize (Hall (Z.to_nat majorType)).
  rewrite forallb_forall in Hall.
  assert (H : In (Z.to_nat majorType) (seq 0 8)) by (apply in_seq; lia). specialize (Hall H (Z.to_nat info)).
  assert (H' : In (Z.to_nat info) (seq 0 32)) by (apply in_seq; lia). specialize (Hall H').
  rewrite !Z2Nat.id in Hall by lia. apply andb_prop in Hall as [?%Z.eqb_eq ?%Z.eqb_eq]. done.
Qed.

Lemma readBytes_app n a rest : n = Z.of_nat (length a) -> readBytes n (a ++ rest) = Ok (a, rest).
Proof.
  intros ->. unfold readBytes. rewrite length_app.
  destruct (Z.ltb_spec (Z.of_nat (length a + length rest)) (Z.of_nat (length a))); [lia|].
  by rewrite Nat2Z.id, take_app_length, drop_app_length.
Qed.

Lemma readArgument_26_bytes v rest :
  0 <= v <= MAX_UINT32 -> readArgument_26 (uint32_bytes v ++ rest) = Ok (v, rest).
Proof.
  intros Hv. unfold MAX_UINT32 in Hv. unfold readArgument_26. rewrite (readBytes_app 4) by done. simpl.
  f_equal. f_equal. unfold byte_at. simpl. unfold uint8, ushr, UINT32_BASE.
  rewrite (Z.mod_small v 0x100000000) by lia.
  change (2 ^ 8) with 256. change (2 ^ 16) with (256 * 256). change (2 ^ 24) with (256 * 256 * 256).
  rewrite <- !Z.div_div by lia.
  assert (H1 := Z.div_mod v 256). assert (H2 := Z.div_mod (v / 256) 256).
  assert (H3 := Z.div_mod (v / 256 / 256) 256).
  assert (0 <= v / 256 / 256 / 256 < 256) by (Z.to_euclidean_division_equations; lia).
  rewrite (Z.mod_small (v / 256 / 256 / 256)) by done. lia.
Qed.

Lemma readArgument_bytes majorType value :
  0 <= majorType < 8 -> 0 <= value <= MAX_SAFE_INTEGER ->
  exists b bytes, argument_bytes majorType value = b :: bytes /\ ushr b 5 = majorType /\
    Z.land b 0x1f <> 31 /\ forall rest, readArgument (Z.land b 0x1f) (bytes ++ rest) = Ok (value, rest).
Proof.
  intros Hm Hv. unfold argument_bytes, readArgument. unfold MAX_SAFE_INTEGER in Hv. zpow.
  destruct (Z.ltb_spec value 24); [|destruct (Z.leb_spec value 0xff); [|destruct (Z.leb_spec value 0xffff);
    [|destruct (Z.leb_spec value MAX_UINT32)]]];
    (eexists _, _; split; [reflexivity|]).
  - destruct (initial_byte majorType value) as [Hb1 Hb2]; [lia..|]. rewrite Hb1, Hb2. split; [done|].
    split; [lia|]. intros rest. by replace (value <? 24) with true by lia.
  - destruct (initial_byte majorType 24) as [Hb1 Hb2]; [lia..|]. rewrite Hb1, Hb2. split; [done|].
    split; [lia|]. intros rest. simpl. unfold uint8. by rewrite Z.mod_small by lia.
  - destruct (initial_byte majorType 25) as [Hb1 Hb2]; [lia..|]. rewrite Hb1, Hb2. split; [done|].
    split; [lia|]. intros rest. cbn [Z.ltb Z.eqb Z.compare Pos.compare Pos.compare_cont Pos.eqb].
    rewrite (readBytes_app 2) by done. simpl. f_equal. f_equal. unfold byte_at. simpl.
    unfold uint8, ushr, UINT32_BASE. Z.to_euclidean_division_equations. lia.
  - destruct (initial_byte majorType 26) as [Hb1 Hb2]; [lia..|]. rewrite Hb1, Hb2. split; [done|].
    split; [lia|]. intros rest. apply readArgument_26_bytes. lia.
  - destruct (initial_byte majorType 27) as [Hb1 Hb2]; [lia..|]. rewrite Hb1, Hb2. split; [done|].
    split; [lia|]. intros rest. unfold MAX_UINT32 in *.
    assert (Hh : 0 <= value / UINT32_BASE <= 0x1fffff) by (unfold UINT32_BASE; Z.to_euclidean_division_equations; lia).
    assert (Hl : 0 <= value - value / UINT32_BASE * UINT32_BASE <= MAX_UINT32)
      by (unfold UINT32_BASE, MAX_UINT32; Z.to_euclidean_division_equations; lia).
    cbn [Z.ltb Z.eqb Z.compare Pos.compare Pos.compare_cont Pos.eqb]. rewrite <- app_assoc, readArgument_26_bytes by (unfold MAX_UINT32; lia). cbn [rbind].
    rewrite readArgument_26_bytes by done. cbn [rbind].
    replace (0x1fffff <? value / UINT32_BASE) with false by lia. f_equal. f_equal. lia.
Qed.

(** ** Values *)

(** The tree a value unfolds to; cyclic values unfold to none. *)
Definition visible (properties : list (jstring * jsvalue)) : list (jstring * jsvalue) :=
  List.filter (fun p => negb (is_undefined p.2)) (own_properties properties).

#[warnings="-register-all"]
Inductive denotes (h : heap) : jsvalue -> cbor -> Prop :=
| den_null : denotes h VNull CNull
| den_bool b : denotes h (VBool b) (CBool b)
| den_number n : denotes h (VNumber n) (CNumber n)
| den_text s : denotes h (VString s) (CText s)
| den_bytes l bytes : h l = OBytes bytes -> denotes h (VObject l) (CBytes bytes)
| den_array l vs ts : h l = OArray vs -> Forall2 (denotes h) vs ts -> denotes h (VObject l) (CArray ts)
| den_map l ps ts : h l = OPlain ps false ->
    Forall2 (fun p q => p.1 = q.1 /\ denotes h p.2 q.2) (visible ps) ts -> denotes h (VObject l) (CMap ts).

(** What the language guarantees of a heap: numbers are doubles and an object
    has no property twice. *)
Definition value_ok (v : jsvalue) : Prop := match v with VNumber n => is_double n | _ => True end.

Definition heap_ok (h : heap) : Prop :=
  forall l, match h l with
            | OArray vs => Forall value_ok vs
            | OPlain ps _ => Forall (fun p => value_ok p.2) ps /\ NoDup (map fst ps)
            | _ => True
            end.

Record options_ok (o : ResolvedCborOptions) : Prop := {
  oo_bytes : 0 <= maxByteLength o <= MAX_UINT32;
  oo_container : 0 <= maxContainerLength o <= MAX_UINT32;
  oo_depth : 0 <= maxDepth o <= MAX_CONFIGURED_DEPTH }.

Lemma resolveLimit_ok name value maximum z : resolveLimit name value maximum = Ok z -> 0 <= z <= maximum.
Proof.
  unfold resolveLimit. destruct (integer_value value) as [i|]; [|done].
  destruct (Z.ltb_spec i 0), (Z.ltb_spec maximum i), (safe i); simpl; intros [= <-]; lia.
Qed.

Lemma resolveOptions_ok options o : resolveOptions options = Ok o -> options_ok o.
Proof.
  unfold resolveOptions. intros H. inv_result. subst o.
  split; simpl; eapply resolveLimit_ok; eassumption.
Qed.

(** [w'] holds what [w] holds followed by [bytes]. *)
Definition emitted (w w' : CborWriter) (bytes : list Z) : Prop :=
  writer_ok w' /\ finish w' = finish w ++ bytes /\ w_maxByteLength w' = w_maxByteLength w.

Lemma writes_Ok f bytes w w' : writes f bytes -> writer_ok w -> f w = Ok w' -> emitted w w' bytes.
Proof. intros Hf Hw E. specialize (Hf w Hw). by rewrite E in Hf. Qed.

Lemma emitted_nil w : writer_ok w -> emitted w w [].
Proof. split; [done|]. by rewrite app_nil_r. Qed.

Lemma emitted_trans w w1 w2 a b : emitted w w1 a -> emitted w1 w2 b -> emitted w w2 (a ++ b).
Proof. intros (? & E1 & M1) (? & E2 & M2). split; [done|]. by rewrite E2, E1, <- app_assoc, M2. Qed.

Section Codec.
Context (o : ResolvedCborOptions) (Ho : options_ok o).

(** The dispatch of [readItem] on the major type, after its depth check. *)
Lemma readItem_cons fuel depth b input :
  depth <= maxDepth o ->
  readItem o (S fuel) depth (b :: input) =
  (let info := Z.land b 0x1f in
   if ushr b 5 =? 0 then
     let* (value, rest) := readArgument info input in Ok (CNumber (number_of_Z value), rest)
   else if ushr b 5 =? 1 then
     let* (argument, rest) := readArgument info input in
     if negb (safe (-1 - argument)) then Err (CborError (js "Decoded CBOR integer is outside the safe range"))
     else Ok (CNumber (number_of_Z (-1 - argument)), rest)
   else if ushr b 5 =? 2 then
     let* (n, rest) := readLength info (js "byte string") (maxByteLength o) input in
     let* (bytes, rest) := readBytes n rest in Ok (CBytes bytes, rest)
   else if ushr b 5 =? 3 then
     let* (n, rest) := readLength info (js "text string") (maxByteLength o) input in
     let* (bytes, rest) := readBytes n rest in
     match utf8_decode bytes with
     | Some s => Ok (CText s, rest)
     | None => Err (CborError (js "CBOR text string contains invalid UTF-8"))
     end
   else if ushr b 5 =? 4 then
     let* (n, rest) := readLength info (js "array") (maxContainerLength o) input in
     let* (result, rest) := times (Z.to_nat n) (read_element (readItem o fuel (depth + 1))) [] rest in Ok (CArray result, rest)
   else if ushr b 5 =? 5 then
     let* (n, rest) := readLength info (js "map") (maxContainerLength o) input in
     let* (result, rest) := times (Z.to_nat n) (read_property (readItem o fuel (depth + 1))) [] rest in Ok (CMap result, rest)
   else if ushr b 5 =? 6 then Err (CborError (js "CBOR tags are not supported"))
   else if ushr b 5 =? 7 then readSimple info input
   else Err (CborError (js "Malformed CBOR major type"))).
Proof. intros Hd. cbn [readItem]. by replace (maxDepth o <? depth) with false by lia. Qed.

(** [bytes] is read back as [t], whatever follows. *)
Definition reads (fuel : nat) (depth : Z) (bytes : list Z) (t : cbor) : Prop :=
  forall rest, readItem o fuel depth (bytes ++ rest) = Ok (t, rest).

Lemma readLength_bytes majorType v kind limit :
  0 <= majorType < 8 -> 0 <= v <= limit -> limit <= MAX_UINT32 ->
  exists b bytes, argument_bytes majorType v = b :: bytes /\ ushr b 5 = majorType /\
    forall rest, readLength (Z.land b 0x1f) kind limit (bytes ++ rest) = Ok (v, rest).
Proof.
  intros Hm Hv Hl. destruct (readArgument_bytes majorType v Hm) as (b & bytes & E & Hb & H31 & Hr).
  { unfold MAX_UINT32, MAX_SAFE_INTEGER in *. zpow. lia. }
  exists b, bytes. split; [done|]. split; [done|]. intros rest. unfold readLength.
  destruct (Z.eqb_spec (Z.land b 0x1f) 31); [done|]. rewrite Hr. simpl.
  by replace (limit <? v) with false by lia.
Qed.

Ltac major := cbn [Z.eqb Pos.eqb].

Lemma encodeText_reads s w w' :
  writer_ok w -> encodeText o s w = Ok w' ->
  exists bytes, emitted w w' bytes /\
    forall fuel depth, depth <= maxDepth o -> reads (S fuel) depth bytes (CText s).
Proof.
  intros Hw H. unfold encodeText in H.
  destruct (Z.ltb_spec (maxByteLength o) (Z.of_nat (length (utf8_encode s)))) as [|Hlen]; [done|].
  case_bool_decide as Hutf; [|done].
  assert (Hws := writes_seq _ _ _ _ (writeArgument_writes 3 (Z.of_nat (length (utf8_encode s))))
                                    (writeBytes_writes (utf8_encode s))).
  exists (argument_bytes 3 (Z.of_nat (length (utf8_encode s))) ++ utf8_encode s).
  split; [by eapply writes_Ok|]. intros fuel depth Hd rest.
  destruct (readLength_bytes 3 (Z.of_nat (length (utf8_encode s))) (js "text string") (maxByteLength o))
    as (b & bytes & -> & Hb & Hr); [lia|lia|apply Ho|].
  simpl app. rewrite readItem_cons by done. rewrite Hb. major. cbv zeta.
  rewrite <- app_assoc, Hr. cbn [rbind]. rewrite readBytes_app by done. cbn [rbind]. by rewrite Hutf.
Qed.

Lemma encodeNumber_reads n w w' :
  is_double n -> writer_ok w -> encodeNumber n w = Ok w' ->
  exists bytes, emitted w w' bytes /\
    forall fuel depth, depth <= maxDepth o -> reads (S fuel) depth bytes (CNumber n).
Proof.
  intros Hn Hw H. unfold encodeNumber in H. destruct (is_finite n) eqn:Hf; [|done]. simpl in H.
  assert (Hfloat : writeFloat64 n w = Ok w' -> (forall z, integer_value n = Some z -> safe z = true) ->
    exists bytes, emitted w w' bytes /\
      forall fuel depth, depth <= maxDepth o -> reads (S fuel) depth bytes (CNumber n)).
  { intros HF Hsafe. eexists. split; [eapply writes_Ok; [apply writeFloat64_writes|done|done]|].
    intros fuel depth Hd rest. rewrite <- app_comm_cons, readItem_cons by done.
    replace (ushr 0xfb 5) with 7 by reflexivity. replace (Z.land 0xfb 0x1f) with 27 by reflexivity. major. cbv zeta.
    unfold readSimple. major. rewrite readBytes_app by (by rewrite be_bytes_length). cbn [rbind].
    rewrite float64_roundtrip by done. rewrite Hf. simpl.
    destruct (integer_value n) as [z|]; [|done]. by rewrite (Hsafe z eq_refl). }
  destruct (integer_value n) as [z|] eqn:Hi; [|by apply Hfloat].
  case_bool_decide as Hz; [apply Hfloat; [done|]; intros z' [= <-]; subst n; injection Hi as <-; done|].
  destruct (safe z) eqn:Hs; [|done]. simpl in H.
  pose proof (number_of_integer_value n z Hn Hi Hs Hz) as Hnum.
  assert (Hbound : - MAX_SAFE_INTEGER <= z <= MAX_SAFE_INTEGER) by (unfold safe in Hs; lia).
  destruct (Z.leb_spec 0 z).
  - eexists. split; [eapply writes_Ok; [apply writeArgument_writes|done|done]|]. intros fuel depth Hd rest.
    destruct (readArgument_bytes 0 z) as (b & bytes & -> & Hb & _ & Hr); [lia|lia|].
    simpl app. rewrite readItem_cons by done. rewrite Hb. major. cbv zeta. rewrite Hr. cbn [rbind]. by rewrite Hnum.
  - eexists. split; [eapply writes_Ok; [apply writeArgument_writes|done|done]|]. intros fuel depth Hd rest.
    destruct (readArgument_bytes 1 (-1 - z)) as (b & bytes & -> & Hb & _ & Hr); [lia|lia|].
    simpl app. rewrite readItem_cons by done. rewrite Hb. major. cbv zeta. rewrite Hr. cbn [rbind].
    replace (-1 - (-1 - z)) with z by lia. by rewrite Hs, Hnum.
Qed.

Lemma simple_reads byte t w w' :
  0 <= byte < 256 -> ushr byte 5 = 7 -> (forall rest, readSimple (Z.land byte 0x1f) rest = Ok (t, rest)) ->
  writer_ok w -> writeByte byte w = Ok w' ->
  exists bytes, emitted w w' bytes /\ forall fuel depth, depth <= maxDepth o -> reads (S fuel) depth bytes t.
Proof.
  intros Hb Hm Hr Hw H. exists [uint8 byte]. split; [eapply writes_Ok; [apply writeByte_writes|done|done]|].
  intros fuel depth Hd rest. unfold uint8. rewrite Z.mod_small by done.
  simpl app. rewrite readItem_cons by done. rewrite Hm. major. cbv zeta. apply Hr.
Qed.

(** ** Containers *)

Section Elements.
Context (h : heap) (fuel : nat) (depth : Z).

(** The array loop, given that every element is read back. *)
Lemma elements_read (f : CborWriter -> jsvalue -> Result CborFailure CborWriter) :
  (forall v w w', writer_ok w -> value_ok v -> f w v = Ok w' ->
     exists t bytes, emitted w w' bytes /\ denotes h v t /\ reads fuel depth bytes t) ->
  forall vs w w', writer_ok w -> Forall value_ok vs -> rfold f w vs = Ok w' ->
  exists ts bytes, emitted w w' bytes /\ Forall2 (denotes h) vs ts /\
    forall acc rest, times (length vs) (read_element (readItem o fuel depth)) acc (bytes ++ rest) = Ok (acc ++ ts, rest).
Proof.
  intros Hf. induction vs as [|v vs IH]; intros w w' Hw Hok H; simpl in H.
  - injection H as <-. exists [], []. split; [by apply emitted_nil|]. split; [constructor|].
    intros acc rest. by rewrite app_nil_r.
  - apply Forall_cons in Hok as [Hv Hok]. inv_result.
    destruct (Hf v w a Hw Hv Ha) as (t & b1 & E1 & D1 & R1).
    destruct (IH a w' (proj1 E1) Hok H) as (ts & b2 & E2 & D2 & R2).
    exists (t :: ts), (b1 ++ b2). split; [by eapply emitted_trans|]. split; [by constructor|].
    intros acc rest. simpl. unfold read_element at 1. rewrite <- app_assoc, R1. cbn [rbind].
    rewrite R2. by rewrite <- app_assoc.
Qed.

(** The map loop, given that every value is read back. *)
Lemma properties_read (f : CborWriter -> jstring * jsvalue -> Result CborFailure CborWriter) :
  (forall p w w', writer_ok w -> value_ok p.2 -> f w p = Ok w' ->
     exists t b1 b2, emitted w w' (b1 ++ b2) /\ denotes h p.2 t /\
       reads fuel depth b1 (CText p.1) /\ reads fuel depth b2 t) ->
  forall ps w w', writer_ok w -> Forall (fun p => value_ok p.2) ps -> NoDup (map fst ps) -> rfold f w ps = Ok w' ->
  exists ts bytes, emitted w w' bytes /\ Forall2 (fun p q => p.1 = q.1 /\ denotes h p.2 q.2) ps ts /\
    forall acc rest, (forall k, k ∈ map fst ps -> map_has k acc = false) ->
      times (length ps) (read_property (readItem o fuel depth)) acc (bytes ++ rest) = Ok (acc ++ ts, rest).
Proof.
  intros Hf. induction ps as [|[k v] ps IH]; intros w w' Hw Hok Hnd H; simpl in H.
  - injection H as <-. exists [], []. split; [by apply emitted_nil|]. split; [constructor|].
    intros acc rest _. by rewrite app_nil_r.
  - apply Forall_cons in Hok as [Hv Hok]. simpl in Hnd. apply NoDup_cons in Hnd as [Hk Hnd]. inv_result.
    destruct (Hf (k, v) w a Hw Hv Ha) as (t & b1 & b2 & E1 & D1 & R1 & R2).
    destruct (IH a w' (proj1 E1) Hok Hnd H) as (ts & b3 & E2 & D2 & R3).
    exists ((k, t) :: ts), ((b1 ++ b2) ++ b3). split; [by eapply emitted_trans|]. split; [by constructor|].
    intros acc rest Hacc. simpl. unfold read_property at 1. rewrite <- !app_assoc, R1. cbn [rbind fst].
    assert (Hfresh : map_has k acc = false) by (apply Hacc; left).
    rewrite Hfresh, R2. cbn [rbind]. rewrite map_set_fresh by done. rewrite R3.
    + by rewrite <- app_assoc.
    + intros k' Hk'. rewrite <- map_set_fresh, map_has_set by done.
      rewrite Hacc by (by right). rewrite bool_decide_eq_false_2; [done|]. by intros ->.
Qed.
End Elements.

Lemma filter_partition {A} (p : A -> bool) l : List.filter p l ++ List.filter (fun x => negb (p x)) l ≡ₚ l.
Proof.
  induction l as [|x l IH]; simpl; [done|]. destruct (p x); simpl; [by rewrite IH|].
  by rewrite <- Permutation_middle, IH.
Qed.

Lemma own_properties_perm {A} (ps : list (jstring * A)) : own_properties ps ≡ₚ ps.
Proof. unfold own_properties. rewrite sort_by_perm. apply filter_partition. Qed.

Lemma filter_sublist {A} (p : A -> bool) l : sublist (List.filter p l) l.
Proof. induction l as [|x l IH]; simpl; [constructor|]. destruct (p x); by constructor. Qed.

Lemma visible_ok ps :
  Forall (fun p => value_ok p.2) ps -> NoDup (map fst ps) ->
  Forall (fun p => value_ok p.2) (visible ps) /\ NoDup (map fst (visible ps)).
Proof.
  intros Hok Hnd. split.
  - apply Forall_forall. intros p Hp. apply list_elem_of_In, filter_In in Hp as [Hp%list_elem_of_In _].
    rewrite own_properties_perm in Hp. by apply (Forall_forall (fun p : jstring * jsvalue => value_ok p.2) ps).
  - apply (sublist_NoDup _ (map fst (own_properties ps))).
    + by rewrite own_properties_perm.
    + change (sublist (fst <$> visible ps) (fst <$> own_properties ps)). apply fmap_sublist, filter_sublist.
Qed.

(** ** Encoding then decoding *)

Lemma bytes_reads fuel depth bytes :
  depth <= maxDepth o -> Z.of_nat (length bytes) <= maxByteLength o ->
  reads (S fuel) depth (argument_bytes 2 (Z.of_nat (length bytes)) ++ bytes) (CBytes bytes).
Proof.
  intros Hd Hl rest.
  destruct (readLength_bytes 2 (Z.of_nat (length bytes)) (js "byte string") (maxByteLength o))
    as (b & hd & -> & Hb & Hr); [lia|lia|apply Ho|].
  simpl app. rewrite readItem_cons by done. rewrite Hb. major. cbv zeta.
  rewrite <- app_assoc, Hr. cbn [rbind]. by rewrite readBytes_app.
Qed.

Lemma array_reads fuel depth n bytes ts :
  depth <= maxDepth o -> Z.of_nat n <= maxContainerLength o ->
  (forall rest, times n (read_element (readItem o fuel (depth + 1))) [] (bytes ++ rest) = Ok (ts, rest)) ->
  reads (S fuel) depth (argument_bytes 4 (Z.of_nat n) ++ bytes) (CArray ts).
Proof.
  intros Hd Hl R rest.
  destruct (readLength_bytes 4 (Z.of_nat n) (js "array") (maxContainerLength o))
    as (b & hd & -> & Hb & Hr); [lia|lia|apply Ho|].
  simpl app. rewrite readItem_cons by done. rewrite Hb. major. cbv zeta.
  rewrite <- app_assoc, Hr. cbn [rbind]. by rewrite Nat2Z.id, R.
Qed.

Lemma map_reads fuel depth n bytes ts :
  depth <= maxDepth o -> Z.of_nat n <= maxContainerLength o ->
  (forall rest, times n (read_property (readItem o fuel (depth + 1))) [] (bytes ++ rest) = Ok (ts, rest)) ->
  reads (S fuel) depth (argument_bytes 5 (Z.of_nat n) ++ bytes) (CMap ts).
Proof.
  intros Hd Hl R rest.
  destruct (readLength_bytes 5 (Z.of_nat n) (js "map") (maxContainerLength o))
    as (b & hd & -> & Hb & Hr); [lia|lia|apply Ho|].
  simpl app. rewrite readItem_cons by done. rewrite Hb. major. cbv zeta.
  rewrite <- app_assoc, Hr. cbn [rbind]. by rewrite Nat2Z.id, R.
Qed.

Lemma encodeValue_reads h fuel :
  heap_ok h -> forall v w w' depth ancestors,
  writer_ok w -> value_ok v -> encodeValue h o fuel w v depth ancestors = Ok w' ->
  exists t bytes, emitted w w' bytes /\ denotes h v t /\ reads fuel depth bytes t.
Proof.
  intros Hh. induction fuel as [|fuel IH]; intros v w w' depth anc Hw Hv H; cbn [encodeValue] in H;
    destruct (Z.ltb_spec (maxDepth o) depth) as [|Hd]; try done.
  assert (Hleaf : forall t, denotes h v t ->
    (exists bytes, emitted w w' bytes /\ forall fuel depth, depth <= maxDepth o -> reads (S fuel) depth bytes t) ->
    exists t bytes, emitted w w' bytes /\ denotes h v t /\ reads (S fuel) depth bytes t).
  { intros t Ht (bytes & E & R). exists t, bytes. split; [done|]. split; [done|by apply R]. }
  destruct v as [| |b|n|s|l|ty]; try done.
  - apply (Hleaf CNull); [constructor|]. by apply (simple_reads 0xf6).
  - apply (Hleaf (CBool b)); [constructor|]. apply (simple_reads (if b then 0xf5 else 0xf4)); by destruct b.
  - apply (Hleaf (CNumber n)); [constructor|]. by apply encodeNumber_reads.
  - apply (Hleaf (CText s)); [constructor|]. by apply encodeText_reads.
  - pose proof (Hh l) as Hl. destruct (h l) as [bytes|vs|ps sym|] eqn:El; [| | |done].
    + destruct (Z.ltb_spec (maxByteLength o) (Z.of_nat (length bytes))); [done|].
      assert (Hws := writes_seq _ _ _ _ (writeArgument_writes 2 (Z.of_nat (length bytes))) (writeBytes_writes bytes)).
      eexists _, _. split; [by eapply writes_Ok|]. split; [by constructor|by apply bytes_reads].
    + case_bool_decide; [done|]. destruct (Z.ltb_spec (maxContainerLength o) (Z.of_nat (length vs))); [done|].
      inv_result. assert (E1 := writes_Ok _ _ _ _ (writeArgument_writes 4 _) Hw Ha).
      eapply (elements_read h fuel (depth + 1)) in H as (ts & b2 & E2 & D2 & R2); [| |apply E1|done].
      * eexists _, _. split; [by eapply emitted_trans|]. split; [by econstructor|].
        apply array_reads; [done|done|]. intros rest. apply R2.
      * intros v w1 w2 Hw1 Hv1 Hx. simpl in Hx. destruct (is_undefined v); [done|]. by eapply IH.
    + case_bool_decide; [done|]. destruct sym; [done|]. fold (visible ps) in H.
      destruct (Z.ltb_spec (maxContainerLength o) (Z.of_nat (length (visible ps)))); [done|].
      destruct (visible_ok ps) as [Hvok Hvnd]; [apply Hl..|].
      inv_result. assert (E1 := writes_Ok _ _ _ _ (writeArgument_writes 5 _) Hw Ha).
      eapply (properties_read h fuel (depth + 1)) in H as (ts & b2 & E2 & D2 & R2); [| |apply E1|done|done].
      * eexists _, _. split; [by eapply emitted_trans|]. split; [by econstructor|].
        apply map_reads; [done|done|]. intros rest. by apply R2.
      * intros [k v] w1 w2 Hw1 Hv1 Hx. cbn beta in Hx. inv_result.
        destruct (encodeText_reads k w1 a0 Hw1 Ha0) as (b1 & Et & Rt).
        destruct (IH v a0 w2 _ _ (proj1 Et) Hv1 Hx) as (t & b3 & Ev & Dv & Rv).
        exists t, b1, b3. split; [by eapply emitted_trans|]. split; [done|]. split; [|done].
        destruct fuel; cbn [encodeValue] in Hx; destruct (Z.ltb_spec (maxDepth o) (depth + 1)); try done.
        by apply Rt.
Qed.
End Codec.
