(* ===== verification/CborProperties.v ===== *)
(** * Properties of the CBOR codec

    Round trip, rejection of cyclic values and of unpaired surrogates,
    resource bounds on decoded values, and sufficiency of the recursion
    bound. *)

From stdpp Require Import base list gmap strings pretty sorting relations.
From Stdlib Require Import ZArith Lia.
From S2P Require Import Prelude Utf8 Numbers Cbor CborCodec.
Open Scope Z_scope.

(** ** Encoding *)

Lemma new_CborWriter_ok max : 0 <= max -> writer_ok (new_CborWriter max).
Proof. intros. constructor; simpl; rewrite ?length_replicate; lia. Qed.

Lemma encodeCbor_reads h v options bytes :
  heap_ok h -> value_ok v -> encodeCbor h v options = Ok bytes ->
  exists o t, resolveOptions options = Ok o /\ denotes h v t /\ reads o (depth_fuel o 0) 0 bytes t /\
    Z.of_nat (length bytes) <= maxByteLength o.
Proof.
  intros Hh Hv H. unfold encodeCbor in H. inv_result.
  pose proof (resolveOptions_ok _ _ Ha) as Ho.
  apply (encodeValue_reads a Ho h _ Hh) in Ha0 as (t & bs & (Hw & Hfin & Hmax) & D & R);
    [|apply new_CborWriter_ok, Ho|done].
  exists a, t. unfold finish at 2 in Hfin. simpl in Hfin. subst bytes. rewrite Hfin.
  split; [done|]. split; [done|]. split; [done|].
  rewrite <- Hfin, (finish_length _ Hw). destruct Hw. simpl in Hmax. lia.
Qed.

(** ** Cycles *)

(** [v'] is an element or a visible property of [v]. *)
Inductive child (h : heap) : jsvalue -> jsvalue -> Prop :=
| child_element l vs v : h l = OArray vs -> v ∈ vs -> child h (VObject l) v
| child_property l ps k v : h l = OPlain ps false -> (k, v) ∈ visible ps -> child h (VObject l) v.

Fixpoint nodes (t : cbor) : nat :=
  match t with
  | CArray ts => S (sum_list_with nodes ts)
  | CMap ps => S (sum_list_with (fun p => S (nodes p.2)) ps)
  | _ => 1
  end.

Lemma sum_list_with_elem {A} (f : A -> nat) x l : x ∈ l -> (f x <= sum_list_with f l)%nat.
Proof. induction 1; simpl; lia. Qed.

Lemma denotes_child h v v' t : denotes h v t -> child h v v' -> exists t', denotes h v' t' /\ (nodes t' < nodes t)%nat.
Proof.
  intros D C. destruct C as [l vs v' Hl Hin|l ps k v' Hl Hin]; inversion D as [| | | |? ? E|? ? ts E HF|? ? ts E HF]; subst;
    rewrite Hl in E; simplify_eq.
  - apply list_elem_of_lookup in Hin as [i Hi].
    destruct (Forall2_lookup_l _ _ _ _ _ HF Hi) as (t' & Ht' & Dt'). exists t'. split; [done|]. simpl.
    assert (H := sum_list_with_elem nodes t' ts (list_elem_of_lookup_2 _ _ _ Ht')). lia.
  - apply list_elem_of_lookup in Hin as [i Hi].
    destruct (Forall2_lookup_l _ _ _ _ _ HF Hi) as ([k' t'] & Ht' & _ & Dt'). exists t'. split; [done|]. simpl.
    assert (H := sum_list_with_elem (fun p => S (nodes p.2)) (k', t') ts (list_elem_of_lookup_2 _ _ _ Ht')).
    simpl in H. lia.
Qed.

Lemma denotes_descendant h v v' t :
  tc (child h) v v' -> denotes h v t -> exists t', denotes h v' t' /\ (nodes t' < nodes t)%nat.
Proof.
  intros C. revert t. induction C as [v v' C|v v1 v' C _ IH]; intros t D; [by eapply denotes_child|].
  destruct (denotes_child _ _ _ _ D C) as (t1 & D1 & L1). destruct (IH _ D1) as (t2 & D2 & L2).
  exists t2. split; [done|lia].
Qed.

Lemma ancestor_ok h v v' : tc (child h) v v' -> value_ok v.
Proof. by intros [? ? []|? ? ? []]. Qed.

Lemma denotes_acyclic h v t : tc (child h) v v -> ~ denotes h v t.
Proof.
  intros C. remember (nodes t) as n eqn:En. revert t En. induction (lt_wf n) as [n _ IH]; intros t -> D.
  destruct (denotes_descendant _ _ _ _ C D) as (t' & D' & L). by apply (IH (nodes t') L t').
Qed.

(** ** Decoding *)

(** Every part of a decoded tree respects the options. *)
#[warnings="-register-all"]
Inductive within (o : ResolvedCborOptions) (depth : Z) : cbor -> Prop :=
| in_null : depth <= maxDepth o -> within o depth CNull
| in_bool b : depth <= maxDepth o -> within o depth (CBool b)
| in_number n : depth <= maxDepth o -> is_finite n = true ->
    (forall z, integer_value n = Some z -> safe z = true) -> within o depth (CNumber n)
| in_text s : depth <= maxDepth o ->
    (exists bytes, utf8_decode bytes = Some s /\ Z.of_nat (length bytes) <= maxByteLength o) -> within o depth (CText s)
| in_bytes bytes : depth <= maxDepth o -> Z.of_nat (length bytes) <= maxByteLength o -> within o depth (CBytes bytes)
| in_array ts : depth <= maxDepth o -> Z.of_nat (length ts) <= maxContainerLength o ->
    Forall (within o (depth + 1)) ts -> within o depth (CArray ts)
| in_map ps : depth <= maxDepth o -> Z.of_nat (length ps) <= maxContainerLength o ->
    NoDup (map fst ps) -> Forall (fun p => within o (depth + 1) p.2) ps -> within o depth (CMap ps).

Lemma integer_value_number_of_Z z : safe z = true -> integer_value (number_of_Z z) = Some z.
Proof.
  unfold safe, MAX_SAFE_INTEGER. intros Hz%Z.leb_le.
  assert (Hpos : forall p s, Z.pos p <= 2 ^ 53 - 1 ->
    integer_value (S754_finite s (Z.to_pos (Z.pos p * 2 ^ (52 - Z.log2 (Z.pos p)))) (Z.log2 (Z.pos p) - 52))
      = Some (cond_neg s (Z.pos p))).
  { intros p s Hp. set (k := 52 - Z.log2 (Z.pos p)).
    assert (Hk : 0 <= k).
    { assert (Z.log2 (Z.pos p) < 53) by (apply Z.log2_lt_pow2; lia). lia. }
    replace (Z.log2 (Z.pos p) - 52) with (- k) by lia. clearbody k.
    assert (Hpow : 0 < 2 ^ k) by (apply Z.pow_pos_nonneg; lia).
    unfold integer_value. rewrite Z2Pos.id by lia.
    destruct (Z.leb_spec 0 (- k)); [replace k with 0 by lia; rewrite !Z.mul_1_r; done|].
    rewrite Z.opp_involutive, Z.mod_mul, Z.div_mul by lia. done. }
  destruct z as [|p|p]; [done|..]; unfold number_of_Z; rewrite Hpos by lia; done.
Qed.

Lemma number_of_Z_finite z : is_finite (number_of_Z z) = true.
Proof. by destruct z. Qed.

Section Decoding.
Context (o : ResolvedCborOptions).

Lemma readByte_inv input b rest : readByte input = Ok (b, rest) -> input = b :: rest.
Proof. destruct input; [done|]. by intros [= <- <-]. Qed.

Lemma readBytes_inv n input bytes rest :
  0 <= n -> readBytes n input = Ok (bytes, rest) -> input = bytes ++ rest /\ Z.of_nat (length bytes) = n.
Proof.
  intros Hn. unfold readBytes. destruct (Z.ltb_spec (Z.of_nat (length input)) n); [done|]. intros [= <- <-].
  rewrite take_drop, length_take. split; [done|lia].
Qed.

Lemma byte_at_bound bytes i : Forall byte bytes -> 0 <= byte_at bytes i < 256.
Proof.
  intros Hb. unfold byte_at. destruct (bytes !! i) as [b|] eqn:E; simpl; [|lia].
  apply (Forall_lookup_1 _ _ _ _ Hb E).
Qed.

Lemma readArgument_26_inv input v rest :
  Forall byte input -> readArgument_26 input = Ok (v, rest) ->
  0 <= v <= MAX_UINT32 /\ Forall byte rest /\ (length rest <= length input)%nat.
Proof.
  intros Hb H. unfold readArgument_26 in H. inv_result. destruct a as [bytes r]. injection H as <- <-.
  apply readBytes_inv in Ha as [-> _]; [|lia]. apply Forall_app in Hb as [Hb1 Hb2].
  assert (H0 := byte_at_bound bytes 0 Hb1). assert (H1 := byte_at_bound bytes 1 Hb1).
  assert (H2 := byte_at_bound bytes 2 Hb1). assert (H3 := byte_at_bound bytes 3 Hb1).
  split; [unfold MAX_UINT32; lia|]. split; [done|]. rewrite length_app. lia.
Qed.

Lemma readArgument_inv info input v rest :
  0 <= info -> Forall byte input -> readArgument info input = Ok (v, rest) ->
  0 <= v <= MAX_SAFE_INTEGER /\ Forall byte rest /\ (length rest <= length input)%nat.
Proof.
  intros Hi Hb H. unfold readArgument, MAX_SAFE_INTEGER in *. zpow.
  destruct (Z.ltb_spec info 24); [injection H as <- <-; repeat split; lia || done|].
  destruct (info =? 24).
  { apply readByte_inv in H as ->. apply Forall_cons in Hb as [Hb Hr]. unfold byte in Hb. simpl. repeat split; lia || done. }
  destruct (info =? 25).
  { inv_result. destruct a as [bytes r]. injection H as <- <-. apply readBytes_inv in Ha as [-> _]; [|lia].
    apply Forall_app in Hb as [Hb1 Hb2]. assert (H1 := byte_at_bound bytes 0 Hb1).
    assert (H2 := byte_at_bound bytes 1 Hb1). rewrite length_app. repeat split; lia || done. }
  destruct (info =? 26).
  { apply readArgument_26_inv in H as (? & ? & ?); [|done]. unfold MAX_UINT32 in *. repeat split; lia || done. }
  destruct (info =? 27).
  { inv_result. destruct a as [high r1]. cbn beta iota in H. inv_result. destruct a as [low r2]. cbn beta iota in H.
    destruct (Z.ltb_spec 0x1fffff high); [done|]. injection H as <- <-.
    apply readArgument_26_inv in Ha as (? & ? & ?); [|done]. apply readArgument_26_inv in Ha0 as (? & ? & ?); [|done].
    unfold MAX_UINT32, UINT32_BASE in *. repeat split; lia || done. }
  by destruct (info =? 31).
Qed.

Lemma readLength_inv info kind limit input n rest :
  0 <= info -> Forall byte input -> readLength info kind limit input = Ok (n, rest) ->
  0 <= n <= limit /\ Forall byte rest /\ (length rest <= length input)%nat.
Proof.
  intros Hi Hb H. unfold readLength in H. destruct (info =? 31); [done|]. inv_result. destruct a as [v r].
  cbn beta iota in H. destruct (Z.ltb_spec limit v); [done|]. injection H as <- <-.
  apply readArgument_inv in Ha as (? & ? & ?); [|done..]. repeat split; lia || done.
Qed.

Lemma times_inv {S} (P : nat -> S -> list Z -> Prop) body n k s i s' i' :
  (forall k s i s' i', P k s i -> body s i = Ok (s', i') -> P (Datatypes.S k) s' i') ->
  P k s i -> times n body s i = Ok (s', i') -> P (k + n)%nat s' i'.
Proof.
  intros Hb. revert k s i. induction n as [|n IH]; intros k s i HP H; simpl in H.
  - injection H as <- <-. by rewrite Nat.add_0_r.
  - inv_result. destruct a as [s1 i1]. rewrite <- Nat.add_succ_comm. eapply IH; [|exact H]. by eapply Hb.
Qed.

(** What reading an item guarantees: the result respects the options, and each
    of its nodes used up a byte. *)
Definition item_ok (depth : Z) (input : list Z) (t : cbor) (rest : list Z) : Prop :=
  within o depth t /\ Forall byte rest /\ (length rest + nodes t <= length input)%nat.

Lemma sum_list_with_snoc {A} (f : A -> nat) l x : sum_list_with f (l ++ [x]) = (sum_list_with f l + f x)%nat.
Proof. rewrite sum_list_with_app. simpl. lia. Qed.

Lemma elements_ok (read : list Z -> Result CborFailure (cbor * list Z)) depth n input ts rest :
  (forall input t rest, Forall byte input -> read input = Ok (t, rest) -> item_ok depth input t rest) ->
  Forall byte input -> times n (read_element read) [] input = Ok (ts, rest) ->
  length ts = n /\ Forall (within o depth) ts /\ Forall byte rest /\
  (length rest + sum_list_with nodes ts <= length input)%nat.
Proof.
  intros Hr Hb H.
  apply (times_inv (fun k ts i => length ts = k /\ Forall (within o depth) ts /\ Forall byte i /\
           (length i + sum_list_with nodes ts <= length input)%nat)) with (k := 0%nat) in H; [exact H| |].
  - intros k acc i acc' i' (Hk & Hacc & Hi & Hle) Hbody. unfold read_element in Hbody. inv_result.
    destruct a as [t r]. injection Hbody as <- <-. destruct (Hr _ _ _ Hi Ha) as (Hw & Hby & Hl).
    rewrite length_app, sum_list_with_snoc. simpl. repeat split; [lia| |done|lia].
    apply Forall_app. split; [done|by constructor].
  - simpl. repeat split; [constructor|done|lia].
Qed.

Lemma properties_ok (read : list Z -> Result CborFailure (cbor * list Z)) depth n input ts rest :
  (forall input t rest, Forall byte input -> read input = Ok (t, rest) -> item_ok depth input t rest) ->
  Forall byte input -> times n (read_property read) [] input = Ok (ts, rest) ->
  length ts = n /\ NoDup (map fst ts) /\ Forall (fun p => within o depth p.2) ts /\ Forall byte rest /\
  (length rest + sum_list_with (fun p => S (nodes p.2)) ts <= length input)%nat.
Proof.
  intros Hr Hb H.
  apply (times_inv (fun k ts i => length ts = k /\ NoDup (map fst ts) /\ Forall (fun p => within o depth p.2) ts /\
           Forall byte i /\ (length i + sum_list_with (fun p => S (nodes p.2)) ts <= length input)%nat))
    with (k := 0%nat) in H; [exact H| |].
  - intros k acc i acc' i' (Hk & Hnd & Hacc & Hi & Hle) Hbody. unfold read_property in Hbody. inv_result.
    destruct a as [key r]. destruct (Hr _ _ _ Hi Ha) as (_ & Hby & Hl1). destruct key as [| | |key| | |]; try done.
    destruct (map_has key acc) eqn:Hfresh; [done|]. inv_result. destruct a as [v r2]. injection Hbody as <- <-.
    destruct (Hr _ _ _ Hby Ha0) as (Hw & Hby2 & Hl2). rewrite map_set_fresh by done.
    rewrite length_app, sum_list_with_snoc. simpl in *. repeat split; [lia| | |done|lia].
    + rewrite map_app. apply NoDup_app. split; [done|]. split; [|apply NoDup_singleton].
      intros x Hx ->%list_elem_of_singleton. apply map_has_keys in Hx. unfold map_keys in *. simpl in *. congruence.
    + apply Forall_app. split; [done|by constructor].
  - simpl. repeat split; [constructor|constructor|done|lia].
Qed.

Lemma readSimple_ok info depth input t rest :
  depth <= maxDepth o -> Forall byte input -> readSimple info input = Ok (t, rest) ->
  within o depth t /\ Forall byte rest /\ (length rest <= length input)%nat /\ nodes t = 1%nat.
Proof.
  intros Hd Hb H. unfold readSimple in H.
  destruct (info =? 20); [injection H as <- <-; repeat split; [by constructor|done|lia]|].
  destruct (info =? 21); [injection H as <- <-; repeat split; [by constructor|done|lia]|].
  destruct (info =? 22); [injection H as <- <-; repeat split; [by constructor|done|lia]|].
  destruct (info =? 27); [|by destruct (info =? 31)].
  inv_result. destruct a as [bytes r]. apply readBytes_inv in Ha as [-> _]; [|lia].
  apply Forall_app in Hb as [_ Hb]. cbn beta iota zeta in H. rewrite length_app.
  destruct (is_finite (float64_of_bits (of_be bytes))) eqn:Hf; [|done]. simpl in H.
  destruct (integer_value (float64_of_bits (of_be bytes))) as [z|] eqn:Hi.
  - destruct (safe z) eqn:Hs; [|done]. injection H as <- <-. repeat split; [|done|lia].
    constructor; [done|done|]. intros z'. rewrite Hi. by intros [= <-].
  - injection H as <- <-. repeat split; [|done|lia]. constructor; [done|done|]. by rewrite Hi.
Qed.

Lemma within_integer depth z : depth <= maxDepth o -> safe z = true -> within o depth (CNumber (number_of_Z z)).
Proof.
  intros Hd Hs. constructor; [done|apply number_of_Z_finite|]. rewrite integer_value_number_of_Z by done.
  by intros z' [= <-].
Qed.

Lemma readItem_ok fuel : forall depth input t rest,
  Forall byte input -> readItem o fuel depth input = Ok (t, rest) -> item_ok depth input t rest.
Proof.
  induction fuel as [|fuel IH]; intros depth input t rest Hb H;
    [cbn [readItem] in H; by destruct (maxDepth o <? depth)|].
  destruct (decide (maxDepth o < depth)) as [Hlt|Hd];
    [cbn [readItem] in H; by replace (maxDepth o <? depth) with true in H by lia|].
  assert (Hd' : depth <= maxDepth o) by lia.
  destruct input as [|b input]; [cbn [readItem] in H; by replace (maxDepth o <? depth) with false in H by lia|].
  rewrite readItem_cons in H by done. cbv zeta in H. apply Forall_cons in Hb as [_ Hb].
  assert (Hi : 0 <= Z.land b 0x1f) by (apply Z.land_nonneg; lia).
  unfold item_ok. simpl length.
  destruct (ushr b 5 =? 0).
  { inv_result. destruct a as [v r]. injection H as <- <-. apply readArgument_inv in Ha as (Hv & Hr & Hl); [|done..].
    split; [apply within_integer; [done|unfold safe; lia]|]. simpl. split; [done|lia]. }
  destruct (ushr b 5 =? 1).
  { inv_result. destruct a as [v r]. cbn beta iota in H. destruct (safe (-1 - v)) eqn:Hs; [|done].
    injection H as <- <-. apply readArgument_inv in Ha as (Hv & Hr & Hl); [|done..].
    split; [by apply within_integer|]. simpl. split; [done|lia]. }
  destruct (ushr b 5 =? 2).
  { inv_result. destruct a as [n r]. cbn beta iota in H. inv_result. destruct a as [bytes r2]. injection H as <- <-.
    apply readLength_inv in Ha as (Hn & Hr & Hl); [|done..]. apply readBytes_inv in Ha0 as [-> Hlen]; [|lia].
    apply Forall_app in Hr as [_ Hr]. rewrite length_app in Hl. split; [constructor; lia|]. simpl. split; [done|lia]. }
  destruct (ushr b 5 =? 3).
  { inv_result. destruct a as [n r]. cbn beta iota in H. inv_result. destruct a as [bytes r2]. cbn beta iota in H.
    apply readLength_inv in Ha as (Hn & Hr & Hl); [|done..]. apply readBytes_inv in Ha0 as [-> Hlen]; [|lia].
    apply Forall_app in Hr as [_ Hr]. rewrite length_app in Hl.
    destruct (utf8_decode bytes) as [s|] eqn:Hu; [|done]. injection H as <- <-.
    split; [constructor; [done|]; exists bytes; split; [done|lia]|]. simpl. split; [done|lia]. }
  destruct (ushr b 5 =? 4).
  { inv_result. destruct a as [n r]. cbn beta iota in H. inv_result. destruct a as [ts r2]. injection H as <- <-.
    apply readLength_inv in Ha as (Hn & Hr & Hl); [|done..].
    apply (elements_ok _ (depth + 1)) in Ha0 as (Hlen & Hw & Hr2 & Hle); [|apply IH|done].
    split; [constructor; [done|lia|done]|]. simpl. split; [done|lia]. }
  destruct (ushr b 5 =? 5).
  { inv_result. destruct a as [n r]. cbn beta iota in H. inv_result. destruct a as [ts r2]. injection H as <- <-.
    apply readLength_inv in Ha as (Hn & Hr & Hl); [|done..].
    apply (properties_ok _ (depth + 1)) in Ha0 as (Hlen & Hnd & Hw & Hr2 & Hle); [|apply IH|done].
    split; [constructor; [done|lia|done|done]|]. simpl. split; [done|lia]. }
  destruct (ushr b 5 =? 6); [done|]. destruct (ushr b 5 =? 7); [|done].
  apply (readSimple_ok _ depth) in H as (Hw & Hr & Hl & Hn); [|done..]. split; [done|]. split; [done|lia].
Qed.
End Decoding.

(** ** The recursion bound *)

Lemma rfold_ext {E A S} (f g : S -> A -> Result E S) l s :
  (forall s x, f s x = g s x) -> rfold f s l = rfold g s l.
Proof. intros H. revert s; induction l as [|x l IH]; intros s; simpl; [done|]. rewrite H. destruct (g s x); simpl; auto. Qed.

Lemma times_ext {S} n (f g : S -> list Z -> Result CborFailure (S * list Z)) s i :
  (forall s i, f s i = g s i) -> times n f s i = times n g s i.
Proof.
  intros H. revert s i; induction n as [|n IH]; intros s i; simpl; [done|]. rewrite H.
  destruct (g s i) as [[s1 i1]|]; simpl; auto.
Qed.

Lemma encodeValue_fuel h o f1 : forall f2 w v depth anc,
  (depth_fuel o depth <= f1)%nat -> (depth_fuel o depth <= f2)%nat ->
  encodeValue h o f1 w v depth anc = encodeValue h o f2 w v depth anc.
Proof.
  unfold depth_fuel. induction f1 as [|f1 IH]; intros [|f2] w v depth anc H1 H2; cbn [encodeValue];
    destruct (Z.ltb_spec (maxDepth o) depth); try done; try lia.
  destruct v as [| | | | |l|]; try done. destruct (h l) as [|vs|ps sym|]; try done.
  - repeat case_match; try done. destruct (writeArgument _ _ w); simpl; [|done].
    apply rfold_ext. intros s x. destruct (is_undefined x); [done|]. apply IH; lia.
  - repeat case_match; try done. destruct (writeArgument _ _ w); simpl; [|done].
    apply rfold_ext. intros s x. destruct (encodeText o x.1 s); simpl; [|done]. apply IH; lia.
Qed.

Lemma readItem_fuel o f1 : forall f2 depth input,
  (depth_fuel o depth <= f1)%nat -> (depth_fuel o depth <= f2)%nat ->
  readItem o f1 depth input = readItem o f2 depth input.
Proof.
  unfold depth_fuel. induction f1 as [|f1 IH]; intros [|f2] depth input H1 H2; cbn [readItem];
    destruct (Z.ltb_spec (maxDepth o) depth); try done; try lia.
  destruct (readByte input) as [[b rest]|]; cbn [rbind]; [|done].
  assert (Hext : forall input, readItem o f1 (depth + 1) input = readItem o f2 (depth + 1) input) by (intros; apply IH; lia).
  repeat (match goal with |- context[if ?c =? ?k then _ else _] => destruct (c =? k) end; try done).
  - destruct (readLength _ _ _ _) as [[n r]|]; cbn [rbind]; [|done].
    erewrite times_ext; [reflexivity|]. intros s i. unfold read_element. by rewrite Hext.
  - destruct (readLength _ _ _ _) as [[n r]|]; cbn [rbind]; [|done].
    erewrite times_ext; [reflexivity|]. intros s i. unfold read_property. rewrite Hext.
    destruct (readItem o f2 (depth + 1) i) as [[key r2]|]; cbn [rbind]; [|done]. destruct key; try done. by rewrite Hext.
Qed.

(** ** Claims *)

(** C37: decoding what encodeCbor produced, with the same options, returns the
    tree the value unfolds to: same scalars bit for bit, same arrays, same
    visible properties in Object.keys order, shared objects copied. *)
Theorem cbor_roundtrip (h : heap) (v : jsvalue) (options : option CborOptions) (bytes : list Z)
    (Hh : heap_ok h) (Hv : value_ok v) (He : encodeCbor h v options = Ok bytes) :
  exists t, denotes h v t /\ decodeCbor bytes options = Ok t.
Proof.
  destruct (encodeCbor_reads h v options bytes Hh Hv He) as (o & t & Ho & D & R & Hlen).
  exists t. split; [done|]. unfold decodeCbor. rewrite Ho. simpl.
  replace (maxByteLength o <? Z.of_nat (length bytes)) with false by lia.
  unfold decode. specialize (R []). rewrite app_nil_r in R. by rewrite R.
Qed.

(** C38: whatever bytes arrive, a decoded value respects the configured depth,
    container and string limits, holds only finite and, when integral, safe
    numbers, has no duplicate key, and has no more nodes than the input has
    bytes. *)
Theorem cbor_decode_bounded (bytes : list Z) (options : option CborOptions) (t : cbor)
    (Hb : Forall byte bytes) (Hd : decodeCbor bytes options = Ok t) :
  exists o, resolveOptions options = Ok o /\ within o 0 t /\
    (nodes t <= length bytes)%nat /\ Z.of_nat (length bytes) <= maxByteLength o.
Proof.
  unfold decodeCbor in Hd. inv_result. exists a. split; [done|].
  destruct (Z.ltb_spec (maxByteLength a) (Z.of_nat (length bytes))); [done|].
  unfold decode in Hd. inv_result. destruct a0 as [v rest]. destruct rest; [|done]. injection Hd as <-.
  apply readItem_ok in Ha0 as (Hw & _ & Hl); [|done]. simpl in Hl. done.
Qed.

(** a value that reaches itself through array elements or visible
    properties is rejected instead of looping or being truncated. *)
Theorem cbor_cycles_rejected (h : heap) (v : jsvalue) (options : option CborOptions)
    (Hh : heap_ok h) (Hc : tc (child h) v v) :
  exists e, encodeCbor h v options = Err e.
Proof.
  destruct (encodeCbor h v options) as [bytes|e] eqn:He; [exfalso|by exists e].
  assert (Hv : value_ok v) by (by apply (ancestor_ok h v v)).
  destruct (encodeCbor_reads h v options bytes Hh Hv He) as (o & t & _ & D & _ & _).
  by apply (denotes_acyclic h v t).
Qed.

(** text that fits the byte limit is refused with the Unicode error
    exactly when it has an unpaired surrogate; well-formed text is refused only
    when the output limit is reached. *)
Theorem cbor_text_unicode (o : ResolvedCborOptions) (s : jstring) (w : CborWriter)
    (Hw : writer_ok w) (Hs : Forall code_unit s)
    (Hl : Z.of_nat (length (utf8_encode s)) <= maxByteLength o) :
  match encodeText o s w with
  | Ok w' => well_formed s = true /\
      finish w' = finish w ++ argument_bytes 3 (Z.of_nat (length (utf8_encode s))) ++ utf8_encode s
  | Err e => (well_formed s = false /\ e = CborError (js "CBOR text strings must contain valid Unicode scalar values")) \/
             (well_formed s = true /\ e = length_exceeded (w_maxByteLength w))
  end.
Proof.
  unfold encodeText. replace (maxByteLength o <? _) with false by lia.
  pose proof (utf8_roundtrip s Hs) as Hu. case_bool_decide as Hd.
  - apply Hu in Hd.
    pose proof (writes_seq _ _ _ _ (writeArgument_writes 3 (Z.of_nat (length (utf8_encode s))))
                                   (writeBytes_writes (utf8_encode s)) w Hw) as H.
    cbn beta in H. destruct (rbind (writeArgument _ _ w) _) as [w'|e]; [by destruct H as (_ & ? & _)|right; by destruct H].
  - left. split; [|done]. destruct (well_formed s); [by destruct Hd; apply Hu|done].
Qed.

(** the recursion bound of the model is exact: from any depth, any fuel
    that covers the remaining levels gives the same encoder and decoder
    results, so a run ends through the code's own depth check. *)
Theorem cbor_depth_fuel (o : ResolvedCborOptions) (fuel : nat) (depth : Z)
    (Hf : (depth_fuel o depth <= fuel)%nat) :
  (forall h w v anc, encodeValue h o fuel w v depth anc = encodeValue h o (depth_fuel o depth) w v depth anc) /\
  (forall input, readItem o fuel depth input = readItem o (depth_fuel o depth) depth input).
Proof. split; intros; [by apply encodeValue_fuel|by apply readItem_fuel]. Qed.

(** ** Witnesses *)

(** Location 1 shares location 2 twice; location 3 contains itself. *)
Definition ex_heap : heap := fun l =>
  match l with
  | 1%positive => OArray [VNumber (number_of_Z 300); VObject 2%positive; VObject 2%positive; VNumber (S754_zero true)]
  | 2%positive => OPlain [(js "b", VBool true); (js "10", VNull); (js "u", VUndefined); (js "2", VNumber (number_of_Z (-1)))] false
  | 3%positive => OArray [VNull; VObject 3%positive]
  | _ => OInstance
  end.

Lemma ex_heap_ok : heap_ok ex_heap.
Proof.
  assert (Hd : forall a b, Decision (a = b :> jstring)) by (intros; apply _).
  intros [l|l|]; [destruct l|destruct l|]; simpl; try done.
  - repeat constructor.
  - split; [repeat constructor; simpl; lia|]. apply (bool_decide_unpack _). vm_compute. exact I.
  - repeat constructor; simpl; lia.
Defined.

Definition ex_bytes : list Z :=
  match encodeCbor ex_heap (VObject 1%positive) None with Ok bytes => bytes | Err _ => [] end.

Lemma cbor_roundtrip_witness : length ex_bytes <> 0%nat /\
  exists t, denotes ex_heap (VObject 1%positive) t /\ decodeCbor ex_bytes None = Ok t.
Proof.
  split; [vm_compute; discriminate|].
  apply (cbor_roundtrip ex_heap (VObject 1%positive) None ex_bytes); [exact ex_heap_ok|exact I|vm_compute; reflexivity].
Defined.

Lemma cbor_decode_bounded_witness :
  exists o, resolveOptions None = Ok o /\ within o 0 (CArray [CBool true]) /\
    (nodes (CArray [CBool true]) <= length [0x81; 0xf5])%nat /\ Z.of_nat (length [0x81; 0xf5]) <= maxByteLength o.
Proof.
  apply (cbor_decode_bounded [0x81; 0xf5] None (CArray [CBool true])).
  - unfold byte. repeat constructor; simpl; lia.
  - vm_compute. reflexivity.
Defined.

Lemma cbor_cycles_rejected_witness : exists e, encodeCbor ex_heap (VObject 3%positive) None = Err e.
Proof.
  apply (cbor_cycles_rejected ex_heap (VObject 3%positive) None).
  - exact ex_heap_ok.
  - apply tc_once. apply (child_element ex_heap 3%positive [VNull; VObject 3%positive]); [reflexivity|]. right. left.
Defined.

Lemma cbor_text_unicode_witness :
  let o := {| maxByteLength := 100; maxContainerLength := 100; maxDepth := 4 |} in
  let s := [0x61; 0xD800] in
  let w := new_CborWriter 100 in
  match encodeText o s w with
  | Ok w' => well_formed s = true /\
      finish w' = finish w ++ argument_bytes 3 (Z.of_nat (length (utf8_encode s))) ++ utf8_encode s
  | Err e => (well_formed s = false /\ e = CborError (js "CBOR text strings must contain valid Unicode scalar values")) \/
             (well_formed s = true /\ e = length_exceeded (w_maxByteLength w))
  end.
Proof.
  intros o s w. apply (cbor_text_unicode o s w).
  - apply new_CborWriter_ok. lia.
  - unfold code_unit. repeat constructor; simpl; lia.
  - vm_compute. discriminate.
Defined.

Lemma cbor_depth_fuel_witness :
  let o := {| maxByteLength := 100; maxContainerLength := 100; maxDepth := 4 |} in
  (forall h w v anc, encodeValue h o 9 w v 1 anc = encodeValue h o (depth_fuel o 1) w v 1 anc) /\
  (forall input, readItem o 9 1 input = readItem o (depth_fuel o 1) 1 input).
Proof. intros o. apply (cbor_depth_fuel o 9 1). vm_compute. lia. Defined.
