(* ===== verification/Framing.v ===== *)
(** * Frame codec

    packages/protocol/src/framing.ts: payloads prefixed with a 32-bit
    big-endian length, and [FrameDecoder], which cuts frames out of byte chunks
    that arrive in arbitrary pieces.

    The decoder collects a payload in blocks of at most 64 KiB that are
    allocated before they are filled; [currentPayloadBlock] is always the last
    of [payloadBlocks], so the model keeps whether it is set.  A chunk is the
    list of its bytes from [chunkOffset] on.  The callback is modelled by the
    list of frames it receives, in order; a callback that throws or pushes into
    the same decoder is outside the model. *)

From stdpp Require Import base list gmap strings pretty.
From Stdlib Require Import ZArith Lia.
From S2P Require Import Prelude Utf8 Numbers Cbor.
Open Scope Z_scope.

Definition FRAME_HEADER_LENGTH : nat := 4.
Definition PAYLOAD_BLOCK_SIZE : Z := 64 * 1024.
Definition DEFAULT_MAX_FRAME_LENGTH : Z := 16 * 1024 * 1024.

Inductive FrameFailure := FrameError (message : jstring) | FrameRangeError (message : jstring).

(** [options] is [options?.maxFrameLength]. *)
Definition resolveMaxFrameLength (options : option number) : Result FrameFailure Z :=
  let bad := Err (FrameRangeError (js "maxFrameLength must be an integer between 0 and " ++ js_of_Z MAX_UINT32)) in
  match integer_value (default (number_of_Z DEFAULT_MAX_FRAME_LENGTH) options) with
  | Some value => if negb (safe value) || (value <? 0) || (MAX_UINT32 <? value) then bad else Ok value
  | None => bad
  end.

Definition encodeFrame (payload : list Z) : Result FrameFailure (list Z) :=
  let length_ := Z.of_nat (length payload) in
  if MAX_UINT32 <? length_
  then Err (FrameRangeError (js "Frame payload exceeds the unsigned 32-bit length limit"))
  else Ok ([uint8 (ushr length_ 24); uint8 (ushr length_ 16); uint8 (ushr length_ 8); uint8 length_] ++ payload).

(** The length in a header. *)
Definition header_length (header : list Z) : Z :=
  byte_at header 0 * 0x1000000 + byte_at header 1 * 0x10000 + byte_at header 2 * 0x100 + byte_at header 3.

Definition too_long (length_ max : Z) : jstring :=
  js "Frame length " ++ js_of_Z length_ ++ js " exceeds configured limit of " ++ js_of_Z max.

Definition assertCompleteFrame (frame : list Z) (options : option number) : Result FrameFailure unit :=
  if (length frame <? FRAME_HEADER_LENGTH)%nat
  then Err (FrameError (js "Frame does not contain a complete length prefix"))
  else
    let length_ := header_length frame in
    let* maxFrameLength := resolveMaxFrameLength options in
    if maxFrameLength <? length_ then Err (FrameError (too_long length_ maxFrameLength))
    else if Z.of_nat (length frame) =? Z.of_nat FRAME_HEADER_LENGTH + length_ then Ok tt
    else Err (FrameError (js "Frame must contain exactly one complete payload")).

Inductive DecoderState := DS_open | DS_ended | DS_failed.

Record FrameDecoder := {
  fd_header : list Z;
  fd_headerLength : nat;
  fd_maxFrameLength : Z;
  fd_payloadBlocks : list (list Z);
  fd_hasCurrentBlock : bool;
  fd_currentPayloadBlockLength : nat;
  fd_expectedPayloadLength : option Z;
  fd_payloadLength : Z;
  fd_state : DecoderState }.

Definition new_FrameDecoder (options : option number) : Result FrameFailure FrameDecoder :=
  let* max := resolveMaxFrameLength options in
  Ok {| fd_header := replicate FRAME_HEADER_LENGTH 0; fd_headerLength := 0; fd_maxFrameLength := max;
        fd_payloadBlocks := []; fd_hasCurrentBlock := false; fd_currentPayloadBlockLength := 0;
        fd_expectedPayloadLength := None; fd_payloadLength := 0; fd_state := DS_open |}.

(** The payload fields reset, with a new expectation. *)
Definition reset_payload (d : FrameDecoder) (expected : option Z) : FrameDecoder :=
  {| fd_header := fd_header d; fd_headerLength := fd_headerLength d; fd_maxFrameLength := fd_maxFrameLength d;
     fd_payloadBlocks := []; fd_hasCurrentBlock := false; fd_currentPayloadBlockLength := 0;
     fd_expectedPayloadLength := expected; fd_payloadLength := 0; fd_state := fd_state d |}.

Definition with_header (d : FrameDecoder) (header : list Z) (headerLength : nat) : FrameDecoder :=
  {| fd_header := header; fd_headerLength := headerLength; fd_maxFrameLength := fd_maxFrameLength d;
     fd_payloadBlocks := fd_payloadBlocks d; fd_hasCurrentBlock := fd_hasCurrentBlock d;
     fd_currentPayloadBlockLength := fd_currentPayloadBlockLength d;
     fd_expectedPayloadLength := fd_expectedPayloadLength d; fd_payloadLength := fd_payloadLength d;
     fd_state := fd_state d |}.

Definition with_state (d : FrameDecoder) (state : DecoderState) : FrameDecoder :=
  {| fd_header := fd_header d; fd_headerLength := fd_headerLength d; fd_maxFrameLength := fd_maxFrameLength d;
     fd_payloadBlocks := fd_payloadBlocks d; fd_hasCurrentBlock := fd_hasCurrentBlock d;
     fd_currentPayloadBlockLength := fd_currentPayloadBlockLength d;
     fd_expectedPayloadLength := fd_expectedPayloadLength d; fd_payloadLength := fd_payloadLength d;
     fd_state := state |}.

(** [fail] before it throws. *)
Definition fail (d : FrameDecoder) : FrameDecoder :=
  with_state (reset_payload (with_header d (fd_header d) 0) None) DS_failed.

(** The block to fill: the current one, or a new one when there is none or it
    is full. *)
Definition open_block (d : FrameDecoder) (expected : Z) : FrameDecoder :=
  let full := match last (fd_payloadBlocks d) with
              | Some block => (fd_currentPayloadBlockLength d =? length block)%nat
              | None => true
              end in
  if negb (fd_hasCurrentBlock d) || full then
    {| fd_header := fd_header d; fd_headerLength := fd_headerLength d; fd_maxFrameLength := fd_maxFrameLength d;
       fd_payloadBlocks :=
         fd_payloadBlocks d ++ [replicate (Z.to_nat (Z.min PAYLOAD_BLOCK_SIZE (expected - fd_payloadLength d))) 0];
       fd_hasCurrentBlock := true; fd_currentPayloadBlockLength := 0;
       fd_expectedPayloadLength := fd_expectedPayloadLength d; fd_payloadLength := fd_payloadLength d;
       fd_state := fd_state d |}
  else d.

(** [block.set(...)] on the current block. *)
Definition fill_block (d : FrameDecoder) (bytes : list Z) : FrameDecoder :=
  let blocks := fd_payloadBlocks d in
  {| fd_header := fd_header d; fd_headerLength := fd_headerLength d; fd_maxFrameLength := fd_maxFrameLength d;
     fd_payloadBlocks :=
       match last blocks with
       | Some block => take (length blocks - 1) blocks ++ [set_at block bytes (fd_currentPayloadBlockLength d)]
       | None => blocks
       end;
     fd_hasCurrentBlock := fd_hasCurrentBlock d;
     fd_currentPayloadBlockLength := fd_currentPayloadBlockLength d + length bytes;
     fd_expectedPayloadLength := fd_expectedPayloadLength d;
     fd_payloadLength := fd_payloadLength d + Z.of_nat (length bytes); fd_state := fd_state d |}.

(** The inner loop: fill blocks until the chunk or the payload ends. *)
Fixpoint fill_loop (fuel : nat) (d : FrameDecoder) (expected : Z) (chunk : list Z) : FrameDecoder * list Z :=
  match fuel with
  | O => (d, chunk)
  | S fuel' =>
      if (0 <? length chunk)%nat && (fd_payloadLength d <? expected) then
        let d := open_block d expected in
        let size := match last (fd_payloadBlocks d) with Some block => length block | None => 0%nat end in
        let payloadBytes := Nat.min (size - fd_currentPayloadBlockLength d) (length chunk) in
        fill_loop fuel' (fill_block d (take payloadBytes chunk)) expected (drop payloadBytes chunk)
      else (d, chunk)
  end.

(** The completed payload: the only block, or all blocks copied one after the
    other. *)
Definition assemble (expected : Z) (blocks : list (list Z)) : list Z :=
  match blocks with
  | [block] => block
  | _ => (foldl (fun acc block => (set_at acc.1 block acc.2, (acc.2 + length block)%nat))
                (replicate (Z.to_nat expected) 0, 0%nat) blocks).1
  end.

(** The second half of an iteration: payload bytes, and the frame when it is
    complete. *)
Definition push_payload (d : FrameDecoder) (expected : Z) (chunk : list Z)
    : FrameDecoder * list Z * option (list Z) :=
  let (d, chunk) := fill_loop (length chunk) d expected chunk in
  if fd_payloadLength d =? expected
  then (reset_payload d None, chunk, Some (assemble expected (fd_payloadBlocks d)))
  else (d, chunk, None).

(** One iteration of the outer loop on a non-empty rest of the chunk: the new
    decoder, the rest, the frame delivered, if any, and the error thrown, if
    any. *)
Definition push_step (d : FrameDecoder) (chunk : list Z)
    : FrameDecoder * list Z * option (list Z) * option FrameFailure :=
  match fd_expectedPayloadLength d with
  | None =>
      let headerBytes := Nat.min (FRAME_HEADER_LENGTH - fd_headerLength d) (length chunk) in
      let d := with_header d (set_at (fd_header d) (take headerBytes chunk) (fd_headerLength d))
                 (fd_headerLength d + headerBytes) in
      let chunk := drop headerBytes chunk in
      if (fd_headerLength d <? FRAME_HEADER_LENGTH)%nat then (d, chunk, None, None)
      else
        let frameLength := header_length (fd_header d) in
        let d := with_header d (fd_header d) 0 in
        if fd_maxFrameLength d <? frameLength
        then (fail d, chunk, None, Some (FrameError (too_long frameLength (fd_maxFrameLength d))))
        else if frameLength =? 0 then (d, chunk, Some [], None)
        else (push_payload (reset_payload d (Some frameLength)) frameLength chunk, None)
  | Some expected => (push_payload d expected chunk, None)
  end.

(** The outer loop: the new decoder, the frames delivered and the error. *)
Fixpoint push_loop (fuel : nat) (d : FrameDecoder) (chunk : list Z) (frames : list (list Z))
    : FrameDecoder * list (list Z) * option FrameFailure :=
  match fuel with
  | O => (d, frames, None)
  | S fuel' =>
      match chunk with
      | [] => (d, frames, None)
      | _ =>
          let '(d, chunk, frame, error) := push_step d chunk in
          let frames := match frame with Some f => frames ++ [f] | None => frames end in
          match error with
          | Some e => (d, frames, Some e)
          | None => push_loop fuel' d chunk frames
          end
      end
  end.

Definition closed_error (state : DecoderState) : option FrameFailure :=
  match state with
  | DS_open => None
  | DS_ended => Some (FrameError (js "Frame decoder has ended"))
  | DS_failed => Some (FrameError (js "Frame decoder has failed"))
  end.

(** [pushEach] with the frames its callback receives; every iteration consumes
    a byte, so the length of the chunk bounds the loop. *)
Definition pushEach (d : FrameDecoder) (chunk : list Z) : FrameDecoder * list (list Z) * option FrameFailure :=
  match closed_error (fd_state d) with
  | Some e => (d, [], Some e)
  | None => push_loop (length chunk) d chunk []
  end.

(** [push]: the frames are lost when a frame of the same chunk fails. *)
Definition push (d : FrameDecoder) (chunk : list Z) : FrameDecoder * Result FrameFailure (list (list Z)) :=
  let '(d, frames, error) := pushEach d chunk in
  match error with Some e => (d, Err e) | None => (d, Ok frames) end.

Definition end_ (d : FrameDecoder) : FrameDecoder * Result FrameFailure unit :=
  match closed_error (fd_state d) with
  | Some e => (d, Err e)
  | None =>
      if negb (fd_headerLength d =? 0)%nat || bool_decide (is_Some (fd_expectedPayloadLength d))
      then (fail d, Err (FrameError (js "Truncated frame at end of stream")))
      else (with_state d DS_ended, Ok tt)
  end.
