(* ===== verification/FramingProperties.v ===== *)
(** * Properties of the frame codec

    The contract of the frame decoder as a machine that reads one byte at a
    time ([feed], [run]), and the refinement: [pushEach], with its header
    buffer and payload blocks, delivers what the machine delivers.
    Independence of chunk boundaries, delivery of every encoded payload,
    detection of truncated streams, and the exact meaning of
    [assertCompleteFrame]. *)

From stdpp Require Import base list gmap strings pretty.
From Stdlib Require Import ZArith Lia.
From S2P Require Import Prelude Utf8 Numbers Cbor CborCodec Framing.

Open Scope Z_scope.

(** ** The byte machine *)

Inductive stream_state :=
| AHeader (bytes : list Z)
| APayload (expected : Z) (bytes : list Z)
| AFailed (error : FrameFailure).

#[global] Instance FrameFailure_eq_dec : EqDecision FrameFailure.
Proof. solve_decision. Defined.

#[global] Instance stream_state_eq_dec : EqDecision stream_state.
Proof. solve_decision. Defined.

Definition feed (max : Z) (a : stream_state) (b : Z) : stream_state * list (list Z) :=
  match a with
  | AHeader bytes =>
      let bytes := bytes ++ [b] in
      if (length bytes <? FRAME_HEADER_LENGTH)%nat then (AHeader bytes, [])
      else
        let n := header_length bytes in
        if max <? n then (AFailed (FrameError (too_long n max)), [])
        else if n =? 0 then (AHeader [], [[]])
        else (APayload n [], [])
  | APayload n bytes =>
      let bytes := bytes ++ [b] in
      if Z.of_nat (length bytes) =? n then (AHeader [], [bytes]) else (APayload n bytes, [])
  | AFailed e => (AFailed e, [])
  end.

Fixpoint run (max : Z) (a : stream_state) (stream : list Z) : stream_state * list (list Z) :=
  match stream with
  | [] => (a, [])
  | b :: stream' =>
      let (a1, f1) := feed max a b in
      let (a2, f2) := run max a1 stream' in
      (a2, f1 ++ f2)
  end.

Lemma run_app max a s1 s2 :
  run max a (s1 ++ s2) =
    (let (a1, f1) := run max a s1 in let (a2, f2) := run max a1 s2 in (a2, f1 ++ f2)).
Proof.
  revert a; induction s1 as [|b s1 IH]; intros a; simpl; [by destruct (run max a s2)|].
  destruct (feed max a b) as [a1 f1]. rewrite IH. destruct (run max a1 s1) as [a2 f2].
  destruct (run max a2 s2) as [a3 f3]. by rewrite app_assoc.
Qed.

Lemma run_failed max e s : run max (AFailed e) s = (AFailed e, []).
Proof. induction s as [|b s IH]; simpl; [done|]. by rewrite IH. Qed.

Lemma run_header max hd s :
  (length hd + length s < FRAME_HEADER_LENGTH)%nat -> run max (AHeader hd) s = (AHeader (hd ++ s), []).
Proof.
  revert hd; induction s as [|b s IH]; intros hd H; simpl; [by rewrite app_nil_r|]. simpl in H.
  rewrite length_app. destruct (Nat.ltb_spec (length hd + length [b]) FRAME_HEADER_LENGTH); [|simpl in *; lia].
  rewrite IH by (rewrite length_app; simpl; lia). by rewrite <- app_assoc.
Qed.

(** Bytes that complete a header. *)
Lemma run_header_full max hd s :
  (length hd < FRAME_HEADER_LENGTH)%nat -> (length hd + length s = FRAME_HEADER_LENGTH)%nat ->
  run max (AHeader hd) s =
    (let n := header_length (hd ++ s) in
     if max <? n then (AFailed (FrameError (too_long n max)), [])
     else if n =? 0 then (AHeader [], [[]]) else (APayload n [], [])).
Proof.
  intros Hh Hl. destruct (exists_last (l := s)) as (s' & b & ->); [intros ->; simpl in *; lia|].
  rewrite length_app in Hl. simpl in Hl. rewrite run_app, run_header by lia. simpl. rewrite <- app_assoc.
  destruct (Nat.ltb_spec (length (hd ++ s' ++ [b])) FRAME_HEADER_LENGTH) as [Hlt|_].
  { rewrite !length_app in Hlt. simpl in Hlt. lia. }
  destruct (max <? _); [done|]. by destruct (_ =? 0).
Qed.

Lemma run_payload max n bytes s :
  Z.of_nat (length bytes + length s) < n -> run max (APayload n bytes) s = (APayload n (bytes ++ s), []).
Proof.
  revert bytes; induction s as [|b s IH]; intros bytes H; simpl; [by rewrite app_nil_r|]. simpl in H.
  rewrite length_app. destruct (Z.eqb_spec (Z.of_nat (length bytes + length [b])) n); [simpl in *; lia|].
  rewrite IH by (rewrite length_app; simpl; lia). by rewrite <- app_assoc.
Qed.

Lemma run_payload_full max n bytes s :
  s <> [] -> Z.of_nat (length bytes + length s) = n ->
  run max (APayload n bytes) s = (AHeader [], [bytes ++ s]).
Proof.
  intros Hs Hl. destruct (exists_last Hs) as (s' & b & ->). rewrite length_app in Hl. simpl in Hl.
  rewrite run_app, run_payload by lia. simpl. rewrite <- app_assoc.
  destruct (Z.eqb_spec (Z.of_nat (length (bytes ++ s' ++ [b]))) n) as [|Hne]; [done|].
  rewrite !length_app in Hne. simpl in Hne. lia.
Qed.

(** ** Payload blocks *)

(** The payload bytes received so far. *)
Definition content (d : FrameDecoder) : list Z :=
  match last (fd_payloadBlocks d) with
  | Some block =>
      concat (take (length (fd_payloadBlocks d) - 1) (fd_payloadBlocks d)) ++
      take (fd_currentPayloadBlockLength d) block
  | None => []
  end.

(** The blocks hold the payload and never more than it needs. *)
Record blocks_ok (d : FrameDecoder) (n : Z) : Prop := {
  bo_length : fd_payloadLength d = Z.of_nat (length (content d));
  bo_bound : fd_payloadLength d <= n;
  bo_shape : (fd_hasCurrentBlock d = false /\ fd_payloadBlocks d = []) \/
             (exists full cur, fd_hasCurrentBlock d = true /\ fd_payloadBlocks d = full ++ [cur] /\
                (fd_currentPayloadBlockLength d <= length cur)%nat /\
                Z.of_nat (length (concat full) + length cur) <= n) }.

Lemma content_snoc d full cur :
  fd_payloadBlocks d = full ++ [cur] -> content d = concat full ++ take (fd_currentPayloadBlockLength d) cur.
Proof.
  intros E. unfold content. rewrite E, last_snoc, length_app. simpl.
  replace (length full + 1 - 1)%nat with (length full) by lia. by rewrite take_app_length.
Qed.

(** What stays the same while a payload is filled. *)
Definition same_frame (d d' : FrameDecoder) : Prop :=
  fd_header d' = fd_header d /\ fd_headerLength d' = fd_headerLength d /\
  fd_maxFrameLength d' = fd_maxFrameLength d /\
  fd_expectedPayloadLength d' = fd_expectedPayloadLength d /\ fd_state d' = fd_state d.

Lemma open_block_ok d n :
  blocks_ok d n -> fd_payloadLength d < n ->
  let d' := open_block d n in
  same_frame d d' /\ content d' = content d /\ fd_payloadLength d' = fd_payloadLength d /\
  exists full cur, fd_hasCurrentBlock d' = true /\ fd_payloadBlocks d' = full ++ [cur] /\
    (fd_currentPayloadBlockLength d' < length cur)%nat /\ Z.of_nat (length (concat full) + length cur) <= n.
Proof.
  intros [Hl Hb Hs] Hlt d'.
  set (size := Z.to_nat (Z.min PAYLOAD_BLOCK_SIZE (n - fd_payloadLength d))).
  assert (Hsize : (0 < size)%nat /\ Z.of_nat size <= n - fd_payloadLength d).
  { unfold size, PAYLOAD_BLOCK_SIZE. lia. }
  assert (Hnew : negb (fd_hasCurrentBlock d) || match last (fd_payloadBlocks d) with
            | Some block => (fd_currentPayloadBlockLength d =? length block)%nat | None => true end = true ->
          content d = concat (fd_payloadBlocks d) ->
     same_frame d d' /\ content d' = content d /\ fd_payloadLength d' = fd_payloadLength d /\
     exists full cur, fd_hasCurrentBlock d' = true /\ fd_payloadBlocks d' = full ++ [cur] /\
       (fd_currentPayloadBlockLength d' < length cur)%nat /\ Z.of_nat (length (concat full) + length cur) <= n).
  { intros Hc Hcont. unfold d', open_block. rewrite Hc. fold size. split; [done|].
    rewrite (content_snoc _ (fd_payloadBlocks d) (replicate size 0)) by done. simpl.
    split; [by rewrite take_0, app_nil_r|]. split; [done|].
    exists (fd_payloadBlocks d), (replicate size 0). rewrite length_replicate, <- Hcont. repeat split; lia. }
  destruct Hs as [[Hh Hbl]|(full & cur & Hh & Hbl & Hc & Hn)].
  - apply Hnew; [by rewrite Hh|]. unfold content. by rewrite Hbl.
  - destruct (Nat.eqb_spec (fd_currentPayloadBlockLength d) (length cur)) as [E|E].
    + apply Hnew; [by rewrite Hbl, last_snoc, E, Nat.eqb_refl, orb_true_r|].
      rewrite (content_snoc _ _ _ Hbl), E, Hbl, take_ge, concat_app by lia. simpl. by rewrite app_nil_r.
    + unfold d', open_block. rewrite Hh, Hbl, last_snoc. simpl.
      destruct (Nat.eqb_spec (fd_currentPayloadBlockLength d) (length cur)); [done|].
      split; [done|]. split; [done|]. split; [done|]. exists full, cur. repeat split; [done|done|lia|done].
Qed.

Lemma fill_block_ok d n full cur bytes :
  fd_payloadLength d = Z.of_nat (length (content d)) ->
  fd_hasCurrentBlock d = true -> fd_payloadBlocks d = full ++ [cur] ->
  (fd_currentPayloadBlockLength d + length bytes <= length cur)%nat ->
  Z.of_nat (length (concat full) + length cur) <= n ->
  blocks_ok (fill_block d bytes) n /\ same_frame d (fill_block d bytes) /\
  content (fill_block d bytes) = content d ++ bytes.
Proof.
  intros Hl Hh Hbl Hfit Hn.
  assert (Hbl' : fd_payloadBlocks (fill_block d bytes) = full ++ [set_at cur bytes (fd_currentPayloadBlockLength d)]).
  { simpl. rewrite Hbl, last_snoc, length_app. simpl. replace (length full + 1 - 1)%nat with (length full) by lia.
    by rewrite take_app_length. }
  assert (Hc : content (fill_block d bytes) = content d ++ bytes).
  { rewrite (content_snoc _ _ _ Hbl'), (content_snoc _ _ _ Hbl). simpl. rewrite <- app_assoc. f_equal.
    unfold set_at. rewrite app_assoc, take_app_le, take_ge; [done|..]; rewrite length_app, length_take; lia. }
  split; [|split; [done|done]].
  assert (Hlen : fd_payloadLength (fill_block d bytes) = Z.of_nat (length (content (fill_block d bytes)))).
  { rewrite Hc, length_app. simpl. lia. }
  split; [done| |].
  - rewrite Hlen, Hc, (content_snoc _ _ _ Hbl), !length_app, length_take. lia.
  - right. exists full, (set_at cur bytes (fd_currentPayloadBlockLength d)).
    rewrite set_at_length by done. repeat split; [done|done|simpl; lia|done].
Qed.

Lemma same_frame_trans d1 d2 d3 : same_frame d1 d2 -> same_frame d2 d3 -> same_frame d1 d3.
Proof. unfold same_frame. intuition congruence. Qed.

(** The inner loop takes exactly the payload bytes the chunk offers. *)
Lemma fill_loop_ok fuel : forall d n chunk,
  blocks_ok d n -> (length chunk <= fuel)%nat ->
  let k := Nat.min (length chunk) (Z.to_nat (n - fd_payloadLength d)) in
  let (d', chunk') := fill_loop fuel d n chunk in
  blocks_ok d' n /\ same_frame d d' /\ content d' = content d ++ take k chunk /\ chunk' = drop k chunk.
Proof.
  induction fuel as [|fuel IH]; intros d n chunk Hb Hf k; simpl.
  - assert (chunk = []) as -> by (destruct chunk; [done|simpl in Hf; lia]).
    rewrite take_nil, drop_nil, app_nil_r. done.
  - destruct (Nat.ltb_spec 0 (length chunk)) as [Hc|Hc]; simpl.
    2:{ assert (chunk = []) as -> by (destruct chunk; [done|simpl in Hc; lia]).
        rewrite take_nil, drop_nil, app_nil_r. done. }
    destruct (Z.ltb_spec (fd_payloadLength d) n) as [Hlt|Hge]; simpl.
    2:{ replace k with 0%nat by lia. rewrite take_0, drop_0, app_nil_r. done. }
    destruct (open_block_ok d n Hb Hlt) as (Hsame & Hcont & Hpl & full & cur & Hh & Hbl & Hcur & Hn).
    set (d1 := open_block d n) in *. rewrite Hbl, last_snoc.
    set (j := Nat.min (length cur - fd_currentPayloadBlockLength d1) (length chunk)).
    assert (Hj : length (take j chunk) = j) by (rewrite length_take; lia).
    destruct (fill_block_ok d1 n full cur (take j chunk)) as (Hb2 & Hs2 & Hc2); [|done|done|lia|done|].
    { rewrite Hpl, Hcont. apply Hb. }
    set (d2 := fill_block d1 (take j chunk)) in *.
    specialize (IH d2 n (drop j chunk) Hb2). rewrite length_drop in IH. specialize (IH ltac:(lia)).
    assert (Hp2 : fd_payloadLength d2 = fd_payloadLength d + Z.of_nat j) by (unfold d2; simpl; rewrite Hj; lia).
    clearbody d2. cbv zeta in IH.
    destruct (fill_loop fuel d2 n (drop j chunk)) as [d' chunk'].
    destruct IH as (Hb3 & Hs3 & Hc3 & ->). rewrite Hp2 in Hc3 |- *.
    assert (Hk : k = (j + Nat.min (length chunk - j) (Z.to_nat (n - (fd_payloadLength d + Z.of_nat j))))%nat).
    { assert (Z.of_nat j <= n - fd_payloadLength d).
      { assert (fd_payloadLength d2 <= n) by apply Hb2. lia. }
      unfold k. lia. }
    split; [done|]. split; [by eapply same_frame_trans; [|eapply same_frame_trans]|].
    rewrite Hc3, Hc2, Hcont, <- app_assoc, drop_drop, <- Hk. split; [|done].
    f_equal. rewrite Hk at 1. rewrite take_take_drop. done.
Qed.

(** A complete payload is assembled in order, whatever its blocks. *)
Lemma assemble_foldl blocks buffer offset :
  (offset + length (concat blocks) <= length buffer)%nat ->
  (foldl (fun acc block => (set_at acc.1 block acc.2, (acc.2 + length block)%nat)) (buffer, offset) blocks).1 =
  take offset buffer ++ concat blocks ++ drop (offset + length (concat blocks)) buffer.
Proof.
  revert buffer offset. induction blocks as [|b blocks IH]; intros buffer offset H; simpl.
  - by rewrite Nat.add_0_r, take_drop.
  - simpl in H. rewrite length_app in H. rewrite IH by (rewrite set_at_length; lia). unfold set_at.
    rewrite (app_assoc (take offset buffer)), take_app_le, take_ge by (rewrite length_app, length_take; lia).
    rewrite <- !app_assoc. f_equal. f_equal. f_equal.
    rewrite app_assoc, drop_app_ge by (rewrite length_app, length_take; lia).
    rewrite drop_drop, !length_app, length_take. f_equal. lia.
Qed.

Lemma assemble_content d n :
  blocks_ok d n -> fd_payloadLength d = n -> assemble n (fd_payloadBlocks d) = content d.
Proof.
  intros [Hl Hb Hs] Hn. destruct Hs as [[_ Hbl]|(full & cur & _ & Hbl & Hc & Htot)].
  - unfold assemble, content in *. rewrite Hbl in *. simpl in *. rewrite Hl in Hn. simpl in Hn. subst n. done.
  - assert (Hcont := content_snoc _ _ _ Hbl).
    assert (Hfull : fd_currentPayloadBlockLength d = length cur).
    { rewrite Hl, Hcont, length_app, length_take in Hn. lia. }
    rewrite Hcont, Hfull, take_ge by lia. rewrite Hbl.
    assert (Hlen : Z.of_nat (length (concat (full ++ [cur]))) = n).
    { rewrite Hl, Hcont, Hfull, take_ge in Hn by lia. rewrite concat_app. simpl. by rewrite app_nil_r. }
    assert (Hgen : (foldl (fun acc block => (set_at acc.1 block acc.2, (acc.2 + length block)%nat))
                (replicate (Z.to_nat n) 0, 0%nat) (full ++ [cur])).1 = concat full ++ cur).
    { rewrite assemble_foldl by (rewrite length_replicate; lia).
      rewrite drop_ge by (rewrite length_replicate; lia). rewrite take_0, app_nil_r, concat_app. simpl.
      by rewrite app_nil_r. }
    unfold assemble. destruct full as [|f1 full]; [done|]. simpl. destruct (full ++ [cur]) eqn:E; [by destruct full|].
    rewrite <- E. exact Hgen.
Qed.

(** ** The decoder refines the machine *)

Record decoder_ok (d : FrameDecoder) : Prop := {
  do_state : fd_state d = DS_open;
  do_header : length (fd_header d) = FRAME_HEADER_LENGTH;
  do_header_length : (fd_headerLength d < FRAME_HEADER_LENGTH)%nat;
  do_payload : forall n, fd_expectedPayloadLength d = Some n ->
    fd_headerLength d = 0%nat /\ blocks_ok d n /\ fd_payloadLength d < n }.

Definition abs (d : FrameDecoder) : stream_state :=
  match fd_expectedPayloadLength d with
  | None => AHeader (take (fd_headerLength d) (fd_header d))
  | Some n => APayload n (content d)
  end.

Lemma push_payload_ok d n chunk d' chunk' frame :
  decoder_ok d -> fd_expectedPayloadLength d = Some n ->
  push_payload d n chunk = (d', chunk', frame) ->
  exists used, chunk = used ++ chunk' /\ (chunk <> [] -> used <> []) /\ decoder_ok d' /\
    fd_maxFrameLength d' = fd_maxFrameLength d /\
    run (fd_maxFrameLength d) (abs d) used = (abs d', option_list frame).
Proof.
  intros Hok He H. destruct (do_payload d Hok n He) as (Hh & Hb & Hlt). unfold push_payload in H.
  pose proof (fill_loop_ok (length chunk) d n chunk Hb (Nat.le_refl _)) as Hf. cbv zeta in Hf.
  set (k := Nat.min (length chunk) (Z.to_nat (n - fd_payloadLength d))) in *.
  destruct (fill_loop (length chunk) d n chunk) as [d1 chunk1].
  destruct Hf as (Hb1 & (Hs1 & Hs2 & Hs3 & Hs4 & Hs5) & Hc1 & ->).
  assert (Hpl : fd_payloadLength d1 = fd_payloadLength d + Z.of_nat k).
  { rewrite (bo_length _ _ Hb1), Hc1, length_app, length_take, (bo_length _ _ Hb). lia. }
  assert (Hcl : Z.of_nat (length (content d)) = fd_payloadLength d) by (by rewrite (bo_length _ _ Hb)).
  assert (Hk : length (take k chunk) = k) by (rewrite length_take; lia).
  assert (Hne : chunk <> [] -> take k chunk <> []).
  { intros Hch E. rewrite E in Hk. simpl in Hk. assert (length chunk <> 0%nat) by (by destruct chunk). lia. }
  assert (Habs : abs d = APayload n (content d)) by (unfold abs; by rewrite He). rewrite Habs.
  exists (take k chunk). destruct (Z.eqb_spec (fd_payloadLength d1) n) as [Hn|Hn]; injection H as <- <- <-;
    (split; [by rewrite take_drop|]); (split; [done|]); (split; [|split; [done|]]).
  - split; simpl; [by rewrite Hs5, (do_state _ Hok)|by rewrite Hs1, (do_header _ Hok)|rewrite Hs2, Hh; unfold FRAME_HEADER_LENGTH; lia|done].
  - assert (Ha : abs (reset_payload d1 None) = AHeader []) by (unfold abs; simpl; by rewrite Hs2, Hh).
    rewrite Ha. simpl. rewrite (assemble_content _ _ Hb1 Hn), Hc1.
    apply run_payload_full; [|lia]. intros E. rewrite E in Hk. simpl in Hk. lia.
  - split; [by rewrite Hs5, (do_state _ Hok)|by rewrite Hs1, (do_header _ Hok)|rewrite Hs2, Hh; unfold FRAME_HEADER_LENGTH; lia|].
    intros n'. rewrite Hs4, He. intros [= <-]. rewrite Hs2. split; [done|]. split; [done|].
    assert (fd_payloadLength d1 <= n) by apply Hb1. lia.
  - unfold abs. rewrite Hs4, He, Hc1. simpl. apply run_payload.
    assert (fd_payloadLength d1 <= n) by apply Hb1. lia.
Qed.

Lemma take_set_at (target bytes : list Z) offset :
  (offset + length bytes <= length target)%nat ->
  take (offset + length bytes) (set_at target bytes offset) = take offset target ++ bytes.
Proof.
  intros H. unfold set_at. rewrite app_assoc, take_app_le, take_ge; [done|..]; rewrite length_app, length_take; lia.
Qed.

Lemma reset_decoder_ok d n :
  0 < n -> fd_state d = DS_open -> length (fd_header d) = FRAME_HEADER_LENGTH -> fd_headerLength d = 0%nat ->
  decoder_ok (reset_payload d (Some n)) /\ abs (reset_payload d (Some n)) = APayload n [].
Proof.
  intros Hn Hs Hh Hl. split; [|done]. split; simpl; [done|done|rewrite Hl; unfold FRAME_HEADER_LENGTH; lia|].
  intros n' [= <-]. split; [done|]. split; [|done]. split; simpl; [done|lia|by left].
Qed.

Lemma Forall_app_middle {A} (P : A -> Prop) a b c : Forall P (a ++ b ++ c) -> Forall P (a ++ c).
Proof. intros [H1 [_ H2]%Forall_app]%Forall_app. apply Forall_app. done. Qed.

Lemma header_length_nonneg hdr : Forall byte hdr -> 0 <= header_length hdr.
Proof.
  intros Hb. unfold header_length.
  assert (H : forall i, 0 <= byte_at hdr i).
  { intros i. unfold byte_at. destruct (hdr !! i) as [b|] eqn:E; simpl; [|lia].
    apply (Forall_lookup_1 _ _ _ _ Hb E). }
  pose proof (H 0%nat). pose proof (H 1%nat). pose proof (H 2%nat). pose proof (H 3%nat). lia.
Qed.

Lemma fill_loop_header fuel : forall d n chunk, fd_header (fill_loop fuel d n chunk).1 = fd_header d.
Proof.
  induction fuel as [|fuel IH]; intros d n chunk; simpl; [done|]. case_match; [|done].
  rewrite IH. simpl. unfold open_block. by case_match.
Qed.

Lemma push_payload_header d n chunk d' chunk' frame :
  push_payload d n chunk = (d', chunk', frame) -> fd_header d' = fd_header d.
Proof.
  unfold push_payload. pose proof (fill_loop_header (length chunk) d n chunk) as H.
  destruct (fill_loop _ d n chunk) as [d1 c1]. simpl in H. case_match; intros [= <- <- <-]; done.
Qed.

(** One iteration is a run over the bytes it consumes. *)
Lemma push_step_ok d chunk d' chunk' frame error :
  decoder_ok d -> chunk <> [] -> Forall byte (fd_header d ++ chunk) ->
  push_step d chunk = (d', chunk', frame, error) ->
  exists used, chunk = used ++ chunk' /\ used <> [] /\ fd_maxFrameLength d' = fd_maxFrameLength d /\
    Forall byte (fd_header d' ++ chunk') /\
    match error with
    | None => decoder_ok d' /\ run (fd_maxFrameLength d) (abs d) used = (abs d', option_list frame)
    | Some e => frame = None /\ fd_state d' = DS_failed /\ run (fd_maxFrameLength d) (abs d) used = (AFailed e, [])
    end.
Proof.
  intros Hok Hc Hby H. unfold push_step in H. destruct (fd_expectedPayloadLength d) as [n|] eqn:He.
  { destruct (push_payload d n chunk) as [[d1 c1] f1] eqn:Hp. injection H as <- <- <- <-.
    assert (Hh : fd_header d1 = fd_header d) by (eapply push_payload_header; exact Hp).
    destruct (push_payload_ok d n chunk _ _ _ Hok He Hp) as (used & -> & Hu & Hok1 & Hm & Hr).
    exists used. split; [done|]. split; [by apply Hu|]. split; [done|]. rewrite Hh.
    split; [by apply Forall_app_middle in Hby|done]. }
  destruct Hok as [Hst Hhl Hlt _].
  set (k := Nat.min (FRAME_HEADER_LENGTH - fd_headerLength d) (length chunk)) in *.
  assert (Hk : length (take k chunk) = k) by (rewrite length_take; lia).
  assert (Hne : take k chunk <> []).
  { intros E. rewrite E in Hk. simpl in Hk. assert (length chunk <> 0%nat) by (by destruct chunk). lia. }
  set (hdr := set_at (fd_header d) (take k chunk) (fd_headerLength d)) in *.
  assert (Hhdr : length hdr = FRAME_HEADER_LENGTH) by (unfold hdr; rewrite set_at_length; lia).
  assert (Htake : take (fd_headerLength d + k) hdr = take (fd_headerLength d) (fd_header d) ++ take k chunk).
  { rewrite <- Hk at 1. apply take_set_at. lia. }
  assert (Hby' : Forall byte (hdr ++ drop k chunk)).
  { rewrite Forall_app in Hby. destruct Hby as [Hb1 Hb2]. unfold hdr, set_at.
    rewrite !Forall_app. repeat split; auto using Forall_take, Forall_drop. }
  assert (Habs : abs d = AHeader (take (fd_headerLength d) (fd_header d))) by (unfold abs; by rewrite He).
  assert (Hpre : length (take (fd_headerLength d) (fd_header d)) = fd_headerLength d) by (rewrite length_take; lia).
  cbn [fd_headerLength fd_header fd_maxFrameLength with_header] in H.
  destruct (Nat.ltb_spec (fd_headerLength d + k) FRAME_HEADER_LENGTH) as [Hshort|Hfull].
  { injection H as <- <- <- <-. exists (take k chunk). split; [by rewrite take_drop|]. split; [done|].
    split; [done|]. split; [done|]. split.
    - split; simpl; [done|done|done|]. by rewrite He.
    - rewrite Habs, run_header by lia. unfold abs. simpl. by rewrite He, Htake. }
  assert (Hk4 : (fd_headerLength d + k = FRAME_HEADER_LENGTH)%nat) by lia.
  rewrite Hk4, take_ge in Htake by lia.
  assert (Hrun : run (fd_maxFrameLength d) (abs d) (take k chunk) =
    (let n := header_length hdr in
     if fd_maxFrameLength d <? n then (AFailed (FrameError (too_long n (fd_maxFrameLength d))), [])
     else if n =? 0 then (AHeader [], [[]]) else (APayload n [], []))).
  { rewrite Habs, run_header_full by lia. by rewrite <- Htake. }
  cbv zeta in Hrun. assert (Hnn : 0 <= header_length hdr) by (apply Forall_app in Hby' as [? _]; by apply header_length_nonneg).
  destruct (fd_maxFrameLength d <? header_length hdr).
  { injection H as <- <- <- <-. exists (take k chunk). rewrite take_drop. done. }
  destruct (Z.eqb_spec (header_length hdr) 0).
  { injection H as <- <- <- <-. exists (take k chunk). rewrite take_drop. split; [done|]. split; [done|].
    split; [done|]. split; [done|]. split.
    - split; simpl; [done|done|unfold FRAME_HEADER_LENGTH; lia|by rewrite He].
    - rewrite Hrun. unfold abs. simpl. by rewrite He. }
  destruct (push_payload _ _ (drop k chunk)) as [[d1 c1] f1] eqn:Hp. injection H as <- <- <- <-.
  assert (Hh1 := push_payload_header _ _ _ _ _ _ Hp). simpl in Hh1.
  match type of Hp with push_payload (reset_payload ?d0 _) _ _ = _ =>
    destruct (reset_decoder_ok d0 (header_length hdr)) as [Hok0 Ha0]; [lia|done|done|done|] end.
  destruct (push_payload_ok _ _ _ _ _ _ Hok0 eq_refl Hp) as (used & Hu & _ & Hok1 & Hm & Hr).
  exists (take k chunk ++ used). split; [rewrite <- app_assoc, <- Hu; by rewrite take_drop|].
  split; [intros [? _]%app_eq_nil; done|]. split; [done|]. split.
  { rewrite Hh1. rewrite Hu in Hby'. by apply Forall_app_middle in Hby'. }
  split; [done|]. rewrite run_app, Hrun. rewrite Ha0 in Hr. simpl in Hr. by rewrite Hr.
Qed.

Lemma push_loop_ok fuel : forall d chunk frames d' frames' error,
  decoder_ok d -> Forall byte (fd_header d ++ chunk) -> (length chunk <= fuel)%nat ->
  push_loop fuel d chunk frames = (d', frames', error) ->
  exists out, frames' = frames ++ out /\ fd_maxFrameLength d' = fd_maxFrameLength d /\
    match error with
    | None => decoder_ok d' /\ Forall byte (fd_header d') /\ run (fd_maxFrameLength d) (abs d) chunk = (abs d', out)
    | Some e => fd_state d' = DS_failed /\ run (fd_maxFrameLength d) (abs d) chunk = (AFailed e, out)
    end.
Proof.
  induction fuel as [|fuel IH]; intros d chunk frames d' frames' error Hok Hby Hf H; simpl in H.
  { assert (chunk = []) as -> by (destruct chunk; [done|simpl in Hf; lia]). injection H as <- <- <-.
    exists []. rewrite app_nil_r in *. done. }
  destruct chunk as [|c chunk]; [injection H as <- <- <-; exists []; rewrite app_nil_r in *; done|].
  destruct (push_step d (c :: chunk)) as [[[d1 c1] f1] e1] eqn:Hs.
  destruct (push_step_ok d (c :: chunk) d1 c1 f1 e1 Hok ltac:(done) Hby Hs) as (used & Hu & Hne & Hm & Hby1 & Hcase).
  assert (Hfr : match f1 with Some f => frames ++ [f] | None => frames end = frames ++ option_list f1)
    by (destruct f1; simpl; by rewrite ?app_nil_r). rewrite Hfr in H.
  destruct e1 as [e|].
  - destruct Hcase as (-> & Hst & Hr). injection H as <- <- <-. exists []. split; [done|]. split; [done|].
    split; [done|]. rewrite Hu, run_app, Hr, run_failed. done.
  - destruct Hcase as [Hok1 Hr].
    assert (Hlen : (length c1 <= fuel)%nat).
    { assert (length used <> 0%nat) by (by destruct used).
      assert (length (c :: chunk) = length used + length c1)%nat by (rewrite Hu; apply length_app). simpl in *. lia. }
    destruct (IH d1 c1 _ d' frames' error Hok1 Hby1 Hlen H) as (out & -> & Hm' & Hcase).
    exists (option_list f1 ++ out). split; [by rewrite app_assoc|]. split; [congruence|].
    rewrite Hm in Hcase. rewrite Hu, run_app, Hr. destruct error; destruct Hcase as (H1 & H2).
    + by rewrite H2.
    + destruct H2 as [H2 H3]. by rewrite H3.
Qed.

(** Chunks pushed one after the other, until one fails. *)
Fixpoint push_all (d : FrameDecoder) (chunks : list (list Z)) : FrameDecoder * list (list Z) * option FrameFailure :=
  match chunks with
  | [] => (d, [], None)
  | chunk :: chunks' =>
      let '(d, frames, error) := pushEach d chunk in
      match error with
      | Some e => (d, frames, Some e)
      | None => let '(d, frames', error) := push_all d chunks' in (d, frames ++ frames', error)
      end
  end.

Lemma push_all_ok chunks : forall d d' frames error,
  decoder_ok d -> Forall byte (fd_header d) -> Forall byte (concat chunks) ->
  push_all d chunks = (d', frames, error) ->
  match error with
  | None => decoder_ok d' /\ run (fd_maxFrameLength d) (abs d) (concat chunks) = (abs d', frames)
  | Some e => fd_state d' = DS_failed /\ run (fd_maxFrameLength d) (abs d) (concat chunks) = (AFailed e, frames)
  end.
Proof.
  induction chunks as [|chunk chunks IH]; intros d d' frames error Hok Hh Hb H; simpl in H.
  { by injection H as <- <- <-. }
  simpl in Hb. apply Forall_app in Hb as [Hb1 Hb2].
  unfold pushEach in H. rewrite (do_state _ Hok) in H. simpl in H.
  destruct (push_loop (length chunk) d chunk []) as [[d1 f1] e1] eqn:Hl.
  apply push_loop_ok in Hl as (out & -> & Hm & Hcase); [|done|by apply Forall_app|lia]. simpl in H.
  simpl concat. rewrite run_app. destruct e1 as [e|].
  - injection H as <- <- <-. destruct Hcase as [Hst ->]. rewrite run_failed, app_nil_r. done.
  - destruct Hcase as (Hok1 & Hh1 & ->). destruct (push_all d1 chunks) as [[d2 f2] e2] eqn:Hp.
    injection H as <- <- <-. specialize (IH d1 _ _ _ Hok1 Hh1 Hb2 Hp). rewrite Hm in IH.
    destruct e2; destruct IH as [IH1 IH2]; by rewrite IH2.
Qed.

Lemma new_FrameDecoder_ok options d :
  new_FrameDecoder options = Ok d ->
  decoder_ok d /\ Forall byte (fd_header d) /\ abs d = AHeader [] /\
  resolveMaxFrameLength options = Ok (fd_maxFrameLength d) /\ 0 <= fd_maxFrameLength d <= MAX_UINT32.
Proof.
  unfold new_FrameDecoder. intros H. inv_result. subst d. simpl. split.
  { split; simpl; [done|done|unfold FRAME_HEADER_LENGTH; lia|done]. }
  split; [repeat constructor; unfold byte; lia|]. split; [done|]. split; [done|].
  unfold resolveMaxFrameLength in Ha. destruct (integer_value _) as [z|]; [|done].
  destruct (Z.ltb_spec z 0), (Z.ltb_spec MAX_UINT32 z), (safe z); simpl in Ha; simplify_eq; lia.
Qed.

(** ** Encoded frames *)

Lemma header_length_uint32 v rest : 0 <= v <= MAX_UINT32 -> header_length (uint32_bytes v ++ rest) = v.
Proof.
  intros Hv. pose proof (readArgument_26_bytes v rest Hv) as H. unfold readArgument_26 in H.
  rewrite readBytes_app in H by done. simpl in H. injection H as H. exact H.
Qed.

Lemma encodeFrame_eq payload :
  Z.of_nat (length payload) <= MAX_UINT32 ->
  encodeFrame payload = Ok (uint32_bytes (Z.of_nat (length payload)) ++ payload).
Proof.
  intros H. unfold encodeFrame. by replace (MAX_UINT32 <? Z.of_nat (length payload)) with false by lia.
Qed.

Lemma run_frame max payload :
  0 <= max <= MAX_UINT32 -> Z.of_nat (length payload) <= max ->
  run max (AHeader []) (uint32_bytes (Z.of_nat (length payload)) ++ payload) = (AHeader [], [payload]).
Proof.
  intros Hm Hl. rewrite run_app, run_header_full by (unfold FRAME_HEADER_LENGTH; simpl; lia).
  simpl app at 1. rewrite <- (app_nil_r (uint32_bytes _)), header_length_uint32 by lia. cbv zeta.
  replace (max <? Z.of_nat (length payload)) with false by lia.
  destruct (Z.eqb_spec (Z.of_nat (length payload)) 0) as [E|E].
  - by destruct payload.
  - rewrite run_payload_full; [done| |simpl; lia]. by intros ->.
Qed.

Lemma run_frames max payloads frames :
  0 <= max <= MAX_UINT32 -> Forall (fun p => Z.of_nat (length p) <= max) payloads ->
  Forall2 (fun p f => encodeFrame p = Ok f) payloads frames ->
  run max (AHeader []) (concat frames) = (AHeader [], payloads).
Proof.
  intros Hm Hl H. induction H as [|p f payloads frames Hf _ IH]; [done|]. apply Forall_cons in Hl as [Hp Hl].
  rewrite encodeFrame_eq in Hf by lia. rewrite concat_cons, run_app.
  assert (f = uint32_bytes (Z.of_nat (length p)) ++ p) as -> by congruence. rewrite run_frame by done.
  by rewrite IH.
Qed.

(** A frame cut short leaves the machine inside it. *)
Lemma run_partial max payload cut :
  0 <= max <= MAX_UINT32 -> Z.of_nat (length payload) <= max ->
  let frame := uint32_bytes (Z.of_nat (length payload)) ++ payload in
  (0 < cut < length frame)%nat ->
  exists a, run max (AHeader []) (take cut frame) = (a, []) /\ a <> AHeader [] /\ (forall e, a <> AFailed e).
Proof.
  intros Hm Hl frame Hcut. unfold frame in *. rewrite length_app in Hcut. change (length (uint32_bytes _)) with 4%nat in Hcut.
  destruct (decide (cut < 4)%nat) as [Hh|Hh].
  - rewrite take_app_le by (simpl; lia).
    assert (Hlen : length (take cut (uint32_bytes (Z.of_nat (length payload)))) = cut) by (rewrite length_take; simpl; lia).
    rewrite run_header by (rewrite Hlen; unfold FRAME_HEADER_LENGTH; simpl; lia). eexists. split; [done|].
    split; [|done]. intros [= E]. rewrite E in Hlen. simpl in Hlen. lia.
  - rewrite take_app_ge by (simpl; lia). change (length (uint32_bytes _)) with 4%nat.
    rewrite run_app, run_header_full by (unfold FRAME_HEADER_LENGTH; simpl; lia).
    simpl app at 1. rewrite <- (app_nil_r (uint32_bytes _)), header_length_uint32 by lia. cbv zeta.
    replace (max <? Z.of_nat (length payload)) with false by lia.
    replace (Z.of_nat (length payload) =? 0) with false by lia.
    rewrite run_payload by (rewrite length_take; simpl; lia). eexists. split; [done|]. done.
Qed.

(** ** Properties of the frame codec *)

(** Header bytes determine and are determined by the length they spell. *)
Lemma uint32_bytes_header frame :
  Forall byte frame -> (4 <= length frame)%nat -> uint32_bytes (header_length frame) = take 4 frame.
Proof.
  intros Hb Hl. destruct frame as [|b0 [|b1 [|b2 [|b3 rest]]]]; simpl in Hl; try lia.
  repeat (apply Forall_cons in Hb as [? Hb]). unfold byte in *.
  unfold header_length, byte_at, uint32_bytes. simpl. unfold uint8, ushr, UINT32_BASE.
  set (v := b0 * 16777216 + b1 * 65536 + b2 * 256 + b3).
  rewrite (Z.mod_small v 0x100000000) by (unfold v; lia).
  change (2 ^ 8) with 256. change (2 ^ 16) with 65536. change (2 ^ 24) with 16777216.
  assert (v / 256 = b0 * 65536 + b1 * 256 + b2) by (unfold v; Z.to_euclidean_division_equations; lia).
  assert (v / 65536 = b0 * 256 + b1) by (unfold v; Z.to_euclidean_division_equations; lia).
  assert (v / 16777216 = b0) by (unfold v; Z.to_euclidean_division_equations; lia).
  repeat f_equal; unfold v in *; Z.to_euclidean_division_equations; lia.
Qed.

Lemma end_open d :
  decoder_ok d ->
  end_ d = if decide (abs d = AHeader []) then (with_state d DS_ended, Ok tt)
           else (fail d, Err (FrameError (js "Truncated frame at end of stream"))).
Proof.
  intros Hok. unfold end_, abs. rewrite (do_state _ Hok). simpl.
  destruct (fd_expectedPayloadLength d) as [n|] eqn:He.
  - rewrite bool_decide_eq_true_2 by eauto. rewrite orb_true_r. by case_decide.
  - rewrite bool_decide_eq_false_2 by (by intros [? ?]). rewrite orb_false_r.
    pose proof (do_header _ Hok) as Hh. pose proof (do_header_length _ Hok) as Hl.
    destruct (Nat.eqb_spec (fd_headerLength d) 0) as [E|Hne]; cbn [negb].
    + rewrite decide_True; [done|]. by rewrite E.
    + rewrite decide_False; [done|]. intros [= Hc].
      assert (H : length (take (fd_headerLength d) (fd_header d)) = 0%nat) by (by rewrite Hc).
      rewrite length_take in H. lia.
Qed.

(** C39: the decoder refines a machine that reads one byte at a time: however a
    byte stream is cut into chunks, the frames delivered, the error raised and
    the unfinished frame depend only on the concatenation of the chunks. *)
Theorem frame_chunking (options : option number) (d d' : FrameDecoder) (chunks frames : list (list Z))
    (error : option FrameFailure)
    (Hd : new_FrameDecoder options = Ok d) (Hb : Forall byte (concat chunks))
    (Hp : push_all d chunks = (d', frames, error)) :
  run (fd_maxFrameLength d) (AHeader []) (concat chunks) =
    (match error with Some e => AFailed e | None => abs d' end, frames) /\
  (is_Some error <-> fd_state d' = DS_failed).
Proof.
  destruct (new_FrameDecoder_ok _ _ Hd) as (Hok & Hh & Ha & _ & _).
  pose proof (push_all_ok chunks d d' frames error Hok Hh Hb Hp) as H. rewrite Ha in H.
  destruct error as [e|]; destruct H as [H1 H2]; (split; [done|]).
  - by split.
  - rewrite (do_state _ H1). split; [by intros [? ?]|done].
Qed.

(** the frames of any list of payloads within the limit, delivered in any
    chunks, come out as exactly those payloads in order, and the stream then
    ends cleanly. *)
Theorem frame_roundtrip (options : option number) (d : FrameDecoder) (payloads encoded chunks : list (list Z))
    (Hd : new_FrameDecoder options = Ok d)
    (Hl : Forall (fun p => Z.of_nat (length p) <= fd_maxFrameLength d) payloads)
    (He : Forall2 (fun p f => encodeFrame p = Ok f) payloads encoded)
    (Hb : Forall byte (concat chunks)) (Hc : concat chunks = concat encoded) :
  exists d', push_all d chunks = (d', payloads, None) /\ end_ d' = (with_state d' DS_ended, Ok tt).
Proof.
  destruct (new_FrameDecoder_ok _ _ Hd) as (Hok & Hh & Ha & _ & Hmax).
  destruct (push_all d chunks) as [[d' frames] error] eqn:Hp.
  pose proof (push_all_ok chunks d d' frames error Hok Hh Hb Hp) as H.
  rewrite Ha, Hc, (run_frames _ payloads) in H by done.
  destruct error as [e|]; destruct H as [H1 H2]; [done|]. injection H2 as H2 <-. exists d'. split; [done|].
  rewrite end_open by done. rewrite <- H2. done.
Qed.

(** a stream that stops inside a frame delivers the complete frames, then
    end() raises the truncation error and every later use of the decoder
    fails. *)
Theorem frame_truncation (options : option number) (d : FrameDecoder) (payloads encoded chunks : list (list Z))
    (last_payload last_frame : list Z) (cut : nat)
    (Hd : new_FrameDecoder options = Ok d)
    (Hl : Forall (fun p => Z.of_nat (length p) <= fd_maxFrameLength d) (payloads ++ [last_payload]))
    (He : Forall2 (fun p f => encodeFrame p = Ok f) (payloads ++ [last_payload]) (encoded ++ [last_frame]))
    (Hcut : (0 < cut < length last_frame)%nat)
    (Hb : Forall byte (concat chunks)) (Hc : concat chunks = concat encoded ++ take cut last_frame) :
  exists d', push_all d chunks = (d', payloads, None) /\
    end_ d' = (fail d', Err (FrameError (js "Truncated frame at end of stream"))) /\
    forall chunk, push (fail d') chunk = (fail d', Err (FrameError (js "Frame decoder has failed"))).
Proof.
  destruct (new_FrameDecoder_ok _ _ Hd) as (Hok & Hh & Ha & _ & Hmax).
  apply Forall_app in Hl as [Hl1 Hl2]. rewrite Forall_singleton in Hl2.
  assert (Hlen : length payloads = length encoded).
  { apply Forall2_length in He. rewrite !length_app in He. simpl in He. lia. }
  apply Forall2_app_inv in He as [He1 He2]; [|done]. apply Forall2_cons in He2 as [He2 _].
  rewrite encodeFrame_eq in He2 by lia.
  assert (last_frame = uint32_bytes (Z.of_nat (length last_payload)) ++ last_payload) as E by congruence.
  rewrite E in Hcut, Hc.
  destruct (run_partial (fd_maxFrameLength d) last_payload cut Hmax Hl2 Hcut) as (a & Hr & Hna & Hnf).
  destruct (push_all d chunks) as [[d' frames] error] eqn:Hp.
  pose proof (push_all_ok chunks d d' frames error Hok Hh Hb Hp) as H.
  rewrite Ha, Hc, run_app, (run_frames _ payloads), Hr in H by done. rewrite app_nil_r in H.
  destruct error as [e|]; destruct H as [H1 H2].
  { injection H2 as -> _. by destruct (Hnf e). }
  injection H2 as -> <-. exists d'. split; [done|]. split; [|done].
  rewrite end_open by done. by rewrite decide_False.
Qed.

(** assertCompleteFrame accepts exactly the encodings of a single payload
    within the limit. *)
Theorem assertCompleteFrame_exact (frame : list Z) (options : option number) (max : Z)
    (Hm : resolveMaxFrameLength options = Ok max) (Hb : Forall byte frame) :
  assertCompleteFrame frame options = Ok tt <->
  exists payload, encodeFrame payload = Ok frame /\ Z.of_nat (length payload) <= max.
Proof.
  assert (Hmax : 0 <= max <= MAX_UINT32).
  { unfold resolveMaxFrameLength in Hm. destruct (integer_value _) as [z|]; [|done].
    destruct (Z.ltb_spec z 0), (Z.ltb_spec MAX_UINT32 z), (safe z); simpl in Hm; simplify_eq; lia. }
  unfold assertCompleteFrame, FRAME_HEADER_LENGTH. rewrite Hm. cbn [rbind]. split.
  - destruct (Nat.ltb_spec (length frame) 4); [done|].
    destruct (Z.ltb_spec max (header_length frame)); [done|].
    destruct (Z.eqb_spec (Z.of_nat (length frame)) (Z.of_nat 4 + header_length frame)) as [E|]; [|done]. intros _.
    assert (Hlen : Z.of_nat (length (drop 4 frame)) = header_length frame) by (rewrite length_drop; lia).
    exists (drop 4 frame). rewrite encodeFrame_eq by lia. rewrite Hlen. split; [|lia].
    rewrite uint32_bytes_header by done. by rewrite take_drop.
  - intros (payload & He & Hl). rewrite encodeFrame_eq in He by lia.
    assert (frame = uint32_bytes (Z.of_nat (length payload)) ++ payload) as -> by congruence.
    rewrite header_length_uint32, length_app by lia. change (length (uint32_bytes _)) with 4%nat.
    destruct (Nat.ltb_spec (4 + length payload) 4); [lia|].
    replace (max <? Z.of_nat (length payload)) with false by lia.
    by destruct (Z.eqb_spec (Z.of_nat (4 + length payload)) (Z.of_nat 4 + Z.of_nat (length payload))); [|lia].
Qed.

(** ** Witnesses *)

Definition ex_decoder : FrameDecoder :=
  match new_FrameDecoder None with Ok d => d | Err _ => fail (Build_FrameDecoder [] 0 0 [] false 0 None 0 DS_open) end.

Ltac bytes := unfold byte; repeat constructor; simpl; lia.

Lemma frame_chunking_witness :
  let r := push_all ex_decoder [[0; 0; 0]; [2; 7]; [8; 0]] in
  run (fd_maxFrameLength ex_decoder) (AHeader []) [0; 0; 0; 2; 7; 8; 0] =
    (match r.2 with Some e => AFailed e | None => abs r.1.1 end, r.1.2) /\
  (is_Some r.2 <-> fd_state r.1.1 = DS_failed).
Proof.
  intros r. apply (frame_chunking None ex_decoder r.1.1 [[0; 0; 0]; [2; 7]; [8; 0]] r.1.2 r.2).
  - vm_compute. reflexivity.
  - bytes.
  - vm_compute. reflexivity.
Defined.

Lemma frame_roundtrip_witness :
  exists d', push_all ex_decoder [[0; 0; 0]; [2; 7]; [8; 0; 0; 0; 0]] = (d', [[7; 8]; []], None) /\
    end_ d' = (with_state d' DS_ended, Ok tt).
Proof.
  apply (frame_roundtrip None ex_decoder [[7; 8]; []] [[0; 0; 0; 2; 7; 8]; [0; 0; 0; 0]]).
  - vm_compute. reflexivity.
  - repeat constructor; vm_compute; discriminate.
  - repeat constructor; vm_compute; reflexivity.
  - bytes.
  - reflexivity.
Defined.

Lemma frame_truncation_witness :
  exists d', push_all ex_decoder [[0; 0; 0]; [2; 7]; [8; 0; 0; 0; 1]] = (d', [[7; 8]], None) /\
    end_ d' = (fail d', Err (FrameError (js "Truncated frame at end of stream"))) /\
    forall chunk, push (fail d') chunk = (fail d', Err (FrameError (js "Frame decoder has failed"))).
Proof.
  apply (frame_truncation None ex_decoder [[7; 8]] [[0; 0; 0; 2; 7; 8]] _ [9] [0; 0; 0; 1; 9] 4).
  - vm_compute. reflexivity.
  - repeat constructor; vm_compute; discriminate.
  - repeat constructor; vm_compute; reflexivity.
  - simpl. lia.
  - bytes.
  - reflexivity.
Defined.

Lemma assertCompleteFrame_exact_witness :
  assertCompleteFrame [0; 0; 0; 1; 9] None = Ok tt <->
  exists payload, encodeFrame payload = Ok [0; 0; 0; 1; 9] /\ Z.of_nat (length payload) <= DEFAULT_MAX_FRAME_LENGTH.
Proof.
  apply (assertCompleteFrame_exact [0; 0; 0; 1; 9] None).
  - vm_compute. reflexivity.
  - bytes.
Defined.
