(* ===== verification/Truncate.v ===== *)
(** * Output truncation

    packages/agent/src/harness/utils/truncate.ts: tool outputs cut at a line
    and a byte limit, from the head or from the tail.

    [runtimeBuffer] is the Node [Buffer] the module looks up at load time; it
    may be absent, and then bytes are counted by hand.  Limits are integers.
    Reading [lines[0]] of an empty split throws, which [truncateHead] shows as
    [None]. *)

From stdpp Require Import base list strings pretty.
From Stdlib Require Import ZArith Lia.
From S2P Require Import Prelude Utf8.
Open Scope Z_scope.

Definition DEFAULT_MAX_LINES : Z := 2000.
Definition DEFAULT_MAX_BYTES : Z := 50 * 1024.
Definition GREP_MAX_LINE_LENGTH : Z := 500.

Inductive TruncatedBy := TB_lines | TB_bytes.

Record TruncationResult := {
  tr_content : jstring;
  tr_truncated : bool;
  tr_truncatedBy : option TruncatedBy;
  tr_totalLines : Z;
  tr_totalBytes : Z;
  tr_outputLines : Z;
  tr_outputBytes : Z;
  tr_lastLinePartial : bool;
  tr_firstLineExceedsLimit : bool;
  tr_maxLines : Z;
  tr_maxBytes : Z }.

Record TruncationOptions := { to_maxLines : option Z; to_maxBytes : option Z }.

Definition newline : Z := 10.

(** [content.search(/[^\x00-\x7f]/)]; [None] is -1. *)
Fixpoint search_non_ascii (content : jstring) : option nat :=
  match content with
  | [] => None
  | u :: s => if (0 <=? u) && (u <=? 0x7f) then S <$> search_non_ascii s else Some 0%nat
  end.

(** The counting loop, on the rest of the string. *)
Fixpoint count_bytes (content : jstring) (bytes : Z) : Z :=
  match content with
  | [] => bytes
  | code :: s =>
      if code <=? 0x7f then count_bytes s (bytes + 1)
      else if code <=? 0x7ff then count_bytes s (bytes + 2)
      else if (0xd800 <=? code) && (code <=? 0xdbff) then
        match s with
        | next :: s' =>
            if (0xdc00 <=? next) && (next <=? 0xdfff) then count_bytes s' (bytes + 4)
            else count_bytes s (bytes + 3)
        | [] => bytes + 3
        end
      else count_bytes s (bytes + 3)
  end.

(** [content.split("\n")] *)
Fixpoint split_lines (content : jstring) : list jstring :=
  match content with
  | [] => [[]]
  | u :: s =>
      if u =? newline then [] :: split_lines s
      else match split_lines s with
           | line :: lines => (u :: line) :: lines
           | [] => [[u]]
           end
  end.

(** [lines.join("\n")] *)
Fixpoint join_lines (lines : list jstring) : jstring :=
  match lines with
  | [] => []
  | [line] => line
  | line :: lines' => line ++ newline :: join_lines lines'
  end.

Definition splitLinesForCounting (content : jstring) : list jstring :=
  match content with
  | [] => []
  | _ =>
      let lines := split_lines content in
      if bool_decide (last content = Some newline) then take (length lines - 1) lines else lines
  end.

Fixpoint replaceUnpairedSurrogates (content : jstring) : jstring :=
  match content with
  | [] => []
  | code :: s =>
      if is_high_surrogate code then
        match s with
        | next :: s' =>
            if is_low_surrogate next then code :: next :: replaceUnpairedSurrogates s'
            else 0xFFFD :: replaceUnpairedSurrogates s
        | [] => [0xFFFD]
        end
      else if is_low_surrogate code then 0xFFFD :: replaceUnpairedSurrogates s
      else code :: replaceUnpairedSurrogates s
  end.

(** [(numerator / denominator).toFixed(1)] for a non-negative quotient that is
    an exact double: the nearest tenth, the larger one of two. *)
Definition toFixed1 (numerator denominator : Z) : jstring :=
  let n := (20 * numerator + denominator) / (2 * denominator) in
  js_of_Z (n / 10) ++ js "." ++ js_of_Z (n mod 10).

Definition formatSize (bytes : Z) : jstring :=
  if bytes <? 1024 then js_of_Z bytes ++ js "B"
  else if bytes <? 1024 * 1024 then toFixed1 bytes 1024 ++ js "KB"
  else toFixed1 bytes (1024 * 1024) ++ js "MB".

(** The bytes of the character that ends a string, given the code unit before
    it: its size in code units, its bytes, and whether it is an unpaired
    surrogate. *)
Definition last_character (code : Z) (previous : option Z) : nat * Z * bool :=
  match is_low_surrogate code, previous with
  | true, Some p => if is_high_surrogate p then (2%nat, 4, false) else (1%nat, 3, true)
  | _, _ =>
      if is_surrogate code then (1%nat, 3, true)
      else (1%nat, (if code <=? 0x7f then 1 else if code <=? 0x7ff then 2 else 3), false)
  end.

(** The backward loop; [before] is the part not yet taken, reversed. *)
Fixpoint take_from_end (before : jstring) (outputBytes maxBytes : Z) (output : jstring) (needsReplacement : bool)
    : jstring * bool :=
  match before with
  | [] => (output, needsReplacement)
  | code :: before1 =>
      let '(units, characterBytes, unpaired) := last_character code (head before1) in
      if maxBytes <? outputBytes + characterBytes then (output, needsReplacement)
      else
        match units, before1 with
        | 2%nat, previous :: before2 =>
            take_from_end before2 (outputBytes + characterBytes) maxBytes (previous :: code :: output)
              (needsReplacement || unpaired)
        | _, _ =>
            take_from_end before1 (outputBytes + characterBytes) maxBytes (code :: output)
              (needsReplacement || unpaired)
        end
  end.

Definition truncateStringToBytesFromEnd (str : jstring) (maxBytes : Z) : jstring :=
  if maxBytes <=? 0 then []
  else
    let (output, needsReplacement) := take_from_end (reverse str) 0 maxBytes [] false in
    if needsReplacement then replaceUnpairedSurrogates output else output.

(** [line.slice(0, maxChars)] *)
Definition slice0 (s : jstring) (n : Z) : jstring :=
  take (Z.to_nat (if n <? 0 then Z.of_nat (length s) + n else n)) s.

Definition truncateLine (line : jstring) (maxChars : option Z) : jstring * bool :=
  let maxChars := default GREP_MAX_LINE_LENGTH maxChars in
  if Z.of_nat (length line) <=? maxChars then (line, false)
  else (slice0 line maxChars ++ js "... [truncated]", true).

Section Truncate.
Context (runtimeBuffer : option (jstring -> Z)).

Definition utf8ByteLength (content : jstring) : Z :=
  match runtimeBuffer with
  | Some byteLength => byteLength content
  | None =>
      match search_non_ascii content with
      | None => Z.of_nat (length content)
      | Some firstNonAscii => count_bytes (drop firstNonAscii content) (Z.of_nat firstNonAscii)
      end
  end.

(** The result when both limits are met. *)
Definition untruncated (content : jstring) (totalLines totalBytes maxLines maxBytes : Z) : TruncationResult :=
  {| tr_content := content; tr_truncated := false; tr_truncatedBy := None;
     tr_totalLines := totalLines; tr_totalBytes := totalBytes;
     tr_outputLines := totalLines; tr_outputBytes := totalBytes;
     tr_lastLinePartial := false; tr_firstLineExceedsLimit := false;
     tr_maxLines := maxLines; tr_maxBytes := maxBytes |}.

(** The loop over the lines from index [i] on. *)
Fixpoint head_loop (lines : list jstring) (i : Z) (maxLines maxBytes : Z)
    (output : list jstring) (outputBytes : Z) : list jstring * Z * TruncatedBy :=
  match lines with
  | [] => (output, outputBytes, TB_lines)
  | line :: lines' =>
      if i <? maxLines then
        let lineBytes := utf8ByteLength line + (if 0 <? i then 1 else 0) in
        if maxBytes <? outputBytes + lineBytes then (output, outputBytes, TB_bytes)
        else head_loop lines' (i + 1) maxLines maxBytes (output ++ [line]) (outputBytes + lineBytes)
      else (output, outputBytes, TB_lines)
  end.

Definition truncateHead (content : jstring) (options : TruncationOptions) : option TruncationResult :=
  let maxLines := default DEFAULT_MAX_LINES (to_maxLines options) in
  let maxBytes := default DEFAULT_MAX_BYTES (to_maxBytes options) in
  let totalBytes := utf8ByteLength content in
  let lines := splitLinesForCounting content in
  let totalLines := Z.of_nat (length lines) in
  if (totalLines <=? maxLines) && (totalBytes <=? maxBytes)
  then Some (untruncated content totalLines totalBytes maxLines maxBytes)
  else
    match lines with
    | [] => None
    | first :: _ =>
        if maxBytes <? utf8ByteLength first then
          Some {| tr_content := []; tr_truncated := true; tr_truncatedBy := Some TB_bytes;
                  tr_totalLines := totalLines; tr_totalBytes := totalBytes;
                  tr_outputLines := 0; tr_outputBytes := 0;
                  tr_lastLinePartial := false; tr_firstLineExceedsLimit := true;
                  tr_maxLines := maxLines; tr_maxBytes := maxBytes |}
        else
          let '(output, outputBytes, truncatedBy) := head_loop lines 0 maxLines maxBytes [] 0 in
          let truncatedBy := if (maxLines <=? Z.of_nat (length output)) && (outputBytes <=? maxBytes)
                             then TB_lines else truncatedBy in
          let outputContent := join_lines output in
          Some {| tr_content := outputContent; tr_truncated := true; tr_truncatedBy := Some truncatedBy;
                  tr_totalLines := totalLines; tr_totalBytes := totalBytes;
                  tr_outputLines := Z.of_nat (length output); tr_outputBytes := utf8ByteLength outputContent;
                  tr_lastLinePartial := false; tr_firstLineExceedsLimit := false;
                  tr_maxLines := maxLines; tr_maxBytes := maxBytes |}
    end.

(** The backward loop over the lines; [before] is the part not yet taken,
    reversed. *)
Fixpoint tail_loop (before : list jstring) (maxLines maxBytes : Z) (output : list jstring) (outputBytes : Z)
    : list jstring * Z * TruncatedBy * bool :=
  match before with
  | [] => (output, outputBytes, TB_lines, false)
  | line :: before' =>
      if Z.of_nat (length output) <? maxLines then
        let lineBytes := utf8ByteLength line + (if (0 <? length output)%nat then 1 else 0) in
        if maxBytes <? outputBytes + lineBytes then
          if (length output =? 0)%nat then
            let truncatedLine := truncateStringToBytesFromEnd line maxBytes in
            ([truncatedLine], utf8ByteLength truncatedLine, TB_bytes, true)
          else (output, outputBytes, TB_bytes, false)
        else tail_loop before' maxLines maxBytes (line :: output) (outputBytes + lineBytes)
      else (output, outputBytes, TB_lines, false)
  end.

Definition truncateTail (content : jstring) (options : TruncationOptions) : TruncationResult :=
  let maxLines := default DEFAULT_MAX_LINES (to_maxLines options) in
  let maxBytes := default DEFAULT_MAX_BYTES (to_maxBytes options) in
  let totalBytes := utf8ByteLength content in
  let lines := splitLinesForCounting content in
  let totalLines := Z.of_nat (length lines) in
  if (totalLines <=? maxLines) && (totalBytes <=? maxBytes)
  then untruncated content totalLines totalBytes maxLines maxBytes
  else
    let '(output, outputBytes, truncatedBy, lastLinePartial) := tail_loop (reverse lines) maxLines maxBytes [] 0 in
    let truncatedBy := if (maxLines <=? Z.of_nat (length output)) && (outputBytes <=? maxBytes)
                       then TB_lines else truncatedBy in
    let outputContent := join_lines output in
    {| tr_content := outputContent; tr_truncated := true; tr_truncatedBy := Some truncatedBy;
       tr_totalLines := totalLines; tr_totalBytes := totalBytes;
       tr_outputLines := Z.of_nat (length output); tr_outputBytes := utf8ByteLength outputContent;
       tr_lastLinePartial := lastLinePartial; tr_firstLineExceedsLimit := false;
       tr_maxLines := maxLines; tr_maxBytes := maxBytes |}.
End Truncate.
