(* ===== verification/TruncateProperties.v ===== *)
(** * Properties of output truncation

    Byte counts equal the UTF-8 length on every runtime; truncated output
    consists of whole lines (or, at the tail, of whole characters of the last
    line), stays within both limits and is as long as they allow. *)

From stdpp Require Import base list strings pretty.
From Stdlib Require Import ZArith Lia.
From S2P Require Import Prelude Utf8 Truncate.
Open Scope Z_scope.

(** ** Byte counts *)

(** The UTF-8 length of a string. *)
Definition utf8_size (s : jstring) : Z := Z.of_nat (length (utf8_encode s)).

(** Bytes of a code unit that is not half of a pair. *)
Definition unit_size (u : Z) : Z :=
  if is_surrogate u then 3 else if u <=? 0x7f then 1 else if u <=? 0x7ff then 2 else 3.

Lemma utf8_size_nonneg s : 0 <= utf8_size s.
Proof. unfold utf8_size. lia. Qed.

Lemma utf8_size_cons c s cs :
  scalar_values s = c :: cs ->
  utf8_size s = Z.of_nat (length (utf8_of_scalar c)) + Z.of_nat (length (concat (utf8_of_scalar <$> cs))).
Proof. intros E. unfold utf8_size, utf8_encode. rewrite E. csimpl. rewrite length_app. lia. Qed.

Lemma utf8_of_scalar_length c :
  Z.of_nat (length (utf8_of_scalar c)) = if c <? 0x80 then 1 else if c <? 0x800 then 2 else if c <? 0x10000 then 3 else 4.
Proof. unfold utf8_of_scalar. by repeat case_match. Qed.

(** A code unit not followed by its other half counts by itself. *)
Lemma utf8_size_unit u s :
  code_unit u -> (is_high_surrogate u = true -> forall v s', s = v :: s' -> is_low_surrogate v = false) ->
  utf8_size (u :: s) = unit_size u + utf8_size s.
Proof.
  intros Hu Hpair. unfold code_unit in Hu.
  assert (H3 : is_surrogate u = true -> scalar_values (u :: s) = 0xFFFD :: scalar_values s).
  { intros Hs. simpl. destruct (is_high_surrogate u) eqn:Eh.
    - destruct s as [|v s']; [done|]. by rewrite (Hpair eq_refl v s' eq_refl).
    - destruct (is_low_surrogate u) eqn:El; [done|]. by unit_cases. }
  unfold unit_size. destruct (is_surrogate u) eqn:Es.
  - by rewrite (utf8_size_cons _ _ _ (H3 eq_refl)).
  - assert (Hv : scalar_values (u :: s) = u :: scalar_values s).
    { simpl. destruct (is_high_surrogate u) eqn:Eh; [by unit_cases|]. destruct (is_low_surrogate u) eqn:El; [by unit_cases|done]. }
    rewrite (utf8_size_cons _ _ _ Hv), utf8_of_scalar_length.
    replace (utf8_size s) with (Z.of_nat (length (concat (utf8_of_scalar <$> scalar_values s)))) by done.
    f_equal. destruct (Z.ltb_spec u 0x80), (Z.leb_spec u 0x7f); try lia; try done.
    destruct (Z.ltb_spec u 0x800), (Z.leb_spec u 0x7ff); try lia; try done.
    by replace (u <? 0x10000) with true by lia.
Qed.

Lemma utf8_size_pair u v s :
  is_high_surrogate u = true -> is_low_surrogate v = true -> utf8_size (u :: v :: s) = 4 + utf8_size s.
Proof.
  intros Hu Hv. assert (E : scalar_values (u :: v :: s) = surrogate_pair u v :: scalar_values s).
  { simpl. by rewrite Hu, Hv. }
  rewrite (utf8_size_cons _ _ _ E), utf8_of_scalar_length. unfold surrogate_pair.
  assert (0xD800 <= u <= 0xDBFF) by unit_cases. assert (0xDC00 <= v <= 0xDFFF) by unit_cases.
  replace (_ <? 0x80) with false by lia. replace (_ <? 0x800) with false by lia.
  by replace (_ <? 0x10000) with false by lia.
Qed.

Lemma count_bytes_size s bytes : Forall code_unit s -> count_bytes s bytes = bytes + utf8_size s.
Proof.
  revert bytes. induction s as [|u s IH1 IH2] using jstring_ind2; intros bytes Hs; [simpl; unfold utf8_size; simpl; lia|].
  apply Forall_cons in Hs as [Hu Hs]. simpl. fold (is_high_surrogate u).
  assert (Hone : (is_high_surrogate u = true -> forall v s', s = v :: s' -> is_low_surrogate v = false) ->
    forall k, unit_size u = k -> count_bytes s (bytes + k) = bytes + utf8_size (u :: s)).
  { intros Hp k <-. rewrite IH1, utf8_size_unit by done. lia. }
  destruct (Z.leb_spec u 0x7f); [apply Hone; [by unit_cases|unfold unit_size; by unit_cases]|].
  destruct (Z.leb_spec u 0x7ff); [apply Hone; [by unit_cases|unfold unit_size; by unit_cases]|].
  destruct (is_high_surrogate u) eqn:Eh.
  - destruct s as [|v s']; [rewrite utf8_size_unit by done; unfold unit_size; by unit_cases|].
    fold (is_low_surrogate v). destruct (is_low_surrogate v) eqn:El.
    + apply Forall_cons in Hs as [_ Hs]. rewrite (IH2 v s') by done. rewrite utf8_size_pair by done. lia.
    + apply Hone; [by intros _ v' s'' [= <- _]|]. unfold unit_size. by unit_cases.
  - apply Hone; [done|]. unfold unit_size. unfold code_unit in *. by unit_cases.
Qed.

Lemma search_non_ascii_size s :
  Forall code_unit s ->
  match search_non_ascii s with
  | None => utf8_size s = Z.of_nat (length s)
  | Some k => utf8_size s = Z.of_nat k + utf8_size (drop k s)
  end.
Proof.
  induction s as [|u s IH]; intros Hs; simpl; [done|]. apply Forall_cons in Hs as [Hu Hs]. specialize (IH Hs).
  destruct ((0 <=? u) && (u <=? 0x7f)) eqn:Ha; [|simpl; lia].
  assert (Hs1 : utf8_size (u :: s) = 1 + utf8_size s).
  { rewrite utf8_size_unit; [|done|by unit_cases]. f_equal. unfold unit_size. by unit_cases. }
  destruct (search_non_ascii s) as [k|]; simpl drop; simpl length; simpl; lia.
Qed.

Section Truncation.
Context (runtimeBuffer : option (jstring -> Z)).

(** Node documents [Buffer.byteLength(s, "utf8")] as the UTF-8 length. *)
Context (Hbuffer : forall byteLength s, runtimeBuffer = Some byteLength -> Forall code_unit s -> byteLength s = utf8_size s).

Lemma utf8ByteLength_size s : Forall code_unit s -> utf8ByteLength runtimeBuffer s = utf8_size s.
Proof.
  intros Hs. unfold utf8ByteLength. destruct runtimeBuffer as [f|] eqn:E; [by apply Hbuffer|].
  pose proof (search_non_ascii_size s Hs) as H. destruct (search_non_ascii s) as [k|]; [|done].
  rewrite count_bytes_size by (by apply Forall_drop). done.
Qed.
End Truncation.

(** ** Lines *)

Lemma utf8_size_newline a b :
  Forall code_unit a -> utf8_size (a ++ newline :: b) = utf8_size a + 1 + utf8_size b.
Proof.
  assert (Hnl : utf8_size (newline :: b) = 1 + utf8_size b).
  { rewrite utf8_size_unit; [done| |done]. unfold code_unit, newline. lia. }
  induction a as [|u a IH1 IH2] using jstring_ind2; intros Ha; simpl app.
  { rewrite Hnl. done. }
  apply Forall_cons in Ha as [Hu Ha].
  destruct (is_high_surrogate u) eqn:Eh.
  - destruct a as [|v a'].
    + simpl app. rewrite (utf8_size_unit u []) by done. rewrite (utf8_size_unit u), Hnl; [change (utf8_size []) with 0; lia|done|].
      by intros _ v s' [= <- _].
    + destruct (is_low_surrogate v) eqn:El.
      * simpl app. apply Forall_cons in Ha as [_ Ha]. rewrite !utf8_size_pair, (IH2 v a') by done. lia.
      * rewrite (utf8_size_unit u (v :: a')), (utf8_size_unit u), IH1; [lia|..]; try done; by intros _ v' s' [= <- _].
  - rewrite !utf8_size_unit, IH1 by (done || (intros; congruence)). lia.
Qed.

Lemma split_lines_units s : Forall code_unit s -> Forall (Forall code_unit) (split_lines s).
Proof.
  induction s as [|u s IH]; intros Hs; simpl; [by repeat constructor|]. apply Forall_cons in Hs as [Hu Hs].
  specialize (IH Hs). destruct (u =? newline); [by constructor|].
  destruct (split_lines s) as [|l ls]; [by rewrite !Forall_singleton|].
  apply Forall_cons in IH as [Hl Hls]. by rewrite !Forall_cons.
Qed.

Lemma split_lines_nonempty s : split_lines s <> [].
Proof. destruct s as [|u s]; simpl; [done|]. destruct (u =? newline); [done|]. by destruct (split_lines s). Qed.

Lemma join_split s : join_lines (split_lines s) = s.
Proof.
  induction s as [|u s IH]; simpl; [done|]. pose proof (split_lines_nonempty s).
  destruct (split_lines s) as [|l ls] eqn:E; [done|]. destruct (Z.eqb_spec u newline) as [->|].
  - change (newline :: join_lines (l :: ls) = newline :: s). by f_equal.
  - rewrite <- IH. by destruct ls.
Qed.

Lemma split_lines_free s : Forall (Forall (fun u => u <> newline)) (split_lines s).
Proof.
  induction s as [|u s IH]; simpl; [by repeat constructor|].
  destruct (Z.eqb_spec u newline) as [_|Hn]; [by repeat constructor|].
  destruct IH as [|l ls Hl Hls]; by repeat constructor.
Qed.

Lemma split_line l s : Forall (fun u => u <> newline) l -> split_lines (l ++ newline :: s) = l :: split_lines s.
Proof.
  induction 1 as [|u l Hu _ IH]; [done|]. simpl. rewrite IH. by destruct (Z.eqb_spec u newline).
Qed.

Lemma split_one_line l : Forall (fun u => u <> newline) l -> split_lines l = [l].
Proof. induction 1 as [|u l Hu _ IH]; [done|]. simpl. rewrite IH. by destruct (Z.eqb_spec u newline). Qed.

Lemma split_join ls : ls <> [] -> Forall (Forall (fun u => u <> newline)) ls -> split_lines (join_lines ls) = ls.
Proof.
  intros Hne Hf. induction Hf as [|l [|l' ls] Hl Hf IH]; [done|by apply split_one_line|].
  change (join_lines (l :: l' :: ls)) with (l ++ newline :: join_lines (l' :: ls)). rewrite split_line by done.
  by rewrite IH.
Qed.

Lemma join_lines_snoc ls l : join_lines (ls ++ [l]) = match ls with [] => l | _ => join_lines ls ++ newline :: l end.
Proof.
  induction ls as [|x ls IH]; [done|]. destruct ls as [|y ls]; [done|].
  change (x ++ newline :: join_lines ((y :: ls) ++ [l]) = (x ++ newline :: join_lines (y :: ls)) ++ newline :: l).
  rewrite IH, <- app_assoc. done.
Qed.

Lemma splitLinesForCounting_units s : Forall code_unit s -> Forall (Forall code_unit) (splitLinesForCounting s).
Proof.
  intros Hs. unfold splitLinesForCounting. destruct s as [|u s]; [constructor|].
  case_bool_decide; [apply Forall_take|]; by apply split_lines_units.
Qed.

(** The counted lines are the content without its final newline. *)
Lemma splitLinesForCounting_join s :
  s = join_lines (splitLinesForCounting s) ++ (if bool_decide (last s = Some newline) then [newline] else []).
Proof.
  unfold splitLinesForCounting. destruct s as [|u s]; [done|]. set (t := u :: s).
  case_bool_decide as Hl; [|by rewrite app_nil_r, join_split].
  destruct (exists_last (split_lines_nonempty t)) as (ls & l & E). rewrite E, length_app. simpl length.
  replace (length ls + 1 - 1)%nat with (length ls) by lia. rewrite take_app_length.
  pose proof (join_split t) as Hj. rewrite E, join_lines_snoc in Hj.
  apply last_Some in Hl as [pre Hpre].
  assert (Hnil : l = []).
  { clear -E Hpre. revert ls l E. rewrite Hpre. clear. induction pre as [|v pre IH]; intros ls l E; simpl in E.
    - destruct ls as [|? [|? [|? ?]]]; simplify_eq/=; done.
    - pose proof (split_lines_nonempty (pre ++ [newline])). destruct (v =? newline).
      + destruct ls as [|x ls]; simplify_eq/=. by eapply IH.
      + destruct (split_lines (pre ++ [newline])) as [|y ys] eqn:Ey; [done|].
        destruct ls as [|x ls]; simplify_eq/=; [|by apply (IH (y :: ls) l)].
        specialize (IH [] y eq_refl). subst y.
        assert (Hj := join_split (pre ++ [newline])). rewrite Ey in Hj. simpl in Hj. by destruct pre. }
  subst l. destruct ls as [|x ls]; [done|]. done.
Qed.

Lemma join_lines_units ls : Forall (Forall code_unit) ls -> Forall code_unit (join_lines ls).
Proof.
  induction 1 as [|l ls Hl Hls IH]; [constructor|]. destruct ls as [|y ls]; [done|].
  change (Forall code_unit (l ++ newline :: join_lines (y :: ls))). apply Forall_app. split; [done|].
  constructor; [unfold code_unit, newline; lia|done].
Qed.

Lemma splitLinesForCounting_nil s : splitLinesForCounting s = [] -> s = [].
Proof.
  intros E. pose proof (splitLinesForCounting_join s) as H. rewrite E in H. simpl in H.
  case_bool_decide; [|done]. by rewrite H in E.
Qed.

Lemma utf8_size_join_snoc ls l :
  Forall (Forall code_unit) ls ->
  utf8_size (join_lines (ls ++ [l])) = utf8_size (join_lines ls) + utf8_size l + (if (0 <? length ls)%nat then 1 else 0).
Proof.
  intros Hls. rewrite join_lines_snoc. destruct ls as [|x ls]; [simpl; change (utf8_size []) with 0; lia|].
  rewrite utf8_size_newline by (by apply join_lines_units). simpl. lia.
Qed.

Lemma utf8_size_join_cons l ls :
  Forall code_unit l ->
  utf8_size (join_lines (l :: ls)) = utf8_size (join_lines ls) + utf8_size l + (if (0 <? length ls)%nat then 1 else 0).
Proof.
  intros Hl. destruct ls as [|x ls]; [simpl; change (utf8_size []) with 0; lia|].
  change (utf8_size (l ++ newline :: join_lines (x :: ls)) = utf8_size (join_lines (x :: ls)) + utf8_size l + 1).
  rewrite utf8_size_newline by done. lia.
Qed.

Section Loops.
Context (runtimeBuffer : option (jstring -> Z)).
Context (Hbuffer : forall byteLength s, runtimeBuffer = Some byteLength -> Forall code_unit s -> byteLength s = utf8_size s).
Context (maxLines maxBytes : Z).

(** The head loop keeps the longest prefix of the lines within both limits. *)
Lemma head_loop_spec lines : forall output out bytes by_,
  Forall (Forall code_unit) output -> Forall (Forall code_unit) lines ->
  utf8_size (join_lines output) <= maxBytes -> Z.of_nat (length output) <= maxLines ->
  head_loop runtimeBuffer lines (Z.of_nat (length output)) maxLines maxBytes output (utf8_size (join_lines output))
    = (out, bytes, by_) ->
  exists k, (k <= length lines)%nat /\ out = output ++ take k lines /\ bytes = utf8_size (join_lines out) /\
    bytes <= maxBytes /\ Z.of_nat (length out) <= maxLines /\
    (k = length lines \/ Z.of_nat (length out) = maxLines \/
     maxBytes < utf8_size (join_lines (output ++ take (S k) lines))).
Proof.
  induction lines as [|line lines IH]; intros output out bytes by_ Ho Hl Hb Hn H; simpl in H.
  { injection H as <- <- <-. exists 0%nat. rewrite app_nil_r. repeat split; try done; simpl; try lia; by left. }
  apply Forall_cons in Hl as [Hline Hl]. rewrite (utf8ByteLength_size _ Hbuffer) in H by done.
  pose proof (utf8_size_join_snoc output line Ho) as Hsz.
  assert (Hc : (if 0 <? Z.of_nat (length output) then 1 else 0) = (if (0 <? length output)%nat then 1 else 0)).
  { by destruct (Z.ltb_spec 0 (Z.of_nat (length output))), (Nat.ltb_spec 0 (length output)); try lia. }
  rewrite Hc in H.
  destruct (Z.ltb_spec (Z.of_nat (length output)) maxLines) as [Hlt|Hge].
  2:{ injection H as <- <- <-. exists 0%nat. rewrite app_nil_r. repeat split; try done; simpl; try lia. }
  destruct (Z.ltb_spec maxBytes (utf8_size (join_lines output) + (utf8_size line + (if (0 <? length output)%nat then 1 else 0)))) as [Hov|Hfit].
  { injection H as <- <- <-. exists 0%nat. rewrite app_nil_r. repeat split; try done; simpl; try lia.
    right. right. simpl. rewrite take_0. lia. }
  replace (Z.of_nat (length output) + 1) with (Z.of_nat (length (output ++ [line]))) in H by (rewrite length_app; simpl; lia).
  replace (utf8_size (join_lines output) + (utf8_size line + (if (0 <? length output)%nat then 1 else 0)))
    with (utf8_size (join_lines (output ++ [line]))) in * by lia.
  destruct (IH (output ++ [line]) out bytes by_) as (k & Hk & -> & -> & Hbo & Hlo & Hmax);
    [by apply Forall_app; split; [|apply Forall_singleton]|done|lia|rewrite length_app; simpl; lia|done|].
  exists (S k). simpl take. rewrite <- app_assoc in *. simpl length in *. simpl app in *.
  repeat split; try done; try lia.
  destruct Hmax as [->|[?|Hmax]]; [by left|by right; left|]. right. right. by rewrite <- app_assoc in Hmax.
Qed.

(** The tail loop keeps the longest suffix within both limits, or the end of
    the last line when that alone is too long. *)
Lemma tail_loop_spec before : forall output out bytes by_ partial,
  Forall (Forall code_unit) output -> Forall (Forall code_unit) before ->
  utf8_size (join_lines output) <= maxBytes -> Z.of_nat (length output) <= maxLines ->
  tail_loop runtimeBuffer before maxLines maxBytes output (utf8_size (join_lines output)) = (out, bytes, by_, partial) ->
  (partial = false /\
   exists k, (k <= length before)%nat /\ out = reverse (take k before) ++ output /\
     bytes = utf8_size (join_lines out) /\ bytes <= maxBytes /\ Z.of_nat (length out) <= maxLines /\
     (k = length before \/ Z.of_nat (length out) = maxLines \/
      maxBytes < utf8_size (join_lines (reverse (take (S k) before) ++ output)))) \/
  (partial = true /\ output = [] /\ 0 < maxLines /\ exists line, head before = Some line /\ maxBytes < utf8_size line /\
     out = [truncateStringToBytesFromEnd line maxBytes]).
Proof.
  induction before as [|line before IH]; intros output out bytes by_ partial Ho Hl Hb Hn H; simpl in H.
  { injection H as <- <- <- <-. left. split; [done|]. exists 0%nat. repeat split; try done; simpl; try lia; by left. }
  apply Forall_cons in Hl as [Hline Hl]. rewrite (utf8ByteLength_size _ Hbuffer) in H by done.
  pose proof (utf8_size_join_cons line output Hline) as Hsz.
  destruct (Z.ltb_spec (Z.of_nat (length output)) maxLines) as [Hlt|Hge].
  2:{ injection H as <- <- <- <-. left. split; [done|]. exists 0%nat. repeat split; try done; simpl; try lia. }
  destruct (Z.ltb_spec maxBytes (utf8_size (join_lines output) + (utf8_size line + (if (0 <? length output)%nat then 1 else 0)))) as [Hov|Hfit].
  { destruct (Nat.eqb_spec (length output) 0) as [E|E].
    - right. injection H as <- <- <- <-. apply nil_length_inv in E. subst output. simpl in Hov.
      split; [done|]. split; [done|]. split; [simpl in Hlt; lia|]. exists line. split; [done|]. split; [|done].
      change (utf8_size []) with 0 in Hov. lia.
    - left. injection H as <- <- <- <-. split; [done|]. exists 0%nat. repeat split; try done; simpl; try lia.
      right. right. change (maxBytes < utf8_size (join_lines (line :: output))). lia. }
  replace (utf8_size (join_lines output) + (utf8_size line + (if (0 <? length output)%nat then 1 else 0)))
    with (utf8_size (join_lines (line :: output))) in * by lia.
  destruct (IH (line :: output) out bytes by_ partial) as [(Hp & k & Hk & -> & -> & Hbo & Hlo & Hmax)|(_ & ? & _)];
    [by constructor|done|lia|simpl; lia|done| |done].
  left. split; [done|]. exists (S k). simpl take. rewrite reverse_cons, <- app_assoc.
  repeat split; try done; simpl length in *; try lia.
  destruct Hmax as [->|[?|Hmax]]; [by left|by right; left|]. right. right.
  change (take (S (S k)) (line :: before)) with (line :: take (S k) before). by rewrite reverse_cons, <- app_assoc.
Qed.
End Loops.

(** ** Characters from the end *)

Lemma replaceUnpairedSurrogates_spec s :
  Forall code_unit s ->
  let r := replaceUnpairedSurrogates s in
  Forall code_unit r /\ well_formed r = true /\ utf8_size r = utf8_size s /\ (well_formed s = true -> r = s).
Proof.
  assert (Hfffd : forall r, Forall code_unit r -> well_formed r = true ->
     Forall code_unit (0xFFFD :: r) /\ well_formed (0xFFFD :: r) = true /\ utf8_size (0xFFFD :: r) = 3 + utf8_size r).
  { intros r Hr Hw. split; [constructor; [unfold code_unit; lia|done]|]. split; [done|].
    rewrite utf8_size_unit; [done|unfold code_unit; lia|done]. }
  induction s as [|u s IH1 IH2] using jstring_ind2; intros Hs r; [done|].
  apply Forall_cons in Hs as [Hu Hs]. unfold r. clear r. simpl.
  destruct (is_high_surrogate u) eqn:Eh.
  - assert (Hsz : unit_size u = 3) by (unfold unit_size; by unit_cases).
    destruct s as [|v s'].
    { destruct (Hfffd [] (Forall_nil_2 _) eq_refl) as (? & ? & E). split; [done|]. split; [done|].
      split; [|done]. rewrite E, (utf8_size_unit u []) by done. by rewrite Hsz. }
    destruct (is_low_surrogate v) eqn:El.
    + apply Forall_cons in Hs as [Hv Hs]. destruct (IH2 v s' eq_refl Hs) as (H1 & H2 & H3 & H4).
      split; [by repeat (constructor; [done|])|]. split; [simpl; by rewrite Eh, El|].
      split; [by rewrite !utf8_size_pair, H3|]. simpl. intros Hw. by rewrite H4.
    + destruct (IH1 Hs) as (H1 & H2 & H3 & H4). destruct (Hfffd _ H1 H2) as (H5 & H6 & H7).
      split; [done|]. split; [done|]. split; [|done]. rewrite H7, H3, (utf8_size_unit u (v :: s')), Hsz; [done|done|].
      by intros _ v' s'' [= <- _].
  - destruct (IH1 Hs) as (H1 & H2 & H3 & H4). destruct (is_low_surrogate u) eqn:El; simpl.
    + destruct (Hfffd _ H1 H2) as (H5 & H6 & H7). split; [done|]. split; [done|]. split; [|done].
      rewrite H7, H3, (utf8_size_unit u s); [|done|congruence]. f_equal. unfold unit_size. by unit_cases.
    + split; [by constructor|]. split; [by rewrite Eh, El|].
      split; [rewrite (utf8_size_unit u s), (utf8_size_unit u), H3 by (done || congruence); done|]. intros Hw. by rewrite H4.
Qed.

(** The cut is not inside a surrogate pair. *)
Definition whole_characters (before output : jstring) : Prop :=
  forall u v, head before = Some u -> head output = Some v -> is_high_surrogate u && is_low_surrogate v = false.

Definition last_bytes (code : Z) (rest : jstring) : Z := (last_character code (head rest)).1.2.

Section FromEnd.
Context (maxBytes : Z).

(** What the backward loop has established when it stops. *)
Definition taken (before output out : jstring) (needs : bool) : Prop :=
  exists k, out = reverse (take k before) ++ output /\ utf8_size out <= maxBytes /\
    (needs = false -> well_formed out = true) /\ whole_characters (drop k before) out /\
    (forall code rest, drop k before = code :: rest -> maxBytes < utf8_size out + last_bytes code rest).

Lemma taken_step before output out needs chars :
  forall rest, before = reverse chars ++ rest -> taken rest (chars ++ output) out needs -> taken before output out needs.
Proof.
  intros rest -> (k & -> & H1 & H2 & H3 & H4). exists (length (reverse chars) + k)%nat.
  rewrite take_app_add, drop_app_add, reverse_app, reverse_involutive, <- app_assoc. done.
Qed.

(** A character taken as a single code unit. *)
Lemma single_character code output rest :
  code_unit code -> whole_characters (code :: rest) output ->
  (is_low_surrogate code = true -> forall p, head rest = Some p -> is_high_surrogate p = false) ->
  utf8_size (code :: output) = unit_size code + utf8_size output /\ whole_characters rest (code :: output) /\
  (is_surrogate code = false -> well_formed output = true -> well_formed (code :: output) = true).
Proof.
  intros Hu Hw Hl. split; [|split].
  - apply utf8_size_unit; [done|]. intros Hh v s' ->. specialize (Hw code v eq_refl eq_refl). by rewrite Hh in Hw.
  - intros u v Hu' [= <-]. destruct (is_low_surrogate code) eqn:El; [|by rewrite andb_false_r].
    by rewrite (Hl eq_refl u Hu').
  - intros Hs Hok. simpl. destruct (is_high_surrogate code) eqn:Eh; [by unit_cases|].
    destruct (is_low_surrogate code) eqn:El; [by unit_cases|done].
Qed.

Lemma take_from_end_spec before : forall output needs out needs',
  Forall code_unit before -> Forall code_unit output -> whole_characters before output ->
  utf8_size output <= maxBytes -> (needs = false -> well_formed output = true) ->
  take_from_end before (utf8_size output) maxBytes output needs = (out, needs') ->
  taken before output out needs'.
Proof.
  induction before as [|code before IH1 IH2] using jstring_ind2; intros output needs out needs' Hb Ho Hw Hs Hn H.
  { simpl in H. injection H as <- <-. exists 0%nat. done. }
  apply Forall_cons in Hb as [Hu Hb]. simpl in H.
  destruct (last_character code (head before)) as [[units bytes] unpaired] eqn:Ec.
  destruct (Z.ltb_spec maxBytes (utf8_size output + bytes)) as [Hov|Hfit].
  { injection H as <- <-. exists 0%nat. split; [done|]. split; [done|]. split; [done|]. split; [done|].
    intros c r [= <- <-]. unfold last_bytes. by rewrite Ec. }
  assert (Hsingle : units = 1%nat -> bytes = unit_size code -> unpaired = is_surrogate code ->
    (is_low_surrogate code = true -> forall p, head before = Some p -> is_high_surrogate p = false) ->
    taken (code :: before) output out needs').
  { intros -> -> -> Hl. destruct (single_character code output before Hu Hw Hl) as (E & Hw' & Hwf).
    apply (taken_step _ _ _ _ [code] before eq_refl). cbn [app].
    apply (IH1 _ (needs || is_surrogate code)); [done|by constructor|done|lia| |rewrite E, Z.add_comm; exact H].
    intros [? ?]%orb_false_iff. auto. }
  unfold last_character in Ec. destruct (is_low_surrogate code) eqn:El.
  - destruct before as [|p before']; simpl in Ec.
    + apply Hsingle; [by destruct (is_surrogate code); simplify_eq|..|by intros _ ?].
      * unfold unit_size. destruct (is_surrogate code); by simplify_eq.
      * destruct (is_surrogate code); by simplify_eq.
    + assert (Hsur : is_surrogate code = true) by (by unit_cases).
      destruct (is_high_surrogate p) eqn:Ep; simplify_eq.
      * apply Forall_cons in Hb as [Hp Hb]. apply (taken_step _ _ _ _ [p; code] before' eq_refl). cbn [app].
        apply (IH2 p before' eq_refl _ (needs || false)); [done|by repeat (constructor; [done|])| | | |].
        -- intros u v _ [= <-]. assert (is_low_surrogate p = false) as -> by (by unit_cases). by rewrite andb_false_r.
        -- rewrite utf8_size_pair by done. lia.
        -- rewrite orb_false_r. intros ->. simpl. by rewrite Ep, El, Hn.
        -- rewrite utf8_size_pair, Z.add_comm by done. exact H.
      * apply Hsingle; [done|unfold unit_size; by rewrite Hsur|done|]. by intros _ p' [= <-].
  - destruct (is_surrogate code) eqn:Es; simplify_eq.
    + apply Hsingle; [done|unfold unit_size; by rewrite Es|done|done].
    + apply Hsingle; [done|unfold unit_size; by rewrite Es|done|done].
Qed.
End FromEnd.

Lemma truncateFromEnd_cut str maxBytes :
  0 <= maxBytes -> Forall code_unit str ->
  exists pre suf, str = pre ++ suf /\
    truncateStringToBytesFromEnd str maxBytes = replaceUnpairedSurrogates suf /\
    well_formed (truncateStringToBytesFromEnd str maxBytes) = true /\
    utf8_size (truncateStringToBytesFromEnd str maxBytes) <= maxBytes /\
    whole_characters (reverse pre) suf /\
    (forall code rest, reverse pre = code :: rest -> maxBytes < utf8_size suf + last_bytes code rest).
Proof.
  intros Hm Hs. unfold truncateStringToBytesFromEnd. destruct (Z.leb_spec maxBytes 0) as [H0|H0].
  { exists str, []. rewrite app_nil_r. repeat split; try done. intros code rest _. change (utf8_size []) with 0.
    unfold last_bytes, last_character. repeat case_match; simpl; lia. }
  destruct (take_from_end (reverse str) 0 maxBytes [] false) as [out needs] eqn:E.
  apply (take_from_end_spec maxBytes (reverse str) [] false) in E as (k & Hout & Hsz & Hwf & Hwhole & Hmax);
    [|by apply Forall_reverse|constructor|done|done|done].
  rewrite app_nil_r in Hout.
  exists (reverse (drop k (reverse str))), out. rewrite reverse_involutive.
  assert (Hstr : str = reverse (drop k (reverse str)) ++ out).
  { rewrite Hout, <- reverse_app, take_drop. by rewrite reverse_involutive. }
  assert (Hunits : Forall code_unit out) by (rewrite Hstr in Hs; by apply Forall_app in Hs as [_ ?]).
  destruct (replaceUnpairedSurrogates_spec out Hunits) as (_ & R2 & R3 & R4).
  split; [done|]. destruct needs.
  - split; [done|]. split; [done|]. split; [lia|done].
  - rewrite (R4 (Hwf eq_refl)) in *. done.
Qed.

(** ** Claims *)

Section Claims.
Context (runtimeBuffer : option (jstring -> Z)).
Context (Hbuffer : forall byteLength s, runtimeBuffer = Some byteLength -> Forall code_unit s -> byteLength s = utf8_size s).

(** bytes are counted alike with and without the runtime's Buffer: the
    count is the length of the UTF-8 encoding, where an unpaired surrogate takes
    three bytes. *)
Theorem utf8ByteLength_exact (content : jstring) (Hc : Forall code_unit content) :
  utf8ByteLength runtimeBuffer content = utf8_size content.
Proof. by apply utf8ByteLength_size. Qed.

(** head truncation returns the content unchanged exactly when it meets
    both limits; otherwise it returns whole lines only, the longest prefix of
    the lines that meets both limits, with true line and byte counts. *)
Theorem truncateHead_longest_prefix (content : jstring) (maxLines maxBytes : Z)
    (Hc : Forall code_unit content) (Hl : 0 <= maxLines) (Hb : 0 <= maxBytes) :
  let lines := splitLinesForCounting content in
  let fits := Z.of_nat (length lines) <= maxLines /\ utf8_size content <= maxBytes in
  exists r, truncateHead runtimeBuffer content {| to_maxLines := Some maxLines; to_maxBytes := Some maxBytes |} = Some r /\
    (tr_truncated r = false <-> fits) /\
    (tr_truncated r = false -> tr_content r = content) /\
    tr_outputBytes r = utf8_size (tr_content r) /\ tr_outputBytes r <= maxBytes /\ tr_outputLines r <= maxLines /\
    (tr_truncated r = true -> exists k, (k <= length lines)%nat /\
       tr_content r = join_lines (take k lines) /\ tr_outputLines r = Z.of_nat k /\
       (k = length lines \/ Z.of_nat k = maxLines \/ maxBytes < utf8_size (join_lines (take (S k) lines)))).
Proof.
  intros lines fits. pose proof (splitLinesForCounting_units content Hc) as Hu. fold lines in Hu.
  unfold truncateHead. simpl default. rewrite (utf8ByteLength_size _ Hbuffer) by done. fold lines.
  destruct (andb _ _) eqn:Hfit.
  { apply andb_prop in Hfit as [?%Z.leb_le ?%Z.leb_le]. eexists. split; [reflexivity|]. unfold fits. simpl. repeat split; done || lia. }
  assert (Hnf : ~ fits) by (unfold fits; apply andb_false_iff in Hfit as [?%Z.leb_gt|?%Z.leb_gt]; lia).
  destruct lines as [|first rest] eqn:El.
  { exfalso. apply Hnf. apply splitLinesForCounting_nil in El. unfold fits. rewrite El.
    change (utf8_size []) with 0. simpl. lia. }
  pose proof Hu as [Hfirst _]%Forall_cons. rewrite (utf8ByteLength_size _ Hbuffer first) by done.
  destruct (Z.ltb_spec maxBytes (utf8_size first)) as [Hov|Hok].
  { eexists. split; [reflexivity|]. simpl. repeat split; try done. intros _. exists 0%nat. split; [lia|].
    split; [done|]. split; [done|]. right. right. exact Hov. }
  destruct (head_loop _ _ _ _ _ _ _) as [[out bytes] by_] eqn:Eh.
  destruct (head_loop_spec runtimeBuffer Hbuffer maxLines maxBytes (first :: rest) [] out bytes by_)
    as (k & Hk & -> & -> & Hbo & Hlo & Hmax); [constructor|done|done|done|exact Eh|]. simpl app in *.
  eexists. split; [reflexivity|]. cbn [tr_truncated tr_content tr_outputBytes tr_outputLines].
  assert (Hlen : length (take k (first :: rest)) = k) by (rewrite length_take; lia).
  rewrite (utf8ByteLength_size _ Hbuffer) by (by apply join_lines_units, Forall_take).
  split; [done|]. split; [done|]. split; [done|]. split; [done|]. split; [done|]. intros _. exists k.
  rewrite Hlen in *. done.
Qed.

(** tail truncation returns the content unchanged exactly when it meets
    both limits; otherwise it keeps the longest suffix of the lines that meets
    both, or, when the last line alone is too long, whole characters from the
    end of it; the byte limit is never exceeded. *)
Theorem truncateTail_longest_suffix (content : jstring) (maxLines maxBytes : Z)
    (Hc : Forall code_unit content) (Hl : 0 <= maxLines) (Hb : 0 <= maxBytes) :
  let lines := splitLinesForCounting content in
  let fits := Z.of_nat (length lines) <= maxLines /\ utf8_size content <= maxBytes in
  let r := truncateTail runtimeBuffer content {| to_maxLines := Some maxLines; to_maxBytes := Some maxBytes |} in
  (tr_truncated r = false <-> fits) /\
  (tr_truncated r = false -> tr_content r = content) /\
  tr_outputBytes r = utf8_size (tr_content r) /\ tr_outputBytes r <= maxBytes /\ tr_outputLines r <= maxLines /\
  (tr_truncated r = true -> tr_lastLinePartial r = false ->
     exists k, (k <= length lines)%nat /\
       tr_content r = join_lines (drop (length lines - k) lines) /\ tr_outputLines r = Z.of_nat k /\
       (k = length lines \/ Z.of_nat k = maxLines \/
        maxBytes < utf8_size (join_lines (drop (length lines - S k) lines)))) /\
  (tr_lastLinePartial r = true -> exists line, last lines = Some line /\ maxBytes < utf8_size line /\
     tr_content r = truncateStringToBytesFromEnd line maxBytes).
Proof.
  intros lines fits r. pose proof (splitLinesForCounting_units content Hc) as Hu. fold lines in Hu.
  unfold r, truncateTail. simpl default. rewrite (utf8ByteLength_size _ Hbuffer) by done. fold lines.
  destruct (andb _ _) eqn:Hfit.
  { apply andb_prop in Hfit as [?%Z.leb_le ?%Z.leb_le]. unfold fits. simpl. repeat split; done || lia. }
  assert (Hnf : ~ fits) by (unfold fits; apply andb_false_iff in Hfit as [?%Z.leb_gt|?%Z.leb_gt]; lia).
  destruct (tail_loop _ _ _ _ _ _) as [[[out bytes] by_] partial] eqn:Et.
  destruct (tail_loop_spec runtimeBuffer Hbuffer maxLines maxBytes (reverse lines) [] out bytes by_ partial)
    as [(-> & k & Hk & -> & -> & Hbo & Hlo & Hmax)|(-> & _ & Hpos & line & Hline & Hov & ->)];
    [constructor|by apply Forall_reverse|done|done|exact Et|..];
    cbn [tr_truncated tr_content tr_outputBytes tr_outputLines tr_lastLinePartial].
  - rewrite !app_nil_r in *. rewrite length_reverse in Hk, Hmax.
    assert (Hdrop : forall j, reverse (take j (reverse lines)) = drop (length lines - j) lines).
    { intros j. by rewrite <- reverse_drop, reverse_involutive || by rewrite take_reverse, reverse_involutive. }
    rewrite !Hdrop in *.
    assert (Hlen : length (drop (length lines - k) lines) = k) by (rewrite length_drop; lia).
    rewrite (utf8ByteLength_size _ Hbuffer) by (by apply join_lines_units, Forall_drop).
    split; [done|]. split; [done|]. split; [done|]. split; [done|]. split; [done|]. split; [|done].
    intros _ _. exists k. rewrite Hlen in *. done.
  - rewrite head_reverse in Hline.
    assert (Hlu : Forall code_unit line) by (apply last_Some_elem_of in Hline; by apply (Forall_forall (Forall code_unit) lines)).
    destruct (truncateFromEnd_cut line maxBytes Hb Hlu) as (pre & suf & Hsplit & Heq & Hwf & Hsz & _ & _).
    assert (Hsu : Forall code_unit suf) by (rewrite Hsplit in Hlu; by apply Forall_app in Hlu as [_ ?]).
    destruct (replaceUnpairedSurrogates_spec suf Hsu) as (Hru & _).
    rewrite (utf8ByteLength_size _ Hbuffer) by (simpl; by rewrite Heq). simpl join_lines.
    split; [done|]. split; [done|]. split; [done|]. split; [done|]. split; [simpl; lia|]. split; [done|].
    intros _. by exists line.
Qed.
End Claims.

(** cutting a string to a byte limit from its end keeps whole characters:
    the result is the largest suffix that fits, it never splits a surrogate
    pair, unpaired surrogates of the original are replaced, and the result is
    well-formed text within the limit. *)
Theorem truncateFromEnd_whole_characters (str : jstring) (maxBytes : Z)
    (Hm : 0 <= maxBytes) (Hs : Forall code_unit str) :
  exists pre suf, str = pre ++ suf /\
    truncateStringToBytesFromEnd str maxBytes = replaceUnpairedSurrogates suf /\
    well_formed (truncateStringToBytesFromEnd str maxBytes) = true /\
    utf8_size (truncateStringToBytesFromEnd str maxBytes) <= maxBytes /\
    whole_characters (reverse pre) suf /\
    (forall code rest, reverse pre = code :: rest -> maxBytes < utf8_size suf + last_bytes code rest).
Proof. by apply truncateFromEnd_cut. Qed.

(** The reported limit is wrong when only a final newline is over the byte
    limit: one line of one byte, under a limit of ten lines and one byte, is
    reported as cut by the line limit. *)
Lemma truncatedBy_trailing_newline :
  truncateHead (Some utf8_size) [97; newline] {| to_maxLines := Some 10; to_maxBytes := Some 1 |} =
    Some {| tr_content := [97]; tr_truncated := true; tr_truncatedBy := Some TB_lines;
            tr_totalLines := 1; tr_totalBytes := 2; tr_outputLines := 1; tr_outputBytes := 1;
            tr_lastLinePartial := false; tr_firstLineExceedsLimit := false; tr_maxLines := 10; tr_maxBytes := 1 |}.
Proof. reflexivity. Qed.

(** ** Witnesses *)

Lemma utf8_size_buffer byteLength s : Some utf8_size = Some byteLength -> Forall code_unit s -> byteLength s = utf8_size s.
Proof. intros [= <-] _. reflexivity. Defined.

(** Two lines; the second holds a character outside the basic plane. *)
Definition ex_content : jstring := [97; 98; newline; 99; 0xD83D; 0xDE00; newline].

Ltac units := unfold ex_content, newline, code_unit; repeat constructor; simpl; lia.

Lemma utf8ByteLength_exact_witness :
  utf8ByteLength None ex_content = utf8_size ex_content /\ utf8ByteLength (Some utf8_size) ex_content = utf8_size ex_content.
Proof.
  split.
  - apply (utf8ByteLength_exact None); [intros f s [=]|units].
  - apply (utf8ByteLength_exact (Some utf8_size)); [exact utf8_size_buffer|units].
Defined.

Lemma truncateHead_longest_prefix_witness :
  let lines := splitLinesForCounting ex_content in
  let fits := Z.of_nat (length lines) <= 5 /\ utf8_size ex_content <= 7 in
  exists r, truncateHead (Some utf8_size) ex_content {| to_maxLines := Some 5; to_maxBytes := Some 7 |} = Some r /\
    (tr_truncated r = false <-> fits) /\
    (tr_truncated r = false -> tr_content r = ex_content) /\
    tr_outputBytes r = utf8_size (tr_content r) /\ tr_outputBytes r <= 7 /\ tr_outputLines r <= 5 /\
    (tr_truncated r = true -> exists k, (k <= length lines)%nat /\
       tr_content r = join_lines (take k lines) /\ tr_outputLines r = Z.of_nat k /\
       (k = length lines \/ Z.of_nat k = 5 \/ 7 < utf8_size (join_lines (take (S k) lines)))).
Proof.
  apply (truncateHead_longest_prefix (Some utf8_size) utf8_size_buffer ex_content 5 7); [units|lia|lia].
Defined.

Lemma truncateTail_longest_suffix_witness :
  let lines := splitLinesForCounting ex_content in
  let fits := Z.of_nat (length lines) <= 5 /\ utf8_size ex_content <= 4 in
  let r := truncateTail (Some utf8_size) ex_content {| to_maxLines := Some 5; to_maxBytes := Some 4 |} in
  (tr_truncated r = false <-> fits) /\
  (tr_truncated r = false -> tr_content r = ex_content) /\
  tr_outputBytes r = utf8_size (tr_content r) /\ tr_outputBytes r <= 4 /\ tr_outputLines r <= 5 /\
  (tr_truncated r = true -> tr_lastLinePartial r = false ->
     exists k, (k <= length lines)%nat /\
       tr_content r = join_lines (drop (length lines - k) lines) /\ tr_outputLines r = Z.of_nat k /\
       (k = length lines \/ Z.of_nat k = 5 \/
        4 < utf8_size (join_lines (drop (length lines - S k) lines)))) /\
  (tr_lastLinePartial r = true -> exists line, last lines = Some line /\ 4 < utf8_size line /\
     tr_content r = truncateStringToBytesFromEnd line 4).
Proof.
  apply (truncateTail_longest_suffix (Some utf8_size) utf8_size_buffer ex_content 5 4); [units|lia|lia].
Defined.

Lemma truncateFromEnd_whole_characters_witness :
  let str := [97; 0xD800; 98; 0xD83D; 0xDE00] in
  truncateStringToBytesFromEnd str 8 = [0xFFFD; 98; 0xD83D; 0xDE00] /\
  exists pre suf, str = pre ++ suf /\
    truncateStringToBytesFromEnd str 8 = replaceUnpairedSurrogates suf /\
    well_formed (truncateStringToBytesFromEnd str 8) = true /\
    utf8_size (truncateStringToBytesFromEnd str 8) <= 8 /\
    whole_characters (reverse pre) suf /\
    (forall code rest, reverse pre = code :: rest -> 8 < utf8_size suf + last_bytes code rest).
Proof.
  intros str. split; [vm_compute; reflexivity|].
  apply (truncateFromEnd_whole_characters str 8); [lia|unfold str; units].
Defined.
