(* ===== verification/Compaction.v ===== *)
(** * Context compaction

    packages/agent/src/harness/compaction: token estimates, the choice of the
    cut point, the partition of a branch into summarized and retained messages
    ([prepareCompaction]) of compaction.ts, and the file-operation bookkeeping
    of utils.ts.

    Token estimates are integers; reported usage stays a double.  Entry indices
    are natural numbers inside the entry list (the callers pass 0 and its
    length), and an index of -1 is [None].  File sets hold strings: details
    written by this code list paths only.  [number_to_string] is the language's
    number formatting, used by [JSON.stringify]. *)

From stdpp Require Import base list gmap strings pretty sorting.
From Stdlib Require Import ZArith Lia.
From S2P Require Import Prelude SessionTypes Numbers SessionContext.
Open Scope Z_scope.

(** [parts.join(separator)] *)
Fixpoint join (separator : jstring) (parts : list jstring) : jstring :=
  match parts with
  | [] => []
  | [part] => part
  | part :: parts' => part ++ separator ++ join separator parts'
  end.

(** ** JSON.stringify *)

Definition hex_digit (d : Z) : Z := if d <? 10 then 48 + d else 87 + d.

Definition unicode_escape (u : Z) : jstring :=
  js "\u" ++ [hex_digit (u / 4096); hex_digit ((u / 256) mod 16); hex_digit ((u / 16) mod 16); hex_digit (u mod 16)].

Definition escape_unit (u : Z) : jstring :=
  if u =? 8 then js "\b" else if u =? 9 then js "\t" else if u =? 10 then js "\n"
  else if u =? 12 then js "\f" else if u =? 13 then js "\r"
  else if u =? 34 then [92; 34] else if u =? 92 then js "\\"
  else if u <? 32 then unicode_escape u else [u].

(** An unpaired surrogate is escaped. *)
Fixpoint escape_string (s : jstring) : jstring :=
  match s with
  | [] => []
  | u :: s' =>
      if (0xD800 <=? u) && (u <=? 0xDBFF) then
        match s' with
        | v :: s'' =>
            if (0xDC00 <=? v) && (v <=? 0xDFFF) then u :: v :: escape_string s''
            else unicode_escape u ++ escape_string s'
        | [] => unicode_escape u
        end
      else if (0xDC00 <=? u) && (u <=? 0xDFFF) then unicode_escape u ++ escape_string s'
      else escape_unit u ++ escape_string s'
  end.

Definition quote_string (s : jstring) : jstring := [34] ++ escape_string s ++ [34].

Section Compaction.
Context (number_to_string : number -> jstring).

Fixpoint json_stringify (j : json) : jstring :=
  match j with
  | JNull => js "null"
  | JBool b => if b then js "true" else js "false"
  | JNumber n => if is_finite n then number_to_string n else js "null"
  | JString s => quote_string s
  | JArray l => js "[" ++ join (js ",") (map json_stringify l) ++ js "]"
  | JObject l => js "{" ++ join (js ",") (map (fun p => quote_string p.1 ++ js ":" ++ json_stringify p.2) l) ++ js "}"
  end.

(** JSON values neither throw nor stringify to [undefined]. *)
Definition safeJsonStringify (value : json) : jstring := json_stringify value.

(** ** Token estimates *)

Record CompactionSettings := {
  set_enabled : bool;
  set_reserveTokens : Z;
  set_keepRecentTokens : Z;
  set_summaryMaxTokens : option Z }.

Definition DEFAULT_COMPACTION_SETTINGS : CompactionSettings :=
  {| set_enabled := true; set_reserveTokens := 16384; set_keepRecentTokens := 20000; set_summaryMaxTokens := None |}.

Definition combine_optional (a b : option number) : option number :=
  match a, b with
  | None, None => None
  | _, _ => Some (nadd (default nzero a) (default nzero b))
  end.

Definition combineUsage (first second : Usage) : Usage :=
  {| usage_input := nadd (usage_input first) (usage_input second);
     usage_output := nadd (usage_output first) (usage_output second);
     usage_cacheRead := nadd (usage_cacheRead first) (usage_cacheRead second);
     usage_cacheWrite := nadd (usage_cacheWrite first) (usage_cacheWrite second);
     usage_cacheWrite1h := combine_optional (usage_cacheWrite1h first) (usage_cacheWrite1h second);
     usage_reasoning := combine_optional (usage_reasoning first) (usage_reasoning second);
     usage_totalTokens := nadd (usage_totalTokens first) (usage_totalTokens second);
     usage_cost :=
       {| cost_input := nadd (cost_input (usage_cost first)) (cost_input (usage_cost second));
          cost_output := nadd (cost_output (usage_cost first)) (cost_output (usage_cost second));
          cost_cacheRead := nadd (cost_cacheRead (usage_cost first)) (cost_cacheRead (usage_cost second));
          cost_cacheWrite := nadd (cost_cacheWrite (usage_cost first)) (cost_cacheWrite (usage_cost second));
          cost_total := nadd (cost_total (usage_cost first)) (cost_total (usage_cost second)) |} |}.

Definition calculateContextTokens (usage : Usage) : number :=
  nor (usage_totalTokens usage)
      (nadd (nadd (nadd (usage_input usage) (usage_output usage)) (usage_cacheRead usage)) (usage_cacheWrite usage)).

Definition getAssistantUsage (msg : AgentMessage) : option Usage :=
  match msg with
  | AM_message (M_assistant a) =>
      if negb (bool_decide (asst_stopReason a = SR_aborted)) && negb (bool_decide (asst_stopReason a = SR_error)) &&
         ngtb (calculateContextTokens (asst_usage a)) nzero
      then Some (asst_usage a) else None
  | _ => None
  end.

(** The loop over the reversed entries. *)
Fixpoint last_entry_usage (rev_entries : list Entry) : option Usage :=
  match rev_entries with
  | [] => None
  | e :: rest =>
      match entry_payload e with
      | E_message m _ => match getAssistantUsage m with Some u => Some u | None => last_entry_usage rest end
      | _ => last_entry_usage rest
      end
  end.

Definition getLastAssistantUsage (entries : list Entry) : option Usage := last_entry_usage (reverse entries).

Record ContextUsageEstimate := {
  est_tokens : number;
  est_usageTokens : number;
  est_trailingTokens : Z;
  est_lastUsageIndex : option nat }.

Fixpoint last_usage_info (rev_messages : list AgentMessage) : option (Usage * nat) :=
  match rev_messages with
  | [] => None
  | m :: rest => match getAssistantUsage m with Some u => Some (u, length rest) | None => last_usage_info rest end
  end.

Definition getLastAssistantUsageInfo (messages : list AgentMessage) : option (Usage * nat) :=
  last_usage_info (reverse messages).

Definition ESTIMATED_IMAGE_CHARS : Z := 4800.

(** [CJK_CHAR_PATTERN], on code units. *)
Definition is_cjk (u : Z) : bool :=
  ((0x3000 <=? u) && (u <=? 0x9FFF)) || ((0xF900 <=? u) && (u <=? 0xFAFF)) || ((0xAC00 <=? u) && (u <=? 0xD7AF)).

(** [Math.ceil(cjkChars * 0.75 + otherChars / 4)]; the sum is exact. *)
Definition estimateTextTokens (text : jstring) : Z :=
  let cjkChars := Z.of_nat (length (List.filter is_cjk text)) in
  let otherChars := Z.of_nat (length text) - cjkChars in
  (3 * cjkChars + otherChars + 3) / 4.

Definition estimate_block (b : UserBlock) : Z :=
  match b with
  | UB_text t => match text_text t with [] => 0 | s => estimateTextTokens s end
  | UB_image _ => ESTIMATED_IMAGE_CHARS / 4
  end.

Definition estimate_blocks (l : list UserBlock) : Z := foldl (fun tokens b => tokens + estimate_block b) 0 l.

Definition estimateTextAndImageContentTokens (content : UserContent) : Z :=
  match content with UC_string s => estimateTextTokens s | UC_blocks l => estimate_blocks l end.

Definition estimate_assistant_block (b : AssistantBlock) : Z :=
  match b with
  | AB_text t => estimateTextTokens (text_text t)
  | AB_thinking t => estimateTextTokens (thinking_thinking t)
  | AB_toolCall c => estimateTextTokens (toolCall_name c ++ safeJsonStringify (JObject (toolCall_arguments c)))
  end.

Definition estimateTokens (message : AgentMessage) : Z :=
  match message with
  | AM_message (M_user m) => estimateTextAndImageContentTokens (user_content m)
  | AM_message (M_assistant a) => foldl (fun tokens b => tokens + estimate_assistant_block b) 0 (asst_content a)
  | AM_message (M_toolResult r) => estimate_blocks (tres_content r)
  | AM_message (M_system _) => 0
  | AM_custom m => estimateTextAndImageContentTokens (cmsg_content m)
  | AM_bashExecution m => estimateTextTokens (bash_command m ++ bash_output m)
  | AM_branchSummary m => estimateTextTokens (bsum_summary m)
  | AM_compactionSummary m => estimateTextTokens (csum_summary m)
  end.

Definition sum_tokens (messages : list AgentMessage) : Z := foldl (fun sum m => sum + estimateTokens m) 0 messages.

Definition estimateContextTokens (messages : list AgentMessage) : ContextUsageEstimate :=
  match getLastAssistantUsageInfo messages with
  | None =>
      let estimated := sum_tokens messages in
      {| est_tokens := number_of_Z estimated; est_usageTokens := nzero; est_trailingTokens := estimated;
         est_lastUsageIndex := None |}
  | Some (usage, index) =>
      let usageTokens := calculateContextTokens usage in
      let trailingTokens := sum_tokens (drop (S index) messages) in
      {| est_tokens := nadd usageTokens (number_of_Z trailingTokens); est_usageTokens := usageTokens;
         est_trailingTokens := trailingTokens; est_lastUsageIndex := Some index |}
  end.

Definition shouldCompact (contextTokens : number) (contextWindow : Z) (settings : CompactionSettings) : bool :=
  if negb (set_enabled settings) then false
  else ngtb contextTokens (number_of_Z (contextWindow - set_reserveTokens settings)).

(** ** Cut points *)

(** Whether a cut may fall before an entry. *)
Definition is_cut_point (e : Entry) : bool :=
  match entry_payload e with
  | E_message m _ =>
      match role_of m with
      | R_bashExecution | R_custom | R_branchSummary | R_compactionSummary | R_user | R_assistant => true
      | R_toolResult | R_system => false
      end
  | E_branch_summary _ _ _ _ => true
  | _ => false
  end.

(** The indices of [[startIndex, endIndex)] whose entry passes [p]. *)
Definition indices_where (p : Entry -> bool) (entries : list Entry) (startIndex endIndex : nat) : list nat :=
  List.filter (fun i => match entries !! i with Some e => p e | None => false end)
              (seq startIndex (endIndex - startIndex)).

Definition findValidCutPoints (entries : list Entry) (startIndex endIndex : nat) : list nat :=
  indices_where is_cut_point entries startIndex endIndex.

Definition is_turn_start (e : Entry) : bool :=
  match entry_payload e with
  | E_branch_summary _ _ _ _ => true
  | E_message m _ => match role_of m with R_user | R_bashExecution => true | _ => false end
  | _ => false
  end.

(** [for (let i = entryIndex; i >= startIndex; i--)], with [n] steps left. *)
Fixpoint turn_start_loop (entries : list Entry) (startIndex n : nat) : option nat :=
  match n with
  | O => None
  | S n' =>
      let i := (startIndex + n')%nat in
      match entries !! i with
      | Some e => if is_turn_start e then Some i else turn_start_loop entries startIndex n'
      | None => turn_start_loop entries startIndex n'
      end
  end.

Definition findTurnStartIndex (entries : list Entry) (entryIndex startIndex : nat) : option nat :=
  turn_start_loop entries startIndex (S entryIndex - startIndex).

Record CutPointResult := {
  cut_firstKeptEntryIndex : nat;
  cut_turnStartIndex : option nat;
  cut_isSplitTurn : bool }.

(** The backward token count: the index where the budget is reached. *)
Fixpoint budget_loop (entries : list Entry) (startIndex n : nat) (accumulated keepRecentTokens : Z) : option nat :=
  match n with
  | O => None
  | S n' =>
      let i := (startIndex + n')%nat in
      match entry_payload <$> entries !! i with
      | Some (E_message m _) =>
          let accumulated := accumulated + estimateTokens m in
          if keepRecentTokens <=? accumulated then Some i
          else budget_loop entries startIndex n' accumulated keepRecentTokens
      | _ => budget_loop entries startIndex n' accumulated keepRecentTokens
      end
  end.

(** [while (cutIndex > startIndex)]: back over entries that are neither
    messages nor compactions. *)
Fixpoint back_loop (entries : list Entry) (startIndex n : nat) : nat :=
  match n with
  | O => startIndex
  | S n' =>
      match entry_type <$> entries !! (startIndex + n')%nat with
      | Some T_compaction | Some T_message => (startIndex + n)%nat
      | _ => back_loop entries startIndex n'
      end
  end.

Definition is_user_message (e : Entry) : bool :=
  match entry_payload e with E_message (AM_message (M_user _)) _ => true | _ => false end.

Definition findCutPoint (entries : list Entry) (startIndex endIndex : nat) (keepRecentTokens : Z) : CutPointResult :=
  match findValidCutPoints entries startIndex endIndex with
  | [] => {| cut_firstKeptEntryIndex := startIndex; cut_turnStartIndex := None; cut_isSplitTurn := false |}
  | (first :: _) as cutPoints =>
      let cutIndex :=
        match budget_loop entries startIndex (endIndex - startIndex) 0 keepRecentTokens with
        | Some i => default first (List.find (fun c => (i <=? c)%nat) cutPoints)
        | None => first
        end in
      let cutIndex := back_loop entries startIndex (cutIndex - startIndex) in
      let isUserMessage := match entries !! cutIndex with Some e => is_user_message e | None => false end in
      let turnStartIndex := if isUserMessage then None else findTurnStartIndex entries cutIndex startIndex in
      {| cut_firstKeptEntryIndex := cutIndex; cut_turnStartIndex := turnStartIndex;
         cut_isSplitTurn := negb isUserMessage && bool_decide (is_Some turnStartIndex) |}
  end.

(** ** File operations (utils.ts)

    A [Set] of strings as its elements in insertion order. *)

Definition set_add (x : jstring) (s : list jstring) : list jstring := if bool_decide (x ∈ s) then s else s ++ [x].

Record FileOperations := { fo_read : list jstring; fo_written : list jstring; fo_edited : list jstring }.

Definition createFileOps : FileOperations := {| fo_read := []; fo_written := []; fo_edited := [] |}.

Definition add_call (fileOps : FileOperations) (c : ToolCall) : FileOperations :=
  match map_get (js "path") (toolCall_arguments c) with
  | Some (JString (u :: path)) =>
      let path := u :: path in
      if bool_decide (toolCall_name c = js "read") then
        {| fo_read := set_add path (fo_read fileOps); fo_written := fo_written fileOps; fo_edited := fo_edited fileOps |}
      else if bool_decide (toolCall_name c = js "write") then
        {| fo_read := fo_read fileOps; fo_written := set_add path (fo_written fileOps); fo_edited := fo_edited fileOps |}
      else if bool_decide (toolCall_name c = js "edit") then
        {| fo_read := fo_read fileOps; fo_written := fo_written fileOps; fo_edited := set_add path (fo_edited fileOps) |}
      else fileOps
  | _ => fileOps
  end.

Definition extractFileOpsFromMessage (fileOps : FileOperations) (message : AgentMessage) : FileOperations :=
  match message with
  | AM_message (M_assistant a) =>
      foldl (fun ops b => match b with AB_toolCall c => add_call ops c | _ => ops end) fileOps (asst_content a)
  | _ => fileOps
  end.

(** The strings of an array property of stored details. *)
Definition detail_paths (details : option json) (key : jstring) : list jstring :=
  match details with
  | Some (JObject fields) =>
      match map_get key fields with
      | Some (JArray l) => omap (fun j => match j with JString s => Some s | _ => None end) l
      | _ => []
      end
  | _ => []
  end.

Definition extractFileOperations (messages : list AgentMessage) (previousDetails : option json) : FileOperations :=
  let ops := {| fo_read := foldl (fun s x => set_add x s) [] (detail_paths previousDetails (js "readFiles"));
                fo_written := [];
                fo_edited := foldl (fun s x => set_add x s) [] (detail_paths previousDetails (js "modifiedFiles")) |} in
  foldl extractFileOpsFromMessage ops messages.

(** The default order of [sort]: by code units. *)
Fixpoint jstring_leb (a b : jstring) : bool :=
  match a, b with
  | [], _ => true
  | _ :: _, [] => false
  | x :: a', y :: b' => (x <? y) || ((x =? y) && jstring_leb a' b')
  end.

Definition jstring_le (a b : jstring) : Prop := jstring_leb a b = true.

#[global] Instance jstring_le_dec a b : Decision (jstring_le a b).
Proof. unfold jstring_le. apply _. Defined.

Definition sort_strings (l : list jstring) : list jstring := merge_sort jstring_le l.

Definition computeFileLists (fileOps : FileOperations) : list jstring * list jstring :=
  let modified := foldl (fun s x => set_add x s) [] (fo_edited fileOps ++ fo_written fileOps) in
  let readOnly := List.filter (fun f => negb (bool_decide (f ∈ modified))) (fo_read fileOps) in
  (sort_strings readOnly, sort_strings modified).

Definition formatFileOperations (readFiles modifiedFiles : list jstring) : jstring :=
  let sections :=
    (match readFiles with
     | [] => []
     | _ => [js "<read-files>" ++ nl ++ join nl readFiles ++ nl ++ js "</read-files>"]
     end) ++
    (match modifiedFiles with
     | [] => []
     | _ => [js "<modified-files>" ++ nl ++ join nl modifiedFiles ++ nl ++ js "</modified-files>"]
     end) in
  match sections with [] => [] | _ => nl ++ nl ++ join (nl ++ nl) sections end.

(** ** Preparation *)

Definition getMessageFromEntry (e : Entry) : option AgentMessage :=
  match entry_payload e with
  | E_message m _ => Some m
  | E_branch_summary fromId summary _ _ =>
      Some (AM_branchSummary (createBranchSummaryMessage summary fromId (entry_timestamp e)))
  | E_compaction summary _ tokensBefore _ _ =>
      Some (AM_compactionSummary (createCompactionSummaryMessage summary tokensBefore (entry_timestamp e)))
  | _ => None
  end.

Definition getMessageFromEntryForCompaction (e : Entry) : option AgentMessage :=
  match entry_payload e with E_compaction _ _ _ _ _ => None | _ => getMessageFromEntry e end.

Record CompactionPreparation := {
  prep_messagesToSummarize : list AgentMessage;
  prep_turnPrefixMessages : list AgentMessage;
  prep_retainedTail : list AgentMessage;
  prep_isSplitTurn : bool;
  prep_tokensBefore : number;
  prep_previousSummary : option jstring;
  prep_fileOps : FileOperations;
  prep_settings : CompactionSettings }.

(** [message.timestamp] *)
Definition message_timestamp (m : AgentMessage) : Z :=
  match m with
  | AM_message (M_system m) => sys_timestamp m
  | AM_message (M_user m) => user_timestamp m
  | AM_message (M_assistant m) => asst_timestamp m
  | AM_message (M_toolResult m) => tres_timestamp m
  | AM_bashExecution m => bash_timestamp m
  | AM_custom m => cmsg_timestamp m
  | AM_branchSummary m => bsum_timestamp m
  | AM_compactionSummary m => csum_timestamp m
  end.

Definition retained_id (c : Entry) (index : nat) : jstring :=
  entry_id c ++ js ":retained:" ++ js_of_Z (Z.of_nat index).

Definition virtual_entry (c : Entry) (index : nat) (message : AgentMessage) : Entry :=
  {| entry_id := retained_id c index;
     entry_seq := entry_seq c;
     entry_parentId := Some (match index with O => entry_id c | S index' => retained_id c index' end);
     entry_timestamp := message_timestamp message;
     entry_payload := E_message message false |}.

(** The newest compaction: its index, summary, retained tail and details. *)
Definition newest_compaction (pathEntries : list Entry) : option (Entry * nat * jstring * list AgentMessage * option json) :=
  match find_compaction (reverse pathEntries) (length pathEntries - 1) with
  | Some (c, index) =>
      match entry_payload c with
      | E_compaction summary retainedTail _ details _ => Some (c, index, summary, retainedTail, details)
      | _ => None
      end
  | None => None
  end.

(** The entries a compaction may cut: the previous retained tail as virtual
    entries, then the entries after that compaction. *)
Definition compactable (pathEntries : list Entry) : list Entry :=
  match newest_compaction pathEntries with
  | Some (c, index, _, retainedTail, _) => imap (virtual_entry c) retainedTail ++ drop (S index) pathEntries
  | None => pathEntries
  end.

(** The messages of the entries in [[from, to)]. *)
Definition messages_between (entries : list Entry) (from to : nat) : list AgentMessage :=
  omap getMessageFromEntryForCompaction (take (to - from) (drop from entries)).

Definition prepareCompaction (pathEntries : list Entry) (settings : CompactionSettings) : option CompactionPreparation :=
  match last pathEntries with
  | None => None
  | Some newest =>
      if decide (entry_type newest = T_compaction) then None
      else
        let entries := compactable pathEntries in
        let boundaryEnd := length entries in
        let tokensBefore := est_tokens (estimateContextTokens (ctx_messages (buildSessionContext pathEntries no_options))) in
        let cut := findCutPoint entries 0 boundaryEnd (set_keepRecentTokens settings) in
        let kept := cut_firstKeptEntryIndex cut in
        let turnStart := default 0%nat (cut_turnStartIndex cut) in
        let historyEnd := if cut_isSplitTurn cut then turnStart else kept in
        let messagesToSummarize := messages_between entries 0 historyEnd in
        let turnPrefixMessages := if cut_isSplitTurn cut then messages_between entries turnStart kept else [] in
        let retainedTail := messages_between entries kept boundaryEnd in
        let fileOps := extractFileOperations messagesToSummarize
                         (newest_compaction pathEntries ≫= (fun c => c.2)) in
        let fileOps := foldl extractFileOpsFromMessage fileOps turnPrefixMessages in
        if bool_decide (messagesToSummarize = []) && (sum_tokens turnPrefixMessages <? set_keepRecentTokens settings)
        then None
        else Some {| prep_messagesToSummarize := messagesToSummarize;
                     prep_turnPrefixMessages := turnPrefixMessages;
                     prep_retainedTail := retainedTail;
                     prep_isSplitTurn := cut_isSplitTurn cut;
                     prep_tokensBefore := tokensBefore;
                     prep_previousSummary := (fun c => c.1.1.2) <$> newest_compaction pathEntries;
                     prep_fileOps := fileOps;
                     prep_settings := settings |}
  end.
End Compaction.
