(* ===== verification/CompactionProperties.v ===== *)
(** * Properties of context compaction

    The cut partitions the compactable messages, never leaves a tool result
    without its call at the head of the retained tail, respects the token
    budget, and the file lists account for every file operation that is
    summarized away. *)

From stdpp Require Import base list gmap strings pretty sorting.
From Stdlib Require Import ZArith Lia.
From S2P Require Import Prelude SessionTypes Numbers SessionContext Compaction.
Open Scope Z_scope.

(** ** Ranges of entries *)

Lemma messages_between_app entries a b c :
  (a <= b)%nat -> (b <= c)%nat ->
  messages_between entries a b ++ messages_between entries b c = messages_between entries a c.
Proof.
  intros Hab Hbc. unfold messages_between. rewrite <- omap_app. f_equal.
  replace (drop b entries) with (drop (b - a) (drop a entries)) by (rewrite drop_drop; f_equal; lia).
  replace (c - a)%nat with ((b - a) + (c - b))%nat by lia. by rewrite take_take_drop.
Qed.

Lemma messages_between_all entries :
  messages_between entries 0 (length entries) = omap getMessageFromEntryForCompaction entries.
Proof. unfold messages_between. by rewrite drop_0, Nat.sub_0_r, firstn_all. Qed.

Lemma indices_where_elem p entries start stop i :
  i ∈ indices_where p entries start stop <->
  (start <= i < stop)%nat /\ exists e, entries !! i = Some e /\ p e = true.
Proof.
  unfold indices_where. rewrite list_elem_of_In, filter_In, in_seq.
  destruct (entries !! i) as [e|]; split.
  - intros [? ?]. split; [lia|by exists e].
  - intros [? (? & [= <-] & ?)]. split; [lia|done].
  - by intros [? ?].
  - by intros [? (? & ? & _)].
Qed.

(** The first match of an ascending index list is the least match. *)
Lemma find_least q start stop l c c' :
  (exists p, l = List.filter p (seq start (stop - start))) ->
  List.find q l = Some c -> c' ∈ l -> q c' = true -> (c <= c')%nat.
Proof.
  intros [p ->]. generalize (stop - start)%nat as n. intros n. revert start.
  induction n as [|n IH]; intros start; simpl; [done|]. destruct (p start); simpl.
  - destruct (q start) eqn:Hq.
    + intros [= <-] Hin _. apply elem_of_cons in Hin as [->|Hin]; [done|].
      apply list_elem_of_In, filter_In in Hin as [Hin%in_seq _]. lia.
    + intros Hf Hin Hq'. apply elem_of_cons in Hin as [->|Hin]; [congruence|]. by eapply (IH (S start)).
  - intros Hf Hin Hq'. by eapply (IH (S start)).
Qed.

Lemma turn_start_loop_bound entries start n i : turn_start_loop entries start n = Some i -> (start <= i < start + n)%nat.
Proof.
  induction n as [|n IH]; simpl; [done|]. destruct (entries !! (start + n)%nat) as [e|].
  - destruct (is_turn_start e); [intros [= <-]; lia|]. intros H%IH. lia.
  - intros H%IH. lia.
Qed.

(** Going back stops at the start or behind a message or compaction, having
    passed only other entries. *)
Lemma back_loop_spec entries n :
  (back_loop entries 0 n <= n)%nat /\
  forall i e, (back_loop entries 0 n <= i < n)%nat -> entries !! i = Some e ->
    entry_type e <> T_message /\ entry_type e <> T_compaction.
Proof.
  induction n as [|n [IH1 IH2]]; simpl; [split; [lia|intros; lia]|].
  destruct (entries !! n) as [e|] eqn:En; simpl.
  - destruct (entry_type e) eqn:Et;
      first [ (split; [lia|intros; lia])
            | (split; [lia|]); intros i e' Hi He'; destruct (decide (i = n)) as [->|];
              [simplify_eq; by rewrite Et|apply (IH2 i); [lia|done]] ].
  - split; [lia|]. intros i e' Hi He'. destruct (decide (i = n)) as [->|]; [simplify_eq|apply (IH2 i); [lia|done]].
Qed.

Section Properties.
Context (number_to_string : number -> jstring).
Abbreviation findCut := (findCutPoint number_to_string).
Abbreviation prepare := (prepareCompaction number_to_string).
Abbreviation tokens := (estimateTokens number_to_string).

(** The chosen cut point, before going back. *)
Lemma findCutPoint_shape entries keep :
  let cut := findCut entries 0 (length entries) keep in
  let k := cut_firstKeptEntryIndex cut in
  (findValidCutPoints entries 0 (length entries) = [] /\ k = 0%nat /\ cut_isSplitTurn cut = false) \/
  (exists c e, entries !! c = Some e /\ is_cut_point e = true /\ (k <= c)%nat /\
    (forall i e', (k <= i < c)%nat -> entries !! i = Some e' -> entry_type e' <> T_message /\ entry_type e' <> T_compaction) /\
    (cut_isSplitTurn cut = true -> exists t, cut_turnStartIndex cut = Some t /\ (t <= k)%nat)).
Proof.
  intros cut k. unfold k, cut, findCutPoint. clear k cut.
  destruct (findValidCutPoints entries 0 (length entries)) as [|first rest] eqn:Ev; [by left|]. right.
  cbv zeta. set (b := budget_loop _ _ _ _ _ _).
  set (c := match b with Some i => default first (List.find (fun c => (i <=? c)%nat) (first :: rest)) | None => first end).
  assert (Hc : c ∈ findValidCutPoints entries 0 (length entries)).
  { rewrite Ev. unfold c. destruct b as [i|]; [|left].
    destruct (List.find _ (first :: rest)) as [x|] eqn:Ef; simpl; [|left].
    apply find_some in Ef as [Hin _]. by apply list_elem_of_In. }
  apply indices_where_elem in Hc as (Hrange & e & He & Hcut). clearbody c. clear b.
  cbn [cut_firstKeptEntryIndex cut_turnStartIndex cut_isSplitTurn]. rewrite Nat.sub_0_r. destruct (back_loop_spec entries c) as [Hle Hback].
  exists c, e. split; [done|]. split; [done|]. split; [done|]. split; [done|].
  intros Hs. apply andb_prop in Hs as [Hu Hs]. apply bool_decide_eq_true in Hs.
  destruct (match entries !! back_loop entries 0 c with Some e => is_user_message e | None => false end); [done|].
  destruct Hs as [t Ht]. exists t. split; [done|]. unfold findTurnStartIndex in Ht.
  apply turn_start_loop_bound in Ht. lia.
Qed.

Lemma findCutPoint_bounds entries keep :
  let cut := findCut entries 0 (length entries) keep in
  (cut_firstKeptEntryIndex cut <= length entries)%nat /\
  (cut_isSplitTurn cut = true -> (default 0%nat (cut_turnStartIndex cut) <= cut_firstKeptEntryIndex cut)%nat).
Proof.
  intros cut. destruct (findCutPoint_shape entries keep) as [(_ & Hk & Hs)|(c & e & He & _ & Hk & _ & Hs)];
    fold cut in Hk, Hs.
  - rewrite Hk. split; [lia|]. by rewrite Hs.
  - apply lookup_lt_Some in He. split; [lia|]. intros H. destruct (Hs H) as (t & -> & Ht). done.
Qed.

(** The fields of a preparation. *)
Lemma prepareCompaction_fields path settings p :
  prepare path settings = Some p ->
  let entries := compactable path in
  let cut := findCut entries 0 (length entries) (set_keepRecentTokens settings) in
  let t := default 0%nat (cut_turnStartIndex cut) in
  let k := cut_firstKeptEntryIndex cut in
  prep_messagesToSummarize p = messages_between entries 0 (if cut_isSplitTurn cut then t else k) /\
  prep_turnPrefixMessages p = (if cut_isSplitTurn cut then messages_between entries t k else []) /\
  prep_retainedTail p = messages_between entries k (length entries) /\
  prep_fileOps p = foldl extractFileOpsFromMessage
     (extractFileOperations (prep_messagesToSummarize p) (newest_compaction path ≫= (fun c => c.2)))
     (prep_turnPrefixMessages p) /\
  (prep_messagesToSummarize p = [] -> set_keepRecentTokens settings <= sum_tokens number_to_string (prep_turnPrefixMessages p)).
Proof.
  unfold prepareCompaction. destruct (last path) as [newest|]; [|done]. case_decide; [done|].
  destruct (bool_decide _ && _) eqn:Hb; [done|]. intros [= <-]. simpl.
  repeat split; try done. intros E. apply andb_false_iff in Hb as [Hb|Hb]; [by apply bool_decide_eq_false in Hb|lia].
Qed.

Lemma virtual_messages c l n :
  omap getMessageFromEntryForCompaction (imap (fun i => virtual_entry c (n + i)) l) = l.
Proof.
  revert n. induction l as [|m l IH]; intros n; [done|]. rewrite imap_cons. csimpl. f_equal.
  rewrite <- (IH (S n)) at 2. f_equal. apply imap_ext. intros i x _. simpl. by rewrite Nat.add_succ_r.
Qed.

(** The first message at or after an index. *)
Lemma head_omap_app {A B} (f : A -> option B) pre x post y :
  Forall (fun a => f a = None) pre -> f x = Some y -> head (omap f (pre ++ x :: post)) = Some y.
Proof. induction 1 as [|a pre Ha _ IH]; intros Hx; csimpl; [by rewrite Hx|]. rewrite Ha. auto. Qed.

(** C40: a prepared compaction loses and duplicates nothing: the summarized
    history, the summarized turn prefix and the retained tail are, in order,
    the messages of the previous retained tail followed by those of the entries
    after the previous compaction. *)
Theorem prepareCompaction_partition path settings p (Hp : prepare path settings = Some p) :
  prep_messagesToSummarize p ++ prep_turnPrefixMessages p ++ prep_retainedTail p =
    match newest_compaction path with
    | Some (c, index, _, retainedTail, _) =>
        retainedTail ++ omap getMessageFromEntryForCompaction (drop (S index) path)
    | None => omap getMessageFromEntryForCompaction path
    end.
Proof.
  destruct (prepareCompaction_fields path settings p Hp) as (-> & -> & -> & _).
  set (entries := compactable path).
  destruct (findCutPoint_bounds entries (set_keepRecentTokens settings)) as [Hk Ht].
  set (cut := findCut entries 0 (length entries) (set_keepRecentTokens settings)) in *.
  assert (E : messages_between entries 0 (if cut_isSplitTurn cut then default 0%nat (cut_turnStartIndex cut) else cut_firstKeptEntryIndex cut) ++
    (if cut_isSplitTurn cut then messages_between entries (default 0%nat (cut_turnStartIndex cut)) (cut_firstKeptEntryIndex cut) else []) ++
    messages_between entries (cut_firstKeptEntryIndex cut) (length entries) = messages_between entries 0 (length entries)).
  { destruct (cut_isSplitTurn cut); [specialize (Ht eq_refl); rewrite app_assoc|simpl app];
      rewrite !messages_between_app by lia; done. }
  rewrite E, messages_between_all. unfold entries, compactable.
  destruct (newest_compaction path) as [[[[[c index] summary] tail] details]|]; [|done].
  rewrite omap_app. f_equal. exact (virtual_messages c tail 0).
Qed.

(** with a positive budget the retained tail never starts with a tool
    result (or a system message): a cut does not separate a tool result from
    the call it answers. *)
Theorem retainedTail_no_orphan_result path settings p m
    (Hp : prepare path settings = Some p) (Hkeep : 0 < set_keepRecentTokens settings)
    (Hm : head (prep_retainedTail p) = Some m) :
  role_of m <> R_toolResult /\ role_of m <> R_system.
Proof.
  destruct (prepareCompaction_fields path settings p Hp) as (Hsum & Hpre & Htail & _ & Hempty).
  set (entries := compactable path) in *.
  destruct (findCutPoint_shape entries (set_keepRecentTokens settings))
    as [(_ & Hk & Hs)|(c & e & He & Hcut & Hkc & Hgap & _)].
  { rewrite Hs, Hk in *. rewrite Hsum, Hpre in Hempty. unfold messages_between in Hempty. simpl in Hempty.
    specialize (Hempty eq_refl). unfold sum_tokens in Hempty. simpl in Hempty. lia. }
  set (k := cut_firstKeptEntryIndex _) in *. rewrite Htail in Hm. unfold messages_between in Hm.
  rewrite take_ge in Hm by (rewrite length_drop; lia).
  assert (Hsplit : drop k entries = take (c - k) (drop k entries) ++ e :: drop (S c) entries).
  { rewrite <- (take_drop (c - k) (drop k entries)) at 1. f_equal. rewrite drop_drop.
    replace (k + (c - k))%nat with c by lia. by apply drop_S. }
  rewrite Hsplit in Hm.
  assert (Hmsg : exists m', getMessageFromEntryForCompaction e = Some m' /\ role_of m' <> R_toolResult /\ role_of m' <> R_system).
  { unfold is_cut_point in Hcut. unfold getMessageFromEntryForCompaction, getMessageFromEntry.
    destruct (entry_payload e) as [m' ?| | | | | |]; try done.
    - exists m'. split; [done|]. by destruct (role_of m').
    - eexists. split; [done|]. done. }
  destruct Hmsg as (m' & He' & Hr). rewrite omap_app in Hm. csimpl in Hm. rewrite He' in Hm.
  destruct (omap getMessageFromEntryForCompaction (take (c - k) (drop k entries))) as [|x xs] eqn:Egap;
    simpl in Hm; simplify_eq; [done|].
  assert (Hx : m ∈ omap getMessageFromEntryForCompaction (take (c - k) (drop k entries))) by (rewrite Egap; left).
  apply list_elem_of_omap in Hx as (g & Hg & Hgm). apply list_elem_of_lookup in Hg as [i Hi].
  rewrite lookup_take_Some, lookup_drop in Hi. destruct Hi as [Hi Hlt].
  destruct (Hgap (k + i)%nat g) as [Hg1 Hg2]; [lia|done|]. clear -Hgm Hg1 Hg2.
  unfold getMessageFromEntryForCompaction, getMessageFromEntry, entry_type in *.
  destruct (entry_payload g); simplify_eq/=; done.
Qed.

(** The estimated tokens of the message entries from an index on. *)
Definition entry_tokens (e : Entry) : Z := match entry_payload e with E_message m _ => tokens m | _ => 0 end.

Definition tokens_from (entries : list Entry) (i : nat) : Z :=
  foldr (fun e sum => entry_tokens e + sum) 0 (drop i entries).

Lemma tokens_from_step entries i e : entries !! i = Some e -> tokens_from entries i = entry_tokens e + tokens_from entries (S i).
Proof. intros H. unfold tokens_from. by rewrite (drop_S _ _ _ H). Qed.

Lemma tokens_from_end entries i : (length entries <= i)%nat -> tokens_from entries i = 0.
Proof. intros H. unfold tokens_from. by rewrite drop_ge. Qed.

Lemma budget_loop_spec entries keep n :
  (n <= length entries)%nat -> tokens_from entries n < keep ->
  match budget_loop number_to_string entries 0 n (tokens_from entries n) keep with
  | Some i => (i < n)%nat /\ tokens_from entries (S i) < keep <= tokens_from entries i
  | None => tokens_from entries 0 < keep
  end.
Proof.
  induction n as [|n IH]; intros Hn Hlt; simpl; [done|].
  destruct (lookup_lt_is_Some_2 entries n) as [e He]; [lia|]. rewrite He. simpl.
  pose proof (tokens_from_step entries n e He) as Hstep. unfold entry_tokens in Hstep.
  destruct (entry_payload e) as [m ?| | | | | |] eqn:Ep;
    try (replace (tokens_from entries (S n)) with (tokens_from entries n) by lia;
         specialize (IH ltac:(lia) ltac:(lia)); destruct (budget_loop _ _ _ n _ _); [destruct IH; split; [lia|done]|done]).
  replace (tokens_from entries (S n) + tokens m) with (tokens_from entries n) by lia.
  destruct (Z.leb_spec keep (tokens_from entries n)) as [Hge|Hlt'].
  - split; [lia|]. lia.
  - specialize (IH ltac:(lia) Hlt'). destruct (budget_loop _ _ _ n _ _); [destruct IH; split; [lia|done]|done].
Qed.

(** the retained entries meet the token budget up to one message: when the
    cut is not at the first cut point, the message entries from the kept index
    on are estimated below the budget plus the one message that reached it, and
    keeping that message too would reach the budget. *)
Theorem findCutPoint_budget entries keep (Hkeep : 0 < keep) :
  let cutPoints := findValidCutPoints entries 0 (length entries) in
  let k := cut_firstKeptEntryIndex (findCut entries 0 (length entries) keep) in
  k = back_loop entries 0 (default 0%nat (head cutPoints)) \/
  exists i c, c ∈ cutPoints /\ k = back_loop entries 0 c /\ (i <= c)%nat /\
    (forall c', c' ∈ cutPoints -> (i <= c')%nat -> (c <= c')%nat) /\
    tokens_from entries (S i) < keep <= tokens_from entries i.
Proof.
  intros cutPoints k. unfold k, findCutPoint. fold cutPoints.
  destruct cutPoints as [|first rest] eqn:Ec; [by left|].
  cbn [cut_firstKeptEntryIndex head default]. rewrite !Nat.sub_0_r.
  pose proof (budget_loop_spec entries keep (length entries) (Nat.le_refl _)) as Hb.
  rewrite (tokens_from_end entries (length entries)) in Hb by lia. specialize (Hb Hkeep).
  destruct (budget_loop _ _ _ _ _ _) as [i|]; [|by left].
  destruct (List.find _ (first :: rest)) as [c|] eqn:Ef; cbn [default]; [|by left].
  right. exists i, c. pose proof (find_some _ _ Ef) as [Hin Hle]. apply Nat.leb_le in Hle.
  split; [by apply list_elem_of_In|]. split; [done|]. split; [done|]. split; [|by apply Hb].
  intros c' Hc' Hic'. rewrite <- Ec in Ef, Hc'.
  apply (find_least (fun c => (i <=? c)%nat) 0 (length entries) cutPoints c c'); [|done|done|by apply Nat.leb_le].
  eexists. reflexivity.
Qed.
End Properties.

(** ** File lists *)

Lemma elem_of_set_add x y s : x ∈ set_add y s <-> x = y \/ x ∈ s.
Proof. unfold set_add. case_bool_decide; rewrite ?elem_of_app, ?list_elem_of_singleton; naive_solver. Qed.

Lemma NoDup_set_add x s : NoDup s -> NoDup (set_add x s).
Proof.
  intros H. unfold set_add. case_bool_decide as Hx; [done|]. apply NoDup_app. split; [done|].
  split; [|apply NoDup_singleton]. by intros y Hy ->%list_elem_of_singleton.
Qed.

Lemma set_of_list_spec l s :
  NoDup s -> NoDup (foldl (fun s x => set_add x s) s l) /\
  forall x, x ∈ foldl (fun s x => set_add x s) s l <-> x ∈ l \/ x ∈ s.
Proof.
  revert s. induction l as [|y l IH]; intros s Hs; simpl.
  - split; [done|]. intros x. rewrite elem_of_nil. tauto.
  - destruct (IH (set_add y s) (NoDup_set_add y s Hs)) as [H1 H2]. split; [done|].
    intros x. rewrite H2, elem_of_set_add, elem_of_cons. tauto.
Qed.

(** The path a tool call operates on. *)
Definition call_path (c : ToolCall) : option jstring :=
  match map_get (js "path") (toolCall_arguments c) with Some (JString (u :: path)) => Some (u :: path) | _ => None end.

(** A tool call with the given name on the given path occurs in the messages. *)
Definition touches (name : jstring) (messages : list AgentMessage) (f : jstring) : Prop :=
  exists a c, AM_message (M_assistant a) ∈ messages /\ AB_toolCall c ∈ asst_content a /\
    toolCall_name c = name /\ call_path c = Some f.

Definition ops_field (name : jstring) (ops : FileOperations) : list jstring :=
  if decide (name = js "read") then fo_read ops else if decide (name = js "write") then fo_written ops else fo_edited ops.

Definition file_tool (name : jstring) : Prop := name = js "read" \/ name = js "write" \/ name = js "edit".

Lemma add_call_field ops c name :
  file_tool name ->
  ops_field name (add_call ops c) =
    match call_path c with
    | Some f => if decide (toolCall_name c = name) then set_add f (ops_field name ops) else ops_field name ops
    | None => ops_field name ops
    end.
Proof.
  intros Hn. unfold add_call, call_path.
  destruct (map_get (js "path") (toolCall_arguments c)) as [[| | |[|u path]| |]|]; try done.
  destruct (decide (toolCall_name c = name)) as [E|E].
  - rewrite E. by destruct Hn as [->|[->| ->]].
  - unfold ops_field. destruct Hn as [->|[->| ->]]; repeat case_bool_decide; done.
Qed.

Lemma add_call_spec ops c name :
  file_tool name -> NoDup (ops_field name ops) ->
  NoDup (ops_field name (add_call ops c)) /\
  forall f, f ∈ ops_field name (add_call ops c) <-> f ∈ ops_field name ops \/ (toolCall_name c = name /\ call_path c = Some f).
Proof.
  intros Hn Hnd. rewrite add_call_field by done. destruct (call_path c) as [g|]; [|split; [done|naive_solver]].
  case_decide; [|split; [done|naive_solver]]. split; [by apply NoDup_set_add|].
  intros f. rewrite elem_of_set_add. naive_solver.
Qed.

Lemma extract_message_spec ops m name :
  file_tool name -> NoDup (ops_field name ops) ->
  NoDup (ops_field name (extractFileOpsFromMessage ops m)) /\
  forall f, f ∈ ops_field name (extractFileOpsFromMessage ops m) <-> f ∈ ops_field name ops \/ touches name [m] f.
Proof.
  intros Hn Hnd.
  assert (Hother : (forall a, m <> AM_message (M_assistant a)) ->
    forall f, f ∈ ops_field name ops <-> f ∈ ops_field name ops \/ touches name [m] f).
  { intros Hm f. split; [by left|]. intros [?|(a & c & Ha & _)]; [done|]. apply list_elem_of_singleton in Ha. by destruct (Hm a). }
  destruct m as [[| |a|]| | | |]; try (split; [done|]; by apply Hother). simpl.
  assert (Hfold : forall blocks ops, NoDup (ops_field name ops) ->
    let ops' := foldl (fun ops b => match b with AB_toolCall c => add_call ops c | _ => ops end) ops blocks in
    NoDup (ops_field name ops') /\
    forall f, f ∈ ops_field name ops' <->
      f ∈ ops_field name ops \/ exists c, AB_toolCall c ∈ blocks /\ toolCall_name c = name /\ call_path c = Some f).
  { clear Hother. induction blocks as [|b blocks IH]; intros ops0 Hnd0; simpl.
    - split; [done|]. intros f. split; [by left|]. by intros [?|(? & ?%elem_of_nil & _)].
    - assert (Hskip : (forall c, b <> AB_toolCall c) -> forall f,
        (exists c, AB_toolCall c ∈ blocks /\ toolCall_name c = name /\ call_path c = Some f) <->
        (exists c, AB_toolCall c ∈ b :: blocks /\ toolCall_name c = name /\ call_path c = Some f)).
      { intros Hb f. setoid_rewrite elem_of_cons. split; [naive_solver|]. intros (c & [E|?] & ?); [by destruct (Hb c)|eauto]. }
      destruct b as [t|t|c]; [destruct (IH ops0 Hnd0) as [H1 H2]; split; [done|]; intros f; rewrite H2; by rewrite Hskip..|].
      destruct (add_call_spec ops0 c name Hn Hnd0) as [H1 H2]. destruct (IH _ H1) as [H3 H4]. split; [done|].
      intros f. rewrite H4, H2. setoid_rewrite elem_of_cons. split; [naive_solver|].
      intros [?|(c' & [[= ->]|?] & ?)]; eauto. }
  destruct (Hfold (asst_content a) ops Hnd) as [H1 H2]. split; [done|]. intros f. rewrite H2.
  unfold touches. setoid_rewrite list_elem_of_singleton. naive_solver.
Qed.

Lemma touches_cons name m ms f : touches name (m :: ms) f <-> touches name [m] f \/ touches name ms f.
Proof. unfold touches. setoid_rewrite elem_of_cons. setoid_rewrite elem_of_nil. naive_solver. Qed.

Lemma extract_messages_spec ms : forall ops name,
  file_tool name -> NoDup (ops_field name ops) ->
  NoDup (ops_field name (foldl extractFileOpsFromMessage ops ms)) /\
  forall f, f ∈ ops_field name (foldl extractFileOpsFromMessage ops ms) <-> f ∈ ops_field name ops \/ touches name ms f.
Proof.
  induction ms as [|m ms IH]; intros ops name Hn Hnd; simpl.
  - split; [done|]. intros f. split; [by left|]. by intros [?|(? & ? & ?%elem_of_nil & _)].
  - destruct (extract_message_spec ops m name Hn Hnd) as [H1 H2]. destruct (IH _ name Hn H1) as [H3 H4].
    split; [done|]. intros f. rewrite H4, H2, (touches_cons name m ms). tauto.
Qed.

Lemma touches_app name ms1 ms2 f : touches name (ms1 ++ ms2) f <-> touches name ms1 f \/ touches name ms2 f.
Proof. unfold touches. setoid_rewrite elem_of_app. naive_solver. Qed.

#[global] Instance jstring_le_total : Total jstring_le.
Proof.
  intros a. induction a as [|x a IH]; intros [|y b]; unfold jstring_le; simpl; auto.
  destruct (Z.ltb_spec x y), (Z.ltb_spec y x), (Z.eqb_spec x y), (Z.eqb_spec y x); simpl; auto; try lia.
  apply IH.
Qed.

#[global] Instance jstring_le_trans : Transitive jstring_le.
Proof.
  intros a. induction a as [|x a IH]; intros [|y b] [|z c]; unfold jstring_le; simpl; try done.
  destruct (Z.ltb_spec x y), (Z.eqb_spec x y), (Z.ltb_spec y z), (Z.eqb_spec y z), (Z.ltb_spec x z), (Z.eqb_spec x z);
    simpl; try done; try lia. apply IH.
Qed.

Lemma sort_strings_elem x l : x ∈ sort_strings l <-> x ∈ l.
Proof. unfold sort_strings. by rewrite merge_sort_Permutation. Qed.

Section FileLists.
Context (number_to_string : number -> jstring).

(** the file lists stored with a compaction account for every summarized
    file operation: a file is listed as modified exactly when a summarized edit
    or write call, or the previous compaction, names it, and as read exactly
    when it was read and not modified; both lists are sorted and free of
    duplicates. *)
Theorem fileLists_complete path settings p
    (Hp : prepareCompaction number_to_string path settings = Some p) :
  let summarized := prep_messagesToSummarize p ++ prep_turnPrefixMessages p in
  let details := newest_compaction path ≫= (fun c => c.2) in
  let lists := computeFileLists (prep_fileOps p) in
  (forall f, f ∈ lists.2 <-> f ∈ detail_paths details (js "modifiedFiles") \/
                             touches (js "edit") summarized f \/ touches (js "write") summarized f) /\
  (forall f, f ∈ lists.1 <-> (f ∈ detail_paths details (js "readFiles") \/ touches (js "read") summarized f) /\
                             (f ∉ lists.2)) /\
  StronglySorted jstring_le lists.1 /\ StronglySorted jstring_le lists.2 /\ NoDup lists.1 /\ NoDup lists.2.
Proof.
  intros summarized details lists.
  destruct (prepareCompaction_fields number_to_string path settings p Hp) as (_ & _ & _ & Hops & _).
  assert (Hfield : forall name, file_tool name ->
    NoDup (ops_field name (prep_fileOps p)) /\
    forall f, f ∈ ops_field name (prep_fileOps p) <->
      f ∈ ops_field name (extractFileOperations [] details) \/ touches name summarized f).
  { intros name Hn. rewrite Hops. unfold extractFileOperations. simpl. rewrite <- foldl_app. fold summarized details.
    apply extract_messages_spec; [done|]. unfold ops_field. repeat case_decide; simpl; [| |];
      first [apply set_of_list_spec; constructor | constructor]. }
  destruct (Hfield (js "read")) as [Hr1 Hr2]; [by left|]. destruct (Hfield (js "write")) as [_ Hw]; [by right; left|].
  destruct (Hfield (js "edit")) as [_ He]; [by right; right|].
  change (ops_field (js "read") ?o) with (fo_read o) in *. change (ops_field (js "write") ?o) with (fo_written o) in *.
  change (ops_field (js "edit") ?o) with (fo_edited o) in *. simpl fo_read in Hr2. simpl fo_written in Hw. simpl fo_edited in He.
  destruct (set_of_list_spec (detail_paths details (js "readFiles")) [] (NoDup_nil_2)) as [_ Hpr].
  destruct (set_of_list_spec (detail_paths details (js "modifiedFiles")) [] (NoDup_nil_2)) as [_ Hpm].
  destruct (set_of_list_spec (fo_edited (prep_fileOps p) ++ fo_written (prep_fileOps p)) [] (NoDup_nil_2)) as [Hm1 Hm2].
  unfold lists, computeFileLists. simpl fst. simpl snd.
  set (modified := foldl (fun s x => set_add x s) [] (fo_edited (prep_fileOps p) ++ fo_written (prep_fileOps p))) in *.
  set (readOnly := List.filter _ _).
  assert (Hmod : forall f, f ∈ sort_strings modified <-> f ∈ detail_paths details (js "modifiedFiles") \/
                             touches (js "edit") summarized f \/ touches (js "write") summarized f).
  { intros f. rewrite sort_strings_elem, Hm2, elem_of_app, He, Hw, Hpm, !elem_of_nil. tauto. }
  split; [done|]. split.
  { intros f. rewrite sort_strings_elem, (sort_strings_elem f modified). unfold readOnly.
    rewrite list_elem_of_In, filter_In, negb_true_iff, bool_decide_eq_false, <- list_elem_of_In, Hr2, Hpr, elem_of_nil. tauto. }
  split; [apply StronglySorted_merge_sort; apply _|]. split; [apply StronglySorted_merge_sort; apply _|].
  unfold sort_strings. rewrite !merge_sort_Permutation. split; [|done].
  unfold readOnly. by apply NoDup_ListNoDup, List.NoDup_filter, NoDup_ListNoDup.
Qed.
End FileLists.

(** ** Witnesses *)

Definition ex_message (id : string) (seq : Z) (m : Message) : Entry :=
  {| entry_id := js id; entry_seq := seq; entry_parentId := None; entry_timestamp := 0;
     entry_payload := E_message (AM_message m) false |}.

Definition ex_user (text : string) : Message := M_user {| user_content := UC_string (js text); user_timestamp := 0 |}.

Definition ex_zero_usage : Usage :=
  {| usage_input := nzero; usage_output := nzero; usage_cacheRead := nzero; usage_cacheWrite := nzero;
     usage_cacheWrite1h := None; usage_reasoning := None; usage_totalTokens := nzero;
     usage_cost := {| cost_input := nzero; cost_output := nzero; cost_cacheRead := nzero;
                      cost_cacheWrite := nzero; cost_total := nzero |} |}.

Definition ex_call_answer (tool path : string) : Message :=
  M_assistant
    {| asst_content := [AB_toolCall {| toolCall_id := js "c"; toolCall_name := js tool;
                                       toolCall_arguments := [(js "path", JString (js path))];
                                       toolCall_thoughtSignature := None; toolCall_namespace := None |}];
       asst_api := js "api"; asst_provider := js "p"; asst_model := js "m"; asst_responseModel := None;
       asst_responseId := None; asst_diagnostics := None; asst_usage := ex_zero_usage; asst_stopReason := SR_toolUse;
       asst_deferred := None; asst_errorMessage := None; asst_rawStopReason := None; asst_endTurn := None;
       asst_timestamp := 0 |}.

Definition ex_tool_result (text : string) : Message :=
  M_toolResult {| tres_toolCallId := js "c"; tres_toolName := js "read";
                  tres_content := [UB_text {| text_text := js text; text_textSignature := None |}];
                  tres_details := None; tres_usage := None; tres_addedToolNames := None; tres_isError := false;
                  tres_timestamp := 0 |}.

(** A read, an edit, and a second question. *)
Definition ex_path : list Entry :=
  [ ex_message "u1" 1 (ex_user "first question");
    ex_message "a1" 2 (ex_call_answer "read" "b.txt");
    ex_message "r1" 3 (ex_tool_result "contents");
    ex_message "a2" 4 (ex_call_answer "edit" "a.txt");
    ex_message "r2" 5 (ex_tool_result "done");
    ex_message "u2" 6 (ex_user "and now something else") ].

Definition ex_settings (keep : Z) : CompactionSettings :=
  {| set_enabled := true; set_reserveTokens := 16384; set_keepRecentTokens := keep; set_summaryMaxTokens := None |}.

Definition ex_format (n : number) : jstring := js "0".

Definition ex_preparation : CompactionPreparation :=
  match prepareCompaction ex_format ex_path (ex_settings 5) with
  | Some p => p
  | None => {| prep_messagesToSummarize := []; prep_turnPrefixMessages := []; prep_retainedTail := [];
               prep_isSplitTurn := false; prep_tokensBefore := nzero; prep_previousSummary := None;
               prep_fileOps := createFileOps; prep_settings := ex_settings 5 |}
  end.

Lemma prepareCompaction_partition_witness :
  length (prep_messagesToSummarize ex_preparation) = 5%nat /\
  prep_messagesToSummarize ex_preparation ++ prep_turnPrefixMessages ex_preparation ++ prep_retainedTail ex_preparation =
    match newest_compaction ex_path with
    | Some (c, index, _, retainedTail, _) =>
        retainedTail ++ omap getMessageFromEntryForCompaction (drop (S index) ex_path)
    | None => omap getMessageFromEntryForCompaction ex_path
    end.
Proof.
  split; [vm_compute; reflexivity|].
  apply (prepareCompaction_partition ex_format ex_path (ex_settings 5)). vm_compute. reflexivity.
Defined.

Lemma retainedTail_no_orphan_result_witness :
  role_of (AM_message (ex_user "and now something else")) <> R_toolResult /\
  role_of (AM_message (ex_user "and now something else")) <> R_system.
Proof.
  apply (retainedTail_no_orphan_result ex_format ex_path (ex_settings 5) ex_preparation).
  - vm_compute. reflexivity.
  - vm_compute. reflexivity.
  - vm_compute. reflexivity.
Defined.

Lemma findCutPoint_budget_witness :
  let cutPoints := findValidCutPoints ex_path 0 (length ex_path) in
  let k := cut_firstKeptEntryIndex (findCutPoint ex_format ex_path 0 (length ex_path) 5) in
  k = back_loop ex_path 0 (default 0%nat (head cutPoints)) \/
  exists i c, c ∈ cutPoints /\ k = back_loop ex_path 0 c /\ (i <= c)%nat /\
    (forall c', c' ∈ cutPoints -> (i <= c')%nat -> (c <= c')%nat) /\
    tokens_from ex_format ex_path (S i) < 5 <= tokens_from ex_format ex_path i.
Proof. apply (findCutPoint_budget ex_format ex_path 5). lia. Defined.

Lemma fileLists_complete_witness :
  let summarized := prep_messagesToSummarize ex_preparation ++ prep_turnPrefixMessages ex_preparation in
  let details := newest_compaction ex_path ≫= (fun c => c.2) in
  let lists := computeFileLists (prep_fileOps ex_preparation) in
  lists = ([js "b.txt"], [js "a.txt"]) /\
  (forall f, f ∈ lists.2 <-> f ∈ detail_paths details (js "modifiedFiles") \/
                             touches (js "edit") summarized f \/ touches (js "write") summarized f) /\
  (forall f, f ∈ lists.1 <-> (f ∈ detail_paths details (js "readFiles") \/ touches (js "read") summarized f) /\
                             (f ∉ lists.2)) /\
  StronglySorted jstring_le lists.1 /\ StronglySorted jstring_le lists.2 /\ NoDup lists.1 /\ NoDup lists.2.
Proof.
  intros summarized details lists. split; [vm_compute; reflexivity|].
  apply (fileLists_complete ex_format ex_path (ex_settings 5) ex_preparation). vm_compute. reflexivity.
Defined.

(** A tool result that alone reaches the budget, at the end of the branch,
    leaves no cut point behind it: the cut falls back to the first one and
    nothing is compacted. *)
Lemma large_tool_result_blocks_compaction :
  let path := take 5 ex_path ++ [ex_message "a3" 7 (ex_call_answer "read" "c.txt");
                                 ex_message "r3" 8 (ex_tool_result "a result over the budget")] in
  prepareCompaction ex_format path (ex_settings 5) = None /\
  prepareCompaction ex_format (path ++ [ex_message "u3" 9 (ex_user "go on")]) (ex_settings 5) <> None.
Proof. split; vm_compute; [reflexivity|discriminate]. Qed.

(** A cut at a question that follows a settings change is reported as
    splitting a turn. *)
Lemma settings_change_splits_turn :
  let change := {| entry_id := js "m"; entry_seq := 6; entry_parentId := None; entry_timestamp := 0;
                   entry_payload := E_model_change (js "p") (js "m2") |} in
  let path := take 5 ex_path ++ [change; ex_message "u2" 7 (ex_user "and now something else")] in
  cut_isSplitTurn (findCutPoint ex_format path 0 (length path) 5) = true /\
  cut_isSplitTurn (findCutPoint ex_format ex_path 0 (length ex_path) 5) = false.
Proof. split; vm_compute; reflexivity. Qed.
