(* ===== verification/Retry.v ===== *)
(** * Retrying provider calls, and identifiers

    packages/ai/src/utils/retry.ts: the classifier of transient provider errors
    and the bounded retry loop with exponential backoff.

    The classifier's regular expressions are alternations of the source's
    strings; [parse_pattern] reads such a string and [test_pattern] is
    [RegExp.test] on it.  The loop calls a provider: [produce n] is what the
    [n]-th call yields ([Err] when it rejects) and [interrupted n] tells whether
    the signal is aborted before the backoff after that call ends.  Callbacks
    and calls are recorded as a list of events; callbacks do not throw.  Retry
    counts and delays are integers.

    packages/ai/src/utils/uuid.ts: the module's two variables are a state, the
    clock and the random bytes are arguments of each call.  [lastTimestamp]
    starts at [-Infinity], modelled as [None]; times are integers. *)

From stdpp Require Import base list strings.
From Stdlib Require Import ZArith Lia.
From S2P Require Import Prelude SessionTypes Compaction.
Open Scope Z_scope.

(** ** Error patterns *)

(** One item of a pattern: a character or [.], possibly followed by [?]. *)
Record atom := { atom_unit : option Z; atom_optional : bool }.

Definition atom_of (u : Z) (optional : bool) : atom :=
  {| atom_unit := if u =? 46 then None else Some u; atom_optional := optional |}.

Fixpoint parse_pattern (source : jstring) : list atom :=
  match source with
  | [] => []
  | u :: source' =>
      match source' with
      | v :: source'' =>
          if v =? 63 then atom_of u true :: parse_pattern source'' else atom_of u false :: parse_pattern source'
      | [] => [atom_of u false]
      end
  end.

(** The [i] flag.  Patterns are ASCII, and no other character folds to ASCII. *)
Definition canonicalize (u : Z) : Z := if (97 <=? u) && (u <=? 122) then u - 32 else u.

Definition is_line_terminator (u : Z) : bool := (u =? 10) || (u =? 13) || (u =? 0x2028) || (u =? 0x2029).

Definition atom_accepts (a : atom) (u : Z) : bool :=
  match atom_unit a with
  | Some c => canonicalize c =? canonicalize u
  | None => negb (is_line_terminator u)
  end.

(** A match that starts at the first character. *)
Fixpoint match_here (p : list atom) (s : jstring) : bool :=
  match p with
  | [] => true
  | a :: p' =>
      match s with
      | u :: s' => atom_accepts a u && match_here p' s'
      | [] => false
      end || (atom_optional a && match_here p' s)
  end.

Fixpoint test_atoms (p : list atom) (s : jstring) : bool :=
  match_here p s || match s with [] => false | _ :: s' => test_atoms p s' end.

Definition test_pattern (patterns : list jstring) (s : jstring) : bool :=
  existsb (fun source => test_atoms (parse_pattern source) s) patterns.

Definition NON_RETRYABLE_PROVIDER_LIMIT_ERROR_PATTERN : list jstring :=
  map js ["GoUsageLimitError"; "FreeUsageLimitError"; "Monthly usage limit reached"; "available balance";
          "insufficient_quota"; "out of budget"; "quota exceeded"; "billing"]%string.

Definition RETRYABLE_PROVIDER_ERROR_PATTERN : list jstring :=
  map js ["overloaded"; "rate.?limit"; "too many requests"; "429"; "500"; "502"; "503"; "504"; "524";
          "service.?unavailable"; "server.?error"; "internal.?error";
          "provider.?returned.?error"; "exceeded request buffer limit while retrying upstream";
          "network.?error"; "connection.?error"; "connection.?refused"; "connection.?lost"; "other side closed";
          "fetch failed"; "getaddrinfo"; "ENOTFOUND"; "EAI_AGAIN"; "upstream.?connect"; "reset before headers";
          "socket hang up"; "socket connection was closed"; "timed? out"; "timeout"; "terminated";
          "websocket.?closed"; "websocket.?error";
          "ended without"; "stream ended before message_stop"; "stream ended before a terminal response event";
          "http2 request did not get a response";
          "retry delay";
          "you can retry your request"; "try your request again"; "please retry your request";
          "ResourceExhausted"]%string.

Definition isRetryableAssistantError (message : AssistantMessage) : bool :=
  match asst_stopReason message, asst_errorMessage message with
  | SR_error, Some ((_ :: _) as errorMessage) =>
      if test_pattern NON_RETRYABLE_PROVIDER_LIMIT_ERROR_PATTERN errorMessage then false
      else test_pattern RETRYABLE_PROVIDER_ERROR_PATTERN errorMessage
  | _, _ => false
  end.

(** ** The retry loop *)

Record RetryPolicy := { policy_enabled : bool; policy_maxRetries : Z; policy_baseDelayMs : Z }.

(** Calls of [produce] and of the callbacks, in order. *)
Inductive RetryEvent :=
| EV_call
| EV_retryScheduled (attempt maxAttempts delayMs : Z) (errorMessage : jstring)
| EV_retryAttemptStart
| EV_retryFinished (success : bool) (attempt : Z) (finalError : option jstring).

(** How the promise of [sleep] settles. *)
Inductive SleepResult := SleepResolved | RetrySleepAbortError.

(** [aborted]: the signal is aborted on entry; [fires]: it aborts before the
    timer. *)
Definition sleep (aborted fires : bool) : SleepResult :=
  if aborted then RetrySleepAbortError else if fires then RetrySleepAbortError else SleepResolved.

(** [text || fallback] on an optional string. *)
Definition or_text (text : option jstring) (fallback : jstring) : jstring :=
  match text with Some ((_ :: _) as s) => s | _ => fallback end.

(** [{ ...response, stopReason: "aborted", errorMessage: undefined }] *)
Definition aborted_response (r : AssistantMessage) : AssistantMessage :=
  {| asst_content := asst_content r; asst_api := asst_api r; asst_provider := asst_provider r;
     asst_model := asst_model r; asst_responseModel := asst_responseModel r; asst_responseId := asst_responseId r;
     asst_diagnostics := asst_diagnostics r; asst_usage := asst_usage r; asst_stopReason := SR_aborted;
     asst_deferred := asst_deferred r; asst_errorMessage := None; asst_rawStopReason := asst_rawStopReason r;
     asst_endTurn := asst_endTurn r; asst_timestamp := asst_timestamp r |}.

(** [if (lastRetry) await callbacks?.onRetryFinished?.(...)] *)
Definition finished (lastRetry : option (Z * jstring)) (success : bool) (finalError : option jstring) :
    list RetryEvent :=
  match lastRetry with Some (attempt, _) => [EV_retryFinished success attempt finalError] | None => [] end.

(** The signal during the backoff after a call: aborted on entry, aborting
    before the timer. *)
Record Signal := { sig_aborted : bool; sig_fires : bool }.

Section Retry.
Context {X : Type} (produce : nat -> Result X AssistantMessage) (signal : nat -> Signal).

(** The loop, with [remaining = maxAttempts - attempt] retries left: the guard
    [attempt >= maxAttempts] is [remaining = 0]. *)
Fixpoint retry_loop (policy : option RetryPolicy) (maxAttempts : Z) (remaining : nat) (attempt : nat)
    (lastRetry : option (Z * jstring)) : list RetryEvent * Result X AssistantMessage :=
  match produce attempt with
  | Err e => ([EV_call], Err e)
  | Ok response =>
      match asst_stopReason response with
      | SR_aborted => (EV_call :: finished lastRetry false None, Ok response)
      | SR_error =>
          match remaining with
          | O => (EV_call :: finished lastRetry false (asst_errorMessage response), Ok response)
          | S remaining' =>
              if negb (isRetryableAssistantError response) then
                (EV_call :: finished lastRetry false (asst_errorMessage response), Ok response)
              else
                let next := Z.of_nat (S attempt) in
                let errorMessage := or_text (asst_errorMessage response) (js "Unknown error") in
                let delayMs := match policy with
                               | Some p => policy_baseDelayMs p * 2 ^ (next - 1)
                               | None => 0
                               end in
                let scheduled := EV_retryScheduled next maxAttempts delayMs errorMessage in
                match sleep (sig_aborted (signal attempt)) (sig_fires (signal attempt)) with
                | RetrySleepAbortError =>
                    ([EV_call; scheduled; EV_retryFinished false next (Some errorMessage)],
                     Ok (aborted_response response))
                | SleepResolved =>
                    let (events, result) :=
                      retry_loop policy maxAttempts remaining' (S attempt) (Some (next, errorMessage)) in
                    (EV_call :: scheduled :: EV_retryAttemptStart :: events, result)
                end
          end
      | _ => (EV_call :: finished lastRetry true None, Ok response)
      end
  end.

Definition retryAssistantCall (policy : option RetryPolicy) : list RetryEvent * Result X AssistantMessage :=
  let maxAttempts := match policy with
                     | Some p => if policy_enabled p then policy_maxRetries p else 0
                     | None => 0
                     end in
  retry_loop policy maxAttempts (Z.to_nat maxAttempts) 0 None.
End Retry.

(** ** Time-ordered identifiers *)

Record UuidState := { uu_lastTimestamp : option Z; uu_sequence : Z }.

Definition initial_uuid_state : UuidState := {| uu_lastTimestamp := None; uu_sequence := 0 |}.

Definition byte_at (random : list Z) (i : nat) : Z := default 0 (random !! i).

(** The update of the module variables. *)
Definition advance (s : UuidState) (timestamp : Z) (random : list Z) : UuidState :=
  let fresh := {| uu_lastTimestamp := Some timestamp;
                  uu_sequence := byte_at random 6 * 0x1000000 + byte_at random 7 * 0x10000 +
                                 byte_at random 8 * 0x100 + byte_at random 9 |} in
  match uu_lastTimestamp s with
  | None => fresh
  | Some last =>
      if last <? timestamp then fresh
      else
        let sequence := (uu_sequence s + 1) mod 2 ^ 32 in
        {| uu_lastTimestamp := Some (if sequence =? 0 then last + 1 else last); uu_sequence := sequence |}
  end.

(** [x & 0xff] and the like on a non-negative number. *)
Definition uuid_bytes (lastTimestamp sequence : Z) (random : list Z) : list Z :=
  [Z.land (lastTimestamp / 0x10000000000) 0xff;
   Z.land (lastTimestamp / 0x100000000) 0xff;
   Z.land (lastTimestamp / 0x1000000) 0xff;
   Z.land (lastTimestamp / 0x10000) 0xff;
   Z.land (lastTimestamp / 0x100) 0xff;
   Z.land lastTimestamp 0xff;
   Z.lor 0x70 (Z.land (Z.shiftr sequence 28) 0x0f);
   Z.land (Z.shiftr sequence 20) 0xff;
   Z.lor 0x80 (Z.land (Z.shiftr sequence 14) 0x3f);
   Z.land (Z.shiftr sequence 6) 0xff;
   Z.lor (Z.shiftl (Z.land sequence 0x3f) 2) (Z.land (byte_at random 10) 0x03);
   byte_at random 11; byte_at random 12; byte_at random 13; byte_at random 14; byte_at random 15].

(** [byte.toString(16).padStart(2, "0")] *)
Definition hex_byte (b : Z) : jstring := [hex_digit (b / 16); hex_digit (b mod 16)].

Definition hex_join (bytes : list Z) (from to : nat) : jstring :=
  concat (map hex_byte (take (to - from) (drop from bytes))).

Definition format_uuid (bytes : list Z) : jstring :=
  hex_join bytes 0 4 ++ js "-" ++ hex_join bytes 4 6 ++ js "-" ++ hex_join bytes 6 8 ++ js "-" ++
  hex_join bytes 8 10 ++ js "-" ++ hex_join bytes 10 16.

Definition uuidv7 (s : UuidState) (timestamp : Z) (random : list Z) : UuidState * jstring :=
  let s' := advance s timestamp random in
  (s', format_uuid (uuid_bytes (default 0 (uu_lastTimestamp s')) (uu_sequence s') random)).
