(* ===== verification/RetryProperties.v ===== *)
(** * Properties of retries and identifiers

    The regular-expression matcher decides the declarative matching relation,
    the retry loop's trace, and the order of generated identifiers. *)

From stdpp Require Import base list strings.
From Stdlib Require Import ZArith Lia Sorted.
From S2P Require Import Prelude SessionTypes Compaction Retry.
Open Scope Z_scope.

(** ** Classification *)

(** [matches p s]: the whole of [s] matches the pattern [p]. *)
Inductive matches : list atom -> jstring -> Prop :=
| matches_nil : matches [] []
| matches_unit a p u s : atom_accepts a u = true -> matches p s -> matches (a :: p) (u :: s)
| matches_skip a p s : atom_optional a = true -> matches p s -> matches (a :: p) s.

(** Some part of [s] matches one of the patterns. *)
Definition occurs (patterns : list jstring) (s : jstring) : Prop :=
  exists source pre mid post,
    source ∈ patterns /\ s = pre ++ mid ++ post /\ matches (parse_pattern source) mid.

Lemma match_here_correct p s :
  match_here p s = true <-> exists mid post, s = mid ++ post /\ matches p mid.
Proof.
  revert s. induction p as [|a p IH]; intros s; simpl.
  - split; [|done]. intros _. exists [], s. split; [done|constructor].
  - rewrite orb_true_iff, andb_true_iff, IH. split.
    + intros [H|(Ho & mid & post & -> & Hm)].
      * destruct s as [|u s]; [done|]. apply andb_true_iff in H as [Ha H].
        apply IH in H as (mid & post & -> & Hm). exists (u :: mid), post. split; [done|by constructor].
      * exists mid, post. split; [done|by constructor].
    + intros (mid & post & -> & Hm). inversion Hm; subst.
      * left. simpl. apply andb_true_iff. split; [done|]. apply IH. eauto.
      * right. split; [done|]. eauto.
Qed.

Lemma test_atoms_correct p s :
  test_atoms p s = true <-> exists pre mid post, s = pre ++ mid ++ post /\ matches p mid.
Proof.
  induction s as [|u s IH]; cbn [test_atoms]; rewrite orb_true_iff, match_here_correct.
  - split.
    + intros [(mid & post & H & Hm)|]; [|done]. by exists [], mid, post.
    + intros (pre & mid & post & H & Hm). left. destruct pre; [|done]. by exists mid, post.
  - rewrite IH. split.
    + intros [(mid & post & H & Hm)|(pre & mid & post & -> & Hm)]; [by exists [], mid, post|].
      by exists (u :: pre), mid, post.
    + intros ([|v pre] & mid & post & H & Hm); [left; by exists mid, post|].
      right. injection H as -> H. by exists pre, mid, post.
Qed.

Lemma test_pattern_correct patterns s : test_pattern patterns s = true <-> occurs patterns s.
Proof.
  unfold test_pattern, occurs. rewrite existsb_exists. split.
  - intros (source & Hin & H). apply test_atoms_correct in H as (pre & mid & post & H & Hm).
    exists source, pre, mid, post. by rewrite list_elem_of_In.
  - intros (source & pre & mid & post & Hin & H & Hm). exists source. rewrite <- list_elem_of_In.
    split; [done|]. apply test_atoms_correct. eauto.
Qed.

(** An assistant message is classified as a transient failure exactly when
    it stopped with an error, its error text contains no match of the limit
    and billing patterns, and it contains a match of one of the transient
    patterns; in particular an exhausted quota is never retried, whatever
    transient wording accompanies it. *)
Theorem retryable_classification (m : AssistantMessage) :
  isRetryableAssistantError m = true <->
  asst_stopReason m = SR_error /\
  exists text, asst_errorMessage m = Some text /\
    ~ occurs NON_RETRYABLE_PROVIDER_LIMIT_ERROR_PATTERN text /\
    occurs RETRYABLE_PROVIDER_ERROR_PATTERN text.
Proof.
  rewrite <- (Is_true_true (isRetryableAssistantError m)). unfold isRetryableAssistantError.
  assert (Hempty : ~ occurs RETRYABLE_PROVIDER_ERROR_PATTERN []).
  { rewrite <- test_pattern_correct. by vm_compute. }
  destruct (asst_stopReason m) eqn:Es;
    try (split; [done|by intros [? _]]).
  destruct (asst_errorMessage m) as [[|u text]|] eqn:Em; cycle 2.
  { split; [done|]. by intros (_ & t & ? & _). }
  { split; [done|]. intros (_ & t & Ht & _ & H). by simplify_eq. }
  set (s := u :: text) in *.
  destruct (test_pattern NON_RETRYABLE_PROVIDER_LIMIT_ERROR_PATTERN s) eqn:En.
  - split; [done|]. intros (_ & t & Ht & Hn & _). simplify_eq. by rewrite <- test_pattern_correct in Hn.
  - rewrite Is_true_true, test_pattern_correct. split.
    + intros H. split; [done|]. exists s. split; [done|]. split; [|done].
      rewrite <- test_pattern_correct. by rewrite En.
    + intros (_ & t & Ht & _ & H). by simplify_eq.
Qed.

(** ** The retry loop *)

Section Trace.
Context {X : Type} (produce : nat -> Result X AssistantMessage) (signal : nat -> Signal).
Implicit Types (p : option RetryPolicy).

Definition interrupted (i : nat) : bool := sig_aborted (signal i) || sig_fires (signal i).

(** The error text a retry reports. *)
Definition retry_error (i : nat) : jstring :=
  match produce i with Ok m => default [] (asst_errorMessage m) | Err _ => [] end.

Definition retryable_call (i : nat) : Prop :=
  exists m, produce i = Ok m /\ isRetryableAssistantError m = true.

Definition scheduled_event p (maxAttempts : Z) (i : nat) : RetryEvent :=
  EV_retryScheduled (Z.of_nat (S i)) maxAttempts
    (match p with Some p => policy_baseDelayMs p * 2 ^ Z.of_nat i | None => 0 end) (retry_error i).

(** The events of a call whose failure is retried. *)
Definition retried_round p (maxAttempts : Z) (i : nat) : list RetryEvent :=
  [EV_call; scheduled_event p maxAttempts i; EV_retryAttemptStart].

(** The final report after [k] retries: none without a retry, none when the
    call rejects. *)
Definition final_report (k : nat) : list RetryEvent :=
  match k, produce k with
  | S _, Ok m =>
      [match asst_stopReason m with
       | SR_aborted => EV_retryFinished false (Z.of_nat k) None
       | SR_error => EV_retryFinished false (Z.of_nat k) (asst_errorMessage m)
       | _ => EV_retryFinished true (Z.of_nat k) None
       end]
  | _, _ => []
  end.

(** What the loop does from attempt [n] on, with [k] retries in all. *)
Definition loop_outcome p (maxAttempts : Z) (limit n k : nat)
    (out : list RetryEvent * Result X AssistantMessage) : Prop :=
  (n <= k <= limit)%nat /\
  (forall i, (n <= i < k)%nat -> retryable_call i /\ interrupted i = false) /\
  ((out = (concat (map (retried_round p maxAttempts) (seq n (k - n))) ++ EV_call :: final_report k, produce k) /\
    (k = limit \/ ~ retryable_call k)) \/
   (exists m, (k < limit)%nat /\ produce k = Ok m /\ retryable_call k /\ interrupted k = true /\
    out = (concat (map (retried_round p maxAttempts) (seq n (k - n))) ++
           [EV_call; scheduled_event p maxAttempts k; EV_retryFinished false (Z.of_nat (S k)) (Some (retry_error k))],
           Ok (aborted_response m)))).

Lemma retryable_stop m : isRetryableAssistantError m = true ->
  asst_stopReason m = SR_error /\ exists u s, asst_errorMessage m = Some (u :: s).
Proof.
  unfold isRetryableAssistantError.
  destruct (asst_stopReason m), (asst_errorMessage m) as [[|u s]|]; try done. eauto.
Qed.

Lemma loop_outcome_step p maxAttempts limit n k out :
  (n < limit)%nat -> retryable_call n -> interrupted n = false ->
  loop_outcome p maxAttempts limit (S n) k out ->
  loop_outcome p maxAttempts limit n k (retried_round p maxAttempts n ++ out.1, out.2).
Proof.
  intros Hn Hr Hi (Hk & Hall & Hout).
  assert (Hseq : seq n (k - n) = n :: seq (S n) (k - S n)) by (replace (k - n)%nat with (S (k - S n)) by lia; done).
  split; [lia|]. split.
  { intros i Hin. destruct (decide (i = n)) as [->|]; [done|]. apply Hall. lia. }
  destruct Hout as [(-> & Hend)|(m & ? & ? & ? & ? & ->)]; [left|right; exists m];
    rewrite Hseq; cbn [map concat fst snd]; rewrite <- app_assoc; auto.
Qed.

Lemma sleep_interrupted i :
  sleep (sig_aborted (signal i)) (sig_fires (signal i)) =
  if interrupted i then RetrySleepAbortError else SleepResolved.
Proof. unfold sleep, interrupted. by destruct (sig_aborted _), (sig_fires _). Qed.

(** A call that ends the loop, with the report of the retries before it. *)
Lemma loop_outcome_end p maxAttempts limit n report :
  (n <= limit)%nat -> n = limit \/ ~ retryable_call n -> report = final_report n ->
  loop_outcome p maxAttempts limit n n (EV_call :: report, produce n).
Proof.
  intros Hn Hend ->. split; [lia|]. split; [intros; lia|]. left. by rewrite Nat.sub_diag.
Qed.

Lemma retry_loop_outcome p maxAttempts remaining n lastRetry :
  fst <$> lastRetry = match n with O => None | S _ => Some (Z.of_nat n) end ->
  exists k, loop_outcome p maxAttempts (n + remaining) n k
              (retry_loop produce signal p maxAttempts remaining n lastRetry).
Proof.
  revert n lastRetry. induction remaining as [|remaining IH]; intros n lastRetry Hlast;
    cbn [retry_loop]; destruct (produce n) as [m|e] eqn:Ep;
    try (exists n; rewrite <- Ep; apply loop_outcome_end; [lia| |unfold final_report; destruct n; by rewrite ?Ep];
         right; intros (m & ? & _); congruence).
  all: assert (Hstop : forall success err, (lastRetry = None /\ n = O \/
                         exists s, lastRetry = Some (Z.of_nat n, s) /\ n <> O) ->
                       finished lastRetry success err =
                       match n with O => [] | S _ => [EV_retryFinished success (Z.of_nat n) err] end)
    by (intros success err [[-> ->]|(s & -> & ?)]; [done|by destruct n]).
  all: assert (Hshape : lastRetry = None /\ n = O \/ exists s, lastRetry = Some (Z.of_nat n, s) /\ n <> O)
    by (destruct lastRetry as [[a s]|], n; simplify_eq/=; [right|left]; eauto).
  all: specialize (fun su er => Hstop su er Hshape).
  all: assert (Hfinal : forall su er, (match asst_stopReason m with
             | SR_aborted => EV_retryFinished false (Z.of_nat n) None
             | SR_error => EV_retryFinished false (Z.of_nat n) (asst_errorMessage m)
             | _ => EV_retryFinished true (Z.of_nat n) None end) = EV_retryFinished su (Z.of_nat n) er ->
           finished lastRetry su er = final_report n)
    by (intros su er H; rewrite Hstop; unfold final_report; destruct n; [done|]; rewrite Ep; by rewrite H).
  - exists n. destruct (asst_stopReason m) eqn:Es; rewrite <- Ep; apply loop_outcome_end;
      try lia; by apply Hfinal.
  - destruct (asst_stopReason m) eqn:Es;
      try (exists n; rewrite <- Ep; apply loop_outcome_end; [lia| |by apply Hfinal];
           right; intros (m' & Hm' & Hr); rewrite Ep in Hm'; injection Hm' as <-;
           apply retryable_stop in Hr as [? _]; congruence).
    destruct (isRetryableAssistantError m) eqn:Er; cbn [negb]; cycle 1.
    { exists n. rewrite <- Ep. apply loop_outcome_end; [lia| |by apply Hfinal].
      right. intros (m' & Hm' & Hr). rewrite Ep in Hm'. injection Hm' as <-. congruence. }
    destruct (retryable_stop m Er) as (_ & u & s & Em). rewrite Em. cbn [or_text].
    assert (Hcall : retryable_call n) by (exists m; done).
    assert (Hsched : EV_retryScheduled (Z.of_nat (S n)) maxAttempts
        (match p with Some p => policy_baseDelayMs p * 2 ^ (Z.of_nat (S n) - 1) | None => 0 end) (u :: s) =
      scheduled_event p maxAttempts n).
    { unfold scheduled_event, retry_error. rewrite Ep, Em. cbn [default].
      by replace (Z.of_nat (S n) - 1) with (Z.of_nat n) by lia. }
    rewrite Hsched, sleep_interrupted. destruct (interrupted n) eqn:Ei.
    + exists n. split; [lia|]. split; [intros; lia|]. right. exists m. rewrite Nat.sub_diag.
      repeat split; [lia|done..|]. unfold retry_error. by rewrite Ep, Em.
    + destruct (IH (S n) (Some (Z.of_nat (S n), u :: s)) eq_refl) as (k & Hk).
      replace (n + S remaining)%nat with (S n + remaining)%nat by lia.
      exists k. destruct (retry_loop _ _ _ _ _ _ _) as [events result]. cbn beta iota.
      by apply (loop_outcome_step p maxAttempts (S n + remaining) n k (events, result)); [lia|..].
Qed.
End Trace.

(** The retry loop always ends, after at most [maxRetries] retries (none
    when the policy is absent or disabled).  Before the last call every call
    failed with a transient error and its backoff, [baseDelayMs * 2^(i)] for the
    [i]-th retry counted from 0, ran to its end; each was reported once and the
    retries carry consecutive numbers.  The loop ends either with the outcome
    of a call that is not retryable or used the last retry, reported as
    finished exactly when there was a retry and the call did not reject, or in
    an interrupted backoff, whose result is the failed message turned into an
    aborted one and whose retry is reported as unsuccessful. *)
Theorem retry_trace {X} (produce : nat -> Result X AssistantMessage) (signal : nat -> Signal)
    (policy : option RetryPolicy) :
  let maxAttempts := match policy with
                     | Some p => if policy_enabled p then policy_maxRetries p else 0
                     | None => 0
                     end in
  exists k, loop_outcome produce signal policy maxAttempts (Z.to_nat maxAttempts) 0 k
              (retryAssistantCall produce signal policy).
Proof.
  intros maxAttempts. unfold retryAssistantCall. fold maxAttempts.
  exact (retry_loop_outcome produce signal policy maxAttempts (Z.to_nat maxAttempts) 0 None eq_refl).
Qed.

(** ** Identifiers *)

(** [a < b] on strings: by code units, a proper prefix first. *)
Fixpoint string_lt (a b : jstring) : Prop :=
  match a, b with
  | [], [] => False
  | [], _ :: _ => True
  | _ :: _, [] => False
  | x :: a', y :: b' => x < y \/ (x = y /\ string_lt a' b')
  end.

Lemma string_lt_trans a b c : string_lt a b -> string_lt b c -> string_lt a c.
Proof.
  revert b c. induction a as [|x a IH]; intros [|y b] [|z c]; simpl; try done.
  intros [H1|[-> H1]] [H2|[-> H2]]; [left; lia|left; lia|left; lia|right; eauto].
Qed.

(** The identifiers of successive calls. *)
Fixpoint uuid_run (s : UuidState) (calls : list (Z * list Z)) : list jstring :=
  match calls with
  | [] => []
  | (timestamp, random) :: calls' =>
      let (s', id) := uuidv7 s timestamp random in id :: uuid_run s' calls'
  end.

Definition is_byte (b : Z) : Prop := 0 <= b < 256.

(** Version 7, RFC 9562 variant, 36 characters with hyphens in their places. *)
Definition uuid_shape (id : jstring) : Prop :=
  length id = 36%nat /\ id !! 14%nat = Some 55 /\
  (exists v, id !! 19%nat = Some v /\ v ∈ js "89ab") /\
  Forall (fun i => id !! i = Some 45) [8; 13; 18; 23]%nat.

Lemma land_ones_mod x k : 0 <= k -> Z.land x (2 ^ k - 1) = x mod 2 ^ k.
Proof. intros. rewrite <- Z.land_ones by done. by rewrite Z.ones_equiv, Z.sub_1_r. Qed.

Lemma land_255 x : Z.land x 255 = x mod 256.
Proof. exact (land_ones_mod x 8 ltac:(lia)). Qed.

Lemma digit_lt k j B x y : 0 <= k -> 0 <= j -> B = 2 ^ j -> x mod 2 ^ (k + j) < y mod 2 ^ (k + j) ->
  (x / 2 ^ k) mod B < (y / 2 ^ k) mod B \/
  ((x / 2 ^ k) mod B = (y / 2 ^ k) mod B /\ x mod 2 ^ k < y mod 2 ^ k).
Proof.
  intros Hk Hj ->. rewrite Z.pow_add_r by done.
  pose proof (Z.pow_pos_nonneg 2 k ltac:(lia) Hk) as HK. pose proof (Z.pow_pos_nonneg 2 j ltac:(lia) Hj) as HJ.
  rewrite !Z.rem_mul_r by lia. set (K := 2 ^ k) in *.
  pose proof (Z.mod_pos_bound x K HK). pose proof (Z.mod_pos_bound y K HK).
  generalize ((x / K) mod 2 ^ j) as dx. generalize ((y / K) mod 2 ^ j) as dy. intros dy dx H1.
  destruct (Z.lt_trichotomy dx dy) as [?|[->|?]]; [by left|right; split; [done|lia]|nia].
Qed.

(** The order key of an identifier. *)
Definition key (last sequence : Z) : Z := last * 2 ^ 32 + sequence.

Lemma range_forallb (f : Z -> bool) n x :
  forallb (fun i => f (Z.of_nat i)) (seq 0 n) = true -> 0 <= x < Z.of_nat n -> f x = true.
Proof.
  intros H Hx. rewrite forallb_forall in H. specialize (H (Z.to_nat x)).
  rewrite Z2Nat.id in H by lia. apply H. apply in_seq. lia.
Qed.

Lemma lor_version x : Z.lor 112 (Z.land x 15) = 112 + x mod 16.
Proof.
  rewrite (land_ones_mod x 4 ltac:(lia) : Z.land x 15 = x mod 16). apply Z.eqb_eq.
  apply (range_forallb (fun d => Z.lor 112 d =? 112 + d) 16); [by vm_compute|]. apply Z.mod_pos_bound. lia.
Qed.

Lemma lor_variant x : Z.lor 128 (Z.land x 63) = 128 + x mod 64.
Proof.
  rewrite (land_ones_mod x 6 ltac:(lia) : Z.land x 63 = x mod 64). apply Z.eqb_eq.
  apply (range_forallb (fun d => Z.lor 128 d =? 128 + d) 64); [by vm_compute|]. apply Z.mod_pos_bound. lia.
Qed.

Lemma lor_shift x r : Z.lor (Z.shiftl (Z.land x 63) 2) (Z.land r 3) = 4 * (x mod 64) + r mod 4.
Proof.
  rewrite (land_ones_mod x 6 ltac:(lia) : Z.land x 63 = x mod 64), (land_ones_mod r 2 ltac:(lia) : Z.land r 3 = r mod 4).
  pose proof (Z.mod_pos_bound x 64 ltac:(lia)) as Hx. pose proof (Z.mod_pos_bound r 4 ltac:(lia)) as Hr.
  revert Hx Hr.
  generalize (x mod 64) as dx. generalize (r mod 4) as dr. intros dr dx Hx Hr.
  assert (H : forallb (fun d => Z.lor (Z.shiftl dx 2) (Z.of_nat d) =? 4 * dx + Z.of_nat d) (seq 0 4) = true).
  { apply (range_forallb (fun dx => forallb (fun d => Z.lor (Z.shiftl dx 2) (Z.of_nat d) =? 4 * dx + Z.of_nat d) (seq 0 4)) 64);
      [by vm_compute|lia]. }
  apply Z.eqb_eq. by apply (range_forallb (fun d => Z.lor (Z.shiftl dx 2) d =? 4 * dx + d) 4).
Qed.

(** The bytes as arithmetic. *)
Lemma uuid_bytes_arith l s r :
  uuid_bytes l s r =
  [(l / 2 ^ 40) mod 256; (l / 2 ^ 32) mod 256; (l / 2 ^ 24) mod 256; (l / 2 ^ 16) mod 256; (l / 2 ^ 8) mod 256;
   l mod 256; 112 + (s / 2 ^ 28) mod 16; (s / 2 ^ 20) mod 256; 128 + (s / 2 ^ 14) mod 64; (s / 2 ^ 6) mod 256;
   4 * (s mod 64) + byte_at r 10 mod 4; byte_at r 11; byte_at r 12; byte_at r 13; byte_at r 14; byte_at r 15].
Proof.
  unfold uuid_bytes. by rewrite !land_255, lor_version, lor_variant, lor_shift, !Z.shiftr_div_pow2 by lia.
Qed.

Lemma timestamp_bytes_lt l1 l2 rest1 rest2 : 0 <= l1 < l2 -> l2 < 2 ^ 48 ->
  string_lt ([(l1 / 2 ^ 40) mod 256; (l1 / 2 ^ 32) mod 256; (l1 / 2 ^ 24) mod 256; (l1 / 2 ^ 16) mod 256;
              (l1 / 2 ^ 8) mod 256; l1 mod 256] ++ rest1)
            ([(l2 / 2 ^ 40) mod 256; (l2 / 2 ^ 32) mod 256; (l2 / 2 ^ 24) mod 256; (l2 / 2 ^ 16) mod 256;
              (l2 / 2 ^ 8) mod 256; l2 mod 256] ++ rest2).
Proof.
  intros Hl Hb. cbn [app string_lt].
  assert (H : l1 mod 2 ^ (40 + 8) < l2 mod 2 ^ (40 + 8)) by (rewrite !Z.mod_small by (simpl; lia); lia).
  destruct (digit_lt 40 8 256 l1 l2 ltac:(lia) ltac:(lia) eq_refl H) as [?|[-> H1]]; [by left|right; split; [done|]].
  destruct (digit_lt 32 8 256 l1 l2 ltac:(lia) ltac:(lia) eq_refl H1) as [?|[-> H2]]; [by left|right; split; [done|]].
  destruct (digit_lt 24 8 256 l1 l2 ltac:(lia) ltac:(lia) eq_refl H2) as [?|[-> H3]]; [by left|right; split; [done|]].
  destruct (digit_lt 16 8 256 l1 l2 ltac:(lia) ltac:(lia) eq_refl H3) as [?|[-> H4]]; [by left|right; split; [done|]].
  destruct (digit_lt 8 8 256 l1 l2 ltac:(lia) ltac:(lia) eq_refl H4) as [?|[-> H5]]; [by left|right; split; [done|by left]].
Qed.

Lemma sequence_bytes_lt s1 s2 r1 r2 rest1 rest2 : 0 <= s1 < s2 -> s2 < 2 ^ 32 ->
  string_lt ([112 + (s1 / 2 ^ 28) mod 16; (s1 / 2 ^ 20) mod 256; 128 + (s1 / 2 ^ 14) mod 64; (s1 / 2 ^ 6) mod 256;
              4 * (s1 mod 64) + r1 mod 4] ++ rest1)
            ([112 + (s2 / 2 ^ 28) mod 16; (s2 / 2 ^ 20) mod 256; 128 + (s2 / 2 ^ 14) mod 64; (s2 / 2 ^ 6) mod 256;
              4 * (s2 mod 64) + r2 mod 4] ++ rest2).
Proof.
  intros Hs Hb. cbn [app string_lt].
  assert (H : s1 mod 2 ^ (28 + 4) < s2 mod 2 ^ (28 + 4)) by (rewrite !Z.mod_small by (simpl; lia); lia).
  destruct (digit_lt 28 4 16 s1 s2 ltac:(lia) ltac:(lia) eq_refl H) as [H'|[H' H1]];
    [left; lia|right; split; [lia|]].
  destruct (digit_lt 20 8 256 s1 s2 ltac:(lia) ltac:(lia) eq_refl H1) as [?|[-> H2]]; [by left|right; split; [done|]].
  destruct (digit_lt 14 6 64 s1 s2 ltac:(lia) ltac:(lia) eq_refl H2) as [H3|[H3 H4]];
    [left; lia|right; split; [lia|]].
  destruct (digit_lt 6 8 256 s1 s2 ltac:(lia) ltac:(lia) eq_refl H4) as [?|[-> H5]]; [by left|right; split; [done|]].
  left. change (2 ^ 6) with 64 in H5.
  pose proof (Z.mod_pos_bound r1 4 ltac:(lia)). pose proof (Z.mod_pos_bound r2 4 ltac:(lia)). lia.
Qed.

Lemma string_lt_app p a b : string_lt a b -> string_lt (p ++ a) (p ++ b).
Proof. intros H. induction p as [|x p IH]; [done|]. by right. Qed.

Lemma uuid_bytes_lt l1 s1 r1 l2 s2 r2 :
  0 <= l1 -> l2 < 2 ^ 48 -> 0 <= s1 < 2 ^ 32 -> 0 <= s2 < 2 ^ 32 -> key l1 s1 < key l2 s2 ->
  string_lt (uuid_bytes l1 s1 r1) (uuid_bytes l2 s2 r2).
Proof.
  unfold key. intros Hl1 Hl2 Hs1 Hs2 Hk. rewrite !uuid_bytes_arith.
  destruct (Z.lt_trichotomy l1 l2) as [Hl|[->|Hl]]; [|  |lia].
  - apply (timestamp_bytes_lt l1 l2 (_ :: _) (_ :: _)); lia.
  - refine (string_lt_app [_; _; _; _; _; _] _ _ _). apply (sequence_bytes_lt s1 s2 _ _ (_ :: _) (_ :: _)); lia.
Qed.

(** Formatting keeps the order of bytes. *)
Lemma hex_byte_lt x y rest1 rest2 : is_byte x -> is_byte y -> x < y ->
  string_lt (hex_byte x ++ rest1) (hex_byte y ++ rest2).
Proof.
  unfold is_byte. intros Hx Hy Hlt. unfold hex_byte, hex_digit. cbn [app string_lt].
  assert (x / 16 < y / 16 \/ x / 16 = y / 16 /\ x mod 16 < y mod 16) as Hd.
  { pose proof (Z.div_mod x 16 ltac:(lia)). pose proof (Z.div_mod y 16 ltac:(lia)).
    pose proof (Z.mod_pos_bound x 16 ltac:(lia)). pose proof (Z.mod_pos_bound y 16 ltac:(lia)). lia. }
  destruct Hd as [Hd|[-> Hd]]; [left|right; split; [done|left]];
    repeat case_match; repeat match goal with H : (_ <? _) = _ |- _ => first [apply Z.ltb_lt in H|apply Z.ltb_ge in H] end; lia.
Qed.

(** A byte string printed with separators at fixed places. *)
Fixpoint print_bytes (groups : list nat) (bytes : list Z) : jstring :=
  match groups with
  | [] => []
  | [n] => concat (map hex_byte (take n bytes))
  | n :: groups' => concat (map hex_byte (take n bytes)) ++ js "-" ++ print_bytes groups' (drop n bytes)
  end.

Lemma hex_group_lt n a b restA restB :
  Forall is_byte a -> Forall is_byte b -> length a = length b -> string_lt a b ->
  (take n a = take n b -> string_lt restA restB) ->
  string_lt (concat (map hex_byte (take n a)) ++ restA) (concat (map hex_byte (take n b)) ++ restB).
Proof.
  revert a b. induction n as [|n IH]; intros [|x a] [|y b] Ha Hb Hlen Hlt Hrest; try done; simpl in *; auto.
  inversion Ha as [|?? Hx Ha']; inversion Hb as [|?? Hy Hb']; subst.
  destruct Hlt as [Hlt|[-> Hlt]]; [by apply (hex_byte_lt x y _ _ Hx Hy Hlt)|].
  do 2 (right; split; [done|]). apply IH; auto. intros H. apply Hrest. by rewrite H.
Qed.

Lemma string_lt_drop n a b : length a = length b -> string_lt a b -> take n a = take n b -> string_lt (drop n a) (drop n b).
Proof.
  revert a b. induction n as [|n IH]; intros [|x a] [|y b] Hlen Hlt Ht; simplify_eq/=; try done.
  destruct Hlt as [?|[_ ?]]; [lia|auto].
Qed.

Lemma print_bytes_lt groups a b :
  Forall is_byte a -> Forall is_byte b -> length a = length b -> length a = sum_list groups -> string_lt a b ->
  string_lt (print_bytes groups a) (print_bytes groups b).
Proof.
  revert a b. induction groups as [|n groups IH]; intros a b Ha Hb Hlen Hsum Hlt.
  { destruct a, b; done. }
  assert (Hdrop : take n a = take n b -> string_lt (drop n a) (drop n b)) by (by apply string_lt_drop).
  destruct groups as [|n' groups].
  - cbn [print_bytes]. rewrite <- (app_nil_r (concat (map hex_byte (take n a)))), <- (app_nil_r (concat (map hex_byte (take n b)))).
    apply hex_group_lt; try done. intros Ht. specialize (Hdrop Ht). simpl in Hsum.
    by rewrite !drop_ge in Hdrop by lia.
  - change (print_bytes (n :: n' :: groups) a) with (concat (map hex_byte (take n a)) ++ js "-" ++ print_bytes (n' :: groups) (drop n a)).
    change (print_bytes (n :: n' :: groups) b) with (concat (map hex_byte (take n b)) ++ js "-" ++ print_bytes (n' :: groups) (drop n b)).
    apply hex_group_lt; try done. intros Ht. apply string_lt_app. apply IH; try (by apply Forall_drop); [| |auto].
    + rewrite !length_drop. lia.
    + rewrite length_drop. simpl in *. lia.
Qed.

Lemma format_uuid_groups bytes : length bytes = 16%nat -> format_uuid bytes = print_bytes [4; 2; 2; 2; 6]%nat bytes.
Proof. intros H. do 16 (destruct bytes as [|? bytes]; [done|]). by destruct bytes. Qed.

Lemma byte_at_byte random i : Forall is_byte random -> is_byte (byte_at random i).
Proof.
  intros H. unfold byte_at. destruct (random !! i) as [b|] eqn:E; simpl; [|unfold is_byte; lia].
  by apply (Forall_lookup_1 _ _ _ _ H E).
Qed.

Lemma uuid_bytes_bytes l s r : Forall is_byte r -> Forall is_byte (uuid_bytes l s r).
Proof.
  intros Hr. rewrite uuid_bytes_arith. unfold is_byte.
  repeat constructor; try (apply byte_at_byte; assumption);
    match goal with |- context [?x mod ?n] => pose proof (Z.mod_pos_bound x n ltac:(lia)) end; try lia;
    pose proof (Z.mod_pos_bound (byte_at r 10) 4 ltac:(lia)); lia.
Qed.

(** A state after at least one call, with the latest time it stands for. *)
Definition uuid_state_ok (s : UuidState) (last : Z) : Prop :=
  uu_lastTimestamp s = Some last /\ 0 <= last /\ 0 <= uu_sequence s < 2 ^ 32.

Lemma fresh_sequence r : Forall is_byte r ->
  0 <= byte_at r 6 * 0x1000000 + byte_at r 7 * 0x10000 + byte_at r 8 * 0x100 + byte_at r 9 < 2 ^ 32.
Proof.
  intros Hr. pose proof (byte_at_byte r 6 Hr). pose proof (byte_at_byte r 7 Hr).
  pose proof (byte_at_byte r 8 Hr). pose proof (byte_at_byte r 9 Hr). unfold is_byte in *. lia.
Qed.

Lemma advance_ok s t r : 0 <= t -> Forall is_byte r ->
  (uu_lastTimestamp s = None -> uuid_state_ok (advance s t r) t) /\
  (forall last, uuid_state_ok s last -> exists last', uuid_state_ok (advance s t r) last' /\
     last' <= Z.max t (last + 1) /\ key last (uu_sequence s) < key last' (uu_sequence (advance s t r))).
Proof.
  intros Ht Hr. pose proof (fresh_sequence r Hr) as Hseq.
  split; [intros Hs; unfold advance; rewrite Hs; repeat split; simpl; lia|].
  intros last (Hs & Hlast & Hsq). unfold advance, uuid_state_ok, key in *. rewrite Hs.
  destruct (Z.ltb_spec last t) as [Hlt|Hge]; cbn [uu_lastTimestamp uu_sequence].
  - exists t. repeat split; lia.
  - pose proof (Z.mod_pos_bound (uu_sequence s + 1) (2 ^ 32) ltac:(lia)) as Hm.
    eexists. split; [repeat split; [|lia..]; destruct (_ =? _); lia|].
    destruct (decide (uu_sequence s + 1 = 2 ^ 32)) as [Heq|Hne].
    + rewrite Heq, Z.mod_same by lia. simpl. lia.
    + rewrite Z.mod_small by lia. destruct (Z.eqb_spec (uu_sequence s + 1) 0); lia.
Qed.

Definition uuid_of (last sequence : Z) (random : list Z) : jstring := format_uuid (uuid_bytes last sequence random).

Lemma uuidv7_of s t r last : uuid_state_ok (advance s t r) last ->
  uuidv7 s t r = (advance s t r, uuid_of last (uu_sequence (advance s t r)) r).
Proof. intros (H & _). unfold uuidv7, uuid_of. by rewrite H. Qed.

Lemma uuid_of_lt l1 s1 r1 l2 s2 r2 :
  Forall is_byte r1 -> Forall is_byte r2 -> 0 <= l1 -> l2 < 2 ^ 48 -> 0 <= s1 < 2 ^ 32 -> 0 <= s2 < 2 ^ 32 ->
  key l1 s1 < key l2 s2 -> string_lt (uuid_of l1 s1 r1) (uuid_of l2 s2 r2).
Proof.
  intros. unfold uuid_of. rewrite !format_uuid_groups by done.
  apply print_bytes_lt; try (by apply uuid_bytes_bytes); try done. by apply uuid_bytes_lt.
Qed.

(** A call of the clock and of the random source. *)
Definition call_ok (c : Z * list Z) : Prop := 0 <= c.1 < 2 ^ 47 /\ Forall is_byte c.2.

Lemma uuid_run_above s last r0 calls :
  uuid_state_ok s last -> Forall is_byte r0 -> Forall call_ok calls ->
  Z.max last (2 ^ 47) + Z.of_nat (length calls) < 2 ^ 48 ->
  Forall (string_lt (uuid_of last (uu_sequence s) r0)) (uuid_run s calls) /\
  StronglySorted string_lt (uuid_run s calls).
Proof.
  revert s last r0. induction calls as [|[t r] calls IH]; intros s last r0 Hs Hr0 Hc Hb;
    [split; constructor|].
  apply Forall_cons in Hc as [[Ht Hr] Hc]. cbn [fst snd] in Ht, Hr.
  destruct (advance_ok s t r (proj1 Ht) Hr) as [_ Hadv].
  destruct (Hadv last Hs) as (last' & Hs' & Hle & Hk). cbn [uuid_run length] in *.
  rewrite (uuidv7_of s t r last' Hs').
  destruct (IH _ last' r Hs' Hr Hc) as [Habove Hsorted]; [lia|].
  assert (Hlt : string_lt (uuid_of last (uu_sequence s) r0) (uuid_of last' (uu_sequence (advance s t r)) r)).
  { destruct Hs as (_ & ? & ?), Hs' as (_ & ? & ?). apply uuid_of_lt; auto. lia. }
  split; [|by constructor]. constructor; [done|].
  eapply Forall_impl; [exact Habove|]. intros id. by apply string_lt_trans.
Qed.

Lemma uuid_of_shape last sequence r : uuid_shape (uuid_of last sequence r).
Proof.
  unfold uuid_of. rewrite uuid_bytes_arith. unfold uuid_shape, format_uuid, hex_join.
  pose proof (Z.mod_pos_bound (sequence / 2 ^ 28) 16 ltac:(lia)) as H7.
  pose proof (Z.mod_pos_bound (sequence / 2 ^ 14) 64 ltac:(lia)) as H8.
  revert H7 H8. generalize ((sequence / 2 ^ 28) mod 16) as v. generalize ((sequence / 2 ^ 14) mod 64) as w.
  intros w v H7 H8. cbn -[Z.div Z.modulo Z.add Z.mul Z.pow hex_digit].
  split; [done|]. split; [|split; [|by repeat constructor]].
  - by replace ((112 + v) / 16) with 7 by (apply (Z.div_unique _ 16 7 v); lia).
  - eexists. split; [reflexivity|].
    assert (Hd : 8 <= (128 + w) / 16 < 12) by (split; [apply Z.div_le_lower_bound|apply Z.div_lt_upper_bound]; lia).
    revert Hd. generalize ((128 + w) / 16) as d. intros d Hd.
    assert (d = 8 \/ d = 9 \/ d = 10 \/ d = 11) as [->|[->|[->| ->]]] by lia; repeat first [apply list_elem_of_here | apply list_elem_of_further].
Qed.

(** Identifiers are time-ordered: over any run of calls whose clock reads
    below [2^47] milliseconds (the year 6429), in any order and as often within
    a millisecond as the 32-bit sequence wraps, each identifier is strictly
    greater, as a string, than every identifier generated before it; so
    they are pairwise distinct.  Each is a version-7 UUID in canonical form. *)
Theorem uuidv7_ordered (calls : list (Z * list Z))
    (Hcalls : Forall (fun c => 0 <= c.1 < 2 ^ 47 /\ Forall is_byte c.2) calls)
    (Hlen : Z.of_nat (length calls) < 2 ^ 47) :
  StronglySorted string_lt (uuid_run initial_uuid_state calls) /\
  Forall uuid_shape (uuid_run initial_uuid_state calls).
Proof.
  split.
  - destruct calls as [|[t r] calls]; [constructor|].
    apply Forall_cons in Hcalls as [[Ht Hr] Hcalls]. cbn [fst snd] in Ht, Hr.
    destruct (advance_ok initial_uuid_state t r (proj1 Ht) Hr) as [Hs _]. specialize (Hs eq_refl).
    cbn [uuid_run length] in *. rewrite (uuidv7_of _ t r t Hs).
    destruct (uuid_run_above _ t r calls Hs Hr Hcalls) as [? ?]; [lia|by constructor].
  - clear Hcalls Hlen. generalize initial_uuid_state. induction calls as [|[t r] calls IH]; intros s; [constructor|].
    cbn [uuid_run]. unfold uuidv7. constructor; [apply uuid_of_shape|apply IH].
Qed.

Lemma uuidv7_ordered_witness :
  let calls := [(1000, repeat 255 16); (1000, repeat 0 16); (999, repeat 7 16)] in
  StronglySorted string_lt (uuid_run initial_uuid_state calls) /\
  Forall uuid_shape (uuid_run initial_uuid_state calls).
Proof.
  apply uuidv7_ordered; [|by vm_compute]. repeat constructor; simpl; unfold is_byte; lia.
Defined.
