(* ===== verification/Summary.v ===== *)
(** * Summaries

    The summarization half of packages/agent/src/harness/compaction: prompts,
    the plain-text serialization of a conversation (utils.ts), the requests of
    compaction.ts ([generateSummary], [compact]) and packages/ai/src/utils/text.ts.

    Provider calls run in a small state monad.  The world counts provider
    calls, keeps the requests sent and the state of the identifier generator;
    [completeSimple n request] is the outcome of the [n]-th provider call
    ([Err] when it rejects), [signal n] the abort signal during the backoff
    after it, and [clock] and [random] are the time and random bytes read by
    the [n]-th reading.  Output caps are integers; [0.8 * n] and [0.5 * n] are
    taken exactly before [Math.floor], which agrees with the product of doubles
    below [2^50]. *)

From stdpp Require Import base list strings.
From Stdlib Require Import ZArith Lia.
From S2P Require Import Prelude SessionTypes Numbers SessionContext Compaction Retry.
Open Scope Z_scope.

(** ** Prompts *)

Definition SUMMARIZATION_SYSTEM_PROMPT : jstring :=
  js "You are a context summarization assistant. Your task is to read a conversation between a user and an AI assistant, then produce a structured summary following the exact format specified.

Do NOT continue the conversation. Do NOT respond to any questions in the conversation. ONLY output the structured summary.".

Definition SUMMARIZATION_PROMPT : jstring :=
  js "The messages above are a conversation to summarize. Create a structured context checkpoint summary that another LLM will use to continue the work.

Use this EXACT format:

## Goal
[What is the user trying to accomplish? Can be multiple items if the session covers different tasks.]

## Constraints & Preferences
- [Any constraints, preferences, or requirements mentioned by user]
- [Or " ++ [34] ++
  js "(none)" ++ [34] ++
  js " if none were mentioned]

## Progress
### Done
- [x] [Completed tasks/changes]

### In Progress
- [ ] [Current work]

### Blocked
- [Issues preventing progress, if any]

## Key Decisions
- **[Decision]**: [Brief rationale]

## Next Steps
1. [Ordered list of what should happen next]

## Critical Context
- [Any data, examples, or references needed to continue]
- [Or " ++ [34] ++
  js "(none)" ++ [34] ++
  js " if not applicable]

Keep each section concise. Preserve exact file paths, function names, and error messages.".

Definition UPDATE_SUMMARIZATION_PROMPT : jstring :=
  js "The messages above are NEW conversation messages to incorporate into the existing summary provided in <previous-summary> tags.

Update the existing structured summary with new information. RULES:
- PRESERVE all existing information from the previous summary
- ADD new progress, decisions, and context from the new messages
- UPDATE the Progress section: move items from " ++ [34] ++
  js "In Progress" ++ [34] ++
  js " to " ++ [34] ++
  js "Done" ++ [34] ++
  js " when completed
- UPDATE " ++ [34] ++
  js "Next Steps" ++ [34] ++
  js " based on what was accomplished
- PRESERVE exact file paths, function names, and error messages
- If something is no longer relevant, you may remove it

Use this EXACT format:

## Goal
[Preserve existing goals, add new ones if the task expanded]

## Constraints & Preferences
- [Preserve existing, add new ones discovered]

## Progress
### Done
- [x] [Include previously done items AND newly completed items]

### In Progress
- [ ] [Current work - update based on progress]

### Blocked
- [Current blockers - remove if resolved]

## Key Decisions
- **[Decision]**: [Brief rationale] (preserve all previous, add new)

## Next Steps
1. [Update based on current state]

## Critical Context
- [Preserve important context, add new if needed]

Keep each section concise. Preserve exact file paths, function names, and error messages.".

Definition TURN_PREFIX_SUMMARIZATION_PROMPT : jstring :=
  js "This is the PREFIX of a turn that was too large to keep. The SUFFIX (recent work) is retained.

Summarize the prefix to provide context for the retained suffix:

## Original Request
[What did the user ask for in this turn?]

## Early Progress
- [Key decisions and work done in the prefix]

## Context for Suffix
- [Information needed to understand the retained recent work]

Be concise. Focus on what's needed to understand the kept suffix.".

(** ** packages/ai/src/utils/text.ts *)

(** [contentText] on user and tool-result content. *)
Definition user_block_text (b : UserBlock) : option jstring :=
  match b with UB_text t => Some (text_text t) | UB_image _ => None end.

Definition contentText (content : UserContent) (separator : jstring) : jstring :=
  match content with
  | UC_string s => s
  | UC_blocks l => join separator (omap user_block_text l)
  end.

(** [contentText] on assistant content, with the default separator. *)
Definition assistant_block_text (b : AssistantBlock) : option jstring :=
  match b with AB_text t => Some (text_text t) | _ => None end.

Definition assistantText (content : list AssistantBlock) : jstring :=
  join nl (omap assistant_block_text content).

(** ** utils.ts *)

Definition TOOL_RESULT_MAX_CHARS : Z := 2000.

Definition truncateForSummary (text : jstring) (maxChars : Z) : jstring :=
  let length_ := Z.of_nat (length text) in
  if length_ <=? maxChars then text
  else
    let truncatedChars := length_ - maxChars in
    take (Z.to_nat maxChars) text ++ nl ++ nl ++ js "[... " ++ js_of_Z truncatedChars ++
    js " more characters truncated]".

(** [if (text) parts.push(label + text)] *)
Definition part_if (label text shown : jstring) : list jstring :=
  match text with [] => [] | _ => [label ++ shown] end.

Section Summary.
Context {X : Type}.
Context (number_to_string : number -> jstring).

Definition argument_text (p : jstring * json) : jstring :=
  p.1 ++ js "=" ++ safeJsonStringify number_to_string p.2.

Definition tool_call_text (c : ToolCall) : jstring :=
  toolCall_name c ++ js "(" ++ join (js ", ") (map argument_text (toolCall_arguments c)) ++ js ")".

(** The parts one message adds. *)
Definition message_parts (msg : Message) : list jstring :=
  match msg with
  | M_user m =>
      let content := contentText (user_content m) [] in
      part_if (js "[User]: ") content content
  | M_assistant a =>
      let thinkingParts := omap (fun b => match b with AB_thinking t => Some (thinking_thinking t) | _ => None end)
                                (asst_content a) in
      let toolCalls := omap (fun b => match b with AB_toolCall c => Some (tool_call_text c) | _ => None end)
                            (asst_content a) in
      match thinkingParts with [] => [] | _ => [js "[Assistant thinking]: " ++ join nl thinkingParts] end ++
      (if existsb (fun b => match b with AB_text _ => true | _ => false end) (asst_content a)
       then [js "[Assistant]: " ++ assistantText (asst_content a)] else []) ++
      match toolCalls with [] => [] | _ => [js "[Assistant tool calls]: " ++ join (js "; ") toolCalls] end
  | M_toolResult r =>
      let content := contentText (UC_blocks (tres_content r)) [] in
      part_if (js "[Tool result]: ") content (truncateForSummary content TOOL_RESULT_MAX_CHARS)
  | M_system _ => []
  end.

Definition serializeConversation (messages : list Message) : jstring :=
  join (nl ++ nl) (concat (map message_parts messages)).

(** ** Provider requests *)

(** The fields of [Model] that are read here. *)
Record Model := {
  model_id : jstring;
  model_api : jstring;
  model_provider : jstring;
  model_reasoning : bool;
  model_contextWindow : Z;
  model_maxTokens : Z }.

(** A request: model, context and stream options. *)
Record Request := {
  req_model : Model;
  req_systemPrompt : jstring;
  req_messages : list Message;
  req_maxTokens : Z;
  req_reasoning : option jstring;
  req_cacheRetention : jstring;
  req_sessionId : jstring }.

Record World := {
  w_calls : nat;
  w_reads : nat;
  w_uuid : UuidState;
  w_requests : list Request }.

Context (completeSimple : nat -> Request -> Result X AssistantMessage) (signal : nat -> Signal).
Context (clock : nat -> Z) (random : nat -> list Z).

(** A computation that may throw [X]. *)
Definition IO (A : Type) : Type := World -> World * Result X A.

Definition io_ret {A} (a : A) : IO A := fun w => (w, Ok a).

Definition io_bind {A B} (m : IO A) (k : A -> IO B) : IO B := fun w =>
  let (w', r) := m w in
  match r with Ok a => k a w' | Err e => (w', Err e) end.

(** [Date.now()] *)
Definition Date_now : IO Z := fun w =>
  ({| w_calls := w_calls w; w_reads := S (w_reads w); w_uuid := w_uuid w; w_requests := w_requests w |},
   Ok (clock (w_reads w))).

(** [uuidv7()] in the world. *)
Definition fresh_uuid : IO jstring := fun w =>
  let (u, id) := uuidv7 (w_uuid w) (clock (w_reads w)) (random (w_reads w)) in
  ({| w_calls := w_calls w; w_reads := S (w_reads w); w_uuid := u; w_requests := w_requests w |}, Ok id).

Definition is_call (e : RetryEvent) : bool := match e with EV_call => true | _ => false end.

(** [retryAssistantCall(() => models.completeSimple(...), retry, signal)] *)
Definition complete_with_retries (request : Request) (retry : option RetryPolicy) : IO AssistantMessage := fun w =>
  let (events, result) := retryAssistantCall (fun n => completeSimple (w_calls w + n) request)
                                             (fun n => signal (w_calls w + n)%nat) retry in
  ({| w_calls := w_calls w + length (List.filter is_call events); w_reads := w_reads w; w_uuid := w_uuid w;
      w_requests := w_requests w ++ [request] |}, result).

Definition completeSimpleWithRetries (model : Model) (systemPrompt : jstring) (messages : list Message)
    (maxTokens : Z) (reasoning : option jstring) (retry : option RetryPolicy) : IO AssistantMessage :=
  io_bind fresh_uuid (fun sessionId =>
  complete_with_retries
    {| req_model := model; req_systemPrompt := systemPrompt; req_messages := messages; req_maxTokens := maxTokens;
       req_reasoning := reasoning; req_cacheRetention := js "none"; req_sessionId := sessionId |} retry).

(** ** compaction.ts *)

Inductive CompactionErrorCode := CE_aborted | CE_summarization_failed.

Record CompactionError := { cerr_code : CompactionErrorCode; cerr_message : jstring }.

Record CompactResult := {
  cr_summary : jstring;
  cr_tokensBefore : number;
  cr_usage : option Usage;
  cr_retainedTail : list AgentMessage;
  cr_details : list jstring * list jstring }.

(** The ratio as a fraction. *)
Definition resolveSummaryMaxTokens (model : Model) (reserveTokens : Z) (ratio : Z * Z) (summaryMaxTokens : option Z) : Z :=
  let cap := default (ratio.1 * reserveTokens / ratio.2) summaryMaxTokens in
  if 0 <? model_maxTokens model then Z.min cap (model_maxTokens model) else cap.

(** [text || ""] is the empty string exactly for what is falsy. *)
Definition truthy (text : option jstring) : option jstring :=
  match text with Some ((_ :: _) as s) => Some s | _ => None end.

(** The [reasoning] option of a request. *)
Definition reasoning_option (model : Model) (thinkingLevel : option jstring) : option jstring :=
  match truthy thinkingLevel with
  | Some level => if model_reasoning model && negb (bool_decide (level = js "off")) then Some level else None
  | None => None
  end.

(** [<conversation>] around the serialized messages. *)
Definition conversation_text (messages : list AgentMessage) : jstring :=
  js "<conversation>" ++ nl ++ serializeConversation (convertToLlm messages) ++ nl ++ js "</conversation>" ++ nl ++ nl.

(** One summarization exchange: the request with a single user message. *)
Definition send_prompt (model : Model) (promptText : jstring) (maxTokens : Z) (thinkingLevel : option jstring)
    (retry : option RetryPolicy) : IO AssistantMessage :=
  io_bind Date_now (fun now =>
  completeSimpleWithRetries model SUMMARIZATION_SYSTEM_PROMPT
    [M_user {| user_content := UC_blocks [UB_text {| text_text := promptText; text_textSignature := None |}];
               user_timestamp := now |}]
    maxTokens (reasoning_option model thinkingLevel) retry).

(** The response as a result; [what] names the summary in error messages. *)
Definition summary_of_response (what : jstring) (response : AssistantMessage) :
    Result CompactionError (jstring * Usage) :=
  match asst_stopReason response with
  | SR_aborted =>
      Err {| cerr_code := CE_aborted; cerr_message := or_text (asst_errorMessage response) (what ++ js " aborted") |}
  | SR_error =>
      Err {| cerr_code := CE_summarization_failed;
             cerr_message := what ++ js " failed: " ++ or_text (asst_errorMessage response) (js "Unknown error") |}
  | _ => Ok (assistantText (asst_content response), asst_usage response)
  end.

(** The prompt of a history summary. *)
Definition summary_prompt (currentMessages : list AgentMessage) (customInstructions previousSummary : option jstring) :
    jstring :=
  let basePrompt := match truthy previousSummary with
                    | Some _ => UPDATE_SUMMARIZATION_PROMPT
                    | None => SUMMARIZATION_PROMPT
                    end in
  let basePrompt := match truthy customInstructions with
                    | Some instructions => basePrompt ++ nl ++ nl ++ js "Additional focus: " ++ instructions
                    | None => basePrompt
                    end in
  conversation_text currentMessages ++
  match truthy previousSummary with
  | Some summary => js "<previous-summary>" ++ nl ++ summary ++ nl ++ js "</previous-summary>" ++ nl ++ nl
  | None => []
  end ++ basePrompt.

Definition generateSummaryWithUsage (currentMessages : list AgentMessage) (model : Model) (reserveTokens : Z)
    (customInstructions previousSummary thinkingLevel : option jstring) (retry : option RetryPolicy)
    (summaryMaxTokens : option Z) : IO (Result CompactionError (jstring * Usage)) :=
  let maxTokens := resolveSummaryMaxTokens model reserveTokens (4, 5) summaryMaxTokens in
  let promptText := summary_prompt currentMessages customInstructions previousSummary in
  io_bind (send_prompt model promptText maxTokens thinkingLevel retry) (fun response =>
  io_ret (summary_of_response (js "Summarization") response)).

Definition generateSummary (currentMessages : list AgentMessage) (model : Model) (reserveTokens : Z)
    (customInstructions previousSummary thinkingLevel : option jstring) (retry : option RetryPolicy)
    (summaryMaxTokens : option Z) : IO (Result CompactionError jstring) :=
  io_bind (generateSummaryWithUsage currentMessages model reserveTokens customInstructions previousSummary
             thinkingLevel retry summaryMaxTokens) (fun result =>
  io_ret (rmap fst result)).

Definition generateTurnPrefixSummary (messages : list AgentMessage) (model : Model) (reserveTokens : Z)
    (thinkingLevel : option jstring) (retry : option RetryPolicy) (summaryMaxTokens : option Z) :
    IO (Result CompactionError (jstring * Usage)) :=
  let maxTokens := resolveSummaryMaxTokens model reserveTokens (1, 2) summaryMaxTokens in
  let promptText := conversation_text messages ++ TURN_PREFIX_SUMMARIZATION_PROMPT in
  io_bind (send_prompt model promptText maxTokens thinkingLevel retry) (fun response =>
  io_ret (summary_of_response (js "Turn prefix summarization") response)).

(** [**Turn Context (split turn):**] between the two summaries. *)
Definition split_summary (historyText prefixText : jstring) : jstring :=
  historyText ++ nl ++ nl ++ js "---" ++ nl ++ nl ++ js "**Turn Context (split turn):**" ++ nl ++ nl ++ prefixText.

(** The summary text and its usage. *)
Definition summarize_preparation (prep : CompactionPreparation) (model : Model)
    (customInstructions thinkingLevel : option jstring) (retry : option RetryPolicy) :
    IO (Result CompactionError (jstring * Usage)) :=
  let settings := prep_settings prep in
  let history := generateSummaryWithUsage (prep_messagesToSummarize prep) model (set_reserveTokens settings)
                   customInstructions (prep_previousSummary prep) thinkingLevel retry (set_summaryMaxTokens settings) in
  match prep_turnPrefixMessages prep with
  | _ :: _ =>
      if prep_isSplitTurn prep then
        io_bind (match prep_messagesToSummarize prep with
                 | [] => io_ret (Ok (js "No prior history.", None))
                 | _ => io_bind history (fun r => io_ret (rmap (fun v => (v.1, Some v.2)) r))
                 end) (fun historyResult =>
        match historyResult with
        | Err e => io_ret (Err e)
        | Ok (historyText, historyUsage) =>
            io_bind (generateTurnPrefixSummary (prep_turnPrefixMessages prep) model (set_reserveTokens settings)
                       thinkingLevel retry (set_summaryMaxTokens settings)) (fun turnPrefixResult =>
            io_ret (rmap (fun v => (split_summary historyText v.1,
                                    match historyUsage with Some u => combineUsage u v.2 | None => v.2 end))
                         turnPrefixResult))
        end)
      else history
  | [] => history
  end.

Definition compact (prep : CompactionPreparation) (model : Model) (customInstructions thinkingLevel : option jstring)
    (retry : option RetryPolicy) : IO (Result CompactionError CompactResult) :=
  io_bind (summarize_preparation prep model customInstructions thinkingLevel retry) (fun result =>
  match result with
  | Err e => io_ret (Err e)
  | Ok (summary, summaryUsage) =>
      let '(readFiles, modifiedFiles) := computeFileLists (prep_fileOps prep) in
      io_ret (Ok {| cr_summary := summary ++ formatFileOperations readFiles modifiedFiles;
                    cr_tokensBefore := prep_tokensBefore prep;
                    cr_usage := Some summaryUsage;
                    cr_retainedTail := prep_retainedTail prep;
                    cr_details := (readFiles, modifiedFiles) |})
  end).
End Summary.
