(* ===== verification/SummaryProperties.v ===== *)
(** * Properties of summaries

    [compact] refines an abstract protocol: a planned list of exchanges with
    the provider, carried out in order up to the first failure. *)

From stdpp Require Import base list strings.
From Stdlib Require Import ZArith Lia.
From S2P Require Import Prelude SessionTypes Numbers SessionContext Compaction Retry RetryProperties Summary.
Open Scope Z_scope.

Section Exchanges.
Context {X : Type} (number_to_string : number -> jstring).
Context (completeSimple : nat -> Request -> Result X AssistantMessage) (signal : nat -> Signal).
Context (clock : nat -> Z) (random : nat -> list Z).

(** An exchange: the name used in errors, the prompt, and the share of the
    reserve that caps the output. *)
Record Exchange := { ex_what : jstring; ex_prompt : jstring; ex_ratio : Z * Z }.

(** The exchanges a preparation calls for. *)
Definition planned (prep : CompactionPreparation) (customInstructions : option jstring) : list Exchange :=
  let history :=
    {| ex_what := js "Summarization";
       ex_prompt := summary_prompt number_to_string (prep_messagesToSummarize prep) customInstructions
                      (prep_previousSummary prep);
       ex_ratio := (4, 5) |} in
  let prefix :=
    {| ex_what := js "Turn prefix summarization";
       ex_prompt := conversation_text number_to_string (prep_turnPrefixMessages prep) ++
                    TURN_PREFIX_SUMMARIZATION_PROMPT;
       ex_ratio := (1, 2) |} in
  if prep_isSplitTurn prep && negb (bool_decide (prep_turnPrefixMessages prep = [])) then
    (if decide (prep_messagesToSummarize prep = []) then [] else [history]) ++ [prefix]
  else [history].

(** The request of an exchange: one user message, no cache, an output cap that
    respects the model's limit, reasoning only where the model has it. *)
Definition request_for (model : Model) (settings : CompactionSettings) (x : Exchange) (q : Request) : Prop :=
  req_model q = model /\ req_systemPrompt q = SUMMARIZATION_SYSTEM_PROMPT /\ req_cacheRetention q = js "none" /\
  (exists now, req_messages q =
     [M_user {| user_content := UC_blocks [UB_text {| text_text := ex_prompt x; text_textSignature := None |}];
                user_timestamp := now |}]) /\
  req_maxTokens q = resolveSummaryMaxTokens model (set_reserveTokens settings) (ex_ratio x)
                      (set_summaryMaxTokens settings) /\
  (0 < model_maxTokens model -> req_maxTokens q <= model_maxTokens model) /\
  (is_Some (req_reasoning q) -> model_reasoning model = true).

(** What a request came to: the outcome of one provider call for it, or a
    transient failure whose backoff was interrupted. *)
Definition answer_of (q : Request) (r : Result X AssistantMessage) : Prop :=
  exists n, r = completeSimple n q \/
    exists failed, completeSimple n q = Ok failed /\ isRetryableAssistantError failed = true /\
      r = Ok (aborted_response failed).

(** The exchanges in order, up to the first that throws or fails. *)
Inductive exchanged (model : Model) (settings : CompactionSettings) :
    list Exchange -> list Request -> Result X (Result CompactionError (list (jstring * Usage))) -> Prop :=
| exchanged_nil : exchanged model settings [] [] (Ok (Ok []))
| exchanged_throws x xs q e :
    request_for model settings x q -> answer_of q (Err e) -> exchanged model settings (x :: xs) [q] (Err e)
| exchanged_fails x xs q a e :
    request_for model settings x q -> answer_of q (Ok a) -> summary_of_response (ex_what x) a = Err e ->
    exchanged model settings (x :: xs) [q] (Ok (Err e))
| exchanged_succeeds x xs q qs a v out :
    request_for model settings x q -> answer_of q (Ok a) -> summary_of_response (ex_what x) a = Ok v ->
    exchanged model settings xs qs out ->
    exchanged model settings (x :: xs) (q :: qs) (rmap (rmap (cons v)) out).

(** The compaction data from the answers. *)
Definition assembled_text (prep : CompactionPreparation) (answers : list (jstring * Usage)) :
    jstring * option Usage :=
  match answers with
  | [history; prefix] => (split_summary history.1 prefix.1, Some (combineUsage history.2 prefix.2))
  | [only] =>
      if prep_isSplitTurn prep && negb (bool_decide (prep_turnPrefixMessages prep = []))
      then (split_summary (js "No prior history.") only.1, Some only.2) else (only.1, Some only.2)
  | _ => ([], None)
  end.

Definition assembled (prep : CompactionPreparation) (answers : list (jstring * Usage)) : CompactResult :=
  let '(summary, usage) := assembled_text prep answers in
  let '(readFiles, modifiedFiles) := computeFileLists (prep_fileOps prep) in
  {| cr_summary := summary ++ formatFileOperations readFiles modifiedFiles;
     cr_tokensBefore := prep_tokensBefore prep; cr_usage := usage; cr_retainedTail := prep_retainedTail prep;
     cr_details := (readFiles, modifiedFiles) |}.

Lemma summary_cap model reserveTokens ratio cap :
  0 < model_maxTokens model -> resolveSummaryMaxTokens model reserveTokens ratio cap <= model_maxTokens model.
Proof. intros H. unfold resolveSummaryMaxTokens. rewrite (proj2 (Z.ltb_lt _ _) H). lia. Qed.

Lemma reasoning_only_if model level : is_Some (reasoning_option model level) -> model_reasoning model = true.
Proof.
  unfold reasoning_option. destruct (truthy level); [|by intros [? ?]].
  destruct (model_reasoning model); [done|by intros [? ?]].
Qed.

Lemma retry_answer q c sig retry events result :
  retryAssistantCall (fun n => completeSimple (c + n) q) sig retry = (events, result) -> answer_of q result.
Proof.
  intros H.
  set (maxAttempts := match retry with Some p => if policy_enabled p then policy_maxRetries p else 0 | None => 0 end).
  destruct (retry_loop_outcome (fun n => completeSimple (c + n) q) sig retry maxAttempts (Z.to_nat maxAttempts) 0 None
              eq_refl) as (k & _ & _ & Hout).
  change (retry_loop _ _ _ _ _ _ _) with (retryAssistantCall (fun n => completeSimple (c + n) q) sig retry) in Hout.
  rewrite H in Hout. exists (c + k)%nat.
  destruct Hout as [(Heq & _)|(m & _ & Hm & Hr & _ & Heq)]; injection Heq as _ ->; [by left|right].
  exists m. destruct Hr as (m' & Hm' & Hr). cbn beta in *. rewrite Hm in Hm'. by injection Hm' as <-.
Qed.

Abbreviation send_prompt' := (send_prompt completeSimple signal clock random).

(** One exchange of the code. *)
Lemma exchange_step model settings x thinkingLevel retry w w' r :
  io_bind (send_prompt' model (ex_prompt x)
             (resolveSummaryMaxTokens model (set_reserveTokens settings) (ex_ratio x) (set_summaryMaxTokens settings))
             thinkingLevel retry)
    (fun response => io_ret (summary_of_response (ex_what x) response)) w = (w', r) ->
  exists q, w_requests w' = w_requests w ++ [q] /\ request_for model settings x q /\
    ((exists e, answer_of q (Err e) /\ r = Err e) \/
     (exists a, answer_of q (Ok a) /\ r = Ok (summary_of_response (ex_what x) a))).
Proof.
  unfold send_prompt, completeSimpleWithRetries, io_bind, Date_now, fresh_uuid, complete_with_retries, io_ret.
  cbn [w_uuid w_reads w_calls w_requests].
  destruct (uuidv7 _ _ _) as [u sessionId]. cbn [w_uuid w_reads w_calls w_requests].
  destruct (retryAssistantCall _ _ _) as [events result] eqn:Er.
  apply retry_answer in Er. intros H.
  match type of Er with answer_of ?q _ => exists q end.
  split; [destruct result; by injection H as <- _|]. split.
  { repeat split; [by eexists|by apply summary_cap|apply reasoning_only_if]. }
  destruct result as [a|e]; injection H as _ <-; [right|left]; eauto.
Qed.

Lemma io_bind_eq {A B} (m : IO (X := X) A) (k : A -> IO B) w w' r :
  io_bind m k w = (w', r) ->
  (exists e, m w = (w', Err e) /\ r = Err e) \/ (exists w1 a, m w = (w1, Ok a) /\ k a w1 = (w', r)).
Proof.
  unfold io_bind. destruct (m w) as [w1 [a|e]]; intros H; [right; eauto|left].
  injection H as <- <-. eauto.
Qed.

(** A single planned exchange. *)
Lemma exchanged_one model settings x thinkingLevel retry w w' r :
  io_bind (send_prompt' model (ex_prompt x)
             (resolveSummaryMaxTokens model (set_reserveTokens settings) (ex_ratio x) (set_summaryMaxTokens settings))
             thinkingLevel retry)
    (fun response => io_ret (summary_of_response (ex_what x) response)) w = (w', r) ->
  exists q, w_requests w' = w_requests w ++ [q] /\ forall xs,
    match r with
    | Err e => exchanged model settings (x :: xs) [q] (Err e)
    | Ok (Err e) => exchanged model settings (x :: xs) [q] (Ok (Err e))
    | Ok (Ok v) => forall qs out, exchanged model settings xs qs out ->
                     exchanged model settings (x :: xs) (q :: qs) (rmap (rmap (cons v)) out)
    end.
Proof.
  intros H. apply exchange_step in H as (q & Hq & Hr & [(e & He & ->)|(a & Ha & ->)]); exists q; split; try done.
  - intros xs. by constructor.
  - intros xs. destruct (summary_of_response (ex_what x) a) as [v|e] eqn:Es.
    + intros qs out. by apply exchanged_succeeds with a.
    + by apply exchanged_fails with a.
Qed.

(** The text and usage [summarize_preparation] reaches from the outcome. *)
Definition summarized (prep : CompactionPreparation) (out : Result X (Result CompactionError (list (jstring * Usage))))
    (r : Result X (Result CompactionError (jstring * Usage))) : Prop :=
  match out with
  | Err e => r = Err e
  | Ok (Err e) => r = Ok (Err e)
  | Ok (Ok answers) => exists s u, r = Ok (Ok (s, u)) /\ assembled_text prep answers = (s, Some u)
  end.

Section Compact.
Context (prep : CompactionPreparation) (model : Model) (customInstructions thinkingLevel : option jstring).
Context (retry : option RetryPolicy).

Definition history_exchange : Exchange :=
  {| ex_what := js "Summarization";
     ex_prompt := summary_prompt number_to_string (prep_messagesToSummarize prep) customInstructions
                    (prep_previousSummary prep);
     ex_ratio := (4, 5) |}.

Definition prefix_exchange : Exchange :=
  {| ex_what := js "Turn prefix summarization";
     ex_prompt := conversation_text number_to_string (prep_turnPrefixMessages prep) ++
                  TURN_PREFIX_SUMMARIZATION_PROMPT;
     ex_ratio := (1, 2) |}.

Abbreviation exchanged' := (exchanged model (prep_settings prep)).
Abbreviation history := (generateSummaryWithUsage number_to_string completeSimple signal clock random
  (prep_messagesToSummarize prep) model (set_reserveTokens (prep_settings prep)) customInstructions
  (prep_previousSummary prep) thinkingLevel retry (set_summaryMaxTokens (prep_settings prep))).
Abbreviation turn_prefix := (generateTurnPrefixSummary number_to_string completeSimple signal clock random
  (prep_turnPrefixMessages prep) model (set_reserveTokens (prep_settings prep)) thinkingLevel retry
  (set_summaryMaxTokens (prep_settings prep))).

Lemma history_exchanged w w' r : history w = (w', r) ->
  exists q, w_requests w' = w_requests w ++ [q] /\ forall xs,
    match r with
    | Err e => exchanged' (history_exchange :: xs) [q] (Err e)
    | Ok (Err e) => exchanged' (history_exchange :: xs) [q] (Ok (Err e))
    | Ok (Ok v) => forall qs out, exchanged' xs qs out ->
                     exchanged' (history_exchange :: xs) (q :: qs) (rmap (rmap (cons v)) out)
    end.
Proof. apply (exchanged_one model (prep_settings prep) history_exchange). Qed.

Lemma prefix_exchanged w w' r : turn_prefix w = (w', r) ->
  exists q, w_requests w' = w_requests w ++ [q] /\
    exchanged' [prefix_exchange] [q] (rmap (rmap (fun v => [v])) r).
Proof.
  intros H. apply (exchanged_one model (prep_settings prep) prefix_exchange) in H as (q & Hq & H).
  exists q. split; [done|]. specialize (H []). destruct r as [[v|e]|e]; [|done..].
  apply (H [] (Ok (Ok []))). constructor.
Qed.

Lemma summarize_exchanged w w' r :
  summarize_preparation number_to_string completeSimple signal clock random prep model customInstructions
    thinkingLevel retry w = (w', r) ->
  exists sent out, w_requests w' = w_requests w ++ sent /\
    exchanged' (planned prep customInstructions) sent out /\ summarized prep out r.
Proof.
  unfold summarize_preparation, planned. fold history_exchange prefix_exchange.
  assert (Hsingle : prep_isSplitTurn prep && negb (bool_decide (prep_turnPrefixMessages prep = [])) = false ->
    history w = (w', r) -> exists sent out, w_requests w' = w_requests w ++ sent /\
      exchanged' [history_exchange] sent out /\ summarized prep out r).
  { intros Hs H. apply history_exchanged in H as (q & Hq & H). specialize (H []).
    destruct r as [[[t u]|e]|e]; [|by eexists _, _..].
    exists [q], (Ok (Ok [(t, u)])). split; [done|]. split; [apply (H [] (Ok (Ok []))); constructor|].
    exists t, u. split; [done|]. unfold assembled_text. by rewrite Hs. }
  destruct (prep_turnPrefixMessages prep) as [|m ms] eqn:Ep.
  { rewrite bool_decide_true, andb_false_r in * by done. by apply Hsingle. }
  destruct (prep_isSplitTurn prep) eqn:Es; [|by apply Hsingle]. clear Hsingle.
  rewrite bool_decide_false in * by done. cbn [andb negb]. rewrite <- Ep. fold prefix_exchange.
  assert (Hs : prep_isSplitTurn prep && negb (bool_decide (prep_turnPrefixMessages prep = [])) = true)
    by (rewrite Es, Ep, bool_decide_false; done).
  destruct (prep_messagesToSummarize prep) as [|h hs] eqn:Eh.
  - rewrite decide_True by done. intros H. apply io_bind_eq in H as [(e & H & ->)|(w1 & v & H & Hk)]; [done|].
    injection H as <- <-. apply io_bind_eq in Hk as [(e & H & ->)|(w2 & v & H & Hk)];
      apply prefix_exchanged in H as (q & Hq & H); exists [q].
    + exists (Err e). done.
    + injection Hk as <- <-. destruct v as [[t u]|e]; eexists; (split; [done|]; split; [exact H|]); [|done].
      do 2 eexists. split; [reflexivity|]. unfold assembled_text. by rewrite Hs.
  - rewrite decide_False by done. rewrite <- Eh. intros H.
    apply io_bind_eq in H as [(e & H & ->)|(w1 & v & H & Hk)];
      apply io_bind_eq in H as [(e' & H & Hr)|(w2 & v' & H & Hr)]; simplify_eq/=.
    + apply history_exchanged in H as (q & Hq & H). exists [q], (Err e'). split; [done|]. split; [apply H|done].
    + injection Hr as <- <-. apply history_exchanged in H as (q & Hq & H). specialize (H [prefix_exchange]).
      destruct v' as [[t u]|e]; simpl in Hk, H.
      * apply io_bind_eq in Hk as [(e & Hp & ->)|(w3 & v & Hp & Hk)];
          apply prefix_exchanged in Hp as (q' & Hq' & Hp); exists [q; q'].
        -- rewrite Hq', Hq, <- app_assoc. exists (Err e). split; [done|]. split; [by apply (H [q'] (Err e))|done].
        -- injection Hk as <- <-. rewrite Hq', Hq, <- app_assoc. eexists. split; [done|]. split; [apply (H _ _ Hp)|].
           destruct v as [[t' u']|e]; [|done]. do 2 eexists. done.
      * injection Hk as <- <-. exists [q], (Ok (Err e)). done.
Qed.
End Compact.
End Exchanges.

(** A compaction carries out the exchanges its preparation calls for (the
    history summary, for a split turn also or only the turn prefix), in order
    and up to the first that fails.  Each request holds one user message with
    its prompt, bypasses the cache, and caps its output within the model's limit.
    A rejected call propagates, an aborted or failed answer becomes the
    matching compaction error, and otherwise the result is assembled
    from all answers, with the retained tail, the file lists and the combined
    usage. *)
Theorem compact_exchanges {X} (number_to_string : number -> jstring)
    (completeSimple : nat -> Request -> Result X AssistantMessage) (signal : nat -> Signal)
    (clock : nat -> Z) (random : nat -> list Z) (prep : CompactionPreparation) (model : Model)
    (customInstructions thinkingLevel : option jstring) (retry : option RetryPolicy) (w : World) :
  let '(w', r) := compact number_to_string completeSimple signal clock random prep model customInstructions
                    thinkingLevel retry w in
  exists sent out,
    w_requests w' = w_requests w ++ sent /\
    exchanged completeSimple model (prep_settings prep) (planned number_to_string prep customInstructions) sent out /\
    r = rmap (rmap (assembled prep)) out.
Proof.
  destruct (compact _ _ _ _ _ _ _ _ _ _ w) as [w' r] eqn:H. unfold compact in H.
  apply io_bind_eq in H as [(e & H & ->)|(w1 & v & H & Hk)];
    apply summarize_exchanged in H as (sent & out & Hw & Hx & Hs); exists sent, out.
  - split; [done|]. split; [done|]. destruct out as [[answers|e']|e']; [by destruct Hs as (? & ? & ? & ?)|done|].
    by simplify_eq/=.
  - destruct out as [[answers|e]|e]; [|simplify_eq/=..].
    + destruct Hs as (s & u & Hv & Ha). injection Hv as ->. cbn [rmap].
      assert (Hr : r = Ok (Ok (assembled prep answers)) /\ w1 = w'); [|by destruct Hr as [-> ->]].
      unfold assembled. rewrite Ha. destruct (computeFileLists (prep_fileOps prep)) as [rf mf].
      by injection Hk as <- <-.
    + by injection Hk as <- <-.
Qed.
