(* ===== verification/BranchSummary.v ===== *)
(** * Branch summaries

    packages/agent/src/harness/compaction/branch-summarization.ts: which entries
    an abandoned branch contributes, their selection within a token budget,
    and the summarization request.

    Queries go through the session facade over any storage.  The parent walk of
    [collectEntriesForBranchSummary] is bounded by the length of the old path,
    which it follows; [None] is an exhausted bound.  [tokenBudget * 0.9] is
    compared exactly, which agrees with doubles below [2^49]. *)

From stdpp Require Import base list strings.
From Stdlib Require Import ZArith Lia.
From S2P Require Import Prelude SessionTypes SessionState SessionStorage Numbers SessionContext Compaction Retry Summary.
Open Scope Z_scope.

Record BranchSummaryResult := {
  bsr_summary : jstring;
  bsr_usage : option Usage;
  bsr_readFiles : list jstring;
  bsr_modifiedFiles : list jstring }.

Record BranchPreparation := {
  bp_messages : list AgentMessage;
  bp_fileOps : FileOperations;
  bp_totalTokens : Z }.

Record CollectEntriesResult := {
  ce_entries : list Entry;
  ce_commonAncestorId : option jstring }.

(** ** Collection *)

Definition default_query : EntryQuery :=
  {| eq_type := None; eq_customType := None; eq_order := None; eq_limit := None; eq_cursor := None |}.

Section Collect.
Context {S : Type} `{SessionStorage S}.

(** [session.findEntriesOnBranch({ start })] *)
Definition entries_on_branch (session : S) (start : jstring) : Result SessionError (list Entry) :=
  queryBranchEntries session (js "main") (Some start) default_query no_bounds None.

(** [while (current && current !== commonAncestorId)] *)
Fixpoint collect_loop (fuel : nat) (session : S) (commonAncestorId current : option jstring) (entries : list Entry) :
    option (Result SessionError (list Entry)) :=
  match current with
  | Some ((_ :: _) as id) =>
      if decide (current = commonAncestorId) then Some (Ok entries)
      else
        match fuel with
        | O => None
        | Datatypes.S fuel' =>
            match storage_getEntry session id with
            | None => Some (Err (session_error C_invalid_entry (js "Entry " ++ id ++ js " not found")))
            | Some entry => collect_loop fuel' session commonAncestorId (entry_parentId entry) (entries ++ [entry])
            end
        end
  | _ => Some (Ok entries)
  end.

Definition collectEntriesForBranchSummary (session : S) (oldLeafId : option jstring) (targetId : jstring) :
    option (Result SessionError CollectEntriesResult) :=
  match oldLeafId with
  | None | Some [] => Some (Ok {| ce_entries := []; ce_commonAncestorId := None |})
  | Some oldLeafId =>
      match entries_on_branch session oldLeafId with
      | Err e => Some (Err e)
      | Ok oldEntries =>
          let oldPath := map entry_id oldEntries in
          match entries_on_branch session targetId with
          | Err e => Some (Err e)
          | Ok targetPath =>
              let commonAncestorId :=
                entry_id <$> List.find (fun e => bool_decide (entry_id e ∈ oldPath)) targetPath in
              match collect_loop (length oldEntries) session commonAncestorId (Some oldLeafId) [] with
              | None => None
              | Some (Err e) => Some (Err e)
              | Some (Ok entries) =>
                  Some (Ok {| ce_entries := reverse entries; ce_commonAncestorId := commonAncestorId |})
              end
          end
      end
  end.
End Collect.

(** ** Selection *)

Section Prepare.
Context {X : Type} (number_to_string : number -> jstring).

Definition getMessageFromEntry (e : Entry) : option AgentMessage :=
  match entry_payload e with
  | E_message (AM_message (M_toolResult _)) _ => None
  | E_message m _ => Some m
  | E_branch_summary fromId summary _ _ =>
      Some (AM_branchSummary (createBranchSummaryMessage summary fromId (entry_timestamp e)))
  | E_compaction summary _ tokensBefore _ _ =>
      Some (AM_compactionSummary (createCompactionSummaryMessage summary tokensBefore (entry_timestamp e)))
  | E_thinking_level_change _ | E_model_change _ _ | E_active_tools_change _ | E_custom _ _ => None
  end.

(** The file lists of an earlier branch summary. *)
Definition add_details (fileOps : FileOperations) (e : Entry) : FileOperations :=
  match entry_payload e with
  | E_branch_summary _ _ details _ =>
      {| fo_read := foldl (fun s x => set_add x s) (fo_read fileOps) (detail_paths details (js "readFiles"));
         fo_written := fo_written fileOps;
         fo_edited := foldl (fun s x => set_add x s) (fo_edited fileOps) (detail_paths details (js "modifiedFiles")) |}
  | _ => fileOps
  end.

Definition is_summary_entry (e : Entry) : bool :=
  match entry_type e with T_compaction | T_branch_summary => true | _ => false end.

(** The loop over the reversed entries. *)
Fixpoint select_loop (rev_entries : list Entry) (tokenBudget : Z) (p : BranchPreparation) : BranchPreparation :=
  match rev_entries with
  | [] => p
  | entry :: rest =>
      match getMessageFromEntry entry with
      | None => select_loop rest tokenBudget p
      | Some message =>
          let fileOps := extractFileOpsFromMessage (bp_fileOps p) message in
          let tokens := estimateTokens number_to_string message in
          let taken := {| bp_messages := message :: bp_messages p; bp_fileOps := fileOps;
                          bp_totalTokens := bp_totalTokens p + tokens |} in
          if (0 <? tokenBudget) && (tokenBudget <? bp_totalTokens p + tokens) then
            if is_summary_entry entry && (10 * bp_totalTokens p <? 9 * tokenBudget) then taken
            else {| bp_messages := bp_messages p; bp_fileOps := fileOps; bp_totalTokens := bp_totalTokens p |}
          else select_loop rest tokenBudget taken
      end
  end.

Definition prepareBranchEntries (entries : list Entry) (tokenBudget : Z) : BranchPreparation :=
  select_loop (reverse entries) tokenBudget
    {| bp_messages := []; bp_fileOps := foldl add_details createFileOps entries; bp_totalTokens := 0 |}.

(** ** The request *)

Definition BRANCH_SUMMARY_PREAMBLE : jstring :=
  js "The user explored a different conversation branch before returning here.
Summary of that exploration:

".

Definition BRANCH_SUMMARY_PROMPT : jstring :=
  js "Create a structured summary of this conversation branch for context when returning later.

Use this EXACT format:

## Goal
[What was the user trying to accomplish in this branch?]

## Constraints & Preferences
- [Any constraints, preferences, or requirements mentioned]
- [Or " ++ [34] ++
  js "(none)" ++ [34] ++
  js " if none were mentioned]

## Progress
### Done
- [x] [Completed tasks/changes]

### In Progress
- [ ] [Work that was started but not finished]

### Blocked
- [Issues preventing progress, if any]

## Key Decisions
- **[Decision]**: [Brief rationale]

## Next Steps
1. [What should happen next to continue this work]

Keep each section concise. Preserve exact file paths, function names, and error messages.".

(** [BranchSummaryError], with the codes of a compaction error. *)
Record BranchSummaryError := { berr_code : CompactionErrorCode; berr_message : jstring }.

Record GenerateBranchSummaryOptions := {
  bo_model : Model;
  bo_customInstructions : option jstring;
  bo_replaceInstructions : bool;
  bo_reserveTokens : option Z;
  bo_retry : option RetryPolicy }.

Definition branch_instructions (options : GenerateBranchSummaryOptions) : jstring :=
  match truthy (bo_customInstructions options) with
  | Some custom =>
      if bo_replaceInstructions options then custom
      else BRANCH_SUMMARY_PROMPT ++ nl ++ nl ++ js "Additional focus: " ++ custom
  | None => BRANCH_SUMMARY_PROMPT
  end.

Context (completeSimple : nat -> Request -> Result X AssistantMessage) (signal : nat -> Signal).
Context (clock : nat -> Z) (random : nat -> list Z).

Definition generateBranchSummary (entries : list Entry) (options : GenerateBranchSummaryOptions) :
    IO (X := X) (Result BranchSummaryError BranchSummaryResult) :=
  let model := bo_model options in
  let reserveTokens := default 16384 (bo_reserveTokens options) in
  let contextWindow := if model_contextWindow model =? 0 then 128000 else model_contextWindow model in
  let prepared := prepareBranchEntries entries (contextWindow - reserveTokens) in
  match bp_messages prepared with
  | [] => io_ret (Ok {| bsr_summary := js "No content to summarize"; bsr_usage := None; bsr_readFiles := [];
                        bsr_modifiedFiles := [] |})
  | messages =>
      let promptText := conversation_text number_to_string messages ++ branch_instructions options in
      io_bind (Date_now clock) (fun now =>
      io_bind (completeSimpleWithRetries completeSimple signal clock random model SUMMARIZATION_SYSTEM_PROMPT
                 [M_user {| user_content := UC_blocks [UB_text {| text_text := promptText; text_textSignature := None |}];
                            user_timestamp := now |}] 2048 None (bo_retry options)) (fun response =>
      match asst_stopReason response with
      | SR_aborted =>
          io_ret (Err {| berr_code := CE_aborted;
                         berr_message := or_text (asst_errorMessage response) (js "Branch summary aborted") |})
      | SR_error =>
          io_ret (Err {| berr_code := CE_summarization_failed;
                         berr_message := js "Branch summary failed: " ++
                                         or_text (asst_errorMessage response) (js "Unknown error") |})
      | _ =>
          let '(readFiles, modifiedFiles) := computeFileLists (bp_fileOps prepared) in
          let summary := BRANCH_SUMMARY_PREAMBLE ++ assistantText (asst_content response) ++
                         formatFileOperations readFiles modifiedFiles in
          io_ret (Ok {| bsr_summary := or_text (Some summary) (js "No summary generated");
                        bsr_usage := Some (asst_usage response);
                        bsr_readFiles := readFiles; bsr_modifiedFiles := modifiedFiles |})
      end))
  end.
End Prepare.
