(* ===== verification/BranchSummaryProperties.v ===== *)
(** * Properties of branch summaries

    The collected entries are the part of the old branch that the target branch
    does not share, and the selected messages are the newest ones within the
    token budget. *)

From stdpp Require Import base list gmap strings.
From Stdlib Require Import ZArith Lia Sorted.
From S2P Require Import Prelude SessionTypes SessionState SessionInvariant SessionStorage SessionProperties.
From S2P Require Import Numbers SessionContext Compaction Retry Summary BranchSummary.
Open Scope Z_scope.

(** ** Paths in the entry tree *)

Lemma branch_head byId e path : branch byId e path -> exists rest, path = e :: rest.
Proof. intros H; destruct H; eauto. Qed.

Lemma branch_suffix byId e pre a post : branch byId e (pre ++ a :: post) -> branch byId a (a :: post).
Proof.
  revert e. induction pre as [|x pre IH]; intros e H.
  - destruct (branch_head _ _ _ H) as [rest E]. by simplify_eq/=.
  - inversion H as [|? p e' path Hp He' Hb]; subst; [by destruct pre|]. by apply (IH e').
Qed.

(** Entries of a branch are found under their own ids. *)
Lemma branch_stored s e path : state_wf s -> st_entriesById s !! entry_id e = Some e ->
  branch (st_entriesById s) e path -> Forall (fun x => st_entriesById s !! entry_id x = Some x) path.
Proof.
  intros Hwf He Hb. induction Hb as [e _|e p e' path _ Hp _ IH]; constructor; try done.
  apply IH. pose proof Hp as [_ <-]%(wf_byId _ Hwf). done.
Qed.

Lemma branch_NoDup s e path : state_wf s -> st_entriesById s !! entry_id e = Some e ->
  branch (st_entriesById s) e path -> NoDup path.
Proof.
  intros Hwf [Hin _]%(wf_byId _ Hwf) Hb. apply list_elem_of_lookup in Hin as [i Hi].
  destruct (branch_decreasing s e path Hwf Hb i Hi) as [Hs _]. clear Hb.
  induction Hs as [|x l Hs IH Hf]; constructor; [|done]. intros Hx.
  rewrite Forall_forall in Hf. specialize (Hf _ Hx). lia.
Qed.

(** The first entry of [pt] on [po] splits both branches at their deepest
    common ancestor. *)
Lemma branch_meet s eo et po pt :
  state_wf s -> st_entriesById s !! entry_id eo = Some eo -> st_entriesById s !! entry_id et = Some et ->
  branch (st_entriesById s) eo po -> branch (st_entriesById s) et pt ->
  exists pre pre' common, po = pre ++ common /\ pt = pre' ++ common /\
    (forall e, e ∈ pre -> e ∉ pre' ++ common) /\
    List.find (fun e => bool_decide (entry_id e ∈ map entry_id po)) pt = head common.
Proof.
  intros Hwf Ho Ht Hpo Hpt. pose proof (branch_stored s eo po Hwf Ho Hpo) as Hso.
  pose proof (branch_stored s et pt Hwf Ht Hpt) as Hst. rewrite Forall_forall in Hso, Hst.
  assert (Hmem : forall x, x ∈ pt -> entry_id x ∈ map entry_id po -> x ∈ po).
  { intros x Hx Hid. apply list_elem_of_fmap in Hid as (y & Hxy & Hy).
    pose proof (Hst _ Hx) as H1. pose proof (Hso _ Hy) as H2. rewrite Hxy in H1. congruence. }
  destruct (List.find _ pt) as [a|] eqn:Ef.
  - assert (exists pre' post, pt = pre' ++ a :: post /\ a ∈ po /\ Forall (fun x => x ∉ po) pre')
      as (pre' & post & Ept & Ha & Hpre').
    { clear Hpt Hst. induction pt as [|x pt IH]; [done|]. cbn [List.find] in Ef.
      case_bool_decide as Hx.
      - injection Ef as ->. exists [], pt. split; [done|]. split; [|constructor]. apply Hmem; [left|done].
      - destruct IH as (pre' & post & -> & Ha & Hf); [intros; apply Hmem; [by right|done]|done|].
        exists (x :: pre'), post. split; [done|]. split; [done|]. constructor; [|done].
        intros Hxo. apply Hx. apply list_elem_of_fmap. eauto. }
    apply list_elem_of_split in Ha as (pre & post' & Epo).
    assert (post' = post) as ->.
    { rewrite Ept in Hpt. rewrite Epo in Hpo. apply branch_suffix in Hpt, Hpo.
      pose proof (branch_functional _ _ _ _ Hpt Hpo) as E. by injection E. }
    exists pre, pre', (a :: post). split; [done|]. split; [done|]. split; [|done].
    intros x Hx [Hx'|Hx']%elem_of_app.
    + rewrite Forall_forall in Hpre'. apply (Hpre' _ Hx'). rewrite Epo. apply elem_of_app. by left.
    + pose proof (branch_NoDup s eo po Hwf Ho Hpo) as Hnd. rewrite Epo in Hnd.
      apply NoDup_app in Hnd as (_ & Hnd & _). by apply (Hnd _ Hx).
  - exists po, pt, []. rewrite !app_nil_r. split; [done|]. split; [done|]. split; [|done].
    intros x Hx Hxt. pose proof (find_none _ _ Ef x (proj1 (list_elem_of_In _ _) Hxt)) as Hn.
    apply bool_decide_eq_false in Hn. apply Hn. apply list_elem_of_fmap. eauto.
Qed.

Section Collection.
Context {S : Type} `{SessionStorageSpec S} (st : S) (Hok : storage_ok st).
Abbreviation s := (storage_abs st).

Lemma entries_on_branch_path id e : getEntry s id = Some e ->
  exists path, branch (st_entriesById s) e path /\ entries_on_branch st id = Ok path.
Proof.
  intros He. pose proof (storage_reachable st Hok) as Hr. apply reachable_inv in Hr as [Hwf _].
  destruct (findEntriesOnBranch_path s id e (with_limit None default_query) no_bounds Hwf He)
    as (path & Hb & Hf); [done|done|].
  exists path. split; [done|]. unfold entries_on_branch, queryBranchEntries. cbn [rbind assertValidLimit assertValidCursor eq_limit eq_cursor default_query].
  rewrite (storage_branch_abs st _ _ _ Hok), Hf. simpl. unfold branch_scan. simpl.
  rewrite upto_no_bounds. f_equal. by apply filter_all.
Qed.

Lemma collect_loop_walk common fuel pre e acc :
  getEntry s [] = None -> st_entriesById s !! entry_id e = Some e ->
  state_wf s -> branch (st_entriesById s) e (pre ++ common) -> (length pre <= fuel)%nat ->
  (forall x, x ∈ pre -> Some (entry_id x) <> entry_id <$> head common) ->
  collect_loop fuel st (entry_id <$> head common) (Some (entry_id e)) acc = Some (Ok (acc ++ pre)).
Proof.
  intros Hne He Hwf. revert fuel e acc He. induction pre as [|x pre IH]; intros fuel e acc He Hb Hlen Hnot.
  all: assert (Hid : exists u t, entry_id e = u :: t)
    by (destruct (entry_id e) eqn:E; [unfold getEntry in Hne; congruence|eauto]).
  all: destruct Hid as (u & t & Hid).
  - destruct common as [|a post]; [destruct (branch_head _ _ _ Hb) as [? ?]; done|].
    destruct (branch_head _ _ _ Hb) as [? ?]; simplify_eq/=. rewrite app_nil_r.
    destruct fuel; cbn [collect_loop]; rewrite Hid; rewrite decide_True; done.
  - destruct fuel as [|fuel]; [simpl in Hlen; lia|].
    destruct (branch_head _ _ _ Hb) as [rest E]. injection E as -> E.
    assert (Hne1 : Some (entry_id e) <> entry_id <$> head common) by (apply Hnot; left).
    cbn [collect_loop]. rewrite Hid. rewrite <- Hid. rewrite decide_False by done.
    rewrite (storage_getEntry_abs st _ Hok). unfold getEntry. rewrite He.
    replace (acc ++ e :: pre) with ((acc ++ [e]) ++ pre) by (by rewrite <- app_assoc).
    inversion Hb as [e0 Hp E1 Hnil|e0 p e' path Hp He' Hb']; subst.
    + rewrite Hp. symmetry in Hnil. apply app_eq_nil in Hnil as [-> _]. rewrite app_nil_r. by destruct fuel.
    + rewrite Hp. pose proof He' as [_ <-]%(wf_byId _ Hwf).
      apply IH; [done|done|simpl in Hlen; lia|]. intros y Hy. apply Hnot. by right.
Qed.
End Collection.

(** When a session navigates from an existing leaf to an existing entry,
    the collected entries are, oldest first, exactly the entries of the old branch
    that are not on the target's branch, and the reported ancestor is the
    deepest entry the two branches share, if they share one; the walk always
    ends and does not fail.  (No entry may have the empty id, which the walk
    takes for the end of the branch.) *)
Theorem collectEntries_abandoned {S : Type} `{SessionStorageSpec S} (st : S) (Hok : storage_ok st)
    (oldLeafId targetId : jstring) (eo et : Entry)
    (Hold : getEntry (storage_abs st) oldLeafId = Some eo)
    (Htarget : getEntry (storage_abs st) targetId = Some et)
    (Hids : getEntry (storage_abs st) [] = None) :
  exists pre pre' common,
    branch (st_entriesById (storage_abs st)) eo (pre ++ common) /\
    branch (st_entriesById (storage_abs st)) et (pre' ++ common) /\
    (forall e, e ∈ pre -> e ∉ pre' ++ common) /\
    collectEntriesForBranchSummary st (Some oldLeafId) targetId =
    Some (Ok {| ce_entries := reverse pre; ce_commonAncestorId := entry_id <$> head common |}).
Proof.
  pose proof (storage_reachable st Hok) as Hr. apply reachable_inv in Hr as [Hwf _].
  destruct (entries_on_branch_path st Hok _ _ Hold) as (po & Hpo & Eo).
  destruct (entries_on_branch_path st Hok _ _ Htarget) as (pt & Hpt & Et).
  pose proof Hold as [_ Hio]%(wf_byId _ Hwf). pose proof Htarget as [_ Hit]%(wf_byId _ Hwf). subst oldLeafId targetId.
  destruct (branch_meet (storage_abs st) eo et po pt Hwf Hold Htarget Hpo Hpt) as (pre & pre' & common & -> & -> & Hd & Hf).
  exists pre, pre', common. do 3 (split; [done|]).
  pose proof (branch_stored _ _ _ Hwf Hold Hpo) as Hst. rewrite Forall_forall in Hst.
  unfold collectEntriesForBranchSummary.
  destruct (entry_id eo) as [|u t] eqn:Eid; [congruence|]. rewrite Eo, Et, Hf. rewrite <- Eid.
  rewrite (collect_loop_walk st Hok common _ pre eo []); rewrite ?Eid; try done.
  - rewrite length_app. lia.
  - intros x Hx Heq. destruct common as [|a post]; [done|]. injection Heq as Heq.
    pose proof (Hst x ltac:(apply elem_of_app; by left)) as Hxs.
    pose proof (Hst a ltac:(apply elem_of_app; right; left)) as Has.
    rewrite Heq in Hxs. rewrite Has in Hxs. injection Hxs as <-. apply (Hd _ Hx). apply elem_of_app. right; left.
Qed.

(** Two branches from entry [a]: [b] on the main lane and [c] on another. *)
Definition ex_fork_ops : list StorageOp :=
  [ Op_appendEntry 10 {| pe_id := js "a"; pe_payload := ex_user "hi" |} main_lane;
    Op_appendEntry 11 {| pe_id := js "b"; pe_payload := ex_user "there" |} main_lane;
    Op_createLane (js "side") (Some (js "a"));
    Op_appendEntry 12 {| pe_id := js "c"; pe_payload := ex_user "instead" |} (js "side") ].

Definition ex_fork_storage : InMemorySessionStorage :=
  {| ms_metadata := {| meta_id := js "s"; meta_createdAt := 0; meta_parentSessionId := None |};
     ms_state := match rfold run_op init_state ex_fork_ops with Ok s => s | Err _ => init_state end |}.

Lemma collectEntries_abandoned_witness :
  exists eo et, getEntry (storage_abs ex_fork_storage) (js "b") = Some eo /\
    getEntry (storage_abs ex_fork_storage) (js "c") = Some et /\
  exists pre pre' common,
    branch (st_entriesById (storage_abs ex_fork_storage)) eo (pre ++ common) /\
    branch (st_entriesById (storage_abs ex_fork_storage)) et (pre' ++ common) /\
    (forall e, e ∈ pre -> e ∉ pre' ++ common) /\
    collectEntriesForBranchSummary ex_fork_storage (Some (js "b")) (js "c") =
    Some (Ok {| ce_entries := reverse pre; ce_commonAncestorId := entry_id <$> head common |}).
Proof.
  do 2 eexists. split; [vm_compute; reflexivity|]. split; [vm_compute; reflexivity|].
  apply (collectEntries_abandoned ex_fork_storage); [|vm_compute; reflexivity..].
  apply (rfold_reachable ex_fork_ops init_state); [constructor | vm_compute; reflexivity].
Defined.

(** ** Selection *)

Section Selection.
Context (number_to_string : number -> jstring).
Abbreviation tokens := (estimateTokens number_to_string).

Fixpoint token_sum (messages : list AgentMessage) : Z :=
  match messages with [] => 0 | m :: ms => tokens m + token_sum ms end.

Lemma token_sum_app a b : token_sum (a ++ b) = token_sum a + token_sum b.
Proof. induction a as [|x a IH]; simpl; lia. Qed.

(** The entries whose message may be selected, newest first. *)
Definition candidates (rev_entries : list Entry) : list (Entry * AgentMessage) :=
  omap (fun e => (fun m => (e, m)) <$> getMessageFromEntry e) rev_entries.

(** Why the loop, which had [start] tokens, took [taken] and stopped before
    [left]. *)
Definition selection (tokenBudget start : Z) (taken left : list (Entry * AgentMessage)) : Prop :=
  (tokenBudget <= 0 /\ left = []) \/
  (0 < tokenBudget /\ start + token_sum taken.*2 <= tokenBudget /\
   forall e m, head left = Some (e, m) ->
     tokenBudget < start + token_sum taken.*2 + tokens m /\
     (is_summary_entry e = true -> 9 * tokenBudget <= 10 * (start + token_sum taken.*2))) \/
  (0 < tokenBudget /\ exists newer e m, taken = newer ++ [(e, m)] /\ is_summary_entry e = true /\
     10 * (start + token_sum newer.*2) < 9 * tokenBudget /\ tokenBudget < start + token_sum newer.*2 + tokens m).

Lemma selection_cons tokenBudget start e m taken left :
  selection tokenBudget (start + tokens m) taken left -> selection tokenBudget start ((e, m) :: taken) left.
Proof.
  unfold selection. cbn [fmap list_fmap token_sum snd]. rewrite Z.add_assoc.
  intros [H|[H|(Hb & newer & e' & m' & -> & Hs & Hlt & Hov)]]; [by left|right; by left|right; right].
  split; [done|]. exists ((e, m) :: newer), e', m'. cbn [app fmap list_fmap token_sum snd].
  rewrite Z.add_assoc. done.
Qed.

Lemma select_loop_selection rev_entries tokenBudget p :
  tokenBudget <= 0 \/ bp_totalTokens p <= tokenBudget ->
  exists taken left, candidates rev_entries = taken ++ left /\
    bp_messages (select_loop number_to_string rev_entries tokenBudget p) = reverse taken.*2 ++ bp_messages p /\
    bp_totalTokens (select_loop number_to_string rev_entries tokenBudget p) = bp_totalTokens p + token_sum taken.*2 /\
    selection tokenBudget (bp_totalTokens p) taken left.
Proof.
  revert p. induction rev_entries as [|entry rest IH]; intros p Hp.
  - exists [], []. simpl. rewrite Z.add_0_r. do 3 (split; [done|]). unfold selection. simpl.
    destruct (Z.le_gt_cases tokenBudget 0); [by left|right; left]. split; [lia|]. split; [lia|done].
  - unfold candidates. cbn [omap list_omap select_loop]. fold (candidates rest).
    destruct (getMessageFromEntry entry) as [m|] eqn:Em; cbn [fmap option_fmap option_map]; [|by apply IH].
    set (p' := {| bp_messages := m :: bp_messages p; bp_fileOps := _; bp_totalTokens := _ |}).
    assert (Htake : tokenBudget <= 0 \/ bp_totalTokens p + tokens m <= tokenBudget ->
      exists taken left, (entry, m) :: candidates rest = taken ++ left /\
        bp_messages (select_loop number_to_string rest tokenBudget p') = reverse taken.*2 ++ bp_messages p /\
        bp_totalTokens (select_loop number_to_string rest tokenBudget p') = bp_totalTokens p + token_sum taken.*2 /\
        selection tokenBudget (bp_totalTokens p) taken left).
    { intros Hfit. destruct (IH p' Hfit) as (taken & left & Hc & Hm & Ht & Hsel).
      exists ((entry, m) :: taken), left. split; [by rewrite Hc|]. split; [|split].
      - rewrite Hm. cbn [fmap list_fmap bp_messages snd p']. by rewrite reverse_cons, <- app_assoc.
      - rewrite Ht. cbn [fmap list_fmap token_sum snd bp_totalTokens p']. lia.
      - by apply selection_cons. }
    destruct (Z.ltb_spec 0 tokenBudget) as [Hb|Hb]; cbn [andb].
    1: destruct (Z.ltb_spec tokenBudget (bp_totalTokens p + tokens m)) as [Hov|Hfit].
    + destruct (is_summary_entry entry && (10 * bp_totalTokens p <? 9 * tokenBudget)) eqn:Ex.
      * apply andb_true_iff in Ex as [Hs Hlt]. apply Z.ltb_lt in Hlt.
        exists [(entry, m)], (candidates rest). simpl. do 3 (split; [done || lia|]).
        right; right. split; [done|]. exists [], entry, m. simpl. rewrite Z.add_0_r. done.
      * exists [], ((entry, m) :: candidates rest). simpl. do 3 (split; [done || lia|]).
        right; left. split; [done|]. simpl. split; [lia|]. intros e' m' E. injection E as <- <-. split; [lia|].
        intros Hs. rewrite Hs in Ex. apply Z.ltb_ge in Ex. lia.
    + apply Htake. by right.
    + apply Htake. by left.
Qed.
End Selection.

(** The messages selected for a branch summary are the newest ones of the
    branch (tool results and settings entries aside), in order and without
    gaps, and the reported total is their token estimate.  Without a budget all
    are taken.  With one, either the total stays within it and the next older
    message would exceed it (and is not a summary that still counts because
    less than nine tenths are used), or the oldest taken message is such a
    summary, the only one that overruns the budget. *)
Theorem prepareBranchEntries_newest (number_to_string : number -> jstring) (entries : list Entry) (tokenBudget : Z) :
  exists taken left,
    candidates (reverse entries) = taken ++ left /\
    bp_messages (prepareBranchEntries number_to_string entries tokenBudget) = reverse taken.*2 /\
    bp_totalTokens (prepareBranchEntries number_to_string entries tokenBudget) = token_sum number_to_string taken.*2 /\
    selection number_to_string tokenBudget 0 taken left.
Proof.
  unfold prepareBranchEntries.
  destruct (select_loop_selection number_to_string (reverse entries) tokenBudget
    {| bp_messages := []; bp_fileOps := foldl add_details createFileOps entries; bp_totalTokens := 0 |})
    as (taken & left & Hc & Hm & Ht & Hs); [simpl; lia|].
  exists taken, left. split; [done|]. rewrite Hm, Ht. cbn [bp_messages bp_totalTokens]. by rewrite app_nil_r.
Qed.
