(* ===== verification/AgentLoop.v ===== *)
(** * The agent loop

    packages/agent/src/agent-loop.ts with the types of packages/agent/src/types.ts:
    the turn loop (provider request, tool batch, queued messages), sequential and
    parallel tool execution, and the resumption of interrupted tool calls.

    The loop talks to an environment of type [E]: the event sink, the abort
    signal, the clock and the scheduler are the class [AgentEnv]; the provider,
    the tools and the hooks of the configuration are functions that map an
    environment to the next one and an outcome, [Err] when they throw a value
    of type [X].  A tool run and a provider stream are trees whose nodes are the
    points where they wait, so the environment can change there.  Sinks do not
    throw, and hooks do not change the context they receive except
    [onToolBatchCompleted], which returns it.  [validateToolArguments] checks
    arguments against a schema with a third-party library.  The loop may run
    forever: [fuel] bounds its turns and scheduling steps, and an exhausted
    bound is the outcome [OutOfFuel]. *)

From stdpp Require Import base list strings.
From Stdlib Require Import ZArith Lia.
From S2P Require Import Prelude SessionTypes Numbers SessionContext Compaction Retry Summary.

(** ** Events and results (types.ts) *)

Inductive ToolExecutionMode := TE_sequential | TE_parallel.
Inductive ToolReplayMode := TR_never | TR_safe.

#[global] Instance ToolExecutionMode_eq_dec : EqDecision ToolExecutionMode.
Proof. solve_decision. Defined.
#[global] Instance ToolReplayMode_eq_dec : EqDecision ToolReplayMode.
Proof. solve_decision. Defined.

(** [terminate?: boolean | "any"] *)
Inductive Terminate := TM_bool (b : bool) | TM_any.

(** [content] is optional because untyped tools may omit it. *)
Record AgentToolResult := {
  atr_content : option (list UserBlock);
  atr_details : option json;
  atr_structuredContent : option json;
  atr_isError : option bool;
  atr_usage : option Usage;
  atr_addedToolNames : option (list jstring);
  atr_terminate : option Terminate }.

Record BeforeToolCallResult := {
  btc_block : bool;
  btc_reason : option jstring;
  btc_terminate : option bool }.

Record AfterToolCallResult := {
  atc_content : option (list UserBlock);
  atc_details : option json;
  atc_isError : option bool;
  atc_structuredContent : option json;
  atc_usage : option Usage;
  atc_terminate : option Terminate }.

Inductive ToolAvailability := TA_available | TA_deferred (guidance : jstring).

(** packages/ai/src/types.ts: the events of a provider stream. *)
Inductive AssistantMessageEvent :=
| SE_start (partial : AssistantMessage)
| SE_text_start (contentIndex : Z) (partial : AssistantMessage)
| SE_text_delta (contentIndex : Z) (delta : jstring) (partial : AssistantMessage)
| SE_text_end (contentIndex : Z) (content : jstring) (partial : AssistantMessage)
| SE_thinking_start (contentIndex : Z) (partial : AssistantMessage)
| SE_thinking_delta (contentIndex : Z) (delta : jstring) (partial : AssistantMessage)
| SE_thinking_end (contentIndex : Z) (content : jstring) (partial : AssistantMessage)
| SE_toolcall_start (contentIndex : Z) (partial : AssistantMessage)
| SE_toolcall_delta (contentIndex : Z) (delta : jstring) (partial : AssistantMessage)
| SE_toolcall_end (contentIndex : Z) (toolCall : ToolCall) (partial : AssistantMessage)
| SE_done (message : AssistantMessage)
| SE_error (error : AssistantMessage).

Inductive AgentEvent :=
| AE_agent_start
| AE_agent_end (messages : list AgentMessage)
| AE_turn_start
| AE_turn_end (message : AgentMessage) (toolResults : list ToolResultMessage)
| AE_message_start (message : AgentMessage)
| AE_message_update (message : AgentMessage) (assistantMessageEvent : AssistantMessageEvent)
| AE_message_end (message : AgentMessage)
| AE_tool_execution_start (toolCallId toolName : jstring) (args : list (jstring * json))
    (parentToolCallId : option jstring)
| AE_tool_execution_update (toolCallId toolName : jstring) (args : list (jstring * json))
    (partialResult : AgentToolResult) (parentToolCallId : option jstring)
| AE_tool_execution_end (toolCallId toolName : jstring) (result : AgentToolResult) (isError : bool)
    (parentToolCallId : option jstring).

(** ** The environment *)

Class AgentEnv (E : Type) := {
  sink : E -> AgentEvent -> E;         (* the event sink *)
  aborted : E -> bool;                 (* [signal?.aborted] *)
  clock_now : E -> E * Z;              (* [Date.now()] *)
  pick : E -> nat -> E * nat }.        (* which of [n] concurrent tasks moves *)

(** How a computation ends. *)
Inductive Out (X A : Type) := Done (a : A) | Throw (x : X) | OutOfFuel.
Arguments Done {X A} a.
Arguments Throw {X A} x.
Arguments OutOfFuel {X A}.

Section Types.
Context (E X : Type).

(** A running [tool.execute]: partial results, and points where it waits. *)
Inductive ToolRun :=
| TRun_return (r : Result X AgentToolResult)
| TRun_update (partialResult : AgentToolResult) (k : ToolRun)
| TRun_await (step : E -> E) (k : E -> ToolRun).

Record AgentTool := {
  tool_name : jstring;
  tool_description : jstring;
  tool_parameters : json;
  tool_prepareArguments : option (list (jstring * json) -> Result X (list (jstring * json)));
  tool_execute : E -> jstring -> json -> E * ToolRun;
  tool_executionMode : option ToolExecutionMode;
  tool_replay : option ToolReplayMode }.

Record AgentContext := {
  ac_systemPrompt : jstring;
  ac_messages : list AgentMessage;
  ac_tools : option (list AgentTool) }.

(** [AgentLoopTurnUpdate] *)
Record TurnUpdate := {
  tu_context : option AgentContext;
  tu_model : option Model;
  tu_thinkingLevel : option jstring }.

(** [PrepareNextTurnContext] *)
Record CompletedTurn := {
  ct_message : AssistantMessage;
  ct_toolResults : list ToolResultMessage;
  ct_context : AgentContext;
  ct_newMessages : list AgentMessage }.

(** An asynchronous callback. *)
Definition Call (A : Type) : Type := E -> E * Result X A.

Record AgentLoopConfig := {
  cfg_model : Model;
  cfg_reasoning : option jstring;
  cfg_apiKey : option jstring;
  cfg_suppressAssistantText : bool;
  cfg_toolExecution : option ToolExecutionMode;
  cfg_convertToLlm : list AgentMessage -> Call (list Message);
  cfg_transformContext : option (list AgentMessage -> Call (list AgentMessage));
  cfg_getApiKey : option (jstring -> Call (option jstring));
  cfg_shouldStopAfterTurn : option (CompletedTurn -> Call bool);
  cfg_prepareNextTurn : option (CompletedTurn -> Call (option TurnUpdate));
  cfg_prepareInitialTurn : option (AgentContext -> Call (option TurnUpdate));
  cfg_getSteeringMessages : option (Call (list AgentMessage));
  cfg_onSteeringBatch : option (list AgentMessage -> Call (list AgentMessage));
  cfg_getFollowUpMessages : option (Call (list AgentMessage));
  cfg_beforeToolCall : option (AssistantMessage -> ToolCall -> json -> AgentContext ->
                               Call (option BeforeToolCallResult));
  cfg_afterToolCall : option (AssistantMessage -> ToolCall -> json -> AgentToolResult -> bool -> AgentContext ->
                              Call (option AfterToolCallResult));
  cfg_resolveToolAvailability : option (jstring -> AgentContext -> Call (option ToolAvailability));
  cfg_onToolBatchCompleted : option (list ToolResultMessage -> AgentContext -> E -> E * AgentContext * Result X unit) }.

(** A provider stream: events with the points where the next one is awaited,
    or its end without a terminal event, where [result()] settles. *)
Inductive StreamRun :=
| ST_event (event : AssistantMessageEvent) (step : E -> E) (k : E -> StreamRun)
| ST_end (r : Result X AssistantMessage).

(** What the stream function receives. *)
Record StreamRequest := {
  srq_model : Model;
  srq_systemPrompt : jstring;
  srq_messages : list Message;
  srq_tools : option (list AgentTool);
  srq_reasoning : option jstring;
  srq_apiKey : option jstring }.

Definition StreamFn : Type := StreamRequest -> Call StreamRun.

Record PreparedToolCall := {
  ptc_toolCall : ToolCall;
  ptc_tool : AgentTool;
  ptc_args : json }.

Record ExecutedToolCallOutcome := { exo_result : AgentToolResult; exo_isError : bool }.

(** [PreparedToolCall | ImmediateToolCallOutcome] *)
Inductive Preparation :=
| PR_prepared (p : PreparedToolCall)
| PR_immediate (result : AgentToolResult) (isError : bool).

Record FinalizedToolCallOutcome := {
  fin_toolCall : ToolCall;
  fin_result : AgentToolResult;
  fin_isError : bool }.

Record ExecutedToolCallBatch := {
  batch_messages : list ToolResultMessage;
  batch_terminate : bool }.

Record PendingToolCalls := {
  ptcs_assistantMessage : AssistantMessage;
  ptcs_toolCalls : list ToolCall }.
End Types.

Arguments TRun_return {E X} r.
Arguments TRun_update {E X} partialResult k.
Arguments TRun_await {E X} step k.
Arguments ST_event {E X} event step k.
Arguments ST_end {E X} r.
Arguments PR_prepared {E X} p.
Arguments PR_immediate {E X} result isError.
Arguments tool_name {E X}. Arguments tool_description {E X}. Arguments tool_parameters {E X}.
Arguments tool_prepareArguments {E X}. Arguments tool_execute {E X}. Arguments tool_executionMode {E X}.
Arguments tool_replay {E X}.
Arguments ac_systemPrompt {E X}. Arguments ac_messages {E X}. Arguments ac_tools {E X}.
Arguments tu_context {E X}. Arguments tu_model {E X}. Arguments tu_thinkingLevel {E X}.
Arguments ct_message {E X}. Arguments ct_toolResults {E X}. Arguments ct_context {E X}.
Arguments ct_newMessages {E X}.
Arguments cfg_model {E X}. Arguments cfg_reasoning {E X}. Arguments cfg_apiKey {E X}.
Arguments cfg_suppressAssistantText {E X}. Arguments cfg_toolExecution {E X}. Arguments cfg_convertToLlm {E X}.
Arguments cfg_transformContext {E X}. Arguments cfg_getApiKey {E X}. Arguments cfg_shouldStopAfterTurn {E X}.
Arguments cfg_prepareNextTurn {E X}. Arguments cfg_prepareInitialTurn {E X}.
Arguments cfg_getSteeringMessages {E X}. Arguments cfg_onSteeringBatch {E X}.
Arguments cfg_getFollowUpMessages {E X}. Arguments cfg_beforeToolCall {E X}. Arguments cfg_afterToolCall {E X}.
Arguments cfg_resolveToolAvailability {E X}. Arguments cfg_onToolBatchCompleted {E X}.
Arguments srq_model {E X}. Arguments srq_systemPrompt {E X}. Arguments srq_messages {E X}.
Arguments srq_tools {E X}. Arguments srq_reasoning {E X}. Arguments srq_apiKey {E X}.
Arguments ptc_toolCall {E X}. Arguments ptc_tool {E X}. Arguments ptc_args {E X}.

(** ** Pure helpers *)

(** [toolCall] blocks of a message. *)
Definition tool_call_of (b : AssistantBlock) : option ToolCall :=
  match b with AB_toolCall c => Some c | _ => None end.

Definition message_tool_calls (m : AssistantMessage) : list ToolCall := omap tool_call_of (asst_content m).

(** The backward walk of [findPendingToolCalls], over the reversed messages. *)
Fixpoint pending_walk (rev_messages : list AgentMessage) (answered : list jstring) : option PendingToolCalls :=
  match rev_messages with
  | [] => None
  | message :: rest =>
      match message with
      | AM_message (M_toolResult r) => pending_walk rest (set_add (tres_toolCallId r) answered)
      | AM_message (M_user _) => None
      | AM_message (M_assistant a) =>
          if bool_decide (asst_stopReason a = SR_toolUse) then
            match List.filter (fun c => negb (bool_decide (toolCall_id c ∈ answered))) (message_tool_calls a) with
            | [] => None
            | toolCalls => Some {| ptcs_assistantMessage := a; ptcs_toolCalls := toolCalls |}
            end
          else None
      | _ => pending_walk rest answered
      end
  end.

Definition findPendingToolCalls (messages : list AgentMessage) : option PendingToolCalls :=
  pending_walk (reverse messages) [].

Definition createErrorToolResult (message : jstring) : AgentToolResult :=
  {| atr_content := Some [UB_text {| text_text := message; text_textSignature := None |}];
     atr_details := Some (JObject []); atr_structuredContent := None; atr_isError := None; atr_usage := None;
     atr_addedToolNames := None; atr_terminate := None |}.

(** [result.terminate = true] *)
Definition with_terminate (r : AgentToolResult) : AgentToolResult :=
  {| atr_content := atr_content r; atr_details := atr_details r; atr_structuredContent := atr_structuredContent r;
     atr_isError := atr_isError r; atr_usage := atr_usage r; atr_addedToolNames := atr_addedToolNames r;
     atr_terminate := Some (TM_bool true) |}.

Definition is_true_terminate (t : option Terminate) : bool :=
  match t with Some (TM_bool true) => true | _ => false end.

Definition is_any_terminate (t : option Terminate) : bool :=
  match t with Some TM_any => true | _ => false end.

Definition shouldTerminateToolBatch (finalizedCalls : list FinalizedToolCallOutcome) : bool :=
  if existsb (fun f => is_any_terminate (atr_terminate (fin_result f))) finalizedCalls then true
  else negb (bool_decide (length finalizedCalls = 0%nat)) &&
       forallb (fun f => is_true_terminate (atr_terminate (fin_result f))) finalizedCalls.

(** [a ?? b] on values that may be [null]. *)
Definition nullish_json (a b : option json) : option json :=
  match a with None | Some JNull => b | Some j => Some j end.

Definition or_else {A} (a b : option A) : option A := match a with Some x => Some x | None => b end.

(** The overrides of [afterToolCall]. *)
Definition merge_after (result : AgentToolResult) (isError : bool) (after : AfterToolCallResult) :
    AgentToolResult * bool :=
  let structuredContent :=
    match atc_structuredContent after with
    | Some c => Some c
    | None => match atc_content after with Some _ => None | None => atr_structuredContent result end
    end in
  ({| atr_content := or_else (atc_content after) (atr_content result);
      atr_details := nullish_json (atc_details after) (atr_details result);
      atr_structuredContent := structuredContent;
      atr_isError := or_else (atc_isError after) (atr_isError result);
      atr_usage := or_else (atc_usage after) (atr_usage result);
      atr_addedToolNames := atr_addedToolNames result;
      atr_terminate := or_else (atc_terminate after) (atr_terminate result) |},
   default isError (atc_isError after)).

(** [messages[messages.length - 1] = m] *)
Definition set_last (m : AgentMessage) (messages : list AgentMessage) : list AgentMessage :=
  take (length messages - 1) messages ++ [m].

(** [finalMessage.content.filter((c) => c.type === "toolCall")] *)
Definition only_tool_calls (m : AssistantMessage) : AssistantMessage :=
  {| asst_content := List.filter (fun b => match b with AB_toolCall _ => true | _ => false end) (asst_content m);
     asst_api := asst_api m; asst_provider := asst_provider m; asst_model := asst_model m;
     asst_responseModel := asst_responseModel m; asst_responseId := asst_responseId m;
     asst_diagnostics := asst_diagnostics m; asst_usage := asst_usage m; asst_stopReason := asst_stopReason m;
     asst_deferred := asst_deferred m; asst_errorMessage := asst_errorMessage m;
     asst_rawStopReason := asst_rawStopReason m; asst_endTurn := asst_endTurn m; asst_timestamp := asst_timestamp m |}.

Definition assistant (m : AssistantMessage) : AgentMessage := AM_message (M_assistant m).
Definition tool_result (m : ToolResultMessage) : AgentMessage := AM_message (M_toolResult m).

(** ** Computations *)

Section Loop.
Context {E X : Type} `{AgentEnv E}.
Context (error_text : X -> jstring).
Context (validateToolArguments : AgentTool E X -> ToolCall -> Result X json).

(** The environment and the events emitted so far. *)
Record LoopState := { ls_env : E; ls_trace : list AgentEvent }.

Definition M (A : Type) : Type := LoopState -> LoopState * Out X A.

Definition ret {A} (a : A) : M A := fun st => (st, Done a).

Definition bind {A B} (m : M A) (k : A -> M B) : M B := fun st =>
  match m st with
  | (st', Done a) => k a st'
  | (st', Throw x) => (st', Throw x)
  | (st', OutOfFuel) => (st', OutOfFuel)
  end.

Notation "'do' x '<-' m 'in' k" := (bind m (fun x => k)) (at level 10, x pattern, m at level 100, k at level 200).
Notation "'do_' m 'in' k" := (bind m (fun _ => k)) (at level 10, m at level 100, k at level 200).

Definition set_env (e : E) (st : LoopState) : LoopState := {| ls_env := e; ls_trace := ls_trace st |}.

(** [await f()], which may throw. *)
Definition call {A} (f : Call E X A) : M A := fun st =>
  let (e, r) := f (ls_env st) in
  (set_env e st, match r with Ok a => Done a | Err x => Throw x end).

(** [try { await f() } catch] *)
Definition attempt {A} (f : Call E X A) : M (Result X A) := fun st =>
  let (e, r) := f (ls_env st) in (set_env e st, Done r).

Definition emit (event : AgentEvent) : M unit := fun st =>
  ({| ls_env := sink (ls_env st) event; ls_trace := ls_trace st ++ [event] |}, Done tt).

Definition is_aborted : M bool := fun st => (st, Done (aborted (ls_env st))).

Definition Date_now : M Z := fun st => let (e, t) := clock_now (ls_env st) in (set_env e st, Done t).

(** [for (const x of l) await f(x)] *)
Fixpoint each {A} (f : A -> M unit) (l : list A) : M unit :=
  match l with
  | [] => ret tt
  | x :: l' => do_ f x in each f l'
  end.

(** ** Tool calls *)

Definition find_tool (tools : option (list (AgentTool E X))) (name : jstring) : option (AgentTool E X) :=
  match tools with
  | Some l => List.find (fun t => bool_decide (tool_name t = name)) l
  | None => None
  end.

Definition emit_start (toolCall : ToolCall) (parent : option jstring) : M unit :=
  emit (AE_tool_execution_start (toolCall_id toolCall) (toolCall_name toolCall) (toolCall_arguments toolCall) parent).

Definition emitToolExecutionEnd (f : FinalizedToolCallOutcome) : M unit :=
  emit (AE_tool_execution_end (toolCall_id (fin_toolCall f)) (toolCall_name (fin_toolCall f)) (fin_result f)
          (fin_isError f) None).

Definition createToolResultMessage (f : FinalizedToolCallOutcome) : M ToolResultMessage :=
  do now <- Date_now in
  ret {| tres_toolCallId := toolCall_id (fin_toolCall f);
         tres_toolName := toolCall_name (fin_toolCall f);
         tres_content := default [] (atr_content (fin_result f));
         tres_details := atr_details (fin_result f);
         tres_usage := atr_usage (fin_result f);
         tres_addedToolNames := match atr_addedToolNames (fin_result f) with
                                | Some ((_ :: _) as names) => Some names
                                | _ => None
                                end;
         tres_isError := fin_isError f;
         tres_timestamp := now |}.

Definition emit_message (m : AgentMessage) : M unit :=
  do_ emit (AE_message_start m) in emit (AE_message_end m).

Definition emitToolResultMessage (m : ToolResultMessage) : M unit := emit_message (tool_result m).

Definition prepareToolCallArguments (tool : AgentTool E X) (toolCall : ToolCall) : Result X ToolCall :=
  match tool_prepareArguments tool with
  | None => Ok toolCall
  | Some prepare =>
      let* args := prepare (toolCall_arguments toolCall) in
      Ok {| toolCall_id := toolCall_id toolCall; toolCall_name := toolCall_name toolCall;
            toolCall_arguments := args; toolCall_thoughtSignature := toolCall_thoughtSignature toolCall;
            toolCall_namespace := toolCall_namespace toolCall |}
  end.

Definition resolveMissingToolResultText (toolName : jstring) (context : AgentContext E X)
    (config : AgentLoopConfig E X) : M jstring :=
  let notFound := js "Tool " ++ toolName ++ js " not found" in
  match cfg_resolveToolAvailability config with
  | None => ret notFound
  | Some resolve =>
      do r <- attempt (resolve toolName context) in
      ret (match r with Ok (Some (TA_deferred guidance)) => guidance | _ => notFound end)
  end.

Definition aborted_result : AgentToolResult := createErrorToolResult (js "Operation aborted").

(** The result of a blocked call. *)
Definition blocked_result (before : BeforeToolCallResult) : AgentToolResult :=
  let result := createErrorToolResult (or_text (btc_reason before) (js "Tool execution was blocked")) in
  if bool_decide (btc_terminate before = Some true) then with_terminate result else result.

Definition prepareToolCall (currentContext : AgentContext E X) (assistantMessage : AssistantMessage)
    (toolCall : ToolCall) (config : AgentLoopConfig E X) : M (Preparation E X) :=
  match find_tool (ac_tools currentContext) (toolCall_name toolCall) with
  | None =>
      do text <- resolveMissingToolResultText (toolCall_name toolCall) currentContext config in
      ret (PR_immediate (createErrorToolResult text) true)
  | Some tool =>
      match rbind (prepareToolCallArguments tool toolCall) (validateToolArguments tool) with
      | Err x => ret (PR_immediate (createErrorToolResult (error_text x)) true)
      | Ok validatedArgs =>
          let prepared :=
            do stop <- is_aborted in
            ret (if stop then PR_immediate aborted_result true
                 else PR_prepared {| ptc_toolCall := toolCall; ptc_tool := tool; ptc_args := validatedArgs |}) in
          match cfg_beforeToolCall config with
          | None => prepared
          | Some before =>
              do r <- attempt (before assistantMessage toolCall validatedArgs currentContext) in
              match r with
              | Err x => ret (PR_immediate (createErrorToolResult (error_text x)) true)
              | Ok beforeResult =>
                  do stop <- is_aborted in
                  if (stop : bool) then ret (PR_immediate aborted_result true)
                  else match beforeResult with
                       | Some b => if btc_block b then ret (PR_immediate (blocked_result b) true) else prepared
                       | None => prepared
                       end
              end
          end
      end
  end.

Definition emit_update (toolCall : ToolCall) (parent : option jstring) (partialResult : AgentToolResult) : M unit :=
  emit (AE_tool_execution_update (toolCall_id toolCall) (toolCall_name toolCall) (toolCall_arguments toolCall)
          partialResult parent).

(** A tool run on its own, to its end. *)
Fixpoint run_tool (toolCall : ToolCall) (parent : option jstring) (r : ToolRun E X) :
    M (Result X AgentToolResult) :=
  match r with
  | TRun_return r => ret r
  | TRun_update partialResult k => do_ emit_update toolCall parent partialResult in run_tool toolCall parent k
  | TRun_await step k => fun st => let e := step (ls_env st) in run_tool toolCall parent (k e) (set_env e st)
  end.

(** [prepared.tool.execute(...)] up to the promise it returns. *)
Definition start_tool (prepared : PreparedToolCall E X) : M (ToolRun E X) := fun st =>
  let (e, r) := tool_execute (ptc_tool prepared) (ls_env st) (toolCall_id (ptc_toolCall prepared)) (ptc_args prepared) in
  (set_env e st, Done r).

Definition executed_outcome (r : Result X AgentToolResult) : ExecutedToolCallOutcome :=
  match r with
  | Ok result => {| exo_result := result; exo_isError := bool_decide (atr_isError result = Some true) |}
  | Err x => {| exo_result := createErrorToolResult (error_text x); exo_isError := true |}
  end.

Definition executePreparedToolCall (prepared : PreparedToolCall E X) (parent : option jstring) :
    M ExecutedToolCallOutcome :=
  do run <- start_tool prepared in
  do r <- run_tool (ptc_toolCall prepared) parent run in
  ret (executed_outcome r).

Definition finalizeExecutedToolCall (currentContext : AgentContext E X) (assistantMessage : AssistantMessage)
    (prepared : PreparedToolCall E X) (executed : ExecutedToolCallOutcome) (config : AgentLoopConfig E X) :
    M FinalizedToolCallOutcome :=
  let result := exo_result executed in
  let isError := exo_isError executed || bool_decide (atr_isError result = Some true) in
  let finalized := fun result isError =>
    {| fin_toolCall := ptc_toolCall prepared; fin_result := result; fin_isError := isError |} in
  match cfg_afterToolCall config with
  | None => ret (finalized result isError)
  | Some after =>
      do r <- attempt (after assistantMessage (ptc_toolCall prepared) (ptc_args prepared) result isError currentContext) in
      ret (match r with
           | Err x => finalized (createErrorToolResult (error_text x)) true
           | Ok None => finalized result isError
           | Ok (Some a) => let (result', isError') := merge_after result isError a in finalized result' isError'
           end)
  end.

(** ** Batches *)

(** The finalized outcome of one call, in sequence. *)
Definition run_call (currentContext : AgentContext E X) (assistantMessage : AssistantMessage) (toolCall : ToolCall)
    (config : AgentLoopConfig E X) : M FinalizedToolCallOutcome :=
  do preparation <- prepareToolCall currentContext assistantMessage toolCall config in
  match preparation with
  | PR_immediate result isError =>
      ret {| fin_toolCall := toolCall; fin_result := result; fin_isError := isError |}
  | PR_prepared p =>
      do executed <- executePreparedToolCall p None in
      finalizeExecutedToolCall currentContext assistantMessage p executed config
  end.

(** The loop of [executeToolCallsSequential]. *)
Fixpoint sequential_loop (currentContext : AgentContext E X) (assistantMessage : AssistantMessage)
    (config : AgentLoopConfig E X) (toolCalls : list ToolCall) (finalizedCalls : list FinalizedToolCallOutcome)
    (messages : list ToolResultMessage) : M (list FinalizedToolCallOutcome * list ToolResultMessage) :=
  match toolCalls with
  | [] => ret (finalizedCalls, messages)
  | toolCall :: toolCalls' =>
      do_ emit_start toolCall None in
      do finalized <- run_call currentContext assistantMessage toolCall config in
      do_ emitToolExecutionEnd finalized in
      do message <- createToolResultMessage finalized in
      do_ emitToolResultMessage message in
      let finalizedCalls := finalizedCalls ++ [finalized] in
      let messages := messages ++ [message] in
      do stop <- is_aborted in
      if (stop : bool) then ret (finalizedCalls, messages)
      else sequential_loop currentContext assistantMessage config toolCalls' finalizedCalls messages
  end.

Definition executeToolCallsSequential (currentContext : AgentContext E X) (assistantMessage : AssistantMessage)
    (toolCalls : list ToolCall) (config : AgentLoopConfig E X) : M ExecutedToolCallBatch :=
  do r <- sequential_loop currentContext assistantMessage config toolCalls [] [] in
  ret {| batch_messages := r.2; batch_terminate := shouldTerminateToolBatch r.1 |}.

(** A concurrent call between its waiting points. *)
Inductive Task :=
| TK_waiting (p : PreparedToolCall E X)
| TK_running (p : PreparedToolCall E X) (r : ToolRun E X)
| TK_executed (p : PreparedToolCall E X) (o : ExecutedToolCallOutcome)
| TK_finalized (f : FinalizedToolCallOutcome)
| TK_ended (f : FinalizedToolCallOutcome).

(** The first loop of [executeToolCallsParallel]: preparation in order. *)
Fixpoint parallel_prepare (currentContext : AgentContext E X) (assistantMessage : AssistantMessage)
    (config : AgentLoopConfig E X) (toolCalls : list ToolCall) (tasks : list Task) : M (list Task) :=
  match toolCalls with
  | [] => ret tasks
  | toolCall :: toolCalls' =>
      do_ emit_start toolCall None in
      do preparation <- prepareToolCall currentContext assistantMessage toolCall config in
      do task <- match preparation with
                 | PR_immediate result isError =>
                     let finalized := {| fin_toolCall := toolCall; fin_result := result; fin_isError := isError |} in
                     do_ emitToolExecutionEnd finalized in
                     ret (TK_ended finalized)
                 | PR_prepared p => ret (TK_waiting p)
                 end in
      let tasks := tasks ++ [task] in
      do stop <- is_aborted in
      if (stop : bool) then ret tasks
      else parallel_prepare currentContext assistantMessage config toolCalls' tasks
  end.

(** Partial results a tool reports before it waits. *)
Fixpoint drain_updates (toolCall : ToolCall) (r : ToolRun E X) : M (ToolRun E X) :=
  match r with
  | TRun_update partialResult k => do_ emit_update toolCall None partialResult in drain_updates toolCall k
  | _ => ret r
  end.

(** [finalizedCalls.map((entry) => entry())]: every tool starts, in order. *)
Fixpoint start_tasks (tasks : list Task) : M (list Task) :=
  match tasks with
  | [] => ret []
  | task :: tasks' =>
      do task <- match task with
                 | TK_waiting p =>
                     do run <- start_tool p in
                     do run <- drain_updates (ptc_toolCall p) run in
                     ret (TK_running p run)
                 | _ => ret task
                 end in
      do tasks' <- start_tasks tasks' in
      ret (task :: tasks')
  end.

(** A task moves to its next waiting point. *)
Definition step_task (currentContext : AgentContext E X) (assistantMessage : AssistantMessage)
    (config : AgentLoopConfig E X) (task : Task) : M Task :=
  match task with
  | TK_waiting _ | TK_ended _ => ret task
  | TK_running p (TRun_return r) => ret (TK_executed p (executed_outcome r))
  | TK_running p (TRun_await step k) => fun st =>
      let e := step (ls_env st) in
      bind (drain_updates (ptc_toolCall p) (k e)) (fun r => ret (TK_running p r)) (set_env e st)
  | TK_running p (TRun_update partialResult k) =>
      do_ emit_update (ptc_toolCall p) None partialResult in ret (TK_running p k)
  | TK_executed p executed =>
      do f <- finalizeExecutedToolCall currentContext assistantMessage p executed config in
      ret (TK_finalized f)
  | TK_finalized f => do_ emitToolExecutionEnd f in ret (TK_ended f)
  end.

Definition is_live (task : Task) : bool := match task with TK_ended _ => false | _ => true end.

(** The positions of the tasks that have not ended. *)
Definition live_indices (tasks : list Task) : list nat :=
  List.filter (fun i => match tasks !! i with Some t => is_live t | None => false end) (seq 0 (length tasks)).

Definition task_outcome (task : Task) : option FinalizedToolCallOutcome :=
  match task with TK_ended f => Some f | _ => None end.

Definition pick_task (n : nat) : M nat := fun st => let (e, i) := pick (ls_env st) n in (set_env e st, Done i).

(** [Promise.all]: the scheduler moves live tasks until all have ended. *)
Fixpoint run_tasks (fuel : nat) (currentContext : AgentContext E X) (assistantMessage : AssistantMessage)
    (config : AgentLoopConfig E X) (tasks : list Task) : M (list FinalizedToolCallOutcome) :=
  match live_indices tasks with
  | [] => ret (omap task_outcome tasks)
  | (_ :: _) as live =>
      match fuel with
      | O => fun st => (st, OutOfFuel)
      | S fuel' =>
          do i <- pick_task (length live) in
          let i := default 0%nat (live !! (i mod length live)%nat) in
          match tasks !! i with
          | None => ret (omap task_outcome tasks)
          | Some task =>
              do task' <- step_task currentContext assistantMessage config task in
              run_tasks fuel' currentContext assistantMessage config (<[i := task']> tasks)
          end
      end
  end.

(** The tool-result messages, in source order. *)
Fixpoint result_messages (finalizedCalls : list FinalizedToolCallOutcome) : M (list ToolResultMessage) :=
  match finalizedCalls with
  | [] => ret []
  | finalized :: rest =>
      do message <- createToolResultMessage finalized in
      do_ emitToolResultMessage message in
      do messages <- result_messages rest in
      ret (message :: messages)
  end.

Definition executeToolCallsParallel (fuel : nat) (currentContext : AgentContext E X)
    (assistantMessage : AssistantMessage) (toolCalls : list ToolCall) (config : AgentLoopConfig E X) :
    M ExecutedToolCallBatch :=
  do tasks <- parallel_prepare currentContext assistantMessage config toolCalls [] in
  do tasks <- start_tasks tasks in
  do finalizedCalls <- run_tasks fuel currentContext assistantMessage config tasks in
  do messages <- result_messages finalizedCalls in
  ret {| batch_messages := messages; batch_terminate := shouldTerminateToolBatch finalizedCalls |}.

Definition executeToolCalls (fuel : nat) (currentContext : AgentContext E X) (assistantMessage : AssistantMessage)
    (config : AgentLoopConfig E X) (toolCalls : list ToolCall) : M ExecutedToolCallBatch :=
  let hasSequentialToolCall :=
    existsb (fun tc => bool_decide ((find_tool (ac_tools currentContext) (toolCall_name tc) ≫= tool_executionMode) =
                                    Some TE_sequential)) toolCalls in
  if bool_decide (cfg_toolExecution config = Some TE_sequential) || hasSequentialToolCall
  then executeToolCallsSequential currentContext assistantMessage toolCalls config
  else executeToolCallsParallel fuel currentContext assistantMessage toolCalls config.

(** A call answered with an error instead of being executed. *)
Fixpoint fail_calls (text : jstring -> jstring) (toolCalls : list ToolCall) : M (list ToolResultMessage) :=
  match toolCalls with
  | [] => ret []
  | toolCall :: toolCalls' =>
      do_ emit_start toolCall None in
      let finalized := {| fin_toolCall := toolCall;
                          fin_result := createErrorToolResult (text (toolCall_name toolCall));
                          fin_isError := true |} in
      do_ emitToolExecutionEnd finalized in
      do message <- createToolResultMessage finalized in
      do_ emitToolResultMessage message in
      do messages <- fail_calls text toolCalls' in
      ret (message :: messages)
  end.

Definition quoted (name : jstring) : jstring := [34%Z] ++ name ++ [34%Z].

Definition truncated_text (name : jstring) : jstring :=
  js "Tool call " ++ quoted name ++
  js " was not executed: the response hit the output token limit, so its arguments may be truncated. Re-issue the tool call with complete arguments.".

Definition interrupted_text (name : jstring) : jstring :=
  js "Tool call " ++ quoted name ++
  js " was interrupted before its result was recorded and was not re-run. Its effects, if any, are unknown; check the current state before re-issuing it.".

Definition failToolCallsFromTruncatedMessage (toolCalls : list ToolCall) : M ExecutedToolCallBatch :=
  do messages <- fail_calls truncated_text toolCalls in
  ret {| batch_messages := messages; batch_terminate := false |}.

Definition isReplayable (currentContext : AgentContext E X) (toolCall : ToolCall) : bool :=
  bool_decide ((find_tool (ac_tools currentContext) (toolCall_name toolCall) ≫= tool_replay) = Some TR_safe).

Definition executePendingToolCalls (fuel : nat) (currentContext : AgentContext E X) (pending : PendingToolCalls)
    (config : AgentLoopConfig E X) : M ExecutedToolCallBatch :=
  let interrupted := List.filter (fun c => negb (isReplayable currentContext c)) (ptcs_toolCalls pending) in
  do messages <- fail_calls interrupted_text interrupted in
  match List.filter (isReplayable currentContext) (ptcs_toolCalls pending) with
  | [] => ret {| batch_messages := messages; batch_terminate := false |}
  | replayed =>
      do batch <- executeToolCalls fuel currentContext (ptcs_assistantMessage pending) config replayed in
      ret {| batch_messages := messages ++ batch_messages batch;
             batch_terminate := bool_decide (interrupted = []) && batch_terminate batch |}
  end.

(** ** The provider's answer *)

(** The partial message of a content event, and whether it is a tool-call
    event. *)
Definition content_event (event : AssistantMessageEvent) : option (AssistantMessage * bool) :=
  match event with
  | SE_text_start _ p | SE_text_delta _ _ p | SE_text_end _ _ p
  | SE_thinking_start _ p | SE_thinking_delta _ _ p | SE_thinking_end _ _ p => Some (p, false)
  | SE_toolcall_start _ p | SE_toolcall_delta _ _ p | SE_toolcall_end _ _ p => Some (p, true)
  | _ => None
  end.

(** The final message enters the transcript, replacing the partial one. *)
Definition finish_stream (config : AgentLoopConfig E X) (messages : list AgentMessage) (addedPartial : bool)
    (finalMessage : AssistantMessage) : M (list AgentMessage * AssistantMessage) :=
  let finalMessage := if cfg_suppressAssistantText config then only_tool_calls finalMessage else finalMessage in
  let messages := if addedPartial then set_last (assistant finalMessage) messages
                  else messages ++ [assistant finalMessage] in
  do_ (if addedPartial then ret tt else emit (AE_message_start (assistant finalMessage))) in
  do_ emit (AE_message_end (assistant finalMessage)) in
  ret (messages, finalMessage).

(** [for await (const event of response)].  At a last event the code awaits
    [response.result()], which the event streams of the repository resolve with
    the message of that event. *)
Fixpoint stream_loop (config : AgentLoopConfig E X) (messages : list AgentMessage) (addedPartial : bool)
    (run : StreamRun E X) : M (list AgentMessage * AssistantMessage) :=
  match run with
  | ST_end (Ok finalMessage) => finish_stream config messages addedPartial finalMessage
  | ST_end (Err x) => fun st => (st, Throw x)
  | ST_event event step k =>
      let next := fun messages addedPartial st =>
        let e := step (ls_env st) in stream_loop config messages addedPartial (k e) (set_env e st) in
      match event with
      | SE_start partial =>
          do_ emit (AE_message_start (assistant partial)) in next (messages ++ [assistant partial]) true
      | SE_done message | SE_error message => finish_stream config messages addedPartial message
      | _ =>
          match content_event event with
          | Some (partial, isToolCall) =>
              if addedPartial then
                let messages := set_last (assistant partial) messages in
                do_ (if cfg_suppressAssistantText config && negb isToolCall then ret tt
                     else emit (AE_message_update (assistant partial) event)) in
                next messages true
              else next messages false
          | None => next messages addedPartial
          end
      end
  end.

Definition with_messages (context : AgentContext E X) (messages : list AgentMessage) : AgentContext E X :=
  {| ac_systemPrompt := ac_systemPrompt context; ac_messages := messages; ac_tools := ac_tools context |}.

(** [?.] on a configured callback. *)
Definition optional {A B} (f : option (A -> Call E X B)) (a : A) (b : B) : M B :=
  match f with Some f => call (f a) | None => ret b end.

Definition streamAssistantResponse (context : AgentContext E X) (config : AgentLoopConfig E X)
    (streamFunction : StreamFn E X) : M (AgentContext E X * AssistantMessage) :=
  do messages <- optional (cfg_transformContext config) (ac_messages context) (ac_messages context) in
  do llmMessages <- call (cfg_convertToLlm config messages) in
  do key <- optional (cfg_getApiKey config) (model_provider (cfg_model config)) None in
  let resolvedApiKey := match truthy key with Some k => Some k | None => cfg_apiKey config end in
  do response <- call (streamFunction
    {| srq_model := cfg_model config; srq_systemPrompt := ac_systemPrompt context; srq_messages := llmMessages;
       srq_tools := ac_tools context; srq_reasoning := cfg_reasoning config; srq_apiKey := resolvedApiKey |}) in
  do r <- stream_loop config (ac_messages context) false response in
  ret (with_messages context r.1, r.2).

(** ** The loop *)

(** The variables of [runLoop]. *)
Record LoopVars := {
  v_context : AgentContext E X;
  v_config : AgentLoopConfig E X;
  v_last : option (CompletedTurn E X);
  v_new : list AgentMessage;
  v_pending : list AgentMessage;
  v_steering : bool;
  v_hasMore : bool;
  v_resume : option PendingToolCalls }.

Definition with_model (config : AgentLoopConfig E X) (model : Model) (reasoning : option jstring) :
    AgentLoopConfig E X :=
  {| cfg_model := model; cfg_reasoning := reasoning; cfg_apiKey := cfg_apiKey config;
     cfg_suppressAssistantText := cfg_suppressAssistantText config; cfg_toolExecution := cfg_toolExecution config;
     cfg_convertToLlm := cfg_convertToLlm config; cfg_transformContext := cfg_transformContext config;
     cfg_getApiKey := cfg_getApiKey config; cfg_shouldStopAfterTurn := cfg_shouldStopAfterTurn config;
     cfg_prepareNextTurn := cfg_prepareNextTurn config; cfg_prepareInitialTurn := cfg_prepareInitialTurn config;
     cfg_getSteeringMessages := cfg_getSteeringMessages config; cfg_onSteeringBatch := cfg_onSteeringBatch config;
     cfg_getFollowUpMessages := cfg_getFollowUpMessages config; cfg_beforeToolCall := cfg_beforeToolCall config;
     cfg_afterToolCall := cfg_afterToolCall config;
     cfg_resolveToolAvailability := cfg_resolveToolAvailability config;
     cfg_onToolBatchCompleted := cfg_onToolBatchCompleted config |}.

(** The snapshot of [prepareInitialTurn] or [prepareNextTurn]. *)
Definition apply_update (update : option (TurnUpdate E X)) (context : AgentContext E X)
    (config : AgentLoopConfig E X) : AgentContext E X * AgentLoopConfig E X :=
  match update with
  | None => (context, config)
  | Some u =>
      (default context (tu_context u),
       with_model config (default (cfg_model config) (tu_model u))
         (match tu_thinkingLevel u with
          | None => cfg_reasoning config
          | Some level => if bool_decide (level = js "off") then None else Some level
          end))
  end.

(** [takeSteering] and [takeFollowUps] *)
Definition take_queue (f : option (Call E X (list AgentMessage))) : M (list AgentMessage) :=
  do stop <- is_aborted in
  if (stop : bool) then ret [] else match f with Some f => call f | None => ret [] end.

(** [for (const message of ...)]: queued messages enter the transcript. *)
Definition inject (v : LoopVars) : M (list AgentMessage * list AgentMessage) :=
  match v_pending v with
  | [] => ret (ac_messages (v_context v), v_new v)
  | pending =>
      do extras <- match (if v_steering v then cfg_onSteeringBatch (v_config v) else None) with
                   | Some f => do r <- attempt (f pending) in ret (match r with Ok l => l | Err _ => [] end)
                   | None => ret []
                   end in
      do_ each emit_message (pending ++ extras) in
      ret (ac_messages (v_context v) ++ pending ++ extras, v_new v ++ pending ++ extras)
  end.

(** The tool batch of a turn. *)
Definition turn_batch (fuel : nat) (context : AgentContext E X) (config : AgentLoopConfig E X)
    (resumed : option PendingToolCalls) (message : AssistantMessage) : M ExecutedToolCallBatch :=
  match resumed with
  | Some pending => executePendingToolCalls fuel context pending config
  | None =>
      if bool_decide (asst_stopReason message = SR_length)
      then failToolCallsFromTruncatedMessage (message_tool_calls message)
      else executeToolCalls fuel context message config (message_tool_calls message)
  end.

(** [if (config.onToolBatchCompleted) try ...] *)
Definition batch_completed (config : AgentLoopConfig E X) (results : list ToolResultMessage)
    (context : AgentContext E X) : M (AgentContext E X) :=
  match cfg_onToolBatchCompleted config with
  | None => ret context
  | Some f => fun st => let '(e, context', _) := f results context (ls_env st) in (set_env e st, Done context')
  end.

(** The assistant message of a turn: streamed, or the recorded one of a resumed
    batch. *)
Definition turn_answer (streamFunction : StreamFn E X) (context : AgentContext E X) (config : AgentLoopConfig E X)
    (resumed : option PendingToolCalls) (newMessages : list AgentMessage) :
    M (AgentContext E X * AssistantMessage * list AgentMessage) :=
  match resumed with
  | Some pending => ret (context, ptcs_assistantMessage pending, newMessages)
  | None =>
      do r <- streamAssistantResponse context config streamFunction in
      ret (r.1, r.2, newMessages ++ [assistant r.2])
  end.

(** The tool calls of a turn; [true] when the loop goes on by itself. *)
Definition turn_tools (fuel : nat) (context : AgentContext E X) (config : AgentLoopConfig E X)
    (resumed : option PendingToolCalls) (message : AssistantMessage) :
    M (AgentContext E X * list ToolResultMessage * bool) :=
  match message_tool_calls message with
  | [] => ret (context, [], false)
  | _ =>
      do b <- turn_batch fuel context config resumed message in
      let results := batch_messages b in
      let context := with_messages context (ac_messages context ++ map tool_result results) in
      do context <- batch_completed config results context in
      ret (context, results, negb (batch_terminate b))
  end.

Definition stop_with {A} (newMessages : list AgentMessage) (a : A) : M A :=
  do_ emit (AE_agent_end newMessages) in ret a.

(** The start of a turn: preparation after a completed turn, [turn_start]. *)
Definition begin_turn (v : LoopVars) : M LoopVars :=
  match v_last v with
  | None => ret v
  | Some lastTurn =>
      do update <- optional (cfg_prepareNextTurn (v_config v)) lastTurn None in
      let (context, config) := apply_update update (v_context v) (v_config v) in
      do pending <- match v_pending v with
                    | [] => take_queue (cfg_getSteeringMessages config)
                    | l => ret l
                    end in
      do_ emit AE_turn_start in
      ret {| v_context := context; v_config := config; v_last := v_last v; v_new := v_new v; v_pending := pending;
             v_steering := v_steering v; v_hasMore := v_hasMore v; v_resume := v_resume v |}
  end.

(** One iteration of the inner loop: [inl] ends the run, [inr] goes on. *)
Definition turn (fuel : nat) (streamFunction : StreamFn E X) (v : LoopVars) : M (list AgentMessage + LoopVars) :=
  do v <- begin_turn v in
  let config := v_config v in
  do injected <- inject v in
  let context := with_messages (v_context v) injected.1 in
  let newMessages := injected.2 in
  do answer <- turn_answer streamFunction context config (v_resume v) newMessages in
  let '(context, message, newMessages) := answer in
  if bool_decide (asst_stopReason message = SR_error) || bool_decide (asst_stopReason message = SR_aborted) then
    do_ emit (AE_turn_end (assistant message) []) in
    stop_with newMessages (inl newMessages)
  else
    do batch <- turn_tools fuel context config (v_resume v) message in
    let '(context, toolResults, hasMore) := batch in
    let newMessages := newMessages ++ map tool_result toolResults in
    do_ emit (AE_turn_end (assistant message) toolResults) in
    let lastTurn := {| ct_message := message; ct_toolResults := toolResults; ct_context := context;
                       ct_newMessages := newMessages |} in
    do stop <- optional (cfg_shouldStopAfterTurn config) lastTurn false in
    if (stop : bool) then stop_with newMessages (inl newMessages)
    else
      do pending <- take_queue (cfg_getSteeringMessages config) in
      ret (inr {| v_context := context; v_config := config; v_last := Some lastTurn; v_new := newMessages;
                  v_pending := pending; v_steering := true; v_hasMore := hasMore; v_resume := None |}).

Definition has_pending (v : LoopVars) : bool := match v_pending v with [] => false | _ => true end.

(** Both loops of [runLoop]; the result is [newMessages]. *)
Fixpoint loop (fuel : nat) (streamFunction : StreamFn E X) (v : LoopVars) : M (list AgentMessage) :=
  match fuel with
  | O => fun st => (st, OutOfFuel)
  | S fuel' =>
      if v_hasMore v || has_pending v then
        do r <- turn fuel' streamFunction v in
        match r with
        | inl newMessages => ret newMessages
        | inr v' => loop fuel' streamFunction v'
        end
      else
        do followUps <- take_queue (cfg_getFollowUpMessages (v_config v)) in
        match followUps with
        | [] => stop_with (v_new v) (v_new v)
        | _ =>
            loop fuel' streamFunction
              {| v_context := v_context v; v_config := v_config v; v_last := v_last v; v_new := v_new v;
                 v_pending := followUps; v_steering := false; v_hasMore := true; v_resume := v_resume v |}
        end
  end.

Definition runLoop (fuel : nat) (initialContext : AgentContext E X) (newMessages : list AgentMessage)
    (initialConfig : AgentLoopConfig E X) (streamFunction : StreamFn E X) (resume : option PendingToolCalls) :
    M (list AgentMessage) :=
  do update <- optional (cfg_prepareInitialTurn initialConfig) initialContext None in
  let (context, config) := apply_update update initialContext initialConfig in
  do pending <- match resume with Some _ => ret [] | None => take_queue (cfg_getSteeringMessages config) end in
  loop fuel streamFunction
    {| v_context := context; v_config := config; v_last := None; v_new := newMessages; v_pending := pending;
       v_steering := true; v_hasMore := true; v_resume := resume |}.

(** ** Entry points *)

Definition runAgentLoop (fuel : nat) (prompts : list AgentMessage) (context : AgentContext E X)
    (config : AgentLoopConfig E X) (streamFunction : StreamFn E X) : M (list AgentMessage) :=
  let currentContext := with_messages context (ac_messages context ++ prompts) in
  do_ emit AE_agent_start in
  do_ emit AE_turn_start in
  do_ each emit_message prompts in
  runLoop fuel currentContext prompts config streamFunction None.

(** Why a run cannot be continued or resumed. *)
Inductive RunError :=
| No_messages_in_context
| Cannot_continue_from_assistant
| No_pending_tool_calls.

Definition runAgentLoopContinue (fuel : nat) (context : AgentContext E X) (config : AgentLoopConfig E X)
    (streamFunction : StreamFn E X) : RunError + M (list AgentMessage) :=
  match last (ac_messages context) with
  | None => inl No_messages_in_context
  | Some (AM_message (M_assistant _)) => inl Cannot_continue_from_assistant
  | Some _ =>
      inr (do_ emit AE_agent_start in
           do_ emit AE_turn_start in
           runLoop fuel context [] config streamFunction None)
  end.

Definition runAgentLoopResume (fuel : nat) (context : AgentContext E X) (config : AgentLoopConfig E X)
    (streamFunction : StreamFn E X) : RunError + M (list AgentMessage) :=
  match findPendingToolCalls (ac_messages context) with
  | None => inl No_pending_tool_calls
  | Some pending =>
      inr (do_ emit AE_agent_start in
           do_ emit AE_turn_start in
           runLoop fuel context [] config streamFunction (Some pending))
  end.

(** ** A single tool call *)

Inductive ToolCallStatus := TS_success | TS_blocked | TS_validation_error | TS_error | TS_aborted.

Record AgentToolCallOutcome := {
  out_result : AgentToolResult;
  out_isError : bool;
  out_status : ToolCallStatus }.

Definition runToolCall (toolCall : ToolCall) (assistantMessage : AssistantMessage) (tools : list (AgentTool E X))
    (context : AgentContext E X) (hooks : AgentLoopConfig E X) (parentToolCallId : option jstring) :
    M AgentToolCallOutcome :=
  let emitEnd := fun result isError status =>
    do_ emit (AE_tool_execution_end (toolCall_id toolCall) (toolCall_name toolCall) result isError parentToolCallId) in
    ret {| out_result := result; out_isError := isError; out_status := status |} in
  do_ emit_start toolCall parentToolCallId in
  match List.find (fun t => bool_decide (tool_name t = toolCall_name toolCall)) tools with
  | None => emitEnd (createErrorToolResult (js "Tool " ++ toolCall_name toolCall ++ js " not found")) true
              TS_validation_error
  | Some tool =>
      match rbind (prepareToolCallArguments tool toolCall) (validateToolArguments tool) with
      | Err x => emitEnd (createErrorToolResult (error_text x)) true TS_validation_error
      | Ok args =>
          do stop <- is_aborted in
          if (stop : bool) then emitEnd aborted_result true TS_aborted
          else
            let prepared := {| ptc_toolCall := toolCall; ptc_tool := tool; ptc_args := args |} in
            let execute :=
              do executed <- executePreparedToolCall prepared parentToolCallId in
              do f <- finalizeExecutedToolCall context assistantMessage prepared executed hooks in
              do stop <- is_aborted in
              emitEnd (fin_result f) (fin_isError f)
                (if (stop : bool) then TS_aborted else if fin_isError f then TS_error else TS_success) in
            match cfg_beforeToolCall hooks with
            | None => execute
            | Some before =>
                do r <- attempt (before assistantMessage toolCall args context) in
                do stop <- is_aborted in
                match r with
                | Err x => emitEnd (createErrorToolResult (error_text x)) true
                             (if (stop : bool) then TS_aborted else TS_error)
                | Ok beforeResult =>
                    if (stop : bool) then emitEnd aborted_result true TS_aborted
                    else match beforeResult with
                         | Some b => if btc_block b then emitEnd (blocked_result b) true TS_blocked else execute
                         | None => execute
                         end
                end
            end
      end
  end.
End Loop.
