(* ===== verification/AgentLoopSpec.v ===== *)
(** * Contracts of the agent loop

    The event protocol as an automaton, the environments the loop may be given,
    and a program logic for its computations: a triple states what a
    computation does to the protocol state, to the messages announced as
    finished, and to the environment, as long as the environment and its hooks keep a
    contract. *)

From stdpp Require Import base list strings.
From Stdlib Require Import ZArith Lia.
From S2P Require Import Prelude SessionTypes Numbers SessionContext Compaction Retry Summary AgentLoop.

(** ** The event protocol *)

Inductive Phase := Ph_before | Ph_between | Ph_turn | Ph_ended (messages : list AgentMessage).

(** The phase, the message being announced, and the tool calls that run. *)
Record Protocol := {
  pr_phase : Phase;
  pr_message : option AgentMessage;
  pr_tools : list jstring }.

Definition quiet (phase : Phase) : Protocol := {| pr_phase := phase; pr_message := None; pr_tools := [] |}.
Definition running (tools : list jstring) : Protocol := {| pr_phase := Ph_turn; pr_message := None; pr_tools := tools |}.
Definition announcing (m : AgentMessage) : Protocol :=
  {| pr_phase := Ph_turn; pr_message := Some m; pr_tools := [] |}.

(** An announced message is finished as it was, except that a provider's answer
    may change until then. *)
Definition finishes_message (started ended : AgentMessage) : Prop :=
  started = ended \/ exists a b, started = assistant a /\ ended = assistant b.

(** One event of a well-formed run. *)
Inductive protocol_step : Protocol -> AgentEvent -> Protocol -> Prop :=
| ps_agent_start : protocol_step (quiet Ph_before) AE_agent_start (quiet Ph_between)
| ps_turn_start : protocol_step (quiet Ph_between) AE_turn_start (quiet Ph_turn)
| ps_message_start m : protocol_step (quiet Ph_turn) (AE_message_start m) (announcing m)
| ps_message_update a b ev :
    protocol_step (announcing (assistant a)) (AE_message_update (assistant b) ev) (announcing (assistant b))
| ps_message_end m m' :
    finishes_message m m' -> protocol_step (announcing m) (AE_message_end m') (quiet Ph_turn)
| ps_tool_start id name args tools tools' :
    tools' ≡ₚ id :: tools ->
    protocol_step (running tools) (AE_tool_execution_start id name args None) (running tools')
| ps_tool_update id name args partial tools :
    id ∈ tools -> protocol_step (running tools) (AE_tool_execution_update id name args partial None) (running tools)
| ps_tool_end id name result isError tools tools' :
    tools ≡ₚ id :: tools' ->
    protocol_step (running tools) (AE_tool_execution_end id name result isError None) (running tools')
| ps_turn_end m results : protocol_step (quiet Ph_turn) (AE_turn_end m results) (quiet Ph_between)
| ps_agent_end messages : protocol_step (quiet Ph_between) (AE_agent_end messages) (quiet (Ph_ended messages)).

(** Event sequences of the protocol. *)
Inductive protocol_run : Protocol -> list AgentEvent -> Protocol -> Prop :=
| pr_nil p : protocol_run p [] p
| pr_snoc p events q event q' :
    protocol_run p events q -> protocol_step q event q' -> protocol_run p (events ++ [event]) q'.

(** The messages announced as finished. *)
Definition ended_message (event : AgentEvent) : option AgentMessage :=
  match event with AE_message_end m => Some m | _ => None end.

Definition ended_messages (events : list AgentEvent) : list AgentMessage := omap ended_message events.

Lemma ended_messages_snoc events event :
  ended_messages (events ++ [event]) =
  ended_messages events ++ match ended_message event with Some m => [m] | None => [] end.
Proof. unfold ended_messages. rewrite omap_app. simpl. by destruct (ended_message event). Qed.

(** ** Environments *)

Section Environments.
Context {E X : Type} `{AgentEnv E} (R : E -> E -> Prop).

(** A callback moves the environment along [R] and returns values in [Q]. *)
Definition call_ok {A} (Q : A -> Prop) (f : Call E X A) : Prop :=
  forall e, R e (f e).1 /\ match (f e).2 with Ok a => Q a | Err _ => True end.

Fixpoint run_ok (r : ToolRun E X) : Prop :=
  match r with
  | TRun_return _ => True
  | TRun_update _ k => run_ok k
  | TRun_await step k => forall e, R e (step e) /\ run_ok (k (step e))
  end.

Definition tool_ok (t : AgentTool E X) : Prop :=
  forall e id args, R e (tool_execute t e id args).1 /\ run_ok (tool_execute t e id args).2.

Definition context_ok (c : AgentContext E X) : Prop := Forall tool_ok (default [] (ac_tools c)).

Definition update_ok (u : option (TurnUpdate E X)) : Prop :=
  match u ≫= tu_context with Some c => context_ok c | None => True end.

(** A stream starts its message at most once. *)
Fixpoint stream_ok (started : bool) (run : StreamRun E X) : Prop :=
  match run with
  | ST_end _ => True
  | ST_event (SE_start _) step k =>
      started = false /\ forall e, R e (step e) /\ stream_ok true (k (step e))
  | ST_event _ step k => forall e, R e (step e) /\ stream_ok started (k (step e))
  end.

Definition optional_ok {A B} (Q : B -> Prop) (f : option (A -> Call E X B)) : Prop :=
  match f with Some f => forall a, call_ok Q (f a) | None => True end.

Definition any {A} (_ : A) : Prop := True.

(** The queues are asked only while the run is not aborted. *)
Definition queue_ok (f : option (Call E X (list AgentMessage))) : Prop :=
  match f with Some f => forall e, aborted e = false -> R e (f e).1 | None => True end.

Record config_ok (config : AgentLoopConfig E X) : Prop := {
  ok_convertToLlm : forall l, call_ok any (cfg_convertToLlm config l);
  ok_transformContext : optional_ok any (cfg_transformContext config);
  ok_getApiKey : optional_ok any (cfg_getApiKey config);
  ok_shouldStopAfterTurn : optional_ok any (cfg_shouldStopAfterTurn config);
  ok_prepareNextTurn : optional_ok update_ok (cfg_prepareNextTurn config);
  ok_prepareInitialTurn : optional_ok update_ok (cfg_prepareInitialTurn config);
  ok_getSteeringMessages : queue_ok (cfg_getSteeringMessages config);
  ok_onSteeringBatch : optional_ok any (cfg_onSteeringBatch config);
  ok_getFollowUpMessages : queue_ok (cfg_getFollowUpMessages config);
  ok_beforeToolCall : match cfg_beforeToolCall config with
                      | Some f => forall a c j x, call_ok any (f a c j x)
                      | None => True
                      end;
  ok_afterToolCall : match cfg_afterToolCall config with
                     | Some f => forall a c j r b x, call_ok any (f a c j r b x)
                     | None => True
                     end;
  ok_resolveToolAvailability : match cfg_resolveToolAvailability config with
                               | Some f => forall n x, call_ok any (f n x)
                               | None => True
                               end;
  ok_onToolBatchCompleted : match cfg_onToolBatchCompleted config with
                            | Some f => forall l c e, context_ok c -> R e (f l c e).1.1 /\ context_ok (f l c e).1.2
                            | None => True
                            end }.

Definition streams_ok (streamFunction : StreamFn E X) : Prop :=
  forall request, call_ok (stream_ok false) (streamFunction request).

(** The final messages a stream can deliver. *)
Fixpoint final_of (run : StreamRun E X) (m : AssistantMessage) : Prop :=
  match run with
  | ST_end (Ok final) => final = m
  | ST_end (Err _) => False
  | ST_event (SE_done final) _ _ | ST_event (SE_error final) _ _ => final = m
  | ST_event _ _ k => exists e, final_of (k e) m
  end.

(** An answer after which the loop does not go on by itself. *)
Definition quiet_answer (m : AssistantMessage) : Prop :=
  message_tool_calls m = [] \/ asst_stopReason m = SR_error \/ asst_stopReason m = SR_aborted.

(** Costs: a non-empty queue, and an answer with tool calls, moves the
    environment along [S]. *)
Definition queue_costs (S : E -> E -> Prop) (f : option (Call E X (list AgentMessage))) : Prop :=
  match f with
  | Some f => forall e, aborted e = false -> match (f e).2 with Ok (_ :: _) => S e (f e).1 | _ => True end
  | None => True
  end.

Definition config_costs (S : E -> E -> Prop) (config : AgentLoopConfig E X) : Prop :=
  queue_costs S (cfg_getSteeringMessages config) /\ queue_costs S (cfg_getFollowUpMessages config).

Definition streams_cost (S : E -> E -> Prop) (streamFunction : StreamFn E X) : Prop :=
  forall request e, match (streamFunction request e).2 with
                    | Ok run => (forall m, final_of run m -> quiet_answer m) \/ S e (streamFunction request e).1
                    | Err _ => True
                    end.

End Environments.

(** What is promised of an environment: hooks move it along [c_hook]; over a
    run it moves along the preorder [c_run]; and it may reflect the protocol
    state and the messages announced so far. *)
Record Contract (E : Type) := {
  c_hook : E -> E -> Prop;
  c_run : E -> E -> Prop;
  c_reflects : Protocol -> list AgentMessage -> E -> Prop }.
Arguments c_hook {E} c.
Arguments c_run {E} c.
Arguments c_reflects {E} c.

(** One preorder for hooks and runs. *)
Definition plain {E} (R : E -> E -> Prop) : Contract E :=
  {| c_hook := R; c_run := R; c_reflects := fun _ _ _ => True |}.

Definition announced (event : AgentEvent) : list AgentMessage :=
  match ended_message event with Some m => [m] | None => [] end.

(** The environment's own operations keep the contract. *)
Record env_ok {E} `{AgentEnv E} (K : Contract E) : Prop := {
  ok_refl : Reflexive (c_run K);
  ok_trans : Transitive (c_run K);
  ok_hook : forall e e', c_hook K e e' -> c_run K e e';
  ok_sink : forall p event p' ms e, protocol_step p event p' -> c_reflects K p ms e ->
              c_run K e (sink e event) /\ c_reflects K p' (ms ++ announced event) (sink e event);
  ok_reflects : forall p ms e e', c_hook K e e' -> c_reflects K p ms e -> c_reflects K p ms e';
  ok_clock : forall e, c_hook K e (clock_now e).1;
  ok_pick : forall e n, c_hook K e (pick e n).1 }.

(** ** The program logic *)

Section Logic.
Context {E X : Type} `{AgentEnv E} (K : Contract E) (Henv : env_ok K).
Abbreviation R := (c_run K).
Abbreviation hook := (c_hook K).

(** The run so far follows the protocol up to [p], finished the messages [ms]
    and moved the environment from [e0]. *)
Definition at_ (e0 : E) (p : Protocol) (ms : list AgentMessage) (st : LoopState) : Prop :=
  protocol_run (quiet Ph_before) (ls_trace st) p /\ ended_messages (ls_trace st) = ms /\ R e0 (ls_env st) /\
  c_reflects K p ms (ls_env st).

(** What holds when a computation does not return. *)
Definition stopped (e0 : E) (st : LoopState (E := E)) : Prop := exists p ms, at_ e0 p ms st.

Definition triple {A} (e0 : E) (p : Protocol) (ms : list AgentMessage) (m : M (X := X) A)
    (Q : A -> Protocol -> list AgentMessage -> E -> Prop) : Prop :=
  forall st, at_ e0 p ms st ->
    match m st with
    | (st', Done a) => exists p' ms', at_ e0 p' ms' st' /\ Q a p' ms' (ls_env st')
    | (st', _) => stopped e0 st'
    end.

Lemma at_here e0 p ms st : at_ e0 p ms st -> at_ (ls_env st) p ms st.
Proof. intros (Hp & Hms & _ & HI). split; [done|]. split; [done|]. split; [apply (ok_refl K Henv)|done]. Qed.

Lemma at_since e0 st p ms st' : at_ e0 p ms st -> forall p' ms', at_ (ls_env st) p' ms' st' -> at_ e0 p' ms' st'.
Proof.
  intros (_ & _ & H0 & _) p' ms' (Hp & Hms & H1 & HI). split; [done|]. split; [done|].
  split; [by eapply (ok_trans K Henv)|done].
Qed.

Lemma triple_ret {A} e0 p ms (a : A) (Q : A -> Protocol -> list AgentMessage -> E -> Prop) :
  (forall e, R e0 e -> Q a p ms e) -> triple e0 p ms (ret a) Q.
Proof. intros HQ st Hst. exists p, ms. split; [done|]. apply HQ. apply Hst. Qed.

Lemma triple_ret_bind {A B} e0 p ms (a : A) (k : A -> M B) Q :
  triple e0 p ms (k a) Q -> triple e0 p ms (bind (ret a) k) Q.
Proof. intros Hk st Hst. by apply Hk. Qed.

Lemma triple_bind {A B} e0 p ms (m : M A) (k : A -> M B) Q Q' :
  triple e0 p ms m Q -> (forall a p' ms' e', R e0 e' -> Q a p' ms' e' -> triple e' p' ms' (k a) Q') ->
  triple e0 p ms (bind m k) Q'.
Proof.
  intros Hm Hk st Hst. specialize (Hm st Hst). unfold bind. destruct (m st) as [st' [a|x|]]; [|done|done].
  destruct Hm as (p' & ms' & Hst' & HQ).
  pose proof (Hk a p' ms' _ (proj1 (proj2 (proj2 Hst'))) HQ st' (at_here _ _ _ _ Hst')) as Hk'.
  destruct (k a st') as [st'' [b|x|]].
  - destruct Hk' as (p'' & ms'' & Hst'' & HQ'). exists p'', ms''. split; [|done]. exact (at_since _ _ _ _ _ Hst' _ _ Hst'').
  - destruct Hk' as (p'' & ms'' & Hst''). exists p'', ms''. exact (at_since _ _ _ _ _ Hst' _ _ Hst'').
  - destruct Hk' as (p'' & ms'' & Hst''). exists p'', ms''. exact (at_since _ _ _ _ _ Hst' _ _ Hst'').
Qed.

Lemma triple_weaken {A} e0 p ms (m : M A) (Q Q' : A -> Protocol -> list AgentMessage -> E -> Prop) :
  triple e0 p ms m Q -> (forall a p' ms' e, R e0 e -> Q a p' ms' e -> Q' a p' ms' e) -> triple e0 p ms m Q'.
Proof.
  intros Hm HQ st Hst. specialize (Hm st Hst). destruct (m st) as [st' [a|x|]]; [|done|done].
  destruct Hm as (p' & ms' & Hst' & Ha). exists p', ms'. split; [done|]. apply HQ; [apply Hst'|done].
Qed.

(** The same protocol state and messages after as before. *)
Definition same {A} (p : Protocol) (ms : list AgentMessage) (P : A -> Prop) (a : A) (p' : Protocol)
    (ms' : list AgentMessage) (_ : E) : Prop :=
  p' = p /\ ms' = ms /\ P a.

Lemma triple_same {A} e0 p ms p' ms' (m : M A) (P P' : A -> Prop) :
  triple e0 p ms m (same p' ms' P) -> (forall a, P a -> P' a) -> triple e0 p ms m (same p' ms' P').
Proof.
  intros Hm HP. eapply triple_weaken; [done|]. intros a ? ? ? _ (-> & -> & Ha). split; [done|]. split; [done|]. by apply HP.
Qed.

Lemma at_env e0 p ms st e : at_ e0 p ms st -> hook (ls_env st) e -> at_ e0 p ms (set_env e st).
Proof.
  intros (Hp & Hms & HR & HI) He. split; [done|]. split; [done|]. simpl.
  split; [by eapply (ok_trans K Henv), (ok_hook K Henv)|by eapply (ok_reflects K Henv)].
Qed.

Lemma triple_call {A} e0 p ms (P : A -> Prop) (f : Call E X A) :
  call_ok hook P f -> triple e0 p ms (call f) (same p ms P).
Proof.
  intros Hf st Hst. unfold call. specialize (Hf (ls_env st)). destruct (f (ls_env st)) as [e r]. destruct Hf as [HR HP].
  pose proof (at_env _ _ _ _ _ Hst HR) as Hst'. destruct r as [a|x]; [|by exists p, ms].
  by exists p, ms.
Qed.

(** What a callback did to the environment. *)
Lemma triple_call_step {A} e0 p ms (P : A -> Prop) (f : Call E X A) :
  call_ok hook P f ->
  triple e0 p ms (call f) (fun a p' ms' e => p' = p /\ ms' = ms /\ P a /\ exists e1, R e0 e1 /\ f e1 = (e, Ok a)).
Proof.
  intros Hf st Hst. unfold call. specialize (Hf (ls_env st)). destruct (f (ls_env st)) as [e r] eqn:He. destruct Hf as [HR HP].
  pose proof (at_env _ _ _ _ _ Hst HR) as Hst'. destruct r as [a|x]; [|by exists p, ms].
  exists p, ms. split; [done|]. split; [done|]. split; [done|]. split; [done|].
  exists (ls_env st). split; [apply Hst|done].
Qed.

Lemma triple_attempt {A} e0 p ms (P : A -> Prop) (f : Call E X A) :
  call_ok hook P f -> triple e0 p ms (attempt f) (same p ms (fun r => match r with Ok a => P a | Err _ => True end)).
Proof.
  intros Hf st Hst. unfold attempt. specialize (Hf (ls_env st)). destruct (f (ls_env st)) as [e r]. destruct Hf as [HR HP].
  exists p, ms. split; [by apply at_env|done].
Qed.

Lemma triple_optional {A B} e0 p ms (P : B -> Prop) (f : option (A -> Call E X B)) a b :
  optional_ok hook P f -> P b -> triple e0 p ms (optional f a b) (same p ms P).
Proof.
  intros Hf Hb. unfold optional. destruct f as [f|]; [by apply triple_call|]. by apply triple_ret.
Qed.

Lemma triple_emit e0 p ms event p' :
  protocol_step p event p' ->
  triple e0 p ms (emit (X := X) event)
    (same p' (ms ++ announced event) any).
Proof.
  intros Hstep st (Hp & Hms & HR & HI). exists p', (ms ++ announced event).
  destruct (ok_sink K Henv _ _ _ _ _ Hstep HI) as [HR' HI'].
  split; [|done]. split; [by econstructor|]. simpl. rewrite ended_messages_snoc, Hms. split; [done|].
  split; [by eapply (ok_trans K Henv)|done].
Qed.

(** Reads of the abort flag: what is known of the environment then. *)
Lemma triple_is_aborted e0 p ms :
  triple e0 p ms (is_aborted (X := X)) (fun b p' ms' e => p' = p /\ ms' = ms /\ b = aborted e).
Proof. intros st Hst. by exists p, ms. Qed.

Lemma triple_now e0 p ms : triple e0 p ms (Date_now (X := X)) (same p ms any).
Proof.
  intros st Hst. unfold Date_now. pose proof (ok_clock K Henv (ls_env st)) as Hc.
  destruct (clock_now (ls_env st)) as [e t]. exists p, ms. split; [by apply at_env|done].
Qed.

Lemma triple_pick e0 p ms n : triple e0 p ms (pick_task (X := X) n) (same p ms any).
Proof.
  intros st Hst. unfold pick_task. pose proof (ok_pick K Henv (ls_env st) n) as Hc.
  destruct (pick (ls_env st) n) as [e t]. exists p, ms. split; [by apply at_env|done].
Qed.

Lemma triple_throw {A} e0 p ms (x : X) Q : triple (A := A) e0 p ms (fun st => (st, Throw x)) Q.
Proof. intros st Hst. by exists p, ms. Qed.

Lemma triple_fuel {A} e0 p ms Q : triple (A := A) e0 p ms (fun st => (st, OutOfFuel)) Q.
Proof. intros st Hst. by exists p, ms. Qed.

(** A change of the environment by a hook. *)
Lemma triple_step {A} e0 p ms (f : E -> E) (m : E -> M A) Q :
  (forall e, hook e (f e)) -> (forall e, triple e0 p ms (m (f e)) Q) ->
  triple e0 p ms (fun st => let e := f (ls_env st) in m e (set_env e st)) Q.
Proof. intros Hf Hm st Hst. apply Hm. by apply at_env. Qed.
End Logic.
