(* ===== verification/AgentLoopRules.v ===== *)
(** * Rules for the operations of the agent loop

    A triple for every operation below the turn: message announcements, the
    preparation, execution and finalization of one tool call, sequential and
    concurrent batches, and the provider's answer.  They need an environment
    in which an abort is final. *)

From stdpp Require Import base list strings.
From Stdlib Require Import ZArith Lia.
From S2P Require Import Prelude SessionTypes Numbers SessionContext Compaction Retry Summary AgentLoop.
From S2P Require Import AgentLoopSpec.

(** [message] is the result of [call]. *)
Definition answers (call : ToolCall) (message : ToolResultMessage) : Prop :=
  tres_toolCallId message = toolCall_id call /\ tres_toolName message = toolCall_name call.

(** The results answer the calls in order; only an abort leaves calls out. *)
Definition settles `{AgentEnv E} (calls : list ToolCall) (results : list ToolResultMessage) (e : E) : Prop :=
  exists finished rest, calls = finished ++ rest /\ Forall2 answers finished results /\ (aborted e = false -> rest = []).

(** The call of a task. *)
Definition task_call {E X} (t : Task (E := E) (X := X)) : ToolCall :=
  match t with
  | TK_waiting p | TK_running p _ | TK_executed p _ => ptc_toolCall p
  | TK_finalized f | TK_ended f => fin_toolCall f
  end.

(** The tool calls that run: those of the live tasks. *)
Definition live_id {E X} (t : Task (E := E) (X := X)) : option jstring :=
  if is_live t then Some (toolCall_id (task_call t)) else None.

Definition live_ids {E X} (tasks : list (Task (E := E) (X := X))) : list jstring := omap live_id tasks.

Definition task_ok {E X} (R : E -> E -> Prop) (t : Task (E := E) (X := X)) : Prop :=
  match t with
  | TK_waiting p => tool_ok R (ptc_tool p)
  | TK_running _ r => run_ok R r
  | _ => True
  end.

(** Steps of the logic. *)
Ltac bind_same lem :=
  eapply triple_bind; [assumption | eapply lem; eauto | intros ? ? ? ? ? (-> & -> & ?)].

Tactic Notation "bind_as" uconstr(lem) simple_intropattern(x) simple_intropattern(Hx) :=
  eapply triple_bind; [assumption | eapply lem; eauto | intros x ? ? ? ? (-> & -> & Hx)].

Ltac done_same := apply triple_ret; intros; split; [reflexivity|]; split; [reflexivity|].

(** The environment moved in steps. *)
Ltac chain Henv := repeat first [eassumption | eapply (ok_trans _ Henv); [eassumption|]].

Section Lists.
Context {E X : Type}.
Implicit Types tasks : list (Task (E := E) (X := X)).

Lemma live_ids_cons t tasks :
  live_ids (t :: tasks) = match live_id t with Some i => i :: live_ids tasks | None => live_ids tasks end.
Proof. done. Qed.

Lemma live_indices_spec tasks i :
  i ∈ live_indices tasks -> exists t, tasks !! i = Some t /\ is_live t = true.
Proof.
  unfold live_indices. rewrite list_elem_of_In, filter_In. intros [_ Hl].
  destruct (tasks !! i) as [t|]; [by exists t|done].
Qed.

Lemma live_indices_nil tasks :
  live_indices tasks = [] -> Forall (fun t => is_live t = false) tasks.
Proof.
  intros Hn. apply Forall_lookup. intros i t Ht. destruct (is_live t) eqn:Hl; [|done]. exfalso.
  assert (i ∈ live_indices tasks) as Hi; [|rewrite Hn in Hi; by apply elem_of_nil in Hi].
  unfold live_indices. rewrite list_elem_of_In, filter_In, Ht. split; [|done].
  apply in_seq. apply lookup_lt_Some in Ht. lia.
Qed.

Lemma live_pick tasks n i :
  live_indices tasks <> [] ->
  i = default 0%nat (live_indices tasks !! (n mod length (live_indices tasks))%nat) ->
  exists t, tasks !! i = Some t /\ is_live t = true.
Proof.
  intros Hn ->. apply live_indices_spec. destruct (live_indices tasks) as [|j l] eqn:Hl; [done|].
  destruct (lookup_lt_is_Some_2 (j :: l) (n mod length (j :: l))) as [x Hx]; [apply Nat.mod_upper_bound; done|].
  rewrite Hx. by eapply list_elem_of_lookup_2.
Qed.

(** The live tasks around one of them. *)
Lemma live_ids_insert tasks i t :
  tasks !! i = Some t -> is_live t = true ->
  exists others, live_ids tasks ≡ₚ toolCall_id (task_call t) :: others /\
    forall t', live_ids (<[i := t']> tasks) ≡ₚ option_list (live_id t') ++ others.
Proof.
  intros Ht Hl. exists (live_ids (take i tasks) ++ live_ids (drop (S i) tasks)). split.
  - rewrite <- (take_drop_middle tasks i t Ht) at 1. unfold live_ids. rewrite omap_app. simpl.
    unfold live_id at 2. rewrite Hl. simpl. by rewrite Permutation_middle.
  - intros t'. rewrite insert_take_drop by (by eapply lookup_lt_Some). unfold live_ids. rewrite omap_app. simpl.
    destruct (live_id t'); simpl; [by rewrite Permutation_middle|done].
Qed.

Lemma task_call_insert tasks i t t' :
  tasks !! i = Some t -> task_call t' = task_call t -> map task_call (<[i := t']> tasks) = map task_call tasks.
Proof.
  intros Ht Hc. change (map task_call) with (fmap (M := list) (task_call (E := E) (X := X))).
  rewrite list_fmap_insert, Hc. apply list_insert_id. by rewrite list_lookup_fmap, Ht.
Qed.

Lemma ended_outcomes tasks :
  Forall (fun t => is_live t = false) tasks -> map fin_toolCall (omap task_outcome tasks) = map task_call tasks.
Proof. induction 1 as [|t l Ht _ IH]; [done|]. destruct t; try done. simpl. f_equal. exact IH. Qed.

Lemma ended_no_ids tasks : Forall (fun t => is_live t = false) tasks -> live_ids tasks = [].
Proof. induction 1 as [|t l Ht _ IH]; [done|]. unfold live_ids in *. simpl. unfold live_id at 1. by rewrite Ht. Qed.
End Lists.

Section Rules.
Context {E X : Type} `{AgentEnv E}.
Context (error_text : X -> jstring).
Context (validateToolArguments : AgentTool E X -> ToolCall -> Result X json).
Context (K : Contract E) (Henv : env_ok K).
Abbreviation R := (c_run K).
Abbreviation hook := (c_hook K).
Context (Habort : forall e e', R e e' -> aborted e = true -> aborted e' = true).

Lemma not_aborted e e' : R e e' -> aborted e' = false -> aborted e = false.
Proof using Habort. intros HR Ha. destruct (aborted e) eqn:He; [|done]. by rewrite (Habort _ _ HR He) in Ha. Qed.

Lemma settles_mono calls results e e' : R e e' -> settles calls results e -> settles calls results e'.
Proof using Habort.
  intros HR (finished & rest & -> & Hr & Ha). exists finished, rest. split; [done|]. split; [done|].
  intros He. apply Ha. by eapply not_aborted.
Qed.

Lemma settles_cons call calls message results e :
  answers call message -> settles calls results e -> settles (call :: calls) (message :: results) e.
Proof. intros Ha (finished & rest & -> & Hr & Hd). exists (call :: finished), rest. split; [done|]. by split; [constructor|]. Qed.

(** ** Announcements *)

Lemma emit_message_rule e0 ms m :
  triple K e0 (quiet Ph_turn) ms (emit_message (X := X) m) (same (quiet Ph_turn) (ms ++ [m]) any).
Proof using Henv.
  unfold emit_message. bind_same @triple_emit; [constructor|]. rewrite app_nil_r.
  eapply triple_emit; [done|]. constructor. by left.
Qed.

Lemma each_message_rule e0 ms l :
  triple K e0 (quiet Ph_turn) ms (each (X := X) emit_message l) (same (quiet Ph_turn) (ms ++ l) any).
Proof using Henv.
  revert e0 ms. induction l as [|m l IH]; intros e0 ms; simpl.
  - rewrite app_nil_r. by done_same.
  - bind_same emit_message_rule. specialize (IH e' (ms ++ [m])). by rewrite <- app_assoc in IH.
Qed.

Lemma emit_start_rule e0 tools ms call :
  triple K e0 (running tools) ms (emit_start (X := X) call None) (same (running (toolCall_id call :: tools)) ms any).
Proof using Henv.
  pose proof (triple_emit (X := X) K Henv e0 (running tools) ms
    (AE_tool_execution_start (toolCall_id call) (toolCall_name call) (toolCall_arguments call) None)
    (running (toolCall_id call :: tools)) (ps_tool_start _ _ _ _ _ (Permutation_refl _))) as Ht.
  simpl in Ht. by rewrite app_nil_r in Ht.
Qed.

Lemma emit_end_rule e0 tools tools' ms f :
  tools ≡ₚ toolCall_id (fin_toolCall f) :: tools' ->
  triple K e0 (running tools) ms (emitToolExecutionEnd (X := X) f) (same (running tools') ms any).
Proof using Henv.
  intros Hp. pose proof (triple_emit (X := X) K Henv e0 (running tools) ms
    (AE_tool_execution_end (toolCall_id (fin_toolCall f)) (toolCall_name (fin_toolCall f)) (fin_result f)
       (fin_isError f) None) (running tools') (ps_tool_end _ _ _ _ _ _ Hp)) as Ht.
  simpl in Ht. by rewrite app_nil_r in Ht.
Qed.

Lemma emit_update_rule e0 tools ms call partial :
  toolCall_id call ∈ tools ->
  triple K e0 (running tools) ms (emit_update (X := X) call None partial) (same (running tools) ms any).
Proof using Henv.
  intros Hin. pose proof (triple_emit (X := X) K Henv e0 (running tools) ms
    (AE_tool_execution_update (toolCall_id call) (toolCall_name call) (toolCall_arguments call) partial None)
    (running tools) (ps_tool_update _ _ _ _ _ Hin)) as Ht.
  simpl in Ht. by rewrite app_nil_r in Ht.
Qed.

(** ** One tool call *)

Lemma run_tool_rule call tools (r : ToolRun E X) : toolCall_id call ∈ tools -> run_ok hook r -> forall e0 ms,
  triple K e0 (running tools) ms (run_tool call None r) (same (running tools) ms any).
Proof using Henv.
  intros Hin. induction r as [r|partial k IH|step k IH]; intros Hok e0 ms; simpl.
  - by done_same.
  - bind_same emit_update_rule. by apply IH.
  - apply (triple_step K Henv e0 (running tools) ms step (fun e => run_tool call None (k e))).
    + intros e. apply Hok.
    + intros e. apply IH, Hok.
Qed.

Lemma drain_updates_rule call tools (r : ToolRun E X) : toolCall_id call ∈ tools -> run_ok hook r -> forall e0 ms,
  triple K e0 (running tools) ms (drain_updates call r) (same (running tools) ms (run_ok hook)).
Proof using Henv.
  intros Hin. induction r as [r|partial k IH|step k IH]; intros Hok e0 ms; simpl.
  - by done_same.
  - bind_same emit_update_rule. by apply IH.
  - by done_same.
Qed.

Lemma start_tool_rule e0 p ms (prepared : PreparedToolCall E X) :
  tool_ok hook (ptc_tool prepared) -> triple K e0 p ms (start_tool prepared) (same p ms (run_ok hook)).
Proof using Henv.
  intros Hok st Hst. unfold start_tool.
  specialize (Hok (ls_env st) (toolCall_id (ptc_toolCall prepared)) (ptc_args prepared)).
  destruct (tool_execute _ _ _ _) as [e r]. destruct Hok as [HR Hr]. exists p, ms. split; [|done].
  by apply (at_env K Henv).
Qed.

Lemma result_message_rule e0 p ms f :
  triple K e0 p ms (createToolResultMessage (X := X) f) (same p ms (answers (fin_toolCall f))).
Proof using Henv. unfold createToolResultMessage. bind_same @triple_now. by done_same. Qed.

Lemma find_tool_ok (context : AgentContext E X) name tool :
  context_ok hook context -> find_tool (ac_tools context) name = Some tool -> tool_ok hook tool.
Proof.
  unfold context_ok, find_tool. intros Hc Hf. destruct (ac_tools context) as [l|]; [|done]. simpl in Hc.
  apply List.find_some in Hf as [Hin _]. rewrite Forall_forall in Hc. apply Hc. by apply list_elem_of_In.
Qed.

Definition prepares (call : ToolCall) (p : Preparation E X) : Prop :=
  match p with PR_prepared q => ptc_toolCall q = call /\ tool_ok hook (ptc_tool q) | PR_immediate _ _ => True end.

Lemma prepare_rule e0 p ms context message call config :
  context_ok hook context -> config_ok hook config ->
  triple K e0 p ms (prepareToolCall error_text validateToolArguments context message call config)
    (same p ms (prepares call)).
Proof using Henv.
  intros Hctx Hcfg. unfold prepareToolCall. destruct (find_tool _ _) as [tool|] eqn:Hf.
  2:{ unfold resolveMissingToolResultText. pose proof (ok_resolveToolAvailability hook _ Hcfg) as Hr.
      apply triple_bind with (Q := same p ms any); [done| |intros ? ? ? ? ? (-> & -> & _); by done_same].
      destruct (cfg_resolveToolAvailability config); [|by done_same].
      bind_same @triple_attempt. by done_same. }
  destruct (rbind _ _) as [args|x]; [|by done_same].
  assert (forall e0, triple (X := X) K e0 p ms
    (bind is_aborted (fun stop => ret (if stop then PR_immediate aborted_result true
       else PR_prepared {| ptc_toolCall := call; ptc_tool := tool; ptc_args := args |})))
    (same p ms (prepares call))) as Hprep.
  { intros e1. eapply triple_bind; [done|apply triple_is_aborted|]. intros stop ? ? ? _ (-> & -> & _).
    done_same. destruct stop; [done|]. split; [done|]. by eapply find_tool_ok. }
  pose proof (ok_beforeToolCall hook _ Hcfg) as Hb. destruct (cfg_beforeToolCall config) as [before|]; [|apply Hprep].
  bind_as @triple_attempt b _. destruct b as [b|x]; [|by done_same].
  eapply triple_bind; [done|apply triple_is_aborted|]. intros [] ? ? ? _ (-> & -> & _); [by done_same|].
  destruct b as [b|]; [|apply Hprep]. destruct (btc_block b); [by done_same|apply Hprep].
Qed.

Lemma finalize_rule e0 p ms context message prepared executed config :
  config_ok hook config ->
  triple K e0 p ms (finalizeExecutedToolCall error_text context message prepared executed config)
    (same p ms (fun f => fin_toolCall f = ptc_toolCall prepared)).
Proof using Henv.
  intros Hcfg. unfold finalizeExecutedToolCall. pose proof (ok_afterToolCall hook _ Hcfg) as Ha.
  destruct (cfg_afterToolCall config) as [after|]; [|by done_same].
  bind_as @triple_attempt a _. done_same. destruct a as [[a|]|x]; [by destruct (merge_after _ _ _)|done|done].
Qed.

Lemma execute_rule e0 tools ms prepared :
  toolCall_id (ptc_toolCall prepared) ∈ tools -> tool_ok hook (ptc_tool prepared) ->
  triple K e0 (running tools) ms (executePreparedToolCall error_text prepared None) (same (running tools) ms any).
Proof using Henv.
  intros Hin Hok. unfold executePreparedToolCall. bind_same start_tool_rule. bind_same run_tool_rule. by done_same.
Qed.

Lemma run_call_rule e0 tools ms context message call config :
  context_ok hook context -> config_ok hook config -> toolCall_id call ∈ tools ->
  triple K e0 (running tools) ms (run_call error_text validateToolArguments context message call config)
    (same (running tools) ms (fun f => fin_toolCall f = call)).
Proof using Henv.
  intros Hctx Hcfg Hin. unfold run_call. bind_as prepare_rule q Hq. destruct q as [q|result isError]; [|by done_same].
  destruct Hq as [Hq Hok].
  eapply triple_bind; [done|apply execute_rule; [by rewrite Hq|done]|]. intros ? ? ? ? _ (-> & -> & _).
  eapply triple_same; [by apply finalize_rule|]. simpl. by intros f ->.
Qed.

(** ** Sequential batches *)

Lemma announce_result_rule e0 ms m :
  triple K e0 (running []) ms (emitToolResultMessage (X := X) m) (same (running []) (ms ++ [tool_result m]) any).
Proof using Henv. apply emit_message_rule. Qed.

(** What a batch of [calls] does. *)
Definition batch_done {A} (ms : list AgentMessage) (calls : list ToolCall) (results : A -> list ToolResultMessage)
    (a : A) (p' : Protocol) (ms' : list AgentMessage) (e : E) : Prop :=
  p' = running [] /\ ms' = ms ++ map tool_result (results a) /\ settles calls (results a) e.

Lemma sequential_rule context message config calls :
  context_ok hook context -> config_ok hook config -> forall e0 ms finalized messages,
  triple K e0 (running []) ms
    (sequential_loop error_text validateToolArguments context message config calls finalized messages)
    (fun r p' ms' e => exists new, r.2 = messages ++ new /\ batch_done ms calls id new p' ms' e).
Proof using Henv Habort.
  intros Hctx Hcfg. induction calls as [|call calls IH]; intros e0 ms finalized messages; simpl.
  { apply triple_ret. intros e _. exists []. split; [by rewrite app_nil_r|]. split; [done|].
    split; [simpl; by rewrite app_nil_r|]. exists [], []. split; [done|]. by split; [constructor|]. }
  bind_same emit_start_rule. bind_as run_call_rule f <-; [by left|].
  eapply triple_bind; [done|by apply (emit_end_rule _ _ [])|]. intros _ ? ? ? _ (-> & -> & _).
  bind_as result_message_rule m Hans. bind_same announce_result_rule.
  eapply triple_bind; [done|apply triple_is_aborted|]. intros stop ? ? ? _ (-> & -> & ->).
  match goal with |- context [if ?b then _ else _] => destruct b eqn:Hstop end.
  - apply triple_ret. intros e HR. exists [m]. split; [done|]. split; [done|]. split; [done|].
    exists [fin_toolCall f], calls. split; [done|]. split; [constructor; [done|constructor]|].
    intros He. rewrite (Habort _ _ HR Hstop) in He. done.
  - eapply triple_weaken; [apply IH|]. intros r ? ? e _ (new & Hr & -> & -> & Hset).
    exists (m :: new). split; [by rewrite Hr, <- app_assoc|]. split; [done|].
    split; [by rewrite <- app_assoc|]. by apply settles_cons.
Qed.

Lemma executeSequential_rule e0 ms context message config calls :
  context_ok hook context -> config_ok hook config ->
  triple K e0 (running []) ms
    (executeToolCallsSequential error_text validateToolArguments context message calls config)
    (batch_done ms calls batch_messages).
Proof using Henv Habort.
  intros Hctx Hcfg. unfold executeToolCallsSequential.
  eapply triple_bind; [done|by apply sequential_rule|]. intros r ? ? e _ (new & Hr & -> & -> & Hset).
  apply triple_ret. intros e' HR. unfold batch_done. simpl. rewrite Hr. split; [done|]. split; [done|].
  by eapply settles_mono.
Qed.

(** ** Concurrent batches *)

(** The tasks of the calls that were started. *)
Definition started (calls : list ToolCall) (tasks : list (Task (E := E) (X := X))) (e : E) : Prop :=
  exists finished rest, calls = finished ++ rest /\ map task_call tasks = finished /\ (aborted e = false -> rest = []).

(** The running tool calls are those of the live tasks. *)
Definition runs (p : Protocol) (tasks : list (Task (E := E) (X := X))) : Prop :=
  exists tools, p = running tools /\ tools ≡ₚ live_ids tasks.

Lemma runs_snoc_live p tasks t tools :
  p = running (toolCall_id (task_call t) :: tools) -> tools ≡ₚ live_ids tasks -> is_live t = true ->
  runs p (tasks ++ [t]).
Proof.
  intros -> Ht Hl. eexists. split; [done|]. unfold live_ids. rewrite omap_app. simpl. unfold live_id at 2.
  rewrite Hl, Ht. simpl. apply Permutation_cons_append.
Qed.

Lemma runs_snoc_ended p tasks t : runs p tasks -> is_live t = false -> runs p (tasks ++ [t]).
Proof.
  intros (tools & -> & Ht) Hl. exists tools. split; [done|]. unfold live_ids. rewrite omap_app. simpl.
  unfold live_id at 2. by rewrite Hl, app_nil_r.
Qed.

Lemma parallel_prepare_rule context message config calls :
  context_ok hook context -> config_ok hook config -> forall e0 p ms tasks,
  runs p tasks -> Forall (task_ok hook) tasks ->
  triple K e0 p ms (parallel_prepare error_text validateToolArguments context message config calls tasks)
    (fun tasks' p' ms' e => runs p' tasks' /\ ms' = ms /\ Forall (task_ok hook) tasks' /\
       exists new, tasks' = tasks ++ new /\ started calls new e).
Proof using Henv Habort.
  intros Hctx Hcfg. induction calls as [|call calls IH]; intros e0 p ms tasks Hruns Hok; simpl.
  { apply triple_ret. intros e _. split; [done|]. split; [done|]. split; [done|]. exists [].
    rewrite app_nil_r. split; [done|]. by exists [], []. }
  destruct Hruns as (tools & -> & Htools). bind_same emit_start_rule. bind_as prepare_rule q Hprep.
  apply triple_bind with (Q := fun t p' ms' _ => task_call t = call /\ task_ok hook t /\ runs p' (tasks ++ [t]) /\ ms' = ms);
    [done| |].
  { destruct q as [q|result isError].
    - destruct Hprep as [Hq Htool]. apply triple_ret. intros e1 _. split; [done|]. split; [done|]. split; [|done].
      by eapply runs_snoc_live; [by rewrite <- Hq| |].
    - eapply triple_bind; [done|by apply (emit_end_rule _ _ tools)|]. intros ? ? ? ? _ (-> & -> & _).
      apply triple_ret. intros e1 _. split; [done|]. split; [done|]. split; [|done].
      apply runs_snoc_ended; [|done]. by exists tools. }
  intros t p' ms' e2 _ (Ht & Htok & Hruns & ->).
  eapply triple_bind; [done|apply triple_is_aborted|]. intros stop ? ? e3 _ (-> & -> & ->).
  assert (Forall (task_ok hook) (tasks ++ [t])) as Hok' by (apply Forall_app; by repeat constructor).
  destruct (aborted e3) eqn:Hstop.
  - apply triple_ret. intros e HR. split; [done|]. split; [done|]. split; [done|]. exists [t]. split; [done|].
    exists [call], calls. split; [done|]. split; [simpl; by rewrite Ht|].
    intros He. by rewrite (Habort _ _ HR Hstop) in He.
  - eapply triple_weaken; [by apply IH|]. intros tasks' p2 ms2 e HR (Hr & -> & Hok2 & new & -> & Hs).
    split; [done|]. split; [done|]. split; [done|]. exists (t :: new). split; [by rewrite <- app_assoc|].
    destruct Hs as (finished & rest & -> & Hm & Hd). exists (call :: finished), rest. split; [done|].
    split; [simpl; by rewrite Ht, Hm|done].
Qed.

Lemma start_tasks_rule (tasks : list (Task (E := E) (X := X))) tools : Forall (task_ok hook) tasks -> (forall i, i ∈ live_ids tasks -> i ∈ tools) ->
  forall e0 ms, triple K e0 (running tools) ms (start_tasks tasks)
    (same (running tools) ms (fun tasks' => map task_call tasks' = map task_call tasks /\
                                            live_ids tasks' = live_ids tasks /\ Forall (task_ok hook) tasks')).
Proof using Henv.
  intros Hok. induction Hok as [|t tasks Ht Hok IH]; intros Hin e0 ms; simpl; [by done_same|].
  assert (forall i, i ∈ live_ids tasks -> i ∈ tools) as Hin'.
  { intros i Hi. apply Hin. unfold live_ids. simpl. destruct (live_id t); [by right|done]. }
  apply triple_bind with (Q := same (running tools) ms (fun t' =>
    task_call t' = task_call t /\ live_id t' = live_id t /\ task_ok hook t')); [done| |].
  - destruct t as [q| | | |]; try by done_same. simpl in Ht.
    assert (toolCall_id (ptc_toolCall q) ∈ tools) as Hq by (apply Hin; unfold live_ids; simpl; by left).
    bind_same start_tool_rule. bind_same drain_updates_rule. by done_same.
  - intros t' ? ? ? _ (-> & -> & Hc & Hl & Hk). bind_as (IH Hin') tasks' (Hcs & Hls & Hks).
    done_same. split; [simpl; by rewrite Hc, Hcs|]. split; [|by constructor].
    by rewrite !live_ids_cons, Hl, Hls.
Qed.

(** A live task moves; its call ends with it. *)
Lemma step_task_rule e0 ms context message config t tools others :
  config_ok hook config -> task_ok hook t -> is_live t = true -> tools ≡ₚ toolCall_id (task_call t) :: others ->
  triple K e0 (running tools) ms (step_task error_text context message config t)
    (fun t' p' ms' _ => task_call t' = task_call t /\ task_ok hook t' /\ ms' = ms /\
       p' = running (if is_live t' then tools else others)).
Proof using Henv.
  intros Hcfg Hok Hl Ht.
  assert (toolCall_id (task_call t) ∈ tools) as Hin by (rewrite Ht; by left).
  destruct t as [p|p r|p o|f|f]; simpl in *; [by apply triple_ret| | | |done].
  - destruct r as [r|partial k|step k]; [by apply triple_ret| |].
    + bind_same emit_update_rule. by apply triple_ret.
    + apply (triple_step K Henv e0 (running tools) ms step (fun e =>
        bind (drain_updates (ptc_toolCall p) (k e)) (fun r => ret (TK_running p r)))); [apply Hok|].
      intros e. bind_as drain_updates_rule r Hr; [apply Hok|]. by apply triple_ret.
  - bind_as finalize_rule f Hf. by apply triple_ret.
  - bind_same emit_end_rule. by apply triple_ret.
Qed.

Lemma run_tasks_rule context message config fuel :
  config_ok hook config -> forall tasks e0 p ms, runs p tasks -> Forall (task_ok hook) tasks ->
  triple K e0 p ms (run_tasks error_text fuel context message config tasks)
    (same (running []) ms (fun fs => map fin_toolCall fs = map task_call tasks)).
Proof using Henv.
  intros Hcfg. induction fuel as [|fuel IH]; intros tasks e0 p ms Hruns Hok; cbn [run_tasks];
    destruct (live_indices tasks) as [|j l] eqn:Hlive.
  1, 3: pose proof (live_indices_nil tasks Hlive) as Hend; destruct Hruns as (tools & -> & Ht);
    rewrite (ended_no_ids _ Hend) in Ht; apply Permutation_nil_r in Ht; subst tools;
    done_same; by apply ended_outcomes.
  - apply triple_fuel.
  - bind_as @triple_pick n _.
    destruct (live_pick tasks n _ ltac:(by rewrite Hlive) eq_refl) as (t & Hlook & Hl). rewrite Hlive in Hlook.
    rewrite Hlook. set (i := default 0%nat _) in *.
    destruct (live_ids_insert tasks i t Hlook Hl) as (others & Hids & Hins).
    destruct Hruns as (tools & -> & Ht). rewrite Hids in Ht.
    eapply triple_bind; [done|eapply step_task_rule; [done| |done|done]; by eapply Forall_lookup_1|].
    intros t' ? ? e2 _ (Hc & Htok & -> & ->).
    eapply triple_same; [apply IH|].
    + eexists. split; [done|]. rewrite Hins. unfold live_id. rewrite Hc. by destruct (is_live t').
    + by apply Forall_insert.
    + intros fs ->. by eapply task_call_insert.
Qed.

Lemma result_messages_rule fs : forall e0 ms,
  triple K e0 (running []) ms (result_messages (X := X) fs)
    (fun results p' ms' _ => p' = running [] /\ ms' = ms ++ map tool_result results /\
       Forall2 answers (map fin_toolCall fs) results).
Proof using Henv.
  induction fs as [|f fs IH]; intros e0 ms; simpl.
  { apply triple_ret. intros e _. by rewrite app_nil_r. }
  bind_as result_message_rule m Hm. bind_same announce_result_rule.
  eapply triple_bind; [done|apply IH|]. intros results ? ? ? _ (-> & -> & Hrs).
  apply triple_ret. intros e _. split; [done|]. split; [by rewrite <- app_assoc|]. by constructor.
Qed.

Lemma executeParallel_rule e0 ms fuel context message config calls :
  context_ok hook context -> config_ok hook config ->
  triple K e0 (running []) ms
    (executeToolCallsParallel error_text validateToolArguments fuel context message calls config)
    (batch_done ms calls batch_messages).
Proof using Henv Habort.
  intros Hctx Hcfg. unfold executeToolCallsParallel.
  eapply triple_bind; [done|apply parallel_prepare_rule; [done|done|by exists []|done]|].
  intros tasks ? ? e1 _ (Hruns & -> & Hok & new & -> & Hst). simpl in *. destruct Hruns as (tools & -> & Ht).
  bind_as start_tasks_rule tasks' (Hc & Hids & Hok'); [intros i Hi; by rewrite Ht|].
  eapply triple_bind; [done|apply run_tasks_rule; [done|exists tools; by rewrite Hids|done]|].
  intros fs ? ? ? ? (-> & -> & Hfs). eapply triple_bind; [done|apply result_messages_rule|].
  intros results ? ? ? ? (-> & -> & Hres). apply triple_ret. intros e HR. split; [done|]. split; [done|].
  apply (settles_mono _ _ e1); [chain Henv|].
  destruct Hst as (finished & rest & -> & Hm & Hd). exists finished, rest. split; [done|]. split; [|done].
  by rewrite <- Hm, <- Hc, <- Hfs.
Qed.

Lemma executeToolCalls_rule e0 ms fuel context message config calls :
  context_ok hook context -> config_ok hook config ->
  triple K e0 (running []) ms
    (executeToolCalls error_text validateToolArguments fuel context message config calls)
    (batch_done ms calls batch_messages).
Proof using Henv Habort.
  intros Hctx Hcfg. unfold executeToolCalls.
  destruct (_ || _); [by apply executeSequential_rule|by apply executeParallel_rule].
Qed.

(** ** Calls answered without being executed *)

Lemma fail_calls_rule text calls : forall e0 ms,
  triple K e0 (running []) ms (fail_calls (X := X) text calls)
    (fun results p' ms' _ => p' = running [] /\ ms' = ms ++ map tool_result results /\ Forall2 answers calls results).
Proof using Henv.
  induction calls as [|call calls IH]; intros e0 ms; simpl.
  { apply triple_ret. intros e _. by rewrite app_nil_r. }
  bind_same emit_start_rule. eapply triple_bind; [done|by apply (emit_end_rule _ _ [])|]. intros _ ? ? ? _ (-> & -> & _).
  bind_as result_message_rule m Hm. bind_same announce_result_rule.
  eapply triple_bind; [done|apply IH|]. intros results ? ? ? _ (-> & -> & Hrs).
  apply triple_ret. intros e _. split; [done|]. split; [by rewrite <- app_assoc|]. by constructor.
Qed.

Lemma settles_all calls results e : Forall2 answers calls results -> settles calls results e.
Proof. intros Hr. exists calls, []. by rewrite app_nil_r. Qed.

Lemma truncated_rule e0 ms calls :
  triple K e0 (running []) ms (failToolCallsFromTruncatedMessage (X := X) calls) (batch_done ms calls batch_messages).
Proof using Henv.
  unfold failToolCallsFromTruncatedMessage. eapply triple_bind; [done|apply fail_calls_rule|].
  intros results ? ? ? _ (-> & -> & Hrs). apply triple_ret. intros e _. split; [done|]. split; [done|].
  by apply settles_all.
Qed.

(** The order in which pending calls are settled. *)
Definition pending_order (context : AgentContext E X) (calls : list ToolCall) : list ToolCall :=
  List.filter (fun c => negb (isReplayable context c)) calls ++ List.filter (isReplayable context) calls.

Lemma pending_rule e0 ms fuel context pending config :
  context_ok hook context -> config_ok hook config ->
  triple K e0 (running []) ms (executePendingToolCalls error_text validateToolArguments fuel context pending config)
    (batch_done ms (pending_order context (ptcs_toolCalls pending)) batch_messages).
Proof using Henv Habort.
  intros Hctx Hcfg. unfold executePendingToolCalls, pending_order.
  eapply triple_bind; [done|apply fail_calls_rule|]. intros results ? ? ? _ (-> & -> & Hrs).
  destruct (List.filter (isReplayable context) (ptcs_toolCalls pending)) as [|c l].
  - apply triple_ret. intros e _. split; [done|]. split; [done|]. rewrite app_nil_r. by apply settles_all.
  - eapply triple_bind; [done|by apply executeToolCalls_rule|]. intros b ? ? e1 _ (-> & -> & Hset).
    apply triple_ret. intros e HR. split; [done|]. simpl. split; [by rewrite map_app, app_assoc|].
    eapply settles_mono; [exact HR|]. destruct Hset as (finished & rest & -> & Hf & Hd).
    exists (List.filter (fun c => negb (isReplayable context c)) (ptcs_toolCalls pending) ++ finished), rest.
    split; [by rewrite app_assoc|]. split; [by apply Forall2_app|done].
Qed.

(** ** The provider's answer *)

(** The protocol state and the transcript while an answer arrives. *)
Definition arriving (added : bool) (base messages : list AgentMessage) (p : Protocol) : Prop :=
  if added
  then exists a b, messages = base ++ [assistant a] /\ p = announcing (assistant b)
  else messages = base /\ p = quiet Ph_turn.

(** The answer was announced and ends the transcript. *)
Definition answered (P : AssistantMessage -> Prop) (ms base : list AgentMessage) (r : list AgentMessage * AssistantMessage) (p' : Protocol)
    (ms' : list AgentMessage) (_ : E) : Prop :=
  p' = quiet Ph_turn /\ ms' = ms ++ [assistant r.2] /\ r.1 = base ++ [assistant r.2] /\ P r.2.

(** Text may be left out of the final message. *)
Definition keeps_calls (m m' : AssistantMessage) : Prop :=
  message_tool_calls m' = message_tool_calls m /\ asst_stopReason m' = asst_stopReason m.

Lemma only_tool_calls_keeps m : keeps_calls m (only_tool_calls m).
Proof.
  split; [|done]. unfold message_tool_calls, only_tool_calls. simpl.
  induction (asst_content m) as [|b l IH]; [done|]. destruct b; simpl; [done|done|]. f_equal. exact IH.
Qed.

Lemma quiet_answer_keeps m m' : keeps_calls m m' -> quiet_answer m -> quiet_answer m'.
Proof. unfold keeps_calls, quiet_answer. intros [-> ->]. done. Qed.

Lemma set_last_snoc base a m : set_last m (base ++ [a]) = base ++ [m].
Proof. unfold set_last. rewrite length_app. simpl. replace (length base + 1 - 1)%nat with (length base) by lia. by rewrite take_app_length. Qed.

Definition final_message (m m' : AssistantMessage) : Prop := m' = m \/ m' = only_tool_calls m.

Lemma final_message_quiet m m' : final_message m m' -> quiet_answer m -> quiet_answer m'.
Proof. intros [->| ->]; [done|]. apply quiet_answer_keeps, only_tool_calls_keeps. Qed.

Lemma finish_stream_rule e0 p ms base config messages added final :
  arriving added base messages p ->
  triple K e0 p ms (finish_stream (E := E) (X := X) config messages added final)
    (answered (final_message final) ms base).
Proof using Henv.
  unfold finish_stream.
  assert (final_message final (if cfg_suppressAssistantText config then only_tool_calls final else final)) as Hm
    by (destruct (cfg_suppressAssistantText config); [by right|by left]).
  revert Hm. generalize (if cfg_suppressAssistantText config then only_tool_calls final else final).
  intros m Hm Harr. destruct added; simpl in Harr.
  - destruct Harr as (a & b & -> & ->). apply triple_ret_bind.
    bind_same @triple_emit; [constructor; right; eauto|]. apply triple_ret. intros e _.
    split; [done|]. split; [done|]. split; [apply set_last_snoc|done].
  - destruct Harr as [-> ->]. bind_same @triple_emit; [constructor|]. rewrite app_nil_r.
    bind_same @triple_emit; [constructor; by left|]. by apply triple_ret.
Qed.

(** The final message of a run of the stream. *)
Definition delivered (run : StreamRun E X) (m' : AssistantMessage) : Prop :=
  exists m, final_of run m /\ final_message m m'.

Lemma delivered_next event step k e m' :
  content_event event <> None \/ (exists partial, event = SE_start partial) ->
  delivered (k e) m' -> delivered (ST_event event step k) m'.
Proof.
  intros Hc (m & Hf & Hm). exists m. split; [|done].
  destruct event; simpl in *; eauto; destruct Hc as [Hc|[partial Hc]]; done.
Qed.

Lemma answered_next e0 p ms base (m : M (X := X) _) event step k e :
  content_event event <> None \/ (exists partial, event = SE_start partial) ->
  triple K e0 p ms m (answered (delivered (k e)) ms base) ->
  triple K e0 p ms m (answered (delivered (ST_event event step k)) ms base).
Proof.
  intros Hc Hm. eapply triple_weaken; [done|]. intros r ? ? ? _ (-> & -> & Hr & Hd). split; [done|]. split; [done|].
  split; [done|]. by eapply delivered_next.
Qed.

Lemma stream_next_rule {A} e0 p ms step (k : E -> StreamRun E X) (m : StreamRun E X -> M A) Q :
  (forall e, hook e (step e)) -> (forall e, triple K e0 p ms (m (k (step e))) Q) ->
  triple (X := X) K e0 p ms (fun st => let e := step (ls_env st) in m (k e) (set_env e st)) Q.
Proof using Henv. intros Hs Hk. apply (triple_step K Henv e0 p ms step (fun e => m (k e))); [done|apply Hk]. Qed.

Lemma stream_loop_rule (config : AgentLoopConfig E X) base (run : StreamRun E X) : forall added messages e0 p ms,
  stream_ok hook added run -> arriving added base messages p ->
  triple K e0 p ms (stream_loop config messages added run) (answered (delivered run) ms base).
Proof using Henv.
  induction run as [event step k IH|r]; intros added messages e0 p ms Hok Harr.
  2:{ destruct r as [m|x]; simpl; [|apply triple_throw]. eapply triple_weaken; [by apply finish_stream_rule|].
      intros r' ? ? ? _ (-> & -> & Hr & Hm). split; [done|]. split; [done|]. split; [done|]. by exists m. }
  assert (forall partial isToolCall, content_event event = Some (partial, isToolCall) ->
    triple K e0 p ms (stream_loop config messages added (ST_event event step k))
      (answered (delivered (ST_event event step k)) ms base)) as Hcontent.
  { intros partial isToolCall Hc.
    assert (content_event event <> None \/ exists partial, event = SE_start partial) as Hev by (left; by rewrite Hc).
    assert (forall e, hook e (step e) /\ stream_ok hook added (k (step e))) as Hk by (destruct event; try discriminate; exact Hok).
    assert (stream_loop config messages added (ST_event event step k) =
      if added then
        bind (if cfg_suppressAssistantText config && negb isToolCall then ret tt
              else emit (AE_message_update (assistant partial) event))
          (fun _ st => let e := step (ls_env st) in
             stream_loop config (set_last (assistant partial) messages) true (k e) (set_env e st))
      else fun st => let e := step (ls_env st) in stream_loop config messages false (k e) (set_env e st)) as ->
      by (destruct event; try discriminate; injection Hc as -> <-; done).
    destruct added; simpl in Harr.
    - destruct Harr as (a & b & -> & ->).
      apply triple_bind with (Q := fun _ p' ms' _ => (exists c, p' = announcing (assistant c)) /\ ms' = ms); [done| |].
      + destruct (_ && _); [apply triple_ret; eauto|].
        eapply triple_weaken; [eapply triple_emit; [done|constructor]|]. intros ? ? ? ? _ (-> & -> & _).
        rewrite app_nil_r. eauto.
      + intros _ ? ? e1 _ ([c ->] & ->). apply (stream_next_rule e1 _ ms step k (stream_loop config _ true)).
        * apply Hk.
        * intros e. eapply answered_next; [done|]. apply IH; [apply Hk|]. exists partial, c. by rewrite set_last_snoc.
    - apply (stream_next_rule e0 _ ms step k (stream_loop config messages false)); [apply Hk|].
      intros e. eapply answered_next; [done|]. apply IH; [apply Hk|done]. }
  destruct event; try (by eapply Hcontent); clear Hcontent; simpl.
  - destruct Hok as [-> Hk]. destruct Harr as [-> ->]. bind_same @triple_emit; [constructor|]. rewrite app_nil_r.
    apply (stream_next_rule _ _ ms step k (stream_loop config _ true)); [apply Hk|].
    intros e. eapply answered_next; [eauto|]. apply IH; [apply Hk|]. simpl. eauto.
  - eapply triple_weaken; [by apply finish_stream_rule|]. intros r ? ? ? _ (-> & -> & Hr & Hm). by repeat (split || eexists).
  - eapply triple_weaken; [by apply finish_stream_rule|]. intros r ? ? ? _ (-> & -> & Hr & Hm). by repeat (split || eexists).
Qed.

Lemma streamAssistantResponse_rule e0 ms context (config : AgentLoopConfig E X) streamFunction :
  config_ok hook config -> streams_ok hook streamFunction ->
  triple K e0 (quiet Ph_turn) ms (streamAssistantResponse context config streamFunction)
    (fun r p' ms' e => p' = quiet Ph_turn /\ ms' = ms ++ [assistant r.2] /\
       r.1 = with_messages context (ac_messages context ++ [assistant r.2]) /\
       exists request e1 e2 run, R e0 e1 /\ streamFunction request e1 = (e2, Ok run) /\ R e2 e /\ delivered run r.2).
Proof using Henv.
  intros Hcfg Hs. unfold streamAssistantResponse.
  bind_same @triple_optional; [by apply ok_transformContext|done|].
  bind_same @triple_call; [by apply ok_convertToLlm|].
  bind_same @triple_optional; [by apply ok_getApiKey|done|].
  eapply triple_bind; [done|apply triple_call_step; [done|apply Hs]|].
  intros run ? ? e4 _ (-> & -> & Hrun & e5 & He5 & Hcall).
  eapply triple_bind; [done|by eapply stream_loop_rule|]. intros r ? ? e6 ? (-> & -> & Hr & Hd).
  apply triple_ret. intros e HR. simpl. rewrite Hr. split; [done|]. split; [done|]. split; [done|].
  do 4 eexists. split; [|split; [exact Hcall|split; [chain Henv|done]]]. chain Henv.
Qed.
End Rules.
