(* ===== verification/AgentLoopTurns.v ===== *)
(** * Turns of the agent loop

    What [findPendingToolCalls] finds, the rules for one turn and for the whole
    loop, and the entry points: where a run is in the event protocol, which
    messages it announced, and which results follow its answers. *)

From stdpp Require Import base list strings.
From Stdlib Require Import ZArith Lia.
From S2P Require Import Prelude SessionTypes Numbers SessionContext Compaction CompactionProperties Retry Summary.
From S2P Require Import AgentLoop AgentLoopSpec AgentLoopRules.

(** ** Pending tool calls *)

(** Messages that do not settle a batch: no user or assistant message. *)
Definition follows_batch (m : AgentMessage) : Prop := role_of m <> R_user /\ role_of m <> R_assistant.

(** The calls answered by tool results of [messages]. *)
Definition result_id (m : AgentMessage) : option jstring :=
  match m with AM_message (M_toolResult r) => Some (tres_toolCallId r) | _ => None end.

Definition result_ids (messages : list AgentMessage) : list jstring := omap result_id messages.

Lemma pending_walk_tail post : Forall follows_batch post -> forall rest found,
  exists found', pending_walk (reverse post ++ rest) found = pending_walk rest found' /\
    forall i, i ∈ found' <-> i ∈ result_ids post \/ i ∈ found.
Proof.
  intros Hp. induction Hp as [|m post Hm Hp IH]; intros rest found.
  { exists found. split; [done|]. intros i. rewrite elem_of_nil. tauto. }
  rewrite reverse_cons, <- app_assoc. destruct (IH ([m] ++ rest) found) as (found1 & -> & Hf).
  unfold result_ids in *. simpl. destruct Hm as [Hu Ha].
  destruct m as [[s|u|a|r]|b|c|b|c]; try done; simpl.
  2:{ eexists. split; [done|]. intros i. rewrite elem_of_set_add, elem_of_cons, Hf. tauto. }
  all: exists found1; split; [done|apply Hf].
Qed.

(** Calls of [a] without a result in [post]. *)
Definition unanswered (a : AssistantMessage) (post : list AgentMessage) : list ToolCall :=
  List.filter (fun c => negb (bool_decide (toolCall_id c ∈ result_ids post))) (message_tool_calls a).

Definition pending_of (a : AssistantMessage) (calls : list ToolCall) : option PendingToolCalls :=
  match calls with [] => None | _ => Some {| ptcs_assistantMessage := a; ptcs_toolCalls := calls |} end.

(** What is pending after an assistant message and what follows its batch. *)
Lemma findPending_after pre a post :
  Forall follows_batch post ->
  findPendingToolCalls (pre ++ assistant a :: post) =
  if bool_decide (asst_stopReason a = SR_toolUse) then pending_of a (unanswered a post) else None.
Proof.
  intros Hp. unfold findPendingToolCalls. rewrite reverse_app, reverse_cons, <- app_assoc.
  destruct (pending_walk_tail post Hp ([assistant a] ++ reverse pre) []) as (found & -> & Hf). simpl.
  case_bool_decide as Hs; [|done].
  assert (List.filter (fun c => negb (bool_decide (toolCall_id c ∈ found))) (message_tool_calls a) = unanswered a post) as ->;
    [|by destruct (unanswered a post)].
  apply filter_ext. intros c. f_equal. apply bool_decide_ext. rewrite Hf, elem_of_nil. tauto.
Qed.

Lemma findPending_none_tail post : Forall follows_batch post -> findPendingToolCalls post = None.
Proof.
  intros Hp. unfold findPendingToolCalls. destruct (pending_walk_tail post Hp [] []) as (found & Hw & _).
  rewrite app_nil_r in Hw. by rewrite Hw.
Qed.

Lemma findPending_user pre u post :
  Forall follows_batch post -> findPendingToolCalls (pre ++ AM_message (M_user u) :: post) = None.
Proof.
  intros Hp. unfold findPendingToolCalls. rewrite reverse_app, reverse_cons, <- app_assoc.
  by destruct (pending_walk_tail post Hp ([AM_message (M_user u)] ++ reverse pre) []) as (found & -> & _).
Qed.

(** A transcript ends with messages that follow a batch, after the last user or
    assistant message when there is one. *)
Lemma last_batch messages :
  Forall follows_batch messages \/
  (exists pre u post, messages = pre ++ AM_message (M_user u) :: post /\ Forall follows_batch post) \/
  (exists pre a post, messages = pre ++ assistant a :: post /\ Forall follows_batch post).
Proof.
  induction messages as [|m messages IH]; [by left|].
  destruct IH as [IH|[(pre & u & post & -> & Hp)|(pre & a & post & -> & Hp)]].
  - assert (follows_batch m \/ (exists u, m = AM_message (M_user u)) \/ exists a, m = assistant a) as [Hm|[[u ->]|[a ->]]].
    { destruct m as [[s|u|a|r]|b|c|b|c]; eauto; left; by split. }
    + left. by constructor.
    + right. left. by exists [], u, messages.
    + right. right. by exists [], a, messages.
  - right. left. by exists (m :: pre), u, post.
  - right. right. by exists (m :: pre), a, post.
Qed.

Lemma pending_of_some a calls p :
  pending_of a calls = Some p -> calls <> [] /\ p = {| ptcs_assistantMessage := a; ptcs_toolCalls := calls |}.
Proof. destruct calls; [done|]. by intros [= <-]. Qed.

Lemma findPending_some messages p :
  findPendingToolCalls messages = Some p ->
  exists pre post, messages = pre ++ assistant (ptcs_assistantMessage p) :: post /\ Forall follows_batch post /\
    asst_stopReason (ptcs_assistantMessage p) = SR_toolUse /\
    ptcs_toolCalls p = unanswered (ptcs_assistantMessage p) post /\ ptcs_toolCalls p <> [].
Proof.
  intros Hf. destruct (last_batch messages) as [Hl|[(pre & u & post & -> & Hp)|(pre & a & post & -> & Hp)]].
  - by rewrite findPending_none_tail in Hf.
  - by rewrite findPending_user in Hf.
  - rewrite (findPending_after _ _ _ Hp) in Hf. case_bool_decide as Hs; [|done].
    apply pending_of_some in Hf as [Hn ->]. by exists pre, post.
Qed.

(** What a run adds to the transcript unless it is aborted, first the results of the
    calls it resumes: turns, each with the messages that were queued, an answer and
    one result for each of its calls in their order.  An answer that failed is the
    last message, and its calls have no results. *)
Inductive run_adds : option (list ToolCall) -> list AgentMessage -> Prop :=
| ra_stop : run_adds None []
| ra_failed queued a : asst_stopReason a = SR_error \/ asst_stopReason a = SR_aborted -> run_adds None (queued ++ [assistant a])
| ra_turn queued a results rest :
    asst_stopReason a <> SR_error -> asst_stopReason a <> SR_aborted -> Forall2 answers (message_tool_calls a) results -> run_adds None rest ->
    run_adds None (queued ++ assistant a :: map tool_result results ++ rest)
| ra_resumed calls order results rest :
    order ≡ₚ calls -> Forall2 answers order results -> run_adds None rest -> run_adds (Some calls) (map tool_result results ++ rest).

Lemma pending_order_perm {E X} (context : AgentContext E X) calls : pending_order context calls ≡ₚ calls.
Proof.
  unfold pending_order. induction calls as [|c calls IH]; [done|]. cbn [List.filter]. destruct (isReplayable context c); cbn [negb app].
  - rewrite <- Permutation_middle. by rewrite IH.
  - by rewrite IH.
Qed.

(** ** One turn *)

Section Turns.
Context {E X : Type} `{AgentEnv E}.
Context (error_text : X -> jstring).
Context (validateToolArguments : AgentTool E X -> ToolCall -> Result X json).
Context (K : Contract E) (Henv : env_ok K).
Abbreviation R := (c_run K).
Abbreviation hook := (c_hook K).
Context (Habort : forall e e', R e e' -> aborted e = true -> aborted e' = true).
Context (streamFunction : StreamFn E X) (Hstreams : streams_ok hook streamFunction).
(** The cost relation: strict steps inside [R]. *)
Context (S : E -> E -> Prop) (HS : forall a b c d, R a b -> S b c -> R c d -> S a d).
Context (Hcost : streams_cost S streamFunction).
(** The transcript before the run. *)
Context (base : list AgentMessage).

Lemma take_queue_rule e0 p ms f :
  queue_ok hook f -> queue_costs S f ->
  triple K e0 p ms (take_queue (X := X) f) (fun l p' ms' e => p' = p /\ ms' = ms /\ (l <> [] -> S e0 e)).
Proof using Henv HS.
  intros Hq Hc st Hst. unfold take_queue, bind. cbn [is_aborted]. destruct (aborted (ls_env st)) eqn:Ha.
  - by exists p, ms.
  - destruct f as [f|]; [|by exists p, ms]. specialize (Hq _ Ha). specialize (Hc _ Ha). unfold call.
    destruct (f (ls_env st)) as [e [l|x]].
    + exists p, ms. split; [by apply (at_env K Henv)|]. split; [done|]. split; [done|]. intros Hl. simpl in *.
      destruct l as [|m l]; [done|]. apply (HS _ (ls_env st) e); [apply Hst|done|apply (ok_refl K Henv)].
    + exists p, ms. by apply (at_env K Henv).
Qed.

(** Steering waits for a resumed batch. *)
Lemma initial_queue_rule e0 p ms (config : AgentLoopConfig E X) (resume : option PendingToolCalls) :
  config_ok hook config -> config_costs S config ->
  triple K e0 p ms (match resume with Some _ => ret [] | None => take_queue (cfg_getSteeringMessages config) end)
    (same p ms (fun l => resume <> None -> l = [])).
Proof using Henv HS.
  intros Hcfg [Hcc _]. destruct resume; [by done_same|]. eapply triple_weaken; [apply take_queue_rule|].
  - by apply ok_getSteeringMessages.
  - done.
  - intros l ? ? ? _ (-> & -> & _). by split; [|split].
Qed.

Lemma apply_update_ok update context config :
  update_ok hook update -> context_ok hook context -> config_ok hook config ->
  config_costs S config ->
  context_ok (X := X) hook (apply_update update context config).1 /\ config_ok hook (apply_update update context config).2 /\
  config_costs S (apply_update update context config).2.
Proof.
  intros Hu Hctx Hcfg Hcc. destruct update as [u|]; [|done]. simpl. split; [|split].
  - unfold update_ok in Hu. simpl in Hu. by destruct (tu_context u).
  - by destruct Hcfg.
  - exact Hcc.
Qed.

(** The variables at the start of an iteration. *)
Record ready (v : LoopVars (E := E) (X := X)) (p : Protocol) (ms : list AgentMessage) : Prop := {
  rd_config : config_ok hook (v_config v);
  rd_costs : config_costs S (v_config v);
  rd_context : context_ok hook (v_context v);
  rd_new : ms = v_new v;
  rd_phase : p = match v_last v with None => quiet Ph_turn | Some _ => quiet Ph_between end;
  rd_resume : match v_resume v with
              | Some pending => v_last v = None /\ v_pending v = [] /\ v_new v = [] /\
                                findPendingToolCalls base = Some pending
              | None => True
              end }.

(** What a run adds to [new], for any [rest] it adds later. *)
Definition added (resumed : option PendingToolCalls) (new messages : list AgentMessage) (e : E) : Prop :=
  aborted e = false -> exists turn, messages = new ++ turn /\ forall rest, run_adds None rest -> run_adds (ptcs_toolCalls <$> resumed) (turn ++ rest).

Definition added_all (resumed : option PendingToolCalls) (new messages : list AgentMessage) (e : E) : Prop :=
  aborted e = false -> exists turns, messages = new ++ turns /\ run_adds (ptcs_toolCalls <$> resumed) turns.

Lemma added_all_of resumed new messages e : added resumed new messages e -> added_all resumed new messages e.
Proof. intros Ha Hn. destruct (Ha Hn) as (turn & -> & Hr). exists turn. split; [done|]. rewrite <- (app_nil_r turn). apply Hr. constructor. Qed.

Lemma added_then resumed new messages messages' e e' : R e e' -> added resumed new messages e -> added_all None messages messages' e' -> added_all resumed new messages' e'.
Proof using Habort.
  intros HR Ha Hl Hn. destruct (Ha (not_aborted _ Habort _ _ HR Hn)) as (turn & -> & Hr). destruct (Hl Hn) as (turns & -> & Ht).
  exists (turn ++ turns). split; [by rewrite <- app_assoc|]. by apply Hr.
Qed.

Lemma added_mono resumed new messages e e' : R e e' -> added resumed new messages e -> added resumed new messages e'.
Proof using Habort. intros HR Ha Hn. apply Ha. by eapply not_aborted. Qed.

Lemma added_all_mono resumed new messages e e' : R e e' -> added_all resumed new messages e -> added_all resumed new messages e'.
Proof using Habort. intros HR Ha Hn. apply Ha. by eapply not_aborted. Qed.

Lemma begin_turn_rule e0 p ms v :
  ready v p ms ->
  triple K e0 p ms (begin_turn v) (fun v' p' ms' _ =>
    p' = quiet Ph_turn /\ ms' = ms /\ config_ok hook (v_config v') /\ config_costs S (v_config v') /\
    context_ok hook (v_context v') /\
    v_new v' = v_new v /\ v_resume v' = v_resume v /\ (v_last v = None -> v_pending v' = v_pending v)).
Proof using Henv HS.
  intros [Hcfg Hcc Hctx Hnew -> Hres]. unfold begin_turn. destruct (v_last v) as [lastTurn|]; [|by apply triple_ret].
  bind_as @triple_optional u Hu; [by apply ok_prepareNextTurn|done|].
  destruct (apply_update_ok u (v_context v) (v_config v) Hu Hctx Hcfg Hcc) as (Hctx' & Hcfg' & Hcc').
  destruct (apply_update u (v_context v) (v_config v)) as [context config]. simpl in *.
  apply triple_bind with (Q := fun _ p' ms' _ => p' = quiet Ph_between /\ ms' = ms); [done| |].
  - destruct (v_pending v); [|by apply triple_ret]. eapply triple_weaken.
    + apply take_queue_rule; [by apply ok_getSteeringMessages|apply Hcc'].
    + naive_solver.
  - intros pending ? ? ? _ (-> & ->). bind_same @triple_emit; [constructor|]. rewrite app_nil_r.
    by apply triple_ret.
Qed.

Lemma inject_rule e0 (v : LoopVars (E := E) (X := X)) :
  config_ok hook (v_config v) ->
  triple K e0 (quiet Ph_turn) (v_new v) (inject v) (fun r p' ms' _ =>
    p' = quiet Ph_turn /\ ms' = r.2 /\ (v_pending v = [] -> r.2 = v_new v) /\ exists queued, r.2 = v_new v ++ queued).
Proof using Henv.
  intros Hcfg. unfold inject. destruct (v_pending v) as [|m l] eqn:Hp.
  { apply triple_ret. intros. split_and!; [done|done|done|]. exists []. by rewrite app_nil_r. }
  apply triple_bind with (Q := same (quiet Ph_turn) (v_new v) any); [done| |].
  - pose proof (ok_onSteeringBatch hook _ Hcfg) as Hb. destruct (v_steering v); [|by done_same].
    destruct (cfg_onSteeringBatch (v_config v)) as [f|]; [|by done_same].
    bind_same @triple_attempt. by done_same.
  - intros extras ? ? ? _ (-> & -> & _). bind_same @each_message_rule. apply triple_ret. intros. split_and!; [done|done|done|by eexists].
Qed.

Lemma turn_batch_rule e0 ms fuel context config resumed message :
  context_ok hook context -> config_ok hook config ->
  triple K e0 (running []) ms (turn_batch error_text validateToolArguments fuel context config resumed message)
    (batch_done ms (match resumed with
                    | Some pending => pending_order context (ptcs_toolCalls pending)
                    | None => message_tool_calls message
                    end) batch_messages).
Proof using Henv Habort.
  intros Hctx Hcfg. unfold turn_batch. destruct resumed as [pending|]; [by apply pending_rule|].
  case_bool_decide; [by apply truncated_rule|by apply executeToolCalls_rule].
Qed.

Lemma batch_completed_rule e0 p ms (config : AgentLoopConfig E X) results context :
  config_ok hook config -> context_ok hook context ->
  triple K e0 p ms (batch_completed config results context) (same p ms (context_ok hook)).
Proof using Henv.
  intros Hcfg Hctx. unfold batch_completed. pose proof (ok_onToolBatchCompleted hook _ Hcfg) as Hb.
  destruct (cfg_onToolBatchCompleted config) as [f|]; [|by done_same].
  intros st Hst. specialize (Hb results context (ls_env st) Hctx). destruct (f results context (ls_env st)) as [[e c] r].
  destruct Hb as [HR Hc]. exists p, ms. split; [|done]. by apply (at_env K Henv).
Qed.

Lemma stop_with_rule {A} e0 ms messages (a : A) :
  triple (X := X) K e0 (quiet Ph_between) ms (stop_with messages a) (same (quiet (Ph_ended messages)) ms (eq a)).
Proof using Henv.
  unfold stop_with. bind_same @triple_emit; [constructor|]. rewrite app_nil_r. by done_same.
Qed.

(** How a turn of [v] ends: what keeps the loop going was paid for, unless it
    is a resumed batch. *)
Definition turn_done (e0 : E) (v : LoopVars (E := E) (X := X)) (r : list AgentMessage + LoopVars (E := E) (X := X)) (p' : Protocol) (ms' : list AgentMessage) (e : E) : Prop :=
  match r with
  | inl messages => p' = quiet (Ph_ended messages) /\ ms' = messages /\ added_all (v_resume v) (v_new v) messages e
  | inr v' => ready v' p' ms' /\ v_last v' <> None /\ added (v_resume v) (v_new v) (v_new v') e /\
              (v_hasMore v' = true -> v_resume v = None -> S e0 e) /\ (v_pending v' <> [] -> S e0 e)
  end.

(** The answer of a turn that began with [new]: streamed, or recorded before the
    run. *)
Definition answer_of (resumed : option PendingToolCalls) (new newMessages : list AgentMessage)
    (message : AssistantMessage) : Prop :=
  match resumed with
  | Some pending => new = [] /\ newMessages = [] /\ findPendingToolCalls base = Some pending /\ message = ptcs_assistantMessage pending
  | None => exists queued, newMessages = new ++ queued ++ [assistant message]
  end.

Lemma resumed_asks resumed new newMessages message : answer_of resumed new newMessages message -> resumed <> None ->
  asst_stopReason message = SR_toolUse /\ message_tool_calls message <> [].
Proof.
  destruct resumed as [pending|]; [|done]. intros (_ & _ & Hb & ->) _. destruct (findPending_some _ _ Hb) as (pre & post & _ & _ & Hs & Hc & Hn).
  split; [done|]. intros Hm. apply Hn. rewrite Hc. unfold unanswered. by rewrite Hm.
Qed.

Lemma added_batch resumed new newMessages message (context : AgentContext E X) results e :
  answer_of resumed new newMessages message -> asst_stopReason message <> SR_error -> asst_stopReason message <> SR_aborted ->
  settles (match resumed with
           | Some pending => pending_order context (ptcs_toolCalls pending)
           | None => message_tool_calls message
           end) results e ->
  added resumed new (newMessages ++ map tool_result results) e.
Proof.
  intros Hans He Hab (finished & rest & Hc & Hf & Hd) Ha. rewrite (Hd Ha), app_nil_r in Hc. destruct resumed as [pending|].
  - destruct Hans as (-> & -> & _). exists (map tool_result results). split; [done|]. intros more Hm.
    apply (ra_resumed _ finished); [|done|done]. rewrite <- Hc. apply pending_order_perm.
  - destruct Hans as [queued ->]. exists (queued ++ assistant message :: map tool_result results). split; [by rewrite <- !app_assoc|]. intros more Hm.
    rewrite <- app_assoc. apply ra_turn; [done|done| |done]. by rewrite Hc.
Qed.

Lemma turn_answer_rule e0 context config resumed new newMessages :
  config_ok hook config -> context_ok hook context ->
  match resumed with Some pending => newMessages = [] /\ new = [] /\ findPendingToolCalls base = Some pending | None => exists queued, newMessages = new ++ queued end ->
  triple K e0 (quiet Ph_turn) newMessages (turn_answer streamFunction context config resumed newMessages)
    (fun r p' ms' e => p' = quiet Ph_turn /\ ms' = r.2 /\ answer_of resumed new r.2 r.1.2 /\ context_ok hook r.1.1 /\
       (resumed = None -> quiet_answer r.1.2 \/ S e0 e)).
Proof using Henv Hstreams HS Hcost.
  intros Hcfg Hctx Hres. unfold turn_answer. destruct resumed as [pending|].
  - destruct Hres as (-> & -> & Hb). by apply triple_ret.
  - destruct Hres as [queued ->]. eapply triple_bind; [done|by apply streamAssistantResponse_rule|].
    intros r ? ? e3 _ (-> & -> & -> & request & e4 & e5 & run & He4 & Hcall & He5 & m & Hm & Hmm).
    apply triple_ret. intros e HR. simpl. split; [done|]. split; [done|]. split; [exists queued; by rewrite <- app_assoc|]. split; [done|].
    intros _. pose proof (Hcost request e4) as Hpay. rewrite Hcall in Hpay. simpl in Hpay.
    destruct Hpay as [Hq|Hpay]; [left; by eapply final_message_quiet, Hq|right].
    apply (HS _ e4 e5); [done|done|chain Henv].
Qed.

Lemma turn_tools_rule e0 fuel context config resumed message new newMessages :
  config_ok hook config -> context_ok hook context -> answer_of resumed new newMessages message ->
  asst_stopReason message <> SR_error -> asst_stopReason message <> SR_aborted ->
  triple K e0 (quiet Ph_turn) newMessages (turn_tools error_text validateToolArguments fuel context config resumed message)
    (fun r p' ms' e => p' = quiet Ph_turn /\ ms' = newMessages ++ map tool_result r.1.2 /\
       added resumed new (newMessages ++ map tool_result r.1.2) e /\ context_ok hook r.1.1 /\ (r.2 = true -> message_tool_calls message <> [])).
Proof using Henv Habort.
  intros Hcfg Hctx Hans He Hab. unfold turn_tools. destruct (message_tool_calls message) as [|c calls] eqn:Hcalls.
  - apply triple_ret. intros e _. simpl. split; [done|]. split; [by rewrite app_nil_r|]. split; [|done].
    destruct resumed as [pending|]; [by destruct (resumed_asks _ _ _ _ Hans)|].
    apply (added_batch None new newMessages message context []); [done|done|done|]. exists [], []. by rewrite Hcalls.
  - eapply triple_bind; [done|by apply turn_batch_rule|]. intros b ? ? e4 _ (-> & -> & Hset).
    bind_as @batch_completed_rule context' Hctx2. apply triple_ret. intros e HR. simpl.
    split; [done|]. split; [done|]. split; [|done].
    apply (added_mono _ _ _ e4); [chain Henv|]. by eapply added_batch.
Qed.

Lemma turn_rule e0 p ms fuel v :
  ready v p ms ->
  triple K e0 p ms (turn error_text validateToolArguments fuel streamFunction v) (turn_done e0 v).
Proof using Henv Habort Hstreams HS Hcost.
  intros Hready. unfold turn. eapply triple_bind; [done|by apply begin_turn_rule|].
  intros v1 ? ? e1 ? (-> & -> & Hcfg & Hcc & Hctx & Hnew & Hres & Hpend). destruct Hready as [_ _ _ -> _ Hresume].
  rewrite <- Hnew. eapply triple_bind; [done|by apply inject_rule|]. intros [messages newMessages] ? ? e2 ? (-> & -> & Hinj & Hqueued).
  simpl in Hinj, Hqueued |- *. eapply triple_bind; [done|apply (turn_answer_rule _ _ _ _ (v_new v1)); [done|done|]|].
  { rewrite Hres. destruct (v_resume v) as [pending|]; [|done]. destruct Hresume as (Hlast & Hp & Hn & Hbase).
    rewrite Hinj, Hnew, Hn; [done|]. by rewrite (Hpend Hlast). }
  intros [[context message] new] ? ? e3 ? (-> & -> & Hans & Hctx' & Hpay). simpl in *. rewrite Hres, Hnew in Hans.
  destruct (bool_decide (asst_stopReason message = SR_error) || _) eqn:Hstop.
  { bind_same @triple_emit; [constructor|]. rewrite app_nil_r.
    eapply triple_weaken; [apply stop_with_rule|]. intros r ? ? e _ (-> & -> & <-). split; [done|]. split; [done|]. intros _.
    rewrite orb_true_iff, !bool_decide_eq_true in Hstop. destruct (v_resume v) as [pending|].
    - destruct (resumed_asks _ _ _ _ Hans) as [Hs _]; [done|]. rewrite Hs in Hstop. by destruct Hstop.
    - destruct Hans as [queued ->]. exists (queued ++ [assistant message]). split; [done|]. by apply ra_failed. }
  apply orb_false_iff in Hstop as [Hs1 Hs2]. apply bool_decide_eq_false in Hs1, Hs2.
  eapply triple_bind; [done|rewrite Hres; by apply turn_tools_rule|].
  intros [[context1 results] hasMore] ? ? e4 ? (-> & -> & Hset & Hctx1 & Hmore). simpl in *.
  bind_same @triple_emit; [constructor|]. rewrite app_nil_r.
  pose proof (ok_shouldStopAfterTurn hook _ Hcfg) as Hshould. bind_as @triple_optional stop _.
  destruct stop.
  - eapply triple_weaken; [apply stop_with_rule|]. intros r ? ? e HR (-> & -> & <-). split; [done|]. split; [done|].
    apply added_all_of, (added_mono _ _ _ e4); [chain Henv|done].
  - eapply triple_bind; [done|apply take_queue_rule; [by apply ok_getSteeringMessages|apply Hcc]|].
    intros pending ? ? e5 ? (-> & -> & Hq). apply triple_ret. intros e HR. split; [by constructor|].
    split; [done|]. simpl. split; [apply (added_mono _ _ _ e4); [chain Henv|done]|]. split.
    + intros Hgo Hr. rewrite <- Hres in Hr. destruct (Hpay Hr) as [[Hc|Hc]|Hs]; [by apply (Hmore Hgo) in Hc| |].
      * exfalso. tauto.
      * apply (HS _ e2 e3); [chain Henv|done|chain Henv].
    + intros Hp. eapply HS; [|by apply Hq|done]. chain Henv.
Qed.

(** ** The loop *)

(** How a run that began with [new] ends: its result was announced, and it has
    added turns. *)
Definition run_done (resumed : option PendingToolCalls) (new messages : list AgentMessage) (p' : Protocol) (ms' : list AgentMessage) (e : E) : Prop :=
  p' = quiet (Ph_ended messages) /\ ms' = messages /\ added_all resumed new messages e.

Lemma ready_after v p ms : ready v p ms -> v_last v <> None -> v_resume v = None.
Proof. intros [_ _ _ _ _ Hres] Hl. destruct (v_resume v); [|done]. by destruct Hres as (? & _). Qed.

Lemma loop_rule fuel : forall e0 p ms v,
  ready v p ms -> (v_hasMore v = false -> v_last v <> None) ->
  triple K e0 p ms (loop error_text validateToolArguments fuel streamFunction v) (run_done (v_resume v) (v_new v)).
Proof using Henv Habort Hstreams HS Hcost.
  induction fuel as [|fuel IH]; intros e0 p ms v Hready Hmore; [apply triple_fuel|]. simpl.
  destruct (v_hasMore v || has_pending v) eqn:Hgo.
  - eapply triple_bind; [done|by apply turn_rule|]. intros [messages|v'] p' ms' e1 _ Hdone.
    + destruct Hdone as (-> & -> & Hset). apply triple_ret. intros e HR. split; [done|]. split; [done|].
      by eapply added_all_mono.
    + destruct Hdone as (Hr & Hl & Hset & _). eapply triple_weaken; [by apply IH|]. intros messages ? ? e HR (-> & -> & Hall).
      split; [done|]. split; [done|]. rewrite (ready_after _ _ _ Hr Hl) in Hall. by eapply added_then.
  - apply orb_false_iff in Hgo as [Hf _]. pose proof (Hmore Hf) as Hlast. pose proof (ready_after _ _ _ Hready Hlast) as Hnone.
    eapply triple_bind; [done|apply take_queue_rule; [apply ok_getFollowUpMessages, Hready|apply Hready]|].
    intros l ? ? e1 ? (-> & -> & _). destruct Hready as [Hcfg Hcc Hctx -> -> Hres]. destruct l as [|m l].
    + destruct (v_last v) eqn:Hv; [|done]. eapply triple_weaken; [apply stop_with_rule|].
      intros r ? ? e HR (-> & -> & <-). split; [done|]. split; [done|]. intros _. exists []. rewrite app_nil_r, Hnone. split; [done|]. constructor.
    + eapply triple_weaken; [apply IH; [|done]|done]. constructor; try done. simpl. by rewrite Hnone.
Qed.

Lemma runLoop_rule e0 fuel context newMessages config resume :
  context_ok hook context -> config_ok hook config -> config_costs S config ->
  match resume with
  | Some pending => newMessages = [] /\ findPendingToolCalls base = Some pending
  | None => True
  end ->
  triple K e0 (quiet Ph_turn) newMessages
    (runLoop error_text validateToolArguments fuel context newMessages config streamFunction resume) (run_done resume newMessages).
Proof using Henv Habort Hstreams HS Hcost.
  intros Hctx Hcfg Hcc Hres. unfold runLoop. bind_as @triple_optional u Hu; [by apply ok_prepareInitialTurn|done|].
  destruct (apply_update_ok u context config Hu Hctx Hcfg Hcc) as (Hctx' & Hcfg' & Hcc').
  destruct (apply_update u context config) as [context' config']. simpl in *.
  eapply triple_bind; [done|by apply initial_queue_rule|]. intros pending ? ? ? _ (-> & -> & Hp).
  eapply triple_weaken; [apply loop_rule; [|done]|done]. constructor; try done. simpl.
  destruct resume as [p|]; [|done]. destruct Hres as [-> Hb]. by rewrite Hp.
Qed.
End Turns.
