(* ===== verification/AgentLoopTermination.v ===== *)
(** * Termination of the agent loop

    More fuel never changes an outcome, a concurrent tool batch always ends
    under any scheduler, and a run ends when every provider answer with tool
    calls and every non-empty queue costs a unit of a budget. *)

From stdpp Require Import base list strings.
From Stdlib Require Import ZArith Lia.
From S2P Require Import Prelude SessionTypes Numbers SessionContext Compaction Retry Summary.
From S2P Require Import AgentLoop AgentLoopSpec AgentLoopRules AgentLoopTurns.

(** ** Fuel *)

Section Fuel.
Context {E X : Type} `{AgentEnv E}.

(** [m'] does what [m] does when [m] does not run out of fuel. *)
Definition extends {A} (m m' : M (E := E) (X := X) A) : Prop := forall st, (m st).2 <> OutOfFuel -> m' st = m st.

Lemma extends_refl {A} (m : M A) : extends m m.
Proof. done. Qed.

Lemma extends_bind {A B} (m m' : M A) (k k' : A -> M B) :
  extends m m' -> (forall a, extends (k a) (k' a)) -> extends (bind m k) (bind m' k').
Proof.
  intros Hm Hk st. unfold bind. specialize (Hm st). destruct (m st) as [st' [a|x|]]; simpl.
  - intros Ho. rewrite Hm by done. by apply Hk.
  - intros _. by rewrite Hm.
  - done.
Qed.

Lemma bind_done {A B} (m : M (E := E) (X := X) A) (k : A -> M B) st st' b :
  bind m k st = (st', Done b) -> exists st1 a, m st = (st1, Done a) /\ k a st1 = (st', Done b).
Proof. unfold bind. destruct (m st) as [st1 [a|x|]]; [eauto|done|done]. Qed.

(** [m] never runs out of fuel. *)
Definition total {A} (m : M (E := E) (X := X) A) : Prop := forall st, (m st).2 <> OutOfFuel.

Lemma total_bind {A B} (m : M A) (k : A -> M B) : total m -> (forall a, total (k a)) -> total (bind m k).
Proof.
  intros Hm Hk st. unfold bind. specialize (Hm st). destruct (m st) as [st' [a|x|]]; [apply Hk|done|done].
Qed.

Lemma total_ret {A} (a : A) : total (ret a).
Proof. done. Qed.

Lemma total_call {A} (f : Call E X A) : total (call f).
Proof. intros st. unfold call. by destruct (f (ls_env st)) as [e []]. Qed.

Lemma total_attempt {A} (f : Call E X A) : total (attempt f).
Proof. intros st. unfold attempt. by destruct (f (ls_env st)). Qed.

Lemma total_optional {A B} (f : option (A -> Call E X B)) a b : total (optional f a b).
Proof. destruct f; [apply total_call|done]. Qed.

Lemma total_emit event : total (emit event).
Proof. done. Qed.

Lemma total_aborted : total is_aborted.
Proof. done. Qed.

Lemma total_now : total Date_now.
Proof. intros st. unfold Date_now. by destruct (clock_now (ls_env st)). Qed.

Lemma total_pick n : total (pick_task n).
Proof. intros st. unfold pick_task. by destruct (pick (ls_env st) n). Qed.

Lemma total_start p : total (start_tool p).
Proof. intros st. unfold start_tool. by destruct (tool_execute _ _ _ _). Qed.

Lemma total_step {A} (f : E -> E) (m : E -> M A) :
  (forall e, total (m (f e))) -> total (fun st => let e := f (ls_env st) in m e (set_env e st)).
Proof. intros Hm st. apply Hm. Qed.

(** A computation that needs some fuel from [st], and less never lies. *)
Definition halts {A} (m : nat -> M (E := E) (X := X) A) (st : LoopState) : Prop := exists fuel, (m fuel st).2 <> OutOfFuel.
Definition monotone {A} (m : nat -> M (E := E) (X := X) A) : Prop := forall f f', (f <= f')%nat -> extends (m f) (m f').

Lemma monotone_bind {A B} (m : nat -> M A) (k : nat -> A -> M B) :
  monotone m -> (forall a, monotone (fun f => k f a)) -> monotone (fun f => bind (m f) (k f)).
Proof. intros Hm Hk f f' Hf. apply extends_bind; [by apply Hm|]. intros a. by apply Hk. Qed.

Lemma monotone_const {A} (m : M A) : monotone (fun _ => m).
Proof. intros f f' _. apply extends_refl. Qed.

Lemma halts_total {A} (m : M A) st : total m -> halts (fun _ => m) st.
Proof. intros Hm. exists O. apply Hm. Qed.

Lemma halts_bind {A B} (m : nat -> M A) (k : nat -> A -> M B) st :
  monotone m -> (forall a, monotone (fun f => k f a)) -> halts m st ->
  (forall f st' a, m f st = (st', Done a) -> halts (fun f => k f a) st') -> halts (fun f => bind (m f) (k f)) st.
Proof.
  intros Hm Hk [f Hf] Hnext. destruct (m f st) as [st' [a|x|]] eqn:Hr; [| |done].
  - destruct (Hnext f st' a Hr) as [f' Hf']. exists (max f f'). unfold bind.
    rewrite (Hm f (max f f') ltac:(lia) st), Hr by (by rewrite Hr).
    by rewrite (Hk a f' (max f f') ltac:(lia) st').
  - exists f. unfold bind. by rewrite Hr.
Qed.

(** A computation that some fuel is enough for, from every state. *)
Definition fueled {A} (m : nat -> M (E := E) (X := X) A) : Prop := monotone m /\ forall st, halts m st.

Lemma fueled_total {A} (m : M A) : total m -> fueled (fun _ => m).
Proof. intros Hm. split; [apply monotone_const|]. intros st. by apply halts_total. Qed.

Lemma fueled_bind {A B} (m : nat -> M A) (k : nat -> A -> M B) :
  fueled m -> (forall a, fueled (fun f => k f a)) -> fueled (fun f => bind (m f) (k f)).
Proof.
  intros [Hm Hh] Hk. split; [apply monotone_bind; [done|apply Hk]|]. intros st.
  apply halts_bind; [done|apply Hk|apply Hh|]. intros f st' a _. apply Hk.
Qed.
End Fuel.

Create HintDb fuel.
#[export] Hint Resolve total_ret total_call total_attempt total_optional total_emit total_aborted total_now
  total_pick total_start monotone_const : fuel.

(** Sequences of fuel-free steps. *)
Ltac total_steps :=
  auto with fuel;
  repeat (match goal with
          | |- total (bind _ _) => apply total_bind; [|intros ?]
          | |- total (match ?x with _ => _ end) => destruct x
          | |- total (let (_, _) := ?x in _) => destruct x
          end; auto with fuel).

(** ** Operations without fuel *)

Section Operations.
Context {E X : Type} `{AgentEnv E}.
Context (error_text : X -> jstring).
Context (validateToolArguments : AgentTool E X -> ToolCall -> Result X json).
Implicit Types (config : AgentLoopConfig E X) (context : AgentContext E X).

Lemma total_message m : total (X := X) (emit_message m).
Proof. unfold emit_message. total_steps. Qed.

Lemma total_each l : total (X := X) (each emit_message l).
Proof. induction l; simpl; total_steps; auto using total_message. Qed.

Lemma total_result_message f : total (X := X) (createToolResultMessage f).
Proof. unfold createToolResultMessage. total_steps. Qed.

Lemma total_announce m : total (X := X) (emitToolResultMessage m).
Proof. apply total_message. Qed.

Lemma total_prepare context message call config :
  total (prepareToolCall error_text validateToolArguments context message call config).
Proof. unfold prepareToolCall, resolveMissingToolResultText. total_steps. Qed.

Lemma total_drain call (r : ToolRun E X) : total (drain_updates call r).
Proof. induction r; simpl; unfold emit_update; total_steps. Qed.

Lemma total_run_tool call parent (r : ToolRun E X) : total (run_tool call parent r).
Proof.
  induction r as [r|partial k IH|step k IH]; simpl; total_steps; [unfold emit_update; auto with fuel|].
  apply (total_step step (fun e => run_tool call parent (k e))). auto.
Qed.

Lemma total_finalize context message prepared executed config :
  total (finalizeExecutedToolCall error_text context message prepared executed config).
Proof. unfold finalizeExecutedToolCall. total_steps. Qed.

Lemma total_run_call context message call config :
  total (run_call error_text validateToolArguments context message call config).
Proof.
  unfold run_call, executePreparedToolCall.
  total_steps; auto using total_prepare, total_run_tool, total_finalize.
Qed.

Lemma total_sequential context message config calls : forall finalized messages,
  total (sequential_loop error_text validateToolArguments context message config calls finalized messages).
Proof.
  induction calls; intros; simpl; unfold emit_start, emitToolExecutionEnd;
    total_steps; auto using total_run_call, total_result_message, total_announce with fuel.
Qed.

Lemma total_parallel_prepare context message config calls : forall tasks,
  total (parallel_prepare error_text validateToolArguments context message config calls tasks).
Proof.
  induction calls; intros; simpl; unfold emit_start, emitToolExecutionEnd;
    total_steps; auto using total_prepare with fuel.
Qed.

Lemma total_start_tasks (tasks : list (Task (E := E) (X := X))) : total (start_tasks tasks).
Proof. induction tasks; simpl; total_steps; auto using total_drain. Qed.

Lemma total_result_messages fs : total (X := X) (result_messages fs).
Proof. induction fs; simpl; total_steps; auto using total_result_message, total_announce. Qed.

Lemma total_fail_calls text calls : total (X := X) (fail_calls text calls).
Proof.
  induction calls; simpl; unfold emit_start, emitToolExecutionEnd;
    total_steps; auto using total_result_message, total_announce with fuel.
Qed.

Lemma total_finish config messages added final : total (finish_stream config messages added final).
Proof. unfold finish_stream. total_steps. Qed.

Lemma total_stream config run : forall messages added, total (stream_loop config messages added run).
Proof.
  induction run as [event step k IH|[m|x]]; intros messages added; [|apply total_finish|by intros st].
  assert (forall messages added, total (fun st =>
    let e := step (ls_env st) in stream_loop config messages added (k e) (set_env e st))) as Hnext
    by (intros l b; apply (total_step step (fun e => stream_loop config l b (k e))); auto).
  destruct event; simpl; total_steps; auto using total_finish.
Qed.

Lemma total_response context config streamFunction : total (streamAssistantResponse context config streamFunction).
Proof. unfold streamAssistantResponse. total_steps; auto using total_stream. Qed.

Lemma total_queue f : total (X := X) (take_queue f).
Proof. unfold take_queue. total_steps. Qed.

Lemma total_begin (v : LoopVars (E := E) (X := X)) : total (begin_turn v).
Proof. unfold begin_turn. total_steps; auto using total_queue. Qed.

Lemma total_inject (v : LoopVars (E := E) (X := X)) : total (inject v).
Proof. unfold inject. total_steps; auto using total_each. Qed.

Lemma total_completed config results context : total (batch_completed config results context).
Proof.
  unfold batch_completed. destruct (cfg_onToolBatchCompleted config) as [f|]; [|done]. intros st.
  by destruct (f results context (ls_env st)) as [[e c] r].
Qed.

Lemma total_step_task context message config t : total (step_task error_text context message config t).
Proof.
  destruct t as [p|p [r|partial k|step k]|p o|f|f]; simpl; unfold emit_update, emitToolExecutionEnd; total_steps;
    auto using total_finalize.
  apply (total_step step (fun e => bind (drain_updates (ptc_toolCall p) (k e)) (fun r => ret (TK_running p r)))).
  intros e. total_steps. apply total_drain.
Qed.

(** ** Concurrent batches end *)

(** A step of a live task that has begun. *)
Definition begun (t : Task (E := E) (X := X)) : bool := match t with TK_waiting _ => false | _ => true end.

Definition moves_to context message config (t' t : Task (E := E) (X := X)) : Prop :=
  is_live t = true /\ begun t = true /\ exists st st', step_task error_text context message config t st = (st', Done t').

(** Where a tool run can be after reporting its partial results. *)
Fixpoint drained (r : ToolRun E X) : ToolRun E X := match r with TRun_update _ k => drained k | _ => r end.

Lemma drain_result call (r : ToolRun E X) st st' r' : drain_updates call r st = (st', Done r') -> r' = drained r.
Proof.
  revert st. induction r as [r|partial k IH|step k IH]; intros st; simpl.
  - by intros [= _ <-].
  - unfold emit_update, bind, emit. apply IH.
  - by intros [= _ <-].
Qed.

Lemma finalized_acc context message config f : Acc (moves_to context message config) (TK_finalized f).
Proof.
  constructor. intros t' (_ & _ & st & st' & Hs). injection Hs as _ <-.
  constructor. intros t'' (Hl & _). done.
Qed.

Lemma executed_acc context message config p o : Acc (moves_to context message config) (TK_executed p o).
Proof.
  constructor. intros t' (_ & _ & st & st' & Hs). apply bind_done in Hs as (st1 & f & _ & Hs). injection Hs as _ <-.
  apply finalized_acc.
Qed.

Lemma running_acc context message config p r :
  Acc (moves_to context message config) (TK_running p r) /\
  Acc (moves_to context message config) (TK_running p (drained r)).
Proof.
  induction r as [r|partial k IH|step k IH]; simpl.
  - assert (Acc (moves_to context message config) (TK_running p (TRun_return r))); [|done].
    constructor. intros t' (_ & _ & st & st' & Hs). injection Hs as _ <-. apply executed_acc.
  - split; [|exact (proj2 IH)]. constructor. intros t' (_ & _ & st & st' & Hs). injection Hs as _ <-. exact (proj1 IH).
  - assert (Acc (moves_to context message config) (TK_running p (TRun_await step k))); [|done].
    constructor. intros t' (_ & _ & st & st' & Hs). apply bind_done in Hs as (st1 & r & Hd & Hs). injection Hs as _ <-.
    apply drain_result in Hd as ->. exact (proj2 (IH _)).
Qed.

Lemma task_acc context message config t : begun t = true -> Acc (moves_to context message config) t.
Proof.
  destruct t; [done|intros _..].
  - apply running_acc.
  - apply executed_acc.
  - apply finalized_acc.
  - constructor. intros t' (Hl & _). done.
Qed.

(** A list in which elements move one at a time. *)
Definition one_moves {A} (lt : A -> A -> Prop) (l' l : list A) : Prop :=
  exists i t t', l !! i = Some t /\ lt t' t /\ l' = <[i := t']> l.

Lemma one_moves_acc {A} (lt : A -> A -> Prop) l : Forall (Acc lt) l -> Acc (one_moves lt) l.
Proof.
  induction 1 as [|t l Ht _ IHl]; [constructor; by intros l' (i & t & t' & Hi & _)|].
  revert l IHl. induction Ht as [t _ IHt]. intros l Hl. induction Hl as [l Hacc IHl].
  constructor. intros l' ([|i] & t1 & t' & Hi & Hlt & ->).
  - injection Hi as <-. apply IHt; [done|]. by constructor.
  - simpl. apply IHl. by exists i, t1, t'.
Qed.

Lemma step_begun context message config t st st' t' :
  begun t = true -> step_task error_text context message config t st = (st', Done t') -> begun t' = true.
Proof.
  intros Hb Hs. destruct t as [p|p [r|partial k|step k]|p o|f|f]; [done| | | | | |].
  1, 6: by injection Hs as _ <-.
  all: apply bind_done in Hs as (st1 & r & _ & Hs); by injection Hs as _ <-.
Qed.

Lemma run_tasks_extends context message config f : forall f' tasks, (f <= f')%nat ->
  extends (run_tasks error_text f context message config tasks) (run_tasks error_text f' context message config tasks).
Proof.
  induction f as [|f IH]; intros [|f'] tasks Hf; cbn [run_tasks];
    destruct (live_indices tasks) as [|j l]; try (apply extends_refl); [by intros st|lia|].
  apply extends_bind; [done|]. intros i. destruct (tasks !! _); [|done].
  apply extends_bind; [done|]. intros t'. apply IH. lia.
Qed.

Lemma run_tasks_halts context message config tasks :
  Forall (fun t => begun t = true) tasks ->
  forall st, halts (fun fuel => run_tasks error_text fuel context message config tasks) st.
Proof.
  intros Hb. assert (Acc (one_moves (moves_to context message config)) tasks) as Hacc.
  { apply one_moves_acc. eapply Forall_impl; [done|]. intros t. apply task_acc. }
  induction Hacc as [tasks _ IH]. intros st.
  destruct (live_indices tasks) as [|j l] eqn:Hlive; [exists O; cbn [run_tasks]; by rewrite Hlive|].
  destruct (pick (ls_env st) (length (j :: l))) as [e n] eqn:Hpick.
  destruct (live_pick tasks n _ ltac:(by rewrite Hlive) eq_refl) as (t & Hlook & Hl). rewrite Hlive in Hlook.
  set (i := default 0%nat _) in *.
  assert (begun t = true) as Hbt by (by eapply Forall_lookup_1 in Hb).
  destruct (step_task error_text context message config t (set_env e st)) as [st' [t'|x|]] eqn:Hstep.
  - destruct (IH (<[i := t']> tasks)) with (st := st') as [fuel Hfuel].
    + exists i, t, t'. split; [done|]. split; [|done]. split; [done|]. split; [done|]. eauto.
    + apply Forall_insert; [done|]. by eapply step_begun.
    + exists (S fuel). cbn [run_tasks]. rewrite Hlive. unfold bind at 1, pick_task at 1. rewrite Hpick. fold i.
      rewrite Hlook. unfold bind. by rewrite Hstep.
  - exists 1%nat. cbn [run_tasks]. rewrite Hlive. unfold bind at 1, pick_task at 1. rewrite Hpick. fold i.
    rewrite Hlook. unfold bind. by rewrite Hstep.
  - exfalso. eapply (total_step_task context message config t). by rewrite Hstep.
Qed.

Lemma start_tasks_begun (tasks : list (Task (E := E) (X := X))) : forall st st' tasks',
  start_tasks tasks st = (st', Done tasks') -> Forall (fun t => begun t = true) tasks'.
Proof.
  induction tasks as [|t tasks IH]; intros st st' tasks' Hs; [by injection Hs as _ <-|].
  apply bind_done in Hs as (st1 & t1 & Ht & Hs). apply bind_done in Hs as (st2 & l & Hl & Hs).
  injection Hs as _ <-. constructor; [|by eapply IH]. destruct t as [p| | | |]; try by injection Ht as _ <-.
  apply bind_done in Ht as (st3 & r & _ & Ht). apply bind_done in Ht as (st4 & r' & _ & Ht). by injection Ht as _ <-.
Qed.

(** ** Turns end *)

Lemma parallel_fueled context message calls config :
  fueled (fun fuel => executeToolCallsParallel error_text validateToolArguments fuel context message calls config).
Proof.
  unfold executeToolCallsParallel. apply fueled_bind; [apply fueled_total, total_parallel_prepare|]. intros tasks.
  assert (forall f f' tasks', (f <= f')%nat -> extends
    (bind (run_tasks error_text f context message config tasks') (fun fs => bind (result_messages fs) (fun messages =>
       ret {| batch_messages := messages; batch_terminate := shouldTerminateToolBatch fs |})))
    (bind (run_tasks error_text f' context message config tasks') (fun fs => bind (result_messages fs) (fun messages =>
       ret {| batch_messages := messages; batch_terminate := shouldTerminateToolBatch fs |})))) as Hext.
  { intros f f' tasks' Hf. apply extends_bind; [by apply run_tasks_extends|done]. }
  split; [intros f f' Hf; apply extends_bind; [done|]; intros tasks'; by apply Hext|].
  intros st. apply halts_bind; [apply monotone_const| |apply halts_total, total_start_tasks|].
  - intros tasks' f f' Hf. by apply Hext.
  - intros _ st1 tasks' Hs. apply start_tasks_begun in Hs. apply halts_bind.
    + intros f f' Hf. by apply run_tasks_extends.
    + intros fs. apply monotone_const.
    + by apply run_tasks_halts.
    + intros _ st2 fs _. apply halts_total. total_steps; auto using total_result_messages.
Qed.

Lemma executeToolCalls_fueled context message config calls :
  fueled (fun fuel => executeToolCalls error_text validateToolArguments fuel context message config calls).
Proof.
  unfold executeToolCalls. destruct (_ || _); [|apply parallel_fueled]. apply fueled_total.
  unfold executeToolCallsSequential. total_steps; auto using total_sequential.
Qed.

Lemma turn_batch_fueled context config resumed message :
  fueled (fun fuel => turn_batch error_text validateToolArguments fuel context config resumed message).
Proof.
  unfold turn_batch. destruct resumed as [pending|].
  - unfold executePendingToolCalls. apply fueled_bind; [apply fueled_total, total_fail_calls|]. intros messages.
    destruct (List.filter (isReplayable context) (ptcs_toolCalls pending)); [by apply fueled_total|].
    apply fueled_bind; [apply executeToolCalls_fueled|]. intros b. by apply fueled_total.
  - case_bool_decide; [|apply executeToolCalls_fueled]. apply fueled_total.
    unfold failToolCallsFromTruncatedMessage. total_steps; auto using total_fail_calls.
Qed.

Lemma turn_fueled streamFunction v :
  fueled (fun fuel => turn error_text validateToolArguments fuel streamFunction v).
Proof.
  unfold turn. apply fueled_bind; [apply fueled_total, total_begin|]. intros v1.
  apply fueled_bind; [apply fueled_total, total_inject|]. intros [messages newMessages].
  apply fueled_bind; [apply fueled_total; unfold turn_answer; total_steps; auto using total_response|].
  intros [[context message] new]. destruct (_ || _).
  { apply fueled_total. unfold stop_with. total_steps. }
  apply fueled_bind.
  - unfold turn_tools. destruct (message_tool_calls message); [by apply fueled_total|].
    apply fueled_bind; [apply turn_batch_fueled|]. intros b. apply fueled_total. total_steps; auto using total_completed.
  - intros [[context1 results] hasMore]. apply fueled_total. unfold stop_with. total_steps; auto using total_queue.
Qed.

Lemma loop_monotone streamFunction f : forall f' v, (f <= f')%nat ->
  extends (loop error_text validateToolArguments f streamFunction v)
    (loop error_text validateToolArguments f' streamFunction v).
Proof.
  induction f as [|f IH]; intros [|f'] v Hf; try (by intros st); [lia|]. simpl. destruct (_ || _).
  - apply extends_bind; [apply turn_fueled; lia|]. intros [l|v']; [done|]. apply IH. lia.
  - apply extends_bind; [done|]. intros [|m l]; [done|]. apply IH. lia.
Qed.

(** A run that ends with some fuel ends in the same way with more. *)
Lemma runLoop_monotone context newMessages config streamFunction resume :
  monotone (fun fuel => runLoop error_text validateToolArguments fuel context newMessages config streamFunction resume).
Proof.
  intros f f' Hf. unfold runLoop. apply extends_bind; [done|]. intros u.
  destruct (apply_update u context config). apply extends_bind; [done|]. intros l. by apply loop_monotone.
Qed.
End Operations.

(** ** Runs end *)

Section Runs.
Context {E X : Type} `{AgentEnv E}.
Context (error_text : X -> jstring).
Context (validateToolArguments : AgentTool E X -> ToolCall -> Result X json).
Context (budget : E -> nat).

(** Aborts are final and the budget never grows; what costs lowers it. *)
Definition within (e e' : E) : Prop := (aborted e = true -> aborted e' = true) /\ (budget e' <= budget e)%nat.
Definition spends (e e' : E) : Prop := (budget e' < budget e)%nat.

Lemma within_abort e e' : within e e' -> aborted e = true -> aborted e' = true.
Proof. by intros [Ha _]. Qed.

Lemma within_spends a b c d : within a b -> spends b c -> within c d -> spends a d.
Proof. unfold within, spends. intros [_ ?] ? [_ ?]. lia. Qed.

Context (Henv : env_ok (plain within)).
Context (streamFunction : StreamFn E X) (Hstreams : streams_ok within streamFunction).
Context (Hcost : streams_cost spends streamFunction).
Context (base : list AgentMessage).

(** Iterations left: a turn that pays for nothing leaves the loop idle. *)
Definition rank (v : LoopVars (E := E) (X := X)) (e : E) : nat :=
  3 * budget e + match v_resume v with Some _ => 1 | None => 0 end + (if v_hasMore v || has_pending v then 1 else 0).

(** The loop around one turn, and around a look at the follow-up queue. *)
Lemma loop_after_turn v st f st' v' :
  v_hasMore v || has_pending v = true ->
  turn error_text validateToolArguments f streamFunction v st = (st', Done (inr v')) ->
  halts (fun fuel => loop error_text validateToolArguments fuel streamFunction v') st' ->
  halts (fun fuel => loop error_text validateToolArguments fuel streamFunction v) st.
Proof using.
  intros Hgo Ht [f' Hf']. exists (Datatypes.S (max f f')). cbn [loop]. rewrite Hgo. unfold bind.
  rewrite (proj1 (turn_fueled error_text validateToolArguments streamFunction v) f (max f f') ltac:(lia) st),
    Ht by (by rewrite Ht).
  by rewrite (loop_monotone error_text validateToolArguments streamFunction f' (max f f') v' ltac:(lia) st').
Qed.

Definition with_follow_ups (v : LoopVars (E := E) (X := X)) (l : list AgentMessage) : LoopVars :=
  {| v_context := v_context v; v_config := v_config v; v_last := v_last v; v_new := v_new v;
     v_pending := l; v_steering := false; v_hasMore := true; v_resume := v_resume v |}.

Lemma loop_after_queue v st :
  v_hasMore v || has_pending v = false ->
  (forall st' m l, take_queue (cfg_getFollowUpMessages (v_config v)) st = (st', Done (m :: l)) ->
     halts (fun fuel => loop error_text validateToolArguments fuel streamFunction (with_follow_ups v (m :: l))) st') ->
  halts (fun fuel => loop error_text validateToolArguments fuel streamFunction v) st.
Proof using.
  intros Hgo Hnext. destruct (take_queue (cfg_getFollowUpMessages (v_config v)) st) as [st' [[|m l]|x|]] eqn:Ht.
  - exists 1%nat. cbn [loop]. rewrite Hgo. unfold bind. by rewrite Ht.
  - destruct (Hnext st' m l eq_refl) as [f Hf]. exists (Datatypes.S f). cbn [loop]. rewrite Hgo. unfold bind. by rewrite Ht.
  - exists 1%nat. cbn [loop]. rewrite Hgo. unfold bind. by rewrite Ht.
  - exfalso. apply (total_queue (cfg_getFollowUpMessages (v_config v)) st). by rewrite Ht.
Qed.

Lemma loop_halts n : forall e0 p ms v st,
  at_ (plain within) e0 p ms st -> ready (plain within) spends base v p ms ->
  (v_hasMore v = false -> v_last v <> None) -> (rank v (ls_env st) < n)%nat ->
  halts (fun fuel => loop error_text validateToolArguments fuel streamFunction v) st.
Proof using Henv Hstreams Hcost.
  induction n as [|n IH]; intros e0 p ms v st Hst Hready Hlast Hrank; [lia|]. unfold rank in Hrank.
  apply (at_here (plain within) Henv) in Hst. destruct (v_hasMore v || has_pending v) eqn:Hgo.
  - destruct (proj2 (turn_fueled error_text validateToolArguments streamFunction v) st) as [f Hf].
    pose proof (turn_rule error_text validateToolArguments (plain within) Henv within_abort streamFunction Hstreams spends
      within_spends Hcost base (ls_env st) p ms f v Hready st Hst) as Hturn.
    destruct (turn _ _ f _ _ st) as [st' [[l|v']|x|]] eqn:Ht; [| | |done].
    1, 3: exists (Datatypes.S f); cbn [loop]; rewrite Hgo; unfold bind; by rewrite Ht.
    destruct Hturn as (p' & ms' & Hst' & Hr & Hl & _ & Hmore & Hpend).
    eapply loop_after_turn; [done|exact Ht|]. eapply IH; [exact Hst'|exact Hr|done|].
    destruct Hst' as (_ & _ & (_ & Hb) & _). unfold spends in *. unfold rank. rewrite (ready_after _ _ _ _ _ _ Hr Hl).
    destruct (v_hasMore v').
    + destruct (v_resume v); [simpl; lia|]. specialize (Hmore eq_refl eq_refl). simpl. lia.
    + unfold has_pending. destruct (v_pending v') as [|m l]; [simpl; destruct (v_resume v); lia|].
      specialize (Hpend ltac:(done)). simpl. lia.
  - apply loop_after_queue; [done|]. intros st' m l Ht.
    pose proof (take_queue_rule (plain within) Henv spends within_spends (ls_env st) p ms (cfg_getFollowUpMessages (v_config v))
      (ok_getFollowUpMessages _ _ (rd_config _ _ _ _ _ _ Hready)) (proj2 (rd_costs _ _ _ _ _ _ Hready)) st Hst) as Hq.
    rewrite Ht in Hq. destruct Hq as (p' & ms' & Hst' & -> & -> & Hpay). specialize (Hpay ltac:(done)).
    eapply IH; [exact Hst'| |done|].
    + destruct Hready as [Hcfg Hcc Hctx -> -> Hres]. constructor; try done. simpl.
      apply orb_false_iff in Hgo as [Hm _]. destruct (v_resume v); [|done]. destruct Hres as (Hv & _). by apply Hlast in Hv.
    + unfold spends in Hpay. unfold rank. simpl. destruct (v_resume v); lia.
Qed.

Lemma runLoop_halts e0 context newMessages config resume st :
  at_ (plain within) e0 (quiet Ph_turn) newMessages st ->
  context_ok within context -> config_ok within config -> config_costs spends config ->
  match resume with
  | Some pending => newMessages = [] /\ findPendingToolCalls base = Some pending
  | None => True
  end ->
  halts (fun fuel => runLoop error_text validateToolArguments fuel context newMessages config streamFunction resume) st.
Proof using Henv Hstreams Hcost.
  intros Hst Hctx Hcfg Hcc Hres. unfold runLoop.
  pose proof (triple_optional (plain within) Henv e0 (quiet Ph_turn) newMessages (update_ok within)
    (cfg_prepareInitialTurn config) context None (ok_prepareInitialTurn _ _ Hcfg) I st Hst) as Hopt.
  apply halts_bind; [apply monotone_const| |apply halts_total, total_optional|].
  { intros u f f' Hf. destruct (apply_update u context config). apply extends_bind; [done|]. intros l. by apply loop_monotone. }
  intros _ st1 u Hu. rewrite Hu in Hopt. destruct Hopt as (p1 & ms1 & Hst1 & -> & -> & Hok).
  destruct (apply_update_ok (plain within) spends u context config Hok Hctx Hcfg Hcc) as (Hctx' & Hcfg' & Hcc').
  destruct (apply_update u context config) as [context' config']. simpl in *.
  pose proof (initial_queue_rule (plain within) Henv spends within_spends e0 (quiet Ph_turn) newMessages config' resume Hcfg' Hcc')
    as Hq.
  specialize (Hq st1 Hst1).
  apply halts_bind; [apply monotone_const| |apply halts_total; destruct resume; auto using total_queue, total_ret|].
  { intros l f f' Hf. by apply loop_monotone. }
  intros _ st2 l Hl. rewrite Hl in Hq. destruct Hq as (p2 & ms2 & Hst2 & -> & -> & Hlp).
  eapply loop_halts; [exact Hst2| |done|apply Nat.lt_succ_diag_r]. constructor; try done. simpl.
  destruct resume as [pending|]; [|done]. destruct Hres as [-> Hb]. by rewrite Hlp.
Qed.
End Runs.
