(* ===== verification/AgentLoopProperties.v ===== *)
(** * Properties of the agent loop

    Statements about whole runs, from every entry point, with a concrete
    environment in which they apply: its provider replays recorded answers, its
    steering queue holds messages, and its tool aborts the run while it waits. *)

From stdpp Require Import base list strings.
From Stdlib Require Import ZArith Lia.
From S2P Require Import Prelude SessionTypes Numbers SessionContext Compaction CompactionProperties Retry Summary.
From S2P Require Import AgentLoop AgentLoopSpec AgentLoopRules AgentLoopTurns AgentLoopTermination.

(** The entry points of a run. *)
Inductive RunEntry := En_prompt (prompts : list AgentMessage) | En_continue | En_resume.

Section Entries.
Context {E X : Type} `{AgentEnv E}.
Context (error_text : X -> jstring).
Context (validateToolArguments : AgentTool E X -> ToolCall -> Result X json).

Definition enter (fuel : nat) (entry : RunEntry) (context : AgentContext E X) (config : AgentLoopConfig E X)
    (streamFunction : StreamFn E X) : RunError + M (list AgentMessage) :=
  match entry with
  | En_prompt prompts => inr (runAgentLoop error_text validateToolArguments fuel prompts context config streamFunction)
  | En_continue => runAgentLoopContinue error_text validateToolArguments fuel context config streamFunction
  | En_resume => runAgentLoopResume error_text validateToolArguments fuel context config streamFunction
  end.

(** Before the first event. *)
Definition initial (e : E) : LoopState := {| ls_env := e; ls_trace := [] |}.

Context (K : Contract E) (Henv : env_ok K).
Abbreviation R := (c_run K).
Abbreviation hook := (c_hook K).
Context (Habort : forall e e', R e e' -> aborted e = true -> aborted e' = true).
Context (streamFunction : StreamFn E X) (Hstreams : streams_ok hook streamFunction).

Lemma at_initial e : c_reflects K (quiet Ph_before) [] e -> at_ K e (quiet Ph_before) [] (initial e).
Proof using Henv. intros HI. split; [constructor|]. split; [done|]. split; [apply (ok_refl K Henv)|done]. Qed.

(** Without costs. *)
Definition free_of_charge (_ _ : E) : Prop := True.

Lemma free_queue f : queue_costs (X := X) free_of_charge f.
Proof. destruct f as [f|]; [|done]. intros e _. by destruct (f e).2 as [[|]|]. Qed.

Lemma free_config config : config_costs (X := X) free_of_charge config.
Proof. split; apply free_queue. Qed.

Lemma free_streams : streams_cost free_of_charge streamFunction.
Proof. intros request e. destruct (streamFunction request e).2; [by right|done]. Qed.

Lemma start_rule {A} e0 (k : M A) Q :
  (forall e, R e0 e -> triple K e (quiet Ph_turn) [] k Q) ->
  triple (X := X) K e0 (quiet Ph_before) [] (bind (emit AE_agent_start) (fun _ => bind (emit AE_turn_start) (fun _ => k))) Q.
Proof using Henv.
  intros Hk. eapply triple_bind; [done|apply triple_emit; [done|constructor]|]. intros _ ? ? e1 ? (-> & -> & _).
  eapply triple_bind; [done|apply triple_emit; [done|constructor]|]. intros _ ? ? e2 ? (-> & -> & _).
  apply Hk. by eapply (ok_trans K Henv).
Qed.

(** The messages a run is given, and the calls it resumes. *)
Definition entry_given (entry : RunEntry) : list AgentMessage := match entry with En_prompt prompts => prompts | _ => [] end.

Definition entry_resumes (entry : RunEntry) (context : AgentContext E X) : option PendingToolCalls :=
  match entry with En_resume => findPendingToolCalls (ac_messages context) | _ => None end.

(** Every run follows the protocol, from its entry point to its result. *)
Lemma enter_rule fuel entry context config m e0 :
  context_ok hook context -> config_ok hook config ->
  enter fuel entry context config streamFunction = inr m ->
  triple K e0 (quiet Ph_before) [] m (run_done (entry_resumes entry context) (entry_given entry)).
Proof using Henv Habort Hstreams.
  intros Hctx Hcfg Hm.
  assert (forall e new resume, match resume with Some p => new = [] /\ findPendingToolCalls (ac_messages context) = Some p
                               | None => True end ->
    forall context', context_ok hook context' -> triple K e (quiet Ph_turn) new
      (runLoop error_text validateToolArguments fuel context' new config streamFunction resume)
      (run_done resume new)) as Hloop.
  { intros e new resume Hres context' Hctx'.
    by apply (runLoop_rule _ _ K Henv Habort streamFunction Hstreams free_of_charge) with (base := ac_messages context); [|apply free_streams|..|apply free_config|]. }
  destruct entry as [prompts| |]; simpl in Hm |- *.
  - injection Hm as <-. unfold runAgentLoop. apply start_rule. intros e _.
    bind_same @each_message_rule. by apply Hloop.
  - unfold runAgentLoopContinue in Hm. destruct (last (ac_messages context)) as [[[]| | | |]|]; try done;
      injection Hm as <-; apply start_rule; intros e _; by apply Hloop.
  - unfold runAgentLoopResume in Hm. destruct (findPendingToolCalls (ac_messages context)) as [pending|] eqn:Hp; [|done].
    injection Hm as <-. apply start_rule. intros e _. by apply Hloop.
Qed.
End Entries.

(** ** Claims *)

(** Hooks, tools and the sink cannot undo an abort. *)
Definition abort_final `{AgentEnv E} (e e' : E) : Prop := aborted e = true -> aborted e' = true.

Section Claims.
Context {E X : Type} `{AgentEnv E}.
Context (error_text : X -> jstring).
Context (validateToolArguments : AgentTool E X -> ToolCall -> Result X json).
Context (fuel : nat) (entry : RunEntry) (context : AgentContext E X) (config : AgentLoopConfig E X)
  (streamFunction : StreamFn E X).

(** C30: the events of every run, whether it returns, throws or is cut short,
    form a prefix of the protocol: turns nest in the run, messages and tool
    executions in turns, an end follows its own start; a run that returns [l]
    has ended with [agent_end l]. *)
Theorem run_follows_protocol m e st o :
  env_ok (plain abort_final) -> context_ok abort_final context -> config_ok abort_final config ->
  streams_ok abort_final streamFunction ->
  enter error_text validateToolArguments fuel entry context config streamFunction = inr m ->
  m (initial e) = (st, o) ->
  exists p, protocol_run (quiet Ph_before) (ls_trace st) p /\ (forall l, o = Done l -> p = quiet (Ph_ended l)).
Proof.
  intros Henv Hctx Hcfg Hs Hm Hrun.
  pose proof (enter_rule _ _ (plain abort_final) Henv (fun _ _ H => H) _ Hs _ _ _ _ _ e Hctx Hcfg Hm _ (at_initial _ Henv e I)) as Ht.
  rewrite Hrun in Ht. destruct o as [l|x|].
  - destruct Ht as (p & ms & (Hp & _) & -> & _). exists (quiet (Ph_ended l)). split; [done|]. by intros l' [= ->].
  - destruct Ht as (p & ms & Hp & _). by exists p.
  - destruct Ht as (p & ms & Hp & _). by exists p.
Qed.

(** the messages a run returns are exactly the ones it announced with
    [message_end], in that order, and the list it passes to [agent_end]. *)
Theorem run_returns_announced m e st l :
  env_ok (plain abort_final) -> context_ok abort_final context -> config_ok abort_final config ->
  streams_ok abort_final streamFunction ->
  enter error_text validateToolArguments fuel entry context config streamFunction = inr m ->
  m (initial e) = (st, Done l) ->
  ended_messages (ls_trace st) = l /\ last (ls_trace st) = Some (AE_agent_end l).
Proof.
  intros Henv Hctx Hcfg Hs Hm Hrun.
  pose proof (enter_rule _ _ (plain abort_final) Henv (fun _ _ H => H) _ Hs _ _ _ _ _ e Hctx Hcfg Hm _ (at_initial _ Henv e I)) as Ht.
  rewrite Hrun in Ht. destruct Ht as (p & ms & (Hp & Hms & _) & -> & -> & _). split; [done|].
  inversion Hp as [|? tr q ev q' Hpre Hstep Htr Hq]; subst. rewrite last_snoc. by inversion Hstep; subst.
Qed.


(** a tool batch, sequential or concurrent under any scheduler, returns the
    results of its calls in source order; only an abort leaves a suffix of the
    calls unanswered. *)
Theorem batch_answers_in_order message calls st st' batch :
  env_ok (plain abort_final) -> context_ok abort_final context -> config_ok abort_final config ->
  protocol_run (quiet Ph_before) (ls_trace st) (quiet Ph_turn) ->
  executeToolCalls error_text validateToolArguments fuel context message config calls st = (st', Done batch) ->
  exists answered unanswered, calls = answered ++ unanswered /\ Forall2 answers answered (batch_messages batch) /\
    (aborted (ls_env st') = false -> unanswered = []).
Proof.
  intros Henv Hctx Hcfg Hp Hrun.
  pose proof (executeToolCalls_rule error_text validateToolArguments (plain abort_final) Henv (fun _ _ H => H) (ls_env st)
    (ended_messages (ls_trace st)) fuel context message config calls Hctx Hcfg st) as Ht.
  rewrite Hrun in Ht. destruct Ht as (p & ms & _ & _ & _ & Hset); [|done].
  split; [done|]. split; [done|]. split; [apply (ok_refl _ Henv)|done].
Qed.

(** The queue as it was when the run was aborted. *)
Context (queue : E -> list AgentMessage) (at_abort : E -> option (list AgentMessage)).

Definition queue_frozen (e : E) : Prop := forall q, at_abort e = Some q -> queue e = q.

(** Only the loop's own polls take messages, and the abort is recorded once. *)
Definition keeps_queue (e e' : E) : Prop :=
  (forall q, at_abort e = Some q -> at_abort e' = Some q) /\ (queue_frozen e -> queue_frozen e').

(** what was queued when a run was aborted is still queued when the run
    ends, however it ends: an aborted run takes nothing from its queues. *)
Theorem run_keeps_queue_after_abort m e st o :
  (forall e, aborted e = true <-> at_abort e <> None) ->
  env_ok (plain keeps_queue) -> context_ok keeps_queue context -> config_ok keeps_queue config ->
  streams_ok keeps_queue streamFunction ->
  enter error_text validateToolArguments fuel entry context config streamFunction = inr m ->
  m (initial e) = (st, o) -> queue_frozen e -> queue_frozen (ls_env st).
Proof.
  intros Habort Henv Hctx Hcfg Hs Hm Hrun.
  assert (forall e e', keeps_queue e e' -> aborted e = true -> aborted e' = true) as Hk.
  { intros e1 e2 [Hq _]. rewrite !Habort. destruct (at_abort e1) as [q|]; [|done]. intros _. by rewrite (Hq q). }
  pose proof (enter_rule _ _ (plain keeps_queue) Henv Hk _ Hs _ _ _ _ _ e Hctx Hcfg Hm _ (at_initial _ Henv e I)) as Ht.
  rewrite Hrun in Ht. destruct o as [l|x|].
  - destruct Ht as (p & ms & (_ & _ & (_ & Hf) & _) & _). exact Hf.
  - destruct Ht as (p & ms & _ & _ & (_ & Hf) & _). exact Hf.
  - destruct Ht as (p & ms & _ & _ & (_ & Hf) & _). exact Hf.
Qed.
End Claims.

(** The entry points, with the fuel as a parameter. *)
Section Fueled.
Context {E X : Type} `{AgentEnv E}.
Context (error_text : X -> jstring).
Context (validateToolArguments : AgentTool E X -> ToolCall -> Result X json).
Context (K : Contract E) (Henv : env_ok K).

Definition started_run {A} (k : M (X := X) A) : M A :=
  bind (emit AE_agent_start) (fun _ => bind (emit AE_turn_start) (fun _ => k)).

Lemma started_monotone {A} (k : nat -> M (X := X) A) : monotone k -> monotone (fun f => started_run (k f)).
Proof. intros Hk. apply monotone_bind; [apply monotone_const|]. intros _. apply monotone_bind; [apply monotone_const|done]. Qed.

Lemma started_halts {A} (k : nat -> M (X := X) A) e :
  c_reflects K (quiet Ph_before) [] e -> (forall st, at_ K e (quiet Ph_turn) [] st -> halts k st) -> halts (fun f => started_run (k f)) (initial e).
Proof using Henv.
  intros HI Hk. destruct (Hk {| ls_env := sink (sink e AE_agent_start) AE_turn_start;
                             ls_trace := [AE_agent_start; AE_turn_start] |}) as [f Hf]; [|by exists f].
  destruct (ok_sink K Henv _ _ _ _ _ ps_agent_start HI) as [HR1 HI1].
  destruct (ok_sink K Henv _ _ _ _ _ ps_turn_start HI1) as [HR2 HI2].
  split; [|split; [done|split; [by eapply (ok_trans K Henv)|done]]].
  apply (pr_snoc _ [AE_agent_start] (quiet Ph_between)); [|constructor].
  apply (pr_snoc _ [] (quiet Ph_before)); constructor.
Qed.
End Fueled.

Lemma enter_halts {E X : Type} `{AgentEnv E} (error_text : X -> jstring)
    (validateToolArguments : AgentTool E X -> ToolCall -> Result X json) (budget : E -> nat)
    (entry : RunEntry) (context : AgentContext E X) (config : AgentLoopConfig E X) (streamFunction : StreamFn E X) (e : E) :
  env_ok (plain (within budget)) -> context_ok (within budget) context -> config_ok (within budget) config ->
  config_costs (spends budget) config ->
  streams_ok (within budget) streamFunction -> streams_cost (spends budget) streamFunction ->
  (exists m, enter error_text validateToolArguments 0 entry context config streamFunction = inr m) ->
  exists m, (forall fuel, enter error_text validateToolArguments fuel entry context config streamFunction = inr (m fuel)) /\
    monotone m /\ halts m (initial e).
Proof.
  intros Henv Hctx Hcfg Hcc Hs Hsc [m0 Hm0].
  pose proof (runLoop_halts error_text validateToolArguments budget Henv streamFunction Hs Hsc (ac_messages context)) as Hloop.
  assert (forall new resume context', monotone (fun f =>
    runLoop error_text validateToolArguments f context' new config streamFunction resume)) as Hmono
    by (intros; apply runLoop_monotone).
  destruct entry as [prompts| |]; simpl in Hm0 |- *.
  - exists (fun f => started_run (bind (each emit_message prompts) (fun _ => runLoop error_text validateToolArguments f
      (with_messages context (ac_messages context ++ prompts)) prompts config streamFunction None))).
    split; [done|]. split; [apply started_monotone, monotone_bind; [apply monotone_const|done]|].
    apply (started_halts _ Henv); [done|]. intros st Hst.
    pose proof (each_message_rule (X := X) _ Henv e [] prompts st Hst) as He.
    apply halts_bind; [apply monotone_const|done|apply halts_total, total_each|].
    intros _ st1 a Ha. rewrite Ha in He. destruct He as (p & ms & Hst1 & -> & -> & _). by eapply Hloop.
  - exists (fun f => started_run (runLoop error_text validateToolArguments f context [] config streamFunction None)).
    unfold runAgentLoopContinue in *. split; [intros f; by destruct (last (ac_messages context)) as [[[]| | | |]|]|].
    split; [by apply started_monotone|]. apply (started_halts _ Henv); [done|]. intros st Hst. by eapply Hloop.
  - unfold runAgentLoopResume in *. destruct (findPendingToolCalls (ac_messages context)) as [pending|] eqn:Hp; [|done].
    exists (fun f => started_run (runLoop error_text validateToolArguments f context [] config streamFunction (Some pending))).
    split; [done|]. split; [by apply started_monotone|]. apply (started_halts _ Henv); [done|]. intros st Hst. by eapply Hloop.
Qed.

(** C32: a run ends, and its outcome does not depend on the fuel once there is
    enough, when its hooks never raise a budget that every answer with tool
    calls and every non-empty queue lowers. *)
Theorem run_terminates {E X : Type} `{AgentEnv E} (error_text : X -> jstring)
    (validateToolArguments : AgentTool E X -> ToolCall -> Result X json) (budget : E -> nat)
    (entry : RunEntry) (context : AgentContext E X) (config : AgentLoopConfig E X) (streamFunction : StreamFn E X) (e : E) :
  env_ok (plain (within budget)) -> context_ok (within budget) context -> config_ok (within budget) config ->
  config_costs (spends budget) config ->
  streams_ok (within budget) streamFunction -> streams_cost (spends budget) streamFunction ->
  (exists m, enter error_text validateToolArguments 0 entry context config streamFunction = inr m) ->
  exists st o enough, o <> OutOfFuel /\ forall fuel, (enough <= fuel)%nat ->
    exists m, enter error_text validateToolArguments fuel entry context config streamFunction = inr m /\
      m (initial e) = (st, o).
Proof.
  intros Henv Hctx Hcfg Hcc Hs Hsc Hm0.
  destruct (enter_halts error_text validateToolArguments budget entry context config streamFunction e
    Henv Hctx Hcfg Hcc Hs Hsc Hm0) as (m & Hm & Hmono & f & Hf).
  destruct (m f (initial e)) as [st o] eqn:Hrun. exists st, o, f. split; [done|]. intros fuel Hle. exists (m fuel).
  split; [done|]. by rewrite (Hmono f fuel Hle (initial e)), Hrun by (by rewrite Hrun).
Qed.

(** the pending calls of a transcript are the calls of its last assistant
    message without a result, when that message asked for tools and no user
    message follows it. *)
Theorem findPendingToolCalls_spec messages assistantMessage toolCalls :
  findPendingToolCalls messages = Some {| ptcs_assistantMessage := assistantMessage; ptcs_toolCalls := toolCalls |} <->
  exists before after, messages = before ++ assistant assistantMessage :: after /\ Forall follows_batch after /\
    asst_stopReason assistantMessage = SR_toolUse /\ toolCalls = unanswered assistantMessage after /\ toolCalls <> [].
Proof.
  split; [apply findPending_some|]. intros (before & after & -> & Ha & Hs & -> & Hn).
  rewrite (findPending_after _ _ _ Ha), bool_decide_true by done. unfold pending_of. by destruct (unanswered _ _).
Qed.

(** ** A concrete environment *)

Module Demo.

(** The provider's answers still to come, the steering queue, and the queue at
    the time of an abort. *)
Record Env := {
  env_time : Z;
  env_answers : list AssistantMessage;
  env_queue : list AgentMessage;
  env_abort : option (list AgentMessage) }.

#[global] Instance demo_env : AgentEnv Env := {
  sink e _ := e;
  aborted e := match env_abort e with Some _ => true | None => false end;
  clock_now e := ({| env_time := (env_time e + 1)%Z; env_answers := env_answers e; env_queue := env_queue e;
                     env_abort := env_abort e |}, env_time e);
  pick e n := (e, (n - 1)%nat) }.

Definition abort (e : Env) : Env :=
  match env_abort e with
  | Some _ => e
  | None => {| env_time := env_time e; env_answers := env_answers e; env_queue := env_queue e;
               env_abort := Some (env_queue e) |}
  end.

Definition text_result (t : jstring) : AgentToolResult :=
  {| atr_content := Some [UB_text {| text_text := t; text_textSignature := None |}]; atr_details := None;
     atr_structuredContent := None; atr_isError := None; atr_usage := None; atr_addedToolNames := None;
     atr_terminate := None |}.

Definition tool (name : jstring) (step : Env -> Env) : AgentTool Env jstring :=
  {| tool_name := name; tool_description := []; tool_parameters := JNull; tool_prepareArguments := None;
     tool_execute := fun e _ _ =>
       (e, TRun_update (text_result (js "working"))
             (TRun_await step (fun _ => TRun_return (Ok (text_result (js "done"))))));
     tool_executionMode := None; tool_replay := Some TR_safe |}.

Definition answer (stopReason : StopReason) (content : list AssistantBlock) : AssistantMessage :=
  {| asst_content := content; asst_api := []; asst_provider := []; asst_model := []; asst_responseModel := None;
     asst_responseId := None; asst_diagnostics := None; asst_usage := ex_zero_usage; asst_stopReason := stopReason;
     asst_deferred := None; asst_errorMessage := None; asst_rawStopReason := None; asst_endTurn := None;
     asst_timestamp := 0 |}.

Definition calls (i name : jstring) : AssistantBlock :=
  AB_toolCall {| toolCall_id := i; toolCall_name := name; toolCall_arguments := []; toolCall_thoughtSignature := None;
                 toolCall_namespace := None |}.

Definition user (t : jstring) : AgentMessage := AM_message (M_user {| user_content := UC_string t; user_timestamp := 0 |}).

(** The next recorded answer, announced and then delivered. *)
Definition stream : StreamFn Env jstring := fun _ e =>
  match env_answers e with
  | [] => (e, Err (js "no answer"))
  | m :: rest =>
      ({| env_time := env_time e; env_answers := rest; env_queue := env_queue e; env_abort := env_abort e |},
       Ok (ST_event (SE_start m) (fun e => e) (fun _ =>
           ST_event (SE_text_delta 0 (js "x") m) (fun e => e) (fun _ =>
           ST_event (SE_done m) (fun e => e) (fun _ => ST_end (Ok m))))))
  end.

Definition take_one : Call Env jstring (list AgentMessage) := fun e =>
  match env_queue e with
  | [] => (e, Ok [])
  | m :: rest =>
      ({| env_time := env_time e; env_answers := env_answers e; env_queue := rest; env_abort := env_abort e |}, Ok [m])
  end.

Definition config : AgentLoopConfig Env jstring :=
  {| cfg_model := {| model_id := []; model_api := []; model_provider := []; model_reasoning := false; model_contextWindow := 1000;
                     model_maxTokens := 100 |};
     cfg_reasoning := None; cfg_apiKey := None; cfg_suppressAssistantText := false; cfg_toolExecution := None;
     cfg_convertToLlm := fun _ e => (e, Ok []); cfg_transformContext := None; cfg_getApiKey := None;
     cfg_shouldStopAfterTurn := None; cfg_prepareNextTurn := None; cfg_prepareInitialTurn := None;
     cfg_getSteeringMessages := Some take_one; cfg_onSteeringBatch := None; cfg_getFollowUpMessages := None;
     cfg_beforeToolCall := None; cfg_afterToolCall := None; cfg_resolveToolAvailability := None;
     cfg_onToolBatchCompleted := None |}.

Definition context (messages : list AgentMessage) : AgentContext Env jstring :=
  {| ac_systemPrompt := []; ac_messages := messages;
     ac_tools := Some [tool (js "read") (fun e => e); tool (js "stop") abort] |}.

Definition start (answers : list AssistantMessage) (queue : list AgentMessage) : Env :=
  {| env_time := 0; env_answers := answers; env_queue := queue; env_abort := None |}.

Definition validate (t : AgentTool Env jstring) (c : ToolCall) : Result jstring json := Ok (JObject []).

Definition budget (e : Env) : nat := length (env_answers e) + length (env_queue e).

(** Two concurrent calls, then an answer. *)
Definition two_turns : list AssistantMessage :=
  [answer SR_toolUse [calls (js "a") (js "read"); calls (js "b") (js "read")]; answer SR_stop []].

(** A call that aborts the run, with a message queued. *)
Definition aborting : list AssistantMessage := 
  [answer SR_toolUse [calls (js "a") (js "stop"); calls (js "b") (js "read")]; answer SR_aborted []].

Definition run (entry : RunEntry) (messages : list AgentMessage) (fuel : nat) : M (list AgentMessage) :=
  match enter (fun x => x) validate fuel entry (context messages) config stream with inr m => m | inl _ => ret [] end.

Definition result (entry : RunEntry) (messages : list AgentMessage) (e : Env) := run entry messages 20 (initial e).

Lemma contracts (R : Env -> Env -> Prop) :
  Reflexive R -> Transitive R -> (forall e, R e (clock_now e).1) -> (forall e, R e (abort e)) ->
  (forall request e, R e (stream request e).1) -> (forall e, env_abort e = None -> R e (take_one e).1) ->
  env_ok (plain R) /\ (forall messages, context_ok R (context messages)) /\ config_ok R config /\ streams_ok R stream.
Proof.
  intros Hr Ht Hclock Habort Hstream Hqueue. split; [|split; [|split]].
  - by constructor.
  - intros messages. repeat constructor; simpl; auto.
  - constructor; simpl; try done. intros e He. apply Hqueue. by destruct (env_abort e).
  - intros request e. split; [apply Hstream|]. unfold stream. destruct (env_answers e); simpl; [done|].
    repeat split; auto.
Qed.

Lemma abort_contracts :
  env_ok (E := Env) (plain abort_final) /\ (forall messages, context_ok abort_final (context messages)) /\
  config_ok abort_final config /\ streams_ok abort_final stream.
Proof.
  apply contracts; unfold abort_final; simpl; try done.
  - by intros e.
  - intros a b c Hab Hbc Ha. by apply Hbc, Hab.
  - intros e. unfold abort. by destruct (env_abort e) eqn:He; rewrite ?He.
  - intros request e. unfold stream. by destruct (env_answers e).
  - intros e He. unfold take_one. by destruct (env_queue e).
Qed.

Lemma queue_contracts :
  env_ok (plain (keeps_queue env_queue env_abort)) /\ (forall messages, context_ok (keeps_queue env_queue env_abort) (context messages)) /\
  config_ok (keeps_queue env_queue env_abort) config /\ streams_ok (keeps_queue env_queue env_abort) stream.
Proof.
  apply contracts; unfold keeps_queue, queue_frozen; simpl.
  - by intros e; split.
  - intros a b c [Hab Hfab] [Hbc Hfbc]. split; [auto|]. intros Hf q Hq. by apply Hfbc; [apply Hfab|].
  - by intros e; split.
  - intros e. unfold abort. destruct (env_abort e) eqn:He; [by rewrite He|]. simpl. split; [done|]. by intros _ q [= <-].
  - intros request e. unfold stream. by destruct (env_answers e).
  - intros e He. unfold take_one. destruct (env_queue e); simpl; rewrite He; done.
Qed.

Lemma budget_contracts :
  env_ok (plain (within budget)) /\ (forall messages, context_ok (within budget) (context messages)) /\
  config_ok (within budget) config /\ streams_ok (within budget) stream.
Proof.
  apply contracts; unfold within, budget; simpl.
  - by intros e; split.
  - intros a b c [Hab Hfab] [Hbc Hfbc]. split; [auto|lia].
  - by intros e; split.
  - intros e. unfold abort. by destruct (env_abort e) eqn:He; rewrite ?He.
  - intros request e. unfold stream. destruct (env_answers e) eqn:He; simpl; rewrite ?He; simpl; split; (done || lia).
  - intros e He. unfold take_one. destruct (env_queue e) eqn:Hq; simpl; rewrite ?Hq; simpl; split; (done || lia).
Qed.

Lemma config_pays : config_costs (spends budget) config.
Proof.
  split; [|done]. intros e _. unfold take_one, spends, budget. destruct (env_queue e) as [|m l] eqn:Hq; simpl; [done|].
  lia.
Qed.

Lemma streams_pay : streams_cost (spends budget) stream.
Proof.
  intros request e. unfold stream, spends, budget. destruct (env_answers e) as [|m l] eqn:Ha; simpl; [done|].
  right. lia.
Qed.

(** Two turns with a concurrent batch. *)
Definition hello : RunEntry := En_prompt [user (js "hi")].
Definition two : LoopState * Out jstring (list AgentMessage) := result hello [] (start two_turns [user (js "also")]).

(** The same, aborted by a tool while a message waits. *)
Definition stopped_run : LoopState * Out jstring (list AgentMessage) := 
  result hello [] (start aborting [user (js "one"); user (js "two")]).

(** An interrupted batch is resumed. *)
Definition interrupted : list AgentMessage :=
  [user (js "hi"); assistant (answer SR_toolUse [calls (js "a") (js "read"); calls (js "b") (js "gone")])].
Definition resumed : LoopState * Out jstring (list AgentMessage) :=
  result En_resume interrupted (start [answer SR_stop []] []).
Definition messages_of (o : Out jstring (list AgentMessage)) : list AgentMessage := match o with Done l => l | _ => [] end.

Lemma run_follows_protocol_witness :
  exists p, protocol_run (quiet Ph_before) (ls_trace two.1) p /\ length (ls_trace two.1) = 26%nat.
Proof.
  destruct abort_contracts as (H1 & H2 & H3 & H4).
  destruct (run_follows_protocol (fun x => x) validate 20 hello (context []) config stream
    (run hello [] 20) (start two_turns [user (js "also")]) two.1 two.2 H1 (H2 _) H3 H4 eq_refl (surjective_pairing _))
    as (p & Hp & _).
  exists p. split; [exact Hp|]. vm_compute. reflexivity.
Defined.

Lemma run_returns_announced_witness :
  ended_messages (ls_trace two.1) = messages_of two.2 /\ length (messages_of two.2) = 6%nat.
Proof.
  destruct abort_contracts as (H1 & H2 & H3 & H4). split; [|vm_compute; reflexivity].
  refine (proj1 (run_returns_announced (fun x => x) validate 20 hello (context []) config stream
    (run hello [] 20) (start two_turns [user (js "also")]) two.1 (messages_of two.2) H1 (H2 _) H3 H4 eq_refl _)).
  vm_compute. reflexivity.
Defined.


(** An answer that failed ends the run, and its call stays without a result. *)
Example failed_answer_unanswered :
  match result hello [] (start [answer SR_error [calls (js "a") (js "read")]] []) with
  | (st, Done l) => aborted (ls_env st) = false /\ l = [user (js "hi"); assistant (answer SR_error [calls (js "a") (js "read")])]
  | _ => False
  end.
Proof. vm_compute. split; reflexivity. Qed.

(** A batch inside a turn. *)
Definition batch_calls : list ToolCall := message_tool_calls (answer SR_toolUse [calls (js "a") (js "read"); calls (js "b") (js "gone")]).
Definition in_turn : LoopState := {| ls_env := start [] []; ls_trace := [AE_agent_start; AE_turn_start] |}.
Definition batch : LoopState * Out jstring ExecutedToolCallBatch :=
  executeToolCalls (fun x => x) validate 20 (context []) (answer SR_toolUse []) config batch_calls in_turn.
Definition batch_of (o : Out jstring ExecutedToolCallBatch) : ExecutedToolCallBatch :=
  match o with Done b => b | _ => {| batch_messages := []; batch_terminate := false |} end.

Lemma batch_answers_in_order_witness :
  exists answered unanswered, batch_calls = answered ++ unanswered /\ Forall2 answers answered (batch_messages (batch_of batch.2)) /\
    length (batch_messages (batch_of batch.2)) = 2%nat.
Proof.
  destruct abort_contracts as (H1 & H2 & H3 & _).
  destruct (batch_answers_in_order (fun x => x) validate 20 (context []) config (answer SR_toolUse []) batch_calls
    in_turn batch.1 (batch_of batch.2) H1 (H2 _) H3) as (finished & rest & Hc & Hf & _).
  - apply (pr_snoc _ [AE_agent_start] (quiet Ph_between)); [|constructor].
    apply (pr_snoc _ [] (quiet Ph_before)); constructor.
  - vm_compute. reflexivity.
  - exists finished, rest. split; [exact Hc|]. split; [exact Hf|]. vm_compute. reflexivity.
Defined.

Lemma run_keeps_queue_after_abort_witness :
  env_abort (ls_env stopped_run.1) = Some [user (js "two")] /\ queue_frozen env_queue env_abort (ls_env stopped_run.1).
Proof.
  destruct queue_contracts as (H1 & H2 & H3 & H4). split; [vm_compute; reflexivity|].
  refine (run_keeps_queue_after_abort (fun x => x) validate 20 hello (context []) config stream env_queue env_abort
    (run hello [] 20) (start aborting [user (js "one"); user (js "two")]) stopped_run.1 stopped_run.2
    _ H1 (H2 _) H3 H4 eq_refl (surjective_pairing _) _); [|intros q Hq; discriminate].
  intros e. simpl. destruct (env_abort e); split; done.
Defined.

Lemma run_terminates_witness :
  exists st o enough, o <> OutOfFuel /\ forall fuel, (enough <= fuel)%nat ->
    exists m, enter (fun x => x) validate fuel hello (context []) config stream = inr m /\
      m (initial (start two_turns [user (js "also")])) = (st, o).
Proof.
  destruct budget_contracts as (H1 & H2 & H3 & H4).
  exact (run_terminates (fun x => x) validate budget hello (context []) config stream (start two_turns [user (js "also")])
    H1 (H2 _) H3 config_pays H4 streams_pay (ex_intro _ _ eq_refl)).
Defined.
End Demo.
