(* ===== verification/Agent.v ===== *)
(** * The agent

    packages/agent/src/agent.ts: the class around the agent loop.  It owns the
    transcript, the steering and follow-up queues and the active run, reduces
    the loop's events into its state and tells its listeners.

    An [Agent] is the environment the loop runs in: [processEvents] is the sink
    and the abort flag of the active run the signal.  [W] is the rest of the
    world, with its clock and its scheduling of concurrent tools.  Listeners do
    not throw; they answer an event with calls of the agent's methods.  Tools
    and hooks are functions of the agent, passed to each operation, so that the
    state does not contain itself.  [skipInitialSteeringPoll], a variable
    captured by the loop's configuration, is a field of the agent. *)

From stdpp Require Import base list strings.
From Stdlib Require Import ZArith Lia.
From S2P Require Import Prelude SessionTypes Numbers SessionContext Compaction Retry Summary AgentLoop.

(** ** Queues *)

Inductive QueueMode := QM_all | QM_one_at_a_time.

Record PendingMessageQueue := { pq_messages : list AgentMessage; pq_mode : QueueMode }.

Definition new_queue (mode : QueueMode) : PendingMessageQueue := {| pq_messages := []; pq_mode := mode |}.

Definition enqueue (message : AgentMessage) (q : PendingMessageQueue) : PendingMessageQueue :=
  {| pq_messages := pq_messages q ++ [message]; pq_mode := pq_mode q |}.

Definition hasItems (q : PendingMessageQueue) : bool := match pq_messages q with [] => false | _ => true end.

Definition drain (q : PendingMessageQueue) : PendingMessageQueue * list AgentMessage :=
  match pq_mode q with
  | QM_all => ({| pq_messages := []; pq_mode := pq_mode q |}, pq_messages q)
  | QM_one_at_a_time =>
      match pq_messages q with
      | [] => (q, [])
      | first :: rest => ({| pq_messages := rest; pq_mode := pq_mode q |}, [first])
      end
  end.

Definition clear (q : PendingMessageQueue) : PendingMessageQueue := {| pq_messages := []; pq_mode := pq_mode q |}.

Definition set_mode (mode : QueueMode) (q : PendingMessageQueue) : PendingMessageQueue :=
  {| pq_messages := pq_messages q; pq_mode := mode |}.

(** ** State *)

(** [AgentState]; the tools are an argument of the operations. *)
Record AgentState := {
  as_systemPrompt : jstring;
  as_model : Model;
  as_thinkingLevel : jstring;
  as_messages : list AgentMessage;
  as_isStreaming : bool;
  as_streamingMessage : option AgentMessage;
  as_pendingToolCalls : list jstring;
  as_errorMessage : option jstring }.

(** The fields a run changes. *)
Definition with_run (s : AgentState) (messages : list AgentMessage) (isStreaming : bool)
    (streamingMessage : option AgentMessage) (pendingToolCalls : list jstring) (errorMessage : option jstring) :
    AgentState :=
  {| as_systemPrompt := as_systemPrompt s; as_model := as_model s; as_thinkingLevel := as_thinkingLevel s;
     as_messages := messages; as_isStreaming := isStreaming; as_streamingMessage := streamingMessage;
     as_pendingToolCalls := pendingToolCalls; as_errorMessage := errorMessage |}.

(** [ag_activeRun] is the abort flag of the active run. *)
Record Agent (W : Type) := {
  ag_state : AgentState;
  ag_steeringQueue : PendingMessageQueue;
  ag_followUpQueue : PendingMessageQueue;
  ag_activeRun : option bool;
  ag_skipPoll : bool;
  ag_world : W }.
Arguments ag_state {W}. Arguments ag_steeringQueue {W}. Arguments ag_followUpQueue {W}.
Arguments ag_activeRun {W}. Arguments ag_skipPoll {W}. Arguments ag_world {W}.

Inductive AgentError :=
| Agent_already_processing
| Agent_already_processing_prompt
| Agent_busy_resetting
| Agent_busy_continuing
| Agent_busy_resuming
| Agent_no_messages
| Agent_cannot_continue
| Agent_outside_active_run.

(** The methods a listener or a hook may call during a run. *)
Inductive AgentCall :=
| AC_steer (message : AgentMessage)
| AC_followUp (message : AgentMessage)
| AC_clearSteeringQueue
| AC_clearFollowUpQueue
| AC_clearAllQueues
| AC_steeringMode (mode : QueueMode)
| AC_followUpMode (mode : QueueMode)
| AC_abort.

Section Agents.
Context {W X : Type}.
Context (error_text : X -> jstring).

Definition with_state (a : Agent W) (s : AgentState) : Agent W :=
  {| ag_state := s; ag_steeringQueue := ag_steeringQueue a; ag_followUpQueue := ag_followUpQueue a;
     ag_activeRun := ag_activeRun a; ag_skipPoll := ag_skipPoll a; ag_world := ag_world a |}.

Definition with_queues (a : Agent W) (steering followUp : PendingMessageQueue) : Agent W :=
  {| ag_state := ag_state a; ag_steeringQueue := steering; ag_followUpQueue := followUp;
     ag_activeRun := ag_activeRun a; ag_skipPoll := ag_skipPoll a; ag_world := ag_world a |}.

Definition with_active (a : Agent W) (run : option bool) : Agent W :=
  {| ag_state := ag_state a; ag_steeringQueue := ag_steeringQueue a; ag_followUpQueue := ag_followUpQueue a;
     ag_activeRun := run; ag_skipPoll := ag_skipPoll a; ag_world := ag_world a |}.

Definition with_skip (a : Agent W) (skip : bool) : Agent W :=
  {| ag_state := ag_state a; ag_steeringQueue := ag_steeringQueue a; ag_followUpQueue := ag_followUpQueue a;
     ag_activeRun := ag_activeRun a; ag_skipPoll := skip; ag_world := ag_world a |}.

Definition with_world (a : Agent W) (w : W) : Agent W :=
  {| ag_state := ag_state a; ag_steeringQueue := ag_steeringQueue a; ag_followUpQueue := ag_followUpQueue a;
     ag_activeRun := ag_activeRun a; ag_skipPoll := ag_skipPoll a; ag_world := w |}.

(** ** Methods *)

Definition steer (message : AgentMessage) (a : Agent W) : Agent W :=
  with_queues a (enqueue message (ag_steeringQueue a)) (ag_followUpQueue a).
Definition followUp (message : AgentMessage) (a : Agent W) : Agent W :=
  with_queues a (ag_steeringQueue a) (enqueue message (ag_followUpQueue a)).
Definition clearSteeringQueue (a : Agent W) : Agent W := with_queues a (clear (ag_steeringQueue a)) (ag_followUpQueue a).
Definition clearFollowUpQueue (a : Agent W) : Agent W := with_queues a (ag_steeringQueue a) (clear (ag_followUpQueue a)).
Definition clearAllQueues (a : Agent W) : Agent W := clearFollowUpQueue (clearSteeringQueue a).
Definition hasQueuedMessages (a : Agent W) : bool := hasItems (ag_steeringQueue a) || hasItems (ag_followUpQueue a).

(** [this.activeRun?.abortController.abort()] *)
Definition abort (a : Agent W) : Agent W :=
  match ag_activeRun a with Some _ => with_active a (Some true) | None => a end.

Definition perform (a : Agent W) (c : AgentCall) : Agent W :=
  match c with
  | AC_steer m => steer m a
  | AC_followUp m => followUp m a
  | AC_clearSteeringQueue => clearSteeringQueue a
  | AC_clearFollowUpQueue => clearFollowUpQueue a
  | AC_clearAllQueues => clearAllQueues a
  | AC_steeringMode mode => with_queues a (set_mode mode (ag_steeringQueue a)) (ag_followUpQueue a)
  | AC_followUpMode mode => with_queues a (ag_steeringQueue a) (set_mode mode (ag_followUpQueue a))
  | AC_abort => abort a
  end.

Definition reset (a : Agent W) : Agent W * option AgentError :=
  match ag_activeRun a with
  | Some _ => (a, Some Agent_busy_resetting)
  | None =>
      (clearSteeringQueue (clearFollowUpQueue (with_state a (with_run (ag_state a) [] false None [] None))), None)
  end.

(** ** Events *)

(** [(event, signal) => ...]: the world after it, and the methods it called. *)
Definition Listener : Type := AgentEvent -> bool -> W -> W * list AgentCall.

Definition notify (event : AgentEvent) (a : Agent W) (listener : Listener) : Agent W :=
  let (w, calls) := listener event (default false (ag_activeRun a)) (ag_world a) in
  foldl perform (with_world a w) calls.

(** The switch of [processEvents]. *)
Definition reduce_event (event : AgentEvent) (s : AgentState) : AgentState :=
  match event with
  | AE_message_start message | AE_message_update message _ =>
      with_run s (as_messages s) (as_isStreaming s) (Some message) (as_pendingToolCalls s) (as_errorMessage s)
  | AE_message_end message =>
      with_run s (as_messages s ++ [message]) (as_isStreaming s) None (as_pendingToolCalls s) (as_errorMessage s)
  | AE_tool_execution_start toolCallId _ _ _ =>
      with_run s (as_messages s) (as_isStreaming s) (as_streamingMessage s)
        (set_add toolCallId (as_pendingToolCalls s)) (as_errorMessage s)
  | AE_tool_execution_end toolCallId _ _ _ _ =>
      with_run s (as_messages s) (as_isStreaming s) (as_streamingMessage s)
        (List.filter (fun i => negb (bool_decide (i = toolCallId))) (as_pendingToolCalls s)) (as_errorMessage s)
  | AE_turn_end (AM_message (M_assistant m)) _ =>
      with_run s (as_messages s) (as_isStreaming s) (as_streamingMessage s) (as_pendingToolCalls s)
        (match truthy (asst_errorMessage m) with Some text => Some text | None => as_errorMessage s end)
  | AE_agent_end _ =>
      with_run s (as_messages s) (as_isStreaming s) None (as_pendingToolCalls s) (as_errorMessage s)
  | _ => s
  end.

Definition processEvents (listeners : list Listener) (event : AgentEvent) (a : Agent W) : Agent W * option AgentError :=
  let a := with_state a (reduce_event event (ag_state a)) in
  match ag_activeRun a with
  | None => (a, Some Agent_outside_active_run)
  | Some _ => (foldl (notify event) a listeners, None)
  end.

(** ** The loop's environment *)

Context (listeners : list Listener) (now : W -> W * Z) (schedule : W -> nat -> W * nat).

Definition agent_env : AgentEnv (Agent W) := {|
  sink a event := (processEvents listeners event a).1;
  aborted a := default false (ag_activeRun a);
  clock_now a := let (w, t) := now (ag_world a) in (with_world a w, t);
  pick a n := let (w, i) := schedule (ag_world a) n in (with_world a w, i) |}.

(** The hooks of the agent: its optional properties. *)
Record Hooks := {
  hk_tools : list (AgentTool (Agent W) X);
  hk_convertToLlm : option (list AgentMessage -> Call (Agent W) X (list Message));
  hk_transformContext : option (list AgentMessage -> Call (Agent W) X (list AgentMessage));
  hk_suppressAssistantText : bool;
  hk_streamFunction : StreamFn (Agent W) X;
  hk_getApiKey : option (jstring -> Call (Agent W) X (option jstring));
  hk_beforeToolCall : option (AssistantMessage -> ToolCall -> json -> AgentContext (Agent W) X ->
                              Call (Agent W) X (option BeforeToolCallResult));
  hk_afterToolCall : option (AssistantMessage -> ToolCall -> json -> AgentToolResult -> bool ->
                             AgentContext (Agent W) X -> Call (Agent W) X (option AfterToolCallResult));
  hk_resolveToolAvailability : option (jstring -> AgentContext (Agent W) X -> Call (Agent W) X (option ToolAvailability));
  hk_onToolBatchCompleted : option (list ToolResultMessage -> AgentContext (Agent W) X -> Agent W ->
                                    Agent W * AgentContext (Agent W) X * Result X unit);
  hk_shouldStopAfterTurn : option (CompletedTurn (Agent W) X -> Call (Agent W) X bool);
  hk_prepareNextTurn : option (Call (Agent W) X (option (TurnUpdate (Agent W) X)));
  hk_prepareNextTurnWithContext : option (CompletedTurn (Agent W) X -> Call (Agent W) X (option (TurnUpdate (Agent W) X)));
  hk_prepareInitialTurnWithContext : option (AgentContext (Agent W) X -> Call (Agent W) X (option (TurnUpdate (Agent W) X)));
  hk_onSteeringBatch : option (list AgentMessage -> Call (Agent W) X (list AgentMessage));
  hk_toolExecution : ToolExecutionMode }.

(** Messages of the roles user, assistant and toolResult. *)
Definition defaultConvertToLlm (messages : list AgentMessage) : list Message :=
  omap (fun m => match m with
                 | AM_message (M_user u) => Some (M_user u)
                 | AM_message (M_assistant a) => Some (M_assistant a)
                 | AM_message (M_toolResult r) => Some (M_toolResult r)
                 | _ => None
                 end) messages.

Definition createContextSnapshot (hooks : Hooks) (a : Agent W) : AgentContext (Agent W) X :=
  {| ac_systemPrompt := as_systemPrompt (ag_state a); ac_messages := as_messages (ag_state a);
     ac_tools := Some (hk_tools hooks) |}.

(** [getSteeringMessages] of the loop's configuration. *)
Definition poll_steering : Call (Agent W) X (list AgentMessage) := fun a =>
  if ag_skipPoll a then (with_skip a false, Ok [])
  else let (q, messages) := drain (ag_steeringQueue a) in (with_queues a q (ag_followUpQueue a), Ok messages).

Definition poll_followUps : Call (Agent W) X (list AgentMessage) := fun a =>
  let (q, messages) := drain (ag_followUpQueue a) in (with_queues a (ag_steeringQueue a) q, Ok messages).

Definition createLoopConfig (hooks : Hooks) (a : Agent W) : AgentLoopConfig (Agent W) X :=
  {| cfg_model := as_model (ag_state a);
     cfg_reasoning := if bool_decide (as_thinkingLevel (ag_state a) = js "off") then None
                      else Some (as_thinkingLevel (ag_state a));
     cfg_apiKey := None;
     cfg_suppressAssistantText := hk_suppressAssistantText hooks;
     cfg_toolExecution := Some (hk_toolExecution hooks);
     cfg_convertToLlm := match hk_convertToLlm hooks with
                         | Some f => f
                         | None => fun messages a => (a, Ok (defaultConvertToLlm messages))
                         end;
     cfg_transformContext := hk_transformContext hooks;
     cfg_getApiKey := hk_getApiKey hooks;
     cfg_shouldStopAfterTurn := hk_shouldStopAfterTurn hooks;
     cfg_prepareNextTurn := match hk_prepareNextTurnWithContext hooks with
                            | Some f => Some f
                            | None => match hk_prepareNextTurn hooks with Some f => Some (fun _ => f) | None => None end
                            end;
     cfg_prepareInitialTurn := hk_prepareInitialTurnWithContext hooks;
     cfg_getSteeringMessages := Some poll_steering;
     cfg_onSteeringBatch := hk_onSteeringBatch hooks;
     cfg_getFollowUpMessages := Some poll_followUps;
     cfg_beforeToolCall := hk_beforeToolCall hooks;
     cfg_afterToolCall := hk_afterToolCall hooks;
     cfg_resolveToolAvailability := hk_resolveToolAvailability hooks;
     cfg_onToolBatchCompleted := hk_onToolBatchCompleted hooks |}.

(** ** Runs *)

(** How an operation ends: the run's messages, its failure, or a rejection. *)
Inductive RunResult :=
| RR_completed (messages : list AgentMessage)
| RR_failed (message : AssistantMessage)
| RR_rejected (error : AgentError)
| RR_nothing_pending
| RR_out_of_fuel.

Definition EMPTY_USAGE : Usage :=
  {| usage_input := nzero; usage_output := nzero; usage_cacheRead := nzero; usage_cacheWrite := nzero;
     usage_cacheWrite1h := None; usage_reasoning := None; usage_totalTokens := nzero;
     usage_cost := {| cost_input := nzero; cost_output := nzero; cost_cacheRead := nzero; cost_cacheWrite := nzero;
                      cost_total := nzero |} |}.

Definition failure_message (s : AgentState) (text : jstring) (wasAborted : bool) (timestamp : Z) : AssistantMessage :=
  {| asst_content := [AB_text {| text_text := []; text_textSignature := None |}]; asst_api := model_api (as_model s);
     asst_provider := model_provider (as_model s); asst_model := model_id (as_model s); asst_responseModel := None;
     asst_responseId := None; asst_diagnostics := None; asst_usage := EMPTY_USAGE;
     asst_stopReason := if wasAborted then SR_aborted else SR_error; asst_deferred := None;
     asst_errorMessage := Some text; asst_rawStopReason := None; asst_endTurn := None; asst_timestamp := timestamp |}.

Definition handleRunFailure (text : jstring) (wasAborted : bool) (a : Agent W) : Agent W * AssistantMessage :=
  let (a, timestamp) := clock_now (AgentEnv := agent_env) a in
  let failureMessage := failure_message (ag_state a) text wasAborted timestamp in
  let events := [AE_message_start (assistant failureMessage); AE_message_end (assistant failureMessage);
                 AE_turn_end (assistant failureMessage) []; AE_agent_end [assistant failureMessage]] in
  (foldl (sink (AgentEnv := agent_env)) a events, failureMessage).

Definition finishRun (a : Agent W) : Agent W :=
  with_active (with_state a (with_run (ag_state a) (as_messages (ag_state a)) false None [] (as_errorMessage (ag_state a))))
    None.

(** The agent while [executor] starts. *)
Definition startRun (a : Agent W) : Agent W :=
  with_state (with_active a (Some false))
    (with_run (ag_state a) (as_messages (ag_state a)) true None (as_pendingToolCalls (ag_state a)) None).

Definition run_error_text (e : RunError) : jstring :=
  match e with
  | No_messages_in_context => js "Cannot continue: no messages in context"
  | Cannot_continue_from_assistant => js "Cannot continue from message role: assistant"
  | No_pending_tool_calls => js "Cannot resume: no pending tool calls"
  end.

Definition runWithLifecycle (executor : Agent W -> RunError + M (E := Agent W) (X := X) (list AgentMessage)) (a : Agent W) :
    Agent W * RunResult :=
  match ag_activeRun a with
  | Some _ => (a, RR_rejected Agent_already_processing)
  | None =>
      let a := startRun a in
      match executor a with
      | inl e =>
          let (a, failure) := handleRunFailure (run_error_text e) (default false (ag_activeRun a)) a in
          (finishRun a, RR_failed failure)
      | inr m =>
          match m {| ls_env := a; ls_trace := [] |} with
          | (st, Done messages) => (finishRun (ls_env st), RR_completed messages)
          | (st, Throw x) =>
              let (a, failure) := handleRunFailure (error_text x) (default false (ag_activeRun (ls_env st))) (ls_env st) in
              (finishRun a, RR_failed failure)
          | (st, OutOfFuel) => (ls_env st, RR_out_of_fuel)
          end
      end
  end.

Context (validateToolArguments : AgentTool (Agent W) X -> ToolCall -> Result X json).

Definition runPromptMessages (fuel : nat) (hooks : Hooks) (messages : list AgentMessage) (skipInitialSteeringPoll : bool)
    (a : Agent W) : Agent W * RunResult :=
  runWithLifecycle (fun a =>
    inr (runAgentLoop (H := agent_env) error_text validateToolArguments fuel messages (createContextSnapshot hooks a)
           (createLoopConfig hooks a) (hk_streamFunction hooks)))
    (with_skip a skipInitialSteeringPoll).

Definition runContinuation (fuel : nat) (hooks : Hooks) (a : Agent W) : Agent W * RunResult :=
  runWithLifecycle (fun a =>
    runAgentLoopContinue (H := agent_env) error_text validateToolArguments fuel (createContextSnapshot hooks a)
      (createLoopConfig hooks a) (hk_streamFunction hooks))
    (with_skip a false).

(** The input of [prompt]: messages, one message, or text with images. *)
Inductive PromptInput :=
| PI_messages (messages : list AgentMessage)
| PI_message (message : AgentMessage)
| PI_text (text : jstring) (images : list ImageContent).

Definition normalizePromptInput (input : PromptInput) (a : Agent W) : Agent W * list AgentMessage :=
  match input with
  | PI_messages messages => (a, messages)
  | PI_message message => (a, [message])
  | PI_text text images =>
      let (a, timestamp) := clock_now (AgentEnv := agent_env) a in
      let content := UB_text {| text_text := text; text_textSignature := None |} :: map UB_image images in
      (a, [AM_message (M_user {| user_content := UC_blocks content; user_timestamp := timestamp |})])
  end.

Definition prompt (fuel : nat) (hooks : Hooks) (input : PromptInput) (a : Agent W) : Agent W * RunResult :=
  match ag_activeRun a with
  | Some _ => (a, RR_rejected Agent_already_processing_prompt)
  | None =>
      let (a, messages) := normalizePromptInput input a in
      runPromptMessages fuel hooks messages false a
  end.

(** [continue()] *)
Definition continue_ (fuel : nat) (hooks : Hooks) (a : Agent W) : Agent W * RunResult :=
  match ag_activeRun a with
  | Some _ => (a, RR_rejected Agent_busy_continuing)
  | None =>
      match last (as_messages (ag_state a)) with
      | None => (a, RR_rejected Agent_no_messages)
      | Some (AM_message (M_assistant _)) =>
          let (steering, batch) := drain (ag_steeringQueue a) in
          let a := with_queues a steering (ag_followUpQueue a) in
          match batch with
          | [] =>
              let (followUps, queued) := drain (ag_followUpQueue a) in
              let a := with_queues a (ag_steeringQueue a) followUps in
              match queued with
              | [] => (a, RR_rejected Agent_cannot_continue)
              | _ => runPromptMessages fuel hooks queued false a
              end
          | _ =>
              let (a, prompts) :=
                match hk_onSteeringBatch hooks with
                | None => (a, batch)
                | Some f => match f batch a with
                            | (a, Ok extras) => (a, batch ++ extras)
                            | (a, Err _) => (a, batch)
                            end
                end in
              runPromptMessages fuel hooks prompts true a
          end
      | Some _ => runContinuation fuel hooks a
      end
  end.

Definition getPendingToolCalls (a : Agent W) : option PendingToolCalls := findPendingToolCalls (as_messages (ag_state a)).

Definition resumePendingToolCalls (fuel : nat) (hooks : Hooks) (a : Agent W) : Agent W * RunResult :=
  match ag_activeRun a with
  | Some _ => (a, RR_rejected Agent_busy_resuming)
  | None =>
      match getPendingToolCalls a with
      | None => (a, RR_nothing_pending)
      | Some _ =>
          runWithLifecycle (fun a =>
            runAgentLoopResume (H := agent_env) error_text validateToolArguments fuel (createContextSnapshot hooks a)
              (createLoopConfig hooks a) (hk_streamFunction hooks))
            (with_skip a false)
      end
  end.
End Agents.
