(* ===== verification/AgentProperties.v ===== *)
(** * Properties of the agent

    The agent implements the environment the loop expects: its state reflects
    the event protocol, so that after a run it is idle and its transcript has
    grown by exactly what the run announced. *)

From stdpp Require Import base list strings.
From Stdlib Require Import ZArith Lia.
From S2P Require Import Prelude SessionTypes Numbers SessionContext Compaction CompactionProperties Retry Summary.
From S2P Require Import AgentLoop AgentLoopSpec AgentLoopRules AgentLoopTurns AgentLoopTermination AgentLoopProperties.
From S2P Require Import Agent.

(** An agent without a run. *)
Definition idle {W} (a : Agent W) : Prop :=
  ag_activeRun a = None /\ as_isStreaming (ag_state a) = false /\ as_streamingMessage (ag_state a) = None /\
  as_pendingToolCalls (ag_state a) = [].

(** What a hook may do to an agent: anything but touch the transcript and the
    runtime state of a run, start or finish a run, or undo an abort. *)
Definition same_run {W} (a a' : Agent W) : Prop :=
  match ag_activeRun a with
  | None => ag_activeRun a' = None
  | Some stop => exists stop', ag_activeRun a' = Some stop' /\ (stop = true -> stop' = true)
  end.

Definition keeps_run {W} (a a' : Agent W) : Prop :=
  same_run a a' /\ as_messages (ag_state a') = as_messages (ag_state a) /\
  as_isStreaming (ag_state a') = as_isStreaming (ag_state a) /\
  as_streamingMessage (ag_state a') = as_streamingMessage (ag_state a) /\
  as_pendingToolCalls (ag_state a') = as_pendingToolCalls (ag_state a).

(** The agent's state against the protocol state and the messages announced. *)
Definition reflects {W} (base : list AgentMessage) (p : Protocol) (ms : list AgentMessage) (a : Agent W) : Prop :=
  ag_activeRun a <> None /\ as_messages (ag_state a) = base ++ ms /\ as_streamingMessage (ag_state a) = pr_message p /\
  forall i, i ∈ as_pendingToolCalls (ag_state a) -> i ∈ pr_tools p.

Definition agent_contract {W} (base : list AgentMessage) : Contract (Agent W) :=
  {| c_hook := keeps_run; c_run := same_run; c_reflects := reflects base |}.

Section Relations.
Context {W : Type}.
Implicit Types a b c : Agent W.

Lemma same_run_refl a : same_run a a.
Proof. unfold same_run. destruct (ag_activeRun a) as [s|]; [by exists s|done]. Qed.

Lemma same_run_trans a b c : same_run a b -> same_run b c -> same_run a c.
Proof.
  unfold same_run. destruct (ag_activeRun a) as [s|].
  - intros (s' & -> & Hs) (s'' & -> & Hs'). eauto.
  - by intros ->.
Qed.

Lemma keeps_run_refl a : keeps_run a a.
Proof. by split; [apply same_run_refl|]. Qed.

Lemma keeps_run_trans a b c : keeps_run a b -> keeps_run b c -> keeps_run a c.
Proof.
  intros (H1 & H2 & H3 & H4 & H5) (H1' & H2' & H3' & H4' & H5').
  split; [by eapply same_run_trans|]. split; [congruence|]. split; [congruence|]. split; congruence.
Qed.

(** The methods and hooks of the agent are such hooks. *)
Lemma perform_keeps a call : keeps_run a (perform a call).
Proof.
  destruct call; try apply keeps_run_refl; split; try done; unfold same_run; simpl; unfold abort;
    destruct (ag_activeRun a) as [s|] eqn:Ha; simpl; rewrite ?Ha; eauto.
Qed.

Lemma performs_keep calls a : keeps_run a (foldl perform a calls).
Proof.
  revert a. induction calls as [|c calls IH]; intros a; [apply keeps_run_refl|].
  eapply keeps_run_trans; [apply perform_keeps|apply IH].
Qed.

Lemma with_world_keeps a w : keeps_run a (with_world a w).
Proof. split; [exact (same_run_refl a)|done]. Qed.

Lemma notify_keeps event a (listener : Listener) : keeps_run a (notify event a listener).
Proof.
  unfold notify. destruct (listener event _ _) as [w calls].
  eapply keeps_run_trans; [apply (with_world_keeps a w)|apply performs_keep].
Qed.

Lemma notifies_keep event listeners a : keeps_run a (foldl (notify event) a listeners).
Proof.
  revert a. induction listeners as [|l listeners IH]; intros a; [apply keeps_run_refl|].
  eapply keeps_run_trans; [apply notify_keeps|apply IH].
Qed.

Lemma reflects_keeps base p ms a b : keeps_run a b -> reflects base p ms a -> reflects base p ms b.
Proof.
  intros (Hr & Hm & _ & Hs & Hp) (Ha & Hms & Hst & Ht). unfold reflects. rewrite Hm, Hs, Hp.
  split; [|done]. unfold same_run in Hr. destruct (ag_activeRun a); [|done]. destruct Hr as (s & -> & _). done.
Qed.

(** An event of the protocol keeps the agent in step with it. *)
Lemma reduce_reflects base p event p' ms a :
  protocol_step p event p' -> reflects base p ms a ->
  reflects base p' (ms ++ announced event) (with_state a (reduce_event event (ag_state a))).
Proof.
  intros Hstep (Ha & Hm & Hs & Ht). unfold reflects, announced.
  destruct Hstep as [| |m|m m' ev|m m' Hf|i name args tools tools' Hp|i name args partial tools Hi|i name r e tools tools' Hp|m r|l];
    simpl in *; rewrite ?app_nil_r; (split; [done|]).
  all: try done.
  - by rewrite Hm, app_assoc.
  - split; [done|]. split; [done|]. intros x Hx. rewrite Hp. apply elem_of_set_add in Hx as [->|Hx]; [by left|right; by apply Ht].
  - split; [done|]. split; [done|]. intros x Hx. apply list_elem_of_In, filter_In in Hx as [Hx Hn].
    apply list_elem_of_In in Hx. apply Ht in Hx. rewrite Hp in Hx. apply elem_of_cons in Hx as [->|Hx]; [|done].
    by rewrite bool_decide_true in Hn.
  - by destruct m as [[]| | | |].
Qed.
End Relations.

(** ** The contract *)

Section Runs.
Context {W X : Type}.
Context (error_text : X -> jstring).
Context (listeners : list (Listener (W := W))) (now : W -> W * Z) (schedule : W -> nat -> W * nat).
Context (validateToolArguments : AgentTool (Agent W) X -> ToolCall -> Result X json).

#[local] Instance the_env : AgentEnv (Agent W) := agent_env listeners now schedule.

Lemma sink_reflects base p event p' ms (a : Agent W) :
  protocol_step p event p' -> reflects base p ms a ->
  same_run a (sink a event) /\ reflects base p' (ms ++ announced event) (sink a event).
Proof.
  intros Hstep Hr. simpl. unfold processEvents. pose proof (reduce_reflects base _ _ _ _ _ Hstep Hr) as Hr'.
  destruct Hr as (Ha & _). simpl in *. destruct (ag_activeRun a) as [s|] eqn:Hs; [|done]. simpl.
  pose proof (notifies_keep event listeners (with_state a (reduce_event event (ag_state a)))) as Hk. split.
  - destruct Hk as [Hk _]. unfold same_run in *. simpl in Hk. by rewrite Hs in Hk |- *.
  - by eapply reflects_keeps.
Qed.

Lemma agent_env_ok base : env_ok (agent_contract base).
Proof.
  constructor; simpl.
  - intros a. apply same_run_refl.
  - intros a b c. apply same_run_trans.
  - by intros a b [Hk _].
  - apply sink_reflects.
  - intros p ms a b. apply reflects_keeps.
  - intros a. destruct (now (ag_world a)) as [w t]. apply (with_world_keeps a w).
  - intros a n. destruct (schedule (ag_world a) n) as [w t]. apply (with_world_keeps a w).
Qed.

Lemma abort_stays (a b : Agent W) : same_run a b -> aborted a = true -> aborted b = true.
Proof.
  unfold same_run. simpl. destruct (ag_activeRun a) as [s|]; [|done]. intros (s' & -> & Hs). by simpl.
Qed.

(** Hooks, tools and streams that keep the run. *)
Record hooks_ok (hooks : Hooks (W := W) (X := X)) : Prop := {
  hok_tools : Forall (tool_ok keeps_run) (hk_tools hooks);
  hok_streams : streams_ok keeps_run (hk_streamFunction hooks);
  hok_convertToLlm : match hk_convertToLlm hooks with Some f => forall l, call_ok keeps_run any (f l) | None => True end;
  hok_transformContext : optional_ok keeps_run any (hk_transformContext hooks);
  hok_getApiKey : optional_ok keeps_run any (hk_getApiKey hooks);
  hok_shouldStopAfterTurn : optional_ok keeps_run any (hk_shouldStopAfterTurn hooks);
  hok_prepareNextTurn : match hk_prepareNextTurn hooks with
                        | Some f => call_ok keeps_run (update_ok keeps_run) f
                        | None => True
                        end;
  hok_prepareNextTurnWithContext : optional_ok keeps_run (update_ok keeps_run) (hk_prepareNextTurnWithContext hooks);
  hok_prepareInitialTurn : optional_ok keeps_run (update_ok keeps_run) (hk_prepareInitialTurnWithContext hooks);
  hok_onSteeringBatch : optional_ok keeps_run any (hk_onSteeringBatch hooks);
  hok_beforeToolCall : match hk_beforeToolCall hooks with
                       | Some f => forall m c j x, call_ok keeps_run any (f m c j x)
                       | None => True
                       end;
  hok_afterToolCall : match hk_afterToolCall hooks with
                      | Some f => forall m c j r b x, call_ok keeps_run any (f m c j r b x)
                      | None => True
                      end;
  hok_resolveToolAvailability : match hk_resolveToolAvailability hooks with
                                | Some f => forall n x, call_ok keeps_run any (f n x)
                                | None => True
                                end;
  hok_onToolBatchCompleted : match hk_onToolBatchCompleted hooks with
                             | Some f => forall l c e, context_ok keeps_run c ->
                                           keeps_run e (f l c e).1.1 /\ context_ok keeps_run (f l c e).1.2
                             | None => True
                             end }.

Lemma polls_keep (a : Agent W) : keeps_run a (poll_steering (X := X) a).1 /\ keeps_run a (poll_followUps (X := X) a).1.
Proof.
  unfold poll_steering, poll_followUps.
  split; [destruct (ag_skipPoll a); [|destruct (drain (ag_steeringQueue a)) as [q l]]|destruct (drain (ag_followUpQueue a)) as [q l]];
    (split; [exact (same_run_refl a)|done]).
Qed.

(** The configuration handed to the loop keeps the contract. *)
Lemma loop_config_ok hooks a : hooks_ok hooks -> config_ok keeps_run (createLoopConfig hooks a).
Proof.
  intros []. constructor; simpl; try done.
  - intros l. destruct (hk_convertToLlm hooks); [done|]. intros e. by split; [apply keeps_run_refl|].
  - destruct (hk_prepareNextTurnWithContext hooks); [done|]. destruct (hk_prepareNextTurn hooks); [|done].
    by intros _.
  - intros e _. apply polls_keep.
  - intros e _. apply polls_keep.
Qed.

(** ** Whole operations *)

Definition transcript (a : Agent W) : list AgentMessage := as_messages (ag_state a).

Lemma keeps_active (a b : Agent W) : keeps_run a b -> ag_activeRun a <> None -> ag_activeRun b <> None /\ transcript b = transcript a.
Proof.
  intros (Hr & Hm & _) Ha. split; [|done]. unfold same_run in Hr. destruct (ag_activeRun a); [|done].
  by destruct Hr as (s & -> & _).
Qed.

(** While a run is active the transcript grows by the announced messages. *)
Lemma sink_messages (a : Agent W) event :
  ag_activeRun a <> None ->
  ag_activeRun (sink a event) <> None /\ transcript (sink a event) = transcript a ++ announced event.
Proof.
  intros Ha. simpl. unfold processEvents. simpl. destruct (ag_activeRun a) as [s|] eqn:Hs; [|done]. simpl.
  destruct (keeps_active _ _ (notifies_keep event listeners (with_state a (reduce_event event (ag_state a))))) as [H1 H2];
    [simpl; by rewrite Hs|]. split; [done|]. rewrite H2. unfold transcript, announced. simpl.
  destruct event as [| | |[[]| | | |] ?| | | | | |]; simpl; by rewrite ?app_nil_r.
Qed.

Lemma sinks_messages events : forall a : Agent W,
  ag_activeRun a <> None -> transcript (foldl sink a events) = transcript a ++ ended_messages events.
Proof.
  induction events as [|event events IH]; intros a Ha; [unfold ended_messages; simpl; by rewrite app_nil_r|].
  destruct (sink_messages a event Ha) as [H1 H2]. change (foldl sink a (event :: events)) with (foldl sink (sink a event) events).
  rewrite (IH _ H1), H2, <- app_assoc. f_equal.
  unfold ended_messages, announced. simpl. by destruct (ended_message event).
Qed.

(** The messages of a failed run end with the failure, which says what was thrown
    and whether the run was aborted. *)
Lemma failure_recorded text stop (a : Agent W) :
  ag_activeRun a <> None ->
  let (a', failure) := handleRunFailure listeners now schedule text stop a in
  transcript a' = transcript a ++ [assistant failure] /\ asst_errorMessage failure = Some text /\
  asst_stopReason failure = if stop then SR_aborted else SR_error.
Proof.
  intros Ha. unfold handleRunFailure. pose proof (ok_clock _ (agent_env_ok []) a) as Hc.
  change (clock_now a) with (clock_now (AgentEnv := the_env) a).
  destruct (clock_now a) as [a1 t]. destruct (keeps_active _ _ Hc Ha) as [H1 H2].
  cbn [fst snd] in *. by rewrite (sinks_messages _ a1 H1), H2.
Qed.

(** The operations that start a run. *)
Inductive Operation := Op_prompt (input : PromptInput) | Op_continue | Op_resume.

Definition operate (fuel : nat) (hooks : Hooks) (op : Operation) (a : Agent W) : Agent W * RunResult :=
  match op with
  | Op_prompt input => prompt error_text listeners now schedule validateToolArguments fuel hooks input a
  | Op_continue => continue_ error_text listeners now schedule validateToolArguments fuel hooks a
  | Op_resume => resumePendingToolCalls error_text listeners now schedule validateToolArguments fuel hooks a
  end.

(** The messages a queue gives out: all of them, or the first. *)
Definition taken (q : PendingMessageQueue) : list AgentMessage :=
  match pq_mode q with QM_all => pq_messages q | QM_one_at_a_time => take 1 (pq_messages q) end.

(** The transcript ends with an answer. *)
Definition answered_last (a : Agent W) : Prop := exists m, last (transcript a) = Some (assistant m).

(** The run an operation stands for: a prompt runs its messages; a continuation
    goes on after the last message, or after an answer with what is queued, first
    steering, to which a hook may add, then follow-ups; a resumption resumes. *)
Definition stands_for (op : Operation) (a : Agent W) (entry : RunEntry) : Prop :=
  match op, entry with
  | Op_prompt (PI_messages l), En_prompt prompts => prompts = l
  | Op_prompt (PI_message m), En_prompt prompts => prompts = [m]
  | Op_prompt (PI_text text images), En_prompt prompts => exists timestamp,
      prompts = [AM_message (M_user {| user_content := UC_blocks (UB_text {| text_text := text; text_textSignature := None |} :: map UB_image images);
                                       user_timestamp := timestamp |})]
  | Op_continue, En_continue => transcript a <> [] /\ ~ answered_last a
  | Op_continue, En_prompt prompts => answered_last a /\
      ((pq_messages (ag_steeringQueue a) <> [] /\ exists extras, prompts = taken (ag_steeringQueue a) ++ extras) \/
       (pq_messages (ag_steeringQueue a) = [] /\ pq_messages (ag_followUpQueue a) <> [] /\ prompts = taken (ag_followUpQueue a)))
  | Op_resume, En_resume => findPendingToolCalls (transcript a) <> None
  | _, _ => False
  end.

(** A run of the loop by an agent that has just started one, and how it ended. *)
Definition loop_run (fuel : nat) (hooks : Hooks) (a : Agent W) (entry : RunEntry) (st : LoopState (E := Agent W)) (o : Out X (list AgentMessage)) : Prop :=
  exists started m, transcript started = transcript a /\ ag_activeRun started = Some false /\ as_isStreaming (ag_state started) = true /\
    enter error_text validateToolArguments fuel entry (createContextSnapshot hooks started) (createLoopConfig hooks started) (hk_streamFunction hooks) = inr m /\
    m (initial started) = (st, o).

(** Why an operation on an idle agent starts no run. *)
Definition refused (op : Operation) (a : Agent W) (r : RunResult) : Prop :=
  match op with
  | Op_prompt _ => False
  | Op_continue =>
      (r = RR_rejected Agent_no_messages /\ transcript a = []) \/
      (r = RR_rejected Agent_cannot_continue /\ answered_last a /\ pq_messages (ag_steeringQueue a) = [] /\ pq_messages (ag_followUpQueue a) = [])
  | Op_resume => r = RR_nothing_pending /\ findPendingToolCalls (transcript a) = None
  end.

(** How an operation on an idle agent ends: the agent is as it was, or it has run the
    loop and is idle again, or the bound of the model was exhausted. *)
Definition settled_as (fuel : nat) (hooks : Hooks) (op : Operation) (a : Agent W) (r : Agent W * RunResult) : Prop :=
  (refused op a r.2 /\ r.1 = a) \/
  exists entry st o, stands_for op a entry /\ loop_run fuel hooks a entry st o /\
  match o with
  | Done l => r.2 = RR_completed l /\ idle r.1 /\ ended_messages (ls_trace st) = l /\ transcript r.1 = transcript a ++ l
  | Throw x => exists failure, r.2 = RR_failed failure /\ idle r.1 /\
      transcript r.1 = transcript a ++ ended_messages (ls_trace st) ++ [assistant failure] /\
      asst_errorMessage failure = Some (error_text x) /\ asst_stopReason failure = if aborted (ls_env st) then SR_aborted else SR_error
  | OutOfFuel => r.2 = RR_out_of_fuel /\ transcript r.1 = transcript a ++ ended_messages (ls_trace st)
  end.

(** A loop started by an idle agent, at any entry point that is open. *)
Lemma lifecycle_settles fuel entry hooks op (a0 a : Agent W) :
  hooks_ok hooks -> idle a -> transcript a = transcript a0 -> stands_for op a0 entry ->
  (exists m, enter error_text validateToolArguments fuel entry (createContextSnapshot hooks (startRun a)) (createLoopConfig hooks (startRun a)) (hk_streamFunction hooks) = inr m) ->
  settled_as fuel hooks op a0 (runWithLifecycle error_text listeners now schedule (fun a =>
    enter error_text validateToolArguments fuel entry (createContextSnapshot hooks a) (createLoopConfig hooks a)
      (hk_streamFunction hooks)) a).
Proof.
  intros Hh (Hrun & _ & Hstr & Hpend) Hsame Hop [m Hm]. right. unfold runWithLifecycle. rewrite Hrun. set (a1 := startRun a) in *.
  assert (reflects (transcript a) (quiet Ph_before) [] a1) as Href.
  { split; [done|]. unfold transcript. simpl. rewrite app_nil_r, Hpend. done. }
  rewrite Hm. pose proof (enter_rule error_text validateToolArguments (agent_contract (transcript a)) (agent_env_ok _) abort_stays
    (hk_streamFunction hooks) (hok_streams _ Hh) fuel entry (createContextSnapshot hooks a1) (createLoopConfig hooks a1) m a1
    (hok_tools _ Hh) (loop_config_ok _ _ Hh) Hm (initial a1) (at_initial _ (agent_env_ok _) a1 Href)) as Ht.
  change {| ls_env := a1; ls_trace := [] |} with (initial a1). destruct (m (initial a1)) as [st o] eqn:Hrun1. exists entry, st, o.
  split; [done|]. split; [by exists a1, m|]. rewrite <- Hsame. destruct o as [l|x|].
  - destruct Ht as (p & ms & (_ & Hms & _ & Hr) & -> & -> & _). split; [done|]. split; [done|]. split; [exact Hms|]. apply Hr.
  - destruct Ht as (p & ms & _ & Hms & _ & Hact & Hmsg & _).
    pose proof (failure_recorded (error_text x) (default false (ag_activeRun (ls_env st))) (ls_env st) Hact) as Hf.
    destruct (handleRunFailure _ _ _ _ _ _) as [a2 failure]. destruct Hf as (Hf & Htext & Hreason). exists failure. split; [done|]. split; [done|].
    split; [|done].
    change (transcript a2 = transcript a ++ ended_messages (ls_trace st) ++ [assistant failure]). unfold transcript in *. by rewrite Hf, Hmsg, Hms, app_assoc.
  - destruct Ht as (p & ms & _ & Hms & _ & _ & Hmsg & _). split; [done|]. rewrite Hms. exact Hmsg.
Qed.

Lemma idle_keeps (a a1 : Agent W) : keeps_run a a1 -> idle a -> idle a1 /\ transcript a1 = transcript a.
Proof.
  intros (Hr & Ht & Hs & Hm & Hp) (Ha & Hs' & Hm' & Hp'). unfold idle, same_run in *. rewrite Ha in Hr.
  split; [|exact Ht]. rewrite Hr, Hs, Hm, Hp. done.
Qed.

Lemma prompts_settle fuel hooks op messages skip (a a1 : Agent W) :
  hooks_ok hooks -> idle a -> keeps_run a a1 -> stands_for op a (En_prompt messages) ->
  settled_as fuel hooks op a (runPromptMessages error_text listeners now schedule validateToolArguments fuel hooks messages skip a1).
Proof.
  intros Hh Hi Hk Hop. destruct (idle_keeps a a1 Hk Hi) as [Hi1 Ht].
  apply (lifecycle_settles fuel (En_prompt messages) hooks op a (with_skip a1 skip) Hh Hi1 Ht Hop). by eexists.
Qed.

(** What is taken from a queue, and what is left. *)
Lemma drain_taken q : (drain q).2 = taken q /\ (pq_messages q = [] -> (drain q).1 = q) /\ ((drain q).2 = [] <-> pq_messages q = []).
Proof. destruct q as [[|m l] []]; unfold drain, taken; simpl; done. Qed.

Lemma continue_settles fuel hooks (a : Agent W) : hooks_ok hooks -> idle a -> settled_as fuel hooks Op_continue a (operate fuel hooks Op_continue a).
Proof.
  intros Hh Hi. simpl. unfold continue_. destruct Hi as [Hrun Hi']. rewrite Hrun.
  assert (idle a) as Hi by done. clear Hi'.
  destruct (last (as_messages (ag_state a))) as [m|] eqn:Hlast; [|left; split; [left; split; [done|by apply last_None]|done]].
  assert (Hcont : (forall x, m <> assistant x) -> settled_as fuel hooks Op_continue a (runContinuation error_text listeners now schedule validateToolArguments fuel hooks a)).
  { intros Hm. apply (lifecycle_settles fuel En_continue hooks Op_continue a (with_skip a false) Hh Hi eq_refl).
    - split; [intros Hn; unfold transcript in Hn; by rewrite Hn in Hlast|]. intros [x Hx]. unfold transcript in Hx. rewrite Hlast in Hx. injection Hx as Hx. by apply (Hm x).
    - simpl. unfold runAgentLoopContinue. simpl. rewrite Hlast. destruct m as [[| |x|]| | | |]; try by eexists. by destruct (Hm x). }
  destruct m as [[| |m|]| | | |]; try (by apply Hcont). clear Hcont. assert (Hans : answered_last a) by (by exists m).
  destruct (drain_taken (ag_steeringQueue a)) as (Hs1 & Hs2 & Hs3). destruct (drain (ag_steeringQueue a)) as [steering batch]. cbn [fst snd] in *. destruct batch as [|b batch].
  - destruct Hs3 as [Hs3 _]. specialize (Hs3 eq_refl). rewrite (Hs2 Hs3). simpl.
    destruct (drain_taken (ag_followUpQueue a)) as (Hf1 & Hf2 & Hf3). destruct (drain (ag_followUpQueue a)) as [followUps queued]. cbn [fst snd] in *. destruct queued as [|q queued].
    + destruct Hf3 as [Hf3 _]. specialize (Hf3 eq_refl). left. rewrite (Hf2 Hf3). split; [by right|]. by destruct a.
    + apply prompts_settle; [done|done|split; [exact (same_run_refl a)|done]|]. split; [done|]. right. split; [done|]. split; [|done].
      intros Hn. by apply Hf3 in Hn.
  - assert (Hq : keeps_run a (with_queues a steering (ag_followUpQueue a))) by (split; [exact (same_run_refl a)|done]).
    assert (Hop : forall extras, stands_for Op_continue a (En_prompt ((b :: batch) ++ extras))).
    { intros extras. split; [done|]. left. split; [intros Hn; by apply Hs3 in Hn|]. exists extras. by rewrite Hs1. }
    pose proof (hok_onSteeringBatch _ Hh) as Hb. destruct (hk_onSteeringBatch hooks) as [f|]; [|rewrite <- (app_nil_r (b :: batch)); by apply prompts_settle].
    specialize (Hb (b :: batch) (with_queues a steering (ag_followUpQueue a))).
    destruct (f (b :: batch) _) as [a1 [extras|x]]; [|rewrite <- (app_nil_r (b :: batch))]; (apply prompts_settle; [done|done|eapply keeps_run_trans; [apply Hq|apply Hb]|apply Hop]).
Qed.

(** C33: the agent composes with the loop, when its hooks, tools and streams leave
    the transcript and the state of the run alone and start and end no run.  While
    a run is active every operation that would start another is rejected and
    changes nothing.  On an idle agent an operation either is refused, for the
    reason it gives, and changes nothing; or it runs the loop the operation stands
    for, and the agent is idle again, with the transcript extended by exactly the
    messages the run announced: those it returned, or, when it threw, those before
    and the failure, which says what was thrown and whether the run was aborted. *)
Theorem agent_operations_settle fuel hooks op (a : Agent W) :
  hooks_ok hooks ->
  (ag_activeRun a <> None -> operate fuel hooks op a =
    (a, RR_rejected match op with Op_prompt _ => Agent_already_processing_prompt | Op_continue => Agent_busy_continuing | Op_resume => Agent_busy_resuming end)) /\
  (idle a -> settled_as fuel hooks op a (operate fuel hooks op a)).
Proof.
  intros Hh. split.
  - destruct (ag_activeRun a) as [s|] eqn:Hs; [|done]. intros _.
    destruct op; simpl; unfold prompt, continue_, resumePendingToolCalls; by rewrite Hs.
  - intros Hi. destruct op as [input| |]; [|by apply continue_settles|]; simpl; destruct Hi as [Hrun Hi'].
    + unfold prompt. rewrite Hrun. unfold normalizePromptInput. pose proof (keeps_run_refl a) as Hk.
      destruct input as [l|m|text images]; [by apply prompts_settle|by apply prompts_settle|].
      pose proof (ok_clock _ (agent_env_ok []) a) as Hc. change (clock_now a) with (clock_now (AgentEnv := the_env) a).
      destruct (clock_now a) as [a1 t]. apply prompts_settle; [done|done|done|by exists t].
    + unfold resumePendingToolCalls, getPendingToolCalls. rewrite Hrun. destruct (findPendingToolCalls (as_messages (ag_state a))) as [pending|] eqn:Hp; [|by left].
      apply (lifecycle_settles fuel En_resume hooks Op_resume a (with_skip a false) Hh (conj Hrun Hi') eq_refl).
      * simpl. unfold transcript. by rewrite Hp.
      * simpl. unfold runAgentLoopResume. simpl. rewrite Hp. by eexists.
Qed.
End Runs.

(** [continue()] takes its batch from the steering queue before it waits for
    [onSteeringBatch]; when another run starts meanwhile, it is rejected and the
    batch is in neither the queue nor the transcript. *)
Lemma overtaken_continue_loses_steering {W X} (error_text : X -> jstring) listeners now schedule validateToolArguments
    fuel (hooks : Hooks (W := W) (X := X)) (a : Agent W) m q b batch f :
  ag_activeRun a = None -> last (as_messages (ag_state a)) = Some (assistant m) ->
  drain (ag_steeringQueue a) = (q, b :: batch) ->
  hk_onSteeringBatch hooks = Some f -> (forall l a, f l a = (with_active a (Some false), Ok [])) ->
  exists a', continue_ error_text listeners now schedule validateToolArguments fuel hooks a =
      (a', RR_rejected Agent_already_processing) /\
    ag_steeringQueue a' = q /\ as_messages (ag_state a') = as_messages (ag_state a).
Proof.
  intros Hrun Hlast Hdrain Hhook Hf. eexists. unfold continue_. rewrite Hrun, Hlast, Hdrain. simpl.
  rewrite Hhook, Hf. by split.
Qed.

(** ** A concrete agent *)

Module AgentDemo.

(** The clock and the provider's recorded answers. *)
Record World := { w_time : Z; w_answers : list AssistantMessage }.

Definition tick (w : World) : World * Z := ({| w_time := w_time w + 1; w_answers := w_answers w |}, w_time w).

(** A listener that queues a message when a turn ends. *)
Definition steering_listener : Listener (W := World) := fun event stop w =>
  match event with
  | AE_turn_end _ [] => (w, [AC_followUp (Demo.user (js "more"))])
  | AE_agent_end _ => (w, [AC_abort; AC_clearAllQueues])
  | _ => (w, [])
  end.

Definition stream : StreamFn (Agent World) jstring := fun _ a =>
  match w_answers (ag_world a) with
  | [] => (a, Err (js "no answer"))
  | m :: rest =>
      (with_world a {| w_time := w_time (ag_world a); w_answers := rest |},
       Ok (ST_event (SE_start m) (fun a => a) (fun _ => ST_event (SE_done m) (fun a => a) (fun _ => ST_end (Ok m)))))
  end.

Definition read_tool : AgentTool (Agent World) jstring :=
  {| tool_name := js "read"; tool_description := []; tool_parameters := JNull; tool_prepareArguments := None;
     tool_execute := fun a _ _ =>
       (a, TRun_await (fun a => steer (Demo.user (js "steer")) a)
             (fun _ => TRun_return (Ok (Demo.text_result (js "done")))));
     tool_executionMode := None; tool_replay := None |}.

Definition hooks : Hooks (W := World) (X := jstring) :=
  {| hk_tools := [read_tool]; hk_convertToLlm := None; hk_transformContext := None; hk_suppressAssistantText := false;
     hk_streamFunction := stream; hk_getApiKey := None; hk_beforeToolCall := None; hk_afterToolCall := None;
     hk_resolveToolAvailability := None; hk_onToolBatchCompleted := None; hk_shouldStopAfterTurn := None;
     hk_prepareNextTurn := None; hk_prepareNextTurnWithContext := None; hk_prepareInitialTurnWithContext := None;
     hk_onSteeringBatch := None; hk_toolExecution := TE_parallel |}.

Definition agent (answers : list AssistantMessage) : Agent World :=
  {| ag_state := {| as_systemPrompt := []; as_model := cfg_model Demo.config; as_thinkingLevel := js "off";
                    as_messages := []; as_isStreaming := false; as_streamingMessage := None; as_pendingToolCalls := [];
                    as_errorMessage := None |};
     ag_steeringQueue := new_queue QM_one_at_a_time; ag_followUpQueue := new_queue QM_all; ag_activeRun := None;
     ag_skipPoll := false; ag_world := {| w_time := 0; w_answers := answers |} |}.

Definition validate (t : AgentTool (Agent World) jstring) (c : ToolCall) : Result jstring json := Ok (JObject []).

Lemma hooks_keep : hooks_ok hooks.
Proof.
  constructor; simpl; try done.
  - constructor; [|done]. intros a i args. split; [apply keeps_run_refl|]. intros e. split; [|done].
    split; [exact (same_run_refl e)|done].
  - intros request a. unfold stream. destruct (w_answers (ag_world a)); simpl; [by split; [apply keeps_run_refl|]|].
    split; [exact (with_world_keeps a _)|]. split; [done|]. intros e. split; [apply keeps_run_refl|].
    intros e'. split; [apply keeps_run_refl|done].
Qed.

Definition run : Agent World * RunResult :=
  operate (fun x => x) [steering_listener] tick (fun w n => (w, 0%nat)) validate 20 hooks (Op_prompt (PI_text (js "hi") []))
    (agent Demo.two_turns).

Lemma agent_operations_settle_witness :
  settled_as (fun x => x) [steering_listener] tick (fun w n => (w, 0%nat)) validate 20 hooks (Op_prompt (PI_text (js "hi") [])) (agent Demo.two_turns) run /\ length (as_messages (ag_state run.1)) = 8%nat.
Proof.
  split; [|vm_compute; reflexivity].
  refine (proj2 (agent_operations_settle (fun x => x) [steering_listener] tick (fun w n => (w, 0%nat)) validate 20 hooks
    (Op_prompt (PI_text (js "hi") [])) (agent Demo.two_turns) hooks_keep) _).
  unfold idle. simpl. repeat split; reflexivity.
Defined.
End AgentDemo.
