(* ===== verification/EventStream.v ===== *)
(** * Event streams

    packages/ai/src/utils/event-stream.ts: a queue between a producer that pushes
    events and consumers that iterate over them.  A consumer that finds the
    queue empty leaves a resolver in [waiting]; the next event goes to the
    oldest resolver.  Operations of producer and consumers interleave freely;
    a resolved promise is an item of [es_answers], the consumer with what its
    iteration step returned ([None] when the iteration ended). *)

From stdpp Require Import base list strings.
From Stdlib Require Import ZArith Lia.
From S2P Require Import Prelude SessionTypes Numbers SessionContext Compaction CompactionProperties Retry Summary.
From S2P Require Import AgentLoop AgentLoopSpec AgentLoopRules AgentLoopTurns AgentLoopTermination AgentLoopProperties.

Record EventStream (T R : Type) := {
  es_queue : list T;
  es_waiting : list nat;
  es_done : bool;
  es_result : option R;
  es_answers : list (nat * option T) }.
Arguments es_queue {T R}. Arguments es_waiting {T R}. Arguments es_done {T R}. Arguments es_result {T R}.
Arguments es_answers {T R}.

Section Streams.
Context {T R : Type}.
Context (isComplete : T -> bool) (extractResult : T -> R).

Definition new_EventStream : EventStream T R :=
  {| es_queue := []; es_waiting := []; es_done := false; es_result := None; es_answers := [] |}.

(** [resolveFinalResult]: a promise settles once. *)
Definition resolve (r : R) (result : option R) : option R := match result with Some _ => result | None => Some r end.

Definition push (event : T) (s : EventStream T R) : EventStream T R :=
  if es_done s then s
  else
    let complete := isComplete event in
    let result := if complete then resolve (extractResult event) (es_result s) else es_result s in
    match es_waiting s with
    | waiter :: waiting =>
        {| es_queue := es_queue s; es_waiting := waiting; es_done := complete; es_result := result;
           es_answers := es_answers s ++ [(waiter, Some event)] |}
    | [] =>
        {| es_queue := es_queue s ++ [event]; es_waiting := []; es_done := complete; es_result := result;
           es_answers := es_answers s |}
    end.

Definition end_stream (r : option R) (s : EventStream T R) : EventStream T R :=
  {| es_queue := es_queue s; es_waiting := []; es_done := true;
     es_result := match r with Some r => resolve r (es_result s) | None => es_result s end;
     es_answers := es_answers s ++ map (fun w => (w, None)) (es_waiting s) |}.

(** One step of the asynchronous iteration of [consumer]. *)
Definition next (consumer : nat) (s : EventStream T R) : EventStream T R :=
  match es_queue s with
  | event :: queue =>
      {| es_queue := queue; es_waiting := es_waiting s; es_done := es_done s; es_result := es_result s;
         es_answers := es_answers s ++ [(consumer, Some event)] |}
  | [] =>
      if es_done s
      then {| es_queue := []; es_waiting := es_waiting s; es_done := true; es_result := es_result s;
              es_answers := es_answers s ++ [(consumer, None)] |}
      else {| es_queue := []; es_waiting := es_waiting s ++ [consumer]; es_done := false; es_result := es_result s;
              es_answers := es_answers s |}
  end.

(** ** Interleavings *)

Inductive StreamOp := SO_push (event : T) | SO_end (r : option R) | SO_next (consumer : nat).

Definition stream_step (s : EventStream T R) (op : StreamOp) : EventStream T R :=
  match op with SO_push event => push event s | SO_end r => end_stream r s | SO_next consumer => next consumer s end.

Definition stream_run (ops : list StreamOp) : EventStream T R := foldl stream_step new_EventStream ops.

(** The events that count: those pushed before the stream is done. *)
Fixpoint accepted (ops : list StreamOp) : list T :=
  match ops with
  | [] => []
  | SO_push event :: ops' => event :: (if isComplete event then [] else accepted ops')
  | SO_end _ :: _ => []
  | SO_next _ :: ops' => accepted ops'
  end.

(** The result: of the first event that completes the stream or of the first
    [end] that carries one. *)
Fixpoint first_result (finished : bool) (ops : list StreamOp) : option R :=
  match ops with
  | [] => None
  | SO_push event :: ops' =>
      if finished then first_result finished ops'
      else if isComplete event then Some (extractResult event) else first_result finished ops'
  | SO_end (Some r) :: _ => Some r
  | SO_end None :: ops' => first_result true ops'
  | SO_next _ :: ops' => first_result finished ops'
  end.

(** The events handed out, in the order of the answers. *)
Definition delivered_events (s : EventStream T R) : list T := omap snd (es_answers s).

Lemma delivered_snoc answers (a : nat * option T) :
  omap snd (answers ++ [a]) = omap snd answers ++ match a.2 with Some e => [e] | None => [] end.
Proof. rewrite omap_app. simpl. by destruct a.2. Qed.

Lemma delivered_ends (answers : list (nat * option T)) ws :
  omap snd (answers ++ map (fun w => (w, None)) ws) = omap snd answers.
Proof.
  rewrite omap_app. replace (omap snd (map (fun w => (w, None)) ws)) with (@nil T); [by rewrite app_nil_r|].
  by induction ws.
Qed.

(** Nobody waits while events are queued. *)
Definition stream_inv (s : EventStream T R) : Prop := es_queue s <> [] -> es_waiting s = [].

Lemma stream_inv_step s op : stream_inv s -> stream_inv (stream_step s op).
Proof.
  intros Hi. destruct op as [event|r|c]; unfold stream_inv, stream_step, push, end_stream, next in *; simpl.
  - destruct (es_done s); [done|]. destruct (es_waiting s) as [|w ws] eqn:Hw; simpl; [done|].
    intros Hq. by apply Hi in Hq.
  - done.
  - destruct (es_queue s) as [|e q] eqn:Hq; [by destruct (es_done s)|]. simpl. intros _. by apply Hi.
Qed.

(** What has been delivered and what is queued, from any state. *)
Lemma run_accepted ops : forall s, stream_inv s ->
  delivered_events (foldl stream_step s ops) ++ es_queue (foldl stream_step s ops) =
  delivered_events s ++ es_queue s ++ (if es_done s then [] else accepted ops).
Proof.
  induction ops as [|op ops IH]; intros s Hi; [by destruct (es_done s); rewrite app_nil_r|].
  simpl foldl. rewrite (IH (stream_step s op) (stream_inv_step s op Hi)). unfold delivered_events.
  destruct op as [event|r|c]; simpl.
  - unfold push. destruct (es_done s) eqn:Hd; [by rewrite Hd|].
    destruct (es_waiting s) as [|w ws] eqn:Hw; simpl.
    + rewrite <- app_assoc. simpl. by destruct (isComplete event).
    + rewrite delivered_snoc. simpl. destruct (es_queue s) as [|e q] eqn:Hq.
      2:{ unfold stream_inv in Hi. rewrite Hq, Hw in Hi. by specialize (Hi ltac:(done)). }
      simpl. rewrite <- app_assoc. by destruct (isComplete event).
  - rewrite delivered_ends. by destruct (es_done s).
  - unfold next. destruct (es_queue s) as [|e q]; simpl; [|by rewrite delivered_snoc, <- app_assoc].
    destruct (es_done s); simpl; [by rewrite delivered_snoc, app_nil_r|done].
Qed.

Lemma run_result ops : forall s,
  es_result (foldl stream_step s ops) = match es_result s with Some r => Some r | None => first_result (es_done s) ops end.
Proof.
  induction ops as [|op ops IH]; intros s; [simpl; by destruct (es_result s)|]. simpl foldl. rewrite IH.
  destruct op as [event|r|c]; simpl.
  - unfold push. destruct (es_done s) eqn:Hd; [by rewrite Hd|].
    by destruct (es_waiting s), (isComplete event), (es_result s) eqn:Hr; simpl; rewrite ?Hr.
  - by destruct r, (es_result s) eqn:Hr; simpl; rewrite ?Hr.
  - unfold next. destruct (es_queue s); [destruct (es_done s) eqn:Hd|]; done.
Qed.

(** A consumer that asks for the next event only after the previous answer. *)
Fixpoint one_at_a_time (s : EventStream T R) (ops : list StreamOp) : Prop :=
  match ops with
  | [] => True
  | op :: ops' =>
      match op with SO_next _ => es_waiting s = [] | _ => True end /\ one_at_a_time (stream_step s op) ops'
  end.

Definition served (s : EventStream T R) : Prop := (length (es_waiting s) <= 1)%nat /\ (es_done s = true -> es_waiting s = []).

Lemma served_step s op :
  served s -> match op with SO_next _ => es_waiting s = [] | _ => True end -> served (stream_step s op).
Proof.
  intros [Hl Hd] Hop. unfold served. destruct op as [event|r|c]; unfold stream_step, push, end_stream, next; simpl.
  - destruct (es_done s) eqn:He; [split; [done|intros _; by apply Hd]|]. destruct (es_waiting s) as [|w [|w' ws]]; simpl in *; [by split; [lia|]|by split; [lia|]|lia].
  - by split; [lia|].
  - rewrite Hop. destruct (es_queue s); [destruct (es_done s)|]; simpl; (split; [lia|done]).
Qed.

Lemma served_run ops : forall s, served s -> one_at_a_time s ops -> served (foldl stream_step s ops).
Proof.
  induction ops as [|op ops IH]; intros s Hs; [done|]. intros [Hop Hops]. apply IH; [by apply served_step|done].
Qed.

(** whatever the interleaving of pushes, [end] calls and iteration steps,
    the events handed out followed by those still queued are the pushed events
    up to the one that completes the stream (or up to [end]), in order; the
    result is that of the first completing event or of the first [end] that
    carries one; and a consumer that takes one event at a time is never left
    waiting once the stream is done. *)
Theorem stream_in_order ops :
  let s := stream_run ops in
  delivered_events s ++ es_queue s = accepted ops /\ es_result s = first_result false ops /\
  (one_at_a_time new_EventStream ops -> es_done s = true -> es_waiting s = []).
Proof.
  simpl. unfold stream_run. split; [by rewrite run_accepted|]. split; [by rewrite run_result|].
  intros Hone. apply served_run; [by split; [simpl; lia|]|done].
Qed.

(** A producer that pushes up to one completing event and then ends. *)
Definition pushed (ops : list StreamOp) : list T :=
  omap (fun op => match op with SO_push event => Some event | _ => None end) ops.

Definition no_end (op : StreamOp) : Prop := match op with SO_end _ => False | _ => True end.

Lemma accepted_pushed ops rest before last :
  Forall no_end ops -> pushed ops = before ++ [last] -> Forall (fun e => isComplete e = false) before ->
  isComplete last = true ->
  accepted (ops ++ rest) = pushed ops /\ first_result false (ops ++ rest) = Some (extractResult last).
Proof.
  intros Hops. revert before. induction Hops as [|op ops Hop Hops IH]; intros before Hp Hb Hl; [by destruct before|].
  destruct op as [event|r|c]; [|done|exact (IH before Hp Hb Hl)]. unfold pushed in *. simpl in *.
  destruct before as [|b before]; simpl in Hp; injection Hp as -> Hp.
  - by rewrite Hl, Hp.
  - inversion Hb as [|? ? He Hb']; subst. rewrite He. destruct (IH before Hp Hb' Hl) as [-> ->]. done.
Qed.
End Streams.

(** [AssistantMessageEventStream]: the terminal event carries the result, which
    is the message the agent loop takes from [result()] when it reaches that
    event. *)
Definition assistant_complete (event : AssistantMessageEvent) : bool :=
  match event with SE_done _ | SE_error _ => true | _ => false end.

Definition assistant_result (event : AssistantMessageEvent) : option AssistantMessage :=
  match event with SE_done m | SE_error m => Some m | _ => None end.

(** [createAgentStream] *)
Definition agent_complete (event : AgentEvent) : bool := match event with AE_agent_end _ => true | _ => false end.

Definition agent_result (event : AgentEvent) : list AgentMessage := match event with AE_agent_end l => l | _ => [] end.

(** ** The stream of a run *)

Definition is_ended (p : Protocol) : bool := match pr_phase p with Ph_ended _ => true | _ => false end.

Lemma agent_end_last p tr p' : protocol_run p tr p' -> is_ended p' = false -> Forall (fun e => agent_complete e = false) tr.
Proof.
  induction 1 as [p|p tr q event q' Hrun IH Hstep]; intros Hph; [done|]. apply Forall_app. split.
  - apply IH. by inversion Hstep; subst.
  - constructor; [|done]. by inversion Hstep; subst.
Qed.

(** [agentLoop] streams a run.  However consumers interleave with it, a run
    that returns [l] delivers or queues exactly its events, resolves [result()]
    to [l], and leaves no consumer that takes one event at a time waiting. *)
Theorem agentLoop_stream {E X : Type} `{AgentEnv E} (error_text : X -> jstring)
    (validateToolArguments : AgentTool E X -> ToolCall -> Result X json) fuel entry context config
    (streamFunction : StreamFn E X) m e st l ops rest :
  env_ok (plain abort_final) -> context_ok abort_final context -> config_ok abort_final config ->
  streams_ok abort_final streamFunction ->
  enter error_text validateToolArguments fuel entry context config streamFunction = inr m ->
  m (initial e) = (st, Done l) ->
  Forall no_end ops -> pushed ops = ls_trace st ->
  let s := stream_run agent_complete agent_result (ops ++ SO_end (Some l) :: rest) in
  delivered_events s ++ es_queue s = ls_trace st /\ es_result s = Some l /\
  (one_at_a_time agent_complete agent_result new_EventStream (ops ++ SO_end (Some l) :: rest) -> es_done s = true ->
   es_waiting s = []).
Proof.
  intros Henv Hctx Hcfg Hs Hm Hrun Hops Hpush.
  pose proof (enter_rule _ _ (plain abort_final) Henv (fun _ _ H => H) _ Hs _ _ _ _ _ e Hctx Hcfg Hm _ (at_initial _ Henv e I)) as Ht.
  rewrite Hrun in Ht. destruct Ht as (p & ms & (Hp & _) & -> & _).
  inversion Hp as [|? tr q event q' Hpre Hstep Htr Hq]; subst. inversion Hstep; subst.
  destruct (accepted_pushed agent_complete agent_result ops (SO_end (Some l) :: rest) tr (AE_agent_end l)) as [Ha Hr];
    [done|congruence|by eapply agent_end_last|done|]. simpl. unfold stream_run.
  split; [rewrite run_accepted by done; simpl; by rewrite Ha, Hpush|]. split; [by rewrite run_result|].
  intros Hone. apply served_run; [by split; [simpl; lia|]|done].
Qed.

Lemma agentLoop_stream_witness :
  let s := stream_run agent_complete agent_result
             (SO_next 0 :: map SO_push (ls_trace Demo.two.1) ++ [SO_end (Some (Demo.messages_of Demo.two.2)); SO_next 0]) in
  es_result s = Some (Demo.messages_of Demo.two.2) /\ length (es_queue s) = 24%nat.
Proof.
  destruct Demo.abort_contracts as (H1 & H2 & H3 & H4).
  pose proof (agentLoop_stream (fun x => x) Demo.validate 20 Demo.hello (Demo.context []) Demo.config Demo.stream
    (Demo.run Demo.hello [] 20) (Demo.start Demo.two_turns [Demo.user (js "also")]) Demo.two.1 (Demo.messages_of Demo.two.2)
    (SO_next 0 :: map SO_push (ls_trace Demo.two.1)) [SO_next 0] H1 (H2 _) H3 H4 eq_refl) as Hw.
  split; [|vm_compute; reflexivity]. apply Hw.
  - vm_compute. reflexivity.
  - vm_compute. repeat constructor.
  - vm_compute. reflexivity.
Defined.
