(* ===== verification/EditDiff.v ===== *)
(** * Text edits

    packages/agent/src/harness/tools/edit-diff.ts and the part of tools/edit.ts
    between reading and writing the file.  The Unicode tables behind
    [normalize("NFKC")] and the line diff of the diff library are parameters. *)

From stdpp Require Import base list strings.
From Stdlib Require Import ZArith Lia.
From S2P Require Import Prelude SessionTypes Numbers Utf8 Truncate.

Open Scope Z_scope.

(** ** Strings *)

Definition carriage_return : Z := 13.

(** [s.startsWith(pattern)], with the rest. *)
Fixpoint strip_prefix (pattern s : jstring) : option jstring :=
  match pattern, s with
  | [], _ => Some s
  | p :: pattern', u :: s' => if p =? u then strip_prefix pattern' s' else None
  | _ :: _, [] => None
  end.

(** [s.indexOf(pattern)]; [None] is -1. *)
Fixpoint index_of (pattern s : jstring) : option nat :=
  match strip_prefix pattern s with
  | Some _ => Some O
  | None => match s with [] => None | _ :: s' => S <$> index_of pattern s' end
  end.

(** [s.split(separator).length - 1] for a separator that is not empty. *)
Fixpoint count_matches (pattern s : jstring) (skip : nat) : Z :=
  match s with
  | [] => 0
  | _ :: s' =>
      match skip with
      | S skip' => count_matches pattern s' skip'
      | O => match strip_prefix pattern s with
             | Some _ => 1 + count_matches pattern s' (length pattern - 1)
             | None => count_matches pattern s' O
             end
      end
  end.

(** [s.split(separator).length - 1]; an empty separator splits into units. *)
Definition split_count (pattern s : jstring) : Z :=
  match pattern with [] => Z.of_nat (length s) - 1 | _ => count_matches pattern s O end.

(** [s.substring(0, n)] and [s.substring(n)]: indices are clamped. *)
Definition substring_to (s : jstring) (n : Z) : jstring := take (Z.to_nat n) s.
Definition substring_from (s : jstring) (n : Z) : jstring := drop (Z.to_nat n) s.

(** White space and line terminators of the language. *)
Definition is_white_space (u : Z) : bool :=
  bool_decide (u ∈ [9; 10; 11; 12; 13; 32; 0xa0; 0x1680; 0x2028; 0x2029; 0x202f; 0x205f; 0x3000; 0xfeff]) ||
  ((0x2000 <=? u) && (u <=? 0x200a)).

Fixpoint trimEnd (s : jstring) : jstring :=
  match s with
  | [] => []
  | u :: s' => match trimEnd s' with
               | [] => if is_white_space u then [] else [u]
               | t => u :: t
               end
  end.

(** ** Line endings *)

Inductive LineEnding := LE_crlf | LE_lf.

Definition detectLineEnding (content : jstring) : LineEnding :=
  match index_of [newline] content with
  | None => LE_lf
  | Some lfIdx =>
      match index_of [carriage_return; newline] content with
      | None => LE_lf
      | Some crlfIdx => if (crlfIdx <? lfIdx)%nat then LE_crlf else LE_lf
      end
  end.

(** [text.replace(/\r\n/g, "\n")] *)
Fixpoint replace_crlf (text : jstring) : jstring :=
  match text with
  | [] => []
  | u :: s =>
      if (u =? carriage_return) && match s with v :: _ => v =? newline | [] => false end
      then replace_crlf s else u :: replace_crlf s
  end.

Definition normalizeToLF (text : jstring) : jstring :=
  map (fun u => if u =? carriage_return then newline else u) (replace_crlf text).

Definition restoreLineEndings (text : jstring) (ending : LineEnding) : jstring :=
  match ending with
  | LE_crlf => mjoin (map (fun u => if u =? newline then [carriage_return; newline] else [u]) text)
  | LE_lf => text
  end.

Definition stripBom (content : jstring) : jstring * jstring :=
  match content with
  | u :: text => if u =? 0xfeff then ([u], text) else ([], content)
  | [] => ([], [])
  end.

(** ** Lines *)

(** [content.match(/[^\n]*\n|[^\n]+/g) ?? []] *)
Fixpoint splitLinesWithEndings (content : jstring) : list jstring :=
  match content with
  | [] => []
  | u :: s =>
      if u =? newline then [newline] :: splitLinesWithEndings s
      else match splitLinesWithEndings s with
           | [] => [[u]]
           | line :: lines => (u :: line) :: lines
           end
  end.

Record LineSpan := { ls_start : Z; ls_end : Z }.

Record MatchedEdit := {
  me_editIndex : Z;
  me_matchIndex : Z;
  me_matchLength : Z;
  me_newText : jstring }.

Fixpoint spans_from (offset : Z) (lines : list jstring) : list LineSpan :=
  match lines with
  | [] => []
  | line :: lines' =>
      let span := {| ls_start := offset; ls_end := offset + Z.of_nat (length line) |} in
      span :: spans_from (ls_end span) lines'
  end.

Definition getLineSpans (content : jstring) : list LineSpan := spans_from 0 (splitLinesWithEndings content).

(** ** Errors *)

Inductive EditError :=
| EE_outside_base
| EE_line_count
| EE_not_found (path : jstring) (editIndex totalEdits : Z)
| EE_duplicate (path : jstring) (editIndex totalEdits occurrences : Z)
| EE_empty_old_text (path : jstring) (editIndex totalEdits : Z)
| EE_no_change (path : jstring) (totalEdits : Z)
| EE_overlap (path : jstring) (previousIndex currentIndex : Z).

(** The messages of the errors. *)
Definition edit_error_message (e : EditError) : jstring :=
  match e with
  | EE_outside_base => js "Replacement range is outside the base content."
  | EE_line_count => js "Cannot preserve unchanged lines because the base content has a different line count."
  | EE_not_found path i total =>
      if total =? 1 then
        js "Could not find the exact text in " ++ path ++
        js ". The old text must match exactly including all whitespace and newlines."
      else
        js "Could not find edits[" ++ js_of_Z i ++ js "] in " ++ path ++
        js ". The oldText must match exactly including all whitespace and newlines."
  | EE_duplicate path i total occurrences =>
      if total =? 1 then
        js "Found " ++ js_of_Z occurrences ++ js " occurrences of the text in " ++ path ++
        js ". The text must be unique. Please provide more context to make it unique."
      else
        js "Found " ++ js_of_Z occurrences ++ js " occurrences of edits[" ++ js_of_Z i ++ js "] in " ++ path ++
        js ". Each oldText must be unique. Please provide more context to make it unique."
  | EE_empty_old_text path i total =>
      if total =? 1 then js "oldText must not be empty in " ++ path ++ js "."
      else js "edits[" ++ js_of_Z i ++ js "].oldText must not be empty in " ++ path ++ js "."
  | EE_no_change path total =>
      if total =? 1 then
        js "No changes made to " ++ path ++
        js ". The replacement produced identical content. This might indicate an issue with special characters or the text not existing as expected."
      else js "No changes made to " ++ path ++ js ". The replacements produced identical content."
  | EE_overlap path i j =>
      js "edits[" ++ js_of_Z i ++ js "] and edits[" ++ js_of_Z j ++ js "] overlap in " ++ path ++
      js ". Merge them into one edit or target disjoint regions."
  end.

(** ** Replacements *)

(** The first loop of [getReplacementLineRange]: the line a range starts in. *)
Fixpoint find_start_line (lines : list LineSpan) (replacementStart : Z) (i : nat) : option nat :=
  match lines with
  | [] => None
  | line :: lines' =>
      if (ls_start line <=? replacementStart) && (replacementStart <? ls_end line) then Some i
      else find_start_line lines' replacementStart (S i)
  end.

(** The second loop, from the lines at [endLine]. *)
Fixpoint find_end_line (lines : list LineSpan) (replacementEnd : Z) (endLine : nat) : option nat :=
  match lines with
  | [] => None
  | line :: lines' => if ls_end line <? replacementEnd then find_end_line lines' replacementEnd (S endLine) else Some endLine
  end.

Definition getReplacementLineRange (lines : list LineSpan) (replacement : MatchedEdit) : Result EditError (nat * nat) :=
  match find_start_line lines (me_matchIndex replacement) O with
  | None => Err EE_outside_base
  | Some startLine =>
      match find_end_line (drop startLine lines) (me_matchIndex replacement + me_matchLength replacement) startLine with
      | None => Err EE_outside_base
      | Some endLine => Ok (startLine, S endLine)
      end
  end.

(** One replacement of [applyReplacements]. *)
Definition replace_at (offset : Z) (replacement : MatchedEdit) (result : jstring) : jstring :=
  let matchIndex := me_matchIndex replacement - offset in
  substring_to result matchIndex ++ me_newText replacement ++
  substring_from result (matchIndex + me_matchLength replacement).

(** From the last replacement to the first. *)
Definition applyReplacements (content : jstring) (replacements : list MatchedEdit) (offset : Z) : jstring :=
  foldr (replace_at offset) content replacements.

Record Group := { gr_startLine : nat; gr_endLine : nat; gr_replacements : list MatchedEdit }.

(** The loop that groups replacements whose lines touch. *)
Definition add_to_groups (groups : list Group) (range : nat * nat) (replacement : MatchedEdit) : list Group :=
  match last groups with
  | Some current =>
      if (range.1 <? gr_endLine current)%nat then
        take (length groups - 1) groups ++
        [{| gr_startLine := gr_startLine current; gr_endLine := Nat.max (gr_endLine current) range.2;
            gr_replacements := gr_replacements current ++ [replacement] |}]
      else groups ++ [{| gr_startLine := range.1; gr_endLine := range.2; gr_replacements := [replacement] |}]
  | None => groups ++ [{| gr_startLine := range.1; gr_endLine := range.2; gr_replacements := [replacement] |}]
  end.

Fixpoint group_replacements (lines : list LineSpan) (replacements : list MatchedEdit) (groups : list Group) :
    Result EditError (list Group) :=
  match replacements with
  | [] => Ok groups
  | replacement :: rest =>
      let* range := getReplacementLineRange lines replacement in
      group_replacements lines rest (add_to_groups groups range replacement)
  end.

Definition span_at (lines : list LineSpan) (i : nat) : LineSpan :=
  default {| ls_start := 0; ls_end := 0 |} (lines !! i).

(** The result from the original line [originalLineIndex] on. *)
Fixpoint overlay_groups (originalLines : list jstring) (baseLines : list LineSpan) (baseContent : jstring)
    (originalLineIndex : nat) (groups : list Group) : jstring :=
  match groups with
  | [] => mjoin (drop originalLineIndex originalLines)
  | group :: rest =>
      let groupStartOffset := ls_start (span_at baseLines (gr_startLine group)) in
      let groupEndOffset := ls_end (span_at baseLines (gr_endLine group - 1)) in
      mjoin (drop originalLineIndex (take (gr_startLine group) originalLines)) ++
      applyReplacements (substring_from (substring_to baseContent groupEndOffset) groupStartOffset)
        (gr_replacements group) groupStartOffset ++
      overlay_groups originalLines baseLines baseContent (gr_endLine group) rest
  end.

Definition applyReplacementsPreservingUnchangedLines (originalContent baseContent : jstring)
    (replacements : list MatchedEdit) : Result EditError jstring :=
  let originalLines := splitLinesWithEndings originalContent in
  let baseLines := getLineSpans baseContent in
  let* _ := rguard (bool_decide (length originalLines = length baseLines)) EE_line_count in
  let* groups := group_replacements baseLines (sort_by me_matchIndex replacements) [] in
  Ok (overlay_groups originalLines baseLines baseContent O groups).

(** ** Matching *)

Record FuzzyMatchResult := {
  fm_found : bool;
  fm_index : Z;
  fm_matchLength : Z;
  fm_usedFuzzyMatch : bool;
  fm_contentForReplacement : jstring }.

Record Edit := { edit_oldText : jstring; edit_newText : jstring }.

Record AppliedEditsResult := { aer_baseContent : jstring; aer_newContent : jstring }.

(** The character replacements of [normalizeForFuzzyMatch]. *)
Definition plain_character (u : Z) : Z :=
  if bool_decide (u ∈ [0x2018; 0x2019; 0x201a; 0x201b]) then 39
  else if bool_decide (u ∈ [0x201c; 0x201d; 0x201e; 0x201f]) then 34
  else if bool_decide (u ∈ [0x2010; 0x2011; 0x2012; 0x2013; 0x2014; 0x2015; 0x2212]) then 45
  else if bool_decide (u ∈ [0xa0; 0x202f; 0x205f; 0x3000]) || ((0x2002 <=? u) && (u <=? 0x200a)) then 32
  else u.

Section Matching.
Context (nfkc : jstring -> jstring).

Definition normalizeForFuzzyMatch (text : jstring) : jstring :=
  map plain_character (join_lines (map trimEnd (split_lines (nfkc text)))).

Definition fuzzyFindText (content oldText : jstring) : FuzzyMatchResult :=
  match index_of oldText content with
  | Some exactIndex =>
      {| fm_found := true; fm_index := Z.of_nat exactIndex; fm_matchLength := Z.of_nat (length oldText);
         fm_usedFuzzyMatch := false; fm_contentForReplacement := content |}
  | None =>
      let fuzzyContent := normalizeForFuzzyMatch content in
      let fuzzyOldText := normalizeForFuzzyMatch oldText in
      match index_of fuzzyOldText fuzzyContent with
      | None => {| fm_found := false; fm_index := -1; fm_matchLength := 0; fm_usedFuzzyMatch := false;
                   fm_contentForReplacement := content |}
      | Some fuzzyIndex =>
          {| fm_found := true; fm_index := Z.of_nat fuzzyIndex; fm_matchLength := Z.of_nat (length fuzzyOldText);
             fm_usedFuzzyMatch := true; fm_contentForReplacement := fuzzyContent |}
      end
  end.

Definition countOccurrences (content oldText : jstring) : Z :=
  split_count (normalizeForFuzzyMatch oldText) (normalizeForFuzzyMatch content).

Definition normalize_edit (edit : Edit) : Edit :=
  {| edit_oldText := normalizeToLF (edit_oldText edit); edit_newText := normalizeToLF (edit_newText edit) |}.

(** The loop that refuses empty texts. *)
Fixpoint check_old_texts (path : jstring) (total i : Z) (edits : list Edit) : Result EditError unit :=
  match edits with
  | [] => Ok tt
  | edit :: rest =>
      match edit_oldText edit with
      | [] => Err (EE_empty_old_text path i total)
      | _ => check_old_texts path total (i + 1) rest
      end
  end.

(** The loop that matches every edit against the same content. *)
Fixpoint match_edits (content path : jstring) (total i : Z) (edits : list Edit) : Result EditError (list MatchedEdit) :=
  match edits with
  | [] => Ok []
  | edit :: rest =>
      let matchResult := fuzzyFindText content (edit_oldText edit) in
      let* _ := rguard (fm_found matchResult) (EE_not_found path i total) in
      let occurrences := countOccurrences content (edit_oldText edit) in
      let* _ := rguard (negb (1 <? occurrences)) (EE_duplicate path i total occurrences) in
      let* matched := match_edits content path total (i + 1) rest in
      Ok ({| me_editIndex := i; me_matchIndex := fm_index matchResult; me_matchLength := fm_matchLength matchResult;
             me_newText := edit_newText edit |} :: matched)
  end.

(** The loop that refuses overlapping matches. *)
Fixpoint check_overlaps (path : jstring) (matched : list MatchedEdit) : Result EditError unit :=
  match matched with
  | previous :: ((current :: _) as rest) =>
      let* _ := rguard (negb (me_matchIndex current <? me_matchIndex previous + me_matchLength previous))
                  (EE_overlap path (me_editIndex previous) (me_editIndex current)) in
      check_overlaps path rest
  | _ => Ok tt
  end.

Definition applyEditsToNormalizedContent (normalizedContent : jstring) (edits : list Edit) (path : jstring) :
    Result EditError AppliedEditsResult :=
  let normalizedEdits := map normalize_edit edits in
  let total := Z.of_nat (length normalizedEdits) in
  let* _ := check_old_texts path total 0 normalizedEdits in
  let usedFuzzyMatch :=
    existsb (fun edit => fm_usedFuzzyMatch (fuzzyFindText normalizedContent (edit_oldText edit))) normalizedEdits in
  let replacementBaseContent := if usedFuzzyMatch then normalizeForFuzzyMatch normalizedContent else normalizedContent in
  let* matched := match_edits replacementBaseContent path total 0 normalizedEdits in
  let matchedEdits := sort_by me_matchIndex matched in
  let* _ := check_overlaps path matchedEdits in
  let* newContent :=
    (if usedFuzzyMatch
     then applyReplacementsPreservingUnchangedLines normalizedContent replacementBaseContent matchedEdits
     else Ok (applyReplacements replacementBaseContent matchedEdits 0)) in
  let* _ := rguard (negb (bool_decide (normalizedContent = newContent))) (EE_no_change path total) in
  Ok {| aer_baseContent := normalizedContent; aer_newContent := newContent |}.

(** edit.ts, between [readTextFile] and [writeFile]: the content to write. *)
Definition edit_content (path : jstring) (edits : list Edit) (raw : jstring) : Result EditError (jstring * AppliedEditsResult) :=
  let (bom, content) := stripBom raw in
  let originalEnding := detectLineEnding content in
  let* applied := applyEditsToNormalizedContent (normalizeToLF content) edits path in
  Ok (bom ++ restoreLineEndings (aer_newContent applied) originalEnding, applied).
End Matching.

(** ** Displayed diffs *)

(** A part of [Diff.diffLines]. *)
Record DiffPart := { part_value : jstring; part_added : bool; part_removed : bool }.

Definition is_change (part : DiffPart) : bool := part_added part || part_removed part.

(** A line of the output: a sign, a line number and the text, or a gap. *)
Inductive DiffRow :=
| DR_added (lineNum : Z) (line : jstring)
| DR_removed (lineNum : Z) (line : jstring)
| DR_context (lineNum : Z) (line : jstring)
| DR_gap.

Definition padStart (s : jstring) (width : nat) : jstring := replicate (width - length s) 32 ++ s.

Definition render_row (width : nat) (row : DiffRow) : jstring :=
  match row with
  | DR_added n line => [43] ++ padStart (js_of_Z n) width ++ [32] ++ line
  | DR_removed n line => [45] ++ padStart (js_of_Z n) width ++ [32] ++ line
  | DR_context n line => [32] ++ padStart (js_of_Z n) width ++ [32] ++ line
  | DR_gap => [32] ++ padStart [] width ++ js " ..."
  end.

(** The variables of [generateDiffString]. *)
Record DiffState := {
  ds_output : list DiffRow;
  ds_oldLineNum : Z;
  ds_newLineNum : Z;
  ds_lastWasChange : bool;
  ds_firstChangedLine : option Z }.

Definition initial_diff : DiffState :=
  {| ds_output := []; ds_oldLineNum := 1; ds_newLineNum := 1; ds_lastWasChange := false; ds_firstChangedLine := None |}.

(** The lines of a part: a last empty piece is dropped. *)
Definition part_lines (value : jstring) : list jstring :=
  let raw := split_lines value in
  match last raw with Some [] => take (length raw - 1) raw | _ => raw end.

(** [for (const line of raw)] of a changed part. *)
Fixpoint show_change (added : bool) (raw : list jstring) (s : DiffState) : DiffState :=
  match raw with
  | [] => s
  | line :: raw' =>
      show_change added raw'
        (if added
         then {| ds_output := ds_output s ++ [DR_added (ds_newLineNum s) line]; ds_oldLineNum := ds_oldLineNum s;
                 ds_newLineNum := ds_newLineNum s + 1; ds_lastWasChange := ds_lastWasChange s;
                 ds_firstChangedLine := ds_firstChangedLine s |}
         else {| ds_output := ds_output s ++ [DR_removed (ds_oldLineNum s) line]; ds_oldLineNum := ds_oldLineNum s + 1;
                 ds_newLineNum := ds_newLineNum s; ds_lastWasChange := ds_lastWasChange s;
                 ds_firstChangedLine := ds_firstChangedLine s |})
  end.

(** Context lines that are shown. *)
Fixpoint show_context (lines : list jstring) (s : DiffState) : DiffState :=
  match lines with
  | [] => s
  | line :: lines' =>
      show_context lines'
        {| ds_output := ds_output s ++ [DR_context (ds_oldLineNum s) line]; ds_oldLineNum := ds_oldLineNum s + 1;
           ds_newLineNum := ds_newLineNum s + 1; ds_lastWasChange := ds_lastWasChange s;
           ds_firstChangedLine := ds_firstChangedLine s |}
  end.

(** Context lines that are counted but not shown. *)
Definition skip_lines (gap : bool) (n : nat) (s : DiffState) : DiffState :=
  {| ds_output := ds_output s ++ (if gap then [DR_gap] else []); ds_oldLineNum := ds_oldLineNum s + Z.of_nat n;
     ds_newLineNum := ds_newLineNum s + Z.of_nat n; ds_lastWasChange := ds_lastWasChange s;
     ds_firstChangedLine := ds_firstChangedLine s |}.

Definition set_last_change (b : bool) (s : DiffState) : DiffState :=
  {| ds_output := ds_output s; ds_oldLineNum := ds_oldLineNum s; ds_newLineNum := ds_newLineNum s;
     ds_lastWasChange := b; ds_firstChangedLine := ds_firstChangedLine s |}.

Definition note_change (s : DiffState) : DiffState :=
  {| ds_output := ds_output s; ds_oldLineNum := ds_oldLineNum s; ds_newLineNum := ds_newLineNum s;
     ds_lastWasChange := ds_lastWasChange s;
     ds_firstChangedLine := match ds_firstChangedLine s with Some n => Some n | None => Some (ds_newLineNum s) end |}.

(** A part without changes, between its neighbours. *)
Definition show_unchanged (contextLines : nat) (nextPartIsChange : bool) (raw : list jstring) (s : DiffState) : DiffState :=
  let n := length raw in
  if ds_lastWasChange s && nextPartIsChange then
    if (n <=? contextLines * 2)%nat then show_context raw s
    else
      let leadingLines := take contextLines raw in
      let trailingLines := drop (n - contextLines) raw in
      let skippedLines := (n - length leadingLines - length trailingLines)%nat in
      show_context trailingLines (skip_lines true skippedLines (show_context leadingLines s))
  else if ds_lastWasChange s then
    let shownLines := take contextLines raw in
    let skippedLines := (n - length shownLines)%nat in
    let s := show_context shownLines s in
    if (0 <? skippedLines)%nat then skip_lines true skippedLines s else s
  else if nextPartIsChange then
    let skippedLines := (n - contextLines)%nat in
    show_context (drop skippedLines raw) (if (0 <? skippedLines)%nat then skip_lines true skippedLines s else s)
  else skip_lines false n s.

Fixpoint diff_loop (contextLines : nat) (parts : list DiffPart) (s : DiffState) : DiffState :=
  match parts with
  | [] => s
  | part :: parts' =>
      let raw := part_lines (part_value part) in
      let s :=
        if is_change part then set_last_change true (show_change (part_added part) raw (note_change s))
        else
          let nextPartIsChange := match parts' with next :: _ => is_change next | [] => false end in
          set_last_change false (show_unchanged contextLines nextPartIsChange raw s) in
      diff_loop contextLines parts' s
  end.

Section Diffs.
Context (diffLines : jstring -> jstring -> list DiffPart).

Definition generateDiffString (oldContent newContent : jstring) (contextLines : nat) : jstring * option Z :=
  let parts := diffLines oldContent newContent in
  let maxLineNum := Z.max (Z.of_nat (length (split_lines oldContent))) (Z.of_nat (length (split_lines newContent))) in
  let lineNumWidth := length (js_of_Z maxLineNum) in
  let s := diff_loop contextLines parts initial_diff in
  (join_lines (map (render_row lineNumWidth) (ds_output s)), ds_firstChangedLine s).
End Diffs.
