(* ===== verification/EditProperties.v ===== *)
(** * Properties of text edits *)

From stdpp Require Import base list strings.
From Stdlib Require Import ZArith Lia.
From S2P Require Import Prelude SessionTypes Numbers Utf8 Truncate TruncateProperties EditDiff.

Open Scope Z_scope.

(** ** Searching *)

Lemma strip_prefix_spec pattern s rest : strip_prefix pattern s = Some rest <-> s = pattern ++ rest.
Proof.
  revert s. induction pattern as [|p pattern IH]; intros s; simpl; [split; congruence|].
  destruct s as [|u s]; [done|]. destruct (Z.eqb_spec p u) as [->|Hn]; [|split; [done|by intros [= ->]]].
  rewrite IH. split; [by intros ->|by intros [= ->]].
Qed.

Lemma index_of_spec pattern s i :
  index_of pattern s = Some i -> exists pre post, s = pre ++ pattern ++ post /\ length pre = i.
Proof.
  revert i. induction s as [|u s IH]; intros i; simpl.
  - destruct (strip_prefix pattern []) as [rest|] eqn:Hp; [|done]. intros [= <-]. apply strip_prefix_spec in Hp.
    by exists [], rest.
  - destruct (strip_prefix pattern (u :: s)) as [rest|] eqn:Hp.
    + intros [= <-]. apply strip_prefix_spec in Hp. by exists [], rest.
    + intros Hi. apply fmap_Some in Hi as (j & Hj & ->). destruct (IH j Hj) as (pre & post & -> & <-).
      by exists (u :: pre), post.
Qed.

(** ** Simultaneous replacement *)

(** [replaced edits s s']: every old text of [edits], in order, is replaced by
    its new text, and everything else is kept. *)
Inductive replaced : list (jstring * jstring) -> jstring -> jstring -> Prop :=
| rep_nil s : replaced [] s s
| rep_cons kept old new edits s s' :
    replaced edits s s' -> replaced ((old, new) :: edits) (kept ++ old ++ s) (kept ++ new ++ s').

Lemma replaced_app_r edits s s' x : replaced edits s s' -> replaced edits (s ++ x) (s' ++ x).
Proof.
  induction 1 as [s|kept old new edits s s' _ IH]; [constructor|]. rewrite <- !app_assoc. by constructor.
Qed.

Lemma replaced_snoc edits s s' gap old new :
  replaced edits s s' -> replaced (edits ++ [(old, new)]) (s ++ gap ++ old) (s' ++ gap ++ new).
Proof.
  induction 1 as [s|kept old' new' edits s s' _ IH]; simpl.
  - pose proof (rep_cons (s ++ gap) old new [] [] [] (rep_nil [])) as H. by rewrite !app_nil_r, <- !app_assoc in H.
  - rewrite <- !app_assoc. by constructor.
Qed.

(** ** Matches in order *)

(** [reps] match, in order and without overlaps, the old texts of [edits] in
    [base] between the positions [lo] and [hi]. *)
Inductive chain (base : jstring) (lo : nat) : list MatchedEdit -> list (jstring * jstring) -> nat -> Prop :=
| chain_nil : (lo <= length base)%nat -> chain base lo [] [] lo
| chain_snoc reps edits mid m pre old post :
    chain base lo reps edits mid -> base = pre ++ old ++ post -> (mid <= length pre)%nat ->
    me_matchIndex m = Z.of_nat (length pre) -> me_matchLength m = Z.of_nat (length old) ->
    chain base lo (reps ++ [m]) (edits ++ [(old, me_newText m)]) (length pre + length old)%nat.

(** [base] between two positions. *)
Definition slice (lo hi : nat) (base : jstring) : jstring := drop lo (take hi base).

Lemma slice_split lo mid hi base : (lo <= mid <= hi)%nat -> slice lo hi base = slice lo mid base ++ slice mid hi base.
Proof.
  intros H. unfold slice. rewrite <- (take_drop mid (take hi base)) at 1. rewrite take_take, Nat.min_l by lia.
  rewrite drop_app. f_equal. destruct (decide (mid <= length base)%nat) as [Hl|Hl].
  - rewrite length_take, Nat.min_l by lia. by replace (lo - mid)%nat with 0%nat by lia.
  - rewrite !(drop_ge (take hi base)); [by rewrite drop_nil|rewrite length_take; lia..].
Qed.

Lemma slice_length lo hi base : (hi <= length base)%nat -> length (slice lo hi base) = (hi - lo)%nat.
Proof. intros H. unfold slice. rewrite length_drop, length_take. lia. Qed.

Lemma chain_bounds base lo reps edits hi : chain base lo reps edits hi -> (lo <= hi <= length base)%nat.
Proof. induction 1; subst; rewrite ?length_app in *; lia. Qed.

Lemma slice_middle (pre old post : jstring) :
  slice (length pre) (length pre + length old) (pre ++ old ++ post) = old.
Proof. unfold slice. by rewrite take_app_add, drop_app_length, take_app_length. Qed.

(** Applying the replacements of a chain replaces its texts. *)
Lemma chain_applies base lo reps edits hi : chain base lo reps edits hi ->
  exists result, replaced edits (slice lo hi base) result /\
    forall x, applyReplacements (slice lo hi base ++ x) reps (Z.of_nat lo) = result ++ x.
Proof.
  induction 1 as [Hlo|reps edits mid m pre old post Hc IH Hb Hmid Hi Hl].
  - exists (slice lo lo base). split; [constructor|done].
  - destruct IH as (result & Hr & Ha). pose proof (chain_bounds _ _ _ _ _ Hc) as Hbd.
    set (gap := slice mid (length pre) base).
    assert (slice lo (length pre + length old) base = slice lo mid base ++ gap ++ old) as Hs.
    { rewrite (slice_split lo mid) by lia. f_equal. rewrite (slice_split mid (length pre)) by lia. f_equal.
      rewrite Hb. apply slice_middle. }
    exists (result ++ gap ++ me_newText m). rewrite Hs. split; [by apply replaced_snoc|]. intros x.
    unfold applyReplacements. rewrite foldr_app. simpl.
    assert (replace_at (Z.of_nat lo) m ((slice lo mid base ++ gap ++ old) ++ x) =
            slice lo mid base ++ (gap ++ me_newText m ++ x)) as ->.
    { unfold replace_at, substring_to, substring_from. rewrite Hi, Hl.
      assert (length (slice lo mid base ++ gap) = length pre - lo)%nat as Hlen.
      { rewrite length_app. unfold gap. rewrite !slice_length; [lia|rewrite Hb, !length_app; lia|lia]. }
      replace (Z.to_nat (Z.of_nat (length pre) - Z.of_nat lo)) with (length (slice lo mid base ++ gap)) by lia.
      replace (Z.to_nat (Z.of_nat (length pre) - Z.of_nat lo + Z.of_nat (length old)))
        with (length ((slice lo mid base ++ gap) ++ old)) by (rewrite (length_app _ old), Hlen; lia).
      replace ((slice lo mid base ++ gap ++ old) ++ x) with ((slice lo mid base ++ gap) ++ old ++ x) by (by rewrite !app_assoc).
      rewrite take_app_length. rewrite (app_assoc _ old x), drop_app_length. by rewrite <- !app_assoc. }
    change (foldr (replace_at (Z.of_nat lo))) with (fun c r => applyReplacements c r (Z.of_nat lo)).
    cbn beta. rewrite Ha. by rewrite <- !app_assoc.
Qed.

(** ** Matched edits *)

Section Matched.
(** The texts an edit may have matched. *)
Context (text_of : Edit -> jstring -> Prop).

Definition hit (base : jstring) (edit : Edit) (m : MatchedEdit) : Prop :=
  me_newText m = edit_newText edit /\
  exists old pre post, base = pre ++ old ++ post /\ me_matchIndex m = Z.of_nat (length pre) /\
    me_matchLength m = Z.of_nat (length old) /\ text_of edit old.

Definition pair_of (pair : jstring * jstring) (edit : Edit) : Prop := pair.2 = edit_newText edit /\ text_of edit pair.1.

Lemma chain_extend base lo path rest : forall edits acc done_ mid,
  chain base lo acc done_ mid -> Forall2 (hit base) edits rest ->
  match rest with m :: _ => Z.of_nat mid <= me_matchIndex m | [] => True end ->
  check_overlaps path rest = Ok tt ->
  exists pairs hi, chain base lo (acc ++ rest) (done_ ++ pairs) hi /\ Forall2 pair_of pairs edits.
Proof.
  induction rest as [|m rest IH]; intros edits acc done_ mid Hc Hh Hm Ho.
  - apply Forall2_nil_inv_r in Hh as ->. exists [], mid. by rewrite !app_nil_r.
  - apply Forall2_cons_inv_r in Hh as (edit & edits' & (Hnew & old & pre & post & Hb & Hi & Hl & Ht) & Hh & ->).
    assert (chain base lo (acc ++ [m]) (done_ ++ [(old, me_newText m)]) (length pre + length old)%nat) as Hc'.
    { eapply chain_snoc; [done|done|lia|done|done]. }
    destruct (IH edits' _ _ _ Hc' Hh) as (pairs & hi & Hchain & Hp).
    + destruct rest as [|m' rest]; [done|]. simpl in Ho. inv_result.
      match goal with H : negb _ = true |- _ => apply negb_true_iff, Z.ltb_ge in H; lia end.
    + destruct rest as [|m' rest]; [done|]. simpl in Ho. by inv_result.
    + exists ((old, me_newText m) :: pairs), hi. rewrite <- !app_assoc in Hchain. split; [done|].
      constructor; [done|done].
Qed.

Lemma hits_chain base path edits ms :
  Forall2 (hit base) edits ms -> check_overlaps path ms = Ok tt ->
  exists pairs hi, chain base 0 ms pairs hi /\ Forall2 pair_of pairs edits.
Proof.
  intros Hh Ho. apply (chain_extend base 0 path ms edits [] [] 0%nat); [constructor; lia|done| |done].
  destruct Hh as [|edit m edits ms (_ & old & pre & post & _ & -> & _)]; [done|lia].
Qed.

(** Sorting the matches reorders the edits. *)
Lemma hits_sorted base edits ms :
  Forall2 (hit base) edits ms ->
  exists edits', edits' ≡ₚ edits /\ Forall2 (hit base) edits' (sort_by me_matchIndex ms).
Proof.
  intros Hh. apply Forall2_flip in Hh.
  destruct (Permutation_Forall2 (symmetry (sort_by_perm me_matchIndex ms)) Hh) as (edits' & Hp & Hf).
  exists edits'. split; [by symmetry|]. by apply Forall2_flip.
Qed.
End Matched.

(** What [match_edits] found. *)
Section Found.
Context (nfkc : jstring -> jstring).

Definition exact_text (edit : Edit) (old : jstring) : Prop := old = edit_oldText edit.

Definition fuzzy_text (edit : Edit) (old : jstring) : Prop :=
  old = edit_oldText edit \/ old = normalizeForFuzzyMatch nfkc (edit_oldText edit).

Lemma match_edits_hits (text_of : Edit -> jstring -> Prop) content path total edits : forall i ms,
  (forall edit, edit ∈ edits -> fm_found (fuzzyFindText nfkc content (edit_oldText edit)) = true ->
     exists old pre post, content = pre ++ old ++ post /\
       fm_index (fuzzyFindText nfkc content (edit_oldText edit)) = Z.of_nat (length pre) /\
       fm_matchLength (fuzzyFindText nfkc content (edit_oldText edit)) = Z.of_nat (length old) /\ text_of edit old) ->
  match_edits nfkc content path total i edits = Ok ms -> Forall2 (hit text_of content) edits ms.
Proof.
  induction edits as [|edit edits IH]; intros i ms Hfind Hm; simpl in Hm; inv_result; subst; [constructor|].
  constructor.
  - split; [done|]. apply Hfind; [by left|done].
  - eapply IH; [|eassumption]. intros e He. apply Hfind. by right.
Qed.

Lemma exact_find content edit :
  fm_usedFuzzyMatch (fuzzyFindText nfkc content (edit_oldText edit)) = false ->
  fm_found (fuzzyFindText nfkc content (edit_oldText edit)) = true ->
  exists old pre post, content = pre ++ old ++ post /\
    fm_index (fuzzyFindText nfkc content (edit_oldText edit)) = Z.of_nat (length pre) /\
    fm_matchLength (fuzzyFindText nfkc content (edit_oldText edit)) = Z.of_nat (length old) /\ exact_text edit old.
Proof.
  unfold fuzzyFindText. destruct (index_of (edit_oldText edit) content) as [i|] eqn:Hi.
  - intros _ _. destruct (index_of_spec _ _ _ Hi) as (pre & post & -> & <-). by exists (edit_oldText edit), pre, post.
  - destruct (index_of (normalizeForFuzzyMatch _ _) _) as [j|]; simpl; intros H1 H2; discriminate.
Qed.

(** C34: edits that all match exactly are applied simultaneously: in some order
    of the edits, every old text of the content is replaced by its new text and
    every other character is kept; line endings inside the edits are
    normalized first. *)
Theorem exact_edits_replace content edits path r :
  applyEditsToNormalizedContent nfkc content edits path = Ok r ->
  Forall (fun edit => fm_usedFuzzyMatch (fuzzyFindText nfkc content (edit_oldText (normalize_edit edit))) = false) edits ->
  aer_baseContent r = content /\
  exists order, order ≡ₚ map normalize_edit edits /\
    replaced (map (fun e => (edit_oldText e, edit_newText e)) order) content (aer_newContent r).
Proof.
  intros Hr Hexact. unfold applyEditsToNormalizedContent in Hr.
  assert (existsb (fun edit => fm_usedFuzzyMatch (fuzzyFindText nfkc content (edit_oldText edit))) (map normalize_edit edits)
          = false) as Hu.
  { clear Hr. induction Hexact as [|edit edits He _ IH]; [done|]. cbn [map existsb]. by rewrite He, IH. }
  rewrite Hu in Hr. inv_result. subst r. simpl. split; [done|].
  apply (match_edits_hits exact_text) in Ha0.
  2:{ intros edit Hin. apply exact_find. apply list_elem_of_In, in_map_iff in Hin as (e & <- & Hin).
      rewrite Forall_forall in Hexact. apply Hexact. by apply list_elem_of_In. }
  destruct (hits_sorted _ _ _ _ Ha0) as (order & Hp & Hh). exists order. split; [done|]. destruct a1.
  destruct (hits_chain _ _ _ _ _ Hh Ha1) as (pairs & hi & Hc & Hpairs).
  assert (pairs = map (fun e => (edit_oldText e, edit_newText e)) order) as <-.
  { clear -Hpairs. induction Hpairs as [|[old new] e pairs order [H1 H2] _ IH]; [done|]. simpl in *.
    unfold exact_text in H2. by subst. }
  destruct (chain_applies _ _ _ _ _ Hc) as (result & Hrep & Happ). pose proof (chain_bounds _ _ _ _ _ Hc) as Hb.
  assert (slice 0 hi content ++ drop hi content = content) as Hsplit by (apply take_drop).
  specialize (Happ (drop hi content)). rewrite Hsplit in Happ.
  change (Z.of_nat 0) with 0 in Happ. subst. rewrite Happ. rewrite <- Hsplit at 1. by apply replaced_app_r.
Qed.
End Found.

Definition demo_content : jstring := js "one" ++ [newline] ++ js "two" ++ [newline].
Definition demo_edit : Edit := {| edit_oldText := js "two"; edit_newText := js "2" |}.

(** Witness of [exact_edits_replace]: a line is replaced. *)
Lemma exact_edits_replace_witness :
  let r := {| aer_baseContent := demo_content; aer_newContent := js "one" ++ [newline] ++ js "2" ++ [newline] |} in
  applyEditsToNormalizedContent id demo_content [demo_edit] (js "f") = Ok r /\
  exists order, order ≡ₚ map normalize_edit [demo_edit] /\
    replaced (map (fun e => (edit_oldText e, edit_newText e)) order) demo_content (aer_newContent r).
Proof.
  intros r. assert (applyEditsToNormalizedContent id demo_content [demo_edit] (js "f") = Ok r) as H by (vm_compute; reflexivity).
  split; [exact H|]. apply (exact_edits_replace id demo_content [demo_edit] (js "f") r H).
  constructor; [vm_compute; reflexivity|constructor].
Defined.

(** An old text that is only white space becomes empty when normalized: it is
    "found" at the start of a short file that does not contain it, and the new
    text is inserted there. *)
Lemma blank_old_text_inserts :
  index_of (js "  ") (js "ab") = None /\
  applyEditsToNormalizedContent id (js "ab") [{| edit_oldText := js "  "; edit_newText := js "X" |}] (js "f") =
    Ok {| aer_baseContent := js "ab"; aer_newContent := js "Xab" |}.
Proof. split; vm_compute; reflexivity. Qed.

(** A last line of white space without a newline disappears from the
    normalized text, and a fuzzy edit elsewhere in the file fails. *)
Lemma blank_last_line_fails :
  applyEditsToNormalizedContent id (js "a " ++ [newline] ++ js "b" ++ [newline] ++ js "  ")
    [{| edit_oldText := js "a" ++ [newline] ++ js "b"; edit_newText := js "c" |}] (js "f") = Err EE_line_count.
Proof. vm_compute; reflexivity. Qed.

(** Occurrences are counted without overlaps. *)
Lemma overlapping_occurrences_pass :
  applyEditsToNormalizedContent id (js "aaa") [{| edit_oldText := js "aa"; edit_newText := js "b" |}] (js "f") =
    Ok {| aer_baseContent := js "aaa"; aer_newContent := js "ba" |}.
Proof. vm_compute; reflexivity. Qed.
