(* ===== verification/EditLines.v ===== *)
(** * Edits of normalized text keep the other lines

    The line ranges and groups of edit-diff.ts: where a fuzzy match is applied
    to the normalized text, only the lines a match touches are rewritten. *)

From stdpp Require Import base list strings.
From Stdlib Require Import ZArith Lia Sorting.Sorted.
From S2P Require Import Prelude SessionTypes Numbers Utf8 Truncate TruncateProperties EditDiff EditProperties.

Open Scope Z_scope.

(** ** Lines *)

Lemma join_split_lines s : mjoin (splitLinesWithEndings s) = s.
Proof.
  induction s as [|u s IH]; [done|]. simpl. destruct (Z.eqb_spec u newline) as [->|Hn]; simpl; [by f_equal|].
  destruct (splitLinesWithEndings s) as [|line lines]; simpl in *; by rewrite <- IH.
Qed.

(** Where a line starts. *)
Definition line_start (lines : list jstring) (i : nat) : nat := length (mjoin (take i lines)).

Lemma line_start_mono lines i j : (i <= j)%nat -> (line_start lines i <= line_start lines j)%nat.
Proof.
  intros H. unfold line_start. rewrite <- (take_drop i (take j lines)). rewrite take_take, Nat.min_l by lia.
  rewrite join_app, length_app. lia.
Qed.

Lemma line_start_end lines i : (line_start lines i <= length (mjoin lines))%nat.
Proof.
  unfold line_start. rewrite <- (take_drop i lines) at 2. rewrite join_app, length_app. lia.
Qed.

Lemma slice_lines lines s e : (s <= e)%nat ->
  slice (line_start lines s) (line_start lines e) (mjoin lines) = mjoin (drop s (take e lines)).
Proof.
  intros H. unfold slice, line_start.
  assert (take (length (mjoin (take e lines))) (mjoin lines) = mjoin (take e lines)) as ->.
  { replace (mjoin lines) with (mjoin (take e lines) ++ mjoin (drop e lines)) by (by rewrite <- join_app, take_drop).
    apply take_app_length. }
  replace (take e lines) with (take s lines ++ drop s (take e lines)) at 1.
  2:{ rewrite <- (take_drop s (take e lines)) at 2. by rewrite take_take, Nat.min_l by lia. }
  by rewrite join_app, drop_app_length.
Qed.

Lemma spans_lookup lines : forall offset i span, spans_from offset lines !! i = Some span ->
  ls_start span = offset + Z.of_nat (line_start lines i) /\ ls_end span = offset + Z.of_nat (line_start lines (S i)) /\
  (i < length lines)%nat.
Proof.
  induction lines as [|line lines IH]; intros offset i span; [done|]. destruct i as [|i]; simpl.
  - intros [= <-]. unfold line_start. simpl. rewrite app_nil_r. split; [lia|]. split; [done|lia].
  - intros Hi. destruct (IH _ _ _ Hi) as (H1 & H2 & H3). unfold line_start in *. simpl in *. rewrite length_app in *.
    split; [lia|]. split; [|lia]. rewrite H2. destruct lines; simpl in *; rewrite ?length_app; lia.
Qed.

Lemma spans_length lines : forall offset, length (spans_from offset lines) = length lines.
Proof. induction lines as [|line lines IH]; intros offset; simpl; [done|]. by rewrite IH. Qed.

(** A range and the lines it meets. *)
Definition meets (lines : list jstring) (start end_ : nat) (j : nat) : Prop :=
  (line_start lines j <= start < line_start lines (S j))%nat \/ (start < line_start lines j < end_)%nat.

Lemma find_start_spec spans x : forall i s, find_start_line spans x i = Some s ->
  exists span, (i <= s)%nat /\ spans !! (s - i)%nat = Some span /\ ls_start span <= x < ls_end span.
Proof.
  induction spans as [|span spans IH]; intros i s; simpl; [done|].
  destruct (Z.leb_spec (ls_start span) x), (Z.ltb_spec x (ls_end span)); simpl.
  1: { intros [= <-]. exists span. rewrite Nat.sub_diag. split; [lia|]. by split. }
  all: intros Hs; destruct (IH _ _ Hs) as (sp & H1 & H2 & H3); exists sp;
    replace (s - i)%nat with (S (s - S i)) by lia; (split; [lia|done]).
Qed.

Lemma find_end_spec spans x : forall i e, find_end_line spans x i = Some e ->
  (i <= e)%nat /\ (exists span, spans !! (e - i)%nat = Some span /\ x <= ls_end span) /\
  forall j span, (i <= j < e)%nat -> spans !! (j - i)%nat = Some span -> ls_end span < x.
Proof.
  induction spans as [|span spans IH]; intros i e; simpl; [done|]. destruct (Z.ltb_spec (ls_end span) x) as [Hlt|Hge].
  - intros He. destruct (IH _ _ He) as (H1 & (sp & H2 & H3) & H4). split; [lia|]. split.
    + exists sp. by replace (e - i)%nat with (S (e - S i)) by lia.
    + intros j sp' Hj Hl. destruct (decide (j = i)) as [->|Hne]; [rewrite Nat.sub_diag in Hl; by injection Hl as <-|].
      apply (H4 j); [lia|]. by replace (j - i)%nat with (S (j - S i)) in Hl by lia.
  - intros [= <-]. split; [lia|]. split; [exists span; by rewrite Nat.sub_diag|lia].
Qed.

(** The lines of a replacement are those its range meets. *)
Lemma line_range_spec lines m start len s e :
  me_matchIndex m = Z.of_nat start -> me_matchLength m = Z.of_nat len ->
  getReplacementLineRange (spans_from 0 lines) m = Ok (s, e) ->
  (s < e <= length lines)%nat /\ (line_start lines s <= start < line_start lines (S s))%nat /\
  (start + len <= line_start lines e)%nat /\ forall j, (s <= j < e)%nat -> meets lines start (start + len) j.
Proof.
  intros Hi Hl. unfold getReplacementLineRange. rewrite Hi, Hl.
  destruct (find_start_line _ _ _) as [s'|] eqn:Hs; [|done].
  destruct (find_end_line _ _ _) as [e'|] eqn:He; [|done]. intros [= <- <-].
  apply find_start_spec in Hs as (span & _ & Hspan & Hr). rewrite Nat.sub_0_r in Hspan.
  apply spans_lookup in Hspan as (H1 & H2 & H3). rewrite H1, H2 in Hr.
  apply find_end_spec in He as (He & (span' & Hs' & Hx) & Hbefore). rewrite lookup_drop in Hs'.
  replace (s' + (e' - s'))%nat with e' in Hs' by lia. apply spans_lookup in Hs' as (_ & H5 & H6).
  split; [lia|]. split; [lia|]. split; [lia|]. intros j Hj. destruct (decide (j = s')) as [->|Hne]; [left; lia|right].
  destruct (lookup_lt_is_Some_2 (spans_from 0 lines) (j - 1)) as [sp Hsp]; [rewrite spans_length; lia|].
  assert (ls_end sp < Z.of_nat start + Z.of_nat len) as Hlt.
  { apply (Hbefore (j - 1)%nat); [lia|]. rewrite lookup_drop. by replace (s' + (j - 1 - s'))%nat with (j - 1)%nat by lia. }
  apply spans_lookup in Hsp as (_ & H8 & _). replace (S (j - 1)) with j in H8 by lia.
  pose proof (line_start_mono lines (S s') j ltac:(lia)). lia.
Qed.

(** ** Groups *)

Section Groups.
Context (lines : list jstring) (touched : nat -> Prop).

(** The replacements of a group lie in its lines, and each of its lines is
    touched. *)
Definition group_ok (g : Group) (pairs : list (jstring * jstring)) (hi : nat) : Prop :=
  (gr_startLine g < gr_endLine g <= length lines)%nat /\
  chain (mjoin lines) (line_start lines (gr_startLine g)) (gr_replacements g) pairs hi /\
  (hi <= line_start lines (gr_endLine g))%nat /\
  forall j, (gr_startLine g <= j < gr_endLine g)%nat -> touched j.

(** Groups in the order they are built. *)
Inductive groups_ok : list Group -> list (jstring * jstring) -> nat -> nat -> Prop :=
| gs_nil : groups_ok [] [] 0 0
| gs_snoc gs pairs e hi g gpairs hi' :
    groups_ok gs pairs e hi -> (e <= gr_startLine g)%nat -> group_ok g gpairs hi' ->
    groups_ok (gs ++ [g]) (pairs ++ gpairs) (gr_endLine g) hi'.

(** Groups in the order they are applied. *)
Inductive groups_from : nat -> list Group -> list (jstring * jstring) -> Prop :=
| gf_nil k : groups_from k [] []
| gf_cons k g gs gpairs pairs hi :
    (k <= gr_startLine g)%nat -> group_ok g gpairs hi -> groups_from (gr_endLine g) gs pairs ->
    groups_from k (g :: gs) (gpairs ++ pairs).

Lemma groups_forward gs pairs e hi : groups_ok gs pairs e hi ->
  forall gs' pairs', groups_from e gs' pairs' -> groups_from 0 (gs ++ gs') (pairs ++ pairs').
Proof.
  induction 1 as [|gs pairs e hi g gpairs hi' _ IH Hle Hg]; intros gs' pairs' Hf; [done|].
  rewrite <- !app_assoc. apply IH. by econstructor.
Qed.

(** A match the next group or a new one takes. *)
Lemma add_group_ok gs pairs e hi m pre old post s' e' :
  groups_ok gs pairs e hi -> mjoin lines = pre ++ old ++ post -> (hi <= length pre)%nat ->
  me_matchIndex m = Z.of_nat (length pre) -> me_matchLength m = Z.of_nat (length old) ->
  (forall j, meets lines (length pre) (length pre + length old) j -> touched j) ->
  getReplacementLineRange (spans_from 0 lines) m = Ok (s', e') ->
  exists e2, groups_ok (add_to_groups gs (s', e') m) (pairs ++ [(old, me_newText m)]) e2 (length pre + length old).
Proof.
  intros Hgs Hb Hhi Hi Hl Ht Hr. destruct (line_range_spec _ _ _ _ _ _ Hi Hl Hr) as (Hse & Hs & He & Hmeet).
  set (fresh := {| gr_startLine := s'; gr_endLine := e'; gr_replacements := [m] |}).
  assert (group_ok fresh [(old, me_newText m)] (length pre + length old)) as Hfresh.
  { split; [done|]. split; [|split; [done|intros j Hj; by apply Ht, Hmeet]]. simpl.
    apply (chain_snoc (mjoin lines) (line_start lines s') [] [] (line_start lines s') m pre old post);
      [constructor; apply line_start_end|done|lia|done|done]. }
  unfold add_to_groups. destruct Hgs as [|gs pairs e hi g gpairs hi' Hgs Hle (Hg1 & Hg2 & Hg3 & Hg4)]; simpl.
  - exists e'. apply (gs_snoc [] [] 0 0 fresh _ _ gs_nil); [simpl; lia|done].
  - rewrite last_snoc. destruct (Nat.ltb_spec s' (gr_endLine g)) as [Hlt|Hge].
    + rewrite length_app. simpl. rewrite Nat.add_sub, take_app_length, <- app_assoc. eexists.
      eapply gs_snoc; [exact Hgs|done|]. split; [simpl; lia|]. split; [simpl; by eapply chain_snoc|]. simpl. split.
      * pose proof (line_start_mono lines e' (Nat.max (gr_endLine g) e') ltac:(lia)). lia.
      * intros j Hj. destruct (decide (j < gr_endLine g)%nat); [apply Hg4; lia|apply Ht, Hmeet; lia].
    + exists e'. apply (gs_snoc _ _ (gr_endLine g) hi' fresh); [by eapply gs_snoc|done|done].
Qed.
End Groups.

(** A line of the base that meets an occurrence of a text an edit may match. *)
Definition touched_by (text_of : Edit -> jstring -> Prop) (lines : list jstring) (edits : list Edit) (j : nat) : Prop :=
  exists edit old pre post, edit ∈ edits /\ text_of edit old /\ mjoin lines = pre ++ old ++ post /\
    meets lines (length pre) (length pre + length old) j.

(** All matches, in order. *)
Lemma group_replacements_ok text_of lines touched path ms : forall edits gs pairs e hi groups,
  groups_ok lines touched gs pairs e hi -> Forall2 (hit text_of (mjoin lines)) edits ms ->
  match ms with m :: _ => Z.of_nat hi <= me_matchIndex m | [] => True end ->
  check_overlaps path ms = Ok tt -> (forall j, touched_by text_of lines edits j -> touched j) ->
  group_replacements (spans_from 0 lines) ms gs = Ok groups ->
  exists pairs' e' hi', groups_ok lines touched groups (pairs ++ pairs') e' hi' /\ Forall2 (pair_of text_of) pairs' edits.
Proof.
  induction ms as [|m ms IH]; intros edits gs pairs e hi groups Hgs Hh Hm Ho Ht Hg.
  - apply Forall2_nil_inv_r in Hh as ->. injection Hg as <-. exists [], e, hi. by rewrite app_nil_r.
  - apply Forall2_cons_inv_r in Hh as (edit & edits' & (Hnew & old & pre & post & Hb & Hi & Hl & Htext) & Hh & ->).
    simpl in Hg. inv_result. match goal with r : (nat * nat)%type |- _ => destruct r as [s' e'] end.
    assert (forall j, meets lines (length pre) (length pre + length old) j -> touched j) as Hmeets.
    { intros j Hj. apply Ht. exists edit, old, pre, post. split; [by left|done]. }
    destruct (add_group_ok lines touched gs pairs e hi m pre old post s' e' Hgs Hb ltac:(lia) Hi Hl Hmeets ltac:(assumption))
      as [e2 Hgs'].
    destruct (IH edits' _ _ _ _ groups Hgs' Hh) as (pairs' & e3 & hi3 & Hok & Hp); [| | |eassumption|].
    + destruct ms as [|m' ms]; [done|]. cbn [check_overlaps] in Ho. inv_result.
      match goal with H : negb _ = true |- _ => apply negb_true_iff, Z.ltb_ge in H; lia end.
    + destruct ms as [|m' ms]; [done|]. cbn [check_overlaps] in Ho. by inv_result.
    + intros j (ed & o & p & q & Hin & Hrest). apply Ht. exists ed, o, p, q. split; [by right|done].
    + exists ((old, me_newText m) :: pairs'), e3, hi3. rewrite <- app_assoc in Hok. split; [done|]. by constructor.
Qed.

(** ** The result, line by line *)

(** [overlay touched k original base pairs result]: from line [k] on, [result]
    is [original] but for blocks of touched lines, which are the lines of
    [base] with the next [pairs] replaced. *)
Inductive overlay (touched : nat -> Prop) :
    nat -> list jstring -> list jstring -> list (jstring * jstring) -> jstring -> Prop :=
| ov_nil k : overlay touched k [] [] [] []
| ov_keep k o os b bs pairs r :
    overlay touched (S k) os bs pairs r -> overlay touched k (o :: os) (b :: bs) pairs (o ++ r)
| ov_rewrite k os1 os2 bs1 bs2 pairs1 pairs2 r1 r2 :
    length os1 = length bs1 -> (forall j, (k <= j < k + length bs1)%nat -> touched j) ->
    replaced pairs1 (mjoin bs1) r1 -> overlay touched (k + length bs1) os2 bs2 pairs2 r2 ->
    overlay touched k (os1 ++ os2) (bs1 ++ bs2) (pairs1 ++ pairs2) (r1 ++ r2).

Lemma overlay_keep_all touched os2 bs2 pairs r os1 : forall k bs1,
  length os1 = length bs1 -> overlay touched (k + length bs1) os2 bs2 pairs r ->
  overlay touched k (os1 ++ os2) (bs1 ++ bs2) pairs (mjoin os1 ++ r).
Proof.
  induction os1 as [|o os1 IH]; intros k [|b bs1] Hl Ho; simpl in *; try done.
  - by rewrite Nat.add_0_r in Ho.
  - rewrite <- app_assoc. constructor. apply IH; [by injection Hl|]. by rewrite Nat.add_succ_comm.
Qed.

Lemma drop_take_split {A} (l : list A) k s : (k <= s)%nat -> drop k l = drop k (take s l) ++ drop s l.
Proof.
  intros H. rewrite <- (take_drop s l) at 1. rewrite drop_app. f_equal. destruct (decide (s <= length l)%nat) as [Hl|Hl].
  - rewrite length_take, Nat.min_l by lia. by replace (k - s)%nat with 0%nat by lia.
  - rewrite (drop_ge l s) by lia. by rewrite drop_nil.
Qed.

(** The text of a group after its replacements. *)
Lemma group_text lines touched g pairs hi : group_ok lines touched g pairs hi ->
  exists r, replaced pairs (mjoin (drop (gr_startLine g) (take (gr_endLine g) lines))) r /\
    applyReplacements
      (substring_from (substring_to (mjoin lines) (ls_end (span_at (spans_from 0 lines) (gr_endLine g - 1))))
        (ls_start (span_at (spans_from 0 lines) (gr_startLine g))))
      (gr_replacements g) (ls_start (span_at (spans_from 0 lines) (gr_startLine g))) = r.
Proof.
  intros (Hse & Hc & Hhi & _). destruct (chain_applies _ _ _ _ _ Hc) as (result & Hr & Ha).
  pose proof (chain_bounds _ _ _ _ _ Hc) as Hb. unfold span_at.
  destruct (lookup_lt_is_Some_2 (spans_from 0 lines) (gr_startLine g)) as [sp Hsp]; [rewrite spans_length; lia|].
  destruct (lookup_lt_is_Some_2 (spans_from 0 lines) (gr_endLine g - 1)) as [sq Hsq]; [rewrite spans_length; lia|].
  rewrite Hsp, Hsq. simpl. apply spans_lookup in Hsp as (-> & _ & _). apply spans_lookup in Hsq as (_ & -> & _).
  replace (S (gr_endLine g - 1)) with (gr_endLine g) by lia. unfold substring_from, substring_to. rewrite !Z.add_0_l, !Nat2Z.id.
  eexists. split; [|reflexivity]. fold (slice (line_start lines (gr_startLine g)) (line_start lines (gr_endLine g)) (mjoin lines)).
  rewrite <- slice_lines by lia. rewrite (slice_split _ hi) by lia. rewrite Ha. by apply replaced_app_r.
Qed.

Lemma overlay_groups_spec lines touched originalLines : length originalLines = length lines ->
  forall k gs pairs, groups_from lines touched k gs pairs -> (k <= length lines)%nat ->
  overlay touched k (drop k originalLines) (drop k lines) pairs
    (overlay_groups originalLines (spans_from 0 lines) (mjoin lines) k gs).
Proof.
  intros Hlen k gs pairs Hf. induction Hf as [k|k g gs gpairs pairs hi Hk Hg _ IH]; intros Hkl.
  - simpl. rewrite <- (app_nil_r (drop k originalLines)) at 1. rewrite <- (app_nil_r (drop k lines)).
    rewrite <- (app_nil_r (mjoin _)). apply overlay_keep_all; [rewrite !length_drop; lia|constructor].
  - destruct (group_text _ _ _ _ _ Hg) as (r & Hr & Ha). cbn [overlay_groups]. cbv zeta. rewrite Ha.
    destruct Hg as (Hse & _ & _ & Ht). specialize (IH ltac:(lia)).
    rewrite (drop_take_split originalLines k (gr_startLine g)), (drop_take_split lines k (gr_startLine g)) by lia.
    apply overlay_keep_all; [rewrite !length_drop, !length_take; lia|].
    rewrite (drop_take_split originalLines (gr_startLine g) (gr_endLine g)), (drop_take_split lines (gr_startLine g) (gr_endLine g)) by lia.
    rewrite length_drop, length_take, Nat.min_l by lia. replace (k + (gr_startLine g - k))%nat with (gr_startLine g) by lia.
    apply ov_rewrite; [rewrite !length_drop, !length_take; lia| |done|].
    + intros j. rewrite length_drop, length_take. intros Hj. apply Ht. lia.
    + rewrite length_drop, length_take, Nat.min_l by lia. by replace (gr_startLine g + (gr_endLine g - gr_startLine g))%nat with (gr_endLine g) by lia.
Qed.

(** Matches that do not overlap rewrite only the lines they touch. *)
Lemma preserving_overlay text_of original base path edits ms r :
  Forall2 (hit text_of base) edits ms -> StronglySorted (key_le me_matchIndex) ms -> check_overlaps path ms = Ok tt ->
  applyReplacementsPreservingUnchangedLines original base ms = Ok r ->
  exists pairs, Forall2 (pair_of text_of) pairs edits /\
    overlay (touched_by text_of (splitLinesWithEndings base) edits) 0
      (splitLinesWithEndings original) (splitLinesWithEndings base) pairs r.
Proof.
  intros Hh Hs Ho Hr. unfold applyReplacementsPreservingUnchangedLines, getLineSpans in Hr. inv_result.
  rewrite (sort_by_id _ _ Hs) in *. rewrite spans_length in *. set (lines := splitLinesWithEndings base) in *.
  assert (mjoin lines = base) as Hbase by apply join_split_lines. rewrite <- Hbase in Hh.
  match goal with H : group_replacements _ _ _ = Ok ?gs |- _ => rename H into Hg; rename gs into groups end.
  destruct (group_replacements_ok text_of lines (touched_by text_of lines edits) path ms edits [] [] 0 0 groups)
    as (pairs & e & hi & Hok & Hp); [constructor|done| |done|done|done|].
  { destruct Hh as [|edit m es ms' (_ & old & pre & post & _ & -> & _)]; [done|lia]. }
  exists pairs. split; [done|]. pose proof (groups_forward _ _ _ _ _ _ Hok [] [] (gf_nil _ _ _)) as Hf.
  rewrite !app_nil_r in Hf.
  match goal with H : bool_decide _ = true |- _ => apply bool_decide_eq_true in H; rename H into Hlen end.
  pose proof (overlay_groups_spec lines _ (splitLinesWithEndings original) Hlen 0 groups pairs Hf ltac:(lia)) as Hov.
  subst r. by rewrite Hbase in Hov.
Qed.

(** ** The normalized text *)

Lemma is_white_space_spec u : is_white_space u = true <->
  9 <= u <= 13 \/ u = 32 \/ u = 0xa0 \/ u = 0x1680 \/ 0x2000 <= u <= 0x200a \/ u = 0x2028 \/ u = 0x2029 \/
  u = 0x202f \/ u = 0x205f \/ u = 0x3000 \/ u = 0xfeff.
Proof.
  unfold is_white_space. rewrite orb_true_iff, andb_true_iff, !Z.leb_le, bool_decide_eq_true.
  rewrite !elem_of_cons, elem_of_nil. lia.
Qed.

(** What a character becomes. *)
Lemma plain_cases u :
  plain_character u = u \/
  ((plain_character u = 39 \/ plain_character u = 34 \/ plain_character u = 45) /\ is_white_space u = false) \/
  (plain_character u = 32 /\ is_white_space u = true /\ u <> newline).
Proof.
  rewrite <- not_true_iff_false, is_white_space_spec. unfold plain_character, newline.
  destruct ((0x2002 <=? u) && (u <=? 0x200a)) eqn:Hr; [apply andb_true_iff in Hr; rewrite !Z.leb_le in Hr|].
  all: repeat case_bool_decide; rewrite ?elem_of_cons, ?elem_of_nil in *; cbn [orb]; lia.
Qed.

Lemma plain_white u : is_white_space (plain_character u) = is_white_space u.
Proof. destruct (plain_cases u) as [->|[[[->|[->| ->]] ->]|(-> & -> & _)]]; done. Qed.

Lemma plain_newline u : plain_character u = newline <-> u = newline.
Proof.
  destruct (plain_cases u) as [->|[[H1 H2]|(H1 & H2 & H3)]]; [done|split; intros H..].
  - unfold newline in H. lia.
  - by subst.
  - unfold newline in H. lia.
  - done.
Qed.

Lemma plain_idem u : plain_character (plain_character u) = plain_character u.
Proof. destruct (plain_cases u) as [H|[[[H|[H|H]] _]|(H & _ & _)]]; rewrite H; done. Qed.

Lemma split_map_plain s : split_lines (map plain_character s) = map (map plain_character) (split_lines s).
Proof.
  induction s as [|u s IH]; [done|]. cbn [map split_lines]. rewrite IH.
  destruct (Z.eqb_spec u newline) as [->|Hn]; [done|].
  destruct (Z.eqb_spec (plain_character u) newline) as [H|_]; [by apply (proj1 (plain_newline u)) in H|].
  by destruct (split_lines s).
Qed.

Lemma join_map_plain ls : join_lines (map (map plain_character) ls) = map plain_character (join_lines ls).
Proof.
  induction ls as [|l [|l' ls] IH]; [done|done|]. cbn [map] in *.
  change (map plain_character l ++ newline :: join_lines (map plain_character l' :: map (map plain_character) ls) =
          map plain_character (l ++ newline :: join_lines (l' :: ls))).
  rewrite IH, map_app. done.
Qed.

Lemma trimEnd_map_plain s : trimEnd (map plain_character s) = map plain_character (trimEnd s).
Proof.
  induction s as [|u s IH]; [done|]. cbn [map trimEnd]. rewrite IH. destruct (trimEnd s); cbn [map]; [|done].
  rewrite plain_white. by destruct (is_white_space u).
Qed.

Lemma trimEnd_idem s : trimEnd (trimEnd s) = trimEnd s.
Proof.
  induction s as [|u s IH]; [done|]. simpl. destruct (trimEnd s) as [|v t]; simpl in *.
  - destruct (is_white_space u) eqn:Hu; simpl; by rewrite ?Hu.
  - by rewrite IH.
Qed.

Lemma trimEnd_Forall P s : Forall P s -> Forall P (trimEnd s).
Proof.
  induction 1 as [|u s Hu _ IH]; [constructor|]. simpl. destruct (trimEnd s); [|by constructor].
  destruct (is_white_space u); by repeat constructor.
Qed.

Section Fuzzy.
Context (nfkc : jstring -> jstring).

(** A second normalization changes nothing. *)
Lemma normalizeForFuzzyMatch_idem s :
  nfkc (normalizeForFuzzyMatch nfkc s) = normalizeForFuzzyMatch nfkc s ->
  normalizeForFuzzyMatch nfkc (normalizeForFuzzyMatch nfkc s) = normalizeForFuzzyMatch nfkc s.
Proof.
  intros H. unfold normalizeForFuzzyMatch at 1. rewrite H. unfold normalizeForFuzzyMatch.
  set (ls := map trimEnd (split_lines (nfkc s))). rewrite split_map_plain, split_join.
  - rewrite map_map. rewrite (map_ext _ _ trimEnd_map_plain), <- (map_map trimEnd), join_map_plain.
    rewrite map_map. rewrite (map_ext _ _ plain_idem). f_equal. f_equal. unfold ls. rewrite map_map.
    apply map_ext, trimEnd_idem.
  - unfold ls. pose proof (split_lines_nonempty (nfkc s)) as Hne. by destruct (split_lines (nfkc s)).
  - apply Forall_fmap. eapply Forall_impl; [apply split_lines_free|]. intros l. apply trimEnd_Forall.
Qed.

Lemma fuzzy_find base edit : normalizeForFuzzyMatch nfkc base = base ->
  fm_found (fuzzyFindText nfkc base (edit_oldText edit)) = true ->
  exists old pre post, base = pre ++ old ++ post /\
    fm_index (fuzzyFindText nfkc base (edit_oldText edit)) = Z.of_nat (length pre) /\
    fm_matchLength (fuzzyFindText nfkc base (edit_oldText edit)) = Z.of_nat (length old) /\ fuzzy_text nfkc edit old.
Proof.
  intros Hb. unfold fuzzyFindText. destruct (index_of (edit_oldText edit) base) as [i|] eqn:Hi.
  - intros _. destruct (index_of_spec _ _ _ Hi) as (pre & post & -> & <-). exists (edit_oldText edit), pre, post.
    by repeat split; [..|left].
  - rewrite Hb. destruct (index_of (normalizeForFuzzyMatch _ _) _) as [j|] eqn:Hj; simpl; [|done]. intros _.
    destruct (index_of_spec _ _ _ Hj) as (pre & post & -> & <-). eexists _, pre, post. by repeat split; [..|right].
Qed.

(** C35: when some edit matches only after normalization, the lines of the
    original that no match touches come back unchanged, and each block of
    touched lines is the normalized lines with the matched texts of the edits
    (their old text, or its normalization) replaced by the new texts. *)
Theorem fuzzy_edits_preserve_lines content edits path r :
  let base := normalizeForFuzzyMatch nfkc content in
  nfkc base = base ->
  applyEditsToNormalizedContent nfkc content edits path = Ok r ->
  Exists (fun edit => fm_usedFuzzyMatch (fuzzyFindText nfkc content (edit_oldText (normalize_edit edit))) = true) edits ->
  aer_baseContent r = content /\
  exists order pairs, order ≡ₚ map normalize_edit edits /\ Forall2 (pair_of (fuzzy_text nfkc)) pairs order /\
    overlay (touched_by (fuzzy_text nfkc) (splitLinesWithEndings base) order) 0
      (splitLinesWithEndings content) (splitLinesWithEndings base) pairs (aer_newContent r).
Proof.
  intros base Hn Hr Hfuzzy. pose proof (normalizeForFuzzyMatch_idem content Hn) as Hbase. fold base in Hbase.
  unfold applyEditsToNormalizedContent in Hr.
  assert (existsb (fun edit => fm_usedFuzzyMatch (fuzzyFindText nfkc content (edit_oldText edit))) (map normalize_edit edits)
          = true) as Hu.
  { clear Hr. induction Hfuzzy as [edit edits He|edit edits _ IH]; cbn [map existsb]; [by rewrite He|]. by rewrite IH, orb_true_r. }
  rewrite Hu in Hr. fold base in Hr. inv_result. subst r. simpl. split; [done|].
  apply (match_edits_hits nfkc (fuzzy_text nfkc)) in Ha0; [|intros edit _; by apply fuzzy_find].
  destruct (hits_sorted _ _ _ _ Ha0) as (order & Hp & Hh). destruct a1.
  destruct (preserving_overlay _ content base path order _ _ Hh (sort_by_sorted _ _) Ha1 ltac:(eassumption)) as (pairs & Hpairs & Hov).
  by exists order, pairs.
Qed.
End Fuzzy.

Definition fuzzy_demo : jstring := js "keep " ++ [newline] ++ [0x201c] ++ js "x" ++ [0x201d; newline].
Definition fuzzy_demo_edit : Edit := {| edit_oldText := [34; 120; 34]; edit_newText := js "y" |}.

(** Witness of [fuzzy_edits_preserve_lines]: the white space at the end of the
    first line stays, the quoted text is replaced. *)
Lemma fuzzy_edits_preserve_lines_witness :
  let r := {| aer_baseContent := fuzzy_demo; aer_newContent := js "keep " ++ [newline] ++ js "y" ++ [newline] |} in
  applyEditsToNormalizedContent id fuzzy_demo [fuzzy_demo_edit] (js "f") = Ok r /\ aer_baseContent r = fuzzy_demo /\
  exists order pairs, order ≡ₚ map normalize_edit [fuzzy_demo_edit] /\ Forall2 (pair_of (fuzzy_text id)) pairs order /\
    overlay (touched_by (fuzzy_text id) (splitLinesWithEndings (normalizeForFuzzyMatch id fuzzy_demo)) order) 0
      (splitLinesWithEndings fuzzy_demo) (splitLinesWithEndings (normalizeForFuzzyMatch id fuzzy_demo)) pairs (aer_newContent r).
Proof.
  intros r. assert (applyEditsToNormalizedContent id fuzzy_demo [fuzzy_demo_edit] (js "f") = Ok r) as H by (vm_compute; reflexivity).
  split; [exact H|].
  apply (fuzzy_edits_preserve_lines id fuzzy_demo [fuzzy_demo_edit] (js "f") r); [reflexivity|exact H|].
  constructor. vm_compute. reflexivity.
Defined.
