(* ===== verification/EditOutput.v ===== *)
(** * The file an edit writes and the diff it shows

    Line endings and byte order mark of the written file, and the line numbers
    of the displayed diff. *)

From stdpp Require Import base list strings.
From Stdlib Require Import ZArith Lia Sorting.Sorted.
From S2P Require Import Prelude SessionTypes Numbers Utf8 Truncate TruncateProperties EditDiff EditProperties EditLines.

Open Scope Z_scope.

(** ** Line endings *)

Definition no_cr (text : jstring) : Prop := Forall (fun u => u <> carriage_return) text.

Lemma map_no_cr text : no_cr text -> map (fun u => if u =? carriage_return then newline else u) text = text.
Proof. induction 1 as [|u text Hu _ IH]; [done|]. simpl. rewrite IH. by destruct (Z.eqb_spec u carriage_return). Qed.

Lemma replace_crlf_lf text : no_cr text -> replace_crlf text = text.
Proof.
  induction 1 as [|u text Hu _ IH]; [done|]. cbn [replace_crlf]. rewrite IH. by destruct (Z.eqb_spec u carriage_return).
Qed.

Lemma replace_crlf_crlf text : no_cr text -> replace_crlf (restoreLineEndings text LE_crlf) = text.
Proof.
  induction 1 as [|u text Hu _ IH]; [done|]. simpl in *. destruct (Z.eqb_spec u newline) as [->|Hn]; simpl.
  - by rewrite IH.
  - rewrite IH. by destruct (Z.eqb_spec u carriage_return).
Qed.

Lemma normalize_restored text ending : no_cr text -> normalizeToLF (restoreLineEndings text ending) = text.
Proof.
  intros H. unfold normalizeToLF. destruct ending; [rewrite replace_crlf_crlf|rewrite replace_crlf_lf]; by rewrite ?map_no_cr.
Qed.

Lemma index_of_absent u v text : Forall (fun x => x <> u) text -> index_of (u :: v) text = None.
Proof.
  induction 1 as [|x text Hx _ IH]; [done|]. cbn [index_of strip_prefix]. rewrite IH. by destruct (Z.eqb_spec u x).
Qed.

Lemma detect_lf text : no_cr text -> detectLineEnding text = LE_lf.
Proof. intros H. unfold detectLineEnding. rewrite (index_of_absent carriage_return) by done. by destruct (index_of _ _). Qed.

Lemma crlf_index text : no_cr text -> newline ∈ text -> exists i,
  index_of [newline] (restoreLineEndings text LE_crlf) = Some (S i) /\
  index_of [carriage_return; newline] (restoreLineEndings text LE_crlf) = Some i.
Proof.
  induction 1 as [|u text Hu _ IH]; intros Hin; [by apply elem_of_nil in Hin|].
  simpl restoreLineEndings in *. destruct (Z.eqb_spec u newline) as [->|Hn]; [by exists 0%nat|].
  apply elem_of_cons in Hin as [Heq|Hin]; [congruence|]. destruct (IH Hin) as (i & H1 & H2). exists (S i).
  cbn [mjoin list_join app index_of strip_prefix].
  destruct (Z.eqb_spec newline u) as [|_]; [congruence|]. destruct (Z.eqb_spec carriage_return u) as [|_]; [congruence|].
  change (index_of [newline] ([] ++ mjoin (map (fun u0 => if u0 =? newline then [carriage_return; newline] else [u0]) text)))
    with (index_of [newline] (mjoin (map (fun u0 => if u0 =? newline then [carriage_return; newline] else [u0]) text))).
  by rewrite H1, H2.
Qed.

Lemma detect_restored text ending : no_cr text -> (ending = LE_crlf -> newline ∈ text) ->
  detectLineEnding (restoreLineEndings text ending) = ending.
Proof.
  intros H Hin. destruct ending; [|by apply detect_lf]. unfold detectLineEnding.
  destruct (crlf_index text H (Hin eq_refl)) as (i & -> & ->). by destruct (Nat.ltb_spec i (S i)); [|lia].
Qed.

(** A byte order mark, or none and a text that does not begin with one. *)
Definition bom_of (bom text : jstring) : Prop := bom = [0xfeff] \/ (bom = [] /\ hd 0 text <> 0xfeff).

Lemma stripBom_spec bom text : bom_of bom text -> stripBom (bom ++ text) = (bom, text).
Proof.
  intros [->|[-> H]]; [done|]. destruct text as [|u text]; [done|]. simpl in *. by destruct (Z.eqb_spec u 0xfeff).
Qed.

(** a file whose line endings are uniform is edited as its text with LF
    line endings is: the byte order mark and the line endings it had are
    those of the file written. *)
Theorem edit_keeps_format nfkc path edits bom text ending :
  no_cr text -> (ending = LE_crlf -> newline ∈ text) -> bom_of bom (restoreLineEndings text ending) ->
  edit_content nfkc path edits (bom ++ restoreLineEndings text ending) =
    let* applied := applyEditsToNormalizedContent nfkc text edits path in
    Ok (bom ++ restoreLineEndings (aer_newContent applied) ending, applied).
Proof.
  intros Hcr Hin Hbom. unfold edit_content. rewrite (stripBom_spec _ _ Hbom), detect_restored, normalize_restored by done. done.
Qed.

(** ** Lines of a part *)

Definition line_free (l : jstring) : Prop := Forall (fun u => u <> newline) l.

(** Lines with their endings; only the last may have none. *)
Inductive tokens : list jstring -> Prop :=
| tk_nil : tokens []
| tk_last l : l <> [] -> line_free l -> tokens [l]
| tk_cons l ts : line_free l -> tokens ts -> tokens ((l ++ [newline]) :: ts).

(** A line without its ending. *)
Definition chomp (l : jstring) : jstring :=
  match last l with Some u => if u =? newline then take (length l - 1) l else l | None => l end.

Lemma chomp_newline l : chomp (l ++ [newline]) = l.
Proof. unfold chomp. rewrite last_snoc. simpl. rewrite length_app. simpl. by rewrite Nat.add_sub, take_app_length. Qed.

Lemma chomp_free l : line_free l -> chomp l = l.
Proof.
  intros H. unfold chomp. destruct (last l) as [u|] eqn:Hl; [|done]. destruct (Z.eqb_spec u newline) as [->|]; [|done].
  apply last_Some_elem_of in Hl. by destruct (proj1 (Forall_forall _ _) H _ Hl).
Qed.

Lemma tokens_lines s : tokens (splitLinesWithEndings s).
Proof.
  induction s as [|u s IH]; simpl; [constructor|]. destruct (Z.eqb_spec u newline) as [->|Hn]; [apply (tk_cons []); [constructor|done]|].
  destruct IH as [|l Hne Hl|l ts Hl Hts].
  - apply tk_last; by repeat constructor.
  - apply tk_last; [done|by constructor].
  - apply (tk_cons (u :: l)); [by constructor|done].
Qed.

Lemma tokens_app ts ts' : tokens (ts ++ ts') -> tokens ts /\ tokens ts'.
Proof.
  revert ts'. induction ts as [|t ts IH]; intros ts' H; [split; [constructor|done]|]. simpl in H.
  inversion H as [|l Hne Hl E|l ts0 Hl Ht E]; subst.
  - match goal with E : _ ++ _ = [] |- _ => apply app_eq_nil in E as [-> ->] | E : [] = _ ++ _ |- _ => symmetry in E; apply app_eq_nil in E as [-> ->] end.
    split; [by constructor|constructor].
  - destruct (IH _ Ht) as [H1 H2]. split; [by constructor|done].
Qed.

Lemma part_lines_line l s : line_free l -> part_lines (l ++ newline :: s) = l :: part_lines s.
Proof.
  intros Hl. unfold part_lines. rewrite split_line by done. pose proof (split_lines_nonempty s) as Hne.
  destruct (split_lines s) as [|x xs]; [done|]. cbn [last length].
  change (match xs with [] => Some x | _ :: _ => last xs end) with (last (x :: xs)).
  destruct (last (x :: xs)) as [[|u t]|]; [|done|done]. simpl. by rewrite !Nat.sub_0_r.
Qed.

Lemma part_lines_tokens ts : tokens ts -> part_lines (mjoin ts) = map chomp ts.
Proof.
  induction 1 as [|l Hne Hl|l ts Hl _ IH]; [done| |].
  - simpl. rewrite app_nil_r, chomp_free by done. unfold part_lines. rewrite split_one_line by done. by destruct l.
  - simpl. rewrite <- app_assoc. simpl. by rewrite part_lines_line, IH, chomp_newline.
Qed.

(** ** Parts *)

(** The lines of the old and of the new content that parts stand for. *)
Definition old_lines (parts : list (DiffPart * list jstring)) : list jstring :=
  mjoin (map (fun '(part, ts) => if part_added part then [] else ts) parts).

Definition new_lines (parts : list (DiffPart * list jstring)) : list jstring :=
  mjoin (map (fun '(part, ts) => if part_removed part then [] else ts) parts).

(** What the diff library promises: every part is whole lines; the parts that
    are not added are the old content, those not removed the new content. *)
Definition diff_of (parts : list DiffPart) (oldContent newContent : jstring) : Prop :=
  exists tparts, map fst tparts = parts /\
    Forall (fun '(part, ts) => part_value part = mjoin ts /\ part_added part && part_removed part = false) tparts /\
    old_lines tparts = splitLinesWithEndings oldContent /\ new_lines tparts = splitLinesWithEndings newContent.

(** The number of old and of new lines before a part. *)
Definition count_old (parts : list DiffPart) : nat :=
  sum_list (map (fun part => if part_added part then 0%nat else length (part_lines (part_value part))) parts).

Definition count_new (parts : list DiffPart) : nat :=
  sum_list (map (fun part => if part_removed part then 0%nat else length (part_lines (part_value part))) parts).

(** Line [n] of a content, from 1, without its ending. *)
Definition nth_line (content : jstring) (n : Z) : option jstring :=
  if 1 <=? n then chomp <$> splitLinesWithEndings content !! Z.to_nat (n - 1) else None.

(** A row that names its line. *)
Definition row_ok (oldContent newContent : jstring) (row : DiffRow) : Prop :=
  match row with
  | DR_added n line => nth_line newContent n = Some line
  | DR_removed n line => nth_line oldContent n = Some line
  | DR_context n line => nth_line oldContent n = Some line
  | DR_gap => True
  end.

Section Rows.
Context (oldContent newContent : jstring).

(** [lines] are the lines of [content] after the first [a]. *)
Definition at_lines (content : jstring) (a : nat) (lines : list jstring) : Prop :=
  exists rest, map chomp (drop a (splitLinesWithEndings content)) = lines ++ rest.

Lemma at_lines_nth content a line lines : at_lines content a (line :: lines) ->
  nth_line content (Z.of_nat a + 1) = Some line /\ at_lines content (S a) lines.
Proof.
  intros [rest H]. destruct (drop a (splitLinesWithEndings content)) as [|l ls] eqn:Hd; [done|]. injection H as <- H.
  assert (splitLinesWithEndings content !! a = Some l) as Hl.
  { rewrite <- (Nat.add_0_r a), <- lookup_drop. by rewrite Hd. }
  split.
  - unfold nth_line. destruct (Z.leb_spec 1 (Z.of_nat a + 1)); [|lia].
    replace (Z.to_nat (Z.of_nat a + 1 - 1)) with a by lia. by rewrite Hl.
  - exists rest. rewrite (drop_S _ _ _ Hl) in Hd. by injection Hd as <-.
Qed.

Lemma at_lines_app content a l1 l2 : at_lines content a (l1 ++ l2) -> at_lines content a l1 /\ at_lines content (a + length l1) l2.
Proof.
  intros [rest H]. split; [exists (l2 ++ rest); by rewrite app_assoc|]. exists rest.
  rewrite <- drop_drop, <- (drop_app_length l1 (l2 ++ rest)), app_assoc, <- H. symmetry. apply skipn_map.
Qed.

(** The state after [a] old and [b] new lines, with rows that name their lines. *)
Definition diff_inv (s : DiffState) (a b : nat) : Prop :=
  ds_oldLineNum s = Z.of_nat a + 1 /\ ds_newLineNum s = Z.of_nat b + 1 /\ Forall (row_ok oldContent newContent) (ds_output s).

(** Rows are only added. *)
Definition grows (s s' : DiffState) : Prop := exists rows, ds_output s' = ds_output s ++ rows.

Lemma grows_refl s : grows s s.
Proof. exists []. by rewrite app_nil_r. Qed.

Lemma grows_trans s1 s2 s3 : grows s1 s2 -> grows s2 s3 -> grows s1 s3.
Proof. intros [r1 H1] [r2 H2]. exists (r1 ++ r2). by rewrite H2, H1, app_assoc. Qed.

Lemma show_change_ok (added : bool) raw : forall s a b,
  diff_inv s a b -> at_lines (if added then newContent else oldContent) (if added then b else a) raw ->
  diff_inv (show_change added raw s) (if added then a else (a + length raw)%nat) (if added then (b + length raw)%nat else b) /\
  grows s (show_change added raw s) /\
  forall i line, raw !! i = Some line ->
    (if added then DR_added (Z.of_nat (b + i) + 1) line else DR_removed (Z.of_nat (a + i) + 1) line)
      ∈ ds_output (show_change added raw s).
Proof.
  induction raw as [|line raw IH]; intros s a b (H1 & H2 & H3) Hat.
  - split; [split; destruct added; simpl; by rewrite ?Nat.add_0_r|]. split; [apply grows_refl|done].
  - apply at_lines_nth in Hat as [Hn Hat]. cbn [show_change length]. destruct added.
    + destruct (IH {| ds_output := ds_output s ++ [DR_added (ds_newLineNum s) line]; ds_oldLineNum := ds_oldLineNum s;
                 ds_newLineNum := ds_newLineNum s + 1; ds_lastWasChange := ds_lastWasChange s;
                 ds_firstChangedLine := ds_firstChangedLine s |} a (S b)) as (Hi & Hg & Hr).
      { split; [done|]. split; [simpl; lia|]. simpl. apply Forall_app. split; [done|]. rewrite Forall_singleton. simpl. by rewrite H2. }
      { done. }
      split; [by rewrite <- Nat.add_succ_comm|]. split; [eapply grows_trans; [|exact Hg]; by eexists|].
      intros [|i] l Hl.
      * injection Hl as <-. destruct Hg as [rows ->]. simpl. rewrite !elem_of_app, list_elem_of_singleton. left. right.
        rewrite H2. do 2 f_equal. lia.
      * rewrite <- Nat.add_succ_comm. by apply Hr.
    + destruct (IH {| ds_output := ds_output s ++ [DR_removed (ds_oldLineNum s) line]; ds_oldLineNum := ds_oldLineNum s + 1;
                 ds_newLineNum := ds_newLineNum s; ds_lastWasChange := ds_lastWasChange s;
                 ds_firstChangedLine := ds_firstChangedLine s |} (S a) b) as (Hi & Hg & Hr).
      { split; [simpl; lia|]. split; [done|]. simpl. apply Forall_app. split; [done|]. rewrite Forall_singleton. simpl. by rewrite H1. }
      { done. }
      split; [by rewrite <- Nat.add_succ_comm|]. split; [eapply grows_trans; [|exact Hg]; by eexists|].
      intros [|i] l Hl.
      * injection Hl as <-. destruct Hg as [rows ->]. simpl. rewrite !elem_of_app, list_elem_of_singleton. left. right.
        rewrite H1. do 2 f_equal. lia.
      * rewrite <- Nat.add_succ_comm. by apply Hr.
Qed.

Lemma show_context_ok lines : forall s a b,
  diff_inv s a b -> at_lines oldContent a lines ->
  diff_inv (show_context lines s) (a + length lines) (b + length lines) /\ grows s (show_context lines s).
Proof.
  induction lines as [|line lines IH]; intros s a b (H1 & H2 & H3) Hat.
  - simpl. rewrite !Nat.add_0_r. split; [done|apply grows_refl].
  - apply at_lines_nth in Hat as [Hn Hat]. cbn [show_context length].
    destruct (IH {| ds_output := ds_output s ++ [DR_context (ds_oldLineNum s) line]; ds_oldLineNum := ds_oldLineNum s + 1;
           ds_newLineNum := ds_newLineNum s + 1; ds_lastWasChange := ds_lastWasChange s;
           ds_firstChangedLine := ds_firstChangedLine s |} (S a) (S b)) as (Hi & Hg).
    { split; [simpl; lia|]. split; [simpl; lia|]. simpl. apply Forall_app. split; [done|]. rewrite Forall_singleton. simpl. by rewrite H1. }
    { done. }
    rewrite <- !Nat.add_succ_comm. split; [done|]. eapply grows_trans; [|exact Hg]. by eexists.
Qed.

Lemma skip_lines_ok gap n s a b : diff_inv s a b -> diff_inv (skip_lines gap n s) (a + n) (b + n) /\ grows s (skip_lines gap n s).
Proof.
  intros (H1 & H2 & H3). split; [|by eexists]. split; [simpl; lia|]. split; [simpl; lia|]. simpl. apply Forall_app.
  split; [done|]. destruct gap; by repeat constructor.
Qed.

Lemma show_unchanged_ok contextLines next raw s a b :
  diff_inv s a b -> at_lines oldContent a raw ->
  diff_inv (show_unchanged contextLines next raw s) (a + length raw) (b + length raw) /\
  grows s (show_unchanged contextLines next raw s).
Proof.
  intros Hi Hat. unfold show_unchanged. cbv zeta.
  assert (forall k, (k <= length raw)%nat -> at_lines oldContent a (take k raw) /\ at_lines oldContent (a + k) (drop k raw)) as Hcut.
  { intros k Hk. rewrite <- (take_drop k raw) in Hat. apply at_lines_app in Hat as [Ha Hb].
    rewrite length_take, Nat.min_l in Hb by done. done. }
  assert (forall k, diff_inv (show_context (take k raw) s) (a + Nat.min k (length raw)) (b + Nat.min k (length raw)) /\
                    grows s (show_context (take k raw) s)) as Hhead.
  { intros k. rewrite <- length_take. apply show_context_ok; [done|]. rewrite <- (take_drop k raw) in Hat.
    by apply at_lines_app in Hat as [Ha _]. }
  destruct (ds_lastWasChange s && next); [|destruct (ds_lastWasChange s); [|destruct next]].
  - destruct (Nat.leb_spec (length raw) (contextLines * 2)) as [Hle|Hgt]; [by apply show_context_ok|].
    destruct (Hhead contextLines) as [H1 G1]. rewrite Nat.min_l in H1 by lia.
    rewrite length_take, length_drop, Nat.min_l by lia.
    set (k := (length raw - contextLines - (length raw - (length raw - contextLines)))%nat).
    destruct (skip_lines_ok true k _ _ _ H1) as [H2 G2].
    destruct (Hcut (length raw - contextLines)%nat ltac:(lia)) as [_ Hat'].
    replace (a + contextLines + k)%nat with (a + (length raw - contextLines))%nat in H2 by (unfold k; lia).
    destruct (show_context_ok _ _ _ _ H2 Hat') as [H3 G3]. rewrite length_drop in H3. split.
    + by replace (a + length raw)%nat with (a + (length raw - contextLines) + (length raw - (length raw - contextLines)))%nat by lia;
        replace (b + length raw)%nat with (b + contextLines + k + (length raw - (length raw - contextLines)))%nat by (unfold k; lia).
    + eapply grows_trans; [exact G1|]. by eapply grows_trans.
  - destruct (Hhead contextLines) as [H1 G1]. rewrite length_take.
    destruct (Nat.ltb_spec 0 (length raw - Nat.min contextLines (length raw))) as [Hlt|Hge].
    + destruct (skip_lines_ok true (length raw - Nat.min contextLines (length raw)) _ _ _ H1) as [H2 G2]. split; [|by eapply grows_trans].
      by replace (a + length raw)%nat with (a + Nat.min contextLines (length raw) + (length raw - Nat.min contextLines (length raw)))%nat by lia;
        replace (b + length raw)%nat with (b + Nat.min contextLines (length raw) + (length raw - Nat.min contextLines (length raw)))%nat by lia.
    + split; [|done]. by replace (length raw) with (Nat.min contextLines (length raw)) by lia.
  - destruct (Hcut (length raw - contextLines)%nat ltac:(lia)) as [_ Hat'].
    destruct (Nat.ltb_spec 0 (length raw - contextLines)) as [Hlt|Hge].
    + destruct (skip_lines_ok true (length raw - contextLines) _ _ _ Hi) as [H2 G2].
      destruct (show_context_ok _ _ _ _ H2 Hat') as [H3 G3]. rewrite length_drop in H3. split; [|by eapply grows_trans].
      by replace (a + length raw)%nat with (a + (length raw - contextLines) + (length raw - (length raw - contextLines)))%nat by lia;
        replace (b + length raw)%nat with (b + (length raw - contextLines) + (length raw - (length raw - contextLines)))%nat by lia.
    + replace (length raw - contextLines)%nat with 0%nat by lia. by apply show_context_ok.
  - by apply skip_lines_ok.
Qed.

Lemma tokens_drop content a ts rest : drop a (splitLinesWithEndings content) = ts ++ rest -> tokens ts /\ at_lines content a (map chomp ts).
Proof.
  intros H. pose proof (tokens_lines content) as Ht. rewrite <- (take_drop a), H in Ht.
  apply tokens_app in Ht as [_ Ht]. apply tokens_app in Ht as [Ht _]. split; [done|].
  exists (map chomp rest). by rewrite H, map_app.
Qed.

(** The row of a line of a changed part. *)
Definition change_row (part : DiffPart) (a b i : nat) (line : jstring) : DiffRow :=
  if part_added part then DR_added (Z.of_nat (b + i) + 1) line else DR_removed (Z.of_nat (a + i) + 1) line.

(** Rows name their lines, and every changed line has its row. *)
Definition rows_spec (parts : list DiffPart) (a b : nat) (rows : list DiffRow) : Prop :=
  Forall (row_ok oldContent newContent) rows /\
  forall before part after i line, parts = before ++ part :: after -> is_change part = true ->
    part_lines (part_value part) !! i = Some line ->
    change_row part (a + count_old before) (b + count_new before) i line ∈ rows.

Lemma changed_part_ok part ts rest s a b :
  part_value part = mjoin ts -> is_change part = true -> part_added part && part_removed part = false ->
  diff_inv s a b ->
  drop a (splitLinesWithEndings oldContent) = (if part_added part then [] else ts) ++ rest.1 ->
  drop b (splitLinesWithEndings newContent) = (if part_removed part then [] else ts) ++ rest.2 ->
  let s' := set_last_change true (show_change (part_added part) (part_lines (part_value part)) (note_change s)) in
  part_lines (part_value part) = map chomp ts /\
  diff_inv s' (a + if part_added part then 0 else length ts) (b + if part_removed part then 0 else length ts) /\ grows s s' /\
  forall i line, part_lines (part_value part) !! i = Some line -> change_row part a b i line ∈ ds_output s'.
Proof.
  intros Hv Hc Hx Hi Ho Hn s'. unfold is_change in Hc.
  assert (tokens ts /\ at_lines (if part_added part then newContent else oldContent) (if part_added part then b else a) (map chomp ts))
    as [Ht Hat].
  { destruct (part_added part); [|by eapply tokens_drop]. destruct (part_removed part); [done|]. by eapply tokens_drop. }
  assert (part_lines (part_value part) = map chomp ts) as Hp by (by rewrite Hv, part_lines_tokens). split; [done|].
  subst s'. rewrite Hp. destruct (show_change_ok (part_added part) (map chomp ts) (note_change s) a b) as (H1 & H2 & H3); [done|done|].
  rewrite length_map in H1. split; [|split; [done|]].
  - destruct (part_added part), (part_removed part); try done; by rewrite Nat.add_0_r.
  - intros i line Hl. unfold change_row. specialize (H3 i line Hl). by destruct (part_added part).
Qed.

Lemma diff_loop_ok contextLines tparts : forall s a b,
  Forall (fun '(part, ts) => part_value part = mjoin ts /\ part_added part && part_removed part = false) tparts ->
  diff_inv s a b ->
  old_lines tparts = drop a (splitLinesWithEndings oldContent) -> new_lines tparts = drop b (splitLinesWithEndings newContent) ->
  grows s (diff_loop contextLines (map fst tparts) s) /\
  rows_spec (map fst tparts) a b (ds_output (diff_loop contextLines (map fst tparts) s)).
Proof.
  induction tparts as [|[part ts] tparts IH]; intros s a b Hf Hi Ho Hn.
  - split; [apply grows_refl|]. split; [by destruct Hi as (_ & _ & ?)|]. intros [|? ?] ? ? ? ? H; discriminate.
  - apply Forall_cons_1 in Hf as [[Hv Hx] Hf']. cbn [map fst diff_loop]. cbv zeta.
    unfold old_lines, new_lines in Ho, Hn. cbn [map] in Ho, Hn.
    change (mjoin (?x :: ?y)) with (x ++ mjoin y) in Ho, Hn. fold (old_lines tparts) in Ho. fold (new_lines tparts) in Hn.
    set (ka := if part_added part then 0%nat else length ts). set (kb := if part_removed part then 0%nat else length ts).
    assert (exists s', (if is_change part then set_last_change true (show_change (part_added part) (part_lines (part_value part)) (note_change s))
              else set_last_change false (show_unchanged contextLines
                     match map fst tparts with next :: _ => is_change next | [] => false end (part_lines (part_value part)) s)) = s' /\
            part_lines (part_value part) = map chomp ts /\ diff_inv s' (a + ka) (b + kb) /\ grows s s' /\
            (is_change part = true -> forall i line, part_lines (part_value part) !! i = Some line -> change_row part a b i line ∈ ds_output s'))
      as (s' & Hs' & Hp & Hi' & Hg & Hrow).
    { eexists. split; [reflexivity|]. destruct (is_change part) eqn:Hc.
      - destruct (changed_part_ok part ts (old_lines tparts, new_lines tparts) s a b Hv Hc Hx Hi) as (H1 & H2 & H3 & H4); done.
      - apply orb_false_iff in Hc as [Ha Hr]. unfold ka, kb. rewrite Ha in *. rewrite Hr in *.
        destruct (tokens_drop oldContent a ts (old_lines tparts)) as [Ht Hat]; [done|].
        assert (part_lines (part_value part) = map chomp ts) as Hp by (by rewrite Hv, part_lines_tokens).
        rewrite Hp. destruct (show_unchanged_ok contextLines
          match map fst tparts with next :: _ => is_change next | [] => false end (map chomp ts) s a b Hi Hat) as [H1 H2].
        rewrite length_map in H1. done. }
    rewrite Hs'. destruct (IH s' (a + ka)%nat (b + kb)%nat Hf' Hi') as [Hg2 [Hok Hall]].
    { rewrite <- drop_drop, <- Ho. unfold ka. destruct (part_added part); [done|]. by rewrite drop_app_length. }
    { rewrite <- drop_drop, <- Hn. unfold kb. destruct (part_removed part); [done|]. by rewrite drop_app_length. }
    split; [by eapply grows_trans|]. split; [done|]. intros before part' after i line Hparts Hc Hl.
    destruct before as [|p before]; simpl in Hparts; injection Hparts as <- Hparts.
    + unfold count_old, count_new. simpl. rewrite !Nat.add_0_r. destruct Hg2 as [rows ->]. apply elem_of_app. left. by apply Hrow.
    + specialize (Hall before part' after i line Hparts Hc Hl).
      replace (a + count_old (part :: before))%nat with (a + ka + count_old before)%nat;
        [replace (b + count_new (part :: before))%nat with (b + kb + count_new before)%nat; [done|]|].
      * unfold count_new, kb. simpl. rewrite Hp, length_map. lia.
      * unfold count_old, ka. simpl. rewrite Hp, length_map. lia.
Qed.
End Rows.

(** every row of the displayed diff carries the number and the text of a
    line of the old file (removed and context rows) or of the new file (added
    rows), and every line of a changed part has its row. *)
Theorem diff_rows diffLines oldContent newContent contextLines :
  diff_of (diffLines oldContent newContent) oldContent newContent ->
  exists rows width,
    (generateDiffString diffLines oldContent newContent contextLines).1 = join_lines (map (render_row width) rows) /\
    rows_spec oldContent newContent (diffLines oldContent newContent) 0 0 rows.
Proof.
  intros (tparts & Hparts & Hf & Ho & Hn). unfold generateDiffString. cbn [fst]. eexists _, _. split; [reflexivity|].
  rewrite <- Hparts. apply diff_loop_ok; [done| |done|done]. split; [done|]. split; [done|constructor].
Qed.

(** Witness of [edit_keeps_format]: a file with a byte order mark and CRLF. *)
Lemma edit_keeps_format_witness :
  edit_content id (js "f") [demo_edit] ([0xfeff] ++ restoreLineEndings demo_content LE_crlf) =
    (let* applied := applyEditsToNormalizedContent id demo_content [demo_edit] (js "f") in
     Ok ([0xfeff] ++ restoreLineEndings (aer_newContent applied) LE_crlf, applied)) /\
  edit_content id (js "f") [demo_edit] ([0xfeff] ++ restoreLineEndings demo_content LE_crlf) =
    Ok ([0xfeff] ++ js "one" ++ [carriage_return; newline] ++ js "2" ++ [carriage_return; newline],
        {| aer_baseContent := demo_content; aer_newContent := js "one" ++ [newline] ++ js "2" ++ [newline] |}).
Proof.
  split; [|vm_compute; reflexivity]. apply (edit_keeps_format id (js "f") [demo_edit] [0xfeff] demo_content LE_crlf).
  - repeat constructor; discriminate.
  - intros _. apply (bool_decide_unpack (newline ∈ demo_content)). vm_compute. exact I.
  - left. reflexivity.
Defined.

Definition demo_parts (_ _ : jstring) : list DiffPart :=
  [{| part_value := js "one" ++ [newline]; part_added := false; part_removed := false |};
   {| part_value := js "two" ++ [newline]; part_added := false; part_removed := true |};
   {| part_value := js "2" ++ [newline]; part_added := true; part_removed := false |}].

(** Witness of [diff_rows]: the diff of the edit above. *)
Lemma diff_rows_witness :
  let new := js "one" ++ [newline] ++ js "2" ++ [newline] in
  exists rows width,
    (generateDiffString demo_parts demo_content new 4).1 = join_lines (map (render_row width) rows) /\
    rows_spec demo_content new (demo_parts demo_content new) 0 0 rows.
Proof.
  intros new. apply (diff_rows demo_parts demo_content new 4).
  exists (zip (demo_parts demo_content new) [[js "one" ++ [newline]]; [js "two" ++ [newline]]; [js "2" ++ [newline]]]).
  split; [reflexivity|]. split; [|split; reflexivity]. repeat (constructor; [split; reflexivity|]). constructor.
Defined.

Lemma demo_diff :
  (generateDiffString demo_parts demo_content (js "one" ++ [newline] ++ js "2" ++ [newline]) 4) =
    (join_lines [js " 1 one"; js "-2 two"; js "+2 2"], Some 2).
Proof. vm_compute. reflexivity. Qed.
