(* ===== verification/Json.v ===== *)
(** * JSON texts

    [JSON.parse] as the session files use it: a recursive-descent reader of the
    JSON grammar over code units.  [JSON.stringify] is in [Compaction].  The
    conversion between number literals and doubles is a parameter. *)

From stdpp Require Import base list strings pretty.
From Stdlib Require Import ZArith Lia.
From S2P Require Import Prelude SessionTypes Numbers Utf8 Cbor SessionContext Compaction.

Open Scope Z_scope.

(** ** Lexical structure *)

Definition json_space (u : Z) : bool := (u =? 9) || (u =? 10) || (u =? 13) || (u =? 32).

Fixpoint skip_space (s : jstring) : jstring :=
  match s with
  | u :: s' => if json_space u then skip_space s' else s
  | [] => []
  end.

(** The characters of number literals.  A literal is followed by none of
    them, so that taking all of them finds its end. *)
Definition numeric (u : Z) : bool :=
  ((48 <=? u) && (u <=? 57)) || (u =? 43) || (u =? 45) || (u =? 46) || (u =? 69) || (u =? 101).

Fixpoint take_numeric (s : jstring) : jstring * jstring :=
  match s with
  | u :: s' => if numeric u then let (l, r) := take_numeric s' in (u :: l, r) else ([], s)
  | [] => ([], [])
  end.

Definition hex_value (u : Z) : option Z :=
  if (48 <=? u) && (u <=? 57) then Some (u - 48)
  else if (97 <=? u) && (u <=? 102) then Some (u - 87)
  else if (65 <=? u) && (u <=? 70) then Some (u - 55)
  else None.

Definition hex_unit (a b c d : Z) : option Z :=
  match hex_value a, hex_value b, hex_value c, hex_value d with
  | Some a, Some b, Some c, Some d => Some (a * 4096 + b * 256 + c * 16 + d)
  | _, _, _, _ => None
  end.

(** The character after a backslash, [\u] apart. *)
Definition simple_escape (c : Z) : option Z :=
  if c =? 34 then Some 34 else if c =? 92 then Some 92 else if c =? 47 then Some 47
  else if c =? 98 then Some 8 else if c =? 102 then Some 12 else if c =? 110 then Some 10
  else if c =? 114 then Some 13 else if c =? 116 then Some 9 else None.

Definition cons_unit (u : Z) (r : option (jstring * jstring)) : option (jstring * jstring) :=
  match r with Some (t, rest) => Some (u :: t, rest) | None => None end.

(** The characters of a string up to its closing quote, and what follows. *)
Fixpoint parse_string (s : jstring) : option (jstring * jstring) :=
  match s with
  | [] => None
  | u :: s' =>
      if u =? 34 then Some ([], s')
      else if u =? 92 then
        match s' with
        | c :: s1 =>
            if c =? 117 then
              match s1 with
              | a :: b :: c :: d :: s2 =>
                  match hex_unit a b c d with Some v => cons_unit v (parse_string s2) | None => None end
              | _ => None
              end
            else match simple_escape c with Some v => cons_unit v (parse_string s1) | None => None end
        | [] => None
        end
      else if u <? 32 then None
      else cons_unit u (parse_string s')
  end.

(** A literal name. *)
Fixpoint expect (pattern s : jstring) : option jstring :=
  match pattern, s with
  | [], _ => Some s
  | p :: pattern', u :: s' => if p =? u then expect pattern' s' else None
  | _ :: _, [] => None
  end.

Definition as_value (v : json) (r : option jstring) : option (json * jstring) :=
  match r with Some rest => Some (v, rest) | None => None end.

(** The object of a list of members: a repeated name keeps its first position
    and its last value, and array indices come first. *)
Definition make_object (members : list (jstring * json)) : json := JObject (own_properties (map_of_list members)).

Section Parsing.
Context (parse_number : jstring -> option number).

(** [fuel] bounds the nesting of the calls; twice the length of the text is
    enough. *)
Fixpoint parse_value (fuel : nat) (s : jstring) : option (json * jstring) :=
  match fuel with
  | O => None
  | S fuel =>
      match skip_space s with
      | [] => None
      | u :: r =>
          if u =? 34 then match parse_string r with Some (t, rest) => Some (JString t, rest) | None => None end
          else if u =? 123 then
            match skip_space r with
            | v :: r' =>
                if v =? 125 then Some (JObject [], r')
                else match parse_members fuel r with Some (ms, rest) => Some (make_object ms, rest) | None => None end
            | [] => None
            end
          else if u =? 91 then
            match skip_space r with
            | v :: r' =>
                if v =? 93 then Some (JArray [], r')
                else match parse_elements fuel r with Some (l, rest) => Some (JArray l, rest) | None => None end
            | [] => None
            end
          else if u =? 110 then as_value JNull (expect (js "ull") r)
          else if u =? 116 then as_value (JBool true) (expect (js "rue") r)
          else if u =? 102 then as_value (JBool false) (expect (js "alse") r)
          else
            let (literal, rest) := take_numeric (u :: r) in
            match parse_number literal with Some n => Some (JNumber n, rest) | None => None end
      end
  end
with parse_members (fuel : nat) (s : jstring) : option (list (jstring * json) * jstring) :=
  match fuel with
  | O => None
  | S fuel =>
      match skip_space s with
      | u :: r =>
          if u =? 34 then
            match parse_string r with
            | Some (k, r1) =>
                match skip_space r1 with
                | c :: r2 =>
                    if c =? 58 then
                      match parse_value fuel r2 with
                      | Some (v, r3) =>
                          match skip_space r3 with
                          | d :: r4 =>
                              if d =? 44 then
                                match parse_members fuel r4 with
                                | Some (ms, rest) => Some ((k, v) :: ms, rest)
                                | None => None
                                end
                              else if d =? 125 then Some ([(k, v)], r4) else None
                          | [] => None
                          end
                      | None => None
                      end
                    else None
                | [] => None
                end
            | None => None
            end
          else None
      | [] => None
      end
  end
with parse_elements (fuel : nat) (s : jstring) : option (list json * jstring) :=
  match fuel with
  | O => None
  | S fuel =>
      match parse_value fuel s with
      | Some (v, r) =>
          match skip_space r with
          | d :: r1 =>
              if d =? 44 then
                match parse_elements fuel r1 with Some (l, rest) => Some (v :: l, rest) | None => None end
              else if d =? 93 then Some ([v], r1) else None
          | [] => None
          end
      | None => None
      end
  end.

(** [JSON.parse]; [None] is a [SyntaxError]. *)
Definition json_parse (s : jstring) : option json :=
  match parse_value (2 * length s + 1) s with
  | Some (v, rest) => match skip_space rest with [] => Some v | _ => None end
  | None => None
  end.
End Parsing.
