(* ===== verification/JsonProperties.v ===== *)
(** * Properties of JSON texts

    Texts of values read back, and no proper prefix of an object's text is a
    JSON text. *)

From stdpp Require Import base list strings pretty.
From Stdlib Require Import ZArith Lia.
From S2P Require Import Prelude SessionTypes Numbers Utf8 Cbor SessionContext Compaction CborCodec Json.

Open Scope Z_scope.

(** Splits the first match of a hypothesis, and closes the failing branches. *)
Ltac split_parse H :=
  repeat match type of H with
  | match ?e with _ => _ end = Some _ =>
      let E := fresh "E" in destruct e eqn:E; try discriminate H
  | (let (_, _) := ?e in _) = Some _ =>
      let E := fresh "E" in destruct e eqn:E; try discriminate H
  end.

(** ** Longer texts *)

Lemma skip_space_app s u r x : skip_space s = u :: r -> skip_space (s ++ x) = u :: r ++ x.
Proof.
  induction s as [|v s IH]; simpl; [done|]. destruct (json_space v); [done|]. by intros [= -> ->].
Qed.

Lemma parse_string_ind (P : jstring -> Prop) :
  (forall s, (forall s', (length s' < length s)%nat -> P s') -> P s) -> forall s, P s.
Proof. intros H s. induction (well_founded_ltof _ (@length Z) s) as [s _ IH]. by apply H. Qed.

Lemma cons_unit_Some u o t r : cons_unit u o = Some (t, r) -> exists t', o = Some (t', r) /\ t = u :: t'.
Proof. destruct o as [[t' r']|]; simpl; [|done]. intros [= <- <-]. eauto. Qed.

Lemma parse_string_app s : forall t r x, parse_string s = Some (t, r) -> parse_string (s ++ x) = Some (t, r ++ x).
Proof.
  induction s as [s IH] using parse_string_ind. intros t r x H. destruct s as [|u s]; [done|]. simpl in *.
  destruct (u =? 34); [by injection H as <- <-|]. destruct (u =? 92).
  - destruct s as [|c s]; [done|]. simpl in *. destruct (c =? 117).
    + destruct s as [|a [|b [|c' [|d s]]]]; try done. simpl in *. destruct (hex_unit a b c' d); [|done].
      apply cons_unit_Some in H as (t' & H & ->). by rewrite (IH s ltac:(lia) _ _ x H).
    + destruct (simple_escape c); [|done]. apply cons_unit_Some in H as (t' & H & ->).
      by rewrite (IH s ltac:(lia) _ _ x H).
  - destruct (u <? 32); [done|]. apply cons_unit_Some in H as (t' & H & ->). by rewrite (IH s ltac:(lia) _ _ x H).
Qed.

Lemma expect_app p : forall s r x, expect p s = Some r -> expect p (s ++ x) = Some (r ++ x).
Proof.
  induction p as [|a p IH]; intros s r x; simpl; [by intros [= ->]|]. destruct s as [|u s]; [done|]. simpl.
  destruct (a =? u); [apply IH|done].
Qed.

Lemma take_numeric_app s : forall l r x, take_numeric s = (l, r) -> r <> [] -> take_numeric (s ++ x) = (l, r ++ x).
Proof.
  induction s as [|u s IH]; intros l r x; simpl; [by intros [= <- <-]|]. destruct (numeric u).
  - destruct (take_numeric s) as [l' r'] eqn:E. intros [= <- <-] Hr. by rewrite (IH _ _ x eq_refl Hr).
  - by intros [= <- <-].
Qed.

(** ** What is left over *)

Lemma skip_space_length s : (length (skip_space s) <= length s)%nat.
Proof. induction s as [|u s IH]; simpl; [lia|]. destruct (json_space u); simpl; lia. Qed.

Lemma parse_string_rest s : forall t r, parse_string s = Some (t, r) -> (length r < length s)%nat.
Proof.
  induction s as [s IH] using parse_string_ind. intros t r H. destruct s as [|u s]; [done|]. simpl in *.
  destruct (u =? 34); [injection H as <- <-; lia|]. destruct (u =? 92).
  - destruct s as [|c s]; [done|]. simpl in *. destruct (c =? 117).
    + destruct s as [|a [|b [|c' [|d s]]]]; try done. simpl in *. destruct (hex_unit a b c' d); [|done].
      apply cons_unit_Some in H as (t' & H & ->). pose proof (IH s ltac:(lia) _ _ H). lia.
    + destruct (simple_escape c); [|done]. apply cons_unit_Some in H as (t' & H & ->).
      pose proof (IH s ltac:(lia) _ _ H). lia.
  - destruct (u <? 32); [done|]. apply cons_unit_Some in H as (t' & H & ->). pose proof (IH s ltac:(lia) _ _ H). lia.
Qed.

Lemma expect_rest p : forall s r, expect p s = Some r -> (length r <= length s)%nat.
Proof.
  induction p as [|a p IH]; intros s r; simpl; [intros [= ->]; lia|]. destruct s as [|u s]; [done|]. simpl.
  destruct (a =? u); [|done]. intros H. apply IH in H. lia.
Qed.

Lemma take_numeric_rest s l r : take_numeric s = (l, r) -> s = l ++ r.
Proof.
  revert l r. induction s as [|u s IH]; intros l r; simpl; [by intros [= <- <-]|]. destruct (numeric u).
  - destruct (take_numeric s) as [l' r']. intros [= <- <-]. simpl. by rewrite (IH _ _ eq_refl).
  - by intros [= <- <-].
Qed.

Section Longer.
Context (parse_number : jstring -> option number).

Definition is_number (v : json) : bool := match v with JNumber _ => true | _ => false end.

(** Number literals are not empty. *)
Context (parse_number_nil : parse_number [] = None).

Lemma parse_rest fuel :
  (forall s v r, parse_value parse_number fuel s = Some (v, r) -> (length r < length s)%nat) /\
  (forall s ms r, parse_members parse_number fuel s = Some (ms, r) -> (length r < length s)%nat) /\
  (forall s l r, parse_elements parse_number fuel s = Some (l, r) -> (length r < length s)%nat).
Proof.
  induction fuel as [|fuel (IHv & IHm & IHe)]; [done|]. split; [|split].
  - intros s v r H. cbn [parse_value] in *. pose proof (skip_space_length s) as Hs.
    destruct (skip_space s) as [|u s1] eqn:Es; [done|]. simpl in Hs. pose proof (skip_space_length s1) as Hs1.
    destruct (u =? 34); [split_parse H; injection H as <- <-; apply parse_string_rest in E; lia|].
    destruct (u =? 123); [|destruct (u =? 91)].
    1,2: destruct (skip_space s1) as [|w s2] eqn:E1; [done|]; simpl in Hs1;
      match type of H with (if ?b then _ else _) = _ => destruct b end; [injection H as <- <-; lia|];
      split_parse H; injection H as <- <-; first [apply IHm in E|apply IHe in E]; lia.
    unfold as_value in *.
    destruct (u =? 110); [split_parse H; injection H as <- <-; apply expect_rest in E; lia|].
    destruct (u =? 116); [split_parse H; injection H as <- <-; apply expect_rest in E; lia|].
    destruct (u =? 102); [split_parse H; injection H as <- <-; apply expect_rest in E; lia|].
    destruct (take_numeric (u :: s1)) as [lit rest] eqn:E. destruct (parse_number lit) as [n|] eqn:En; [|done].
    injection H as <- <-. apply take_numeric_rest in E. apply (f_equal length) in E. rewrite length_app in E. simpl in E.
    destruct lit; [congruence|]. simpl in E. lia.
  - intros s ms r H. cbn [parse_members] in *. pose proof (skip_space_length s) as Hs.
    destruct (skip_space s) as [|u s1] eqn:Es; [done|]. simpl in Hs. destruct (u =? 34); [|done].
    destruct (parse_string s1) as [[k r1]|] eqn:E1; [|done]. apply parse_string_rest in E1. pose proof (skip_space_length r1) as Hr1.
    destruct (skip_space r1) as [|c r2] eqn:E2; [done|]. simpl in Hr1. destruct (c =? 58); [|done].
    destruct (parse_value _ fuel r2) as [[v r3]|] eqn:E3; [|done]. apply IHv in E3. pose proof (skip_space_length r3) as Hr3.
    destruct (skip_space r3) as [|d r4] eqn:E4; [done|]. simpl in Hr3. destruct (d =? 44).
    + destruct (parse_members _ fuel r4) as [[ms' r5]|] eqn:E5; [|done]. injection H as <- <-. apply IHm in E5. lia.
    + destruct (d =? 125); [injection H as <- <-; lia|done].
  - intros s l r H. cbn [parse_elements] in *. destruct (parse_value _ fuel s) as [[v r3]|] eqn:E3; [|done]. apply IHv in E3.
    pose proof (skip_space_length r3) as Hr3. destruct (skip_space r3) as [|d r4] eqn:E4; [done|]. simpl in Hr3. destruct (d =? 44).
    + destruct (parse_elements _ fuel r4) as [[ms' r5]|] eqn:E5; [|done]. injection H as <- <-. apply IHe in E5. lia.
    + destruct (d =? 93); [injection H as <- <-; lia|done].
Qed.

(** The result does not depend on the fuel once there is enough of it. *)
Lemma parse_fuel fuel : forall fuel',
  (forall s, (2 * length s + 1 <= fuel)%nat -> (2 * length s + 1 <= fuel')%nat ->
     parse_value parse_number fuel s = parse_value parse_number fuel' s) /\
  (forall s, (2 * length s + 1 <= fuel)%nat -> (2 * length s + 1 <= fuel')%nat ->
     parse_members parse_number fuel s = parse_members parse_number fuel' s) /\
  (forall s, (2 * length s + 2 <= fuel)%nat -> (2 * length s + 2 <= fuel')%nat ->
     parse_elements parse_number fuel s = parse_elements parse_number fuel' s).
Proof.
  induction fuel as [|fuel IH]; intros [|fuel']; try (split; [|split]; intros; lia).
  destruct (IH fuel') as (IHv & IHm & IHe). split; [|split].
  - intros s H1 H2. cbn [parse_value]. pose proof (skip_space_length s) as Hs.
    destruct (skip_space s) as [|u s1]; [done|]. simpl in Hs. destruct (u =? 34); [done|].
    rewrite (IHm s1), (IHe s1) by lia. done.
  - intros s H1 H2. cbn [parse_members]. pose proof (skip_space_length s) as Hs.
    destruct (skip_space s) as [|u s1]; [done|]. simpl in Hs. destruct (u =? 34); [|done].
    destruct (parse_string s1) as [[k r1]|] eqn:E1; [|done]. apply parse_string_rest in E1. pose proof (skip_space_length r1) as Hr1.
    destruct (skip_space r1) as [|c r2]; [done|]. simpl in Hr1. destruct (c =? 58); [|done]. rewrite (IHv r2) by lia.
    destruct (parse_value _ fuel' r2) as [[v r3]|] eqn:E3; [|done]. apply parse_rest in E3. pose proof (skip_space_length r3) as Hr3.
    destruct (skip_space r3) as [|d r4]; [done|]. simpl in Hr3. by rewrite (IHm r4) by lia.
  - intros s H1 H2. cbn [parse_elements]. rewrite (IHv s) by lia.
    destruct (parse_value _ fuel' s) as [[v r3]|] eqn:E3; [|done]. apply parse_rest in E3. pose proof (skip_space_length r3) as Hr3.
    destruct (skip_space r3) as [|d r4]; [done|]. simpl in Hr3. by rewrite (IHe r4) by lia.
Qed.

(** A text that is read up to [r] is read the same way when it is continued,
    unless a number at its end may go on. *)
Lemma parse_app fuel :
  (forall s v r x, parse_value parse_number fuel s = Some (v, r) -> (r <> [] \/ is_number v = false) ->
     parse_value parse_number fuel (s ++ x) = Some (v, r ++ x)) /\
  (forall s ms r x, parse_members parse_number fuel s = Some (ms, r) ->
     parse_members parse_number fuel (s ++ x) = Some (ms, r ++ x)) /\
  (forall s l r x, parse_elements parse_number fuel s = Some (l, r) ->
     parse_elements parse_number fuel (s ++ x) = Some (l, r ++ x)).
Proof.
  induction fuel as [|fuel (IHv & IHm & IHe)]; [done|]. split; [|split].
  - intros s v r x H Hn. cbn [parse_value] in *. destruct (skip_space s) as [|u s1] eqn:Es; [done|].
    rewrite (skip_space_app _ _ _ x Es). destruct (u =? 34).
    { split_parse H. injection H as <- <-. by rewrite (parse_string_app _ _ _ x E). }
    destruct (u =? 123).
    { destruct (skip_space s1) as [|w s2] eqn:E1; [done|]. rewrite (skip_space_app _ _ _ x E1).
      destruct (w =? 125); [by injection H as <- <-|]. split_parse H. injection H as <- <-. by rewrite (IHm _ _ _ x E). }
    destruct (u =? 91).
    { destruct (skip_space s1) as [|w s2] eqn:E1; [done|]. rewrite (skip_space_app _ _ _ x E1).
      destruct (w =? 93); [by injection H as <- <-|]. split_parse H. injection H as <- <-. by rewrite (IHe _ _ _ x E). }
    unfold as_value in *.
    destruct (u =? 110); [split_parse H; injection H as <- <-; by rewrite (expect_app _ _ _ x E)|].
    destruct (u =? 116); [split_parse H; injection H as <- <-; by rewrite (expect_app _ _ _ x E)|].
    destruct (u =? 102); [split_parse H; injection H as <- <-; by rewrite (expect_app _ _ _ x E)|].
    destruct (take_numeric (u :: s1)) as [lit rest] eqn:E. destruct (parse_number lit) as [n|] eqn:En; [|done].
    injection H as <- <-. destruct Hn as [Hn|]; [|done].
    change (u :: s1 ++ x) with ((u :: s1) ++ x). by rewrite (take_numeric_app _ _ _ x E Hn), En.
  - intros s ms r x H. cbn [parse_members] in *. destruct (skip_space s) as [|u s1] eqn:Es; [done|].
    rewrite (skip_space_app _ _ _ x Es). destruct (u =? 34); [|done].
    destruct (parse_string s1) as [[k r1]|] eqn:E1; [|done]. rewrite (parse_string_app _ _ _ x E1).
    destruct (skip_space r1) as [|c r2] eqn:E2; [done|]. rewrite (skip_space_app _ _ _ x E2).
    destruct (c =? 58); [|done]. destruct (parse_value _ fuel r2) as [[v r3]|] eqn:E3; [|done].
    destruct (skip_space r3) as [|d r4] eqn:E4; [done|].
    rewrite (IHv _ _ _ x E3) by (left; by destruct r3). rewrite (skip_space_app _ _ _ x E4).
    destruct (d =? 44).
    + destruct (parse_members _ fuel r4) as [[ms' r5]|] eqn:E5; [|done]. injection H as <- <-. by rewrite (IHm _ _ _ x E5).
    + destruct (d =? 125); [by injection H as <- <-|done].
  - intros s l r x H. cbn [parse_elements] in *.
    destruct (parse_value _ fuel s) as [[v r3]|] eqn:E3; [|done]. destruct (skip_space r3) as [|d r4] eqn:E4; [done|].
    rewrite (IHv _ _ _ x E3) by (left; by destruct r3). rewrite (skip_space_app _ _ _ x E4). destruct (d =? 44).
    + destruct (parse_elements _ fuel r4) as [[ms' r5]|] eqn:E5; [|done]. injection H as <- <-. by rewrite (IHe _ _ _ x E5).
    + destruct (d =? 93); [by injection H as <- <-|done].
Qed.
End Longer.

(** ** Strings *)

Lemma hex_digit_value d : 0 <= d < 16 -> hex_value (hex_digit d) = Some d.
Proof.
  intros H. unfold hex_digit, hex_value. destruct (Z.ltb_spec d 10).
  - destruct (Z.leb_spec 48 (48 + d)), (Z.leb_spec (48 + d) 57); simpl; try lia. f_equal. lia.
  - destruct (Z.leb_spec 48 (87 + d)), (Z.leb_spec (87 + d) 57); simpl; try lia.
    destruct (Z.leb_spec 97 (87 + d)), (Z.leb_spec (87 + d) 102); simpl; try lia. f_equal. lia.
Qed.

Lemma parse_unicode_escape u s : code_unit u -> parse_string (unicode_escape u ++ s) = cons_unit u (parse_string s).
Proof.
  intros [H0 H1]. unfold unicode_escape. simpl.
  assert (0 <= u / 4096 < 16) by (split; [apply Z.div_pos; lia|apply Z.div_lt_upper_bound; lia]).
  unfold hex_unit. rewrite !hex_digit_value by (done || apply Z.mod_pos_bound; lia).
  assert (u / 4096 * 4096 + (u / 256) mod 16 * 256 + (u / 16) mod 16 * 16 + u mod 16 = u) as ->; [|done].
  replace (u / 4096) with (u / 256 / 16) by (by rewrite Z.div_div).
  replace (u / 256) with (u / 16 / 16) by (by rewrite Z.div_div).
  pose proof (Z.div_mod u 16 ltac:(done)). pose proof (Z.div_mod (u / 16) 16 ltac:(done)).
  pose proof (Z.div_mod (u / 16 / 16) 16 ltac:(done)). lia.
Qed.

Lemma parse_escape_unit u s : code_unit u -> parse_string (escape_unit u ++ s) = cons_unit u (parse_string s).
Proof.
  intros Hu. unfold escape_unit.
  repeat match goal with |- context [if ?b then _ else _] => 
    match b with (u =? _) => destruct (Z.eqb_spec u ltac:(match b with (_ =? ?n) => exact n end)) as [->|?]; [done|] end end.
  destruct (Z.ltb_spec u 32); [by apply parse_unicode_escape|]. simpl.
  destruct (Z.eqb_spec u 34); [done|]. destruct (Z.eqb_spec u 92); [done|]. destruct (Z.ltb_spec u 32); [lia|done].
Qed.

(** The text of a string reads back. *)
Lemma parse_escaped s : forall rest, Forall code_unit s -> parse_string (escape_string s ++ 34 :: rest) = Some (s, rest).
Proof.
  induction s as [s IH] using parse_string_ind. intros rest Hs. destruct s as [|u s]; [done|].
  apply Forall_cons in Hs as [Hu Hs]. cbn [escape_string].
  destruct ((0xD800 <=? u) && (u <=? 0xDBFF)) eqn:Hh.
  - assert (forall t, parse_string (u :: t) = cons_unit u (parse_string t)) as Hplain.
    { intros t. apply andb_true_iff in Hh as [H1%Z.leb_le H2%Z.leb_le]. simpl.
      destruct (Z.eqb_spec u 34); [lia|]. destruct (Z.eqb_spec u 92); [lia|]. destruct (Z.ltb_spec u 32); [lia|done]. }
    destruct s as [|v s].
    { rewrite parse_unicode_escape by done. done. }
    destruct ((0xDC00 <=? v) && (v <=? 0xDFFF)) eqn:Hl.
    + apply Forall_cons in Hs as [Hv Hs]. simpl app. rewrite Hplain.
      assert (forall t, parse_string (v :: t) = cons_unit v (parse_string t)) as ->.
      { intros t. apply andb_true_iff in Hl as [H1%Z.leb_le H2%Z.leb_le]. simpl.
        destruct (Z.eqb_spec v 34); [lia|]. destruct (Z.eqb_spec v 92); [lia|]. destruct (Z.ltb_spec v 32); [lia|done]. }
      by rewrite (IH s ltac:(simpl; lia)).
    + rewrite <- app_assoc, parse_unicode_escape by done. by rewrite (IH (v :: s) ltac:(simpl; lia)).
  - destruct ((0xDC00 <=? u) && (u <=? 0xDFFF)); rewrite <- app_assoc.
    + rewrite parse_unicode_escape by done. by rewrite (IH s ltac:(simpl; lia)).
    + rewrite parse_escape_unit by done. by rewrite (IH s ltac:(simpl; lia)).
Qed.

(** ** Values *)

Section Roundtrip.
Context (number_to_string : number -> jstring) (parse_number : jstring -> option number).

(** A number whose text reads back. *)
Definition number_ok (n : number) : Prop :=
  is_finite n = true /\ number_to_string n <> [] /\ Forall (fun u => numeric u = true) (number_to_string n) /\
  parse_number (number_to_string n) = Some n.

(** The values a program can hold as JSON: strings of code units, numbers that
    read back, objects with distinct names in the order of [Object.keys]. *)
Inductive json_ok : json -> Prop :=
| jok_null : json_ok JNull
| jok_bool b : json_ok (JBool b)
| jok_number n : number_ok n -> json_ok (JNumber n)
| jok_string s : Forall code_unit s -> json_ok (JString s)
| jok_array l : (forall i x, l !! i = Some x -> json_ok x) -> json_ok (JArray l)
| jok_object l :
    (forall i k x, l !! i = Some (k, x) -> Forall code_unit k) -> (forall i k x, l !! i = Some (k, x) -> json_ok x) -> NoDup l.*1 -> own_properties l = l ->
    json_ok (JObject l).

Abbreviation stringify := (json_stringify number_to_string).
Abbreviation value := (parse_value parse_number).

(** What may follow a number. *)
Definition delimited (rest : jstring) : Prop := match rest with [] => True | u :: _ => numeric u = false end.

Lemma take_numeric_all l rest : Forall (fun u => numeric u = true) l -> delimited rest -> take_numeric (l ++ rest) = (l, rest).
Proof.
  induction 1 as [|u l Hu _ IH]; intros Hd; simpl.
  - destruct rest as [|u rest]; [done|]. simpl. by rewrite Hd.
  - by rewrite Hu, (IH Hd).
Qed.

Lemma numeric_first u : numeric u = true ->
  json_space u = false /\ u <> 93 /\ u <> 34 /\ u <> 123 /\ u <> 91 /\ u <> 110 /\ u <> 116 /\ u <> 102.
Proof.
  unfold numeric, json_space. rewrite !orb_true_iff, andb_true_iff, !Z.leb_le, !Z.eqb_eq. intros H.
  split; [|lia]. repeat (apply orb_false_iff; split); apply Z.eqb_neq; lia.
Qed.

Lemma stringify_head v : json_ok v ->
  exists u t, stringify v = u :: t /\ json_space u = false /\ u <> 93.
Proof.
  destruct 1 as [|b|n (Hf & Hne & Hall & _)|s Hs|l Hl|l Hk Hl Hnd Hown]; simpl; try (by eexists _, _).
  - destruct b; by eexists _, _.
  - rewrite Hf. destruct (number_to_string n) as [|u t]; [done|]. apply Forall_cons in Hall as [Hu _].
    apply numeric_first in Hu as (H1 & H2 & _). by exists u, t.
Qed.

Lemma skip_space_head u t rest : json_space u = false -> skip_space ((u :: t) ++ rest) = u :: t ++ rest.
Proof. intros H. simpl. by rewrite H. Qed.

(** The condition on the fuel of a list of members or elements. *)
Definition reads_back (v : json) : Prop := forall fuel rest,
  (2 * length (stringify v) <= fuel)%nat -> delimited rest -> value fuel (stringify v ++ rest) = Some (v, rest).

Lemma join_cons (sep a : jstring) l : l <> [] -> join sep (a :: l) = a ++ sep ++ join sep l.
Proof. by destruct l. Qed.

Definition member_text (p : jstring * json) : jstring := quote_string p.1 ++ js ":" ++ stringify p.2.

Lemma json_elements_read l : l <> [] -> (forall i x, l !! i = Some x -> json_ok x /\ reads_back x) -> forall fuel rest,
  (2 * length (join (js ",") (map stringify l)) + 2 <= fuel)%nat ->
  parse_elements parse_number fuel (join (js ",") (map stringify l) ++ js "]" ++ rest) = Some (l, rest).
Proof.
  intros Hne Hl. induction l as [|v l IH]; [done|]. intros fuel rest Hf. destruct fuel as [|fuel]; [lia|].
  destruct (Hl 0%nat v eq_refl) as [Hv Hr]. cbn [parse_elements]. destruct l as [|w l].
  - cbn [map join] in *. rewrite (Hr fuel (js "]" ++ rest)) by (done || lia). done.
  - change (map stringify (v :: w :: l)) with (stringify v :: map stringify (w :: l)) in *.
    rewrite join_cons in * by done. rewrite !length_app in Hf. change (length (js ",")) with 1%nat in Hf. rewrite <- !app_assoc.
    rewrite (Hr fuel) by (done || lia).
    change (skip_space (js "," ++ ?x)) with (44 :: x). cbv iota. simpl Z.eqb. cbv iota.
    rewrite IH; [done|done|intros i x; apply (Hl (S i))|lia].
Qed.

Lemma members_read l : l <> [] ->
  (forall i k x, l !! i = Some (k, x) -> Forall code_unit k /\ json_ok x /\ reads_back x) -> forall fuel rest,
  (2 * length (join (js ",") (map member_text l)) + 2 <= fuel)%nat ->
  parse_members parse_number fuel (join (js ",") (map member_text l) ++ js "}" ++ rest) =
    Some (l, rest).
Proof.
  intros Hne Hl. induction l as [|[k v] l IH]; [done|]. intros fuel rest Hf. destruct fuel as [|fuel]; [lia|].
  destruct (Hl 0%nat k v eq_refl) as (Hk & Hv & Hr). cbn [parse_members].
  assert (forall x, parse_string (escape_string k ++ [34] ++ x) = Some (k, x)) as Hkey by (intros x; by apply parse_escaped).
  destruct l as [|w l].
  - cbn [map join] in *. unfold member_text, quote_string in *. cbn [fst snd] in *. rewrite !length_app in Hf. cbn [length] in Hf. rewrite <- !app_assoc.
    change ([34] ++ ?x) with (34 :: x) at 1. cbn [skip_space json_space Z.eqb Pos.eqb orb]. rewrite Hkey.
    change (skip_space (js ":" ++ ?x)) with (58 :: x). cbv iota. simpl Z.eqb. cbv iota.
    rewrite (Hr fuel (js "}" ++ rest)) by (done || lia). done.
  - change (map member_text ((k, v) :: w :: l)) with (member_text (k, v) :: map member_text (w :: l)) in *.
    rewrite join_cons in * by done. unfold member_text at 1 in Hf. unfold member_text at 1. cbn [fst snd] in *.
    unfold quote_string at 1 in Hf. unfold quote_string at 1. rewrite !length_app in Hf. rewrite <- !app_assoc.
    change ([34] ++ ?x) with (34 :: x) at 1. cbn [skip_space json_space Z.eqb Pos.eqb orb]. rewrite Hkey.
    change (skip_space (js ":" ++ ?x)) with (58 :: x). cbv iota. simpl Z.eqb. cbv iota.
    change (length (js ",")) with 1%nat in Hf. change (length (js ":")) with 1%nat in Hf. cbn [length] in Hf.
    rewrite (Hr fuel) by (done || lia). change (skip_space (js "," ++ ?x)) with (44 :: x). cbv iota. simpl Z.eqb. cbv iota.
    rewrite IH; [done|done|intros i k' x; apply (Hl (S i))|lia].
Qed.

Lemma literal_reads fuel u t v rest : json_space u = false -> u <> 34 -> u <> 123 -> u <> 91 ->
  (0 < fuel)%nat ->
  (forall x, (if u =? 110 then as_value JNull (expect (js "ull") x)
              else if u =? 116 then as_value (JBool true) (expect (js "rue") x)
              else if u =? 102 then as_value (JBool false) (expect (js "alse") x) else None) = as_value v (expect t x)) ->
  (u = 110 \/ u = 116 \/ u = 102) ->
  value fuel ((u :: t) ++ rest) = Some (v, rest).
Proof.
  intros Hs H1 H2 H3 Hf Hlit Hu. destruct fuel as [|fuel]; [lia|]. cbn [parse_value]. rewrite skip_space_head by done.
  destruct (Z.eqb_spec u 34); [done|]. destruct (Z.eqb_spec u 123); [done|]. destruct (Z.eqb_spec u 91); [done|].
  specialize (Hlit (t ++ rest)).
  assert (expect t (t ++ rest) = Some rest) as Ht by (clear; induction t as [|a t IH]; simpl; [done|]; by rewrite Z.eqb_refl).
  rewrite Ht in Hlit. destruct Hu as [->|[->| ->]]; exact Hlit.
Qed.

(** Every value reads back from its text. *)
Lemma value_reads v : json_ok v -> reads_back v.
Proof.
  induction v as [|b|n|s|l IH|l IH] using json_rect_nested; intros Hok fuel rest Hf Hd.
  - apply (literal_reads fuel 110); try done; [simpl in Hf; lia|by left].
  - destruct b; [apply (literal_reads fuel 116)|apply (literal_reads fuel 102)]; try done; [simpl in Hf; lia|by right; left|simpl in Hf; lia|by right; right].
  - inversion Hok as [| |? (Hfin & Hne & Hall & Hp)| | |]; subst. simpl in *. rewrite Hfin in *.
    destruct (number_to_string n) as [|u t] eqn:En; [done|]. destruct fuel as [|fuel]; [simpl in Hf; lia|]. cbn [parse_value].
    pose proof Hall as Hu. apply Forall_cons in Hu as [Hu _]. apply numeric_first in Hu as (H1 & H2 & H3 & H4 & H5 & H6 & H7 & H8).
    rewrite skip_space_head by done.
    destruct (Z.eqb_spec u 34); [done|]. destruct (Z.eqb_spec u 123); [done|]. destruct (Z.eqb_spec u 91); [done|].
    destruct (Z.eqb_spec u 110); [done|]. destruct (Z.eqb_spec u 116); [done|]. destruct (Z.eqb_spec u 102); [done|].
    change (u :: t ++ rest) with ((u :: t) ++ rest). rewrite (take_numeric_all _ _ Hall Hd). by rewrite Hp.
  - inversion Hok as [| | |? Hs| |]; subst. destruct fuel as [|fuel]; [simpl in Hf; lia|].
    cbn [parse_value json_stringify]. unfold quote_string. rewrite <- !app_assoc.
    change (skip_space ([34] ++ ?x)) with (34 :: x). cbv iota. simpl Z.eqb. cbv iota.
    change ([34] ++ rest) with (34 :: rest). by rewrite (parse_escaped s rest Hs).
  - inversion Hok as [| | | |? Hl|]; subst. cbn [json_stringify] in Hf. rewrite !length_app in Hf. change (length (js "[")) with 1%nat in Hf. change (length (js "]")) with 1%nat in Hf.
    destruct fuel as [|fuel]; [lia|]. cbn [parse_value]. cbn [json_stringify]. rewrite <- !app_assoc.
    change (skip_space (js "[" ++ ?x)) with (91 :: x). cbv iota. simpl Z.eqb. cbv iota.
    destruct l as [|v l]; [done|].
    assert (exists u t, join (js ",") (map stringify (v :: l)) = u :: t /\ json_space u = false /\ u <> 93) as (u & t & Ht & Hu & Hne).
    { destruct (stringify_head v (Hl 0%nat v eq_refl)) as (u & t & Ht & Hu & Hne). cbn [map join].
      destruct l as [|w l]; cbn [map join]; rewrite Ht; by eexists _, _. }
    rewrite Ht at 1. rewrite skip_space_head by done. destruct (Z.eqb_spec u 93); [done|].
    rewrite json_elements_read; [done|done|intros i x Hx; split; [by eapply Hl|by eapply IH, Hl]|lia].
  - inversion Hok as [| | | | |? Hk Hl Hnd Hown]; subst. cbn [json_stringify] in Hf. rewrite !length_app in Hf. change (length (js "{")) with 1%nat in Hf. change (length (js "}")) with 1%nat in Hf.
    change (map (fun p => quote_string p.1 ++ js ":" ++ stringify p.2) l) with (map member_text l) in Hf.
    destruct fuel as [|fuel]; [lia|]. cbn [parse_value json_stringify].
    change (map (fun p => quote_string p.1 ++ js ":" ++ stringify p.2) l) with (map member_text l) in *. rewrite <- !app_assoc.
    change (skip_space (js "{" ++ ?x)) with (123 :: x). cbv iota. simpl Z.eqb. cbv iota.
    destruct l as [|[k v] l]; [done|].
    assert (exists t, join (js ",") (map member_text ((k, v) :: l)) = 34 :: t) as [t Ht]
      by (destruct l as [|w l]; by eexists).
    rewrite Ht at 1. change (skip_space ((34 :: t) ++ ?x)) with (34 :: t ++ x). cbv iota. simpl Z.eqb. cbv iota.
    rewrite members_read; [|done|intros i k' x Hx; split; [by eapply Hk|split; [by eapply Hl|by eapply IH, Hl]]|lia].
    unfold make_object. by rewrite map_of_list_NoDup, Hown.
Qed.

(** a JSON value reads back from the text [JSON.stringify] gives it. *)
Theorem json_roundtrip v : json_ok v -> json_parse parse_number (stringify v) = Some v.
Proof.
  intros Hv. unfold json_parse. pose proof (value_reads v Hv (2 * length (stringify v) + 1)%nat [] ltac:(lia) I) as H.
  rewrite app_nil_r in H. by rewrite H.
Qed.

(** ** Prefixes *)

Context (parse_number_nil : parse_number [] = None).

Lemma skip_space_suffix s : exists pre, s = pre ++ skip_space s /\ Forall (fun u => json_space u = true) pre.
Proof.
  induction s as [|u s (pre & IH & Hp)]; simpl; [by exists []|]. destruct (json_space u) eqn:Hu; [|by exists []].
  exists (u :: pre). split; [by rewrite IH at 1|by constructor].
Qed.

Lemma parse_string_suffix s : forall t r, parse_string s = Some (t, r) -> exists pre, s = pre ++ r.
Proof.
  induction s as [s IH] using parse_string_ind. intros t r H. destruct s as [|u s]; [done|]. simpl in *.
  destruct (u =? 34); [injection H as <- <-; by exists [u]|]. destruct (u =? 92).
  - destruct s as [|c s]; [done|]. simpl in *. destruct (c =? 117).
    + destruct s as [|a [|b [|c' [|d s]]]]; try done. simpl in *. destruct (hex_unit a b c' d); [|done].
      apply cons_unit_Some in H as (t' & H & ->). destruct (IH s ltac:(lia) _ _ H) as [pre ->]. by exists (u :: c :: a :: b :: c' :: d :: pre).
    + destruct (simple_escape c); [|done]. apply cons_unit_Some in H as (t' & H & ->).
      destruct (IH s ltac:(lia) _ _ H) as [pre ->]. by exists (u :: c :: pre).
  - destruct (u <? 32); [done|]. apply cons_unit_Some in H as (t' & H & ->).
    destruct (IH s ltac:(lia) _ _ H) as [pre ->]. by exists (u :: pre).
Qed.

Definition suffix_of (r s : jstring) : Prop := exists pre, s = pre ++ r.

Lemma suffix_trans r s t : suffix_of r s -> suffix_of s t -> suffix_of r t.
Proof. intros [p ->] [q ->]. exists (q ++ p). by rewrite app_assoc. Qed.

Lemma suffix_tail u r s : skip_space s = u :: r -> suffix_of r s.
Proof. intros H. destruct (skip_space_suffix s) as (pre & -> & _). rewrite H. exists (pre ++ [u]). by rewrite <- app_assoc. Qed.

Lemma expect_suffix p : forall s r, expect p s = Some r -> suffix_of r s.
Proof.
  induction p as [|a p IH]; intros s r; simpl; [intros [= ->]; by exists []|]. destruct s as [|u s]; [done|]. simpl.
  destruct (a =? u); [|done]. intros [pre ->]%IH. by exists (u :: pre).
Qed.

(** What is left is the end of the text, and an object or array was closed
    just before it. *)
Lemma parse_suffix fuel :
  (forall s v r, value fuel s = Some (v, r) -> suffix_of r s) /\
  (forall s ms r, parse_members parse_number fuel s = Some (ms, r) -> suffix_of (125 :: r) s) /\
  (forall s l r, parse_elements parse_number fuel s = Some (l, r) -> suffix_of (93 :: r) s).
Proof.
  assert (forall u r s, suffix_of (u :: r) s -> suffix_of r s) as Htail.
  { intros u r s. apply suffix_trans. by exists [u]. }
  induction fuel as [|fuel (IHv & IHm & IHe)]; [done|]. split; [|split].
  - intros s v r H. cbn [parse_value] in *. destruct (skip_space s) as [|u s1] eqn:Es; [done|].
    pose proof (suffix_tail _ _ _ Es) as Hs. eapply suffix_trans; [|exact Hs].
    destruct (u =? 34); [split_parse H; injection H as <- <-; by eapply parse_string_suffix|].
    destruct (u =? 123); [|destruct (u =? 91)].
    1,2: destruct (skip_space s1) as [|w s2] eqn:E1; [done|];
      match type of H with (if ?b then _ else _) = _ => destruct b end; [injection H as <- <-; by eapply suffix_tail|];
      split_parse H; injection H as <- <-; eapply Htail; first [by eapply IHm|by eapply IHe].
    unfold as_value in *.
    destruct (u =? 110); [split_parse H; injection H as <- <-; by eapply expect_suffix|].
    destruct (u =? 116); [split_parse H; injection H as <- <-; by eapply expect_suffix|].
    destruct (u =? 102); [split_parse H; injection H as <- <-; by eapply expect_suffix|].
    destruct (take_numeric (u :: s1)) as [lit rest] eqn:E. destruct (parse_number lit) as [n|] eqn:En; [|done].
    injection H as <- <-. apply take_numeric_rest in E. destruct lit as [|w lit]; [congruence|]. injection E as -> ->. by exists lit.
  - intros s ms r H. cbn [parse_members] in *. destruct (skip_space s) as [|u s1] eqn:Es; [done|]. destruct (u =? 34); [|done].
    destruct (parse_string s1) as [[k r1]|] eqn:E1; [|done]. destruct (skip_space r1) as [|c r2] eqn:E2; [done|].
    destruct (c =? 58); [|done]. destruct (parse_value _ fuel r2) as [[v r3]|] eqn:E3; [|done].
    destruct (skip_space r3) as [|d r4] eqn:E4; [done|].
    assert (suffix_of r3 s) as Hr3.
    { eapply suffix_trans; [by eapply IHv|]. eapply suffix_trans; [by eapply suffix_tail|].
      eapply suffix_trans; [by eapply parse_string_suffix|by eapply suffix_tail]. }
    destruct (d =? 44).
    + destruct (parse_members _ fuel r4) as [[ms' r5]|] eqn:E5; [|done]. injection H as <- <-.
      eapply suffix_trans; [by eapply IHm|]. eapply suffix_trans; [by eapply suffix_tail|done].
    + destruct (Z.eqb_spec d 125) as [->|]; [|done]. injection H as <- <-. eapply suffix_trans; [|exact Hr3].
      destruct (skip_space_suffix r3) as (pre & -> & _). rewrite E4. by exists pre.
  - intros s l r H. cbn [parse_elements] in *. destruct (parse_value _ fuel s) as [[v r3]|] eqn:E3; [|done].
    pose proof (IHv _ _ _ E3) as Hr3. destruct (skip_space r3) as [|d r4] eqn:E4; [done|]. destruct (d =? 44).
    + destruct (parse_elements _ fuel r4) as [[ms' r5]|] eqn:E5; [|done]. injection H as <- <-.
      eapply suffix_trans; [by eapply IHe|]. eapply suffix_trans; [by eapply suffix_tail|done].
    + destruct (Z.eqb_spec d 93) as [->|]; [|done]. injection H as <- <-. eapply suffix_trans; [|exact Hr3].
      destruct (skip_space_suffix r3) as (pre & -> & _). rewrite E4. by exists pre.
Qed.

(** A text that starts with a brace is an object and ends with one. *)
Lemma object_text s v : json_parse parse_number (123 :: s) = Some v ->
  is_number v = false /\ exists pre spaces, 123 :: s = pre ++ 125 :: spaces /\ Forall (fun u => json_space u = true) spaces.
Proof.
  unfold json_parse. destruct (value _ (123 :: s)) as [[v' r]|] eqn:E; [|done].
  destruct (skip_space r) as [|u t] eqn:Er; [|done]. intros [= <-].
  assert (Forall (fun u => json_space u = true) r) as Hr.
  { destruct (skip_space_suffix r) as (pre & Hpre & Hall). rewrite Er, app_nil_r in Hpre. by subst. }
  rewrite Nat.add_comm in E. cbn [Nat.add parse_value] in E.
  change (skip_space (123 :: s)) with (123 :: s) in E. cbv iota in E. simpl Z.eqb in E. cbv iota in E.
  destruct (skip_space s) as [|w s2] eqn:E1; [done|]. destruct (Z.eqb_spec w 125) as [->|].
  - injection E as <- <-. split; [done|]. destruct (skip_space_suffix s) as (pre & Hpre & _). rewrite E1 in Hpre.
    exists (123 :: pre), s2. by rewrite Hpre.
  - destruct (parse_members _ _ s) as [[ms r']|] eqn:Em; [|done]. injection E as <- <-. split; [done|].
    apply parse_suffix in Em as [pre Hpre]. exists (123 :: pre), r'. by rewrite Hpre.
Qed.

(** No proper prefix of the text of an object is a JSON text, nor is it when
    characters of a cut multi-byte sequence follow it. *)
Lemma object_prefix_invalid l p x : json_ok (JObject l) -> stringify (JObject l) = p ++ x -> x <> [] ->
  json_parse parse_number p = None.
Proof.
  intros Hok Hp Hx. destruct (json_parse parse_number p) as [v|] eqn:E; [|done]. exfalso.
  destruct p as [|u p]; [done|]. assert (u = 123) as -> by (by injection Hp).
  pose proof (object_text p v E) as [Hn _]. unfold json_parse in E.
  destruct (value _ (123 :: p)) as [[v' r]|] eqn:Ev; [|done]. destruct (skip_space r) as [|w t]; [|done]. injection E as ->.
  set (f := (2 * length ((123%Z :: p) ++ x) + 1)%nat).
  rewrite (proj1 (parse_fuel parse_number parse_number_nil _ f) (123 :: p)) in Ev; [|lia|unfold f; rewrite length_app; lia].
  pose proof (proj1 (parse_app parse_number f) _ _ _ x Ev (or_intror Hn)) as Ha.
  pose proof (value_reads _ Hok f [] ltac:(unfold f; rewrite Hp; lia) I) as Hr. rewrite app_nil_r, Hp, Ha in Hr.
  injection Hr as _ Hr. apply app_eq_nil in Hr as [_ ->]. done.
Qed.

Lemma replacement_invalid l p x n : stringify (JObject l) = p ++ x -> p <> [] ->
  json_parse parse_number (p ++ replicate (S n) 0xFFFD) = None.
Proof.
  intros Hp Hne. destruct p as [|u p]; [done|]. assert (u = 123) as -> by (by injection Hp). clear Hp.
  destruct (json_parse parse_number _) as [v|] eqn:E; [|done]. exfalso.
  rewrite replicate_S_end in E. apply object_text in E as (_ & pre & spaces & Heq & Hs).
  change (123 :: p ++ replicate n 0xFFFD ++ [0xFFFD] = pre ++ 125 :: spaces) in Heq. rewrite (app_assoc p) in Heq.
  apply (f_equal last) in Heq. change (123 :: (p ++ replicate n 0xFFFD) ++ [0xFFFD]) with ((123 :: p ++ replicate n 0xFFFD) ++ [0xFFFD]) in Heq.
  rewrite last_snoc in Heq. destruct spaces as [|w spaces _] using rev_ind.
  - by rewrite last_snoc in Heq.
  - change (125 :: spaces ++ [w]) with ((125 :: spaces) ++ [w]) in Heq. rewrite app_assoc, last_snoc in Heq. injection Heq as <-.
    apply Forall_app in Hs as [_ Hs]. inversion_clear Hs as [|? ? Hw _]. discriminate Hw.
Qed.

(** ** One line per value *)

Definition printable (s : jstring) : Prop := Forall (fun u => u <> 10) s.

Lemma hex_digit_printable d : 0 <= d -> hex_digit d <> 10.
Proof. unfold hex_digit. destruct (d <? 10); lia. Qed.

Lemma unicode_escape_printable u : 0 <= u -> printable (unicode_escape u).
Proof.
  intros H. unfold unicode_escape. repeat (constructor; [first [done|apply hex_digit_printable; first [apply Z.mod_pos_bound; lia|apply Z.div_pos; lia]]|]).
  constructor.
Qed.

Lemma escape_unit_printable u : code_unit u -> printable (escape_unit u).
Proof.
  intros [H _]. unfold escape_unit.
  destruct (u =? 8); [by repeat constructor|]. destruct (u =? 9); [by repeat constructor|].
  destruct (Z.eqb_spec u 10); [by repeat constructor|]. destruct (u =? 12); [by repeat constructor|].
  destruct (u =? 13); [by repeat constructor|]. destruct (u =? 34); [by repeat constructor|]. destruct (u =? 92); [by repeat constructor|].
  destruct (u <? 32); [by apply unicode_escape_printable|by repeat constructor].
Qed.

Lemma quote_printable s : Forall code_unit s -> printable (quote_string s).
Proof.
  intros Hs. unfold quote_string. constructor; [done|]. apply Forall_app. split; [|by repeat constructor].
  induction s as [s IH] using parse_string_ind. destruct s as [|u s]; [constructor|]. apply Forall_cons in Hs as [Hu Hs].
  cbn [escape_string]. destruct ((0xD800 <=? u) && (u <=? 0xDBFF)) eqn:Hh.
  - apply andb_true_iff in Hh as [H1%Z.leb_le H2%Z.leb_le]. destruct s as [|v s]; [apply unicode_escape_printable; lia|].
    destruct ((0xDC00 <=? v) && (v <=? 0xDFFF)) eqn:Hl.
    + apply andb_true_iff in Hl as [H3%Z.leb_le H4%Z.leb_le]. apply Forall_cons in Hs as [Hv Hs].
      constructor; [lia|]. constructor; [lia|]. apply IH; [simpl; lia|done].
    + apply Forall_app. split; [apply unicode_escape_printable; lia|]. apply IH; [simpl; lia|done].
  - destruct ((0xDC00 <=? u) && (u <=? 0xDFFF)); (apply Forall_app; split; [|apply IH; [simpl; lia|done]]).
    + destruct Hu. by apply unicode_escape_printable.
    + by apply escape_unit_printable.
Qed.

Lemma join_printable sep l : printable sep -> Forall printable l -> printable (join sep l).
Proof.
  intros Hs. induction 1 as [|x [|y l] Hx Hl IH]; [constructor|done|]. cbn [join] in *. apply Forall_app. split; [done|].
  by apply Forall_app.
Qed.

(** The text of a value is one line. *)
Lemma stringify_printable v : json_ok v -> printable (stringify v).
Proof.
  induction v as [|b|n|s|l IH|l IH] using json_rect_nested; intros Hok; inversion Hok as [|?|? Hn|? Hs|? Hl|? Hk Hl Hnd Hown]; subst; cbn [json_stringify].
  - by repeat constructor.
  - destruct b; by repeat constructor.
  - match goal with H : number_ok n |- _ => destruct H as (-> & _ & Hall & _) end.
    eapply Forall_impl; [exact Hall|]. intros u Hu ->. discriminate Hu.
  - by apply quote_printable.
  - apply Forall_app. split; [by repeat constructor|]. apply Forall_app. split; [|by repeat constructor].
    apply join_printable; [by repeat constructor|]. apply Forall_lookup. intros i x Hx. 
    change (map stringify l) with (stringify <$> l) in Hx. rewrite list_lookup_fmap in Hx. apply fmap_Some in Hx as (y & Hy & ->). by eapply IH, Hl.
  - apply Forall_app. split; [by repeat constructor|]. apply Forall_app. split; [|by repeat constructor].
    apply join_printable; [by repeat constructor|]. apply Forall_lookup. intros i x Hx.
    change (map (fun p => quote_string p.1 ++ js ":" ++ stringify p.2) l) with ((fun p => quote_string p.1 ++ js ":" ++ stringify p.2) <$> l) in Hx.
    rewrite list_lookup_fmap in Hx. apply fmap_Some in Hx as ([k y] & Hy & ->). cbn [fst snd].
    apply Forall_app. split; [by eapply quote_printable, Hk|]. apply Forall_app. split; [by repeat constructor|by eapply IH, Hl].
Qed.
End Roundtrip.
