(* ===== verification/JsonViews.v ===== *)
(** * Values as JSON objects

    Combinators that relate typed data to JSON values: what [JSON.stringify]
    sees of an object with declared fields, and how the fields are read back.
    A [View] is a value as JSON, an [Obj] the named properties of an object. *)

From stdpp Require Import base list strings pretty.
From Stdlib Require Import ZArith Lia.
From S2P Require Import Prelude SessionTypes Numbers Utf8 Cbor SessionContext Compaction CborCodec CborProperties Json JsonProperties.

Open Scope Z_scope.

Abbreviation fields := (list (jstring * json)).

Record View (A : Type) := { v_to : A -> json; v_of : json -> option A; v_ok : A -> Prop }.
Arguments v_to {A}. Arguments v_of {A}. Arguments v_ok {A}.

Record Obj (A : Type) := {
  o_names : list jstring;
  o_write : A -> fields;
  o_read : fields -> option A;
  o_ok : A -> Prop }.
Arguments o_names {A}. Arguments o_write {A}. Arguments o_read {A}. Arguments o_ok {A}.

Create HintDb views.

(** ** Values *)

Section Values.
Context (number_to_string : number -> jstring) (parse_number : jstring -> option number).
Abbreviation json_ok := (json_ok number_to_string parse_number).
Abbreviation number_ok := (number_ok number_to_string parse_number).

(** A view is lawful when its values are JSON that reads back. *)
Definition view_law {A} (v : View A) : Prop := forall a, v_ok v a -> json_ok (v_to v a) /\ v_of v (v_to v a) = Some a.

Definition str : View jstring :=
  {| v_to := JString; v_of j := match j with JString s => Some s | _ => None end; v_ok := Forall code_unit |}.

Definition boolean : View bool :=
  {| v_to := JBool; v_of j := match j with JBool b => Some b | _ => None end; v_ok _ := True |}.

Definition num : View number :=
  {| v_to := JNumber; v_of j := match j with JNumber n => Some n | _ => None end; v_ok := number_ok |}.

Definition int : View Z :=
  {| v_to z := JNumber (number_of_Z z); v_of j := match j with JNumber n => integer_value n | _ => None end;
     v_ok z := safe z = true /\ number_ok (number_of_Z z) |}.

Definition any : View json := {| v_to j := j; v_of := Some; v_ok := json_ok |}.

(** [{ [key: string]: unknown }] *)
Definition record : View fields :=
  {| v_to := JObject; v_of j := match j with JObject l => Some l | _ => None end; v_ok l := json_ok (JObject l) |}.

(** [string | null] *)
Definition nullable_str : View (option jstring) :=
  {| v_to o := match o with Some s => JString s | None => JNull end;
     v_of j := match j with JString s => Some (Some s) | JNull => Some None | _ => None end;
     v_ok o := match o with Some s => Forall code_unit s | None => True end |}.

Definition arr {A} (v : View A) : View (list A) :=
  {| v_to l := JArray (map (v_to v) l); v_of j := match j with JArray l => mapM (v_of v) l | _ => None end;
     v_ok := Forall (v_ok v) |}.

(** A union of string literals. *)
Definition enum {A} `{EqDecision A} (cases : list (jstring * A)) : View A :=
  {| v_to a := JString (default [] (map_get a (map (fun p => (p.2, p.1)) cases)));
     v_of j := match j with JString s => map_get s cases | _ => None end;
     v_ok a := match map_get a (map (fun p => (p.2, p.1)) cases) with
               | Some s => Forall code_unit s /\ map_get s cases = Some a
               | None => False
               end |}.

Lemma str_law : view_law str.
Proof. intros s Hs. by split; [constructor|]. Qed.

Lemma boolean_law : view_law boolean.
Proof. intros b _. by split; [constructor|]. Qed.

Lemma num_law : view_law num.
Proof. intros n Hn. by split; [constructor|]. Qed.

Lemma int_law : view_law int.
Proof. intros z [Hz Hn]. split; [by constructor|]. by apply integer_value_number_of_Z. Qed.

Lemma any_law : view_law any.
Proof. intros j Hj. by split. Qed.

Lemma record_law : view_law record.
Proof. intros l Hl. by split. Qed.

Lemma nullable_str_law : view_law nullable_str.
Proof. intros [s|] Hs; by split; [constructor|]. Qed.

Lemma arr_law {A} (v : View A) : view_law v -> view_law (arr v).
Proof.
  intros Hv l Hl. simpl in *. split.
  - constructor. intros i x Hx. change (map (v_to v) l) with (v_to v <$> l) in Hx. rewrite list_lookup_fmap in Hx.
    apply fmap_Some in Hx as (a & Ha & ->). apply Hv. by eapply Forall_lookup_1.
  - apply mapM_Some. induction Hl as [|a l Ha _ IH]; [constructor|]. constructor; [by apply Hv|done].
Qed.

Lemma enum_law {A} `{EqDecision A} (cases : list (jstring * A)) : view_law (enum cases).
Proof.
  intros a. simpl. destruct (map_get a _) as [s|]; [|done]. intros [H1 H2]. by split; [constructor|].
Qed.

(** ** Objects *)

Definition agree (names : list jstring) (fs gs : fields) : Prop := forall k, k ∈ names -> map_get k fs = map_get k gs.

(** A property name: neither an array index nor ill-formed. *)
Definition name_ok (k : jstring) : Prop := array_index k = None /\ Forall code_unit k.

Record obj_law {A} (o : Obj A) : Prop := {
  law_names : Forall name_ok (o_names o);
  law_keys : forall a, o_ok o a -> NoDup (o_write o a).*1 /\ (forall k, k ∈ (o_write o a).*1 -> k ∈ o_names o);
  law_values : forall a, o_ok o a -> Forall (fun p => json_ok p.2) (o_write o a);
  law_read : forall a fs, o_ok o a -> agree (o_names o) fs (o_write o a) -> o_read o fs = Some a }.

(** A mandatory property. *)
Definition field {A} (k : jstring) (v : View A) : Obj A :=
  {| o_names := [k]; o_write a := [(k, v_to v a)];
     o_read fs := match map_get k fs with Some j => v_of v j | None => None end; o_ok := v_ok v |}.

(** An optional property. *)
Definition opt {A} (k : jstring) (v : View A) : Obj (option A) :=
  {| o_names := [k]; o_write o := match o with Some a => [(k, v_to v a)] | None => [] end;
     o_read fs := match map_get k fs with
                  | Some j => match v_of v j with Some a => Some (Some a) | None => None end
                  | None => Some None
                  end;
     o_ok o := match o with Some a => v_ok v a | None => True end |}.

(** An optional property whose only value is [true]. *)
Definition flag (k : jstring) : Obj bool :=
  {| o_names := [k]; o_write (b : bool) := if b then [(k, JBool true)] else [];
     o_read fs := match map_get k fs with Some (JBool true) => Some true | None => Some false | _ => None end;
     o_ok _ := True |}.

Definition both {A B} (o1 : Obj A) (o2 : Obj B) : Obj (A * B) :=
  {| o_names := o_names o1 ++ o_names o2; o_write p := o_write o1 p.1 ++ o_write o2 p.2;
     o_read fs := match o_read o1 fs, o_read o2 fs with Some a, Some b => Some (a, b) | _, _ => None end;
     o_ok p := o_ok o1 p.1 /\ o_ok o2 p.2 |}.

Definition iso {A B} (f : A -> B) (g : B -> A) (o : Obj A) : Obj B :=
  {| o_names := o_names o; o_write b := o_write o (g b);
     o_read fs := match o_read o fs with Some a => Some (f a) | None => None end; o_ok b := o_ok o (g b) |}.

(** One case of a union. *)
Definition variant {A T} (inj : A -> T) (proj : T -> option A) (o : Obj A) : Obj T :=
  {| o_names := o_names o; o_write t := match proj t with Some a => o_write o a | None => [] end;
     o_read fs := match o_read o fs with Some a => Some (inj a) | None => None end;
     o_ok t := match proj t with Some a => o_ok o a | None => False end |}.

(** A union with a discriminating property. *)
Definition union {T} (key : jstring) (tag_of : T -> jstring) (cases : list (jstring * Obj T)) : Obj T :=
  {| o_names := key :: mjoin (map (fun c => o_names c.2) cases);
     o_write t := (key, JString (tag_of t)) ::
       match map_get (tag_of t) cases with Some o => o_write o t | None => [] end;
     o_read fs := match map_get key fs with
                  | Some (JString tag) => match map_get tag cases with Some o => o_read o fs | None => None end
                  | _ => None
                  end;
     o_ok t := match map_get (tag_of t) cases with Some o => o_ok o t | None => False end |}.

Definition object {A} (o : Obj A) : View A :=
  {| v_to a := JObject (o_write o a); v_of j := match j with JObject fs => o_read o fs | _ => None end; v_ok := o_ok o |}.

Definition disjoint_names (l1 l2 : list jstring) : bool := forallb (fun k => negb (bool_decide (k ∈ l2))) l1.

Lemma field_law {A} k (v : View A) : view_law v -> name_ok k -> obj_law (field k v).
Proof.
  intros Hv Hk. constructor; simpl.
  - by constructor.
  - intros a _. by split; [apply NoDup_singleton|].
  - intros a Ha. constructor; [by apply Hv|constructor].
  - intros a fs Ha Hf. rewrite (Hf k) by (by left). simpl. rewrite decide_True by done. by apply Hv.
Qed.

Lemma opt_law {A} k (v : View A) : view_law v -> name_ok k -> obj_law (opt k v).
Proof.
  intros Hv Hk. constructor; simpl.
  - by constructor.
  - intros [a|] _; simpl; (split; [|intros k' Hk']); [apply NoDup_singleton|done|apply NoDup_nil_2|by apply elem_of_nil in Hk'].
  - intros [a|] Ha; constructor; [by apply Hv|constructor].
  - intros [a|] fs Ha Hf; rewrite (Hf k) by (by left); simpl; [|done]. rewrite decide_True by done.
    by rewrite (proj2 (Hv a Ha)).
Qed.

Lemma flag_law k : name_ok k -> obj_law (flag k).
Proof.
  intros Hk. constructor; simpl.
  - by constructor.
  - intros [|] _; simpl; (split; [|intros k' Hk']); [apply NoDup_singleton|done|apply NoDup_nil_2|by apply elem_of_nil in Hk'].
  - intros [|] _; by repeat constructor.
  - intros [|] fs _ Hf; rewrite (Hf k) by (by left); simpl; [by rewrite decide_True|done].
Qed.

Lemma map_get_app {V} k (l1 l2 : list (jstring * V)) :
  map_get k (l1 ++ l2) = match map_get k l1 with Some v => Some v | None => map_get k l2 end.
Proof. induction l1 as [|[k' v] l1 IH]; simpl; [done|]. by case_decide. Qed.

Lemma map_get_None {V} k (l : list (jstring * V)) : k ∉ l.*1 -> map_get k l = None.
Proof.
  intros H. destruct (map_get k l) eqn:E; [|done]. exfalso. apply H. apply map_has_keys. unfold map_has. by rewrite E.
Qed.

Lemma both_law {A B} (o1 : Obj A) (o2 : Obj B) :
  obj_law o1 -> obj_law o2 -> disjoint_names (o_names o1) (o_names o2) = true -> obj_law (both o1 o2).
Proof.
  intros [N1 K1 V1 R1] [N2 K2 V2 R2] Hd.
  assert (forall k, k ∈ o_names o1 -> k ∉ o_names o2) as Hdis.
  { intros k Hk. unfold disjoint_names in Hd. rewrite forallb_forall in Hd. specialize (Hd k).
    rewrite <- list_elem_of_In in Hd. specialize (Hd Hk). by apply negb_true_iff, bool_decide_eq_false in Hd. }
  constructor; simpl.
  - by apply Forall_app.
  - intros [a b] [Ha Hb]. simpl in *. destruct (K1 a Ha) as [D1 S1], (K2 b Hb) as [D2 S2]. rewrite fmap_app. split.
    + apply NoDup_app. split; [done|]. split; [|done]. intros k H1 H2. by apply (Hdis k); auto.
    + intros k. rewrite !elem_of_app. intros [H|H]; auto.
  - intros [a b] [Ha Hb]. apply Forall_app. auto.
  - intros [a b] fs [Ha Hb] Hf. simpl in *.
    destruct (K1 a Ha) as [_ S1], (K2 b Hb) as [_ S2].
    rewrite (R1 a), (R2 b); [done|done| |done|].
    + intros k Hk. rewrite (Hf k) by (apply elem_of_app; by right). rewrite map_get_app, (map_get_None k (o_write o1 a)); [done|].
      intros H. apply S1 in H. by apply (Hdis k).
    + intros k Hk. rewrite (Hf k) by (apply elem_of_app; by left). rewrite map_get_app.
      destruct (map_get k (o_write o1 a)); [done|]. apply map_get_None. intros H. apply S2 in H. by apply (Hdis k).
Qed.

Lemma iso_law {A B} (f : A -> B) (g : B -> A) (o : Obj A) :
  obj_law o -> (forall b, f (g b) = b) -> obj_law (iso f g o).
Proof.
  intros [N K V R] Hfg. constructor; simpl; [done|by intros b; apply K|by intros b; apply V|].
  intros b fs Hb Hf. rewrite (R (g b) fs Hb Hf). by rewrite Hfg.
Qed.

Lemma variant_law {A T} (inj : A -> T) (proj : T -> option A) (o : Obj A) :
  obj_law o -> (forall t a, proj t = Some a -> inj a = t) -> obj_law (variant inj proj o).
Proof.
  intros [N K V R] Hp. constructor; simpl; [done|..].
  - intros t. destruct (proj t) as [a|]; [apply K|done].
  - intros t. destruct (proj t) as [a|]; [apply V|done].
  - intros t fs. destruct (proj t) as [a|] eqn:E; [|done]. intros Ha Hf. rewrite (R a fs Ha Hf). by rewrite (Hp t a E).
Qed.

Lemma union_law {T} key (tag_of : T -> jstring) (cases : list (jstring * Obj T)) :
  name_ok key -> (forall t, Forall code_unit (tag_of t)) ->
  Forall (fun c => obj_law c.2) cases -> Forall (fun c => key ∉ o_names c.2) cases ->
  obj_law (union key tag_of cases).
Proof.
  intros Hkey Htag Hlaws Hfresh.
  assert (forall tag o, map_get tag cases = Some o -> obj_law o /\ key ∉ o_names o /\
            (forall k, k ∈ o_names o -> k ∈ mjoin (map (fun c => o_names c.2) cases))) as Hcase.
  { intros tag o Ho. apply map_get_In in Ho. rewrite Forall_forall in Hlaws, Hfresh. split; [exact (Hlaws _ Ho)|].
    split; [exact (Hfresh _ Ho)|]. intros k Hk. apply list_elem_of_join. exists (o_names o). split; [done|].
    by apply (list_elem_of_fmap_2 (fun c => o_names c.2) cases (tag, o)). }
  constructor; simpl.
  - constructor; [done|]. apply Forall_forall. intros k Hk. apply list_elem_of_join in Hk as (l & Hk & Hl).
    apply list_elem_of_fmap in Hl as (c & -> & Hc). rewrite Forall_forall in Hlaws.
    pose proof (law_names _ (Hlaws c Hc)) as Hn. rewrite Forall_forall in Hn. auto.
  - intros t. destruct (map_get (tag_of t) cases) as [o|] eqn:E; [|done]. intros Ht.
    destruct (Hcase _ _ E) as (Ho & Hf & Hin). destruct (law_keys _ Ho t Ht) as [Hd Hs]. split.
    + apply NoDup_cons. split; [|done]. intros H. by apply Hf, Hs.
    + intros k [->|H]%elem_of_cons; [by left|]. right. auto.
  - intros t. destruct (map_get (tag_of t) cases) as [o|] eqn:E; [|done]. intros Ht.
    destruct (Hcase _ _ E) as (Ho & _). constructor; [by constructor|by apply law_values].
  - intros t fs. destruct (map_get (tag_of t) cases) as [o|] eqn:E; [|done]. intros Ht Hf.
    destruct (Hcase _ _ E) as (Ho & Hfr & Hin). rewrite (Hf key) by (by left). simpl. rewrite decide_True by done. rewrite E.
    apply (law_read _ Ho); [done|]. intros k Hk. rewrite (Hf k) by (right; auto). simpl.
    rewrite decide_False by congruence. done.
Qed.

Lemma own_properties_names {V} (l : list (jstring * V)) : Forall (fun k => array_index k = None) l.*1 -> own_properties l = l.
Proof.
  intros H. unfold own_properties.
  assert (List.filter (fun p => bool_decide (is_Some (array_index p.1))) l = [] /\
          List.filter (fun p => negb (bool_decide (is_Some (array_index p.1)))) l = l) as [-> ->]; [|done].
  induction l as [|[k v] l IH]; [done|]. apply Forall_cons in H as [Hk H]. destruct (IH H) as [E1 E2]. simpl in Hk |- *.
  rewrite Hk. rewrite bool_decide_eq_false_2 by (by intros [? ?]). simpl. by rewrite E1, E2.
Qed.

Lemma object_law {A} (o : Obj A) : obj_law o -> view_law (object o).
Proof.
  intros [N K V R] a Ha. simpl in *. destruct (K a Ha) as [Hd Hs]. split; [|by apply R]. rewrite Forall_forall in N.
  assert (forall k, k ∈ (o_write o a).*1 -> name_ok k) as Hnames by auto.
  constructor; [| |done|].
  - intros i k x Hx. apply Hnames. apply (list_elem_of_fmap_2 fst _ (k, x)), (list_elem_of_lookup_2 _ i), Hx.
  - intros i k x Hx. specialize (V a Ha). rewrite Forall_forall in V. apply (V (k, x)). by eapply list_elem_of_lookup_2.
  - apply own_properties_names. apply Forall_forall. intros k Hk. by apply Hnames.
Qed.
End Values.

#[export] Hint Resolve str_law boolean_law num_law int_law any_law record_law nullable_str_law arr_law enum_law : views.
#[export] Hint Resolve field_law opt_law flag_law both_law iso_law variant_law object_law : views.
