(* ===== verification/SessionJson.v ===== *)
(** * Session data as JSON

    The properties that messages, entries and lane records have as objects, as
    the interfaces of ai/src/types.ts, harness/messages.ts and session/types.ts
    declare them.  Properties are written in the order of the declarations. *)

From stdpp Require Import base list strings pretty.
From Stdlib Require Import ZArith Lia.
From S2P Require Import Prelude SessionTypes Numbers Utf8 Cbor SessionContext Compaction CborCodec CborProperties Json JsonProperties JsonViews.

Open Scope Z_scope.

Declare Scope view_scope.
Notation "a ** b" := (both a b) (at level 41, right associativity) : view_scope.
Open Scope view_scope.

#[export] Instance Outcome_eq_dec : EqDecision Outcome.
Proof. solve_decision. Defined.
#[export] Instance Replay_eq_dec : EqDecision Replay.
Proof. solve_decision. Defined.

(** ** Checked names *)

Definition name_check (k : jstring) : bool :=
  bool_decide (array_index k = None) && forallb (fun u => (0 <=? u) && (u <=? 0xFFFF)) k.

Lemma units_check k : forallb (fun u => (0 <=? u) && (u <=? 0xFFFF)) k = true -> Forall code_unit k.
Proof.
  rewrite forallb_forall. intros H. apply Forall_forall. intros u Hu. apply list_elem_of_In, H in Hu.
  unfold code_unit. lia.
Qed.

Lemma name_check_ok k : name_check k = true -> name_ok k.
Proof. intros [H1%bool_decide_eq_true H2]%andb_true_iff. by split; [|apply units_check]. Qed.

Lemma fresh_check key (l : list jstring) : bool_decide (key ∈ l) = false -> key ∉ l.
Proof. apply bool_decide_eq_false. Qed.

(** Solves the laws of a view built from combinators. *)
Ltac view_law :=
  repeat first
    [ eassumption
    | match goal with
      | |- name_ok _ => apply name_check_ok; vm_compute; reflexivity
      | |- disjoint_names _ _ = true => vm_compute; reflexivity
      | |- _ ∉ _ => apply fresh_check; vm_compute; reflexivity
      | |- Forall code_unit _ => apply units_check; vm_compute; reflexivity
      | |- Forall _ [] => constructor
      | |- Forall _ (_ :: _) => constructor; cbn [snd]
      | |- obj_law _ _ (field _ _) => apply field_law
      | |- obj_law _ _ (opt _ _) => apply opt_law
      | |- obj_law _ _ (flag _) => apply flag_law
      | |- obj_law _ _ (both _ _) => apply both_law
      | |- obj_law _ _ (iso _ _ _) => apply iso_law
      | |- obj_law _ _ (variant _ _ _) => apply variant_law
      | |- obj_law _ _ (union _ _ _) => apply union_law
      | |- view_law _ _ (arr _) => apply arr_law
      | |- view_law _ _ (object _) => apply object_law
      | |- view_law _ _ _ => solve [auto with views]
      | |- obj_law _ _ _ => solve [auto with views]
      end ].

(** The side conditions of a union: its tags, and the inverse of each case. *)
Ltac union_law :=
  view_law; first
    [ intros t; destruct t; apply units_check; vm_compute; reflexivity
    | intros t a Ha; destruct t; cbn in Ha; simplify_eq; reflexivity ].

Section SessionJson.
Context (number_to_string : number -> jstring) (parse_number : jstring -> option number).
Abbreviation num := (JsonViews.num number_to_string parse_number).
Abbreviation int := (JsonViews.int number_to_string parse_number).
Abbreviation any := (JsonViews.any number_to_string parse_number).
Abbreviation record := (JsonViews.record number_to_string parse_number).
Abbreviation lawful := (obj_law number_to_string parse_number).
Abbreviation lawful_view := (view_law number_to_string parse_number).

(** ** packages/ai/src/types.ts *)

Definition text_obj : Obj TextContent :=
  iso (fun '(t, s) => {| text_text := t; text_textSignature := s |}) (fun x => (text_text x, text_textSignature x))
    (field (js "text") str ** opt (js "textSignature") str).

Definition thinking_obj : Obj ThinkingContent :=
  iso (fun '(t, (s, r)) => {| thinking_thinking := t; thinking_thinkingSignature := s; thinking_redacted := r |})
    (fun x => (thinking_thinking x, (thinking_thinkingSignature x, thinking_redacted x)))
    (field (js "thinking") str ** opt (js "thinkingSignature") str ** opt (js "redacted") boolean).

Definition image_obj : Obj ImageContent :=
  iso (fun '(d, m) => {| image_data := d; image_mimeType := m |}) (fun x => (image_data x, image_mimeType x))
    (field (js "data") str ** field (js "mimeType") str).

Definition toolCall_obj : Obj ToolCall :=
  iso (fun '(i, (n, (a, (t, s)))) =>
         {| toolCall_id := i; toolCall_name := n; toolCall_arguments := a; toolCall_thoughtSignature := t; toolCall_namespace := s |})
    (fun x => (toolCall_id x, (toolCall_name x, (toolCall_arguments x, (toolCall_thoughtSignature x, toolCall_namespace x)))))
    (field (js "id") str ** field (js "name") str ** field (js "arguments") record ** opt (js "thoughtSignature") str **
     opt (js "namespace") str).

Definition cost_obj : Obj Cost :=
  iso (fun '(a, (b, (c, (d, e)))) => {| cost_input := a; cost_output := b; cost_cacheRead := c; cost_cacheWrite := d; cost_total := e |})
    (fun x => (cost_input x, (cost_output x, (cost_cacheRead x, (cost_cacheWrite x, cost_total x)))))
    (field (js "input") num ** field (js "output") num ** field (js "cacheRead") num ** field (js "cacheWrite") num **
     field (js "total") num).

Definition usage_obj : Obj Usage :=
  iso (fun '(a, (b, (c, (d, (e, (f, (g, h))))))) =>
         {| usage_input := a; usage_output := b; usage_cacheRead := c; usage_cacheWrite := d; usage_cacheWrite1h := e;
            usage_reasoning := f; usage_totalTokens := g; usage_cost := h |})
    (fun x => (usage_input x, (usage_output x, (usage_cacheRead x, (usage_cacheWrite x, (usage_cacheWrite1h x,
               (usage_reasoning x, (usage_totalTokens x, usage_cost x))))))))
    (field (js "input") num ** field (js "output") num ** field (js "cacheRead") num ** field (js "cacheWrite") num **
     opt (js "cacheWrite1h") num ** opt (js "reasoning") num ** field (js "totalTokens") num ** field (js "cost") (object cost_obj)).

Definition stopReason_view : View StopReason :=
  enum [(js "pending", SR_pending); (js "stop", SR_stop); (js "length", SR_length); (js "toolUse", SR_toolUse);
        (js "error", SR_error); (js "aborted", SR_aborted); (js "deferred", SR_deferred)].

Definition deferred_obj : Obj DeferredHandle :=
  iso (fun '(a, (b, (c, (d, (e, (f, g)))))) =>
         {| handle_provider := a; handle_modelId := b; handle_api := c; handle_id := d; handle_expiresAt := e;
            handle_pollAfterMs := f; handle_data := g |})
    (fun x => (handle_provider x, (handle_modelId x, (handle_api x, (handle_id x, (handle_expiresAt x,
               (handle_pollAfterMs x, handle_data x)))))))
    (field (js "provider") str ** field (js "modelId") str ** field (js "api") str ** field (js "id") str **
     opt (js "expiresAt") num ** opt (js "pollAfterMs") num ** opt (js "data") any).

Definition userBlock_obj : Obj UserBlock :=
  union (js "type") (fun b => match b with UB_text _ => js "text" | UB_image _ => js "image" end)
    [(js "text", variant UB_text (fun b => match b with UB_text t => Some t | _ => None end) text_obj);
     (js "image", variant UB_image (fun b => match b with UB_image i => Some i | _ => None end) image_obj)].

(** [string | (TextContent | ImageContent)[]] *)
Definition userContent_view : View UserContent :=
  {| v_to c := match c with UC_string s => JString s | UC_blocks l => v_to (arr (object userBlock_obj)) l end;
     v_of j := match j with
               | JString s => Some (UC_string s)
               | _ => match v_of (arr (object userBlock_obj)) j with Some l => Some (UC_blocks l) | None => None end
               end;
     v_ok c := match c with UC_string s => Forall code_unit s | UC_blocks l => v_ok (arr (object userBlock_obj)) l end |}.

Definition assistantBlock_obj : Obj AssistantBlock :=
  union (js "type") (fun b => match b with AB_text _ => js "text" | AB_thinking _ => js "thinking" | AB_toolCall _ => js "toolCall" end)
    [(js "text", variant AB_text (fun b => match b with AB_text t => Some t | _ => None end) text_obj);
     (js "thinking", variant AB_thinking (fun b => match b with AB_thinking t => Some t | _ => None end) thinking_obj);
     (js "toolCall", variant AB_toolCall (fun b => match b with AB_toolCall c => Some c | _ => None end) toolCall_obj)].

Definition assistant_obj : Obj AssistantMessage :=
  iso (fun '(a, (b, (c, (d, (e, (f, (g, (h, (i, (j, (k, (l, (m, n))))))))))))) =>
         {| asst_content := a; asst_api := b; asst_provider := c; asst_model := d; asst_responseModel := e;
            asst_responseId := f; asst_diagnostics := g; asst_usage := h; asst_stopReason := i; asst_deferred := j;
            asst_errorMessage := k; asst_rawStopReason := l; asst_endTurn := m; asst_timestamp := n |})
    (fun x => (asst_content x, (asst_api x, (asst_provider x, (asst_model x, (asst_responseModel x, (asst_responseId x,
               (asst_diagnostics x, (asst_usage x, (asst_stopReason x, (asst_deferred x, (asst_errorMessage x,
               (asst_rawStopReason x, (asst_endTurn x, asst_timestamp x))))))))))))))
    (field (js "content") (arr (object assistantBlock_obj)) ** field (js "api") str ** field (js "provider") str **
     field (js "model") str ** opt (js "responseModel") str ** opt (js "responseId") str ** opt (js "diagnostics") (arr any) **
     field (js "usage") (object usage_obj) ** field (js "stopReason") stopReason_view **
     opt (js "deferred") (object deferred_obj) ** opt (js "errorMessage") str ** opt (js "rawStopReason") str **
     opt (js "endTurn") boolean ** field (js "timestamp") int).

Definition toolResult_obj : Obj ToolResultMessage :=
  iso (fun '(a, (b, (c, (d, (e, (f, (g, h))))))) =>
         {| tres_toolCallId := a; tres_toolName := b; tres_content := c; tres_details := d; tres_usage := e;
            tres_addedToolNames := f; tres_isError := g; tres_timestamp := h |})
    (fun x => (tres_toolCallId x, (tres_toolName x, (tres_content x, (tres_details x, (tres_usage x,
               (tres_addedToolNames x, (tres_isError x, tres_timestamp x))))))))
    (field (js "toolCallId") str ** field (js "toolName") str ** field (js "content") (arr (object userBlock_obj)) **
     opt (js "details") any ** opt (js "usage") (object usage_obj) ** opt (js "addedToolNames") (arr str) **
     field (js "isError") boolean ** field (js "timestamp") int).

(** ** packages/agent/src/harness/messages.ts *)

Definition content_obj : Obj (UserContent * Z) := field (js "content") userContent_view ** field (js "timestamp") int.

Definition bash_obj : Obj BashExecutionMessage :=
  iso (fun '(a, (b, (c, (d, (e, (f, (g, h))))))) =>
         {| bash_command := a; bash_output := b; bash_exitCode := c; bash_cancelled := d; bash_truncated := e;
            bash_fullOutputPath := f; bash_timestamp := g; bash_excludeFromContext := h |})
    (fun x => (bash_command x, (bash_output x, (bash_exitCode x, (bash_cancelled x, (bash_truncated x,
               (bash_fullOutputPath x, (bash_timestamp x, bash_excludeFromContext x))))))))
    (field (js "command") str ** field (js "output") str ** opt (js "exitCode") int ** field (js "cancelled") boolean **
     field (js "truncated") boolean ** opt (js "fullOutputPath") str ** field (js "timestamp") int **
     opt (js "excludeFromContext") boolean).

Definition custom_obj : Obj CustomMessage :=
  iso (fun '(a, (b, (c, (d, e)))) =>
         {| cmsg_customType := a; cmsg_content := b; cmsg_display := c; cmsg_details := d; cmsg_timestamp := e |})
    (fun x => (cmsg_customType x, (cmsg_content x, (cmsg_display x, (cmsg_details x, cmsg_timestamp x)))))
    (field (js "customType") str ** field (js "content") userContent_view ** field (js "display") boolean **
     opt (js "details") any ** field (js "timestamp") int).

Definition branchSummary_obj : Obj BranchSummaryMessage :=
  iso (fun '(a, (b, c)) => {| bsum_summary := a; bsum_fromId := b; bsum_timestamp := c |})
    (fun x => (bsum_summary x, (bsum_fromId x, bsum_timestamp x)))
    (field (js "summary") str ** field (js "fromId") str ** field (js "timestamp") int).

Definition compactionSummary_obj : Obj CompactionSummaryMessage :=
  iso (fun '(a, (b, c)) => {| csum_summary := a; csum_tokensBefore := b; csum_timestamp := c |})
    (fun x => (csum_summary x, (csum_tokensBefore x, csum_timestamp x)))
    (field (js "summary") str ** field (js "tokensBefore") num ** field (js "timestamp") int).

Definition role_name (r : Role) : jstring :=
  match r with
  | R_system => js "system" | R_user => js "user" | R_assistant => js "assistant" | R_toolResult => js "toolResult"
  | R_bashExecution => js "bashExecution" | R_custom => js "custom" | R_branchSummary => js "branchSummary"
  | R_compactionSummary => js "compactionSummary"
  end.

Definition message_obj : Obj AgentMessage :=
  union (js "role") (fun m => role_name (role_of m))
    [(js "system", variant (fun '(c, t) => AM_message (M_system {| sys_content := c; sys_timestamp := t |}))
        (fun m => match m with AM_message (M_system x) => Some (sys_content x, sys_timestamp x) | _ => None end) content_obj);
     (js "user", variant (fun '(c, t) => AM_message (M_user {| user_content := c; user_timestamp := t |}))
        (fun m => match m with AM_message (M_user x) => Some (user_content x, user_timestamp x) | _ => None end) content_obj);
     (js "assistant", variant (fun a => AM_message (M_assistant a))
        (fun m => match m with AM_message (M_assistant a) => Some a | _ => None end) assistant_obj);
     (js "toolResult", variant (fun a => AM_message (M_toolResult a))
        (fun m => match m with AM_message (M_toolResult a) => Some a | _ => None end) toolResult_obj);
     (js "bashExecution", variant AM_bashExecution (fun m => match m with AM_bashExecution x => Some x | _ => None end) bash_obj);
     (js "custom", variant AM_custom (fun m => match m with AM_custom x => Some x | _ => None end) custom_obj);
     (js "branchSummary", variant AM_branchSummary (fun m => match m with AM_branchSummary x => Some x | _ => None end) branchSummary_obj);
     (js "compactionSummary", variant AM_compactionSummary
        (fun m => match m with AM_compactionSummary x => Some x | _ => None end) compactionSummary_obj)].

(** ** packages/agent/src/harness/session/types.ts: entries *)

Definition type_name (t : EntryType) : jstring :=
  match t with
  | T_message => js "message" | T_model_change => js "model_change" | T_thinking_level_change => js "thinking_level_change"
  | T_active_tools_change => js "active_tools_change" | T_compaction => js "compaction"
  | T_branch_summary => js "branch_summary" | T_custom => js "custom"
  end.

Definition payload_obj : Obj EntryPayload :=
  union (js "type") (fun p => type_name (type_of p))
    [(js "message", variant (fun '(m, t) => E_message m t)
        (fun p => match p with E_message m t => Some (m, t) | _ => None end)
        (field (js "message") (object message_obj) ** flag (js "terminate")));
     (js "model_change", variant (fun '(a, b) => E_model_change a b)
        (fun p => match p with E_model_change a b => Some (a, b) | _ => None end)
        (field (js "provider") str ** field (js "modelId") str));
     (js "thinking_level_change", variant E_thinking_level_change
        (fun p => match p with E_thinking_level_change a => Some a | _ => None end) (field (js "thinkingLevel") str));
     (js "active_tools_change", variant E_active_tools_change
        (fun p => match p with E_active_tools_change a => Some a | _ => None end) (field (js "activeToolNames") (arr str)));
     (js "compaction", variant (fun '(a, (b, (c, (d, e)))) => E_compaction a b c d e)
        (fun p => match p with E_compaction a b c d e => Some (a, (b, (c, (d, e)))) | _ => None end)
        (field (js "summary") str ** field (js "retainedTail") (arr (object message_obj)) ** field (js "tokensBefore") num **
         opt (js "details") any ** opt (js "usage") (object usage_obj)));
     (js "branch_summary", variant (fun '(a, (b, (c, d))) => E_branch_summary a b c d)
        (fun p => match p with E_branch_summary a b c d => Some (a, (b, (c, d))) | _ => None end)
        (field (js "fromId") str ** field (js "summary") str ** opt (js "details") any ** opt (js "usage") (object usage_obj)));
     (js "custom", variant (fun '(a, b) => E_custom a b) (fun p => match p with E_custom a b => Some (a, b) | _ => None end)
        (field (js "customType") str ** opt (js "data") any))].

Definition provisioned_obj : Obj ProvisionedEntry :=
  iso (fun '(i, p) => {| pe_id := i; pe_payload := p |}) (fun x => (pe_id x, pe_payload x)) (field (js "id") str ** payload_obj).

Definition entry_obj : Obj Entry :=
  iso (fun '((i, p), (q, (s, t))) => {| entry_id := i; entry_seq := s; entry_parentId := q; entry_timestamp := t; entry_payload := p |})
    (fun x => ((entry_id x, entry_payload x), (entry_parentId x, (entry_seq x, entry_timestamp x))))
    ((field (js "id") str ** payload_obj) ** field (js "parentId") nullable_str ** field (js "seq") int ** field (js "timestamp") int).

(** ** Lane records *)

Definition intent_name (i : Intent) : jstring :=
  match intent_kind i with K_run => js "run" | K_compaction => js "compaction" | K_navigation => js "navigation" end.

Definition intent_obj : Obj Intent :=
  union (js "kind") intent_name
    [(js "run", variant (fun '(a, (b, (c, d))) => I_run a b c d)
        (fun i => match i with I_run a b c d => Some (a, (b, (c, d))) | _ => None end)
        (field (js "originalPrompt") (arr (object message_obj)) ** field (js "initialMessages") (arr (object provisioned_obj)) **
         opt (js "systemPromptOverride") str ** opt (js "resumeData") record));
     (js "compaction", variant (fun '(a, b) => I_compaction a b) (fun i => match i with I_compaction a b => Some (a, b) | _ => None end)
        (opt (js "customInstructions") str ** field (js "resultEntryId") str));
     (js "navigation", variant (fun '(a, (b, (c, (d, e)))) => I_navigation a b c d e)
        (fun i => match i with I_navigation a b c d e => Some (a, (b, (c, (d, e)))) | _ => None end)
        (field (js "targetId") nullable_str ** field (js "summarize") boolean ** opt (js "customInstructions") str **
         opt (js "label") str ** opt (js "summaryEntryId") str))].

Definition outcome_view : View Outcome :=
  enum [(js "completed", O_completed); (js "aborted", O_aborted); (js "failed", O_failed); (js "declined", O_declined)].

Definition step_view : View StepKind :=
  enum [(js "assistant", S_assistant); (js "compaction", S_compaction); (js "branch_summary", S_branch_summary)].

Definition reason_names : list (jstring * CompactionReason) :=
  [(js "manual", CR_manual); (js "threshold", CR_threshold); (js "overflow", CR_overflow)].

Definition reason_view : View CompactionReason :=
  {| v_to r := match r with
               | CR_manual => JString (js "manual") | CR_threshold => JString (js "threshold")
               | CR_overflow => JString (js "overflow") | CR_other j => j
               end;
     v_of j := match j with
               | JString s => Some (default (CR_other j) (map_get s reason_names))
               | _ => Some (CR_other j)
               end;
     v_ok r := match r with
               | CR_other j => v_ok any j /\ match j with JString s => map_get s reason_names = None | _ => True end
               | _ => True
               end |}.

Definition queue_view : View QueueKind :=
  enum [(js "steer", Q_steer); (js "followUp", Q_followUp); (js "nextRun", Q_nextRun)].

Definition replay_view : View Replay := enum [(js "never", RP_never); (js "safe", RP_safe)].

Definition cause_view : View UsageCause :=
  enum [(js "assistant", UC_assistant); (js "compaction", UC_compaction); (js "branch_summary", UC_branch_summary);
        (js "deferred_fetch", UC_deferred_fetch); (js "tool", UC_tool); (js "hook", UC_hook); (js "adjustment", UC_adjustment)].

Definition record_name (t : RecordType) : jstring :=
  match t with
  | RT_operation_started => js "operation_started" | RT_abort_requested => js "abort_requested"
  | RT_operation_finished => js "operation_finished" | RT_step_attempt => js "step_attempt"
  | RT_tool_started => js "tool_started" | RT_queue_enqueued => js "queue_enqueued"
  | RT_queue_cancelled => js "queue_cancelled" | RT_write_deferred => js "write_deferred" | RT_usage => js "usage"
  end.

Definition payload_type (p : RecordPayload) : RecordType :=
  match p with
  | P_operation_started _ _ => RT_operation_started
  | P_abort_requested _ => RT_abort_requested
  | P_operation_finished _ _ _ => RT_operation_finished
  | P_step_attempt _ _ _ _ _ => RT_step_attempt
  | P_tool_started _ _ _ _ _ _ _ _ => RT_tool_started
  | P_queue_enqueued _ _ _ => RT_queue_enqueued
  | P_queue_cancelled _ _ => RT_queue_cancelled
  | P_write_deferred _ _ => RT_write_deferred
  | P_usage _ _ _ _ _ _ _ _ => RT_usage
  end.

Definition recordPayload_obj : Obj RecordPayload :=
  union (js "type") (fun p => record_name (payload_type p))
    [(js "operation_started", variant (fun '(a, b) => P_operation_started a b)
        (fun p => match p with P_operation_started a b => Some (a, b) | _ => None end)
        (field (js "sourceLeafId") nullable_str ** field (js "intent") (object intent_obj)));
     (js "abort_requested", variant P_abort_requested (fun p => match p with P_abort_requested a => Some a | _ => None end)
        (field (js "runId") str));
     (js "operation_finished", variant (fun '(a, (b, c)) => P_operation_finished a b c)
        (fun p => match p with P_operation_finished a b c => Some (a, (b, c)) | _ => None end)
        (field (js "runId") str ** field (js "outcome") outcome_view **
         opt (js "error") (object (field (js "code") str ** field (js "message") str))));
     (js "step_attempt", variant (fun '(a, (b, (c, (d, e)))) => P_step_attempt a b c d e)
        (fun p => match p with P_step_attempt a b c d e => Some (a, (b, (c, (d, e)))) | _ => None end)
        (field (js "runId") str ** field (js "step") step_view ** field (js "attempt") int ** field (js "resultEntryId") str **
         opt (js "compactionReason") reason_view));
     (js "tool_started", variant (fun '(a, (b, (c, (d, (e, (f, (g, h))))))) => P_tool_started a b c d e f g h)
        (fun p => match p with P_tool_started a b c d e f g h => Some (a, (b, (c, (d, (e, (f, (g, h))))))) | _ => None end)
        (field (js "runId") str ** field (js "assistantEntryId") str ** field (js "toolIndex") int ** field (js "toolCallId") str **
         field (js "toolName") str ** field (js "effectiveArgs") record ** field (js "resultEntryId") str ** field (js "replay") replay_view));
     (js "queue_enqueued", variant (fun '(a, (b, c)) => P_queue_enqueued a b c)
        (fun p => match p with P_queue_enqueued a b c => Some (a, (b, c)) | _ => None end)
        (field (js "queue") queue_view ** opt (js "runId") str ** field (js "target") (object provisioned_obj)));
     (js "queue_cancelled", variant (fun '(a, b) => P_queue_cancelled a b)
        (fun p => match p with P_queue_cancelled a b => Some (a, b) | _ => None end) (opt (js "runId") str ** field (js "entryId") str));
     (js "write_deferred", variant (fun '(a, b) => P_write_deferred a b)
        (fun p => match p with P_write_deferred a b => Some (a, b) | _ => None end)
        (field (js "runId") str ** field (js "target") (object provisioned_obj)));
     (js "usage", variant (fun '(a, (b, (c, (d, (e, (f, (g, h))))))) => P_usage a b c d e f g h)
        (fun p => match p with P_usage a b c d e f g h => Some (a, (b, (c, (d, (e, (f, (g, h))))))) | _ => None end)
        (field (js "usage") (object usage_obj) ** field (js "cause") cause_view ** opt (js "runId") str ** opt (js "entryId") str **
         opt (js "attempt") int ** opt (js "stopReason") stopReason_view ** opt (js "toolCallId") str ** opt (js "details") any))].

Definition record_obj : Obj LaneRecord :=
  iso (fun '((i, l), (p, (s, t))) => {| rec_id := i; rec_seq := s; rec_lane := l; rec_timestamp := t; rec_payload := p |})
    (fun x => ((rec_id x, rec_lane x), (rec_payload x, (rec_seq x, rec_timestamp x))))
    ((field (js "id") str ** field (js "lane") str) ** recordPayload_obj ** field (js "seq") int ** field (js "timestamp") int).

(** ** Laws *)

Lemma text_law : lawful text_obj.
Proof. unfold text_obj. view_law. by intros []. Qed.
Lemma thinking_law : lawful thinking_obj.
Proof. unfold thinking_obj. view_law. by intros []. Qed.
Lemma image_law : lawful image_obj.
Proof. unfold image_obj. view_law. by intros []. Qed.
Lemma toolCall_law : lawful toolCall_obj.
Proof. unfold toolCall_obj. view_law. by intros []. Qed.
Lemma cost_law : lawful cost_obj.
Proof. unfold cost_obj. view_law. by intros []. Qed.
#[local] Hint Resolve text_law thinking_law image_law toolCall_law cost_law : views.
Lemma usage_law : lawful usage_obj.
Proof. unfold usage_obj. view_law. by intros []. Qed.
Lemma deferred_law : lawful deferred_obj.
Proof. unfold deferred_obj. view_law. by intros []. Qed.
#[local] Hint Resolve usage_law deferred_law : views.

Lemma stopReason_law : lawful_view stopReason_view.
Proof. apply enum_law. Qed.
#[local] Hint Resolve stopReason_law : views.

Lemma userBlock_law : lawful userBlock_obj.
Proof. unfold userBlock_obj. union_law. Qed.
#[local] Hint Resolve userBlock_law : views.

Lemma userContent_law : lawful_view userContent_view.
Proof.
  assert (lawful_view (arr (object userBlock_obj))) as Ha by view_law.
  intros [s|l] Hok; simpl in Hok; [by split; [constructor|]|]. destruct (Ha l Hok) as [H1 H2]. split; [done|].
  simpl in H2 |- *. by rewrite H2.
Qed.

Lemma assistantBlock_law : lawful assistantBlock_obj.
Proof. unfold assistantBlock_obj. union_law. Qed.
#[local] Hint Resolve userContent_law assistantBlock_law : views.

Lemma assistant_law : lawful assistant_obj.
Proof. unfold assistant_obj. view_law. by intros []. Qed.
Lemma toolResult_law : lawful toolResult_obj.
Proof. unfold toolResult_obj. view_law. by intros []. Qed.
Lemma content_law : lawful content_obj.
Proof. unfold content_obj. view_law. Qed.
Lemma bash_law : lawful bash_obj.
Proof. unfold bash_obj. view_law. by intros []. Qed.
Lemma custom_law : lawful custom_obj.
Proof. unfold custom_obj. view_law. by intros []. Qed.
Lemma branchSummary_law : lawful branchSummary_obj.
Proof. unfold branchSummary_obj. view_law. by intros []. Qed.
Lemma compactionSummary_law : lawful compactionSummary_obj.
Proof. unfold compactionSummary_obj. view_law. by intros []. Qed.
#[local] Hint Resolve assistant_law toolResult_law content_law bash_law custom_law branchSummary_law compactionSummary_law : views.

Lemma message_law : lawful message_obj.
Proof.
  unfold message_obj. view_law.
  1: intros [[]| | | |]; apply units_check; vm_compute; reflexivity.
  all: intros t a Ha; destruct t as [[[]|[]| |]| | | |]; cbn in Ha; simplify_eq; reflexivity.
Qed.
#[local] Hint Resolve message_law : views.

Lemma payload_law : lawful payload_obj.
Proof. unfold payload_obj. union_law. Qed.
#[local] Hint Resolve payload_law : views.

Lemma provisioned_law : lawful provisioned_obj.
Proof. unfold provisioned_obj. view_law. by intros []. Qed.
Lemma entry_law : lawful entry_obj.
Proof. unfold entry_obj. view_law. by intros []. Qed.
#[local] Hint Resolve provisioned_law : views.

Lemma intent_law : lawful intent_obj.
Proof. unfold intent_obj. union_law. Qed.
Lemma outcome_law : lawful_view outcome_view.
Proof. apply enum_law. Qed.
Lemma step_law : lawful_view step_view.
Proof. apply enum_law. Qed.
Lemma queue_law : lawful_view queue_view.
Proof. apply enum_law. Qed.
Lemma replay_law : lawful_view replay_view.
Proof. apply enum_law. Qed.
Lemma cause_law : lawful_view cause_view.
Proof. apply enum_law. Qed.

Lemma reason_law : lawful_view reason_view.
Proof.
  intros [| | |j] Hok; try by split; [constructor; apply units_check; vm_compute; reflexivity|vm_compute; reflexivity].
  destruct Hok as [Hj Hs]. split; [done|]. destruct j; try done. cbn [v_of v_to reason_view]. by rewrite Hs.
Qed.
#[local] Hint Resolve intent_law outcome_law step_law queue_law replay_law cause_law reason_law : views.

Lemma recordPayload_law : lawful recordPayload_obj.
Proof. unfold recordPayload_obj. union_law. Qed.
#[local] Hint Resolve recordPayload_law : views.

Lemma record_obj_law : lawful record_obj.
Proof. unfold record_obj. view_law. by intros []. Qed.
End SessionJson.
