(* ===== verification/Jsonl.v ===== *)
(** * JSONL session files

    packages/agent/src/harness/session/jsonl: the line codec (codec.ts), the
    storage that appends one line per mutation and replays a file (storage.ts)
    and the errors (errors.ts), over a file system that is an interface of the
    repository (harness/types.ts).

    JSON objects are cast to entries and records without a check; [entry_obj]
    and [record_obj] are the typed views of such objects, and a line whose
    object lacks declared properties ends the model ([JF_untyped]).  Storage
    operations are chained by [enqueue], so each runs alone. *)

From stdpp Require Import base list gmap strings pretty.
From Stdlib Require Import ZArith Lia.
From S2P Require Import Prelude SessionTypes SessionState SessionInvariant SessionFork SessionStorage Numbers Utf8.
From S2P Require Import Cbor SessionContext Compaction Truncate Json JsonProperties JsonViews SessionJson.

Open Scope Z_scope.

(** ** Decode errors *)

Inductive DecodeKind := DK_syntax | DK_schema.

Record JsonlDecodeError := { de_kind : DecodeKind; de_message : jstring }.

Definition schema_error {A} (message : jstring) : Result JsonlDecodeError A :=
  Err {| de_kind := DK_schema; de_message := message |}.

(** [JsonlV4Header] *)
Record JsonlV4Header := {
  hd_id : jstring;
  hd_createdAt : Z;
  hd_cwd : jstring;
  hd_parentSessionId : option jstring;
  hd_legacyParentSessionPath : option jstring;
  hd_metadata : option fields }.

Record JsonlSessionMetadata := {
  jm_id : jstring;
  jm_createdAt : Z;
  jm_cwd : jstring;
  jm_path : jstring;
  jm_modifiedAt : Z;
  jm_sourceFormat : Z;
  jm_parentSessionId : option jstring;
  jm_legacyParentSessionPath : option jstring;
  jm_metadata : option fields }.

(** A decoded mutation; entries and records are still plain objects. *)
Inductive RawMutation :=
| RM_entry (lane : option jstring) (entry : fields)
| RM_record (record : fields)
| RM_lane (seq : Z) (lane : jstring) (leafId : option jstring)
| RM_name (seq : Z) (name : option jstring)
| RM_label (seq : Z) (targetId : jstring) (label : option jstring).

(** ** Codec *)

Definition ENTRY_TYPES : list jstring :=
  [js "message"; js "model_change"; js "thinking_level_change"; js "active_tools_change"; js "compaction";
   js "branch_summary"; js "custom"].

Definition RECORD_TYPES : list jstring :=
  [js "operation_started"; js "abort_requested"; js "operation_finished"; js "step_attempt"; js "tool_started";
   js "queue_enqueued"; js "queue_cancelled"; js "write_deferred"; js "usage"].

Definition OPERATION_KINDS : list jstring := [js "run"; js "compaction"; js "navigation"].

Section Codec.
Context (number_to_string : number -> jstring) (parse_number : jstring -> option number).

Definition parseObject (line : jstring) : Result JsonlDecodeError fields :=
  match json_parse parse_number line with
  | None => Err {| de_kind := DK_syntax; de_message := js "is not valid JSON" |}
  | Some (JObject value) => Ok value
  | Some _ => schema_error (js "is not a JSON object")
  end.

(** A property that is absent is [None]. *)
Definition requireString (value : option json) (field : jstring) : Result JsonlDecodeError jstring :=
  match value with Some (JString s) => Ok s | _ => schema_error (js "has invalid " ++ field) end.

(** [Number.isSafeInteger] *)
Definition safe_integer (value : option json) : option Z :=
  match value with
  | Some (JNumber n) => match integer_value n with Some z => if safe z then Some z else None | None => None end
  | _ => None
  end.

Definition requireSequence (value : option json) : Result JsonlDecodeError Z :=
  match safe_integer value with
  | Some z => if z <=? 0 then schema_error (js "has invalid seq") else Ok z
  | None => schema_error (js "has invalid seq")
  end.

Definition requireTimestamp (value : option json) : Result JsonlDecodeError Z :=
  match safe_integer value with
  | Some z => if z <? 0 then schema_error (js "has invalid timestamp") else Ok z
  | None => schema_error (js "has invalid timestamp")
  end.

Definition requireNullableId (value : option json) (field : jstring) : Result JsonlDecodeError (option jstring) :=
  match value with
  | Some JNull => Ok None
  | Some (JString s) => Ok (Some s)
  | _ => schema_error (js "has invalid " ++ field)
  end.

(** [value !== undefined && typeof value !== "string"] throws. *)
Definition optional_string (value : option json) (message : jstring) : Result JsonlDecodeError (option jstring) :=
  match value with
  | None => Ok None
  | Some (JString s) => Ok (Some s)
  | Some _ => schema_error message
  end.

Definition is_string (value : option json) (s : jstring) : bool := bool_decide (value = Some (JString s)).

Definition decodeHeader (line : jstring) : Result JsonlDecodeError JsonlV4Header :=
  let* value := parseObject line in
  let get k := map_get (js k) value in
  rguard (is_string (get "kind"%string) (js "header")) {| de_kind := DK_schema; de_message := js "is not a header" |} ;;;
  rguard match get "version"%string with Some (JNumber n) => bool_decide (integer_value n = Some 4) | _ => false end
    {| de_kind := DK_schema; de_message := js "has unsupported session version" |} ;;;
  let* parentSessionId := optional_string (get "parentSessionId"%string) (js "has invalid parentSessionId") in
  let* legacyParentSessionPath :=
    optional_string (get "legacyParentSessionPath"%string) (js "has invalid legacyParentSessionPath") in
  match parentSessionId, legacyParentSessionPath with
  | Some _, Some _ => schema_error (js "has both parentSessionId and legacyParentSessionPath")
  | _, _ => Ok tt
  end ;;;
  let* metadata := match get "metadata"%string with
                   | None => Ok None
                   | Some (JObject m) => Ok (Some m)
                   | Some _ => schema_error (js "has invalid metadata")
                   end in
  let* id := requireString (get "id"%string) (js "id") in
  let* createdAt := requireTimestamp (get "createdAt"%string) in
  let* cwd := requireString (get "cwd"%string) (js "cwd") in
  Ok {| hd_id := id; hd_createdAt := createdAt; hd_cwd := cwd; hd_parentSessionId := parentSessionId;
        hd_legacyParentSessionPath := legacyParentSessionPath; hd_metadata := metadata |}.

Definition opt_str (k : jstring) (value : option jstring) : fields :=
  match value with Some s => [(k, JString s)] | None => [] end.

Definition header_object (header : JsonlV4Header) : fields :=
  [(js "kind", JString (js "header")); (js "version", JNumber (number_of_Z 4)); (js "id", JString (hd_id header));
   (js "createdAt", JNumber (number_of_Z (hd_createdAt header))); (js "cwd", JString (hd_cwd header))] ++
  opt_str (js "parentSessionId") (hd_parentSessionId header) ++
  opt_str (js "legacyParentSessionPath") (hd_legacyParentSessionPath header) ++
  match hd_metadata header with Some m => [(js "metadata", JObject m)] | None => [] end.

Definition encodeHeader (header : JsonlV4Header) : jstring :=
  json_stringify number_to_string (JObject (header_object header)) ++ [newline].

Definition metadataFromHeader (header : JsonlV4Header) (path : jstring) (modifiedAt : Z) : JsonlSessionMetadata :=
  {| jm_id := hd_id header; jm_createdAt := hd_createdAt header; jm_cwd := hd_cwd header; jm_path := path;
     jm_modifiedAt := modifiedAt; jm_sourceFormat := 4; jm_parentSessionId := hd_parentSessionId header;
     jm_legacyParentSessionPath := hd_legacyParentSessionPath header; jm_metadata := hd_metadata header |}.

(** The checked properties are written back with the values they have. *)
Definition parseEntryMutation (value : fields) (seq : Z) : Result JsonlDecodeError RawMutation :=
  let get k := map_get (js k) value in
  let* lane := match get "lane"%string with
               | None => Ok None
               | Some v => let* lane := requireString (Some v) (js "lane") in Ok (Some lane)
               end in
  let* id := requireString (get "id"%string) (js "id") in
  let* type := requireString (get "type"%string) (js "entry type") in
  rguard (bool_decide (type ∈ ENTRY_TYPES)) {| de_kind := DK_schema; de_message := js "has unknown entry type " ++ type |} ;;;
  let* parentId := requireNullableId (get "parentId"%string) (js "parentId") in
  let* timestamp := requireTimestamp (get "timestamp"%string) in
  (if bool_decide (type = js "custom") then rmap (fun _ => tt) (requireString (get "customType"%string) (js "customType"))
   else Ok tt) ;;;
  Ok (RM_entry lane (map_delete (js "lane") (map_delete (js "kind") value))).

Definition parseRecordMutation (value : fields) (seq : Z) : Result JsonlDecodeError RawMutation :=
  let get k := map_get (js k) value in
  let* id := requireString (get "id"%string) (js "id") in
  let* lane := requireString (get "lane"%string) (js "lane") in
  let* type := requireString (get "type"%string) (js "record type") in
  rguard (bool_decide (type ∈ RECORD_TYPES)) {| de_kind := DK_schema; de_message := js "has unknown record type " ++ type |} ;;;
  let* timestamp := requireTimestamp (get "timestamp"%string) in
  (if bool_decide (type = js "operation_started") then
     match get "intent"%string with
     | Some (JObject intent) =>
         let* operationKind := requireString (map_get (js "kind") intent) (js "operation kind") in
         rguard (bool_decide (operationKind ∈ OPERATION_KINDS))
           {| de_kind := DK_schema; de_message := js "has unknown operation kind " ++ operationKind |}
     | _ => schema_error (js "has invalid intent")
     end
   else Ok tt) ;;;
  (if bool_decide (type = js "operation_finished") then rmap (fun _ => tt) (requireString (get "runId"%string) (js "runId"))
   else Ok tt) ;;;
  Ok (RM_record (map_delete (js "kind") value)).

Definition parseLaneMutation (value : fields) (seq : Z) : Result JsonlDecodeError RawMutation :=
  let* lane := requireString (map_get (js "lane") value) (js "lane") in
  let* leafId := requireNullableId (map_get (js "leafId") value) (js "leafId") in
  Ok (RM_lane seq lane leafId).

Definition parseFactMutation (value : fields) (seq : Z) : Result JsonlDecodeError RawMutation :=
  if is_string (map_get (js "fact") value) (js "name") then
    let* name := optional_string (map_get (js "name") value) (js "has invalid name") in
    Ok (RM_name seq name)
  else if is_string (map_get (js "fact") value) (js "label") then
    let* label := optional_string (map_get (js "label") value) (js "has invalid label") in
    let* targetId := requireString (map_get (js "targetId") value) (js "targetId") in
    Ok (RM_label seq targetId label)
  else schema_error (js "has unknown fact type").

Definition parseMutation (line : jstring) : Result JsonlDecodeError RawMutation :=
  let* value := parseObject line in
  let* seq := requireSequence (map_get (js "seq") value) in
  let kind := map_get (js "kind") value in
  if is_string kind (js "entry") then parseEntryMutation value seq
  else if is_string kind (js "record") then parseRecordMutation value seq
  else if is_string kind (js "lane") then parseLaneMutation value seq
  else if is_string kind (js "fact") then parseFactMutation value seq
  else schema_error (js "has unknown mutation kind").

(** The object [encodeMutation] prints. *)
Definition mutation_object (m : SessionMutation) : fields :=
  let seq_field z := (js "seq", JNumber (number_of_Z z)) in
  match m with
  | Mut_entry lane entry =>
      (js "kind", JString (js "entry")) :: opt_str (js "lane") lane ++
      o_write (entry_obj number_to_string parse_number) entry
  | Mut_record record =>
      (js "kind", JString (js "record")) :: o_write (record_obj number_to_string parse_number) record
  | Mut_lane seq lane leafId =>
      [(js "kind", JString (js "lane")); seq_field seq; (js "lane", JString lane); (js "leafId", v_to nullable_str leafId)]
  | Mut_name seq name =>
      [(js "kind", JString (js "fact")); seq_field seq; (js "fact", JString (js "name"))] ++ opt_str (js "name") name
  | Mut_label seq targetId label =>
      [(js "kind", JString (js "fact")); seq_field seq; (js "fact", JString (js "label")); (js "targetId", JString targetId)] ++
      opt_str (js "label") label
  end.

Definition mutation_line (m : SessionMutation) : jstring := json_stringify number_to_string (JObject (mutation_object m)).

Definition encodeMutation (m : SessionMutation) : jstring := mutation_line m ++ [newline].

(** The typed view of a decoded mutation. *)
Definition mutation_of_raw (raw : RawMutation) : option SessionMutation :=
  match raw with
  | RM_entry lane entry => Mut_entry lane <$> o_read (entry_obj number_to_string parse_number) entry
  | RM_record record => Mut_record <$> o_read (record_obj number_to_string parse_number) record
  | RM_lane seq lane leafId => Some (Mut_lane seq lane leafId)
  | RM_name seq name => Some (Mut_name seq name)
  | RM_label seq targetId label => Some (Mut_label seq targetId label)
  end.
End Codec.

(** ** The file system *)

Inductive FileErrorCode :=
| FE_aborted | FE_not_found | FE_permission_denied | FE_not_directory | FE_is_directory | FE_invalid | FE_not_supported
| FE_unknown.

#[export] Instance FileErrorCode_eq_dec : EqDecision FileErrorCode.
Proof. solve_decision. Defined.

Record FileError := { fe_code : FileErrorCode; fe_message : jstring }.

Inductive FileKind := FK_file | FK_directory | FK_symlink.

#[export] Instance FileKind_eq_dec : EqDecision FileKind.
Proof. solve_decision. Defined.

Record FileInfo := { fi_name : jstring; fi_path : jstring; fi_kind : FileKind; fi_mtimeMs : Z }.

(** [JsonlSessionRepoFileSystem]: operations on a world [W]. *)
Class JsonlFileSystem (W : Type) := {
  fs_absolutePath : jstring -> W -> W * Result FileError jstring;
  fs_joinPath : list jstring -> W -> W * Result FileError jstring;
  fs_readTextFile : jstring -> W -> W * Result FileError jstring;
  fs_readTextLines : jstring -> Z -> W -> W * Result FileError (list jstring);
  fs_writeFile : jstring -> jstring -> W -> W * Result FileError unit;
  fs_appendFile : jstring -> jstring -> W -> W * Result FileError unit;
  fs_renameFile : jstring -> jstring -> W -> W * Result FileError unit;
  fs_fileInfo : jstring -> W -> W * Result FileError FileInfo;
  fs_listDir : jstring -> W -> W * Result FileError (list FileInfo);
  fs_exists : jstring -> W -> W * Result FileError bool;
  fs_createDir : jstring -> W -> W * Result FileError unit;
  fs_remove : jstring -> W -> W * Result FileError unit }.

(** ** Effects *)

Inductive JsonlFailure := JF_error (e : SessionError) | JF_untyped (line : Z).

(** A computation over the world that may throw. *)
Definition IO (W A : Type) : Type := W -> W * Result JsonlFailure A.

Section Effects.
Context {W : Type}.

Definition io_ret {A} (a : A) : IO W A := fun w => (w, Ok a).
Definition io_throw {A} (e : JsonlFailure) : IO W A := fun w => (w, Err e).
Definition io_bind {A B} (m : IO W A) (k : A -> IO W B) : IO W B := fun w =>
  match m w with (w, Ok a) => k a w | (w, Err e) => (w, Err e) end.

(** A computation of [SessionState]. *)
Definition io_lift {A} (r : Result SessionError A) : IO W A :=
  match r with Ok a => io_ret a | Err e => io_throw (JF_error e) end.

(** [try { ... } catch (error) { cleanup; throw error; }] *)
Definition io_rescue {A} (m : IO W A) (cleanup : W -> W) : IO W A := fun w =>
  match m w with (w, Ok a) => (w, Ok a) | (w, Err e) => (cleanup w, Err e) end.
End Effects.

Declare Scope io_scope.
Delimit Scope io_scope with io.
Notation "'do!' x <- m 'in' k" := (io_bind m (fun x => k))
  (at level 10, x pattern, m at level 100, k at level 200) : io_scope.
Notation "'do_!' m 'in' k" := (io_bind m (fun _ => k)) (at level 10, m at level 100, k at level 200) : io_scope.
Open Scope io_scope.

(** [fileResult(await operation, message)] *)
Definition fileResult {W A} (operation : W -> W * Result FileError A) (message : jstring) : IO W A := fun w =>
  match operation w with
  | (w, Ok a) => (w, Ok a)
  | (w, Err e) =>
      (w, Err (JF_error (session_error (if bool_decide (fe_code e = FE_not_found) then C_not_found else C_storage)
                           (message ++ js ": " ++ fe_message e))))
  end.

Definition invalidFile (path : jstring) (line : Z) (message : jstring) : JsonlFailure :=
  JF_error (session_error C_invalid_entry (js "Invalid JSONL v4 session " ++ path ++ js ": line " ++ js_of_Z line ++ js " " ++ message)).

(** ** JsonlSessionStorage *)

Record JsonlSessionStorage := { jl_metadata : JsonlSessionMetadata; jl_state : SessionState }.

Module JsonlStorage.
Section Storage.
Context {W : Type} `{JsonlFileSystem W}.
Context (number_to_string : number -> jstring) (parse_number : jstring -> option number).
Abbreviation encodeMutation := (encodeMutation number_to_string parse_number).
Abbreviation encodeHeader := (encodeHeader number_to_string).
Abbreviation parseMutation := (parseMutation parse_number).
Abbreviation decodeHeader := (decodeHeader parse_number).
Abbreviation mutation_of_raw := (mutation_of_raw number_to_string parse_number).

Definition temp_path (path : jstring) : jstring := path ++ js ".tmp".

Definition publishFileAtomically (destinationPath : jstring) (populate : jstring -> IO W unit) : IO W unit :=
  let tempPath := temp_path destinationPath in
  io_rescue
    (do_! populate tempPath in
     fileResult (fs_renameFile tempPath destinationPath) (js "Failed to publish staged file " ++ destinationPath))
    (fun w => (fs_remove tempPath w).1).

Definition create (path : jstring) (header : JsonlV4Header) : IO W JsonlSessionStorage :=
  do_! fileResult (fs_writeFile path (encodeHeader header)) (js "Failed to initialize session " ++ path) in
  do! fileInfo <- fileResult (fs_fileInfo path) (js "Failed to read session metadata " ++ path) in
  io_ret {| jl_metadata := metadataFromHeader header path (fi_mtimeMs fileInfo); jl_state := init_state |}.

(** [content.split("\n")] without a last empty piece. *)
Definition physical_lines (content : jstring) : list jstring :=
  let lines := split_lines content in
  match last lines with Some [] => take (length lines - 1) lines | _ => lines end.

(** The loop of [load] from line [index]; [before] are the lines already
    replayed.  [None]: all lines were replayed; [Some text]: the last line is
    torn and [text] is what precedes it. *)
Fixpoint replay_lines (path : jstring) (before : list jstring) (lines : list jstring) (s : SessionState) :
    Result JsonlFailure (SessionState * option jstring) :=
  match lines with
  | [] => Ok (s, None)
  | line :: rest =>
      let index := Z.of_nat (length before) in
      match parseMutation line with
      | Err e =>
          match rest, de_kind e with
          | [], DK_syntax => Ok (s, Some (join_lines before ++ [newline]))
          | _, _ => Err (invalidFile path (index + 1) (de_message e))
          end
      | Ok raw =>
          match mutation_of_raw raw with
          | None => Err (JF_untyped (index + 1))
          | Some mutation =>
              match applyMutation s mutation with
              | Ok s => replay_lines path (before ++ [line]) rest s
              | Err e =>
                  Err (if bool_decide (err_code e = C_invalid_entry) then invalidFile path (index + 1) (err_message e)
                       else JF_error e)
              end
          end
      end
  end.

Definition load (path : jstring) : IO W JsonlSessionStorage :=
  do! content <- fileResult (fs_readTextFile path) (js "Failed to read session " ++ path) in
  match physical_lines content with
  | [] => io_throw (invalidFile path 1 (js "is missing a header"))
  | [] :: _ => io_throw (invalidFile path 1 (js "is missing a header"))
  | first :: rest =>
      match decodeHeader first with
      | Err e => io_throw (invalidFile path 1 (de_message e))
      | Ok header =>
          do! fileInfo <- fileResult (fs_fileInfo path) (js "Failed to read session metadata " ++ path) in
          let metadata := metadataFromHeader header path (fi_mtimeMs fileInfo) in
          match replay_lines path [first] rest init_state with
          | Err e => io_throw e
          | Ok (s, Some validPrefix) =>
              do_! publishFileAtomically path (fun tempPath =>
                     fileResult (fs_writeFile tempPath validPrefix) (js "Failed to stage torn-tail repair " ++ path)) in
              io_ret {| jl_metadata := metadata; jl_state := s |}
          | Ok (s, None) =>
              do_! (if bool_decide (last content = Some newline) then io_ret tt
                    else fileResult (fs_appendFile path [newline]) (js "Failed to repair unterminated session tail " ++ path)) in
              io_ret {| jl_metadata := metadata; jl_state := s |}
          end
      end
  end.

Definition appendMutation (storage : JsonlSessionStorage) (mutation : SessionMutation) : IO W unit :=
  fileResult (fs_appendFile (jm_path (jl_metadata storage)) (encodeMutation mutation))
    (js "Failed to append session " ++ jm_path (jl_metadata storage)).

Definition with_state (storage : JsonlSessionStorage) (s : SessionState) : JsonlSessionStorage :=
  {| jl_metadata := jl_metadata storage; jl_state := s |}.

(** The mutation is appended to the file, then applied. *)
Definition commit (storage : JsonlSessionStorage) (mutation : SessionMutation) : IO W JsonlSessionStorage :=
  do_! appendMutation storage mutation in
  do! s <- io_lift (applyMutation (jl_state storage) mutation) in
  io_ret (with_state storage s).

Definition createLane (storage : JsonlSessionStorage) (lane : jstring) (at_ : option jstring) : IO W JsonlSessionStorage :=
  do_! io_lift (validateNewLane (jl_state storage) lane) in
  do_! io_lift (validateTarget (jl_state storage) at_) in
  commit storage (Mut_lane (nextSequence (jl_state storage)) lane at_).

Definition moveLane (storage : JsonlSessionStorage) (lane : jstring) (to : option jstring) : IO W JsonlSessionStorage :=
  do_! io_lift (requireLane (jl_state storage) lane) in
  do_! io_lift (validateTarget (jl_state storage) to) in
  commit storage (Mut_lane (nextSequence (jl_state storage)) lane to).

Definition appendEntry (storage : JsonlSessionStorage) (now : Z) (newEntry : ProvisionedEntry) (lane : jstring) :
    IO W (Entry * JsonlSessionStorage) :=
  do! parentId <- io_lift (requireLane (jl_state storage) lane) in
  do_! io_lift (validateUnusedId (jl_state storage) (pe_id newEntry)) in
  let entry := {| entry_id := pe_id newEntry; entry_seq := nextSequence (jl_state storage); entry_parentId := parentId;
                  entry_timestamp := now; entry_payload := pe_payload newEntry |} in
  do! storage <- commit storage (Mut_entry (Some lane) entry) in
  io_ret (entry, storage).

Definition appendRecord (storage : JsonlSessionStorage) (now : Z) (newRecord : NewRecord) :
    IO W (LaneRecord * JsonlSessionStorage) :=
  do_! io_lift (requireLane (jl_state storage) (nr_lane newRecord)) in
  do_! io_lift (validateUnusedId (jl_state storage) (nr_id newRecord)) in
  do! open <- io_lift (findOpenOperations (jl_state storage) (nr_lane newRecord) (Some 1)) in
  do_! io_lift match nr_payload newRecord, head open with
       | P_operation_started _ _, Some current =>
           Err (session_error C_storage (js "Lane " ++ nr_lane newRecord ++ js " already has an open operation " ++ os_id current))
       | _, _ => Ok tt
       end in
  let record := {| rec_id := nr_id newRecord; rec_seq := nextSequence (jl_state storage); rec_lane := nr_lane newRecord;
                   rec_timestamp := now; rec_payload := nr_payload newRecord |} in
  do! storage <- commit storage (Mut_record record) in
  io_ret (record, storage).

Definition setName (storage : JsonlSessionStorage) (name : option jstring) : IO W JsonlSessionStorage :=
  commit storage (Mut_name (nextSequence (jl_state storage)) name).

Definition setLabel (storage : JsonlSessionStorage) (id : jstring) (label : option jstring) : IO W JsonlSessionStorage :=
  do_! io_lift (validateTarget (jl_state storage) (Some id)) in
  commit storage (Mut_label (nextSequence (jl_state storage)) id label).

(** The mutations of a fork, appended one by one. *)
Fixpoint append_all (storage : JsonlSessionStorage) (mutations : list SessionMutation) : IO W JsonlSessionStorage :=
  match mutations with
  | [] => io_ret storage
  | mutation :: rest => do! storage <- commit storage mutation in append_all storage rest
  end.

Definition fork (storage : JsonlSessionStorage) (path : jstring) (header : JsonlV4Header) (options : ForkOptions) :
    IO W JsonlSessionStorage :=
  do! mutations <- io_lift (createForkMutations (jl_state storage) options) in
  do_! publishFileAtomically path (fun tempPath =>
         do! targetStorage <- create tempPath header in
         do! _ <- append_all targetStorage mutations in
         io_ret tt) in
  load path.

(** The writes, by name. *)
Definition run_op (storage : JsonlSessionStorage) (op : StorageOp) : IO W JsonlSessionStorage :=
  match op with
  | Op_createLane lane at_ => createLane storage lane at_
  | Op_moveLane lane to => moveLane storage lane to
  | Op_appendEntry now e lane => do! p <- appendEntry storage now e lane in io_ret p.2
  | Op_appendRecord now r => do! p <- appendRecord storage now r in io_ret p.2
  | Op_setName name => setName storage name
  | Op_setLabel id label => setLabel storage id label
  end.
End Storage.
End JsonlStorage.

(** The reads are those of the state. *)
#[export] Instance jsonl_storage : SessionStorage JsonlSessionStorage := {
  storage_getLanes st := getLanes (jl_state st);
  storage_getEntry st id := getEntry (jl_state st) id;
  storage_findEntries st q := findEntries (jl_state st) q;
  storage_findEntriesOnBranch st start q b := findEntriesOnBranch (jl_state st) start q b;
  storage_findRecords st q := findRecords (jl_state st) q;
  storage_getLog st o := getLog (jl_state st) o }.
