(* ===== verification/JsonlCodec.v ===== *)
(** * The JSONL codec reads back what it writes *)

From stdpp Require Import base list gmap strings pretty.
From Stdlib Require Import ZArith Lia.
From S2P Require Import Prelude SessionTypes SessionState SessionInvariant SessionFork SessionStorage Numbers Utf8.
From S2P Require Import Cbor CborCodec CborProperties SessionContext Compaction Truncate TruncateProperties Json JsonProperties JsonViews SessionJson Jsonl.

Open Scope Z_scope.

(** ** Lookups *)

Lemma map_get_here {V} k (v : V) (l : list (jstring * V)) : map_get k ((k, v) :: l) = Some v.
Proof. simpl. by rewrite decide_True. Qed.

Lemma map_get_skip {V} k k' (v : V) (l : list (jstring * V)) : bool_decide (k = k') = false -> map_get k ((k', v) :: l) = map_get k l.
Proof. intros H%bool_decide_eq_false. simpl. by rewrite decide_False. Qed.

Lemma map_delete_here {V} k (v : V) (l : list (jstring * V)) : map_delete k ((k, v) :: l) = l.
Proof. simpl. by rewrite decide_True. Qed.

Lemma map_delete_absent {V} k (l : list (jstring * V)) : k ∉ l.*1 -> map_delete k l = l.
Proof.
  induction l as [|[k' v] l IH]; [done|]. simpl. rewrite not_elem_of_cons. intros [Hne Hn].
  rewrite decide_False by done. by rewrite IH.
Qed.

Lemma map_get_absent {V} k (l : list (jstring * V)) : map_get k l = None -> k ∉ l.*1.
Proof.
  induction l as [|[k' v] l IH]; simpl; [intros _; apply not_elem_of_nil|]. case_decide; [done|].
  intros H'. apply not_elem_of_cons. auto.
Qed.

(** Looks up constant names in a list of properties. *)
Ltac lookups :=
  repeat match goal with
  | |- context [map_get ?k ((?k, ?v) :: ?l)] => rewrite (map_get_here k v l)
  | |- context [map_get ?k ((?k', ?v) :: ?l)] => rewrite (map_get_skip k k' v l) by (vm_compute; reflexivity)
  end.

Section Codec.
Context (number_to_string : number -> jstring) (parse_number : jstring -> option number).
Abbreviation json_ok := (json_ok number_to_string parse_number).
Abbreviation entry_obj := (entry_obj number_to_string parse_number).
Abbreviation record_obj := (record_obj number_to_string parse_number).
Abbreviation int := (JsonViews.int number_to_string parse_number).
Abbreviation units := (Forall code_unit).

(** Properties with distinct constant names and JSON values. *)
Definition props_ok (l : fields) : Prop := Forall name_ok l.*1 /\ NoDup l.*1 /\ Forall (fun p => json_ok p.2) l.

Lemma props_nil : props_ok [].
Proof. split_and!; [constructor|apply NoDup_nil_2|constructor]. Qed.

Lemma props_cons k v l : name_ok k -> map_get k l = None -> json_ok v -> props_ok l -> props_ok ((k, v) :: l).
Proof.
  intros Hk Hl Hv (Hn & Hd & Hf). split_and!; [by constructor| |by constructor]. apply NoDup_cons. split; [|done].
  by apply map_get_absent.
Qed.

Lemma props_write {A} (o : Obj A) a : obj_law number_to_string parse_number o -> o_ok o a -> props_ok (o_write o a).
Proof.
  intros [N K V _] Ha. destruct (K a Ha) as [Hd Hs]. rewrite Forall_forall in N.
  split_and!; [apply Forall_forall; auto|done|by apply V].
Qed.

Lemma object_ok (l : fields) : props_ok l -> json_ok (JObject l).
Proof.
  intros (Hn & Hd & Hv). rewrite Forall_forall in Hn. constructor; [| |done|].
  - intros i k x Hx. apply Hn. apply (list_elem_of_fmap_2 fst _ (k, x)), (list_elem_of_lookup_2 _ i), Hx.
  - intros i k x Hx. rewrite Forall_forall in Hv. apply (Hv (k, x)). by eapply list_elem_of_lookup_2.
  - apply own_properties_names. apply Forall_forall. intros k Hk. by apply Hn.
Qed.

Lemma parse_ok (l : fields) : json_ok (JObject l) -> parseObject parse_number (json_stringify number_to_string (JObject l)) = Ok l.
Proof. intros H. unfold parseObject. by rewrite json_roundtrip. Qed.

(** ** What a session may contain *)

Definition opt_units (s : option jstring) : Prop := match s with Some s => units s | None => True end.

(** Positive sequence numbers, times after 1970, properties that are JSON. *)
Definition mutation_ok (m : SessionMutation) : Prop :=
  match m with
  | Mut_entry lane entry => opt_units lane /\ o_ok entry_obj entry /\ 0 < entry_seq entry /\ 0 <= entry_timestamp entry
  | Mut_record record => o_ok record_obj record /\ 0 < rec_seq record /\ 0 <= rec_timestamp record
  | Mut_lane seq lane leafId => v_ok int seq /\ 0 < seq /\ units lane /\ opt_units leafId
  | Mut_name seq name => v_ok int seq /\ 0 < seq /\ opt_units name
  | Mut_label seq targetId label => v_ok int seq /\ 0 < seq /\ units targetId /\ opt_units label
  end.

Definition header_ok (h : JsonlV4Header) : Prop :=
  units (hd_id h) /\ v_ok int (hd_createdAt h) /\ 0 <= hd_createdAt h /\ units (hd_cwd h) /\
  opt_units (hd_parentSessionId h) /\ opt_units (hd_legacyParentSessionPath h) /\
  ~ (is_Some (hd_parentSessionId h) /\ is_Some (hd_legacyParentSessionPath h)) /\
  v_ok int 4 /\ match hd_metadata h with Some m => json_ok (JObject m) | None => True end.

(** ** Encoded objects are JSON *)

Lemma int_ok z : v_ok int z -> json_ok (JNumber (number_of_Z z)).
Proof. intros [_ H]. by constructor. Qed.

Lemma safe_int z : v_ok int z -> safe_integer (Some (JNumber (number_of_Z z))) = Some z.
Proof. intros [H _]. unfold safe_integer. rewrite integer_value_number_of_Z by done. by rewrite H. Qed.

Lemma sequence_ok z : v_ok int z -> 0 < z -> requireSequence (Some (JNumber (number_of_Z z))) = Ok z.
Proof. intros H Hz. unfold requireSequence. rewrite safe_int by done. by destruct (Z.leb_spec z 0); [lia|]. Qed.

Lemma timestamp_ok z : v_ok int z -> 0 <= z -> requireTimestamp (Some (JNumber (number_of_Z z))) = Ok z.
Proof. intros H Hz. unfold requireTimestamp. rewrite safe_int by done. by destruct (Z.ltb_spec z 0); [lia|]. Qed.

Lemma nullable_ok v field : requireNullableId (Some (v_to nullable_str v)) field = Ok v.
Proof. by destruct v. Qed.

(** ** Entries *)

Lemma entry_lookup e : o_ok entry_obj e ->
  let l := o_write entry_obj e in
  map_get (js "id") l = Some (JString (entry_id e)) /\ map_get (js "type") l = Some (JString (type_name (entry_type e))) /\
  map_get (js "parentId") l = Some (v_to nullable_str (entry_parentId e)) /\
  map_get (js "seq") l = Some (JNumber (number_of_Z (entry_seq e))) /\
  map_get (js "timestamp") l = Some (JNumber (number_of_Z (entry_timestamp e))) /\
  (entry_type e = T_custom -> exists s, map_get (js "customType") l = Some (JString s)) /\
  map_get (js "kind") l = None /\ map_get (js "lane") l = None.
Proof.
  intros Hok l. destruct Hok as [[Hid Hp] _]. cbn [fst snd] in *.
  pose proof (law_keys _ _ _ (payload_law number_to_string parse_number) _ Hp) as [_ Hkeys].
  assert (l = (js "id", JString (entry_id e)) :: o_write (payload_obj number_to_string parse_number) (entry_payload e) ++
            [(js "parentId", v_to nullable_str (entry_parentId e)); (js "seq", JNumber (number_of_Z (entry_seq e)));
             (js "timestamp", JNumber (number_of_Z (entry_timestamp e)))]) as ->
    by reflexivity.
  assert (forall k rest, bool_decide (k ∈ o_names (payload_obj number_to_string parse_number)) = false ->
    map_get k (o_write (payload_obj number_to_string parse_number) (entry_payload e) ++ rest) = map_get k rest) as Hskip.
  { intros k rest Hk%bool_decide_eq_false. rewrite map_get_app, map_get_None; [done|]. intros H. by apply Hk, Hkeys. }
  lookups. rewrite (Hskip (js "parentId")), (Hskip (js "seq")), (Hskip (js "timestamp")), (Hskip (js "kind")), (Hskip (js "lane"))
    by (vm_compute; reflexivity).
  lookups. split_and!; try done. intros Ht. unfold entry_type in Ht. destruct (entry_payload e); try done. by eexists.
Qed.

Lemma record_lookup r : o_ok record_obj r ->
  let l := o_write record_obj r in
  map_get (js "id") l = Some (JString (rec_id r)) /\ map_get (js "lane") l = Some (JString (rec_lane r)) /\
  map_get (js "type") l = Some (JString (record_name (payload_type (rec_payload r)))) /\
  map_get (js "seq") l = Some (JNumber (number_of_Z (rec_seq r))) /\
  map_get (js "timestamp") l = Some (JNumber (number_of_Z (rec_timestamp r))) /\
  (payload_type (rec_payload r) = RT_operation_started ->
     exists i, map_get (js "intent") l = Some (JObject (o_write (intent_obj number_to_string parse_number) i))) /\
  (payload_type (rec_payload r) = RT_operation_finished -> exists s, map_get (js "runId") l = Some (JString s)) /\
  map_get (js "kind") l = None.
Proof.
  intros Hok l. destruct Hok as [_ [Hp _]]. cbn [fst snd] in *.
  pose proof (law_keys _ _ _ (recordPayload_law number_to_string parse_number) _ Hp) as [_ Hkeys].
  assert (l = (js "id", JString (rec_id r)) :: (js "lane", JString (rec_lane r)) ::
            o_write (recordPayload_obj number_to_string parse_number) (rec_payload r) ++
            [(js "seq", JNumber (number_of_Z (rec_seq r))); (js "timestamp", JNumber (number_of_Z (rec_timestamp r)))]) as ->
    by reflexivity.
  assert (forall k rest, bool_decide (k ∈ o_names (recordPayload_obj number_to_string parse_number)) = false ->
    map_get k (o_write (recordPayload_obj number_to_string parse_number) (rec_payload r) ++ rest) = map_get k rest) as Hskip.
  { intros k rest Hk%bool_decide_eq_false. rewrite map_get_app, map_get_None; [done|]. intros H. by apply Hk, Hkeys. }
  lookups. rewrite (Hskip (js "seq")), (Hskip (js "timestamp")), (Hskip (js "kind")) by (vm_compute; reflexivity).
  lookups. split_and!; try done.
  - intros Ht. destruct (rec_payload r); try done. by eexists.
  - intros Ht. destruct (rec_payload r); try done. by eexists.
Qed.

(** The name of an intent is one of the operation kinds. *)
Lemma intent_known i : requireString (map_get (js "kind") (o_write (intent_obj number_to_string parse_number) i)) (js "operation kind") =
    Ok (intent_name i) /\ bool_decide (intent_name i ∈ OPERATION_KINDS) = true.
Proof. by destruct i. Qed.

(** The properties of an object with constant names. *)
Ltac props :=
  repeat first
    [ apply props_nil
    | apply props_cons;
        [apply name_check_ok; vm_compute; reflexivity|lookups; first [done|assumption]
        |first [assumption|by apply int_ok|constructor; first [assumption|apply units_check; vm_compute; reflexivity]]|] ].

Lemma mutation_json_ok m : mutation_ok m -> json_ok (JObject (mutation_object number_to_string parse_number m)).
Proof.
  intros Hm. apply object_ok. destruct m as [lane e|r|seq lane leafId|seq name|seq targetId label]; cbn [mutation_object].
  - destruct Hm as (Hlane & He & _ & _). pose proof (entry_lookup e He) as (_ & _ & _ & _ & _ & _ & Hk & Hl).
    pose proof (props_write entry_obj e (entry_law _ _) He) as Hp. destruct lane as [lane|]; cbn [app opt_str]; props; done.
  - destruct Hm as (Hr & _ & _). pose proof (record_lookup r Hr) as (_ & _ & _ & _ & _ & _ & _ & Hk).
    pose proof (props_write record_obj r (record_obj_law _ _) Hr) as Hp. props. done.
  - destruct Hm as (Hs & _ & Hl & Ho). destruct leafId as [leafId|]; cbn [v_to nullable_str]; props.
  - destruct Hm as (Hs & _ & Ho). destruct name as [name|]; cbn [app opt_str]; props.
  - destruct Hm as (Hs & _ & Ht & Ho). destruct label as [label|]; cbn [app opt_str]; props.
Qed.

Lemma header_json_ok h : header_ok h -> json_ok (JObject (header_object h)).
Proof.
  intros (H1 & H2 & _ & H3 & H4 & H5 & _ & H6 & H7). apply object_ok. unfold header_object.
  destruct (hd_parentSessionId h), (hd_legacyParentSessionPath h), (hd_metadata h); cbn [app opt_str]; props.
Qed.

(** ** Round trips *)

Lemma is_string_refl s : is_string (Some (JString s)) s = true.
Proof. unfold is_string. by rewrite bool_decide_eq_true_2. Qed.

Lemma is_string_other s s' : bool_decide (s = s') = false -> is_string (Some (JString s)) s' = false.
Proof. intros H%bool_decide_eq_false. unfold is_string. apply bool_decide_eq_false. congruence. Qed.

Lemma entry_types_known t : bool_decide (type_name t ∈ ENTRY_TYPES) = true.
Proof. destruct t; vm_compute; reflexivity. Qed.

Lemma record_types_known t : bool_decide (record_name t ∈ RECORD_TYPES) = true.
Proof. destruct t; vm_compute; reflexivity. Qed.

Lemma parse_entry lane e : mutation_ok (Mut_entry lane e) ->
  parseEntryMutation (mutation_object number_to_string parse_number (Mut_entry lane e)) (entry_seq e) =
    Ok (RM_entry lane (o_write entry_obj e)).
Proof.
  intros (Hlane & He & Hseq & Hts). pose proof (entry_lookup e He) as (H1 & H2 & H3 & H4 & H5 & H6 & H7 & H8).
  assert (v_ok int (entry_timestamp e)) as Ht by apply He.
  unfold parseEntryMutation, mutation_object.
  assert (forall k, bool_decide (k = js "kind") = false -> bool_decide (k = js "lane") = false ->
            map_get k ((js "kind", JString (js "entry")) :: opt_str (js "lane") lane ++ o_write entry_obj e) =
            map_get k (o_write entry_obj e)) as Hget.
  { intros k Hk Hk'. rewrite map_get_skip by done. destruct lane; cbn [app opt_str]; [by rewrite map_get_skip|done]. }
  rewrite (Hget (js "id")), (Hget (js "type")), (Hget (js "parentId")), (Hget (js "timestamp")), (Hget (js "customType"))
    by (vm_compute; reflexivity).
  rewrite H1, H2, H3, H5. rewrite map_delete_here.
  assert (map_delete (js "lane") (opt_str (js "lane") lane ++ o_write entry_obj e) = o_write entry_obj e) as ->.
  { destruct lane; cbn [app opt_str]; [by rewrite map_delete_here|]. apply map_delete_absent. by apply map_get_absent. }
  assert (map_get (js "lane") ((js "kind", JString (js "entry")) :: opt_str (js "lane") lane ++ o_write entry_obj e) =
          match lane with Some l => Some (JString l) | None => None end) as ->.
  { rewrite map_get_skip by (vm_compute; reflexivity). destruct lane; cbn [app opt_str]; [by rewrite map_get_here|done]. }
  assert (match match lane with Some l => Some (JString l) | None => None end with
          | Some v => let* lane := requireString (Some v) (js "lane") in Ok (Some lane)
          | None => Ok None
          end = Ok (E := JsonlDecodeError) lane) as -> by (by destruct lane).
  cbn [rbind requireString]. rewrite entry_types_known. cbn [rbind rguard]. rewrite nullable_ok. cbn [rbind].
  rewrite timestamp_ok by done. cbn [rbind].
  case_bool_decide as Hc; [|done]. destruct H6 as [s Hs].
  { unfold entry_type in *. by destruct (entry_payload e). }
  by rewrite Hs.
Qed.

Lemma parse_record r : mutation_ok (Mut_record r) ->
  parseRecordMutation (mutation_object number_to_string parse_number (Mut_record r)) (rec_seq r) = Ok (RM_record (o_write record_obj r)).
Proof.
  intros (Hr & Hseq & Hts). pose proof (record_lookup r Hr) as (H1 & H2 & H3 & H4 & H5 & H6 & H7 & H8).
  assert (v_ok int (rec_timestamp r)) as Ht by apply Hr.
  unfold parseRecordMutation, mutation_object. rewrite map_delete_here.
  assert (forall k, bool_decide (k = js "kind") = false ->
            map_get k ((js "kind", JString (js "record")) :: o_write record_obj r) = map_get k (o_write record_obj r)) as Hget.
  { intros k Hk. by rewrite map_get_skip. }
  rewrite (Hget (js "id")), (Hget (js "lane")), (Hget (js "type")), (Hget (js "timestamp")), (Hget (js "intent")), (Hget (js "runId"))
    by (vm_compute; reflexivity).
  rewrite H1, H2, H3, H5. cbn [rbind requireString]. rewrite record_types_known. cbn [rbind rguard].
  rewrite timestamp_ok by done. cbn [rbind]. case_bool_decide as Hs.
  - destruct H6 as [i Hi]; [by destruct (payload_type (rec_payload r))|]. rewrite Hi. destruct (intent_known i) as [Hk1 Hk2]. rewrite Hk1. cbn [rbind]. rewrite Hk2. cbn [rbind rguard].
    rewrite bool_decide_eq_false_2; [done|]. rewrite Hs. vm_compute. discriminate.
  - cbn [rbind]. case_bool_decide as Hf; [|done]. destruct H7 as [s Hrun]; [by destruct (payload_type (rec_payload r))|].
    by rewrite Hrun.
Qed.

(** A line reads back as the mutation it was written for. *)
Lemma line_roundtrip m : mutation_ok m -> exists raw,
  parseMutation parse_number (mutation_line number_to_string parse_number m) = Ok raw /\
  mutation_of_raw number_to_string parse_number raw = Some m.
Proof.
  intros Hm. pose proof (mutation_json_ok m Hm) as Hj. unfold parseMutation, mutation_line. rewrite (parse_ok _ Hj). cbn [rbind].
  destruct m as [lane e|r|seq lane leafId|seq name|seq targetId label].
  - exists (RM_entry lane (o_write entry_obj e)). destruct (entry_lookup e (proj1 (proj2 Hm))) as (_ & _ & _ & Hs & _).
    assert (map_get (js "seq") (mutation_object number_to_string parse_number (Mut_entry lane e)) = Some (JNumber (number_of_Z (entry_seq e)))) as ->.
    { cbn [mutation_object]. lookups. destruct lane; cbn [app opt_str]; lookups; done. }
    rewrite sequence_ok by (apply Hm || apply (proj1 (proj2 Hm))). cbn [rbind].
    assert (map_get (js "kind") (mutation_object number_to_string parse_number (Mut_entry lane e)) = Some (JString (js "entry"))) as -> by done.
    rewrite is_string_refl, parse_entry by done. split; [done|]. cbn [mutation_of_raw].
    rewrite (law_read _ _ _ (entry_law number_to_string parse_number) e); [done|apply Hm|done].
  - exists (RM_record (o_write record_obj r)). destruct (record_lookup r (proj1 Hm)) as (_ & _ & _ & Hs & _).
    assert (map_get (js "seq") (mutation_object number_to_string parse_number (Mut_record r)) = Some (JNumber (number_of_Z (rec_seq r)))) as ->.
    { cbn [mutation_object]. lookups. done. }
    rewrite sequence_ok by (apply Hm || apply (proj1 Hm)). cbn [rbind].
    assert (map_get (js "kind") (mutation_object number_to_string parse_number (Mut_record r)) = Some (JString (js "record"))) as -> by done.
    rewrite is_string_other, is_string_refl, parse_record by (done || (vm_compute; reflexivity)). split; [done|]. cbn [mutation_of_raw].
    rewrite (law_read _ _ _ (record_obj_law number_to_string parse_number) r); [done|apply Hm|done].
  - exists (RM_lane seq lane leafId). destruct Hm as (Hs & Hpos & _ & _). cbn [mutation_object]. lookups. rewrite sequence_ok by done.
    cbn [rbind]. rewrite !is_string_other, is_string_refl by (vm_compute; reflexivity). unfold parseLaneMutation. lookups.
    by destruct leafId.
  - exists (RM_name seq name). destruct Hm as (Hs & Hpos & _). cbn [mutation_object]. cbn [app opt_str]. lookups. rewrite sequence_ok by done.
    cbn [rbind]. rewrite !is_string_other, is_string_refl by (vm_compute; reflexivity). unfold parseFactMutation. lookups.
    rewrite is_string_refl. by destruct name.
  - exists (RM_label seq targetId label). destruct Hm as (Hs & Hpos & _ & _). cbn [mutation_object]. cbn [app opt_str]. lookups.
    rewrite sequence_ok by done. cbn [rbind]. rewrite !is_string_other, is_string_refl by (vm_compute; reflexivity).
    unfold parseFactMutation. lookups. rewrite is_string_other, is_string_refl by (vm_compute; reflexivity). by destruct label.
Qed.

Definition header_line (h : JsonlV4Header) : jstring := json_stringify number_to_string (JObject (header_object h)).

Lemma header_roundtrip h : header_ok h -> decodeHeader parse_number (header_line h) = Ok h.
Proof.
  intros Hh. pose proof (header_json_ok h Hh) as Hj. unfold decodeHeader, header_line. rewrite (parse_ok _ Hj). cbn [rbind].
  destruct Hh as (_ & Hc & Hpos & _ & _ & _ & Hboth & H4 & _). unfold header_object. cbn [app]. lookups.
  rewrite is_string_refl. cbn [rguard rbind].
  assert (integer_value (number_of_Z 4) = Some 4) as -> by (apply integer_value_number_of_Z; apply H4).
  rewrite bool_decide_eq_true_2 by done. cbn [rguard rbind]. destruct h as [id createdAt cwd parent legacy metadata]; cbn [hd_id
    hd_createdAt hd_cwd hd_parentSessionId hd_legacyParentSessionPath hd_metadata] in *.
  destruct parent as [parent|], legacy as [legacy|]; [destruct Hboth; by split|..]; destruct metadata as [metadata|];
    cbn [opt_str app]; lookups; cbn [optional_string rbind map_get requireString]; rewrite timestamp_ok by done; done.
Qed.

(** Lines have no newline and start with a brace. *)
Lemma object_line l : exists t, json_stringify number_to_string (JObject l) = 123 :: t.
Proof. by eexists. Qed.

Lemma mutation_line_printable m : mutation_ok m -> printable (mutation_line number_to_string parse_number m).
Proof. intros Hm. eapply stringify_printable. by apply mutation_json_ok. Qed.

Lemma header_line_printable h : header_ok h -> printable (header_line h).
Proof. intros Hh. eapply stringify_printable. by apply header_json_ok. Qed.
End Codec.
