(* ===== verification/JsonlProperties.v ===== *)
(** * JSONL files survive crashes

    The contract of the file system, and what the storage promises over it:
    every write is the in-memory write followed by one appended line, and a
    file that was cut anywhere in its last line loads to the state of the
    acknowledged writes.  Last, a file system in memory that keeps the contract,
    whose appends can be cut short. *)

From stdpp Require Import base list gmap strings pretty.
From Stdlib Require Import ZArith Lia.
From S2P Require Import Prelude SessionTypes SessionState SessionInvariant SessionFork SessionStorage SessionContext Utf8 Numbers Cbor CborCodec.
From S2P Require Import CborProperties Truncate TruncateProperties Compaction Json JsonProperties JsonViews SessionJson Jsonl JsonlCodec.

Open Scope Z_scope.

(** ** The file system's contract *)

(** What a write of [t] that stopped early leaves behind: a prefix of it, and a
    replacement character for a multi-byte character that was cut. *)
Definition torn (t x : jstring) : Prop :=
  exists t1 t2 n, t = t1 ++ t2 /\ x = t1 ++ replicate n 0xFFFD /\ (n <> 0%nat -> exists u r, t2 = u :: r /\ 128 <= u).

(** [file w p] is the text of the file [p].  A failed append may have written a
    part; a failed rename changed nothing. *)
Class FileSystemSpec (W : Type) `{JsonlFileSystem W} := {
  file : W -> jstring -> option jstring;
  fs_read_spec : forall p w w' r, fs_readTextFile p w = (w', r) ->
    (forall q, file w' q = file w q) /\ (forall c, r = Ok c -> file w p = Some c);
  fs_info_spec : forall p w w' r, fs_fileInfo p w = (w', r) -> forall q, file w' q = file w q;
  fs_write_spec : forall p t w w' r, fs_writeFile p t w = (w', r) ->
    (forall q, q <> p -> file w' q = file w q) /\ (r = Ok tt -> file w' p = Some t);
  fs_append_frame : forall p t w w' r, fs_appendFile p t w = (w', r) -> forall q, q <> p -> file w' q = file w q;
  fs_append_spec : forall p t old w w' r, fs_appendFile p t w = (w', r) -> file w p = Some old ->
    match r with Ok _ => file w' p = Some (old ++ t) | Err _ => exists x, torn t x /\ file w' p = Some (old ++ x) end;
  fs_rename_spec : forall p q w w' r, fs_renameFile p q w = (w', r) -> p <> q ->
    match r with
    | Ok _ => file w' q = file w p /\ forall x, x <> p -> x <> q -> file w' x = file w x
    | Err _ => forall x, file w' x = file w x
    end;
  fs_remove_spec : forall p w w' r, fs_remove p w = (w', r) -> forall q, q <> p -> file w' q = file w q }.

(** ** Computations *)

Definition file_error (e : SessionError) : Prop := err_code e = C_not_found \/ err_code e = C_storage.

(** The file system reported an error. *)
Definition file_failure (e : JsonlFailure) : Prop := match e with JF_error err => file_error err | JF_untyped _ => False end.

Lemma fileResult_inv {W A} (op : W -> W * Result FileError A) message w w' r : fileResult op message w = (w', r) ->
  (exists a, op w = (w', Ok a) /\ r = Ok a) \/ (exists e f, op w = (w', Err e) /\ r = Err f /\ file_failure f).
Proof.
  unfold fileResult. destruct (op w) as [w1 [a|e]]; intros [= <- <-]; [left; by exists a|right].
  eexists e, _. split; [done|]. split; [done|]. unfold file_failure, file_error. simpl. case_bool_decide; auto.
Qed.

Lemma io_bind_lift {W A B} (r : Result SessionError A) (k : A -> IO W B) w :
  io_bind (io_lift r) k w = match r with Ok a => k a w | Err e => (w, Err (JF_error e)) end.
Proof. by destruct r. Qed.

Lemma io_bind_assoc {W A B C} (m : IO W A) (f : A -> IO W B) (g : B -> IO W C) w :
  io_bind (io_bind m f) g w = io_bind m (fun a => io_bind (f a) g) w.
Proof. unfold io_bind. by destruct (m w) as [w1 [a|e]]. Qed.

Lemma io_bind_inv {W A B} (m : IO W A) (k : A -> IO W B) w w' r : io_bind m k w = (w', r) ->
  exists w1 r1, m w = (w1, r1) /\ match r1 with Ok a => k a w1 = (w', r) | Err e => w' = w1 /\ r = Err e end.
Proof. unfold io_bind. destruct (m w) as [w1 [a|e]]; intros H; exists w1; eexists; (split; [done|]); [done|]. by injection H as <- <-. Qed.

(** ** Lines *)

Lemma physical_line l s : printable l -> JsonlStorage.physical_lines (l ++ newline :: s) = l :: JsonlStorage.physical_lines s.
Proof.
  intros Hl. unfold JsonlStorage.physical_lines. rewrite split_line by done. pose proof (split_lines_nonempty s) as Hne.
  destruct (split_lines s) as [|x xs]; [done|]. cbn [last length].
  change (match xs with [] => Some x | _ :: _ => last xs end) with (last (x :: xs)).
  destruct (last (x :: xs)) as [[|u t]|]; [|done|done]. simpl. by rewrite !Nat.sub_0_r.
Qed.

Lemma physical_rest x : printable x -> JsonlStorage.physical_lines x = match x with [] => [] | _ => [x] end.
Proof. intros H. unfold JsonlStorage.physical_lines. rewrite split_one_line by done. by destruct x. Qed.

Lemma join_newline l ls : join_lines (l :: ls) ++ [newline] = mjoin (map (fun x => x ++ [newline]) (l :: ls)).
Proof.
  revert l. induction ls as [|l' ls IH]; intros l; [simpl; by rewrite app_nil_r|].
  change (join_lines (l :: l' :: ls)) with (l ++ newline :: join_lines (l' :: ls)). rewrite <- app_assoc, <- app_comm_cons, IH.
  simpl. by rewrite <- !app_assoc.
Qed.

Section Properties.
Context {W : Type} `{FileSystemSpec W}.
Context (number_to_string : number -> jstring) (parse_number : jstring -> option number).
Context (parse_number_nil : parse_number [] = None).
Abbreviation mutation_ok := (mutation_ok number_to_string parse_number).
Abbreviation header_ok := (header_ok number_to_string parse_number).
Abbreviation line := (mutation_line number_to_string parse_number).
Abbreviation encode := (encodeMutation number_to_string parse_number).
Abbreviation load := (JsonlStorage.load number_to_string parse_number).
Abbreviation commit := (JsonlStorage.commit number_to_string parse_number).
Abbreviation replay_lines := (JsonlStorage.replay_lines number_to_string parse_number).

(** The text of a file with header [h] and mutations [ms]. *)
Definition file_text (h : JsonlV4Header) (ms : list SessionMutation) : jstring := encodeHeader number_to_string h ++ mjoin (map encode ms).

Lemma file_text_snoc h ms m : file_text h (ms ++ [m]) = file_text h ms ++ encode m.
Proof. unfold file_text. rewrite map_app, join_app. simpl. by rewrite app_nil_r, app_assoc. Qed.

(** What follows the complete lines, and the mutation it still holds. *)
Inductive remains : jstring -> list SessionMutation -> Prop :=
| rm_clean : remains [] []
| rm_torn x : x <> [] -> printable x -> json_parse parse_number x = None -> remains x []
| rm_line m : mutation_ok m -> remains (line m) [m].

Lemma remains_printable x extra : remains x extra -> printable x.
Proof. destruct 1; [constructor|done|by eapply mutation_line_printable]. Qed.

Lemma replacement_only n : json_parse parse_number (replicate (S n) 0xFFFD) = None.
Proof.
  unfold json_parse. rewrite Nat.add_comm. cbn [Nat.add parse_value replicate].
  change (skip_space (0xFFFD :: replicate n 0xFFFD)) with (0xFFFD :: replicate n 0xFFFD). cbv iota. simpl Z.eqb. cbv iota.
  change (take_numeric (0xFFFD :: replicate n 0xFFFD)) with (@nil Z, 0xFFFD :: replicate n 0xFFFD). cbv iota beta. by rewrite parse_number_nil.
Qed.

(** A line cut anywhere is nothing, a torn line or the whole line. *)
Lemma torn_remains m x : mutation_ok m -> torn (encode m) x ->
  x = encode m \/ (remains x [] \/ x = line m).
Proof.
  intros Hm (t1 & t2 & n & Ht & -> & Hn). pose proof (mutation_line_printable _ _ m Hm) as Hp.
  pose proof (mutation_json_ok _ _ m Hm) as Hj.
  unfold encodeMutation in *. destruct t2 as [|last_ t2 _] using rev_ind.
  - assert (n = 0%nat) as -> by (destruct n; [done|]; destruct (Hn ltac:(done)) as (? & ? & ? & _); done).
    left. by rewrite !app_nil_r in *.
  - rewrite app_assoc in Ht. apply app_inj_tail in Ht as [Ht <-]. right.
    assert (printable t1) as Hp1 by (rewrite Ht in Hp; by apply Forall_app in Hp as [? _]).
    destruct n as [|n].
    + rewrite app_nil_r. destruct t2 as [|u t2]; [right; by rewrite app_nil_r in Ht|left].
      destruct t1 as [|v t1]; [constructor|]. apply rm_torn; [done|done|].
      by eapply object_prefix_invalid; [exact parse_number_nil|exact Hj|exact Ht|].
    + left. apply rm_torn.
      * by destruct t1.
      * apply Forall_app. split; [done|]. apply Forall_replicate. done.
      * destruct t1 as [|v t1]; [apply replacement_only|]. by eapply replacement_invalid.
Qed.

Lemma file_lines h ms x : header_ok h -> Forall mutation_ok ms -> printable x ->
  JsonlStorage.physical_lines (file_text h ms ++ x) =
  header_line number_to_string h :: map line ms ++ match x with [] => [] | _ => [x] end.
Proof.
  intros Hh Hms Hx. unfold file_text, encodeHeader. fold (header_line number_to_string h).
  rewrite <- !app_assoc. change ([newline] ++ ?s) with (newline :: s). rewrite physical_line by (by eapply header_line_printable).
  f_equal. induction Hms as [|m ms Hm _ IH]; [by apply physical_rest|].
  change (mjoin (map encode (m :: ms))) with (encode m ++ mjoin (map encode ms)). cbn [map app].
  unfold encodeMutation at 1. rewrite <- !app_assoc. change ([newline] ++ ?s) with (newline :: s).
  rewrite physical_line by (by eapply mutation_line_printable). by rewrite IH.
Qed.

(** Lines that were written replay. *)
Lemma replay_written path tail ms : Forall mutation_ok ms -> forall before s s', replay s ms = Ok s' ->
  replay_lines path before (map line ms ++ tail) s = replay_lines path (before ++ map line ms) tail s'.
Proof.
  induction 1 as [|m ms Hm _ IH]; intros before s s' Hr; simpl in *.
  - injection Hr as <-. by rewrite app_nil_r.
  - unfold replay in Hr. simpl in Hr. apply rbind_Ok_inv in Hr as (s1 & H1 & Hr).
    destruct (line_roundtrip _ _ m Hm) as (raw & -> & ->). rewrite H1. rewrite (IH _ _ _ Hr). by rewrite <- app_assoc.
Qed.

Lemma syntax_error x : json_parse parse_number x = None ->
  parseMutation parse_number x = Err {| de_kind := DK_syntax; de_message := js "is not valid JSON" |}.
Proof. intros Hx. unfold parseMutation, parseObject. by rewrite Hx. Qed.

Lemma header_lines_text h ms :
  join_lines (header_line number_to_string h :: map line ms) ++ [newline] = file_text h ms.
Proof. rewrite join_newline. unfold file_text, encodeHeader, encodeMutation. simpl. by rewrite map_map. Qed.

Lemma replay_file path h ms x extra s : Forall mutation_ok ms -> remains x extra -> replay init_state (ms ++ extra) = Ok s ->
  replay_lines path [header_line number_to_string h] (map line ms ++ match x with [] => [] | _ => [x] end) init_state =
  Ok (s, match extra, x with [], _ :: _ => Some (file_text h ms) | _, _ => None end).
Proof.
  intros Hms Hx Hr. destruct Hx as [|x Hne Hp Hj|m Hm].
  - rewrite app_nil_r in Hr. by rewrite (replay_written _ _ _ Hms _ _ _ Hr).
  - rewrite app_nil_r in Hr. rewrite (replay_written _ _ _ Hms _ _ _ Hr). destruct x as [|u x]; [done|].
    cbn [JsonlStorage.replay_lines]. rewrite syntax_error by done. cbn [de_kind]. by rewrite <- header_lines_text.
  - unfold replay in Hr. rewrite rfold_app in Hr. apply rbind_Ok_inv in Hr as (s1 & H1 & Hr).
    rewrite (replay_written _ _ _ Hms _ _ _ H1). cbn [rfold] in Hr. apply rbind_Ok_inv in Hr as (s2 & H2 & Hr). injection Hr as ->.
    destruct (object_line number_to_string (mutation_object number_to_string parse_number m)) as [t Ht].
    destruct (line_roundtrip _ _ m Hm) as (raw & Hraw & Hof). unfold mutation_line in *. rewrite Ht in *.
    cbn [JsonlStorage.replay_lines]. by rewrite Hraw, Hof, H2.
Qed.

(** ** Atomic publication *)

Lemma temp_path_ne path : JsonlStorage.temp_path path <> path.
Proof. intros E. apply (f_equal length) in E. unfold JsonlStorage.temp_path in E. rewrite length_app in E. simpl in E. lia. Qed.

(** The destination is untouched unless the staged file was renamed onto it. *)
Lemma publish_spec path (populate : jstring -> IO W unit) w w' r staged :
  (forall w1 r1, populate (JsonlStorage.temp_path path) w = (w1, r1) ->
     file w1 path = file w path /\ (r1 = Ok tt -> file w1 (JsonlStorage.temp_path path) = Some staged) /\
     (forall e, r1 = Err e -> file_failure e)) ->
  JsonlStorage.publishFileAtomically path populate w = (w', r) ->
  match r with
  | Ok _ => file w' path = Some staged
  | Err e => file w' path = file w path /\ file_failure e
  end.
Proof.
  intros Hpop. unfold JsonlStorage.publishFileAtomically, io_rescue.
  destruct (io_bind _ _ w) as [w1 r1] eqn:Hb. apply io_bind_inv in Hb as (w2 & r2 & H2 & Hk).
  destruct (Hpop _ _ H2) as (Hsame & Hok & Herr).
  assert (forall e, (fs_remove (JsonlStorage.temp_path path) w1) = e -> file e.1 path = file w1 path) as Hrm.
  { intros [w3 r3] Hr. eapply fs_remove_spec; [exact Hr|]. symmetry. apply temp_path_ne. }
  destruct r2 as [[]|e].
  - apply fileResult_inv in Hk as [([] & Hren & ->)|(e & err & Hren & -> & He)]; intros [= <- <-].
    + apply fs_rename_spec in Hren as [Hren _]; [|apply temp_path_ne]. rewrite Hren. by apply Hok.
    + apply fs_rename_spec in Hren; [|apply temp_path_ne]. simpl in Hren. by rewrite (Hrm _ eq_refl), Hren, Hsame.
  - destruct Hk as [-> ->]. intros [= <- <-]. rewrite (Hrm _ eq_refl), Hsame. split; [done|]. by apply Herr.
Qed.

(** ** Loading *)

Lemma file_text_end h ms : last (file_text h ms) = Some newline.
Proof.
  destruct ms as [|m ms _] using rev_ind.
  - unfold file_text, encodeHeader. simpl mjoin. by rewrite app_nil_r, last_snoc.
  - rewrite file_text_snoc. unfold encodeMutation. by rewrite app_assoc, last_snoc.
Qed.

Lemma torn_newline x : torn [newline] x -> x = [] \/ x = [newline].
Proof.
  intros (t1 & t2 & n & Ht & -> & Hn). destruct t1 as [|u t1].
  - destruct n; [by left|]. destruct (Hn ltac:(done)) as (u & r & -> & Hu). injection Ht as <- _. unfold newline in Hu. lia.
  - injection Ht as <- Ht. symmetry in Ht. apply app_eq_nil in Ht as [-> ->].
    destruct n; [by right|]. destruct (Hn ltac:(done)) as (? & ? & ? & _). done.
Qed.

(** What [load] makes of a file: the state of its complete mutations and a
    file that holds exactly them; only the file system can make it fail, and
    then nothing is lost. *)
Definition recovered (h : JsonlV4Header) (ms : list SessionMutation) (path : jstring) (old : option jstring) (w : W)
    (r : Result JsonlFailure JsonlSessionStorage) : Prop :=
  match r with
  | Ok st =>
      replay init_state ms = Ok (jl_state st) /\ file w path = Some (file_text h ms) /\
      exists modifiedAt, jl_metadata st = metadataFromHeader h path modifiedAt
  | Err e => file_failure e /\ (file w path = old \/ file w path = Some (file_text h ms))
  end.

#[local] Opaque json_stringify header_object mutation_object decodeHeader js.

Lemma load_spec h ms x extra s path w w' r :
  header_ok h -> Forall mutation_ok ms -> remains x extra -> replay init_state (ms ++ extra) = Ok s ->
  file w path = Some (file_text h ms ++ x) -> load path w = (w', r) ->
  recovered h (ms ++ extra) path (file w path) w' r.
Proof.
  intros Hh Hms Hx Hr Hfile Hload. unfold JsonlStorage.load in Hload. apply io_bind_inv in Hload as (w1 & r1 & Hread & Hk).
  apply fileResult_inv in Hread as [(content & Hread & ->)|(e & err & Hread & -> & He)].
  2:{ destruct Hk as [-> ->]. apply fs_read_spec in Hread as [Hs _]. simpl. rewrite Hs. split; [done|by left]. }
  apply fs_read_spec in Hread as [Hs1 Hc]. assert (content = file_text h ms ++ x) as -> by (specialize (Hc content eq_refl); congruence).
  rewrite (file_lines h ms x Hh Hms (remains_printable _ _ Hx)) in Hk.
  destruct (object_line number_to_string (header_object h)) as [t Ht]. unfold header_line in Hk. rewrite Ht in Hk. rewrite <- Ht in Hk.
  change (json_stringify number_to_string (JObject (header_object h))) with (header_line number_to_string h) in Hk.
  rewrite (header_roundtrip _ _ h Hh) in Hk. apply io_bind_inv in Hk as (w2 & r2 & Hinfo & Hk).
  apply fileResult_inv in Hinfo as [(info & Hinfo & ->)|(e & err & Hinfo & -> & He)].
  2:{ destruct Hk as [-> ->]. pose proof (fs_info_spec _ _ _ _ Hinfo) as Hs2. simpl. rewrite Hs2, Hs1. split; [done|by left]. }
  pose proof (fs_info_spec _ _ _ _ Hinfo) as Hs2.
  rewrite (replay_file path h ms x extra s Hms Hx Hr) in Hk.
  assert (file w2 path = Some (file_text h ms ++ x)) as Hf2 by (by rewrite Hs2, Hs1).
  rewrite Hfile. clear Hs1 Hs2 Hinfo Hc Hfile.
  assert (header_line number_to_string h <> []) as Hhead by (unfold header_line; by rewrite Ht). clear Ht t.
  set (st := {| jl_metadata := metadataFromHeader h path (fi_mtimeMs info); jl_state := s |}) in *.
  assert (forall w3, file w3 path = Some (file_text h (ms ++ extra)) -> recovered h (ms ++ extra) path (Some (file_text h ms ++ x)) w3 (Ok st))
    as Hdone by (intros w3 H3; split; [done|split; [done|by eexists]]).
  destruct Hx as [|x Hne Hp Hj|m Hm].
  - cbn iota in Hk. rewrite !app_nil_r in *. rewrite bool_decide_eq_true_2 in Hk by apply file_text_end.
    apply io_bind_inv in Hk as (w3 & r3 & [= <- <-] & [= <- <-]). by apply Hdone.
  - rewrite app_nil_r in *. destruct x as [|u x]; [done|]. cbn iota in Hk. apply io_bind_inv in Hk as (w3 & r3 & Hpub & Hk).
    apply (publish_spec _ _ _ _ _ (file_text h ms)) in Hpub.
    + destruct r3 as [[]|e]; [injection Hk as <- <-; by apply Hdone|]. destruct Hk as [-> ->]. destruct Hpub as [Hf He].
      split; [done|left; by rewrite Hf].
    + intros w4 r4 Hw. apply fileResult_inv in Hw as [([] & Hw & ->)|(e & err & Hw & -> & He)];
        apply fs_write_spec in Hw as [Hsame Hok]; (split; [apply Hsame; apply not_eq_sym, temp_path_ne|]); (split; [first [by intros [=]|intros _; by apply Hok]|]); [done|].
      by intros e' [= <-].
  - assert (file_text h ms ++ line m ++ [newline] = file_text h (ms ++ [m])) as Htext by (by rewrite file_text_snoc).
    destruct (object_line number_to_string (mutation_object number_to_string parse_number m)) as [t Ht].
    cbn iota in Hk. rewrite bool_decide_eq_false_2 in Hk.
    2:{ pose proof (mutation_line_printable _ _ m Hm) as Hp. unfold mutation_line in *. rewrite Ht in *. intros Hl.
        rewrite last_app in Hl. destruct (last (123 :: t)) as [u|] eqn:El; [|by apply last_None in El]. injection Hl as ->.
        apply last_Some_elem_of in El. unfold printable in Hp. rewrite Forall_forall in Hp. by apply (Hp _ El). }
    apply io_bind_inv in Hk as (w3 & r3 & Happ & Hk).
    apply fileResult_inv in Happ as [([] & Happ & ->)|(e & err & Happ & -> & He)];
      apply (fs_append_spec _ _ _ _ _ _ Happ) in Hf2; rewrite <- app_assoc in Hf2 || idtac.
    + injection Hk as <- <-. apply Hdone. by rewrite <- Htext.
    + destruct Hk as [-> ->]. destruct Hf2 as (x & Htorn & Hf2). split; [done|].
      destruct (torn_newline x Htorn) as [-> | ->]; rewrite Hf2; [left; by rewrite app_nil_r|right].
      by rewrite <- Htext, <- app_assoc.
Qed.
End Properties.

(** ** A file system in memory *)

(** [mw_cuts] says for each coming append whether it fails, and after how many
    code units. *)
Record MemoryFiles := { mw_files : jstring -> option jstring; mw_cuts : list (option nat) }.

Definition put (p : jstring) (t : option jstring) (f : jstring -> option jstring) : jstring -> option jstring :=
  fun q => if decide (q = p) then t else f q.

Definition with_files (w : MemoryFiles) (f : jstring -> option jstring) : MemoryFiles := {| mw_files := f; mw_cuts := mw_cuts w |}.

Definition not_found {A} : Result FileError A := Err {| fe_code := FE_not_found; fe_message := js "no such file" |}.

Definition mem_append (p t : jstring) (w : MemoryFiles) : MemoryFiles * Result FileError unit :=
  let old := default [] (mw_files w p) in
  match mw_cuts w with
  | Some n :: cuts =>
      ({| mw_files := put p (Some (old ++ take n t)) (mw_files w); mw_cuts := cuts |},
       Err {| fe_code := FE_unknown; fe_message := js "no space left on device" |})
  | cuts => ({| mw_files := put p (Some (old ++ t)) (mw_files w); mw_cuts := tail cuts |}, Ok tt)
  end.

Definition mem_info (p : jstring) (w : MemoryFiles) : MemoryFiles * Result FileError FileInfo :=
  (w, match mw_files w p with
      | Some _ => Ok {| fi_name := p; fi_path := p; fi_kind := FK_file; fi_mtimeMs := 0 |}
      | None => not_found
      end).

#[export] Instance memory_files : JsonlFileSystem MemoryFiles := {
  fs_absolutePath p w := (w, Ok p);
  fs_joinPath ps w := (w, Ok (mjoin ps));
  fs_readTextFile p w := (w, match mw_files w p with Some t => Ok t | None => not_found end);
  fs_readTextLines p n w := (w, match mw_files w p with Some t => Ok (take (Z.to_nat n) (split_lines t)) | None => not_found end);
  fs_writeFile p t w := (with_files w (put p (Some t) (mw_files w)), Ok tt);
  fs_appendFile := mem_append;
  fs_renameFile p q w := (with_files w (put p None (put q (mw_files w p) (mw_files w))), Ok tt);
  fs_fileInfo := mem_info;
  fs_listDir p w := (w, not_found);
  fs_exists p w := (w, Ok (bool_decide (is_Some (mw_files w p))));
  fs_createDir p w := (w, Ok tt);
  fs_remove p w := (with_files w (put p None (mw_files w)), Ok tt) }.

Lemma put_here p t f : put p t f p = t.
Proof. unfold put. by rewrite decide_True. Qed.

Lemma put_other p q t f : q <> p -> put p t f q = f q.
Proof. intros. unfold put. by rewrite decide_False. Qed.

Lemma torn_take n t : torn t (take n t).
Proof. exists (take n t), (drop n t), 0%nat. split; [by rewrite take_drop|]. split; [by rewrite app_nil_r|done]. Qed.

#[export] Instance memory_files_spec : FileSystemSpec MemoryFiles.
Proof.
  refine {| file := mw_files |}; cbn [fs_readTextFile fs_fileInfo fs_writeFile fs_appendFile fs_renameFile fs_remove memory_files].
  - intros p w w' r [= <- <-]. split; [done|]. intros c. by destruct (mw_files w p) as [t|]; intros [= ->].
  - by intros p w w' r [= <- <-].
  - intros p t w w' r [= <- <-]. split; [intros q Hq; by apply put_other|intros _; apply put_here].
  - unfold mem_append. intros p t w w' r Ha q Hq. destruct (mw_cuts w) as [|[n|] cuts]; injection Ha as <- <-; by apply put_other.
  - unfold mem_append. intros p t old w w' r Ha Ho. rewrite Ho in Ha. simpl in Ha.
    destruct (mw_cuts w) as [|[n|] cuts]; injection Ha as <- <-; cbn [mw_files]; rewrite put_here; [done| |done].
    exists (take n t). split; [apply torn_take|done].
  - intros p q w w' r [= <- <-] Hpq. split; [|intros x Hp Hq]; simpl; rewrite put_other by done; [apply put_here|by apply put_other].
  - intros p w w' r [= <- <-] q Hq. by apply put_other.
Defined.

(** ** Whole numbers as text *)

Fixpoint parse_digits (acc : Z) (s : jstring) : option Z :=
  match s with
  | [] => Some acc
  | u :: r => if (48 <=? u) && (u <=? 57) then parse_digits (acc * 10 + (u - 48)) r else None
  end.

Definition example_parse_number (s : jstring) : option number :=
  match s with [] => None | _ => number_of_Z <$> parse_digits 0 s end.

Definition example_number_to_string (n : number) : jstring :=
  match integer_value n with Some z => js_of_Z z | None => js "0" end.
