(* ===== verification/JsonlRecovery.v ===== *)
(** * JSONL storage refines the in-memory storage

    Every write is the in-memory write and one appended line; a write that was
    cut anywhere is either there or not after the next [load]; a fork appears
    whole or not at all. *)

From stdpp Require Import base list gmap strings pretty.
From Stdlib Require Import ZArith Lia.
From S2P Require Import Prelude SessionTypes SessionState SessionInvariant SessionFork SessionStorage Numbers Utf8.
From S2P Require Import Cbor CborCodec CborProperties SessionContext Compaction Truncate TruncateProperties Json JsonProperties JsonViews SessionJson.
From S2P Require Import Jsonl JsonlCodec JsonlProperties.

Open Scope Z_scope.

(** ** The mutation of a write *)

(** The checks of a write and the mutation it then commits. *)
Definition op_mutation (s : SessionState) (op : StorageOp) : Result SessionError SessionMutation :=
  match op with
  | Op_createLane lane at_ =>
      validateNewLane s lane ;;; validateTarget s at_ ;;; Ok (Mut_lane (nextSequence s) lane at_)
  | Op_moveLane lane to =>
      requireLane s lane ;;; validateTarget s to ;;; Ok (Mut_lane (nextSequence s) lane to)
  | Op_appendEntry now e lane =>
      let* parentId := requireLane s lane in
      validateUnusedId s (pe_id e) ;;;
      Ok (Mut_entry (Some lane) {| entry_id := pe_id e; entry_seq := nextSequence s; entry_parentId := parentId;
                                   entry_timestamp := now; entry_payload := pe_payload e |})
  | Op_appendRecord now r =>
      requireLane s (nr_lane r) ;;;
      validateUnusedId s (nr_id r) ;;;
      let* open := findOpenOperations s (nr_lane r) (Some 1) in
      match nr_payload r, head open with
      | P_operation_started _ _, Some current =>
          Err (session_error C_storage (js "Lane " ++ nr_lane r ++ js " already has an open operation " ++ os_id current))
      | _, _ => Ok tt
      end ;;;
      Ok (Mut_record {| rec_id := nr_id r; rec_seq := nextSequence s; rec_lane := nr_lane r; rec_timestamp := now;
                        rec_payload := nr_payload r |})
  | Op_setName name => Ok (Mut_name (nextSequence s) name)
  | Op_setLabel id label => validateTarget s (Some id) ;;; Ok (Mut_label (nextSequence s) id label)
  end.

Lemma validateTarget_entry s id u : validateTarget s (Some id) = Ok u -> has_entry s id = true.
Proof. simpl. by destruct (has_entry s id). Qed.

#[local] Opaque applyMutation validateTarget js.

(** Splits the next check of a write. *)
Ltac check :=
  match goal with
  | |- context [rbind ?r _] =>
      lazymatch r with Ok _ => fail | Err _ => fail | rbind _ _ => fail | applyMutation _ _ => fail | _ => destruct r as [?|?]; cbn [rbind] end
  end.

Lemma run_op_memory s op : run_op s op = let* m := op_mutation s op in applyMutation s m.
Proof.
  destruct op; cbn [run_op op_mutation]; unfold createLane, moveLane, appendEntry, appendRecord, setName, setLabel; repeat check; try done;
    by destruct (applyMutation _ _).
Qed.

(** The checks make [applyMutation] accept it. *)
Lemma lane_accepted s lane leaf m :
  (validateTarget s leaf ;;; Ok (Mut_lane (nextSequence s) lane leaf)) = Ok m -> exists s', applyMutation s m = Ok s'.
Proof.
  destruct (validateTarget s leaf) as [[]|] eqn:Ht; [|done]. intros [= <-]. eexists. by apply lane_guarded.
Qed.

Lemma op_accepted s op m : state_wf s -> op_mutation s op = Ok m -> exists s', applyMutation s m = Ok s'.
Proof.
  intros Hwf. destruct op as [lane at_|lane to|now e lane|now r|name|id label]; cbn [op_mutation].
  - destruct (validateNewLane s lane); [|done]. apply lane_accepted.
  - destruct (requireLane s lane); [|done]. apply lane_accepted.
  - unfold requireLane, validateUnusedId. destruct (map_get lane (st_lanes s)) as [leaf|] eqn:El; [|done]. cbn [rbind].
    case_bool_decide; [done|]. intros [= <-]. eexists. by apply (entry_guarded s lane leaf).
  - unfold requireLane, validateUnusedId. destruct (map_get (nr_lane r) (st_lanes s)) as [leaf|] eqn:El; [|done]. cbn [rbind].
    case_bool_decide; [done|]. cbn [rbind]. destruct (findOpenOperations _ _ _) as [open|]; [|done]. cbn [rbind].
    destruct (match nr_payload r with P_operation_started _ _ => _ | _ => _ end); [|done]. intros [= <-].
    eexists. apply record_guarded; [|done|done]. unfold map_has. simpl. by rewrite El.
  - intros [= <-]. eexists. apply name_guarded.
  - destruct (validateTarget s (Some id)) as [[]|] eqn:Ht; [|done]. intros [= <-]. eexists.
    by eapply label_guarded, validateTarget_entry.
Qed.

Section Storage.
Context {W : Type} `{FileSystemSpec W}.
Context (number_to_string : number -> jstring) (parse_number : jstring -> option number).
Abbreviation mutation_ok := (mutation_ok number_to_string parse_number).
Abbreviation header_ok := (header_ok number_to_string parse_number).
Abbreviation encode := (encodeMutation number_to_string parse_number).
Abbreviation load := (JsonlStorage.load number_to_string parse_number).
Abbreviation commit := (JsonlStorage.commit number_to_string parse_number).
Abbreviation jsonl_run_op := (JsonlStorage.run_op number_to_string parse_number).
Abbreviation file_text := (file_text number_to_string parse_number).
Abbreviation recovered := (recovered number_to_string parse_number).

(** ** The representation invariant *)

Definition storage_path (st : JsonlSessionStorage) : jstring := jm_path (jl_metadata st).

(** The file of a storage holds a header and mutations that replay to the
    storage's state. *)
Record synced (h : JsonlV4Header) (ms : list SessionMutation) (st : JsonlSessionStorage) (w : W) : Prop := {
  sync_header : header_ok h;
  sync_mutations : Forall mutation_ok ms;
  sync_state : replay init_state ms = Ok (jl_state st);
  sync_file : file w (storage_path st) = Some (file_text h ms) }.

Lemma synced_wf h ms st w : synced h ms st w -> state_wf (jl_state st).
Proof. intros [_ _ Hr _]. eapply replay_wf; [|exact Hr]. apply init_state_wf. Qed.

Lemma replay_snoc ms s m : replay init_state ms = Ok s -> replay init_state (ms ++ [m]) = applyMutation s m.
Proof. intros Hr. unfold replay in *. rewrite rfold_app, Hr. simpl. by destruct (applyMutation s m). Qed.

(** A write: what the file holds afterwards, on success and on failure. *)
Definition committed (h : JsonlV4Header) (ms : list SessionMutation) (st : JsonlSessionStorage) (m : SessionMutation)
    (s' : SessionState) (w' : W) (r : Result JsonlFailure JsonlSessionStorage) : Prop :=
  match r with
  | Ok st' => st' = JsonlStorage.with_state st s' /\ synced h (ms ++ [m]) st' w'
  | Err e => file_failure e /\ exists x, torn (encode m) x /\ file w' (storage_path st) = Some (file_text h ms ++ x)
  end.

Lemma commit_spec h ms st m s' w w' r : synced h ms st w -> mutation_ok m -> applyMutation (jl_state st) m = Ok s' ->
  commit st m w = (w', r) ->
  committed h ms st m s' w' r /\ forall q, q <> storage_path st -> file w' q = file w q.
Proof.
  intros [Hh Hms Hr Hf] Hm Ha Hc. unfold JsonlStorage.commit in Hc. apply io_bind_inv in Hc as (w1 & r1 & Happ & Hk).
  unfold JsonlStorage.appendMutation in Happ. fold (storage_path st) in Happ.
  apply fileResult_inv in Happ as [([] & Happ & ->)|(e & f & Happ & -> & He)];
    pose proof (fs_append_frame _ _ _ _ _ Happ) as Hframe; apply (fs_append_spec _ _ _ _ _ _ Happ) in Hf.
  - rewrite io_bind_lift, Ha in Hk. injection Hk as <- <-. split; [|done]. split; [done|]. split; [done| | |].
    + apply Forall_app. split; [done|]. by apply Forall_singleton.
    + by rewrite (replay_snoc _ _ _ Hr).
    + change (file w1 (storage_path st) = Some (file_text h (ms ++ [m]))). by rewrite file_text_snoc.
  - destruct Hk as [-> ->]. split; [|done]. split; [done|exact Hf].
Qed.

Lemma jsonl_run_op_memory st op w :
  jsonl_run_op st op w = io_bind (io_lift (op_mutation (jl_state st) op)) (commit st) w.
Proof.
  rewrite io_bind_lift. destruct op; cbn [JsonlStorage.run_op op_mutation];
    unfold JsonlStorage.createLane, JsonlStorage.moveLane, JsonlStorage.appendEntry, JsonlStorage.appendRecord,
      JsonlStorage.setName, JsonlStorage.setLabel;
    repeat (rewrite ?io_bind_assoc, ?io_bind_lift; try check; try done);
    unfold io_bind; by destruct (commit _ _ w) as [? [?|?]].
Qed.

(** C5: a write of the JSONL storage fails exactly like the in-memory write,
    touching nothing; otherwise it appends one line and its new state is the
    in-memory one, or the file system failed, the storage keeps its state and
    the file has at most a part of the line more.  Files of other sessions
    never change. *)
Theorem jsonl_refines_memory (h : JsonlV4Header) (ms : list SessionMutation) (st : JsonlSessionStorage) (op : StorageOp)
    (w w' : W) (r : Result JsonlFailure JsonlSessionStorage)
    (Hs : synced h ms st w) (Hop : forall m, op_mutation (jl_state st) op = Ok m -> mutation_ok m)
    (Hrun : jsonl_run_op st op w = (w', r)) :
  match run_op (jl_state st) op with
  | Err e => w' = w /\ r = Err (JF_error e)
  | Ok s' => exists m, op_mutation (jl_state st) op = Ok m /\ committed h ms st m s' w' r /\
      forall q, q <> storage_path st -> file w' q = file w q
  end.
Proof.
  rewrite jsonl_run_op_memory, io_bind_lift in Hrun. rewrite run_op_memory.
  destruct (op_mutation (jl_state st) op) as [m|e] eqn:Hm; cbn [rbind]; [|by injection Hrun as <- <-].
  destruct (op_accepted _ _ _ (synced_wf _ _ _ _ Hs) Hm) as [s' Ha]. rewrite Ha. exists m. split; [done|].
  eapply commit_spec; [done| |done|done]. by apply Hop.
Qed.

(** ** Crashes *)

Context (parse_number_nil : parse_number [] = None).

(** A file that was written completely. *)
Lemma load_whole h ms s path w w' r : header_ok h -> Forall mutation_ok ms -> replay init_state ms = Ok s ->
  file w path = Some (file_text h ms) -> load path w = (w', r) -> recovered h ms path (file w path) w' r.
Proof.
  intros Hh Hms Hr Hf Hload. rewrite <- (app_nil_r ms).
  eapply load_spec; [done|done|constructor|by rewrite app_nil_r|by rewrite app_nil_r|done].
Qed.

Lemma recovered_synced h ms path old w st : header_ok h -> Forall mutation_ok ms -> recovered h ms path old w (Ok st) ->
  storage_path st = path /\ synced h ms st w.
Proof.
  intros Hh Hms (Hr & Hf & modifiedAt & Hmeta). assert (storage_path st = path) as Hp by (unfold storage_path; by rewrite Hmeta).
  split; [done|]. split; [done|done|done|by rewrite Hp].
Qed.

(** A line cut anywhere is there or not. *)
Lemma torn_recovered h ms s s' m x path w w' r : header_ok h -> Forall mutation_ok ms -> mutation_ok m ->
  replay init_state ms = Ok s -> applyMutation s m = Ok s' -> torn (encode m) x ->
  file w path = Some (file_text h ms ++ x) -> load path w = (w', r) ->
  (recovered h ms path (file w path) w' r /\ x <> encode m) \/ recovered h (ms ++ [m]) path (file w path) w' r.
Proof.
  intros Hh Hms Hm Hr Ha Hx Hf Hload. pose proof (replay_snoc _ _ m Hr) as Hr'. rewrite Ha in Hr'.
  assert (x = encode m -> recovered h (ms ++ [m]) path (file w path) w' r) as Hall.
  { intros ->. rewrite <- file_text_snoc in Hf.
    eapply load_whole; [done|apply Forall_app; split; [done|by apply Forall_singleton]|done|done|done]. }
  destruct (decide (x = encode m)) as [E|Hne]; [right; by apply Hall|].
  destruct (torn_remains _ _ parse_number_nil m x Hm Hx) as [-> | [Hrem | ->]]; [done|left|right].
  - split; [|done]. rewrite <- (app_nil_r ms). by eapply load_spec; [..|rewrite app_nil_r| |].
  - by eapply load_spec; [..|constructor| | |].
Qed.

(** C4: whatever part of its line a write got into the file before the process
    stopped, the next [load] yields the state before the write or the state
    after it, rewrites the file to exactly that history, and the write is
    never lost once its line is complete; only the file system can make it
    fail, and then the history is still in the file. *)
Theorem jsonl_crash_recovery (h : JsonlV4Header) (ms : list SessionMutation) (st : JsonlSessionStorage) (op : StorageOp)
    (m : SessionMutation) (x : jstring) (w w1 w2 : W) (r : Result JsonlFailure JsonlSessionStorage)
    (Hs : synced h ms st w) (Hop : op_mutation (jl_state st) op = Ok m) (Hm : mutation_ok m)
    (Hx : torn (encode m) x) (Hw1 : file w1 (storage_path st) = Some (file_text h ms ++ x))
    (Hload : load (storage_path st) w1 = (w2, r)) :
  exists s', run_op (jl_state st) op = Ok s' /\
  match r with
  | Ok st' =>
      storage_path st' = storage_path st /\
      ((jl_state st' = jl_state st /\ synced h ms st' w2 /\ x <> encode m) \/ (jl_state st' = s' /\ synced h (ms ++ [m]) st' w2))
  | Err e =>
      file_failure e /\ (file w2 (storage_path st) = file w1 (storage_path st) \/
        file w2 (storage_path st) = Some (file_text h ms) \/ file w2 (storage_path st) = Some (file_text h (ms ++ [m])))
  end.
Proof.
  destruct (op_accepted _ _ _ (synced_wf _ _ _ _ Hs) Hop) as [s' Ha]. exists s'. rewrite run_op_memory, Hop. split; [done|].
  destruct Hs as [Hh Hms Hr Hf].
  assert (Forall mutation_ok (ms ++ [m])) as Hms' by (apply Forall_app; split; [done|by apply Forall_singleton]).
  destruct (torn_recovered _ _ _ _ _ _ _ _ _ _ Hh Hms Hm Hr Ha Hx Hw1 Hload) as [[Hrec Hne]|Hrec];
    destruct r as [st'|e].
  - destruct (recovered_synced _ _ _ _ _ _ Hh Hms Hrec) as [Hp Hsync]. split; [done|]. left. split; [|done].
    pose proof (sync_state _ _ _ _ Hsync). congruence.
  - destruct Hrec as [He [Hrec|Hrec]]; auto.
  - destruct (recovered_synced _ _ _ _ _ _ Hh Hms' Hrec) as [Hp Hsync]. split; [done|]. right. split; [|done].
    pose proof (sync_state _ _ _ _ Hsync) as Hs'. rewrite (replay_snoc _ _ _ Hr) in Hs'. congruence.
  - destruct Hrec as [He [Hrec|Hrec]]; auto.
Qed.

(** ** Forks *)

(** A computation leaves the files outside [ps] alone. *)
Definition frame {A} (ps : list jstring) (m : IO W A) : Prop :=
  forall w w' r, m w = (w', r) -> forall q, q ∉ ps -> file w' q = file w q.

Lemma frame_ret {A} ps (a : A) : frame ps (io_ret a).
Proof. by intros w w' r [= <- <-]. Qed.

Lemma frame_throw {A} ps e : frame ps (@io_throw W A e).
Proof. by intros w w' r [= <- <-]. Qed.

Lemma frame_lift {A} ps (x : Result SessionError A) : frame ps (io_lift x).
Proof. destruct x; [apply frame_ret|apply frame_throw]. Qed.

Lemma frame_bind {A B} ps (m : IO W A) (k : A -> IO W B) : frame ps m -> (forall a, frame ps (k a)) -> frame ps (io_bind m k).
Proof.
  intros Hm Hk w w' r Hb q Hq. apply io_bind_inv in Hb as (w1 & [a|e] & H1 & H2).
  - rewrite (Hk a _ _ _ H2 q Hq). by apply (Hm _ _ _ H1).
  - destruct H2 as [-> _]. by apply (Hm _ _ _ H1).
Qed.

Lemma frame_file {A} ps (op : W -> W * Result FileError A) message :
  (forall w w' r, op w = (w', r) -> forall q, q ∉ ps -> file w' q = file w q) -> frame ps (fileResult op message).
Proof.
  intros Hop w w' r Hr q Hq. by apply fileResult_inv in Hr as [(a & Hr & _)|(e & f & Hr & _)]; apply (Hop _ _ _ Hr).
Qed.

Lemma frame_publish path (populate : jstring -> IO W unit) :
  frame [JsonlStorage.temp_path path] (populate (JsonlStorage.temp_path path)) ->
  frame [path; JsonlStorage.temp_path path] (JsonlStorage.publishFileAtomically path populate).
Proof.
  intros Hpop w w' r. unfold JsonlStorage.publishFileAtomically, io_rescue. destruct (io_bind _ _ w) as [w1 r1] eqn:Hb.
  intros Hr q [Hq [Hq' _]%not_elem_of_cons]%not_elem_of_cons.
  assert (file w1 q = file w q) as H1.
  { apply io_bind_inv in Hb as (w2 & [[]|e] & H2 & Hk).
    - rewrite <- (Hpop _ _ _ H2 q) by (by apply not_elem_of_cons; split; [|apply not_elem_of_nil]).
      apply fileResult_inv in Hk as [([] & Hk & _)|(e & f & Hk & _)]; apply fs_rename_spec in Hk; try apply temp_path_ne; [|done].
      by apply Hk.
    - destruct Hk as [-> _]. apply (Hpop _ _ _ H2). by apply not_elem_of_cons; split; [|apply not_elem_of_nil]. }
  destruct r1; injection Hr as <- <-; [done|]. destruct (fs_remove _ w1) as [w3 r3] eqn:Hrm. simpl.
  by rewrite (fs_remove_spec _ _ _ _ Hrm q).
Qed.

Lemma frame_write path text message ps : path ∈ ps -> frame ps (fileResult (fs_writeFile path text) message).
Proof. intros Hp. apply frame_file. intros w w' r Hw q Hq. apply fs_write_spec in Hw as [Hw _]. apply Hw. congruence. Qed.

Lemma frame_info path message ps : frame ps (fileResult (fs_fileInfo path) message).
Proof. apply frame_file. intros w w' r Hw q _. by apply (fs_info_spec _ _ _ _ Hw). Qed.

Lemma frame_append path text message ps : path ∈ ps -> frame ps (fileResult (fs_appendFile path text) message).
Proof. intros Hp. apply frame_file. intros w w' r Hw q Hq. apply (fs_append_frame _ _ _ _ _ Hw). congruence. Qed.

Lemma frame_read path message ps : frame ps (fileResult (fs_readTextFile path) message).
Proof. apply frame_file. intros w w' r Hw q _. by apply fs_read_spec in Hw as [Hw _]. Qed.

Lemma frame_load path : frame [path; JsonlStorage.temp_path path] (load path).
Proof.
  unfold JsonlStorage.load. apply frame_bind; [apply frame_read|]. intros content.
  destruct (JsonlStorage.physical_lines content) as [|[|u first] rest]; try apply frame_throw.
  destruct (decodeHeader _ _); [|apply frame_throw]. apply frame_bind; [apply frame_info|]. intros info.
  destruct (JsonlStorage.replay_lines _ _ _ _ _ _) as [[s [prefix|]]|]; [..|apply frame_throw];
    (apply frame_bind; [|intros; apply frame_ret]).
  - apply frame_publish. apply frame_write. by left.
  - case_bool_decide; [apply frame_ret|]. apply frame_append. by left.
Qed.

(** A new file. *)
Lemma create_spec h path w w' r : JsonlStorage.create number_to_string path h w = (w', r) ->
  (forall q, q <> path -> file w' q = file w q) /\
  match r with
  | Ok st => (exists modifiedAt, jl_metadata st = metadataFromHeader h path modifiedAt) /\ jl_state st = init_state /\
      file w' path = Some (file_text h [])
  | Err e => file_failure e
  end.
Proof.
  intros Hc. split.
  { intros q Hq. assert (frame [path] (JsonlStorage.create number_to_string path h)) as Hframe.
    { apply frame_bind; [apply frame_write; by left|]. intros _. apply frame_bind; [apply frame_info|]. intros; apply frame_ret. }
    apply (Hframe _ _ _ Hc). by apply not_elem_of_cons; split; [|apply not_elem_of_nil]. }
  unfold JsonlStorage.create in Hc. apply io_bind_inv in Hc as (w1 & r1 & Hw & Hk).
  apply fileResult_inv in Hw as [([] & Hw & ->)|(e & f & Hw & -> & He)]; [|by destruct Hk as [-> ->]].
  apply fs_write_spec in Hw as [_ Hw]. apply io_bind_inv in Hk as (w2 & r2 & Hi & Hk).
  apply fileResult_inv in Hi as [(info & Hi & ->)|(e & f & Hi & -> & He)]; [|by destruct Hk as [-> ->]].
  injection Hk as <- <-. split; [by eexists|]. split; [done|]. rewrite (fs_info_spec _ _ _ _ Hi), Hw by done.
  unfold JsonlProperties.file_text. simpl. by rewrite app_nil_r.
Qed.

Lemma create_synced h path w w' st : header_ok h -> JsonlStorage.create number_to_string path h w = (w', Ok st) ->
  storage_path st = path /\ synced h [] st w'.
Proof.
  intros Hh Hc. apply create_spec in Hc as (_ & [modifiedAt Hmeta] & Hst & Hf).
  assert (storage_path st = path) as Hp by (unfold storage_path; by rewrite Hmeta).
  split; [done|]. split; [done|constructor|by rewrite Hst|by rewrite Hp].
Qed.

Lemma append_all_spec h path mutations : forall ms st w w' r s',
  synced h ms st w -> storage_path st = path -> Forall mutation_ok mutations -> replay (jl_state st) mutations = Ok s' ->
  JsonlStorage.append_all number_to_string parse_number st mutations w = (w', r) ->
  (forall q, q <> path -> file w' q = file w q) /\
  match r with Ok st' => storage_path st' = path /\ synced h (ms ++ mutations) st' w' | Err e => file_failure e end.
Proof.
  induction mutations as [|m mutations IH]; intros ms st w w' r s' Hs Hp Hok Hr Hall.
  - injection Hall as <- <-. by rewrite app_nil_r.
  - apply Forall_cons_1 in Hok as [Hm Hok]. unfold replay in Hr. simpl in Hr. apply rbind_Ok_inv in Hr as (s1 & H1 & Hr).
    simpl in Hall. apply io_bind_inv in Hall as (w1 & r1 & Hc & Hk).
    destruct (commit_spec _ _ _ _ _ _ _ _ Hs Hm H1 Hc) as [Hcom Hframe]. rewrite Hp in Hframe.
    destruct r1 as [st1|e]; [|destruct Hk as [-> ->]; split; [done|]; by destruct Hcom].
    destruct Hcom as [-> Hs1]. destruct (IH _ _ _ _ _ _ Hs1 Hp Hok Hr Hk) as [Hf2 Hres].
    split; [intros q Hq; by rewrite Hf2, Hframe|]. by rewrite <- app_assoc in Hres.
Qed.

(** The staged file of a fork. *)
Lemma populate_spec h mutations s' path w w' r : header_ok h -> Forall mutation_ok mutations -> replay init_state mutations = Ok s' ->
  (do! st <- JsonlStorage.create number_to_string path h in
   do! _ <- JsonlStorage.append_all number_to_string parse_number st mutations in io_ret tt)%io w = (w', r) ->
  (forall q, q <> path -> file w' q = file w q) /\
  match r with Ok _ => file w' path = Some (file_text h mutations) | Err e => file_failure e end.
Proof.
  intros Hh Hok Hr Hp. apply io_bind_inv in Hp as (w1 & r1 & Hc & Hk). destruct (create_spec _ _ _ _ _ Hc) as [Hf1 Hc1].
  destruct r1 as [st|e]; [|by destruct Hk as [-> ->]]. destruct (create_synced _ _ _ _ _ Hh Hc) as [Hpath Hs].
  apply io_bind_inv in Hk as (w2 & r2 & Ha & Hk).
  assert (replay (jl_state st) mutations = Ok s') as Hr' by (pose proof (sync_state _ _ _ _ Hs) as [= <-]; done).
  destruct (append_all_spec _ _ _ _ _ _ _ _ _ Hs Hpath Hok Hr' Ha) as [Hf2 Hres].
  assert (forall q, q <> path -> file w2 q = file w q) as Hf by (intros q Hq; by rewrite Hf2, Hf1).
  destruct r2 as [st2|e]; [injection Hk as <- <-|by destruct Hk as [-> ->]]. split; [done|]. destruct Hres as [<- Hs2]. apply Hs2.
Qed.

(** C6: a fork checks its options like the in-memory fork; then its file is
    what was there before or the complete copy, never a part; on success the
    new storage holds the forked session; the source keeps its file. *)
Theorem jsonl_fork_atomic (h h' : JsonlV4Header) (ms : list SessionMutation) (st : JsonlSessionStorage) (path : jstring)
    (options : ForkOptions) (w w' : W) (r : Result JsonlFailure JsonlSessionStorage)
    (Hs : synced h ms st w) (Hh' : header_ok h')
    (Hok : forall mutations, createForkMutations (jl_state st) options = Ok mutations -> Forall mutation_ok mutations)
    (Hpath : storage_path st ∉ [path; JsonlStorage.temp_path path])
    (Hfork : JsonlStorage.fork number_to_string parse_number st path h' options w = (w', r)) :
  match createForkMutations (jl_state st) options with
  | Err e => w' = w /\ r = Err (JF_error e)
  | Ok mutations =>
      synced h ms st w' /\
      match r with
      | Ok st' => storage_path st' = path /\ synced h' mutations st' w' /\
          exists copied lanes, fork_source (jl_state st) options = Ok (copied, lanes) /\ forked (jl_state st) copied lanes (jl_state st')
      | Err e => file_failure e /\ (file w' path = file w path \/ file w' path = Some (file_text h' mutations))
      end
  end.
Proof.
  unfold JsonlStorage.fork in Hfork. rewrite io_bind_lift in Hfork.
  pose proof (createForkMutations_forked (jl_state st) options (synced_wf _ _ _ _ Hs)) as Hcopy.
  destruct (createForkMutations (jl_state st) options) as [mutations|e]; [|by injection Hfork as <- <-].
  specialize (Hok mutations eq_refl). destruct Hcopy as (copied & lanes & s' & Hsrc & _ & Hr & Hcopy).
  apply io_bind_inv in Hfork as (w1 & r1 & Hpub & Hk).
  assert (file w1 (storage_path st) = file w (storage_path st)) as Hf1.
  { eapply frame_publish; [|exact Hpub|exact Hpath]. intros v v' u Hv q Hq.
    apply (populate_spec _ _ _ _ _ _ _ Hh' Hok Hr) in Hv as [Hv _]. apply Hv. intros ->. apply Hq. by left. }
  apply (publish_spec _ _ _ _ _ (file_text h' mutations)) in Hpub.
  2:{ intros v u Hv. apply (populate_spec _ _ _ _ _ _ _ Hh' Hok Hr) in Hv as [Hv Hres].
      split; [apply Hv, not_eq_sym, temp_path_ne|]. destruct u as [[]|e]; [done|]. split; [done|]. by intros e' [= <-]. }
  destruct Hs as [Hh Hms Hstate Hf].
  destruct r1 as [[]|e].
  - pose proof (load_whole _ _ _ _ _ _ _ Hh' Hok Hr Hpub Hk) as Hrec.
    split; [split; [done|done|done|by rewrite (frame_load _ _ _ _ Hk _ Hpath), Hf1]|].
    destruct r as [st'|e].
    + destruct (recovered_synced _ _ _ _ _ _ Hh' Hok Hrec) as [Hp Hsync]. split; [done|]. split; [done|].
      pose proof (sync_state _ _ _ _ Hsync) as Hs'. assert (s' = jl_state st') as <- by congruence. by exists copied, lanes.
    + destruct Hrec as [He Hrec]. rewrite Hpub in Hrec. split; [done|]. right. by destruct Hrec.
  - destruct Hk as [-> ->]. destruct Hpub as [Hsame He]. split; [split; [done|done|done|by rewrite Hf1]|]. auto.
Qed.
End Storage.

(** ** The session facade over JSONL files *)

#[export] Instance jsonl_storage_spec : SessionStorageSpec JsonlSessionStorage.
Proof. refine {| storage_abs := jl_state; storage_ok st := reachable (jl_state st) |}; done. Defined.

(** Writes keep the promise. *)
Lemma jsonl_run_op_ok {W} `{JsonlFileSystem W} number_to_string parse_number st op w w' st' :
  storage_ok st -> JsonlStorage.run_op number_to_string parse_number st op w = (w', Ok st') -> storage_ok st'.
Proof.
  cbn [storage_ok jsonl_storage_spec]. intros Hst Hrun. rewrite jsonl_run_op_memory, io_bind_lift in Hrun.
  destruct (op_mutation (jl_state st) op) as [m|e] eqn:Hm; [|done].
  unfold JsonlStorage.commit in Hrun. apply io_bind_inv in Hrun as (w1 & [[]|e] & _ & Hk); [|by destruct Hk].
  rewrite io_bind_lift in Hk. destruct (applyMutation (jl_state st) m) as [s|e] eqn:Ha; [|done].
  injection Hk as _ <-. apply (reach_op (jl_state st) op); [done|]. by rewrite run_op_memory, Hm.
Qed.

(** ** A session in memory *)

Definition ex_header : JsonlV4Header :=
  {| hd_id := js "s"; hd_createdAt := 7; hd_cwd := js "/w"; hd_parentSessionId := None; hd_legacyParentSessionPath := None;
     hd_metadata := None |}.

Definition ex_path : jstring := js "/w/s.jsonl".

Definition ex_storage : JsonlSessionStorage :=
  {| jl_metadata := metadataFromHeader ex_header ex_path 0; jl_state := init_state |}.

Definition ex_world (cuts : list (option nat)) : MemoryFiles :=
  {| mw_files := put ex_path (Some (encodeHeader example_number_to_string ex_header)) (fun _ => None); mw_cuts := cuts |}.

Abbreviation ex_run_op := (JsonlStorage.run_op example_number_to_string example_parse_number).
Abbreviation ex_load := (JsonlStorage.load example_number_to_string example_parse_number).

Ltac short := cbn [opt_units]; apply units_check; vm_compute; reflexivity.

Lemma ex_number z : safe z = true -> (let n := number_of_Z z in let t := example_number_to_string n in
    is_finite n && negb (bool_decide (t = [])) && forallb numeric t && bool_decide (example_parse_number t = Some n)) = true ->
  v_ok (int example_number_to_string example_parse_number) z.
Proof.
  intros Hz Hn. cbn zeta in Hn. rewrite !andb_true_iff in Hn. destruct Hn as [[[Hf Ht] Hd] Hp]. split; [done|].
  split; [done|]. apply negb_true_iff, bool_decide_eq_false in Ht. split; [done|]. apply bool_decide_eq_true in Hp. split; [|done].
  apply Forall_forall. intros u Hu. rewrite forallb_forall in Hd. apply Hd. by apply list_elem_of_In.
Qed.

Ltac ex_int := apply ex_number; vm_compute; reflexivity.

Lemma ex_header_ok : header_ok example_number_to_string example_parse_number ex_header.
Proof.
  split; [short|]. split; [ex_int|]. split; [by compute|]. split; [short|].
  split; [done|]. split; [done|]. split; [by intros [[? ?] _]|]. split; [ex_int|done].
Qed.

Lemma ex_synced cuts : synced example_number_to_string example_parse_number ex_header [] ex_storage (ex_world cuts).
Proof. split; [apply ex_header_ok|constructor|reflexivity|vm_compute; reflexivity]. Qed.

Lemma jsonl_refines_memory_witness :
  exists w' r, ex_run_op ex_storage (Op_setName (Some (js "n"))) (ex_world []) = (w', r) /\
  match run_op (jl_state ex_storage) (Op_setName (Some (js "n"))) with
  | Err e => w' = ex_world [] /\ r = Err (JF_error e)
  | Ok s' => exists m, op_mutation (jl_state ex_storage) (Op_setName (Some (js "n"))) = Ok m /\
      committed example_number_to_string example_parse_number ex_header [] ex_storage m s' w' r /\
      forall q, q <> storage_path ex_storage -> file w' q = file (ex_world []) q
  end.
Proof.
  eexists _, _. split; [reflexivity|].
  apply (jsonl_refines_memory example_number_to_string example_parse_number ex_header [] ex_storage (Op_setName (Some (js "n"))) (ex_world []));
    [apply ex_synced| |reflexivity].
  intros m [= <-]. split; [ex_int|]. split; [reflexivity|short].
Defined.

Definition ex_name : SessionMutation := Mut_name 1 (Some (js "n")).

(** Ten code units of the line were written. *)
Definition ex_torn : jstring := take 10 (encodeMutation example_number_to_string example_parse_number ex_name).

Definition ex_crashed : MemoryFiles :=
  with_files (ex_world []) (put ex_path (Some (encodeHeader example_number_to_string ex_header ++ ex_torn)) (fun _ => None)).

Lemma jsonl_crash_recovery_witness :
  exists w2 r, ex_load ex_path ex_crashed = (w2, r) /\
  exists s', run_op (jl_state ex_storage) (Op_setName (Some (js "n"))) = Ok s' /\
  match r with
  | Ok st' =>
      storage_path st' = storage_path ex_storage /\
      ((jl_state st' = jl_state ex_storage /\ synced example_number_to_string example_parse_number ex_header [] st' w2 /\
        ex_torn <> encodeMutation example_number_to_string example_parse_number ex_name) \/
       (jl_state st' = s' /\ synced example_number_to_string example_parse_number ex_header ([] ++ [ex_name]) st' w2))
  | Err e =>
      file_failure e /\ (file w2 (storage_path ex_storage) = file ex_crashed (storage_path ex_storage) \/
        file w2 (storage_path ex_storage) = Some (file_text example_number_to_string example_parse_number ex_header []) \/
        file w2 (storage_path ex_storage) = Some (file_text example_number_to_string example_parse_number ex_header ([] ++ [ex_name])))
  end.
Proof.
  destruct (ex_load ex_path ex_crashed) as [w2 r] eqn:Hload. exists w2, r. split; [reflexivity|].
  apply (jsonl_crash_recovery example_number_to_string example_parse_number eq_refl ex_header [] ex_storage
           (Op_setName (Some (js "n"))) ex_name ex_torn (ex_world []) ex_crashed w2 r).
  - apply ex_synced.
  - reflexivity.
  - split; [ex_int|]. split; [reflexivity|short].
  - apply torn_take.
  - vm_compute. reflexivity.
  - exact Hload.
Defined.

Lemma jsonl_fork_atomic_witness :
  exists w' r, JsonlStorage.fork example_number_to_string example_parse_number ex_storage (js "/w/f.jsonl") ex_header Fork_tree (ex_world []) = (w', r) /\
  match createForkMutations (jl_state ex_storage) Fork_tree with
  | Err e => w' = ex_world [] /\ r = Err (JF_error e)
  | Ok mutations =>
      synced example_number_to_string example_parse_number ex_header [] ex_storage w' /\
      match r with
      | Ok st' => storage_path st' = js "/w/f.jsonl" /\ synced example_number_to_string example_parse_number ex_header mutations st' w' /\
          exists copied lanes, fork_source (jl_state ex_storage) Fork_tree = Ok (copied, lanes) /\ forked (jl_state ex_storage) copied lanes (jl_state st')
      | Err e => file_failure e /\ (file w' (js "/w/f.jsonl") = file (ex_world []) (js "/w/f.jsonl") \/
          file w' (js "/w/f.jsonl") = Some (file_text example_number_to_string example_parse_number ex_header mutations))
      end
  end.
Proof.
  destruct (JsonlStorage.fork example_number_to_string example_parse_number ex_storage (js "/w/f.jsonl") ex_header Fork_tree (ex_world []))
    as [w' r] eqn:Hfork. exists w', r. split; [reflexivity|].
  apply (jsonl_fork_atomic example_number_to_string example_parse_number ex_header ex_header [] ex_storage (js "/w/f.jsonl") Fork_tree (ex_world []) w' r).
  - apply ex_synced.
  - apply ex_header_ok.
  - intros mutations [= <-]. repeat constructor; first [ex_int|short].
  - exact (bool_decide_unpack (storage_path ex_storage ∉ [js "/w/f.jsonl"; JsonlStorage.temp_path (js "/w/f.jsonl")]) (I : Is_true true)).
  - exact Hfork.
Defined.

(** ** A failed append *)

(** after an append that failed half-way the storage goes on appending to
    the torn line: the next write is acknowledged, and the next [load] drops
    it. *)
Example failed_append_loses_next_write :
  let '(w1, r1) := ex_run_op ex_storage (Op_setName (Some (js "first"))) (ex_world [Some 10%nat]) in
  let '(w2, r2) := ex_run_op ex_storage (Op_setName (Some (js "second"))) w1 in
  let '(w3, r3) := ex_load ex_path w2 in
  (exists e, r1 = Err e) /\
  (exists st, r2 = Ok st /\ getName (jl_state st) = Some (js "second")) /\
  (exists st, r3 = Ok st /\ getName (jl_state st) = None).
Proof. vm_compute. split_and!; eexists; [reflexivity|split; reflexivity|split; reflexivity]. Qed.

(** With one more write the session can no longer be opened. *)
Example failed_append_corrupts :
  let '(w1, r1) := ex_run_op ex_storage (Op_setName (Some (js "first"))) (ex_world [Some 10%nat]) in
  match ex_run_op ex_storage (Op_setName (Some (js "second"))) w1 with
  | (w2, Ok st) =>
      let '(w3, r3) := ex_run_op st (Op_setName (Some (js "third"))) w2 in
      exists st' e, r3 = Ok st' /\ (ex_load ex_path w3).2 = Err (JF_error e) /\ err_code e = C_invalid_entry
  | _ => False
  end.
Proof. vm_compute. eexists _, _. split_and!; reflexivity. Qed.
