(* ===== verification/JsonValidation.v ===== *)
(** * Which payloads are durable

    [assertJsonSerializable] of harness/session/session.ts: a depth-first walk
    with an explicit stack over objects that may be shared, cyclic or exotic.
    It is run on every entry, record and session metadata before storage.

    Objects live in a finite heap with their own properties and prototypes;
    proxies are not modelled. *)

From stdpp Require Import base list gmap sets fin_sets strings pretty.
From Stdlib Require Import ZArith Lia.
From S2P Require Import Prelude SessionTypes SessionState Numbers Cbor.

Open Scope Z_scope.

(** ** Objects *)

Inductive Prototype := Proto_object | Proto_array | Proto_null | Proto_other.

#[export] Instance Prototype_eq_dec : EqDecision Prototype.
Proof. solve_decision. Defined.

(** An own property with a string key; [None] is an accessor. *)
Record property := { p_name : jstring; p_enumerable : bool; p_value : option jsvalue }.

(** [o_properties] are the own properties in the order of
    [Object.getOwnPropertyNames], without the [length] of an array, which is
    [o_length]; [o_symbols] counts the symbol keys. *)
Record object := {
  o_isArray : bool;
  o_prototype : Prototype;
  o_length : nat;
  o_properties : list property;
  o_symbols : nat }.

Definition empty_object : object :=
  {| o_isArray := false; o_prototype := Proto_object; o_length := 0; o_properties := []; o_symbols := 0 |}.

Abbreviation objects := (gmap loc object).

Definition object_at (h : objects) (l : loc) : object := default empty_object (h !! l).

Definition own_property (o : object) (name : jstring) : option property :=
  List.find (fun p => bool_decide (p_name p = name)) (o_properties o).

Definition index_name (i : nat) : jstring := js_of_Z (Z.of_nat i).

(** ** The check *)

Definition invalidPayload {A} (reason : jstring) : Result SessionError A :=
  Err (session_error C_invalid_payload (js "Durable payload " ++ reason)).

(** The loop over the elements, from the last to the first; [values] are those
    already pushed. *)
Fixpoint push_elements (o : object) (index : nat) (values : list jsvalue) : Result SessionError (list jsvalue) :=
  match index with
  | O => Ok values
  | S i =>
      match own_property o (index_name i) with
      | None => invalidPayload (js "contains a sparse array")
      | Some {| p_value := None |} => invalidPayload (js "contains an array accessor")
      | Some {| p_value := Some v |} => push_elements o i (v :: values)
      end
  end.

(** The loop over the keys, from the last ([keys] is reversed) to the first. *)
Fixpoint push_properties (o : object) (keys : list jstring) (values : list jsvalue) : Result SessionError (list jsvalue) :=
  match keys with
  | [] => Ok values
  | key :: rest =>
      match own_property o key with
      | Some {| p_value := Some v |} => push_properties o rest (v :: values)
      | _ => invalidPayload (js "contains an accessor")
      end
  end.

(** The values pushed for an object, first on top. *)
Definition object_values (o : object) : Result SessionError (list jsvalue) :=
  if o_isArray o then
    rguard (bool_decide (o_prototype o = Proto_array)) (session_error C_invalid_payload (js "Durable payload contains a non-standard array")) ;;;
    rguard (Nat.eqb (o_symbols o) 0 && Nat.eqb (length (o_properties o) + 1) (o_length o + 1))
      (session_error C_invalid_payload (js "Durable payload contains an array with unsupported properties")) ;;;
    push_elements o (o_length o) []
  else
    rguard (bool_decide (o_prototype o = Proto_object) || bool_decide (o_prototype o = Proto_null))
      (session_error C_invalid_payload (js "Durable payload contains a non-plain object")) ;;;
    rguard (Nat.eqb (o_symbols o) 0) (session_error C_invalid_payload (js "Durable payload contains a symbol-keyed property")) ;;;
    let keys := map p_name (List.filter p_enumerable (o_properties o)) in
    rguard (Nat.eqb (length (o_properties o)) (length keys))
      (session_error C_invalid_payload (js "Durable payload contains a non-enumerable property")) ;;;
    push_properties o (reverse keys) [].

Inductive ValidationFrame := F_value (v : jsvalue) | F_exit (l : loc).

Section Check.
Context (h : objects).

(** The loop; [None] when [fuel] iterations do not suffice. *)
Fixpoint validation_loop (fuel : nat) (active : gset loc) (stack : list ValidationFrame) : option (Result SessionError unit) :=
  match stack with
  | [] => Some (Ok tt)
  | frame :: stack =>
      match fuel with
      | O => None
      | S fuel =>
          match frame with
          | F_exit l => validation_loop fuel (active ∖ {[l]}) stack
          | F_value candidate =>
              match candidate with
              | VNull | VString _ | VBool _ => validation_loop fuel active stack
              | VNumber n =>
                  if is_finite n then validation_loop fuel active stack
                  else Some (invalidPayload (js "contains a non-finite number"))
              | VUndefined | VOther _ => Some (invalidPayload (js "contains " ++ typeof candidate))
              | VObject l =>
                  if bool_decide (l ∈ active) then Some (invalidPayload (js "contains a cycle"))
                  else match object_values (object_at h l) with
                       | Err e => Some (Err e)
                       | Ok values => validation_loop fuel ({[l]} ∪ active) (map F_value values ++ F_exit l :: stack)
                       end
              end
          end
      end
  end.

Definition assertJsonSerializable (fuel : nat) (value : jsvalue) : option (Result SessionError unit) :=
  validation_loop fuel ∅ [F_value value].
End Check.

(** ** What is accepted *)

(** The value of an own data property. *)
Definition data_value (o : object) (name : jstring) : option jsvalue := own_property o name ≫= p_value.

(** Own properties have distinct names. *)
Definition objects_ok (h : objects) : Prop := forall l, NoDup (map p_name (o_properties (object_at h l))).

(** An array of the values [vs] and nothing else. *)
Definition plain_array (o : object) (vs : list jsvalue) : Prop :=
  o_isArray o = true /\ o_prototype o = Proto_array /\ o_symbols o = 0%nat /\ length (o_properties o) = o_length o /\
  length vs = o_length o /\
  forall i v, vs !! i = Some v -> data_value o (index_name i) = Some v.

(** An object of the properties [kvs] and nothing else. *)
Definition plain_object (o : object) (kvs : list (jstring * jsvalue)) : Prop :=
  o_isArray o = false /\ (o_prototype o = Proto_object \/ o_prototype o = Proto_null) /\ o_symbols o = 0%nat /\
  o_properties o = map (fun kv => {| p_name := kv.1; p_enumerable := true; p_value := Some kv.2 |}) kvs.

(** A value that is a JSON tree: finite numbers, plain arrays and objects, no
    cycles. *)
Inductive represents (h : objects) : jsvalue -> json -> Prop :=
| rep_null : represents h VNull JNull
| rep_bool b : represents h (VBool b) (JBool b)
| rep_number n : is_finite n = true -> represents h (VNumber n) (JNumber n)
| rep_string s : represents h (VString s) (JString s)
| rep_array l vs ts : plain_array (object_at h l) vs -> length vs = length ts ->
    (forall i v t, vs !! i = Some v -> ts !! i = Some t -> represents h v t) -> represents h (VObject l) (JArray ts)
| rep_object l kvs ts : plain_object (object_at h l) kvs -> kvs.*1 = ts.*1 ->
    (forall i v t, kvs.*2 !! i = Some v -> ts.*2 !! i = Some t -> represents h v t) -> represents h (VObject l) (JObject ts).

(** ** The values of an object *)

Lemma push_elements_spec o n : forall acc vs, push_elements o n acc = Ok vs <->
  exists us, length us = n /\ (forall i v, us !! i = Some v -> data_value o (index_name i) = Some v) /\ vs = us ++ acc.
Proof.
  induction n as [|n IH]; intros acc vs.
  - simpl. split; [intros [= <-]; by exists []|]. intros ([|u us] & Hlen & _ & ->); done.
  - cbn [push_elements]. unfold data_value in *. split.
    + destruct (own_property o (index_name n)) as [[name e [v|]]|] eqn:Hp; [|done|done]. intros Hv.
      apply IH in Hv as (us & Hlen & Hus & ->). exists (us ++ [v]). rewrite length_app, <- app_assoc. split; [simpl; lia|]. split; [|done].
      intros i v'. rewrite lookup_app_Some. intros [Hi|[Hi Hv']]; [by apply Hus|].
      apply list_lookup_singleton_Some in Hv' as [Hi' <-]. replace i with n by lia. by rewrite Hp.
    + intros (us & Hlen & Hus & ->). destruct us as [|v us _] using rev_ind; [done|]. rewrite length_app in Hlen. simpl in Hlen.
      pose proof (Hus n v ltac:(rewrite lookup_app_r by lia; by replace (n - length us)%nat with 0%nat by lia)) as Hv.
      destruct (own_property o (index_name n)) as [[name e [v'|]]|]; [|done|done]. injection Hv as ->. apply IH. exists us.
      split; [lia|]. rewrite <- app_assoc. split; [|done]. intros i u Hu. apply Hus. rewrite lookup_app_l; [done|]. by eapply lookup_lt_Some.
Qed.

Lemma push_properties_spec o ks : forall acc vs, push_properties o ks acc = Ok vs <->
  exists us, Forall2 (fun k v => data_value o k = Some v) ks us /\ vs = reverse us ++ acc.
Proof.
  induction ks as [|k ks IH]; intros acc vs; cbn [push_properties].
  - split; [intros [= <-]; by exists []|]. intros (us & Hus & ->). by apply Forall2_nil_inv_l in Hus as ->.
  - unfold data_value in *. split.
    + destruct (own_property o k) as [[name e [v|]]|] eqn:Hp; [|done|done]. intros Hv. apply IH in Hv as (us & Hus & ->).
      exists (v :: us). split; [constructor; [by rewrite Hp|done]|]. by rewrite reverse_cons, <- app_assoc.
    + intros (us & Hus & ->). apply Forall2_cons_inv_l in Hus as (v & us' & Hv & Hus & ->).
      destruct (own_property o k) as [[name e [v'|]]|]; [|done|done]. injection Hv as ->. apply IH. exists us'.
      split; [done|]. by rewrite reverse_cons, <- app_assoc.
Qed.

(** With distinct names a property is found by its name. *)
Lemma own_property_here o p : NoDup (map p_name (o_properties o)) -> p ∈ o_properties o -> own_property o (p_name p) = Some p.
Proof.
  unfold own_property. induction (o_properties o) as [|q ps IH]; [by intros _ ?%elem_of_nil|].
  cbn [map List.find]. intros [Hn Hd]%NoDup_cons [-> | Hp]%elem_of_cons; [by rewrite bool_decide_eq_true_2|].
  rewrite bool_decide_eq_false_2; [by apply IH|]. intros E. apply Hn. rewrite E. by apply (list_elem_of_fmap_2 p_name).
Qed.

Lemma filter_length_all {A} (f : A -> bool) l : length (List.filter f l) = length l -> List.filter f l = l /\ Forall (fun x => f x = true) l.
Proof.
  induction l as [|x l IH]; [done|]. simpl. destruct (f x) eqn:E.
  - intros [= H]. destruct (IH H) as [-> Hl]. by split; [|constructor].
  - intros H. pose proof (List.filter_length_le f l). simpl in H. lia.
Qed.

Lemma array_values o vs : o_isArray o = true -> object_values o = Ok vs <-> plain_array o vs.
Proof.
  intros Ha. unfold object_values, plain_array. rewrite Ha. split.
  - intros Hv. apply rbind_Ok_inv in Hv as (? & Hp & Hv). apply rguard_Ok, bool_decide_eq_true in Hp.
    apply rbind_Ok_inv in Hv as (? & Hc & Hv). apply rguard_Ok, andb_true_iff in Hc as [Hs%Nat.eqb_eq Hl%Nat.eqb_eq].
    apply push_elements_spec in Hv as (us & Hlen & Hus & ->). rewrite app_nil_r. split_and!; try done. lia.
  - intros (_ & -> & -> & -> & Hlen & Hvs). rewrite !Nat.eqb_refl, bool_decide_eq_true_2 by done. cbn [rguard rbind andb].
    apply push_elements_spec. exists vs. by rewrite app_nil_r.
Qed.

Lemma plain_values o kvs : NoDup (map p_name (o_properties o)) ->
  o_properties o = map (fun kv => {| p_name := kv.1; p_enumerable := true; p_value := Some kv.2 |}) kvs ->
  Forall2 (fun k v => data_value o k = Some v) kvs.*1 kvs.*2.
Proof.
  intros Hd Hp. rewrite Forall2_fmap. apply Forall_Forall2_diag, Forall_forall. intros [k v] Hkv. unfold data_value. simpl.
  change k with (p_name {| p_name := k; p_enumerable := true; p_value := Some v |}) at 1.
  rewrite own_property_here; [done|done|]. rewrite Hp. by apply (list_elem_of_fmap_2 (fun kv => {| p_name := kv.1; p_enumerable := true; p_value := Some kv.2 |}) _ (k, v)).
Qed.

(** Enumerable data properties, as names and values. *)
Lemma plain_properties o us : NoDup (map p_name (o_properties o)) -> Forall (fun p => p_enumerable p = true) (o_properties o) ->
  Forall2 (fun k v => data_value o k = Some v) (map p_name (o_properties o)) us ->
  exists kvs, o_properties o = map (fun kv => {| p_name := kv.1; p_enumerable := true; p_value := Some kv.2 |}) kvs /\ us = kvs.*2.
Proof.
  intros Hd He Hus.
  assert (Forall (fun p => own_property o (p_name p) = Some p) (o_properties o)) as Hown.
  { apply Forall_forall. intros p Hp. by apply own_property_here. }
  clear Hd. revert us He Hus Hown. generalize (o_properties o). intros ps. induction ps as [|p ps IH]; intros us He Hus Hown.
  - apply Forall2_nil_inv_l in Hus as ->. by exists [].
  - apply Forall2_cons_inv_l in Hus as (v & us' & Hv & Hus & ->). apply Forall_cons_1 in He as [He1 He].
    apply Forall_cons_1 in Hown as [Ho1 Hown]. destruct (IH us' He Hus Hown) as (kvs & -> & ->).
    unfold data_value in Hv. rewrite Ho1 in Hv. simpl in Hv. destruct p as [name e value]. simpl in *. subst.
    by exists ((name, v) :: kvs).
Qed.

Lemma object_values_plain o vs : o_isArray o = false -> NoDup (map p_name (o_properties o)) ->
  object_values o = Ok vs <-> exists kvs, plain_object o kvs /\ vs = kvs.*2.
Proof.
  intros Ha Hd. unfold object_values, plain_object. rewrite Ha. split.
  - intros Hv. apply rbind_Ok_inv in Hv as (? & Hp & Hv). apply rguard_Ok, orb_true_iff in Hp.
    apply rbind_Ok_inv in Hv as (? & Hs & Hv). apply rguard_Ok, Nat.eqb_eq in Hs.
    apply rbind_Ok_inv in Hv as (? & Hc & Hv). apply rguard_Ok, Nat.eqb_eq in Hc. rewrite length_map in Hc.
    destruct (filter_length_all p_enumerable _ (eq_sym Hc)) as [Hf He]. rewrite Hf in Hv.
    apply push_properties_spec in Hv as (us & Hus & ->). rewrite app_nil_r. apply Forall2_reverse in Hus.
    rewrite reverse_involutive in Hus. destruct (plain_properties o _ Hd He Hus) as (kvs & Hkvs & ->).
    exists kvs. split_and!; try done. destruct Hp as [Hp|Hp]; apply bool_decide_eq_true in Hp; auto.
  - intros (kvs & (_ & Hp & Hs & Hkvs) & ->). rewrite Hs.
    assert (List.filter p_enumerable (o_properties o) = o_properties o) as ->.
    { rewrite Hkvs. clear. induction kvs as [|kv kvs IH]; [done|]. simpl. by rewrite IH. }
    rewrite length_map, !Nat.eqb_refl.
    assert (bool_decide (o_prototype o = Proto_object) || bool_decide (o_prototype o = Proto_null) = true) as ->.
    { apply orb_true_iff. rewrite !bool_decide_eq_true. done. }
    cbn [rguard rbind Nat.eqb]. apply push_properties_spec. exists (reverse kvs.*2). rewrite reverse_involutive, app_nil_r. split; [|done].
    apply Forall2_reverse. assert (map p_name (o_properties o) = kvs.*1) as ->; [|by apply plain_values].
    rewrite Hkvs, map_map. done.
Qed.

Lemma push_elements_errors o n : forall acc e, push_elements o n acc = Err e -> err_code e = C_invalid_payload.
Proof.
  induction n as [|n IH]; intros acc e; [done|]. cbn [push_elements].
  destruct (own_property o (index_name n)) as [[name en [v|]]|]; [apply IH|by intros [= <-]|by intros [= <-]].
Qed.

Lemma push_properties_errors o ks : forall acc e, push_properties o ks acc = Err e -> err_code e = C_invalid_payload.
Proof.
  induction ks as [|k ks IH]; intros acc e; [done|]. cbn [push_properties].
  destruct (own_property o k) as [[name en [v|]]|]; [apply IH|by intros [= <-]|by intros [= <-]].
Qed.

Lemma object_values_errors o e : object_values o = Err e -> err_code e = C_invalid_payload.
Proof.
  unfold object_values, rguard. intros He. repeat (case_match; cbn [rbind] in He; try (injection He as <-; done));
    [by eapply push_elements_errors|by eapply push_properties_errors].
Qed.

(** ** JSON trees *)

Fixpoint json_size (t : json) : nat :=
  match t with
  | JArray l => S (sum_list (map json_size l))
  | JObject l => S (sum_list (map (fun p => json_size p.2) l))
  | _ => 1
  end.

Lemma sum_list_elem n l : n ∈ l -> (n <= sum_list l)%nat.
Proof. induction l as [|x l IH]; [by intros ?%elem_of_nil|]. intros [-> | Hn%IH]%elem_of_cons; simpl; lia. Qed.

Lemma json_size_element ts t i : ts !! i = Some t -> (json_size t < json_size (JArray ts))%nat.
Proof. intros Ht%list_elem_of_lookup_2. simpl. apply Nat.lt_succ_r, sum_list_elem. by apply (list_elem_of_fmap_2 json_size). Qed.

Lemma json_size_property (ts : list (jstring * json)) t i : ts.*2 !! i = Some t -> (json_size t < json_size (JObject ts))%nat.
Proof.
  intros Ht%list_elem_of_lookup_2. simpl. apply Nat.lt_succ_r, sum_list_elem.
  replace (map (fun p => json_size p.2) ts) with (json_size <$> ts.*2) by (by rewrite <- list_fmap_compose).
  by apply (list_elem_of_fmap_2 json_size).
Qed.

Lemma plain_array_values o vs vs' : plain_array o vs -> plain_array o vs' -> vs = vs'.
Proof.
  intros (_ & _ & _ & _ & Hl & Hv) (_ & _ & _ & _ & Hl' & Hv'). apply (list_eq_same_length _ _ (o_length o)); [lia|done|].
  intros i x y _ Hx Hy. apply Hv in Hx. apply Hv' in Hy. congruence.
Qed.

Lemma plain_object_values o kvs kvs' : plain_object o kvs -> plain_object o kvs' -> kvs = kvs'.
Proof.
  intros (_ & _ & _ & Hp) (_ & _ & _ & Hp'). rewrite Hp in Hp'. clear Hp. revert kvs' Hp'.
  induction kvs as [|[k v] kvs IH]; intros [|[k' v'] kvs'] [= ]; [done|]. subst. f_equal. by apply IH.
Qed.

(** A value represents one tree. *)
Lemma represents_unique h v t : represents h v t -> forall t', represents h v t' -> t = t'.
Proof.
  induction 1 as [| | | |l vs ts Ha Hlen _ IH|l kvs ts Ho Hk _ IH]; intros t'; inversion 1 as [| | | |? vs' ts' Ha' Hlen' Hrep|? kvs' ts' Ho' Hk' Hrep];
    subst; try done.
  - rewrite <- (plain_array_values _ _ _ Ha Ha') in *. f_equal. apply (list_eq_same_length _ _ (length vs)); [done|done|].
    intros i x y Hi Hx Hy. destruct (lookup_lt_is_Some_2 vs i Hi) as [v Hv]. eapply IH; eauto.
  - destruct Ha as [Ha _], Ho' as [Ho' _]. congruence.
  - destruct Ho as [Ho _], Ha' as [Ha' _]. congruence.
  - rewrite <- (plain_object_values _ _ _ Ho Ho') in *. f_equal. assert (ts.*2 = ts'.*2) as H2.
    { apply (f_equal length) in Hk, Hk'. rewrite !length_fmap in Hk, Hk'.
      apply (list_eq_same_length _ _ (length kvs)); [rewrite length_fmap; lia|rewrite length_fmap; lia|].
      intros i x y Hi Hx Hy. destruct (lookup_lt_is_Some_2 kvs.*2 i) as [v Hv]; [by rewrite length_fmap|]. eapply IH; eauto. }
    rewrite <- (zip_fst_snd ts), <- (zip_fst_snd ts'). by rewrite <- Hk, <- Hk', H2.
Qed.

(** ** The recursive walk *)

Section Walk.
Context (h : objects) (Hok : objects_ok h).

(** The walk as a recursion on the depth. *)
Fixpoint visit (depth : nat) (active : gset loc) (v : jsvalue) : Result SessionError unit :=
  match v with
  | VNull | VString _ | VBool _ => Ok tt
  | VNumber n => if is_finite n then Ok tt else invalidPayload (js "contains a non-finite number")
  | VUndefined | VOther _ => invalidPayload (js "contains " ++ typeof v)
  | VObject l =>
      if bool_decide (l ∈ active) then invalidPayload (js "contains a cycle")
      else let* values := object_values (object_at h l) in
           match depth with
           | O => invalidPayload []
           | S depth => rfold (fun _ u => visit depth ({[l]} ∪ active) u) tt values
           end
  end.

(** A chain of distinct objects is no longer than the heap. *)
Definition room (active : gset loc) : nat := size (dom h ∖ active).

Lemma room_enter l active : l ∉ active -> is_Some (h !! l) -> (room ({[l]} ∪ active) < room active)%nat.
Proof.
  intros Hl Hh. unfold room. apply subset_size. apply elem_of_dom in Hh. split; [set_solver|]. intros Hs.
  assert (l ∈ dom h ∖ ({[l]} ∪ active)) as Hin by (apply Hs; set_solver). set_solver.
Qed.

(** Only objects of the heap have values. *)
Lemma values_room l active values n : l ∉ active -> object_values (object_at h l) = Ok values -> values <> [] ->
  (room active < S n)%nat -> (room ({[l]} ∪ active) < n)%nat.
Proof.
  intros Hl Hv Hne Hr. assert (is_Some (h !! l)) as Hh.
  { unfold object_at in Hv. destruct (h !! l); [done|]. vm_compute in Hv. by injection Hv as <-. }
  pose proof (room_enter l active Hl Hh). lia.
Qed.

Abbreviation loop := (validation_loop h).

(** The loop performs the walk and restores the active set. *)
Lemma loop_visit_all n active (IH : forall v, exists k, forall fuel stack,
    loop (k + fuel) active (F_value v :: stack) =
    match visit n active v with Ok _ => loop fuel active stack | Err e => Some (Err e) end) values :
  exists k, forall fuel stack, loop (k + fuel) active (map F_value values ++ stack) =
    match rfold (fun _ u => visit n active u) tt values with Ok _ => loop fuel active stack | Err e => Some (Err e) end.
Proof.
  induction values as [|v values [k2 H2]]; [by exists 0%nat|]. destruct (IH v) as [k1 H1]. exists (k1 + k2)%nat. intros fuel stack.
  cbn [map app rfold]. rewrite <- Nat.add_assoc, H1. destruct (visit n active v) as [[]|]; [apply H2|done].
Qed.

Lemma loop_visit n : forall active, (room active < n)%nat -> forall v, exists k, forall fuel stack,
  loop (k + fuel) active (F_value v :: stack) =
  match visit n active v with Ok _ => loop fuel active stack | Err e => Some (Err e) end.
Proof.
  induction n as [|n IH]; intros active Hn v; [lia|].
  destruct v as [| |b|x|s|l|t]; try (exists 1%nat; intros fuel stack; simpl; by try destruct (is_finite x)).
  destruct (decide (l ∈ active)) as [Hl|Hl].
  { exists 1%nat. intros fuel stack. simpl. by rewrite bool_decide_eq_true_2. }
  destruct (object_values (object_at h l)) as [values|e] eqn:Hv.
  2:{ exists 1%nat. intros fuel stack. simpl. by rewrite bool_decide_eq_false_2, Hv. }
  assert (exists k, forall fuel stack, loop (k + fuel) ({[l]} ∪ active) (map F_value values ++ stack) =
    match rfold (fun _ u => visit n ({[l]} ∪ active) u) tt values with
    | Ok _ => loop fuel ({[l]} ∪ active) stack | Err e => Some (Err e) end) as [k Hk].
  { destruct values as [|v values]; [by exists 0%nat|]. apply loop_visit_all, IH. by eapply values_room. }
  exists (S (k + 1))%nat. intros fuel stack. cbn [Nat.add validation_loop visit]. rewrite bool_decide_eq_false_2, Hv by done.
  cbn [rbind]. rewrite <- Nat.add_assoc, Hk. destruct (rfold _ tt values); [|done]. cbn [Nat.add validation_loop].
  by replace (({[l]} ∪ active) ∖ {[l]}) with active by set_solver.
Qed.

Lemma rfold_all n active values :
  rfold (fun _ u => visit n active u) tt values = Ok tt <-> Forall (fun u => visit n active u = Ok tt) values.
Proof.
  induction values as [|v values IH]; [done|]. cbn [rfold]. rewrite Forall_cons, <- IH.
  destruct (visit n active v) as [[]|]; cbn [rbind]; [by intuition|]. split; [done|]. by intros [? _].
Qed.

Lemma Forall_choice {A B} (R : A -> B -> Prop) l : Forall (fun x => exists y, R x y) l ->
  exists k, length l = length k /\ forall i x y, l !! i = Some x -> k !! i = Some y -> R x y.
Proof.
  intros Hl. assert (exists k, Forall2 R l k) as [k Hk].
  { induction Hl as [|x l [y Hy] _ [k Hk]]; [by exists []|]. exists (y :: k). by constructor. }
  exists k. split; [by eapply Forall2_length|]. intros i x y Hx Hy. by eapply Forall2_lookup_lr.
Qed.

(** What the walk accepts is a tree. *)
Lemma visit_sound n : forall active v, visit n active v = Ok tt -> exists t, represents h v t.
Proof.
  induction n as [|n IH]; intros active v Hv; destruct v as [| |b|x|s|l|t]; cbn [visit] in Hv;
    try done; try (by eexists; constructor); try (destruct (is_finite x) eqn:Hx; [|done]; by eexists; constructor).
  - case_bool_decide; [done|]. by destruct (object_values _).
  - case_bool_decide; [done|]. apply rbind_Ok_inv in Hv as (values & Hvals & Hv). apply rfold_all in Hv.
    assert (Forall (fun u => exists t, represents h u t) values) as Hall by (eapply Forall_impl; [exact Hv|]; intros u; apply IH).
    destruct (Forall_choice _ _ Hall) as (ts & Hlen & Hrep). destruct (o_isArray (object_at h l)) eqn:Ha.
    + apply array_values in Hvals; [|done]. exists (JArray ts). by eapply rep_array.
    + apply object_values_plain in Hvals as (kvs & Ho & ->); [|done|apply Hok]. rewrite length_fmap in Hlen.
      exists (JObject (zip kvs.*1 ts)). eapply rep_object; [exact Ho| |].
      * rewrite fst_zip; [done|]. rewrite length_fmap. lia.
      * rewrite snd_zip; [done|]. rewrite length_fmap. lia.
Qed.

(** The objects being visited represent larger trees. *)
Definition above (active : gset loc) (t : json) : Prop :=
  forall a, a ∈ active -> exists ta, represents h (VObject a) ta /\ (json_size t < json_size ta)%nat.

Lemma above_enter active l t u : represents h (VObject l) t -> above active t -> (json_size u < json_size t)%nat ->
  above ({[l]} ∪ active) u.
Proof.
  intros Hl Ha Hu a [->%elem_of_singleton|Hin]%elem_of_union; [by exists t|]. destruct (Ha a Hin) as (ta & Hta & Hlt). exists ta. split; [done|lia].
Qed.

(** The values of an object that is a tree are smaller trees. *)
Lemma represents_values l t : represents h (VObject l) t -> exists values, object_values (object_at h l) = Ok values /\
  forall v, v ∈ values -> exists u, represents h v u /\ (json_size u < json_size t)%nat.
Proof.
  intros Hr. inversion Hr as [| | | |? vs ts Ha Hlen Hrep|? kvs ts Ho Hk Hrep]; subst.
  - exists vs. split; [apply array_values; [apply Ha|done]|]. intros v [i Hv]%list_elem_of_lookup_1.
    destruct (lookup_lt_is_Some_2 ts i) as [u Hu]; [rewrite <- Hlen; by eapply lookup_lt_Some|]. exists u.
    split; [by eapply Hrep|by eapply json_size_element].
  - exists kvs.*2. split; [apply object_values_plain; [apply Ho|apply Hok|by exists kvs]|]. intros v [i Hv]%list_elem_of_lookup_1.
    destruct (lookup_lt_is_Some_2 ts.*2 i) as [u Hu].
    { apply lookup_lt_Some in Hv. apply (f_equal length) in Hk. rewrite !length_fmap in *. lia. }
    exists u. split; [by eapply Hrep|by eapply json_size_property].
Qed.

(** Every tree is accepted. *)
Lemma visit_complete n : forall active v t, (room active < n)%nat -> represents h v t -> above active t -> visit n active v = Ok tt.
Proof.
  induction n as [|n IH]; intros active v t Hn Hr Ha; [lia|].
  destruct v as [| |b|x|s|l|tag]; try by inversion Hr.
  - inversion Hr as [| |? Hx| | |]; subst. simpl. by rewrite Hx.
  - assert (l ∉ active) as Hl.
    { intros Hin. destruct (Ha l Hin) as (ta & Hta & Hlt). rewrite (represents_unique _ _ _ Hr _ Hta) in Hlt. lia. }
    destruct (represents_values l t Hr) as (values & Hvals & Hsmall). cbn [visit]. rewrite bool_decide_eq_false_2, Hvals by done.
    cbn [rbind]. apply rfold_all, Forall_forall. intros v Hv. destruct (Hsmall v Hv) as (u & Hu & Hlt). apply (IH _ _ u); [|done|].
    + eapply values_room; [done|done| |done]. intros ->. by apply elem_of_nil in Hv.
    + by eapply above_enter.
Qed.

Lemma visit_errors n : forall active v e, visit n active v = Err e -> err_code e = C_invalid_payload.
Proof.
  induction n as [|n IH]; intros active v e; destruct v as [| |b|x|s|l|t]; cbn [visit]; try done;
    try (by intros [= <-]); try (destruct (is_finite x); [done|by intros [= <-]]); (case_bool_decide; [by intros [= <-]|]);
    destruct (object_values (object_at h l)) as [values|e'] eqn:Hv; cbn [rbind]; try (intros [= <-]; by eapply object_values_errors).
  - by intros [= <-].
  - clear Hv. induction values as [|u values IHv]; [done|]. cbn [rfold].
    destruct (visit n ({[l]} ∪ active) u) as [[]|e'] eqn:Hu; cbn [rbind]; [done|]. intros [= <-]. by eapply IH.
Qed.

(** C7: the check ends on every value, however the objects refer to each other:
    it passes exactly the values that are JSON trees (finite numbers, plain
    arrays and objects with enumerable data properties, no cycles) and rejects
    the others as an invalid payload. *)
Theorem assertJsonSerializable_decides (v : jsvalue) :
  exists n, forall fuel, (n <= fuel)%nat ->
    match assertJsonSerializable h fuel v with
    | Some (Ok _) => exists t, represents h v t
    | Some (Err e) => err_code e = C_invalid_payload /\ forall t, ~ represents h v t
    | None => False
    end.
Proof.
  destruct (loop_visit (S (room ∅)) ∅ ltac:(lia) v) as [k Hk]. exists k. intros fuel Hfuel.
  unfold assertJsonSerializable. replace fuel with (k + (fuel - k))%nat by lia. rewrite Hk.
  destruct (visit (S (room ∅)) ∅ v) as [[]|e] eqn:Hv.
  - assert (validation_loop h (fuel - k) ∅ [] = Some (Ok tt)) as -> by (by destruct (fuel - k)%nat). by eapply visit_sound.
  - split; [by eapply visit_errors|]. intros t Ht.
    rewrite (visit_complete (S (room ∅)) ∅ v t) in Hv; [done|lia|done|]. intros a Hin. by apply elem_of_empty in Hin.
Qed.
End Walk.

(** ** An example *)

Definition ex_property (name : jstring) (v : jsvalue) : property := {| p_name := name; p_enumerable := true; p_value := Some v |}.

(** [{ a: shared, b: shared }] with [shared = [true]]; with [cyclic] the array
    holds the object instead. *)
Definition ex_objects (cyclic : bool) : objects :=
  {[ 1%positive := {| o_isArray := false; o_prototype := Proto_object; o_length := 0; o_symbols := 0;
                      o_properties := [ex_property (js "a") (VObject 2%positive); ex_property (js "b") (VObject 2%positive)] |};
     2%positive := {| o_isArray := true; o_prototype := Proto_array; o_length := 1; o_symbols := 0;
                      o_properties := [ex_property (js "0") (if cyclic then VObject 1%positive else VBool true)] |} ]}.

Lemma ex_objects_ok cyclic : objects_ok (ex_objects cyclic).
Proof.
  intros l. unfold object_at, ex_objects. destruct (decide (l = 1%positive)) as [-> | H1]; [|destruct (decide (l = 2%positive)) as [-> | H2]].
  - rewrite lookup_insert. apply (bool_decide_unpack _). vm_compute. done.
  - rewrite lookup_insert_ne, lookup_singleton by done. apply NoDup_singleton.
  - rewrite lookup_insert_ne, lookup_singleton_ne by done. apply NoDup_nil_2.
Qed.

Example shared_accepted : assertJsonSerializable (ex_objects false) 10 (VObject 1%positive) = Some (Ok tt).
Proof. vm_compute. reflexivity. Qed.

Example cycle_rejected : assertJsonSerializable (ex_objects true) 10 (VObject 1%positive) = Some (invalidPayload (js "contains a cycle")).
Proof. vm_compute. reflexivity. Qed.

Lemma assertJsonSerializable_decides_witness :
  exists n, forall fuel, (n <= fuel)%nat ->
    match assertJsonSerializable (ex_objects true) fuel (VObject 1%positive) with
    | Some (Ok _) => exists t, represents (ex_objects true) (VObject 1%positive) t
    | Some (Err e) => err_code e = C_invalid_payload /\ forall t, ~ represents (ex_objects true) (VObject 1%positive) t
    | None => False
    end.
Proof. apply (assertJsonSerializable_decides (ex_objects true) (ex_objects_ok true) (VObject 1%positive)). Defined.
