(* ===== verification/JsonlRepo.v ===== *)
(** * JSONL session repository

    packages/agent/src/harness/session/jsonl/repo.ts: where session files live,
    creating, opening, listing, deleting and forking sessions.

    The repo's own state is the set of destinations being created and the
    memoized root; [fresh] is what [uuidv7()] returns and [now] is [Date.now()].
    Each operation runs alone here; [claim] and [release] model the interleaving
    of concurrent creations. *)

From stdpp Require Import base list gmap strings pretty.
From Stdlib Require Import ZArith Lia.
From S2P Require Import Prelude SessionTypes SessionState SessionStorage Numbers Truncate SessionContext Compaction Json JsonProperties JsonViews SessionJson Jsonl.

Open Scope Z_scope.
Open Scope io_scope.

(** ** Names *)

Definition alphanumeric (u : Z) : bool :=
  ((65 <=? u) && (u <=? 90)) || ((97 <=? u) && (u <=? 122)) || ((48 <=? u) && (u <=? 57)).

(** [[A-Za-z0-9._-]] *)
Definition id_character (u : Z) : bool := alphanumeric u || (u =? 46) || (u =? 95) || (u =? 45).

(** [/^[A-Za-z0-9](?:[A-Za-z0-9._-]*[A-Za-z0-9])?$/] *)
Definition SESSION_ID_PATTERN (id : jstring) : bool :=
  match id with
  | [] => false
  | first :: rest =>
      alphanumeric first &&
      match last rest with
      | None => true
      | Some final => forallb id_character (take (length rest - 1) rest) && alphanumeric final
      end
  end.

Definition validateSessionId (id : jstring) : Result SessionError unit :=
  if SESSION_ID_PATTERN id then Ok tt
  else Err (session_error C_invalid_payload
         (js "Session id must be non-empty, contain only alphanumeric characters, '-', '_', and '.', and start and end with an alphanumeric character")).

Definition is_slash (u : Z) : bool := (u =? 47) || (u =? 92).

(** [cwd.replace(/^[/\\]/, "").replace(/[/\\:]/g, "-")] between dashes. *)
Definition jsonlSessionDirectoryName (cwd : jstring) : jstring :=
  let relative := match cwd with u :: rest => if is_slash u then rest else cwd | [] => [] end in
  js "--" ++ map (fun u => if is_slash u || (u =? 58) then 45 else u) relative ++ js "--".

(** ** Dates *)

(** Year, month and day of a day number, with years that start in March. *)
Definition civil_of_days (days : Z) : Z * Z * Z :=
  let z := days + 719468 in
  let era := z / 146097 in
  let doe := z mod 146097 in
  let yoe := (doe - doe / 1460 + doe / 36524 - doe / 146096) / 365 in
  let doy := doe - (365 * yoe + yoe / 4 - yoe / 100) in
  let mp := (5 * doy + 2) / 153 in
  let month := if mp <? 10 then mp + 3 else mp - 9 in
  (yoe + era * 400 + (if month <=? 2 then 1 else 0), month, doy - (153 * mp + 2) / 5 + 1).

Definition padded (width : nat) (z : Z) : jstring :=
  let digits := js_of_Z z in replicate (width - length digits) 48 ++ digits.

(** [new Date(time).toISOString()] of a time value. *)
Definition toISOString (time : Z) : jstring :=
  let '(year, month, day) := civil_of_days (time / 86400000) in
  let ms := time mod 86400000 in
  let year := if (0 <=? year) && (year <=? 9999) then padded 4 year
              else (if year <? 0 then js "-" else js "+") ++ padded 6 (Z.abs year) in
  year ++ js "-" ++ padded 2 month ++ js "-" ++ padded 2 day ++ js "T" ++
  padded 2 (ms / 3600000) ++ js ":" ++ padded 2 (ms / 60000 mod 60) ++ js ":" ++ padded 2 (ms / 1000 mod 60) ++ js "." ++
  padded 3 (ms mod 1000) ++ js "Z".

Definition sessionFileName (createdAt : Z) (id : jstring) : jstring :=
  map (fun u => if (u =? 58) || (u =? 46) then 45 else u) (toISOString createdAt) ++ js "_" ++ id ++ js ".jsonl".

(** ** State *)

Record JsonlSessionCreateOptions := {
  jo_id : option jstring;
  jo_parentSessionId : option jstring;
  jo_cwd : jstring;
  jo_metadata : option fields }.

Record JsonlSessionRepo := {
  jr_sessionsRootInput : jstring;
  jr_activeCreateDestinations : list jstring;
  jr_rootPromise : option (Result JsonlFailure jstring) }.

Record Destination := { ds_id : jstring; ds_cwd : jstring }.

Definition with_active (s : JsonlSessionRepo) (active : list jstring) : JsonlSessionRepo :=
  {| jr_sessionsRootInput := jr_sessionsRootInput s; jr_activeCreateDestinations := active; jr_rootPromise := jr_rootPromise s |}.

Definition destination_key (d : Destination) : jstring := ds_cwd d ++ 0 :: ds_id d.

(** The two ends of [claimCreateDestination]. *)
Definition claim (d : Destination) (s : JsonlSessionRepo) : Result SessionError JsonlSessionRepo :=
  if bool_decide (destination_key d ∈ jr_activeCreateDestinations s)
  then Err (session_error C_already_exists (js "Session already exists: " ++ ds_id d))
  else Ok (with_active s (destination_key d :: jr_activeCreateDestinations s)).

Definition release (d : Destination) (s : JsonlSessionRepo) : JsonlSessionRepo :=
  with_active s (List.filter (fun k => negb (bool_decide (k = destination_key d))) (jr_activeCreateDestinations s)).

(** A JSON tree is serializable when its numbers are finite. *)
Fixpoint json_finite (t : json) : bool :=
  match t with
  | JNumber n => is_finite n
  | JArray l => forallb json_finite l
  | JObject l => forallb (fun p => json_finite p.2) l
  | _ => true
  end.

Definition assertMetadata (metadata : option fields) : Result SessionError unit :=
  rguard match metadata with Some m => json_finite (JObject m) | None => true end
    (session_error C_invalid_payload (js "Durable payload contains a non-finite number")).

(** ** Listing and loading *)

Module Repo.
Section Repo.
Context {W : Type} `{JsonlFileSystem W}.
Context (number_to_string : number -> jstring) (parse_number : jstring -> option number).

Definition jsonlSessionsRoot (sessionsRoot : jstring) : IO W jstring :=
  fileResult (fs_absolutePath sessionsRoot) (js "Failed to resolve sessions root " ++ sessionsRoot).

Definition jsonlSessionDirectory (sessionsRoot cwd : jstring) : IO W jstring :=
  fileResult (fs_joinPath [sessionsRoot; jsonlSessionDirectoryName cwd]) (js "Failed to resolve sessions directory for " ++ cwd).

Definition jsonlSessionDirectories (sessionsRoot : jstring) (cwd : option jstring) : IO W (list jstring) :=
  do! root <- jsonlSessionsRoot sessionsRoot in
  match cwd with
  | Some cwd =>
      do! resolvedCwd <- fileResult (fs_absolutePath cwd) (js "Failed to resolve session cwd " ++ cwd) in
      do! directory <- jsonlSessionDirectory root resolvedCwd in
      do! found <- fileResult (fs_exists directory) (js "Failed to check sessions directory " ++ directory) in
      io_ret (if found then [directory] else [])
  | None =>
      do! found <- fileResult (fs_exists root) (js "Failed to check sessions directory " ++ root) in
      if found : bool then
        do! entries <- fileResult (fs_listDir root) (js "Failed to list sessions directory " ++ root) in
        io_ret (map fi_path (List.filter (fun e => negb (bool_decide (fi_kind e = FK_file))) entries))
      else io_ret []
  end.

Definition is_session_file (entry : FileInfo) : bool :=
  negb (bool_decide (fi_kind entry = FK_directory)) && bool_decide (js ".jsonl" `suffix_of` fi_name entry).

(** The loop over the files of a directory. *)
Fixpoint list_files (files : list FileInfo) (metadata : list JsonlSessionMetadata) : IO W (list JsonlSessionMetadata) :=
  match files with
  | [] => io_ret metadata
  | file :: rest =>
      do! lines <- fileResult (fs_readTextLines (fi_path file) 1) (js "Failed to read session header " ++ fi_path file) in
      match head lines with
      | None | Some [] => list_files rest metadata
      | Some firstLine =>
          match decodeHeader parse_number firstLine with
          | Err _ => list_files rest metadata
          | Ok header => list_files rest (metadata ++ [metadataFromHeader header (fi_path file) (fi_mtimeMs file)])
          end
      end
  end.

Fixpoint list_directories (directories : list jstring) (metadata : list JsonlSessionMetadata) : IO W (list JsonlSessionMetadata) :=
  match directories with
  | [] => io_ret metadata
  | directory :: rest =>
      do! entries <- fileResult (fs_listDir directory) (js "Failed to list sessions directory " ++ directory) in
      do! metadata <- list_files (List.filter is_session_file entries) metadata in
      list_directories rest metadata
  end.

Definition listJsonlSessionMetadata (sessionsRoot : jstring) (cwd : option jstring) : IO W (list JsonlSessionMetadata) :=
  do! directories <- jsonlSessionDirectories sessionsRoot cwd in
  do! metadata <- list_directories directories [] in
  io_ret (sort_by (fun m => - jm_modifiedAt m) metadata).

Definition loadJsonlSessionStorage (metadata : JsonlSessionMetadata) : IO W JsonlSessionStorage :=
  do! found <- fileResult (fs_exists (jm_path metadata)) (js "Failed to check session " ++ jm_path metadata) in
  if found : bool then
    do! storage <- JsonlStorage.load number_to_string parse_number (jm_path metadata) in
    if bool_decide (jm_id (jl_metadata storage) = jm_id metadata) then io_ret storage
    else io_throw (JF_error (session_error C_invalid_entry (js "Session id does not match header: " ++ jm_id metadata)))
  else io_throw (JF_error (session_error C_not_found (js "Session not found: " ++ jm_id metadata))).

(** ** JsonlSessionRepo *)

(** A file-system computation inside the repo. *)
Definition in_world {A} (m : IO W A) : IO (JsonlSessionRepo * W) A := fun '(s, w) => let '(w, r) := m w in ((s, w), r).

Definition root : IO (JsonlSessionRepo * W) jstring := fun '(s, w) =>
  match jr_rootPromise s with
  | Some r => ((s, w), r)
  | None =>
      let '(w, r) := jsonlSessionsRoot (jr_sessionsRootInput s) w in
      (({| jr_sessionsRootInput := jr_sessionsRootInput s; jr_activeCreateDestinations := jr_activeCreateDestinations s;
           jr_rootPromise := Some r |}, w), r)
  end.

Definition sessionDirectory (cwd : jstring) : IO (JsonlSessionRepo * W) jstring :=
  do! r <- root in in_world (jsonlSessionDirectory r cwd).

Definition sessionIdExists (id cwd : jstring) : IO (JsonlSessionRepo * W) bool :=
  let suffix := js "_" ++ id ++ js ".jsonl" in
  do! directory <- sessionDirectory cwd in
  do! found <- in_world (fileResult (fs_exists directory) (js "Failed to check sessions directory " ++ directory)) in
  if found : bool then
    do! files <- in_world (fileResult (fs_listDir directory) (js "Failed to list sessions directory " ++ directory)) in
    io_ret (existsb (fun e => negb (bool_decide (fi_kind e = FK_directory)) && bool_decide (suffix `suffix_of` fi_name e)) files)
  else io_ret false.

Definition resolveCreateDestination (fresh : jstring) (options : JsonlSessionCreateOptions) : IO (JsonlSessionRepo * W) Destination :=
  let id := default fresh (jo_id options) in
  do_! io_lift (validateSessionId id) in
  do! cwd <- in_world (fileResult (fs_absolutePath (jo_cwd options)) (js "Failed to resolve session cwd " ++ jo_cwd options)) in
  io_ret {| ds_id := id; ds_cwd := cwd |}.

Definition claimCreateDestination {A} (d : Destination) (operation : IO (JsonlSessionRepo * W) A) : IO (JsonlSessionRepo * W) A :=
  fun '(s, w) =>
    match claim d s with
    | Err e => ((s, w), Err (JF_error e))
    | Ok s => let '((s, w), r) := operation (s, w) in ((release d s, w), r)
    end.

Definition prepareCreate (d : Destination) (now : Z) (options : JsonlSessionCreateOptions) :
    IO (JsonlSessionRepo * W) (JsonlV4Header * jstring) :=
  do! taken <- sessionIdExists (ds_id d) (ds_cwd d) in
  if taken : bool then io_throw (JF_error (session_error C_already_exists (js "Session already exists: " ++ ds_id d)))
  else
    do! directory <- sessionDirectory (ds_cwd d) in
    do! path <- in_world (fileResult (fs_joinPath [directory; sessionFileName now (ds_id d)])
                            (js "Failed to resolve path for session " ++ ds_id d)) in
    do_! io_lift (assertMetadata (jo_metadata options)) in
    let header := {| hd_id := ds_id d; hd_createdAt := now; hd_cwd := ds_cwd d; hd_parentSessionId := jo_parentSessionId options;
                     hd_legacyParentSessionPath := None; hd_metadata := jo_metadata options |} in
    do_! in_world (fileResult (fs_createDir directory) (js "Failed to create sessions directory")) in
    io_ret (header, path).

Definition create (fresh : jstring) (now : Z) (options : JsonlSessionCreateOptions) :
    IO (JsonlSessionRepo * W) JsonlSessionStorage :=
  do! d <- resolveCreateDestination fresh options in
  claimCreateDestination d
    (do! p <- prepareCreate d now options in in_world (JsonlStorage.create number_to_string p.2 p.1)).

Definition open (metadata : JsonlSessionMetadata) : IO (JsonlSessionRepo * W) JsonlSessionStorage :=
  in_world (loadJsonlSessionStorage metadata).

Definition list_ (cwd : option jstring) : IO (JsonlSessionRepo * W) (list JsonlSessionMetadata) := fun '(s, w) =>
  in_world (listJsonlSessionMetadata (jr_sessionsRootInput s) cwd) (s, w).

Definition delete (metadata : JsonlSessionMetadata) : IO (JsonlSessionRepo * W) unit :=
  in_world (fileResult (fs_remove (jm_path metadata)) (js "Failed to delete session " ++ jm_path metadata)).

Definition fork (fresh : jstring) (now : Z) (source : JsonlSessionMetadata) (forkOptions : ForkOptions)
    (options : JsonlSessionCreateOptions) : IO (JsonlSessionRepo * W) JsonlSessionStorage :=
  do! sourceStorage <- in_world (loadJsonlSessionStorage source) in
  let createOptions := {| jo_id := jo_id options;
                          jo_parentSessionId := Some (default (jm_id source) (jo_parentSessionId options));
                          jo_cwd := jo_cwd options; jo_metadata := jo_metadata options |} in
  do! d <- resolveCreateDestination fresh createOptions in
  claimCreateDestination d
    (do! p <- prepareCreate d now createOptions in
     in_world (JsonlStorage.fork number_to_string parse_number sourceStorage p.2 p.1 forkOptions)).
End Repo.
End Repo.
