(* ===== verification/JsonlRepoProperties.v ===== *)
(** * Sessions are created where they are found

    Names of session files, exclusive creation and what a created session is. *)

From stdpp Require Import base list gmap strings pretty.
From Stdlib Require Import ZArith Lia.
From S2P Require Import Prelude SessionTypes SessionState SessionInvariant ReducerProtocol SessionStorage Numbers Utf8 Truncate SessionContext Compaction.
From S2P Require Import Json JsonProperties JsonViews SessionJson Jsonl JsonlCodec JsonlProperties JsonlRecovery JsonlRepo.

Open Scope Z_scope.

Example epoch_iso : toISOString 0 = js "1970-01-01T00:00:00.000Z".
Proof. vm_compute. reflexivity. Qed.

Example leap_day_iso : toISOString 951868799999 = js "2000-02-29T23:59:59.999Z".
Proof. vm_compute. reflexivity. Qed.

Example before_epoch_iso : toISOString (-1) = js "1969-12-31T23:59:59.999Z".
Proof. vm_compute. reflexivity. Qed.

(** ** Names *)

(** A character that can be a part of one path component. *)
Definition component_character (u : Z) : Prop := is_slash u = false /\ u <> 58 /\ u <> 0.

Lemma id_characters id : SESSION_ID_PATTERN id = true -> Forall (fun u => id_character u = true) id.
Proof.
  destruct id as [|u rest]; [done|]. cbn [SESSION_ID_PATTERN]. intros [Hu Hr]%andb_true_iff. constructor; [unfold id_character; by rewrite Hu|].
  destruct rest as [|v rest _] using rev_ind; [done|]. rewrite last_snoc, length_app in Hr. simpl in Hr.
  replace (length rest + 1 - 1)%nat with (length rest) in Hr by lia. rewrite take_app_length in Hr.
  apply andb_true_iff in Hr as [Hrest Hv]. apply Forall_app. split.
  - apply Forall_forall. intros x Hx. rewrite forallb_forall in Hrest. apply Hrest. by apply list_elem_of_In.
  - constructor; [unfold id_character; by rewrite Hv|done].
Qed.

Lemma id_component id : SESSION_ID_PATTERN id = true -> Forall component_character id.
Proof.
  intros Hid. eapply Forall_impl; [by apply id_characters|]. intros u Hu. unfold id_character, alphanumeric, component_character, is_slash in *. lia.
Qed.

Lemma directory_component cwd : Forall (fun u => u <> 0) cwd -> Forall component_character (jsonlSessionDirectoryName cwd).
Proof.
  intros Hcwd. unfold jsonlSessionDirectoryName. apply Forall_app. split; [by repeat constructor|]. apply Forall_app. split; [|by repeat constructor].
  apply Forall_map. eapply (Forall_impl (fun u => u <> 0)).
  - destruct cwd as [|u rest]; [done|]. destruct (is_slash u); [|done]. by apply Forall_cons_1 in Hcwd as [_ Hcwd].
  - intros u Hu. unfold component_character. destruct (is_slash u) eqn:Hs; [done|]. simpl. destruct (Z.eqb_spec u 58); [done|]. done.
Qed.

Lemma padded_decimal width z : Forall decimal_character (padded width z).
Proof. unfold padded. apply Forall_app. split; [|apply js_of_Z_decimal]. apply Forall_replicate. right. lia. Qed.

(** Date characters without [:] and [.]. *)
Lemma iso_characters time : Forall (fun u => decimal_character u \/ u ∈ [43; 45; 46; 58; 84; 90]) (toISOString time).
Proof.
  assert (forall width z, Forall (fun u => decimal_character u \/ u ∈ [43; 45; 46; 58; 84; 90]) (padded width z)) as Hp.
  { intros width z. eapply Forall_impl; [apply padded_decimal|]. auto. }
  assert (forall l, forallb (fun u => bool_decide (u ∈ [43; 45; 46; 58; 84; 90])) l = true ->
            Forall (fun u => decimal_character u \/ u ∈ [43; 45; 46; 58; 84; 90]) l) as Hc.
  { intros l Hl. rewrite forallb_forall in Hl. apply Forall_forall. intros u Hu%list_elem_of_In. right. by apply (bool_decide_eq_true_1 _), Hl. }
  unfold toISOString. destruct (civil_of_days _) as [[year month] day].
  repeat match goal with |- Forall _ (_ ++ _) => apply Forall_app; split end; try apply Hp; try (by apply Hc).
  destruct ((0 <=? year) && (year <=? 9999)); [apply Hp|]. apply Forall_app. split; [|apply Hp]. destruct (year <? 0); by apply Hc.
Qed.

Lemma file_component now id : SESSION_ID_PATTERN id = true -> Forall component_character (sessionFileName now id).
Proof.
  intros Hid. unfold sessionFileName. apply Forall_app. split.
  - apply Forall_map. eapply Forall_impl; [apply iso_characters|]. intros u Hu.
    assert (decimal_character u \/ u = 43 \/ u = 45 \/ u = 46 \/ u = 58 \/ u = 84 \/ u = 90) as Hu'.
    { destruct Hu as [Hu|Hu]; [by left|]. rewrite !elem_of_cons, elem_of_nil in Hu. tauto. }
    unfold component_character, is_slash, decimal_character in *. destruct ((u =? 58) || (u =? 46)) eqn:E; lia.
  - apply Forall_app. split; [by repeat constructor|]. apply Forall_app. split; [by apply id_component|by repeat constructor].
Qed.

(** ** Exclusive creation *)

Lemma destination_key_inj d d' : SESSION_ID_PATTERN (ds_id d) = true -> SESSION_ID_PATTERN (ds_id d') = true ->
  destination_key d = destination_key d' -> d = d'.
Proof.
  intros Hd Hd' E. assert (forall id, SESSION_ID_PATTERN id = true -> 0 ∉ id) as Hnul.
  { intros id Hid Hin. pose proof (id_component id Hid) as Hc. rewrite Forall_forall in Hc. by destruct (Hc _ Hin) as (_ & _ & ?). }
  unfold destination_key in E. apply (app_separator_inj 0) in E as [E1 E2]; [|by apply Hnul|by apply Hnul].
  destruct d, d'. simpl in *. congruence.
Qed.

(** Creations in progress, and the repo they share. *)
Inductive creating (root : jstring) : list Destination -> JsonlSessionRepo -> Prop :=
| cr_start promise : creating root []
    {| jr_sessionsRootInput := root; jr_activeCreateDestinations := []; jr_rootPromise := promise |}
| cr_claim live s d s' : creating root live s -> SESSION_ID_PATTERN (ds_id d) = true -> claim d s = Ok s' -> creating root (d :: live) s'
| cr_release live1 d live2 s : creating root (live1 ++ d :: live2) s -> creating root (live1 ++ live2) (release d s).

Lemma filter_key_absent (k : jstring) l : k ∉ l -> List.filter (fun x => negb (bool_decide (x = k))) l = l.
Proof.
  induction l as [|x l IH]; [done|]. intros [Hne Hn]%not_elem_of_cons. simpl. rewrite bool_decide_eq_false_2 by done. simpl. by rewrite IH.
Qed.

Lemma release_claim d s s' : claim d s = Ok s' -> jr_activeCreateDestinations (release d s') = jr_activeCreateDestinations s.
Proof.
  unfold claim. case_bool_decide; [done|]. intros [= <-]. simpl. rewrite bool_decide_eq_true_2 by done. simpl. by apply filter_key_absent.
Qed.

Lemma creating_active root live s : creating root live s ->
  jr_activeCreateDestinations s = map destination_key live /\ NoDup (map destination_key live) /\
  Forall (fun d => SESSION_ID_PATTERN (ds_id d) = true) live.
Proof.
  induction 1 as [promise|live s d s' _ (Ha & Hd & Hp) Hid Hc|live1 d live2 s _ (Ha & Hd & Hp)].
  - split; [done|]. split; [apply NoDup_nil_2|constructor].
  - unfold claim in Hc. case_bool_decide; [done|]. injection Hc as <-. simpl. rewrite Ha. split; [done|]. rewrite Ha in *.
    split; [by apply NoDup_cons|by constructor].
  - rewrite map_app in *. simpl in *. apply NoDup_app in Hd as (Hd1 & Hd12 & [Hd2 Hd3]%NoDup_cons).
    apply Forall_app in Hp as [Hp1 [_ Hp2]%Forall_cons_1]. rewrite Ha.
    assert (destination_key d ∉ map destination_key live1) as Hd1' by (intros Hin; apply (Hd12 _ Hin); by left).
    rewrite List.filter_app. simpl. rewrite bool_decide_eq_true_2 by done. simpl. rewrite !filter_key_absent by done. split; [done|].
    split; [|by apply Forall_app]. apply NoDup_app. split; [done|]. split; [|done]. intros k Hk Hk'. apply (Hd12 _ Hk). by right.
Qed.

(** however creations and forks of one repo interleave, no two in progress
    have the same working directory and id: a second one is refused until the
    first has ended. *)
Theorem creations_exclusive (root : jstring) (live : list Destination) (s : JsonlSessionRepo) (d : Destination)
    (Hs : creating root live s) (Hid : SESSION_ID_PATTERN (ds_id d) = true) :
  NoDup live /\
  match claim d s with
  | Ok s' => (d ∉ live) /\ creating root (d :: live) s'
  | Err e => (d ∈ live) /\ err_code e = C_already_exists
  end.
Proof.
  destruct (creating_active _ _ _ Hs) as (Ha & Hd & Hp). split; [by eapply NoDup_fmap_1|].
  assert (destination_key d ∈ map destination_key live <-> d ∈ live) as Hkey.
  { split; [|apply list_elem_of_fmap_2]. intros (d' & E & Hd')%list_elem_of_fmap. rewrite Forall_forall in Hp.
    by rewrite (destination_key_inj d d' Hid (Hp _ Hd') E). }
  destruct (claim d s) as [s'|e] eqn:Hc.
  - split; [|by eapply cr_claim]. intros Hin. unfold claim in Hc. rewrite bool_decide_eq_true_2 in Hc; [done|]. rewrite Ha. by apply Hkey.
  - unfold claim in Hc. case_bool_decide as Hin; [|done]. injection Hc as <-. rewrite Ha in Hin. split; [by apply Hkey|done].
Qed.

Lemma creations_exclusive_witness :
  NoDup [{| ds_id := js "a"; ds_cwd := js "/w" |}] /\
  match claim {| ds_id := js "b"; ds_cwd := js "/w" |}
          {| jr_sessionsRootInput := js "/s"; jr_activeCreateDestinations := [destination_key {| ds_id := js "a"; ds_cwd := js "/w" |}];
             jr_rootPromise := None |} with
  | Ok s' => ({| ds_id := js "b"; ds_cwd := js "/w" |} ∉ [{| ds_id := js "a"; ds_cwd := js "/w" |}]) /\
      creating (js "/s") [{| ds_id := js "b"; ds_cwd := js "/w" |}; {| ds_id := js "a"; ds_cwd := js "/w" |}] s'
  | Err e => ({| ds_id := js "b"; ds_cwd := js "/w" |} ∈ [{| ds_id := js "a"; ds_cwd := js "/w" |}]) /\ err_code e = C_already_exists
  end.
Proof.
  apply (creations_exclusive (js "/s") [{| ds_id := js "a"; ds_cwd := js "/w" |}] _ {| ds_id := js "b"; ds_cwd := js "/w" |}); [|reflexivity].
  eapply (cr_claim (js "/s") []); [apply (cr_start (js "/s") None)|reflexivity|reflexivity].
Defined.

(** ** Created sessions *)

(** Paths, directories and existence checks leave files alone; a file exists. *)
Class RepoFileSystemSpec (W : Type) `{FileSystemSpec W} := {
  fs_absolute_keeps : forall p w w' r, fs_absolutePath p w = (w', r) -> forall q, file w' q = file w q;
  fs_join_keeps : forall ps w w' r, fs_joinPath ps w = (w', r) -> forall q, file w' q = file w q;
  fs_list_keeps : forall p w w' r, fs_listDir p w = (w', r) -> forall q, file w' q = file w q;
  fs_createDir_keeps : forall p w w' r, fs_createDir p w = (w', r) -> forall q, file w' q = file w q;
  fs_exists_spec : forall p w w' r, fs_exists p w = (w', r) ->
    (forall q, file w' q = file w q) /\ (forall t, file w p = Some t -> r <> Ok false) }.

#[export] Instance memory_files_repo : RepoFileSystemSpec MemoryFiles.
Proof.
  split; cbn [fs_absolutePath fs_joinPath fs_listDir fs_createDir fs_exists memory_files].
  1-4: by intros p w w' r [= <- <-].
  intros p w w' r [= <- <-]. split; [done|]. intros t Ht [= E]. apply bool_decide_eq_false in E. apply E.
  change (mw_files w p = Some t) in Ht. by rewrite Ht.
Qed.

Section Repo.
Context {W : Type} `{RepoFileSystemSpec W}.
Context (number_to_string : number -> jstring) (parse_number : jstring -> option number).
Abbreviation header_ok := (header_ok number_to_string parse_number).
Abbreviation create := (Repo.create number_to_string).
Abbreviation open := (Repo.open number_to_string parse_number).
Abbreviation repo_world := (JsonlSessionRepo * W)%type.

(** A computation that writes no file and keeps the claims. *)
Definition quiet {A} (m : IO repo_world A) : Prop := forall s w s' w' r, m (s, w) = ((s', w'), r) ->
  (forall q, file w' q = file w q) /\ jr_activeCreateDestinations s' = jr_activeCreateDestinations s.

Lemma quiet_ret {A} (a : A) : quiet (io_ret a).
Proof. by intros s w s' w' r [= <- <- <-]. Qed.

Lemma quiet_throw {A} e : quiet (@io_throw repo_world A e).
Proof. by intros s w s' w' r [= <- <- <-]. Qed.

Lemma quiet_lift {A} (x : Result SessionError A) : quiet (io_lift x).
Proof. destruct x; [apply quiet_ret|apply quiet_throw]. Qed.

Lemma quiet_bind {A B} (m : IO repo_world A) (k : A -> IO repo_world B) : quiet m -> (forall a, quiet (k a)) -> quiet (io_bind m k).
Proof.
  intros Hm Hk s w s' w' r Hb. apply io_bind_inv in Hb as ([s1 w1] & [a|e] & Hm1 & Hk1).
  - destruct (Hm _ _ _ _ _ Hm1) as [Hf1 Ha1], (Hk a _ _ _ _ _ Hk1) as [Hf2 Ha2]. split; [intros q; by rewrite Hf2|congruence].
  - destruct Hk1 as [[= -> ->] _]. by eapply Hm.
Qed.

Lemma quiet_file {A} (op : W -> W * Result FileError A) message :
  (forall w w' r, op w = (w', r) -> forall q, file w' q = file w q) -> quiet (Repo.in_world (fileResult op message)).
Proof.
  intros Hop s w s' w' r Hm. unfold Repo.in_world in Hm. destruct (fileResult op message w) as [w1 r1] eqn:Hr. injection Hm as <- <- <-.
  split; [|done]. by apply fileResult_inv in Hr as [(a & Hr & _)|(e & f & Hr & _)]; apply (Hop _ _ _ Hr).
Qed.

Lemma quiet_root : quiet Repo.root.
Proof.
  intros s w s' w' r Hm. unfold Repo.root in Hm. destruct (jr_rootPromise s) as [r1|]; [by injection Hm as <- <- <-|].
  unfold Repo.jsonlSessionsRoot in Hm. destruct (fileResult _ _ w) as [w1 r1] eqn:Hr. injection Hm as <- <- <-. split; [|done].
  by apply fileResult_inv in Hr as [(a & Hr & _)|(e & f & Hr & _)]; apply (fs_absolute_keeps _ _ _ _ Hr).
Qed.

Lemma quiet_sessionDirectory cwd : quiet (Repo.sessionDirectory cwd).
Proof. apply quiet_bind; [apply quiet_root|]. intros r. apply quiet_file. intros w w' x Hx. by eapply fs_join_keeps. Qed.

Lemma quiet_sessionIdExists id cwd : quiet (Repo.sessionIdExists id cwd).
Proof.
  apply quiet_bind; [apply quiet_sessionDirectory|]. intros directory. apply quiet_bind.
  { apply quiet_file. intros w w' r Hx. by apply fs_exists_spec in Hx as [Hx _]. }
  intros [|]; [|apply quiet_ret]. apply quiet_bind; [|intros; apply quiet_ret]. apply quiet_file. intros w w' r Hx. by eapply fs_list_keeps.
Qed.

Lemma quiet_prepareCreate d now options : quiet (Repo.prepareCreate d now options).
Proof.
  apply quiet_bind; [apply quiet_sessionIdExists|]. intros [|]; [apply quiet_throw|].
  apply quiet_bind; [apply quiet_sessionDirectory|]. intros directory.
  apply quiet_bind; [apply quiet_file; intros w w' r Hx; by eapply fs_join_keeps|]. intros path.
  apply quiet_bind; [apply quiet_lift|]. intros _. apply quiet_bind; [|intros; apply quiet_ret].
  apply quiet_file. intros w w' r Hx. by eapply fs_createDir_keeps.
Qed.

(** The header of a created session. *)
Definition created_header (d : Destination) (now : Z) (options : JsonlSessionCreateOptions) : JsonlV4Header :=
  {| hd_id := ds_id d; hd_createdAt := now; hd_cwd := ds_cwd d; hd_parentSessionId := jo_parentSessionId options;
     hd_legacyParentSessionPath := None; hd_metadata := jo_metadata options |}.

Lemma prepareCreate_header d now options x y header path :
  Repo.prepareCreate d now options x = (y, Ok (header, path)) -> header = created_header d now options.
Proof.
  unfold Repo.prepareCreate. intros Hp. apply io_bind_inv in Hp as (x1 & [taken|e] & _ & Hp); [|by destruct Hp].
  destruct taken; [done|]. apply io_bind_inv in Hp as (x2 & [directory|e] & _ & Hp); [|by destruct Hp].
  apply io_bind_inv in Hp as (x3 & [p|e] & _ & Hp); [|by destruct Hp].
  apply io_bind_inv in Hp as (x4 & [u|e] & _ & Hp); [|by destruct Hp].
  apply io_bind_inv in Hp as (x5 & [v|e] & _ & Hp); [|by destruct Hp]. by injection Hp as _ <- _.
Qed.

Lemma resolve_destination fresh options s w y d : Repo.resolveCreateDestination fresh options (s, w) = (y, Ok d) ->
  ds_id d = default fresh (jo_id options) /\ SESSION_ID_PATTERN (ds_id d) = true.
Proof.
  unfold Repo.resolveCreateDestination. rewrite io_bind_lift. unfold validateSessionId.
  destruct (SESSION_ID_PATTERN _) eqn:Hid; [|done]. intros Hp. apply io_bind_inv in Hp as (x1 & [cwd|e] & _ & Hp); [|by destruct Hp].
  injection Hp as _ <-. done.
Qed.

Lemma quiet_resolve fresh options : quiet (Repo.resolveCreateDestination fresh options).
Proof.
  apply quiet_bind; [apply quiet_lift|]. intros _. apply quiet_bind; [|intros; apply quiet_ret].
  apply quiet_file. intros w w' r Hx. by eapply fs_absolute_keeps.
Qed.

(** The claim is released however the operation ends. *)
Lemma claimCreate_inv {A} d (operation : IO repo_world A) s w s' w' r :
  Repo.claimCreateDestination d operation (s, w) = ((s', w'), r) ->
  (w' = w /\ s' = s /\ exists e, r = Err (JF_error e) /\ err_code e = C_already_exists) \/
  exists s1 s2, claim d s = Ok s1 /\ operation (s1, w) = ((s2, w'), r) /\ s' = release d s2.
Proof.
  unfold Repo.claimCreateDestination. destruct (claim d s) as [s1|e] eqn:Hc.
  - destruct (operation (s1, w)) as [[s2 w2] r2] eqn:Ho. intros [= <- <- <-]. right. by exists s1, s2.
  - intros [= <- <- <-]. left. split; [done|]. split; [done|]. exists e. split; [done|]. unfold claim in Hc. case_bool_decide; [|done].
    by injection Hc as <-.
Qed.

Lemma release_same_active d s1 s2 : jr_activeCreateDestinations s2 = jr_activeCreateDestinations s1 ->
  jr_activeCreateDestinations (release d s2) = jr_activeCreateDestinations (release d s1).
Proof. intros E. simpl. by rewrite E. Qed.

(** Opening what was written. *)
Lemma open_written h path modifiedAt s w s' w' r : header_ok h -> file w path = Some (file_text number_to_string parse_number h []) ->
  open (metadataFromHeader h path modifiedAt) (s, w) = ((s', w'), r) ->
  match r with
  | Ok st => jl_state st = init_state /\ jm_id (jl_metadata st) = hd_id h /\ file w' path = file w path
  | Err e => file_failure e
  end.
Proof.
  intros Hh Hf. unfold Repo.open, Repo.in_world, Repo.loadJsonlSessionStorage. cbn [metadataFromHeader jm_path jm_id].
  destruct (io_bind _ _ w) as [w1 r1] eqn:Hb. intros [= <- <- <-]. apply io_bind_inv in Hb as (w2 & r2 & He & Hk).
  apply fileResult_inv in He as [(found & He & ->)|(e & f & He & -> & Hfail)]; [|by destruct Hk as [_ ->]].
  apply fs_exists_spec in He as [Hsame Hfound]. destruct found; [|by destruct (Hfound _ Hf)].
  apply io_bind_inv in Hk as (w3 & r3 & Hload & Hk). rewrite <- (Hsame path) in Hf.
  pose proof (load_whole number_to_string parse_number h [] init_state path w2 w3 r3 Hh (Forall_nil_2 _) eq_refl Hf Hload) as Hrec.
  destruct r3 as [st|e]; [|destruct Hk as [_ ->]; apply Hrec]. destruct Hrec as ([= Hst] & Hfile & mt & Hmeta). rewrite Hmeta in Hk.
  cbn [metadataFromHeader jm_id] in Hk. rewrite bool_decide_eq_true_2 in Hk by done. injection Hk as <- <-.
  split; [done|]. split; [by rewrite Hmeta|]. by rewrite Hfile, <- (Hsame path), Hf.
Qed.

(** a session with an ill-formed id is refused before anything is touched;
    a created session is one new file with the header the caller asked for,
    opening it gives an empty session under its id, and no other file changes;
    the destination is free again however the call ends. *)
Theorem create_then_open (fresh : jstring) (now : Z) (options : JsonlSessionCreateOptions) (s s' : JsonlSessionRepo) (w w' : W)
    (r : Result JsonlFailure JsonlSessionStorage) (Hrun : create fresh now options (s, w) = ((s', w'), r)) :
  jr_activeCreateDestinations s' = jr_activeCreateDestinations s /\
  (SESSION_ID_PATTERN (default fresh (jo_id options)) = false ->
     w' = w /\ exists e, r = Err (JF_error e) /\ err_code e = C_invalid_payload) /\
  (exists path, forall q, q <> path -> file w' q = file w q) /\
  (forall st, r = Ok st -> exists d, let h := created_header d now options in
     ds_id d = default fresh (jo_id options) /\ jl_state st = init_state /\
     (forall q, q <> storage_path st -> file w' q = file w q) /\
     (header_ok h -> file w' (storage_path st) = Some (file_text number_to_string parse_number h []) /\
        forall s2 w2 r2, open (jl_metadata st) (s', w') = ((s2, w2), r2) ->
        match r2 with
        | Ok st2 => jl_state st2 = init_state /\ jm_id (jl_metadata st2) = default fresh (jo_id options)
        | Err e => file_failure e
        end)).
Proof.
  unfold Repo.create in Hrun. apply io_bind_inv in Hrun as ([s1 w1] & [d|e] & Hres & Hk).
  2:{ destruct Hk as [[= -> ->] ->]. destruct (quiet_resolve _ _ _ _ _ _ _ Hres) as [Hf Ha]. split; [done|]. split; [|split; [by exists []|done]].
      intros Hid. unfold Repo.resolveCreateDestination in Hres. rewrite io_bind_lift in Hres. unfold validateSessionId in Hres.
      rewrite Hid in Hres. injection Hres as <- <- <-. split; [done|]. by eexists. }
  destruct (quiet_resolve _ _ _ _ _ _ _ Hres) as [Hf1 Ha1]. destruct (resolve_destination _ _ _ _ _ _ Hres) as [Hid Hvalid].
  apply claimCreate_inv in Hk as [(-> & -> & e & -> & He)|(s2 & s3 & Hclaim & Hop & ->)].
  { split; [done|]. split; [rewrite <- Hid; congruence|]. split; [by exists []|done]. }
  apply io_bind_inv in Hop as ([s4 w4] & r4 & Hprep & Hk). destruct (quiet_prepareCreate _ _ _ _ _ _ _ _ Hprep) as [Hf4 Ha4].
  assert (forall s5, jr_activeCreateDestinations s5 = jr_activeCreateDestinations s4 ->
            jr_activeCreateDestinations (release d s5) = jr_activeCreateDestinations s) as Hrel.
  { intros s5 E. rewrite <- Ha1, <- (release_claim d s1 s2 Hclaim). apply release_same_active. congruence. }
  assert (forall q, file w4 q = file w q) as Hf by (intros q; by rewrite Hf4).
  destruct r4 as [[h path]|e].
  2:{ destruct Hk as [[= -> ->] ->]. split; [by apply Hrel|]. split; [rewrite <- Hid; congruence|]. split; [exists []; auto|done]. }
  apply prepareCreate_header in Hprep as ->. cbn [fst snd] in Hk. unfold Repo.in_world in Hk.
  destruct (JsonlStorage.create _ _ _ w4) as [w5 r5] eqn:Hc. injection Hk as <- <- <-.
  pose proof (create_spec _ parse_number _ _ _ _ _ Hc) as [Hframe Hout].
  assert (forall q, q <> path -> file w5 q = file w q) as Hothers by (intros q Hq; by rewrite Hframe, Hf).
  split; [by apply Hrel|]. split; [rewrite <- Hid; congruence|]. split; [by exists path|].
  intros st ->. destruct Hout as ([modifiedAt Hmeta] & Hst & Hfile). exists d. cbn zeta.
  assert (storage_path st = path) as -> by (unfold storage_path; by rewrite Hmeta).
  split; [done|]. split; [done|]. split; [done|]. intros Hh. split; [done|]. intros s6 w6 r6 Hopen. rewrite Hmeta in Hopen.
  pose proof (open_written _ _ _ _ _ _ _ _ Hh Hfile Hopen) as Hres6. destruct r6; [|done]. destruct Hres6 as (? & Hid6 & _).
  split; [done|]. by rewrite Hid6.
Qed.
End Repo.

Definition ex_options : JsonlSessionCreateOptions := {| jo_id := Some (js "b"); jo_parentSessionId := None; jo_cwd := js "/w"; jo_metadata := None |}.

Definition ex_repo : JsonlSessionRepo :=
  {| jr_sessionsRootInput := js "/s"; jr_activeCreateDestinations := []; jr_rootPromise := None |}.

Lemma create_then_open_witness :
  exists s' w' r, Repo.create example_number_to_string [] 0 ex_options (ex_repo, ex_world []) = ((s', w'), r) /\
  jr_activeCreateDestinations s' = jr_activeCreateDestinations ex_repo /\
  (SESSION_ID_PATTERN (default [] (jo_id ex_options)) = false ->
     w' = ex_world [] /\ exists e, r = Err (JF_error e) /\ err_code e = C_invalid_payload) /\
  (exists path, forall q, q <> path -> file w' q = file (ex_world []) q) /\
  (forall st, r = Ok st -> exists d, let h := created_header d 0 ex_options in
     ds_id d = default [] (jo_id ex_options) /\ jl_state st = init_state /\
     (forall q, q <> storage_path st -> file w' q = file (ex_world []) q) /\
     (header_ok example_number_to_string example_parse_number h ->
        file w' (storage_path st) = Some (file_text example_number_to_string example_parse_number h []) /\
        forall s2 w2 r2, Repo.open example_number_to_string example_parse_number (jl_metadata st) (s', w') = ((s2, w2), r2) ->
        match r2 with
        | Ok st2 => jl_state st2 = init_state /\ jm_id (jl_metadata st2) = default [] (jo_id ex_options)
        | Err e => file_failure e
        end)).
Proof.
  destruct (Repo.create example_number_to_string [] 0 ex_options (ex_repo, ex_world [])) as [[s' w'] r] eqn:Hrun.
  exists s', w', r. split; [reflexivity|].
  exact (create_then_open example_number_to_string example_parse_number [] 0 ex_options ex_repo s' (ex_world []) w' r Hrun).
Defined.

(** ** Names that collide *)

(** The file of session [a_b] ends like a file of session [b]. *)
Lemma underscore_suffix now a b : (js "_" ++ b ++ js ".jsonl") `suffix_of` sessionFileName now (a ++ js "_" ++ b).
Proof.
  exists (map (fun u => if (u =? 58) || (u =? 46) then 45 else u) (toISOString now) ++ js "_" ++ a).
  unfold sessionFileName. by rewrite <- !app_assoc.
Qed.

(** A directory that holds only session [a_b] is taken to hold session [b]. *)
Lemma underscore_id_taken {W} `{JsonlFileSystem W} now (a b cwd directory : jstring) (s : JsonlSessionRepo) (w : W) (entry : FileInfo) :
  Repo.sessionDirectory cwd (s, w) = ((s, w), Ok directory) -> fs_exists directory w = (w, Ok true) ->
  fs_listDir directory w = (w, Ok [entry]) -> fi_kind entry = FK_file -> fi_name entry = sessionFileName now (a ++ js "_" ++ b) ->
  Repo.sessionIdExists b cwd (s, w) = ((s, w), Ok true).
Proof.
  intros Hd He Hl Hk Hn. unfold Repo.sessionIdExists, io_bind at 1. rewrite Hd. unfold io_bind, Repo.in_world, fileResult. rewrite He, Hl.
  unfold io_ret. cbn [existsb]. rewrite Hk, Hn, bool_decide_eq_false_2 by done. by rewrite (bool_decide_eq_true_2 _ (underscore_suffix now a b)).
Qed.

(** Different working directories share a session directory. *)
Example directory_collision : jsonlSessionDirectoryName (js "/a/b") = jsonlSessionDirectoryName (js "/a-b").
Proof. vm_compute. reflexivity. Qed.

(** A root that could not be resolved once is never resolved again. *)
Lemma root_failure_permanent {W} `{JsonlFileSystem W} (s s' : JsonlSessionRepo) (w w' w2 : W) e :
  Repo.root (s, w) = ((s', w'), Err e) -> Repo.root (s', w2) = ((s', w2), Err e).
Proof.
  unfold Repo.root. destruct (jr_rootPromise s) as [r|] eqn:Hp.
  - intros [= <- <- ->]. by rewrite Hp.
  - destruct (Repo.jsonlSessionsRoot _ w) as [w1 r1]. by intros [= <- <- ->].
Qed.
