(* ===== verification/ManagerTypes.v ===== *)
(** * Session trees of the coding agent: data

    packages/coding-agent/src/core/session-manager.ts: the entries of a session
    file and their JSON form.  Messages are those of [SessionTypes]; entries
    that a file holds in another shape than the interfaces declare are outside
    the model.  The properties of a line are written in one order for every
    entry type, where the object literals of the source put [id], [parentId] and
    [timestamp] at different places; readers look properties up by name. *)

From stdpp Require Import base list strings pretty.
From Stdlib Require Import ZArith Lia.
From S2P Require Import Prelude SessionTypes SessionState SessionContext Compaction Json JsonProperties JsonViews SessionJson.

Open Scope Z_scope.
Open Scope view_scope.

Definition CURRENT_SESSION_VERSION : Z := 3.

Record SessionHeader := {
  sh_version : option Z;
  sh_id : jstring;
  sh_timestamp : jstring;
  sh_cwd : jstring;
  sh_parentSession : option jstring }.

(** What each entry type adds to [SessionEntryBase]. *)
Inductive SessionEntryPayload :=
| SE_message (message : AgentMessage)
| SE_thinking_level_change (thinkingLevel : jstring)
| SE_model_change (provider modelId : jstring)
| SE_preset_change (presetId : jstring)
| SE_compaction (summary firstKeptEntryId : jstring) (tokensBefore : number) (details : option json) (usage : option Usage)
    (fromHook : option bool)
| SE_branch_summary (fromId summary : jstring) (details : option json) (usage : option Usage) (fromHook : option bool)
| SE_custom (customType : jstring) (data : option json)
| SE_custom_message (customType : jstring) (content : UserContent) (details : option json) (display : bool)
| SE_label (targetId : jstring) (label : option jstring)
| SE_session_info (name : option jstring)
| SE_state (state : fields)
| SE_schema_change (load : bool) (schemaId namespace : jstring)
| SE_strict_change (enabled : bool).

Record SessionEntry := {
  se_id : jstring;
  se_parentId : option jstring;
  se_timestamp : jstring;
  se_payload : SessionEntryPayload }.

Inductive FileEntry := FL_header (h : SessionHeader) | FL_entry (e : SessionEntry).

Definition with_payload (p : SessionEntryPayload) (e : SessionEntry) : SessionEntry :=
  {| se_id := se_id e; se_parentId := se_parentId e; se_timestamp := se_timestamp e; se_payload := p |}.

Definition with_parent (parentId : option jstring) (e : SessionEntry) : SessionEntry :=
  {| se_id := se_id e; se_parentId := parentId; se_timestamp := se_timestamp e; se_payload := se_payload e |}.

(** [fileEntries.filter((e) => e.type !== "session")] *)
Definition entries_of (l : list FileEntry) : list SessionEntry :=
  omap (fun f => match f with FL_entry e => Some e | FL_header _ => None end) l.

(** [fileEntries.find((e) => e.type === "session")] *)
Definition header_of (l : list FileEntry) : option SessionHeader :=
  head (omap (fun f => match f with FL_header h => Some h | FL_entry _ => None end) l).

Definition is_label (e : SessionEntry) : bool := match se_payload e with SE_label _ _ => true | _ => false end.
Definition is_compaction (e : SessionEntry) : bool := match se_payload e with SE_compaction _ _ _ _ _ _ => true | _ => false end.

Definition is_assistant (e : SessionEntry) : bool :=
  match se_payload e with SE_message (AM_message (M_assistant _)) => true | _ => false end.

(** ** JSON *)

Definition entry_name (p : SessionEntryPayload) : jstring :=
  match p with
  | SE_message _ => js "message" | SE_thinking_level_change _ => js "thinking_level_change"
  | SE_model_change _ _ => js "model_change" | SE_preset_change _ => js "preset_change"
  | SE_compaction _ _ _ _ _ _ => js "compaction" | SE_branch_summary _ _ _ _ _ => js "branch_summary"
  | SE_custom _ _ => js "custom" | SE_custom_message _ _ _ _ => js "custom_message"
  | SE_label _ _ => js "label" | SE_session_info _ => js "session_info" | SE_state _ => js "state"
  | SE_schema_change _ _ _ => js "schema_change" | SE_strict_change _ => js "strict_change"
  end.

Section Json.
Context (number_to_string : number -> jstring) (parse_number : jstring -> option number).
Abbreviation num := (JsonViews.num number_to_string parse_number).
Abbreviation int := (JsonViews.int number_to_string parse_number).
Abbreviation any := (JsonViews.any number_to_string parse_number).
Abbreviation record := (JsonViews.record number_to_string parse_number).
Abbreviation lawful := (obj_law number_to_string parse_number).
Abbreviation lawful_view := (view_law number_to_string parse_number).
Abbreviation usage := (object (usage_obj number_to_string parse_number)).

Definition action_view : View bool := enum [(js "load", true); (js "unload", false)].

Definition entryPayload_obj : Obj SessionEntryPayload :=
  union (js "type") entry_name
    [(js "message", variant SE_message (fun p => match p with SE_message m => Some m | _ => None end)
        (field (js "message") (object (message_obj number_to_string parse_number))));
     (js "thinking_level_change", variant SE_thinking_level_change (fun p => match p with SE_thinking_level_change l => Some l | _ => None end)
        (field (js "thinkingLevel") str));
     (js "model_change", variant (fun '(a, b) => SE_model_change a b) (fun p => match p with SE_model_change a b => Some (a, b) | _ => None end)
        (field (js "provider") str ** field (js "modelId") str));
     (js "preset_change", variant SE_preset_change (fun p => match p with SE_preset_change a => Some a | _ => None end)
        (field (js "presetId") str));
     (js "compaction", variant (fun '(a, (b, (c, (d, (e, f))))) => SE_compaction a b c d e f)
        (fun p => match p with SE_compaction a b c d e f => Some (a, (b, (c, (d, (e, f))))) | _ => None end)
        (field (js "summary") str ** field (js "firstKeptEntryId") str ** field (js "tokensBefore") num ** opt (js "details") any **
         opt (js "usage") usage ** opt (js "fromHook") boolean));
     (js "branch_summary", variant (fun '(a, (b, (c, (d, e)))) => SE_branch_summary a b c d e)
        (fun p => match p with SE_branch_summary a b c d e => Some (a, (b, (c, (d, e)))) | _ => None end)
        (field (js "fromId") str ** field (js "summary") str ** opt (js "details") any ** opt (js "usage") usage **
         opt (js "fromHook") boolean));
     (js "custom", variant (fun '(a, b) => SE_custom a b) (fun p => match p with SE_custom a b => Some (a, b) | _ => None end)
        (field (js "customType") str ** opt (js "data") any));
     (js "custom_message", variant (fun '(a, (b, (c, d))) => SE_custom_message a b c d)
        (fun p => match p with SE_custom_message a b c d => Some (a, (b, (c, d))) | _ => None end)
        (field (js "customType") str ** field (js "content") userContent_view ** opt (js "details") any ** field (js "display") boolean));
     (js "label", variant (fun '(a, b) => SE_label a b) (fun p => match p with SE_label a b => Some (a, b) | _ => None end)
        (field (js "targetId") str ** opt (js "label") str));
     (js "session_info", variant SE_session_info (fun p => match p with SE_session_info a => Some a | _ => None end) (opt (js "name") str));
     (js "state", variant SE_state (fun p => match p with SE_state a => Some a | _ => None end) (field (js "state") record));
     (js "schema_change", variant (fun '(a, (b, c)) => SE_schema_change a b c)
        (fun p => match p with SE_schema_change a b c => Some (a, (b, c)) | _ => None end)
        (field (js "action") action_view ** field (js "schemaId") str ** field (js "namespace") str));
     (js "strict_change", variant SE_strict_change (fun p => match p with SE_strict_change a => Some a | _ => None end)
        (field (js "enabled") boolean))].

(** [id], [parentId] and [timestamp] are common to all. *)
Definition sessionEntry_obj : Obj SessionEntry :=
  iso (fun '(p, (i, (q, t))) => {| se_id := i; se_parentId := q; se_timestamp := t; se_payload := p |})
    (fun x => (se_payload x, (se_id x, (se_parentId x, se_timestamp x))))
    (entryPayload_obj ** field (js "id") str ** field (js "parentId") nullable_str ** field (js "timestamp") str).

Definition sessionHeader_obj : Obj SessionHeader :=
  iso (fun '(v, (i, (t, (c, p)))) => {| sh_version := v; sh_id := i; sh_timestamp := t; sh_cwd := c; sh_parentSession := p |})
    (fun x => (sh_version x, (sh_id x, (sh_timestamp x, (sh_cwd x, sh_parentSession x)))))
    (opt (js "version") int ** field (js "id") str ** field (js "timestamp") str ** field (js "cwd") str ** opt (js "parentSession") str).

(** The header says [type: "session"]. *)
Definition fileEntry_json (f : FileEntry) : fields :=
  match f with
  | FL_header h => (js "type", JString (js "session")) :: o_write sessionHeader_obj h
  | FL_entry e => o_write sessionEntry_obj e
  end.

Definition fileEntry_of (l : fields) : option FileEntry :=
  if bool_decide (map_get (js "type") l = Some (JString (js "session"))) then FL_header <$> o_read sessionHeader_obj l
  else FL_entry <$> o_read sessionEntry_obj l.

(** [JSON.stringify(entry)] *)
Definition entry_line (f : FileEntry) : jstring := json_stringify number_to_string (JObject (fileEntry_json f)).

(** ** Laws *)

#[local] Hint Resolve message_law usage_law userContent_law : views.

Lemma action_law : lawful_view action_view.
Proof. apply enum_law. Qed.
#[local] Hint Resolve action_law : views.

Lemma entryPayload_law : lawful entryPayload_obj.
Proof. unfold entryPayload_obj. union_law. Qed.
#[local] Hint Resolve entryPayload_law : views.

Lemma sessionEntry_law : lawful sessionEntry_obj.
Proof. unfold sessionEntry_obj. view_law. by intros []. Qed.

Lemma sessionHeader_law : lawful sessionHeader_obj.
Proof. unfold sessionHeader_obj. view_law. by intros []. Qed.
End Json.
