(* ===== verification/SessionManager.v ===== *)
(** * Session trees of the coding agent

    packages/coding-agent/src/core/session-manager.ts: a session is an
    append-only tree of entries in one file, with a leaf that moves.  The
    manager keeps the entries, an index by id, the labels and the leaf, and
    writes the file lazily: nothing before the first assistant message, then
    everything, then one line per entry.

    The environment [W] is a synchronous storage (harness/env/storage-backend.ts)
    with the sources of ids and time.  Paths arrive resolved; [join] is
    [path.join] and [date_of] the time value of an ISO timestamp.  Large state
    snapshots in an object store are not modelled. *)

From stdpp Require Import base list strings pretty.
From Stdlib Require Import ZArith Lia.
From S2P Require Import Prelude SessionTypes SessionState SessionContext Numbers Compaction Truncate EditDiff Json JsonProperties JsonViews SessionJson JsonlRepo ManagerTypes.

Open Scope Z_scope.

(** ** Entries and paths *)

(** A string used as a condition. *)
Definition truthy (s : option jstring) : option jstring := match s with Some (_ :: _) => s | _ => None end.

Definition getLatestCompactionEntry (entries : list SessionEntry) : option SessionEntry := List.find is_compaction (reverse entries).

Abbreviation index := (list (jstring * SessionEntry)).

Definition buildEntryIndex (entries : list SessionEntry) : index :=
  foldl (fun m e => map_set (se_id e) e m) [] entries.

(** The walk to the root, leaf first; [None] when it takes more than [fuel]
    steps. *)
Fixpoint walk (fuel : nat) (byId : index) (current : option SessionEntry) : option (list SessionEntry) :=
  match current with
  | None => Some []
  | Some e =>
      match fuel with
      | O => None
      | S fuel => (fun path => e :: path) <$> walk fuel byId (truthy (se_parentId e) ≫= fun id => map_get id byId)
      end
  end.

Definition walk_fuel (byId : index) : nat := S (length byId).

(** [leafId] is [None] for [undefined] and [Some None] for [null]. *)
Definition buildSessionPath (entries : list SessionEntry) (leafId : option (option jstring)) (byId : option index)
    : option (list SessionEntry) :=
  let byId := default (buildEntryIndex entries) byId in
  match leafId with
  | Some None => Some []
  | _ =>
      let leaf := truthy (mjoin leafId) ≫= fun id => map_get id byId in
      let leaf := match leaf with Some e => Some e | None => last entries end in
      reverse <$> walk (S (walk_fuel byId)) byId leaf
  end.

Record ContextSettings := { cs_thinkingLevel : jstring; cs_model : option (jstring * jstring) }.

Definition settings_step (s : ContextSettings) (e : SessionEntry) : ContextSettings :=
  match se_payload e with
  | SE_thinking_level_change level => {| cs_thinkingLevel := level; cs_model := cs_model s |}
  | SE_model_change provider modelId => {| cs_thinkingLevel := cs_thinkingLevel s; cs_model := Some (provider, modelId) |}
  | SE_message (AM_message (M_assistant m)) =>
      {| cs_thinkingLevel := cs_thinkingLevel s;
         cs_model := match asst_provider m, asst_model m with
                     | _ :: _, _ :: _ => Some (asst_provider m, asst_model m)
                     | _, _ => cs_model s
                     end |}
  | _ => s
  end.

Definition getSessionContextSettings (path : list SessionEntry) : ContextSettings :=
  foldl settings_step {| cs_thinkingLevel := js "off"; cs_model := None |} path.

Definition createCustomMessage (customType : jstring) (content : UserContent) (display : bool) (details : option json) (timestamp : Z) :
    CustomMessage :=
  {| cmsg_customType := customType; cmsg_content := content; cmsg_display := display; cmsg_details := details; cmsg_timestamp := timestamp |}.

Section Context.
Context (date_of : jstring -> Z).

Definition entryToContextMessages (e : SessionEntry) : list AgentMessage :=
  match se_payload e with
  | SE_message m => [m]
  | SE_custom_message customType content details display =>
      [AM_custom (createCustomMessage customType content display details (date_of (se_timestamp e)))]
  | SE_branch_summary fromId summary _ _ _ =>
      match summary with
      | [] => []
      | _ => [AM_branchSummary (createBranchSummaryMessage summary fromId (date_of (se_timestamp e)))]
      end
  | SE_compaction summary _ tokensBefore _ _ _ =>
      [AM_compactionSummary (createCompactionSummaryMessage summary tokensBefore (date_of (se_timestamp e)))]
  | _ => []
  end.

(** The entries from the first kept one on. *)
Fixpoint keep_from (firstKeptEntryId : jstring) (path : list SessionEntry) : list SessionEntry :=
  match path with
  | [] => []
  | e :: rest => if bool_decide (se_id e = firstKeptEntryId) then path else keep_from firstKeptEntryId rest
  end.

Definition find_index (id : jstring) (path : list SessionEntry) : option nat :=
  fst <$> list_find (fun e => se_id e = id) path.

Definition buildContextEntriesFromPath (path : list SessionEntry) : list SessionEntry :=
  match last (List.filter is_compaction path) with
  | None => path
  | Some compaction =>
      match find_index (se_id compaction) path, se_payload compaction with
      | Some compactionIdx, SE_compaction _ firstKeptEntryId _ _ _ _ =>
          compaction :: keep_from firstKeptEntryId (take compactionIdx path) ++ drop (S compactionIdx) path
      | _, _ => path
      end
  end.

Definition buildContextEntries (entries : list SessionEntry) (leafId : option (option jstring)) (byId : option index) :
    option (list SessionEntry) :=
  buildContextEntriesFromPath <$> buildSessionPath entries leafId byId.

Record BuiltContext := { bc_messages : list AgentMessage; bc_settings : ContextSettings }.

Definition buildSessionContextFromPath (path : list SessionEntry) : BuiltContext :=
  {| bc_messages := mjoin (map entryToContextMessages (buildContextEntriesFromPath path));
     bc_settings := getSessionContextSettings path |}.

Definition buildSessionContext (entries : list SessionEntry) (leafId : option (option jstring)) (byId : option index) : option BuiltContext :=
  buildSessionContextFromPath <$> buildSessionPath entries leafId byId.
End Context.

(** ** Files *)

Definition carriage (s : jstring) : jstring :=
  match last s with Some 13 => take (length s - 1) s | _ => s end.

(** [readTextLinesSync] of a text: no line after the last newline, carriage
    returns at the end of lines dropped. *)
Definition text_lines (text : jstring) : list jstring :=
  let lines := split_lines text in
  map carriage (match last lines with Some [] => take (length lines - 1) lines | _ => lines end).

Fixpoint trimStart (s : jstring) : jstring :=
  match s with [] => [] | u :: r => if is_white_space u then trimStart r else s end.

Definition trim (s : jstring) : jstring := trimStart (trimEnd s).

Definition falsy (j : json) : bool :=
  match j with
  | JNull | JBool false | JString [] => true
  | JNumber n => bool_decide (integer_value n = Some 0) || match n with S754_nan => true | _ => false end
  | _ => false
  end.

Definition raw_property (name : jstring) (j : json) : option json := match j with JObject l => map_get name l | _ => None end.

Definition is_session (j : json) : bool := bool_decide (raw_property (js "type") j = Some (JString (js "session"))).

Definition has_string_id (j : json) : bool := match raw_property (js "id") j with Some (JString _) => true | _ => false end.

Section Parse.
Context (parse_number : jstring -> option number).

Definition parseSessionEntryLine (line : jstring) : option json :=
  match trim line with [] => None | _ => json_parse parse_number line end.

(** The parsed lines; values used as [false] are skipped. *)
Definition parse_lines (lines : list jstring) : list json :=
  List.filter (fun j => negb (falsy j)) (omap parseSessionEntryLine lines).

Definition parseSessionEntries (content : jstring) : list json := omap parseSessionEntryLine (split_lines (trim content)).

(** [loadEntriesFromFile] on the lines of an existing file. *)
Definition load_lines (lines : list jstring) : list json :=
  let entries := parse_lines lines in
  match entries with
  | [] => []
  | header :: _ => if is_session header && has_string_id header then entries else []
  end.

(** [undefined] (keep scanning) is [None]; [null] is [Some None]. *)
Definition parseSessionHeaderCandidate (line : jstring) : option (option json) :=
  match trim line with
  | [] => None
  | _ =>
      match parseSessionEntryLine line with
      | None => None
      | Some entry => if falsy entry then None else if is_session entry && has_string_id entry then Some (Some entry) else Some None
      end
  end.

Definition MAX_SESSION_HEADER_SCAN_BYTES : Z := 1024 * 1024.

Inductive HeaderScan := HS_header (header : json) | HS_none | HS_limit.

Fixpoint scan_header (lines : list jstring) (scannedBytes : Z) : HeaderScan :=
  match lines with
  | [] => if scannedBytes <? MAX_SESSION_HEADER_SCAN_BYTES then HS_none else HS_limit
  | line :: rest =>
      let scannedBytes := scannedBytes + Z.of_nat (length line) + 1 in
      match parseSessionHeaderCandidate line with
      | Some (Some header) => HS_header header
      | Some None => HS_none
      | None => if MAX_SESSION_HEADER_SCAN_BYTES <=? scannedBytes then HS_limit else scan_header rest scannedBytes
      end
  end.

Definition readSessionHeader (lines : list jstring) : HeaderScan :=
  match parseSessionHeaderCandidate (default [] (head lines)) with
  | Some (Some header) => HS_header header
  | Some None => HS_none
  | None => scan_header lines 0
  end.
End Parse.
