(* ===== verification/ManagerOps.v ===== *)
(** * The session manager

    The class SessionManager of
    packages/coding-agent/src/core/session-manager.ts over a storage.  An
    operation that throws keeps what it had already changed. *)

From stdpp Require Import base list strings pretty.
From Stdlib Require Import ZArith Lia.
From S2P Require Import Prelude SessionTypes SessionState SessionContext Numbers Compaction Truncate EditDiff Json JsonProperties JsonViews SessionJson JsonlRepo Jsonl.
From S2P Require Import ManagerTypes SessionManager.

Open Scope Z_scope.

(** ** The environment *)

(** The synchronous storage, the sources of ids and the clock. *)
Class SessionEnv (W : Type) := {
  st_exists : jstring -> W -> bool;
  st_lines : jstring -> W -> Result jstring (list jstring);
  st_size : jstring -> W -> Result jstring Z;
  st_write : jstring -> jstring -> bool -> W -> W * Result jstring unit;
  st_append : jstring -> jstring -> W -> W * Result jstring unit;
  env_uuid : W -> W * jstring;
  env_uuidv7 : W -> W * jstring;
  env_now : W -> W * jstring }.

(** What is thrown; [ME_diverges] stands for a loop that does not end and
    [ME_untyped] for a file or an edit outside the declared interfaces. *)
Inductive ManagerError := ME_error (message : jstring) | ME_storage (message : jstring) | ME_diverges | ME_untyped.

Record SessionManager := {
  sm_sessionId : jstring;
  sm_sessionFile : option jstring;
  sm_sessionDir : jstring;
  sm_cwd : jstring;
  sm_persist : bool;
  sm_flushed : bool;
  sm_fileEntries : list FileEntry;
  sm_byId : index;
  sm_labelsById : list (jstring * jstring);
  sm_labelTimestampsById : list (jstring * jstring);
  sm_leafId : option jstring }.

Definition with_flushed (b : bool) (s : SessionManager) : SessionManager :=
  {| sm_sessionId := sm_sessionId s; sm_sessionFile := sm_sessionFile s; sm_sessionDir := sm_sessionDir s; sm_cwd := sm_cwd s;
     sm_persist := sm_persist s; sm_flushed := b; sm_fileEntries := sm_fileEntries s; sm_byId := sm_byId s;
     sm_labelsById := sm_labelsById s; sm_labelTimestampsById := sm_labelTimestampsById s; sm_leafId := sm_leafId s |}.

Definition with_leaf (leafId : option jstring) (s : SessionManager) : SessionManager :=
  {| sm_sessionId := sm_sessionId s; sm_sessionFile := sm_sessionFile s; sm_sessionDir := sm_sessionDir s; sm_cwd := sm_cwd s;
     sm_persist := sm_persist s; sm_flushed := sm_flushed s; sm_fileEntries := sm_fileEntries s; sm_byId := sm_byId s;
     sm_labelsById := sm_labelsById s; sm_labelTimestampsById := sm_labelTimestampsById s; sm_leafId := leafId |}.

Definition with_file (file : option jstring) (s : SessionManager) : SessionManager :=
  {| sm_sessionId := sm_sessionId s; sm_sessionFile := file; sm_sessionDir := sm_sessionDir s; sm_cwd := sm_cwd s;
     sm_persist := sm_persist s; sm_flushed := sm_flushed s; sm_fileEntries := sm_fileEntries s; sm_byId := sm_byId s;
     sm_labelsById := sm_labelsById s; sm_labelTimestampsById := sm_labelTimestampsById s; sm_leafId := sm_leafId s |}.

Definition with_session (id : jstring) (entries : list FileEntry) (s : SessionManager) : SessionManager :=
  {| sm_sessionId := id; sm_sessionFile := sm_sessionFile s; sm_sessionDir := sm_sessionDir s; sm_cwd := sm_cwd s;
     sm_persist := sm_persist s; sm_flushed := sm_flushed s; sm_fileEntries := entries; sm_byId := sm_byId s;
     sm_labelsById := sm_labelsById s; sm_labelTimestampsById := sm_labelTimestampsById s; sm_leafId := sm_leafId s |}.

Definition with_log (entries : list FileEntry) (byId : index) (leafId : option jstring) (s : SessionManager) : SessionManager :=
  {| sm_sessionId := sm_sessionId s; sm_sessionFile := sm_sessionFile s; sm_sessionDir := sm_sessionDir s; sm_cwd := sm_cwd s;
     sm_persist := sm_persist s; sm_flushed := sm_flushed s; sm_fileEntries := entries; sm_byId := byId;
     sm_labelsById := sm_labelsById s; sm_labelTimestampsById := sm_labelTimestampsById s; sm_leafId := leafId |}.

Definition with_labels (labels timestamps : list (jstring * jstring)) (s : SessionManager) : SessionManager :=
  {| sm_sessionId := sm_sessionId s; sm_sessionFile := sm_sessionFile s; sm_sessionDir := sm_sessionDir s; sm_cwd := sm_cwd s;
     sm_persist := sm_persist s; sm_flushed := sm_flushed s; sm_fileEntries := sm_fileEntries s; sm_byId := sm_byId s;
     sm_labelsById := labels; sm_labelTimestampsById := timestamps; sm_leafId := sm_leafId s |}.

(** An edit of a state, as the tree of objects takes it. *)
Inductive TreeEdit := TE_set (path : list jstring) (value : json) | TE_remove (path : list jstring) | TE_replaceRoot (value : json).

(** ** Index *)

(** [labelsById] and [labelTimestampsById] after a label entry. *)
Definition set_label (targetId : jstring) (label : option jstring) (timestamp : jstring) (s : SessionManager) : SessionManager :=
  match truthy label with
  | Some l => with_labels (map_set targetId l (sm_labelsById s)) (map_set targetId timestamp (sm_labelTimestampsById s)) s
  | None => with_labels (map_delete targetId (sm_labelsById s)) (map_delete targetId (sm_labelTimestampsById s)) s
  end.

Definition index_step (s : SessionManager) (e : SessionEntry) : SessionManager :=
  let s := with_log (sm_fileEntries s) (map_set (se_id e) e (sm_byId s)) (Some (se_id e)) s in
  match se_payload e with SE_label targetId label => set_label targetId label (se_timestamp e) s | _ => s end.

Definition buildIndex (s : SessionManager) : SessionManager :=
  foldl index_step (with_labels [] [] (with_log (sm_fileEntries s) [] None s)) (entries_of (sm_fileEntries s)).

(** ** Reads *)

(** [fromId] is [None] for [undefined]. *)
Definition getBranch (s : SessionManager) (fromId : option jstring) : option (list SessionEntry) :=
  let startId := match fromId with Some id => Some id | None => sm_leafId s end in
  reverse <$> walk (walk_fuel (sm_byId s)) (sm_byId s) (truthy startId ≫= fun id => map_get id (sm_byId s)).

Definition getLeafEntry (s : SessionManager) : option SessionEntry := truthy (sm_leafId s) ≫= fun id => map_get id (sm_byId s).

Definition getEntry (s : SessionManager) (id : jstring) : option SessionEntry := map_get id (sm_byId s).

Definition getChildren (s : SessionManager) (parentId : jstring) : list SessionEntry :=
  List.filter (fun e => bool_decide (se_parentId e = Some parentId)) (map_values (sm_byId s)).

Definition getLabel (s : SessionManager) (id : jstring) : option jstring := map_get id (sm_labelsById s).

Definition getEntries (s : SessionManager) : list SessionEntry := entries_of (sm_fileEntries s).

Definition getHeader (s : SessionManager) : option SessionHeader := header_of (sm_fileEntries s).

Definition getSessionName (s : SessionManager) : option jstring :=
  head (omap (fun e => match se_payload e with SE_session_info name => Some name | _ => None end) (reverse (getEntries s)))
    ≫= fun name => truthy (trim <$> name).

Definition contextEntries (s : SessionManager) (leafId : option (option jstring)) : option (list SessionEntry) :=
  match leafId with
  | Some None => Some []
  | _ => buildContextEntriesFromPath <$> getBranch s (mjoin leafId)
  end.

Definition sessionContext (date_of : jstring -> Z) (s : SessionManager) (leafId : option (option jstring)) : option BuiltContext :=
  buildSessionContextFromPath date_of <$> match leafId with Some None => Some [] | _ => getBranch s (mjoin leafId) end.

(** ** Trees *)

Inductive SessionTreeNode := TreeNode (entry : SessionEntry) (children : list SessionTreeNode) (label labelTimestamp : option jstring).

(** A root, or a child of a node that exists. *)
Definition is_root (byId : index) (e : SessionEntry) : bool :=
  match se_parentId e with
  | None => true
  | Some p => bool_decide (p = se_id e) || negb (map_has p byId)
  end.

(** The nodes pushed under [parentId], in the order of the entries. *)
Definition child_entries (byId : index) (entries : list SessionEntry) (parentId : jstring) : list SessionEntry :=
  List.filter (fun e => negb (is_root byId e) && bool_decide (se_parentId e = Some parentId)) entries.

(** The tree below an entry; a node holds the last entry with its id. *)
Fixpoint tree_of (date_of : jstring -> Z) (s : SessionManager) (byId : index) (fuel : nat) (e : SessionEntry) : SessionTreeNode :=
  let e := default e (map_get (se_id e) byId) in
  let children := match fuel with
                  | O => []
                  | S fuel => map (tree_of date_of s byId fuel)
                                (sort_by (fun c => date_of (se_timestamp (default c (map_get (se_id c) byId))))
                                   (child_entries byId (getEntries s) (se_id e)))
                  end in
  TreeNode e children (map_get (se_id e) (sm_labelsById s)) (map_get (se_id e) (sm_labelTimestampsById s)).

Definition getTree (date_of : jstring -> Z) (s : SessionManager) : list SessionTreeNode :=
  let entries := getEntries s in
  let byId := buildEntryIndex entries in
  map (tree_of date_of s byId (length entries)) (List.filter (is_root byId) entries).

(** ** Effects *)

Section Manager.
Context {W : Type} `{SessionEnv W}.
Context (number_to_string : number -> jstring) (parse_number : jstring -> option number) (join : jstring -> jstring -> jstring).

Definition SM (A : Type) : Type := SessionManager * W -> (SessionManager * W) * Result ManagerError A.

Definition sm_ret {A} (a : A) : SM A := fun x => (x, Ok a).
Definition sm_throw {A} (e : ManagerError) : SM A := fun x => (x, Err e).
Definition sm_bind {A B} (m : SM A) (k : A -> SM B) : SM B := fun x =>
  match m x with (x, Ok a) => k a x | (x, Err e) => (x, Err e) end.
Definition sm_get : SM SessionManager := fun x => (x, Ok x.1).
Definition sm_modify (f : SessionManager -> SessionManager) : SM unit := fun x => ((f x.1, x.2), Ok tt).
Definition sm_world {A} (m : W -> W * A) : SM A := fun x => let '(w, a) := m x.2 in ((x.1, w), Ok a).
Definition sm_storage {A} (m : W -> W * Result jstring A) : SM A := fun x =>
  let '(w, r) := m x.2 in ((x.1, w), match r with Ok a => Ok a | Err e => Err (ME_storage e) end).
End Manager.

Declare Scope sm_scope.
Delimit Scope sm_scope with sm.
Notation "'let!' x <- m 'in' k" := (sm_bind m (fun x => k)) (at level 10, x pattern, m at level 100, k at level 200) : sm_scope.
Notation "'run!' m 'in' k" := (sm_bind m (fun _ => k)) (at level 10, m at level 100, k at level 200) : sm_scope.
Open Scope sm_scope.

Section Operations.
Context {W : Type} `{SessionEnv W}.
Context (number_to_string : number -> jstring) (parse_number : jstring -> option number) (join : jstring -> jstring -> jstring).
Abbreviation SM := (SM (W := W)).

(** ** Ids *)

Fixpoint generate_loop (tries : nat) (has : jstring -> bool) : SM jstring :=
  match tries with
  | O => sm_world env_uuid
  | S tries =>
      let! uuid <- sm_world env_uuid in
      let id := take 8 uuid in
      if has id then generate_loop tries has else sm_ret id
  end.

Definition generateId (has : jstring -> bool) : SM jstring := generate_loop 100 has.

(** ** Migrations, on the objects as parsed *)

Definition raw_type (o : fields) : option json := map_get (js "type") o.

Definition session_object (o : fields) : bool := bool_decide (raw_type o = Some (JString (js "session"))).

(** [firstKeptEntryIndex] of a compaction becomes [firstKeptEntryId]; [all] are
    the entries as they are now.  An [id] that is [undefined] is not written. *)
Definition migrate_compaction (all : list fields) (o : fields) : fields :=
  match map_get (js "firstKeptEntryIndex") o with
  | Some (JNumber n) =>
      let target := match integer_value n with Some z => if 0 <=? z then all !! Z.to_nat z else None | None => None end in
      let o := match target with
               | Some t => if session_object t then o
                           else match map_get (js "id") t with
                                | Some id => map_set (js "firstKeptEntryId") id o
                                | None => map_delete (js "firstKeptEntryId") o
                                end
               | None => o
               end in
      map_delete (js "firstKeptEntryIndex") o
  | _ => o
  end.

(** The entries in [done] are migrated; the set of taken ids stays empty. *)
Fixpoint migrateV1_loop (done rest : list fields) (prevId : option jstring) : SM (list fields) :=
  match rest with
  | [] => sm_ret done
  | o :: rest =>
      if session_object o then migrateV1_loop (done ++ [map_set (js "version") (JNumber (number_of_Z 2)) o]) rest prevId
      else
        let! id <- generateId (fun _ => false) in
        let parent := match prevId with Some p => JString p | None => JNull end in
        let o := map_set (js "parentId") parent (map_set (js "id") (JString id) o) in
        let o := if bool_decide (raw_type o = Some (JString (js "compaction"))) then migrate_compaction (done ++ o :: rest) o else o in
        migrateV1_loop (done ++ [o]) rest (Some id)
  end.

Definition migrateV1ToV2 (entries : list fields) : SM (list fields) := migrateV1_loop [] entries None.

(** A [hookMessage] becomes a [custom] message. *)
Definition migrateV2_entry (o : fields) : fields :=
  if session_object o then map_set (js "version") (JNumber (number_of_Z 3)) o
  else if bool_decide (raw_type o = Some (JString (js "message"))) then
    match map_get (js "message") o with
    | Some (JObject m) =>
        if bool_decide (map_get (js "role") m = Some (JString (js "hookMessage")))
        then map_set (js "message") (JObject (map_set (js "role") (JString (js "custom")) m)) o
        else o
    | _ => o
    end
  else o.

Definition migrateV2ToV3 (entries : list fields) : list fields := map migrateV2_entry entries.

(** [header?.version ?? 1]; [None] when it is not a number. *)
Definition raw_version (entries : list fields) : option Z :=
  match List.find session_object entries with
  | None => Some 1
  | Some header =>
      match map_get (js "version") header with
      | None | Some JNull => Some 1
      | Some (JNumber n) => integer_value n
      | Some _ => None
      end
  end.

(** The migrated entries, and whether there was anything to migrate. *)
Definition migrateToCurrentVersion (entries : list fields) : SM (list fields * bool) :=
  match raw_version entries with
  | None => sm_throw ME_untyped
  | Some version =>
      if CURRENT_SESSION_VERSION <=? version then sm_ret (entries, false)
      else
        let! entries <- if version <? 2 then migrateV1ToV2 entries else sm_ret entries in
        sm_ret (if version <? 3 then migrateV2ToV3 entries else entries, true)
  end.

(** ** Persistence *)

Definition file_line (f : FileEntry) : jstring := entry_line number_to_string parse_number f ++ [newline].

Definition whole_file (entries : list FileEntry) : jstring := mjoin (map file_line entries).

(** [if (!this.persist || !this.sessionFile) return;] *)
Definition when_persistent (k : SessionManager -> jstring -> SM unit) : SM unit :=
  let! s <- sm_get in
  match sm_persist s, truthy (sm_sessionFile s) with
  | true, Some file => k s file
  | _, _ => sm_ret tt
  end.

Definition rewriteFile : SM unit :=
  when_persistent (fun s file =>
    run! sm_storage (st_write file (whole_file (sm_fileEntries s)) false) in
    sm_modify (with_flushed true)).

Definition is_conversation (f : FileEntry) : bool :=
  match f with
  | FL_entry e => match se_payload e with SE_message _ | SE_custom_message _ _ _ _ => true | _ => false end
  | FL_header _ => false
  end.

Definition flush : SM unit :=
  when_persistent (fun s _ =>
    if sm_flushed s then sm_ret tt
    else if existsb is_conversation (sm_fileEntries s) then rewriteFile else sm_ret tt).

Definition has_assistant (entries : list FileEntry) : bool := existsb is_assistant (entries_of entries).

Definition persist (entry : SessionEntry) : SM unit :=
  when_persistent (fun s file =>
    if negb (has_assistant (sm_fileEntries s)) then
      if sm_flushed s then sm_storage (st_append file (file_line (FL_entry entry))) else sm_modify (with_flushed false)
    else if negb (sm_flushed s) then
      run! sm_storage (st_write file (whole_file (sm_fileEntries s)) true) in
      sm_modify (with_flushed true)
    else sm_storage (st_append file (file_line (FL_entry entry)))).

Definition appendEntry (entry : SessionEntry) : SM unit :=
  run! sm_modify (fun s => with_log (sm_fileEntries s ++ [FL_entry entry]) (map_set (se_id entry) entry (sm_byId s)) (Some (se_id entry)) s) in
  persist entry.

(** The entry every append builds: a fresh id, the leaf as parent. *)
Definition new_entry (payload : SessionEntryPayload) : SM SessionEntry :=
  let! s <- sm_get in
  let! id <- generateId (fun id => map_has id (sm_byId s)) in
  let! timestamp <- sm_world env_now in
  sm_ret {| se_id := id; se_parentId := sm_leafId s; se_timestamp := timestamp; se_payload := payload |}.

Definition append (payload : SessionEntryPayload) : SM jstring :=
  let! entry <- new_entry payload in
  run! appendEntry entry in
  sm_ret (se_id entry).

Definition appendMessage (message : AgentMessage) : SM jstring := append (SE_message message).
Definition appendThinkingLevelChange (thinkingLevel : jstring) : SM jstring := append (SE_thinking_level_change thinkingLevel).
Definition appendPresetChange (presetId : jstring) : SM jstring := append (SE_preset_change presetId).
Definition appendModelChange (provider modelId : jstring) : SM jstring := append (SE_model_change provider modelId).
Definition appendSchemaChange (load : bool) (schemaId namespace : jstring) : SM jstring := append (SE_schema_change load schemaId namespace).
Definition appendStrictChange (enabled : bool) : SM jstring := append (SE_strict_change enabled).
Definition appendCompaction (summary firstKeptEntryId : jstring) (tokensBefore : number) (details : option json) (fromHook : option bool)
    (usage : option Usage) : SM jstring := append (SE_compaction summary firstKeptEntryId tokensBefore details usage fromHook).
Definition appendCustomEntry (customType : jstring) (data : option json) : SM jstring := append (SE_custom customType data).

(** [name.replace(/[\r\n]+/g, " ")]: [within] after a line break. *)
Fixpoint join_breaks (within : bool) (s : jstring) : jstring :=
  match s with
  | [] => []
  | u :: r =>
      if (u =? 10) || (u =? 13) then (if within then join_breaks true r else 32 :: join_breaks true r)
      else u :: join_breaks false r
  end.

Definition appendSessionInfo (name : jstring) : SM jstring := append (SE_session_info (Some (trim (join_breaks false name)))).

Definition appendCustomMessageEntry (customType : jstring) (content : UserContent) (display : bool) (details : option json)
    (id : option jstring) : SM jstring :=
  let! s <- sm_get in
  let free := match truthy id with Some i => if map_has i (sm_byId s) then None else Some i | None => None end in
  let! id <- match free with Some i => sm_ret i | None => generateId (fun id => map_has id (sm_byId s)) end in
  let! timestamp <- sm_world env_now in
  run! appendEntry {| se_id := id; se_parentId := sm_leafId s; se_timestamp := timestamp;
                      se_payload := SE_custom_message customType content details display |} in
  sm_ret id.

Definition appendLabelChange (targetId : jstring) (label : option jstring) : SM jstring :=
  let! s <- sm_get in
  if map_has targetId (sm_byId s) then
    let! entry <- new_entry (SE_label targetId label) in
    run! appendEntry entry in
    run! sm_modify (set_label targetId label (se_timestamp entry)) in
    sm_ret (se_id entry)
  else sm_throw (ME_error (js "Entry " ++ targetId ++ js " not found")).

(** ** State snapshots *)

(** [/^[0-9a-f]{64}$/] *)
Definition is_root_hash (h : jstring) : bool :=
  bool_decide (length h = 64%nat) && forallb (fun u => ((48 <=? u) && (u <=? 57)) || ((97 <=? u) && (u <=? 102))) h.

(** The snapshot a state names, when it names one. *)
Definition state_root (state : fields) : option (Result ManagerError (jstring * Z)) :=
  if map_has (js "tg") state then
    let invalid := Err (ME_error (js "Invalid state-root.v1 metadata in active session ancestry")) in
    Some match map_get (js "tg") state, map_get (js "h") state, safe_integer (map_get (js "s") state), safe_integer (map_get (js "rev") state) with
         | Some (JString tg), Some (JString h), Some size, Some rev =>
             if bool_decide (tg = js "state-root.v1") && is_root_hash h && negb (size <=? 64 * 1024) && negb (rev <? 0) then Ok (h, rev) else invalid
         | _, _, _, _ => invalid
         end
  else None.

(** The newest snapshot on the path to the leaf. *)
Definition getCommittedStateRoot : SM (option (jstring * Z)) :=
  let! s <- sm_get in
  match getBranch s None with
  | None => sm_throw ME_diverges
  | Some path =>
      match head (omap (fun e => match se_payload e with SE_state state => state_root state | _ => None end) (reverse path)) with
      | Some (Ok root) => sm_ret (Some root)
      | Some (Err e) => sm_throw e
      | None => sm_ret None
      end
  end.

Definition getStateRootRevision : SM Z :=
  let! root <- getCommittedStateRoot in
  sm_ret (match root with Some (_, rev) => rev | None => 0 end).

(** What is appended for a state: itself, or the root that the [update] of the
    tree, which the code awaits, makes of it.  [canonicalSize] is the length of
    [canonicalJsonBytes]; the revisions are integers. *)
Definition statePayload (canonicalSize : json -> Result jstring Z) (jsonTree : option (option jstring -> list TreeEdit -> SM jstring)) (state : fields) (revision : Z) (edits : list TreeEdit) : SM fields :=
  match canonicalSize (JObject state) with
  | Err e => sm_throw (ME_error e)
  | Ok size =>
      if size <=? 64 * 1024 then sm_ret state
      else
        match jsonTree with
        | None => sm_throw (ME_error (js "Large state snapshots require an ObjectStore and JsonTree"))
        | Some update =>
            let! prior <- getCommittedStateRoot in
            let! root <- match prior with
                         | None => update None [TE_replaceRoot (JObject state)]
                         | Some (h, rev) =>
                             if revision <=? rev then sm_throw (ME_error (js "Stale state revision " ++ js_of_Z revision))
                             else if negb (revision =? rev + 1) && bool_decide (edits = []) then
                               sm_throw (ME_error (js "Missing state operations between revisions " ++ js_of_Z rev ++ js " and " ++ js_of_Z revision))
                             else update (Some h) edits
                         end in
            sm_ret [(js "tg", JString (js "state-root.v1")); (js "h", JString root); (js "s", JNumber (number_of_Z size));
                    (js "rev", JNumber (number_of_Z revision))]
        end
  end.

Definition commitState (ts : option jstring) (payload : fields) : SM jstring :=
  let! s <- sm_get in
  let! id <- generateId (fun id => map_has id (sm_byId s)) in
  let! timestamp <- match ts with Some t => sm_ret t | None => sm_world env_now end in
  run! appendEntry {| se_id := id; se_parentId := sm_leafId s; se_timestamp := timestamp; se_payload := SE_state payload |} in
  sm_ret id.

(** One commit; the promise [rootWrite] starts them one after the other. *)
Definition appendState (canonicalSize : json -> Result jstring Z) (jsonTree : option (option jstring -> list TreeEdit -> SM jstring)) (state : fields)
    (revision : Z) (edits : list TreeEdit) (ts : option jstring) : SM jstring :=
  let! payload <- statePayload canonicalSize jsonTree state revision edits in
  commitState ts payload.

(** ** Sessions *)

Record NewSessionOptions := { ns_id : option jstring; ns_parentSession : option jstring }.

Definition no_options : NewSessionOptions := {| ns_id := None; ns_parentSession := None |}.

Definition session_path (dir timestamp id : jstring) : jstring :=
  join dir (map (fun u => if (u =? 58) || (u =? 46) then 45 else u) timestamp ++ js "_" ++ id ++ js ".jsonl").

Definition assertValidSessionId (id : jstring) : SM unit :=
  if SESSION_ID_PATTERN id then sm_ret tt
  else sm_throw (ME_error
         (js "Session id must be non-empty, contain only alphanumeric characters, '-', '_', and '.', and start and end with an alphanumeric character")).

Definition fresh_session (header : SessionHeader) (s : SessionManager) : SessionManager :=
  with_flushed false (with_labels [] [] (with_log [FL_header header] [] None (with_session (sh_id header) [FL_header header] s))).

Definition newSession (options : NewSessionOptions) : SM unit :=
  run! match ns_id options with Some id => assertValidSessionId id | None => sm_ret tt end in
  let! id <- match ns_id options with Some id => sm_ret id | None => sm_world env_uuidv7 end in
  let! timestamp <- sm_world env_now in
  let! s <- sm_get in
  let header := {| sh_version := Some CURRENT_SESSION_VERSION; sh_id := id; sh_timestamp := timestamp; sh_cwd := sm_cwd s;
                   sh_parentSession := ns_parentSession options |} in
  run! sm_modify (fresh_session header) in
  if sm_persist s then sm_modify (with_file (Some (session_path (sm_sessionDir s) timestamp id))) else sm_ret tt.

(** The objects of a file, as parsed; [ME_untyped] when a line is another JSON
    value. *)
Definition loadEntriesFromFile (path : jstring) : SM (list fields) := fun x =>
  if st_exists path x.2 then
    match st_lines path x.2 with
    | Err e => (x, Err (ME_storage e))
    | Ok lines =>
        match mapM (fun j => match j with JObject l => Some l | _ => None end) (load_lines parse_number lines) with
        | Some objects => (x, Ok objects)
        | None => (x, Err ME_untyped)
        end
    end
  else (x, Ok []).

Definition typed_entries (objects : list fields) : SM (list FileEntry) :=
  match mapM (fileEntry_of number_to_string parse_number) objects with
  | Some entries => sm_ret entries
  | None => sm_throw ME_untyped
  end.

Definition setSessionFile (path : jstring) : SM unit :=
  run! sm_modify (with_file (Some path)) in
  let! found <- (fun x => (x, Ok (st_exists path x.2))) in
  if found : bool then
    let! objects <- loadEntriesFromFile path in
    match objects with
    | [] =>
        run! sm_modify (fun s => with_session (sm_sessionId s) [] s) in
        let! size <- (fun x => (x, match st_size path x.2 with Ok n => Ok n | Err e => Err (ME_storage e) end)) in
        if 0 <? size then sm_throw (ME_error (js "Session file is not a valid pi session: " ++ path))
        else
          run! newSession no_options in
          run! sm_modify (with_file (Some path)) in
          run! rewriteFile in
          sm_modify (with_flushed true)
    | _ =>
        let! p <- migrateToCurrentVersion objects in
        let! entries <- typed_entries p.1 in
        let! id <- match header_of entries with Some h => sm_ret (sh_id h) | None => sm_world env_uuidv7 end in
        run! sm_modify (with_session id entries) in
        run! (if p.2 : bool then rewriteFile else sm_ret tt) in
        run! sm_modify buildIndex in
        sm_modify (with_flushed true)
    end
  else
    run! newSession no_options in
    sm_modify (with_file (Some path)).

(** ** Edits *)

Definition with_content (content : list AssistantBlock) (a : AssistantMessage) : AssistantMessage :=
  {| asst_content := content; asst_api := asst_api a; asst_provider := asst_provider a; asst_model := asst_model a;
     asst_responseModel := asst_responseModel a; asst_responseId := asst_responseId a; asst_diagnostics := asst_diagnostics a;
     asst_usage := asst_usage a; asst_rawStopReason := asst_rawStopReason a; asst_endTurn := asst_endTurn a;
     asst_stopReason := asst_stopReason a; asst_errorMessage := asst_errorMessage a; asst_deferred := asst_deferred a;
     asst_timestamp := asst_timestamp a |}.

Definition with_result_content (content : list UserBlock) (t : ToolResultMessage) : ToolResultMessage :=
  {| tres_toolCallId := tres_toolCallId t; tres_toolName := tres_toolName t; tres_content := content; tres_details := tres_details t;
     tres_usage := tres_usage t; tres_addedToolNames := tres_addedToolNames t; tres_isError := tres_isError t;
     tres_timestamp := tres_timestamp t |}.

(** [message.content = [{ type: "text", text }]]; [None] for a message whose
    interface has no content, which would gain a property outside it. *)
Definition set_content (text : jstring) (m : AgentMessage) : option AgentMessage :=
  let blocks := [text_block text] in
  match m with
  | AM_message (M_user u) => Some (AM_message (M_user {| user_content := UC_blocks blocks; user_timestamp := user_timestamp u |}))
  | AM_message (M_system u) => Some (AM_message (M_system {| sys_content := UC_blocks blocks; sys_timestamp := sys_timestamp u |}))
  | AM_message (M_assistant a) =>
      Some (AM_message (M_assistant (with_content [AB_text {| text_text := text; text_textSignature := None |}] a)))
  | AM_message (M_toolResult t) => Some (AM_message (M_toolResult (with_result_content blocks t)))
  | AM_custom c =>
      Some (AM_custom (createCustomMessage (cmsg_customType c) (UC_blocks blocks) (cmsg_display c) (cmsg_details c) (cmsg_timestamp c)))
  | AM_bashExecution _ | AM_branchSummary _ | AM_compactionSummary _ => None
  end.

(** The object is shared by the log and the index: its last occurrence in the
    log is replaced. *)
Fixpoint update_last (id : jstring) (f : SessionEntry -> SessionEntry) (l : list FileEntry) : list FileEntry :=
  match l with
  | [] => []
  | FL_entry e :: rest =>
      if bool_decide (se_id e = id) && negb (existsb (fun e => bool_decide (se_id e = id)) (entries_of rest))
      then FL_entry (f e) :: rest else FL_entry e :: update_last id f rest
  | FL_header h :: rest => FL_header h :: update_last id f rest
  end.

Definition updateMessageContent (id text : jstring) : SM bool :=
  let! s <- sm_get in
  match map_get id (sm_byId s) with
  | None => sm_ret false
  | Some entry =>
      let update payload :=
        run! sm_modify (fun s => with_log (update_last id (with_payload payload) (sm_fileEntries s))
                                   (map_set id (with_payload payload entry) (sm_byId s)) (sm_leafId s) s) in
        run! rewriteFile in
        sm_ret true in
      match se_payload entry with
      | SE_message m => match set_content text m with Some m => update (SE_message m) | None => sm_throw ME_untyped end
      | SE_custom_message customType _ details display => update (SE_custom_message customType (UC_string text) details display)
      | _ => sm_ret false
      end
  end.

(** ** Branches *)

Definition branch (branchFromId : jstring) : SM unit :=
  let! s <- sm_get in
  if map_has branchFromId (sm_byId s) then sm_modify (with_leaf (Some branchFromId))
  else sm_throw (ME_error (js "Entry " ++ branchFromId ++ js " not found")).

Definition resetLeaf : SM unit := sm_modify (with_leaf None).

Definition branchWithSummary (branchFromId : option jstring) (summary : jstring) (details : option json) (fromHook : option bool)
    (usage : option Usage) : SM jstring :=
  let! s <- sm_get in
  run! match branchFromId with
       | Some id => if map_has id (sm_byId s) then sm_ret tt else sm_throw (ME_error (js "Entry " ++ id ++ js " not found"))
       | None => sm_ret tt
       end in
  run! sm_modify (with_leaf branchFromId) in
  append (SE_branch_summary (default (js "root") branchFromId) summary details usage fromHook).

(** The path without its labels, chained again. *)
Fixpoint rechain (parentId : option jstring) (path : list SessionEntry) : list SessionEntry :=
  match path with
  | [] => []
  | e :: rest => if is_label e then rechain parentId rest else with_parent parentId e :: rechain (Some (se_id e)) rest
  end.

(** The label entries after the path; [ids] are taken. *)
Fixpoint label_entries (ids : list jstring) (parentId : option jstring) (labels : list (jstring * jstring * jstring)) : SM (list SessionEntry) :=
  match labels with
  | [] => sm_ret []
  | (targetId, label, timestamp) :: rest =>
      let! id <- generateId (fun id => bool_decide (id ∈ ids)) in
      let! entries <- label_entries (ids ++ [id]) (Some id) rest in
      sm_ret ({| se_id := id; se_parentId := parentId; se_timestamp := timestamp; se_payload := SE_label targetId (Some label) |} :: entries)
  end.

Definition createBranchedSession (leafId : jstring) : SM (option jstring) :=
  let! s <- sm_get in
  match getBranch s (Some leafId) with
  | None => sm_throw ME_diverges
  | Some [] => sm_throw (ME_error (js "Entry " ++ leafId ++ js " not found"))
  | Some path =>
      let pathWithoutLabels := rechain None path in
      let! id <- sm_world env_uuidv7 in
      let! timestamp <- sm_world env_now in
      let newSessionFile := session_path (sm_sessionDir s) timestamp id in
      let header := {| sh_version := Some CURRENT_SESSION_VERSION; sh_id := id; sh_timestamp := timestamp; sh_cwd := sm_cwd s;
                       sh_parentSession := if sm_persist s then sm_sessionFile s else None |} in
      let pathEntryIds := map se_id pathWithoutLabels in
      let labelsToWrite := omap (fun '(targetId, label) =>
                             if bool_decide (targetId ∈ pathEntryIds)
                             then Some (targetId, label, default [] (map_get targetId (sm_labelTimestampsById s))) else None)
                             (sm_labelsById s) in
      let lastEntryId := truthy (se_id <$> last pathWithoutLabels) in
      let! labels <- label_entries pathEntryIds lastEntryId labelsToWrite in
      let entries := FL_header header :: map FL_entry (pathWithoutLabels ++ labels) in
      if sm_persist s then
        run! sm_modify (fun s => buildIndex (with_file (Some newSessionFile) (with_session id entries s))) in
        run! (if has_assistant entries
              then run! rewriteFile in sm_modify (with_flushed true)
              else sm_modify (with_flushed false)) in
        sm_ret (Some newSessionFile)
      else
        run! sm_modify (fun s => buildIndex (with_session id entries s)) in
        sm_ret None
  end.

(** ** Forks *)

Fixpoint append_lines (path : jstring) (objects : list fields) : SM unit :=
  match objects with
  | [] => sm_ret tt
  | o :: rest =>
      run! sm_storage (st_append path (json_stringify number_to_string (JObject o) ++ [newline])) in
      append_lines path rest
  end.

(** [forkFrom] into the directory of the manager that is being constructed. *)
Definition forkFrom (sourcePath : jstring) (options : NewSessionOptions) : SM unit :=
  let! objects <- loadEntriesFromFile sourcePath in
  match objects with
  | [] => sm_throw (ME_error (js "Cannot fork: source session file is empty or invalid: " ++ sourcePath))
  | _ =>
      run! match ns_id options with Some id => assertValidSessionId id | None => sm_ret tt end in
      let! id <- match ns_id options with Some id => sm_ret id | None => sm_world env_uuidv7 end in
      let! timestamp <- sm_world env_now in
      let! s <- sm_get in
      let newSessionFile := session_path (sm_sessionDir s) timestamp id in
      let header := {| sh_version := Some CURRENT_SESSION_VERSION; sh_id := id; sh_timestamp := timestamp; sh_cwd := sm_cwd s;
                       sh_parentSession := Some sourcePath |} in
      run! sm_storage (st_write newSessionFile (file_line (FL_header header)) true) in
      run! append_lines newSessionFile (List.filter (fun o => negb (session_object o)) objects) in
      setSessionFile newSessionFile
  end.
End Operations.
