(* ===== verification/ManagerTree.v ===== *)
(** * Session trees: the log, its index and the paths

    Lemmas on the trees of [SessionManager]: a log whose entries come after
    their parents, the index of a log, and the walk to the root. *)

From stdpp Require Import base list strings pretty.
From Stdlib Require Import ZArith Lia.
From S2P Require Import Prelude SessionTypes SessionState SessionContext Json JsonViews ManagerTypes SessionManager.

Open Scope Z_scope.

Create HintDb session_tree.

(** ** Logs *)

(** Ids are non-empty and distinct, and a parent is an earlier entry. *)
Inductive log : list SessionEntry -> Prop :=
| log_nil : log []
| log_snoc es e : log es -> se_id e <> [] -> se_id e ∉ map se_id es ->
    (forall p, se_parentId e = Some p -> p ∈ map se_id es) -> log (es ++ [e]).

#[export] Hint Constructors log : session_tree.

(** The index of a log. *)
Definition pairs (es : list SessionEntry) : index := map (fun e => (se_id e, e)) es.

Lemma pairs_snoc es e : pairs (es ++ [e]) = pairs es ++ [(se_id e, e)].
Proof. apply map_app. Qed.

Lemma pairs_length es : length (pairs es) = length es.
Proof. apply length_map. Qed.

Lemma pairs_keys es : map_keys (pairs es) = map se_id es.
Proof. unfold map_keys, pairs. rewrite map_map. done. Qed.

Lemma pairs_has es id : map_has id (pairs es) = true <-> id ∈ map se_id es.
Proof. by rewrite map_has_keys, pairs_keys. Qed.

Lemma pairs_hasnt es id : map_has id (pairs es) = false <-> id ∉ map se_id es.
Proof. rewrite <- pairs_has. destruct (map_has _ _); naive_solver. Qed.

Lemma index_pairs es : NoDup (map se_id es) -> buildEntryIndex es = pairs es.
Proof.
  induction es as [|e es IH] using rev_ind; [done|]. rewrite map_app. intros (Hes & Hne & _)%NoDup_app.
  unfold buildEntryIndex. rewrite foldl_app. cbn [foldl]. fold (buildEntryIndex es). rewrite IH, pairs_snoc by done.
  apply map_set_fresh, pairs_hasnt. intros Hin. by apply (Hne _ Hin), list_elem_of_singleton.
Qed.

Lemma log_NoDup es : log es -> NoDup (map se_id es).
Proof.
  induction 1 as [|es e _ IH _ Hid _]; [constructor|]. rewrite map_app. apply NoDup_app. split_and!; [done| |apply NoDup_singleton].
  intros x Hx ->%list_elem_of_singleton. done.
Qed.

Lemma log_nonempty es e : log es -> e ∈ es -> se_id e <> [].
Proof. induction 1 as [|es x _ IH Hx _ _]; [by intros ?%elem_of_nil|]. intros [?| ->%list_elem_of_singleton]%elem_of_app; auto. Qed.

Lemma log_parent es e p : log es -> e ∈ es -> se_parentId e = Some p -> p ∈ map se_id es.
Proof.
  induction 1 as [|es x _ IH _ _ Hp]; [by intros ?%elem_of_nil|]. rewrite map_app.
  intros [He| ->%list_elem_of_singleton]%elem_of_app Ep; apply elem_of_app; auto.
Qed.

Lemma log_index es : log es -> buildEntryIndex es = pairs es.
Proof. intros. by apply index_pairs, log_NoDup. Qed.

Lemma id_elem (e : SessionEntry) es : e ∈ es -> se_id e ∈ map se_id es.
Proof. apply (list_elem_of_fmap_2 se_id). Qed.

Lemma id_elem_snoc (e : SessionEntry) es : se_id e ∈ map se_id (es ++ [e]).
Proof. apply id_elem, elem_of_app. right. by apply list_elem_of_singleton. Qed.

Lemma elem_id id es : id ∈ map se_id es -> exists e, e ∈ es /\ se_id e = id.
Proof. intros (e & -> & He)%list_elem_of_fmap. eauto. Qed.

Lemma pairs_get_Some es id e : map_get id (pairs es) = Some e -> e ∈ es /\ se_id e = id.
Proof. intros Hin%map_get_In. apply list_elem_of_fmap in Hin as (x & [= -> ->] & Hx). done. Qed.

Lemma ids_inj es (x y : SessionEntry) : NoDup (map se_id es) -> x ∈ es -> y ∈ es -> se_id x = se_id y -> x = y.
Proof.
  intros Hes [i Hi]%list_elem_of_lookup_1 [j Hj]%list_elem_of_lookup_1 Heq.
  assert (i = j) as ->; [|congruence]. apply (NoDup_lookup _ i j (se_id x) Hes).
  - change (map se_id es) with (se_id <$> es). by rewrite list_lookup_fmap, Hi.
  - change (map se_id es) with (se_id <$> es). by rewrite list_lookup_fmap, Hj, Heq.
Qed.

Lemma pairs_get es e : NoDup (map se_id es) -> e ∈ es -> map_get (se_id e) (pairs es) = Some e.
Proof.
  intros Hes He. assert (Hh : map_has (se_id e) (pairs es) = true) by by apply pairs_has, id_elem.
  apply map_has_Some in Hh as (x & Hx). rewrite Hx. apply pairs_get_Some in Hx as [Hin Hid]. f_equal.
  by apply (ids_inj es).
Qed.

Lemma pairs_get_snoc es e id : id ∈ map se_id es -> map_get id (pairs (es ++ [e])) = map_get id (pairs es).
Proof.
  intros Hin. rewrite pairs_snoc, map_get_app. apply pairs_has, map_has_Some in Hin as (x & ->). done.
Qed.

Lemma truthy_id (id : jstring) : id <> [] -> truthy (Some id) = Some id.
Proof. by destruct id. Qed.

Lemma truthy_Some o (id : jstring) : truthy o = Some id -> o = Some id.
Proof. by destruct o as [[|]|]. Qed.

(** ** The walk *)

(** One step towards the root. *)
Definition parent_of (byId : index) (e : SessionEntry) : option SessionEntry := truthy (se_parentId e) ≫= fun id => map_get id byId.

Lemma walk_S fuel byId e : walk (S fuel) byId (Some e) = (fun path => e :: path) <$> walk fuel byId (parent_of byId e).
Proof. done. Qed.

Lemma walk_None fuel byId : walk fuel byId None = Some [].
Proof. by destruct fuel. Qed.

Lemma walk_mono byId n : forall m cur path, walk n byId cur = Some path -> (n <= m)%nat -> walk m byId cur = Some path.
Proof.
  induction n as [|n IH]; intros m [e|] path; try (rewrite !walk_None; done); [done|].
  rewrite walk_S. intros (tail & Htail & ->)%fmap_Some Hm. destruct m as [|m]; [lia|].
  rewrite walk_S, (IH m _ tail) by (done || lia). done.
Qed.

(** A walk takes as many steps as its path is long. *)
Lemma walk_length byId n : forall cur path, walk n byId cur = Some path -> walk (length path) byId cur = Some path.
Proof.
  induction n as [|n IH]; intros [e|] path; try (rewrite walk_None; intros [= <-]; done); [done|].
  rewrite walk_S. intros (tail & Htail & ->)%fmap_Some. cbn [length]. by rewrite walk_S, (IH _ _ Htail).
Qed.

(** Every entry of a path is the start of the rest of the path. *)
Lemma walk_tail byId n : forall cur path i e, walk n byId cur = Some path -> path !! i = Some e ->
  walk n byId (Some e) = Some (drop i path).
Proof.
  induction n as [|n IH]; intros [x|] path i e; try (rewrite walk_None; by intros [= <-]); [done|].
  intros Hw. pose proof Hw as Hw'. rewrite walk_S in Hw. apply fmap_Some in Hw as (tail & Htail & ->).
  destruct i as [|i]; [by intros [= <-]|]. intros He. apply (walk_mono byId n (S n)); [by apply (IH _ _ i e Htail)|lia].
Qed.

(** The entries of an index are stored under their own ids. *)
Definition keyed (byId : index) : Prop := forall id e, map_get id byId = Some e -> se_id e = id.

Lemma walk_elem byId n : forall cur path e, walk n byId cur = Some path -> e ∈ path ->
  cur = Some e \/ exists id, map_get id byId = Some e.
Proof.
  induction n as [|n IH]; intros [x|] path e; try (rewrite walk_None; by intros [= <-] ?%elem_of_nil); [done|].
  rewrite walk_S. intros (tail & Htail & ->)%fmap_Some [->|Hin]%elem_of_cons; [by left|].
  destruct (IH _ _ _ Htail Hin) as [Hp|]; [|by right]. right. unfold parent_of in Hp.
  destruct (truthy _) as [id|]; [|done]. by exists id.
Qed.

(** A walk that ends does not meet an entry twice. *)
Lemma walk_NoDup byId n cur path : keyed byId -> (forall e, cur = Some e -> map_get (se_id e) byId = Some e) ->
  walk n byId cur = Some path -> NoDup (map se_id path).
Proof.
  intros Hk Hcur Hw. apply NoDup_alt. intros i j id Hi Hj.
  apply list_lookup_fmap_Some in Hi as (e & -> & He), Hj as (e' & Hid & He').
  assert (Hin : forall x, x ∈ path -> map_get (se_id x) byId = Some x).
  { intros x Hx. destruct (walk_elem _ _ _ _ _ Hw Hx) as [->|(k & Hx')]; [by apply Hcur|]. by rewrite (Hk _ _ Hx'). }
  assert (e = e') as <-.
  { apply list_elem_of_lookup_2, Hin in He, He'. rewrite Hid in He. congruence. }
  pose proof (walk_tail _ _ _ _ _ _ Hw He) as H1. rewrite (walk_tail _ _ _ _ _ _ Hw He') in H1. injection H1 as H1.
  apply (f_equal length) in H1. rewrite !length_drop in H1. apply lookup_lt_Some in He, He'. lia.
Qed.

(** The fuel of [getBranch] is enough for every walk that ends. *)
Lemma walk_enough byId n cur path : keyed byId -> (forall e, cur = Some e -> map_get (se_id e) byId = Some e) ->
  walk n byId cur = Some path -> walk (walk_fuel byId) byId cur = Some path.
Proof.
  intros Hk Hcur Hw. pose proof (walk_NoDup _ _ _ _ Hk Hcur Hw) as Hnd.
  eapply walk_mono; [by eapply walk_length|]. unfold walk_fuel.
  assert (Hlen : (length (map se_id path) <= length (map_keys byId))%nat).
  { apply submseteq_length, NoDup_submseteq; [done|]. intros id (e & -> & He)%list_elem_of_fmap.
    apply map_has_keys, map_has_Some. exists e. destruct (walk_elem _ _ _ _ _ Hw He) as [->|(k & Hx)]; [by apply Hcur|].
    by rewrite (Hk _ _ Hx). }
  unfold map_keys in Hlen. rewrite !length_map in Hlen. lia.
Qed.

(** ** Paths of a log *)

(** Every entry is a child of the one before it. *)
Fixpoint linked (parentId : option jstring) (path : list SessionEntry) : Prop :=
  match path with
  | [] => True
  | e :: rest => se_parentId e = parentId /\ linked (Some (se_id e)) rest
  end.

Definition last_id (path : list SessionEntry) : option jstring := se_id <$> last path.

Lemma linked_snoc path e : forall parentId,
  linked parentId (path ++ [e]) <-> linked parentId path /\ se_parentId e = match last_id path with Some id => Some id | None => parentId end.
Proof.
  induction path as [|x path IH]; intros parentId; cbn; [naive_solver|]. rewrite IH. unfold last_id. cbn.
  destruct path as [|y path]; cbn; [naive_solver|]. destruct (last (y :: path)) eqn:E; [naive_solver|].
  apply last_None in E. done.
Qed.

(** What a walk from [e] finds. *)
Record path_to (es : list SessionEntry) (e : SessionEntry) (path : list SessionEntry) : Prop := {
  path_last : last path = Some e;
  path_linked : linked None path;
  path_sublist : path `sublist_of` es }.

Lemma walk_extend es x : log (es ++ [x]) -> log es -> forall n cur path,
  (forall e, cur = Some e -> e ∈ es) -> walk n (pairs es) cur = Some path -> walk n (pairs (es ++ [x])) cur = Some path.
Proof.
  intros Hx Hes. assert (Hparent : forall e, e ∈ es -> parent_of (pairs (es ++ [x])) e = parent_of (pairs es) e /\
    forall q, parent_of (pairs es) e = Some q -> q ∈ es).
  { intros e He. unfold parent_of. destruct (truthy (se_parentId e)) as [p|] eqn:Ep; [|done]. cbn. apply truthy_Some in Ep. split.
    - by eapply pairs_get_snoc, log_parent.
    - intros q Hq. by apply pairs_get_Some in Hq as [? _]. }
  induction n as [|n IH]; intros [e|] path Hcur; try (rewrite !walk_None; done); [done|].
  rewrite !walk_S. intros (tail & Htail & ->)%fmap_Some. destruct (Hparent e) as [-> Hq]; [by apply Hcur|].
  by rewrite (IH _ tail).
Qed.

Lemma log_walk es : log es -> forall e, e ∈ es ->
  exists path, walk (length es) (pairs es) (Some e) = Some path /\ path_to es e (reverse path).
Proof.
  induction 1 as [|es x Hes IH Hx Hid Hp]; intros e; [by intros ?%elem_of_nil|].
  assert (Hlog : log (es ++ [x])) by by constructor. rewrite length_app. cbn [length]. rewrite Nat.add_comm.
  intros [He| ->%list_elem_of_singleton]%elem_of_app.
  - destruct (IH e He) as (path & Hw & Hpath). exists path. split.
    + eapply walk_mono; [|apply Nat.le_succ_diag_r]. apply walk_extend; try done. by intros ? [= <-].
    + destruct Hpath. split; try done. by apply sublist_inserts_r.
  - cbn [Nat.add]. rewrite walk_S. unfold parent_of. destruct (se_parentId x) as [p|] eqn:Ep.
    + pose proof (Hp p eq_refl) as Hin. destruct (elem_id _ _ Hin) as (q & Hq & <-).
      rewrite truthy_id by by apply (log_nonempty es). cbn. rewrite pairs_get_snoc, pairs_get by (done || by apply log_NoDup).
      destruct (IH q Hq) as (path & Hw & [Hl Hlk Hs]). exists (x :: path). split.
      * rewrite (walk_extend es x Hlog Hes _ _ path); [done| |done]. by intros ? [= <-].
      * split; rewrite reverse_cons.
        -- apply last_snoc.
        -- apply linked_snoc. split; [done|]. unfold last_id. by rewrite Hl.
        -- by apply sublist_app.
    + exists [x]. cbn. rewrite walk_None. split; [done|]. change (reverse [x]) with [x]. split; [done|by cbn|].
      by apply sublist_inserts_l.
Qed.

(** ** Checking a log *)

Fixpoint check_log (seen : list jstring) (es : list SessionEntry) : bool :=
  match es with
  | [] => true
  | e :: rest =>
      negb (bool_decide (se_id e = [])) && bool_decide (se_id e ∉ seen) &&
      match se_parentId e with Some p => bool_decide (p ∈ seen) | None => true end && check_log (seen ++ [se_id e]) rest
  end.

Lemma check_log_sound es : forall before, log before -> check_log (map se_id before) es = true -> log (before ++ es).
Proof.
  induction es as [|e es IH]; intros before Hb Hc; [by rewrite app_nil_r|]. cbn in Hc. rewrite !andb_true_iff in Hc.
  destruct Hc as [[[Hne Hid] Hp] Hc]. apply negb_true_iff, bool_decide_eq_false in Hne. apply bool_decide_eq_true in Hid.
  change (before ++ e :: es) with (before ++ [e] ++ es). rewrite app_assoc. apply IH; [|by rewrite map_app].
  constructor; try done. intros p Ep. rewrite Ep in Hp. by apply bool_decide_eq_true in Hp.
Qed.
