(* ===== verification/ManagerProperties.v ===== *)
(** * The session manager keeps a tree and its file

    Every operation of [ManagerOps] keeps the log a tree and the index and the
    leaf inside it, also when the storage fails; while the storage does not
    fail the labels and the file follow the log. *)

From stdpp Require Import base list strings pretty.
From Stdlib Require Import ZArith Lia.
From S2P Require Import Prelude SessionTypes SessionState SessionContext Numbers Compaction Truncate EditDiff Json JsonProperties JsonViews SessionJson JsonlRepo.
From S2P Require Import ManagerTypes SessionManager ManagerOps ManagerTree.

Open Scope Z_scope.
Open Scope sm_scope.

(** ** What the storage promises *)

(** [content] is the text of a file.  A write or an append that reports success
    changed its file and no other.  [spent] are the random ids that are used
    up: a new one has the length of a UUID and is none of them. *)
Class SessionEnvSpec (W : Type) `{SessionEnv W} := {
  content : W -> jstring -> option jstring;
  spent : W -> jstring -> Prop;
  exists_content : forall p w, st_exists p w = bool_decide (is_Some (content w p));
  lines_content : forall p w lines, st_lines p w = Ok lines -> exists t, content w p = Some t /\ lines = text_lines t;
  write_content : forall p t exclusive w w', st_write p t exclusive w = (w', Ok tt) ->
    content w' p = Some t /\ forall q, q <> p -> content w' q = content w q;
  append_content : forall p t w w', st_append p t w = (w', Ok tt) ->
    content w' p = Some (default [] (content w p) ++ t) /\ forall q, q <> p -> content w' q = content w q;
  uuid_content : forall w w' id, env_uuid w = (w', id) -> content w' = content w /\ length id = 36%nat;
  uuidv7_content : forall w w' id, env_uuidv7 w = (w', id) -> content w' = content w;
  now_content : forall w w' t, env_now w = (w', t) -> content w' = content w;
  uuid_spent : forall w w' id, env_uuid w = (w', id) -> ~ spent w id /\ spent w' id;
  uuid_later : forall w i, spent w i -> spent (env_uuid w).1 i;
  uuidv7_later : forall w i, spent w i -> spent (env_uuidv7 w).1 i;
  now_later : forall w i, spent w i -> spent (env_now w).1 i;
  write_later : forall p t exclusive w i, spent w i -> spent (st_write p t exclusive w).1 i;
  append_later : forall p t w i, spent w i -> spent (st_append p t w).1 i }.

(** Distinct ids, of which those as long as a UUID are used up. *)
Definition accounted {W} `{SessionEnvSpec W} (w : W) (ids : list jstring) : Prop :=
  NoDup ids /\ forall i, i ∈ ids -> length i = 36%nat -> spent w i.

(** ** The invariant *)

(** The log is a tree behind its header, the index is the index of the log and
    the leaf is an entry of it. *)
Record wf (s : SessionManager) : Prop := {
  wf_header : exists h, sm_fileEntries s = FL_header h :: map FL_entry (getEntries s) /\ sh_id h = sm_sessionId s;
  wf_log : log (getEntries s);
  wf_index : sm_byId s = pairs (getEntries s);
  wf_leaf : forall id, sm_leafId s = Some id -> id ∈ map se_id (getEntries s) }.

Definition labels_follow (s : SessionManager) : Prop :=
  sm_labelsById s = sm_labelsById (buildIndex s) /\ sm_labelTimestampsById s = sm_labelTimestampsById (buildIndex s).

(** ** Frames *)

Lemma entries_of_entries es : entries_of (map FL_entry es) = es.
Proof. unfold entries_of. induction es as [|e es IH]; cbn; [done|]. by rewrite IH. Qed.

Lemma entries_of_app l1 l2 : entries_of (l1 ++ l2) = entries_of l1 ++ entries_of l2.
Proof. apply omap_app. Qed.

Lemma wf_flushed b s : wf s -> wf (with_flushed b s).
Proof. by intros []. Qed.

Lemma wf_labels_free labels timestamps s : wf s -> wf (with_labels labels timestamps s).
Proof. by intros []. Qed.

Lemma set_label_labels target label timestamp s : set_label target label timestamp s =
  with_labels (match truthy label with Some l => map_set target l (sm_labelsById s) | None => map_delete target (sm_labelsById s) end)
    (match truthy label with Some _ => map_set target timestamp (sm_labelTimestampsById s) | None => map_delete target (sm_labelTimestampsById s) end) s.
Proof. unfold set_label. by destruct (truthy label). Qed.

(** [buildIndex] depends on the log alone. *)
Definition log_labels (es : list SessionEntry) : list (jstring * jstring) * list (jstring * jstring) :=
  foldl (fun p e => match se_payload e with
                    | SE_label target label =>
                        match truthy label with
                        | Some l => (map_set target l p.1, map_set target (se_timestamp e) p.2)
                        | None => (map_delete target p.1, map_delete target p.2)
                        end
                    | _ => p
                    end) ([], []) es.

Lemma log_labels_snoc es e : log_labels (es ++ [e]) =
  match se_payload e with
  | SE_label target label =>
      match truthy label with
      | Some l => (map_set target l (log_labels es).1, map_set target (se_timestamp e) (log_labels es).2)
      | None => (map_delete target (log_labels es).1, map_delete target (log_labels es).2)
      end
  | _ => log_labels es
  end.
Proof. unfold log_labels. by rewrite foldl_app. Qed.

Lemma buildIndex_spec s : buildIndex s =
  with_labels (log_labels (getEntries s)).1 (log_labels (getEntries s)).2
    (with_log (sm_fileEntries s) (buildEntryIndex (getEntries s)) (last_id (getEntries s)) s).
Proof.
  unfold buildIndex. change (entries_of (sm_fileEntries s)) with (getEntries s). generalize (getEntries s). intros es.
  induction es as [|e es IH] using rev_ind; [done|]. rewrite foldl_app, IH. cbn [foldl]. rewrite log_labels_snoc.
  unfold index_step, last_id, buildEntryIndex. rewrite last_snoc, foldl_app. cbn.
  destruct (se_payload e); try done. rewrite set_label_labels. by destruct (truthy label).
Qed.

Lemma labels_follow_spec s : labels_follow s <->
  sm_labelsById s = (log_labels (getEntries s)).1 /\ sm_labelTimestampsById s = (log_labels (getEntries s)).2.
Proof. unfold labels_follow. by rewrite buildIndex_spec. Qed.

Lemma wf_buildIndex s h es : sm_fileEntries s = FL_header h :: map FL_entry es -> sh_id h = sm_sessionId s -> log es ->
  wf (buildIndex s) /\ labels_follow (buildIndex s).
Proof.
  intros Hf Hh Hes. assert (Hget : getEntries s = es) by (unfold getEntries; rewrite Hf; apply entries_of_entries).
  assert (Hg : getEntries (buildIndex s) = es) by by rewrite buildIndex_spec.
  split; [|by rewrite labels_follow_spec, buildIndex_spec]. split; rewrite ?Hg; rewrite ?buildIndex_spec, ?Hget; cbn.
  - by exists h.
  - done.
  - by apply log_index.
  - unfold last_id. intros id (e & He & ->)%fmap_Some. apply last_Some in He as (l & ->). apply id_elem_snoc.
Qed.

(** ** Appending *)

Definition push (e : SessionEntry) (s : SessionManager) : SessionManager :=
  with_log (sm_fileEntries s ++ [FL_entry e]) (map_set (se_id e) e (sm_byId s)) (Some (se_id e)) s.

Lemma push_entries e s : getEntries (push e s) = getEntries s ++ [e].
Proof. unfold getEntries. cbn. by rewrite entries_of_app. Qed.

Lemma wf_push e s : wf s -> se_id e <> [] -> se_id e ∉ map se_id (getEntries s) ->
  (forall p, se_parentId e = Some p -> p ∈ map se_id (getEntries s)) -> wf (push e s).
Proof.
  intros [(h & Hf & Hh) Hlog Hidx Hleaf] Hne Hfresh Hp. split; rewrite ?push_entries; cbn.
  - exists h. split; [|done]. by rewrite Hf, map_app.
  - by constructor.
  - rewrite Hidx, pairs_snoc. by apply map_set_fresh, pairs_hasnt.
  - intros id [= <-]. apply id_elem_snoc.
Qed.

(** ** Effects *)

Section Effects.
Context {W : Type} `{SessionEnvSpec W}.
Context (number_to_string : number -> jstring) (parse_number : jstring -> option number) (join : jstring -> jstring -> jstring).
Abbreviation SM := (SM (W := W)).
Abbreviation whole_file := (whole_file number_to_string parse_number).
Abbreviation persist := (persist number_to_string parse_number).
Abbreviation rewriteFile := (rewriteFile number_to_string parse_number).
Abbreviation appendEntry := (appendEntry number_to_string parse_number).
Abbreviation append := (append number_to_string parse_number).

Lemma sm_bind_inv {A B} (m : SM A) (k : A -> SM B) x x' r : sm_bind m k x = (x', r) ->
  (exists x1 a, m x = (x1, Ok a) /\ k a x1 = (x', r)) \/ (exists e, m x = (x', Err e) /\ r = Err e).
Proof. unfold sm_bind. destruct (m x) as [x1 [a|e]]; [eauto|]. intros [= -> <-]. eauto. Qed.

Lemma sm_bind_Ok {A B} (m : SM A) (k : A -> SM B) x x1 a : m x = (x1, Ok a) -> sm_bind m k x = k a x1.
Proof. unfold sm_bind. by intros ->. Qed.

(** The file agrees with the log; a file is only written once there is an
    assistant message. *)
Definition on_disk (x : SessionManager * W) : Prop :=
  sm_persist x.1 = true -> forall f, truthy (sm_sessionFile x.1) = Some f ->
  if sm_flushed x.1 then content x.2 f = Some (whole_file (sm_fileEntries x.1)) else has_assistant (sm_fileEntries x.1) = false.

Lemma whole_file_snoc l f : whole_file (l ++ [f]) = whole_file l ++ file_line number_to_string parse_number f.
Proof. unfold ManagerOps.whole_file. rewrite map_app, join_app. cbn. by rewrite app_nil_r. Qed.

Lemma generate_spec tries has s w x' r : generate_loop tries has (s, w) = (x', r) ->
  exists w' id, x' = (s, w') /\ r = Ok id /\ content w' = content w /\ id <> [] /\ (has id = true -> length id = 36%nat).
Proof.
  revert w. induction tries as [|tries IH]; intros w; cbn [generate_loop].
  - unfold sm_world. cbn. destruct (env_uuid w) as [w' id] eqn:E. apply uuid_content in E as [Hw Hid]. intros [= <- <-].
    exists w', id. split_and!; try done. by destruct id.
  - unfold sm_bind, sm_world at 1. cbn. destruct (env_uuid w) as [w1 u] eqn:E. apply uuid_content in E as [Hw Hu].
    destruct (has (take 8 u)) eqn:Eh.
    + intros (w' & id & Hx & Hr & Hc & ?)%IH. exists w', id. by rewrite Hc.
    + intros [= <- <-]. exists w1, (take 8 u). split_and!; try done; [|by rewrite Eh]. by destruct u.
Qed.

(** The id is not taken: the index does not have it, or it is a whole UUID that
    was never drawn. *)
Lemma generate_fresh tries has s w x' r : generate_loop tries has (s, w) = (x', r) ->
  exists w' id, x' = (s, w') /\ r = Ok id /\ (has id = false \/ (length id = 36%nat /\ ~ spent w id)) /\ (length id = 36%nat -> spent w' id) /\
    forall i, spent w i -> spent w' i.
Proof.
  revert w. induction tries as [|tries IH]; intros w; cbn [generate_loop]; unfold sm_bind, sm_world at 1; cbn [fst snd];
    pose proof (uuid_later w) as Hl; destruct (env_uuid w) as [w1 u] eqn:E; pose proof (uuid_content _ _ _ E) as [_ Hu];
    pose proof (uuid_spent _ _ _ E) as [Hn Hs]; cbn [fst] in Hl.
  - intros [= <- <-]. exists w1, u. split_and!; auto.
  - destruct (has (take 8 u)) eqn:Eh.
    + intros (w' & id & -> & -> & Hid & Hs' & Hl')%IH. exists w', id. split_and!; auto. destruct Hid as [|[? Hid]]; [auto|]. right. auto.
    + intros [= <- <-]. exists w1, (take 8 u). split_and!; auto. rewrite length_take. lia.
Qed.

Lemma accounted_later w w' ids : (forall i, spent w i -> spent w' i) -> accounted w ids -> accounted w' ids.
Proof. intros Hl [Hnd Hs]. split; auto. Qed.

Lemma accounted_snoc w w' ids id : accounted w ids -> (id ∉ ids \/ (length id = 36%nat /\ ~ spent w id)) -> (length id = 36%nat -> spent w' id) ->
  (forall i, spent w i -> spent w' i) -> accounted w' (ids ++ [id]).
Proof.
  intros [Hnd Hs] Hid Hid' Hl. assert (Hni : id ∉ ids) by (destruct Hid as [|[Hlen Hn]]; [done|]; intros Hin; by apply Hn, Hs). split.
  - apply NoDup_app. split_and!; [done| |apply NoDup_singleton]. by intros i Hi ->%list_elem_of_singleton.
  - intros i [Hi| ->%list_elem_of_singleton]%elem_of_app; auto.
Qed.

Lemma new_entry_spec payload s w x' r : new_entry payload (s, w) = (x', r) ->
  exists w' e, x' = (s, w') /\ r = Ok e /\ content w' = content w /\ se_id e <> [] /\ se_parentId e = sm_leafId s /\ se_payload e = payload.
Proof.
  unfold new_entry. intros [(x1 & s1 & [= <- <-] & Hk)|(? & ? & ?)]%sm_bind_inv; [|done].
  apply sm_bind_inv in Hk as [(x1 & id & Hg & Hk)|(e & Hg & ->)]; apply generate_spec in Hg as (w1 & id' & -> & Hid & Hc & Hne & _); [|done].
  injection Hid as ->. unfold sm_bind, sm_world in Hk. cbn in Hk. destruct (env_now w1) as [w2 t] eqn:En. apply now_content in En.
  injection Hk as <- <-. eexists w2, _. split_and!; try done. by rewrite En.
Qed.

Lemma when_persistent_run (k : SessionManager -> jstring -> SM unit) s w :
  when_persistent k (s, w) = match sm_persist s, truthy (sm_sessionFile s) with true, Some file => k s file (s, w) | _, _ => ((s, w), Ok tt) end.
Proof. unfold when_persistent, sm_bind, sm_get. cbn. by destruct (sm_persist s), (truthy (sm_sessionFile s)). Qed.

Lemma storage_run {A} (m : W -> W * Result jstring A) s w : sm_storage m (s, w) =
  ((s, (m w).1), match (m w).2 with Ok a => Ok a | Err e => Err (ME_storage e) end).
Proof. unfold sm_storage. cbn [fst snd]. by destruct (m w). Qed.

(** The session may have changed its [flushed] flag, and only storage errors
    are thrown. *)
Definition frames (s s' : SessionManager) (r : Result ManagerError unit) : Prop :=
  (exists b, s' = with_flushed b s) /\ (r = Ok tt \/ exists m, r = Err (ME_storage m)).

Lemma frames_keep s : frames s s (Ok tt).
Proof. split; [|by left]. exists (sm_flushed s). by destruct s. Qed.

Lemma frames_storage {A} s (r : Result jstring A) :
  frames s s (match r with Ok _ => Ok tt | Err e => Err (ME_storage e) end).
Proof. split; [exists (sm_flushed s); by destruct s|]. destruct r; eauto. Qed.

Lemma rewriteFile_run s w : rewriteFile (s, w) =
  match sm_persist s, truthy (sm_sessionFile s) with
  | true, Some f =>
      let '(w', r) := st_write f (whole_file (sm_fileEntries s)) false w in
      match r with Ok _ => ((with_flushed true s, w'), Ok tt) | Err m => ((s, w'), Err (ME_storage m)) end
  | _, _ => ((s, w), Ok tt)
  end.
Proof.
  unfold ManagerOps.rewriteFile. rewrite when_persistent_run. destruct (sm_persist s), (truthy (sm_sessionFile s)); try done.
  unfold sm_bind. rewrite storage_run. by destruct (st_write _ _ _ _) as [? [[]|]].
Qed.

Lemma persist_run e s w : persist e (s, w) =
  match sm_persist s, truthy (sm_sessionFile s) with
  | true, Some f =>
      if sm_flushed s then
        let '(w', r) := st_append f (file_line number_to_string parse_number (FL_entry e)) w in
        ((s, w'), match r with Ok _ => Ok tt | Err m => Err (ME_storage m) end)
      else if has_assistant (sm_fileEntries s) then
        let '(w', r) := st_write f (whole_file (sm_fileEntries s)) true w in
        match r with Ok _ => ((with_flushed true s, w'), Ok tt) | Err m => ((s, w'), Err (ME_storage m)) end
      else ((with_flushed false s, w), Ok tt)
  | _, _ => ((s, w), Ok tt)
  end.
Proof.
  unfold ManagerOps.persist. rewrite when_persistent_run. destruct (sm_persist s), (truthy (sm_sessionFile s)) as [f|]; try done.
  destruct (has_assistant _), (sm_flushed s); cbn [negb]; unfold sm_bind; rewrite ?storage_run;
    try destruct (st_append _ _ _) as [? [[]|]]; try destruct (st_write _ _ _ _) as [? [[]|]]; done.
Qed.

Lemma rewriteFile_frame s w s' w' r : rewriteFile (s, w) = ((s', w'), r) -> frames s s' r.
Proof.
  rewrite rewriteFile_run. destruct (sm_persist s), (truthy (sm_sessionFile s)); try (intros [= <- <- <-]; apply frames_keep).
  destruct (st_write _ _ _ _) as [? [[]|m]]; intros [= <- <- <-]; [split; eauto|]. apply (frames_storage s (Err (A := unit) m)).
Qed.

Lemma rewriteFile_disk s w x' : rewriteFile (s, w) = (x', Ok tt) -> on_disk x'.
Proof.
  rewrite rewriteFile_run. unfold on_disk. destruct (sm_persist s) eqn:Ep; [|intros [= <-]; cbn; congruence].
  destruct (truthy (sm_sessionFile s)) as [f|] eqn:Ef; [|intros [= <-]; cbn; congruence].
  destruct (st_write _ _ _ _) as [w' [[]|m]] eqn:Ew; [|done]. intros [= <-] _ g. cbn [fst snd with_flushed sm_sessionFile sm_flushed sm_fileEntries].
  rewrite Ef. intros [= <-]. by apply write_content in Ew as [Ew _].
Qed.

Lemma persist_frame e s w s' w' r : persist e (s, w) = ((s', w'), r) -> frames s s' r.
Proof.
  rewrite persist_run. destruct (sm_persist s), (truthy (sm_sessionFile s)); try (intros [= <- <- <-]; apply frames_keep).
  destruct (sm_flushed s) eqn:Efl.
  - destruct (st_append _ _ _) as [w1 r1]. intros [= <- <- <-]. apply frames_storage.
  - destruct (has_assistant _); [|intros [= <- <- <-]; split; eauto].
    destruct (st_write _ _ _ _) as [? [[]|m]]; intros [= <- <- <-]; [split; eauto|]. apply (frames_storage s (Err (A := unit) m)).
Qed.

Lemma persist_disk e s w x' : on_disk (s, w) -> persist e (push e s, w) = (x', Ok tt) -> on_disk x'.
Proof.
  rewrite persist_run. unfold on_disk. cbn [fst snd]. change (sm_persist (push e s)) with (sm_persist s).
  change (sm_sessionFile (push e s)) with (sm_sessionFile s). change (sm_flushed (push e s)) with (sm_flushed s).
  change (sm_fileEntries (push e s)) with (sm_fileEntries s ++ [FL_entry e]). intros Hdisk.
  destruct (sm_persist s) eqn:Ep; [|intros [= <-]; cbn; congruence].
  destruct (truthy (sm_sessionFile s)) as [f|] eqn:Ef; [|intros [= <-]; cbn; congruence].
  specialize (Hdisk eq_refl f eq_refl). destruct (sm_flushed s) eqn:Efl.
  - destruct (st_append _ _ _) as [w1 [[]|m]] eqn:Ea; [|done]. intros [= <-] _ g. cbn [fst snd].
    change (sm_sessionFile (push e s)) with (sm_sessionFile s). change (sm_flushed (push e s)) with (sm_flushed s).
    change (sm_fileEntries (push e s)) with (sm_fileEntries s ++ [FL_entry e]).
    rewrite Ef, Efl, whole_file_snoc. intros [= <-]. apply append_content in Ea as [-> _]. by rewrite Hdisk.
  - destruct (has_assistant (sm_fileEntries s ++ _)) eqn:Eh; [|by intros [= <-]].
    destruct (st_write _ _ _ _) as [w1 [[]|m]] eqn:Ew; [|done]. intros [= <-] _ g. cbn [fst snd].
    change (sm_sessionFile (with_flushed true (push e s))) with (sm_sessionFile s). rewrite Ef. intros [= <-].
    by apply write_content in Ew as [Ew _].
Qed.

(** ** Operations that append an entry *)

(** A fresh id, and a parent in the log. *)
Definition entry_for (s : SessionManager) (e : SessionEntry) : Prop := se_id e <> [] /\ se_parentId e = sm_leafId s.

Lemma push_fresh s e b : NoDup (map se_id (getEntries (with_flushed b (push e s)))) -> se_id e ∉ map se_id (getEntries s).
Proof.
  change (getEntries (with_flushed b (push e s))) with (getEntries (push e s)). rewrite push_entries, map_app.
  intros (_ & Hne & _)%NoDup_app Hin. by apply (Hne _ Hin), list_elem_of_singleton.
Qed.

Lemma appendEntry_spec e s w s' w' r : appendEntry e (s, w) = ((s', w'), r) -> wf s -> entry_for s e ->
  NoDup (map se_id (getEntries s')) -> wf s' /\ (exists b, s' = with_flushed b (push e s)) /\
  (r = Ok tt \/ exists m, r = Err (ME_storage m)) /\ (on_disk (s, w) -> r = Ok tt -> on_disk (s', w')).
Proof.
  unfold ManagerOps.appendEntry. rewrite (sm_bind_Ok _ _ _ (push e s, w) tt) by done. intros Hp Hwf [Hne Hpar] Hnd.
  pose proof (persist_frame _ _ _ _ _ _ Hp) as [(b & ->) Hr]. split_and!; eauto.
  - apply wf_flushed, wf_push; [done|done|by eapply push_fresh|]. rewrite Hpar. apply Hwf.
  - intros Hd ->. by apply (persist_disk e s w).
Qed.

(** ** Every operation *)

(** While the storage does not fail, the labels and the file follow the log. *)
Definition consistent (x : SessionManager * W) : Prop := labels_follow x.1 /\ on_disk x.

Definition no_storage_error {A} (r : Result ManagerError A) : Prop := forall m, r <> Err (ME_storage m).

Definition keeps {A} (x x' : SessionManager * W) (r : Result ManagerError A) : Prop :=
  wf x'.1 /\ (consistent x -> no_storage_error r -> consistent x').

Lemma keeps_same {A} x (r : Result ManagerError A) : wf x.1 -> keeps x x r.
Proof. by split. Qed.

Lemma keeps_result {A B} x x' (r : Result ManagerError A) (r' : Result ManagerError B) :
  keeps x x' r -> (no_storage_error r' -> no_storage_error r) -> keeps x x' r'.
Proof. intros [Hwf Hc] Hr. split; [done|]. intros. by apply Hc; [|apply Hr]. Qed.

Lemma labels_flushed b s : labels_follow (with_flushed b s) <-> labels_follow s.
Proof. by rewrite !labels_follow_spec. Qed.

Lemma labels_push e s : is_label e = false -> labels_follow s -> labels_follow (push e s).
Proof.
  rewrite !labels_follow_spec, push_entries, log_labels_snoc. unfold is_label. by destruct (se_payload e).
Qed.

Lemma on_disk_world s w w' : content w' = content w -> on_disk (s, w) -> on_disk (s, w').
Proof. unfold on_disk. cbn [fst snd]. by intros ->. Qed.

Lemma append_entry_keeps e s w w1 s' w' r : wf s -> entry_for s e -> is_label e = false -> content w1 = content w ->
  appendEntry e (s, w1) = ((s', w'), r) -> NoDup (map se_id (getEntries s')) -> keeps (s, w) (s', w') r.
Proof.
  intros Hwf He Hl Hc Ha Hnd. destruct (appendEntry_spec _ _ _ _ _ _ Ha Hwf He Hnd) as (Hwf' & (b & ->) & Hr & Hd).
  split; [done|]. intros [Hlab Hdisk] Hok. split; [by apply labels_flushed, labels_push|].
  apply Hd; [by eapply on_disk_world|]. destruct Hr as [->|(m & ->)]; [done|]. by destruct (Hok m).
Qed.

Lemma append_keeps payload s w s' w' r : (forall t l, payload <> SE_label t l) -> wf s -> append payload (s, w) = ((s', w'), r) ->
  NoDup (map se_id (getEntries s')) -> keeps (s, w) (s', w') r.
Proof.
  intros Hpay Hwf. unfold ManagerOps.append. intros [(x1 & e & Hn & Hk)|(e & Hn & ->)]%sm_bind_inv Hnd;
    apply new_entry_spec in Hn as (w1 & e1 & -> & He & Hc & Hne & Hpar & Hp); [|done]. injection He as ->.
  assert (Hl : is_label e1 = false) by (unfold is_label; rewrite Hp; destruct payload; try done; by destruct (Hpay targetId label)).
  apply sm_bind_inv in Hk as [(x1 & [] & Ha & Hk)|(e & Ha & ->)].
  - injection Hk as -> <-. eapply keeps_result; [by eapply append_entry_keeps|by intros _ m].
  - eapply keeps_result; [by eapply append_entry_keeps|]. intros Hok m [= ->]. by apply (Hok m).
Qed.

Lemma appendCustomMessageEntry_keeps customType c display details id s w s' w' r : wf s ->
  appendCustomMessageEntry number_to_string parse_number customType c display details id (s, w) = ((s', w'), r) ->
  NoDup (map se_id (getEntries s')) -> keeps (s, w) (s', w') r.
Proof.
  intros Hwf. unfold appendCustomMessageEntry. rewrite (sm_bind_Ok _ _ _ (s, w) s) by done. intros Hrun Hnd.
  assert (Hid : forall x1 r1, match match truthy id with Some i => if map_has i (sm_byId s) then None else Some i | None => None end with
                 | Some i => sm_ret i | None => generateId (fun id => map_has id (sm_byId s)) end (s, w) = (x1, r1) ->
    exists w1 i, x1 = (s, w1) /\ r1 = Ok i /\ content w1 = content w /\ i <> []).
  { intros x1 r1. assert (Hgen : generateId (fun id => map_has id (sm_byId s)) (s, w) = (x1, r1) ->
      exists w1 i, x1 = (s, w1) /\ r1 = Ok i /\ content w1 = content w /\ i <> []).
    { intros (w1 & i & -> & -> & Hc & Hne & _)%generate_spec. by exists w1, i. }
    destruct id as [[|u i]|]; cbn [truthy]; try exact Hgen. destruct (map_has _ _); [exact Hgen|]. intros [= <- <-]. by exists w, (u :: i). }
  apply sm_bind_inv in Hrun as [(x1 & i & Hg & Hk)|(e & Hg & ->)]; apply Hid in Hg as (w1 & i1 & -> & Hi & Hc & Hne); [|done].
  injection Hi as ->. unfold sm_bind at 1, sm_world in Hk. cbn [fst snd] in Hk. destruct (env_now w1) as [w2 t] eqn:En. apply now_content in En.
  assert (Hc2 : content w2 = content w) by by rewrite En.
  set (e := {| se_id := i1 |}) in Hk. assert (He : entry_for s e) by done.
  apply sm_bind_inv in Hk as [(x1 & [] & Ha & Hk)|(err & Ha & ->)].
  - injection Hk as -> <-. eapply keeps_result; [by eapply (append_entry_keeps e)|by intros _ m].
  - eapply keeps_result; [by eapply (append_entry_keeps e)|]. intros Hok m [= ->]. by apply (Hok m).
Qed.

Lemma commitState_entry ts payload s w x' r : commitState number_to_string parse_number ts payload (s, w) = (x', r) ->
  exists w1 w2 id e, generateId (fun id => map_has id (sm_byId s)) (s, w) = ((s, w1), Ok id) /\
    content w2 = content w1 /\ (forall i, spent w1 i -> spent w2 i) /\
    se_id e = id /\ entry_for s e /\ is_label e = false /\ exists r', appendEntry e (s, w2) = (x', r') /\ (no_storage_error r -> no_storage_error r').
Proof.
  unfold commitState. rewrite (sm_bind_Ok _ _ _ (s, w) s) by done. intros Hrun.
  apply sm_bind_inv in Hrun as [(x1 & id & Hg & Hk)|(e & Hg & ->)]; pose proof (generate_spec _ _ _ _ _ _ Hg) as (w1 & i & -> & Hi & Hc & Hne & _); [|done].
  injection Hi as ->.
  assert (Ht : exists w2 t, match ts with Some t => sm_ret t | None => sm_world env_now end (s, w1) = ((s, w2), Ok t) /\ content w2 = content w1 /\
    forall i, spent w1 i -> spent w2 i).
  { destruct ts as [t|]; [by exists w1, t|]. unfold sm_world. cbn [fst snd]. pose proof (now_later w1) as Hl. destruct (env_now w1) as [w2 t] eqn:En.
    exists w2, t. split_and!; try done. by apply now_content in En. }
  destruct Ht as (w2 & t & Ht & Hc2 & Hl). rewrite (sm_bind_Ok _ _ _ _ _ Ht) in Hk. set (e := {| se_id := i |}) in Hk.
  exists w1, w2, i, e. split_and!; try done.
  apply sm_bind_inv in Hk as [(x1 & [] & Ha & Hk)|(err & Ha & ->)].
  - injection Hk as -> <-. exists (Ok tt). by split; [|intros _ m].
  - exists (Err err). split; [done|]. intros Hok m [= ->]. by apply (Hok m).
Qed.

Lemma commitState_keeps ts payload s w s' w' r : wf s -> commitState number_to_string parse_number ts payload (s, w) = ((s', w'), r) ->
  NoDup (map se_id (getEntries s')) -> keeps (s, w) (s', w') r.
Proof.
  intros Hwf (w1 & w2 & id & e & Hg & Hc & _ & _ & He & Hl & r' & Ha & Hr)%commitState_entry Hnd.
  apply generate_spec in Hg as (? & ? & [= <-] & _ & Hc1 & _). eapply keeps_result; [|exact Hr].
  eapply (append_entry_keeps e); [done|done|done| |done|done]. by rewrite Hc.
Qed.

Lemma appendLabelChange_keeps target label s w s' w' r : wf s ->
  appendLabelChange number_to_string parse_number target label (s, w) = ((s', w'), r) ->
  NoDup (map se_id (getEntries s')) -> keeps (s, w) (s', w') r.
Proof.
  intros Hwf. unfold appendLabelChange. rewrite (sm_bind_Ok _ _ _ (s, w) s) by done.
  destruct (map_has _ _); [|intros [= <- <- <-] _; by apply keeps_same]. intros Hrun Hnd.
  apply sm_bind_inv in Hrun as [(x1 & e & Hn & Hk)|(e & Hn & ->)];
    apply new_entry_spec in Hn as (w1 & e1 & -> & He & Hc & Hne & Hpar & Hp); [|done]. injection He as ->.
  apply sm_bind_inv in Hk as [([s1 w2] & [] & Ha & Hk)|(e & Ha & ->)].
  - rewrite (sm_bind_Ok _ _ _ (set_label target label (se_timestamp e1) s1, w2) tt) in Hk by done. injection Hk as <- <- <-.
    assert (Hget : getEntries (set_label target label (se_timestamp e1) s1) = getEntries s1) by by rewrite set_label_labels.
    rewrite Hget in Hnd. destruct (appendEntry_spec _ _ _ _ _ _ Ha Hwf (conj Hne Hpar) Hnd) as (Hwf' & (b & ->) & Hr & Hd).
    split; [rewrite set_label_labels; by apply wf_labels_free|]. intros [Hlab Hdisk] _. split.
    + cbn [fst] in *. apply labels_follow_spec in Hlab as [H1 H2]. apply labels_follow_spec. rewrite Hget.
      change (getEntries (with_flushed b (push e1 s))) with (getEntries (push e1 s)). rewrite push_entries, log_labels_snoc, Hp, set_label_labels.
      cbn. rewrite H1, H2. by destruct (truthy label).
    + cbn [fst snd]. rewrite set_label_labels. apply Hd; [by eapply on_disk_world|done].
  - destruct (appendEntry_spec _ _ _ _ _ _ Ha Hwf (conj Hne Hpar) Hnd) as (Hwf' & Hb & Hr & Hd). split; [done|].
    intros _ Hok. destruct Hr as [|(m & [= ->])]; [done|]. by destruct (Hok m).
Qed.

(** ** Sessions, edits and the leaf *)

Lemma wf_fresh header s : wf (fresh_session header s).
Proof. split; [by exists header|constructor|done|done]. Qed.

(** A new session is well formed whatever the manager held before. *)
Lemma newSession_keeps options s w s' w' : newSession join options (s, w) = ((s', w'), Ok tt) -> wf s' /\ consistent (s', w').
Proof.
  unfold newSession. intros [([s1 w1] & [] & Hv & Hk)|(? & ? & ?)]%sm_bind_inv; [|done].
  apply sm_bind_inv in Hk as [([s2 w2] & id & Hid & Hk)|(? & ? & ?)]; [|done].
  apply sm_bind_inv in Hk as [([s3 w3] & t & Ht & Hk)|(? & ? & ?)]; [|done].
  rewrite (sm_bind_Ok _ _ _ (s3, w3) s3) in Hk by done. unfold sm_bind, sm_modify in Hk. cbn [fst snd] in Hk.
  set (header := {| sh_version := _ |}) in Hk.
  assert (Hdone : forall f, (wf (with_file f (fresh_session header s3)) /\ consistent (with_file f (fresh_session header s3), w3)) /\
    wf (fresh_session header s3) /\ consistent (fresh_session header s3, w3)).
  { intros f. pose proof (wf_fresh header s3) as Hwf. split_and!; try done. by destruct Hwf. }
  destruct (sm_persist s3); injection Hk as <- <-; apply (Hdone (Some (session_path join (sm_sessionDir s3) t id))).
Qed.

Lemma newSession_Err options s w s' w' e : newSession join options (s, w) = ((s', w'), Err e) -> s' = s /\ w' = w.
Proof.
  unfold newSession. intros [([s1 w1] & [] & Hv & Hk)|(e' & Hv & _)]%sm_bind_inv.
  - exfalso. apply sm_bind_inv in Hk as [([s2 w2] & id & Hid & Hk)|(e' & Hid & _)].
    + apply sm_bind_inv in Hk as [([s3 w3] & t & Ht & Hk)|(e' & Ht & _)].
      * rewrite (sm_bind_Ok _ _ _ (s3, w3) s3) in Hk by done. unfold sm_bind, sm_modify in Hk. by destruct (sm_persist s3).
      * unfold sm_world in Ht. by destruct (env_now _).
    + destruct (ns_id options); [done|]. unfold sm_world in Hid. by destruct (env_uuidv7 _).
  - destruct (ns_id options) as [i|]; [|done]. unfold assertValidSessionId in Hv. destruct (SESSION_ID_PATTERN i); [done|].
    by injection Hv as <- <- _.
Qed.

Lemma newSession_step options s w s' w' r : wf s -> newSession join options (s, w) = ((s', w'), r) -> keeps (s, w) (s', w') r.
Proof.
  intros Hwf. destruct r as [[]|e]; [intros [? ?]%newSession_keeps; by split|]. intros [-> ->]%newSession_Err. by apply keeps_same.
Qed.

Lemma rewriteFile_keeps s0 s w w0 s' w' r : wf s -> (labels_follow s0 -> labels_follow s) -> rewriteFile (s, w) = ((s', w'), r) ->
  keeps (s0, w0) (s', w') r.
Proof.
  intros Hwf Hlab Hr. destruct (rewriteFile_frame _ _ _ _ _ Hr) as [(b & ->) Hres]. split; [by apply wf_flushed|].
  intros [Hl _] Hok. split; [by apply labels_flushed, Hlab|]. destruct Hres as [->|(m & ->)]; [by eapply rewriteFile_disk|].
  by destruct (Hok m).
Qed.

Lemma flush_keeps s w s' w' r : wf s -> flush number_to_string parse_number (s, w) = ((s', w'), r) -> keeps (s, w) (s', w') r.
Proof.
  intros Hwf. unfold flush. rewrite when_persistent_run.
  destruct (sm_persist s), (truthy (sm_sessionFile s)), (sm_flushed s), (existsb is_conversation (sm_fileEntries s)); try (intros [= <- <- <-]; by apply keeps_same).
  by apply rewriteFile_keeps.
Qed.

(** The entry with an id, changed. *)
Definition amend (id : jstring) (f : SessionEntry -> SessionEntry) (e : SessionEntry) : SessionEntry :=
  if bool_decide (se_id e = id) then f e else e.

Lemma amend_eq id f e : se_id e = id -> amend id f e = f e.
Proof. intros. unfold amend. by rewrite bool_decide_true. Qed.

Lemma amend_ne id f e : se_id e <> id -> amend id f e = e.
Proof. intros. unfold amend. by rewrite bool_decide_false. Qed.

Lemma amend_other id f es : id ∉ map se_id es -> map (amend id f) es = es.
Proof.
  induction es as [|e es IH]; [done|]. cbn. intros [Hne Hni]%not_elem_of_cons. by rewrite IH, amend_ne by done.
Qed.

Lemma update_last_log id f es : NoDup (map se_id es) -> update_last id f (map FL_entry es) = map FL_entry (map (amend id f) es).
Proof.
  induction es as [|e es IH]; [done|]. cbn. intros [Hne Hnd]%NoDup_cons. rewrite entries_of_entries, (IH Hnd).
  destruct (decide (se_id e = id)) as [<-|He]; [|by rewrite bool_decide_false, amend_ne by done].
  rewrite bool_decide_true, amend_other, amend_eq by done. cbn [andb].
  assert (existsb (fun x => bool_decide (se_id x = se_id e)) es = false) as ->; [|done].
  apply not_true_is_false. intros (x & Hx & Hid%bool_decide_eq_true)%existsb_exists. apply Hne. rewrite <- Hid.
  apply id_elem, list_elem_of_In, Hx.
Qed.

Lemma pairs_amend id f es e : NoDup (map se_id es) -> (forall x, se_id (f x) = se_id x) -> map_get id (pairs es) = Some e ->
  map_set id (f e) (pairs es) = pairs (map (amend id f) es).
Proof.
  intros Hnd Hf. induction es as [|x es IH]; [done|]. cbn in *. fold (pairs es) (pairs (map (amend id f) es)) in *. apply NoDup_cons in Hnd as [Hne Hnd].
  destruct (decide (se_id x = id)) as [<-|Hx].
  - rewrite !decide_True by done. intros [= ->]. by rewrite amend_eq, Hf, amend_other.
  - rewrite !decide_False by done. intros Hget. by rewrite IH, amend_ne.
Qed.

Lemma amend_ids id f es : (forall x, se_id (f x) = se_id x) -> map se_id (map (amend id f) es) = map se_id es.
Proof. intros Hf. rewrite map_map. apply map_ext. intros x. unfold amend. case_bool_decide; auto. Qed.

Lemma log_amend id f es : (forall x, se_id (f x) = se_id x) -> (forall x, se_parentId (f x) = se_parentId x) -> log es ->
  log (map (amend id f) es).
Proof.
  intros Hid Hp. assert (Hc : forall x, se_id (amend id f x) = se_id x /\ se_parentId (amend id f x) = se_parentId x).
  { intros x. unfold amend. case_bool_decide; auto. }
  induction 1 as [|es x Hes IH Hx Hne Hpar]; [constructor|]. rewrite map_app. destruct (Hc x) as [H1 H2].
  constructor; rewrite ?amend_ids, ?H1, ?H2; try done.
Qed.

Lemma log_labels_amend id f es : (forall x, is_label (f x) = false) -> (forall x, x ∈ es -> se_id x = id -> is_label x = false) ->
  log_labels (map (amend id f) es) = log_labels es.
Proof.
  intros Hf. induction es as [|x es IH] using rev_ind; intros Hx; [done|]. rewrite map_app. cbn [map]. rewrite !log_labels_snoc, IH.
  - unfold amend. case_bool_decide as Hid; [|done]. specialize (Hf x). specialize (Hx x).
    assert (Hxl : is_label x = false) by (apply Hx; [apply elem_of_app; right; by apply list_elem_of_singleton|done]).
    unfold is_label in *. by destruct (se_payload (f x)), (se_payload x).
  - intros y Hy. apply Hx, elem_of_app. by left.
Qed.

Lemma updateMessageContent_keeps id text s w s' w' r : wf s ->
  updateMessageContent number_to_string parse_number id text (s, w) = ((s', w'), r) -> keeps (s, w) (s', w') r.
Proof.
  intros Hwf. unfold updateMessageContent. rewrite (sm_bind_Ok _ _ _ (s, w) s) by done.
  destruct (map_get id (sm_byId s)) as [e|] eqn:Ee; [|intros [= <- <- <-]; by apply keeps_same].
  assert (Hupdate : forall p, is_label (with_payload p e) = false -> is_label e = false -> forall s' w' r,
    (run! sm_modify (fun s => with_log (update_last id (with_payload p) (sm_fileEntries s)) (map_set id (with_payload p e) (sm_byId s)) (sm_leafId s) s) in
     run! rewriteFile in sm_ret true) (s, w) = ((s', w'), r) -> keeps (s, w) (s', w') r).
  { intros p Hp Hle s1 w1 r1. destruct Hwf as [(h & Hf & Hh) Hlog Hidx Hleaf]. pose proof (log_NoDup _ Hlog) as Hnd.
    set (s2 := with_log (update_last id (with_payload p) (sm_fileEntries s)) (map_set id (with_payload p e) (sm_byId s)) (sm_leafId s) s).
    rewrite (sm_bind_Ok _ _ _ (s2, w) tt) by done.
    assert (Hupd : sm_fileEntries s2 = FL_header h :: map FL_entry (map (amend id (with_payload p)) (getEntries s))).
    { cbn. rewrite Hf. cbn [update_last]. by rewrite update_last_log. }
    assert (Hget : getEntries s2 = map (amend id (with_payload p)) (getEntries s)).
    { unfold getEntries at 1. rewrite Hupd. apply entries_of_entries. }
    assert (Hwf2 : wf s2).
    { split; rewrite ?Hget.
      - exists h. by rewrite Hupd.
      - by apply log_amend.
      - cbn. rewrite Hidx in *. by apply (pairs_amend id (with_payload p)).
      - intros i Hi. rewrite amend_ids by done. by apply Hleaf. }
    assert (Hlab : labels_follow s -> labels_follow s2).
    { rewrite !labels_follow_spec, Hget. rewrite log_labels_amend; [done| |].
      - intros x. unfold is_label in *. done.
      - intros x Hx Hid. rewrite Hidx in Ee. apply pairs_get_Some in Ee as [He Hide].
        by rewrite (ids_inj (getEntries s) x e) by congruence. }
    intros [([s3 w3] & [] & Hr & Hk)|(err & Hr & ->)]%sm_bind_inv.
    - injection Hk as <- <- <-. eapply keeps_result; [by eapply rewriteFile_keeps|by intros _ m].
    - eapply keeps_result; [by eapply rewriteFile_keeps|]. intros Hok m [= ->]. by apply (Hok m). }
  unfold is_label in Hupdate. destruct (se_payload e) eqn:Ep; try (intros [= <- <- <-]; by apply keeps_same); [|by apply Hupdate].
  destruct (set_content text message); [by apply Hupdate|]. intros [= <- <- <-]. by apply keeps_same.
Qed.

Lemma wf_with_leaf leafId s : wf s -> (forall id, leafId = Some id -> map_has id (sm_byId s) = true) -> wf (with_leaf leafId s).
Proof.
  intros [Hh Hl Hi _] Hleaf. split; try done. intros id Hid.
  change (id ∈ map se_id (getEntries s)). apply pairs_has. rewrite <- Hi. by apply Hleaf.
Qed.

Lemma leaf_keeps leafId s w : wf s -> (forall id, leafId = Some id -> map_has id (sm_byId s) = true) ->
  keeps (s, w) (with_leaf leafId s, w) (Ok tt).
Proof. intros Hwf Hl. split; [by apply wf_with_leaf|]. by intros [? ?] _. Qed.

Lemma branchWithSummary_keeps from summary details fromHook usage s w s' w' r : wf s ->
  branchWithSummary number_to_string parse_number from summary details fromHook usage (s, w) = ((s', w'), r) ->
  NoDup (map se_id (getEntries s')) -> keeps (s, w) (s', w') r.
Proof.
  intros Hwf. unfold branchWithSummary. rewrite (sm_bind_Ok _ _ _ (s, w) s) by done. intros Hrun Hnd.
  assert (Hgo : (forall id, from = Some id -> map_has id (sm_byId s) = true) ->
    append (SE_branch_summary (default (js "root") from) summary details usage fromHook) (with_leaf from s, w) = ((s', w'), r) -> keeps (s, w) (s', w') r).
  { intros Hhas Happ. destruct (leaf_keeps from s w Hwf Hhas) as [Hwf' Hc]. by apply append_keeps in Happ. }
  destruct from as [id|]; [destruct (map_has id (sm_byId s)) eqn:Eh|].
  - rewrite (sm_bind_Ok _ _ _ (s, w) tt), (sm_bind_Ok _ _ _ (with_leaf (Some id) s, w) tt) in Hrun by done. apply Hgo; [by intros ? [= <-]|done].
  - injection Hrun as <- <- <-. by apply keeps_same.
  - rewrite (sm_bind_Ok _ _ _ (s, w) tt), (sm_bind_Ok _ _ _ (with_leaf None s, w) tt) in Hrun by done. by apply Hgo.
Qed.
(** ** Ids *)

(** The ids of the log are accounted for. *)
Definition ids_accounted (x : SessionManager * W) : Prop := accounted x.2 (map se_id (getEntries x.1)).

Lemma rewriteFile_later s w s' w' r i : rewriteFile (s, w) = ((s', w'), r) -> spent w i -> spent w' i.
Proof.
  rewrite rewriteFile_run. intros Hr Hi. destruct (sm_persist s), (truthy (sm_sessionFile s)) as [f|]; try by injection Hr as <- <- <-.
  apply (write_later f (whole_file (sm_fileEntries s)) false) in Hi. by destruct (st_write _ _ _ _) as [? [[]|]]; injection Hr as <- <- <-.
Qed.

Lemma persist_later e s w s' w' r i : persist e (s, w) = ((s', w'), r) -> spent w i -> spent w' i.
Proof.
  rewrite persist_run. intros Hr Hi. destruct (sm_persist s), (truthy (sm_sessionFile s)) as [f|]; try by injection Hr as <- <- <-.
  destruct (sm_flushed s); [|destruct (has_assistant _)].
  - apply (append_later f (file_line number_to_string parse_number (FL_entry e))) in Hi. by destruct (st_append _ _ _) as [? ?]; injection Hr as <- <- <-.
  - apply (write_later f (whole_file (sm_fileEntries s)) true) in Hi. by destruct (st_write _ _ _ _) as [? [[]|]]; injection Hr as <- <- <-.
  - by injection Hr as <- <- <-.
Qed.

Lemma rewriteFile_ids s w s' w' r : ids_accounted (s, w) -> rewriteFile (s, w) = ((s', w'), r) -> ids_accounted (s', w').
Proof.
  intros Hids Hr. pose proof (rewriteFile_frame _ _ _ _ _ Hr) as [(b & ->) _]. eapply accounted_later; [|exact Hids].
  intros i. by eapply rewriteFile_later.
Qed.

Lemma appendEntry_ids e s w s' w' r : appendEntry e (s, w) = ((s', w'), r) -> accounted w (map se_id (getEntries s ++ [e])) -> ids_accounted (s', w').
Proof.
  unfold ManagerOps.appendEntry. rewrite (sm_bind_Ok _ _ _ (push e s, w) tt) by done. intros Hp Hids.
  pose proof (persist_frame _ _ _ _ _ _ Hp) as [(b & ->) _]. unfold ids_accounted. cbn [fst snd].
  change (getEntries (with_flushed b (push e s))) with (getEntries (push e s)). rewrite push_entries.
  eapply accounted_later; [|exact Hids]. intros i. by eapply persist_later.
Qed.

Lemma generateId_ids s w x' r : wf s -> ids_accounted (s, w) -> generateId (fun id => map_has id (sm_byId s)) (s, w) = (x', r) ->
  exists w' id, x' = (s, w') /\ r = Ok id /\ content w' = content w /\ id <> [] /\ accounted w' (map se_id (getEntries s) ++ [id]).
Proof.
  intros Hwf Hids Hg. destruct (generate_spec _ _ _ _ _ _ Hg) as (w' & id & -> & -> & Hc & Hne & _).
  apply generate_fresh in Hg as (w1 & i & [= ->] & [= ->] & Hi & Hs & Hl). exists w1, i. split_and!; try done.
  eapply accounted_snoc; [exact Hids| |done|done]. destruct Hi as [Hi|Hi]; [left|by right]. rewrite (wf_index s Hwf) in Hi.
  by apply pairs_hasnt in Hi.
Qed.

Lemma now_ids w1 w2 t ids : env_now w1 = (w2, t) -> accounted w1 ids -> accounted w2 ids.
Proof. intros En. apply accounted_later. intros i Hi. apply now_later in Hi. by rewrite En in Hi. Qed.
Lemma new_entry_ids payload s w x' r : wf s -> ids_accounted (s, w) -> new_entry payload (s, w) = (x', r) ->
  exists w' e, x' = (s, w') /\ r = Ok e /\ accounted w' (map se_id (getEntries s ++ [e])).
Proof.
  intros Hwf Hids. unfold new_entry. intros [(x1 & s1 & [= <- <-] & Hk)|(? & ? & ?)]%sm_bind_inv; [|done].
  apply sm_bind_inv in Hk as [(x1 & id & Hg & Hk)|(e & Hg & ->)]; apply generateId_ids in Hg as (w1 & i & -> & Hi & _ & _ & Ha); try done.
  injection Hi as ->. unfold sm_bind, sm_world in Hk. cbn in Hk. destruct (env_now w1) as [w2 t] eqn:En. injection Hk as <- <-.
  eexists w2, _. split_and!; try done. rewrite map_app. cbn [map se_id]. by eapply now_ids.
Qed.

Lemma append_ids payload s w s' w' r : wf s -> ids_accounted (s, w) -> append payload (s, w) = ((s', w'), r) -> ids_accounted (s', w').
Proof.
  intros Hwf Hids. unfold ManagerOps.append. intros [(x1 & e & Hn & Hk)|(e & Hn & ->)]%sm_bind_inv;
    apply new_entry_ids in Hn as (w1 & e1 & -> & He & Ha); try done. injection He as ->.
  apply sm_bind_inv in Hk as [(x1 & [] & Hap & Hk)|(e & Hap & ->)]; [injection Hk as -> <-|]; by eapply appendEntry_ids.
Qed.

(** A given id that is as long as a UUID must be used up. *)
Lemma appendCustomMessageEntry_ids customType c display details id s w s' w' r : wf s -> ids_accounted (s, w) ->
  (forall i, id = Some i -> length i = 36%nat -> spent w i) ->
  appendCustomMessageEntry number_to_string parse_number customType c display details id (s, w) = ((s', w'), r) -> ids_accounted (s', w').
Proof.
  intros Hwf Hids Hgiven. unfold appendCustomMessageEntry. rewrite (sm_bind_Ok _ _ _ (s, w) s) by done. intros Hrun.
  set (pick := match match truthy id with Some i => if map_has i (sm_byId s) then None else Some i | None => None end with
               | Some i => sm_ret i | None => generateId (fun id => map_has id (sm_byId s)) end) in Hrun.
  assert (Hid : forall x1 r1, pick (s, w) = (x1, r1) -> exists w1 i, x1 = (s, w1) /\ r1 = Ok i /\ accounted w1 (map se_id (getEntries s) ++ [i])).
  { intros x1 r1 Hpick. subst pick.
    assert (Hgen : generateId (fun id => map_has id (sm_byId s)) (s, w) = (x1, r1) ->
      exists w1 i, x1 = (s, w1) /\ r1 = Ok i /\ accounted w1 (map se_id (getEntries s) ++ [i])).
    { intros (w1 & i & -> & -> & _ & _ & Ha)%generateId_ids; try done. by exists w1, i. }
    destruct id as [[|u i]|]; cbn [truthy] in Hpick; try by apply Hgen. destruct (map_has (u :: i) (sm_byId s)) eqn:Eh; [by apply Hgen|].
    injection Hpick as <- <-. exists w, (u :: i). split_and!; try done. eapply accounted_snoc; [exact Hids| |by apply Hgiven|done].
    left. rewrite (wf_index s Hwf) in Eh. by apply pairs_hasnt in Eh. }
  apply sm_bind_inv in Hrun as [(x1 & i & Hg & Hk)|(e & Hg & ->)]; apply Hid in Hg as (w1 & i1 & -> & Hi & Ha); [|done].
  injection Hi as ->. unfold sm_bind at 1, sm_world in Hk. cbn [fst snd] in Hk. destruct (env_now w1) as [w2 t] eqn:En.
  eapply now_ids in Ha; [|exact En]. set (e := {| se_id := i1 |}) in Hk. assert (Ha' : accounted w2 (map se_id (getEntries s ++ [e]))) by by rewrite map_app.
  apply sm_bind_inv in Hk as [(x1 & [] & Hap & Hk)|(err & Hap & ->)]; [injection Hk as -> <-|]; by eapply appendEntry_ids.
Qed.

Lemma commitState_ids ts payload s w s' w' r : wf s -> ids_accounted (s, w) ->
  commitState number_to_string parse_number ts payload (s, w) = ((s', w'), r) -> ids_accounted (s', w').
Proof.
  intros Hwf Hids (w1 & w2 & id & e & Hg & _ & Hl & <- & _ & _ & r' & Ha & _)%commitState_entry.
  apply generateId_ids in Hg as (? & ? & [= <-] & [= <-] & _ & _ & Hacc); try done. eapply appendEntry_ids; [exact Ha|]. rewrite map_app.
  by eapply accounted_later.
Qed.

Lemma appendLabelChange_ids target label s w s' w' r : wf s -> ids_accounted (s, w) ->
  appendLabelChange number_to_string parse_number target label (s, w) = ((s', w'), r) -> ids_accounted (s', w').
Proof.
  intros Hwf Hids. unfold appendLabelChange. rewrite (sm_bind_Ok _ _ _ (s, w) s) by done. destruct (map_has _ _); [|by intros [= <- <- <-]].
  intros [(x1 & e & Hn & Hk)|(e & Hn & ->)]%sm_bind_inv; apply new_entry_ids in Hn as (w1 & e1 & -> & He & Ha); try done. injection He as ->.
  apply sm_bind_inv in Hk as [([s1 w2] & [] & Hap & Hk)|(e & Hap & ->)]; [|by eapply appendEntry_ids].
  rewrite (sm_bind_Ok _ _ _ (set_label target label (se_timestamp e1) s1, w2) tt) in Hk by done. injection Hk as <- <- <-.
  apply appendEntry_ids in Hap; [|done]. unfold ids_accounted in *. cbn [fst snd] in *. by rewrite set_label_labels.
Qed.

Lemma branchWithSummary_ids from summary details fromHook usage s w s' w' r : wf s -> ids_accounted (s, w) ->
  branchWithSummary number_to_string parse_number from summary details fromHook usage (s, w) = ((s', w'), r) -> ids_accounted (s', w').
Proof.
  intros Hwf Hids. unfold branchWithSummary. rewrite (sm_bind_Ok _ _ _ (s, w) s) by done. intros Hrun.
  assert (Hgo : (forall id, from = Some id -> map_has id (sm_byId s) = true) ->
    append (SE_branch_summary (default (js "root") from) summary details usage fromHook) (with_leaf from s, w) = ((s', w'), r) -> ids_accounted (s', w')).
  { intros Hhas. apply append_ids; [by apply wf_with_leaf|exact Hids]. }
  destruct from as [id|]; [destruct (map_has id (sm_byId s)) eqn:Eh|].
  - rewrite (sm_bind_Ok _ _ _ (s, w) tt), (sm_bind_Ok _ _ _ (with_leaf (Some id) s, w) tt) in Hrun by done. apply Hgo; [by intros ? [= <-]|done].
  - by injection Hrun as <- <- <-.
  - rewrite (sm_bind_Ok _ _ _ (s, w) tt), (sm_bind_Ok _ _ _ (with_leaf None s, w) tt) in Hrun by done. by apply Hgo.
Qed.

Lemma updateMessageContent_ids id text s w s' w' r : wf s -> ids_accounted (s, w) ->
  updateMessageContent number_to_string parse_number id text (s, w) = ((s', w'), r) -> ids_accounted (s', w').
Proof.
  intros Hwf Hids. unfold updateMessageContent. rewrite (sm_bind_Ok _ _ _ (s, w) s) by done.
  destruct (map_get id (sm_byId s)) as [e|]; [|by intros [= <- <- <-]].
  assert (Hupdate : forall p s' w' r,
    (run! sm_modify (fun s => with_log (update_last id (with_payload p) (sm_fileEntries s)) (map_set id (with_payload p e) (sm_byId s)) (sm_leafId s) s) in
     run! rewriteFile in sm_ret true) (s, w) = ((s', w'), r) -> ids_accounted (s', w')).
  { intros p s1 w1 r1. destruct Hwf as [(h & Hf & Hh) Hlog _ _].
    set (s2 := with_log (update_last id (with_payload p) (sm_fileEntries s)) (map_set id (with_payload p e) (sm_byId s)) (sm_leafId s) s).
    rewrite (sm_bind_Ok _ _ _ (s2, w) tt) by done.
    assert (Hids2 : ids_accounted (s2, w)).
    { assert (Hget : getEntries s2 = map (amend id (with_payload p)) (getEntries s)).
      { unfold getEntries at 1. cbn. rewrite Hf. cbn [update_last]. rewrite update_last_log by by apply log_NoDup. apply entries_of_entries. }
      unfold ids_accounted in *. cbn [fst snd] in *. by rewrite Hget, amend_ids. }
    intros [([s3 w3] & [] & Hr & Hk)|(err & Hr & ->)]%sm_bind_inv; [injection Hk as <- <- <-|]; by eapply rewriteFile_ids. }
  destruct (se_payload e); try (by intros [= <- <- <-]); [|by apply Hupdate].
  destruct (set_content text message); [by apply Hupdate|]. by intros [= <- <- <-].
Qed.

Lemma flush_ids s w s' w' r : ids_accounted (s, w) -> flush number_to_string parse_number (s, w) = ((s', w'), r) -> ids_accounted (s', w').
Proof.
  intros Hids. unfold flush. rewrite when_persistent_run.
  destruct (sm_persist s), (truthy (sm_sessionFile s)), (sm_flushed s), (existsb is_conversation (sm_fileEntries s)); try (by intros [= <- <- <-]).
  by apply rewriteFile_ids.
Qed.

(** A new session has no entries. *)
Lemma newSession_entries options s w s' w' : newSession join options (s, w) = ((s', w'), Ok tt) -> getEntries s' = [].
Proof.
  intros Hrun. unfold newSession in Hrun. apply sm_bind_inv in Hrun as [([s1 w1] & [] & Hv & Hk)|(? & ? & ?)]; [|done].
  apply sm_bind_inv in Hk as [([s2 w2] & id & Hid & Hk)|(? & ? & ?)]; [|done].
  apply sm_bind_inv in Hk as [([s3 w3] & t & Ht & Hk)|(? & ? & ?)]; [|done].
  rewrite (sm_bind_Ok _ _ _ (s3, w3) s3) in Hk by done. unfold sm_bind, sm_modify in Hk. cbn [fst snd] in Hk.
  by destruct (sm_persist s3); injection Hk as <- <-.
Qed.

Lemma accounted_nil w : accounted w [].
Proof. split; [constructor|]. by intros i ?%elem_of_nil. Qed.

Lemma newSession_ids options s w s' w' r : ids_accounted (s, w) -> newSession join options (s, w) = ((s', w'), r) -> ids_accounted (s', w').
Proof.
  intros Hids Hrun. destruct r as [[]|e]; [|by apply newSession_Err in Hrun as [-> ->]].
  unfold ids_accounted. cbn [fst snd]. rewrite (newSession_entries _ _ _ _ _ Hrun). apply accounted_nil.
Qed.
End Effects.
