(* ===== verification/ManagerBranch.v ===== *)
(** * Branches of a session

    [getBranch] finds the path to the root; [createBranchedSession] moves that
    path, without its label entries, into a session of its own, with the same
    context and the labels of the entries it keeps. *)

From stdpp Require Import base list strings pretty.
From Stdlib Require Import ZArith Lia.
From S2P Require Import Prelude SessionTypes SessionState SessionContext Numbers Compaction Truncate EditDiff Json JsonProperties JsonViews SessionJson JsonlRepo.
From S2P Require Import ManagerTypes SessionManager ManagerOps ManagerTree ManagerProperties.

Open Scope Z_scope.
Open Scope sm_scope.

(** ** The path to an entry *)

Lemma getBranch_path s e : wf s -> e ∈ getEntries s -> exists path, getBranch s (Some (se_id e)) = Some path /\ path_to (getEntries s) e path.
Proof.
  intros Hwf He. destruct (log_walk _ (wf_log s Hwf) e He) as (path & Hw & Hp). exists (reverse path). split; [|done].
  unfold getBranch. rewrite (wf_index s Hwf), truthy_id by (apply (log_nonempty (getEntries s)); [apply Hwf|done]). cbn [mbind option_bind].
  rewrite pairs_get by (done || apply log_NoDup, Hwf). unfold walk_fuel. rewrite pairs_length.
  by rewrite (walk_mono _ (length (getEntries s)) _ _ path) by (done || lia).
Qed.

Lemma getBranch_unknown s id : wf s -> id ∉ map se_id (getEntries s) -> getBranch s (Some id) = Some [].
Proof.
  intros Hwf Hid. unfold getBranch. rewrite (wf_index s Hwf). destruct (truthy (Some id)) as [i|] eqn:Ei; [|done].
  apply truthy_Some in Ei as [= <-]. cbn. apply pairs_hasnt in Hid. unfold map_has in Hid. by destruct (map_get id _).
Qed.

(** A log that is one path is walked whole. *)
Lemma linear_walk es : log es -> linked None es -> walk (length es) (pairs es) (last es) = Some (reverse es).
Proof.
  induction 1 as [|es x Hes IH Hx Hid Hp]; [done|]. intros [Hl Hpar]%linked_snoc. rewrite last_snoc, length_app, Nat.add_comm. cbn [length Nat.add].
  rewrite walk_S, reverse_snoc. unfold parent_of. rewrite Hpar. specialize (IH Hl). unfold last_id. destruct (last es) as [y|] eqn:Ey.
  - pose proof Ey as (l & Hl')%last_Some. assert (Hy : y ∈ es) by (rewrite Hl'; apply elem_of_app; right; by apply list_elem_of_singleton).
    cbn [fmap option_fmap option_map]. rewrite truthy_id by by apply (log_nonempty es). cbn [mbind option_bind]. rewrite pairs_get_snoc by by apply id_elem.
    rewrite pairs_get by (done || by apply log_NoDup). rewrite (walk_extend es x) with (path := reverse es); try done; [by constructor|]. by intros ? [= <-].
  - apply last_None in Ey as ->. done.
Qed.

Lemma getBranch_linear s : wf s -> linked None (getEntries s) -> sm_leafId s = last_id (getEntries s) -> getBranch s None = Some (getEntries s).
Proof.
  intros Hwf Hl Hleaf. unfold getBranch. rewrite Hleaf, (wf_index s Hwf). unfold last_id.
  assert (Hstart : (truthy (se_id <$> last (getEntries s)) ≫= fun id => map_get id (pairs (getEntries s))) = last (getEntries s)).
  { destruct (last (getEntries s)) as [e|] eqn:Ee; [|done]. pose proof Ee as (l & Hl')%last_Some.
    assert (He : e ∈ getEntries s) by (rewrite Hl'; apply elem_of_app; right; by apply list_elem_of_singleton).
    cbn [fmap option_fmap option_map]. rewrite truthy_id by (apply (log_nonempty (getEntries s)); [apply Hwf|done]). cbn [mbind option_bind].
    apply pairs_get; [apply log_NoDup, Hwf|done]. }
  rewrite Hstart, (walk_mono _ (length (getEntries s)) _ _ (reverse (getEntries s))).
  - cbn. by rewrite reverse_involutive.
  - by apply linear_walk; [apply Hwf|].
  - unfold walk_fuel. rewrite pairs_length. lia.
Qed.

(** ** The path without its labels *)

Definition unlabelled (path : list SessionEntry) : list SessionEntry := List.filter (fun e => negb (is_label e)) path.

Lemma unlabelled_cons e path : unlabelled (e :: path) = if is_label e then unlabelled path else e :: unlabelled path.
Proof. unfold unlabelled. cbn. by destruct (is_label e). Qed.

Lemma unlabelled_app l1 l2 : unlabelled (l1 ++ l2) = unlabelled l1 ++ unlabelled l2.
Proof. apply List.filter_app. Qed.

#[local] Opaque unlabelled.

Lemma rechain_snoc path e : forall p, rechain p (path ++ [e]) = rechain p path ++
  (if is_label e then [] else [with_parent (match last_id (rechain p path) with Some i => Some i | None => p end) e]).
Proof.
  induction path as [|x path IH]; intros p; cbn; [by destruct (is_label e)|]. destruct (is_label x); [apply IH|]. rewrite IH. cbn. f_equal. f_equal.
  destruct (is_label e); [done|]. f_equal. f_equal. unfold last_id. rewrite last_cons. by destruct (last (rechain _ path)).
Qed.

Lemma rechain_ids path : forall p, map se_id (rechain p path) = map se_id (unlabelled path).
Proof. induction path as [|x path IH]; intros p; [done|]. rewrite unlabelled_cons. cbn. destruct (is_label x); [apply IH|]. cbn. by rewrite IH. Qed.

Lemma rechain_linked path : forall p, linked p (rechain p path).
Proof. induction path as [|x path IH]; intros p; cbn; [done|]. destruct (is_label x); [apply IH|]. cbn. by split. Qed.

Lemma rechain_no_label path : forall p, Forall (fun e => is_label e = false) (rechain p path).
Proof. induction path as [|x path IH]; intros p; cbn; [constructor|]. destruct (is_label x) eqn:E; [apply IH|]. by constructor. Qed.

Lemma unlabelled_ids_sub path id : id ∈ map se_id (unlabelled path) -> id ∈ map se_id path.
Proof.
  induction path as [|x path IH]; [done|]. rewrite unlabelled_cons. cbn [map]. rewrite elem_of_cons. destruct (is_label x); [auto|].
  cbn [map]. intros [->|Hin]%elem_of_cons; auto.
Qed.

Lemma rechain_log path : NoDup (map se_id path) -> Forall (fun e => se_id e <> []) path -> log (rechain None path).
Proof.
  induction path as [|x path IH] using rev_ind; [constructor|]. rewrite map_app. intros (Hnd & Hx & _)%NoDup_app [Hne Hxne]%Forall_app.
  rewrite rechain_snoc. specialize (IH Hnd Hne). destruct (is_label x); [by rewrite app_nil_r|]. constructor; cbn; try done.
  - by apply Forall_cons in Hxne as [? _].
  - rewrite rechain_ids. intros Hin%unlabelled_ids_sub. by apply (Hx _ Hin), list_elem_of_singleton.
  - unfold last_id. intros p. destruct (last (rechain None path)) as [y|] eqn:Ey; [|done]. intros [= <-].
    apply last_Some in Ey as (l & ->). apply id_elem_snoc.
Qed.

(** ** Contexts *)

Section Context.
Context (date_of : jstring -> Z).

Definition messages (l : list SessionEntry) : list AgentMessage := mjoin (map (entryToContextMessages date_of) l).

Lemma messages_app l1 l2 : messages (l1 ++ l2) = messages l1 ++ messages l2.
Proof. unfold messages. by rewrite map_app, join_app. Qed.

Lemma messages_cons e l : messages (e :: l) = entryToContextMessages date_of e ++ messages l.
Proof. done. Qed.

Lemma messages_label e : is_label e = true -> entryToContextMessages date_of e = [].
Proof. unfold is_label, entryToContextMessages. by destruct (se_payload e). Qed.

Lemma messages_unlabelled l : messages (unlabelled l) = messages l.
Proof.
  induction l as [|e l IH]; [done|]. rewrite unlabelled_cons, messages_cons. destruct (is_label e) eqn:E; [|by rewrite messages_cons, IH].
  by rewrite IH, messages_label.
Qed.

(** The parts of a path around its newest compaction. *)
Lemma newest_compaction path : (Forall (fun e => is_compaction e = false) path /\ last (List.filter is_compaction path) = None) \/
  exists A c B, path = A ++ c :: B /\ is_compaction c = true /\ Forall (fun e => is_compaction e = false) B /\
    last (List.filter is_compaction path) = Some c.
Proof.
  induction path as [|e path IH] using rev_ind; [left; by split|]. rewrite List.filter_app. cbn. destruct (is_compaction e) eqn:E.
  - right. exists path, e, []. rewrite last_snoc. split_and!; try done.
  - rewrite app_nil_r. destruct IH as [[Hn Hl]|(A & c & B & -> & Hc & HB & Hl)].
    + left. split; [|done]. apply Forall_app. by repeat constructor.
    + right. exists A, c, (B ++ [e]). rewrite <- app_assoc. split_and!; try done. apply Forall_app. by repeat constructor.
Qed.

Definition kept_id (c : SessionEntry) : jstring := match se_payload c with SE_compaction _ k _ _ _ _ => k | _ => [] end.

Lemma find_index_split A c B : NoDup (map se_id (A ++ c :: B)) -> find_index (se_id c) (A ++ c :: B) = Some (length A).
Proof.
  intros Hnd. unfold find_index. rewrite (proj2 (list_find_Some _ _ (length A) c)); [done|]. split_and!.
  - by rewrite list_lookup_middle.
  - done.
  - intros j y Hy Hj Heq. rewrite lookup_app_l in Hy by done. rewrite map_app in Hnd. apply NoDup_app in Hnd as (_ & Hne & _).
    apply (Hne (se_id y)); [by apply id_elem, (list_elem_of_lookup_2 _ j)|]. rewrite Heq. cbn. by left.
Qed.

Lemma context_split A c B : is_compaction c = true -> Forall (fun e => is_compaction e = false) B -> NoDup (map se_id (A ++ c :: B)) ->
  last (List.filter is_compaction (A ++ c :: B)) = Some c ->
  buildContextEntriesFromPath (A ++ c :: B) = c :: keep_from (kept_id c) A ++ B.
Proof.
  intros Hc HB Hnd Hl. unfold buildContextEntriesFromPath. rewrite Hl, find_index_split by done. unfold is_compaction, kept_id in *.
  destruct (se_payload c); try done. rewrite take_app_length. f_equal. f_equal.
  change (S (length A)) with (length [c] + length A)%nat. rewrite Nat.add_comm, <- length_app.
  change (A ++ c :: B) with (A ++ [c] ++ B). by rewrite app_assoc, drop_app_length.
Qed.

Lemma keep_from_unlabelled k A : (forall e, e ∈ A -> se_id e = k -> is_label e = false) ->
  messages (keep_from k (unlabelled A)) = messages (keep_from k A).
Proof.
  induction A as [|e A IH]; intros Hk; [done|].
  assert (IH' : messages (keep_from k (unlabelled A)) = messages (keep_from k A)) by (apply IH; intros; apply Hk; [by right|done]).
  rewrite unlabelled_cons. cbn [keep_from]. case_bool_decide as He.
  - assert (Hl : is_label e = false) by (apply Hk; [by left|done]). rewrite Hl. cbn [keep_from]. rewrite bool_decide_true by done.
    by rewrite !messages_cons, messages_unlabelled.
  - destruct (is_label e); [done|]. cbn [keep_from]. by rewrite bool_decide_false.
Qed.

Lemma compaction_not_label e : is_compaction e = true -> is_label e = false.
Proof. unfold is_compaction, is_label. by destruct (se_payload e). Qed.

Lemma unlabelled_compactions l : List.filter is_compaction (unlabelled l) = List.filter is_compaction l.
Proof.
  induction l as [|e l IH]; [done|]. rewrite unlabelled_cons. cbn. destruct (is_label e) eqn:El; cbn; [|by rewrite IH].
  destruct (is_compaction e) eqn:Ec; [|done]. by rewrite compaction_not_label in El.
Qed.

Lemma unlabelled_NoDup l : NoDup (map se_id l) -> NoDup (map se_id (unlabelled l)).
Proof.
  induction l as [|e l IH]; [done|]. rewrite unlabelled_cons. cbn. intros [Hne Hnd]%NoDup_cons. destruct (is_label e); cbn; [auto|]. constructor; [|auto].
  by intros Hin%unlabelled_ids_sub.
Qed.

Lemma unlabelled_Forall (P : SessionEntry -> Prop) l : Forall P l -> Forall P (unlabelled l).
Proof. induction 1 as [|e l He _ IH]; [constructor|]. rewrite unlabelled_cons. destruct (is_label e); auto. Qed.

Lemma unlabelled_id l : Forall (fun e => is_label e = false) l -> unlabelled l = l.
Proof. induction 1 as [|e l He _ IH]; [done|]. by rewrite unlabelled_cons, He, IH. Qed.

Lemma settings_unlabelled l s : foldl settings_step s (unlabelled l) = foldl settings_step s l.
Proof.
  revert s. induction l as [|e l IH]; intros s; [done|]. rewrite unlabelled_cons. cbn [foldl]. destruct (is_label e) eqn:E; cbn [foldl]; rewrite IH; [|done]. f_equal.
  unfold is_label, settings_step in *. by destruct (se_payload e).
Qed.

(** The labels of a path do not matter, unless one is the first kept entry. *)
Lemma context_unlabelled path : NoDup (map se_id path) ->
  (forall A c B, path = A ++ c :: B -> is_compaction c = true -> Forall (fun e => is_compaction e = false) B ->
    forall e, e ∈ A -> se_id e = kept_id c -> is_label e = false) ->
  buildSessionContextFromPath date_of (unlabelled path) = buildSessionContextFromPath date_of path.
Proof.
  intros Hnd Hk. unfold buildSessionContextFromPath. f_equal; [|apply settings_unlabelled].
  change (messages (buildContextEntriesFromPath (unlabelled path)) = messages (buildContextEntriesFromPath path)).
  destruct (newest_compaction path) as [[Hn Hl]|(A & c & B & -> & Hc & HB & Hl)].
  - unfold buildContextEntriesFromPath. rewrite unlabelled_compactions, Hl. apply messages_unlabelled.
  - rewrite context_split by done. assert (Hu : unlabelled (A ++ c :: B) = unlabelled A ++ c :: unlabelled B).
    { rewrite unlabelled_app, unlabelled_cons. by rewrite compaction_not_label. }
    rewrite Hu, context_split; try done.
    + change (messages ([c] ++ keep_from (kept_id c) (unlabelled A) ++ unlabelled B) = messages ([c] ++ keep_from (kept_id c) A ++ B)).
      rewrite !messages_app, messages_unlabelled, keep_from_unlabelled; [done|]. by apply (Hk A c B).
    + by apply unlabelled_Forall.
    + rewrite <- Hu. by apply unlabelled_NoDup.
    + by rewrite <- Hu, unlabelled_compactions.
Qed.

(** Nor do the parents. *)
Definition orphan (e : SessionEntry) : SessionEntry := with_parent None e.

Lemma rechain_orphans path : forall p, map orphan (rechain p path) = map orphan (unlabelled path).
Proof. induction path as [|e path IH]; intros p; [done|]. rewrite unlabelled_cons. cbn. destruct (is_label e); [apply IH|]. cbn. by rewrite IH. Qed.

Lemma keep_from_orphans k l : map orphan (keep_from k l) = keep_from k (map orphan l).
Proof. induction l as [|e l IH]; cbn; [done|]. by case_bool_decide. Qed.

Lemma filter_orphans l : List.filter is_compaction (map orphan l) = map orphan (List.filter is_compaction l).
Proof. induction l as [|e l IH]; cbn; [done|]. change (is_compaction (orphan e)) with (is_compaction e). destruct (is_compaction e); cbn; by rewrite IH. Qed.

Lemma find_index_orphans id l : find_index id (map orphan l) = find_index id l.
Proof.
  unfold find_index. induction l as [|e l IH]; [done|]. cbn. destruct (decide (se_id e = id)) as [He|He]; [done|].
  destruct (list_find (fun e => se_id e = id) (map orphan l)) as [[i x]|], (list_find (fun e => se_id e = id) l) as [[j y]|]; cbn in *; congruence.
Qed.

Lemma entries_orphans l : buildContextEntriesFromPath (map orphan l) = map orphan (buildContextEntriesFromPath l).
Proof.
  unfold buildContextEntriesFromPath. rewrite filter_orphans. change (map orphan (List.filter is_compaction l)) with (orphan <$> List.filter is_compaction l).
  rewrite fmap_last. destruct (last _) as [c|]; [|done]. cbn. rewrite find_index_orphans. destruct (find_index (se_id c) l) as [i|]; [|done].
  destruct (se_payload c); try done. cbn. by rewrite map_app, keep_from_orphans, <- firstn_map, <- skipn_map.
Qed.

Lemma context_orphans l : buildSessionContextFromPath date_of (map orphan l) = buildSessionContextFromPath date_of l.
Proof.
  unfold buildSessionContextFromPath. f_equal.
  - by rewrite entries_orphans, map_map.
  - unfold getSessionContextSettings. generalize {| cs_thinkingLevel := js "off"; cs_model := None |}.
    induction l as [|e l IH]; intros s; [done|]. cbn. rewrite IH. done.
Qed.
End Context.

(** ** The labels *)

(** Labels are kept once per target, with a text and a time. *)
Record labels_wf (p : list (jstring * jstring) * list (jstring * jstring)) : Prop := {
  labels_distinct : map_wf p.1;
  labels_text : Forall (fun q => q.2 <> []) p.1;
  labels_times : map_keys p.1 = map_keys p.2 }.

Lemma map_keys_delete {V} k (l : list (jstring * V)) : map_keys (map_delete k l) = fst <$> map_delete k (map (fun q => (q.1, ())) l).
Proof. induction l as [|[k' v] l IH]; [done|]. cbn. destruct (decide (k = k')); [|cbn; by f_equal]. unfold map_keys. cbn. by rewrite <- list_fmap_compose. Qed.

Lemma Forall_map_set {V} (P : V -> Prop) k v (l : list (jstring * V)) : P v -> Forall (fun q => P q.2) l -> Forall (fun q => P q.2) (map_set k v l).
Proof. intros Hv. induction 1 as [|[k' v'] l Hx Hl IH]; cbn; [by repeat constructor|]. destruct (decide _); by constructor. Qed.

Lemma Forall_map_delete {V} (P : V -> Prop) k (l : list (jstring * V)) : Forall (fun q => P q.2) l -> Forall (fun q => P q.2) (map_delete k l).
Proof. induction 1 as [|[k' v'] l Hx Hl IH]; cbn; [constructor|]. destruct (decide _); [done|by constructor]. Qed.

Lemma log_labels_wf es : labels_wf (log_labels es).
Proof.
  induction es as [|e es [Hd Ht Hk]] using rev_ind; [by split; [constructor|constructor|]|]. rewrite log_labels_snoc.
  destruct (se_payload e); try done. destruct (truthy label) as [l|] eqn:El; split; cbn [fst snd].
  - by apply map_set_wf.
  - apply (Forall_map_set (fun t => t <> [])); [|done]. destruct label as [[|]|]; naive_solver.
  - rewrite !map_keys_set, Hk. unfold map_has. assert (Hh : map_has targetId (log_labels es).1 = map_has targetId (log_labels es).2).
    { apply eq_bool_prop_intro. rewrite !Is_true_true, !map_has_keys. by rewrite Hk. }
    unfold map_has in Hh. by destruct (map_get _ _), (map_get _ _).
  - by apply map_delete_wf.
  - by apply (Forall_map_delete (fun t => t <> [])).
  - rewrite !map_keys_delete. f_equal. f_equal. unfold map_keys in Hk. revert Hk. generalize (log_labels es).1 (log_labels es).2.
    intros l1. induction l1 as [|[a b] l1 IH]; intros [|[c d] l2]; cbn; try done. intros [= -> H]. f_equal. by apply IH.
Qed.

Definition label_for (e : SessionEntry) (p : jstring * jstring * jstring) : Prop :=
  se_payload e = SE_label p.1.1 (Some p.1.2) /\ se_timestamp e = p.2 /\ se_id e <> [].

Lemma log_labels_none es : Forall (fun e => is_label e = false) es -> log_labels es = ([], []).
Proof.
  induction es as [|e es IH] using rev_ind; [done|]. intros [Hes He]%Forall_app. rewrite log_labels_snoc, IH by done.
  apply Forall_cons in He as [He _]. unfold is_label in He. by destruct (se_payload e).
Qed.

(** Label entries for distinct targets restore the labels. *)
Lemma log_labels_restore es les labels : Forall (fun e => is_label e = false) es -> Forall2 label_for les labels ->
  NoDup (map (fun p => p.1.1) labels) -> Forall (fun p => p.1.2 <> []) labels ->
  log_labels (es ++ les) = (map fst labels, map (fun p => (p.1.1, p.2)) labels).
Proof.
  intros Hes. revert labels. induction les as [|e les IH] using rev_ind; intros labels Hf.
  - apply Forall2_nil_inv_l in Hf as ->. intros _ _. rewrite app_nil_r. by apply log_labels_none.
  - apply Forall2_app_inv_l in Hf as (l1 & l2 & Hl1 & Hl2 & ->). apply Forall2_cons_inv_l in Hl2 as (q & l3 & (Hp & Ht & _) & Hl3 & ->).
    apply Forall2_nil_inv_l in Hl3 as ->. rewrite !map_app. intros (Hnd & Hq & _)%NoDup_app [Hne Hqne]%Forall_app.
    apply Forall_cons in Hqne as [Hqne _]. rewrite app_assoc, log_labels_snoc, Hp, (IH l1) by done. rewrite truthy_id by done.
    assert (Hfresh : forall V (f : jstring * jstring * jstring -> jstring * V), (forall p, (f p).1 = p.1.1) -> map_has q.1.1 (map f l1) = false).
    { intros V f Hfst. apply not_true_is_false. rewrite map_has_keys. unfold map_keys. intros Hin.
      apply (Hq q.1.1); [|by apply list_elem_of_singleton]. apply list_elem_of_fmap in Hin as (x & Hx & Hin).
      apply list_elem_of_fmap in Hin as (y & -> & Hy). rewrite Hx, Hfst. by apply (list_elem_of_fmap_2 (fun p => p.1.1)). }
    cbn [fst snd]. rewrite !map_set_fresh by (apply Hfresh; done). cbn. rewrite Ht. by destruct q as [[]].
Qed.

Section Branched.
Context {W : Type} `{SessionEnvSpec W}.
Context (number_to_string : number -> jstring) (parse_number : jstring -> option number) (join : jstring -> jstring -> jstring).
Abbreviation on_disk := (on_disk number_to_string parse_number).
Abbreviation consistent := (consistent number_to_string parse_number).
Abbreviation createBranchedSession := (createBranchedSession number_to_string parse_number join).

Lemma label_entries_spec labels : forall ids parent s w x' r, label_entries ids parent labels (s, w) = (x', r) ->
  exists w' les, x' = (s, w') /\ r = Ok les /\ content w' = content w /\ Forall2 label_for les labels /\ linked parent les.
Proof.
  induction labels as [|[[target label] timestamp] labels IH]; intros ids parent s w x' r; cbn [label_entries].
  - intros [= <- <-]. exists w, []. by split_and!.
  - intros [(x1 & id & Hg & Hk)|(e & Hg & ->)]%sm_bind_inv; apply generate_spec in Hg as (w1 & i & -> & Hi & Hc & Hne & _); [|done].
    injection Hi as ->. apply sm_bind_inv in Hk as [(x2 & les & Hl & Hk)|(e & Hl & ->)];
      apply IH in Hl as (w2 & les' & -> & Hles & Hc2 & Hf & Hlk); [|done]. injection Hles as ->. injection Hk as <- <-.
    eexists w2, _. split_and!; try done; [by rewrite Hc2|]. constructor; [|done]. by split_and!.
Qed.

Lemma label_entries_ids labels : forall ids parent s w w' les, label_entries ids parent labels (s, w) = ((s, w'), Ok les) ->
  accounted w ids -> accounted w' (ids ++ map se_id les).
Proof.
  induction labels as [|[[target label] timestamp] labels IH]; intros ids parent s w w' les; cbn [label_entries].
  - intros [= <- <-] Hids. by rewrite app_nil_r.
  - intros [(x1 & id & Hg & Hk)|(e & Hg & [=])]%sm_bind_inv Hids. apply generate_fresh in Hg as (w1 & i & -> & [= ->] & Hi & Hs & Hl).
    apply sm_bind_inv in Hk as [(x2 & les' & Hr & Hk)|(e & Hr & [=])]. injection Hk as -> <-.
    apply IH in Hr; [by rewrite <- app_assoc in Hr|]. eapply accounted_snoc; [exact Hids| |done|done].
    by destruct Hi as [Hi%bool_decide_eq_false|Hi]; [left|right].
Qed.

(** The labels that the branched session writes again. *)
Definition kept_labels (path : list SessionEntry) (s : SessionManager) : list (jstring * jstring * jstring) :=
  omap (fun '(targetId, label) =>
    if bool_decide (targetId ∈ map se_id (rechain None path))
    then Some (targetId, label, default [] (map_get targetId (sm_labelTimestampsById s))) else None) (sm_labelsById s).

(** What [createBranchedSession] leaves: the log is the path, chained again,
    and its labels. *)
Lemma createBranchedSession_spec leafId path s w s' w' r : getBranch s (Some leafId) = Some path -> path <> [] ->
  createBranchedSession leafId (s, w) = ((s', w'), r) ->
  exists h les s1, sm_fileEntries s1 = FL_header h :: map FL_entry (rechain None path ++ les) /\ sh_id h = sm_sessionId s1 /\
    Forall2 label_for les (kept_labels path s) /\ linked (truthy (last_id (rechain None path))) les /\
    (exists b, s' = with_flushed b (buildIndex s1)) /\ (no_storage_error r -> on_disk (s', w')) /\
    (accounted w (map se_id (rechain None path)) -> accounted w' (map se_id (rechain None path ++ les))).
Proof.
  intros Hb Hne. unfold ManagerOps.createBranchedSession. rewrite (sm_bind_Ok _ _ _ (s, w) s), Hb by done.
  destruct path as [|x path]; [done|]. intros Hrun. set (p := x :: path) in *.
  unfold sm_bind at 1, sm_world at 1 in Hrun. cbn [fst snd] in Hrun. destruct (env_uuidv7 w) as [w1 id] eqn:E1.
  unfold sm_bind at 1, sm_world at 1 in Hrun. cbn [fst snd] in Hrun. destruct (env_now w1) as [w2 t] eqn:E2.
  set (h := {| sh_version := _ |}) in Hrun.
  apply sm_bind_inv in Hrun as [(x1 & les & Hl & Hk)|(e & Hl & ->)];
    destruct (label_entries_spec _ _ _ _ _ _ _ Hl) as (w3 & les' & -> & Hles & Hc & Hf & Hlk); [|done]. injection Hles as ->.
  assert (Hids : accounted w (map se_id (rechain None p)) -> accounted w3 (map se_id (rechain None p ++ les'))).
  { intros Hids. rewrite map_app. eapply label_entries_ids; [exact Hl|]. eapply accounted_later; [|exact Hids]. intros i Hi.
    apply uuidv7_later in Hi. rewrite E1 in Hi. cbn [fst] in Hi. apply now_later in Hi. by rewrite E2 in Hi. }
  set (entries := FL_header h :: map FL_entry (rechain None p ++ les')) in *.
  destruct (sm_persist s) eqn:Ep.
  - set (f := session_path join (sm_sessionDir s) t id) in *. set (s1 := with_file (Some f) (with_session id entries s)).
    exists h, les', s1. rewrite (sm_bind_Ok _ _ _ (buildIndex s1, w3) tt) in Hk by done. split_and!; try done.
    + apply sm_bind_inv in Hk as [([s2 w4] & [] & Hr & Hk)|(e & Hr & ->)]; [injection Hk as <- <- <-|]; destruct (has_assistant entries).
      * apply sm_bind_inv in Hr as [([s3 w5] & [] & Hr & Hk)|(? & ? & ?)]; [|done]. injection Hk as <- <-.
        apply rewriteFile_frame in Hr as [(b & ->) _]. by exists true.
      * injection Hr as <- <-. by exists false.
      * apply sm_bind_inv in Hr as [([s3 w5] & [] & Hr & Hk)|(e' & Hr & _)]; [done|]. by apply rewriteFile_frame in Hr as [Hfr _].
      * done.
    + intros Hok. destruct (has_assistant entries) eqn:Eh.
      * apply sm_bind_inv in Hk as [([s2 w4] & [] & Hr & Hk)|(e & Hr & ->)].
        -- injection Hk as <- <- <-. apply sm_bind_inv in Hr as [([s3 w5] & [] & Hr & Hk)|(? & ? & ?)]; [|done]. injection Hk as <- <-.
           pose proof (rewriteFile_frame _ _ _ _ _ _ _ Hr) as [(b & ->) _]. apply rewriteFile_disk in Hr. revert Hr.
           unfold ManagerProperties.on_disk. cbn [fst snd]. destruct b; [done|]. intros Hd Hp g Hg. exfalso. specialize (Hd Hp g Hg).
           cbn [sm_flushed with_flushed] in Hd. rewrite buildIndex_spec in Hd. change (has_assistant entries = false) in Hd. congruence.
        -- apply sm_bind_inv in Hr as [([s3 w5] & [] & Hr & Hk)|(e' & Hr & Heq)]; [done|]. injection Heq as <-.
           apply rewriteFile_frame in Hr as [_ [?|(m & [= ->])]]; [done|]. by destruct (Hok m).
      * rewrite (sm_bind_Ok _ _ _ (with_flushed false (buildIndex s1), w3) tt) in Hk by done. injection Hk as <- <- <-.
        intros Hp g Hg. cbn [fst snd]. rewrite buildIndex_spec. done.
    + intros Ha%Hids. eapply accounted_later; [|exact Ha]. intros i.
      apply sm_bind_inv in Hk as [([s2 w4] & [] & Hr & Hk)|(e & Hr & ->)]; [injection Hk as <- <- <-|]; destruct (has_assistant entries);
        try by injection Hr as <- <-.
      * apply sm_bind_inv in Hr as [([s3 w5] & [] & Hr & Hk)|(? & ? & ?)]; [|done]. injection Hk as <- <-. by eapply rewriteFile_later.
      * apply sm_bind_inv in Hr as [([s3 w5] & [] & Hr & Hk)|(e' & Hr & _)]; [done|]. by eapply rewriteFile_later.
  - rewrite (sm_bind_Ok _ _ _ (buildIndex (with_session id entries s), w3) tt) in Hk by done. injection Hk as <- <- <-.
    exists h, les', (with_session id entries s). split_and!; try done.
    + exists (sm_flushed s). rewrite buildIndex_spec. done.
    + intros _ Hp. cbn [fst] in Hp. rewrite buildIndex_spec in Hp. cbn in Hp. congruence.
Qed.

Lemma truthy_last_id es : log es -> truthy (last_id es) = last_id es.
Proof.
  intros Hes. unfold last_id. destruct (last es) as [e|] eqn:Ee; [|done]. apply truthy_id, (log_nonempty es); [done|].
  apply last_Some in Ee as (l & ->). apply elem_of_app. right. by apply list_elem_of_singleton.
Qed.

(** Labels chained after a log extend it, when their ids are new. *)
Lemma log_labelled es les labels : log es -> Forall2 label_for les labels -> linked (last_id es) les ->
  NoDup (map se_id (es ++ les)) -> log (es ++ les).
Proof.
  intros Hes Hf. revert es Hes. induction Hf as [|e p les labels (Hp & Ht & Hne) Hf IH]; intros es Hes Hl Hnd; [by rewrite app_nil_r|].
  destruct Hl as [Hpar Hl]. change (es ++ e :: les) with (es ++ [e] ++ les) in *. rewrite app_assoc in *. apply IH; [|by unfold last_id; rewrite last_snoc|done].
  rewrite map_app in Hnd. apply NoDup_app in Hnd as (Hnd & _ & _). rewrite map_app in Hnd. apply NoDup_app in Hnd as (_ & Hx & _).
  constructor; try done; [intros Hin; by apply (Hx _ Hin), list_elem_of_singleton|]. rewrite Hpar. unfold last_id.
  intros q (y & Hy & ->)%fmap_Some. apply last_Some in Hy as (l & ->). apply id_elem_snoc.
Qed.

Lemma linked_app p l1 l2 : linked p l1 -> linked (match last_id l1 with Some i => Some i | None => p end) l2 -> linked p (l1 ++ l2).
Proof.
  revert p. induction l1 as [|e l1 IH]; intros p; [done|]. cbn [linked app]. intros [Hp Hl] H2. split; [done|]. apply IH; [done|].
  unfold last_id in *. rewrite last_cons in H2. by destruct (last l1).
Qed.

Lemma path_facts s leafId path : wf s -> getBranch s (Some leafId) = Some path -> path <> [] ->
  NoDup (map se_id path) /\ Forall (fun e => se_id e <> []) path.
Proof.
  intros Hwf Hb Hne. destruct (decide (leafId ∈ map se_id (getEntries s))) as [Hin|Hin].
  - destruct (elem_id _ _ Hin) as (e & He & <-). destruct (getBranch_path s e Hwf He) as (path' & Hb' & [_ _ Hs]).
    assert (path' = path) as -> by congruence. split.
    + eapply sublist_NoDup; [apply log_NoDup, (wf_log s Hwf)|]. by apply (fmap_sublist se_id).
    + apply Forall_forall. intros x Hx. apply (log_nonempty (getEntries s)); [apply Hwf|]. by eapply elem_of_submseteq, sublist_submseteq.
  - rewrite getBranch_unknown in Hb by done. by injection Hb as <-.
Qed.

Lemma path_ids s leafId path i : wf s -> getBranch s (Some leafId) = Some path -> i ∈ map se_id path -> i ∈ map se_id (getEntries s).
Proof.
  intros Hwf Hb Hi. destruct (decide (leafId ∈ map se_id (getEntries s))) as [Hin|Hin].
  - destruct (elem_id _ _ Hin) as (e & He & <-). destruct (getBranch_path s e Hwf He) as (path' & Hb' & [_ _ Hs]).
    assert (path' = path) as -> by congruence. eapply elem_of_submseteq; [exact Hi|]. by apply sublist_submseteq, (fmap_sublist se_id).
  - rewrite getBranch_unknown in Hb by done. injection Hb as <-. by apply elem_of_nil in Hi.
Qed.

(** The log of the branched session. *)
Lemma branched_wf leafId path s w s' w' r : wf s -> getBranch s (Some leafId) = Some path -> path <> [] ->
  createBranchedSession leafId (s, w) = ((s', w'), r) -> NoDup (map se_id (getEntries s')) ->
  exists les, wf s' /\ labels_follow s' /\ getEntries s' = rechain None path ++ les /\ Forall2 label_for les (kept_labels path s) /\
    linked None (getEntries s') /\ sm_leafId s' = last_id (getEntries s') /\ (no_storage_error r -> on_disk (s', w')).
Proof.
  intros Hwf Hb Hne Hrun Hnd. destruct (createBranchedSession_spec _ _ _ _ _ _ _ Hb Hne Hrun) as (h & les & s1 & Hf & Hh & Hles & Hlk & (b & ->) & Hd & _).
  destruct (path_facts s leafId path Hwf Hb Hne) as [Hpnd Hpne].
  assert (Hget1 : getEntries s1 = rechain None path ++ les) by (unfold getEntries; rewrite Hf; apply entries_of_entries).
  assert (Hget : getEntries (with_flushed b (buildIndex s1)) = rechain None path ++ les) by by rewrite buildIndex_spec.
  rewrite Hget in Hnd. pose proof (rechain_log path Hpnd Hpne) as Hlog. rewrite truthy_last_id in Hlk by done.
  pose proof (log_labelled _ _ _ Hlog Hles Hlk Hnd) as Hlog'. destruct (wf_buildIndex s1 h _ Hf Hh Hlog') as [Hwf' Hlab].
  exists les. rewrite Hget. split_and!; try done.
  - by apply wf_flushed.
  - by apply labels_flushed.
  - apply linked_app; [apply rechain_linked|]. by destruct (last_id (rechain None path)).
  - rewrite buildIndex_spec, Hget1. done.
Qed.

Lemma createBranchedSession_keeps leafId s w s' w' r : wf s -> createBranchedSession leafId (s, w) = ((s', w'), r) ->
  NoDup (map se_id (getEntries s')) -> keeps number_to_string parse_number (s, w) (s', w') r.
Proof.
  intros Hwf Hrun Hnd. destruct (getBranch s (Some leafId)) as [path|] eqn:Eb.
  - destruct path as [|x path].
    + unfold ManagerOps.createBranchedSession in Hrun. rewrite (sm_bind_Ok _ _ _ (s, w) s), Eb in Hrun by done. injection Hrun as <- <- <-.
      by apply keeps_same.
    + destruct (branched_wf _ _ _ _ _ _ _ Hwf Eb ltac:(done) Hrun Hnd) as (les & Hwf' & Hl & _ & _ & _ & _ & Hd).
      split; [done|]. intros _ Hok. split; auto.
  - unfold ManagerOps.createBranchedSession in Hrun. rewrite (sm_bind_Ok _ _ _ (s, w) s), Eb in Hrun by done. injection Hrun as <- <- <-.
    by apply keeps_same.
Qed.

Lemma createBranchedSession_ids leafId s w s' w' r : wf s -> ids_accounted (s, w) -> createBranchedSession leafId (s, w) = ((s', w'), r) ->
  ids_accounted (s', w').
Proof.
  intros Hwf Hids Hrun. destruct (getBranch s (Some leafId)) as [path|] eqn:Eb; [destruct (decide (path = [])) as [->|Hne]|].
  2: { destruct (createBranchedSession_spec _ _ _ _ _ _ _ Eb Hne Hrun) as (h & les & s1 & Hf & _ & _ & _ & (b & ->) & _ & Ha).
       assert (Hget : getEntries (with_flushed b (buildIndex s1)) = rechain None path ++ les).
       { rewrite buildIndex_spec. unfold getEntries. cbn. rewrite Hf. apply entries_of_entries. }
       unfold ids_accounted. cbn [fst snd]. rewrite Hget. apply Ha. destruct (path_facts s leafId path Hwf Eb Hne) as [Hnd _].
       rewrite rechain_ids. split; [by apply unlabelled_NoDup|]. intros i Hi%unlabelled_ids_sub. apply Hids. cbn [fst].
       by apply (path_ids s leafId path). }
  all: unfold ManagerOps.createBranchedSession in Hrun; rewrite (sm_bind_Ok _ _ _ (s, w) s), Eb in Hrun by done; by injection Hrun as <- <- <-.
Qed.

(** The first entry that the newest compaction of a path keeps. *)
Definition first_kept (path : list SessionEntry) : option jstring := kept_id <$> last (List.filter is_compaction path).

Lemma branched_path_context date_of path les labels : NoDup (map se_id path) -> NoDup (map se_id (rechain None path ++ les)) ->
  Forall2 label_for les labels -> (forall e, e ∈ path -> first_kept path = Some (se_id e) -> is_label e = false) ->
  buildSessionContextFromPath date_of (rechain None path ++ les) = buildSessionContextFromPath date_of path.
Proof.
  intros Hnd Hnd' Hles Hk. assert (Hun : unlabelled (rechain None path ++ les) = rechain None path).
  { rewrite unlabelled_app. assert (unlabelled les = []) as ->.
    { clear -Hles. induction Hles as [|e p les labels (He & _ & _) _ IH]; [done|]. rewrite unlabelled_cons. unfold is_label. by rewrite He. }
    rewrite app_nil_r. apply unlabelled_id, rechain_no_label. }
  rewrite <- (context_unlabelled date_of (rechain None path ++ les)), Hun; [|done|].
  - rewrite <- context_orphans, rechain_orphans, context_orphans. apply context_unlabelled; [done|].
    intros A c B -> Hc HB e He Hid. apply Hk; [apply elem_of_app; by left|]. unfold first_kept. rewrite List.filter_app. cbn. rewrite Hc, last_app.
    assert (List.filter is_compaction B = []) as -> by (clear -HB; induction HB as [|y B Hy _ IH]; [done|]; cbn; by rewrite Hy).
    cbn. by rewrite Hid.
  - intros A c B Heq Hc HB e He Hid. assert (HA : A `prefix_of` rechain None path).
    { apply (f_equal (fun l => take (length A) l)) in Heq as Htake. rewrite take_app_length in Htake.
      destruct (decide (length A <= length (rechain None path))%nat) as [Hle|Hgt].
      - rewrite take_app_le in Htake by done. rewrite <- Htake. apply prefix_take.
      - exfalso. assert (Hc' : (rechain None path ++ les) !! length A = Some c) by by rewrite Heq, list_lookup_middle.
        rewrite lookup_app_r in Hc' by lia. eapply Forall2_lookup_l in Hles as (p & _ & (Hp & _)); [|done].
        unfold is_compaction in Hc. by rewrite Hp in Hc. }
    destruct HA as [l HA]. pose proof (rechain_no_label path None) as Hno. rewrite HA in Hno. apply Forall_app in Hno as [Hno _].
    by eapply Forall_forall in Hno.
Qed.

Lemma kept_labels_fst path s : map fst (kept_labels path s) =
  List.filter (fun p => bool_decide (p.1 ∈ map se_id (unlabelled path))) (sm_labelsById s).
Proof.
  unfold kept_labels. rewrite rechain_ids. induction (sm_labelsById s) as [|[t l] labels IH]; [done|]. cbn. case_bool_decide; cbn; by rewrite IH.
Qed.

Lemma filter_keys_NoDup (P : jstring * jstring -> bool) l : map_wf l -> NoDup (map fst (List.filter P l)).
Proof.
  unfold map_wf, map_keys. induction l as [|q l IH]; [constructor|]. intros [Hq Hl]%NoDup_cons. cbn. destruct (P q); [|auto].
  cbn. constructor; [|auto]. intros Hin. apply Hq. apply list_elem_of_fmap in Hin as (x & -> & Hx). apply (list_elem_of_fmap_2 fst).
  apply list_elem_of_In in Hx. apply filter_In in Hx as [Hx _]. by apply list_elem_of_In.
Qed.

(** The labels of the kept entries are the labels of the branched session. *)
Lemma branched_labels path les s s' : labels_follow s -> labels_follow s' -> getEntries s' = rechain None path ++ les ->
  Forall2 label_for les (kept_labels path s) -> sm_labelsById s' = map fst (kept_labels path s).
Proof.
  intros Hl [Hl' _]%labels_follow_spec Hget Hles. rewrite Hl', Hget. pose proof (log_labels_wf (getEntries s)) as [Hd Ht _].
  apply labels_follow_spec in Hl as [Hl _]. rewrite <- Hl in *.
  assert (Hmap : map (fun p : jstring * jstring * jstring => p.1.1) (kept_labels path s) = map fst (map fst (kept_labels path s))) by by rewrite map_map.
  rewrite (log_labels_restore _ _ (kept_labels path s)); [done|apply rechain_no_label|done| |].
  - rewrite Hmap, kept_labels_fst. by apply filter_keys_NoDup.
  - apply (Forall_map fst (fun p => p.2 <> [])). change (map fst (kept_labels path s)) with (fst <$> kept_labels path s).
    change (fst <$> kept_labels path s) with (map fst (kept_labels path s)). rewrite kept_labels_fst. apply Forall_forall. intros q Hq.
    apply list_elem_of_In in Hq. apply filter_In in Hq as [Hq _]. apply list_elem_of_In in Hq. by eapply Forall_forall in Ht.
Qed.
End Branched.
