(* ===== verification/ManagerInvariant.v ===== *)
(** * The session manager, as a whole

    The file of a session manager reads back as the session it was written
    from: the same log, index and labels, with the last entry as the leaf.  A
    storage in memory that keeps the contract of the manager's environment
    (files, a counter as the source of ids and of time, a number of writes after
    which it is full).  The operations of the manager as one step function, its
    invariant, the paths and contexts of its branches. *)

From stdpp Require Import base list gmap strings pretty.
From Stdlib Require Import ZArith Lia.
From S2P Require Import Prelude SessionTypes SessionState SessionContext Numbers Truncate TruncateProperties Compaction EditDiff Json JsonProperties JsonViews.
From S2P Require Import SessionJson Jsonl JsonlCodec JsonlProperties JsonlRecovery JsonlRepo ManagerTypes SessionManager ManagerOps ManagerTree ManagerProperties ManagerBranch.

Open Scope Z_scope.
Open Scope sm_scope.

Section Reopen.
Context {W : Type} `{SessionEnvSpec W}.
Context (number_to_string : number -> jstring) (parse_number : jstring -> option number) (join : jstring -> jstring -> jstring).
Abbreviation json_ok := (json_ok number_to_string parse_number).
Abbreviation sessionEntry_obj := (sessionEntry_obj number_to_string parse_number).
Abbreviation sessionHeader_obj := (sessionHeader_obj number_to_string parse_number).
Abbreviation fileEntry_json := (fileEntry_json number_to_string parse_number).
Abbreviation entry_line := (entry_line number_to_string parse_number).
Abbreviation whole_file := (whole_file number_to_string parse_number).

(** ** Lines *)

(** Entries whose strings and numbers have a JSON form. *)
Definition file_ok (f : FileEntry) : Prop :=
  match f with FL_header h => o_ok sessionHeader_obj h | FL_entry e => o_ok sessionEntry_obj e end.

Lemma header_names k : bool_decide (k ∈ o_names sessionHeader_obj) = false -> forall h, o_ok sessionHeader_obj h ->
  map_get k (o_write sessionHeader_obj h) = None.
Proof.
  intros Hk%bool_decide_eq_false h Hh. apply map_get_None. intros Hin. apply Hk.
  by apply (law_keys _ _ _ (sessionHeader_law number_to_string parse_number) h Hh).
Qed.

Lemma entry_type_lookup e : map_get (js "type") (o_write sessionEntry_obj e) = Some (JString (entry_name (se_payload e))).
Proof. apply map_get_here. Qed.

Lemma entry_name_session p : entry_name p <> js "session".
Proof. destruct p; done. Qed.

Lemma file_json_ok f : file_ok f -> json_ok (JObject (fileEntry_json f)).
Proof.
  intros Hf. apply object_ok. destruct f as [h|e]; cbn [ManagerTypes.fileEntry_json].
  - apply props_cons; [split; [done|by repeat constructor]|by apply header_names|constructor; by repeat constructor|].
    apply props_write; [apply sessionHeader_law|done].
  - apply props_write; [apply sessionEntry_law|done].
Qed.

Lemma fileEntry_roundtrip f : file_ok f -> fileEntry_of number_to_string parse_number (fileEntry_json f) = Some f.
Proof.
  intros Hf. unfold fileEntry_of. destruct f as [h|e]; cbn [ManagerTypes.fileEntry_json].
  - rewrite map_get_here, bool_decide_true by done. rewrite (law_read _ _ _ (sessionHeader_law number_to_string parse_number) h); [done|done|].
    intros k Hk. apply map_get_skip. apply bool_decide_eq_false. intros ->.
    assert (bool_decide (js "type" ∈ o_names sessionHeader_obj) = false) as Hn%bool_decide_eq_false by (vm_compute; reflexivity). by apply Hn.
  - rewrite entry_type_lookup, bool_decide_false by (intros [= Hn]; by destruct (entry_name_session (se_payload e))).
    by rewrite (law_read _ _ _ (sessionEntry_law number_to_string parse_number) e).
Qed.

(** A line starts and ends with a brace. *)
Lemma object_last l : last (json_stringify number_to_string (JObject l)) = Some 125.
Proof. cbn [json_stringify]. rewrite app_assoc. apply last_snoc. Qed.

Lemma carriage_line f : carriage (entry_line f) = entry_line f.
Proof. unfold carriage, ManagerTypes.entry_line. by rewrite object_last. Qed.

Lemma line_printable f : file_ok f -> printable (entry_line f).
Proof. intros Hf. eapply stringify_printable. by apply file_json_ok. Qed.

Lemma trimEnd_last s u : last s = Some u -> is_white_space u = false -> trimEnd s = s.
Proof.
  intros Hl Hu. apply last_Some in Hl as (l & ->). induction l as [|x l IH]; cbn [app trimEnd]; [by rewrite Hu|]. rewrite IH. by destruct l.
Qed.

Lemma parse_line f : file_ok f -> parseSessionEntryLine parse_number (entry_line f) = Some (JObject (fileEntry_json f)).
Proof.
  intros Hf. unfold parseSessionEntryLine, trim. rewrite (trimEnd_last _ 125) by (apply object_last || done).
  unfold ManagerTypes.entry_line at 1. destruct (object_line number_to_string (fileEntry_json f)) as [t Ht]. rewrite Ht.
  change (trimStart (123 :: t)) with (123 :: t). by apply json_roundtrip, file_json_ok.
Qed.

Lemma parse_lines_file es : Forall file_ok es ->
  parse_lines parse_number (map entry_line es) = map (fun f => JObject (fileEntry_json f)) es.
Proof.
  induction 1 as [|f es Hf _ IH]; [done|]. unfold parse_lines in *. cbn [map omap list_omap]. rewrite parse_line by done.
  cbn [List.filter falsy negb]. by rewrite IH.
Qed.

Lemma whole_file_cons f es : whole_file (f :: es) = entry_line f ++ newline :: whole_file es.
Proof. unfold ManagerOps.whole_file, file_line. cbn. by rewrite <- app_assoc. Qed.

Lemma text_lines_file es : Forall file_ok es -> text_lines (whole_file es) = map entry_line es.
Proof.
  intros Hes. change (map carriage (JsonlStorage.physical_lines (whole_file es)) = map entry_line es).
  induction Hes as [|f es Hf _ IH]; [done|]. rewrite whole_file_cons, physical_line by by apply line_printable.
  cbn [map]. by rewrite carriage_line, IH.
Qed.

(** ** The header *)

Lemma header_lookup h : sh_version h = Some CURRENT_SESSION_VERSION ->
  map_get (js "version") (fileEntry_json (FL_header h)) = Some (JNumber (number_of_Z CURRENT_SESSION_VERSION)) /\
  map_get (js "id") (fileEntry_json (FL_header h)) = Some (JString (sh_id h)).
Proof.
  destruct h as [version id timestamp cwd parent]. intros Hv. cbn in Hv. subst version.
  assert (fileEntry_json (FL_header {| sh_version := Some CURRENT_SESSION_VERSION; sh_id := id; sh_timestamp := timestamp; sh_cwd := cwd; sh_parentSession := parent |}) =
    (js "type", JString (js "session")) :: (js "version", JNumber (number_of_Z CURRENT_SESSION_VERSION)) :: (js "id", JString id) ::
    (js "timestamp", JString timestamp) :: (js "cwd", JString cwd) :: match parent with Some p => [(js "parentSession", JString p)] | None => [] end) as ->
    by reflexivity.
  by lookups.
Qed.

Lemma load_file h es : sh_version h = Some CURRENT_SESSION_VERSION -> Forall file_ok (FL_header h :: es) ->
  load_lines parse_number (map entry_line (FL_header h :: es)) = map (fun f => JObject (fileEntry_json f)) (FL_header h :: es).
Proof.
  intros Hv Hok. unfold load_lines. rewrite parse_lines_file by done. cbn [map]. unfold is_session, has_string_id, raw_property.
  destruct (header_lookup h Hv) as [_ ->]. cbn [ManagerTypes.fileEntry_json]. by rewrite map_get_here, bool_decide_true.
Qed.

Lemma version_file h es : sh_version h = Some CURRENT_SESSION_VERSION -> raw_version (map fileEntry_json (FL_header h :: es)) = Some CURRENT_SESSION_VERSION.
Proof.
  intros Hv. unfold raw_version. cbn [map List.find]. unfold session_object at 1, raw_type. destruct (header_lookup h Hv) as [Hver _].
  assert (Ht : map_get (js "type") (fileEntry_json (FL_header h)) = Some (JString (js "session"))) by apply map_get_here.
  rewrite Ht, bool_decide_true, Hver by done. vm_compute. reflexivity.
Qed.

(** ** Opening *)

(** What a manager holds after a file was opened. *)
Definition opened (f : jstring) (entries : list FileEntry) (id : jstring) (s : SessionManager) : SessionManager :=
  with_flushed true (buildIndex (with_session id entries (with_file (Some f) s))).

Lemma open_file f h es s w lines : sh_version h = Some CURRENT_SESSION_VERSION -> Forall file_ok (FL_header h :: es) ->
  content w f = Some (whole_file (FL_header h :: es)) -> st_lines f w = Ok lines ->
  setSessionFile number_to_string parse_number join f (s, w) = ((opened f (FL_header h :: es) (sh_id h) s, w), Ok tt).
Proof.
  intros Hv Hok Hc Hl. destruct (lines_content _ _ _ Hl) as (t & Ht & ->). rewrite Hc in Ht. injection Ht as <-.
  unfold setSessionFile. rewrite (sm_bind_Ok _ _ _ (with_file (Some f) s, w) tt) by done.
  assert (Hex : st_exists f w = true) by (rewrite exists_content, bool_decide_true; [done|by eexists]).
  rewrite (sm_bind_Ok _ _ _ (with_file (Some f) s, w) true) by (cbn [snd]; by rewrite Hex).
  rewrite (sm_bind_Ok _ _ _ (with_file (Some f) s, w) (map fileEntry_json (FL_header h :: es))).
  2: { unfold loadEntriesFromFile. cbn [snd]. rewrite Hex, Hl, text_lines_file, load_file by done.
       rewrite (proj2 (mapM_Some _ _ (map fileEntry_json (FL_header h :: es)))); [done|].
       clear. induction (FL_header h :: es) as [|x l IH]; cbn [map]; by constructor. }
  cbn [map]. rewrite (sm_bind_Ok _ _ _ (with_file (Some f) s, w) (map fileEntry_json (FL_header h :: es), false)).
  2: { unfold migrateToCurrentVersion. change (fileEntry_json (FL_header h) :: map fileEntry_json es) with (map fileEntry_json (FL_header h :: es)).
       by rewrite version_file. }
  cbn [fst snd]. rewrite (sm_bind_Ok _ _ _ (with_file (Some f) s, w) (FL_header h :: es)).
  2: { unfold typed_entries. rewrite (proj2 (mapM_Some _ _ (FL_header h :: es))); [done|].
       change (fileEntry_json (FL_header h) :: map fileEntry_json es) with (map fileEntry_json (FL_header h :: es)). clear -Hok.
       induction Hok as [|x l Hx _ IH]; cbn [map]; [constructor|]. constructor; [by apply fileEntry_roundtrip|done]. }
  done.
Qed.
End Reopen.

(** ** A session storage in memory *)

Record SessionWorld := { sw_files : list (jstring * jstring); sw_counter : nat; sw_room : nat }.

(** Distinct strings as long as a UUID. *)
Definition example_uuid (n : nat) : jstring := (48 + Z.of_nat n) :: replicate 35 45.

Definition sw_tick (w : SessionWorld) : SessionWorld := {| sw_files := sw_files w; sw_counter := S (sw_counter w); sw_room := sw_room w |}.

Definition sw_put (p t : jstring) (w : SessionWorld) : SessionWorld * Result jstring unit :=
  match sw_room w with
  | O => (w, Err (js "no space left on device"))
  | S room => ({| sw_files := map_set p t (sw_files w); sw_counter := sw_counter w; sw_room := room |}, Ok tt)
  end.

#[export] Instance memory_sessions : SessionEnv SessionWorld := {
  st_exists p w := map_has p (sw_files w);
  st_lines p w := match map_get p (sw_files w) with Some t => Ok (text_lines t) | None => Err (js "no such file") end;
  st_size p w := match map_get p (sw_files w) with Some t => Ok (Z.of_nat (length t)) | None => Err (js "no such file") end;
  st_write p t exclusive w := if exclusive && map_has p (sw_files w) then (w, Err (js "file exists")) else sw_put p t w;
  st_append p t w := sw_put p (default [] (map_get p (sw_files w)) ++ t) w;
  env_uuid w := (sw_tick w, example_uuid (sw_counter w));
  env_uuidv7 w := (sw_tick w, example_uuid (sw_counter w));
  env_now w := (sw_tick w, js "2025-01-01T00:00:00.000Z") }.

Lemma sw_put_spec p t w w' : sw_put p t w = (w', Ok tt) ->
  map_get p (sw_files w') = Some t /\ forall q, q <> p -> map_get q (sw_files w') = map_get q (sw_files w).
Proof.
  unfold sw_put. destruct (sw_room w); [done|]. intros [= <-]. cbn [sw_files]. split; [apply map_get_set_eq|].
  intros q Hq. by apply map_get_set_ne.
Qed.

Lemma example_uuid_length n : length (example_uuid n) = 36%nat.
Proof. done. Qed.

Lemma example_uuid_fresh n : ~ exists k, (k < n)%nat /\ example_uuid n = example_uuid k.
Proof. intros (k & Hk & [= Heq]). lia. Qed.

(** The counter only grows. *)
Definition sw_spent (w : SessionWorld) (id : jstring) : Prop := exists k, (k < sw_counter w)%nat /\ id = example_uuid k.

Lemma sw_spent_later w w' i : (sw_counter w <= sw_counter w')%nat -> sw_spent w i -> sw_spent w' i.
Proof. intros Hle (k & Hk & ->). exists k. split; [lia|done]. Qed.

Lemma sw_put_counter p t w : sw_counter (sw_put p t w).1 = sw_counter w.
Proof. unfold sw_put. by destruct (sw_room w). Qed.

#[export] Instance memory_sessions_spec : SessionEnvSpec SessionWorld.
Proof.
  refine {| content := fun w p => map_get p (sw_files w); spent := sw_spent |}; cbn [st_exists st_lines st_write st_append env_uuid env_uuidv7 env_now memory_sessions].
  - intros p w. unfold map_has. destruct (map_get p _); [by rewrite bool_decide_true by by eexists|]. rewrite bool_decide_false; [done|]. by intros [].
  - intros p w lines. destruct (map_get p _) as [t|]; [|done]. intros [= <-]. by exists t.
  - intros p t exclusive w w'. destruct (exclusive && _); [done|]. apply sw_put_spec.
  - intros p t w w'. apply sw_put_spec.
  - intros w w' id [= <- <-]. split; [done|apply example_uuid_length].
  - by intros w w' id [= <- <-].
  - by intros w w' t [= <- <-].
  - intros w w' id [= <- <-]. split; [apply example_uuid_fresh|]. exists (sw_counter w). cbn. split; [lia|done].
  - intros w i. apply sw_spent_later. cbn. lia.
  - intros w i. apply sw_spent_later. cbn. lia.
  - intros w i. apply sw_spent_later. cbn. lia.
  - intros p t exclusive w i. apply sw_spent_later. destruct (exclusive && _); [done|]. by rewrite sw_put_counter.
  - intros p t w i. apply sw_spent_later. by rewrite sw_put_counter.
Defined.

(** A manager before its first session. *)
Definition blank_manager (persist : bool) : SessionManager :=
  {| sm_sessionId := []; sm_sessionFile := None; sm_sessionDir := js "/sessions"; sm_cwd := js "/work"; sm_persist := persist; sm_flushed := false;
     sm_fileEntries := []; sm_byId := []; sm_labelsById := []; sm_labelTimestampsById := []; sm_leafId := None |}.

Definition blank_world (room : nat) : SessionWorld := {| sw_files := []; sw_counter := 0; sw_room := room |}.

Definition example_join (a b : jstring) : jstring := a ++ js "/" ++ b.

(** ** The session manager, as a whole *)

Open Scope sm_scope.

(** ** Operations *)

(** The methods that change a manager.  [tree] is what the tree of objects
    answers to [appendState]; when other methods run while it is awaited, only
    [Op_commit_state] changes the manager, after them. *)
Inductive Op :=
| Op_message (message : AgentMessage)
| Op_thinking_level (level : jstring)
| Op_preset (presetId : jstring)
| Op_model (provider modelId : jstring)
| Op_schema (load : bool) (schemaId namespace : jstring)
| Op_strict (enabled : bool)
| Op_compaction (summary firstKeptEntryId : jstring) (tokensBefore : number) (details : option json) (fromHook : option bool) (usage : option Usage)
| Op_custom (customType : jstring) (data : option json)
| Op_session_info (name : jstring)
| Op_custom_message (customType : jstring) (content : UserContent) (display : bool) (details : option json) (id : option jstring)
| Op_label (targetId : jstring) (label : option jstring)
| Op_update (id text : jstring)
| Op_flush
| Op_branch (id : jstring)
| Op_reset_leaf
| Op_branch_summary (from : option jstring) (summary : jstring) (details : option json) (fromHook : option bool) (usage : option Usage)
| Op_branched_session (leafId : jstring)
| Op_new_session (options : NewSessionOptions)
| Op_set_file (path : jstring)
| Op_state (tree : option (Result jstring jstring)) (state : fields) (revision : Z) (edits : list TreeEdit) (ts : option jstring)
| Op_commit_state (payload : fields) (ts : option jstring).

Section Invariant.
Context {W : Type} `{SessionEnvSpec W}.
Context (number_to_string : number -> jstring) (parse_number : jstring -> option number) (join : jstring -> jstring -> jstring).
Context (canonicalSize : json -> Result jstring Z).
Abbreviation consistent := (consistent number_to_string parse_number).
Abbreviation nts := number_to_string.
Abbreviation pn := parse_number.

Definition forget {A} (m : SM (W := W) A) : SM unit := sm_bind m (fun _ => sm_ret tt).

(** A tree of objects that gives the answer. *)
Definition answering (answer : Result jstring jstring) (prior : option jstring) (edits : list TreeEdit) : SM (W := W) jstring :=
  match answer with Ok root => sm_ret root | Err e => sm_throw (ME_error e) end.

Definition exec (op : Op) : SM (W := W) unit :=
  match op with
  | Op_message m => forget (appendMessage nts pn m)
  | Op_thinking_level l => forget (appendThinkingLevelChange nts pn l)
  | Op_preset p => forget (appendPresetChange nts pn p)
  | Op_model p m => forget (appendModelChange nts pn p m)
  | Op_schema l i n => forget (appendSchemaChange nts pn l i n)
  | Op_strict b => forget (appendStrictChange nts pn b)
  | Op_compaction s k t d h u => forget (appendCompaction nts pn s k t d h u)
  | Op_custom t d => forget (appendCustomEntry nts pn t d)
  | Op_session_info n => forget (appendSessionInfo nts pn n)
  | Op_custom_message t c d e i => forget (appendCustomMessageEntry nts pn t c d e i)
  | Op_label t l => forget (appendLabelChange nts pn t l)
  | Op_update i t => forget (updateMessageContent nts pn i t)
  | Op_flush => flush nts pn
  | Op_branch i => branch i
  | Op_reset_leaf => resetLeaf
  | Op_branch_summary f s d h u => forget (branchWithSummary nts pn f s d h u)
  | Op_branched_session l => forget (createBranchedSession nts pn join l)
  | Op_new_session o => newSession join o
  | Op_set_file p => setSessionFile nts pn join p
  | Op_state tree state revision edits ts => forget (appendState nts pn canonicalSize (answering <$> tree) state revision edits ts)
  | Op_commit_state payload ts => forget (commitState nts pn ts payload)
  end.

(** The entries of a file of the current version. *)
Definition read_file (path : jstring) (w : W) : option (list FileEntry) :=
  match st_lines path w with
  | Err _ => None
  | Ok lines =>
      objects ← mapM (fun j => match j with JObject l => Some l | _ => None end) (load_lines pn lines);
      version ← raw_version objects;
      if CURRENT_SESSION_VERSION <=? version then mapM (fileEntry_of nts pn) objects else None
  end.

(** Files that are not there, cannot be read, are empty, or hold a session of
    the current version whose entries are a tree with ids that are accounted
    for. *)
Inductive openable (path : jstring) (w : W) : Prop :=
| open_absent : st_exists path w = false -> openable path w
| open_unreadable m : st_lines path w = Err m -> openable path w
| open_empty lines size : st_lines path w = Ok lines -> load_lines pn lines = [] -> st_size path w = Ok size -> size <= 0 -> openable path w
| open_session h es : read_file path w = Some (FL_header h :: map FL_entry es) -> log es -> accounted w (map se_id es) -> openable path w.

(** What an operation may be given: an id as long as a UUID is one that was
    used up, and a file can be opened. *)
Definition admissible (op : Op) (w : W) : Prop :=
  match op with
  | Op_custom_message _ _ _ _ (Some id) => length id = 36%nat -> spent w id
  | Op_set_file path => openable path w
  | _ => True
  end.

(** The file that is opened is as the manager writes it. *)
Definition as_written (op : Op) (w : W) : Prop :=
  match op with
  | Op_set_file path => forall entries, read_file path w = Some entries -> entries <> [] -> content w path = Some (whole_file nts pn entries)
  | _ => True
  end.

Lemma forget_keeps {A} (m : SM A) x x' r : forget m x = (x', r) ->
  (forall r', m x = (x', r') -> keeps nts pn x x' r') -> keeps nts pn x x' r.
Proof.
  unfold forget. intros [(x1 & a & Hm & Hk)|(e & Hm & ->)]%sm_bind_inv Hkeep.
  - injection Hk as -> <-. eapply keeps_result; [by eapply Hkeep|by intros _ m'].
  - eapply keeps_result; [by eapply Hkeep|]. intros Hok m' [= ->]. by apply (Hok m').
Qed.

Lemma forget_ids {A} (m : SM A) x x' r : forget m x = (x', r) -> (forall r', m x = (x', r') -> ids_accounted x') -> ids_accounted x'.
Proof. unfold forget. intros [(x1 & a & Hm & [= -> <-])|(e & Hm & ->)]%sm_bind_inv Hids; by eapply Hids. Qed.

(** Before the commit a state changes nothing. *)
Lemma getCommittedStateRoot_same (x x' : SessionManager * W) r : getCommittedStateRoot x = (x', r) -> x' = x.
Proof.
  unfold getCommittedStateRoot. rewrite (sm_bind_Ok _ _ x x x.1) by done. destruct (getBranch _ _); [|by intros [= <- <-]].
  destruct (head _) as [[]|]; by intros [= <- <-].
Qed.

Lemma answering_same answer prior edits (x x' : SessionManager * W) r : answering answer prior edits x = (x', r) -> x' = x.
Proof. unfold answering. destruct answer; by intros [= <- <-]. Qed.

Lemma statePayload_same tree state revision edits (x x' : SessionManager * W) r :
  statePayload canonicalSize (answering <$> tree) state revision edits x = (x', r) -> x' = x.
Proof.
  unfold statePayload. destruct (canonicalSize _) as [size|]; [|by intros [= <- <-]]. destruct (size <=? _); [by intros [= <- <-]|].
  destruct tree as [answer|]; cbn [fmap option_fmap option_map]; [|by intros [= <- <-]].
  intros [(x1 & prior & Hp & Hk)|(e & Hp & ->)]%sm_bind_inv; apply getCommittedStateRoot_same in Hp as ->; [|done].
  apply sm_bind_inv in Hk as [(x1 & root & Hr & [= -> <-])|(e & Hr & ->)];
    destruct prior as [[h rev]|]; try destruct (revision <=? rev); try destruct (negb _ && _);
    first [discriminate Hr|by injection Hr as <- <-|by apply answering_same in Hr].
Qed.

Lemma appendState_commits tree state revision edits ts (x x' : SessionManager * W) r :
  appendState nts pn canonicalSize (answering <$> tree) state revision edits ts x = (x', r) ->
  x' = x \/ exists payload, commitState nts pn ts payload x = (x', r).
Proof.
  unfold appendState. intros [(x1 & payload & Hp & Hk)|(e & Hp & ->)]%sm_bind_inv; apply statePayload_same in Hp as ->; eauto.
Qed.

(** ** Opening a file *)

Definition step_ok (op : Op) (x x' : SessionManager * W) (r : Result ManagerError unit) : Prop :=
  wf x'.1 /\ ids_accounted x' /\ (consistent x -> as_written op x.2 -> no_storage_error r -> consistent x').

Lemma wf_file file s : wf s -> wf (with_file file s).
Proof. by intros []. Qed.

Lemma labels_file file s : labels_follow (with_file file s) <-> labels_follow s.
Proof. by rewrite !labels_follow_spec. Qed.

Lemma newSession_ready options s w : ns_id options = None ->
  exists s' w', newSession join options (s, w) = ((s', w'), Ok tt) /\ wf s' /\ getEntries s' = [] /\ labels_follow s' /\
    sm_flushed s' = false /\ has_assistant (sm_fileEntries s') = false.
Proof.
  intros Ho. assert (Hrun : exists x', newSession join options (s, w) = (x', Ok tt)).
  { unfold newSession. rewrite Ho. unfold sm_bind, sm_ret, sm_world, sm_get, sm_modify. cbn [fst snd]. destruct (env_uuidv7 w) as [w1 id]. cbn [fst snd].
    destruct (env_now w1) as [w2 t]. cbn [fst snd]. destruct (sm_persist s); eauto. }
  destruct Hrun as [[s' w'] Hrun]. exists s', w'. destruct (newSession_keeps nts pn join _ _ _ _ _ Hrun) as [Hwf [Hl _]].
  pose proof (newSession_entries _ _ _ _ _ _ Hrun) as Hes. split_and!; try done; [|unfold has_assistant; change (entries_of (sm_fileEntries s')) with (getEntries s'); by rewrite Hes].
  unfold newSession in Hrun. rewrite Ho in Hrun. unfold sm_bind, sm_ret, sm_world, sm_get, sm_modify in Hrun. cbn [fst snd] in Hrun.
  destruct (env_uuidv7 w) as [w1 id]. cbn [fst snd] in Hrun. destruct (env_now w1) as [w2 t]. cbn [fst snd] in Hrun.
  by destruct (sm_persist s); injection Hrun as <- _.
Qed.

Lemma ids_empty s (w : W) : getEntries s = [] -> ids_accounted (s, w).
Proof. intros Hs. unfold ids_accounted. cbn [fst snd]. rewrite Hs. apply accounted_nil. Qed.

Lemma open_absent_step path s w s' w' r : st_exists path w = false -> setSessionFile nts pn join path (s, w) = ((s', w'), r) ->
  step_ok (Op_set_file path) (s, w) (s', w') r.
Proof.
  intros He. unfold setSessionFile. rewrite (sm_bind_Ok _ _ _ (with_file (Some path) s, w) tt) by done.
  rewrite (sm_bind_Ok _ _ _ (with_file (Some path) s, w) false) by (cbn [snd]; by rewrite He).
  destruct (newSession_ready no_options (with_file (Some path) s) w) as (s1 & w1 & Hrun & Hwf & Hes & Hl & Hf & Ha); [done|].
  rewrite (sm_bind_Ok _ _ _ _ _ Hrun). intros [= <- <- <-]. split_and!; [by apply wf_file|by apply ids_empty|].
  intros _ _ _. split; [by apply labels_file|]. intros _ g _. cbn. by rewrite Hf.
Qed.

Lemma open_unreadable_step path s w s' w' r m : st_lines path w = Err m -> st_exists path w = true -> wf s -> ids_accounted (s, w) ->
  setSessionFile nts pn join path (s, w) = ((s', w'), r) -> step_ok (Op_set_file path) (s, w) (s', w') r.
Proof.
  intros Hm He Hwf Hids. unfold setSessionFile. rewrite (sm_bind_Ok _ _ _ (with_file (Some path) s, w) tt) by done.
  rewrite (sm_bind_Ok _ _ _ (with_file (Some path) s, w) true) by (cbn [snd]; by rewrite He).
  unfold sm_bind at 1, loadEntriesFromFile. cbn [snd]. rewrite He, Hm. intros [= <- <- <-]. split_and!; [by apply wf_file|exact Hids|].
  intros _ _ Hok. by destruct (Hok m).
Qed.

Lemma open_empty_step path s w s' w' r lines size : st_lines path w = Ok lines -> load_lines pn lines = [] -> st_size path w = Ok size -> size <= 0 ->
  st_exists path w = true -> setSessionFile nts pn join path (s, w) = ((s', w'), r) -> step_ok (Op_set_file path) (s, w) (s', w') r.
Proof.
  intros Hlines Hload Hsize Hle He. unfold setSessionFile. rewrite (sm_bind_Ok _ _ _ (with_file (Some path) s, w) tt) by done.
  rewrite (sm_bind_Ok _ _ _ (with_file (Some path) s, w) true) by (cbn [snd]; by rewrite He).
  rewrite (sm_bind_Ok _ _ _ (with_file (Some path) s, w) []) by (unfold loadEntriesFromFile; cbn [snd]; by rewrite He, Hlines, Hload).
  set (s0 := with_session (sm_sessionId (with_file (Some path) s)) [] (with_file (Some path) s)).
  rewrite (sm_bind_Ok _ _ _ (s0, w) tt) by done. rewrite (sm_bind_Ok _ _ _ (s0, w) size) by (cbn [snd]; by rewrite Hsize).
  rewrite (proj2 (Z.ltb_ge 0 size)) by done. destruct (newSession_ready no_options s0 w) as (s1 & w1 & Hrun & Hwf & Hes & Hl & Hf & Ha); [done|].
  rewrite (sm_bind_Ok _ _ _ _ _ Hrun), (sm_bind_Ok _ _ _ (with_file (Some path) s1, w1) tt) by done.
  intros [([s2 w2] & [] & Hr & Hk)|(e & Hr & ->)]%sm_bind_inv; pose proof (rewriteFile_frame _ _ _ _ _ _ _ Hr) as [(b & ->) Hres].
  - injection Hk as <- <- <-. split_and!; [by do 2 apply wf_flushed; apply wf_file|by apply ids_empty|]. intros _ _ _.
    split; [by do 2 apply labels_flushed; apply labels_file|].
    intros Hp g Hg. rewrite rewriteFile_run in Hr. cbn [fst snd with_flushed with_file sm_persist sm_sessionFile] in *. rewrite Hp, Hg in Hr.
    destruct (st_write _ _ _ _) as [w3 [[]|]] eqn:Ew; [|done]. injection Hr as _ <-. by apply write_content in Ew as [-> _].
  - split_and!; [by apply wf_flushed, wf_file|by apply ids_empty|]. intros _ _ Hok. destruct Hres as [|(m & [= ->])]; [done|]. by destruct (Hok m).
Qed.

Lemma open_session_step path s w s' w' r h es : read_file path w = Some (FL_header h :: map FL_entry es) -> log es -> accounted w (map se_id es) ->
  st_exists path w = true -> setSessionFile nts pn join path (s, w) = ((s', w'), r) -> step_ok (Op_set_file path) (s, w) (s', w') r.
Proof.
  intros Hread Hlog Hacc He. set (entries := FL_header h :: map FL_entry es) in *. pose proof Hread as Hread'. unfold read_file in Hread.
  destruct (st_lines path w) as [lines|m] eqn:Hlines; [|done].
  destruct (mapM _ (load_lines pn lines)) as [objects|] eqn:Hobj; [|done]. cbn [mbind option_bind] in Hread.
  destruct (raw_version objects) as [version|] eqn:Hver; [|done]. cbn [mbind option_bind] in Hread. destruct (CURRENT_SESSION_VERSION <=? version) eqn:Hcur; [|done].
  assert (Hne : objects <> []) by by intros ->.
  unfold setSessionFile. rewrite (sm_bind_Ok _ _ _ (with_file (Some path) s, w) tt) by done.
  rewrite (sm_bind_Ok _ _ _ (with_file (Some path) s, w) true) by (cbn [snd]; by rewrite He).
  rewrite (sm_bind_Ok _ _ _ (with_file (Some path) s, w) objects) by (unfold loadEntriesFromFile; cbn [snd]; by rewrite He, Hlines, Hobj).
  destruct objects as [|o objects]; [done|]. set (all := o :: objects) in *.
  rewrite (sm_bind_Ok _ _ _ (with_file (Some path) s, w) (all, false)) by (unfold migrateToCurrentVersion; by rewrite Hver, Hcur).
  rewrite (sm_bind_Ok _ _ _ (with_file (Some path) s, w) entries) by (unfold typed_entries; cbn [fst]; by rewrite Hread).
  set (s1 := with_session (sh_id h) entries (with_file (Some path) s)). intros Hrun.
  assert (Heq : ((s', w'), r) = ((with_flushed true (buildIndex s1), w), Ok tt)) by by rewrite <- Hrun. injection Heq as -> -> ->.
  destruct (wf_buildIndex s1 h es) as [Hwf Hl]; [done|done|done|].
  assert (Hget : getEntries (with_flushed true (buildIndex s1)) = es) by (rewrite buildIndex_spec; apply entries_of_entries).
  split_and!; [by apply wf_flushed|unfold ids_accounted; cbn [fst snd]; by rewrite Hget|].
  intros _ Hw _. split; [by apply labels_flushed|]. intros _ g Hg. cbn [fst snd sm_flushed with_flushed]. rewrite buildIndex_spec in *.
  cbn [with_flushed with_labels with_log sm_sessionFile sm_fileEntries s1 with_session with_file] in *. apply truthy_Some in Hg as [= <-]. by apply Hw.
Qed.

Lemma setSessionFile_step path s w s' w' r : wf s -> ids_accounted (s, w) -> openable path w ->
  setSessionFile nts pn join path (s, w) = ((s', w'), r) -> step_ok (Op_set_file path) (s, w) (s', w') r.
Proof.
  intros Hwf Hids Hopen. destruct (st_exists path w) eqn:He; [|by apply open_absent_step].
  destruct Hopen; [congruence|by eapply open_unreadable_step|by eapply open_empty_step|by eapply open_session_step].
Qed.

(** ** Every operation *)

Lemma exec_ids op s w s' w' r : wf s -> ids_accounted (s, w) -> admissible op w -> exec op (s, w) = ((s', w'), r) -> ids_accounted (s', w').
Proof.
  intros Hwf Hids Hadm Hrun. destruct op; cbn [exec] in Hrun.
  1-9: eapply forget_ids; [exact Hrun|]; intros r' Hr'; eapply append_ids; [exact Hwf|exact Hids|exact Hr'].
  - eapply forget_ids; [exact Hrun|]. intros r' Hr'. eapply appendCustomMessageEntry_ids; [exact Hwf|exact Hids| |exact Hr'].
    intros i ->. exact Hadm.
  - eapply forget_ids; [exact Hrun|]. intros r' Hr'. by eapply appendLabelChange_ids.
  - eapply forget_ids; [exact Hrun|]. intros r' Hr'. by eapply updateMessageContent_ids.
  - by eapply flush_ids.
  - unfold branch in Hrun. rewrite (sm_bind_Ok _ _ _ (s, w) s) in Hrun by done. destruct (map_has id (sm_byId s)); by injection Hrun as <- <- <-.
  - by injection Hrun as <- <- <-.
  - eapply forget_ids; [exact Hrun|]. intros r' Hr'. by eapply branchWithSummary_ids.
  - eapply forget_ids; [exact Hrun|]. intros r' Hr'. by eapply createBranchedSession_ids.
  - by eapply newSession_ids.
  - by apply (setSessionFile_step path s w s' w' r).
  - eapply forget_ids; [exact Hrun|]. intros r' [Heq|(payload & Hc)]%appendState_commits; [by injection Heq as -> ->|by eapply commitState_ids].
  - eapply forget_ids; [exact Hrun|]. intros r' Hr'. by eapply commitState_ids.
Qed.

Lemma exec_keeps op s w s' w' r : wf s -> (forall path, op <> Op_set_file path) -> exec op (s, w) = ((s', w'), r) -> NoDup (map se_id (getEntries s')) ->
  keeps nts pn (s, w) (s', w') r.
Proof.
  intros Hwf Hset Hrun Hnd. destruct op; cbn [exec] in Hrun.
  1-9: eapply forget_keeps; [exact Hrun|]; intros r' Hr'; eapply append_keeps; [|exact Hwf|exact Hr'|exact Hnd]; done.
  - eapply forget_keeps; [exact Hrun|]. intros r' Hr'. by eapply appendCustomMessageEntry_keeps.
  - eapply forget_keeps; [exact Hrun|]. intros r' Hr'. by eapply appendLabelChange_keeps.
  - eapply forget_keeps; [exact Hrun|]. intros r' Hr'. by eapply updateMessageContent_keeps.
  - by eapply flush_keeps.
  - unfold branch in Hrun. rewrite (sm_bind_Ok _ _ _ (s, w) s) in Hrun by done. destruct (map_has id (sm_byId s)) eqn:Eh.
    + injection Hrun as <- <- <-. apply leaf_keeps; [done|]. by intros ? [= <-].
    + injection Hrun as <- <- <-. by apply keeps_same.
  - injection Hrun as <- <- <-. by apply leaf_keeps.
  - eapply forget_keeps; [exact Hrun|]. intros r' Hr'. by eapply branchWithSummary_keeps.
  - eapply forget_keeps; [exact Hrun|]. intros r' Hr'. by eapply createBranchedSession_keeps.
  - by eapply newSession_step.
  - by destruct (Hset path).
  - eapply forget_keeps; [exact Hrun|]. intros r' [Heq|(payload & Hc)]%appendState_commits; [injection Heq as -> ->; by apply keeps_same|by eapply commitState_keeps].
  - eapply forget_keeps; [exact Hrun|]. intros r' Hr'. by eapply commitState_keeps.
Qed.


(** in a well-formed manager [getBranch] ends and returns the path from a
    root to the entry: it ends with the entry, every other entry is the parent
    of the next one, and they are in the order of the log; the function
    [buildSessionPath] on the entries finds the same path. *)
Theorem getBranch_is_path s id e : wf s -> getEntry s id = Some e ->
  exists path, getBranch s (Some id) = Some path /\ last path = Some e /\ linked None path /\ path `sublist_of` getEntries s /\
    buildSessionPath (getEntries s) (Some (Some id)) None = Some path.
Proof.
  intros Hwf Hget. unfold getEntry in Hget. pose proof Hget as Hin. rewrite (wf_index s Hwf) in Hin. apply pairs_get_Some in Hin as [He <-].
  destruct (getBranch_path s e Hwf He) as (path & Hb & [Hl Hlk Hs]). exists path. split_and!; try done.
  unfold buildSessionPath, getBranch in *. cbn [default mjoin option_join]. rewrite (log_index _ (wf_log s Hwf)), <- (wf_index s Hwf) in *.
  rewrite truthy_id in * by (apply (log_nonempty (getEntries s)); [apply Hwf|done]). cbn [mbind option_bind] in *. rewrite Hget in *.
  apply fmap_Some in Hb as (p & Hw & ->). by rewrite (walk_mono _ _ _ _ _ Hw) by lia.
Qed.

(** C10: the session that [createBranchedSession] makes of the path to an entry
    has the same context as the path, messages, model and thinking level, and
    the labels of the entries of the path, provided that the first entry kept
    by the newest compaction is not a label entry, which the new session does
    not have. *)
Theorem branched_session date_of leafId path s w s' w' file : wf s -> labels_follow s ->
  getBranch s (Some leafId) = Some path -> (forall e, e ∈ path -> first_kept path = Some (se_id e) -> is_label e = false) ->
  createBranchedSession nts pn join leafId (s, w) = ((s', w'), Ok file) -> NoDup (map se_id (getEntries s')) ->
  sessionContext date_of s' None = sessionContext date_of s (Some (Some leafId)) /\
  sm_labelsById s' = List.filter (fun p => bool_decide (p.1 ∈ map se_id (unlabelled path))) (sm_labelsById s).
Proof.
  intros Hwf Hlab Hb Hk Hrun Hnd. destruct (decide (path = [])) as [->|Hne].
  { exfalso. unfold createBranchedSession in Hrun. by rewrite (sm_bind_Ok _ _ _ (s, w) s), Hb in Hrun by done. }
  destruct (branched_wf _ _ _ _ _ _ _ _ _ _ Hwf Hb Hne Hrun Hnd) as (les & Hwf' & Hlab' & Hget & Hles & Hlk & Hleaf & _).
  destruct (path_facts s leafId path Hwf Hb Hne) as [Hpnd _]. split.
  - unfold sessionContext. cbn [mjoin option_join]. rewrite Hb, getBranch_linear by done. cbn. f_equal. rewrite Hget in *.
    by eapply branched_path_context.
  - rewrite <- kept_labels_fst. by eapply branched_labels.
Qed.

(** C9: opening the file of a manager again, from any other manager, gives the
    same log, index, labels and session id, with the last entry as the leaf. *)
Theorem reopen_session s w f h lines s0 : wf s -> consistent (s, w) -> sm_persist s = true -> sm_flushed s = true ->
  truthy (sm_sessionFile s) = Some f -> getHeader s = Some h -> sh_version h = Some CURRENT_SESSION_VERSION ->
  Forall (file_ok nts pn) (sm_fileEntries s) -> st_lines f w = Ok lines ->
  exists s1, setSessionFile nts pn join f (s0, w) = ((s1, w), Ok tt) /\ sm_fileEntries s1 = sm_fileEntries s /\ sm_byId s1 = sm_byId s /\
    sm_labelsById s1 = sm_labelsById s /\ sm_labelTimestampsById s1 = sm_labelTimestampsById s /\ sm_sessionId s1 = sm_sessionId s /\
    sm_leafId s1 = last_id (getEntries s) /\ sm_sessionFile s1 = Some f /\ sm_flushed s1 = true.
Proof.
  intros [(h' & Hf & Hid) Hlog Hidx Hleaf] [[Hl Ht]%labels_follow_spec Hd] Hp Hfl Hfile Hh Hv Hok Hlines.
  assert (h' = h) as -> by (unfold getHeader in Hh; rewrite Hf in Hh; by injection Hh).
  specialize (Hd Hp f Hfile). cbn [fst snd] in *. rewrite Hfl in Hd. rewrite Hf in Hd, Hok.
  eexists. split; [by eapply open_file|]. unfold opened. rewrite buildIndex_spec, <- Hf.
  assert (Hg : getEntries (with_session (sh_id h) (sm_fileEntries s) (with_file (Some f) s0)) = getEntries s) by done. rewrite Hg.
  cbn [sm_fileEntries sm_byId sm_labelsById sm_labelTimestampsById sm_sessionId sm_leafId sm_sessionFile sm_flushed with_flushed with_labels with_log
    with_session with_file]. rewrite Hidx, Hl, Ht, log_index by done. done.
Qed.
End Invariant.

(** ** A concrete session *)

Abbreviation ex_nts := example_number_to_string.
Abbreviation ex_pn := example_parse_number.
Definition ex_size (value : json) : Result jstring Z := Ok (Z.of_nat (length (json_stringify ex_nts value))).
Abbreviation ex_exec := (exec (W := SessionWorld) ex_nts ex_pn example_join ex_size).

Definition run_ops (ops : list Op) (x : SessionManager * SessionWorld) : SessionManager * SessionWorld := foldl (fun x op => (ex_exec op x).1) x ops.

(** A message, a label on it, another message after the label, and the file. *)
Definition ex_session : SessionManager * SessionWorld :=
  Eval vm_compute in run_ops [Op_new_session no_options; Op_custom_message (js "note") (UC_string (js "hello")) true None (Some (js "m1"));
                              Op_label (js "m1") (Some (js "start")); Op_custom_message (js "note") (UC_string (js "bye")) true None None; Op_flush]
                     (blank_manager true, blank_world 100).

Ltac ex_log := apply (check_log_sound _ [] log_nil); vm_compute; reflexivity.

Lemma ex_wf : wf ex_session.1.
Proof.
  split.
  - eexists. split; vm_compute; reflexivity.
  - ex_log.
  - vm_compute. reflexivity.
  - intros id Hid. vm_compute in Hid. injection Hid as <-. apply (bool_decide_eq_true_1 _). vm_compute. reflexivity.
Qed.

Lemma ex_consistent : consistent ex_nts ex_pn ex_session.
Proof.
  split; [split; vm_compute; reflexivity|]. intros _ f Hf. vm_compute in Hf. injection Hf as <-. vm_compute. reflexivity.
Qed.

Lemma ex_ids s : bool_decide (NoDup (map se_id (getEntries s))) = true -> NoDup (map se_id (getEntries s)).
Proof. apply bool_decide_eq_true_1. Qed.

Lemma ex_accounted : ids_accounted ex_session.
Proof.
  split; [apply ex_ids; vm_compute; reflexivity|]. intros i Hi Hlen. exfalso.
  assert (Hall : forallb (fun id => negb (length id =? 36)%nat) (map se_id (getEntries ex_session.1)) = true) by (vm_compute; reflexivity).
  rewrite forallb_forall in Hall. apply list_elem_of_In, Hall in Hi. by rewrite Hlen in Hi.
Qed.

Definition ex_file : jstring := Eval vm_compute in default [] (sm_sessionFile ex_session.1).


(** A file that is not a session is refused after the log was emptied: the
    manager has no header, and an index and a leaf that are not of its log. *)
Definition ex_bad_world : SessionWorld := {| sw_files := [(js "/notes", js "hello")]; sw_counter := 0; sw_room := 100 |}.

Example invalid_file_breaks :
  let x := ex_exec (Op_set_file (js "/notes")) (ex_session.1, ex_bad_world) in
  x.2 = Err (ME_error (js "Session file is not a valid pi session: /notes")) /\ ~ wf x.1.1 /\
  sm_byId x.1.1 = sm_byId ex_session.1 /\ sm_leafId x.1.1 = sm_leafId ex_session.1 /\ getEntries x.1.1 = [].
Proof.
  split; [vm_compute; reflexivity|]. split; [|vm_compute; by split_and!].
  intros [(h & Hf & _) _ _ _]. vm_compute in Hf. discriminate.
Qed.

Definition ex_leaf : jstring := Eval vm_compute in default [] (sm_leafId ex_session.1).

Lemma getBranch_is_path_witness : exists e path, getEntry ex_session.1 ex_leaf = Some e /\
  getBranch ex_session.1 (Some ex_leaf) = Some path /\ last path = Some e /\ linked None path /\ path `sublist_of` getEntries ex_session.1 /\
  buildSessionPath (getEntries ex_session.1) (Some (Some ex_leaf)) None = Some path.
Proof.
  destruct (getEntry ex_session.1 ex_leaf) as [e|] eqn:Ee; [|vm_compute in Ee; discriminate].
  destruct (getBranch_is_path ex_session.1 ex_leaf e ex_wf Ee) as [path Hp]. exists e, path. split; [reflexivity|exact Hp].
Defined.

Abbreviation ex_branched := (createBranchedSession ex_nts ex_pn example_join ex_leaf ex_session).

Lemma branched_session_witness : exists path, getBranch ex_session.1 (Some ex_leaf) = Some path /\
  sessionContext (fun _ => 0) ex_branched.1.1 None = sessionContext (fun _ => 0) ex_session.1 (Some (Some ex_leaf)) /\
  sm_labelsById ex_branched.1.1 = List.filter (fun p => bool_decide (p.1 ∈ map se_id (unlabelled path))) (sm_labelsById ex_session.1).
Proof.
  eexists. split; [vm_compute; reflexivity|].
  apply (branched_session ex_nts ex_pn example_join (fun _ => 0) ex_leaf _ ex_session.1 ex_session.2 ex_branched.1.1 ex_branched.1.2
           (match ex_branched.2 with Ok file => file | Err _ => None end)).
  - apply ex_wf.
  - apply ex_consistent.
  - vm_compute. reflexivity.
  - intros e _ Hk. vm_compute in Hk. discriminate.
  - vm_compute. reflexivity.
  - apply ex_ids. vm_compute. reflexivity.
Defined.

Ltac ex_entry :=
  cbn [file_ok o_ok sessionEntry_obj sessionHeader_obj iso both field opt fst snd se_payload se_id se_parentId se_timestamp
       sh_version sh_id sh_timestamp sh_cwd sh_parentSession];
  unfold entryPayload_obj, union; cbn [o_ok entry_name]; lookups; cbn [o_ok variant both field opt fst snd]; repeat split; cbn [v_ok str nullable_str];
  try exact I; try short; try ex_int.

Lemma ex_file_ok : Forall (file_ok ex_nts ex_pn) (sm_fileEntries ex_session.1).
Proof.
  unfold ex_session. cbn [fst sm_fileEntries]. apply Forall_cons. split; [ex_entry|]. apply Forall_cons. split; [ex_entry|].
  apply Forall_cons. split; [ex_entry|]. apply Forall_cons. split; [ex_entry|]. apply Forall_nil. exact I.
Qed.

Lemma reopen_session_witness : exists f s1, truthy (sm_sessionFile ex_session.1) = Some f /\
  setSessionFile ex_nts ex_pn example_join f (blank_manager true, ex_session.2) = ((s1, ex_session.2), Ok tt) /\
  sm_fileEntries s1 = sm_fileEntries ex_session.1 /\ sm_byId s1 = sm_byId ex_session.1 /\ sm_labelsById s1 = sm_labelsById ex_session.1 /\
  sm_labelTimestampsById s1 = sm_labelTimestampsById ex_session.1 /\ sm_sessionId s1 = sm_sessionId ex_session.1 /\
  sm_leafId s1 = last_id (getEntries ex_session.1) /\ sm_sessionFile s1 = Some f /\ sm_flushed s1 = true.
Proof.
  destruct (truthy (sm_sessionFile ex_session.1)) as [f|] eqn:Ef; [|vm_compute in Ef; discriminate].
  destruct (getHeader ex_session.1) as [h|] eqn:Eh; [|vm_compute in Eh; discriminate].
  destruct (st_lines f ex_session.2) as [lines|m] eqn:El; [|vm_compute in Ef; injection Ef as <-; vm_compute in El; discriminate].
  destruct (reopen_session ex_nts ex_pn example_join ex_session.1 ex_session.2 f h lines (blank_manager true)) as [s1 Hs1].
  - apply ex_wf.
  - apply ex_consistent.
  - vm_compute. reflexivity.
  - vm_compute. reflexivity.
  - exact Ef.
  - exact Eh.
  - vm_compute in Eh. injection Eh as <-. vm_compute. reflexivity.
  - apply ex_file_ok.
  - exact El.
  - exists f, s1. split; [reflexivity|exact Hs1].
Defined.
