(* ===== verification/ManagerForest.v ===== *)
(** * The tree of a session, and behaviours at the edges

    [getTree] holds every entry of the log exactly once.  Then concrete runs of
    the session manager where its operations meet: a kept boundary that is a
    label, an append that fails, a file with a cycle, files of an older
    version. *)

From stdpp Require Import base list strings pretty gmap.
From Stdlib Require Import ZArith Lia Sorted.
From S2P Require Import Prelude SessionTypes SessionState SessionContext Numbers Compaction Json JsonViews SessionJson JsonlProperties JsonlRepo ManagerTypes.
From S2P Require Import SessionManager ManagerOps ManagerTree ManagerProperties ManagerBranch ManagerInvariant.

Open Scope Z_scope.

(** The entries of a tree, a node before its children. *)
Fixpoint flatten (t : SessionTreeNode) : list SessionEntry :=
  match t with TreeNode e children _ _ => e :: mjoin (map flatten children) end.

Definition node_entry (t : SessionTreeNode) : SessionEntry := match t with TreeNode e _ _ _ => e end.

Inductive nested (date_of : jstring -> Z) : SessionTreeNode -> Prop :=
| nested_node e children label time :
    StronglySorted (fun a b => date_of (se_timestamp a) <= date_of (se_timestamp b)) (map node_entry children) ->
    (forall c, c ∈ children -> se_parentId (node_entry c) = Some (se_id e)) -> (forall c, c ∈ children -> nested date_of c) ->
    nested date_of (TreeNode e children label time).

Lemma concat_perm {A} (f : A -> list SessionEntry) l l' : l ≡ₚ l' -> mjoin (map f l) ≡ₚ mjoin (map f l').
Proof.
  induction 1 as [|a l l' _ IH|a b l|l1 l2 l3 _ IH1 _ IH2]; cbn; [done|by rewrite IH| |by rewrite IH1].
  rewrite !app_assoc. by rewrite (Permutation_app_comm (f b)).
Qed.

(** ** Paths, leaf first *)

Definition up (es : list SessionEntry) (e : SessionEntry) (path : list SessionEntry) : Prop := exists n, walk n (pairs es) (Some e) = Some path.

Lemma up_fun es e p q : up es e p -> up es e q -> p = q.
Proof.
  intros [n Hn] [m Hm]. apply (walk_mono _ _ (n `max` m)) in Hn; [|lia]. apply (walk_mono _ _ (n `max` m)) in Hm; [|lia]. congruence.
Qed.

Lemma up_head es e p : up es e p -> exists q, p = e :: q.
Proof. intros [[|n] Hn]; [done|]. rewrite walk_S in Hn. apply fmap_Some in Hn as (q & _ & ->). by exists q. Qed.

Lemma up_exists es e : log es -> e ∈ es -> exists p, up es e p /\ (length p <= length es)%nat.
Proof.
  intros Hes He. destruct (log_walk es Hes e He) as (path & Hw & [_ _ Hs]). exists path. split; [by eexists|].
  apply sublist_length in Hs. by rewrite length_reverse in Hs.
Qed.

Lemma up_suffix es e pre c q : up es e (pre ++ c :: q) -> up es c (c :: q).
Proof.
  intros [n Hn]. exists n. rewrite (walk_tail _ _ _ _ (length pre) c Hn); [by rewrite drop_app_length|]. by rewrite list_lookup_middle.
Qed.

Lemma up_elem es e p x : log es -> e ∈ es -> up es e p -> x ∈ p -> x ∈ es.
Proof.
  intros Hes He [n Hn] Hx. destruct (walk_elem _ _ _ _ _ Hn Hx) as [[= ->]|(id & Hid)]; [done|]. by apply pairs_get_Some in Hid as [? _].
Qed.

Lemma log_no_self es e : log es -> e ∈ es -> se_parentId e <> Some (se_id e).
Proof.
  induction 1 as [|es x _ IH _ Hid Hp]; intros He; [by apply elem_of_nil in He|].
  apply elem_of_app in He as [He| ->%list_elem_of_singleton]; [by apply IH|]. intros Hx. by apply Hid, Hp.
Qed.

Section Forest.
Context (es : list SessionEntry) (Hes : log es).

Abbreviation byId := (pairs es).

Lemma lookup_self e : e ∈ es -> default e (map_get (se_id e) byId) = e.
Proof. intros He. by rewrite pairs_get by (done || by apply log_NoDup). Qed.

(** A child continues the path of its parent. *)
Lemma child_up c e p : c ∈ child_entries byId es (se_id e) -> e ∈ es -> up es e p -> up es c (c :: p) /\ c ∈ es.
Proof.
  intros Hc He [n Hn]. apply list_elem_of_In in Hc. apply filter_In in Hc as [Hc Hp]. apply list_elem_of_In in Hc. split; [|done].
  apply andb_true_iff in Hp as [_ Hp%bool_decide_eq_true]. exists (S n). rewrite walk_S. unfold parent_of. rewrite Hp.
  rewrite truthy_id by by apply (log_nonempty es). cbn [mbind option_bind]. rewrite pairs_get by (done || by apply log_NoDup). by rewrite Hn.
Qed.

Lemma up_child c e p : c ∈ es -> e ∈ es -> up es c (c :: e :: p) -> c ∈ child_entries byId es (se_id e).
Proof.
  intros Hc He [[|n] Hn]; [done|]. rewrite walk_S in Hn. apply fmap_Some in Hn as (q & Hq & [= <-]). unfold parent_of in Hq.
  destruct (truthy (se_parentId c)) as [i|] eqn:Ei; [|by rewrite walk_None in Hq]. apply truthy_Some in Ei. cbn [mbind option_bind] in Hq.
  destruct (map_get i byId) as [y|] eqn:Ey; [|by rewrite walk_None in Hq].
  assert (y = e) as -> by (destruct (up_head es y (e :: p)) as (q & [= -> _]); [by eexists|done]). pose proof (pairs_get_Some _ _ _ Ey) as [_ <-].
  apply list_elem_of_In, filter_In. split; [by apply list_elem_of_In|]. apply andb_true_iff. split; [|by apply bool_decide_eq_true].
  unfold is_root. rewrite Ei. unfold map_has. rewrite Ey. rewrite bool_decide_false; [done|]. intros Heq.
  apply (log_no_self es c Hes Hc). by rewrite Ei, Heq.
Qed.

Lemma root_up e : e ∈ List.filter (is_root byId) es <-> e ∈ es /\ up es e [e].
Proof.
  rewrite list_elem_of_In, filter_In, <- list_elem_of_In. split; intros [He Hr]; (split; [done|]).
  - exists 1%nat. rewrite walk_S. unfold parent_of, is_root in *. destruct (se_parentId e) as [p|] eqn:Ep; [|done].
    assert (Hin : p ∈ map se_id es) by by eapply log_parent. apply pairs_has in Hin as Hh. rewrite Hh, orb_false_r in Hr.
    apply bool_decide_eq_true in Hr. subst p. by destruct (log_no_self es e Hes He).
  - destruct Hr as [[|n] Hn]; [done|]. rewrite walk_S in Hn. apply fmap_Some in Hn as (q & Hq & [= <-]). unfold is_root.
    destruct (se_parentId e) as [p|] eqn:Ep; [|done]. exfalso. assert (Hin : p ∈ map se_id es) by by eapply log_parent.
    destruct (elem_id _ _ Hin) as (y & Hy & <-). unfold parent_of in Hq. rewrite Ep, truthy_id in Hq by by apply (log_nonempty es).
    cbn [mbind option_bind] in Hq. rewrite pairs_get in Hq by (done || by apply log_NoDup). by destruct (up_head es y []) as [? ?]; [eexists|].
Qed.
End Forest.

(** ** Trees *)

Section Tree.
Context (date_of : jstring -> Z) (s : SessionManager) (Hwf : wf s).

Abbreviation es := (getEntries s).
Abbreviation tree := (tree_of date_of s (pairs es)).

Lemma tree_flatten n e : e ∈ es -> flatten (tree n e) ≡ₚ
  e :: match n with O => [] | S n => mjoin (map (fun c => flatten (tree n c)) (child_entries (pairs es) es (se_id e))) end.
Proof.
  intros He. pose proof (lookup_self es (wf_log s Hwf) e He) as Hself. destruct n as [|n]; cbn [tree_of flatten]; rewrite Hself; [done|].
  constructor. rewrite map_map. apply (concat_perm (fun c => flatten (tree n c))). apply sort_by_perm.
Qed.

Lemma tree_path n : forall e p x, e ∈ es -> up es e p -> x ∈ flatten (tree n e) -> x ∈ es /\ exists pre, up es x (pre ++ p).
Proof.
  induction n as [|n IH]; intros e p x He Hup; rewrite tree_flatten by done.
  - intros ->%list_elem_of_singleton. split; [done|]. by exists [].
  - intros [->|Hin]%elem_of_cons; [split; [done|by exists []]|]. apply list_elem_of_join in Hin as (l & Hx & Hl).
    apply list_elem_of_fmap in Hl as (c & -> & Hc). destruct (child_up es (wf_log s Hwf) c e p Hc He Hup) as [Hcup Hces].
    destruct (IH c _ x Hces Hcup Hx) as [Hxes [pre Hpre]]. split; [done|]. exists (pre ++ [c]). by rewrite <- app_assoc.
Qed.

Lemma tree_complete n : forall e p pre x, e ∈ es -> up es e p -> x ∈ es -> up es x (pre ++ p) -> (length pre <= n)%nat -> x ∈ flatten (tree n e).
Proof.
  induction n as [|n IH]; intros e p pre x He Hup Hx Hxup Hlen; rewrite tree_flatten by done.
  - destruct pre; [|cbn in Hlen; lia]. destruct (up_head _ _ _ Hup) as [q ->], (up_head _ _ _ Hxup) as [q' [= -> _]]. by left.
  - destruct (decide (pre = [])) as [->|Hne].
    { destruct (up_head _ _ _ Hup) as [q ->], (up_head _ _ _ Hxup) as [q' [= -> _]]. by left. }
    apply elem_of_cons. right. destruct (exists_last Hne) as (pre' & c & ->). rewrite <- app_assoc in Hxup. cbn [app] in Hxup.
    assert (Hc : up es c (c :: p)) by by eapply up_suffix.
    assert (Hces : c ∈ es) by (eapply (up_elem es x); [apply Hwf|done|done|]; apply elem_of_app; right; by left).
    destruct (up_head _ _ _ Hup) as [q Hq]. rewrite Hq in Hc. pose proof (up_child es (wf_log s Hwf) c e q Hces He Hc) as Hchild.
    apply list_elem_of_join. exists (flatten (tree n c)). split.
    + rewrite <- Hq in Hc. apply (IH c (c :: p) pre'); try done. rewrite length_app in Hlen. cbn in Hlen. lia.
    + by apply (list_elem_of_fmap_2 (fun c => flatten (tree n c))).
Qed.

Lemma NoDup_join {A} (f : A -> list SessionEntry) (l : list A) : NoDup l -> (forall a, a ∈ l -> NoDup (f a)) ->
  (forall a b x, a ∈ l -> b ∈ l -> x ∈ f a -> x ∈ f b -> a = b) -> NoDup (mjoin (map f l)).
Proof.
  induction 1 as [|a l Ha Hl IH]; intros Hf Hd; [constructor|]. cbn. apply NoDup_app. split_and!.
  - apply Hf. by left.
  - intros x Hx Hin. apply list_elem_of_join in Hin as (m & Hxm & Hm). apply list_elem_of_fmap in Hm as (b & -> & Hb).
    apply Ha. rewrite (Hd a b x); [done|by left|by right|done|done].
  - apply IH; [|intros b c x Hb Hc; apply Hd; by right]. intros b Hb. apply Hf. by right.
Qed.

Lemma filter_NoDup {A} (P : A -> bool) (l : list A) : NoDup l -> NoDup (List.filter P l).
Proof.
  induction 1 as [|a l Ha Hl IH]; cbn; [constructor|]. destruct (P a); [|done]. constructor; [|done].
  intros Hin%list_elem_of_In. apply filter_In in Hin as [Hin _]. by apply Ha, list_elem_of_In.
Qed.

Lemma entries_NoDup : NoDup es.
Proof. apply (NoDup_fmap_1 se_id). apply log_NoDup, Hwf. Qed.

Lemma tree_NoDup n : forall e p, e ∈ es -> up es e p -> NoDup (flatten (tree n e)).
Proof.
  induction n as [|n IH]; intros e p He Hup; rewrite tree_flatten by done; [apply NoDup_singleton|].
  assert (Hchild : forall c, c ∈ child_entries (pairs es) es (se_id e) -> up es c (c :: p) /\ c ∈ es) by (intros c Hc; by apply (child_up es (wf_log s Hwf) c e)).
  constructor.
  - intros Hin. apply list_elem_of_join in Hin as (l & Hx & Hl). apply list_elem_of_fmap in Hl as (c & -> & Hc).
    destruct (Hchild c Hc) as [Hcup Hces]. destruct (tree_path n c _ e Hces Hcup Hx) as [_ [pre Hpre]].
    pose proof (up_fun _ _ _ _ Hup Hpre) as Heq. apply (f_equal length) in Heq. rewrite length_app in Heq. cbn in Heq. lia.
  - apply NoDup_join.
    + apply filter_NoDup, entries_NoDup.
    + intros c Hc. destruct (Hchild c Hc) as [Hcup Hces]. by eapply IH.
    + intros a b x Ha Hb Hxa Hxb. destruct (Hchild a Ha) as [Haup Haes], (Hchild b Hb) as [Hbup Hbes].
      destruct (tree_path n a _ x Haes Haup Hxa) as [_ [pre1 H1]], (tree_path n b _ x Hbes Hbup Hxb) as [_ [pre2 H2]].
      pose proof (up_fun _ _ _ _ H1 H2) as Heq. apply app_inj_2 in Heq as [_ [= ->]]; done.
Qed.

Lemma forest_perm : mjoin (map flatten (getTree date_of s)) ≡ₚ es.
Proof.
  unfold getTree. rewrite (log_index _ (wf_log s Hwf)), map_map. apply NoDup_Permutation.
  - apply NoDup_join.
    + apply filter_NoDup, entries_NoDup.
    + intros r Hr. apply root_up in Hr as [Hr Hup]; [|apply Hwf]. by eapply tree_NoDup.
    + intros a b x Ha Hb Hxa Hxb. apply root_up in Ha as [Ha Haup], Hb as [Hb Hbup]; [|apply Hwf..].
      destruct (tree_path _ a _ x Ha Haup Hxa) as [_ [pre1 H1]], (tree_path _ b _ x Hb Hbup Hxb) as [_ [pre2 H2]].
      pose proof (up_fun _ _ _ _ H1 H2) as Heq. apply app_inj_2 in Heq as [_ [= ->]]; done.
  - apply entries_NoDup.
  - intros x. split.
    + intros Hin. apply list_elem_of_join in Hin as (l & Hx & Hl). apply list_elem_of_fmap in Hl as (r & -> & Hr).
      apply root_up in Hr as [Hr Hup]; [|apply Hwf]. by eapply tree_path.
    + intros Hx. destruct (up_exists es x (wf_log s Hwf) Hx) as (p & Hup & Hlen). destruct (up_head _ _ _ Hup) as [q Hq].
      assert (Hne : p <> []) by by rewrite Hq. destruct (exists_last Hne) as (pre & r & ->).
      assert (Hr : up es r [r]) by by apply (up_suffix es x pre r []).
      assert (Hres : r ∈ es) by (eapply (up_elem es x); [apply Hwf|done|done|]; apply elem_of_app; right; by left).
      apply list_elem_of_join. exists (flatten (tree (length es) r)). split.
      * eapply (tree_complete _ r [r] pre); try done. rewrite length_app in Hlen. cbn in Hlen. lia.
      * apply (list_elem_of_fmap_2 (fun r => flatten (tree (length es) r))). apply root_up; [apply Hwf|done].
Qed.

(** A node's children are its children in the log, oldest first. *)
Lemma tree_nested n : forall e, e ∈ es -> node_entry (tree n e) = e /\ nested date_of (tree n e).
Proof.
  induction n as [|n IH]; intros e He; pose proof (lookup_self es (wf_log s Hwf) e He) as Hself; cbn [tree_of]; rewrite Hself; (split; [done|]).
  - constructor; [constructor|..]; by intros c ?%elem_of_nil.
  - set (key := fun c => date_of (se_timestamp (default c (map_get (se_id c) (pairs es))))).
    assert (Hsub : forall c, c ∈ sort_by key (child_entries (pairs es) es (se_id e)) -> c ∈ es /\ se_parentId c = Some (se_id e)).
    { intros c Hc%sort_by_elem. apply list_elem_of_In in Hc. apply filter_In in Hc as [Hc Hp]. apply andb_true_iff in Hp as [_ Hp%bool_decide_eq_true].
      split; [by apply list_elem_of_In|done]. }
    constructor.
    + pose proof (sort_by_sorted key (child_entries (pairs es) es (se_id e))) as Hsort. revert Hsub Hsort.
      generalize (sort_by key (child_entries (pairs es) es (se_id e))). intros l Hsub Hsort.
      induction Hsort as [|c l Hl IHl Hc]; cbn; [constructor|]. destruct (IH c) as [-> _]; [apply Hsub; by left|].
      constructor; [apply IHl; intros; apply Hsub; by right|]. rewrite map_map. apply Forall_forall. intros y Hy.
      apply list_elem_of_fmap in Hy as (z & -> & Hz). destruct (IH z) as [-> _]; [apply Hsub; by right|].
      eapply Forall_forall in Hc; [|exact Hz]. unfold key_le, key in Hc. rewrite !lookup_self in Hc; [done|apply Hwf|apply Hsub; by right|apply Hwf|apply Hsub; by left].
    + intros t Ht. apply list_elem_of_fmap in Ht as (c & -> & Hc). destruct (Hsub c Hc) as [Hces Hpar]. by destruct (IH c Hces) as [-> _].
    + intros t Ht. apply list_elem_of_fmap in Ht as (c & -> & Hc). by apply IH, Hsub.
Qed.
End Tree.

(** the tree of a well-formed manager holds every entry of the log exactly
    once, every node below the entry that is its parent, and the children of a
    node from the oldest to the newest. *)
Theorem getTree_holds_log date_of s : wf s ->
  mjoin (map flatten (getTree date_of s)) ≡ₚ getEntries s /\ Forall (nested date_of) (getTree date_of s).
Proof.
  intros Hwf. split; [by apply forest_perm|]. unfold getTree. rewrite (log_index _ (wf_log s Hwf)). apply Forall_forall. intros t Ht.
  apply list_elem_of_fmap in Ht as (r & -> & Hr). apply root_up in Hr as [Hr _]; [|apply Hwf]. by apply tree_nested.
Qed.

Lemma getTree_holds_log_witness : mjoin (map flatten (getTree (fun _ => 0) ex_session.1)) ≡ₚ getEntries ex_session.1 /\
  Forall (nested (fun _ => 0)) (getTree (fun _ => 0) ex_session.1).
Proof. exact (getTree_holds_log (fun _ => 0) ex_session.1 ex_wf). Defined.

(** ** Session manager: behaviours at the edges *)

Definition note (text id : string) : Op := Op_custom_message (js "note") (UC_string (js text)) true None (Some (js id)).

(** The texts of the notes in the context of the leaf. *)
Definition context_notes (s : SessionManager) : option (list jstring) :=
  (fun c => omap (fun m => match m with AM_custom c => match cmsg_content c with UC_string t => Some t | _ => None end | _ => None end) (bc_messages c))
    <$> sessionContext (fun _ => 0) s None.

(** ** Labels and compaction *)

Definition label_id (x : SessionManager * SessionWorld) : jstring := default [] (sm_leafId x.1).

(** A label, then a note; the newest compaction keeps from the label on. *)
Definition compacted_at_label : SessionManager * SessionWorld :=
  let x := run_ops [Op_new_session no_options; note "old" "n1"; Op_label (js "n1") (Some (js "mark"))] (blank_manager false, blank_world 0) in
  run_ops [note "kept" "n2"; Op_compaction (js "summary") (label_id x) (number_of_Z 0) None None None; note "new" "n3"] x.

(** The session keeps the note, the session branched from it does not. *)
Example branched_loses_kept_messages :
  context_notes compacted_at_label.1 = Some [js "kept"; js "new"] /\
  context_notes (run_ops [Op_branched_session (js "n3")] compacted_at_label).1 = Some [js "new"].
Proof. split; vm_compute; reflexivity. Qed.

(** ** A failed append *)

Definition refill (x : SessionManager * SessionWorld) : SessionManager * SessionWorld :=
  (x.1, {| sw_files := sw_files x.2; sw_counter := sw_counter x.2; sw_room := 100 |}).

(** The note [n2] could not be appended, [n3] could. *)
Definition failed_append : SessionManager * SessionWorld :=
  run_ops [note "three" "n3"] (refill (run_ops [note "two" "n2"]
    (run_ops [Op_new_session no_options; note "one" "n1"; Op_flush] (blank_manager true, blank_world 1)))).

Definition reopen (x : SessionManager * SessionWorld) : SessionManager :=
  (setSessionFile example_number_to_string example_parse_number example_join (default [] (sm_sessionFile x.1)) (blank_manager true, x.2)).1.1.

(** All notes are in the context, but after opening the file again the notes
    before the failure are gone too: [n3] has a parent that is not in the file. *)
Example failed_append_loses_history :
  context_notes failed_append.1 = Some [js "one"; js "two"; js "three"] /\ context_notes (reopen failed_append) = Some [js "three"].
Proof. split; vm_compute; reflexivity. Qed.

(** ** Cycles *)

Definition cyclic (id parent : string) : SessionEntry :=
  {| se_id := js id; se_parentId := Some (js parent); se_timestamp := js "t"; se_payload := SE_strict_change true |}.

Definition cycle : SessionManager := buildIndex (with_session [] [FL_entry (cyclic "a" "b"); FL_entry (cyclic "b" "a")] (blank_manager false)).

(** The walk from an entry of a cycle never ends, whatever the fuel. *)
Example cycle_diverges : forall fuel, walk fuel (sm_byId cycle) (map_get (js "a") (sm_byId cycle)) = None.
Proof.
  intros fuel. destruct (walk fuel _ _) as [path|] eqn:Hw; [|done]. exfalso.
  assert (Hk : keyed (sm_byId cycle)).
  { intros id e He. apply map_get_In in He. vm_compute in He. apply elem_of_cons in He as [He|He%list_elem_of_singleton]; injection He as -> ->; reflexivity. }
  apply walk_enough in Hw; [vm_compute in Hw; discriminate|done|]. intros e He. by rewrite (Hk _ _ He).
Qed.

(** ** Older versions *)

(** The ids of migrated entries are not compared with each other: a source that
    draws one prefix twice gives two entries the same id. *)
Definition stuck_env : SessionEnv SessionWorld :=
  {| st_exists := st_exists; st_lines := st_lines; st_size := st_size; st_write := st_write; st_append := st_append;
     env_uuid := fun w => (sw_tick w, js "01234567" ++ js_of_Z (Z.of_nat (sw_counter w)) ++ replicate 20 45);
     env_uuidv7 := env_uuidv7; env_now := env_now |}.

Definition old_entry : fields := [(js "type", JString (js "message"))].

Example migrated_ids_collide :
  match (migrateV1ToV2 (H := stuck_env) [old_entry; old_entry] (blank_manager false, blank_world 0)).2 with
  | Ok [a; b] => map_get (js "id") a = map_get (js "id") b
  | _ => False
  end.
Proof. vm_compute. reflexivity. Qed.

(** A version 1 file: the header has no version and the entry no id. *)
Definition v1_file : jstring :=
  mjoin (map (fun o => json_stringify example_number_to_string (JObject o) ++ [10])
    [[(js "type", JString (js "session")); (js "id", JString (js "s1")); (js "timestamp", JString (js "t")); (js "cwd", JString (js "/work"))];
     [(js "type", JString (js "session_info")); (js "timestamp", JString (js "t")); (js "name", JString (js "first"))]]).

Definition v1_world : SessionWorld := {| sw_files := [(js "/old.jsonl", v1_file)]; sw_counter := 0; sw_room := 100 |}.

(** Opening the file migrates it; a fork copies the entry as it is under a
    header of version 3, so the fork is not migrated and has an entry without
    an id. *)
Example fork_not_migrated :
  (setSessionFile example_number_to_string example_parse_number example_join (js "/old.jsonl") (blank_manager true, v1_world)).2 = Ok tt /\
  (forkFrom example_number_to_string example_parse_number example_join (js "/old.jsonl") no_options (blank_manager true, v1_world)).2 = Err ME_untyped.
Proof. split; vm_compute; reflexivity. Qed.
