(* ===== verification/StdinBuffer.v ===== *)
(** * Terminal input

    packages/tui/src/stdin-buffer.ts: input arrives in chunks; complete escape
    sequences and single characters are emitted, bracketed pastes as a whole.
    A timer that the buffer arms emits what is incomplete; [sb_timer] holds its
    delay.  Emitted events are returned in order. *)

From stdpp Require Import base list strings pretty.
From Stdlib Require Import ZArith Lia.
From S2P Require Import Prelude Truncate EditDiff.

Open Scope Z_scope.

Definition ESC : Z := 27.
Definition DEFAULT_SEQUENCE_TIMEOUT_MS : Z := 50.
Definition DEFAULT_ESCAPE_TIMEOUT_MS : Z := 10.
Definition BRACKETED_PASTE_START : jstring := ESC :: js "[200~".
Definition BRACKETED_PASTE_END : jstring := ESC :: js "[201~".

Inductive SequenceStatus := Complete | Incomplete | NotEscape.

#[export] Instance sequence_status_eq : EqDecision SequenceStatus.
Proof. solve_decision. Defined.

Definition starts_with (pattern s : jstring) : bool := match strip_prefix pattern s with Some _ => true | None => false end.
Definition ends_with (pattern s : jstring) : bool := starts_with (reverse pattern) (reverse s).

Definition digit (u : Z) : bool := (48 <=? u) && (u <=? 57).

(** The longest run of digits and the rest. *)
Fixpoint span_digits (s : jstring) : jstring * jstring :=
  match s with
  | u :: r => if digit u then let '(d, r) := span_digits r in (u :: d, r) else ([], s)
  | [] => ([], [])
  end.

(** [\d+], then the rest. *)
Definition digits1 (s : jstring) : option jstring :=
  match span_digits s with ([], _) => None | (_, r) => Some r end.

(** [/^<\d+;\d+;\d+[Mm]$/] *)
Definition mouse_match (payload : jstring) : bool :=
  match payload with
  | 60 :: r =>
      match digits1 r with
      | Some (59 :: r) =>
          match digits1 r with
          | Some (59 :: r) => match digits1 r with Some [u] => (u =? 77) || (u =? 109) | _ => false end
          | _ => false
          end
      | _ => false
      end
  | _ => false
  end.

(** [s.split(";")] *)
Fixpoint split_semicolons (s : jstring) : list jstring :=
  match s with
  | [] => [[]]
  | u :: r =>
      match split_semicolons r with
      | part :: parts => if u =? 59 then [] :: part :: parts else (u :: part) :: parts
      | [] => [[u]]
      end
  end.

Definition all_digits (s : jstring) : bool := match s with [] => false | _ => forallb digit s end.

(** ESC [ ... up to a final byte. *)
Definition isCompleteCsiSequence (data : jstring) : SequenceStatus :=
  if negb (starts_with [ESC; 91] data) then Complete
  else if (length data <? 3)%nat then Incomplete
  else
    let payload := drop 2 data in
    match last payload with
    | None => Incomplete
    | Some lastChar =>
        if (0x40 <=? lastChar) && (lastChar <=? 0x7e) then
          if starts_with [60] payload then
            if mouse_match payload then Complete
            else if ((lastChar =? 77) || (lastChar =? 109)) &&
                    (let parts := split_semicolons (take (length payload - 2) (drop 1 payload)) in
                     (length parts =? 3)%nat && forallb all_digits parts) then Complete
            else Incomplete
          else Complete
        else Incomplete
    end.

Definition isCompleteOscSequence (data : jstring) : SequenceStatus :=
  if negb (starts_with [ESC; 93] data) then Complete
  else if ends_with [ESC; 92] data || ends_with [7] data then Complete else Incomplete.

Definition isCompleteDcsSequence (data : jstring) : SequenceStatus :=
  if negb (starts_with [ESC; 80] data) then Complete
  else if ends_with [ESC; 92] data then Complete else Incomplete.

Definition isCompleteApcSequence (data : jstring) : SequenceStatus :=
  if negb (starts_with [ESC; 95] data) then Complete
  else if ends_with [ESC; 92] data then Complete else Incomplete.

Definition isCompleteSequence (data : jstring) : SequenceStatus :=
  if negb (starts_with [ESC] data) then NotEscape
  else if (length data =? 1)%nat then Incomplete
  else
    let afterEsc := drop 1 data in
    if starts_with [91] afterEsc then
      if starts_with [91; 77] afterEsc then (if (6 <=? length data)%nat then Complete else Incomplete)
      else isCompleteCsiSequence data
    else if starts_with [93] afterEsc then isCompleteOscSequence data
    else if starts_with [80] afterEsc then isCompleteDcsSequence data
    else if starts_with [95] afterEsc then isCompleteApcSequence data
    else if starts_with [79] afterEsc then (if (2 <=? length afterEsc)%nat then Complete else Incomplete)
    else Complete.

(** After the digits: [u], alone or after one or two fields that start with a
    colon, the second of them not empty. *)
Definition kitty_rest (r : jstring) : bool :=
  bool_decide (r = [117]) ||
  match r with
  | 58 :: r =>
      let '(_, r) := span_digits r in
      bool_decide (r = [117]) || match r with 58 :: r => bool_decide (digits1 r = Some [117]) | _ => false end
  | _ => false
  end.

(** [parseInt(digits, 10)] *)
Definition number_value (digits : jstring) : Z := foldl (fun n u => n * 10 + (u - 48)) 0 digits.

(** ESC [ digits, then such a rest; code points from 32 on. *)
Definition parseUnmodifiedKittyPrintableCodepoint (sequence : jstring) : option Z :=
  match strip_prefix [ESC; 91] sequence with
  | Some r =>
      match span_digits r with
      | ([], _) => None
      | (d, r) => if kitty_rest r then (let codepoint := number_value d in if 32 <=? codepoint then Some codepoint else None) else None
      end
  | None => None
  end.

(** ** Sequences *)

(** The inner loop: the first length from [seqEnd] on, in [tries] attempts, at
    which the sequence is no longer incomplete. *)
Fixpoint find_end (tries seqEnd : nat) (remaining : jstring) : option nat :=
  match tries with
  | O => None
  | S tries =>
      match isCompleteSequence (take seqEnd remaining) with
      | Incomplete => find_end tries (S seqEnd) remaining
      | _ => Some seqEnd
      end
  end.

(** The characters that start a sequence after ESC. *)
Definition introducer (u : Z) : bool := bool_decide (u ∈ [91; 93; 79; 80; 95]).

(** One round of the outer loop: how much is emitted next; [None] when the rest
    is incomplete. *)
Definition next_sequence (remaining : jstring) : option nat :=
  match remaining with
  | u :: _ =>
      if u =? ESC then
        match find_end (length remaining) 1 remaining with
        | None => None
        | Some seqEnd =>
            if bool_decide (take seqEnd remaining = [ESC; ESC]) &&
               match remaining !! seqEnd with Some nextChar => introducer nextChar | None => false end
            then Some 1%nat else Some seqEnd
        end
      else Some 1%nat
  | [] => None
  end.

Fixpoint extract_loop (rounds : nat) (remaining : jstring) : list jstring * jstring :=
  match rounds with
  | O => ([], remaining)
  | S rounds =>
      match next_sequence remaining with
      | None => ([], remaining)
      | Some n => let '(sequences, remainder) := extract_loop rounds (drop n remaining) in (take n remaining :: sequences, remainder)
      end
  end.

Definition extractCompleteSequences (buffer : jstring) : list jstring * jstring := extract_loop (length buffer) buffer.

(** ** The buffer *)

Record StdinBuffer := {
  sb_buffer : jstring;
  sb_timer : option Z;
  sb_pasteMode : bool;
  sb_pasteBuffer : jstring;
  sb_pending : option Z }.

Inductive StdinEvent := Ev_data (sequence : jstring) | Ev_paste (content : jstring).

Record StdinBufferOptions := { so_timeout : Z; so_escapeTimeout : Z }.

Definition default_options : StdinBufferOptions :=
  {| so_timeout := DEFAULT_SEQUENCE_TIMEOUT_MS; so_escapeTimeout := DEFAULT_ESCAPE_TIMEOUT_MS |}.

Definition empty_buffer : StdinBuffer :=
  {| sb_buffer := []; sb_timer := None; sb_pasteMode := false; sb_pasteBuffer := []; sb_pending := None |}.

(** A character that repeats the key reported just before is dropped. *)
Definition emitDataSequence (pending : option Z) (sequence : jstring) : option Z * list StdinEvent :=
  let rawCodepoint := match sequence with [u] => Some u | _ => None end in
  if bool_decide (is_Some rawCodepoint /\ rawCodepoint = pending) then (None, [])
  else (parseUnmodifiedKittyPrintableCodepoint sequence, [Ev_data sequence]).

Fixpoint emit_all (pending : option Z) (sequences : list jstring) : option Z * list StdinEvent :=
  match sequences with
  | [] => (pending, [])
  | sequence :: rest =>
      let '(pending, ev) := emitDataSequence pending sequence in
      let '(pending, evs) := emit_all pending rest in (pending, ev ++ evs)
  end.

Definition pasting (pasteBuffer : jstring) : StdinBuffer :=
  {| sb_buffer := []; sb_timer := None; sb_pasteMode := true; sb_pasteBuffer := pasteBuffer; sb_pending := None |}.

Section Process.
Context (options : StdinBufferOptions).

(** [process] calls itself for what follows a paste, which is shorter. *)
Fixpoint process_loop (fuel : nat) (s : StdinBuffer) (str : jstring) : StdinBuffer * list StdinEvent :=
  match fuel with
  | O => (s, [])
  | S fuel =>
      let finish_paste pending pasteBuffer :=
        match index_of BRACKETED_PASTE_END pasteBuffer with
        | Some endIndex =>
            let pastedContent := take endIndex pasteBuffer in
            let remaining := drop (endIndex + length BRACKETED_PASTE_END) pasteBuffer in
            match remaining with
            | [] => (empty_buffer, [Ev_paste pastedContent])
            | _ => let '(s, evs) := process_loop fuel empty_buffer remaining in (s, Ev_paste pastedContent :: evs)
            end
        | None =>
            ({| sb_buffer := []; sb_timer := None; sb_pasteMode := true; sb_pasteBuffer := pasteBuffer; sb_pending := pending |}, [])
        end in
      match str, sb_buffer s with
      | [], [] =>
          let '(pending, evs) := emitDataSequence (sb_pending s) [] in
          ({| sb_buffer := []; sb_timer := None; sb_pasteMode := sb_pasteMode s; sb_pasteBuffer := sb_pasteBuffer s; sb_pending := pending |}, evs)
      | _, _ =>
          let buffer := sb_buffer s ++ str in
          if sb_pasteMode s then finish_paste (sb_pending s) (sb_pasteBuffer s ++ buffer)
          else
            match index_of BRACKETED_PASTE_START buffer with
            | Some startIndex =>
                let '(_, evs) := emit_all (sb_pending s) (extractCompleteSequences (take startIndex buffer)).1 in
                let '(s, evs') := finish_paste None (drop (startIndex + length BRACKETED_PASTE_START) buffer) in (s, evs ++ evs')
            | None =>
                let '(sequences, remainder) := extractCompleteSequences buffer in
                let '(pending, evs) := emit_all (sb_pending s) sequences in
                ({| sb_buffer := remainder;
                    sb_timer := match remainder with
                                | [] => None
                                | _ => Some (if bool_decide (remainder = [ESC]) then so_escapeTimeout options else so_timeout options)
                                end;
                    sb_pasteMode := false; sb_pasteBuffer := sb_pasteBuffer s; sb_pending := pending |}, evs)
            end
      end
  end.

Definition process (s : StdinBuffer) (str : jstring) : StdinBuffer * list StdinEvent :=
  process_loop (S (length (sb_pasteBuffer s) + length (sb_buffer s) + length str)) s str.

(** A single byte above 127 is ESC and the byte less 128; [decode] is
    [Buffer.toString]. *)
Definition input_text (decode : list Z -> jstring) (data : list Z) : jstring :=
  match data with
  | [byte] => if 127 <? byte then [ESC; byte - 128] else decode data
  | _ => decode data
  end.

Definition flush (s : StdinBuffer) : StdinBuffer * list jstring :=
  match sb_buffer s with
  | [] => ({| sb_buffer := []; sb_timer := None; sb_pasteMode := sb_pasteMode s; sb_pasteBuffer := sb_pasteBuffer s; sb_pending := sb_pending s |}, [])
  | b => ({| sb_buffer := []; sb_timer := None; sb_pasteMode := sb_pasteMode s; sb_pasteBuffer := sb_pasteBuffer s; sb_pending := None |}, [b])
  end.

(** The timer fires. *)
Definition expire (s : StdinBuffer) : StdinBuffer * list StdinEvent :=
  let '(s, flushed) := flush s in
  let '(pending, evs) := emit_all (sb_pending s) flushed in
  ({| sb_buffer := sb_buffer s; sb_timer := sb_timer s; sb_pasteMode := sb_pasteMode s; sb_pasteBuffer := sb_pasteBuffer s; sb_pending := pending |}, evs).

Definition clear (s : StdinBuffer) : StdinBuffer := empty_buffer.

(** Several chunks. *)
Fixpoint process_all (s : StdinBuffer) (chunks : list jstring) : StdinBuffer * list StdinEvent :=
  match chunks with
  | [] => (s, [])
  | chunk :: rest =>
      let '(s, evs) := process s chunk in
      let '(s, evs') := process_all s rest in (s, evs ++ evs')
  end.
End Process.
