(* ===== verification/StdinProperties.v ===== *)
(** * Terminal input does not depend on how it is cut into chunks

    The sequences that [StdinBuffer] emits are those of the whole text, and a
    bracketed paste arrives as one event, whatever the chunks. *)

From stdpp Require Import base list strings pretty.
From Stdlib Require Import ZArith Lia.
From S2P Require Import Prelude Truncate EditDiff EditProperties StdinBuffer.

Open Scope Z_scope.

(** ** Searching *)

Lemma index_of_app pattern x y i : index_of pattern x = Some i -> index_of pattern (x ++ y) = Some i.
Proof.
  revert i. induction x as [|u x IH]; intros i; cbn [index_of app].
  - destruct (strip_prefix pattern []) as [r|] eqn:E; [|done]. intros [= <-]. apply strip_prefix_spec in E. symmetry in E.
    apply app_nil in E as [-> ->]. by destruct y.
  - destruct (strip_prefix pattern (u :: x)) as [r|] eqn:E.
    + intros [= <-]. apply strip_prefix_spec in E. assert (strip_prefix pattern (u :: x ++ y) = Some (r ++ y)) as ->; [|done].
      apply strip_prefix_spec. rewrite app_comm_cons, E. by rewrite <- app_assoc.
    + intros (j & Hj & ->)%fmap_Some. pose proof (IH j Hj) as Hy. rewrite Hy.
      destruct (strip_prefix pattern (u :: x ++ y)) as [r|] eqn:E'; [|done]. exfalso.
      destruct (index_of_spec _ _ _ Hj) as (pre & post & -> & _). apply strip_prefix_spec in E'.
      apply (f_equal (take (length pattern))) in E'. rewrite take_app_length, app_comm_cons, take_app_le in E'.
      2: { cbn. rewrite !length_app. lia. }
      assert (Hs : strip_prefix pattern (u :: pre ++ pattern ++ post) = Some (drop (length pattern) (u :: pre ++ pattern ++ post))).
      { apply strip_prefix_spec. rewrite <- (take_drop (length pattern) (u :: pre ++ pattern ++ post)) at 1. by rewrite E'. }
      congruence.
Qed.

Lemma index_of_suffix pattern x y : index_of pattern (x ++ y) = None -> index_of pattern y = None.
Proof.
  induction x as [|u x IH]; [done|]. cbn [app index_of]. destruct (strip_prefix _ _); [done|]. intros Hn. apply IH.
  by destruct (index_of pattern (x ++ y)).
Qed.

Lemma index_of_prefix pattern x y : index_of pattern (x ++ y) = None -> index_of pattern x = None.
Proof. destruct (index_of pattern x) as [i|] eqn:E; [|done]. by rewrite (index_of_app _ _ _ _ E). Qed.

(** ** One sequence *)

Lemma sequence_end_spec tries : forall k r m, find_end tries k r = Some m <->
  (k <= m < k + tries)%nat /\ isCompleteSequence (take m r) <> Incomplete /\ forall j, (k <= j < m)%nat -> isCompleteSequence (take j r) = Incomplete.
Proof.
  induction tries as [|tries IH]; intros k r m; cbn [find_end]; [split; [done|lia]|].
  destruct (decide (isCompleteSequence (take k r) = Incomplete)) as [Hk|Hk].
  - rewrite Hk, IH. split.
    + intros (Hm & Hc & Hj). split_and!; [lia|lia|done|]. intros j Hj'. destruct (decide (j = k)) as [->|]; [done|]. apply Hj. lia.
    + intros (Hm & Hc & Hj). assert (k <> m) by (intros ->; done). split_and!; [lia|lia|done|]. intros j Hj'. apply Hj. lia.
  - assert (Hrun : match isCompleteSequence (take k r) with Incomplete => find_end tries (S k) r | _ => Some k end = Some k)
      by by destruct (isCompleteSequence (take k r)).
    rewrite Hrun. split.
    + intros [= <-]. split_and!; [lia|lia|done|]. intros j Hj. lia.
    + intros (Hm & Hc & Hj). destruct (decide (k = m)) as [->|]; [done|]. destruct Hk. apply Hj. lia.
Qed.

Lemma next_sequence_bounds r n : next_sequence r = Some n -> (1 <= n <= length r)%nat.
Proof.
  destruct r as [|u r]; [done|]. cbn [next_sequence]. destruct (u =? ESC); [|intros [= <-]; cbn; lia].
  destruct (find_end _ _ _) as [k|] eqn:E; [|done]. apply sequence_end_spec in E as [Hk _].
  destruct (_ && _); intros [= <-]; cbn in *; lia.
Qed.

(** The text ends with two ESC and goes on with the start of a sequence. *)
Definition bad_cut (a b : jstring) : Prop := (exists x, a = x ++ [ESC; ESC]) /\ exists u y, b = u :: y /\ introducer u = true.

Lemma next_sequence_app a b n : next_sequence a = Some n -> ~ bad_cut a b -> next_sequence (a ++ b) = Some n.
Proof.
  destruct a as [|u a]; [done|]. cbn [next_sequence app]. destruct (u =? ESC); [|done].
  destruct (find_end (length (u :: a)) 1 (u :: a)) as [k|] eqn:E; [|done]. apply sequence_end_spec in E as (Hk & Hc & Hj). intros Hn Hbad.
  assert (Htake : forall j, (j <= length (u :: a))%nat -> take j (u :: a ++ b) = take j (u :: a)).
  { intros j Hlen. by rewrite app_comm_cons, take_app_le. }
  assert (Hend : find_end (length (u :: a ++ b)) 1 (u :: a ++ b) = Some k).
  { apply sequence_end_spec. rewrite Htake by lia. split_and!; [lia| |done|].
    - cbn. rewrite length_app. cbn in Hk. lia.
    - intros j Hj'. rewrite Htake by lia. by apply Hj. }
  rewrite Hend, Htake by lia. destruct (decide (k < length (u :: a))%nat) as [Hlt|Hge].
  - rewrite app_comm_cons, lookup_app_l by done. done.
  - assert (k = length (u :: a)) as -> by lia. rewrite (lookup_ge_None_2 (u :: a)) in Hn by lia. rewrite andb_false_r in Hn.
    rewrite (firstn_all (u :: a)) in *. rewrite app_comm_cons, lookup_app_r, Nat.sub_diag by lia.
    case_bool_decide as Heq; [|done]. cbn [andb]. destruct b as [|v b]; [done|]. cbn. destruct (introducer v) eqn:Ev; [|done].
    destruct Hbad. split; [by exists []|by exists v, b].
Qed.

Lemma bad_cut_drop n a b : bad_cut (drop n a) b -> bad_cut a b.
Proof. intros [[x Hx] Hb]. split; [|done]. exists (take n a ++ x). by rewrite <- app_assoc, <- Hx, take_drop. Qed.

(** ** All sequences *)

Lemma extract_enough n : forall m r, (length r <= n)%nat -> (length r <= m)%nat -> extract_loop n r = extract_loop m r.
Proof.
  induction n as [|n IH]; intros m r Hn Hm.
  - destruct r; [|cbn in Hn; lia]. by destruct m.
  - destruct m as [|m]; [destruct r; [done|cbn in Hm; lia]|]. cbn [extract_loop]. destruct (next_sequence r) as [k|] eqn:Ek; [|done].
    apply next_sequence_bounds in Ek. rewrite (IH m); [done|rewrite length_drop; lia|rewrite length_drop; lia].
Qed.

Lemma extract_step r : extractCompleteSequences r =
  match next_sequence r with
  | None => ([], r)
  | Some n => (take n r :: (extractCompleteSequences (drop n r)).1, (extractCompleteSequences (drop n r)).2)
  end.
Proof.
  unfold extractCompleteSequences at 1. destruct (next_sequence r) as [n|] eqn:En.
  - pose proof (next_sequence_bounds _ _ En) as Hn. destruct (length r) as [|m] eqn:El; [lia|]. cbn [extract_loop]. rewrite En.
    unfold extractCompleteSequences. rewrite (extract_enough m (length (drop n r))) by (rewrite length_drop; lia). by destruct (extract_loop _ _).
  - destruct (length r) as [|m]; cbn [extract_loop]; [done|]. by rewrite En.
Qed.

(** Nothing is lost. *)
Lemma extract_lossless r : mjoin (extractCompleteSequences r).1 ++ (extractCompleteSequences r).2 = r.
Proof.
  remember (length r) as n eqn:Hn. revert r Hn. induction (lt_wf n) as [n _ IH]. intros r ->. rewrite extract_step.
  destruct (next_sequence r) as [k|] eqn:Ek; [|done]. pose proof (next_sequence_bounds _ _ Ek) as Hk. cbn.
  rewrite <- app_assoc, (IH (length (drop k r))); [by rewrite take_drop| |done]. rewrite length_drop. lia.
Qed.

(** A single character, or an escape sequence that is complete only at its
    end. *)
Definition token (t : jstring) : Prop :=
  (exists u, t = [u]) \/ (isCompleteSequence t = Complete /\ forall j, (1 <= j < length t)%nat -> isCompleteSequence (take j t) = Incomplete).

Lemma escape_status u r k : (u =? ESC) = true -> (1 <= k)%nat -> isCompleteSequence (take k (u :: r)) <> Incomplete ->
  isCompleteSequence (take k (u :: r)) = Complete.
Proof.
  intros Hu Hk. destruct k as [|k]; [lia|]. cbn [take]. unfold isCompleteSequence, starts_with. cbn [strip_prefix]. rewrite Z.eqb_sym, Hu. cbn [negb].
  unfold isCompleteCsiSequence, isCompleteOscSequence, isCompleteDcsSequence, isCompleteApcSequence.
  repeat (case_match; try done).
Qed.

Lemma next_sequence_token r n : next_sequence r = Some n -> token (take n r).
Proof.
  destruct r as [|u r]; [done|]. cbn [next_sequence]. destruct (u =? ESC) eqn:Eu; [|intros [= <-]; left; by exists u].
  destruct (find_end _ _ _) as [k|] eqn:E; [|done]. apply sequence_end_spec in E as (Hk & Hc & Hj).
  destruct (_ && _); intros [= <-]; [left; by exists u|]. right. split; [apply escape_status; [done|lia|done]|].
  intros j Hj'. rewrite length_take in Hj'. rewrite take_take, Nat.min_l by lia. apply Hj. lia.
Qed.

Lemma extract_tokens r : Forall token (extractCompleteSequences r).1.
Proof.
  remember (length r) as n eqn:Hn. revert r Hn. induction (lt_wf n) as [n _ IH]. intros r ->. rewrite extract_step.
  destruct (next_sequence r) as [k|] eqn:Ek; [|constructor]. pose proof (next_sequence_bounds _ _ Ek) as Hk. cbn [fst].
  constructor; [by apply next_sequence_token|]. eapply IH; [|reflexivity]. rewrite length_drop. lia.
Qed.

(** Sequences of a text and of what is appended to it. *)
Lemma extract_app a b : ~ bad_cut a b ->
  extractCompleteSequences (a ++ b) =
  ((extractCompleteSequences a).1 ++ (extractCompleteSequences ((extractCompleteSequences a).2 ++ b)).1,
   (extractCompleteSequences ((extractCompleteSequences a).2 ++ b)).2).
Proof.
  remember (length a) as n eqn:Hn. revert a Hn. induction (lt_wf n) as [n _ IH]. intros a -> Hbad. rewrite (extract_step a).
  destruct (next_sequence a) as [k|] eqn:Ek; [|cbn [fst snd app]; by destruct (extractCompleteSequences (a ++ b))].
  pose proof (next_sequence_bounds _ _ Ek) as Hk. rewrite (extract_step (a ++ b)), (next_sequence_app _ _ _ Ek Hbad).
  rewrite take_app_le, drop_app_le by lia. rewrite (IH (length (drop k a))); [done|rewrite length_drop; lia|done|].
  intros Hb. by apply Hbad, (bad_cut_drop k).
Qed.

Lemma emit_all_app pending l1 l2 : emit_all pending (l1 ++ l2) =
  ((emit_all (emit_all pending l1).1 l2).1, (emit_all pending l1).2 ++ (emit_all (emit_all pending l1).1 l2).2).
Proof.
  revert pending. induction l1 as [|x l1 IH]; intros pending; cbn [app emit_all fst snd]; [apply surjective_pairing|].
  destruct (emitDataSequence pending x) as [p ev]. rewrite IH. destruct (emit_all p l1) as [p1 ev1]. cbn [fst snd]. by rewrite app_assoc.
Qed.

(** ** Chunks *)

Section Chunks.
Context (options : StdinBufferOptions).

Definition timer_for (remainder : jstring) : option Z :=
  match remainder with
  | [] => None
  | _ => Some (if bool_decide (remainder = [ESC]) then so_escapeTimeout options else so_timeout options)
  end.

(** The state after a text without pastes, from a state that waits for
    [pending]. *)
Definition after_text (pending : option Z) (text : jstring) : StdinBuffer * list StdinEvent :=
  let '(sequences, remainder) := extractCompleteSequences text in
  ({| sb_buffer := remainder; sb_timer := timer_for remainder; sb_pasteMode := false; sb_pasteBuffer := [];
      sb_pending := (emit_all pending sequences).1 |}, (emit_all pending sequences).2).

Lemma process_text s str : sb_pasteMode s = false -> sb_pasteBuffer s = [] -> sb_buffer s ++ str <> [] ->
  index_of BRACKETED_PASTE_START (sb_buffer s ++ str) = None ->
  process options s str = after_text (sb_pending s) (sb_buffer s ++ str).
Proof.
  intros Hm Hb Hne Hi. unfold process. cbn [process_loop]. rewrite Hm, Hi, Hb. unfold after_text, timer_for.
  destruct str as [|u str], (sb_buffer s) as [|v b]; try done;
    destruct (extractCompleteSequences _) as [ss rem]; by destruct (emit_all (sb_pending s) ss).
Qed.

Lemma extract_suffix text : exists pre, text = pre ++ (extractCompleteSequences text).2.
Proof. exists (mjoin (extractCompleteSequences text).1). symmetry. apply extract_lossless. Qed.

Lemma after_text_app pending a b : ~ bad_cut a b -> after_text pending (a ++ b) =
  let x := after_text pending a in let y := after_text (sb_pending x.1) (sb_buffer x.1 ++ b) in (y.1, x.2 ++ y.2).
Proof.
  intros Hbad. unfold after_text. rewrite (extract_app a b Hbad). destruct (extractCompleteSequences a) as [ss rem]. cbn [fst snd sb_pending sb_buffer].
  destruct (extractCompleteSequences (rem ++ b)) as [ss' rem']. cbn [fst snd]. by rewrite emit_all_app.
Qed.

Lemma process_all_snoc s chunks chunk : process_all options s (chunks ++ [chunk]) =
  let x := process_all options s chunks in let y := process options x.1 chunk in (y.1, x.2 ++ y.2).
Proof.
  revert s. induction chunks as [|c chunks IH]; intros s; cbn [app process_all].
  - cbn zeta. cbn [fst snd app]. destruct (process options s chunk) as [s1 ev1]. cbn [fst snd]. by rewrite app_nil_r.
  - destruct (process options s c) as [s1 ev1]. rewrite IH. cbn zeta. destruct (process_all options s1 chunks) as [s2 ev2]. cbn [fst snd].
    by rewrite app_assoc.
Qed.

Lemma chunks_text chunks : Forall (fun c => c <> []) chunks -> index_of BRACKETED_PASTE_START (mjoin chunks) = None ->
  (forall pre post, chunks = pre ++ post -> ~ bad_cut (mjoin pre) (mjoin post)) ->
  process_all options empty_buffer chunks = after_text None (mjoin chunks).
Proof.
  induction chunks as [|c chunks IH] using rev_ind; intros Hne Hi Hcut; [done|]. apply Forall_app in Hne as [Hne Hc].
  apply Forall_cons in Hc as [Hc _]. rewrite join_app in *. cbn [mjoin list_join] in *. rewrite app_nil_r in *.
  rewrite process_all_snoc, IH; [|done|by eapply index_of_prefix|].
  - pose proof (extract_suffix (mjoin chunks)) as [pre Hpre]. rewrite after_text_app.
    2: { pose proof (Hcut chunks [c] eq_refl) as Hc'. cbn in Hc'. by rewrite app_nil_r in Hc'. }
    unfold after_text at 1 2 3. destruct (extractCompleteSequences (mjoin chunks)) as [ss rem]. cbn [fst snd sb_pending sb_buffer].
    rewrite process_text; [done|done|done| |]; cbn [sb_buffer].
    + by destruct rem.
    + cbn [snd] in Hpre. rewrite Hpre, <- app_assoc in Hi. by apply index_of_suffix in Hi.
  - intros pre post -> Hbad. apply (Hcut pre (post ++ [c])); [by rewrite app_assoc|]. destruct Hbad as [Ha (u & y & Hy & Hu)].
    split; [done|]. exists u, (y ++ c). rewrite join_app. cbn. by rewrite Hy, app_nil_r.
Qed.
End Chunks.

(** ** Pastes *)

Section Paste.
Context (options : StdinBufferOptions).

(** The proper prefixes of the start marker are kept. *)
Lemma start_prefix_waits p r : BRACKETED_PASTE_START = p ++ r -> r <> [] ->
  extractCompleteSequences p = ([], p) /\ index_of BRACKETED_PASTE_START p = None.
Proof.
  intros Hp Hr. assert (Hlen : (length p < 6)%nat).
  { apply (f_equal length) in Hp. rewrite length_app in Hp. destruct r; [done|]. cbn in Hp. lia. }
  assert (Htake : p = take (length p) BRACKETED_PASTE_START) by (rewrite Hp; by rewrite take_app_length).
  rewrite Htake. clear -Hlen. generalize dependent (length p). intros n Hn.
  do 6 (destruct n as [|n]; [split; vm_compute; reflexivity|]). lia.
Qed.

Lemma start_cases x y z : x ++ y = BRACKETED_PASTE_START ++ z ->
  (exists c, x = BRACKETED_PASTE_START ++ c /\ c ++ y = z) \/ (exists r, r <> [] /\ BRACKETED_PASTE_START = x ++ r).
Proof.
  intros Heq. apply app_eq_inv in Heq as [(k & -> & ->)|(k & Hs & ->)].
  - left. by exists k.
  - destruct (decide (k = [])) as [->|Hk]; [|right; by exists k]. left. exists []. rewrite !app_nil_r in *. by rewrite Hs.
Qed.

Lemma start_strip x r : r <> [] -> BRACKETED_PASTE_START = x ++ r -> strip_prefix BRACKETED_PASTE_START x = None.
Proof.
  intros Hr Hx. destruct (strip_prefix _ x) as [c|] eqn:E; [|done]. apply strip_prefix_spec in E. exfalso.
  apply (f_equal length) in Hx. rewrite E, !length_app in Hx. destruct r; [done|]. cbn in Hx. lia.
Qed.

(** What a buffer holds after the part [t] of a paste. *)
Definition paste_state (t : jstring) : StdinBuffer :=
  match strip_prefix BRACKETED_PASTE_START t with
  | Some content => pasting content
  | None => {| sb_buffer := t; sb_timer := timer_for options t; sb_pasteMode := false; sb_pasteBuffer := []; sb_pending := None |}
  end.

Definition paste_text (content : jstring) : jstring := BRACKETED_PASTE_START ++ content ++ BRACKETED_PASTE_END.

Definition paste_result (content t : jstring) : StdinBuffer * list StdinEvent :=
  if bool_decide (t = paste_text content) then (empty_buffer, [Ev_paste content]) else (paste_state t, []).

Section Content.
Context (content : jstring) (Hcontent : index_of BRACKETED_PASTE_END (content ++ BRACKETED_PASTE_END) = Some (length content)).

(** The end marker is found when the paste is complete, and not before. *)
Lemma end_found c rest : c ++ rest = content ++ BRACKETED_PASTE_END ->
  index_of BRACKETED_PASTE_END c = if bool_decide (rest = []) then Some (length content) else None.
Proof.
  intros Hc. case_bool_decide as Hr; [subst rest; rewrite app_nil_r in Hc; by rewrite Hc|].
  destruct (index_of BRACKETED_PASTE_END c) as [i|] eqn:Ei; [|done]. exfalso.
  pose proof (index_of_app _ _ rest _ Ei) as Hi. rewrite Hc, Hcontent in Hi. injection Hi as <-.
  apply index_of_spec in Ei as (pre & post & -> & Hpre). apply (f_equal length) in Hc. rewrite !length_app in Hc.
  destruct rest; [done|]. cbn in Hc. lia.
Qed.

(** More of the paste arrives in paste mode. *)
Lemma finish_paste fuel c rest : c ++ rest = content ++ BRACKETED_PASTE_END ->
  match index_of BRACKETED_PASTE_END c with
  | Some endIndex =>
      match drop (endIndex + length BRACKETED_PASTE_END) c with
      | [] => (empty_buffer, [Ev_paste (take endIndex c)])
      | _ :: _ => let '(s, evs) := process_loop options fuel empty_buffer (drop (endIndex + length BRACKETED_PASTE_END) c) in
          (s, Ev_paste (take endIndex c) :: evs)
      end
  | None => (pasting c, [])
  end = paste_result content (BRACKETED_PASTE_START ++ c).
Proof.
  intros Hc. rewrite (end_found _ _ Hc). unfold paste_result, paste_state, paste_text.
  assert (Hstrip : strip_prefix BRACKETED_PASTE_START (BRACKETED_PASTE_START ++ c) = Some c) by by apply strip_prefix_spec.
  rewrite Hstrip, <- Hc. case_bool_decide as Hr.
  - subst rest. rewrite app_nil_r in *. rewrite bool_decide_true by done. rewrite Hc, take_app_length.
    by rewrite (drop_ge (content ++ BRACKETED_PASTE_END)) by (rewrite length_app; lia).
  - rewrite bool_decide_false; [done|]. intros Heq. apply app_inv_head in Heq. rewrite <- (app_nil_r c) in Heq at 1. by apply app_inv_head in Heq.
Qed.

Lemma process_paste t chunk rest : t ++ chunk ++ rest = paste_text content -> chunk <> [] ->
  process options (paste_state t) chunk = paste_result content (t ++ chunk).
Proof.
  intros Htext Hne. unfold paste_text in Htext. rewrite app_assoc in Htext. destruct (start_cases _ _ _ Htext) as [(c & Hc & Hrest)|(r & Hr & Hs)].
  - rewrite Hc, <- (finish_paste (length (sb_pasteBuffer (paste_state t)) + length (sb_buffer (paste_state t)) + length chunk) c rest Hrest).
    destruct (start_cases _ _ _ Hc) as [(c' & -> & <-)|(r & Hr & Hs)].
    + assert (Hst : paste_state (BRACKETED_PASTE_START ++ c') = pasting c').
      { unfold paste_state. assert (strip_prefix BRACKETED_PASTE_START (BRACKETED_PASTE_START ++ c') = Some c') as ->; [by apply strip_prefix_spec|done]. }
      rewrite Hst. unfold process. cbn [pasting sb_pasteBuffer sb_buffer process_loop sb_pasteMode sb_pending app]. by destruct chunk.
    + unfold paste_state. rewrite (start_strip _ _ Hr Hs). unfold process. cbn [sb_pasteBuffer sb_buffer process_loop sb_pasteMode sb_pending app].
      rewrite Hc. assert (Hi : index_of BRACKETED_PASTE_START (BRACKETED_PASTE_START ++ c) = Some 0%nat).
      { destruct c; reflexivity. }
      rewrite Hi, take_0. cbn [Nat.add]. rewrite drop_app_length. destruct chunk as [|u chunk]; [done|].
      change (extractCompleteSequences []) with (@nil jstring, @nil Z). cbn [fst emit_all].
      destruct (index_of BRACKETED_PASTE_END c) as [i|]; [|done]. destruct (drop _ c); [done|]. by destruct (process_loop _ _ _ _).
  - assert (Hst : paste_state t = {| sb_buffer := t; sb_timer := timer_for options t; sb_pasteMode := false; sb_pasteBuffer := []; sb_pending := None |}).
    { unfold paste_state. rewrite (start_strip t (chunk ++ r)); [done|by destruct chunk|]. by rewrite app_assoc. }
    destruct (start_prefix_waits _ _ Hs Hr) as [He Hi]. rewrite Hst, process_text; [|done|done|cbn [sb_buffer]; by destruct t, chunk|done].
    cbn [sb_buffer sb_pending]. unfold after_text, paste_result, paste_state. rewrite He, (start_strip _ _ Hr Hs), bool_decide_false; [done|].
    intros Heq. apply (f_equal length) in Hs. rewrite length_app in Hs. unfold paste_text in Heq. apply (f_equal length) in Heq.
    rewrite !length_app in Heq. destruct r; [done|]. cbn in *. rewrite length_app in Hs. lia.
Qed.

Lemma chunks_paste chunks : Forall (fun c => c <> []) chunks -> forall rest, mjoin chunks ++ rest = paste_text content ->
  process_all options empty_buffer chunks = if bool_decide (chunks = []) then (empty_buffer, []) else paste_result content (mjoin chunks).
Proof.
  induction chunks as [|c chunks IH] using rev_ind; intros Hne rest Hrest; [done|]. apply Forall_app in Hne as [Hne Hc].
  apply Forall_cons in Hc as [Hc _]. rewrite join_app in *. cbn [mjoin list_join] in *. rewrite app_nil_r, <- app_assoc in *.
  rewrite process_all_snoc, (IH Hne (c ++ rest) Hrest). rewrite (bool_decide_false (chunks ++ [c] = [])) by by destruct chunks.
  assert (Hstate : (if bool_decide (chunks = []) then (empty_buffer, []) else paste_result content (mjoin chunks)) = (paste_state (mjoin chunks), [])).
  { case_bool_decide as Hch; [by subst|]. unfold paste_result. rewrite bool_decide_false; [done|]. intros Heq. rewrite Heq in Hrest.
    rewrite <- (app_nil_r (paste_text content)) in Hrest at 2. apply app_inv_head in Hrest. by destruct c. }
  rewrite Hstate. cbn [fst snd app]. rewrite (process_paste _ _ _ Hrest Hc). by destruct (paste_result content (mjoin chunks ++ c)).
Qed.
End Content.
End Paste.

(** ** Theorems *)

(** C24: input without pastes is read the same in whatever chunks it arrives:
    events and state are those of the whole text at once, as long as no chunk
    ends with two ESC that the next one continues with the start of a sequence.
    The text is split without loss into single characters and escape sequences
    that are complete at their end and not before, and what is incomplete waits
    in the buffer. *)
Theorem stdin_chunking options chunks : chunks <> [] -> Forall (fun c => c <> []) chunks ->
  index_of BRACKETED_PASTE_START (mjoin chunks) = None ->
  (forall pre post, chunks = pre ++ post -> ~ bad_cut (mjoin pre) (mjoin post)) ->
  process_all options empty_buffer chunks = process options empty_buffer (mjoin chunks) /\
  exists sequences, Forall token sequences /\
    mjoin sequences ++ sb_buffer (process_all options empty_buffer chunks).1 = mjoin chunks /\
    (process_all options empty_buffer chunks).2 = (emit_all None sequences).2.
Proof.
  intros Hch Hne Hi Hcut. rewrite (chunks_text options chunks Hne Hi Hcut). split.
  - rewrite process_text; try done. cbn [sb_buffer empty_buffer app]. destruct chunks as [|[|u c] chunks]; try done. by apply Forall_cons in Hne as [? _].
  - exists (extractCompleteSequences (mjoin chunks)).1. split; [apply extract_tokens|]. pose proof (extract_lossless (mjoin chunks)) as Hl.
    unfold after_text. by destruct (extractCompleteSequences (mjoin chunks)).
Qed.

Lemma stdin_chunking_witness :
  let chunks := [[65; ESC]; [91; 49]; [59; 53; 65; 66]] in
  process_all default_options empty_buffer chunks = process default_options empty_buffer (mjoin chunks) /\
  exists sequences, Forall token sequences /\
    mjoin sequences ++ sb_buffer (process_all default_options empty_buffer chunks).1 = mjoin chunks /\
    (process_all default_options empty_buffer chunks).2 = (emit_all None sequences).2.
Proof.
  apply (stdin_chunking default_options [[65; ESC]; [91; 49]; [59; 53; 65; 66]]).
  - discriminate.
  - repeat constructor; discriminate.
  - vm_compute. reflexivity.
  - intros pre post Heq [[x Hx] _]. assert (Hin : mjoin pre `prefix_of` [65; ESC; 91; 49; 59; 53; 65; 66]).
    { exists (mjoin post). rewrite <- join_app, <- Heq. reflexivity. }
    rewrite Hx in Hin. destruct Hin as [k Hk]. rewrite <- app_assoc in Hk. unfold ESC in Hk.
    do 8 (destruct x as [|? x]; cbn in Hk; [discriminate Hk|injection Hk as _ Hk]). destruct x; discriminate Hk.
Defined.

(** a bracketed paste that arrives in any chunks, cut anywhere, the markers
    included, is delivered as one event with its exact content, and leaves the
    buffer empty. *)
Theorem stdin_paste options content chunks :
  index_of BRACKETED_PASTE_END (content ++ BRACKETED_PASTE_END) = Some (length content) ->
  Forall (fun c => c <> []) chunks -> mjoin chunks = paste_text content ->
  process_all options empty_buffer chunks = (empty_buffer, [Ev_paste content]).
Proof.
  intros Hc Hne Htext. rewrite (chunks_paste options content Hc chunks Hne []) by by rewrite app_nil_r.
  rewrite bool_decide_false by by intros ->. unfold paste_result. by rewrite Htext, bool_decide_true.
Qed.

Lemma stdin_paste_witness :
  process_all default_options empty_buffer [[ESC; 91]; [50; 48; 48; 126; 65]; [ESC; ESC; 91; 50]; [48; 49; 126]] = (empty_buffer, [Ev_paste [65; ESC]]).
Proof.
  apply (stdin_paste default_options [65; ESC]).
  - vm_compute. reflexivity.
  - repeat constructor; discriminate.
  - vm_compute. reflexivity.
Defined.

(** ** At the edges *)

(** Two ESC at the end of a chunk are taken as a key even when the next chunk
    makes the second one the start of a sequence, which then arrives as text. *)
Example split_after_escape :
  process default_options empty_buffer [ESC; ESC; 91; 65] = (empty_buffer, [Ev_data [ESC]; Ev_data [ESC; 91; 65]]) /\
  process_all default_options empty_buffer [[ESC; ESC]; [91; 65]] = (empty_buffer, [Ev_data [ESC; ESC]; Ev_data [91]; Ev_data [65]]).
Proof. split; vm_compute; reflexivity. Qed.

(** An incomplete sequence before a paste is dropped: the Escape key pressed just
    before pasting is lost. *)
Example escape_before_paste_lost :
  process_all default_options empty_buffer [[ESC]; paste_text [65]] = (empty_buffer, [Ev_paste [65]]).
Proof. vm_compute. reflexivity. Qed.
