(* ===== verification/LlmMessages.v ===== *)
(** * Provider messages of the coding agent

    packages/coding-agent/src/core/messages.ts: custom messages follow a policy
    of their type, and those that arrive between a tool call and its results are
    held back, so that results stay next to their call. *)

From stdpp Require Import base list strings pretty sorting.
From Stdlib Require Import ZArith Lia.
From S2P Require Import Prelude SessionTypes SessionContext Numbers.

Open Scope Z_scope.

Record CustomTypePolicy := {
  ctp_exclude : bool;
  ctp_assistant : bool;
  ctp_excludeFromCompaction : bool;
  ctp_renderContent : option (CustomMessage -> option UserContent) }.

Definition DEFAULT_CUSTOM_TYPE_POLICY : CustomTypePolicy :=
  {| ctp_exclude := false; ctp_assistant := false; ctp_excludeFromCompaction := false; ctp_renderContent := None |}.

Abbreviation CustomTypeResolver := (option (jstring -> option CustomTypePolicy)).

(** A custom message in the role of the assistant has a content and a time and
    nothing else of an answer. *)
Inductive LlmMessage := LM_message (m : Message) | LM_assistant (content : list UserBlock) (timestamp : Z).

Definition hasToolCallBlocks (m : AgentMessage) : bool :=
  match m with
  | AM_message (M_assistant a) => existsb (fun b => match b with AB_toolCall _ => true | _ => false end) (asst_content a)
  | _ => false
  end.

Definition content_blocks (c : UserContent) : list UserBlock := match c with UC_string s => [text_block s] | UC_blocks l => l end.

(** [timestamp] and [summaryToUserMessage] of session-protocol/src/converters.ts. *)
Definition timestamp_error : jstring := js "Protocol timestamps must be non-negative integers".

Definition summaryToUserMessage (prefix suffix summary : jstring) (timestamp : Z) : Result jstring LlmMessage :=
  if negb (safe timestamp) || (timestamp <? 0) then Err timestamp_error
  else Ok (LM_message (user_text [text_block (prefix ++ summary ++ suffix)] timestamp)).

Section Convert.
Context (resolveCustomType : CustomTypeResolver) (forSummarization : bool).

Definition policy_of (customType : jstring) : CustomTypePolicy :=
  default DEFAULT_CUSTOM_TYPE_POLICY (resolveCustomType ≫= fun resolve => resolve customType).

(** The [switch]: [Ok None] continues with the next message. *)
Definition convert_message (m : AgentMessage) : Result jstring (option LlmMessage) :=
  match m with
  | AM_bashExecution b =>
      if default false (bash_excludeFromContext b) then Ok None
      else Ok (Some (LM_message (user_text [text_block (bashExecutionToText b)] (bash_timestamp b))))
  | AM_custom c =>
      let policy := policy_of (cmsg_customType c) in
      if ctp_exclude policy then Ok None
      else if forSummarization && ctp_excludeFromCompaction policy then Ok None
      else
        let content := content_blocks (cmsg_content c) in
        let content := match ctp_renderContent policy with
                       | Some render => match render c with Some rendered => content_blocks rendered | None => content end
                       | None => content
                       end in
        Ok (Some (if ctp_assistant policy then LM_assistant content (cmsg_timestamp c)
                  else LM_message (user_text content (cmsg_timestamp c))))
  | AM_branchSummary b =>
      match summaryToUserMessage BRANCH_SUMMARY_PREFIX BRANCH_SUMMARY_SUFFIX (bsum_summary b) (bsum_timestamp b) with
      | Ok m => Ok (Some m) | Err e => Err e
      end
  | AM_compactionSummary c =>
      match summaryToUserMessage COMPACTION_SUMMARY_PREFIX COMPACTION_SUMMARY_SUFFIX (csum_summary c) (csum_timestamp c) with
      | Ok m => Ok (Some m) | Err e => Err e
      end
  | AM_message m => Ok (Some (LM_message m))
  end.

Record ConvertState := {
  cv_out : list LlmMessage;
  cv_sourceIndices : list nat;
  cv_held : list LlmMessage;
  cv_heldIndices : list nat;
  cv_pendingToolCall : bool }.

Definition flush_held (s : ConvertState) : ConvertState :=
  {| cv_out := cv_out s ++ cv_held s; cv_sourceIndices := cv_sourceIndices s ++ cv_heldIndices s; cv_held := []; cv_heldIndices := [];
     cv_pendingToolCall := false |}.

Definition push_out (converted : LlmMessage) (sourceIndex : nat) (pending : bool) (s : ConvertState) : ConvertState :=
  {| cv_out := cv_out s ++ [converted]; cv_sourceIndices := cv_sourceIndices s ++ [sourceIndex]; cv_held := cv_held s;
     cv_heldIndices := cv_heldIndices s; cv_pendingToolCall := pending |}.

Definition hold (converted : LlmMessage) (sourceIndex : nat) (s : ConvertState) : ConvertState :=
  {| cv_out := cv_out s; cv_sourceIndices := cv_sourceIndices s; cv_held := cv_held s ++ [converted];
     cv_heldIndices := cv_heldIndices s ++ [sourceIndex]; cv_pendingToolCall := cv_pendingToolCall s |}.

Definition convert_step (s : ConvertState) (sourceIndex : nat) (m : AgentMessage) : Result jstring ConvertState :=
  match convert_message m with
  | Err e => Err e
  | Ok None => Ok s
  | Ok (Some converted) =>
      Ok match m with
         | AM_message (M_assistant _) => push_out converted sourceIndex (hasToolCallBlocks m) (flush_held s)
         | AM_message (M_toolResult _) => push_out converted sourceIndex (cv_pendingToolCall s) s
         | AM_custom _ =>
             if cv_pendingToolCall s then hold converted sourceIndex s else push_out converted sourceIndex false (flush_held s)
         | _ => push_out converted sourceIndex false (flush_held s)
         end
  end.

Fixpoint convert_loop (s : ConvertState) (sourceIndex : nat) (messages : list AgentMessage) : Result jstring ConvertState :=
  match messages with
  | [] => Ok s
  | m :: rest => match convert_step s sourceIndex m with Ok s => convert_loop s (S sourceIndex) rest | Err e => Err e end
  end.

(** The messages, and what is pushed to [sourceIndices]. *)
Definition convertToLlm (messages : list AgentMessage) : Result jstring (list LlmMessage * list nat) :=
  match convert_loop {| cv_out := []; cv_sourceIndices := []; cv_held := []; cv_heldIndices := []; cv_pendingToolCall := false |} 0 messages with
  | Ok s => let s := flush_held s in Ok (cv_out s, cv_sourceIndices s)
  | Err e => Err e
  end.

(** ** The order of the output *)

Definition is_custom (m : AgentMessage) : bool := match m with AM_custom _ => true | _ => false end.
Definition is_result (m : AgentMessage) : bool := match m with AM_message (M_toolResult _) => true | _ => false end.

(** The messages that are sent: all but commands the user kept out of the context
    and custom messages whose policy excludes them. *)
Definition sent (m : AgentMessage) : bool :=
  match m with
  | AM_bashExecution b => negb (bool_decide (bash_excludeFromContext b = Some true))
  | AM_custom c => negb (ctp_exclude (policy_of (cmsg_customType c))) && negb (forSummarization && ctp_excludeFromCompaction (policy_of (cmsg_customType c)))
  | _ => true
  end.

Lemma sent_converted m x : convert_message m = Ok x -> sent m = bool_decide (is_Some x).
Proof.
  destruct m as [m|b|c|b|c]; cbn.
  - intros [= <-]. done.
  - destruct (bash_excludeFromContext b) as [[]|]; cbn; by intros [= <-].
  - destruct (ctp_exclude _); cbn; [by intros [= <-]|]. destruct (forSummarization && _); cbn; [by intros [= <-]|]. by intros [= <-].
  - unfold summaryToUserMessage. destruct (_ || _); [done|]. by intros [= <-].
  - unfold summaryToUserMessage. destruct (_ || _); [done|]. by intros [= <-].
Qed.

(** The positions of the messages that satisfy [P], in order. *)
Fixpoint positions (P : AgentMessage -> bool) (from : nat) (l : list AgentMessage) : list nat :=
  match l with
  | [] => []
  | m :: rest => (if P m then [from] else []) ++ positions P (S from) rest
  end.

Lemma positions_snoc P from l m : positions P from (l ++ [m]) = positions P from l ++ (if P m then [from + length l]%nat else []).
Proof.
  revert from. induction l as [|x l IH]; intros from; cbn [app positions length]; [rewrite Nat.add_0_r; by rewrite app_nil_r|].
  rewrite IH, <- app_assoc. by replace (S from + length l)%nat with (from + S (length l))%nat by lia.
Qed.

(** An output message is the conversion of the message at its index. *)
Definition aligned (messages : list AgentMessage) (out : list LlmMessage) (indices : list nat) : Prop :=
  Forall2 (fun c i => exists m, messages !! i = Some m /\ convert_message m = Ok (Some c)) out indices.

Definition at_index (messages : list AgentMessage) (P : AgentMessage -> bool) (i : nat) : bool :=
  match messages !! i with Some m => P m | None => false end.

Record loop_inv (messages : list AgentMessage) (n : nat) (s : ConvertState) : Prop := {
  inv_out : aligned messages (cv_out s) (cv_sourceIndices s);
  inv_held : aligned messages (cv_held s) (cv_heldIndices s);
  inv_plain : List.filter (at_index messages (fun m => negb (is_custom m))) (cv_sourceIndices s) =
    positions (fun m => sent m && negb (is_custom m)) 0 (take n messages);
  inv_custom : List.filter (at_index messages is_custom) (cv_sourceIndices s) ++ cv_heldIndices s =
    positions (fun m => sent m && is_custom m) 0 (take n messages);
  inv_held_custom : Forall (fun i => at_index messages is_custom i = true) (cv_heldIndices s) }.

(** ** The loop keeps the invariant *)

Section Loop.
Context (messages : list AgentMessage).

Abbreviation plain := (at_index messages (fun m => negb (is_custom m))).
Abbreviation custom := (at_index messages is_custom).

Lemma filter_customs js : Forall (fun i => custom i = true) js -> List.filter plain js = [] /\ List.filter custom js = js.
Proof.
  induction 1 as [|i js Hi _ [IH1 IH2]]; [done|]. cbn [List.filter]. rewrite Hi, IH2. unfold at_index in *. destruct (messages !! i); [|done].
  rewrite Hi. by rewrite IH1.
Qed.

Lemma aligned_snoc out l c n m : aligned messages out l -> messages !! n = Some m -> convert_message m = Ok (Some c) ->
  aligned messages (out ++ [c]) (l ++ [n]).
Proof. intros Ha Hm Hc. apply Forall2_app; [done|]. constructor; [by exists m|constructor]. Qed.

Section Step.
Context (n : nat) (s : ConvertState) (m : AgentMessage) (Hinv : loop_inv messages n s) (Hm : messages !! n = Some m).

Lemma take_next : take (S n) messages = take n messages ++ [m].
Proof. by apply take_S_r. Qed.

Lemma next_position : (0 + length (take n messages))%nat = n.
Proof. rewrite length_take. apply lookup_lt_Some in Hm. lia. Qed.

Lemma plain_next : List.filter plain [n] = if is_custom m then [] else [n].
Proof. cbn. unfold at_index. rewrite Hm. by destruct (is_custom m). Qed.

Lemma custom_next : List.filter custom [n] = if is_custom m then [n] else [].
Proof. cbn. unfold at_index. by rewrite Hm. Qed.

Lemma skip_inv : convert_message m = Ok None -> loop_inv messages (S n) s.
Proof.
  intros Hi%sent_converted. destruct Hinv. split; try done; rewrite ?take_next, ?positions_snoc, ?Hi; by rewrite ?app_nil_r.
Qed.

Lemma flush_inv : loop_inv messages n (flush_held s).
Proof.
  destruct Hinv as [Ho Hh Hpl Hcu Hhc]. destruct (filter_customs _ Hhc) as [Hf1 Hf2].
  split; cbn [flush_held cv_out cv_sourceIndices cv_held cv_heldIndices]; rewrite ?List.filter_app, ?Hf1, ?Hf2, ?app_nil_r; [by apply Forall2_app|constructor|done|done|constructor].
Qed.

Lemma push_inv c pending : convert_message m = Ok (Some c) -> (is_custom m = true -> cv_heldIndices s = []) ->
  loop_inv messages (S n) (push_out c n pending s).
Proof.
  intros Hc Hheld. pose proof (sent_converted m _ Hc) as Hi. destruct Hinv as [Ho Hh Hpl Hcu Hhc].
  split; cbn [push_out cv_out cv_sourceIndices cv_held cv_heldIndices];
    rewrite ?take_next, ?positions_snoc, ?next_position, ?Hi, ?List.filter_app, ?plain_next, ?custom_next; cbn [andb]; try done.
  - by apply (aligned_snoc _ _ _ _ m).
  - rewrite Hpl. by destruct (is_custom m).
  - destruct (is_custom m); rewrite <- Hcu; [by rewrite Hheld, !app_nil_r|by rewrite !app_nil_r].
Qed.

Lemma hold_inv c : convert_message m = Ok (Some c) -> is_custom m = true -> loop_inv messages (S n) (hold c n s).
Proof.
  intros Hc Hcm. pose proof (sent_converted m _ Hc) as Hi. destruct Hinv as [Ho Hh Hpl Hcu Hhc].
  split; cbn [hold cv_out cv_sourceIndices cv_held cv_heldIndices];
    rewrite ?take_next, ?positions_snoc, ?next_position, ?Hi, ?Hcm; cbn [andb negb]; rewrite ?app_nil_r; try done.
  - by apply (aligned_snoc _ _ _ _ m).
  - by rewrite <- Hcu, app_assoc.
  - apply Forall_app. split; [done|]. constructor; [|constructor]. unfold at_index. by rewrite Hm.
Qed.
End Step.

Lemma step_inv n s m s' : loop_inv messages n s -> messages !! n = Some m -> convert_step s n m = Ok s' -> loop_inv messages (S n) s'.
Proof.
  intros Hinv Hm. unfold convert_step. destruct (convert_message m) as [[c|]|e] eqn:Hc; [|intros [= <-]; by eapply skip_inv|done]. intros [= <-].
  pose proof (flush_inv n s Hinv) as Hf. assert (Hflush : forall pending, loop_inv messages (S n) (push_out c n pending (flush_held s))) by (intros; by eapply push_inv).
  destruct m as [[]| | | |]; try apply Hflush; [by eapply push_inv|]. destruct (cv_pendingToolCall s); [by eapply hold_inv|apply Hflush].
Qed.

Lemma loop_keeps_inv rest : forall n s s', loop_inv messages n s -> drop n messages = rest -> convert_loop s n rest = Ok s' ->
  loop_inv messages (length messages) s'.
Proof.
  induction rest as [|m rest IH]; intros n s s' Hinv Hd; cbn [convert_loop].
  - intros [= <-]. assert (Hn : (length messages <= n)%nat) by (apply (f_equal length) in Hd; rewrite length_drop in Hd; cbn in Hd; lia).
    assert (Ht : take n messages = take (length messages) messages) by by rewrite !take_ge. destruct Hinv. rewrite Ht in *. by split.
  - destruct (convert_step s n m) as [s1|e] eqn:Es; [|done]. assert (Hm : messages !! n = Some m).
    { rewrite <- (Nat.add_0_r n), <- lookup_drop, Hd. done. }
    apply IH; [by eapply (step_inv n s m)|]. rewrite <- (Nat.add_1_r n), <- drop_drop, Hd. done.
Qed.
End Loop.

(** ** Results stay with their answer *)

Lemma loop_app l1 : forall s n l2, convert_loop s n (l1 ++ l2) =
  match convert_loop s n l1 with Ok s => convert_loop s (n + length l1) l2 | Err e => Err e end.
Proof.
  induction l1 as [|m l1 IH]; intros s n l2; cbn [app convert_loop length]; [by rewrite Nat.add_0_r|].
  destruct (convert_step s n m) as [s1|e]; [|done]. rewrite IH. by rewrite Nat.add_succ_r.
Qed.

Lemma step_grows s n m s' : convert_step s n m = Ok s' -> cv_sourceIndices s `prefix_of` cv_sourceIndices s'.
Proof.
  unfold convert_step. destruct (convert_message m) as [[c|]|e]; [|by intros [= <-]|done]. intros [= <-].
  destruct m as [[]| | | |]; try destruct (cv_pendingToolCall s); cbn; rewrite <- ?app_assoc; first [done|by eexists].
Qed.

Lemma loop_grows l : forall s n s', convert_loop s n l = Ok s' -> cv_sourceIndices s `prefix_of` cv_sourceIndices s'.
Proof.
  induction l as [|m l IH]; intros s n s'; cbn [convert_loop]; [by intros [= <-]|]. destruct (convert_step s n m) as [s1|e] eqn:E; [|done].
  intros Hl. etrans; [by eapply step_grows|by eapply IH].
Qed.

(** While results are awaited they are sent at once and custom messages are held. *)
Lemma batch_held batch : forall s n s', cv_pendingToolCall s = true ->
  Forall (fun m => sent m = true -> is_custom m = true \/ is_result m = true) batch -> convert_loop s n batch = Ok s' ->
  cv_sourceIndices s' = cv_sourceIndices s ++ positions (fun m => sent m && is_result m) n batch /\
  cv_heldIndices s' = cv_heldIndices s ++ positions (fun m => sent m && is_custom m) n batch.
Proof.
  induction batch as [|m batch IH]; intros s n s' Hp Hb; cbn [convert_loop positions]; [intros [= <-]; by rewrite !app_nil_r|].
  apply Forall_cons in Hb as [Hm Hb]. destruct (convert_step s n m) as [s1|e] eqn:Es; [|done]. unfold convert_step in Es.
  destruct (convert_message m) as [[c|]|e] eqn:Hc; [|injection Es as <-; intros Hl; rewrite (sent_converted m _ Hc); by apply IH|done].
  pose proof (sent_converted m _ Hc) as Hi. specialize (Hm Hi). rewrite Hi. injection Es as <-.
  destruct m as [[]| | | |]; try (by destruct Hm); rewrite ?Hp; cbn [is_custom is_result andb app]; intros Hl; apply IH in Hl as [-> ->]; try done;
    cbn [push_out hold cv_sourceIndices cv_heldIndices]; by rewrite <- ?app_assoc.
Qed.

(** C23: the provider gets every message that is sent exactly once: the messages
    other than custom ones in their order, the custom ones in their order, each
    as the conversion of the message at its index.  Where only results and custom
    messages follow an answer with tool calls, up to the next message of another
    kind, these results come right after the answer and the custom messages right
    after the results.  (A message of the user ends that stretch: results after it
    are sent where they stand, behind custom messages that precede them.) *)
Theorem convertToLlm_order messages out indices : convertToLlm messages = Ok (out, indices) ->
  aligned messages out indices /\
  List.filter (at_index messages (fun m => negb (is_custom m))) indices = positions (fun m => sent m && negb (is_custom m)) 0 messages /\
  List.filter (at_index messages is_custom) indices = positions (fun m => sent m && is_custom m) 0 messages /\
  (forall before a call batch after, messages = before ++ AM_message (M_assistant a) :: batch ++ after -> AB_toolCall call ∈ asst_content a ->
    Forall (fun m => sent m = true -> is_custom m = true \/ is_result m = true) batch ->
    (forall m, head after = Some m -> sent m = true /\ is_custom m = false /\ is_result m = false) ->
    exists pre post, indices = pre ++ [length before] ++ positions (fun m => sent m && is_result m) (S (length before)) batch ++
      positions (fun m => sent m && is_custom m) (S (length before)) batch ++ post).
Proof.
  unfold convertToLlm. set (start := {| cv_out := [] |}). destruct (convert_loop start 0 messages) as [s|e] eqn:El; [|done]. intros [= <- <-].
  assert (Hinv : loop_inv messages (length messages) s) by (apply (loop_keeps_inv messages messages 0 start s); [by split; constructor|done|done]).
  apply flush_inv in Hinv as [Ho Hh Hpl Hcu Hhc]. rewrite take_ge in Hpl, Hcu by done. rewrite app_nil_r in Hcu.
  split; [done|]. split; [done|]. split; [done|]. clear Ho Hh Hpl Hcu Hhc.
  intros before a call batch after -> Hcall Hbatch Hafter. rewrite loop_app in El. destruct (convert_loop start 0 before) as [s1|e]; [|done].
  cbn [Nat.add convert_loop] in El. unfold convert_step at 1 in El. cbn [convert_message] in El.
  assert (Hasks : hasToolCallBlocks (AM_message (M_assistant a)) = true).
  { apply existsb_exists. exists (AB_toolCall call). split; [by apply list_elem_of_In|done]. }
  rewrite Hasks, loop_app in El. set (s2 := push_out _ _ true _) in El. destruct (convert_loop s2 _ batch) as [s3|e] eqn:Eb; [|done].
  apply batch_held in Eb as [Hsrc Hheld]; [|done|done]. exists (cv_sourceIndices (flush_held s1)).
  assert (Hflushed : cv_sourceIndices s3 ++ cv_heldIndices s3 `prefix_of` cv_sourceIndices s ++ cv_heldIndices s).
  { destruct after as [|m after]; cbn [convert_loop] in El; [by injection El as ->|]. destruct (Hafter m eq_refl) as (Hsent & Hnc & Hnr).
    destruct (convert_step s3 _ m) as [s4|e] eqn:Es; [|done]. apply loop_grows in El. etrans; [|etrans; [exact El|by eexists]].
    unfold convert_step in Es. destruct (convert_message m) as [[c|]|e] eqn:Hc; [|apply sent_converted in Hc; by rewrite Hc in Hsent|done].
    injection Es as <-. destruct m as [[]| | | |]; try done; by eexists. }
  destruct Hflushed as [post Hpost]. exists post. rewrite Hpost, Hsrc, Hheld. cbn. by rewrite <- !app_assoc.
Qed.
End Convert.

(** ** A concrete conversation *)

Definition ex_note : AgentMessage :=
  AM_custom {| cmsg_customType := js "note"; cmsg_content := UC_string (js "n"); cmsg_display := true; cmsg_details := None; cmsg_timestamp := 1 |}.

Definition ex_user (text : string) : AgentMessage := AM_message (user_text [text_block (js text)] 1).

Definition ex_summary (timestamp : Z) : AgentMessage := AM_branchSummary (createBranchSummaryMessage (js "s") (js "a") timestamp).

Definition ex_usage : Usage :=
  {| usage_input := nzero; usage_output := nzero; usage_cacheRead := nzero; usage_cacheWrite := nzero; usage_cacheWrite1h := None; usage_reasoning := None;
     usage_totalTokens := nzero; usage_cost := {| cost_input := nzero; cost_output := nzero; cost_cacheRead := nzero; cost_cacheWrite := nzero; cost_total := nzero |} |}.

Definition ex_call : AssistantMessage :=
  {| asst_content := [AB_toolCall {| toolCall_id := js "c"; toolCall_name := js "read"; toolCall_arguments := []; toolCall_thoughtSignature := None; toolCall_namespace := None |}];
     asst_api := js "api"; asst_provider := js "p"; asst_model := js "m"; asst_responseModel := None; asst_responseId := None; asst_diagnostics := None; asst_usage := ex_usage;
     asst_stopReason := SR_toolUse; asst_deferred := None; asst_errorMessage := None; asst_rawStopReason := None; asst_endTurn := None; asst_timestamp := 1 |}.

Definition ex_result : AgentMessage :=
  AM_message (M_toolResult {| tres_toolCallId := js "c"; tres_toolName := js "read"; tres_content := []; tres_details := None; tres_usage := None; tres_addedToolNames := None;
    tres_isError := false; tres_timestamp := 1 |}).

Definition ex_conversation : list AgentMessage := [ex_user "a"; AM_message (M_assistant ex_call); ex_note; ex_result; ex_user "b"].

(** A note between a call and its result is sent behind the result. *)
Lemma convertToLlm_order_witness : exists out, convertToLlm None false ex_conversation = Ok (out, [0; 1; 3; 2; 4]%nat) /\
  exists pre post, [0; 1; 3; 2; 4]%nat = pre ++ [1%nat] ++ [3%nat] ++ [2%nat] ++ post.
Proof.
  destruct (convertToLlm None false ex_conversation) as [[out indices]|e] eqn:E; [|vm_compute in E; discriminate]. exists out.
  assert (Hi : indices = [0; 1; 3; 2; 4]%nat) by (vm_compute in E; congruence). subst indices. split; [reflexivity|].
  apply (proj2 (proj2 (proj2 (convertToLlm_order None false _ out _ E))) [ex_user "a"] ex_call
    {| toolCall_id := js "c"; toolCall_name := js "read"; toolCall_arguments := []; toolCall_thoughtSignature := None; toolCall_namespace := None |} [ex_note; ex_result] [ex_user "b"]).
  - reflexivity.
  - constructor.
  - apply Forall_cons_2; [intros _; left; reflexivity|]. apply Forall_cons_2; [intros _; right; reflexivity|]. apply Forall_nil_2.
  - intros m [= <-]. repeat split.
Defined.

(** After a message of the user the result of the call is sent behind the note. *)
Example user_message_ends_stretch :
  rmap snd (convertToLlm None false [AM_message (M_assistant ex_call); ex_user "a"; ex_note; ex_result]) = Ok [0; 1; 2; 3]%nat.
Proof. vm_compute. reflexivity. Qed.

(** One summary with a time that is not a whole number of milliseconds after
    1970 makes every conversion fail. *)
Example summary_time_fails : convertToLlm None false [ex_user "a"; ex_summary (-1)] = Err timestamp_error.
Proof. vm_compute. reflexivity. Qed.
