(* ===== verification/MutationQueue.v ===== *)
(** * Serialized file mutations

    packages/agent/src/harness/tools/file-mutation-queue.ts (and its copy in
    packages/coding-agent/src/core/tools): mutations of one file run one after
    the other, in the order in which they were requested.

    A call is a task.  Registrations form one chain of promises, in the order of
    the calls; a registered task waits for the chained promise of the task before
    it in the queue of its key, runs, and releases its own.  The steps are the
    points at which a promise settles, taken in any order. *)

From stdpp Require Import base list strings pretty.
From Stdlib Require Import ZArith Lia.
From S2P Require Import Prelude SessionTypes SessionState SessionStorage Jsonl.

Inductive TaskPhase := Waiting | Running | Finished.

#[export] Instance task_phase_eq : EqDecision TaskPhase.
Proof. solve_decision. Defined.

(** [prev] is the task whose chained promise is [currentQueue]; [None] is a
    resolved promise. *)
Inductive QueueTask := QT_registering | QT_failed | QT_queued (phase : TaskPhase) (key : jstring) (prev : option nat).

#[export] Instance queue_task_eq : EqDecision QueueTask.
Proof. solve_decision. Defined.

(** [queues] maps a key to the task whose chained promise it holds. *)
Record MutationQueueState := { mq_tasks : list QueueTask; mq_queues : list (jstring * nat) }.

Definition empty_queues : MutationQueueState := {| mq_tasks := []; mq_queues := [] |}.

(** The key of a path, from the answers of the environment. *)
Definition getMutationQueueKey (absolutePath canonicalPath : Result FileError jstring) : Result FileError jstring :=
  match absolutePath with
  | Err e => Err e
  | Ok absolutePath =>
      match canonicalPath with
      | Ok canonicalPath => Ok canonicalPath
      | Err e => match fe_code e with FE_not_found | FE_not_supported => Ok absolutePath | _ => Err e end
      end
  end.

(** [chainedQueue] of a task has resolved: the promise it was chained to has, and
    the task has released the next one. *)
Fixpoint resolved (fuel : nat) (tasks : list QueueTask) (t : nat) : bool :=
  match fuel with
  | O => false
  | S fuel =>
      match tasks !! t with
      | Some (QT_queued Finished _ None) => true
      | Some (QT_queued Finished _ (Some p)) => resolved fuel tasks p
      | _ => false
      end
  end.

(** [currentQueue] has resolved. *)
Definition current_resolved (tasks : list QueueTask) (prev : option nat) : bool :=
  match prev with None => true | Some p => resolved (S p) tasks p end.

Inductive QueueStep :=
| Step_call
| Step_register (key : Result FileError jstring)
| Step_start (t : nat)
| Step_finish (t : nat).

(** The oldest call whose registration has not settled. *)
Definition next_registration (tasks : list QueueTask) : option nat :=
  fst <$> list_find (fun x => x = QT_registering) tasks.

(** One step; [None] when it cannot happen. *)
Definition queue_step (st : MutationQueueState) (step : QueueStep) : option MutationQueueState :=
  match step with
  | Step_call => Some {| mq_tasks := mq_tasks st ++ [QT_registering]; mq_queues := mq_queues st |}
  | Step_register key =>
      t ← next_registration (mq_tasks st);
      Some match key with
           | Err _ => {| mq_tasks := <[t := QT_failed]> (mq_tasks st); mq_queues := mq_queues st |}
           | Ok key =>
               {| mq_tasks := <[t := QT_queued Waiting key (map_get key (mq_queues st))]> (mq_tasks st);
                  mq_queues := map_set key t (mq_queues st) |}
           end
  | Step_start t =>
      match mq_tasks st !! t with
      | Some (QT_queued Waiting key prev) =>
          if current_resolved (mq_tasks st) prev
          then Some {| mq_tasks := <[t := QT_queued Running key prev]> (mq_tasks st); mq_queues := mq_queues st |} else None
      | _ => None
      end
  | Step_finish t =>
      match mq_tasks st !! t with
      | Some (QT_queued Running key prev) =>
          Some {| mq_tasks := <[t := QT_queued Finished key prev]> (mq_tasks st);
                  mq_queues := if bool_decide (map_get key (mq_queues st) = Some t) then map_delete key (mq_queues st) else mq_queues st |}
      | _ => None
      end
  end.

Inductive queue_reachable : MutationQueueState -> Prop :=
| reach_empty : queue_reachable empty_queues
| reach_step st step st' : queue_reachable st -> queue_step st step = Some st' -> queue_reachable st'.

(** ** The invariant *)

Record queue_inv (st : MutationQueueState) : Prop := {
  qi_map : map_wf (mq_queues st);
  qi_order : forall i j x, mq_tasks st !! i = Some QT_registering -> (i < j)%nat -> mq_tasks st !! j = Some x -> x = QT_registering;
  qi_prev : forall j k ph p, mq_tasks st !! j = Some (QT_queued ph k (Some p)) ->
    (p < j)%nat /\ (exists ph' pv, mq_tasks st !! p = Some (QT_queued ph' k pv)) /\
    forall i ph' pv, (p < i < j)%nat -> mq_tasks st !! i <> Some (QT_queued ph' k pv);
  qi_first : forall i j k ph ph' pv, mq_tasks st !! j = Some (QT_queued ph k None) -> (i < j)%nat ->
    mq_tasks st !! i = Some (QT_queued ph' k pv) -> ph' = Finished;
  qi_fifo : forall i j k ph ph' pv pv', mq_tasks st !! j = Some (QT_queued ph k pv) -> ph <> Waiting -> (i < j)%nat ->
    mq_tasks st !! i = Some (QT_queued ph' k pv') -> ph' = Finished;
  qi_queue : forall k t, map_get k (mq_queues st) = Some t ->
    (exists ph pv, mq_tasks st !! t = Some (QT_queued ph k pv) /\ ph <> Finished) /\
    forall i ph pv, (t < i)%nat -> mq_tasks st !! i <> Some (QT_queued ph k pv);
  qi_idle : forall k i ph pv, map_get k (mq_queues st) = None -> mq_tasks st !! i = Some (QT_queued ph k pv) -> ph = Finished }.

Section Invariant.
Context (st : MutationQueueState) (Hinv : queue_inv st).
Abbreviation tasks := (mq_tasks st).

(** A resolved chain means that the queue is finished up to its task. *)
Lemma resolved_finished fuel : forall t k ph pv, resolved fuel tasks t = true -> tasks !! t = Some (QT_queued ph k pv) ->
  forall i ph' pv', (i <= t)%nat -> tasks !! i = Some (QT_queued ph' k pv') -> ph' = Finished.
Proof.
  induction fuel as [|fuel IH]; intros t k ph pv Hr Ht i ph' pv' Hi Hti; [done|]. cbn [resolved] in Hr. rewrite Ht in Hr.
  destruct ph; try done. destruct (decide (i = t)) as [->|Hne]; [rewrite Ht in Hti; by injection Hti|]. destruct pv as [p|].
  - destruct (qi_prev st Hinv _ _ _ _ Ht) as (Hp & (ph2 & pv2 & Hp2) & Hbetween). destruct (decide (i <= p)%nat) as [Hip|Hip]; [by eapply IH|].
    exfalso. apply (Hbetween i ph' pv'); [lia|done].
  - eapply (qi_first st Hinv i t); [done|lia|done].
Qed.

Lemma finished_resolved fuel : forall t k ph pv, (t < fuel)%nat -> tasks !! t = Some (QT_queued ph k pv) ->
  (forall i ph' pv', (i <= t)%nat -> tasks !! i = Some (QT_queued ph' k pv') -> ph' = Finished) -> resolved fuel tasks t = true.
Proof.
  induction fuel as [|fuel IH]; intros t k ph pv Hf Ht Hall; [lia|]. cbn [resolved]. rewrite Ht. pose proof (Hall t ph pv (le_n t) Ht) as ->.
  destruct pv as [p|]; [|done]. destruct (qi_prev st Hinv _ _ _ _ Ht) as (Hp & (ph2 & pv2 & Hp2) & _).
  eapply IH; [lia|done|]. intros i ph' pv' Hi. apply Hall. lia.
Qed.

Lemma current_finished j k pv : tasks !! j = Some (QT_queued Waiting k pv) -> current_resolved tasks pv = true ->
  forall i ph' pv', (i < j)%nat -> tasks !! i = Some (QT_queued ph' k pv') -> ph' = Finished.
Proof.
  intros Hj Hc i ph' pv' Hi Hti. destruct pv as [p|]; [|by eapply (qi_first st Hinv i j)].
  destruct (qi_prev st Hinv _ _ _ _ Hj) as (Hp & (ph2 & pv2 & Hp2) & Hbetween). destruct (decide (i <= p)%nat) as [Hip|Hip].
  - by eapply (resolved_finished (S p) p).
  - exfalso. apply (Hbetween i ph' pv'); [lia|done].
Qed.

(** The registration that settles next: no earlier call is pending, all later
    ones are. *)
Lemma next_registration_spec t : next_registration tasks = Some t ->
  tasks !! t = Some QT_registering /\ (forall i, (i < t)%nat -> tasks !! i <> Some QT_registering) /\
  forall i x, tasks !! i = Some x -> x <> QT_registering -> (i < t)%nat.
Proof.
  unfold next_registration. intros ([i y] & Hf & ->)%fmap_Some. cbn. apply list_find_Some in Hf as (Hi & -> & Hbefore).
  split; [done|]. split; [intros j Hj Hr; by eapply Hbefore|]. intros j x Hj Hx. destruct (decide (j < i)%nat) as [|Hge]; [done|]. exfalso. apply Hx. destruct (decide (i = j)) as [->|]; [congruence|].
  eapply (qi_order st Hinv i j); [done|lia|done].
Qed.
End Invariant.

(** ** Steps *)

Lemma call_queued tasks i ph k pv : (tasks ++ [QT_registering]) !! i = Some (QT_queued ph k pv) <-> tasks !! i = Some (QT_queued ph k pv).
Proof.
  rewrite lookup_app_Some. split; [intros [?|[_ Hi]]; [done|]|by left]. by apply list_lookup_singleton_Some in Hi as [_ ?].
Qed.

Lemma call_inv st st' : queue_inv st -> queue_step st Step_call = Some st' -> queue_inv st'.
Proof.
  intros [Hm Ho Hp Hf Hff Hq Hi] [= <-]. split; cbn [mq_tasks mq_queues]; try setoid_rewrite call_queued; try done.
  intros i j x. rewrite !lookup_app_Some. intros [Hi'|[Hlen Hi']] Hij [Hj|[Hlen' Hj]].
  - by eapply Ho.
  - by apply list_lookup_singleton_Some in Hj as [_ <-].
  - apply lookup_lt_Some in Hj. lia.
  - by apply list_lookup_singleton_Some in Hj as [_ <-].
Qed.

Lemma fail_queued (tasks : list QueueTask) t i ph k pv : tasks !! t = Some QT_registering ->
  <[t := QT_failed]> tasks !! i = Some (QT_queued ph k pv) <-> tasks !! i = Some (QT_queued ph k pv).
Proof. intros Ht. rewrite list_lookup_insert_Some. naive_solver. Qed.

(** Settling the next registration keeps the later ones pending. *)
Lemma settle_order (tasks : list QueueTask) t x : (forall i, (i < t)%nat -> tasks !! i <> Some QT_registering) -> x <> QT_registering ->
  (forall i j y, tasks !! i = Some QT_registering -> (i < j)%nat -> tasks !! j = Some y -> y = QT_registering) ->
  forall i j y, <[t := x]> tasks !! i = Some QT_registering -> (i < j)%nat -> <[t := x]> tasks !! j = Some y -> y = QT_registering.
Proof.
  intros Hbefore Hx Ho i j y Hi Hij Hj. apply list_lookup_insert_Some in Hi as [(-> & -> & _)|[Hne Hi]]; [done|].
  apply list_lookup_insert_Some in Hj as [(-> & <- & Hlt)|[Hne' Hj]]; [|by eapply Ho]. by destruct (Hbefore i Hij).
Qed.

Lemma fail_inv st e st' : queue_inv st -> queue_step st (Step_register (Err e)) = Some st' -> queue_inv st'.
Proof.
  intros Hinv Hs. cbn in Hs. destruct (next_registration (mq_tasks st)) as [t|] eqn:En; [|done]. injection Hs as <-.
  apply (next_registration_spec st Hinv) in En as (Ht & Hbefore & _). destruct Hinv as [Hm Ho Hp Hf Hff Hq Hi].
  pose proof (fun i ph k pv => fail_queued (mq_tasks st) t i ph k pv Ht) as Hfq.
  split; cbn [mq_tasks mq_queues]; try setoid_rewrite Hfq; try done. by apply settle_order.
Qed.

Lemma register_queued (tasks : list QueueTask) t key pv i ph k pv' : tasks !! t = Some QT_registering ->
  <[t := QT_queued Waiting key pv]> tasks !! i = Some (QT_queued ph k pv') <->
  tasks !! i = Some (QT_queued ph k pv') \/ (i = t /\ ph = Waiting /\ k = key /\ pv' = pv).
Proof.
  intros Ht. rewrite list_lookup_insert_Some. pose proof (lookup_lt_Some _ _ _ Ht). split.
  - intros [(-> & [= <- <- <-] & _)|[_ Hi]]; auto.
  - intros [Hi|(-> & -> & -> & ->)]; [right; split; [|done]; by intros ->; rewrite Ht in Hi|by left].
Qed.

Lemma register_inv st key st' : queue_inv st -> queue_step st (Step_register (Ok key)) = Some st' -> queue_inv st'.
Proof.
  intros Hinv Hs. cbn in Hs. destruct (next_registration (mq_tasks st)) as [t|] eqn:En; [|done]. injection Hs as <-.
  apply (next_registration_spec st Hinv) in En as (Ht & Hbefore & Hlater). destruct Hinv as [Hm Ho Hp Hf Hff Hq Hi].
  assert (Hold : forall i ph k pv, mq_tasks st !! i = Some (QT_queued ph k pv) -> (i < t)%nat) by (intros; by eapply Hlater).
  split; cbn [mq_tasks mq_queues].
  - by apply map_set_wf.
  - by apply settle_order.
  - intros j k ph p. rewrite register_queued by done. intros [Hj|(-> & -> & -> & Hg)].
    + destruct (Hp _ _ _ _ Hj) as (Hpj & (ph2 & pv2 & Hp2) & Hbetween). split; [done|]. split; [exists ph2, pv2; rewrite register_queued by done; by left|].
      intros i ph' pv Hij. rewrite register_queued by done. intros [Hti|(-> & _)]; [by eapply Hbetween|]. pose proof (Hold _ _ _ _ Hj). lia.
    + destruct (Hq _ _ (eq_sym Hg)) as ((ph2 & pv2 & Hp2 & _) & Hafter). split; [by eapply Hold|].
      split; [exists ph2, pv2; rewrite register_queued by done; by left|]. intros i ph' pv Hij. rewrite register_queued by done.
      intros [Hti|(-> & _)]; [|lia]. eapply (Hafter i); [lia|done].
  - intros i j k ph ph' pv. rewrite !register_queued by done. intros [Hj|(-> & -> & -> & Hg)] Hij [Hti|(Hit & _ & _ & _)]; try lia.
    + by eapply Hf.
    + pose proof (Hold _ _ _ _ Hj). lia.
    + by eapply Hi.
  - intros i j k ph ph' pv pv'. rewrite !register_queued by done. intros [Hj|(-> & -> & -> & Hg)] Hph Hij [Hti|(Hit & _ & _ & _)]; try done.
    + by eapply (Hff i j).
    + pose proof (Hold _ _ _ _ Hj). lia.
  - intros k t'. rewrite map_get_set. case_decide as Hk.
    + intros [= <-]. subst k. split; [exists Waiting, (map_get key (mq_queues st)); split; [rewrite register_queued by done; by right|done]|].
      intros i ph pv Hti. rewrite register_queued by done. intros [Hj|(-> & _)]; [pose proof (Hold _ _ _ _ Hj); lia|lia].
    + intros Hg. destruct (Hq _ _ Hg) as ((ph2 & pv2 & Hp2 & Hnf) & Hafter). split; [exists ph2, pv2; split; [rewrite register_queued by done; by left|done]|].
      intros i ph pv Hti. rewrite register_queued by done. intros [Hj|(-> & _ & Heq & _)]; [by eapply Hafter|done].
  - intros k i ph pv. rewrite map_get_set. case_decide as Hk; [done|]. intros Hg. rewrite register_queued by done.
    intros [Hj|(-> & _ & Heq & _)]; [by eapply Hi|done].
Qed.

(** A task of the queue changes its phase. *)
Lemma phase_queued (tasks : list QueueTask) t key prev old ph i ph' k pv' : tasks !! t = Some (QT_queued old key prev) ->
  <[t := QT_queued ph key prev]> tasks !! i = Some (QT_queued ph' k pv') <->
  (i = t /\ ph' = ph /\ k = key /\ pv' = prev) \/ (i <> t /\ tasks !! i = Some (QT_queued ph' k pv')).
Proof.
  intros Ht. rewrite list_lookup_insert_Some. pose proof (lookup_lt_Some _ _ _ Ht). split.
  - intros [(-> & [= <- <- <-] & _)|[? Hi]]; [by left|right; by split].
  - intros [(-> & -> & -> & ->)|[? Hi]]; [by left|right; by split].
Qed.

(** What every change of phase keeps. *)
Lemma phase_order (tasks : list QueueTask) t key prev old ph : tasks !! t = Some (QT_queued old key prev) ->
  (forall i j y, tasks !! i = Some QT_registering -> (i < j)%nat -> tasks !! j = Some y -> y = QT_registering) ->
  forall i j y, <[t := QT_queued ph key prev]> tasks !! i = Some QT_registering -> (i < j)%nat ->
    <[t := QT_queued ph key prev]> tasks !! j = Some y -> y = QT_registering.
Proof.
  intros Ht Ho i j y Hi Hij Hj. apply list_lookup_insert_Some in Hi as [(-> & [=] & _)|[Hne Hi]].
  apply list_lookup_insert_Some in Hj as [(-> & <- & Hlt)|[Hne' Hj]]; [|by eapply Ho]. by pose proof (Ho _ _ _ Hi Hij Ht).
Qed.

Lemma phase_prev (tasks : list QueueTask) t key prev old ph : tasks !! t = Some (QT_queued old key prev) ->
  (forall j k ph p, tasks !! j = Some (QT_queued ph k (Some p)) -> (p < j)%nat /\ (exists ph' pv, tasks !! p = Some (QT_queued ph' k pv)) /\
    forall i ph' pv, (p < i < j)%nat -> tasks !! i <> Some (QT_queued ph' k pv)) ->
  let tasks' := <[t := QT_queued ph key prev]> tasks in
  forall j k ph p, tasks' !! j = Some (QT_queued ph k (Some p)) -> (p < j)%nat /\ (exists ph' pv, tasks' !! p = Some (QT_queued ph' k pv)) /\
    forall i ph' pv, (p < i < j)%nat -> tasks' !! i <> Some (QT_queued ph' k pv).
Proof.
  intros Ht Hp tasks' j k ph1 p Hj. assert (Hjold : exists ph0, tasks !! j = Some (QT_queued ph0 k (Some p))).
  { apply (phase_queued tasks t key prev old) in Hj as [(-> & _ & -> & ->)|[_ Hj]]; eauto. }
  destruct Hjold as [ph0 Hjold]. destruct (Hp _ _ _ _ Hjold) as (Hpj & (ph2 & pv2 & Hp2) & Hbetween). split; [done|]. split.
  - destruct (decide (p = t)) as [->|Hne].
    + rewrite Ht in Hp2. injection Hp2 as -> -> ->. exists ph, pv2. apply (phase_queued tasks t k pv2 ph2); [done|by left].
    + exists ph2, pv2. apply (phase_queued tasks t key prev old); [done|by right].
  - intros i ph' pv Hi Hti. apply (phase_queued tasks t key prev old) in Hti as [(-> & _ & -> & ->)|[_ Hti]]; [|by eapply Hbetween|done].
    by apply (Hbetween t old prev).
Qed.

Lemma start_inv st t st' : queue_inv st -> queue_step st (Step_start t) = Some st' -> queue_inv st'.
Proof.
  intros Hinv Hs. cbn in Hs. destruct (mq_tasks st !! t) as [[| |[] key prev]|] eqn:Ht; try done.
  destruct (current_resolved (mq_tasks st) prev) eqn:Hc; [|done]. injection Hs as <-. pose proof (current_finished st Hinv _ _ _ Ht Hc) as Hfin.
  destruct Hinv as [Hm Ho Hp Hf Hff Hq Hi]. pose proof (fun i ph' k pv' => phase_queued (mq_tasks st) t key prev Waiting Running i ph' k pv' Ht) as Hpq.
  split; cbn [mq_tasks mq_queues].
  - done.
  - by eapply phase_order.
  - by eapply phase_prev.
  - intros i j k ph ph' pv. rewrite !Hpq. intros [(-> & -> & -> & Hprev)|[Hjt Hj]] Hij [(-> & -> & Hk & _)|[Hit Hti]]; try lia.
    + by eapply Hfin.
    + subst k. by pose proof (Hf _ _ _ _ _ _ Hj Hij Ht).
    + by eapply Hf.
  - intros i j k ph ph' pv pv'. rewrite !Hpq. intros [(-> & -> & -> & ->)|[Hjt Hj]] Hph Hij [(-> & -> & Hk & _)|[Hit Hti]]; try lia.
    + by eapply Hfin.
    + subst k. by pose proof (Hff _ _ _ _ _ _ _ Hj Hph Hij Ht).
    + by eapply (Hff i j).
  - intros k t' Hg. destruct (Hq _ _ Hg) as ((ph & pv & Ht' & Hnf) & Hafter). split.
    + destruct (decide (t' = t)) as [->|Hne].
      * rewrite Ht in Ht'. injection Ht' as <- -> ->. exists Running, pv. split; [|done]. apply Hpq. by left.
      * exists ph, pv. split; [|done]. apply Hpq. by right.
    + intros i ph' pv' Hti. rewrite Hpq. intros [(-> & -> & -> & ->)|[Hit Hi']]; [|by eapply Hafter]. by eapply Hafter.
  - intros k i ph pv Hg. rewrite Hpq. intros [(-> & -> & -> & ->)|[Hit Hi']]; [|by eapply Hi]. by pose proof (Hi _ _ _ _ Hg Ht).
Qed.

Lemma finish_inv st t st' : queue_inv st -> queue_step st (Step_finish t) = Some st' -> queue_inv st'.
Proof.
  intros Hinv Hs. cbn in Hs. destruct (mq_tasks st !! t) as [[| |[] key prev]|] eqn:Ht; try done. injection Hs as <-.
  destruct Hinv as [Hm Ho Hp Hf Hff Hq Hi]. pose proof (fun i ph' k pv' => phase_queued (mq_tasks st) t key prev Running Finished i ph' k pv' Ht) as Hpq.
  assert (Hget : forall k, map_get k (if bool_decide (map_get key (mq_queues st) = Some t) then map_delete key (mq_queues st) else mq_queues st) =
    if bool_decide (map_get k (mq_queues st) = Some t /\ k = key) then None else map_get k (mq_queues st)).
  { intros k. case_bool_decide as Hd.
    - rewrite map_get_delete by done. case_decide as Hk; [subst k; by rewrite bool_decide_true|]. rewrite bool_decide_false; [done|]. by intros [_ ?].
    - rewrite bool_decide_false; [done|]. by intros [Hg ->]. }
  assert (Hm' : map_wf (if bool_decide (map_get key (mq_queues st) = Some t) then map_delete key (mq_queues st) else mq_queues st))
    by (case_bool_decide; [by apply map_delete_wf|done]).
  revert Hget Hm'. generalize (if bool_decide (map_get key (mq_queues st) = Some t) then map_delete key (mq_queues st) else mq_queues st).
  intros queues Hget Hm'. split; cbn [mq_tasks mq_queues].
  - done.
  - by eapply phase_order.
  - by eapply phase_prev.
  - intros i j k ph ph' pv. rewrite !Hpq. intros [(-> & -> & -> & Hprev)|[Hjt Hj]] Hij [(-> & -> & Hk & _)|[Hit Hti]]; try done.
    + by eapply (Hff i t).
    + by eapply Hf.
  - intros i j k ph ph' pv pv'. rewrite !Hpq. intros [(-> & -> & -> & ->)|[Hjt Hj]] Hph Hij [(-> & -> & Hk & _)|[Hit Hti]]; try done.
    + by eapply (Hff i t).
    + by eapply (Hff i j).
  - intros k t'. rewrite Hget. case_bool_decide as Hd; intros Hg; [discriminate Hg|]. destruct (Hq _ _ Hg) as ((ph & pv & Ht' & Hnf) & Hafter). split.
    + destruct (decide (t' = t)) as [->|Hne].
      * rewrite Ht in Ht'. injection Ht' as <- -> ->. by destruct Hd.
      * exists ph, pv. split; [|done]. apply Hpq. by right.
    + intros i ph' pv' Hti. rewrite Hpq. intros [(-> & -> & -> & ->)|[Hit Hi']]; by eapply Hafter.
  - intros k i ph pv. rewrite Hget, Hpq. case_bool_decide as Hd.
    + destruct Hd as [Hg ->]. intros _ [(-> & -> & _)|[Hit Hti]]; [done|]. destruct (Hq _ _ Hg) as (_ & Hafter).
      destruct (decide (i < t)%nat) as [Hlt|Hge]; [by eapply (Hff i t)|]. exfalso. eapply (Hafter i); [lia|done].
    + intros Hg [(-> & -> & _)|[Hit Hti]]; [done|]. by eapply Hi.
Qed.

Lemma queue_reachable_inv st : queue_reachable st -> queue_inv st.
Proof.
  induction 1 as [|st step st' _ IH Hs]; [split; try done; constructor|].
  destruct step as [|[key|e]|t|t]; [by eapply call_inv|by eapply register_inv|by eapply fail_inv|by eapply start_inv|by eapply finish_inv].
Qed.

(** ** Serialization *)

(** A task of a key that has not finished. *)
Definition unfinished (tasks : list QueueTask) (k : jstring) (i : nat) : bool :=
  match tasks !! i with Some (QT_queued ph k' _) => bool_decide (k' = k) && negb (bool_decide (ph = Finished)) | _ => false end.

Lemma unfinished_spec tasks k i : unfinished tasks k i = true <-> exists ph pv, tasks !! i = Some (QT_queued ph k pv) /\ ph <> Finished.
Proof.
  unfold unfinished. split.
  - destruct (tasks !! i) as [[| |ph k' pv]|] eqn:E; try done. rewrite andb_true_iff, negb_true_iff, bool_decide_eq_true, bool_decide_eq_false.
    intros [-> Hne]. eauto.
  - intros (ph & pv & -> & Hne). by rewrite bool_decide_true, bool_decide_false.
Qed.

(** The oldest unfinished task of a key runs, or can start. *)
Lemma oldest_proceeds st k i : queue_inv st -> unfinished (mq_tasks st) k i = true ->
  (forall j, (j < i)%nat -> unfinished (mq_tasks st) k j = false) ->
  (exists pv, mq_tasks st !! i = Some (QT_queued Running k pv)) \/ is_Some (queue_step st (Step_start i)).
Proof.
  intros Hinv (ph & pv & Hi & Hne)%unfinished_spec Hleast. destruct ph; [right|left; eauto|done].
  assert (Hall : forall j ph' pv', (j < i)%nat -> mq_tasks st !! j = Some (QT_queued ph' k pv') -> ph' = Finished).
  { intros j ph' pv' Hj Htj. destruct (decide (ph' = Finished)) as [|Hne']; [done|]. specialize (Hleast j Hj).
    assert (unfinished (mq_tasks st) k j = true) by (apply unfinished_spec; eauto). congruence. }
  cbn [queue_step]. rewrite Hi. destruct pv as [p|]; [|by cbn; eauto]. cbn [current_resolved].
  destruct (qi_prev st Hinv _ _ _ _ Hi) as (Hp & (ph2 & pv2 & Hp2) & _). rewrite (finished_resolved st Hinv (S p) p k ph2 pv2); [eauto|lia|done|].
  intros j ph' pv' Hj. apply Hall. lia.
Qed.

Lemma least_index (f : nat -> bool) i : f i = true -> exists n, (n <= i)%nat /\ f n = true /\ forall j, (j < n)%nat -> f j = false.
Proof.
  induction i as [i IH] using lt_wf_ind. intros Hi. destruct (existsb f (seq 0 i)) eqn:E.
  - apply existsb_exists in E as (j & Hj%in_seq & Hfj). destruct (IH j ltac:(lia) Hfj) as (n & Hn & ?). exists n. split; [lia|done].
  - exists i. split; [done|]. split; [done|]. intros j Hj. destruct (f j) eqn:Ej; [|done].
    assert (existsb f (seq 0 i) = true) by (apply existsb_exists; exists j; split; [apply in_seq; lia|done]). congruence.
Qed.

(** C15: whatever the order in which promises settle, mutations of one key run one
    at a time and in the order of their calls, a waiting mutation never blocks
    for good (some mutation of its key runs or can start), and once every call
    has finished or failed no queue is left behind. *)
Theorem queue_serializes st : queue_reachable st ->
  (forall i j k pi pj, mq_tasks st !! i = Some (QT_queued Running k pi) -> mq_tasks st !! j = Some (QT_queued Running k pj) -> i = j) /\
  (forall i j k ph ph' pi pj, (i < j)%nat -> mq_tasks st !! i = Some (QT_queued ph k pi) -> mq_tasks st !! j = Some (QT_queued ph' k pj) ->
    ph' <> Waiting -> ph = Finished) /\
  (forall i k pv, mq_tasks st !! i = Some (QT_queued Waiting k pv) -> exists n, (n <= i)%nat /\
    ((exists pn, mq_tasks st !! n = Some (QT_queued Running k pn)) \/
     ((exists pn, mq_tasks st !! n = Some (QT_queued Waiting k pn)) /\ is_Some (queue_step st (Step_start n))))) /\
  ((forall i x, mq_tasks st !! i = Some x -> x = QT_failed \/ exists k pv, x = QT_queued Finished k pv) -> mq_queues st = []).
Proof.
  intros Hinv%queue_reachable_inv. assert (Hfifo : forall i j k ph ph' pi pj, (i < j)%nat -> mq_tasks st !! i = Some (QT_queued ph k pi) ->
    mq_tasks st !! j = Some (QT_queued ph' k pj) -> ph' <> Waiting -> ph = Finished).
  { intros i j k ph ph' pi pj Hij Hi Hj Hph. by eapply (qi_fifo st Hinv i j). }
  split; [|split; [done|split]].
  - intros i j k pi pj Hi Hj. destruct (Nat.lt_trichotomy i j) as [Hlt|[->|Hlt]]; [|done|];
      by pose proof (Hfifo _ _ _ _ _ _ _ Hlt ltac:(eassumption) ltac:(eassumption) ltac:(done)).
  - intros i k pv Hi. destruct (least_index (unfinished (mq_tasks st) k) i) as (n & Hn & Hun & Hleast); [apply unfinished_spec; eauto|].
    exists n. split; [done|]. destruct (oldest_proceeds st k n Hinv Hun Hleast) as [?|Hs]; [by left|].
    apply unfinished_spec in Hun as (ph & pn & Htn & Hne). destruct ph; [right; eauto|left; eauto|done].
  - intros Hall. destruct (mq_queues st) as [|[k t] rest] eqn:E; [done|].
    assert (Hg : map_get k (mq_queues st) = Some t) by (rewrite E; cbn; by rewrite decide_True).
    destruct (qi_queue st Hinv _ _ Hg) as ((ph & pv & Ht & Hne) & _). destruct (Hall _ _ Ht) as [?|(? & ? & ?)]; congruence.
Qed.

Definition queue_run (steps : list QueueStep) : option MutationQueueState :=
  fold_left (fun st step => st ← st; queue_step st step) steps (Some empty_queues).

Lemma queue_run_reachable steps st : queue_run steps = Some st -> queue_reachable st.
Proof.
  revert st. induction steps as [|step steps IH] using rev_ind; intros st.
  - intros [= <-]. constructor.
  - unfold queue_run. rewrite fold_left_app. cbn. fold (queue_run steps). intros (st' & H & Hs)%bind_Some. by eapply reach_step; [apply IH|].
Qed.

(** Two edits of one file and one of another: the second edit of the file waits
    while the other file's runs at once. *)
Definition three_edits : list QueueStep :=
  [Step_call; Step_call; Step_register (Ok (js "/a")); Step_call; Step_register (Ok (js "/a")); Step_start 0;
   Step_register (Ok (js "/b")); Step_start 2].

Definition three_edits_state : MutationQueueState := default empty_queues (queue_run three_edits).

Lemma queue_serializes_witness : mq_tasks three_edits_state !! 1%nat = Some (QT_queued Waiting (js "/a") (Some 0%nat)) /\
  queue_step three_edits_state (Step_start 1) = None /\
  exists n, (n <= 1)%nat /\ ((exists pn, mq_tasks three_edits_state !! n = Some (QT_queued Running (js "/a") pn)) \/
    ((exists pn, mq_tasks three_edits_state !! n = Some (QT_queued Waiting (js "/a") pn)) /\ is_Some (queue_step three_edits_state (Step_start n)))).
Proof.
  split; [vm_compute; reflexivity|]. split; [vm_compute; reflexivity|].
  apply (proj1 (proj2 (proj2 (queue_serializes three_edits_state (queue_run_reachable three_edits _ ltac:(vm_compute; reflexivity))))) 1%nat _ (Some 0%nat)).
  vm_compute. reflexivity.
Defined.
