(* ===== verification/ObjectBundle.v ===== *)
(** * Content-addressed objects and bundles

    packages/agent/src/core/objects: the address of an object (object-store.ts),
    the closure of objects a set of roots needs, and the archive that moves a
    closure to another store (bundle/index.ts).

    Hashing ([sha256]), number formatting and the collation order
    ([localeCompare]) belong to the runtime and are parameters; object stores are
    an interface of the repository.  Messages of thrown errors leave out the text
    of their causes. *)

From stdpp Require Import base list strings pretty sorting.
From Stdlib Require Import ZArith Lia.
From S2P Require Import Prelude SessionTypes Numbers Utf8 Cbor Compaction CompactionProperties Json JsonProperties JsonViews EditDiff SessionManager.

Open Scope Z_scope.

(** ** Errors *)

Inductive ObjectStoreErrorCode := OC_missing | OC_corrupt | OC_io | OC_invalid_hash.

(** [OE_type] is a [TypeError] or [SyntaxError] of the language, [OE_aborted] the
    reason of an abort signal. *)
Inductive ObjectError :=
| OE_store (code : ObjectStoreErrorCode) (message : jstring)
| OE_unsupported (message : jstring)
| OE_bundle (message : jstring)
| OE_gc (message : jstring)
| OE_type
| OE_aborted.

Definition bundle_error {A} (message : string) : Result ObjectError A := Err (OE_bundle (js message)).

(** ** Sorting

    [list.sort(compare)]: stable; [le x y] says that [compare(x, y) <= 0]. *)

Section Sorting.
Context {A : Type} (le : A -> A -> bool).

Fixpoint insert_sorted (x : A) (l : list A) : list A :=
  match l with
  | [] => [x]
  | y :: l' => if le x y then x :: y :: l' else y :: insert_sorted x l'
  end.

Definition stable_sort (l : list A) : list A := foldr insert_sorted [] l.
End Sorting.

(** ** Addresses *)

Abbreviation ObjectHash := jstring.

Definition hex_lower (u : Z) : bool := ((48 <=? u) && (u <=? 57)) || ((97 <=? u) && (u <=? 102)).

Definition isObjectHash (value : jstring) : bool := (length value =? 64)%nat && forallb hex_lower value.

Definition assertObjectHash (hash : jstring) : Result ObjectError unit :=
  rguard (isObjectHash hash) (OE_store OC_invalid_hash (js "Invalid object hash: " ++ hash)).

Section Addresses.
Context (sha256 : list Z -> list Z).

Definition hex_byte (b : Z) : jstring := [hex_digit (Z.shiftr b 4); hex_digit (Z.land b 15)].

Definition hashObject (data : list Z) : ObjectHash := mjoin (map hex_byte (sha256 data)).

Definition assertObjectBytes (hash : ObjectHash) (data : list Z) : Result ObjectError unit :=
  rguard (bool_decide (hashObject data = hash))
    (OE_store OC_corrupt (js "Object content does not match address " ++ hash)).
End Addresses.

(** ** Canonical JSON *)

(** The code points of a string; an unpaired surrogate is one of its own. *)
Fixpoint code_points (s : jstring) : list Z :=
  match s with
  | [] => []
  | u :: s' =>
      match s' with
      | v :: s'' => if is_high_surrogate u && is_low_surrogate v then surrogate_pair u v :: code_points s'' else u :: code_points s'
      | [] => [u]
      end
  end.

Fixpoint compare_points (lefts rights : list Z) : Z :=
  match lefts, rights with
  | leftPoint :: lefts, rightPoint :: rights =>
      if leftPoint =? rightPoint then compare_points lefts rights else leftPoint - rightPoint
  | [], [] => 0
  | [], _ => -1
  | _, [] => 1
  end.

Definition compareCodePoints (l r : jstring) : Z := compare_points (code_points l) (code_points r).

(** [new TextDecoder("utf-8", { fatal: true })]: a byte-order mark at the start
    is dropped. *)
Definition text_decode (bytes : list Z) : option jstring :=
  match bytes with
  | 239 :: 187 :: 191 :: rest => utf8_decode rest
  | _ => utf8_decode bytes
  end.

(** ** References and codecs *)

Record ClosureRef := { cr_hash : ObjectHash; cr_codec : option jstring }.

Definition plain_ref (hash : ObjectHash) : ClosureRef := {| cr_hash := hash; cr_codec := None |}.

Record CodecClosureVisitor := {
  cv_codec : jstring;
  cv_decodeAndValidate : list Z -> Result ObjectError json;
  cv_references : json -> Result ObjectError (list ClosureRef) }.

Abbreviation ClosureVisitorRegistry := (list (jstring * CodecClosureVisitor)).

Section Canonical.
Context (number_to_string : number -> jstring) (parse_number : jstring -> option number).

Fixpoint canonicalStringify (value : json) : jstring :=
  match value with
  | JArray l => js "[" ++ join (js ",") (map canonicalStringify l) ++ js "]"
  | JObject l =>
      let members := map (fun p => (p.1, quote_string p.1 ++ js ":" ++ canonicalStringify p.2)) l in
      js "{" ++ join (js ",") (map snd (stable_sort (fun p q => compareCodePoints p.1 q.1 <=? 0) members)) ++ js "}"
  | _ => json_stringify number_to_string value
  end.

Definition parse (bytes : list Z) : Result ObjectError json :=
  match text_decode bytes with
  | None => bundle_error "Invalid canonical JSON"
  | Some text =>
      match json_parse parse_number text with
      | None => bundle_error "Invalid canonical JSON"
      | Some value =>
          if bool_decide (utf8_encode (canonicalStringify value) = bytes) then Ok value
          else bundle_error "Object is not canonical JSON"
      end
  end.

(** ** Codecs *)

(** A property that is absent is [None]. *)
Definition requireHash (value : option json) : Result ObjectError ObjectHash :=
  match value with
  | Some (JString s) => if isObjectHash s then Ok s else bundle_error "Invalid object reference hash"
  | _ => bundle_error "Invalid object reference hash"
  end.

(** [Number.isSafeInteger(value) && value >= 0] *)
Definition natural (value : option json) : bool :=
  match value with
  | Some (JNumber n) => match integer_value n with Some z => safe z && (0 <=? z) | None => false end
  | _ => false
  end.

Definition keys_within (value : fields) (allowed : list jstring) : bool := forallb (fun p => bool_decide (p.1 ∈ allowed)) value.

Definition is_text (value : option json) : bool := match value with Some (JString _) => true | _ => false end.

Definition tree_entry (entry : json) : Result ObjectError unit :=
  match entry with
  | JArray [JString _; h] => let* _ := requireHash (Some h) in Ok tt
  | _ => bundle_error "Invalid tree entry"
  end.

Definition rope_chunk (chunk : json) : Result ObjectError unit :=
  match chunk with
  | JObject chunk =>
      rguard (keys_within chunk [js "h"; js "s"; js "c"] && natural (map_get (js "s") chunk) &&
              match map_get (js "c") chunk with Some (JString c) => isObjectHash c | _ => false end)
        (OE_bundle (js "Invalid rope chunk reference")) ;;;
      let* _ := requireHash (map_get (js "h") chunk) in Ok tt
  | _ => bundle_error "Invalid rope chunk reference"
  end.

Definition validate_tree (value : fields) : Result ObjectError unit :=
  let arr := map_get (js "arr") value in
  match map_get (js "entries") value with
  | Some (JArray entries) =>
      rguard (keys_within value [js "tg"; js "entries"; js "arr"; js "len"] &&
              (bool_decide (arr = None) || bool_decide (arr = Some (JBool true))) &&
              (if bool_decide (arr = Some (JBool true)) then natural (map_get (js "len") value)
               else bool_decide (map_get (js "len") value = None)))
        (OE_bundle (js "Invalid tree object")) ;;;
      rfold (fun _ entry => tree_entry entry) tt entries
  | _ => bundle_error "Invalid tree object"
  end.

Definition validate_ref (value : fields) : Result ObjectError unit :=
  rguard ((length value =? 3)%nat && natural (map_get (js "s") value)) (OE_bundle (js "Invalid ref object")) ;;;
  let* _ := requireHash (map_get (js "h") value) in Ok tt.

Definition validate_rope (value : fields) : Result ObjectError unit :=
  match map_get (js "chunks") value with
  | Some (JArray chunks) =>
      rguard (keys_within value [js "tg"; js "enc"; js "len"; js "chunks"] &&
              bool_decide (map_get (js "enc") value = Some (JString (js "utf8"))) && natural (map_get (js "len") value))
        (OE_bundle (js "Invalid rope object")) ;;;
      rfold (fun _ chunk => rope_chunk chunk) tt chunks
  | _ => bundle_error "Invalid rope object"
  end.

Definition validate_chunk (value : fields) : Result ObjectError unit :=
  rguard ((length value =? 3)%nat && bool_decide (map_get (js "enc") value = Some (JString (js "utf8"))) &&
          is_text (map_get (js "data") value)) (OE_bundle (js "Invalid chunk")).

Definition validate_state_root (value : fields) : Result ObjectError unit :=
  rguard ((length value =? 4)%nat && natural (map_get (js "rev") value) && natural (map_get (js "s") value))
    (OE_bundle (js "Invalid state root")) ;;;
  let* _ := requireHash (map_get (js "h") value) in Ok tt.

Definition validate_codec (codec : jstring) (value : fields) : Result ObjectError unit :=
  if bool_decide (codec = js "tree.v1") then validate_tree value
  else if bool_decide (codec = js "ref.v1") then validate_ref value
  else if bool_decide (codec = js "rope.v1") then validate_rope value
  else if bool_decide (codec = js "chunk.v1") then validate_chunk value
  else if bool_decide (codec = js "state-root.v1") then validate_state_root value
  else Ok tt.

(** [schema(codec).decodeAndValidate] *)
Definition decodeAndValidate (codec : jstring) (bytes : list Z) : Result ObjectError json :=
  let* value := parse bytes in
  match value with
  | JObject fs =>
      if bool_decide (map_get (js "tg") fs = Some (JString codec)) then let* _ := validate_codec codec fs in Ok value
      else Err (OE_bundle (js "Object tag does not match " ++ codec))
  | _ => Err (OE_bundle (js "Object tag does not match " ++ codec))
  end.

Definition entry_ref (entry : json) : Result ObjectError ClosureRef :=
  match entry with
  | JArray [_; h] => let* hash := requireHash (Some h) in Ok (plain_ref hash)
  | _ => bundle_error "Invalid tree entry"
  end.

Definition chunk_ref (chunk : json) : Result ObjectError ClosureRef :=
  match chunk with
  | JObject chunk => let* hash := requireHash (map_get (js "h") chunk) in Ok (plain_ref hash)
  | _ => bundle_error "Invalid rope chunk reference"
  end.

(** [list.map(f)] with a function that may throw. *)
Fixpoint rmapM {A B} (f : A -> Result ObjectError B) (l : list A) : Result ObjectError (list B) :=
  match l with
  | [] => Ok []
  | x :: l => let* y := f x in let* ys := rmapM f l in Ok (y :: ys)
  end.

(** [schema(codec).references] *)
Definition references (codec : jstring) (value : json) : Result ObjectError (list ClosureRef) :=
  match value with
  | JObject fs =>
      if bool_decide (codec = js "tree.v1") then
        match map_get (js "entries") fs with Some (JArray entries) => rmapM entry_ref entries | _ => Err OE_type end
      else if bool_decide (codec = js "ref.v1") then let* hash := requireHash (map_get (js "h") fs) in Ok [plain_ref hash]
      else if bool_decide (codec = js "rope.v1") then
        match map_get (js "chunks") fs with Some (JArray chunks) => rmapM chunk_ref chunks | _ => Err OE_type end
      else if bool_decide (codec = js "state-root.v1") then let* hash := requireHash (map_get (js "h") fs) in Ok [plain_ref hash]
      else Ok []
  | _ => bundle_error "Invalid codec value"
  end.

Definition schema (codec : jstring) : CodecClosureVisitor :=
  {| cv_codec := codec; cv_decodeAndValidate := decodeAndValidate codec; cv_references := references codec |}.

Definition register (visitors : ClosureVisitorRegistry) (visitor : CodecClosureVisitor) : Result ObjectError ClosureVisitorRegistry :=
  if map_has (cv_codec visitor) visitors then Err (OE_bundle (js "Duplicate codec " ++ cv_codec visitor))
  else Ok (map_set (cv_codec visitor) visitor visitors).

Definition get (visitors : ClosureVisitorRegistry) (codec : jstring) : Result ObjectError CodecClosureVisitor :=
  match map_get codec visitors with Some visitor => Ok visitor | None => Err (OE_unsupported (js "Unsupported codec " ++ codec)) end.

Definition default_codecs : list jstring := [js "tree.v1"; js "ref.v1"; js "rope.v1"; js "chunk.v1"; js "state-root.v1"].

Definition createDefaultClosureVisitorRegistry : Result ObjectError ClosureVisitorRegistry :=
  rfold register [] (map schema default_codecs).
End Canonical.

(** ** The closure of a set of roots

    [CodecClosureWalker] of packages/agent/src/core/objects/bundle/index.ts: every
    object reachable from the roots, in the order of addresses, with a digest. *)

(** A root names its object and codec, or carries a state descriptor. *)
Inductive ClosureRoot := CR_root (hash : ObjectHash) (codec : jstring) | CR_descriptor (descriptorBytes : list Z).

Record ClosureObject := { co_hash : ObjectHash; co_byteLength : Z }.

Record ClosureWalk := { cw_objects : list ClosureObject; cw_objectCount : Z; cw_totalBytes : Z; cw_digest : jstring }.

Section Walk.
Context (sha256 : list Z -> list Z) (number_to_string : number -> jstring) (parse_number : jstring -> option number).
Context (localeCompare : jstring -> jstring -> Z).

Abbreviation parse_object := (parse number_to_string parse_number).

(** ** Digest *)

Definition domain : list Z := utf8_encode (js "pi-object-bundle-closure-v1") ++ [0].

(** The bytes of an address: pairs of hexadecimal digits. *)
Fixpoint rawHash (hash : ObjectHash) : list Z :=
  match hash with
  | a :: b :: rest => match hex_value a, hex_value b with Some x, Some y => x * 16 + y | _, _ => 0 end :: rawHash rest
  | _ => []
  end.

Definition u64 (value : Z) : list Z := be_bytes 8 value.

Definition digestClosure (objects : list ClosureObject) : jstring :=
  hashObject sha256 (domain ++ u64 (Z.of_nat (length objects)) ++ mjoin (map (fun o => rawHash (co_hash o) ++ u64 (co_byteLength o)) objects)).

(** ** The walk *)

Context (registry : ClosureVisitorRegistry).

(** [pending] as a stack, its last element first. *)
Definition push_root (pending : list ClosureRef) (root : ClosureRoot) : Result ObjectError (list ClosureRef) :=
  match root with
  | CR_descriptor descriptorBytes =>
      let* visitor := get registry (js "state-root.v1") in
      let* descriptor := cv_decodeAndValidate visitor descriptorBytes in
      let* refs := cv_references visitor descriptor in
      Ok (reverse refs ++ pending)
  | CR_root hash codec =>
      assertObjectHash hash ;;;
      let* _ := get registry codec in
      Ok ({| cr_hash := hash; cr_codec := Some codec |} :: pending)
  end.

(** The references of an object that is visited as [item]. *)
Definition item_refs (item : ClosureRef) (bytes : list Z) : Result ObjectError (list ClosureRef) :=
  let visit codec :=
    let* visitor := get registry codec in
    let* value := cv_decodeAndValidate visitor bytes in
    cv_references visitor value in
  let* parsed := parse_object bytes in
  match parsed with
  | JObject fs =>
      match map_get (js "tg") fs with
      | Some (JString tg) => visit (default tg (cr_codec item))
      | _ => match cr_codec item with
             | None => Ok []
             | Some codec => if bool_decide (codec = js "tree.v1") then visit codec
                             else Err (OE_bundle (js "Root tag does not match " ++ codec))
             end
      end
  | _ => match cr_codec item with
         | None => Ok []
         | Some codec => if bool_decide (codec = js "tree.v1") then visit codec
                         else Err (OE_bundle (js "Root tag does not match " ++ codec))
         end
  end.

Section Store.
Context (store : ObjectHash -> Result ObjectError (option (list Z))).

(** One object: its length and references. *)
Definition visit (item : ClosureRef) : Result ObjectError (Z * list ClosureRef) :=
  let* bytes := store (cr_hash item) in
  match bytes with
  | None => Err (OE_bundle (js "Missing object " ++ cr_hash item))
  | Some bytes =>
      assertObjectBytes sha256 (cr_hash item) bytes ;;;
      let* refs := item_refs item bytes in
      Ok (Z.of_nat (length bytes), refs)
  end.

(** [None] when the rounds do not suffice. *)
Fixpoint walk_loop (rounds : nat) (visited : list (ObjectHash * Z)) (pending : list ClosureRef) :
  option (Result ObjectError (list (ObjectHash * Z))) :=
  match rounds with
  | O => None
  | S rounds =>
      match pending with
      | [] => Some (Ok visited)
      | item :: pending =>
          if map_has (cr_hash item) visited then walk_loop rounds visited pending
          else match visit item with
               | Err e => Some (Err e)
               | Ok (byteLength, refs) => walk_loop rounds (map_set (cr_hash item) byteLength visited) (reverse refs ++ pending)
               end
      end
  end.

Definition closure_walk (visited : list (ObjectHash * Z)) : ClosureWalk :=
  let objects := stable_sort (fun a b => localeCompare (co_hash a) (co_hash b) <=? 0)
                   (map (fun p => {| co_hash := p.1; co_byteLength := p.2 |}) visited) in
  {| cw_objects := objects; cw_objectCount := Z.of_nat (length objects);
     cw_totalBytes := foldl (fun sum o => sum + co_byteLength o) 0 objects; cw_digest := digestClosure objects |}.

Definition walk_pending (rounds : nat) (pending : Result ObjectError (list ClosureRef)) : option (Result ObjectError ClosureWalk) :=
  match pending with
  | Err e => Some (Err e)
  | Ok pending => rmap closure_walk <$> walk_loop rounds [] pending
  end.

Definition walk (rounds : nat) (roots : list ClosureRoot) : option (Result ObjectError ClosureWalk) :=
  walk_pending rounds (rfold push_root [] roots).
End Store.
End Walk.
