(* ===== verification/ObjectClosureProperties.v ===== *)
(** * Theorems about closures

    The walk ends on finite stores and its result is the set of reachable
    objects. *)

From stdpp Require Import base list strings pretty sorting.
From Stdlib Require Import ZArith Lia.
From S2P Require Import Prelude SessionTypes Numbers Utf8 Cbor Compaction CompactionProperties Json JsonProperties ObjectBundle.

Open Scope Z_scope.

(** ** Sorting *)

Section SortingFacts.
Context {A : Type}.
Implicit Types (le : A -> A -> bool) (l : list A).

Lemma insert_sorted_perm le x l : insert_sorted le x l ≡ₚ x :: l.
Proof. induction l as [|y l IH]; cbn; [done|]. destruct (le x y); [done|]. rewrite IH. constructor. Qed.

Lemma stable_sort_perm le l : stable_sort le l ≡ₚ l.
Proof. induction l as [|x l IH]; cbn; [done|]. by rewrite insert_sorted_perm, IH. Qed.

Lemma insert_sorted_ext le le' x l : (forall y, y ∈ l -> le x y = le' x y) -> insert_sorted le x l = insert_sorted le' x l.
Proof.
  induction l as [|y l IH]; intros H; cbn; [done|]. rewrite (H y) by left. destruct (le' x y); [done|]. f_equal. apply IH. intros z Hz. apply H. by right.
Qed.

Lemma stable_sort_ext le le' l : (forall x y, x ∈ l -> y ∈ l -> le x y = le' x y) -> stable_sort le l = stable_sort le' l.
Proof.
  induction l as [|x l IH]; intros H; [done|]. unfold stable_sort in *. cbn [foldr].
  rewrite IH by (intros; apply H; by right). apply insert_sorted_ext. intros y Hy. apply H; [left|]. right. fold (stable_sort le' l) in Hy. by rewrite stable_sort_perm in Hy.
Qed.

Lemma insert_sorted_strong le x l : (forall x y, le x y = true \/ le y x = true) -> (forall x y z, le x y = true -> le y z = true -> le x z = true) ->
  StronglySorted (fun a b => le a b = true) l -> StronglySorted (fun a b => le a b = true) (insert_sorted le x l).
Proof.
  intros Htot Htr. induction 1 as [|y l Hl IH Hy]; cbn; [repeat constructor|]. destruct (le x y) eqn:E.
  - constructor; [by constructor|]. constructor; [done|]. eapply Forall_impl; [exact Hy|]. cbn. intros z Hz. by apply (Htr x y z).
  - constructor; [done|]. rewrite insert_sorted_perm. constructor; [|done]. destruct (Htot x y); congruence.
Qed.

Lemma stable_sort_strong le l : (forall x y, le x y = true \/ le y x = true) -> (forall x y z, le x y = true -> le y z = true -> le x z = true) ->
  StronglySorted (fun a b => le a b = true) (stable_sort le l).
Proof. intros Htot Htr. induction l as [|x l IH]; cbn; [constructor|]. by apply insert_sorted_strong. Qed.
End SortingFacts.

(** Sorting what is sorted changes nothing. *)
Lemma stable_sort_id {A} (le : A -> A -> bool) l : StronglySorted (fun a b => le a b = true) l -> stable_sort le l = l.
Proof.
  induction 1 as [|x l Hl IH Hx]; [done|]. unfold stable_sort in *. cbn [foldr]. rewrite IH. destruct Hx as [|y l' Hy]; [done|]. cbn. by rewrite Hy.
Qed.

Lemma jstring_leb_total a b : jstring_leb a b = true \/ jstring_leb b a = true.
Proof. apply (total jstring_le). Qed.

Lemma jstring_leb_trans a b c : jstring_leb a b = true -> jstring_leb b c = true -> jstring_leb a c = true.
Proof. apply (transitivity (R := jstring_le)). Qed.

Lemma jstring_leb_antisym a : forall b, jstring_leb a b = true -> jstring_leb b a = true -> a = b.
Proof.
  induction a as [|x a IH]; intros [|y b]; cbn; try done. destruct (Z.ltb_spec x y), (Z.eqb_spec x y), (Z.ltb_spec y x), (Z.eqb_spec y x);
    cbn; try done; try lia. subst. intros Ha Hb. f_equal. by apply IH.
Qed.

Lemma map_get_pair {V} (k : jstring) (v : V) m : NoDup (map_keys m) -> (k, v) ∈ m -> map_get k m = Some v.
Proof.
  unfold map_keys. induction m as [|[k' v'] m IH]; [by intros _ ?%not_elem_of_nil|]. cbn [fmap list_fmap map_get]. rewrite NoDup_cons, elem_of_cons.
  intros [Hn Hnd] [[= <- <-]|Hin]; [by rewrite decide_True|]. rewrite decide_False; [by apply IH|]. intros ->. apply Hn. by apply (list_elem_of_fmap_2 fst _ (k', v)).
Qed.

(** What the language promises of [localeCompare] in any locale: a consistent
    order.  Which order it is depends on the locale of the host, also on strings
    of digits and lower-case letters. *)
Class Collation (localeCompare : jstring -> jstring -> Z) : Prop := {
  compare_total : forall a b, localeCompare a b <= 0 \/ localeCompare b a <= 0;
  compare_trans : forall a b c, localeCompare a b <= 0 -> localeCompare b c <= 0 -> localeCompare a c <= 0 }.

(** ** Addresses *)

Section Facts.
Context (sha256 : list Z -> list Z) (number_to_string : number -> jstring) (parse_number : jstring -> option number).
Context (localeCompare : jstring -> jstring -> Z).
Context (sha256_bytes : forall data, length (sha256 data) = 32%nat /\ Forall byte (sha256 data)).
Context `{Hcollation : !Collation localeCompare}.

Lemma hex_byte_lower b : byte b -> Forall (fun u => hex_lower u = true) (hex_byte b).
Proof.
  intros Hb. assert (H : forall d, 0 <= d < 16 -> hex_lower (hex_digit d) = true).
  { intros d Hd. unfold hex_digit, hex_lower. rewrite orb_true_iff, !andb_true_iff, !Z.leb_le. destruct (Z.ltb_spec d 10); lia. }
  unfold hex_byte. destruct Hb. change 15 with (Z.ones 4). rewrite Z.land_ones, Z.shiftr_div_pow2 by lia. change (2 ^ 4) with 16.
  pose proof (Z.mod_pos_bound b 16). pose proof (Z.div_lt_upper_bound b 16 16). pose proof (Z.div_pos b 16).
  repeat constructor; apply H; lia.
Qed.

Lemma hashObject_hash data : isObjectHash (hashObject sha256 data) = true.
Proof.
  unfold isObjectHash, hashObject. destruct (sha256_bytes data) as [Hl Hb]. rewrite andb_true_iff, Nat.eqb_eq, forallb_forall. split.
  - assert (H : forall l, length (mjoin (map hex_byte l)) = (2 * length l)%nat).
    { induction l as [|b l IH]; [done|]. change (mjoin (map hex_byte (b :: l))) with (hex_byte b ++ mjoin (map hex_byte l)). rewrite length_app, IH. cbn. lia. }
    rewrite H, Hl. done.
  - intros u Hu%list_elem_of_In. apply list_elem_of_join in Hu as (bs & Hu & Hbs). apply list_elem_of_In, in_map_iff in Hbs as (b & <- & Hin%list_elem_of_In).
    rewrite Forall_forall in Hb. pose proof (hex_byte_lower b (Hb b Hin)) as Hlow. rewrite Forall_forall in Hlow. by apply Hlow.
Qed.

(** ** Registries *)

Abbreviation parse_object := (parse number_to_string parse_number).

(** A visitor accepts only canonical objects that carry its tag. *)
Definition registry_ok (registry : ClosureVisitorRegistry) : Prop := forall codec v, map_get codec registry = Some v ->
  forall bytes value, cv_decodeAndValidate v bytes = Ok value ->
  parse_object bytes = Ok value /\ exists fs, value = JObject fs /\ map_get (js "tg") fs = Some (JString codec).

Lemma schema_ok codec bytes value : decodeAndValidate number_to_string parse_number codec bytes = Ok value ->
  parse_object bytes = Ok value /\ exists fs, value = JObject fs /\ map_get (js "tg") fs = Some (JString codec).
Proof.
  unfold decodeAndValidate. destruct (parse_object bytes) as [v|e]; [|done]. cbn [rbind]. destruct v as [| | | | |fs]; try done.
  case_bool_decide as Htg; [|done]. destruct (validate_codec codec fs); [|done]. cbn. intros [= <-]. eauto.
Qed.

Lemma default_registry_ok registry : createDefaultClosureVisitorRegistry number_to_string parse_number = Ok registry -> registry_ok registry.
Proof.
  unfold createDefaultClosureVisitorRegistry, default_codecs. intros Hr. assert (Hall : forall codec v, map_get codec registry = Some v -> v = schema number_to_string parse_number codec).
  { revert Hr. apply (rfold_inv _ (fun r => forall codec v, map_get codec r = Some v -> v = schema number_to_string parse_number codec)); [|done].
    intros r v r' Hv IH. apply list_elem_of_In, in_map_iff in Hv as (c & <- & _). unfold register. destruct (map_has _ _); [done|]. intros [= <-] codec w.
    cbn [cv_codec schema]. rewrite map_get_set. case_decide as Hc; [intros [= <-]; by subst|]. apply IH. }
  intros codec v Hv. rewrite (Hall codec v Hv). apply schema_ok.
Qed.

(** ** Visits *)

Context (registry : ClosureVisitorRegistry) (registry_valid : registry_ok registry).

Abbreviation refs_as := (item_refs number_to_string parse_number registry).

(** The references of an object do not depend on how it was reached. *)
Definition object_refs (bytes : list Z) : Result ObjectError (list ClosureRef) := refs_as (plain_ref []) bytes.

Lemma item_refs_object item bytes refs : refs_as item bytes = Ok refs -> object_refs bytes = Ok refs.
Proof.
  unfold object_refs, item_refs. destruct (parse_object bytes) as [value|e] eqn:Ep; [|done]. cbn [rbind plain_ref cr_codec default].
  assert (Hvisit : forall codec, (let* visitor := get registry codec in let* value := cv_decodeAndValidate visitor bytes in cv_references visitor value) = Ok refs ->
    exists fs, value = JObject fs /\ map_get (js "tg") fs = Some (JString codec)).
  { intros codec Hv. unfold get in Hv. destruct (map_get codec registry) as [v|] eqn:Ev; [|done]. cbn [rbind] in Hv.
    destruct (cv_decodeAndValidate v bytes) as [value'|e] eqn:Ed; [|done]. destruct (registry_valid codec v Ev bytes value' Ed) as [Hp Hfs].
    rewrite Ep in Hp. by injection Hp as ->. }
  destruct value as [| | | | |fs]; try (destruct (cr_codec item) as [codec|]; [|done]; case_bool_decide; [|done]; intros Hv; by destruct (Hvisit codec Hv) as (fs' & Hfs & _)).
  destruct (map_get (js "tg") fs) as [tg|] eqn:Etg.
  - destruct tg as [| | |tg| |]; try (destruct (cr_codec item) as [codec|]; [|done]; case_bool_decide; [|done]; intros Hv; destruct (Hvisit codec Hv) as (fs' & Hfs & Ht); congruence).
    destruct (cr_codec item) as [codec|]; [|done]. cbn [default from_option]. intros Hv. destruct (Hvisit codec Hv) as (fs' & [= <-] & Ht).
    rewrite Etg in Ht. by injection Ht as <-.
  - destruct (cr_codec item) as [codec|]; [|done]. case_bool_decide; [|done]. intros Hv. destruct (Hvisit codec Hv) as (fs' & [= <-] & Ht). congruence.
Qed.

Definition root_ref (hash codec : jstring) : ClosureRef := {| cr_hash := hash; cr_codec := Some codec |}.

(** The items of a list of named roots. *)
Lemma push_roots_elem {A} (hash codec : A -> jstring) l : forall pending pending', rfold (push_root registry) pending (map (fun r => CR_root (hash r) (codec r)) l) = Ok pending' ->
  forall item, item ∈ pending' <-> item ∈ pending \/ exists r, r ∈ l /\ item = root_ref (hash r) (codec r).
Proof.
  induction l as [|r l IH]; intros pending pending'; cbn [map rfold].
  - intros [= <-] item. split; [by left|]. intros [?|(r & Hr%not_elem_of_nil & _)]; done.
  - intros Hf item. apply rbind_Ok_inv in Hf as (p1 & Hp & Hf). cbn [push_root] in Hp. apply rbind_Ok_inv in Hp as (_ & _ & Hp).
    apply rbind_Ok_inv in Hp as (_ & _ & [= <-]). rewrite (IH _ _ Hf), elem_of_cons. setoid_rewrite elem_of_cons. fold (root_ref (hash r) (codec r)).
    split; [intros [[->|?]|(r' & ? & ?)]|intros [?|(r' & [->|?] & ?)]]; eauto.
Qed.

Section Store.
Context (store : ObjectHash -> Result ObjectError (option (list Z))).
Abbreviation visit_item := (visit sha256 number_to_string parse_number registry store).
Abbreviation loop := (walk_loop sha256 number_to_string parse_number registry store).

(** An object of the store, sound and readable. *)
Definition stored (h : ObjectHash) (bytes : list Z) (refs : list ClosureRef) : Prop :=
  store h = Ok (Some bytes) /\ hashObject sha256 bytes = h /\ object_refs bytes = Ok refs.

(** Reachable from [pending] along the references of stored objects. *)
Inductive in_closure (pending : list ClosureRef) : ObjectHash -> Prop :=
| closure_here item : item ∈ pending -> in_closure pending (cr_hash item)
| closure_step h bytes refs item : in_closure pending h -> stored h bytes refs -> item ∈ refs -> in_closure pending (cr_hash item).

(** Reachable from several items is reachable from one of them. *)
Lemma in_closure_item pending h : in_closure pending h <-> exists item, item ∈ pending /\ in_closure [item] h.
Proof.
  split.
  - induction 1 as [item Hin|h bytes refs item _ IH Hst Hin]; [exists item; split; [done|constructor; left]|].
    destruct IH as (item0 & Hin0 & Hc). exists item0. split; [done|]. by eapply closure_step.
  - intros (item & Hin & Hc). induction Hc as [item' Hin'|h bytes refs item' _ IH Hst Hin']; [|by eapply closure_step].
    apply list_elem_of_singleton in Hin'. subst. by constructor.
Qed.

Lemma visit_stored item n refs : visit_item item = Ok (n, refs) ->
  exists bytes, stored (cr_hash item) bytes refs /\ n = Z.of_nat (length bytes).
Proof.
  unfold visit. destruct (store (cr_hash item)) as [[bytes|]|e] eqn:Es; cbn [rbind]; try done. unfold assertObjectBytes. intros Hv.
  apply rguard_bind_Ok in Hv as [Hh%bool_decide_eq_true Hv]. apply rbind_Ok_inv in Hv as (refs' & Hr & [= <- <-]).
  exists bytes. split; [|done]. split; [done|]. split; [done|]. by eapply item_refs_object.
Qed.

Record walk_inv (roots : list ClosureRef) (visited : list (ObjectHash * Z)) (pending : list ClosureRef) : Prop := {
  wi_wf : map_wf visited;
  wi_found : forall h n, map_get h visited = Some n -> exists bytes refs, stored h bytes refs /\ n = Z.of_nat (length bytes) /\
    forall r, r ∈ refs -> map_has (cr_hash r) visited = true \/ r ∈ pending;
  wi_roots : forall r, r ∈ roots -> map_has (cr_hash r) visited = true \/ r ∈ pending;
  wi_visited : forall h, map_has h visited = true -> in_closure roots h;
  wi_pending : forall r, r ∈ pending -> in_closure roots (cr_hash r) }.

Lemma inv_start roots : walk_inv roots [] roots.
Proof. split; try done; [apply NoDup_nil_2|by right|]. intros r Hr. by constructor. Qed.

Lemma inv_skip roots visited item pending : map_has (cr_hash item) visited = true -> walk_inv roots visited (item :: pending) ->
  walk_inv roots visited pending.
Proof.
  intros Hv [Hw Hf Hr Hvi Hp]. assert (Hdrop : forall r, map_has (cr_hash r) visited = true \/ r ∈ item :: pending -> map_has (cr_hash r) visited = true \/ r ∈ pending).
  { intros r [?|[->|?]%elem_of_cons]; auto. }
  split; try done; [|by intros r Hin; apply Hdrop, Hr|by intros r Hin; apply Hp; right].
  intros h n Hh. destruct (Hf h n Hh) as (bytes & refs & Hs & Hn & Hrefs). exists bytes, refs. split; [done|]. split; [done|]. intros r Hin. by apply Hdrop, Hrefs.
Qed.

Lemma inv_visit roots visited item pending n refs : map_has (cr_hash item) visited = false -> visit_item item = Ok (n, refs) ->
  walk_inv roots visited (item :: pending) -> walk_inv roots (map_set (cr_hash item) n visited) (reverse refs ++ pending).
Proof.
  intros Hv Hi [Hw Hf Hr Hvi Hp]. destruct (visit_stored item n refs Hi) as (bytes & Hst & ->).
  assert (Hitem : in_closure roots (cr_hash item)) by (apply Hp; left).
  assert (Hstep : forall r, map_has (cr_hash r) visited = true \/ r ∈ item :: pending ->
    map_has (cr_hash r) (map_set (cr_hash item) (Z.of_nat (length bytes)) visited) = true \/ r ∈ reverse refs ++ pending).
  { intros r. rewrite map_has_set, elem_of_app. intros [->|[->|?]%elem_of_cons]; [by rewrite orb_true_r; left|left; by rewrite bool_decide_true|auto]. }
  split.
  - by apply map_set_wf.
  - intros h k. rewrite map_get_set. case_decide as Hh.
    + intros [= <-]. subst h. exists bytes, refs. split; [done|]. split; [done|]. intros r Hin. right. rewrite elem_of_app, elem_of_reverse. by left.
    + intros Hg. destruct (Hf h k Hg) as (b & rs & Hs & Hn & Hrefs). exists b, rs. split; [done|]. split; [done|]. intros r Hin. by apply Hstep, Hrefs.
  - intros r Hin. by apply Hstep, Hr.
  - intros h. rewrite map_has_set, orb_true_iff, bool_decide_eq_true. intros [->|Hh]; [done|by apply Hvi].
  - intros r. rewrite elem_of_app, elem_of_reverse. intros [Hin|Hin]; [by eapply closure_step|by apply Hp; right].
Qed.

Lemma walk_loop_inv rounds : forall roots visited pending result, walk_inv roots visited pending -> loop rounds visited pending = Some (Ok result) ->
  walk_inv roots result [].
Proof.
  induction rounds as [|rounds IH]; intros roots visited pending result Hinv; cbn [walk_loop]; [done|].
  destruct pending as [|item pending]; [by intros [= <-]|]. destruct (map_has (cr_hash item) visited) eqn:Ev; [by apply IH, inv_skip with item|].
  destruct (visit_item item) as [[n refs]|e] eqn:Ei; [|done]. by apply IH, inv_visit.
Qed.

(** What a finished walk has visited. *)
Lemma walk_visited rounds roots visited : loop rounds [] roots = Some (Ok visited) ->
  NoDup (map_keys visited) /\ (forall h, map_has h visited = true <-> in_closure roots h) /\
  forall h n, map_get h visited = Some n -> exists bytes refs, stored h bytes refs /\ n = Z.of_nat (length bytes).
Proof.
  intros Hl. apply (walk_loop_inv rounds roots) in Hl as [Hw Hf Hr Hvi _]; [|apply inv_start]. split; [done|]. split.
  - intros h. split; [apply Hvi|]. induction 1 as [item Hin|h bytes refs item _ IH Hst Hin]; [by destruct (Hr item Hin) as [?|?%not_elem_of_nil]|].
    apply map_has_Some in IH as [n Hn]. destruct (Hf h n Hn) as (b & rs & (Hs & _ & Ho) & _ & Hrefs). destruct Hst as (Hs' & _ & Ho').
    rewrite Hs in Hs'. injection Hs' as ->. rewrite Ho in Ho'. injection Ho' as ->. by destruct (Hrefs item Hin) as [?|?%not_elem_of_nil].
  - intros h n Hh. destruct (Hf h n Hh) as (b & rs & Hs & Hn & _). by exists b, rs.
Qed.
(** ** Termination *)

Lemma walk_more rounds : forall rounds' visited pending r, (rounds <= rounds')%nat -> loop rounds visited pending = Some r ->
  loop rounds' visited pending = Some r.
Proof.
  induction rounds as [|rounds IH]; intros [|rounds'] visited pending r Hle; cbn [walk_loop]; [done|done|lia|].
  destruct pending as [|item pending]; [done|]. destruct (map_has (cr_hash item) visited); [apply IH; lia|].
  destruct (visit_item item) as [[n refs]|e]; [apply IH; lia|done].
Qed.

(** A finite store: these are the addresses it may answer. *)
Context (addresses : list ObjectHash) (finite : forall h bytes, store h = Ok (Some bytes) -> h ∈ addresses).

(** The addresses that were not visited. *)
Definition unvisited (visited : list (ObjectHash * Z)) : list ObjectHash := List.filter (fun h => negb (map_has h visited)) addresses.

Lemma unvisited_set h n visited : h ∈ addresses -> map_has h visited = false -> (length (unvisited (map_set h n visited)) < length (unvisited visited))%nat.
Proof.
  unfold unvisited. clear finite. intros Hin Hv. induction addresses as [|a l IH]; [by apply not_elem_of_nil in Hin|]. cbn [List.filter]. rewrite map_has_set.
  assert (Hle : (length (List.filter (fun x => negb (map_has x (map_set h n visited))) l) <= length (List.filter (fun x => negb (map_has x visited)) l))%nat).
  { clear. induction l as [|a l IH]; [done|]. cbn [List.filter]. rewrite map_has_set. case_bool_decide; cbn [orb negb]; destruct (map_has a visited); cbn; lia. }
  case_bool_decide as Ha; cbn [orb negb].
  - subst a. rewrite Hv. cbn. lia.
  - assert (Hl : h ∈ l) by (by apply elem_of_cons in Hin as [->|?]). specialize (IH Hl). destruct (map_has a visited); cbn; lia.
Qed.

Lemma walk_ends size : forall visited pending, (length (unvisited visited) <= size)%nat -> exists rounds r, loop rounds visited pending = Some r.
Proof.
  induction size as [size IH] using lt_wf_ind. intros visited pending. induction pending as [|item pending IHp]; intros Hs.
  - by exists 1%nat, (Ok visited).
  - destruct (map_has (cr_hash item) visited) eqn:Ev.
    + destruct (IHp Hs) as (rounds & r & Hr). exists (S rounds), r. cbn [walk_loop]. by rewrite Ev.
    + destruct (visit_item item) as [[n refs]|e] eqn:Ei; [|exists 1%nat, (Err e); cbn [walk_loop]; by rewrite Ev, Ei].
      destruct (visit_stored item n refs Ei) as (bytes & (Hb & _ & _) & _). pose proof (unvisited_set (cr_hash item) n visited (finite _ _ Hb) Ev) as Hlt.
      destruct (IH (length (unvisited (map_set (cr_hash item) n visited))) ltac:(lia) (map_set (cr_hash item) n visited) (reverse refs ++ pending) ltac:(lia))
        as (rounds & r & Hr). exists (S rounds), r. cbn [walk_loop]. by rewrite Ev, Ei.
Qed.

(** ** Success *)

(** Items the walk may come to. *)
Inductive may_visit (roots : list ClosureRef) : ClosureRef -> Prop :=
| may_root item : item ∈ roots -> may_visit roots item
| may_ref item n refs item' : may_visit roots item -> visit_item item = Ok (n, refs) -> item' ∈ refs -> may_visit roots item'.

Lemma walk_succeeds roots : (forall item, may_visit roots item -> exists r, visit_item item = Ok r) ->
  forall rounds visited pending r, (forall item, item ∈ pending -> may_visit roots item) -> loop rounds visited pending = Some r ->
  exists result, r = Ok result.
Proof.
  intros Hall. induction rounds as [|rounds IH]; intros visited pending r Hp; cbn [walk_loop]; [done|].
  destruct pending as [|item pending]; [intros [= <-]; eauto|]. destruct (map_has (cr_hash item) visited); [apply IH; intros i Hi; apply Hp; by right|].
  destruct (Hall item) as [[n refs] Hi]; [apply Hp; left|]. rewrite Hi. apply IH. intros i. rewrite elem_of_app, elem_of_reverse.
  intros [Hin|Hin]; [eapply may_ref; [|exact Hi|exact Hin]; apply Hp; left|apply Hp; by right].
Qed.
End Store.

(** A walk depends only on the objects it visits. *)
Lemma walk_agree store store' rounds : forall visited pending result,
  walk_loop sha256 number_to_string parse_number registry store rounds visited pending = Some (Ok result) ->
  (forall h, map_has h result = true -> store' h = store h) ->
  (forall h, map_has h visited = true -> map_has h result = true) /\
  walk_loop sha256 number_to_string parse_number registry store' rounds visited pending = Some (Ok result).
Proof.
  induction rounds as [|rounds IH]; intros visited pending result; cbn [walk_loop]; [done|].
  destruct pending as [|item pending]; [by intros [= <-]|]. destruct (map_has (cr_hash item) visited) eqn:Ev; [by apply IH|].
  destruct (visit sha256 number_to_string parse_number registry store item) as [[n refs]|e] eqn:Ei; [|done]. intros Hl Hs.
  destruct (IH _ _ _ Hl Hs) as [Hsub Hl']. assert (Hitem : map_has (cr_hash item) result = true) by (apply Hsub; rewrite map_has_set; by rewrite bool_decide_true).
  split; [intros h Hh; apply Hsub; rewrite map_has_set, Hh; apply orb_true_r|].
  assert (Ei' : visit sha256 number_to_string parse_number registry store' item = Ok (n, refs)) by (unfold visit in *; by rewrite (Hs _ Hitem)).
  by rewrite Ei'.
Qed.

(** ** Results *)

(** The order of the listed objects. *)
Definition collated (a b : ObjectHash) : Prop := localeCompare a b <= 0.

Lemma closure_walk_sorted visited : NoDup (map_keys visited) ->
  let objects := cw_objects (closure_walk sha256 localeCompare visited) in
  StronglySorted collated (map co_hash objects) /\ NoDup (map co_hash objects) /\
  objects ≡ₚ map (fun p => {| co_hash := p.1; co_byteLength := p.2 |}) visited.
Proof.
  intros Hnd. unfold closure_walk. cbn [cw_objects]. set (le := fun a b : ClosureObject => localeCompare (co_hash a) (co_hash b) <=? 0). set (listed := map _ visited).
  split; [|split; [|apply stable_sort_perm]].
  - assert (Hs : StronglySorted (fun a b => le a b = true) (stable_sort le listed)).
    { apply stable_sort_strong; unfold le; intros *; rewrite !Z.leb_le; [apply compare_total|apply compare_trans]. }
    induction Hs as [|o objects _ IH Ho]; cbn [map]; constructor; [done|]. apply Forall_fmap. eapply Forall_impl; [exact Ho|]. intros o'. unfold le. by rewrite Z.leb_le.
  - rewrite (Permutation_map co_hash (stable_sort_perm _ listed)). unfold listed. rewrite map_map. exact Hnd.
Qed.

Section Result.
Context (store : ObjectHash -> Result ObjectError (option (list Z))).
Context (addresses : list ObjectHash) (finite : forall h bytes, store h = Ok (Some bytes) -> h ∈ addresses).

(** C11: on a finite store the walk ends after some number of rounds, whatever the
    references between objects are.  A walk that succeeds has found exactly the
    objects reachable from the roots, each once, in the collation order of their
    addresses, each present in the store under the address of its bytes and with
    its length; and it succeeds when every object it may come to can be read. *)
Theorem closure_walk_exact roots :
  (exists rounds r, forall rounds', (rounds <= rounds')%nat ->
    walk sha256 number_to_string parse_number localeCompare registry store rounds' roots = Some r) /\
  (forall rounds w, walk sha256 number_to_string parse_number localeCompare registry store rounds roots = Some (Ok w) ->
    exists pending, rfold (push_root registry) [] roots = Ok pending /\
    StronglySorted collated (map co_hash (cw_objects w)) /\ NoDup (map co_hash (cw_objects w)) /\
    (forall h, h ∈ map co_hash (cw_objects w) <-> in_closure store pending h) /\
    (forall o, o ∈ cw_objects w -> exists bytes refs, stored store (co_hash o) bytes refs /\ co_byteLength o = Z.of_nat (length bytes)) /\
    cw_objectCount w = Z.of_nat (length (cw_objects w)) /\
    cw_totalBytes w = foldl (fun sum o => sum + co_byteLength o) 0 (cw_objects w)) /\
  (forall rounds pending r, rfold (push_root registry) [] roots = Ok pending ->
    (forall item, may_visit store pending item -> exists r, visit sha256 number_to_string parse_number registry store item = Ok r) ->
    walk sha256 number_to_string parse_number localeCompare registry store rounds roots = Some r -> exists w, r = Ok w).
Proof.
  unfold walk, walk_pending. destruct (rfold (push_root registry) [] roots) as [pending|e]; [|split_and!; [by exists 0%nat, (Err e)|done|done]]. split_and!.
  - destruct (walk_ends store addresses finite (length (unvisited addresses [])) [] pending (le_n _)) as (rounds & r & Hr).
    exists rounds, (rmap (closure_walk sha256 localeCompare) r). intros rounds' Hle. by rewrite (walk_more store _ rounds' _ _ _ Hle Hr).
  - intros rounds w Hw. apply fmap_Some in Hw as ([visited|e] & Hl & [= ->]). exists pending. split; [done|].
    destruct (walk_visited store rounds pending visited Hl) as (Hnd & Hiff & Hfound).
    destruct (closure_walk_sorted visited Hnd) as (Hs & Hd & Hp). split; [done|]. split; [done|]. split; [|split; [|done]].
    + intros h. rewrite <- Hiff, map_has_keys, (Permutation_map co_hash Hp), map_map. done.
    + intros o. rewrite Hp. intros Ho. apply list_elem_of_In, in_map_iff in Ho as ([h n] & <- & Hin%list_elem_of_In). cbn. apply Hfound.
      by apply map_get_pair.
  - intros rounds pending' r [= <-] Hall Hw. apply fmap_Some in Hw as (r' & Hl & ->).
    destruct (walk_succeeds store pending Hall rounds [] pending r' ltac:(by constructor) Hl) as [result ->]. eauto.
Qed.
End Result.
End Facts.
