(* ===== verification/ObjectArchive.v ===== *)
(** * Bundles

    [exportBundle] and [importBundle] of packages/agent/src/core/objects/bundle:
    a closure as a tar archive whose first member is a manifest.  What is written
    to the sink is the list of written chunks; an import reads the chunks of a
    source, checks the whole archive in memory and only then writes objects. *)

From stdpp Require Import base list strings pretty sorting.
From Stdlib Require Import ZArith Lia.
From S2P Require Import Prelude SessionTypes Numbers Utf8 Cbor Compaction EditDiff Json JsonProperties SessionManager.
From S2P Require Import ObjectBundle.

Open Scope Z_scope.

(** ** Manifests *)

Record BundleRoot := { br_hash : ObjectHash; br_codec : jstring }.

Record BundlePin := { bp_id : jstring; bp_scope : jstring; bp_root : ObjectHash; bp_reason : option jstring }.

Record BundleSession := { bs_sessionId : jstring; bs_checkpointIds : list jstring; bs_roots : list BundleRoot }.

(** [format] and [version] are constants. *)
Record BundleManifest := {
  bm_createdAt : jstring;
  bm_sessions : list BundleSession;
  bm_roots : list BundleRoot;
  bm_objectCount : Z;
  bm_totalBytes : Z;
  bm_digest : jstring;
  bm_pins : list BundlePin }.

Definition root_json (r : BundleRoot) : json := JObject [(js "hash", JString (br_hash r)); (js "codec", JString (br_codec r))].

Definition session_json (s : BundleSession) : json :=
  JObject [(js "sessionId", JString (bs_sessionId s)); (js "checkpointIds", JArray (map JString (bs_checkpointIds s)));
           (js "roots", JArray (map root_json (bs_roots s)))].

Definition pin_json (p : BundlePin) : json :=
  JObject ([(js "id", JString (bp_id p)); (js "scope", JString (bp_scope p)); (js "root", JString (bp_root p))] ++
           match bp_reason p with Some reason => [(js "reason", JString reason)] | None => [] end).

Definition manifest_json (m : BundleManifest) : json :=
  JObject [(js "format", JString (js "pi-object-bundle")); (js "version", JNumber (number_of_Z 1));
           (js "createdAt", JString (bm_createdAt m)); (js "sessions", JArray (map session_json (bm_sessions m)));
           (js "roots", JArray (map root_json (bm_roots m)));
           (js "closure", JObject [(js "objectCount", JNumber (number_of_Z (bm_objectCount m)));
                                   (js "totalBytes", JNumber (number_of_Z (bm_totalBytes m)));
                                   (js "digest", JString (bm_digest m))]);
           (js "pins", JArray (map pin_json (bm_pins m)))].

(** ** Tar *)

Definition block : nat := 512.

(** [value.toString(8)] of a natural number below [8 ^ digits]. *)
Fixpoint octal_digits (digits : nat) (value : Z) : jstring :=
  match digits with
  | O => []
  | S digits => if value <? 8 then [48 + value] else octal_digits digits (value / 8) ++ [48 + value mod 8]
  end.

Definition octal_string (value : Z) : jstring := octal_digits 32 value.

Definition padStart (width : nat) (s : jstring) : jstring := replicate (width - length s) 48 ++ s.

Definition tar_text (bytes : list Z) (at_ length : nat) (value : jstring) : list Z := set_at bytes (take length (utf8_encode value)) at_.

Definition tar_octal (bytes : list Z) (at_ length : nat) (value : Z) : list Z :=
  tar_text bytes at_ (length - 1) (padStart (length - 1) (octal_string value)).

Definition tarHeader (name : jstring) (size : Z) : list Z :=
  let bytes := replicate block 0 in
  let bytes := tar_text bytes 0 100 name in
  let bytes := tar_octal bytes 100 8 420 in
  let bytes := tar_octal bytes 108 8 0 in
  let bytes := tar_octal bytes 116 8 0 in
  let bytes := tar_octal bytes 124 12 size in
  let bytes := tar_octal bytes 136 12 0 in
  let bytes := set_at bytes (replicate 8 32) 148 in
  let bytes := set_at bytes [48] 156 in
  let bytes := tar_text bytes 257 6 (js "ustar" ++ [0]) in
  let bytes := tar_text bytes 263 2 (js "00") in
  let sum := foldl Z.add 0 bytes in
  let bytes := tar_text bytes 148 7 (padStart 6 (octal_string sum)) in
  set_at bytes [0] 155.

(** The chunks of a member. *)
Definition writeMember (name : jstring) (bytes : list Z) : list (list Z) :=
  let padding := ((block - length bytes mod block) mod block)%nat in
  [tarHeader name (Z.of_nat (length bytes)); bytes] ++ match padding with O => [] | _ => [replicate padding 0] end.

(** [text.replace(/\0.*$/, _)] with the empty string: a dot does not match a line
    terminator. *)
Definition line_terminator (u : Z) : bool := bool_decide (u ∈ [10; 13; 0x2028; 0x2029]).

Fixpoint strip_nul (s : jstring) : jstring :=
  match s with
  | [] => []
  | u :: r => if (u =? 0) && forallb (fun v => negb (line_terminator v)) r then [] else u :: strip_nul r
  end.

Fixpoint span_octal (s : jstring) : jstring :=
  match s with
  | u :: r => if (48 <=? u) && (u <=? 55) then u :: span_octal r else []
  | [] => []
  end.

(** [Number.parseInt(text, 8)]; [None] is NaN. *)
Definition parse_octal (s : jstring) : option Z :=
  let '(sign, r) := match s with 45 :: r => (-1, r) | 43 :: r => (1, r) | _ => (1, s) end in
  match span_octal r with
  | [] => None
  | digits => Some (sign * foldl (fun n u => n * 8 + (u - 48)) 0 digits)
  end.

Definition decode_text (bytes : list Z) : Result ObjectError jstring :=
  match text_decode bytes with Some text => Ok text | None => Err OE_type end.

Definition subarray (bytes : list Z) (from to : nat) : list Z := take (to - from) (drop from bytes).

Record TarMember := { tm_name : jstring; tm_size : Z; tm_bytes : list Z }.

(** The member at the start of what is left of the archive, and what follows it;
    no member at a block of zeros. *)
Definition member (archive : list Z) : Result ObjectError (option (TarMember * list Z)) :=
  if (length archive <? block)%nat then bundle_error "Truncated tar header"
  else
    let header := take block archive in
    let rest := drop block archive in
    if forallb (Z.eqb 0) header then Ok None
    else
      let* magic := decode_text (subarray header 257 263) in
      rguard (bool_decide (magic = js "ustar" ++ [0]) && bool_decide (header !! 156%nat = Some 48)) (OE_bundle (js "Invalid tar header")) ;;;
      let* name := decode_text (subarray header 0 100) in
      let* sizeText := decode_text (subarray header 124 136) in
      match parse_octal (trim (strip_nul sizeText)) with
      | Some size =>
          rguard (safe size && (0 <=? size) && (size <=? Z.of_nat (length rest))) (OE_bundle (js "Invalid or truncated tar member")) ;;;
          let n := Z.to_nat size in
          Ok (Some ({| tm_name := strip_nul name; tm_size := size; tm_bytes := take n rest |}, drop (n + (block - n mod block) mod block)%nat rest))
      | None => bundle_error "Invalid or truncated tar member"
      end.

(** [/^objects\/([0-9a-f]{64})$/] *)
Definition object_name (name : jstring) : option ObjectHash :=
  match strip_prefix (js "objects/") name with
  | Some hash => if isObjectHash hash then Some hash else None
  | None => None
  end.

Section Bundle.
Context (sha256 : list Z -> list Z) (number_to_string : number -> jstring) (parse_number : jstring -> option number).
Context (localeCompare : jstring -> jstring -> Z) (registry : ClosureVisitorRegistry).

(** ** Export *)

Section Export.
Context (store : ObjectHash -> Result ObjectError (option (list Z))).

Fixpoint export_objects (objects : list ClosureObject) : list (list Z) * Result ObjectError unit :=
  match objects with
  | [] => ([], Ok tt)
  | object :: objects =>
      match store (co_hash object) with
      | Err e => ([], Err e)
      | Ok None => ([], Err (OE_bundle (js "Missing object " ++ co_hash object)))
      | Ok (Some bytes) =>
          match assertObjectBytes sha256 (co_hash object) bytes with
          | Err e => ([], Err e)
          | Ok _ => let '(chunks, result) := export_objects objects in
                    (writeMember (js "objects/" ++ co_hash object) bytes ++ chunks, result)
          end
      end
  end.

(** The chunks written and the outcome; [None] when the rounds of the walk do not
    suffice. *)
Definition exportBundle (rounds : nat) (roots : list BundleRoot) (sessions : list BundleSession) (pins : list BundlePin) (createdAt : jstring) :
  option (list (list Z) * Result ObjectError BundleManifest) :=
  let roots := stable_sort (fun a b => localeCompare (br_hash a) (br_hash b) <=? 0) roots in
  match walk sha256 number_to_string parse_number localeCompare registry store rounds (map (fun r => CR_root (br_hash r) (br_codec r)) roots) with
  | None => None
  | Some (Err e) => Some ([], Err e)
  | Some (Ok walk) =>
      let manifest := {| bm_createdAt := createdAt; bm_sessions := sessions; bm_roots := roots; bm_objectCount := cw_objectCount walk;
                         bm_totalBytes := cw_totalBytes walk; bm_digest := cw_digest walk; bm_pins := pins |} in
      let first := writeMember (js "manifest.json") (utf8_encode (json_stringify number_to_string (manifest_json manifest))) in
      match export_objects (cw_objects walk) with
      | (chunks, Err e) => Some (first ++ chunks, Err e)
      | (chunks, Ok _) => Some (first ++ chunks ++ [replicate (block * 2) 0], Ok manifest)
      end
  end.
End Export.

(** ** Import *)

(** The object members, in the order of their addresses; [fuel] exceeds the
    number of blocks left. *)
Fixpoint read_objects (fuel : nat) (archive : list Z) (previous : ObjectHash) (staged : list (ObjectHash * list Z)) :
  Result ObjectError (list (ObjectHash * list Z)) :=
  match fuel with
  | O => bundle_error "Truncated tar header"
  | S fuel =>
      let* item := member archive in
      match item with
      | None => Ok staged
      | Some (item, archive) =>
          match object_name (tm_name item) with
          | Some hash =>
              rguard (negb (jstring_leb hash previous) && bool_decide (tm_size item = Z.of_nat (length (tm_bytes item))))
                (OE_bundle (js "Invalid object member sequence")) ;;;
              assertObjectBytes sha256 hash (tm_bytes item) ;;;
              read_objects fuel archive hash (map_set hash (tm_bytes item) staged)
          | None => bundle_error "Invalid object member sequence"
          end
      end
  end.

(** A root of the manifest, which is JSON of unknown shape: it has no bytes, and a
    hash that is not a string is no address. *)
Definition push_json_root (pending : list ClosureRef) (root : json) : Result ObjectError (list ClosureRef) :=
  match root with
  | JObject fs =>
      if map_has (js "descriptorBytes") fs then
        let* _ := get registry (js "state-root.v1") in bundle_error "Invalid canonical JSON"
      else
        match map_get (js "hash") fs with
        | Some (JString hash) =>
            assertObjectHash hash ;;;
            match map_get (js "codec") fs with
            | Some (JString codec) => let* _ := get registry codec in Ok ({| cr_hash := hash; cr_codec := Some codec |} :: pending)
            | _ => Err (OE_unsupported (js "Unsupported codec"))
            end
        | _ => Err (OE_store OC_invalid_hash (js "Invalid object hash"))
        end
  | JArray _ => Err (OE_store OC_invalid_hash (js "Invalid object hash"))
  | _ => Err OE_type
  end.

(** The roots and the closure of a supported manifest. *)
Definition manifest_parts (manifest : json) : Result ObjectError (list json * json) :=
  match manifest with
  | JNull => Err OE_type
  | JObject fs =>
      match map_get (js "version") fs, map_get (js "roots") fs, map_get (js "closure") fs with
      | Some (JNumber version), Some (JArray roots), Some closure =>
          rguard (bool_decide (map_get (js "format") fs = Some (JString (js "pi-object-bundle"))) &&
                  bool_decide (integer_value version = Some 1) && negb (falsy closure))
            (OE_bundle (js "Unsupported or invalid manifest")) ;;;
          Ok (roots, closure)
      | _, _, _ => bundle_error "Unsupported or invalid manifest"
      end
  | _ => bundle_error "Unsupported or invalid manifest"
  end.

Definition is_count (value : option json) (n : Z) : bool :=
  match value with Some (JNumber m) => bool_decide (integer_value m = Some n) | _ => false end.

Definition closure_matches (closure : json) (w : ClosureWalk) : bool :=
  match closure with
  | JObject c =>
      is_count (map_get (js "objectCount") c) (cw_objectCount w) && is_count (map_get (js "totalBytes") c) (cw_totalBytes w) &&
      bool_decide (map_get (js "digest") c = Some (JString (cw_digest w)))
  | _ => false
  end.

(** What an archive holds when it is sound: manifest, roots, staged objects and
    their walk. *)
Definition checkArchive (rounds : nat) (archive : list Z) :
  option (Result ObjectError (json * list json * list (ObjectHash * list Z) * ClosureWalk)) :=
  match (let* first := member archive in
         match first with
         | Some (first, archive) =>
             rguard (bool_decide (tm_name first = js "manifest.json")) (OE_bundle (js "Manifest must be first tar member")) ;;;
             let* text := decode_text (tm_bytes first) in
             match json_parse parse_number text with
             | None => Err OE_type
             | Some manifest =>
                 let* parts := manifest_parts manifest in
                 let* staged := read_objects (S (length archive)) archive [] [] in
                 Ok (manifest, parts.1, parts.2, staged)
             end
         | None => bundle_error "Manifest must be first tar member"
         end) with
  | Err e => Some (Err e)
  | Ok (manifest, roots, closure, staged) =>
      match walk_pending sha256 number_to_string parse_number localeCompare registry (fun h => Ok (map_get h staged)) rounds
              (rfold push_json_root [] roots) with
      | None => None
      | Some (Err e) => Some (Err e)
      | Some (Ok w) =>
          Some (rguard (closure_matches closure w && (Z.of_nat (length staged) =? cw_objectCount w)) (OE_bundle (js "Bundle closure mismatch")) ;;;
                rguard (forallb (fun p => bool_decide (p.1 ∈ map co_hash (cw_objects w))) staged) (OE_bundle (js "Bundle has an extra object")) ;;;
                Ok (manifest, roots, staged, w))
      end
  end.

Section Import.
Context {W : Type} (put : list Z -> W -> Result ObjectError ObjectHash * W).
Context (createImportPin : option (jstring -> list json -> W -> Result ObjectError unit * W)).
Context (releaseImportPin : option (jstring -> W -> Result ObjectError unit * W)).
(** [signal.aborted] at the successive checks. *)
Context (aborted : nat -> bool).

Fixpoint put_objects (check : nat) (staged : list (ObjectHash * list Z)) (objects : list ClosureObject) (w : W) : Result ObjectError unit * W :=
  match objects with
  | [] => (Ok tt, w)
  | object :: objects =>
      if aborted check then (Err OE_aborted, w)
      else match map_get (co_hash object) staged with
           | None => (Err OE_type, w)
           | Some bytes =>
               match put bytes w with
               | (Err e, w) => (Err e, w)
               | (Ok actual, w) =>
                   if bool_decide (actual = co_hash object) then put_objects (S check) staged objects w
                   else (Err (OE_bundle (js "ObjectStore returned mismatched hash for " ++ co_hash object)), w)
               end
           end
  end.

Definition run_pin (pin : option (W -> Result ObjectError unit * W)) (w : W) : Result ObjectError unit * W :=
  match pin with Some f => f w | None => (Ok tt, w) end.

Definition importBundle (rounds : nat) (parts : list (list Z)) (importId : jstring) (w : W) :
  option (Result ObjectError (jstring * json * list json) * W) :=
  if existsb aborted (seq 0 (length parts)) then Some (Err OE_aborted, w)
  else
    match checkArchive rounds (mjoin parts) with
    | None => None
    | Some (Err e) => Some (Err e, w)
    | Some (Ok (manifest, roots, staged, walk)) =>
        match run_pin ((fun f => f importId roots) <$> createImportPin) w with
        | (Err e, w) => Some (Err e, w)
        | (Ok _, w) =>
            match put_objects (length parts) staged (cw_objects walk) w with
            | (Ok _, w) => Some (Ok (importId, manifest, roots), w)
            | (Err e, w) =>
                match run_pin ((fun f => f importId) <$> releaseImportPin) w with
                | (Ok _, w) => Some (Err e, w)
                | (Err e', w) => Some (Err e', w)
                end
            end
        end
    end.
End Import.
End Bundle.
