(* ===== verification/ObjectTar.v ===== *)
(** * Tar members

    A member that [writeMember] wrote is what [member] reads, with its name,
    size and bytes, and the archive goes on after its padding. *)

From stdpp Require Import base list strings pretty sorting.
From Stdlib Require Import ZArith Lia.
From S2P Require Import Prelude SessionTypes Numbers Utf8 Cbor CborCodec CborProperties Compaction CompactionProperties EditDiff Json JsonProperties SessionManager.
From S2P Require Import ObjectBundle ObjectClosureProperties ObjectArchive.

Open Scope Z_scope.

(** ** ASCII *)

Definition ascii (u : Z) : Prop := 0 <= u < 128.

Ltac ascii_literal := cbn; repeat (apply Forall_cons_2; [unfold ascii; lia|]); apply Forall_nil_2.

Lemma ascii_scalars s : Forall ascii s -> scalar_values s = s.
Proof.
  induction 1 as [|u s Hu _ IH]; [done|]. cbn [scalar_values]. unfold ascii in Hu. unfold is_high_surrogate, is_low_surrogate.
  destruct (Z.leb_spec 0xD800 u), (Z.leb_spec 0xDC00 u); try lia. cbn. by rewrite IH.
Qed.

Lemma utf8_encode_ascii s : Forall ascii s -> utf8_encode s = s.
Proof.
  intros Hs. unfold utf8_encode. rewrite ascii_scalars by done. induction Hs as [|u s Hu _ IH]; [done|]. cbn [fmap list_fmap concat].
  unfold utf8_of_scalar at 1. destruct Hu. destruct (Z.ltb_spec u 0x80); [|lia]. cbn. by rewrite IH.
Qed.

Lemma utf8_decode_ascii s : Forall ascii s -> utf8_decode s = Some s.
Proof.
  induction 1 as [|u s [? ?] _ IH]; [done|]. cbn [utf8_decode]. destruct (Z.ltb_spec u 0x80); [|lia]. by rewrite IH.
Qed.

Lemma text_decode_ascii s : Forall ascii s -> text_decode s = Some s.
Proof.
  intros Hs. unfold text_decode. pose proof (utf8_decode_ascii s Hs) as Hd. destruct Hs as [|u s [? ?] _]; [done|].
  destruct (decide (u = 239)) as [->|Hne]; [lia|]. rewrite <- Hd. by repeat case_match.
Qed.

(** ** Arrays of bytes *)

Lemma lookup_set_at t b o i : (o + length b <= length t)%nat ->
  set_at t b o !! i = if decide (o <= i < o + length b)%nat then b !! (i - o)%nat else t !! i.
Proof.
  intros Hl. unfold set_at. assert (Ht : length (take o t) = o) by (rewrite length_take; lia). case_decide as Hi.
  - rewrite lookup_app_r by lia. rewrite Ht. by rewrite lookup_app_l by lia.
  - destruct (decide (i < o)%nat) as [Hlt|Hge].
    + rewrite lookup_app_l by lia. by rewrite lookup_take_lt.
    + rewrite lookup_app_r by lia. rewrite Ht, lookup_app_r by lia. rewrite lookup_drop. f_equal. lia.
Qed.

Lemma length_set_at t b o : (o + length b <= length t)%nat -> length (set_at t b o) = length t.
Proof. apply set_at_length. Qed.

Lemma lookup_subarray l from to i : subarray l from to !! i = if decide (i < to - from)%nat then l !! (from + i)%nat else None.
Proof.
  unfold subarray. case_decide as Hi; [by rewrite lookup_take_lt, lookup_drop|]. rewrite lookup_take_ge by lia. done.
Qed.

Lemma subarray_set_other t b o from to : (to <= o \/ o + length b <= from)%nat -> (o + length b <= length t)%nat ->
  subarray (set_at t b o) from to = subarray t from to.
Proof.
  intros Hd Hl. apply list_eq. intros i. rewrite !lookup_subarray. case_decide; [|done]. rewrite lookup_set_at by done. by rewrite decide_False by lia.
Qed.

Lemma subarray_set_start t b o to : (o + length b <= to)%nat -> (to <= length t)%nat ->
  subarray (set_at t b o) o to = b ++ subarray t (o + length b) to.
Proof.
  intros Hd Hl. apply list_eq. intros i. rewrite lookup_subarray. destruct (decide (i < length b)%nat) as [Hi|Hi].
  - rewrite decide_True by lia. rewrite lookup_set_at, decide_True by lia. rewrite lookup_app_l by done. f_equal. lia.
  - rewrite lookup_app_r, lookup_subarray by lia. destruct (decide (i < to - o)%nat) as [Hlt|Hge].
    + rewrite decide_True by lia. rewrite lookup_set_at, decide_False by lia. f_equal. lia.
    + by rewrite decide_False by lia.
Qed.

Lemma subarray_zeros n from to : (to <= n)%nat -> subarray (replicate n 0) from to = replicate (to - from) 0.
Proof.
  intros Hn. apply list_eq. intros i. rewrite lookup_subarray. case_decide.
  - by rewrite !lookup_replicate_2 by lia.
  - symmetry. apply lookup_ge_None. rewrite length_replicate. lia.
Qed.

(** ** Octal numbers *)

Lemma octal_characters digits value : 0 <= value -> Forall (fun u => 48 <= u <= 55) (octal_digits digits value).
Proof.
  revert value. induction digits as [|digits IH]; intros value Hv; cbn [octal_digits]; [done|]. pose proof (Z.mod_pos_bound value 8).
  destruct (Z.ltb_spec value 8); [repeat constructor; lia|]. apply Forall_app. split; [apply IH, Z.div_pos; lia|repeat constructor; lia].
Qed.

Lemma octal_length k digits : forall value, (0 < k)%nat -> 0 <= value < 8 ^ Z.of_nat k -> (length (octal_digits digits value) <= k)%nat.
Proof.
  revert k. induction digits as [|digits IH]; intros k value Hk Hv; cbn [octal_digits]; [cbn; lia|]. destruct (Z.ltb_spec value 8); [cbn; lia|].
  destruct k as [|[|k]]; [lia|change (8 ^ Z.of_nat 1) with 8 in Hv; lia|]. rewrite length_app. cbn [length].
  assert (Hd : 0 <= value / 8 < 8 ^ Z.of_nat (S k)).
  { split; [apply Z.div_pos; lia|]. apply Z.div_lt_upper_bound; [lia|]. replace (8 * 8 ^ Z.of_nat (S k)) with (8 ^ Z.of_nat (S (S k))); [lia|].
    rewrite (Nat2Z.inj_succ (S k)), Z.pow_succ_r by lia. done. }
  pose proof (IH (S k) (value / 8) ltac:(lia) Hd). lia.
Qed.

Lemma octal_value digits : forall value, 0 <= value < 8 ^ Z.of_nat digits -> (0 < digits)%nat ->
  foldl (fun n u => n * 8 + (u - 48)) 0 (octal_digits digits value) = value.
Proof.
  induction digits as [|digits IH]; intros value Hv Hd; [lia|]. cbn [octal_digits]. destruct (Z.ltb_spec value 8); [cbn; lia|]. rewrite foldl_app.
  assert (Hq : 0 <= value / 8 < 8 ^ Z.of_nat digits).
  { split; [apply Z.div_pos; lia|]. apply Z.div_lt_upper_bound; [lia|]. rewrite Nat2Z.inj_succ, Z.pow_succ_r in Hv by lia. lia. }
  destruct digits as [|digits]; [cbn in Hq; pose proof (Z.div_le_lower_bound value 8 1); lia|].
  rewrite (IH (value / 8) Hq) by lia. cbn [foldl]. pose proof (Z.div_mod value 8). lia.
Qed.

Lemma octal_zeros n l : foldl (fun n u => n * 8 + (u - 48)) 0 (replicate n 48 ++ l) = foldl (fun n u => n * 8 + (u - 48)) 0 l.
Proof. induction n as [|n IH]; [done|]. cbn. apply IH. Qed.

(** ** Headers *)

Lemma padStart_length width s : (length s <= width)%nat -> length (padStart width s) = width.
Proof. intros H. unfold padStart. rewrite length_app, length_replicate. lia. Qed.

Lemma padStart_octal width value : 0 <= value -> Forall (fun u => 48 <= u <= 55) (padStart width (octal_string value)).
Proof. intros H. unfold padStart. apply Forall_app. split; [apply Forall_replicate; lia|by apply octal_characters]. Qed.

Lemma octal_ascii s : Forall (fun u => 48 <= u <= 55) s -> Forall ascii s.
Proof. intros H. eapply Forall_impl; [exact H|]. unfold ascii. cbn. lia. Qed.

Lemma tar_text_ascii bytes at_ len value : Forall ascii value -> (length value <= len)%nat -> tar_text bytes at_ len value = set_at bytes value at_.
Proof. intros Ha Hl. unfold tar_text. by rewrite utf8_encode_ascii, take_ge. Qed.

(** Edits of a block: texts and where they are written. *)
Definition apply_edits (t : list Z) (edits : list (list Z * nat)) : list Z := foldl (fun t e => set_at t e.1 e.2) t edits.

Definition fits (e : list Z * nat) : Prop := (e.2 + length e.1 <= block)%nat.
Definition apart (from to : nat) (e : list Z * nat) : Prop := (to <= e.2 \/ e.2 + length e.1 <= from)%nat.

Lemma edits_length edits : forall t, length t = block -> Forall fits edits -> length (apply_edits t edits) = block.
Proof.
  unfold apply_edits. induction edits as [|e edits IH]; intros t Ht He; [done|]. apply Forall_cons in He as [He Hes]. cbn [foldl].
  apply IH; [|done]. rewrite length_set_at; [done|]. unfold fits in He. lia.
Qed.

Lemma edits_apart from to edits : forall t, length t = block -> Forall fits edits -> Forall (apart from to) edits ->
  subarray (apply_edits t edits) from to = subarray t from to.
Proof.
  unfold apply_edits. induction edits as [|e edits IH]; intros t Ht Hf Ha; [done|]. apply Forall_cons in Hf as [He Hf]. apply Forall_cons in Ha as [Hae Ha].
  cbn [foldl]. unfold fits in He. rewrite IH; [|rewrite length_set_at; lia|done|done]. apply subarray_set_other; [exact Hae|lia].
Qed.

(** The field an edit writes; the rest of it stays zero. *)
Lemma edits_field pre e post to : Forall fits (pre ++ e :: post) -> Forall (apart (e.2) to) (pre ++ post) -> (e.2 + length e.1 <= to)%nat -> (to <= block)%nat ->
  subarray (apply_edits (replicate block 0) (pre ++ e :: post)) e.2 to = e.1 ++ replicate (to - (e.2 + length e.1)) 0.
Proof.
  intros Hf Ha He Hto. apply Forall_app in Hf as [Hfp [Hfe Hfq]%Forall_cons]. apply Forall_app in Ha as [Hap Haq].
  unfold apply_edits. rewrite foldl_app. cbn [foldl]. fold (apply_edits (replicate block 0) pre).
  assert (Hl : length (apply_edits (replicate block 0) pre) = block) by (apply edits_length; [apply length_replicate|done]).
  fold (apply_edits (set_at (apply_edits (replicate block 0) pre) e.1 e.2) post). unfold fits in Hfe.
  rewrite edits_apart; [|rewrite length_set_at; lia|done|done]. rewrite subarray_set_start by lia. f_equal.
  rewrite edits_apart; [|apply length_replicate|done|].
  - apply subarray_zeros. lia.
  - eapply Forall_impl; [exact Hap|]. unfold apart. lia.
Qed.

Definition max_member : Z := 8 ^ 11.

Section Header.
Context (name : jstring) (size : Z) (Hname : Forall ascii name) (Hlen : (length name <= 100)%nat) (Hsize : 0 <= size < max_member).

Abbreviation size_text := (padStart 11 (octal_string size)).

Lemma size_text_length : length size_text = 11%nat.
Proof using Hsize. clear Hname Hlen. apply padStart_length, octal_length; [lia|]. exact Hsize. Qed.

Definition checksum_text (bytes : list Z) : list Z := take 7 (utf8_encode (padStart 6 (octal_string (foldl Z.add 0 bytes)))).

Definition header_edits (checksum : list Z) : list (list Z * nat) :=
  [(name, 0%nat); (js "0000644", 100%nat); (js "0000000", 108%nat); (js "0000000", 116%nat); (size_text, 124%nat); (js "00000000000", 136%nat);
   (replicate 8 32, 148%nat); ([48], 156%nat); (js "ustar" ++ [0], 257%nat); (js "00", 263%nat); (checksum, 148%nat); ([0], 155%nat)].

Lemma tarHeader_edits : exists checksum, (length checksum <= 7)%nat /\ tarHeader name size = apply_edits (replicate block 0) (header_edits checksum).
Proof.
  assert (Hconst : forall t at_ len value b, take len (utf8_encode value) = b -> tar_text t at_ len value = set_at t b at_) by (intros * <-; done).
  unfold tarHeader, tar_octal. rewrite (tar_text_ascii _ _ _ name) by done.
  rewrite (Hconst _ _ _ _ (js "0000644") (eq_refl : take (8 - 1) (utf8_encode (padStart (8 - 1) (octal_string 420))) = js "0000644")).
  rewrite !(fun t at_ => Hconst t at_ _ _ (js "0000000") (eq_refl : take (8 - 1) (utf8_encode (padStart (8 - 1) (octal_string 0))) = js "0000000")).
  rewrite !(fun t at_ => Hconst t at_ _ _ (js "00000000000") (eq_refl : take (12 - 1) (utf8_encode (padStart (12 - 1) (octal_string 0))) = js "00000000000")).
  rewrite (Hconst _ 257%nat _ _ (js "ustar" ++ [0]) (eq_refl : take 6 (utf8_encode (js "ustar" ++ [0])) = js "ustar" ++ [0])).
  rewrite (Hconst _ 263%nat _ _ (js "00") (eq_refl : take 2 (utf8_encode (js "00")) = js "00")).
  rewrite (tar_text_ascii _ 124 (12 - 1) (padStart (12 - 1) (octal_string size))); [|apply octal_ascii, padStart_octal; lia|].
  - change (12 - 1)%nat with 11%nat. unfold tar_text.
    match goal with |- context [foldl Z.add 0 ?b] => generalize (foldl Z.add 0 b) end. intros sum.
    exists (take 7 (utf8_encode (padStart 6 (octal_string sum)))). split; [rewrite length_take; lia|].
    unfold apply_edits, header_edits. cbn [foldl fst snd]. reflexivity.
  - change (12 - 1)%nat with 11%nat. pose proof size_text_length. lia.
Qed.
Lemma header_fits checksum : (length checksum <= 7)%nat -> Forall fits (header_edits checksum).
Proof.
  intros Hc. pose proof size_text_length as Hs. unfold header_edits, fits, block.
  repeat apply Forall_cons_2; try apply Forall_nil_2; cbn [fst snd]; rewrite ?Hs; cbn [js length app replicate]; lia.
Qed.

Ltac apart_fields := cbn [take drop tail app header_edits]; repeat apply Forall_cons_2; try apply Forall_nil_2; unfold apart; cbn [fst snd]; rewrite ?size_text_length; cbn [js length app replicate]; lia.

Lemma header_parts : length (tarHeader name size) = block /\ subarray (tarHeader name size) 0 100 = name ++ replicate (100 - length name) 0 /\
  subarray (tarHeader name size) 124 136 = size_text ++ [0] /\ subarray (tarHeader name size) 257 263 = js "ustar" ++ [0] /\
  subarray (tarHeader name size) 156 157 = [48].
Proof.
  destruct tarHeader_edits as (checksum & Hc & ->). pose proof (header_fits checksum Hc) as Hf. pose proof size_text_length as Hs.
  assert (Hb : (100 <= block /\ 136 <= block /\ 263 <= block /\ 157 <= block)%nat) by (unfold block; lia). split_and!.
  - apply edits_length; [apply length_replicate|done].
  - refine (eq_trans (edits_field [] (name, 0%nat) (tail (header_edits checksum)) 100 _ _ _ _) _); cbn [fst snd]; [done|apart_fields|lia|lia|by rewrite Nat.add_0_l].
  - refine (eq_trans (edits_field (take 4 (header_edits checksum)) (size_text, 124%nat) (drop 5 (header_edits checksum)) 136 _ _ _ _) _); cbn [fst snd];
      [done|apart_fields|rewrite Hs; lia|lia|by rewrite Hs].
  - refine (eq_trans (edits_field (take 8 (header_edits checksum)) (js "ustar" ++ [0], 257%nat) (drop 9 (header_edits checksum)) 263 _ _ _ _) _); cbn [fst snd];
      [done|apart_fields|cbn; lia|lia|done].
  - refine (eq_trans (edits_field (take 7 (header_edits checksum)) ([48], 156%nat) (drop 8 (header_edits checksum)) 157 _ _ _ _) _); cbn [fst snd];
      [done|apart_fields|cbn; lia|lia|done].
Qed.

Lemma header_type : tarHeader name size !! 156%nat = Some 48.
Proof.
  destruct header_parts as (_ & _ & _ & _ & H). apply (f_equal (fun l => l !! 0%nat)) in H. rewrite lookup_subarray, decide_True in H by lia. rewrite Nat.add_0_r in H. exact H.
Qed.
End Header.

(** ** Members *)

Lemma strip_nul_zeros s n : Forall (fun u => u <> 0) s -> strip_nul (s ++ replicate n 0) = s.
Proof.
  intros Hs. induction Hs as [|u s Hu _ IH]; cbn [app strip_nul].
  - destruct n as [|n]; [done|]. cbn [replicate strip_nul]. rewrite (proj2 (forallb_forall _ _)); [done|].
    intros v Hv%list_elem_of_In%elem_of_replicate. destruct Hv as [-> _]. done.
  - destruct (Z.eqb_spec u 0); [done|]. cbn [andb]. by rewrite IH.
Qed.

Lemma trim_digits s : Forall (fun u => 48 <= u <= 55) s -> trim s = s.
Proof.
  intros Hs. assert (Hw : forall u, 48 <= u <= 55 -> is_white_space u = false).
  { intros u Hu. unfold is_white_space. rewrite bool_decide_false; [|intros Hin; repeat (apply elem_of_cons in Hin as [->|Hin]; [lia|]); by apply not_elem_of_nil in Hin].
    destruct (Z.leb_spec 0x2000 u); [lia|done]. }
  assert (He : trimEnd s = s).
  { induction Hs as [|u s Hu Hs IH]; [done|]. cbn [trimEnd]. rewrite IH. destruct s; [by rewrite Hw|done]. }
  unfold trim. rewrite He. destruct Hs as [|u s Hu _]; [done|]. cbn. by rewrite Hw.
Qed.

Lemma span_octal_all s : Forall (fun u => 48 <= u <= 55) s -> span_octal s = s.
Proof. induction 1 as [|u s Hu _ IH]; [done|]. cbn. destruct (Z.leb_spec 48 u), (Z.leb_spec u 55); try lia. cbn. by rewrite IH. Qed.

Lemma parse_octal_text size : 0 <= size < max_member -> parse_octal (trim (strip_nul (padStart 11 (octal_string size) ++ [0]))) = Some size.
Proof.
  intros Hs. pose proof (padStart_octal 11 size ltac:(lia)) as Hd. rewrite (strip_nul_zeros _ 1) by (eapply Forall_impl; [exact Hd|]; cbn; lia).
  rewrite trim_digits by done. pose proof (size_text_length size Hs) as Hl. unfold parse_octal.
  assert (Hv : foldl (fun n u => n * 8 + (u - 48)) 0 (padStart 11 (octal_string size)) = size).
  { unfold padStart. rewrite octal_zeros. apply octal_value; [|lia]. unfold max_member in Hs. split; [lia|]. etransitivity; [apply Hs|]. by apply Z.pow_lt_mono_r. }
  destruct (padStart 11 (octal_string size)) as [|u r] eqn:E; [done|]. assert (Hu : 48 <= u <= 55) by by apply Forall_cons in Hd as [? _].
  assert (Hsign : (match u :: r with 45 :: r => (-1, r) | 43 :: r => (1, r) | _ => (1, u :: r) end) = (1, u :: r)).
  { destruct (decide (u = 45)), (decide (u = 43)); try lia. by repeat case_match. }
  rewrite Hsign, span_octal_all by done. by rewrite Hv, Z.mul_1_l.
Qed.

Definition name_text (name : jstring) : Prop := Forall (fun u => 0 < u < 128) name /\ (length name <= 100)%nat.

(** A member is read back, and the archive goes on after its padding. *)
Lemma member_written name bytes rest : name_text name -> Z.of_nat (length bytes) < max_member ->
  member (mjoin (writeMember name bytes) ++ rest) =
  Ok (Some ({| tm_name := name; tm_size := Z.of_nat (length bytes); tm_bytes := bytes |}, rest)).
Proof.
  intros [Hn Hlen] Hsize. assert (Ha : Forall ascii name) by (eapply Forall_impl; [exact Hn|]; unfold ascii; cbn; lia).
  set (size := Z.of_nat (length bytes)). assert (Hs : 0 <= size < max_member) by lia.
  destruct (header_parts name size Ha Hlen Hs) as (Hl & Hname & Htext & Hmagic & _). pose proof (header_type name size Ha Hlen Hs) as Htype.
  set (padding := ((block - length bytes mod block) mod block)%nat).
  assert (Hw : mjoin (writeMember name bytes) = tarHeader name size ++ bytes ++ replicate padding 0).
  { unfold writeMember. fold padding size. destruct padding; cbn [app]; cbv [mjoin list_join]; by rewrite ?app_nil_r. }
  rewrite Hw, <- !app_assoc. unfold member. rewrite length_app, Hl. destruct (Nat.ltb_spec (block + length (bytes ++ replicate padding 0 ++ rest)) block); [lia|].
  rewrite take_app_le, take_ge, drop_app_ge by lia. rewrite Hl, Nat.sub_diag, drop_0.
  assert (Hz : forallb (Z.eqb 0) (tarHeader name size) = false).
  { apply not_true_is_false. intros Hz. rewrite forallb_forall in Hz. apply list_elem_of_lookup_2, list_elem_of_In, Hz in Htype. done. }
  rewrite Hz, Hmagic, Hname, Htext. unfold decode_text. rewrite (text_decode_ascii (js "ustar" ++ [0])) by ascii_literal.
  cbn [rbind]. rewrite Htype. rewrite !bool_decide_true by done. cbn [andb rguard rbind].
  rewrite text_decode_ascii by (apply Forall_app; split; [done|apply Forall_replicate; unfold ascii; lia]). cbn [rbind].
  rewrite text_decode_ascii by (apply Forall_app; split; [apply octal_ascii, padStart_octal; lia|ascii_literal]). cbn [rbind].
  rewrite parse_octal_text by done. assert (Hsafe : safe size = true).
  { unfold safe, MAX_SAFE_INTEGER. apply Z.leb_le. unfold max_member in Hs. lia. }
  rewrite Hsafe. rewrite (proj2 (Z.leb_le 0 size)) by lia. rewrite (proj2 (Z.leb_le size _)) by (unfold size; rewrite length_app; lia).
  cbn [andb rguard rbind]. unfold size. rewrite Nat2Z.id. rewrite take_app_le, take_ge by lia. rewrite strip_nul_zeros by (eapply Forall_impl; [exact Hn|]; cbn; lia).
  fold padding. rewrite drop_app_ge by lia. replace (length bytes + padding - length bytes)%nat with padding by lia.
  rewrite drop_app_ge by (rewrite length_replicate; lia). by rewrite length_replicate, Nat.sub_diag, drop_0.
Qed.

Lemma writeMember_length name bytes : name_text name -> Z.of_nat (length bytes) < max_member -> (block <= length (mjoin (writeMember name bytes)))%nat.
Proof.
  intros [Hn Hlen] Hsize. assert (Ha : Forall ascii name) by (eapply Forall_impl; [exact Hn|]; unfold ascii; cbn; lia).
  destruct (header_parts name (Z.of_nat (length bytes)) Ha Hlen ltac:(lia)) as (Hl & _). unfold writeMember.
  rewrite join_app, length_app. change (mjoin [tarHeader name (Z.of_nat (length bytes)); bytes]) with (tarHeader name (Z.of_nat (length bytes)) ++ bytes ++ []).
  rewrite length_app, Hl. lia.
Qed.
