(* ===== verification/ObjectArchiveProperties.v ===== *)
(** * Theorems about bundles

    What is exported is imported again, whatever the chunks in which it arrives;
    what is imported has been checked as a whole. *)

From stdpp Require Import base list strings pretty sorting.
From Stdlib Require Import ZArith Lia.
From S2P Require Import Prelude SessionTypes Numbers Utf8 Cbor CborProperties Compaction CompactionProperties EditDiff Json JsonProperties JsonViews SessionManager.
From S2P Require Import ObjectBundle ObjectClosureProperties ObjectArchive ObjectTar.

Open Scope Z_scope.

(** ** JSON text as bytes *)

(** A string without unpaired surrogates. *)
Definition unicode (s : jstring) : Prop := Forall code_unit s /\ well_formed s = true.

Lemma well_formed_app a : forall b, well_formed a = true -> well_formed b = true -> well_formed (a ++ b) = true.
Proof.
  induction a as [|u s IH1 IH2] using jstring_ind2; intros b; [done|]. cbn [app well_formed]. destruct (is_high_surrogate u).
  - destruct s as [|v s]; [done|]. cbn [app]. rewrite !andb_true_iff. intros [Hv Hs] Hb. split; [done|]. by apply (IH2 v s).
  - rewrite !andb_true_iff. intros [Hu Hs] Hb. split; [done|]. by apply IH1.
Qed.

Lemma unicode_app a b : unicode a -> unicode b -> unicode (a ++ b).
Proof. intros [? ?] [? ?]. split; [by apply Forall_app|by apply well_formed_app]. Qed.

Lemma unicode_ascii s : Forall ascii s -> unicode s.
Proof.
  induction 1 as [|u s Hu _ [IH1 IH2]]; [by split|]. unfold ascii in Hu. split; [constructor; [unfold code_unit; lia|done]|].
  cbn [well_formed]. unfold is_high_surrogate, is_low_surrogate. destruct (Z.leb_spec 0xD800 u), (Z.leb_spec 0xDC00 u); try lia. cbn. done.
Qed.

Lemma hex_digit_ascii d : 0 <= d < 16 -> ascii (hex_digit d).
Proof. intros H. unfold hex_digit, ascii. destruct (Z.ltb_spec d 10); lia. Qed.

Lemma unicode_escape_ascii u : code_unit u -> Forall ascii (unicode_escape u).
Proof.
  intros [? ?]. pose proof (Z.mod_pos_bound (u / 256) 16). pose proof (Z.mod_pos_bound (u / 16) 16). pose proof (Z.mod_pos_bound u 16).
  pose proof (Z.div_pos u 4096). pose proof (Z.div_lt_upper_bound u 4096 16).
  unfold unicode_escape. cbn [js app]. repeat (apply Forall_cons_2; [first [apply hex_digit_ascii; lia|unfold ascii; cbn; lia]|]). apply Forall_nil_2.
Qed.

Lemma escape_unicode s : Forall code_unit s -> unicode (escape_string s).
Proof.
  induction s as [|u s IH1 IH2] using jstring_ind2; intros Hs; [by split|]. apply Forall_cons in Hs as [Hu Hs]. cbn [escape_string].
  fold (is_high_surrogate u). fold (is_low_surrogate u). destruct (is_high_surrogate u) eqn:Eh.
  - destruct s as [|v s]; [by apply unicode_ascii, unicode_escape_ascii|]. fold (is_low_surrogate v). destruct (is_low_surrogate v) eqn:El.
    + apply Forall_cons in Hs as [Hv Hs]. destruct (IH2 v s eq_refl Hs) as [Hc Hw]. split; [by do 2 (apply Forall_cons_2; [done|])|]. cbn [well_formed]. by rewrite Eh, El, Hw.
    + apply unicode_app; [by apply unicode_ascii, unicode_escape_ascii|by apply IH1].
  - destruct (is_low_surrogate u) eqn:El; (apply unicode_app; [|by apply IH1]).
    + by apply unicode_ascii, unicode_escape_ascii.
    + unfold escape_unit. repeat (case_match; [first [by apply unicode_ascii, unicode_escape_ascii|apply unicode_ascii; ascii_literal]|]).
      split; [by apply Forall_cons_2|]. cbn [well_formed]. by rewrite Eh, El.
Qed.

Lemma quote_unicode s : Forall code_unit s -> unicode (quote_string s).
Proof. intros Hs. unfold quote_string. repeat apply unicode_app; [apply unicode_ascii; ascii_literal|by apply escape_unicode|apply unicode_ascii; ascii_literal]. Qed.

Lemma join_unicode l : Forall unicode l -> unicode (join (js ",") l).
Proof.
  induction 1 as [|s l Hs Hl IH]; [by split|]. cbn [join]. destruct l as [|s' l]; [done|]. apply unicode_app; [done|].
  apply unicode_app; [apply unicode_ascii; ascii_literal|done].
Qed.

Section Text.
Context (number_to_string : number -> jstring) (parse_number : jstring -> option number).
Abbreviation ok := (json_ok number_to_string parse_number).
Abbreviation stringify := (json_stringify number_to_string).

Lemma stringify_unicode v : ok v -> unicode (stringify v).
Proof.
  induction v as [|b|n|s|l IH|l IH] using json_rect_nested; intros Hok; inversion Hok as [|?|? Hn|? Hs|? Hl|? Hk Hl Hnd Hown]; subst; cbn [json_stringify].
  - apply unicode_ascii. ascii_literal.
  - apply unicode_ascii. destruct b; ascii_literal.
  - match goal with H : number_ok _ _ n |- _ => destruct H as (-> & _ & Hall & _) end. apply unicode_ascii. eapply Forall_impl; [exact Hall|].
    unfold numeric, ascii. cbn. intros u. rewrite !orb_true_iff, ?andb_true_iff, ?Z.leb_le, ?Z.eqb_eq. lia.
  - by apply quote_unicode.
  - repeat apply unicode_app; [apply unicode_ascii; ascii_literal| |apply unicode_ascii; ascii_literal]. apply join_unicode, Forall_lookup. intros i x Hx.
    change (map stringify l) with (stringify <$> l) in Hx. rewrite list_lookup_fmap in Hx. apply fmap_Some in Hx as (y & Hy & ->). by eapply IH, Hl.
  - repeat apply unicode_app; [apply unicode_ascii; ascii_literal| |apply unicode_ascii; ascii_literal]. apply join_unicode, Forall_lookup. intros i x Hx.
    change (map (fun p => quote_string p.1 ++ js ":" ++ stringify p.2) l) with ((fun p => quote_string p.1 ++ js ":" ++ stringify p.2) <$> l) in Hx.
    rewrite list_lookup_fmap in Hx. apply fmap_Some in Hx as ([k y] & Hy & ->). cbn [fst snd].
    apply unicode_app; [by eapply quote_unicode, Hk|]. apply unicode_app; [apply unicode_ascii; ascii_literal|by eapply IH, Hl].
Qed.

Lemma object_text_decode l : ok (JObject l) -> text_decode (utf8_encode (stringify (JObject l))) = Some (stringify (JObject l)).
Proof.
  intros Hok. destruct (stringify_unicode (JObject l) Hok) as [Hc Hw]. apply utf8_roundtrip in Hw; [|done]. rewrite <- Hw.
  cbn [json_stringify]. cbn [js app]. unfold utf8_encode. cbn [scalar_values]. reflexivity.
Qed.

Lemma ok_array l : Forall ok l -> ok (JArray l).
Proof. intros Hl. constructor. intros i x Hx. rewrite Forall_lookup in Hl. by eapply Hl. Qed.

Lemma ok_object l : Forall (fun k => array_index k = None /\ Forall code_unit k) l.*1 -> Forall ok l.*2 -> NoDup l.*1 -> ok (JObject l).
Proof.
  intros Hk Hv Hnd. constructor; [| |done|].
  - intros i k x Hx. rewrite Forall_forall in Hk. apply (Hk k). apply (list_elem_of_fmap_2 fst l (k, x)). by eapply list_elem_of_lookup_2.
  - intros i k x Hx. rewrite Forall_forall in Hv. apply (Hv x). apply (list_elem_of_fmap_2 snd l (k, x)). by eapply list_elem_of_lookup_2.
  - apply own_properties_names. eapply Forall_impl; [exact Hk|]. cbn. tauto.
Qed.

Ltac object_names := repeat (apply Forall_cons_2; [split; [reflexivity|cbn; repeat (apply Forall_cons_2; [unfold code_unit; lia|]); apply Forall_nil_2]|]); apply Forall_nil_2.

Definition text_ok (s : jstring) : Prop := Forall code_unit s.
Definition root_ok (r : BundleRoot) : Prop := text_ok (br_hash r) /\ text_ok (br_codec r).
Definition session_ok (s : BundleSession) : Prop := text_ok (bs_sessionId s) /\ Forall text_ok (bs_checkpointIds s) /\ Forall root_ok (bs_roots s).
Definition pin_ok (p : BundlePin) : Prop :=
  text_ok (bp_id p) /\ text_ok (bp_scope p) /\ text_ok (bp_root p) /\ match bp_reason p with Some reason => text_ok reason | None => True end.

Lemma root_json_ok r : root_ok r -> ok (root_json r).
Proof.
  intros [? ?]. apply ok_object; cbn [fmap list_fmap fst snd]; [object_names| |refine (bool_decide_eq_true_1 _ _); vm_compute; reflexivity].
  repeat (apply Forall_cons_2; [by constructor|]). apply Forall_nil_2.
Qed.

Lemma roots_json_ok l : Forall root_ok l -> ok (JArray (map root_json l)).
Proof. intros Hl. apply ok_array. apply Forall_fmap. eapply Forall_impl; [exact Hl|]. apply root_json_ok. Qed.

Lemma session_json_ok s : session_ok s -> ok (session_json s).
Proof.
  intros (? & Hc & Hr). apply ok_object; cbn [fmap list_fmap fst snd]; [object_names| |refine (bool_decide_eq_true_1 _ _); vm_compute; reflexivity].
  apply Forall_cons_2; [by constructor|]. apply Forall_cons_2; [|apply Forall_cons_2; [by apply roots_json_ok|apply Forall_nil_2]].
  apply ok_array, Forall_fmap. eapply Forall_impl; [exact Hc|]. intros t Ht. by constructor.
Qed.

Lemma pin_json_ok p : pin_ok p -> ok (pin_json p).
Proof.
  intros (? & ? & ? & Hr). unfold pin_json. destruct (bp_reason p) as [reason|]; (apply ok_object; cbn [fmap list_fmap fst snd app];
    [object_names| |refine (bool_decide_eq_true_1 _ _); vm_compute; reflexivity]; repeat (apply Forall_cons_2; [by constructor|]); apply Forall_nil_2).
Qed.

(** A manifest of well-formed parts is JSON that reads back. *)
Lemma manifest_json_ok m : text_ok (bm_createdAt m) -> Forall session_ok (bm_sessions m) -> Forall root_ok (bm_roots m) -> text_ok (bm_digest m) ->
  Forall pin_ok (bm_pins m) -> Forall (fun z => number_ok number_to_string parse_number (number_of_Z z)) [1; bm_objectCount m; bm_totalBytes m] ->
  ok (manifest_json m).
Proof.
  intros Ht Hs Hr Hd Hp Hn. apply Forall_cons in Hn as [H1 Hn]. apply Forall_cons in Hn as [Hc Hn]. apply Forall_cons in Hn as [Hb _].
  apply ok_object; cbn [fmap list_fmap fst snd]; [object_names| |refine (bool_decide_eq_true_1 _ _); vm_compute; reflexivity].
  apply Forall_cons_2; [constructor; cbn; repeat (apply Forall_cons_2; [unfold code_unit; lia|]); apply Forall_nil_2|].
  apply Forall_cons_2; [by constructor|]. apply Forall_cons_2; [by constructor|].
  apply Forall_cons_2; [apply ok_array, Forall_fmap; eapply Forall_impl; [exact Hs|]; apply session_json_ok|].
  apply Forall_cons_2; [by apply roots_json_ok|].
  apply Forall_cons_2; [|apply Forall_cons_2; [apply ok_array, Forall_fmap; eapply Forall_impl; [exact Hp|]; apply pin_json_ok|apply Forall_nil_2]].
  apply ok_object; cbn [fmap list_fmap fst snd]; [object_names| |refine (bool_decide_eq_true_1 _ _); vm_compute; reflexivity].
  repeat (apply Forall_cons_2; [by constructor|]). apply Forall_nil_2.
Qed.
End Text.

(** ** Object members *)

#[local] Opaque writeMember tarHeader.

Section Bundle.
Context (sha256 : list Z -> list Z) (number_to_string : number -> jstring) (parse_number : jstring -> option number).
Context (localeCompare : jstring -> jstring -> Z) (registry : ClosureVisitorRegistry).
Context (sha256_bytes : forall data, length (sha256 data) = 32%nat /\ Forall byte (sha256 data)).
Context `{Hcollation : !Collation localeCompare}.
Context (registry_valid : registry_ok number_to_string parse_number registry).

Abbreviation ok := (json_ok number_to_string parse_number).
Abbreviation stringify := (json_stringify number_to_string).
Abbreviation walk_store := (walk_loop sha256 number_to_string parse_number registry).

Lemma hash_ascii h : isObjectHash h = true -> Forall (fun u => 0 < u < 128) h /\ length h = 64%nat.
Proof.
  unfold isObjectHash. rewrite andb_true_iff, Nat.eqb_eq, forallb_forall. intros [Hl Hh]. split; [|done]. apply Forall_forall. intros u Hu%list_elem_of_In%Hh.
  unfold hex_lower in Hu. rewrite orb_true_iff, !andb_true_iff, !Z.leb_le in Hu. lia.
Qed.

Definition object_path (h : ObjectHash) : jstring := js "objects/" ++ h.

Lemma object_path_text h : isObjectHash h = true -> name_text (object_path h) /\ object_name (object_path h) = Some h.
Proof.
  intros Hh. destruct (hash_ascii h Hh) as [Ha Hl]. split; [split|].
  - apply Forall_app. split; [|done]. cbn. repeat (apply Forall_cons_2; [lia|]). apply Forall_nil_2.
  - unfold object_path. rewrite length_app, Hl. cbn. lia.
  - unfold object_name, object_path. assert (Hs : forall p s, strip_prefix p (p ++ s) = Some s).
    { induction p as [|u p IH]; intros s; [done|]. cbn. by rewrite Z.eqb_refl. }
    by rewrite Hs, Hh.
Qed.

(** Objects under the addresses of their bytes, in order, of sizes tar can
    write. *)
Definition hash_lt (a b : ObjectHash) : Prop := jstring_leb b a = false.

Definition sound_object (p : ObjectHash * list Z) : Prop :=
  isObjectHash p.1 = true /\ hashObject sha256 p.2 = p.1 /\ Z.of_nat (length p.2) < max_member.

Definition object_members (l : list (ObjectHash * list Z)) : list Z := mjoin (map (fun p => mjoin (writeMember (object_path p.1) p.2)) l).

Lemma zeros_end rest : member (replicate (block * 2) 0 ++ rest) = Ok None.
Proof.
  unfold member. rewrite length_app, length_replicate. destruct (Nat.ltb_spec (block * 2 + length rest) block) as [Hlt|_]; [unfold block in Hlt; lia|].
  rewrite take_app_le by (rewrite length_replicate; unfold block; lia). rewrite take_replicate, (proj2 (forallb_forall _ _)); [done|].
  intros u Hu%list_elem_of_In%elem_of_replicate. by destruct Hu as [-> _].
Qed.

Lemma read_written l : forall fuel previous staged, (length l < fuel)%nat -> Forall sound_object l -> StronglySorted hash_lt (map fst l) ->
  (forall h, h ∈ map fst l -> hash_lt previous h) -> (forall h, map_has h staged = true -> jstring_leb h previous = true) ->
  read_objects sha256 fuel (object_members l ++ replicate (block * 2) 0) previous staged = Ok (staged ++ l).
Proof.
  induction l as [|[h bytes] l IH]; intros fuel previous staged Hf Hs Hso Hp Hst; (destruct fuel as [|fuel]; [cbn in Hf; lia|]); cbn [read_objects].
  - change (object_members []) with (@nil Z). cbn [app]. rewrite <- (app_nil_r (replicate (block * 2) 0)), zeros_end. cbn. by rewrite app_nil_r.
  - apply Forall_cons in Hs as [(Hh & Hb & Hz) Hs]. cbn [fst snd map] in *. apply StronglySorted_inv in Hso as [Hso Hall].
    destruct (object_path_text h Hh) as [Hn Hname].
    change (object_members ((h, bytes) :: l)) with (mjoin (writeMember (object_path h) bytes) ++ object_members l).
    rewrite <- app_assoc, member_written by done. cbn [rbind tm_name tm_size tm_bytes]. rewrite Hname.
    assert (Hlt : hash_lt previous h) by (apply Hp; left). unfold hash_lt in Hlt. rewrite Hlt, bool_decide_true by done. cbn [negb andb rguard rbind].
    unfold assertObjectBytes. rewrite bool_decide_true by done. cbn [rguard rbind]. assert (Hfresh : map_has h staged = false).
    { destruct (map_has h staged) eqn:E; [|done]. apply Hst in E. congruence. }
    rewrite map_set_fresh by done. rewrite IH; [by rewrite <- app_assoc|cbn in Hf; lia|done|done| |].
    + intros h' Hh'. rewrite Forall_forall in Hall. by apply Hall.
    + intros h'. rewrite <- (map_set_fresh h bytes staged) by done. rewrite map_has_set, orb_true_iff, bool_decide_eq_true. intros [->|Hin].
      * destruct (jstring_leb_total h h); done.
      * eapply jstring_leb_trans; [by apply Hst|]. destruct (jstring_leb_total h previous); congruence.
Qed.

Lemma hash_lt_trans a b c : hash_lt a b -> hash_lt b c -> hash_lt a c.
Proof.
  unfold hash_lt. intros Hab Hbc. destruct (jstring_leb c a) eqn:E; [|done]. destruct (jstring_leb_total b c) as [Hb|Hb]; [|congruence].
  by rewrite (jstring_leb_trans b c a Hb E) in Hab.
Qed.

(** Members that are not in the order of code units are refused. *)
Lemma read_unordered l : forall fuel previous staged, (length l < fuel)%nat -> Forall sound_object l -> ~ StronglySorted hash_lt (previous :: map fst l) ->
  read_objects sha256 fuel (object_members l ++ replicate (block * 2) 0) previous staged = bundle_error "Invalid object member sequence".
Proof.
  induction l as [|[h bytes] l IH]; intros fuel previous staged Hf Hs Hn; (destruct fuel as [|fuel]; [cbn in Hf; lia|]); cbn [read_objects].
  - destruct Hn. repeat constructor.
  - apply Forall_cons in Hs as [(Hh & Hb & Hz) Hs]. cbn [fst snd map] in *. destruct (object_path_text h Hh) as [Hname Hobj].
    change (object_members ((h, bytes) :: l)) with (mjoin (writeMember (object_path h) bytes) ++ object_members l).
    rewrite <- app_assoc, member_written by done. cbn [rbind tm_name tm_size tm_bytes]. rewrite Hobj.
    destruct (jstring_leb h previous) eqn:E; [done|]. rewrite bool_decide_true by done. cbn [negb andb rguard rbind].
    unfold assertObjectBytes. rewrite bool_decide_true by done. cbn [rguard rbind]. apply IH; [cbn in Hf; lia|done|].
    intros Hsorted. destruct Hn. constructor; [done|]. apply StronglySorted_inv in Hsorted as [_ Hall]. constructor; [done|].
    eapply Forall_impl; [exact Hall|]. intros h'. by apply hash_lt_trans.
Qed.

(** Distinct addresses whose collation order is the order of code units. *)
Lemma collated_in_order order : StronglySorted (collated localeCompare) order -> NoDup order ->
  (forall a b, a ∈ order -> b ∈ order -> (localeCompare a b <=? 0) = jstring_leb a b) -> StronglySorted hash_lt order.
Proof.
  intros Hs Hd Hagree. induction Hs as [|h order _ IH Hh]; [constructor|]. apply NoDup_cons in Hd as [Hn Hd]. constructor.
  - apply IH; [done|]. intros a b Ha Hb. apply Hagree; by right.
  - rewrite Forall_forall in Hh |- *. intros h' Hin. unfold hash_lt. destruct (jstring_leb h' h) eqn:E; [|done]. destruct Hn.
    rewrite (jstring_leb_antisym h h'); [done| |done]. rewrite <- Hagree by (by constructor). apply Z.leb_le. by apply Hh.
Qed.

(** What an export writes after its manifest. *)
Lemma export_members store objects chunks : export_objects sha256 store objects = (chunks, Ok tt) ->
  exists l, map fst l = map co_hash objects /\ mjoin chunks = object_members l /\
  Forall (fun p => store p.1 = Ok (Some p.2) /\ hashObject sha256 p.2 = p.1) l.
Proof.
  revert chunks. induction objects as [|o objects IH]; intros chunks; cbn [export_objects]; [intros [= <-]; by exists []|].
  destruct (store (co_hash o)) as [[bytes|]|e] eqn:Es; try done. unfold assertObjectBytes. case_bool_decide as Hb; [|done]. cbn [rguard].
  destruct (export_objects sha256 store objects) as [cs r] eqn:Ee. intros H. apply pair_equal_spec in H as [<- ->]. destruct (IH cs eq_refl) as (l & Hl & Hm & Hall).
  exists ((co_hash o, bytes) :: l). split; [cbn; by rewrite Hl|]. split; [|by constructor].
  rewrite join_app, Hm. reflexivity.
Qed.

(** ** Manifests *)

Lemma manifest_parts_written m : manifest_parts (manifest_json m) =
  Ok (map root_json (bm_roots m), JObject [(js "objectCount", JNumber (number_of_Z (bm_objectCount m)));
    (js "totalBytes", JNumber (number_of_Z (bm_totalBytes m))); (js "digest", JString (bm_digest m))]).
Proof. reflexivity. Qed.

Lemma push_root_written pending r : push_json_root registry pending (root_json r) = push_root registry pending (CR_root (br_hash r) (br_codec r)).
Proof. reflexivity. Qed.

Lemma push_roots_written roots : forall pending, rfold (push_json_root registry) pending (map root_json roots) =
  rfold (push_root registry) pending (map (fun r => CR_root (br_hash r) (br_codec r)) roots).
Proof.
  induction roots as [|r roots IH]; intros pending; [done|]. cbn [map rfold]. rewrite push_root_written.
  destruct (push_root registry pending (CR_root (br_hash r) (br_codec r))); [apply IH|done].
Qed.

Lemma members_length l : Forall sound_object l -> (length l <= length (object_members l))%nat.
Proof.
  induction 1 as [|[h bytes] l (Hh & _ & Hz) _ IH]; [done|]. change (object_members ((h, bytes) :: l)) with (mjoin (writeMember (object_path h) bytes) ++ object_members l).
  rewrite length_app. destruct (object_path_text h Hh) as [Hn _]. pose proof (writeMember_length (object_path h) bytes Hn Hz). unfold block in *. cbn [length fst snd] in *. lia.
Qed.

(** ** Exported archives *)

Section Export.
Context (store : ObjectHash -> Result ObjectError (option (list Z))).
Context (roots : list BundleRoot) (sessions : list BundleSession) (pins : list BundlePin) (createdAt : jstring).

(** The parts of a successful export. *)
Lemma export_parts rounds chunks manifest :
  exportBundle sha256 number_to_string parse_number localeCompare registry store rounds roots sessions pins createdAt = Some (chunks, Ok manifest) ->
  exists pending visited l, rfold (push_root registry) [] (map (fun r => CR_root (br_hash r) (br_codec r)) (bm_roots manifest)) = Ok pending /\
  walk_store store rounds [] pending = Some (Ok visited) /\
  map fst l = map co_hash (cw_objects (closure_walk sha256 localeCompare visited)) /\
  Forall (fun p => store p.1 = Ok (Some p.2) /\ hashObject sha256 p.2 = p.1) l /\
  bm_objectCount manifest = cw_objectCount (closure_walk sha256 localeCompare visited) /\
  bm_totalBytes manifest = cw_totalBytes (closure_walk sha256 localeCompare visited) /\
  bm_digest manifest = cw_digest (closure_walk sha256 localeCompare visited) /\
  mjoin chunks = mjoin (writeMember (js "manifest.json") (utf8_encode (stringify (manifest_json manifest)))) ++ object_members l ++ replicate (block * 2) 0.
Proof.
  unfold exportBundle, walk, walk_pending. set (sorted := stable_sort _ roots).
  destruct (rfold (push_root registry) [] _) as [pending|e] eqn:Er; [|done].
  destruct (walk_store store rounds [] pending) as [[visited|e]|] eqn:Ew; cbn [fmap option_fmap option_map rmap]; try done.
  destruct (export_objects sha256 store _) as [cs [[]|e]] eqn:Ee; [|done]. intros [= <- <-]. apply export_members in Ee as (l & Hl & Hm & Hall).
  exists pending, visited, l. cbn [bm_roots bm_objectCount bm_totalBytes bm_digest]. split_and!; try done.
  rewrite !join_app, Hm. done.
Qed.

(** What such an archive is checked to hold. *)
Lemma check_exported rounds chunks manifest :
  exportBundle sha256 number_to_string parse_number localeCompare registry store rounds roots sessions pins createdAt = Some (chunks, Ok manifest) ->
  ok (manifest_json manifest) -> Z.of_nat (length (utf8_encode (stringify (manifest_json manifest)))) < max_member ->
  (forall h bytes, store h = Ok (Some bytes) -> Z.of_nat (length bytes) < max_member) ->
  safe (bm_objectCount manifest) = true -> safe (bm_totalBytes manifest) = true ->
  exists pending visited l, rfold (push_root registry) [] (map (fun r => CR_root (br_hash r) (br_codec r)) (bm_roots manifest)) = Ok pending /\
  walk_store store rounds [] pending = Some (Ok visited) /\
  (forall h, map_has h l = map_has h visited) /\ Forall (fun p => store p.1 = Ok (Some p.2) /\ hashObject sha256 p.2 = p.1) l /\
  map fst l = map co_hash (cw_objects (closure_walk sha256 localeCompare visited)) /\ NoDup (map fst l) /\ StronglySorted (collated localeCompare) (map fst l) /\
  (StronglySorted hash_lt (map fst l) -> checkArchive sha256 number_to_string parse_number localeCompare registry rounds (mjoin chunks) =
    Some (Ok (manifest_json manifest, map root_json (bm_roots manifest), l, closure_walk sha256 localeCompare visited))) /\
  (~ StronglySorted hash_lt (map fst l) -> checkArchive sha256 number_to_string parse_number localeCompare registry rounds (mjoin chunks) =
    Some (bundle_error "Invalid object member sequence")).
Proof.
  intros He Hok Hsize Hsizes Hsc Hst. destruct (export_parts rounds chunks manifest He) as (pending & visited & l & Hr & Hw & Hl & Hall & Hoc & Htb & Hdg & Hj).
  destruct (walk_visited sha256 number_to_string parse_number registry registry_valid store rounds pending visited Hw) as (Hnd & Hiff & Hfound).
  assert (Hhash : forall h, map_has h visited = true -> isObjectHash h = true).
  { intros h [n Hn]%map_has_Some. destruct (Hfound h n Hn) as (bytes & refs & (_ & <- & _) & _). by apply hashObject_hash. }
  destruct (closure_walk_sorted sha256 localeCompare visited Hnd) as (Hsorted & Hdistinct & Hperm).
  set (w := closure_walk sha256 localeCompare visited) in *.
  assert (Hkeys : forall h, h ∈ map fst l <-> map_has h visited = true).
  { intros h. rewrite Hl, (Permutation_map co_hash Hperm), map_map, map_has_keys. done. }
  assert (Hhas : forall h, map_has h l = map_has h visited).
  { intros h. destruct (map_has h visited) eqn:E; [by apply map_has_keys, Hkeys|]. destruct (map_has h l) eqn:E'; [|done]. apply map_has_keys, Hkeys in E'. congruence. }
  assert (Hsound : Forall sound_object l).
  { apply Forall_forall. intros [h bytes] Hin. rewrite Forall_forall in Hall. destruct (Hall _ Hin) as [Hs Hb]. cbn [fst snd] in *.
    split; [|split; [done|by eapply Hsizes]]. cbn. rewrite <- Hb. by apply hashObject_hash. }
  exists pending, visited, l. rewrite <- Hl in Hsorted, Hdistinct. do 7 (split; [done|]). unfold checkArchive. rewrite Hj, member_written; [|split; [cbn; repeat (apply Forall_cons_2; [lia|]); apply Forall_nil_2|cbn; lia]|done].
  cbn [rbind tm_name tm_bytes]. rewrite bool_decide_true by done. cbn [rguard rbind]. unfold decode_text.
  assert (Hdec : text_decode (utf8_encode (stringify (manifest_json manifest))) = Some (stringify (manifest_json manifest)))
    by exact (object_text_decode number_to_string parse_number _ Hok).
  rewrite Hdec. cbn [rbind].
  rewrite json_roundtrip by done. rewrite manifest_parts_written. cbn [rbind fst snd]. assert (Hfirst : forall h, h ∈ map fst l -> hash_lt [] h).
  { intros [|u h]; [|done]. intros Hin%Hkeys%Hhash. done. }
  split; intros Hsl; [|rewrite read_unordered; [done|rewrite length_app; pose proof (members_length l Hsound); lia|done|]; intros [Hord _]%StronglySorted_inv; done].
  rewrite read_written; [|rewrite length_app; pose proof (members_length l Hsound); lia|done|done|done|done].
  cbn [rbind app]. rewrite push_roots_written, Hr. cbn [walk_pending].
    destruct (walk_agree sha256 number_to_string parse_number registry store (fun h => Ok (map_get h l)) rounds [] pending visited Hw) as [_ Hw'].
    { intros h Hh. rewrite <- Hhas in Hh. apply map_has_Some in Hh as [bytes Hb]. rewrite Hb. apply map_get_In in Hb. rewrite Forall_forall in Hall. by destruct (Hall _ Hb) as [Hs _]. }
    rewrite Hw'. cbn [fmap option_fmap option_map rmap]. fold w. unfold closure_matches.
    assert (Hcount : cw_objectCount w = Z.of_nat (length l)) by (rewrite <- (length_map fst l), Hl, length_map; done).
    change (map_get (js "objectCount") _) with (Some (JNumber (number_of_Z (bm_objectCount manifest)))).
    change (map_get (js "totalBytes") _) with (Some (JNumber (number_of_Z (bm_totalBytes manifest)))).
    change (map_get (js "digest") _) with (Some (JString (bm_digest manifest))). cbn [is_count].
    rewrite !integer_value_number_of_Z, Hoc, Htb, Hdg by done. rewrite !bool_decide_true by done. cbn [andb].
    rewrite (proj2 (Z.eqb_eq _ _)) by done. cbn [rguard rbind]. rewrite (proj2 (forallb_forall _ _)); [done|].
    intros p Hp%list_elem_of_In. apply bool_decide_eq_true. rewrite <- Hl. by apply (list_elem_of_fmap_2 fst).
Qed.
End Export.

(** ** Imports *)

(** What a store promises of [put], whether it succeeds or not; [contents] is what
    it holds. *)
Class ObjectStoreSpec {W : Type} (put : list Z -> W -> Result ObjectError ObjectHash * W) (contents : W -> ObjectHash -> option (list Z)) : Prop := {
  put_frame : forall bytes w h, h <> hashObject sha256 bytes -> contents (put bytes w).2 h = contents w h;
  put_hash : forall bytes w, contents (put bytes w).2 (hashObject sha256 bytes) = contents w (hashObject sha256 bytes) \/
    contents (put bytes w).2 (hashObject sha256 bytes) = Some bytes;
  put_Ok : forall bytes w h, (put bytes w).1 = Ok h -> h = hashObject sha256 bytes /\ contents (put bytes w).2 h = Some bytes }.

Lemma read_objects_sound fuel : forall archive previous staged result, read_objects sha256 fuel archive previous staged = Ok result ->
  (forall h bytes, map_get h staged = Some bytes -> hashObject sha256 bytes = h) -> forall h bytes, map_get h result = Some bytes -> hashObject sha256 bytes = h.
Proof.
  induction fuel as [|fuel IH]; intros archive previous staged result; cbn [read_objects]; [done|]. intros Hr Hs. apply rbind_Ok_inv in Hr as ([[item rest]|] & _ & Hr).
  - destruct (object_name (tm_name item)) as [hash|]; [|done]. apply rguard_bind_Ok in Hr as [_ Hr]. unfold assertObjectBytes in Hr.
    apply rguard_bind_Ok in Hr as [Hb%bool_decide_eq_true Hr]. eapply IH; [exact Hr|]. intros h bytes. rewrite map_get_set. case_decide; [intros [= <-]; by subst|apply Hs].
  - injection Hr as <-. done.
Qed.

(** An archive that passes the check holds exactly the closure of its roots, every
    object under the address of its bytes. *)
Lemma check_sound rounds archive manifest roots staged w :
  checkArchive sha256 number_to_string parse_number localeCompare registry rounds archive = Some (Ok (manifest, roots, staged, w)) ->
  (forall h bytes, map_get h staged = Some bytes -> hashObject sha256 bytes = h) /\
  exists pending, rfold (push_json_root registry) [] roots = Ok pending /\ 
  (forall h, map_has h staged = true <-> in_closure sha256 number_to_string parse_number registry (fun h => Ok (map_get h staged)) pending h) /\
  (forall h, h ∈ map co_hash (cw_objects w) <-> map_has h staged = true).
Proof.
  unfold checkArchive. destruct (rbind (member archive) _) as [[[[m rs] closure] st]|e] eqn:Ea; [|done].
  assert (Hs : forall h bytes, map_get h st = Some bytes -> hashObject sha256 bytes = h).
  { apply rbind_Ok_inv in Ea as ([[first rest]|] & _ & Ea); [|done]. apply rguard_bind_Ok in Ea as [_ Ea]. apply rbind_Ok_inv in Ea as (text & _ & Ea).
    destruct (json_parse parse_number text) as [value|]; [|done]. apply rbind_Ok_inv in Ea as (parts & _ & Ea). apply rbind_Ok_inv in Ea as (st' & Hr & [= <- <- <- <-]).
    by eapply read_objects_sound. }
  destruct (rfold (push_json_root registry) [] rs) as [pending|e] eqn:Er; cbn [walk_pending]; [|done].
  destruct (walk_store (fun h => Ok (map_get h st)) rounds [] pending) as [[visited|e]|] eqn:Ew; cbn [fmap option_fmap option_map rmap]; try done.
  set (w' := closure_walk sha256 localeCompare visited). intros Hg. assert (Hg' := Hg). clear Hg. injection Hg' as Hg. apply rguard_bind_Ok in Hg as [_ Hg]. apply rguard_bind_Ok in Hg as [Hextra Hg].
  injection Hg as <- <- <- <-. split; [done|]. exists pending. split; [done|].
  destruct (walk_visited sha256 number_to_string parse_number registry registry_valid _ rounds pending visited Ew) as (Hnd & Hiff & Hfound).
  assert (Hobj : forall h, h ∈ map co_hash (cw_objects w') <-> map_has h visited = true).
  { intros h. unfold w', closure_walk. cbn [cw_objects]. rewrite (Permutation_map co_hash (stable_sort_perm _ _)), map_map, map_has_keys. done. }
  assert (Hst : forall h, map_has h st = true <-> map_has h visited = true).
  { intros h. rewrite <- Hobj. split.
    - intros Hh. apply map_has_keys in Hh. apply list_elem_of_fmap in Hh as (p & -> & Hp). rewrite forallb_forall in Hextra.
      by apply list_elem_of_In, Hextra, bool_decide_eq_true in Hp.
    - rewrite Hobj. intros [n Hn]%map_has_Some. destruct (Hfound h n Hn) as (bytes & refs & (Hb & _) & _). injection Hb as Hb. apply map_has_Some. by exists bytes. }
  split; [intros h; by rewrite Hst, Hiff|]. intros h. by rewrite Hobj, Hst.
Qed.

Section Import.
Context {W : Type} (put : list Z -> W -> Result ObjectError ObjectHash * W) (contents : W -> ObjectHash -> option (list Z)).
Context `{Hstore : !ObjectStoreSpec put contents}.
Context (createImportPin : option (jstring -> list json -> W -> Result ObjectError unit * W)).
Context (releaseImportPin : option (jstring -> W -> Result ObjectError unit * W)) (aborted : nat -> bool).
Context (create_pin_keeps : forall f id roots w h, createImportPin = Some f -> contents (f id roots w).2 h = contents w h).
Context (release_pin_keeps : forall f id w h, releaseImportPin = Some f -> contents (f id w).2 h = contents w h).

(** [staged] holds the objects of a store that [w'] has more of than [w]. *)
Definition added (staged : list (ObjectHash * list Z)) (w w' : W) : Prop := forall h,
  contents w' h = contents w h \/ (exists bytes, map_get h staged = Some bytes /\ contents w' h = Some bytes).

Lemma put_objects_added staged objects : (forall h bytes, map_get h staged = Some bytes -> hashObject sha256 bytes = h) -> forall check w,
  added staged w (put_objects put aborted check staged objects w).2 /\
  ((put_objects put aborted check staged objects w).1 = Ok tt -> forall o, o ∈ objects -> exists bytes,
    map_get (co_hash o) staged = Some bytes /\ contents (put_objects put aborted check staged objects w).2 (co_hash o) = Some bytes).
Proof.
  intros Hs. induction objects as [|o objects IH]; intros check w; cbn [put_objects]; [split; [by left|]; by intros _ o ?%not_elem_of_nil|].
  destruct (aborted check); [split; [by left|done]|]. destruct (map_get (co_hash o) staged) as [bytes|] eqn:Eg; [|split; [by left|done]].
  pose proof (put_frame bytes w) as Hf. pose proof (put_hash bytes w) as Hh. pose proof (put_Ok bytes w) as Hk.
  destruct (put bytes w) as [[actual|e] w1]; cbn [fst snd] in *.
  - destruct (Hk actual eq_refl) as [-> Hc]. rewrite (Hs _ _ Eg) in *. rewrite bool_decide_true by done. destruct (IH (S check) w1) as [Ha Hall].
    assert (Hone : added staged w w1).
    { intros h. destruct (decide (h = co_hash o)) as [->|Hne]; [right; by exists bytes|left; by apply Hf]. }
    split.
    + intros h. destruct (Ha h) as [He|He]; [|by right]. rewrite He. apply Hone.
    + intros Hok o' [->|Hin]%elem_of_cons; [|by apply Hall]. exists bytes. split; [done|]. destruct (Ha (co_hash o)) as [->|(b & Hb & ->)]; [done|congruence].
  - rewrite (Hs _ _ Eg) in *. split; [|done]. intros h. destruct (decide (h = co_hash o)) as [->|Hne]; [|left; by apply Hf].
    destruct Hh as [?|?]; [by left|right; by exists bytes].
Qed.

Lemma run_pin_keeps (pin : option (W -> Result ObjectError unit * W)) w h : (forall f, pin = Some f -> forall w, contents (f w).2 h = contents w h) ->
  contents (run_pin pin w).2 h = contents w h.
Proof. intros Hp. destruct pin as [f|]; [by apply Hp|done]. Qed.

Abbreviation import_bundle := (importBundle sha256 number_to_string parse_number localeCompare registry put createImportPin releaseImportPin aborted).

(** C12: an import either changes nothing, or the archive has passed the check as a
    whole: it holds exactly the objects reachable from its roots, each under the
    address of its bytes.  Then nothing but these objects is ever added to the
    store, and when the import succeeds the store has all of them. *)
Theorem import_checked rounds parts importId w r w' : import_bundle rounds parts importId w = Some (r, w') ->
  (w' = w /\ exists e, r = Err e) \/
  exists manifest roots staged walk pending,
    checkArchive sha256 number_to_string parse_number localeCompare registry rounds (mjoin parts) = Some (Ok (manifest, roots, staged, walk)) /\
    rfold (push_json_root registry) [] roots = Ok pending /\
    (forall h bytes, map_get h staged = Some bytes -> hashObject sha256 bytes = h) /\
    (forall h, map_has h staged = true <-> in_closure sha256 number_to_string parse_number registry (fun h => Ok (map_get h staged)) pending h) /\
    added staged w w' /\
    (forall x, r = Ok x -> x = (importId, manifest, roots) /\ forall h bytes, map_get h staged = Some bytes -> contents w' h = Some bytes).
Proof.
  unfold importBundle. destruct (existsb aborted _); [intros [= <- <-]; left; eauto|].
  destruct (checkArchive _ _ _ _ _ rounds (mjoin parts)) as [[[[[manifest roots] staged] walk]|e]|] eqn:Ec; [|intros [= <- <-]; left; eauto|done].
  intros Hi. right. destruct (check_sound rounds (mjoin parts) manifest roots staged walk Ec) as (Hs & pending & Hp & Hcl & Hobj).
  exists manifest, roots, staged, walk, pending. do 4 (split; [done|]).
  assert (Hcreate : forall h, contents (run_pin ((fun f => f importId roots) <$> createImportPin) w).2 h = contents w h).
  { intros h. apply run_pin_keeps. intros f Hf w0. apply fmap_Some in Hf as (g & Hg & ->). by apply create_pin_keeps. }
  destruct (run_pin _ w) as [[[]|e] w1]; cbn [snd] in Hcreate; [|injection Hi as <- <-; split; [intros h; left; apply Hcreate|done]].
  destruct (put_objects_added staged (cw_objects walk) Hs (length parts) w1) as [Ha Hall].
  assert (Hadded : forall w2, (forall h, contents w2 h = contents (put_objects put aborted (length parts) staged (cw_objects walk) w1).2 h) -> added staged w w2).
  { intros w2 Hw2 h. rewrite Hw2, <- Hcreate. apply Ha. }
  destruct (put_objects put aborted (length parts) staged (cw_objects walk) w1) as [[[]|e] w2]; cbn [fst snd] in *.
  - injection Hi as <- <-. split; [by apply Hadded|]. intros x [= <-]. split; [done|]. intros h bytes Hb.
    assert (Hin : h ∈ map co_hash (cw_objects walk)) by (apply Hobj, map_has_Some; eauto). apply list_elem_of_In, in_map_iff in Hin as (o & <- & Ho%list_elem_of_In).
    destruct (Hall eq_refl o Ho) as (b & Hb' & Hc). congruence.
  - assert (Hrelease : forall h, contents (run_pin ((fun f => f importId) <$> releaseImportPin) w2).2 h = contents w2 h).
    { intros h. apply run_pin_keeps. intros f Hf w0. apply fmap_Some in Hf as (g & Hg & ->). by apply release_pin_keeps. }
    destruct (run_pin _ w2) as [[[]|e'] w3]; cbn [snd] in Hrelease; injection Hi as <- <-; (split; [by apply Hadded|done]).
Qed.

End Import.
End Bundle.
