(* ===== verification/ObjectGc.v ===== *)
(** * Collection of unreachable objects

    [ObjectGarbageCollector] of packages/agent/src/core/objects/gc.ts: a dry run
    plans what a later sweep of the same window and snapshot removes.  The store,
    its maintenance interface and the window are interfaces of the repository;
    the window may change whenever the store is used. *)

From stdpp Require Import base list strings pretty sorting.
From Stdlib Require Import ZArith Lia.
From S2P Require Import Prelude SessionTypes Numbers Utf8 Cbor Compaction CompactionProperties Json JsonProperties.
From S2P Require Import ObjectBundle ObjectClosureProperties ObjectArchive.

Open Scope Z_scope.

Record GcRootsSnapshot := { gs_id : jstring; gs_roots : list BundleRoot; gs_importPins : list (jstring * list BundleRoot) }.

Record GcWindow (W : Type) := {
  gw_id : jstring;
  gw_isOpen : W -> bool;
  gw_writeBarrierActive : W -> bool;
  gw_currentRootsSnapshotId : W -> jstring }.
Arguments gw_id {W}. Arguments gw_isOpen {W}. Arguments gw_writeBarrierActive {W}. Arguments gw_currentRootsSnapshotId {W}.

Record GcReport := {
  gr_dryRunId : jstring;
  gr_markedCount : Z;
  gr_candidateCount : Z;
  gr_candidateBytes : Z;
  gr_removedCount : Z;
  gr_removedBytes : Z;
  gr_partial : bool;
  gr_candidates : list ObjectHash }.

Record GcPlan := { pl_windowId : jstring; pl_snapshotId : jstring; pl_candidates : list ObjectHash }.

Inductive GcMode := GM_dry_run | GM_sweep (dryRunId : jstring).

Section Gc.
Context (sha256 : list Z -> list Z) (number_to_string : number -> jstring) (parse_number : jstring -> option number).
Context (localeCompare : jstring -> jstring -> Z) (registry : ClosureVisitorRegistry).
Context {W : Type} (store_get : ObjectHash -> W -> Result ObjectError (option (list Z))).
Context (listAll : W -> Result ObjectError (list ObjectHash)) (remove : ObjectHash -> W -> Result ObjectError unit * W).
Context (window : GcWindow W).

Definition snapshot_roots (snapshot : GcRootsSnapshot) : list ClosureRoot :=
  map (fun r => CR_root (br_hash r) (br_codec r)) (gs_roots snapshot ++ mjoin (map snd (gs_importPins snapshot))).

(** The sizes of the candidates that are still there. *)
Definition candidate_lengths (candidates : list ObjectHash) (w : W) : Result ObjectError (list (ObjectHash * Z)) :=
  rfold (fun lengths hash =>
    let* bytes := store_get hash w in
    Ok match bytes with Some bytes => map_set hash (Z.of_nat (length bytes)) lengths | None => lengths end) [] candidates.

(** The sweep: what was removed, and whether every candidate was. *)
Fixpoint sweep (snapshotId : jstring) (lengths : list (ObjectHash * Z)) (candidates : list ObjectHash) (removedCount removedBytes : Z) (w : W) :
  Z * Z * bool * W :=
  match candidates with
  | [] => (removedCount, removedBytes, true, w)
  | hash :: candidates =>
      if negb (gw_isOpen window w) || negb (gw_writeBarrierActive window w) || negb (bool_decide (gw_currentRootsSnapshotId window w = snapshotId))
      then (removedCount, removedBytes, false, w)
      else match remove hash w with
           | (Err _, w) => (removedCount, removedBytes, false, w)
           | (Ok _, w) => sweep snapshotId lengths candidates (removedCount + 1) (removedBytes + default 0 (map_get hash lengths)) w
           end
  end.

(** The outcome, the plans and the store afterwards; [dryRunId] is the random id of
    the call; [None] when the rounds of the walk do not suffice. *)
Definition collectGarbage (rounds : nat) (snapshot : GcRootsSnapshot) (gcWindowId : jstring) (mode : GcMode) (dryRunId : jstring)
    (plans : list (jstring * GcPlan)) (w : W) : option (Result ObjectError GcReport * list (jstring * GcPlan) * W) :=
  if negb (gw_isOpen window w) || negb (gw_writeBarrierActive window w) || negb (bool_decide (gcWindowId = gw_id window))
  then Some (Err (OE_gc (js "GC requires an active window and write barrier")), plans, w)
  else if negb (bool_decide (gs_id snapshot = gw_currentRootsSnapshotId window w))
  then Some (Err (OE_gc (js "Roots snapshot is stale")), plans, w)
  else
    match walk sha256 number_to_string parse_number localeCompare registry (fun h => store_get h w) rounds (snapshot_roots snapshot) with
    | None => None
    | Some (Err e) => Some (Err e, plans, w)
    | Some (Ok walk) =>
        let marked := map co_hash (cw_objects walk) in
        match (let* all := listAll w in
               let candidates := sort_strings (List.filter (fun hash => negb (bool_decide (hash ∈ marked))) all) in
               let* lengths := candidate_lengths candidates w in
               Ok (candidates, lengths)) with
        | Err e => Some (Err e, plans, w)
        | Ok (candidates, lengths) =>
            let report id removedCount removedBytes partial :=
              {| gr_dryRunId := id; gr_markedCount := Z.of_nat (length marked); gr_candidateCount := Z.of_nat (length candidates);
                 gr_candidateBytes := foldl (fun sum p => sum + p.2) 0 lengths; gr_removedCount := removedCount;
                 gr_removedBytes := removedBytes; gr_partial := partial; gr_candidates := candidates |} in
            match mode with
            | GM_dry_run =>
                Some (Ok (report dryRunId 0 0 false),
                      map_set dryRunId {| pl_windowId := gcWindowId; pl_snapshotId := gs_id snapshot; pl_candidates := candidates |} plans, w)
            | GM_sweep planId =>
                match map_get planId plans with
                | Some plan =>
                    if negb (bool_decide (pl_windowId plan = gcWindowId)) || negb (bool_decide (pl_snapshotId plan = gs_id snapshot)) ||
                       negb (bool_decide (pl_candidates plan = candidates))
                    then Some (Err (OE_gc (js "Dry-run plan is stale or candidates changed")), plans, w)
                    else
                      let '(removedCount, removedBytes, complete, w) := sweep (gs_id snapshot) lengths candidates 0 0 w in
                      if (complete : bool) then Some (Ok (report planId removedCount removedBytes false), map_delete planId plans, w)
                      else Some (Ok (report planId removedCount removedBytes (0 <? removedCount)), plans, w)
                | None => Some (Err (OE_gc (js "Dry-run plan is stale or candidates changed")), plans, w)
                end
            end
        end
    end.

(** ** Safety *)

(** What the store and its maintenance interface promise; [contents] is what the
    store holds. *)
Class ObjectAdminSpec (contents : W -> ObjectHash -> option (list Z)) : Prop := {
  get_spec : forall h w bytes, store_get h w = Ok bytes -> bytes = contents w h;
  listAll_spec : forall w l, listAll w = Ok l -> forall h, h ∈ l <-> is_Some (contents w h);
  remove_frame : forall h w h', h' <> h -> contents (remove h w).2 h' = contents w h';
  remove_self : forall h w, contents (remove h w).2 h = contents w h \/ contents (remove h w).2 h = None;
  remove_Ok : forall h w, (remove h w).1 = Ok tt -> contents (remove h w).2 h = None }.

Context (contents : W -> ObjectHash -> option (list Z)) `{Hadmin : !ObjectAdminSpec contents}.
Context (registry_valid : registry_ok number_to_string parse_number registry).

Lemma sweep_removes snapshotId lengths candidates : forall n b w,
  let '(count, _, complete, w') := sweep snapshotId lengths candidates n b w in
  (forall h, h ∉ candidates -> contents w' h = contents w h) /\ (forall h, contents w' h = contents w h \/ contents w' h = None) /\
  (complete = true -> forall h, h ∈ candidates -> contents w' h = None) /\ (complete = true <-> count = n + Z.of_nat (length candidates)) /\ n <= count.
Proof.
  induction candidates as [|c candidates IH]; intros n b w; cbn [sweep].
  - split; [done|]. split; [by left|]. split; [by intros _ h ?%not_elem_of_nil|]. cbn. split; [split; [lia|done]|lia].
  - destruct (_ || _); [split; [done|]; split; [by left|]; split; [done|]; cbn [length]; split; [split; [done|lia]|lia]|].
    pose proof (remove_frame c w) as Hf. pose proof (remove_self c w) as Hs. pose proof (remove_Ok c w) as Hk.
    destruct (remove c w) as [[[]|e] w1]; cbn [fst snd] in *.
    + specialize (IH (n + 1) (b + default 0 (map_get c lengths)) w1). destruct (sweep snapshotId lengths candidates (n + 1) _ w1) as [[[count bytes] complete] w2].
      destruct IH as (Hframe & Hcases & Hall & Hcount & Hle). specialize (Hk eq_refl). split; [|split; [|split; [|split]]].
      * intros h [Hh Hin]%not_elem_of_cons. by rewrite Hframe, Hf.
      * intros h. destruct (Hcases h) as [->|?]; [|by right]. destruct (decide (h = c)) as [->|Hne]; [by right|left; by apply Hf].
      * intros Hc h [->|Hin]%elem_of_cons; [|by apply Hall]. destruct (Hcases c) as [->|?]; done.
      * rewrite Hcount. cbn [length]. lia.
      * lia.
    + split; [intros h [Hh _]%not_elem_of_cons; by apply Hf|]. split; [|split; [done|cbn [length]; split; [split; [done|lia]|lia]]].
      intros h. destruct (decide (h = c)) as [->|Hne]; [done|left; by apply Hf].
Qed.

Abbreviation reachable := (fun w => in_closure sha256 number_to_string parse_number registry (fun h => store_get h w)).

Lemma candidates_elem marked all h :
  h ∈ sort_strings (List.filter (fun hash => negb (bool_decide (hash ∈ marked))) all) <-> h ∈ all /\ h ∉ (marked : list ObjectHash).
Proof.
  unfold sort_strings. rewrite (merge_sort_Permutation jstring_le). rewrite !list_elem_of_In, filter_In, negb_true_iff, bool_decide_eq_false, <- !list_elem_of_In. done.
Qed.

(** The objects a successful walk marks. *)
Lemma walk_marks store rounds roots w pending : walk sha256 number_to_string parse_number localeCompare registry store rounds roots = Some (Ok w) ->
  rfold (push_root registry) [] roots = Ok pending ->
  forall h, h ∈ map co_hash (cw_objects w) <-> in_closure sha256 number_to_string parse_number registry store pending h.
Proof.
  unfold walk. intros Hw Hp. rewrite Hp in Hw. cbn [walk_pending] in Hw. apply fmap_Some in Hw as ([visited|e] & Hl & [= ->]).
  destruct (walk_visited sha256 number_to_string parse_number registry registry_valid store rounds pending visited Hl) as (_ & Hiff & _). intros h.
  rewrite <- Hiff. unfold closure_walk. cbn [cw_objects]. rewrite (Permutation_map co_hash (stable_sort_perm _ _)), map_map, map_has_keys. done.
Qed.

(** The roots of a snapshot and of its import pins. *)
Definition is_root (snapshot : GcRootsSnapshot) (root : BundleRoot) : Prop :=
  root ∈ gs_roots snapshot \/ exists pin, pin ∈ gs_importPins snapshot /\ root ∈ pin.2.

Lemma snapshot_reachable w snapshot pending : rfold (push_root registry) [] (snapshot_roots snapshot) = Ok pending ->
  forall h, reachable w pending h <-> exists root, is_root snapshot root /\ reachable w [root_ref (br_hash root) (br_codec root)] h.
Proof.
  intros Hp h. pose proof (push_roots_elem registry br_hash br_codec _ _ _ Hp) as He.
  assert (Hroot : forall r, r ∈ gs_roots snapshot ++ mjoin (map snd (gs_importPins snapshot)) <-> is_root snapshot r).
  { intros r. rewrite elem_of_app, list_elem_of_join. unfold is_root. split; (intros [?|Hx]; [by left|right]).
    - destruct Hx as (l & Hr & Hl). apply list_elem_of_In, in_map_iff in Hl as (pin & <- & Hin%list_elem_of_In). eauto.
    - destruct Hx as (pin & Hpin & Hr). exists pin.2. split; [done|]. by apply (list_elem_of_fmap_2 snd). }
  rewrite in_closure_item. split.
  - intros (item & [Hin%not_elem_of_nil|(r & Hr%Hroot & ->)]%He & Hc); [done|eauto].
  - intros (r & Hr%Hroot & Hc). exists (root_ref (br_hash r) (br_codec r)). split; [apply He; eauto|done].
Qed.

(** A collection that touches the store is a sweep of a plan that still holds. *)
Lemma collect_cases rounds snapshot gcWindowId mode dryRunId plans w r plans' w' :
  collectGarbage rounds snapshot gcWindowId mode dryRunId plans w = Some (r, plans', w') ->
  (w' = w /\ ((exists e, r = Err e) \/ mode = GM_dry_run)) \/
  exists planId plan cw all lengths complete report, mode = GM_sweep planId /\ map_get planId plans = Some plan /\
  pl_windowId plan = gcWindowId /\ pl_snapshotId plan = gs_id snapshot /\ r = Ok report /\ pl_candidates plan = gr_candidates report /\
  walk sha256 number_to_string parse_number localeCompare registry (fun h => store_get h w) rounds (snapshot_roots snapshot) = Some (Ok cw) /\
  listAll w = Ok all /\ gr_candidates report = sort_strings (List.filter (fun hash => negb (bool_decide (hash ∈ map co_hash (cw_objects cw)))) all) /\
  gr_candidateCount report = Z.of_nat (length (gr_candidates report)) /\
  sweep (gs_id snapshot) lengths (gr_candidates report) 0 0 w = (gr_removedCount report, gr_removedBytes report, complete, w').
Proof.
  assert (Hsame : forall r0 plans0, (exists e, r0 = Err e) \/ mode = GM_dry_run -> Some (r0, plans0, w) = Some (r, plans', w') ->
    w' = w /\ ((exists e, r = Err e) \/ mode = GM_dry_run)) by (intros * Hr [= <- <- <-]; done).
  unfold collectGarbage. destruct (_ || _); [left; eapply Hsame; eauto|]. destruct (negb _); [left; eapply Hsame; eauto|].
  destruct (walk _ _ _ _ _ _ rounds (snapshot_roots snapshot)) as [[cw|e]|] eqn:Ew; [|left; eapply Hsame; eauto|done].
  destruct (listAll w) as [all|e] eqn:El; cbn [rbind]; [|left; eapply Hsame; eauto].
  set (candidates := sort_strings _). destruct (candidate_lengths candidates w) as [lengths|e]; cbn [rbind]; [|left; eapply Hsame; eauto].
  destruct mode as [|planId]; [left; eapply Hsame; eauto|]. destruct (map_get planId plans) as [plan|] eqn:Ep; [|left; eapply Hsame; eauto].
  destruct (bool_decide (pl_windowId plan = gcWindowId)) eqn:E1; cbn [negb orb]; [|left; eapply Hsame; eauto].
  destruct (bool_decide (pl_snapshotId plan = gs_id snapshot)) eqn:E2; cbn [negb orb]; [|left; eapply Hsame; eauto].
  destruct (bool_decide (pl_candidates plan = candidates)) eqn:E3; cbn [negb orb]; [|left; eapply Hsame; eauto].
  apply bool_decide_eq_true in E1, E2, E3. destruct (sweep (gs_id snapshot) lengths candidates 0 0 w) as [[[count bytes] complete] w1] eqn:Es.
  intros Hr. right. destruct complete; injection Hr as <- <- <-; eexists planId, plan, cw, all, lengths, _, _; split_and!; done.
Qed.

(** C14: whatever a collection does and however it ends, objects reachable from the
    roots and import pins of its snapshot stay as they are, and objects are only
    removed, never changed.  An object is removed only in a sweep that names a plan
    of the same window and snapshot, the plan's candidates are those the sweep
    reports, and the removed object is one of them; and a sweep that removed all
    of them leaves reachable objects only. *)
Theorem gc_keeps_reachable rounds snapshot gcWindowId mode dryRunId plans w r plans' w' :
  collectGarbage rounds snapshot gcWindowId mode dryRunId plans w = Some (r, plans', w') ->
  (forall h, contents w' h = contents w h \/ contents w' h = None) /\
  (forall root h, is_root snapshot root -> reachable w [root_ref (br_hash root) (br_codec root)] h -> contents w' h = contents w h) /\
  (forall h, contents w' h <> contents w h -> exists planId plan report, mode = GM_sweep planId /\ map_get planId plans = Some plan /\
    pl_windowId plan = gcWindowId /\ pl_snapshotId plan = gs_id snapshot /\ r = Ok report /\ pl_candidates plan = gr_candidates report /\
    h ∈ pl_candidates plan /\ h ∈ gr_candidates report) /\
  (forall planId report, mode = GM_sweep planId -> r = Ok report -> gr_removedCount report = gr_candidateCount report ->
    forall h, is_Some (contents w' h) -> exists root, is_root snapshot root /\ reachable w [root_ref (br_hash root) (br_codec root)] h).
Proof.
  intros Hc. destruct (collect_cases _ _ _ _ _ _ _ _ _ _ Hc) as [[-> Hr]|(planId & plan & cw & all & lengths & complete & report & -> & Hp & Hwi & Hsn & -> & Hpc & Hw & Hl & Hcand & Hcount & Hs)].
  - split; [by left|]. split; [done|]. split; [intros h Hh; by destruct Hh|]. intros planId report -> -> _. destruct Hr as [[e He]|Hd]; done.
  - pose proof (sweep_removes (gs_id snapshot) lengths (gr_candidates report) 0 0 w) as Hsweep. rewrite Hs in Hsweep. destruct Hsweep as (Hframe & Hcases & Hall & Hcomplete & _).
    destruct (rfold (push_root registry) [] (snapshot_roots snapshot)) as [pending|e] eqn:Hpend; [|unfold walk in Hw; by rewrite Hpend in Hw].
    pose proof (walk_marks _ _ _ _ _ Hw Hpend) as Hmarks. pose proof (snapshot_reachable w snapshot pending Hpend) as Hreach.
    split; [done|]. split; [|split].
    + intros root h Hroot Hh. apply Hframe. rewrite Hcand, candidates_elem, Hmarks, Hreach. intros [_ Hn]. apply Hn. eauto.
    + intros h Hh. assert (Hin : h ∈ gr_candidates report) by (destruct (decide (h ∈ gr_candidates report)); [done|by destruct Hh; apply Hframe]).
      exists planId, plan, report. by rewrite Hpc.
    + intros planId' report' [= <-] [= <-] Hcnt h Hh. rewrite <- Hreach, <- Hmarks.
      destruct (decide (h ∈ map co_hash (cw_objects cw))) as [|Hn]; [done|]. exfalso. assert (Hcd : h ∈ gr_candidates report).
      { rewrite Hcand, candidates_elem. split; [|done]. apply (listAll_spec w all Hl). destruct (Hcases h) as [<-|Hnone]; [done|rewrite Hnone in Hh; by destruct Hh]. }
      rewrite (Hall (proj2 Hcomplete ltac:(lia)) h Hcd) in Hh. by destruct Hh.
Qed.
End Gc.
