(* ===== verification/ObjectExamples.v ===== *)
(** * Concrete stores

    A store of three objects, one of them unreachable, with a hash function that
    is enough to tell them apart: the contracts of the theorems about objects can
    be kept, and what the code does at their edges. *)

From stdpp Require Import base list strings pretty sorting.
From Stdlib Require Import ZArith Lia.
From S2P Require Import Prelude SessionTypes Numbers Utf8 Cbor CborProperties Compaction CompactionProperties EditDiff Json JsonProperties JsonViews SessionManager.
From S2P Require Import ObjectBundle ObjectClosureProperties ObjectArchive ObjectTar ObjectArchiveProperties ObjectGc.

Open Scope Z_scope.

Definition ex_step (a b : Z) : Z := (a * 31 + b) mod 251.
Definition ex_sha (data : list Z) : list Z := replicate 32 (foldl ex_step 7 data).

Lemma ex_sha_bytes data : length (ex_sha data) = 32%nat /\ Forall byte (ex_sha data).
Proof.
  split; [apply length_replicate|]. apply Forall_replicate. assert (H : forall a, 0 <= a < 251 -> 0 <= foldl ex_step a data < 251).
  { induction data as [|b data IH]; intros a Ha; [done|]. cbn [foldl]. apply IH. apply Z.mod_pos_bound. lia. }
  unfold byte. pose proof (H 7 ltac:(lia)). lia.
Qed.

Definition ex_number (n : number) : jstring := match integer_value n with Some z => js_of_Z z | None => js "0" end.
Definition ex_parse (s : jstring) : option number :=
  match s with [] => None | _ => Some (number_of_Z (foldl (fun a u => a * 10 + (u - 48)) 0 s)) end.

Definition ex_compare (a b : jstring) : Z := if jstring_leb a b then (if jstring_leb b a then 0 else -1) else 1.

(** Strings compared by a key. *)
Lemma ex_compare_le a b : ex_compare a b <= 0 <-> jstring_leb a b = true.
Proof. unfold ex_compare. destruct (jstring_leb a b), (jstring_leb b a); split; (done || lia). Qed.

Lemma ex_key_collation (key : jstring -> jstring) : Collation (fun a b => ex_compare (key a) (key b)).
Proof.
  split; intros *; rewrite !ex_compare_le; [apply jstring_leb_total|apply jstring_leb_trans].
Qed.

#[export] Instance ex_collation : Collation ex_compare.
Proof. exact (ex_key_collation (fun s => s)). Qed.

(** Danish and Norwegian collation: [aa] is a letter after [z]. *)
Fixpoint danish_key (s : jstring) : jstring :=
  match s with
  | [] => []
  | u :: s' => if u =? 97 then match s' with v :: s'' => if v =? 97 then 229 :: danish_key s'' else u :: danish_key s' | [] => [u] end else u :: danish_key s'
  end.

Definition danish_compare (a b : jstring) : Z := ex_compare (danish_key a) (danish_key b).

Definition ex_registry : ClosureVisitorRegistry := map (fun c => (c, schema ex_number ex_parse c)) default_codecs.

Lemma ex_registry_default : createDefaultClosureVisitorRegistry ex_number ex_parse = Ok ex_registry.
Proof. reflexivity. Qed.

Lemma ex_registry_ok : registry_ok ex_number ex_parse ex_registry.
Proof. apply default_registry_ok, ex_registry_default. Qed.

(** ** A tree, its chunk and a chunk nothing refers to *)

Definition ex_bytes (fs : fields) : list Z := utf8_encode (canonicalStringify ex_number (JObject fs)).

Definition ex_chunk (data : string) : list Z :=
  ex_bytes [(js "tg", JString (js "chunk.v1")); (js "enc", JString (js "utf8")); (js "data", JString (js data))].

Definition ex_hash (bytes : list Z) : ObjectHash := hashObject ex_sha bytes.

Definition ex_tree : list Z :=
  ex_bytes [(js "tg", JString (js "tree.v1")); (js "entries", JArray [JArray [JString (js "a"); JString (ex_hash (ex_chunk "hello"))]])].

Definition ex_objects : list (ObjectHash * list Z) :=
  [(ex_hash (ex_chunk "hello"), ex_chunk "hello"); (ex_hash (ex_chunk "old"), ex_chunk "old"); (ex_hash ex_tree, ex_tree)].

Definition ex_store (h : ObjectHash) : Result ObjectError (option (list Z)) := Ok (map_get h ex_objects).

Lemma ex_store_finite h bytes : ex_store h = Ok (Some bytes) -> h ∈ map_keys ex_objects.
Proof. unfold ex_store. intros H. apply map_has_keys, map_has_Some. exists bytes. congruence. Qed.

Definition ex_root : BundleRoot := {| br_hash := ex_hash ex_tree; br_codec := js "tree.v1" |}.

Definition ex_walk : option (Result ObjectError ClosureWalk) :=
  walk ex_sha ex_number ex_parse ex_compare ex_registry ex_store 5 [CR_root (br_hash ex_root) (br_codec ex_root)].

(** The tree and its chunk are found, the other chunk is not. *)
Example walk_found : (rmap (fun w => map co_hash (cw_objects w)) <$> ex_walk) = Some (Ok [ex_hash (ex_chunk "hello"); ex_hash ex_tree]).
Proof. vm_compute. reflexivity. Qed.

Lemma closure_walk_exact_witness : exists w, ex_walk = Some (Ok w) /\ exists pending,
  rfold (push_root ex_registry) [] [CR_root (br_hash ex_root) (br_codec ex_root)] = Ok pending /\
  forall h, h ∈ map co_hash (cw_objects w) <-> in_closure ex_sha ex_number ex_parse ex_registry ex_store pending h.
Proof.
  destruct ex_walk as [[w|e]|] eqn:E; [|vm_compute in E; discriminate E|vm_compute in E; discriminate E]. exists w. split; [reflexivity|].
  destruct (proj1 (proj2 (closure_walk_exact ex_sha ex_number ex_parse ex_compare ex_registry ex_registry_ok ex_store
    (map_keys ex_objects) ex_store_finite [CR_root (br_hash ex_root) (br_codec ex_root)])) 5%nat w E) as (pending & Hp & _ & _ & Hiff & _).
  exists pending. split; [exact Hp|exact Hiff].
Defined.

(** ** A bundle *)

Definition ex_export : option (list (list Z) * Result ObjectError BundleManifest) :=
  exportBundle ex_sha ex_number ex_parse ex_compare ex_registry ex_store 5 [ex_root] [] [] (js "2026").

Definition ex_put (bytes : list Z) (w : list (ObjectHash * list Z)) : Result ObjectError ObjectHash * list (ObjectHash * list Z) :=
  (Ok (ex_hash bytes), map_set (ex_hash bytes) bytes w).

Definition ex_contents (w : list (ObjectHash * list Z)) (h : ObjectHash) : option (list Z) := map_get h w.

#[export] Instance ex_put_spec : ObjectStoreSpec ex_sha ex_put ex_contents.
Proof.
  split; unfold ex_put, ex_contents; cbn [fst snd].
  - intros bytes w h Hne. by apply map_get_set_ne.
  - intros bytes w. right. apply map_get_set_eq.
  - intros bytes w h [= <-]. split; [done|]. apply map_get_set_eq.
Qed.

Definition ex_chunks : list (list Z) := match ex_export with Some (chunks, _) => chunks | None => [] end.

Definition ex_manifest : BundleManifest :=
  match ex_export with
  | Some (_, Ok m) => m
  | _ => {| bm_createdAt := []; bm_sessions := []; bm_roots := []; bm_objectCount := 0; bm_totalBytes := 0; bm_digest := []; bm_pins := [] |}
  end.

Lemma ex_export_ok : ex_export = Some (ex_chunks, Ok ex_manifest).
Proof. vm_compute. reflexivity. Qed.

Lemma code_units_text s : forallb (fun u => (0 <=? u) && (u <=? 0xFFFF)) s = true -> text_ok s.
Proof. intros H. apply Forall_forall. intros u Hu%list_elem_of_In. rewrite forallb_forall in H. apply H in Hu. rewrite andb_true_iff, !Z.leb_le in Hu. exact Hu. Qed.

Lemma ex_number_ok z : forallb numeric (ex_number (number_of_Z z)) && is_finite (number_of_Z z) && negb (bool_decide (ex_number (number_of_Z z) = [])) &&
  bool_decide (ex_parse (ex_number (number_of_Z z)) = Some (number_of_Z z)) = true -> number_ok ex_number ex_parse (number_of_Z z).
Proof.
  rewrite !andb_true_iff, negb_true_iff, bool_decide_eq_false, bool_decide_eq_true. intros [[[Hn Hf] He] Hp]. split_and!; try done.
  apply Forall_forall. intros u Hu%list_elem_of_In. rewrite forallb_forall in Hn. by apply Hn.
Qed.

Lemma ex_manifest_ok : json_ok ex_number ex_parse (manifest_json ex_manifest).
Proof.
  apply manifest_json_ok.
  - apply code_units_text. vm_compute. reflexivity.
  - replace (bm_sessions ex_manifest) with (@nil BundleSession) by (vm_compute; reflexivity). constructor.
  - replace (bm_roots ex_manifest) with [ex_root] by (vm_compute; reflexivity). constructor; [|constructor].
    split; apply code_units_text; vm_compute; reflexivity.
  - apply code_units_text. vm_compute. reflexivity.
  - replace (bm_pins ex_manifest) with (@nil BundlePin) by (vm_compute; reflexivity). constructor.
  - repeat (apply Forall_cons_2; [apply ex_number_ok; vm_compute; reflexivity|]). apply Forall_nil_2.
Qed.

(** The archive in two parts, cut inside the manifest. *)
Definition ex_parts : list (list Z) := [take 700 (mjoin ex_chunks); drop 700 (mjoin ex_chunks)].

Lemma ex_store_sizes h bytes : ex_store h = Ok (Some bytes) -> Z.of_nat (length bytes) < max_member.
Proof.
  unfold ex_store. intros Hs. assert (H : map_get h ex_objects = Some bytes) by congruence. apply map_get_In in H. assert (Hall : forallb (fun p => Z.of_nat (length p.2) <? max_member) ex_objects = true) by (vm_compute; reflexivity).
  rewrite forallb_forall in Hall. apply list_elem_of_In, Hall in H. by apply Z.ltb_lt.
Qed.

Lemma ex_create_keeps (f : jstring -> list json -> list (ObjectHash * list Z) -> Result ObjectError unit * list (ObjectHash * list Z)) id roots w h :
  None = Some f -> ex_contents (f id roots w).2 h = ex_contents w h.
Proof. discriminate. Qed.

Lemma ex_release_keeps (f : jstring -> list (ObjectHash * list Z) -> Result ObjectError unit * list (ObjectHash * list Z)) id w h :
  None = Some f -> ex_contents (f id w).2 h = ex_contents w h.
Proof. discriminate. Qed.

(** A chunk whose address begins with [aa] and a tree that refers to it. *)
Definition aa_chunk : list Z := ex_chunk "dh".

Definition aa_tree : list Z :=
  ex_bytes [(js "tg", JString (js "tree.v1")); (js "entries", JArray [JArray [JString (js "c"); JString (ex_hash aa_chunk)]])].

Definition aa_objects : list (ObjectHash * list Z) := [(ex_hash aa_chunk, aa_chunk); (ex_hash aa_tree, aa_tree)].

Definition aa_import (localeCompare : jstring -> jstring -> Z) :=
  match exportBundle ex_sha ex_number ex_parse localeCompare ex_registry (fun h => Ok (map_get h aa_objects)) 5
          [{| br_hash := ex_hash aa_tree; br_codec := js "tree.v1" |}] [] [] (js "2026") with
  | Some (chunks, Ok _) =>
      (fun o => (match o.1 with Ok _ => None | Err e => Some e end, length o.2)) <$>
      importBundle ex_sha ex_number ex_parse localeCompare ex_registry ex_put None None (fun _ => false) 5 chunks (js "id") []
  | _ => None
  end.

(** On a Danish host what was just exported is refused; elsewhere its two objects
    arrive. *)
Example danish_import_refused :
  aa_import danish_compare = Some (Some (OE_bundle (js "Invalid object member sequence")), 0%nat) /\ aa_import ex_compare = Some (None, 2%nat).
Proof. split; vm_compute; reflexivity. Qed.

Lemma ex_compare_agrees a b : (ex_compare a b <=? 0) = jstring_leb a b.
Proof. destruct (jstring_leb a b) eqn:E; [by apply Z.leb_le, ex_compare_le|]. apply Z.leb_gt. unfold ex_compare. by rewrite E. Qed.


Lemma import_checked_witness : exists w', importBundle ex_sha ex_number ex_parse ex_compare ex_registry ex_put None None (fun _ => false) 5 ex_parts (js "id") [] =
    Some (Ok (js "id", manifest_json ex_manifest, map root_json (bm_roots ex_manifest)), w') /\
  exists manifest roots staged walk,
    checkArchive ex_sha ex_number ex_parse ex_compare ex_registry 5 (mjoin ex_parts) = Some (Ok (manifest, roots, staged, walk)) /\ added ex_contents staged [] w'.
Proof.
  destruct (importBundle ex_sha ex_number ex_parse ex_compare ex_registry ex_put None None (fun _ => false) 5 ex_parts (js "id") []) as [[r w']|] eqn:E;
    [|vm_compute in E; discriminate E]. assert (Hr : r = Ok (js "id", manifest_json ex_manifest, map root_json (bm_roots ex_manifest))).
  { vm_compute in E. injection E as <- _. vm_compute. reflexivity. }
  subst r. exists w'. split; [reflexivity|].
  destruct (import_checked ex_sha ex_number ex_parse ex_compare ex_registry ex_registry_ok ex_put ex_contents None None (fun _ => false)
    ex_create_keeps ex_release_keeps 5 ex_parts (js "id") [] _ w' E) as [[_ [e He]]|(manifest & roots & staged & walk & pending & Hc & _ & _ & _ & Ha & _)]; [discriminate He|].
  exists manifest, roots, staged, walk. split; [exact Hc|exact Ha].
Defined.

(** ** A collection *)

Definition ex_get (h : ObjectHash) (w : list (ObjectHash * list Z)) : Result ObjectError (option (list Z)) := Ok (map_get h w).
Definition ex_list (w : list (ObjectHash * list Z)) : Result ObjectError (list ObjectHash) := Ok (map_keys w).
Definition ex_remove (h : ObjectHash) (w : list (ObjectHash * list Z)) : Result ObjectError unit * list (ObjectHash * list Z) :=
  (Ok tt, List.filter (fun p => negb (bool_decide (p.1 = h))) w).

Lemma ex_remove_get h w h' : map_get h' (List.filter (fun p => negb (bool_decide (p.1 = h))) w) = if decide (h' = h) then None else ex_contents w h'.
Proof.
  unfold ex_contents. induction w as [|[k b] w IH]; cbn [List.filter map_get fst]; [by case_decide|].
  case_bool_decide as Hk; cbn [negb map_get].
  - rewrite IH. subst k. by repeat case_decide.
  - destruct (decide (h' = k)) as [->|Hne]; [by rewrite decide_False|]. exact IH.
Qed.

#[export] Instance ex_admin : ObjectAdminSpec ex_get ex_list ex_remove ex_contents.
Proof.
  split; unfold ex_get, ex_list, ex_remove; cbn [fst snd].
  - intros h w bytes [= <-]. done.
  - intros w l [= <-] h. rewrite <- map_has_keys, map_has_Some. unfold ex_contents. split; [intros [v ->]; eauto|intros [v ->]; eauto].
  - intros h w h' Hne. unfold ex_contents. rewrite ex_remove_get. by rewrite decide_False.
  - intros h w. right. unfold ex_contents. rewrite ex_remove_get. by rewrite decide_True.
  - intros h w _. unfold ex_contents. rewrite ex_remove_get. by rewrite decide_True.
Qed.

(** A window that closes when [limit] objects are left. *)
Definition ex_window (limit : nat) : GcWindow (list (ObjectHash * list Z)) :=
  {| gw_id := js "w"; gw_isOpen w := (limit <? length w)%nat; gw_writeBarrierActive _ := true; gw_currentRootsSnapshotId _ := js "s" |}.

Definition ex_snapshot : GcRootsSnapshot := {| gs_id := js "s"; gs_roots := [ex_root]; gs_importPins := [] |}.

Definition ex_collect (limit : nat) (mode : GcMode) (plans : list (jstring * GcPlan)) (w : list (ObjectHash * list Z)) :=
  collectGarbage ex_sha ex_number ex_parse ex_compare ex_registry ex_get ex_list ex_remove (ex_window limit) 5 ex_snapshot (js "w") mode (js "d") plans w.

Definition ex_plans : list (jstring * GcPlan) := match ex_collect 0 GM_dry_run [] ex_objects with Some (_, plans, _) => plans | None => [] end.

Lemma gc_keeps_reachable_witness : exists report plans' w', ex_collect 0 (GM_sweep (js "d")) ex_plans ex_objects = Some (Ok report, plans', w') /\
  length w' = 2%nat /\ gr_removedCount report = gr_candidateCount report /\
  forall h, is_Some (ex_contents w' h) -> exists root, is_root ex_snapshot root /\
    in_closure ex_sha ex_number ex_parse ex_registry (fun h => ex_get h ex_objects) [root_ref (br_hash root) (br_codec root)] h.
Proof.
  destruct (ex_collect 0 (GM_sweep (js "d")) ex_plans ex_objects) as [[[[report|e] plans'] w']|] eqn:E; [|vm_compute in E; discriminate E|vm_compute in E; discriminate E].
  exists report, plans', w'. split; [reflexivity|]. assert (Hw : length w' = 2%nat /\ gr_removedCount report = gr_candidateCount report).
  { vm_compute in E. injection E as <- _ <-. split; reflexivity. }
  destruct Hw as [Hlen Hcount]. split; [exact Hlen|]. split; [exact Hcount|]. intros h Hh.
  exact (proj2 (proj2 (proj2 (gc_keeps_reachable ex_sha ex_number ex_parse ex_compare ex_registry ex_get ex_list ex_remove (ex_window 0) ex_contents ex_registry_ok
    5 ex_snapshot (js "w") (GM_sweep (js "d")) (js "d") ex_plans ex_objects (Ok report) plans' w' E))) (js "d") report eq_refl eq_refl Hcount h Hh).
Defined.

(** A sweep that fails at its first removal is reported as a sweep of nothing: not
    partial, and without the error. *)
Example failed_sweep_reported : match collectGarbage ex_sha ex_number ex_parse ex_compare ex_registry ex_get ex_list (fun _ w => (Err (OE_store OC_io []), w))
    (ex_window 0) 5 ex_snapshot (js "w") (GM_sweep (js "d")) (js "d") ex_plans ex_objects with
  | Some (Ok report, _, _) => (gr_candidateCount report, gr_removedCount report, gr_partial report)
  | _ => (0, 0, true)
  end = (1, 0, false).
Proof. vm_compute. reflexivity. Qed.
