(* ===== verification/WordNavigation.v ===== *)
(** * Word movement

    packages/tui/src/word-navigation.ts: the position one word before or after
    the cursor.  Segments come from [Intl.Segmenter], or from a segmenter that
    the caller passes; a segment is its text and whether it is word-like.
    Positions count code units.  Movement stays inside the text, and it makes
    progress unless a word-like segment has punctuation at its edge. *)

From stdpp Require Import base list strings pretty.
From Stdlib Require Import ZArith Lia.
From S2P Require Import Prelude Truncate EditDiff.

Open Scope Z_scope.

(** [s.slice(n)]; [s.slice(0, n)] is [slice0].  Negative indices count from the end. *)
Definition slice_from (s : jstring) (n : Z) : jstring :=
  drop (Z.to_nat (if n <? 0 then Z.of_nat (length s) + n else n)) s.

(** [s.length] *)
Definition len (s : jstring) : Z := Z.of_nat (length s).

(** [PUNCTUATION_REGEX] matches one code unit. *)
Definition punctuation (u : Z) : bool :=
  bool_decide (u ∈ js "(){}[]<>.,;:'!?+-=*/\|&%^$#@~`" ++ [34]).

(** [/\s/.test(char)] *)
Definition isWhitespaceChar (char : jstring) : bool := existsb is_white_space char.

(** [Intl.SegmentData] *)
Record SegmentData := { sd_segment : jstring; sd_isWordLike : bool }.

Record WordNavigationOptions := {
  wo_segment : option (jstring -> list SegmentData);
  wo_isAtomicSegment : option (jstring -> bool);
}.

Definition no_options : WordNavigationOptions := {| wo_segment := None; wo_isAtomicSegment := None |}.

(** The length of the text after the last punctuation of a segment, which is all
    of it when there is none. *)
Fixpoint after_last_punctuation (s : jstring) : Z :=
  match s with
  | [] => 0
  | u :: r => if punctuation u || existsb punctuation r then after_last_punctuation r else 1 + len r
  end.

(** [PUNCTUATION_REGEX.exec(segment)?.index ?? segment.length] *)
Fixpoint before_punctuation (s : jstring) : Z :=
  match s with
  | [] => 0
  | u :: r => if punctuation u then 0 else 1 + before_punctuation r
  end.

Section Navigation.
Context (wordSegmenter : jstring -> list SegmentData).
Context (options : WordNavigationOptions).

Definition segment_text : jstring -> list SegmentData := default wordSegmenter (wo_segment options).

(** [isAtomic?.(segment)] *)
Definition isAtomic (segment : jstring) : bool :=
  match wo_isAtomicSegment options with Some f => f segment | None => false end.

Definition skipped_white (d : SegmentData) : bool := negb (isAtomic (sd_segment d)) && isWhitespaceChar (sd_segment d).
Definition skipped_punctuation (d : SegmentData) : bool :=
  negb (isAtomic (sd_segment d)) && negb (sd_isWordLike d) && negb (isWhitespaceChar (sd_segment d)).

(** A [while] loop over segments: the length of what it skips, and the rest. *)
Fixpoint skip_while (p : SegmentData -> bool) (segments : list SegmentData) : Z * list SegmentData :=
  match segments with
  | d :: rest => if p d then let '(n, rest) := skip_while p rest in (len (sd_segment d) + n, rest) else (0, segments)
  | [] => (0, [])
  end.

(** [segments.pop()] takes from the end, so the loops run over the reverse. *)
Definition findWordBackward (text : jstring) (cursor : Z) : Z :=
  if cursor <=? 0 then 0
  else
    let segments := reverse (segment_text (slice0 text cursor)) in
    let '(white, segments) := skip_while skipped_white segments in
    let newCursor := cursor - white in
    match segments with
    | [] => newCursor
    | last :: _ =>
        if isAtomic (sd_segment last) then newCursor - len (sd_segment last)
        else if sd_isWordLike last then newCursor - after_last_punctuation (sd_segment last)
        else newCursor - (skip_while skipped_punctuation segments).1
    end.

Definition findWordForward (text : jstring) (cursor : Z) : Z :=
  if len text <=? cursor then len text
  else
    let segments := segment_text (slice_from text cursor) in
    let '(white, segments) := skip_while skipped_white segments in
    let newCursor := cursor + white in
    match segments with
    | [] => newCursor
    | next :: _ =>
        if isAtomic (sd_segment next) then newCursor + len (sd_segment next)
        else if sd_isWordLike next then newCursor + before_punctuation (sd_segment next)
        else newCursor + (skip_while skipped_punctuation segments).1
    end.

End Navigation.

(** ** Bounds and progress *)

(** What a segmenter promises: its segments are not empty and make up the text. *)
Class SegmenterSpec (segment : jstring -> list SegmentData) := {
  segments_text text : mjoin (sd_segment <$> segment text) = text;
  segments_nonempty text : Forall (fun d => sd_segment d <> []) (segment text);
}.

(** The length of a list of segments. *)
Definition total (segments : list SegmentData) : Z := len (mjoin (sd_segment <$> segments)).

(** No word-like segment starts or ends with punctuation. *)
Definition clean_edges (segments : list SegmentData) : Prop :=
  Forall (fun d => sd_isWordLike d = true ->
    before_punctuation (sd_segment d) <> 0 /\ after_last_punctuation (sd_segment d) <> 0) segments.

Lemma total_cons d rest : total (d :: rest) = len (sd_segment d) + total rest.
Proof.
  unfold total, len. assert (Hm : mjoin (sd_segment <$> d :: rest) = sd_segment d ++ mjoin (sd_segment <$> rest)) by done.
  rewrite Hm, length_app. lia.
Qed.

Lemma total_reverse segments : total (reverse segments) = total segments.
Proof.
  induction segments as [|d rest IH]; [done|]. rewrite reverse_cons, total_cons, <- IH. unfold total, len.
  rewrite fmap_app, join_app, length_app.
  assert (Hm : mjoin (sd_segment <$> [d]) = sd_segment d ++ []) by done. rewrite Hm, app_nil_r. lia.
Qed.

Lemma after_last_punctuation_bounds s : 0 <= after_last_punctuation s <= len s.
Proof.
  induction s as [|u r IH]; [done|]. cbn [after_last_punctuation]. unfold len in *. cbn [length].
  destruct (_ || _); lia.
Qed.

Lemma before_punctuation_bounds s : 0 <= before_punctuation s <= len s.
Proof.
  induction s as [|u r IH]; [done|]. cbn [before_punctuation]. unfold len in *. cbn [length].
  destruct (punctuation u); lia.
Qed.

Lemma skip_while_total p segments : (skip_while p segments).1 + total (skip_while p segments).2 = total segments.
Proof.
  induction segments as [|d rest IH]; [done|]. cbn [skip_while]. destruct (p d); [|done].
  destruct (skip_while p rest) as [n rest'] eqn:E. cbn in IH |- *. rewrite total_cons. lia.
Qed.

Lemma skip_while_nonneg p segments : 0 <= (skip_while p segments).1.
Proof.
  induction segments as [|d rest IH]; [done|]. cbn [skip_while]. destruct (p d); [|done].
  destruct (skip_while p rest) as [n rest'] eqn:E. cbn in IH |- *. unfold len. lia.
Qed.

Lemma total_nonneg segments : 0 <= total segments.
Proof. unfold total, len. lia. Qed.

(** The rest begins with a segment that the loop does not skip. *)
Lemma skip_while_rest p segments :
  (skip_while p segments).2 `suffix_of` segments /\ match (skip_while p segments).2 with d :: _ => p d = false | [] => True end.
Proof.
  induction segments as [|d rest [IH1 IH2]]; [by split|]. cbn [skip_while]. destruct (p d) eqn:Hp; [|by split].
  destruct (skip_while p rest) as [n rest'] eqn:E. cbn in IH1, IH2 |- *. split; [by apply suffix_cons_r|done].
Qed.

(** What either direction moves over: at most the segments, and something when
    there are segments and their word-like ones have clean edges. *)
Definition moved options (word : jstring -> Z) (segments : list SegmentData) : Z :=
  let '(white, segments) := skip_while (skipped_white options) segments in
  match segments with
  | [] => white
  | next :: _ =>
      if isAtomic options (sd_segment next) then white + len (sd_segment next)
      else if sd_isWordLike next then white + word (sd_segment next)
      else white + (skip_while (skipped_punctuation options) segments).1
  end.

Lemma moved_bounds options word segments : (forall s, 0 <= word s <= len s) -> 0 <= moved options word segments <= total segments.
Proof.
  intros Hword. unfold moved. pose proof (skip_while_total (skipped_white options) segments) as Ht.
  pose proof (skip_while_nonneg (skipped_white options) segments) as Hn.
  destruct (skip_while (skipped_white options) segments) as [white rest]. cbn [fst snd] in *.
  destruct rest as [|next rest]; [change (total []) with 0 in Ht; lia|].
  pose proof (skip_while_total (skipped_punctuation options) (next :: rest)) as Ht'.
  pose proof (skip_while_nonneg (skipped_punctuation options) (next :: rest)) as Hn'.
  pose proof (total_nonneg (skip_while (skipped_punctuation options) (next :: rest)).2).
  pose proof (Hword (sd_segment next)). rewrite total_cons in Ht. pose proof (total_nonneg rest).
  rewrite total_cons in Ht'. destruct (isAtomic _ _); [unfold len in *; lia|]. destruct (sd_isWordLike next); lia.
Qed.

Lemma len_pos s : s <> [] -> 0 < len s.
Proof. unfold len. destruct s; [done|cbn; lia]. Qed.

Lemma moved_progress options word segments :
  (forall s, 0 <= word s <= len s) -> segments <> [] -> Forall (fun d => sd_segment d <> []) segments ->
  Forall (fun d => sd_isWordLike d = true -> word (sd_segment d) <> 0) segments -> 0 < moved options word segments.
Proof.
  intros Hword Hne Hseg Hedge. destruct segments as [|d rest]; [done|].
  pose proof (Forall_inv Hseg) as Hd. apply len_pos in Hd. pose proof (Forall_inv Hedge) as He. cbn in Hd, He.
  pose proof (Hword (sd_segment d)). unfold moved. cbn [skip_while].
  destruct (skipped_white options d) eqn:Hw.
  - pose proof (skip_while_nonneg (skipped_white options) rest) as Hn.
    destruct (skip_while (skipped_white options) rest) as [n [|next rest']]; cbn [fst] in Hn; [lia|].
    pose proof (skip_while_nonneg (skipped_punctuation options) (next :: rest')).
    pose proof (Hword (sd_segment next)). destruct (isAtomic _ _); [unfold len in *; lia|]. destruct (sd_isWordLike next); lia.
  - destruct (isAtomic options (sd_segment d)) eqn:Ha; [lia|]. destruct (sd_isWordLike d) eqn:Hl; [specialize (He eq_refl); lia|].
    assert (Hp : skipped_punctuation options d = true).
    { unfold skipped_punctuation. unfold skipped_white in Hw. rewrite Ha in Hw |- *. rewrite Hl. cbn in Hw |- *. by rewrite Hw. }
    cbn [skip_while]. rewrite Hp. pose proof (skip_while_nonneg (skipped_punctuation options) rest).
    destruct (skip_while _ rest). cbn in *. lia.
Qed.

Lemma backward_moved segment options text cursor : 0 < cursor ->
  findWordBackward segment options text cursor =
  cursor - moved options after_last_punctuation (reverse (segment_text segment options (slice0 text cursor))).
Proof.
  intros Hc. unfold findWordBackward, moved. destruct (Z.leb_spec cursor 0); [lia|].
  destruct (skip_while (skipped_white options) _) as [white [|next rest]]; [done|].
  destruct (isAtomic _ _); [lia|]. destruct (sd_isWordLike next); lia.
Qed.

Lemma forward_moved segment options text cursor : cursor < len text ->
  findWordForward segment options text cursor =
  cursor + moved options before_punctuation (segment_text segment options (slice_from text cursor)).
Proof.
  intros Hc. unfold findWordForward, moved. destruct (Z.leb_spec (len text) cursor); [lia|].
  destruct (skip_while (skipped_white options) _) as [white [|next rest]]; [done|].
  destruct (isAtomic _ _); [lia|]. destruct (sd_isWordLike next); lia.
Qed.

Lemma slice0_take text cursor : 0 <= cursor -> slice0 text cursor = take (Z.to_nat cursor) text.
Proof. intros Hc. unfold slice0. destruct (Z.ltb_spec cursor 0); [lia|done]. Qed.

Lemma slice_from_drop text cursor : 0 <= cursor -> slice_from text cursor = drop (Z.to_nat cursor) text.
Proof. intros Hc. unfold slice_from. destruct (Z.ltb_spec cursor 0); [lia|done]. Qed.

Section Bounds.
Context (segment : jstring -> list SegmentData) (options : WordNavigationOptions).
Context {spec : SegmenterSpec (segment_text segment options)}.

Lemma total_segments text : total (segment_text segment options text) = len text.
Proof using spec. unfold total. by rewrite segments_text. Qed.

(** Backward movement ends between the start and the cursor. *)
Lemma findWordBackward_bounds text cursor : 0 <= cursor <= len text -> 0 <= findWordBackward segment options text cursor <= cursor.
Proof using spec.
  intros Hc. destruct (decide (cursor = 0)) as [->|Hn]; [done|]. rewrite backward_moved, slice0_take by lia.
  pose proof (moved_bounds options after_last_punctuation (reverse (segment_text segment options (take (Z.to_nat cursor) text))) after_last_punctuation_bounds) as Hm.
  rewrite total_reverse, total_segments in Hm. unfold len in *. rewrite length_take in Hm. lia.
Qed.

Lemma findWordForward_bounds text cursor : 0 <= cursor <= len text -> cursor <= findWordForward segment options text cursor <= len text.
Proof using spec.
  intros Hc. destruct (decide (cursor = len text)) as [->|Hn].
  { unfold findWordForward. rewrite Z.leb_refl. lia. }
  rewrite forward_moved, slice_from_drop by lia.
  pose proof (moved_bounds options before_punctuation (segment_text segment options (drop (Z.to_nat cursor) text)) before_punctuation_bounds) as Hm.
  rewrite total_segments in Hm. unfold len in *. rewrite length_drop in Hm. lia.
Qed.

Lemma segments_exist text : text <> [] -> segment_text segment options text <> [].
Proof using spec. intros Ht Hs. pose proof (segments_text text) as He. rewrite Hs in He. by rewrite <- He in Ht. Qed.

(** With clean edges the cursor moves. *)
Lemma findWordBackward_progress text cursor : 0 < cursor <= len text ->
  clean_edges (segment_text segment options (slice0 text cursor)) -> findWordBackward segment options text cursor < cursor.
Proof using spec.
  intros Hc Hedges. rewrite backward_moved by lia.
  assert (0 < moved options after_last_punctuation (reverse (segment_text segment options (slice0 text cursor)))); [|lia].
  apply moved_progress; [apply after_last_punctuation_bounds| | |].
  - intros Hr. apply (f_equal reverse) in Hr. rewrite reverse_involutive in Hr. revert Hr. apply segments_exist.
    rewrite slice0_take by lia. unfold len in Hc. destruct text; [cbn in Hc; lia|]. destruct (Z.to_nat cursor) eqn:E; [lia|done].
  - apply Forall_reverse, segments_nonempty.
  - apply Forall_reverse. eapply Forall_impl; [exact Hedges|]. intros d Hd Hl. by apply Hd.
Qed.

Lemma findWordForward_progress text cursor : 0 <= cursor < len text ->
  clean_edges (segment_text segment options (slice_from text cursor)) -> cursor < findWordForward segment options text cursor.
Proof using spec.
  intros Hc Hedges. rewrite forward_moved by lia.
  assert (0 < moved options before_punctuation (segment_text segment options (slice_from text cursor))); [|lia].
  apply moved_progress; [apply before_punctuation_bounds| | |].
  - apply segments_exist. intros He. apply (f_equal length) in He. rewrite slice_from_drop, length_drop in He by lia.
    unfold len in Hc. cbn in He. lia.
  - apply segments_nonempty.
  - eapply Forall_impl; [exact Hedges|]. intros d Hd Hl. by apply Hd.
Qed.

End Bounds.

(** A word-like segment that ends with punctuation stops backward movement: a
    Hebrew letter and an apostrophe are one word. *)
Example stuck_after_punctuation (segment : jstring -> list SegmentData) :
  segment [0x5d0; 39] = [{| sd_segment := [0x5d0; 39]; sd_isWordLike := true |}] ->
  findWordBackward segment no_options [0x5d0; 39] 2 = 2.
Proof. intros Hs. unfold findWordBackward, segment_text. cbn -[punctuation]. change (slice0 [0x5d0; 39] 2) with [0x5d0; 39]. rewrite Hs. vm_compute. reflexivity. Qed.
