(* ===== verification/TextInput.v ===== *)
(** * The line editor

    packages/tui/src/components/input.ts with kill-ring.ts and undo-stack.ts:
    a single line of text with a cursor, word movement, a kill ring, undo and
    bracketed paste; and [decodeKittyPrintable] of keys.ts.

    The segmenters of [Intl] and the key bindings are parameters.  Callbacks run
    last in [handleInput], so what they do to the input is the next operation;
    [handleInput] returns them as events.  [KillRing] and [UndoStack] keep their
    arrays with the newest entry at the end; here it comes first. *)

From stdpp Require Import base list strings pretty.
From Stdlib Require Import ZArith Lia.
From S2P Require Import Prelude Numbers Utf8 Truncate EditDiff StdinBuffer WordNavigation.

Open Scope Z_scope.

(** ** The kill ring *)

Definition ring_push (ring : list jstring) (text : jstring) (prepend accumulate : bool) : list jstring :=
  match text with
  | [] => ring
  | _ =>
      match accumulate, ring with
      | true, last :: ring => (if prepend then text ++ last else last ++ text) :: ring
      | _, _ => text :: ring
      end
  end.

Definition ring_peek (ring : list jstring) : option jstring := head ring.

(** The newest entry becomes the oldest. *)
Definition ring_rotate (ring : list jstring) : list jstring :=
  match ring with
  | last :: (_ :: _) as rest => rest ++ [last]
  | _ => ring
  end.

(** ** Keys that the Kitty protocol reports *)

Definition MOD_shift : Z := 1.
Definition MOD_alt : Z := 2.
Definition MOD_ctrl : Z := 4.
Definition LOCK_MASK : Z := 64 + 128.
Definition KITTY_PRINTABLE_ALLOWED_MODIFIERS : Z := Z.lor MOD_shift LOCK_MASK.

(** Keypad keys, as the characters or the arrow and editing keys they stand for. *)
Definition KITTY_FUNCTIONAL_KEY_EQUIVALENTS : list (Z * Z) :=
  [(57399, 48); (57400, 49); (57401, 50); (57402, 51); (57403, 52); (57404, 53); (57405, 54); (57406, 55); (57407, 56);
   (57408, 57); (57409, 46); (57410, 47); (57411, 42); (57412, 45); (57413, 43); (57415, 61); (57416, 44);
   (57417, -4); (57418, -3); (57419, -1); (57420, -2); (57421, -12); (57422, -13); (57423, -14); (57424, -15);
   (57425, -11); (57426, -10)].

Definition normalizeKittyFunctionalCodepoint (codepoint : Z) : Z :=
  default codepoint (map_get codepoint KITTY_FUNCTIONAL_KEY_EQUIVALENTS).

(** [Number.parseInt(digits, 10)], a double. *)
Definition parse_int (digits : jstring) : number := binary_normalize 53 1024 (number_value digits) 0 false.

(** [ToInt32], as the bit operators apply it. *)
Definition to_int32 (n : number) : Z :=
  let v := default 0 (integer_value n) mod 2 ^ 32 in if 2 ^ 31 <=? v then v - 2 ^ 32 else v.

(** An optional group [c] followed by digits; [empty] tells whether there may be none. *)
Definition field (c : Z) (empty : bool) (s : jstring) : option jstring * jstring :=
  match s with
  | u :: r => if u =? c
              then match span_digits r with
                   | ([], r') => if empty then (Some [], r') else (None, s)
                   | (d, r') => (Some d, r')
                   end
              else (None, s)
  | [] => (None, [])
  end.

(** [KITTY_CSI_U_REGEX]: the groups 1, 2 and 4.  The groups are greedy, and giving
    one up never lets a later one match. *)
Definition kitty_csi_u (data : jstring) : option (jstring * option jstring * option jstring) :=
  match strip_prefix [ESC; 91] data with
  | Some r =>
      match span_digits r with
      | ([], _) => None
      | (codepoint, r) =>
          let '(shifted, r) := field 58 true r in
          let '(_, r) := field 58 false r in
          let '(modifier, r) := field 59 false r in
          let '(_, r) := field 58 false r in
          if bool_decide (r = [117]) then Some (codepoint, shifted, modifier) else None
      end
  | None => None
  end.

Definition decodeKittyPrintable (data : jstring) : option jstring :=
  match kitty_csi_u data with
  | None => None
  | Some (digits, shifted, modified) =>
      match integer_value (parse_int digits) with
      | None => None
      | Some codepoint =>
          let shiftedKey := match shifted with Some (u :: d) => Some (parse_int (u :: d)) | _ => None end in
          let modValue := match modified with Some d => parse_int d | None => number_of_Z 1 end in
          let modifier := to_int32 (if is_finite modValue then SFsub 53 1024 modValue (number_of_Z 1) else nzero) in
          if negb (Z.land modifier (Z.lnot KITTY_PRINTABLE_ALLOWED_MODIFIERS) =? 0) then None
          else if negb (Z.land modifier (Z.lor MOD_alt MOD_ctrl) =? 0) then None
          else
            let effective :=
              match shiftedKey with
              | Some key => if Z.land modifier MOD_shift =? 0 then Some codepoint else integer_value key
              | None => Some codepoint
              end in
            match normalizeKittyFunctionalCodepoint <$> effective with
            | Some c => if c <? 32 then None else if 0x10FFFF <? c then None else Some (utf16_of_scalar c)
            | None => None
            end
      end
  end.

(** ** The component *)

Inductive LastAction := LA_kill | LA_yank | LA_type_word.

#[export] Instance last_action_eq : EqDecision LastAction.
Proof. solve_decision. Defined.

Record InputState := { is_value : jstring; is_cursor : Z }.

(** [in_onSubmit] and [in_onEscape] tell whether the callbacks are set. *)
Record Input := {
  in_value : jstring;
  in_cursor : Z;
  in_onSubmit : bool;
  in_onEscape : bool;
  in_pasteBuffer : jstring;
  in_isInPaste : bool;
  in_killRing : list jstring;
  in_lastAction : option LastAction;
  in_undoStack : list InputState;
}.

(** What a new component holds. *)
Definition new_input (onSubmit onEscape : bool) : Input :=
  {| in_value := []; in_cursor := 0; in_onSubmit := onSubmit; in_onEscape := onEscape; in_pasteBuffer := []; in_isInPaste := false;
     in_killRing := []; in_lastAction := None; in_undoStack := [] |}.

(** Assignments to [value] and [cursor], and to the other fields. *)
Definition set_text (s : Input) (value : jstring) (cursor : Z) : Input :=
  {| in_value := value; in_cursor := cursor; in_onSubmit := in_onSubmit s; in_onEscape := in_onEscape s;
     in_pasteBuffer := in_pasteBuffer s; in_isInPaste := in_isInPaste s; in_killRing := in_killRing s;
     in_lastAction := in_lastAction s; in_undoStack := in_undoStack s |}.

Definition set_paste (s : Input) (isInPaste : bool) (pasteBuffer : jstring) : Input :=
  {| in_value := in_value s; in_cursor := in_cursor s; in_onSubmit := in_onSubmit s; in_onEscape := in_onEscape s;
     in_pasteBuffer := pasteBuffer; in_isInPaste := isInPaste; in_killRing := in_killRing s;
     in_lastAction := in_lastAction s; in_undoStack := in_undoStack s |}.

Definition set_ring (s : Input) (killRing : list jstring) : Input :=
  {| in_value := in_value s; in_cursor := in_cursor s; in_onSubmit := in_onSubmit s; in_onEscape := in_onEscape s;
     in_pasteBuffer := in_pasteBuffer s; in_isInPaste := in_isInPaste s; in_killRing := killRing;
     in_lastAction := in_lastAction s; in_undoStack := in_undoStack s |}.

Definition set_action (s : Input) (lastAction : option LastAction) : Input :=
  {| in_value := in_value s; in_cursor := in_cursor s; in_onSubmit := in_onSubmit s; in_onEscape := in_onEscape s;
     in_pasteBuffer := in_pasteBuffer s; in_isInPaste := in_isInPaste s; in_killRing := in_killRing s;
     in_lastAction := lastAction; in_undoStack := in_undoStack s |}.

Definition set_undo (s : Input) (undoStack : list InputState) : Input :=
  {| in_value := in_value s; in_cursor := in_cursor s; in_onSubmit := in_onSubmit s; in_onEscape := in_onEscape s;
     in_pasteBuffer := in_pasteBuffer s; in_isInPaste := in_isInPaste s; in_killRing := in_killRing s;
     in_lastAction := in_lastAction s; in_undoStack := undoStack |}.

Inductive InputEvent := IE_submit (value : jstring) | IE_escape.

(** The bindings that the component asks for. *)
Inductive Keybinding :=
| KB_select_cancel | KB_undo | KB_submit | KB_deleteCharBackward | KB_deleteCharForward | KB_deleteWordBackward
| KB_deleteWordForward | KB_deleteToLineStart | KB_deleteToLineEnd | KB_yank | KB_yankPop | KB_cursorLeft | KB_cursorRight
| KB_cursorLineStart | KB_cursorLineEnd | KB_cursorWordLeft | KB_cursorWordRight.

(** [value.slice(0, cursor) + text + value.slice(cursor)] *)
Definition spliced (value : jstring) (cursor : Z) (text : jstring) : jstring :=
  slice0 value cursor ++ text ++ slice_from value cursor.

(** [value.slice(from, to)] *)
Definition slice_between (value : jstring) (from to : Z) : jstring :=
  let index n := Z.to_nat (if n <? 0 then len value + n else n) in drop (index from) (take (index to) value).

Definition setValue (s : Input) (value : jstring) : Input := set_text s value (Z.min (in_cursor s) (len value)).

Definition pushUndo (s : Input) : Input :=
  set_undo s ({| is_value := in_value s; is_cursor := in_cursor s |} :: in_undoStack s).

Definition undo (s : Input) : Input :=
  match in_undoStack s with
  | [] => s
  | snapshot :: stack => set_action (set_undo (set_text s (is_value snapshot) (is_cursor snapshot)) stack) None
  end.

Definition insertCharacter (s : Input) (char : jstring) : Input :=
  let s := if isWhitespaceChar char || negb (bool_decide (in_lastAction s = Some LA_type_word)) then pushUndo s else s in
  let s := set_action s (Some LA_type_word) in
  set_text s (spliced (in_value s) (in_cursor s) char) (in_cursor s + len char).

(** [.replace(/\r\n/g, "")] *)
Fixpoint remove_crlf (s : jstring) : jstring :=
  match s with
  | 13 :: ((10 :: r) as tl) => remove_crlf r
  | u :: r => u :: remove_crlf r
  | [] => []
  end.

(** Line breaks are removed and a tab becomes four spaces. *)
Definition clean_paste (text : jstring) : jstring :=
  let text := remove_crlf text in
  let text := filter (fun u => u <> 13) text in
  let text := filter (fun u => u <> 10) text in
  mjoin ((fun u => if u =? 9 then js "    " else [u]) <$> text).

Definition handlePaste (s : Input) (pastedText : jstring) : Input :=
  let s := pushUndo (set_action s None) in
  let cleanText := clean_paste pastedText in
  set_text s (spliced (in_value s) (in_cursor s) cleanText) (in_cursor s + len cleanText).

Definition yank (s : Input) : Input :=
  match ring_peek (in_killRing s) with
  | None | Some [] => s
  | Some text =>
      let s := pushUndo s in
      set_action (set_text s (spliced (in_value s) (in_cursor s) text) (in_cursor s + len text)) (Some LA_yank)
  end.

Definition yankPop (s : Input) : Input :=
  if negb (bool_decide (in_lastAction s = Some LA_yank)) || (length (in_killRing s) <=? 1)%nat then s
  else
    let s := pushUndo s in
    let prevText := default [] (ring_peek (in_killRing s)) in
    let s := set_text s (slice0 (in_value s) (in_cursor s - len prevText) ++ slice_from (in_value s) (in_cursor s)) (in_cursor s - len prevText) in
    let s := set_ring s (ring_rotate (in_killRing s)) in
    let text := default [] (ring_peek (in_killRing s)) in
    set_action (set_text s (spliced (in_value s) (in_cursor s) text) (in_cursor s + len text)) (Some LA_yank).

Definition deleteToLineStart (s : Input) : Input :=
  if in_cursor s =? 0 then s
  else
    let s := pushUndo s in
    let deletedText := slice0 (in_value s) (in_cursor s) in
    let s := set_ring s (ring_push (in_killRing s) deletedText true (bool_decide (in_lastAction s = Some LA_kill))) in
    let s := set_action s (Some LA_kill) in
    set_text s (slice_from (in_value s) (in_cursor s)) 0.

Definition deleteToLineEnd (s : Input) : Input :=
  if len (in_value s) <=? in_cursor s then s
  else
    let s := pushUndo s in
    let deletedText := slice_from (in_value s) (in_cursor s) in
    let s := set_ring s (ring_push (in_killRing s) deletedText false (bool_decide (in_lastAction s = Some LA_kill))) in
    let s := set_action s (Some LA_kill) in
    set_text s (slice0 (in_value s) (in_cursor s)) (in_cursor s).

Section Editing.
Context (graphemes : jstring -> list jstring) (wordSegmenter : jstring -> list SegmentData).

(** The length of the last grapheme before the cursor, and of the first after it. *)
Definition grapheme_before (s : Input) : Z :=
  match last (graphemes (slice0 (in_value s) (in_cursor s))) with Some g => len g | None => 1 end.

Definition grapheme_after (s : Input) : Z :=
  match head (graphemes (slice_from (in_value s) (in_cursor s))) with Some g => len g | None => 1 end.

Definition handleBackspace (s : Input) : Input :=
  let s := set_action s None in
  if 0 <? in_cursor s then
    let s := pushUndo s in
    let graphemeLength := grapheme_before s in
    set_text s (slice0 (in_value s) (in_cursor s - graphemeLength) ++ slice_from (in_value s) (in_cursor s)) (in_cursor s - graphemeLength)
  else s.

Definition handleForwardDelete (s : Input) : Input :=
  let s := set_action s None in
  if in_cursor s <? len (in_value s) then
    let s := pushUndo s in
    set_text s (slice0 (in_value s) (in_cursor s) ++ slice_from (in_value s) (in_cursor s + grapheme_after s)) (in_cursor s)
  else s.

Definition moveWordBackwards (s : Input) : Input :=
  if in_cursor s =? 0 then s
  else set_text (set_action s None) (in_value s) (findWordBackward wordSegmenter no_options (in_value s) (in_cursor s)).

Definition moveWordForwards (s : Input) : Input :=
  if len (in_value s) <=? in_cursor s then s
  else set_text (set_action s None) (in_value s) (findWordForward wordSegmenter no_options (in_value s) (in_cursor s)).

Definition deleteWordBackwards (s : Input) : Input :=
  if in_cursor s =? 0 then s
  else
    let wasKill := bool_decide (in_lastAction s = Some LA_kill) in
    let s := pushUndo s in
    let oldCursor := in_cursor s in
    let s := moveWordBackwards s in
    let deleteFrom := in_cursor s in
    let s := set_text s (in_value s) oldCursor in
    let deletedText := slice_between (in_value s) deleteFrom (in_cursor s) in
    let s := set_ring s (ring_push (in_killRing s) deletedText true wasKill) in
    let s := set_action s (Some LA_kill) in
    set_text s (slice0 (in_value s) deleteFrom ++ slice_from (in_value s) (in_cursor s)) deleteFrom.

Definition deleteWordForward (s : Input) : Input :=
  if len (in_value s) <=? in_cursor s then s
  else
    let wasKill := bool_decide (in_lastAction s = Some LA_kill) in
    let s := pushUndo s in
    let oldCursor := in_cursor s in
    let s := moveWordForwards s in
    let deleteTo := in_cursor s in
    let s := set_text s (in_value s) oldCursor in
    let deletedText := slice_between (in_value s) (in_cursor s) deleteTo in
    let s := set_ring s (ring_push (in_killRing s) deletedText false wasKill) in
    let s := set_action s (Some LA_kill) in
    set_text s (slice0 (in_value s) (in_cursor s) ++ slice_from (in_value s) deleteTo) (in_cursor s).

(** A cursor key: [lastAction] is reset, then the cursor moves by a grapheme. *)
Definition cursorLeft (s : Input) : Input :=
  let s := set_action s None in
  if 0 <? in_cursor s then set_text s (in_value s) (in_cursor s - grapheme_before s) else s.

Definition cursorRight (s : Input) : Input :=
  let s := set_action s None in
  if in_cursor s <? len (in_value s) then set_text s (in_value s) (in_cursor s + grapheme_after s) else s.

Definition cursorLineStart (s : Input) : Input := set_text (set_action s None) (in_value s) 0.
Definition cursorLineEnd (s : Input) : Input := set_text (set_action s None) (in_value s) (len (in_value s)).

(** [[...data]] pairs surrogates, of which neither is a control character. *)
Definition hasControlChars (data : jstring) : bool :=
  existsb (fun code => (code <? 32) || (code =? 0x7f) || ((0x80 <=? code) && (code <=? 0x9f))) data.

(** [handleInput] after the handling of pastes. *)
Section Keys.
Context (matches : jstring -> Keybinding -> bool).

Definition handle_key (s : Input) (data : jstring) : Input * list InputEvent :=
  if matches data KB_select_cancel then (s, if in_onEscape s then [IE_escape] else [])
  else if matches data KB_undo then (undo s, [])
  else if matches data KB_submit || bool_decide (data = [10]) then (s, if in_onSubmit s then [IE_submit (in_value s)] else [])
  else if matches data KB_deleteCharBackward then (handleBackspace s, [])
  else if matches data KB_deleteCharForward then (handleForwardDelete s, [])
  else if matches data KB_deleteWordBackward then (deleteWordBackwards s, [])
  else if matches data KB_deleteWordForward then (deleteWordForward s, [])
  else if matches data KB_deleteToLineStart then (deleteToLineStart s, [])
  else if matches data KB_deleteToLineEnd then (deleteToLineEnd s, [])
  else if matches data KB_yank then (yank s, [])
  else if matches data KB_yankPop then (yankPop s, [])
  else if matches data KB_cursorLeft then (cursorLeft s, [])
  else if matches data KB_cursorRight then (cursorRight s, [])
  else if matches data KB_cursorLineStart then (cursorLineStart s, [])
  else if matches data KB_cursorLineEnd then (cursorLineEnd s, [])
  else if matches data KB_cursorWordLeft then (moveWordBackwards s, [])
  else if matches data KB_cursorWordRight then (moveWordForwards s, [])
  else
    match decodeKittyPrintable data with
    | Some kittyPrintable => (insertCharacter s kittyPrintable, [])
    | None => (if hasControlChars data then s else insertCharacter s data, [])
    end.

(** The start of a paste: its marker is removed from the data. *)
Definition start_paste (s : Input) (data : jstring) : Input * jstring :=
  match index_of BRACKETED_PASTE_START data with
  | Some i => (set_paste s true [], take i data ++ drop (i + length BRACKETED_PASTE_START) data)
  | None => (s, data)
  end.

(** [handleInput] calls itself for what follows a paste. *)
Fixpoint handle_loop (fuel : nat) (s : Input) (data : jstring) : Input * list InputEvent :=
  match fuel with
  | O => (s, [])
  | S fuel =>
      let '(s, data) := start_paste s data in
      if in_isInPaste s then
        let pasteBuffer := in_pasteBuffer s ++ data in
        match index_of BRACKETED_PASTE_END pasteBuffer with
        | Some endIndex =>
            let s := handlePaste s (take endIndex pasteBuffer) in
            let remaining := drop (endIndex + 6) pasteBuffer in
            let s := set_paste s false [] in
            match remaining with [] => (s, []) | _ => handle_loop fuel s remaining end
        | None => (set_paste s true pasteBuffer, [])
        end
      else handle_key s data
  end.

Definition handleInput (s : Input) (data : jstring) : Input * list InputEvent :=
  handle_loop (S (length (in_pasteBuffer s) + length data)) s data.

(** How the terminal passes a paste on: with its markers again. *)
Definition forwardPaste (content : jstring) : jstring := BRACKETED_PASTE_START ++ content ++ BRACKETED_PASTE_END.

(** A sequence of inputs, with the events of all. *)
Fixpoint handle_all (s : Input) (inputs : list jstring) : Input * list InputEvent :=
  match inputs with
  | [] => (s, [])
  | data :: inputs => let '(s, evs) := handleInput s data in let '(s, evs') := handle_all s inputs in (s, evs ++ evs')
  end.

End Keys.
End Editing.
