(* ===== verification/InputProperties.v ===== *)
(** * The line editor is a text with a gap

    A value and a cursor inside it are the text before the cursor and the text
    after it.  Every operation is described on that pair, which gives the
    invariant of the component, and what kill, yank and undo do to the text. *)

From stdpp Require Import base list strings pretty.
From Stdlib Require Import ZArith Lia.
From S2P Require Import Prelude Numbers Utf8 Truncate EditDiff EditProperties StdinBuffer StdinProperties WordNavigation TextInput.

Open Scope Z_scope.

(** ** The text around the cursor *)

Definition located (value : jstring) (cursor : Z) : Prop := 0 <= cursor <= len value.

Lemma located_app b a : located (b ++ a) (len b).
Proof. unfold located, len. rewrite length_app. lia. Qed.

Lemma located_split value cursor : located value cursor -> exists b a, value = b ++ a /\ cursor = len b.
Proof.
  intros Hc. exists (take (Z.to_nat cursor) value), (drop (Z.to_nat cursor) value). rewrite take_drop. split; [done|].
  unfold located, len in *. rewrite length_take. lia.
Qed.

Lemma len_app b a : len (b ++ a) = len b + len a.
Proof. unfold len. rewrite length_app. lia. Qed.

Lemma len_nonneg s : 0 <= len s.
Proof. unfold len. lia. Qed.

Lemma slice0_app b a : slice0 (b ++ a) (len b) = b.
Proof. rewrite slice0_take by apply len_nonneg. unfold len. rewrite Nat2Z.id. apply take_app_length. Qed.

Lemma slice_from_app b a : slice_from (b ++ a) (len b) = a.
Proof. rewrite slice_from_drop by apply len_nonneg. unfold len. rewrite Nat2Z.id. apply drop_app_length. Qed.

Lemma spliced_app b a text : spliced (b ++ a) (len b) text = b ++ text ++ a.
Proof. unfold spliced. by rewrite slice0_app, slice_from_app. Qed.

Lemma slice_between_app b w a : slice_between (b ++ w ++ a) (len b) (len b + len w) = w.
Proof.
  unfold slice_between. pose proof (len_nonneg b). pose proof (len_nonneg w).
  destruct (Z.ltb_spec (len b) 0); [lia|]. destruct (Z.ltb_spec (len b + len w) 0); [lia|].
  rewrite app_assoc. replace (Z.to_nat (len b + len w)) with (length (b ++ w)) by (rewrite length_app; unfold len; lia).
  rewrite take_app_length. unfold len. rewrite Nat2Z.id. apply drop_app_length.
Qed.

Create Rewrite HintDb gap.
#[export] Hint Rewrite slice0_app slice_from_app spliced_app slice_between_app : gap.

(** ** Segmenters *)

(** Graphemes are not empty and make up the text. *)
Class GraphemeSpec (graphemes : jstring -> list jstring) := {
  graphemes_text text : mjoin (graphemes text) = text;
  graphemes_nonempty text : Forall (fun g => g <> []) (graphemes text);
}.

Section Segments.
Context (graphemes : jstring -> list jstring) {spec : GraphemeSpec graphemes}.

Lemma last_grapheme text : text <> [] -> exists b g, text = b ++ g /\ g <> [] /\ last (graphemes text) = Some g.
Proof using spec.
  intros Hne. pose proof (graphemes_text text) as Ht. pose proof (graphemes_nonempty text) as Hf.
  destruct (graphemes text) as [|g gs _] using rev_ind; [by rewrite <- Ht in Hne|].
  apply Forall_app in Hf as [_ Hg]. apply Forall_inv in Hg. exists (mjoin gs), g. rewrite join_app in Ht. cbn in Ht.
  rewrite app_nil_r in Ht. by rewrite last_snoc.
Qed.

Lemma first_grapheme text : text <> [] -> exists g a, text = g ++ a /\ g <> [] /\ head (graphemes text) = Some g.
Proof using spec.
  intros Hne. pose proof (graphemes_text text) as Ht. pose proof (graphemes_nonempty text) as Hf.
  destruct (graphemes text) as [|g gs]; [by rewrite <- Ht in Hne|]. apply Forall_inv in Hf. by exists g, (mjoin gs).
Qed.

End Segments.

(** ** The invariant *)

(** After a yank the text before the cursor ends with the newest entry of the
    ring, which is what [yankPop] removes. *)
Record text_ok (s : Input) : Prop := {
  ok_cursor : located (in_value s) (in_cursor s);
  ok_undo : Forall (fun u => located (is_value u) (is_cursor u)) (in_undoStack s);
  ok_ring : Forall (fun text => text <> []) (in_killRing s);
  ok_yank : in_lastAction s = Some LA_yank ->
    exists b text a, in_value s = b ++ text ++ a /\ in_cursor s = len b + len text /\ ring_peek (in_killRing s) = Some text;
}.

(** A paste in progress has not seen its end; outside of one nothing is buffered. *)
Definition paste_ok (s : Input) : Prop :=
  if in_isInPaste s then index_of BRACKETED_PASTE_END (in_pasteBuffer s) = None else in_pasteBuffer s = [].

Definition input_ok (s : Input) : Prop := text_ok s /\ paste_ok s.

(** What the editing operations leave alone. *)
Definition same_paste (s s' : Input) : Prop :=
  in_isInPaste s' = in_isInPaste s /\ in_pasteBuffer s' = in_pasteBuffer s.

Definition snapshot (s : Input) : InputState := {| is_value := in_value s; is_cursor := in_cursor s |}.

(** The state of the text as a pair. *)
Definition around (s : Input) (b a : jstring) : Prop := in_value s = b ++ a /\ in_cursor s = len b.

Lemma ok_around s : text_ok s -> exists b a, around s b a.
Proof. intros Hok. apply located_split, Hok. Qed.

(** Replaces the value and the cursor of a state by the pair. *)
Ltac open_gap s H :=
  let Hv := fresh "Hv" in let Hc := fresh "Hc" in
  destruct H as [Hv Hc]; destruct s as [value cursor onSubmit onEscape pasteBuffer isInPaste killRing lastAction undoStack];
  cbn [in_value in_cursor in_onSubmit in_onEscape in_pasteBuffer in_isInPaste in_killRing in_lastAction in_undoStack] in *;
  subst value cursor.

(** What an operation may do to the text, the ring, the last action and the undo
    stack, given the text around the cursor. *)
Record effect (s s' : Input) (b a : jstring) (ring : list jstring) (action : option LastAction) (stack : list InputState) : Prop := {
  ef_around : around s' b a;
  ef_paste : same_paste s s';
  ef_ring : in_killRing s' = ring;
  ef_action : in_lastAction s' = action;
  ef_stack : in_undoStack s' = stack;
}.

Ltac effect_done := split; [split; cbn; autorewrite with gap; rewrite ?len_app; cbn; rewrite <- ?app_assoc; try done; try lia|by split|done|done|done].

Section Operations.
Context (graphemes : jstring -> list jstring) (wordSegmenter : jstring -> list SegmentData).
Context {gspec : GraphemeSpec graphemes} {wspec : SegmenterSpec wordSegmenter}.

#[local] Instance default_segmenter : SegmenterSpec (segment_text wordSegmenter no_options) := wspec.

Lemma insert_effect s b a char : around s b a ->
  effect s (insertCharacter s char) (b ++ char) a (in_killRing s) (Some LA_type_word)
    (if isWhitespaceChar char || negb (bool_decide (in_lastAction s = Some LA_type_word)) then snapshot s :: in_undoStack s else in_undoStack s).
Proof. intros H. open_gap s H. unfold insertCharacter. cbn [in_lastAction]. destruct (_ || _); effect_done. Qed.

Lemma paste_effect s b a text : around s b a ->
  effect s (handlePaste s text) (b ++ clean_paste text) a (in_killRing s) None (snapshot s :: in_undoStack s).
Proof. intros H. open_gap s H. unfold handlePaste. effect_done. Qed.

Lemma yank_effect s b a text ring : around s b a -> in_killRing s = text :: ring -> text <> [] ->
  effect s (yank s) (b ++ text) a (text :: ring) (Some LA_yank) (snapshot s :: in_undoStack s).
Proof. intros H Hr Ht. open_gap s H. subst. unfold yank. cbn. destruct text as [|u text]; [done|]. effect_done. Qed.

Lemma yankPop_effect s b a text next ring : around s (b ++ text) a -> in_killRing s = text :: next :: ring -> in_lastAction s = Some LA_yank ->
  effect s (yankPop s) (b ++ next) a (next :: ring ++ [text]) (Some LA_yank) (snapshot s :: in_undoStack s).
Proof.
  intros H Hr Ha. open_gap s H. subst. unfold yankPop. cbn -[slice0 slice_from spliced len app].
  replace (len (b ++ text) - len text) with (len b) by (rewrite len_app; lia).
  rewrite slice_from_app, <- app_assoc, slice0_app, spliced_app. cbn. effect_done.
Qed.

Lemma lineStart_effect s b a : around s b a -> b <> [] ->
  effect s (deleteToLineStart s) [] a (ring_push (in_killRing s) b true (bool_decide (in_lastAction s = Some LA_kill))) (Some LA_kill)
    (snapshot s :: in_undoStack s).
Proof.
  intros H Hb. open_gap s H. apply len_pos in Hb. unfold deleteToLineStart. cbn [in_cursor]. destruct (Z.eqb_spec (len b) 0); [lia|].
  cbn -[slice0 slice_from len ring_push]. rewrite slice0_app, slice_from_app. effect_done.
Qed.

Lemma lineEnd_effect s b a : around s b a -> a <> [] ->
  effect s (deleteToLineEnd s) b [] (ring_push (in_killRing s) a false (bool_decide (in_lastAction s = Some LA_kill))) (Some LA_kill)
    (snapshot s :: in_undoStack s).
Proof.
  intros H Ha. open_gap s H. apply len_pos in Ha. unfold deleteToLineEnd. cbn [in_cursor in_value]. rewrite len_app. destruct (Z.leb_spec (len b + len a) (len b)); [lia|].
  cbn -[slice0 slice_from len ring_push]. rewrite slice0_app, slice_from_app. split; [split; cbn; by rewrite ?app_nil_r|by split|done|done|done].
Qed.

(** Backward word movement splits the text before the cursor. *)
Lemma word_before b a : b <> [] -> exists b' w, b = b' ++ w /\ findWordBackward wordSegmenter no_options (b ++ a) (len b) = len b'.
Proof using wspec.
  intros Hb. pose proof (findWordBackward_bounds wordSegmenter no_options (b ++ a) (len b) (located_app b a)) as Hf.
  destruct (located_split b (findWordBackward wordSegmenter no_options (b ++ a) (len b))) as (b' & w & -> & Hw); [done|]. by exists b', w.
Qed.

Lemma word_after b a : a <> [] -> exists w a', a = w ++ a' /\ findWordForward wordSegmenter no_options (b ++ a) (len b) = len (b ++ w).
Proof using wspec.
  intros Ha. pose proof (findWordForward_bounds wordSegmenter no_options (b ++ a) (len b) (located_app b a)) as Hf.
  destruct (located_split a (findWordForward wordSegmenter no_options (b ++ a) (len b) - len b)) as (w & a' & -> & Hw).
  - unfold located. rewrite len_app in Hf. lia.
  - exists w, a'. split; [done|]. rewrite len_app. lia.
Qed.

Lemma wordBackward_effect s b a : around s b a -> b <> [] -> exists b' w, b = b' ++ w /\
  effect s (deleteWordBackwards wordSegmenter s) b' a (ring_push (in_killRing s) w true (bool_decide (in_lastAction s = Some LA_kill))) (Some LA_kill)
    (snapshot s :: in_undoStack s).
Proof using wspec.
  intros H Hb. destruct (word_before b a Hb) as (b' & w & -> & Hw). exists b', w. split; [done|]. open_gap s H. apply len_pos in Hb.
  unfold deleteWordBackwards, moveWordBackwards. cbn -[slice0 slice_from slice_between len ring_push findWordBackward].
  destruct (Z.eqb_spec (len (b' ++ w)) 0); [lia|]. cbn -[slice0 slice_from slice_between len ring_push findWordBackward]. rewrite Hw.
  rewrite slice_from_app. rewrite len_app, <- app_assoc, slice_between_app, slice0_app. effect_done.
Qed.

Lemma wordForward_effect s b a : around s b a -> a <> [] -> exists w a', a = w ++ a' /\
  effect s (deleteWordForward wordSegmenter s) b a' (ring_push (in_killRing s) w false (bool_decide (in_lastAction s = Some LA_kill))) (Some LA_kill)
    (snapshot s :: in_undoStack s).
Proof using wspec.
  intros H Ha. destruct (word_after b a Ha) as (w & a' & -> & Hw). exists w, a'. split; [done|]. open_gap s H. apply len_pos in Ha.
  unfold deleteWordForward, moveWordForwards. cbn -[slice0 slice_from slice_between len ring_push findWordForward]. 
  pose proof (len_app b (w ++ a')). destruct (Z.leb_spec (len (b ++ w ++ a')) (len b)); [lia|]. cbn -[slice0 slice_from slice_between len ring_push findWordForward]. rewrite Hw.
  rewrite slice0_app, app_assoc, slice_from_app, len_app, <- app_assoc, slice_between_app. effect_done.
Qed.

Lemma backspace_effect s b a : around s b a -> b <> [] -> exists b' g, b = b' ++ g /\ g <> [] /\
  effect s (handleBackspace graphemes s) b' a (in_killRing s) None (snapshot s :: in_undoStack s).
Proof using gspec.
  intros H Hb. destruct (last_grapheme graphemes b Hb) as (b' & g & -> & Hg & Hl). exists b', g. split; [done|]. split; [done|].
  open_gap s H. apply len_pos in Hb. unfold handleBackspace, grapheme_before. cbn -[slice0 slice_from len]. rewrite slice0_app, Hl.
  destruct (Z.ltb_spec 0 (len (b' ++ g))); [|lia]. cbn -[slice0 slice_from len]. rewrite slice_from_app.
  replace (len (b' ++ g) - len g) with (len b') by (rewrite len_app; lia). rewrite <- app_assoc, slice0_app. effect_done.
Qed.

Lemma forwardDelete_effect s b a : around s b a -> a <> [] -> exists g a', a = g ++ a' /\ g <> [] /\
  effect s (handleForwardDelete graphemes s) b a' (in_killRing s) None (snapshot s :: in_undoStack s).
Proof using gspec.
  intros H Ha. destruct (first_grapheme graphemes a Ha) as (g & a' & -> & Hg & Hl). exists g, a'. split; [done|]. split; [done|].
  open_gap s H. apply len_pos in Ha. unfold handleForwardDelete, grapheme_after. cbn -[slice0 slice_from len]. rewrite slice_from_app, Hl.
  pose proof (len_app b (g ++ a')). destruct (Z.ltb_spec (len b) (len (b ++ g ++ a'))); [|lia]. cbn -[slice0 slice_from len].
  rewrite slice0_app, <- len_app, app_assoc, slice_from_app. effect_done.
Qed.

(** ** One key *)

(** The text [w] next to the cursor goes to the ring. *)
Definition killed (s s' : Input) : Prop := exists (b w a : jstring) (prepend : bool),
  around s (b ++ if prepend then w else []) ((if prepend then [] else w) ++ a) /\
  effect s s' b a (ring_push (in_killRing s) w prepend (bool_decide (in_lastAction s = Some LA_kill))) (Some LA_kill) (snapshot s :: in_undoStack s).

(** What a key other than undo may do: nothing, move the cursor, insert typed text,
    replace the text around the cursor after saving it, kill, or yank. *)
Inductive edit_step (s s' : Input) : Prop :=
| ks_none : s' = s -> edit_step s s'
| ks_move b a : in_value s = b ++ a -> effect s s' b a (in_killRing s) None (in_undoStack s) -> edit_step s s'
| ks_type b a char : around s b a ->
    effect s s' (b ++ char) a (in_killRing s) (Some LA_type_word)
      (if isWhitespaceChar char || negb (bool_decide (in_lastAction s = Some LA_type_word)) then snapshot s :: in_undoStack s else in_undoStack s) ->
    edit_step s s'
| ks_edit b a : effect s s' b a (in_killRing s) None (snapshot s :: in_undoStack s) -> edit_step s s'
| ks_kill : killed s s' -> edit_step s s'
| ks_yank b text a ring : text <> [] -> Forall (fun t => t <> []) ring ->
    effect s s' (b ++ text) a (text :: ring) (Some LA_yank) (snapshot s :: in_undoStack s) -> edit_step s s'.

(** The effect of undo when there is something to undo. *)
Definition undone (s s' : Input) : Prop := exists saved stack b a,
  in_undoStack s = saved :: stack /\ is_value saved = b ++ a /\ is_cursor saved = len b /\ effect s s' b a (in_killRing s) None stack.

Inductive key_step (s s' : Input) : Prop :=
| ks_edit_step : edit_step s s' -> key_step s s'
| ks_undo : undone s s' -> key_step s s'.

Lemma around_nil_before s a : around s [] a -> in_cursor s = 0.
Proof. by intros [_ ->]. Qed.

Lemma around_nil_after s b : around s b [] -> len (in_value s) <= in_cursor s.
Proof. intros [-> ->]. by rewrite app_nil_r. Qed.

Lemma move_effect s b a b' a' : around s b a -> b ++ a = b' ++ a' ->
  effect s (set_text (set_action s None) (in_value s) (len b')) b' a' (in_killRing s) None (in_undoStack s).
Proof. intros [Hv _] He. split; [split; cbn; [by rewrite Hv|done]|by split|done|done|done]. Qed.

Lemma reset_effect s b a : around s b a -> effect s (set_action s None) b a (in_killRing s) None (in_undoStack s).
Proof. intros H. split; [exact H|by split|done|done|done]. Qed.

Lemma undo_step s : text_ok s -> key_step s (undo s).
Proof using.
  intros Hok. unfold undo. destruct (in_undoStack s) as [|saved stack] eqn:Hs; [by apply ks_edit_step, ks_none|].
  pose proof (ok_undo s Hok) as Hu. rewrite Hs in Hu. apply Forall_inv in Hu. destruct (located_split _ _ Hu) as (b & a & Hv & Hc).
  apply ks_undo. exists saved, stack, b, a. split_and!; [done..|]. split; [split; cbn; done|by split|done|done|done].
Qed.

Lemma killed_back s b w a : around s (b ++ w) a ->
  forall s', effect s s' b a (ring_push (in_killRing s) w true (bool_decide (in_lastAction s = Some LA_kill))) (Some LA_kill) (snapshot s :: in_undoStack s) -> killed s s'.
Proof. intros H s' He. by exists b, w, a, true. Qed.

Lemma killed_front s b w a : around s b (w ++ a) ->
  forall s', effect s s' b a (ring_push (in_killRing s) w false (bool_decide (in_lastAction s = Some LA_kill))) (Some LA_kill) (snapshot s :: in_undoStack s) -> killed s s'.
Proof. intros H s' He. exists b, w, a, false. by rewrite app_nil_r. Qed.

Lemma lineStart_kill s : located (in_value s) (in_cursor s) -> deleteToLineStart s = s \/ killed s (deleteToLineStart s).
Proof using.
  intros (b & a & H)%located_split. destruct b as [|u b'] eqn:Hb.
  { apply around_nil_before in H. left. unfold deleteToLineStart. by rewrite H. }
  rewrite <- Hb in H. right. apply (killed_back s [] b a H). apply lineStart_effect; [done|by subst].
Qed.

Lemma lineEnd_kill s : located (in_value s) (in_cursor s) -> deleteToLineEnd s = s \/ killed s (deleteToLineEnd s).
Proof using.
  intros (b & a & H)%located_split. destruct a as [|u a'] eqn:Ha.
  { apply around_nil_after in H. left. unfold deleteToLineEnd. destruct (Z.leb_spec (len (in_value s)) (in_cursor s)); [done|lia]. }
  rewrite <- Ha in H. right. apply (killed_front s b a []); [by rewrite app_nil_r|]. apply lineEnd_effect; [done|by subst].
Qed.

Lemma wordBackward_kill s : located (in_value s) (in_cursor s) -> deleteWordBackwards wordSegmenter s = s \/ killed s (deleteWordBackwards wordSegmenter s).
Proof using wspec.
  intros (b & a & H)%located_split. destruct b as [|u b'] eqn:Hb.
  { apply around_nil_before in H. left. unfold deleteWordBackwards. by rewrite H. }
  rewrite <- Hb in H. destruct (wordBackward_effect s b a H) as (b1 & w & -> & He); [by subst|]. right. by apply (killed_back s b1 w a).
Qed.

Lemma wordForward_kill s : located (in_value s) (in_cursor s) -> deleteWordForward wordSegmenter s = s \/ killed s (deleteWordForward wordSegmenter s).
Proof using wspec.
  intros (b & a & H)%located_split. destruct a as [|u a'] eqn:Ha.
  { apply around_nil_after in H. left. unfold deleteWordForward. destruct (Z.leb_spec (len (in_value s)) (in_cursor s)); [done|lia]. }
  rewrite <- Ha in H. destruct (wordForward_effect s b a H) as (w & a1 & -> & He); [by subst|]. right. by apply (killed_front s b w a1).
Qed.

Lemma kill_steps s : text_ok s ->
  edit_step s (deleteToLineStart s) /\ edit_step s (deleteToLineEnd s) /\
  edit_step s (deleteWordBackwards wordSegmenter s) /\ edit_step s (deleteWordForward wordSegmenter s).
Proof using wspec.
  intros Hok%ok_cursor.
  split_and!; [destruct (lineStart_kill s Hok)|destruct (lineEnd_kill s Hok)|destruct (wordBackward_kill s Hok)|destruct (wordForward_kill s Hok)].
  all: (by apply ks_none) || by apply ks_kill.
Qed.

Lemma yank_step s : text_ok s -> edit_step s (yank s).
Proof using.
  intros Hok. destruct (ok_around s Hok) as (b & a & H). pose proof (ok_ring s Hok) as Hr.
  destruct (in_killRing s) as [|text ring] eqn:E; [apply ks_none; unfold yank; by rewrite E|].
  apply (ks_yank s _ b text a ring); [by apply Forall_inv in Hr|by apply Forall_inv_tail in Hr|].
  apply yank_effect; [done|done|by apply Forall_inv in Hr].
Qed.

Lemma yankPop_step s : text_ok s -> edit_step s (yankPop s).
Proof using.
  intros Hok. destruct (decide (in_lastAction s = Some LA_yank)) as [Ha|Ha].
  2: { apply ks_none. unfold yankPop. by rewrite bool_decide_false. }
  destruct (in_killRing s) as [|text [|next ring]] eqn:E; [apply ks_none; unfold yankPop; rewrite E; by destruct (negb _)..|].
  destruct (ok_yank s Hok Ha) as (b & t & a & Hv & Hc & Hp). rewrite E in Hp. injection Hp as <-.
  pose proof (ok_ring s Hok) as Hr. rewrite E in Hr. apply Forall_cons in Hr as [Ht Hr]. apply Forall_cons in Hr as [Hn Hr].
  apply (ks_yank s _ b next a (ring ++ [text])); [done| |].
  - apply Forall_app. split; [done|]. by apply Forall_singleton.
  - apply yankPop_effect; [|done|done]. split; [by rewrite Hv, app_assoc|by rewrite Hc, len_app].
Qed.

Lemma backspace_step s : text_ok s -> edit_step s (handleBackspace graphemes s).
Proof using gspec.
  intros (b & a & H)%ok_around. destruct b as [|u b'] eqn:Hb.
  - apply (ks_move s _ [] a); [apply H|]. unfold handleBackspace. cbn [in_cursor set_action]. rewrite (around_nil_before s a H).
    by apply reset_effect.
  - rewrite <- Hb in H. destruct (backspace_effect s b a H) as (b1 & g & _ & _ & He); [by subst|]. by apply (ks_edit s _ b1 a).
Qed.

Lemma forwardDelete_step s : text_ok s -> edit_step s (handleForwardDelete graphemes s).
Proof using gspec.
  intros (b & a & H)%ok_around. destruct a as [|u a'] eqn:Ha.
  - apply (ks_move s _ b []); [apply H|]. unfold handleForwardDelete. cbn [in_cursor in_value set_action]. pose proof (around_nil_after s b H).
    destruct (Z.ltb_spec (in_cursor s) (len (in_value s))); [lia|]. by apply reset_effect.
  - rewrite <- Ha in H. destruct (forwardDelete_effect s b a H) as (g & a1 & _ & _ & He); [by subst|]. by apply (ks_edit s _ b a1).
Qed.

Lemma move_step s b a b' a' : around s b a -> b ++ a = b' ++ a' -> edit_step s (set_text (set_action s None) (in_value s) (len b')).
Proof. intros H He. apply (ks_move s _ b' a'); [destruct H as [-> _]; done|by apply (move_effect s b a)]. Qed.

Lemma cursorLeft_step s : text_ok s -> edit_step s (cursorLeft graphemes s).
Proof using gspec.
  intros (b & a & H)%ok_around. unfold cursorLeft, grapheme_before. cbn [in_cursor in_value set_action]. destruct b as [|u b'] eqn:Hb.
  - rewrite (around_nil_before s a H). apply (ks_move s _ [] a); [apply H|by apply reset_effect].
  - rewrite <- Hb in H. assert (Hne : b <> []) by by subst. clear Hb. destruct (last_grapheme graphemes b Hne) as (b1 & g & -> & Hg & Hl).
    pose proof (len_pos _ Hne) as Hp. destruct H as [Hv Hc]. rewrite Hc. destruct (Z.ltb_spec 0 (len (b1 ++ g))); [|lia].
    rewrite Hv, slice0_app, Hl, <- Hv. replace (len (b1 ++ g) - len g) with (len b1) by (rewrite len_app; lia).
    apply (move_step s (b1 ++ g) a b1 (g ++ a)); [done|by rewrite <- app_assoc].
Qed.

Lemma cursorRight_step s : text_ok s -> edit_step s (cursorRight graphemes s).
Proof using gspec.
  intros (b & a & H)%ok_around. unfold cursorRight, grapheme_after. cbn [in_cursor in_value set_action]. destruct a as [|u a'] eqn:Ha.
  - pose proof (around_nil_after s b H). destruct (Z.ltb_spec (in_cursor s) (len (in_value s))); [lia|].
    apply (ks_move s _ b []); [apply H|by apply reset_effect].
  - rewrite <- Ha in H. assert (Hne : a <> []) by by subst. clear Ha. destruct (first_grapheme graphemes a Hne) as (g & a1 & -> & Hg & Hl).
    pose proof (len_pos _ Hne) as Hp. destruct H as [Hv Hc]. rewrite Hc, Hv. pose proof (len_app b (g ++ a1)).
    destruct (Z.ltb_spec (len b) (len (b ++ g ++ a1))); [|lia]. rewrite slice_from_app, Hl, <- Hv, <- len_app.
    apply (move_step s b (g ++ a1) (b ++ g) a1); [done|by rewrite <- app_assoc].
Qed.

Lemma wordLeft_step s : text_ok s -> edit_step s (moveWordBackwards wordSegmenter s).
Proof using wspec.
  intros (b & a & H)%ok_around. unfold moveWordBackwards. destruct (Z.eqb_spec (in_cursor s) 0) as [|Hn]; [by apply ks_none|].
  assert (Hb : b <> []) by (intros ->; by apply Hn, (around_nil_before s a)). destruct (word_before b a Hb) as (b1 & w & -> & Hw).
  destruct H as [Hv Hc]. rewrite Hc, Hv, Hw, <- Hv. apply (move_step s (b1 ++ w) a b1 (w ++ a)); [done|by rewrite <- app_assoc].
Qed.

Lemma wordRight_step s : text_ok s -> edit_step s (moveWordForwards wordSegmenter s).
Proof using wspec.
  intros (b & a & H)%ok_around. unfold moveWordForwards. destruct (Z.leb_spec (len (in_value s)) (in_cursor s)) as [|Hn]; [by apply ks_none|].
  assert (Ha : a <> []) by (intros ->; pose proof (around_nil_after s b H); lia). destruct (word_after b a Ha) as (w & a1 & -> & Hw).
  destruct H as [Hv Hc]. rewrite Hc, Hv, Hw, <- Hv. apply (move_step s b (w ++ a1) (b ++ w) a1); [done|by rewrite <- app_assoc].
Qed.

Lemma insert_step s char : text_ok s -> edit_step s (insertCharacter s char).
Proof using. intros (b & a & H)%ok_around. by apply (ks_type s _ b a char), insert_effect. Qed.

Lemma handlePaste_step s text : text_ok s -> edit_step s (handlePaste s text).
Proof using. intros (b & a & H)%ok_around. by apply (ks_edit s _ (b ++ clean_paste text) a), paste_effect. Qed.

Lemma lineEnds_step s : text_ok s -> edit_step s (cursorLineStart s) /\ edit_step s (cursorLineEnd s).
Proof using.
  intros (b & a & H)%ok_around. split; [by apply (move_step s b a [] (b ++ a))|].
  unfold cursorLineEnd. assert (Hl : len (in_value s) = len (b ++ a)) by (by destruct H as [-> _]). rewrite Hl. apply (move_step s b a (b ++ a) []); [done|by rewrite app_nil_r].
Qed.

Create HintDb input_steps.
#[local] Hint Resolve yank_step yankPop_step backspace_step
  forwardDelete_step cursorLeft_step cursorRight_step wordLeft_step wordRight_step insert_step : input_steps.

(** A key keeps the invariant of the text. *)
Lemma key_step_ok s s' : text_ok s -> key_step s s' -> text_ok s'.
Proof using.
  intros Hok Hs. pose proof (ok_cursor s Hok) as Hcur. pose proof (ok_undo s Hok) as Hu. pose proof (ok_ring s Hok) as Hr.
  assert (Hsnap : Forall (fun u => located (is_value u) (is_cursor u)) (snapshot s :: in_undoStack s)) by by constructor.
  destruct Hs as [[->|b a Hv [[Hv' Hc'] _ Hr' Ha' Hs']|b a char Hb [[Hv' Hc'] _ Hr' Ha' Hs']|b a [[Hv' Hc'] _ Hr' Ha' Hs']
    |(b & w & a & prepend & Hb & [[Hv' Hc'] _ Hr' Ha' Hs'])|b text a ring Ht Hring [[Hv' Hc'] _ Hr' Ha' Hs']]|(saved & stack & b & a & Hst & Hv & Hc & [[Hv' Hc'] _ Hr' Ha' Hs'])]; [done|..].
  all: split; [rewrite Hv', Hc'; apply located_app|rewrite Hs'|rewrite Hr'|rewrite Ha'; try done]; try done.
  - destruct (_ || _); done.
  - destruct w as [|u w]; [done|]. destruct (bool_decide _), (in_killRing s) as [|last ring]; cbn; try (by constructor).
    apply Forall_cons in Hr as [_ Hr]. constructor; [|done]. destruct prepend; [done|]. by destruct last.
  - by constructor.
  - intros _. exists b, text, a. rewrite Hv', Hc', Hr', app_assoc, len_app. done.
  - rewrite Hst in Hu. by apply Forall_inv_tail in Hu.
Qed.

Lemma set_paste_ok s isInPaste pasteBuffer : text_ok s -> text_ok (set_paste s isInPaste pasteBuffer).
Proof using. intros [H1 H2 H3 H4]. by split. Qed.

Lemma key_step_paste s s' : key_step s s' -> same_paste s s'.
Proof using. by destruct 1 as [[->|? ? ? []|? ? ? ? []|? ? []|(? & ? & ? & ? & ? & [])|? ? ? ? ? ? []]|(? & ? & ? & ? & ? & ? & ? & [])]. Qed.

Section Keys.
Context (matches : jstring -> Keybinding -> bool).

Abbreviation handle_key' := (handle_key graphemes wordSegmenter matches).
Abbreviation handle_loop' := (handle_loop graphemes wordSegmenter matches).
Abbreviation handleInput' := (handleInput graphemes wordSegmenter matches).
Abbreviation handle_all' := (handle_all graphemes wordSegmenter matches).

Lemma handle_key_edit s data : text_ok s -> matches data KB_undo = false -> edit_step s (handle_key' s data).1.
Proof using gspec wspec.
  intros Hok Hu. pose proof (lineEnds_step s Hok) as [Hs He]. pose proof (kill_steps s Hok) as (H1 & H2 & H3 & H4). unfold handle_key. rewrite Hu.
  repeat case_match; cbn [fst]; auto with input_steps; by apply ks_none.
Qed.

Lemma handle_key_step s data : text_ok s -> key_step s (handle_key' s data).1.
Proof using gspec wspec.
  intros Hok. destruct (matches data KB_undo) eqn:Hu; [|by apply ks_edit_step, handle_key_edit].
  unfold handle_key. rewrite Hu. destruct (matches data KB_select_cancel); [by apply ks_edit_step, ks_none|by apply undo_step].
Qed.

(** ** The recursion for what follows a paste *)

Lemma start_paste_length s data :
  let '(s', data') := start_paste s data in (length (in_pasteBuffer s') + length data' <= length (in_pasteBuffer s) + length data)%nat.
Proof using.
  unfold start_paste. destruct (index_of _ data) as [i|]; [|lia]. cbn [in_pasteBuffer set_paste length]. rewrite length_app, length_take, length_drop. lia.
Qed.

(** More fuel than buffered and new text changes nothing. *)
Lemma handle_fuel fuel : forall s data fuel', (length (in_pasteBuffer s) + length data < fuel)%nat -> (fuel <= fuel')%nat ->
  handle_loop' fuel' s data = handle_loop' fuel s data.
Proof using.
  induction fuel as [|fuel IH]; intros s data fuel' Hf Hle; [lia|]. destruct fuel' as [|fuel']; [lia|]. cbn [handle_loop].
  pose proof (start_paste_length s data) as Hl. destruct (start_paste s data) as [s' data']. destruct (in_isInPaste s'); [|done].
  destruct (index_of _ _) as [e|] eqn:He; [|done]. destruct (drop _ _) as [|u rest] eqn:Hd; [done|].
  apply IH; [|lia]. cbn [in_pasteBuffer set_paste]. rewrite <- Hd, length_drop. rewrite length_app. cbn [length]. 
  assert (length (u :: rest) <= length (in_pasteBuffer s' ++ data') - 6)%nat by (rewrite <- Hd, length_drop; lia).
  rewrite length_app in *. cbn [length] in *. lia.
Qed.

(** [handleInput] as it is written, with the call to itself. *)
Lemma handleInput_unfold s data : handleInput' s data =
  let '(s, data) := start_paste s data in
  if in_isInPaste s then
    let pasteBuffer := in_pasteBuffer s ++ data in
    match index_of BRACKETED_PASTE_END pasteBuffer with
    | Some endIndex =>
        let s := set_paste (handlePaste s (take endIndex pasteBuffer)) false [] in
        match drop (endIndex + 6) pasteBuffer with [] => (s, []) | remaining => handleInput' s remaining end
    | None => (set_paste s true pasteBuffer, [])
    end
  else handle_key' s data.
Proof using.
  unfold handleInput at 1. cbn [handle_loop]. pose proof (start_paste_length s data) as Hl.
  destruct (start_paste s data) as [s' data']. destruct (in_isInPaste s'); [|done].
  destruct (index_of _ _) as [e|]; [|done]. destruct (drop _ _) as [|u rest] eqn:Hd; [done|]. unfold handleInput.
  apply handle_fuel; cbn [in_pasteBuffer set_paste length]; [lia|].
  assert (length (u :: rest) <= length (in_pasteBuffer s' ++ data') - 6)%nat by (rewrite <- Hd, length_drop; lia).
  rewrite length_app in *. cbn [length] in *. lia.
Qed.

(** What keys and pastes keep, [handleInput] keeps. *)
Lemma handleInput_ind (P : Input -> Prop) :
  (forall s s', text_ok s -> P s -> key_step s s' -> P s') -> (forall s isInPaste pasteBuffer, P s -> P (set_paste s isInPaste pasteBuffer)) ->
  forall s data, text_ok s -> P s -> P (handleInput' s data).1.
Proof using gspec wspec.
  intros Hkey Hset. unfold handleInput. intros s data. generalize (S (length (in_pasteBuffer s) + length data)).
  intros fuel. revert s data. induction fuel as [|fuel IH]; intros s data Hok HP; [done|]. cbn [handle_loop].
  assert (Hst : text_ok (start_paste s data).1 /\ P (start_paste s data).1).
  { unfold start_paste. destruct (index_of _ data); [|done]. split; [by apply set_paste_ok|by apply Hset]. }
  destruct (start_paste s data) as [s' data']. destruct Hst as [Hok' HP']. destruct (in_isInPaste s'); [|by eapply Hkey, handle_key_step].
  destruct (index_of _ _) as [e|]; [|by apply Hset]. set (text := take e _). pose proof (ks_edit_step _ _ (handlePaste_step s' text Hok')) as Hp.
  assert (P (set_paste (handlePaste s' text) false [])) by by eapply Hset, Hkey.
  destruct (drop _ _); [done|]. apply IH; [|done]. by eapply set_paste_ok, key_step_ok.
Qed.

Lemma handle_loop_paste fuel : forall s data, paste_ok s -> text_ok s -> paste_ok (handle_loop' fuel s data).1.
Proof using gspec wspec.
  induction fuel as [|fuel IH]; intros s data Hp Hok; [done|]. cbn [handle_loop]. assert (Hst : text_ok (start_paste s data).1).
  { unfold start_paste. destruct (index_of _ data); [|done]. by apply set_paste_ok. }
  destruct (start_paste s data) as [s' data'] eqn:Es. cbn [fst] in Hst. destruct (in_isInPaste s') eqn:Ei.
  - destruct (index_of _ _) as [e|] eqn:Ee; [|done]. destruct (drop _ _); [done|]. apply IH; [done|].
    by eapply set_paste_ok, key_step_ok, ks_edit_step, handlePaste_step.
  - unfold start_paste in Es. destruct (index_of _ data); injection Es as <- <-; [done|]. destruct (key_step_paste _ _ (handle_key_step s data Hst)) as [H1 H2].
    unfold paste_ok in *. by rewrite H1, H2.
Qed.

Lemma handleInput_ok s data : input_ok s -> input_ok (handleInput' s data).1.
Proof using gspec wspec.
  intros [Ht Hp]. split; [|by apply handle_loop_paste]. apply (handleInput_ind text_ok); [|apply set_paste_ok|done|done].
  intros s1 s2 _. apply key_step_ok.
Qed.

Lemma handle_all_ind (P : Input -> Prop) : (forall s data, P s -> P (handleInput' s data).1) -> forall inputs s, P s -> P (handle_all' s inputs).1.
Proof using.
  intros HP inputs. induction inputs as [|data inputs IH]; intros s Hs; [done|]. cbn [handle_all]. specialize (HP s data Hs).
  destruct (handleInput _ _ _ s data) as [s1 evs]. specialize (IH s1 HP). by destruct (handle_all _ _ _ s1 inputs).
Qed.

End Keys.

End Operations.
