(* ===== verification/InputHistory.v ===== *)
(** * Kill, yank, undo and paste

    The invariant of the line editor, what a run of kills and a yank do to the
    text, what undo restores, and how a paste gets from the terminal into the
    text; each at a concrete editor: graphemes of one code unit, words of Latin
    letters, and control keys. *)

From stdpp Require Import base list strings pretty.
From Stdlib Require Import ZArith Lia.
From S2P Require Import Prelude Utf8 Numbers Truncate EditDiff EditProperties StdinBuffer StdinProperties WordNavigation TextInput InputProperties.

Open Scope Z_scope.

(** The bindings in the order in which [handleInput] asks for them. *)
Definition bindings : list Keybinding :=
  [KB_select_cancel; KB_undo; KB_submit; KB_deleteCharBackward; KB_deleteCharForward; KB_deleteWordBackward; KB_deleteWordForward;
   KB_deleteToLineStart; KB_deleteToLineEnd; KB_yank; KB_yankPop; KB_cursorLeft; KB_cursorRight; KB_cursorLineStart; KB_cursorLineEnd;
   KB_cursorWordLeft; KB_cursorWordRight].

#[export] Instance Keybinding_eq_dec : EqDecision Keybinding.
Proof. solve_decision. Defined.

Section History.
Context (graphemes : jstring -> list jstring) (wordSegmenter : jstring -> list SegmentData).
Context {gspec : GraphemeSpec graphemes} {wspec : SegmenterSpec wordSegmenter}.
Context (matches : jstring -> Keybinding -> bool).

Abbreviation handleInput' := (handleInput graphemes wordSegmenter matches).
Abbreviation handle_all' := (handle_all graphemes wordSegmenter matches).
Abbreviation handle_key' := (handle_key graphemes wordSegmenter matches).

(** Data without a paste marker, whose first binding is [kb]. *)
Definition binding (data : jstring) : option Keybinding :=
  List.find (fun kb => match kb with KB_submit => matches data kb || bool_decide (data = [10]) | _ => matches data kb end) bindings.

Definition key_for (data : jstring) (kb : Keybinding) : Prop :=
  index_of BRACKETED_PASTE_START data = None /\ binding data = Some kb.

(** After a yank the text before the cursor is the newest kill. *)
Definition yanked (s : Input) : Prop := in_lastAction s = Some LA_yank ->
  exists b text a, in_value s = b ++ text ++ a /\ in_cursor s = len b + len text /\ ring_peek (in_killRing s) = Some text.

(** The invariant of the component, without what holds after a yank only. *)
Record sound (s : Input) : Prop := {
  so_cursor : located (in_value s) (in_cursor s);
  so_undo : Forall (fun u => located (is_value u) (is_cursor u)) (in_undoStack s);
  so_ring : Forall (fun text => text <> []) (in_killRing s);
  so_paste : paste_ok s }.

(** The states of a component whose owner may set the value at any time.  [yankPop]
    takes the last yank back: it is not pressed when [setValue] has replaced the
    yanked text since. *)
Inductive reachable : Input -> Prop :=
| reach_new onSubmit onEscape : reachable (new_input onSubmit onEscape)
| reach_input s data : reachable s -> (in_isInPaste s = false -> key_for data KB_yankPop -> yanked s) -> reachable (handleInput' s data).1
| reach_setValue s value : reachable s -> reachable (setValue s value).

Lemma ok_sound s : input_ok s <-> sound s /\ yanked s.
Proof using. split; [intros [[? ? ? ?] ?]; by split|intros [[? ? ? ?] ?]; by split]. Qed.

Lemma sound_forgets s : sound s <-> input_ok (set_action s None).
Proof using. rewrite ok_sound. split; [intros [? ? ? ?]; split; [by split|discriminate]|intros [[? ? ? ?] _]; by split]. Qed.

Lemma new_input_ok onSubmit onEscape : input_ok (new_input onSubmit onEscape).
Proof. split; [|done]. split; cbn; [done|by constructor|by constructor|done]. Qed.

Lemma setValue_sound s value : sound s -> sound (setValue s value).
Proof using. intros [H1 H2 H3 H4]. split; [|done..]. cbn. unfold located in *. pose proof (len_nonneg value). lia. Qed.

(** But for [yankPop], a key does the same after a yank as after nothing. *)
Lemma yank_forgotten_key s data : in_lastAction s = Some LA_yank -> binding data <> Some KB_yankPop ->
  set_action (handle_key' s data).1 None = set_action (handle_key' (set_action s None) data).1 None.
Proof using.
  destruct s as [value cursor onSubmit onEscape pasteBuffer isInPaste killRing lastAction undoStack]. cbn [in_lastAction]. intros -> Hb.
  unfold binding in Hb. cbn [List.find bindings] in Hb. unfold handle_key.
  repeat (match goal with |- context [if ?c then _ else _] => destruct c end; cbv iota in Hb; [try done|]);
  cbn [fst]; unfold undo, handleBackspace, handleForwardDelete, deleteWordBackwards, deleteWordForward, deleteToLineStart, deleteToLineEnd, yank, cursorLeft, cursorRight,
    moveWordBackwards, moveWordForwards, insertCharacter; repeat (case_match; simplify_eq/=); done.
Qed.

Lemma yank_forgotten s data : in_lastAction s = Some LA_yank -> (in_isInPaste s = false -> ~ key_for data KB_yankPop) ->
  set_action (handleInput' s data).1 None = set_action (handleInput' (set_action s None) data).1 None.
Proof using.
  intros Hl Hk. rewrite !handleInput_unfold. unfold start_paste. destruct (index_of BRACKETED_PASTE_START data) as [i|] eqn:Ei.
  - cbn [in_isInPaste set_paste]. change (in_pasteBuffer (set_paste (set_action s None) true [])) with (in_pasteBuffer (set_paste s true [])).
    destruct (index_of BRACKETED_PASTE_END _); done.
  - change (in_isInPaste (set_action s None)) with (in_isInPaste s). change (in_pasteBuffer (set_action s None)) with (in_pasteBuffer s).
    destruct (in_isInPaste s); [destruct (index_of BRACKETED_PASTE_END _); done|]. apply yank_forgotten_key; [done|]. intros Hb. by apply Hk.
Qed.

Lemma handleInput_kept s data : sound s -> yanked s -> sound (handleInput' s data).1 /\ yanked (handleInput' s data).1.
Proof using gspec wspec. intros Hs Hy. rewrite <- ok_sound. apply handleInput_ok; [done..|]. by rewrite ok_sound. Qed.

Lemma handleInput_sound s data : sound s -> (in_isInPaste s = false -> key_for data KB_yankPop -> yanked s) -> sound (handleInput' s data).1.
Proof using gspec wspec.
  intros Hs Hy. destruct (decide (in_lastAction s = Some LA_yank)) as [Hl|Hl]; [|apply handleInput_kept; [done|]; intros Hl'; by destruct Hl].
  destruct (decide (in_isInPaste s = false /\ index_of BRACKETED_PASTE_START data = None /\ binding data = Some KB_yankPop)) as [(Hp & Hd & Hb)|Hn].
  - apply handleInput_kept; [done|]. by apply Hy.
  - apply sound_forgets. rewrite yank_forgotten; [|done|intros Hp [Hd Hb]; by apply Hn]. apply sound_forgets, handleInput_kept; [|discriminate]. by destruct Hs; split.
Qed.

Lemma reachable_sound s : reachable s -> sound s.
Proof using gspec wspec.
  induction 1 as [onSubmit onEscape|s data _ IH Hy|s value _ IH]; [apply (ok_sound _), new_input_ok|by apply handleInput_sound|by apply setValue_sound].
Qed.

(** ** Keys *)

Definition kill_of (kb : Keybinding) : option (Input -> Input) :=
  match kb with
  | KB_deleteWordBackward => Some (deleteWordBackwards wordSegmenter)
  | KB_deleteWordForward => Some (deleteWordForward wordSegmenter)
  | KB_deleteToLineStart => Some deleteToLineStart
  | KB_deleteToLineEnd => Some deleteToLineEnd
  | _ => None
  end.

Lemma handleInput_plain s data : in_isInPaste s = false -> index_of BRACKETED_PASTE_START data = None ->
  handleInput' s data = handle_key' s data.
Proof using. intros Hp Hd. rewrite handleInput_unfold. unfold start_paste. rewrite Hd. by rewrite Hp. Qed.

(** Walks down the bindings to the one that is found. *)
Ltac find_binding :=
  unfold binding, handle_key; cbn [List.find bindings];
  repeat match goal with
         | |- context [matches ?d ?kb || bool_decide ?P] => destruct (matches d kb || bool_decide P); cbv iota
         | |- context [matches ?d ?kb] => destruct (matches d kb); cbv iota
         end.

Lemma key_kill s data kb kill : kill_of kb = Some kill -> binding data = Some kb -> handle_key' s data = (kill s, []).
Proof using. find_binding; intros Hk Hb; simplify_eq/=; done. Qed.

Lemma key_yank s data : binding data = Some KB_yank -> handle_key' s data = (yank s, []).
Proof using. find_binding; intros Hb; simplify_eq/=; done. Qed.

Lemma key_undo s data : binding data = Some KB_undo -> handle_key' s data = (undo s, []).
Proof using. find_binding; intros Hb; simplify_eq/=; done. Qed.

Lemma key_not_undo data : binding data <> Some KB_undo -> matches data KB_undo = false \/ matches data KB_select_cancel = true.
Proof using.
  unfold binding. cbn [List.find bindings]. destruct (matches data KB_select_cancel); [by right|]. destruct (matches data KB_undo); [done|by left].
Qed.

(** ** Kill and yank *)

(** One or more kills, each of which removes something. *)
Inductive kill_run (s : Input) : Input -> Prop :=
| kill_first data kb : key_for data kb -> is_Some (kill_of kb) -> in_value (handleInput' s data).1 <> in_value s ->
    kill_run s (handleInput' s data).1
| kill_next s1 data kb : kill_run s s1 -> key_for data kb -> is_Some (kill_of kb) -> in_value (handleInput' s1 data).1 <> in_value s1 ->
    kill_run s (handleInput' s1 data).1.

(** One kill that removes something takes a text at the cursor. *)
Lemma kill_killed s data kb : located (in_value s) (in_cursor s) -> in_isInPaste s = false -> key_for data kb -> is_Some (kill_of kb) ->
  in_value (handleInput' s data).1 <> in_value s -> killed s (handleInput' s data).1.
Proof using wspec.
  intros Hok Hp [Hd Hb] [kill Hk]. rewrite (handleInput_plain s data Hp Hd), (key_kill s data kb kill Hk Hb). cbn [fst]. intros Hne.
  assert (Hor : kill s = s \/ killed s (kill s)); [|by destruct Hor as [Hs|]; [rewrite Hs in Hne|]].
  destruct kb; simplify_eq/=; eauto using lineStart_kill, lineEnd_kill, wordBackward_kill, wordForward_kill.
Qed.

(** The killed texts stay together: they are the newest entry of the ring, and the
    cursor is where they were. *)
Definition killed_since (s s' : Input) : Prop := exists b w a,
  in_value s = b ++ w ++ a /\ around s' b a /\ in_killRing s' = w :: in_killRing s /\ w <> [] /\ in_lastAction s' = Some LA_kill.

Lemma killed_first s s' : in_lastAction s <> Some LA_kill -> in_value s' <> in_value s -> killed s s' -> killed_since s s'.
Proof using.
  intros Ha Hne (b & w & a & prepend & [Hv Hc] & [[Hv' Hc'] _ Hr Ha' _]). rewrite bool_decide_false in Hr by done.
  assert (Hw : in_value s = b ++ w ++ a) by (destruct prepend; by rewrite Hv, <- ?app_assoc, ?app_nil_r).
  destruct w as [|u w]; [by destruct Hne; rewrite Hv', Hw|]. by exists b, (u :: w), a.
Qed.

Lemma killed_next s s1 s' : killed_since s s1 -> in_value s' <> in_value s1 -> killed s1 s' -> killed_since s s'.
Proof using.
  intros (b1 & w1 & a1 & Hs & [Hv1 Hc1] & Hr1 & Hw1 & Ha1) Hne (b & w & a & prepend & [Hv Hc] & [[Hv' Hc'] _ Hr Ha' _]).
  rewrite Ha1, Hr1 in Hr. destruct w as [|u w].
  { destruct Hne. rewrite Hv', Hv. destruct prepend; by rewrite ?app_nil_r. }
  rewrite bool_decide_true in Hr by done. rewrite Hv1, Hc1 in *. unfold len in Hc. apply Nat2Z.inj in Hc.
  apply app_inj_1 in Hv as [Hb Ha]; [|done]. destruct prepend; cbn [ring_push] in Hr; subst b1 a1.
  - exists b, ((u :: w) ++ w1), a. split_and!; [|done|done|done|done]. rewrite Hs. by rewrite <- !app_assoc.
  - exists b, (w1 ++ u :: w), a. split_and!; [|done|done|by destruct w1|done]. rewrite Hs, app_nil_r. by rewrite <- !app_assoc.
Qed.

Lemma kill_not_pop data kb : key_for data kb -> is_Some (kill_of kb) -> ~ key_for data KB_yankPop.
Proof using. intros [_ Hb] [kill Hk] [_ Hb']. rewrite Hb in Hb'. injection Hb' as ->. done. Qed.

Lemma kill_run_since s s' : sound s -> in_isInPaste s = false -> in_lastAction s <> Some LA_kill -> kill_run s s' ->
  sound s' /\ in_isInPaste s' = false /\ killed_since s s'.
Proof using gspec wspec.
  intros Hs Hp Ha. assert (Hone : forall s data kb, sound s -> in_isInPaste s = false -> key_for data kb -> is_Some (kill_of kb) -> in_value (handleInput' s data).1 <> in_value s ->
    killed s (handleInput' s data).1 /\ sound (handleInput' s data).1 /\ in_isInPaste (handleInput' s data).1 = false).
  { intros s0 data kb Hs0 Hp0 Hk Hkb Hne. pose proof (kill_killed s0 data kb (so_cursor s0 Hs0) Hp0 Hk Hkb Hne) as Hkill. split; [done|]. split.
    - apply handleInput_sound; [done|]. intros _ Hpop. by destruct (kill_not_pop data kb Hk Hkb Hpop).
    - destruct (key_step_paste _ _ (ks_edit_step _ _ (ks_kill _ _ Hkill))) as [-> _]. done. }
  induction 1 as [data kb Hk Hkb Hne|s1 data kb _ (Hs1 & Hp1 & IH) Hk Hkb Hne].
  - destruct (Hone s data kb Hs Hp Hk Hkb Hne) as (Hkill & Hs' & Hp'). split_and!; [done|done|by apply killed_first].
  - destruct (Hone s1 data kb Hs1 Hp1 Hk Hkb Hne) as (Hkill & Hs' & Hp'). split_and!; [done|done|by eapply killed_next].
Qed.

(** ** Undo *)

(** The oldest snapshot is the empty text, and a typed word has a snapshot. *)
Definition from_empty (s : Input) : Prop :=
  match last (in_undoStack s) with Some saved => is_value saved = [] | None => in_value s = [] end /\
  (in_lastAction s = Some LA_type_word -> in_undoStack s <> []).

Lemma from_empty_push s s' : from_empty s -> in_undoStack s' = snapshot s :: in_undoStack s -> from_empty s'.
Proof using.
  intros [Hl _] Hs. unfold from_empty. rewrite Hs. split; [|done]. rewrite last_cons.
  destruct (last (in_undoStack s)); done.
Qed.

Lemma from_empty_keep s s' : from_empty s -> in_undoStack s' = in_undoStack s ->
  (in_value s' = in_value s \/ in_lastAction s = Some LA_type_word) -> in_lastAction s' <> Some LA_type_word \/ in_lastAction s = Some LA_type_word -> from_empty s'.
Proof using.
  intros [Hl Ht] Hs Hv Ha. unfold from_empty. rewrite Hs. split; [|intros H; apply Ht; by destruct Ha].
  destruct (last (in_undoStack s)) as [saved|] eqn:E; [done|]. destruct Hv as [->|Hw]; [done|]. specialize (Ht Hw).
  destruct (in_undoStack s) as [|x l _] using rev_ind; [done|]. by rewrite last_snoc in E.
Qed.

Lemma key_step_from_empty s s' : key_step s s' -> from_empty s -> from_empty s'.
Proof using.
  intros Hstep H. destruct Hstep as [[->|b a Hv [[Hv' _] _ _ Ha Hs]|b a char _ [_ _ _ Ha Hs]|b a [_ _ _ _ Hs]|(b & w & a & p & _ & [_ _ _ _ Hs])|b text a ring _ _ [_ _ _ _ Hs]]
    |(saved & stack & b & a & Hst & Hv & _ & [[Hv' _] _ _ Ha Hs])]; try done; try by eapply from_empty_push.
  - apply (from_empty_keep s); [done|done|left; congruence|left; congruence].
  - destruct (bool_decide_reflect (in_lastAction s = Some LA_type_word)) as [Hw|Hw]; [|rewrite orb_true_r in Hs; by eapply from_empty_push].
    destruct (isWhitespaceChar char); cbn in Hs; [by eapply from_empty_push|]. apply (from_empty_keep s); [done|done|by right|by right].
  - destruct H as [Hl _]. unfold from_empty. rewrite Hs, Ha. split; [|done]. rewrite Hst, last_cons in Hl.
    destruct (last stack) as [oldest|]; [done|]. by rewrite Hv', <- Hv.
Qed.

Lemma inputs_from_empty onSubmit onEscape inputs :
  let s := (handle_all' (new_input onSubmit onEscape) inputs).1 in input_ok s /\ from_empty s.
Proof using gspec wspec.
  apply (handle_all_ind graphemes wordSegmenter matches (fun s => input_ok s /\ from_empty s)); [|split; [apply new_input_ok|done]].
  intros s data [Hok Hs]. split; [by apply handleInput_ok|].
  apply (handleInput_ind graphemes wordSegmenter matches from_empty); [|done|apply Hok|done]. intros s1 s2 _ H1 H2. by eapply key_step_from_empty.
Qed.

Lemma handle_undo s key : in_isInPaste s = false -> key_for key KB_undo -> handleInput' s key = (undo s, []).
Proof using. intros Hp [Hk Hb]. rewrite handleInput_plain by done. by apply key_undo. Qed.

Lemma undo_to_empty key : key_for key KB_undo -> forall n s, length (in_undoStack s) = n -> text_ok s -> from_empty s -> in_isInPaste s = false ->
  let s' := (handle_all' s (replicate n key)).1 in in_value s' = [] /\ in_cursor s' = 0 /\ in_undoStack s' = [].
Proof using.
  intros Hkey. induction n as [|n IH]; intros s Hn Hok Hs Hp.
  - apply nil_length_inv in Hn. destruct Hs as [Hv _]. rewrite Hn in Hv. cbn in Hv |- *. split_and!; [done| |done].
    pose proof (ok_cursor s Hok) as Hc. rewrite Hv in Hc. unfold located, len in Hc. cbn in Hc. lia.
  - cbn [replicate handle_all]. rewrite (handle_undo s key Hp Hkey). pose proof (undo_step s Hok) as Hstep.
    specialize (IH (undo s)). destruct (handle_all _ _ _ (undo s) _) as [s' evs]. cbn [fst] in *.
    apply IH; [|by eapply key_step_ok|by eapply key_step_from_empty|by destruct (key_step_paste _ _ Hstep) as [-> _]].
    unfold undo. destruct (in_undoStack s) as [|saved stack]; [done|]. cbn in Hn |- *. lia.
Qed.

(** A key that changes the text either saves it first, or adds to a typed word. *)
Lemma changed_saved s data : text_ok s -> in_isInPaste s = false -> index_of BRACKETED_PASTE_START data = None -> binding data <> Some KB_undo ->
  let s1 := (handleInput' s data).1 in in_value s1 <> in_value s ->
  in_undoStack s1 = snapshot s :: in_undoStack s \/
  (in_undoStack s1 = in_undoStack s /\ in_lastAction s = Some LA_type_word /\
   exists b char a, around s b a /\ in_value s1 = b ++ char ++ a /\ isWhitespaceChar char = false).
Proof using gspec wspec.
  intros Hok Hp Hd Hb. cbn zeta. rewrite (handleInput_plain s data Hp Hd). intros Hne.
  assert (Hu : matches data KB_undo = false).
  { destruct (key_not_undo data Hb) as [|Hc]; [done|]. destruct Hne. unfold handle_key. by rewrite Hc. }
  pose proof (handle_key_edit graphemes wordSegmenter matches s data Hok Hu) as Hstep. destruct (handle_key' s data) as [s1 evs]. cbn [fst] in *.
  destruct Hstep as [->|b a Hv [[Hv' _] _ _ _ _]|b a char Hb1 [[Hv' _] _ _ _ Hs]|b a [_ _ _ _ Hs]|(b & w & a & p & _ & [_ _ _ _ Hs])|b text a ring _ _ [_ _ _ _ Hs]]; try done; auto.
  - congruence.
  - destruct (isWhitespaceChar char) eqn:Hw; [by left|]. destruct (bool_decide_reflect (in_lastAction s = Some LA_type_word)) as [Ha|Ha]; cbn in Hs; [|by left].
    right. split_and!; [done|done|]. exists b, char, a. split_and!; [done|by rewrite Hv', <- app_assoc|done].
Qed.

Lemma undo_snapshot s s1 : in_undoStack s1 = snapshot s :: in_undoStack s ->
  in_value (undo s1) = in_value s /\ in_cursor (undo s1) = in_cursor s /\ in_undoStack (undo s1) = in_undoStack s.
Proof using. intros Hs. unfold undo. rewrite Hs. done. Qed.

End History.

(** ** The line editor: theorems *)

(** ** A concrete editor *)

Definition units (text : jstring) : list jstring := (fun u => [u]) <$> text.

#[export] Instance units_spec : GraphemeSpec units.
Proof.
  split; intros text; unfold units.
  - induction text as [|u text IH]; [done|]. exact (f_equal (cons u) IH).
  - apply Forall_fmap, Forall_true. done.
Qed.

Definition letter (u : Z) : bool := ((65 <=? u) && (u <=? 90)) || ((97 <=? u) && (u <=? 122)).

(** Runs of letters are words; any other code unit is a segment. *)
Fixpoint word_runs (s : jstring) : list SegmentData :=
  match s with
  | [] => []
  | u :: r =>
      match word_runs r with
      | d :: rest => if letter u && sd_isWordLike d then {| sd_segment := u :: sd_segment d; sd_isWordLike := true |} :: rest
                     else {| sd_segment := [u]; sd_isWordLike := letter u |} :: d :: rest
      | [] => [{| sd_segment := [u]; sd_isWordLike := letter u |}]
      end
  end.

#[export] Instance word_runs_spec : SegmenterSpec word_runs.
Proof.
  split; intros text.
  - induction text as [|u text IH]; [done|]. cbn [word_runs]. destruct (word_runs text) as [|d rest]; [by rewrite <- IH|].
    destruct (_ && _); rewrite <- IH; done.
  - induction text as [|u text IH]; [constructor|]. cbn [word_runs]. destruct (word_runs text) as [|d rest]; [by repeat constructor|].
    apply Forall_cons in IH as [Hd Hr]. destruct (_ && _); by repeat constructor.
Qed.

(** Escape, Ctrl and some letter, or a letter after ESC. *)
Definition control_keys (data : jstring) (kb : Keybinding) : bool :=
  bool_decide (data = match kb with
                      | KB_select_cancel => [27] | KB_undo => [31] | KB_submit => [13] | KB_deleteCharBackward => [127]
                      | KB_deleteCharForward => [4] | KB_deleteWordBackward => [23] | KB_deleteWordForward => [27; 100]
                      | KB_deleteToLineStart => [21] | KB_deleteToLineEnd => [11] | KB_yank => [25] | KB_yankPop => [27; 121]
                      | KB_cursorLeft => [2] | KB_cursorRight => [6] | KB_cursorLineStart => [1] | KB_cursorLineEnd => [5]
                      | KB_cursorWordLeft => [27; 98] | KB_cursorWordRight => [27; 102]
                      end).

Abbreviation typed inputs := (fst (handle_all units word_runs control_keys (new_input true true) inputs)).

(** The text [ab, cd], typed one character at a time. *)
Definition letters_typed : list jstring := units (js "ab, cd").

Lemma reachable_typed inputs s : reachable units word_runs control_keys s -> yanked s ->
  reachable units word_runs control_keys (handle_all units word_runs control_keys s inputs).1.
Proof.
  intros Hr Hy. apply (handle_all_ind _ _ _ (fun s => reachable units word_runs control_keys s /\ yanked s)); [|done]. intros s' data [Hr' Hy'].
  split; [by apply reach_input|]. apply handleInput_kept; [apply _|apply _|by apply (reachable_sound units word_runs control_keys)|done].
Qed.

(** ** The invariant *)

(** C26: in every state that keys, pastes and calls of [setValue] lead to, the
    cursor and the cursor of every undo snapshot lie inside their texts, the kill
    ring holds no empty text, and the paste buffer holds nothing outside a paste
    and no end marker inside one; after a yank the text before the cursor is the
    newest kill until [setValue] is called.  The one exception is a [yankPop] that
    is pressed when [setValue] has replaced the text of the yank it takes back. *)
Theorem input_invariant graphemes wordSegmenter matches :
  GraphemeSpec graphemes -> SegmenterSpec wordSegmenter ->
  (forall s, reachable graphemes wordSegmenter matches s -> sound s) /\
  (forall onSubmit onEscape, yanked (new_input onSubmit onEscape)) /\
  (forall s data, reachable graphemes wordSegmenter matches s -> yanked s -> yanked (handleInput graphemes wordSegmenter matches s data).1).
Proof.
  intros Hg Hw. split; [intros s; by apply reachable_sound|]. split; [done|].
  intros s data Hr Hy. apply handleInput_kept; [done|done|by apply (reachable_sound graphemes wordSegmenter matches)|done].
Qed.

(** The value is set right after a yank, and typing goes on. *)
Lemma input_invariant_witness :
  let s := typed (letters_typed ++ [[23]; [21]; [5]; [25]]) in
  in_lastAction s = Some LA_yank /\ sound (handleInput units word_runs control_keys (setValue s (js "x")) (js "y")).1.
Proof.
  split; [vm_compute; reflexivity|].
  apply (proj1 (input_invariant units word_runs control_keys units_spec word_runs_spec)). apply reach_input.
  - apply reach_setValue, reachable_typed; [apply reach_new|discriminate].
  - intros _ [_ Hb]. vm_compute in Hb. discriminate Hb.
Defined.

(** [setValue] keeps the last action: after a yank, the next [yankPop] removes a
    text that is no longer there and leaves the cursor before the start. *)
Example setValue_after_yank :
  let s := typed ([js "ab"; [21]; js "hello"; [21]; [25]] : list jstring) in
  in_value s = js "hello" /\ in_cursor (handleInput units word_runs control_keys (setValue s []) [27; 121]).1 = -3.
Proof. split; vm_compute; reflexivity. Qed.

(** ** Kill and yank *)

(** C27: after any run of kills in any directions, each of which removes
    something, one yank puts the text back as it was before the run, with the
    cursor after what had been killed; the killed texts are one entry of the
    ring, in the order of the text. *)
Theorem kill_then_yank graphemes wordSegmenter matches s s' key :
  GraphemeSpec graphemes -> SegmenterSpec wordSegmenter ->
  reachable graphemes wordSegmenter matches s -> in_isInPaste s = false -> in_lastAction s <> Some LA_kill ->
  kill_run graphemes wordSegmenter matches s s' -> key_for matches key KB_yank ->
  exists b w a, in_value s = b ++ w ++ a /\ in_value s' = b ++ a /\ in_killRing s' = w :: in_killRing s /\
    let s'' := (handleInput graphemes wordSegmenter matches s' key).1 in
    in_value s'' = in_value s /\ in_cursor s'' = len (b ++ w).
Proof.
  intros Hg Hw Hr Hp Ha Hk [Hd Hb]. apply reachable_sound in Hr; [|done..].
  destruct (kill_run_since graphemes wordSegmenter matches s s' Hr Hp Ha Hk) as (Hok & Hp' & b & w & a & Hv & [Hv' Hc'] & Hring & Hne & _).
  exists b, w, a. split_and!; [done|done|done|]. rewrite handleInput_plain, key_yank by done. cbn [fst].
  destruct (yank_effect s' b a w (in_killRing s) (conj Hv' Hc') Hring Hne) as [[Hv'' Hc''] _ _ _ _].
  by rewrite Hv'', Hc'', Hv, <- app_assoc.
Qed.

(** A word back and a word forward, from the middle of [ab, cd]. *)
Lemma kill_then_yank_witness :
  let s := typed (letters_typed ++ [[1]; [6]]) in
  let s' := (handleInput units word_runs control_keys (handleInput units word_runs control_keys s [21]).1 [27; 100]).1 in
  in_value s' = js ", cd" /\
  exists b w a, in_value s = b ++ w ++ a /\ in_value s' = b ++ a /\ in_killRing s' = w :: in_killRing s /\
    let s'' := (handleInput units word_runs control_keys s' [25]).1 in in_value s'' = in_value s /\ in_cursor s'' = len (b ++ w).
Proof.
  split; [vm_compute; reflexivity|].
  apply kill_then_yank; [apply units_spec|apply word_runs_spec|apply reachable_typed; [apply reach_new|discriminate]|vm_compute; reflexivity|vm_compute; discriminate| |].
  - eapply kill_next with (kb := KB_deleteWordForward).
    + apply kill_first with (kb := KB_deleteToLineStart); [split; vm_compute; reflexivity|eexists; reflexivity|vm_compute; discriminate].
    + split; vm_compute; reflexivity.
    + eexists. reflexivity.
    + vm_compute. discriminate.
  - split; vm_compute; reflexivity.
Defined.

(** ** Undo *)

(** whatever was typed, pasted and edited, pressing undo once per snapshot
    leads back to the empty text; and a key that changes the text is reverted by
    one undo, text, cursor and history, unless it continues a typed word, which is
    undone as a whole. *)
Theorem undo_history graphemes wordSegmenter matches onSubmit onEscape inputs key :
  GraphemeSpec graphemes -> SegmenterSpec wordSegmenter -> key_for matches key KB_undo ->
  let s := (handle_all graphemes wordSegmenter matches (new_input onSubmit onEscape) inputs).1 in in_isInPaste s = false ->
  (let s' := (handle_all graphemes wordSegmenter matches s (replicate (length (in_undoStack s)) key)).1 in
   in_value s' = [] /\ in_cursor s' = 0 /\ in_undoStack s' = []) /\
  forall data, index_of BRACKETED_PASTE_START data = None -> binding matches data <> Some KB_undo ->
    let s1 := (handleInput graphemes wordSegmenter matches s data).1 in in_value s1 <> in_value s ->
    (let s2 := (handleInput graphemes wordSegmenter matches s1 key).1 in
     in_value s2 = in_value s /\ in_cursor s2 = in_cursor s /\ in_undoStack s2 = in_undoStack s) \/
    (in_undoStack s1 = in_undoStack s /\ in_lastAction s = Some LA_type_word /\
     exists b char a, around s b a /\ in_value s1 = b ++ char ++ a /\ isWhitespaceChar char = false).
Proof.
  intros Hg Hw Hkey s Hp. destruct (inputs_from_empty graphemes wordSegmenter matches onSubmit onEscape inputs) as [[Hok Hpaste] Hs].
  split; [by apply undo_to_empty|]. intros data Hd Hb s1 Hne.
  destruct (changed_saved graphemes wordSegmenter matches s data Hok Hp Hd Hb Hne) as [Hst|]; [left|by right].
  assert (Hp1 : in_isInPaste s1 = false).
  { unfold s1. rewrite handleInput_plain by done. by destruct (key_step_paste _ _ (handle_key_step graphemes wordSegmenter matches s data Hok)) as [-> _]. }
  cbn zeta. rewrite (handle_undo graphemes wordSegmenter matches s1 key Hp1 Hkey). by apply undo_snapshot.
Qed.

(** Typing [ab, cd], killing a word and pasting a line. *)
Definition edits : list jstring := letters_typed ++ [[23]; forwardPaste (js "x" ++ [10; 9])].

Lemma undo_history_witness :
  let s := typed edits in
  in_value s = js "ab, x    " /\ length (in_undoStack s) = 4%nat /\
  (let s' := (handle_all units word_runs control_keys s (replicate (length (in_undoStack s)) [31])).1 in
   in_value s' = [] /\ in_cursor s' = 0 /\ in_undoStack s' = []) /\
  let s1 := (handleInput units word_runs control_keys s [127]).1 in
  (let s2 := (handleInput units word_runs control_keys s1 [31]).1 in
     in_value s2 = in_value s /\ in_cursor s2 = in_cursor s /\ in_undoStack s2 = in_undoStack s) \/
    (in_undoStack s1 = in_undoStack s /\ in_lastAction s = Some LA_type_word /\
     exists b char a, around s b a /\ in_value s1 = b ++ char ++ a /\ isWhitespaceChar char = false).
Proof.
  assert (Hk : key_for control_keys [31] KB_undo) by (split; vm_compute; reflexivity).
  assert (Hp : in_isInPaste (typed edits) = false) by (vm_compute; reflexivity).
  destruct (undo_history units word_runs control_keys true true edits [31] units_spec word_runs_spec Hk Hp) as [Hall Hone].
  split; [vm_compute; reflexivity|]. split; [vm_compute; reflexivity|]. split; [exact Hall|].
  apply Hone; [vm_compute; reflexivity|vm_compute; discriminate|vm_compute; discriminate].
Defined.

(** ** Paste *)

(** What a paste inserts: line breaks are dropped, a tab is four spaces. *)
Definition pasted (text : jstring) : jstring :=
  mjoin ((fun u => if bool_decide (u = 13 \/ u = 10) then [] else if u =? 9 then js "    " else [u]) <$> text).

Lemma pasted_cons u text : pasted (u :: text) =
  (if bool_decide (u = 13 \/ u = 10) then [] else if u =? 9 then js "    " else [u]) ++ pasted text.
Proof. done. Qed.

Lemma clean_paste_filter text : clean_paste text = pasted (remove_crlf text).
Proof.
  unfold clean_paste. induction (remove_crlf text) as [|u r IH]; [done|]. rewrite pasted_cons, <- IH.
  destruct (decide (u = 13)) as [->|H13]; [done|]. rewrite filter_cons_True by done.
  destruct (decide (u = 10)) as [->|H10]; [done|]. rewrite filter_cons_True by done.
  rewrite bool_decide_false by (intros [|]; done). done.
Qed.

Lemma pasted_remove_crlf n : forall text, (length text <= n)%nat -> pasted (remove_crlf text) = pasted text.
Proof.
  induction n as [|n IH]; intros text Hn; [by destruct text; [|cbn in Hn; lia]|]. destruct text as [|u text]; [done|]. cbn in Hn.
  destruct (decide (u = 13)) as [->|H13].
  - destruct text as [|v text]; [done|]. destruct (decide (v = 10)) as [->|H10].
    + cbn [remove_crlf]. rewrite IH by (cbn in Hn; lia). done.
    + assert (Hr : remove_crlf (13 :: v :: text) = 13 :: remove_crlf (v :: text)).
      { cbn [remove_crlf]. destruct v as [|p|p]; [done| |done]. do 4 (destruct p as [p|p|]; try done). }
      rewrite Hr, !(pasted_cons 13), IH by lia. done.
  - assert (Hr : remove_crlf (u :: text) = u :: remove_crlf text).
    { cbn [remove_crlf]. destruct u as [|p|p]; [done| |done]. do 4 (destruct p as [p|p|]; try done). }
    rewrite Hr, !(pasted_cons u), IH by lia. done.
Qed.

Lemma clean_paste_pasted text : clean_paste text = pasted text.
Proof. rewrite clean_paste_filter. by apply (pasted_remove_crlf (length text)). Qed.

Lemma handle_paste graphemes wordSegmenter matches content s :
  index_of BRACKETED_PASTE_END (content ++ BRACKETED_PASTE_END) = Some (length content) ->
  handleInput graphemes wordSegmenter matches s (forwardPaste content) = (set_paste (handlePaste (set_paste s true []) content) false [], []).
Proof.
  intros Hc. rewrite handleInput_unfold.
  assert (Hs : start_paste s (forwardPaste content) = (set_paste s true [], content ++ BRACKETED_PASTE_END)) by done.
  rewrite Hs. cbn [in_isInPaste in_pasteBuffer set_paste app]. rewrite Hc, take_app_length.
  replace (length content + 6)%nat with (length (content ++ BRACKETED_PASTE_END)) by (by rewrite length_app). by rewrite drop_all.
Qed.

(** C25: a bracketed paste that arrives in any chunks, cut anywhere, the markers
    included, leaves the buffer as one event with its exact content; the line
    editor that is handed the event inserts that content at the cursor, without
    its line breaks and with spaces for tabs, and is out of paste mode. *)
Theorem paste_reaches_input graphemes wordSegmenter matches options content chunks s b a :
  index_of BRACKETED_PASTE_END (content ++ BRACKETED_PASTE_END) = Some (length content) ->
  Forall (fun c => c <> []) chunks -> mjoin chunks = paste_text content -> around s b a ->
  process_all options empty_buffer chunks = (empty_buffer, [Ev_paste content]) /\
  let '(s', evs) := handleInput graphemes wordSegmenter matches s (forwardPaste content) in
  around s' (b ++ pasted content) a /\ in_isInPaste s' = false /\ in_undoStack s' = snapshot s :: in_undoStack s /\ evs = [].
Proof.
  intros Hc Hne Htext Hs. split; [by apply stdin_paste|]. rewrite handle_paste by done.
  destruct (paste_effect (set_paste s true []) b a content Hs) as [Ha _ _ _ Hst]. rewrite clean_paste_pasted in Ha.
  split_and!; [exact Ha|done|exact Hst|done].
Qed.

Lemma paste_reaches_input_witness :
  process_all default_options empty_buffer [[ESC; 91]; [50; 48; 48; 126; 65; 13]; [10; 9; ESC; 91; 50]; [48; 49; 126]]
    = (empty_buffer, [Ev_paste [65; 13; 10; 9]]) /\
  let '(s', evs) := handleInput units word_runs control_keys (typed [js "xy"; [2]]) (forwardPaste [65; 13; 10; 9]) in
  around s' (js "x" ++ pasted [65; 13; 10; 9]) (js "y") /\ in_isInPaste s' = false /\
  in_undoStack s' = snapshot (typed [js "xy"; [2]]) :: in_undoStack (typed [js "xy"; [2]]) /\ evs = [].
Proof.
  apply paste_reaches_input.
  - vm_compute. reflexivity.
  - repeat (apply Forall_cons_2; [discriminate|]). apply Forall_nil_2.
  - vm_compute. reflexivity.
  - split; vm_compute; reflexivity.
Defined.
