(* ===== verification/PromptTemplates.v ===== *)
(** * Prompt templates

    Arguments and placeholders of prompt templates, in both of their versions:
    packages/agent/src/harness/prompt-templates.ts ([Harness]), which also loads
    templates through an execution environment, and
    packages/coding-agent/src/core/prompt-templates.ts ([CodingAgent]).

    [replace_from] is [String.prototype.replace] with a global regular expression
    that matches no empty text: at every position the expression is tried, and
    the search goes on after a match.  The npm package yaml is a parameter. *)

From stdpp Require Import base list strings pretty.
From Stdlib Require Import ZArith Lia.
From S2P Require Import Prelude SessionTypes Compaction Truncate EditDiff StdinBuffer SessionManager ObjectBundle EditProperties.

Open Scope Z_scope.

(** ** Replacing matches *)

Section Replace.
Context {A : Type}.

(** [matcher s] is the match at the start of [s]: its groups and what follows it.
    The replacement sees the text before the match, the match and the rest. *)
Context (matcher : jstring -> option (A * jstring)) (replacement : jstring -> A -> jstring -> jstring -> jstring).
Context (subject : jstring).

Fixpoint replace_from (fuel : nat) (s : jstring) : jstring :=
  match fuel with
  | O => s
  | S fuel =>
      match matcher s with
      | Some (groups, rest) =>
          let before := take (length subject - length s) subject in
          let matched := take (length s - length rest) s in
          replacement before groups matched rest ++ replace_from fuel rest
      | None => match s with [] => [] | u :: r => u :: replace_from fuel r end
      end
  end.

End Replace.

Definition replace_all {A} (matcher : jstring -> option (A * jstring)) (replacement : jstring -> A -> jstring -> jstring -> jstring) (s : jstring) : jstring :=
  replace_from matcher replacement s (length s) s.

(** A replacement that is a string: a dollar sign in it may stand for a dollar
    sign, the match, what is before it or what is after it. *)
Fixpoint expand_replacement (before matched after template : jstring) : jstring :=
  match template with
  | 36 :: ((u :: r) as tl) =>
      if u =? 36 then 36 :: expand_replacement before matched after r
      else if u =? 38 then matched ++ expand_replacement before matched after r
      else if u =? 96 then before ++ expand_replacement before matched after r
      else if u =? 39 then after ++ expand_replacement before matched after r
      else 36 :: expand_replacement before matched after tl
  | u :: r => u :: expand_replacement before matched after r
  | [] => []
  end.

(** A run of digits and what follows it. *)
Definition digits_of (s : jstring) : option (Z * jstring) :=
  match span_digits s with ([], _) => None | (d, r) => Some (number_value d, r) end.

(** [args[n - 1]] *)
Definition positional (args : list jstring) (n : Z) : option jstring := if n <? 1 then None else args !! Z.to_nat (n - 1).

(** [args.slice(start, start + length).join(" ")], with [start] from 1 on. *)
Definition sliced (args : list jstring) (start : Z) (length : option Z) : jstring :=
  let start := Z.to_nat (if start - 1 <? 0 then 0 else start - 1) in
  join [32] (match length with Some n => take (Z.to_nat n) (drop start args) | None => drop start args end).

(** A slice placeholder: a start, and a length if there is one. *)
Definition match_slice (s : jstring) : option ((Z * option Z) * jstring) :=
  match strip_prefix (js "${@:") s with
  | Some r =>
      match digits_of r with
      | Some (start, 125 :: r) => Some ((start, None), r)
      | Some (start, 58 :: r) => match digits_of r with Some (n, 125 :: r) => Some ((start, Some n), r) | _ => None end
      | _ => None
      end
  | None => None
  end.

(** ** Arguments *)

Section Arguments.
Context (separator : Z -> bool).

Definition push_argument (args : list jstring) (current : jstring) : list jstring :=
  match current with [] => args | _ => args ++ [current] end.

Fixpoint parse_args (args : list jstring) (current : jstring) (inQuote : option Z) (s : jstring) : list jstring :=
  match s with
  | [] => push_argument args current
  | char :: s =>
      match inQuote with
      | Some quote => if char =? quote then parse_args args current None s else parse_args args (current ++ [char]) inQuote s
      | None =>
          if (char =? 34) || (char =? 39) then parse_args args current (Some char) s
          else if separator char then parse_args (push_argument args current) [] None s
          else parse_args args (current ++ [char]) None s
      end
  end.

End Arguments.

(** ** The harness *)

Module Harness.

Definition parseCommandArgs (argsString : jstring) : list jstring :=
  parse_args (fun char => (char =? 32) || (char =? 9)) [] [] None argsString.

(** The four expressions, applied one after the other. *)
Definition match_position (s : jstring) : option (Z * jstring) := match s with 36 :: r => digits_of r | _ => None end.
Definition match_word (word s : jstring) : option (unit * jstring) := r ← strip_prefix word s; Some (tt, r).

Definition substituteArgs (content : jstring) (args : list jstring) : jstring :=
  let result := replace_all match_position (fun _ n _ _ => default [] (positional args n)) content in
  let result := replace_all match_slice (fun _ '(start, n) _ _ => sliced args start n) result in
  let allArgs := join [32] args in
  let expand before (_ : unit) matched after := expand_replacement before matched after allArgs in
  let result := replace_all (match_word (js "$ARGUMENTS")) expand result in
  replace_all (match_word (js "$@")) expand result.

Record PromptTemplate := { pt_name : jstring; pt_description : jstring; pt_content : jstring }.

Definition formatPromptTemplateInvocation (template : PromptTemplate) (args : list jstring) : jstring := substituteArgs (pt_content template) args.

(** *** Loading *)

Inductive DiagnosticCode := DC_file_info_failed | DC_list_failed | DC_read_failed | DC_parse_failed.

Record PromptTemplateDiagnostic := { pd_code : DiagnosticCode; pd_message : jstring; pd_path : jstring }.

Inductive FileKind := FK_file | FK_directory | FK_symlink.

Record FileInfo := { fi_name : jstring; fi_path : jstring; fi_kind : FileKind }.

(** [fe_notFound] tells whether the code is not_found. *)
Record FileError := { fe_notFound : bool; fe_message : jstring }.

(** What loading asks of the execution environment, the runtime and the yaml package. *)
Class TemplateEnv := {
  env_fileInfo : jstring -> Result FileError FileInfo;
  env_listDir : jstring -> Result FileError (list FileInfo);
  env_canonicalPath : jstring -> Result FileError jstring;
  env_readTextFile : jstring -> Result FileError jstring;
  yaml_parse : jstring -> Result jstring json;
  localeCompare : jstring -> jstring -> Z;
}.

(** Line feeds only. *)
Definition parseFrontmatter `{TemplateEnv} (content : jstring) : Result jstring (json * jstring) :=
  let normalized := normalizeToLF content in
  if negb (starts_with (js "---") normalized) then Ok (JObject [], normalized)
  else
    match index_of (newline :: js "---") (drop 3 normalized) with
    | None => Ok (JObject [], normalized)
    | Some i =>
        let endIndex := (3 + i)%nat in
        let yamlString := drop 4 (take endIndex normalized) in
        let body := trim (drop (endIndex + 4) normalized) in
        let* frontmatter := yaml_parse yamlString in Ok (frontmatter, body)
    end.

(** [fileName.replace(/\.md$/i, "")] *)
Definition without_md (fileName : jstring) : jstring :=
  match reverse fileName with
  | d :: m :: 46 :: r => if ((d =? 100) || (d =? 68)) && ((m =? 109) || (m =? 77)) then reverse r else fileName
  | _ => fileName
  end.

Definition describe (frontmatter : json) (body : jstring) : jstring :=
  match raw_property (js "description") frontmatter with
  | Some (JString (u :: d)) => u :: d
  | _ =>
      match List.find (fun line => negb (bool_decide (trim line = []))) (split_lines body) with
      | Some firstLine => if (60 <? length firstLine)%nat then take 60 firstLine ++ js "..." else firstLine
      | None => []
      end
  end.

Definition warning (code : DiagnosticCode) (message path : jstring) : PromptTemplateDiagnostic :=
  {| pd_code := code; pd_message := message; pd_path := path |}.

(** Templates and diagnostics, in the order in which they are pushed. *)
Definition Loaded : Type := list PromptTemplate * list PromptTemplateDiagnostic.

Definition loaded_app (a b : Loaded) : Loaded := (a.1 ++ b.1, a.2 ++ b.2).

Section Load.
Context `{TemplateEnv}.

Definition loadTemplateFromFile (filePath fileName : jstring) : Loaded :=
  match env_readTextFile filePath with
  | Err e => ([], [warning DC_read_failed (fe_message e) filePath])
  | Ok rawContent =>
      match parseFrontmatter rawContent with
      | Err message => ([], [warning DC_parse_failed message filePath])
      | Ok (frontmatter, body) => ([{| pt_name := without_md fileName; pt_description := describe frontmatter body; pt_content := body |}], [])
      end
  end.

(** What a symbolic link leads to; a failure other than a missing file is told. *)
Definition resolveKind (info : FileInfo) : option FileKind * list PromptTemplateDiagnostic :=
  let failed e := (None, if fe_notFound e then [] else [warning DC_file_info_failed (fe_message e) (fi_path info)]) in
  match fi_kind info with
  | FK_symlink =>
      match env_canonicalPath (fi_path info) with
      | Err e => failed e
      | Ok path =>
          match env_fileInfo path with
          | Err e => failed e
          | Ok target => (match fi_kind target with FK_symlink => None | kind => Some kind end, [])
          end
      end
  | kind => (Some kind, [])
  end.

Definition load_entry (entry : FileInfo) : Loaded :=
  let '(kind, diagnostics) := resolveKind entry in
  match kind with
  | Some FK_file => if ends_with (js ".md") (fi_name entry) then loaded_app ([], diagnostics) (loadTemplateFromFile (fi_path entry) (fi_name entry)) else ([], diagnostics)
  | _ => ([], diagnostics)
  end.

Definition loadTemplatesFromDir (dir : jstring) : Loaded :=
  match env_listDir dir with
  | Err e => ([], [warning DC_list_failed (fe_message e) dir])
  | Ok entries => foldl (fun loaded entry => loaded_app loaded (load_entry entry)) ([], []) (stable_sort (fun a b => localeCompare (fi_name a) (fi_name b) <=? 0) entries)
  end.

Definition load_path (path : jstring) : Loaded :=
  match env_fileInfo path with
  | Err e => ([], if fe_notFound e then [] else [warning DC_file_info_failed (fe_message e) path])
  | Ok info =>
      let '(kind, diagnostics) := resolveKind info in
      match kind with
      | Some FK_directory => loaded_app ([], diagnostics) (loadTemplatesFromDir (fi_path info))
      | Some FK_file => if ends_with (js ".md") (fi_name info) then loaded_app ([], diagnostics) (loadTemplateFromFile (fi_path info) (fi_name info)) else ([], diagnostics)
      | _ => ([], diagnostics)
      end
  end.

Definition loadPromptTemplates (paths : list jstring) : Loaded :=
  foldl (fun loaded path => loaded_app loaded (load_path path)) ([], []) paths.

End Load.
End Harness.

(** ** The coding agent *)

Module CodingAgent.

Definition parseCommandArgs (argsString : jstring) : list jstring := parse_args is_white_space [] [] None argsString.

(** What a placeholder names. *)
Inductive Placeholder :=
| PH_default (target : option Z) (defaultValue : jstring)
| PH_slice (start : Z) (length : option Z)
| PH_all
| PH_position (n : Z).

(** The text up to a closing brace, and what follows it. *)
Fixpoint until_brace (s : jstring) : option (jstring * jstring) :=
  match s with
  | [] => None
  | u :: r => if u =? 125 then Some ([], r) else '(d, r) ← until_brace r; Some (u :: d, r)
  end.

(** A position, or [ARGUMENTS] or [@], which is [None]. *)
Definition match_target (s : jstring) : option (option Z * jstring) :=
  match digits_of s with
  | Some (n, r) => Some (Some n, r)
  | None =>
      match strip_prefix (js "ARGUMENTS") s with
      | Some r => Some (None, r)
      | None => r ← strip_prefix (js "@") s; Some (None, r)
      end
  end.

Definition match_default (s : jstring) : option (Placeholder * jstring) :=
  r ← strip_prefix (js "${") s; '(target, r) ← match_target r; r ← strip_prefix (js ":-") r;
  '(d, r) ← until_brace r; Some (PH_default target d, r).

Definition match_simple (s : jstring) : option (Placeholder * jstring) :=
  r ← strip_prefix (js "$") s; '(target, r) ← match_target r;
  Some (match target with Some n => PH_position n | None => PH_all end, r).

(** The alternatives of the expression, in order. *)
Definition match_placeholder (s : jstring) : option (Placeholder * jstring) :=
  match match_default s with
  | Some found => Some found
  | None =>
      match match_slice s with
      | Some ((start, n), r) => Some (PH_slice start n, r)
      | None => match_simple s
      end
  end.

Definition placeholder_value (args : list jstring) (p : Placeholder) : jstring :=
  match p with
  | PH_default target defaultValue =>
      match match target with Some n => positional args n | None => Some (join [32] args) end with
      | Some (u :: value) => u :: value
      | _ => defaultValue
      end
  | PH_slice start n => sliced args start n
  | PH_all => join [32] args
  | PH_position n => default [] (positional args n)
  end.

Definition substituteArgs (content : jstring) (args : list jstring) : jstring :=
  replace_all match_placeholder (fun _ p _ _ => placeholder_value args p) content.

Record PromptTemplate := { cp_name : jstring; cp_content : jstring }.

(** The longest start without white space. *)
Fixpoint span_word (s : jstring) : jstring * jstring :=
  match s with
  | u :: r => if is_white_space u then ([], s) else let '(w, r) := span_word r in (u :: w, r)
  | [] => ([], [])
  end.

(** A slash, a name without white space, and what follows the white space after
    it. *)
Definition match_command (text : jstring) : option (jstring * jstring) :=
  match text with
  | 47 :: r => match span_word r with ([], _) => None | (name, r) => Some (name, trimStart r) end
  | _ => None
  end.

Definition expandPromptTemplate (text : jstring) (templates : list PromptTemplate) : jstring :=
  match match_command text with
  | None => text
  | Some (templateName, argsString) =>
      match List.find (fun t => bool_decide (cp_name t = templateName)) templates with
      | Some template => substituteArgs (cp_content template) (parseCommandArgs argsString)
      | None => text
      end
  end.

End CodingAgent.

(** ** Templates as text and placeholders *)

(** A template: text, and the placeholders with their digits as written. *)
Inductive target := T_position (digits : jstring) | T_arguments | T_at.

Inductive item :=
| I_text (text : jstring)
| I_position (digits : jstring)
| I_slice (start : jstring) (length : option jstring)
| I_arguments
| I_at
| I_default (t : target) (value : jstring).

Definition target_source (t : target) : jstring := match t with T_position d => d | T_arguments => js "ARGUMENTS" | T_at => js "@" end.

Definition item_source (i : item) : jstring :=
  match i with
  | I_text text => text
  | I_position d => 36 :: d
  | I_slice d None => js "${@:" ++ d ++ [125]
  | I_slice d (Some n) => js "${@:" ++ d ++ 58 :: n ++ [125]
  | I_arguments => js "$ARGUMENTS"
  | I_at => js "$@"
  | I_default t value => js "${" ++ target_source t ++ js ":-" ++ value ++ [125]
  end.

(** The [n]-th argument, counted from one. *)
Fixpoint nth_arg (args : list jstring) (n : Z) : option jstring :=
  match args with [] => None | arg :: args => if n =? 1 then Some arg else nth_arg args (n - 1) end.

(** The arguments, counted from [p], whose numbers are at least [from] and, if there
    is a [count], less than [from] plus [count]. *)
Fixpoint args_from (p : Z) (args : list jstring) (from : Z) (count : option Z) : list jstring :=
  match args with
  | [] => []
  | arg :: args =>
      (if (from <=? p) && match count with Some n => p <? from + n | None => true end then [arg] else []) ++ args_from (p + 1) args from count
  end.

(** What each item stands for; the first argument is meant by a slice from zero. *)
Definition item_value (args : list jstring) (i : item) : jstring :=
  match i with
  | I_text text => text
  | I_position d => default [] (nth_arg args (number_value d))
  | I_slice d n => join [32] (args_from 1 args (Z.max 1 (number_value d)) (number_value <$> n))
  | I_arguments | I_at => join [32] args
  | I_default t value =>
      let given := match t with T_position d => default [] (nth_arg args (number_value d)) | _ => join [32] args end in
      if bool_decide (given = []) then value else given
  end.

Definition source (items : list item) : jstring := mjoin (item_source <$> items).
Definition values (args : list jstring) (items : list item) : jstring := mjoin (item_value args <$> items).

Definition dollar_free (s : jstring) : Prop := 36 ∉ s.
Definition number_text (d : jstring) : Prop := d <> [] /\ Forall (fun u => digit u = true) d.
Definition no_digit_first (s : jstring) : Prop := match s with u :: _ => digit u = false | [] => True end.

(** What may follow a dollar sign that stands for itself: no digit, no opening
    brace, no [@] and no [A]. *)
Definition inert_next (s : jstring) : Prop := match s with u :: _ => digit u = false /\ u <> 123 /\ u <> 64 /\ u <> 65 | [] => True end.

(** The dollar signs of a text stand for themselves; only at the end of the template
    may one be the last character. *)
Fixpoint inert (final : bool) (text : jstring) : Prop :=
  match text with
  | [] => True
  | u :: r => (u = 36 -> inert_next r /\ (r = [] -> final = true)) /\ inert final r
  end.

Definition is_final (rest : list item) : bool := match rest with [] => true | _ => false end.

(** Dollar signs of the text stand for themselves, numbers have digits, a default
    value has no closing brace, and no digit follows a position. *)
Fixpoint template_ok (items : list item) : Prop :=
  match items with
  | [] => True
  | i :: rest =>
      match i with
      | I_text text => inert (is_final rest) text
      | I_position d => number_text d /\ no_digit_first (source rest)
      | I_slice d n => number_text d /\ match n with Some n => number_text n | None => True end
      | I_arguments | I_at => True
      | I_default t value => match t with T_position d => number_text d | _ => True end /\ 125 ∉ value
      end /\ template_ok rest
  end.

(** *** What the placeholders of the code name *)

Lemma nth_arg_positional args : forall n, positional args n = nth_arg args n.
Proof.
  unfold positional. induction args as [|arg args IH]; intros n; cbn [nth_arg]; [by destruct (n <? 1)|]. rewrite <- IH.
  destruct (Z.eqb_spec n 1) as [->|Hn]; [done|]. destruct (Z.ltb_spec n 1), (Z.ltb_spec (n - 1) 1); try (done || lia).
  by replace (Z.to_nat (n - 1)) with (S (Z.to_nat (n - 1 - 1))) by lia.
Qed.

Lemma args_from_slice args : forall p from count, args_from p args from count =
  match count with Some n => take (Z.to_nat (from + n - Z.max p from)) | None => id end (drop (Z.to_nat (from - p)) args).
Proof.
  induction args as [|arg args IH]; intros p from count; cbn [args_from]; [rewrite drop_nil; destruct count; [by rewrite take_nil|done]|].
  rewrite IH. destruct (Z.leb_spec from p) as [Hle|Hlt]; cbn [andb].
  - replace (Z.to_nat (from - p)) with O by lia. replace (Z.to_nat (from - (p + 1))) with O by lia. rewrite !drop_0, !Z.max_l by lia.
    destruct count as [n|]; [|done]. destruct (Z.ltb_spec p (from + n)).
    + by replace (Z.to_nat (from + n - p)) with (S (Z.to_nat (from + n - (p + 1)))) by lia.
    + by replace (Z.to_nat (from + n - p)) with O by lia; replace (Z.to_nat (from + n - (p + 1))) with O by lia.
  - replace (Z.to_nat (from - p)) with (S (Z.to_nat (from - (p + 1)))) by lia. by rewrite !Z.max_r by lia.
Qed.

Lemma sliced_args args start n : sliced args start n = join [32] (args_from 1 args (Z.max 1 start) n).
Proof.
  unfold sliced. rewrite args_from_slice. replace (if start - 1 <? 0 then 0 else start - 1) with (Z.max 1 start - 1) by (destruct (Z.ltb_spec (start - 1) 0); lia).
  destruct n as [n|]; [|done]. do 2 f_equal. lia.
Qed.

Lemma source_cons i rest : source (i :: rest) = item_source i ++ source rest.
Proof. done. Qed.

Lemma span_digits_app d r : Forall (fun u => digit u = true) d -> no_digit_first r -> span_digits (d ++ r) = (d, r).
Proof.
  induction 1 as [|u d Hu _ IH]; intros Hr.
  - destruct r as [|u r]; [done|]. cbn in Hr |- *. by rewrite Hr.
  - cbn. by rewrite Hu, IH.
Qed.

Lemma digits_of_number d r : number_text d -> no_digit_first r -> digits_of (d ++ r) = Some (number_value d, r).
Proof. intros [Hne Hd] Hr. unfold digits_of. rewrite span_digits_app by done. by destruct d. Qed.

Lemma digits_of_none s : no_digit_first s -> digits_of s = None.
Proof. destruct s as [|u s]; [done|]. cbn. intros Hu. unfold digits_of. cbn. by rewrite Hu. Qed.

Lemma digit_bounds u : digit u = true -> 48 <= u <= 57.
Proof. unfold digit. intros [H1 H2]%andb_true_iff. lia. Qed.

Lemma number_dollar_free d : Forall (fun u => digit u = true) d -> dollar_free d.
Proof. intros Hd Hin. rewrite Forall_forall in Hd. pose proof (digit_bounds _ (Hd _ Hin)). lia. Qed.

(** ** One pass over a template *)

Section Pass.
Context {A : Type} (matcher : jstring -> option (A * jstring)) (replacement : jstring -> A -> jstring -> jstring -> jstring).
Context (dollar : forall s, head s <> Some 36 -> matcher s = None) (alone : forall s, inert_next s -> matcher (36 :: s) = None).

(** An item is replaced by the pass, or there is no match in it. *)
Definition missed (text rest : jstring) : Prop := forall pre suf, text = pre ++ suf -> suf <> [] -> matcher (suf ++ rest) = None.

Definition pass_item (out : item -> jstring) (i : item) (rest : jstring) : Prop :=
  (exists groups, matcher (item_source i ++ rest) = Some (groups, rest) /\ item_source i <> [] /\
     forall before matched, replacement before groups matched rest = out i) \/
  (missed (item_source i) rest /\ out i = item_source i).

Fixpoint pass_items (out : item -> jstring) (items : list item) : Prop :=
  match items with [] => True | i :: rest => pass_item out i (source rest) /\ pass_items out rest end.

Lemma missed_tail u text rest : missed (u :: text) rest -> missed text rest.
Proof using. intros Hm pre suf -> Hne. by apply (Hm (u :: pre) suf). Qed.

Lemma missed_free text rest : dollar_free text -> missed text rest.
Proof using dollar.
  intros Hd pre suf -> Hne. apply dollar. destruct suf as [|u suf]; [done|]. intros [= ->]. apply Hd, elem_of_app. right. left.
Qed.

Lemma missed_dollar tl rest : dollar_free tl -> matcher (36 :: tl ++ rest) = None -> missed (36 :: tl) rest.
Proof using dollar. intros Hd Hm [|u pre] suf Heq Hne; cbn in Heq; [by subst|]. injection Heq as <- Heq. by eapply (missed_free tl). Qed.

Lemma missed_inert final text rest : inert final text -> (final = true -> rest = []) -> missed text rest.
Proof using dollar alone.
  induction text as [|u text IH]; intros Hi Hf pre suf Heq Hne; [by destruct pre, suf|]. destruct Hi as [Hu Hi].
  destruct pre as [|v pre]; cbn in Heq; [|injection Heq as <- Heq; by eapply IH]. subst suf. destruct (decide (u = 36)) as [->|Hn]; [|apply dollar; cbn; congruence].
  destruct (Hu eq_refl) as [Hnext Hlast]. cbn [app]. apply alone. destruct text as [|v text]; [by rewrite (Hf (Hlast eq_refl))|done].
Qed.

Lemma replace_missed subject text rest : missed text rest -> forall fuel, (length (text ++ rest) <= fuel)%nat ->
  replace_from matcher replacement subject fuel (text ++ rest) = text ++ replace_from matcher replacement subject (fuel - length text) rest.
Proof using.
  induction text as [|u text IH]; intros Hm fuel Hf; cbn [app length] in *; [by rewrite Nat.sub_0_r|].
  destruct fuel as [|fuel]; [lia|]. cbn [replace_from]. change (u :: text ++ rest) with ((u :: text) ++ rest). rewrite (Hm [] (u :: text)) by done. cbn [app].
  rewrite IH by (by eapply missed_tail || lia). done.
Qed.

Lemma replace_items subject out items : pass_items out items -> forall fuel, (length (source items) <= fuel)%nat ->
  replace_from matcher replacement subject fuel (source items) = mjoin (out <$> items).
Proof using dollar.
  induction items as [|i items IH]; intros Hp fuel Hf.
  { destruct fuel; [done|]. cbn. by rewrite dollar. }
  destruct Hp as [Hi Hp]. rewrite source_cons in Hf |- *. change (mjoin (out <$> i :: items)) with (out i ++ mjoin (out <$> items)).
  destruct Hi as [(groups & Hm & Hne & Hv)|[Hplain ->]].
  - destruct fuel as [|fuel]; [destruct (item_source i); [done|cbn in Hf; lia]|]. cbn [replace_from]. rewrite Hm, Hv. f_equal. apply IH; [done|].
    rewrite length_app in Hf. destruct (item_source i); [done|cbn in Hf; lia].
  - rewrite replace_missed by done. f_equal. apply IH; [done|]. rewrite length_app in Hf. lia.
Qed.

Lemma replace_all_items out items : pass_items out items -> replace_all matcher replacement (source items) = mjoin (out <$> items).
Proof using dollar. intros Hp. apply replace_items; [done|lia]. Qed.

End Pass.

(** ** The passes of both versions *)

Lemma strip_prefix_dollar pattern s : head pattern = Some 36 -> head s <> Some 36 -> strip_prefix pattern s = None.
Proof.
  destruct pattern as [|p pattern]; [done|]. intros [= ->]. destruct s as [|u s]; [done|]. cbn -[Z.eqb]. intros Hu.
  destruct (Z.eqb_spec 36 u) as [<-|]; [done|done].
Qed.

Lemma strip_prefix_same u pattern s : strip_prefix (u :: pattern) (u :: s) = strip_prefix pattern s.
Proof. cbn [strip_prefix]. by rewrite Z.eqb_refl. Qed.

Lemma strip_prefix_other u v pattern s : u <> v -> strip_prefix (u :: pattern) (v :: s) = None.
Proof. intros Hn. cbn [strip_prefix]. by destruct (Z.eqb_spec u v). Qed.

Lemma match_slice_dollar s : head s <> Some 36 -> match_slice s = None.
Proof. intros Hs. unfold match_slice. by rewrite strip_prefix_dollar. Qed.

Lemma match_position_dollar s : head s <> Some 36 -> Harness.match_position s = None.
Proof. destruct s as [|u s]; [done|]. cbn. intros Hu. destruct (decide (u = 36)) as [->|Hn]; [done|]. destruct u as [|p|p]; [done| |done]. do 6 (destruct p as [p|p|]; try done). Qed.

Lemma match_word_dollar word s : head word = Some 36 -> head s <> Some 36 -> Harness.match_word word s = None.
Proof. intros Hw Hs. unfold Harness.match_word. by rewrite strip_prefix_dollar. Qed.

Lemma match_placeholder_dollar s : head s <> Some 36 -> CodingAgent.match_placeholder s = None.
Proof.
  intros Hs. unfold CodingAgent.match_placeholder, CodingAgent.match_default, CodingAgent.match_simple.
  by rewrite match_slice_dollar, !strip_prefix_dollar.
Qed.

(** A dollar sign that stands for itself is matched by none of the expressions. *)
Lemma brace_alone s pattern : inert_next s -> strip_prefix (36 :: 123 :: pattern) (36 :: s) = None.
Proof. rewrite strip_prefix_same. destruct s as [|u s]; [done|]. intros (_ & Hb & _). apply strip_prefix_other. lia. Qed.

Lemma match_slice_alone s : inert_next s -> match_slice (36 :: s) = None.
Proof. intros Hs. unfold match_slice. change (js "${@:") with [36; 123; 64; 58]. by rewrite brace_alone. Qed.

Lemma match_position_alone s : inert_next s -> Harness.match_position (36 :: s) = None.
Proof. intros Hs. apply digits_of_none. destruct s as [|u s]; [done|]. apply Hs. Qed.

Lemma match_arguments_alone s : inert_next s -> Harness.match_word (js "$ARGUMENTS") (36 :: s) = None.
Proof.
  unfold Harness.match_word. change (js "$ARGUMENTS") with [36; 65; 82; 71; 85; 77; 69; 78; 84; 83]. rewrite strip_prefix_same.
  destruct s as [|u s]; [done|]. intros (_ & _ & _ & Ha). by rewrite strip_prefix_other by lia.
Qed.

Lemma match_at_alone s : inert_next s -> Harness.match_word (js "$@") (36 :: s) = None.
Proof.
  unfold Harness.match_word. change (js "$@") with [36; 64]. rewrite strip_prefix_same. destruct s as [|u s]; [done|]. intros (_ & _ & Ha & _). by rewrite strip_prefix_other by lia.
Qed.

Lemma match_placeholder_alone s : inert_next s -> CodingAgent.match_placeholder (36 :: s) = None.
Proof.
  intros Hs. unfold CodingAgent.match_placeholder, CodingAgent.match_default. change (js "${") with [36; 123]. rewrite brace_alone, match_slice_alone by done.
  unfold CodingAgent.match_simple. change (js "$") with [36]. rewrite strip_prefix_same. cbn [strip_prefix mbind option_bind].
  unfold CodingAgent.match_target. destruct s as [|u s]; [done|]. destruct Hs as (Hd & _ & Hat & Ha). rewrite digits_of_none by done.
  change (js "ARGUMENTS") with [65; 82; 71; 85; 77; 69; 78; 84; 83]. change (js "@") with [64]. by rewrite !strip_prefix_other by lia.
Qed.

Lemma no_digit_colon r : no_digit_first (58 :: r).
Proof. done. Qed.

Lemma no_digit_brace r : no_digit_first (125 :: r).
Proof. done. Qed.

Lemma slice_found d n rest : number_text d -> match n with Some n => number_text n | None => True end ->
  match_slice (item_source (I_slice d n) ++ rest) = Some ((number_value d, number_value <$> n), rest).
Proof.
  intros Hd Hn. unfold match_slice. destruct n as [n|]; cbn [item_source].
  - replace ((js "${@:" ++ d ++ 58 :: n ++ [125]) ++ rest) with (js "${@:" ++ (d ++ 58 :: (n ++ 125 :: rest)))
      by (rewrite <- !app_assoc; cbn; by rewrite <- !app_assoc).
    rewrite (proj2 (strip_prefix_spec _ _ _) eq_refl). rewrite digits_of_number by done. cbn. by rewrite digits_of_number.
  - replace ((js "${@:" ++ d ++ [125]) ++ rest) with (js "${@:" ++ (d ++ 125 :: rest)) by (by rewrite <- !app_assoc).
    rewrite (proj2 (strip_prefix_spec _ _ _) eq_refl). by rewrite digits_of_number.
Qed.

Lemma until_brace_found value rest : 125 ∉ value -> CodingAgent.until_brace (value ++ 125 :: rest) = Some (value, rest).
Proof.
  induction value as [|u value IH]; intros Hv; [done|]. apply not_elem_of_cons in Hv as [Hu Hv]. cbn -[Z.eqb].
  destruct (Z.eqb_spec u 125) as [->|]; [done|]. by rewrite IH.
Qed.

(** The first character of a number is a digit. *)
Lemma number_head d : number_text d -> exists u r, d = u :: r /\ 48 <= u <= 57.
Proof. intros [Hne Hd]. destruct d as [|u r]; [done|]. exists u, r. split; [done|]. apply digit_bounds. by apply Forall_inv in Hd. Qed.

Lemma target_number d r : number_text d -> no_digit_first r -> CodingAgent.match_target (d ++ r) = Some (Some (number_value d), r).
Proof. intros Hd Hr. unfold CodingAgent.match_target. by rewrite digits_of_number. Qed.

Lemma position_found d rest : number_text d -> no_digit_first rest ->
  CodingAgent.match_placeholder (36 :: d ++ rest) = Some (CodingAgent.PH_position (number_value d), rest).
Proof.
  intros Hd Hr. destruct (number_head d Hd) as (u & r & Hu & Hb). unfold CodingAgent.match_placeholder.
  assert (H1 : strip_prefix (js "${") (36 :: d ++ rest) = None).
  { rewrite Hu. change (js "${") with [36; 123]. cbn [app]. rewrite strip_prefix_same. apply strip_prefix_other. lia. }
  assert (H2 : match_slice (36 :: d ++ rest) = None).
  { unfold match_slice. assert (strip_prefix (js "${@:") (36 :: d ++ rest) = None) as ->; [|done].
    rewrite Hu. change (js "${@:") with [36; 123; 64; 58]. cbn [app]. rewrite strip_prefix_same. apply strip_prefix_other. lia. }
  unfold CodingAgent.match_default. rewrite H1, H2. unfold CodingAgent.match_simple.
  assert (Hs : strip_prefix (js "$") (36 :: d ++ rest) = Some (d ++ rest)) by done. rewrite Hs. cbn [mbind option_bind].
  by rewrite target_number.
Qed.

Lemma slice_not_default d n rest : number_text d -> CodingAgent.match_default (item_source (I_slice d n) ++ rest) = None.
Proof.
  intros Hd. destruct (number_head d Hd) as (u & r & -> & Hb). unfold CodingAgent.match_default.
  assert (H : forall s, (r0 ← strip_prefix (js "${") (js "${@:" ++ u :: s); '(target, r1) ← CodingAgent.match_target r0; r2 ← strip_prefix (js ":-") r1;
    '(d0, r3) ← CodingAgent.until_brace r2; Some (CodingAgent.PH_default target d0, r3)) = None).
  { intros s. change (js "${@:" ++ u :: s) with (js "${" ++ js "@" ++ 58 :: u :: s).
    rewrite (proj2 (strip_prefix_spec _ _ _) eq_refl). cbn [mbind option_bind].
    change (CodingAgent.match_target (js "@" ++ 58 :: u :: s)) with (Some (@None Z, 58 :: u :: s)). cbn [mbind option_bind].
    change (js ":-") with [58; 45]. rewrite strip_prefix_same, strip_prefix_other by lia. done. }
  destruct n as [n|]; cbn [item_source app]; rewrite <- ?app_assoc; apply H.
Qed.

Definition target_number_of (t : target) : option Z := match t with T_position d => Some (number_value d) | _ => None end.

Lemma target_found t r : match t with T_position d => number_text d | _ => True end -> no_digit_first r ->
  CodingAgent.match_target (target_source t ++ r) = Some (target_number_of t, r).
Proof. destruct t as [d| |]; intros Ht Hr; [by apply target_number|done|done]. Qed.

Lemma default_found t value rest : match t with T_position d => number_text d | _ => True end -> 125 ∉ value ->
  CodingAgent.match_placeholder (item_source (I_default t value) ++ rest) = Some (CodingAgent.PH_default (target_number_of t) value, rest).
Proof.
  intros Ht Hv. assert (CodingAgent.match_default (item_source (I_default t value) ++ rest) = Some (CodingAgent.PH_default (target_number_of t) value, rest)) as Hm.
  2: { unfold CodingAgent.match_placeholder. by rewrite Hm. }
  unfold CodingAgent.match_default. cbn [item_source].
  replace ((js "${" ++ target_source t ++ js ":-" ++ value ++ [125]) ++ rest) with (js "${" ++ (target_source t ++ (js ":-" ++ (value ++ 125 :: rest)))) by (by rewrite <- !app_assoc).
  rewrite (proj2 (strip_prefix_spec _ _ _) eq_refl). cbn [mbind option_bind]. rewrite target_found by done. cbn [mbind option_bind].
  rewrite (proj2 (strip_prefix_spec _ _ _) eq_refl). cbn [mbind option_bind]. by rewrite until_brace_found.
Qed.

Lemma default_value args t value : CodingAgent.placeholder_value args (CodingAgent.PH_default (target_number_of t) value) = item_value args (I_default t value).
Proof.
  cbn. destruct t as [d| |]; cbn [target_number_of]; rewrite ?nth_arg_positional.
  - by destruct (nth_arg args (number_value d)) as [[]|].
  - by destruct (join [32] args).
  - by destruct (join [32] args).
Qed.

Lemma final_source rest : is_final rest = true -> source rest = [].
Proof. by destruct rest. Qed.

Lemma coding_agent_pass args items : template_ok items ->
  pass_items CodingAgent.match_placeholder (fun _ p _ _ => CodingAgent.placeholder_value args p) (item_value args) items.
Proof.
  induction items as [|i items IH]; [done|]. intros [Hi Hr]. split; [|by apply IH]. destruct i as [text|d|d n| | |t value]; cbn in Hi.
  - right. split; [|done]. eapply missed_inert; [apply match_placeholder_dollar|apply match_placeholder_alone|exact Hi|apply final_source].
  - left. exists (CodingAgent.PH_position (number_value d)). destruct Hi. split_and!; [by apply position_found|done|]. intros _ _. cbn. by rewrite nth_arg_positional.
  - left. exists (CodingAgent.PH_slice (number_value d) (number_value <$> n)). destruct Hi as [Hd Hn].
    split_and!; [|destruct n; done|intros _ _; apply sliced_args]. unfold CodingAgent.match_placeholder. by rewrite slice_not_default, slice_found.
  - left. exists CodingAgent.PH_all. done.
  - left. exists CodingAgent.PH_all. done.
  - left. exists (CodingAgent.PH_default (target_number_of t) value). destruct Hi as [Ht Hv]. split_and!; [by apply default_found|done|intros _ _; apply default_value].
Qed.

(** The items after each pass of the harness: what it has replaced is text. *)
Definition pass1 (args : list jstring) (i : item) : item :=
  match i with I_position d => I_text (item_value args i) | _ => i end.
Definition pass2 (args : list jstring) (i : item) : item :=
  match i with I_slice _ _ => I_text (item_value args i) | _ => i end.
Definition pass3 (args : list jstring) (i : item) : item :=
  match i with I_arguments => I_text (item_value args i) | _ => i end.
Definition pass4 (args : list jstring) (i : item) : item :=
  match i with I_at => I_text (item_value args i) | _ => i end.

(** What is left for the passes after the first. *)
Fixpoint no_positions (items : list item) : Prop :=
  match items with
  | [] => True
  | i :: rest =>
      match i with
      | I_text text => inert (is_final rest) text
      | I_slice d n => number_text d /\ match n with Some n => number_text n | None => True end
      | I_arguments | I_at => True
      | I_position _ | I_default _ _ => False
      end /\ no_positions rest
  end.

Definition not_default (i : item) : Prop := match i with I_default _ _ => False | _ => True end.

Section HarnessPasses.
Context (args : list jstring) (free : Forall dollar_free args).

Lemma join_free parts : Forall dollar_free parts -> dollar_free (join [32] parts).
Proof using.
  induction 1 as [|part parts Hp Hps IH]; [by apply not_elem_of_nil|]. cbn [join]. destruct parts as [|part' parts]; [done|].
  unfold dollar_free in *. rewrite !elem_of_app, list_elem_of_singleton. naive_solver.
Qed.

Lemma nth_arg_free n arg : nth_arg args n = Some arg -> dollar_free arg.
Proof using free. rewrite <- nth_arg_positional. unfold positional. destruct (_ <? 1); [done|]. rewrite Forall_lookup in free. by eapply free. Qed.

Lemma item_value_free i : match i with I_text _ | I_default _ _ => False | _ => True end -> dollar_free (item_value args i).
Proof using free.
  destruct i as [text|d|d n| | |]; cbn [item_value]; try done; intros _.
  - destruct (nth_arg args (number_value d)) as [arg|] eqn:E; [by eapply nth_arg_free|by apply not_elem_of_nil].
  - rewrite <- sliced_args. unfold sliced. apply join_free. destruct (number_value <$> n); [apply Forall_take|]; by apply Forall_drop.
  - by apply join_free.
  - by apply join_free.
Qed.

Lemma inert_free final text : dollar_free text -> inert final text.
Proof using. induction text as [|u text IH]; intros Hd; [done|]. apply not_elem_of_cons in Hd as [Hu Hd]. split; [by intros ->|by apply IH]. Qed.

Lemma expand_free before matched after template : dollar_free template -> expand_replacement before matched after template = template.
Proof using.
  induction template as [|u template IH]; intros Hd; [done|]. apply not_elem_of_cons in Hd as [Hu Hd]. specialize (IH Hd).
  assert (Hs : expand_replacement before matched after (u :: template) = u :: expand_replacement before matched after template).
  { destruct u as [|p|p]; [done| |done]. do 6 (destruct p as [p|p|]; try done). }
  by rewrite Hs, IH.
Qed.

(** The passes one by one, on items whose sources they find. *)
Lemma slice_source_tail d n : number_text d -> match n with Some n => number_text n | None => True end ->
  exists tl, item_source (I_slice d n) = 36 :: tl /\ dollar_free tl.
Proof using.
  intros [_ Hd] Hn. apply number_dollar_free in Hd. destruct n as [n|]; cbn [item_source].
  - exists (js "{@:" ++ d ++ 58 :: n ++ [125]). split; [done|]. destruct Hn as [_ Hn]. apply number_dollar_free in Hn.
    unfold dollar_free in *. rewrite !elem_of_app, elem_of_cons, elem_of_app, list_elem_of_singleton. change (js "{@:") with [123; 64; 58].
    rewrite !elem_of_cons, elem_of_nil. naive_solver lia.
  - exists (js "{@:" ++ d ++ [125]). split; [done|]. unfold dollar_free in *. change (js "{@:") with [123; 64; 58].
    rewrite !elem_of_app, !elem_of_cons, elem_of_nil. naive_solver lia.
Qed.

Lemma arguments_tail : dollar_free (js "ARGUMENTS").
Proof using. unfold dollar_free. change (js "ARGUMENTS") with [65; 82; 71; 85; 77; 69; 78; 84; 83]. rewrite !elem_of_cons, elem_of_nil. naive_solver lia. Qed.

Lemma at_tail : dollar_free (js "@").
Proof using. unfold dollar_free. change (js "@") with [64]. rewrite elem_of_cons, elem_of_nil. naive_solver lia. Qed.

Section Passes.
Context {A : Type} (matcher : jstring -> option (A * jstring)) (replacement : jstring -> A -> jstring -> jstring -> jstring).
Context (dollar : forall s, head s <> Some 36 -> matcher s = None) (alone : forall s, inert_next s -> matcher (36 :: s) = None).

Lemma miss (out : item -> jstring) i rest :
  out i = item_source i -> (exists tl, item_source i = 36 :: tl /\ dollar_free tl) -> matcher (item_source i ++ rest) = None ->
  pass_item matcher replacement out i rest.
Proof using dollar. intros Ho (tl & Ht & Hd) Hm. right. split; [|done]. rewrite Ht in *. by apply missed_dollar. Qed.

Lemma miss_text out text rest : out (I_text text) = text -> inert (is_final rest) text -> pass_item matcher replacement out (I_text text) (source rest).
Proof using dollar alone. intros Ho Hi. right. split; [|done]. eapply missed_inert; [done|done|exact Hi|apply final_source]. Qed.

Lemma miss_arguments out rest : out I_arguments = js "$ARGUMENTS" -> matcher (js "$ARGUMENTS" ++ rest) = None -> pass_item matcher replacement out I_arguments rest.
Proof using dollar. intros Ho Hm. apply miss; [done|by exists (js "ARGUMENTS"); split; [|apply arguments_tail]|done]. Qed.

Lemma miss_at out rest : out I_at = js "$@" -> matcher (js "$@" ++ rest) = None -> pass_item matcher replacement out I_at rest.
Proof using dollar. intros Ho Hm. apply miss; [done|by exists (js "@"); split; [|apply at_tail]|done]. Qed.

(** A later pass, from what it does to the placeholders. *)
Lemma later_pass (step : item -> item) items : no_positions items -> (forall text, step (I_text text) = I_text text) ->
  (forall i rest, match i with I_slice d n => number_text d /\ match n with Some n => number_text n | None => True end | I_arguments | I_at => True | _ => False end ->
    pass_item matcher replacement (item_source ∘ step) i rest) ->
  pass_items matcher replacement (item_source ∘ step) items.
Proof using dollar alone.
  intros Hf Ht Hi. induction items as [|i items IH]; [done|]. destruct Hf as [Hn Hf]. split; [|by apply IH].
  destruct i as [text|d|d n| | |]; try done; [apply miss_text; [cbn; by rewrite Ht|done]|by apply Hi..].
Qed.
End Passes.

Lemma first_pass items : template_ok items -> Forall not_default items ->
  pass_items Harness.match_position (fun _ n _ _ => default [] (positional args n)) (item_source ∘ pass1 args) items /\ no_positions (pass1 args <$> items).
Proof using free.
  induction items as [|i items IH]; [done|]. intros [Hi Hr] Hf. apply Forall_cons in Hf as [Hn Hf]. destruct (IH Hr Hf) as [IH1 IH2].
  assert (Hfin : is_final (pass1 args <$> items) = is_final items) by (by destruct items).
  split; (split; [|done]); destruct i as [text|d|d n| | |]; try done.
  - apply miss_text; [apply match_position_dollar|apply match_position_alone|done|done].
  - left. exists (number_value d). destruct Hi. split_and!; [by apply digits_of_number|done|]. intros _ _. cbn. by rewrite nth_arg_positional.
  - destruct Hi as [Hd Hn']. apply miss; [apply match_position_dollar|done|by apply slice_source_tail|by destruct n].
  - apply miss_arguments; [apply match_position_dollar|done|done].
  - apply miss_at; [apply match_position_dollar|done|done].
  - change (inert (is_final (pass1 args <$> items)) text). by rewrite Hfin.
  - apply inert_free. by apply (item_value_free (I_position d)).
Qed.

Lemma step_no_positions (step : item -> item) items : (forall i, step i = i \/ step i = I_text (item_value args i) /\ match i with I_text _ | I_default _ _ => False | _ => True end) ->
  no_positions items -> no_positions (step <$> items).
Proof using free.
  intros Hs. induction items as [|i items IH]; [done|]. intros [Hi Hr]. cbn [fmap list_fmap]. split; [|by apply IH].
  destruct (Hs i) as [->|[-> Hk]]; [|by apply inert_free, item_value_free]. assert (Hfin : is_final (step <$> items) = is_final items) by (by destruct items).
  destruct i; try done. by rewrite Hfin.
Qed.

Lemma second_pass i rest : match i with I_slice d n => number_text d /\ match n with Some n => number_text n | None => True end | I_arguments | I_at => True | _ => False end ->
  pass_item match_slice (fun _ '(start, n) _ _ => sliced args start n) (item_source ∘ pass2 args) i rest.
Proof using.
  destruct i as [text|d|d n| | |]; intros Hi; try done.
  - destruct Hi as [Hd Hn]. left. exists (number_value d, number_value <$> n). split_and!; [by apply slice_found|by destruct n|intros _ _; apply sliced_args].
  - apply miss_arguments; [apply match_slice_dollar|done|done].
  - apply miss_at; [apply match_slice_dollar|done|done].
Qed.

Lemma word_pass i rest : match i with I_slice d n => number_text d /\ match n with Some n => number_text n | None => True end | I_arguments | I_at => True | _ => False end ->
  pass_item (Harness.match_word (js "$ARGUMENTS")) (fun before (_ : unit) matched after => expand_replacement before matched after (join [32] args)) (item_source ∘ pass3 args) i rest /\
  pass_item (Harness.match_word (js "$@")) (fun before (_ : unit) matched after => expand_replacement before matched after (join [32] args)) (item_source ∘ pass4 args) i rest.
Proof using free.
  pose proof (join_free args free) as Hj. pose proof (fun s => match_word_dollar (js "$ARGUMENTS") s eq_refl) as D1. pose proof (fun s => match_word_dollar (js "$@") s eq_refl) as D2.
  destruct i as [text|d|d n| | |]; intros Hi; try done.
  - destruct Hi as [Hd Hn]. split; (apply miss; [done|done|by apply slice_source_tail|by destruct n]).
  - split; [left; exists tt; split_and!; [done|done|intros; by apply expand_free]|by apply miss_arguments].
  - split; [by apply miss_at|]. left. exists tt. split_and!; [done|done|intros; by apply expand_free].
Qed.

Lemma all_passes i : not_default i -> item_source (pass4 args (pass3 args (pass2 args (pass1 args i)))) = item_value args i.
Proof using. by destruct i. Qed.

Lemma source_steps (step : item -> item) items : mjoin ((item_source ∘ step) <$> items) = source (step <$> items).
Proof using. unfold source. by rewrite list_fmap_compose. Qed.

Lemma harness_substitution items : template_ok items -> Forall not_default items -> Harness.substituteArgs (source items) args = values args items.
Proof using free.
  intros Hok Hn. unfold Harness.substituteArgs. destruct (first_pass items Hok Hn) as [H1 F1].
  assert (F2 : no_positions (pass2 args <$> (pass1 args <$> items))) by (apply step_no_positions; [intros []; auto|done]).
  assert (F3 : no_positions (pass3 args <$> (pass2 args <$> (pass1 args <$> items)))) by (apply step_no_positions; [intros []; auto|done]).
  rewrite (replace_all_items _ _ match_position_dollar _ _ H1), source_steps.
  rewrite (replace_all_items _ _ match_slice_dollar _ _ (later_pass _ _ match_slice_dollar match_slice_alone (pass2 args) _ F1 (fun _ => eq_refl) second_pass)), source_steps.
  rewrite (replace_all_items _ _ (fun s => match_word_dollar (js "$ARGUMENTS") s eq_refl) _ _ (later_pass _ _ (fun s => match_word_dollar (js "$ARGUMENTS") s eq_refl) match_arguments_alone
    (pass3 args) _ F2 (fun _ => eq_refl) (fun i rest Hi => proj1 (word_pass i rest Hi)))), source_steps.
  rewrite (replace_all_items _ _ (fun s => match_word_dollar (js "$@") s eq_refl) _ _ (later_pass _ _ (fun s => match_word_dollar (js "$@") s eq_refl) match_at_alone
    (pass4 args) _ F3 (fun _ => eq_refl) (fun i rest Hi => proj2 (word_pass i rest Hi)))), source_steps.
  unfold source, values. rewrite <- !list_fmap_compose. f_equal. apply list_fmap_ext. intros k i Hi. apply all_passes.
  rewrite Forall_lookup in Hn. by eapply Hn.
Qed.

End HarnessPasses.

(** C28: both versions replace the placeholders of a template by what they stand
    for: the [N]-th argument, all arguments, the arguments from the [N]-th on or
    [L] of them, and, in the coding agent, a default where that is missing or empty.
    The coding agent does so whatever the arguments contain, placeholders included,
    and the harness, which has no defaults, when the arguments contain no dollar
    sign.  The text of the template may hold dollar signs that stand for themselves:
    not before a digit, an opening brace, [@], [A] or a placeholder. *)
Theorem template_substitution items args :
  template_ok items ->
  CodingAgent.substituteArgs (source items) args = values args items /\
  (Forall not_default items -> Forall dollar_free args -> Harness.substituteArgs (source items) args = values args items).
Proof.
  intros Hok. split; [|by intros Hn Hf; apply harness_substitution].
  apply (replace_all_items _ _ match_placeholder_dollar), coding_agent_pass, Hok.
Qed.

Definition review_template : list item :=
  [I_text (js "Review "); I_position (js "1"); I_text (js " for $$x: "); I_slice (js "2") (Some (js "1")); I_text (js " of "); I_at].

Definition default_template : list item := review_template ++ [I_text (js " in "); I_default T_arguments (js "all"); I_default (T_position (js "3")) (js "!"); I_text (js " $")].

(** A literal text is inert when it evaluates so. *)
Lemma inert_text final text : (fix check t := match t with
    | [] => true
    | u :: r => (if u =? 36 then match r with [] => final | v :: _ => negb (digit v) && negb (v =? 123) && negb (v =? 64) && negb (v =? 65) end else true) && check r
    end) text = true -> inert final text.
Proof.
  induction text as [|u text IH]; [done|]. rewrite andb_true_iff. intros [Hu Ht]. split; [|by apply IH]. intros ->. cbn in Hu. destruct text as [|v text]; [done|].
  rewrite !andb_true_iff, !negb_true_iff, !Z.eqb_neq in Hu. split; [cbn; tauto|done].
Qed.

Ltac template_done := repeat split; try (discriminate || (apply inert_text; vm_compute; reflexivity) || (apply (bool_decide_unpack _); vm_compute; exact I)).

Lemma template_substitution_witness :
  source default_template = js "Review $1 for $$x: ${@:2:1} of $@ in ${ARGUMENTS:-all}${3:-!} $" /\
  CodingAgent.substituteArgs (source default_template) [js "$2"; js "x"] = js "Review $2 for $$x: x of $2 x in $2 x! $" /\
  Harness.substituteArgs (source review_template) [js "a"; js "b"] = js "Review a for $$x: b of a b".
Proof.
  split; [vm_compute; reflexivity|]. split.
  - rewrite (proj1 (template_substitution default_template [js "$2"; js "x"] ltac:(template_done))). vm_compute. reflexivity.
  - rewrite (proj2 (template_substitution review_template [js "a"; js "b"] ltac:(template_done))); [vm_compute; reflexivity|by repeat constructor|].
    unfold dollar_free. apply (bool_decide_unpack _). vm_compute. exact I.
Defined.

(** An argument that looks like a placeholder is replaced again by the harness,
    and a pair of dollar signs loses one. *)
Example harness_substitutes_arguments :
  Harness.substituteArgs (js "$1") [js "$@"; js "b"] = js "$@ b" /\
  Harness.substituteArgs (js "$ARGUMENTS") [js "costs $$5"] = js "costs $5".
Proof. split; vm_compute; reflexivity. Qed.

(** ** Commands *)

(** Every character in quotes: a double quote in single ones, others in double
    ones. *)
Definition quote_arg (arg : jstring) : jstring := mjoin ((fun u => if u =? 34 then [39; 34; 39] else [34; u; 34]) <$> arg).

Definition quoted_args (args : list jstring) : jstring := mjoin ((fun arg => 32 :: quote_arg arg) <$> args).

Lemma quote_arg_cons u arg : quote_arg (u :: arg) = (if u =? 34 then [39; 34; 39] else [34; u; 34]) ++ quote_arg arg.
Proof. done. Qed.

Lemma quoted_args_cons arg args : quoted_args (arg :: args) = 32 :: quote_arg arg ++ quoted_args args.
Proof. done. Qed.

Section Quoting.
Context (separator : Z -> bool) (space : separator 32 = true).

Lemma parse_quoted arg : forall args current rest,
  parse_args separator args current None (quote_arg arg ++ rest) = parse_args separator args (current ++ arg) None rest.
Proof using.
  induction arg as [|u arg IH]; intros args current rest; [cbn; by rewrite app_nil_r|].
  rewrite quote_arg_cons, <- app_assoc. replace (current ++ u :: arg) with ((current ++ [u]) ++ arg) by (by rewrite <- app_assoc).
  rewrite <- IH. destruct (Z.eqb_spec u 34) as [->|Hu]; [done|]. cbn. destruct (Z.eqb_spec u 34); done.
Qed.

Lemma parse_quoted_args args : Forall (fun arg => arg <> []) args -> forall parsed current,
  parse_args separator parsed current None (quoted_args args) = push_argument parsed current ++ args.
Proof using space.
  induction 1 as [|arg args Hne _ IH]; intros parsed current; [cbn; by rewrite app_nil_r|].
  rewrite quoted_args_cons. cbn [parse_args]. change ((32 =? 34) || (32 =? 39)) with false. cbn iota. rewrite space.
  rewrite parse_quoted, IH. cbn [app]. destruct arg as [|u arg]; [done|]. cbn [push_argument]. by rewrite <- app_assoc.
Qed.

End Quoting.

Lemma parse_after_space separator args : separator 32 = true -> parse_args separator [] [] None (32 :: args) = parse_args separator [] [] None args.
Proof. intros Hs. cbn. by rewrite Hs. Qed.

Lemma span_word_app name rest : Forall (fun u => is_white_space u = false) name ->
  match rest with u :: _ => is_white_space u = true | [] => True end -> CodingAgent.span_word (name ++ rest) = (name, rest).
Proof.
  induction 1 as [|u name Hu _ IH]; intros Hr.
  - destruct rest as [|u rest]; [done|]. cbn. by rewrite Hr.
  - cbn. by rewrite Hu, IH.
Qed.

Lemma trimStart_quoted args : Forall (fun arg => arg <> []) args ->
  CodingAgent.parseCommandArgs (trimStart (quoted_args args)) = args.
Proof.
  intros Hne. destruct args as [|arg args]; [done|]. pose proof Hne as Ha. apply Forall_inv in Ha. rewrite quoted_args_cons.
  assert (Ht : trimStart (32 :: quote_arg arg ++ quoted_args args) = quote_arg arg ++ quoted_args args).
  { destruct arg as [|u arg]; [done|]. rewrite quote_arg_cons. by destruct (u =? 34). }
  rewrite Ht. unfold CodingAgent.parseCommandArgs. rewrite <- parse_after_space by done. rewrite <- quoted_args_cons.
  by rewrite parse_quoted_args.
Qed.

(** a command with the name of a template and quoted arguments expands to the
    template with exactly these arguments, whatever characters they contain; and
    the harness reads the same arguments. *)
Theorem command_expansion templates template name args :
  name <> [] -> Forall (fun u => is_white_space u = false) name -> Forall (fun arg => arg <> []) args ->
  List.find (fun t => bool_decide (CodingAgent.cp_name t = name)) templates = Some template ->
  CodingAgent.expandPromptTemplate (47 :: name ++ quoted_args args) templates = CodingAgent.substituteArgs (CodingAgent.cp_content template) args /\
  Harness.parseCommandArgs (quoted_args args) = args.
Proof.
  intros Hn Hw Ha Ht. split; [|by apply (parse_quoted_args _ eq_refl args Ha [] [])].
  unfold CodingAgent.expandPromptTemplate, CodingAgent.match_command. rewrite span_word_app; [|done|by destruct args].
  destruct name as [|u name]; [done|]. by rewrite Ht, trimStart_quoted.
Qed.

Lemma command_expansion_witness :
  let template := {| CodingAgent.cp_name := js "fix"; CodingAgent.cp_content := js "Fix $1 in ${2:-all files}" |} in
  CodingAgent.expandPromptTemplate (47 :: js "fix" ++ quoted_args [js "it's"; js "a b"]) [template] = js "Fix it's in a b" /\
  Harness.parseCommandArgs (quoted_args [js "it's"; js "a b"]) = [js "it's"; js "a b"].
Proof.
  intros template. apply (command_expansion [template] template (js "fix") [js "it's"; js "a b"]).
  - discriminate.
  - repeat (apply Forall_cons_2; [reflexivity|]). apply Forall_nil_2.
  - repeat (apply Forall_cons_2; [discriminate|]). apply Forall_nil_2.
  - vm_compute. reflexivity.
Defined.

(** Empty arguments are dropped even in quotes. *)
Example empty_argument_dropped :
  CodingAgent.parseCommandArgs [39; 39; 32; 120] = [[120]] /\ Harness.parseCommandArgs [39; 39; 32; 120] = [[120]].
Proof. split; vm_compute; reflexivity. Qed.
