(* ===== verification/StackLayout.v ===== *)
(** * Sizes of stacked components

    packages/tui/src/components/stack.ts: the sizes of the entries of a stack are
    their intrinsic or given sizes, grown or shrunk by weights until they fill
    the space that is available.  Sizes, weights and gaps are integers without
    bound: [addChild] truncates the sizes and the weights but not the basis, so
    a basis that is a fraction or NaN, and sums beyond the range of a double, are
    outside the model; [None] is [undefined].  A pass over the
    candidates of a round is a pass over the entries that skips the others. *)

From stdpp Require Import base list.
From Stdlib Require Import ZArith Lia.
From S2P Require Import Prelude Numbers.

Open Scope Z_scope.

(** [se_basis]: [None] when it is undefined or auto. *)
Record StackLayoutEntry := {
  se_basis : option Z;
  se_grow : option Z;
  se_shrink : option Z;
  se_minSize : option Z;
  se_maxSize : option Z;
}.

(** [normalizeSize] of an integer, and the entry that [addChild] makes. *)
Definition normalizeSize (value : option Z) (fallback : Z) : Z := match value with Some v => Z.max 0 v | None => fallback end.

Definition addChild_entry (options : StackLayoutEntry) : StackLayoutEntry :=
  {| se_basis := se_basis options;
     se_grow := (fun v => normalizeSize (Some v) 0) <$> se_grow options;
     se_shrink := (fun v => normalizeSize (Some v) 1) <$> se_shrink options;
     se_minSize := (fun v => normalizeSize (Some v) 0) <$> se_minSize options;
     se_maxSize := (fun v => normalizeSize (Some v) MAX_SAFE_INTEGER) <$> se_maxSize options |}.

Definition min_size (entry : StackLayoutEntry) : Z := default 0 (se_minSize entry).
Definition max_size (entry : StackLayoutEntry) : Z := default MAX_SAFE_INTEGER (se_maxSize entry).

Definition clampSize (size : Z) (entry : StackLayoutEntry) : Z :=
  let min := Z.max 0 (min_size entry) in
  let max := Z.max min (max_size entry) in
  Z.max min (Z.min max (Z.max 0 size)).

Inductive Mode := Grow | Shrink.

Definition candidate (mode : Mode) (entry : StackLayoutEntry) (size : Z) : bool :=
  match mode with
  | Grow => (0 <? default 0 (se_grow entry)) && (size <? max_size entry)
  | Shrink => (0 <? default 1 (se_shrink entry)) && (min_size entry <? size)
  end.

Definition weight (mode : Mode) (entry : StackLayoutEntry) (size : Z) : Z :=
  match mode with Grow => default 0 (se_grow entry) | Shrink => default 1 (se_shrink entry) * Z.max 1 size end.

Definition capacity (mode : Mode) (entry : StackLayoutEntry) (size : Z) : Z :=
  match mode with Grow => max_size entry - size | Shrink => size - min_size entry end.

Definition resize (mode : Mode) (size delta : Z) : Z := match mode with Grow => size + delta | Shrink => size - delta end.

Section Distribute.
Context (mode : Mode).

Fixpoint total_weight (items : list (StackLayoutEntry * Z)) : Z :=
  match items with
  | [] => 0
  | (entry, size) :: rest => (if candidate mode entry size then weight mode entry size else 0) + total_weight rest
  end.

(** One round: what is left to distribute, and the items. *)
Fixpoint round (totalWeight remaining : Z) (items : list (StackLayoutEntry * Z)) : Z * list (StackLayoutEntry * Z) :=
  match items with
  | [] => (remaining, [])
  | (entry, size) :: rest =>
      if candidate mode entry size && (0 <? remaining) then
        let proposed := Z.max 1 (remaining * weight mode entry size / totalWeight) in
        let delta := Z.min remaining (Z.min proposed (capacity mode entry size)) in
        if delta <=? 0 then let '(unspent, rest) := round totalWeight remaining rest in (unspent, (entry, size) :: rest)
        else let '(unspent, rest) := round totalWeight (remaining - delta) rest in (unspent, (entry, resize mode size delta) :: rest)
      else let '(unspent, rest) := round totalWeight remaining rest in (unspent, (entry, size) :: rest)
  end.

(** The rounds; one that distributes nothing is the last.  Every other one takes
    at least 1 from what remains. *)
Fixpoint distribute (fuel : nat) (remaining : Z) (items : list (StackLayoutEntry * Z)) : list (StackLayoutEntry * Z) :=
  match fuel with
  | O => items
  | S fuel =>
      if remaining <=? 0 then items
      else if negb (existsb (fun '(entry, size) => candidate mode entry size) items) then items
      else
        let '(unspent, items') := round (total_weight items) remaining items in
        if unspent =? remaining then items' else distribute fuel unspent items'
  end.

End Distribute.

Definition sum (sizes : list Z) : Z := foldr Z.add 0 sizes.

Definition allocateStackSizes (entries : list StackLayoutEntry) (intrinsicSizes : list Z) (availableSize : option Z) (gap : Z) : list Z :=
  let sizes := imap (fun index entry => clampSize (default (default 0 (intrinsicSizes !! index)) (se_basis entry)) entry) entries in
  match availableSize with
  | None => sizes
  | Some availableSize =>
      let contentSize := Z.max 0 (availableSize - Z.max 0 (Z.of_nat (length entries) - 1) * gap) in
      let total := sum sizes in
      if total <? contentSize then (distribute Grow (Z.to_nat (contentSize - total)) (contentSize - total) (zip entries sizes)).*2
      else if contentSize <? total then (distribute Shrink (Z.to_nat (total - contentSize)) (total - contentSize) (zip entries sizes)).*2
      else sizes
  end.

(** ** Sizes fill the space *)

Definition items_sum (items : list (StackLayoutEntry * Z)) : Z := sum items.*2.

(** A size between its bounds; the upper one counts only if it is not below the
    lower one. *)
Definition in_bounds (entry : StackLayoutEntry) (size : Z) : Prop := min_size entry <= size <= Z.max (min_size entry) (max_size entry).

Lemma clamp_in_bounds size entry : 0 <= min_size entry -> in_bounds entry (clampSize size entry).
Proof. unfold in_bounds, clampSize. lia. Qed.

Lemma items_sum_cons entry size items : items_sum ((entry, size) :: items) = size + items_sum items.
Proof. done. Qed.

Section Rounds.
Context (mode : Mode).

Lemma candidate_capacity entry size : candidate mode entry size = true -> 0 < capacity mode entry size.
Proof using. unfold candidate, capacity. destruct mode; intros [_ H]%andb_true_iff; lia. Qed.

(** A round keeps the entries, their bounds and the balance of sizes and rest. *)
Lemma round_spec totalWeight items : forall remaining, 0 <= remaining -> Forall (fun '(entry, size) => in_bounds entry size) items ->
  let '(unspent, items') := round mode totalWeight remaining items in
  0 <= unspent <= remaining /\ items'.*1 = items.*1 /\ Forall (fun '(entry, size) => in_bounds entry size) items' /\
  items_sum items' = resize mode (items_sum items) (remaining - unspent) /\
  (existsb (fun '(entry, size) => candidate mode entry size) items = true -> 0 < remaining -> unspent < remaining).
Proof using.
  induction items as [|[entry size] items IH]; intros remaining Hr Hb; cbn [round].
  { split_and!; [lia|lia|done|done|unfold items_sum, resize; destruct mode; cbn; lia|done]. }
  apply Forall_cons in Hb as [Hb Hbs]. cbn in Hb.
  assert (Hskip : let '(unspent, rest) := round mode totalWeight remaining items in
    0 <= unspent <= remaining /\ ((entry, size) :: rest).*1 = ((entry, size) :: items).*1 /\
    Forall (fun '(entry, size) => in_bounds entry size) ((entry, size) :: rest) /\
    items_sum ((entry, size) :: rest) = resize mode (items_sum ((entry, size) :: items)) (remaining - unspent) /\
    (existsb (fun '(entry, size) => candidate mode entry size) items = true -> 0 < remaining -> unspent < remaining)).
  { specialize (IH remaining Hr Hbs). destruct (round mode totalWeight remaining items) as [unspent rest]. destruct IH as (H1 & H2 & H3 & H4 & H5).
    split_and!; [lia|lia|cbn; by f_equal|by constructor| |done]. rewrite !items_sum_cons, H4. unfold resize. destruct mode; lia. }
  cbn [existsb]. destruct (candidate mode entry size) eqn:Hc; cbn [andb orb].
  2: { destruct (round mode totalWeight remaining items) as [unspent rest]. exact Hskip. }
  destruct (Z.ltb_spec 0 remaining) as [Hp|Hp].
  2: { destruct (round mode totalWeight remaining items) as [unspent rest]. destruct Hskip as (H1 & H2 & H3 & H4 & H5). split_and!; [lia|lia|exact H2|exact H3|exact H4|intros; lia]. }
  pose proof (candidate_capacity entry size Hc) as Hcap. set (delta := Z.min remaining _). assert (Hd : 0 < delta <= remaining /\ delta <= capacity mode entry size) by lia.
  destruct (Z.leb_spec delta 0); [lia|]. specialize (IH (remaining - delta) ltac:(lia) Hbs).
  destruct (round mode totalWeight (remaining - delta) items) as [unspent rest]. destruct IH as (H1 & H2 & H3 & H4 & H5).
  split_and!; [lia|lia|cbn; by f_equal| | |intros; lia].
  - constructor; [|done]. unfold in_bounds, capacity, resize in *. destruct mode; lia.
  - rewrite !items_sum_cons, H4. unfold resize. destruct mode; lia.
Qed.

(** Distribution ends: either everything is distributed, or no entry can take more. *)
Lemma distribute_spec fuel : forall remaining items, 0 <= remaining <= Z.of_nat fuel -> Forall (fun '(entry, size) => in_bounds entry size) items ->
  let items' := distribute mode fuel remaining items in
  items'.*1 = items.*1 /\ Forall (fun '(entry, size) => in_bounds entry size) items' /\
  exists unspent, 0 <= unspent <= remaining /\ items_sum items' = resize mode (items_sum items) (remaining - unspent) /\
    (unspent = 0 \/ Forall (fun '(entry, size) => candidate mode entry size = false) items').
Proof using.
  induction fuel as [|fuel IH]; intros remaining items Hr Hb; cbn [distribute].
  { split_and!; [done|done|]. exists 0. assert (remaining = 0) as -> by lia. unfold resize. split_and!; [lia|lia|destruct mode; lia|by left]. }
  destruct (Z.leb_spec remaining 0) as [Hz|Hz].
  { split_and!; [done|done|]. exists 0. assert (remaining = 0) as -> by lia. unfold resize. split_and!; [lia|lia|destruct mode; lia|by left]. }
  destruct (existsb (fun '(entry, size) => candidate mode entry size) items) eqn:Hc; cbn [negb].
  2: { split_and!; [done|done|]. exists remaining. unfold resize. split_and!; [lia|lia|destruct mode; lia|right].
       apply Forall_forall. intros [entry size] Hin. destruct (candidate mode entry size) eqn:E; [|done].
       rewrite <- Hc. symmetry. apply existsb_exists. exists (entry, size). split; [by apply list_elem_of_In|done]. }
  pose proof (round_spec (total_weight mode items) items remaining ltac:(lia) Hb) as Hround.
  destruct (round mode (total_weight mode items) remaining items) as [unspent items1]. destruct Hround as (H1 & H2 & H3 & H4 & H5).
  specialize (H5 Hc ltac:(lia)). destruct (Z.eqb_spec unspent remaining) as [|_]; [lia|].
  destruct (IH unspent items1 ltac:(lia) H3) as (I1 & I2 & unspent2 & I3 & I4 & I5). split_and!; [congruence|done|]. exists unspent2.
  split_and!; [lia|lia| |done]. rewrite I4, H4. unfold resize. destruct mode; lia.
Qed.

End Rounds.

Lemma sum_zip_snd (entries : list StackLayoutEntry) (sizes : list Z) : length sizes = length entries -> (zip entries sizes).*2 = sizes.
Proof. intros Hl. apply snd_zip. lia. Qed.

Lemma initial_in_bounds entries (intrinsicSizes : list Z) : Forall (fun entry => 0 <= min_size entry) entries ->
  Forall (fun '(entry, size) => in_bounds entry size)
    (zip entries (imap (fun index entry => clampSize (default (default 0 (intrinsicSizes !! index)) (se_basis entry)) entry) entries)).
Proof.
  intros Hmin. apply Forall_lookup. intros k [entry size] Hk. apply lookup_zip_with_Some in Hk as (e & z & He & Hz & Hk). injection He as -> ->.
  rewrite list_lookup_imap, Hz in Hk. injection Hk as <-. apply clamp_in_bounds. rewrite Forall_lookup in Hmin. by eapply Hmin.
Qed.

(** Nothing can change any more in a mode. *)
Definition exhausted (mode : Mode) (entries : list StackLayoutEntry) (sizes : list Z) : Prop :=
  Forall (fun '(entry, size) => candidate mode entry size = false) (zip entries sizes).

Lemma zip_fst_snd {A B} (items : list (A * B)) : zip items.*1 items.*2 = items.
Proof. induction items as [|[a b] items IH]; [done|]. cbn. by rewrite IH. Qed.

(** C29: the sizes of a stack lie between the bounds of their entries; and when the
    space is given, they fill it exactly, or it is too large and every entry that
    may grow is at its maximum, or it is too small and every entry that may shrink
    is at its minimum. *)
Theorem stack_fills_space entries intrinsicSizes availableSize gap :
  Forall (fun entry => 0 <= min_size entry) entries ->
  let sizes := allocateStackSizes entries intrinsicSizes (Some availableSize) gap in
  let contentSize := Z.max 0 (availableSize - Z.max 0 (Z.of_nat (length entries) - 1) * gap) in
  length sizes = length entries /\ Forall (fun '(entry, size) => in_bounds entry size) (zip entries sizes) /\
  (sum sizes = contentSize \/ (sum sizes < contentSize /\ exhausted Grow entries sizes) \/ (contentSize < sum sizes /\ exhausted Shrink entries sizes)).
Proof.
  intros Hmin. cbn zeta. unfold allocateStackSizes. set (sizes := imap _ entries). set (contentSize := Z.max 0 _).
  pose proof (initial_in_bounds entries intrinsicSizes Hmin) as Hb. fold sizes in Hb.
  assert (Hl : length sizes = length entries) by (unfold sizes; by rewrite length_imap).
  assert (Hsum : items_sum (zip entries sizes) = sum sizes) by (unfold items_sum; by rewrite sum_zip_snd).
  assert (Hdone : forall mode amount, 0 <= amount -> let items := distribute mode (Z.to_nat amount) amount (zip entries sizes) in
    length items.*2 = length entries /\ zip entries items.*2 = items /\ Forall (fun '(entry, size) => in_bounds entry size) items /\
    exists unspent, 0 <= unspent <= amount /\ sum items.*2 = resize mode (sum sizes) (amount - unspent) /\
      (unspent = 0 \/ exhausted mode entries items.*2)).
  { intros mode amount Ha items. destruct (distribute_spec mode (Z.to_nat amount) amount (zip entries sizes) ltac:(lia) Hb) as (H1 & H2 & u & H3 & H4 & H5).
    fold items in H1, H2, H4, H5. rewrite fst_zip in H1 by lia. assert (Hz : zip entries items.*2 = items) by (rewrite <- H1; apply zip_fst_snd).
    split_and!; [rewrite length_fmap; rewrite <- H1; by rewrite length_fmap|done|done|]. exists u. unfold exhausted. rewrite Hz, <- Hsum. done. }
  destruct (Z.ltb_spec (sum sizes) contentSize) as [Hg|Hg]; [|destruct (Z.ltb_spec contentSize (sum sizes)) as [Hs|Hs]].
  - destruct (Hdone Grow (contentSize - sum sizes) ltac:(lia)) as (H1 & H2 & H3 & u & H4 & H5 & H6). split_and!; [done|by rewrite H2|].
    rewrite H5 in *. unfold resize. destruct H6 as [->|H6]; [left; lia|]. destruct (decide (u = 0)) as [->|]; [left; lia|right; left; split; [lia|done]].
  - destruct (Hdone Shrink (sum sizes - contentSize) ltac:(lia)) as (H1 & H2 & H3 & u & H4 & H5 & H6). split_and!; [done|by rewrite H2|].
    rewrite H5 in *. unfold resize. destruct H6 as [->|H6]; [left; lia|]. destruct (decide (u = 0)) as [->|]; [left; lia|right; right; split; [lia|done]].
  - split_and!; [done|done|left; lia].
Qed.

Lemma stack_fills_space_witness :
  let entry grow min max := addChild_entry {| se_basis := None; se_grow := grow; se_shrink := None; se_minSize := min; se_maxSize := max |} in
  let entries := [entry (Some 1) None None; entry None (Some 3) None; entry (Some 2) None (Some 9)] in
  let sizes := allocateStackSizes entries [4; 2; 4] (Some 30) 1 in
  sizes = [16; 3; 9] /\ length sizes = length entries /\ Forall (fun '(entry, size) => in_bounds entry size) (zip entries sizes) /\
  (sum sizes = 28 \/ (sum sizes < 28 /\ exhausted Grow entries sizes) \/ (28 < sum sizes /\ exhausted Shrink entries sizes)).
Proof.
  intros entry entries sizes. split; [vm_compute; reflexivity|]. apply (stack_fills_space entries [4; 2; 4] 30 1).
  repeat (apply Forall_cons_2; [vm_compute; discriminate|]). apply Forall_nil_2.
Defined.
