(* ===== verification/LiveSessions.v ===== *)
(** * The session table of the server

    [LiveSessionManager] of packages/server/src/sessions.ts.  Commands of many
    connections run at the same time and meet at their awaits.  A task is where a
    command waits; an event is a command that arrives or something that a task
    waits for, and [exec] is the code up to the next awaits.  Any sequence of
    events that [exec] accepts is a run.

    Live sessions and connections are objects, known by their numbers.  The
    runtime, the transport and the service are the environment: runtimes change
    their phase and report at any time, acquiring, snapshots and operations may
    fail, and connections may be lost.  Snapshots themselves, which are only
    sent, are left out, and so is [ready], which is set when a session enters the
    table; [ls_disposes] counts the calls of [runtime.dispose].
    Continuations of one promise run one after the other when it settles, so
    those who wait for an opening session get it in one event.  Whether the server
    is closing is asked when a runtime has been acquired and not again when its
    first snapshot arrives, so [E_created] may happen in a closing server, and the
    refusal is an [E_create_failed].  What [close] itself disposes is left out. *)

From stdpp Require Import base list strings pretty.
From Stdlib Require Import ZArith Lia.
From S2P Require Import Prelude.

Open Scope Z_scope.

Inductive Disposal := Disposing | Disposed.

#[export] Instance disposal_eq : EqDecision Disposal.
Proof. solve_decision. Defined.

Record LiveSession := {
  ls_id : jstring;
  ls_connections : list nat;
  ls_subscribed : bool;
  ls_operationCount : Z;
  ls_stateRevision : Z;
  ls_terminal : bool;
  ls_disposing : option Disposal;
  ls_idle : bool;
  ls_disposes : nat;
}.

(** [cn_open]: ready, not disconnected and its transport not closed. *)
Record Connection := { cn_sessionIds : list jstring; cn_open : bool }.

(** Where a command waits. *)
Inductive Task :=
| T_wait_dispose (conn : nat) (id : jstring) (live : nat)
| T_wait_open (conn : nat) (id : jstring)
| T_creating (conn : nat) (id : jstring)
| T_snapshot (conn live : nat) (revision : Z)
| T_operation (live : nat)
| T_maybe_dispose (live : nat)
| T_terminating (live : nat) (connections : list nat)
| T_removing (live : nat) (connections : list nat)
| T_remove_wait (live : nat)
| T_remove_dispose (live : nat)
| T_done.

#[export] Instance task_eq : EqDecision Task.
Proof. solve_decision. Defined.

Record Manager := {
  m_lives : list LiveSession;
  m_liveSessions : list (jstring * nat);
  m_openingSessions : list (jstring * nat);
  m_connections : list Connection;
  m_tasks : list Task;
  m_closing : bool;
}.

Definition with_lives (s : Manager) (lives : list LiveSession) : Manager :=
  {| m_lives := lives; m_liveSessions := m_liveSessions s; m_openingSessions := m_openingSessions s; m_connections := m_connections s;
     m_tasks := m_tasks s; m_closing := m_closing s |}.
Definition with_tasks (s : Manager) (tasks : list Task) : Manager :=
  {| m_lives := m_lives s; m_liveSessions := m_liveSessions s; m_openingSessions := m_openingSessions s; m_connections := m_connections s;
     m_tasks := tasks; m_closing := m_closing s |}.
Definition with_connections (s : Manager) (connections : list Connection) : Manager :=
  {| m_lives := m_lives s; m_liveSessions := m_liveSessions s; m_openingSessions := m_openingSessions s; m_connections := connections;
     m_tasks := m_tasks s; m_closing := m_closing s |}.
Definition with_maps (s : Manager) (liveSessions openingSessions : list (jstring * nat)) : Manager :=
  {| m_lives := m_lives s; m_liveSessions := liveSessions; m_openingSessions := openingSessions; m_connections := m_connections s;
     m_tasks := m_tasks s; m_closing := m_closing s |}.

Definition update_live (s : Manager) (l : nat) (f : LiveSession -> LiveSession) : Manager := with_lives s (alter f l (m_lives s)).
Definition set_task (s : Manager) (t : nat) (task : Task) : Manager := with_tasks s (<[t := task]> (m_tasks s)).
Definition add_task (s : Manager) (task : Task) : Manager := with_tasks s (m_tasks s ++ [task]).

Definition with_count (live : LiveSession) (delta : Z) : LiveSession :=
  {| ls_id := ls_id live; ls_connections := ls_connections live; ls_subscribed := ls_subscribed live;
     ls_operationCount := ls_operationCount live + delta; ls_stateRevision := ls_stateRevision live; ls_terminal := ls_terminal live;
     ls_disposing := ls_disposing live; ls_idle := ls_idle live; ls_disposes := ls_disposes live |}.
Definition with_members (live : LiveSession) (connections : list nat) : LiveSession :=
  {| ls_id := ls_id live; ls_connections := connections; ls_subscribed := ls_subscribed live;
     ls_operationCount := ls_operationCount live; ls_stateRevision := ls_stateRevision live; ls_terminal := ls_terminal live;
     ls_disposing := ls_disposing live; ls_idle := ls_idle live; ls_disposes := ls_disposes live |}.
Definition with_runtime (live : LiveSession) (subscribed terminal idle : bool) (revision : Z) : LiveSession :=
  {| ls_id := ls_id live; ls_connections := ls_connections live; ls_subscribed := subscribed;
     ls_operationCount := ls_operationCount live; ls_stateRevision := revision; ls_terminal := terminal;
     ls_disposing := ls_disposing live; ls_idle := idle; ls_disposes := ls_disposes live |}.
Definition with_disposal (live : LiveSession) (disposing : option Disposal) (disposes : nat) : LiveSession :=
  {| ls_id := ls_id live; ls_connections := ls_connections live; ls_subscribed := false;
     ls_operationCount := ls_operationCount live; ls_stateRevision := ls_stateRevision live; ls_terminal := ls_terminal live;
     ls_disposing := disposing; ls_idle := ls_idle live; ls_disposes := disposes |}.

(** ** The parts between awaits *)

(** [maybeDispose] up to the call of [dispose]. *)
Definition disposable (closing : bool) (live : LiveSession) : bool :=
  negb (closing || bool_decide (ls_disposing live <> None) || bool_decide (ls_connections live <> []) || (0 <? ls_operationCount live)
        || (negb (ls_terminal live) && negb (ls_idle live))).

Definition maybeDispose (s : Manager) (l : nat) : Manager :=
  update_live s l (fun live => if disposable (m_closing s) live then with_disposal live (Some Disposing) (S (ls_disposes live)) else live).

(** The end of an operation or of an attachment: its [finally]. *)
Definition release (s : Manager) (t l : nat) : Manager := maybeDispose (set_task (update_live s l (fun live => with_count live (-1))) t T_done) l.

Definition place_task (s : Manager) (t : option nat) (task : Task) : Manager :=
  match t with Some t => set_task s t task | None => add_task s task end.

(** [acquire], from the start of its loop: the first time, or again after waiting
    in task [t]. *)
Definition acquire (s : Manager) (t : option nat) (conn : nat) (id : jstring) : Manager :=
  match map_get id (m_liveSessions s) ≫= (fun l => pair l <$> m_lives s !! l) with
  | Some (l, existing) =>
      if ls_terminal existing then place_task s t T_done
      else if bool_decide (ls_disposing existing <> None) then place_task s t (T_wait_dispose conn id l)
      else place_task (update_live s l (fun live => with_count live 1)) t (T_snapshot conn l (ls_stateRevision existing))
  | None =>
      match map_get id (m_openingSessions s) with
      | Some _ => place_task s t (T_wait_open conn id)
      | None =>
          let task := default (length (m_tasks s)) t in
          place_task (with_maps s (m_liveSessions s) (map_set id task (m_openingSessions s))) t (T_creating conn id)
      end
  end.

(** A waiting command gets the session [l] that has opened. *)
Definition opened (id : jstring) (l : nat) (task : Task) : Task :=
  match task with
  | T_wait_open conn id' => if bool_decide (id' = id) then T_snapshot conn l 0 else task
  | T_creating conn id' => if bool_decide (id' = id) then T_snapshot conn l 0 else task
  | _ => task
  end.

Definition waits_open (id : jstring) (task : Task) : bool := match task with T_wait_open _ id' => bool_decide (id' = id) | _ => false end.

(** [create] succeeds: the session is live, with the operation of its creator and
    those of the commands that wait for it. *)
Definition created (s : Manager) (id : jstring) (idle : bool) : Manager :=
  let l := length (m_lives s) in
  let live :=
    {| ls_id := id; ls_connections := []; ls_subscribed := true; ls_operationCount := 1 + Z.of_nat (length (List.filter (waits_open id) (m_tasks s)));
       ls_stateRevision := 0; ls_terminal := false; ls_disposing := None; ls_idle := idle; ls_disposes := O |} in
  {| m_lives := m_lives s ++ [live]; m_liveSessions := map_set id l (m_liveSessions s); m_openingSessions := map_delete id (m_openingSessions s);
     m_connections := m_connections s; m_tasks := opened id l <$> m_tasks s; m_closing := m_closing s |}.

(** [create] fails, and with it the commands that wait for it. *)
Definition failed (id : jstring) (task : Task) : Task :=
  match task with
  | T_wait_open _ id' | T_creating _ id' => if bool_decide (id' = id) then T_done else task
  | _ => task
  end.

Definition create_failed (s : Manager) (id : jstring) : Manager :=
  with_tasks (with_maps s (m_liveSessions s) (map_delete id (m_openingSessions s))) (failed id <$> m_tasks s).

Definition add_member {A} `{EqDecision A} (x : A) (l : list A) : list A := if bool_decide (x ∈ l) then l else l ++ [x].
Definition remove_member {A} `{EqDecision A} (x : A) (l : list A) : list A := filter (fun y => y <> x) l.

(** [attach], after the snapshot of the current revision; a closed connection is an
    error. *)
Definition attach (s : Manager) (conn l : nat) : Manager :=
  match m_connections s !! conn, m_lives s !! l with
  | Some connection, Some live =>
      if cn_open connection then
        update_live (with_connections s (<[conn := {| cn_sessionIds := add_member (ls_id live) (cn_sessionIds connection); cn_open := true |}]> (m_connections s)))
          l (fun live => with_members live (add_member conn (ls_connections live)))
      else s
  | _, _ => s
  end.

(** [detach]; the snapshot is broadcast to those who stay before the last check. *)
Definition detach (s : Manager) (conn : nat) (id : jstring) : Manager :=
  match m_connections s !! conn with
  | Some connection =>
      if bool_decide (id ∈ cn_sessionIds connection) then
        let s := with_connections s (<[conn := {| cn_sessionIds := remove_member id (cn_sessionIds connection); cn_open := cn_open connection |}]> (m_connections s)) in
        match map_get id (m_liveSessions s) ≫= (fun l => pair l <$> m_lives s !! l) with
        | Some (l, live) =>
            let connections := remove_member conn (ls_connections live) in
            let s := update_live s l (fun live => with_members live (remove_member conn (ls_connections live))) in
            if bool_decide (connections <> []) && negb (ls_terminal live) && bool_decide (ls_disposing live = None)
            then add_task s (T_maybe_dispose l) else maybeDispose s l
        | None => s
        end
      else s
  | None => s
  end.

(** [disconnect] of the server and of the manager. *)
Definition disconnect (s : Manager) (conn : nat) : Manager :=
  match m_connections s !! conn with
  | Some connection =>
      let sessions := omap (fun id => map_get id (m_liveSessions s)) (cn_sessionIds connection) in
      let s := with_connections s (<[conn := {| cn_sessionIds := []; cn_open := false |}]> (m_connections s)) in
      let s := foldl (fun s l => update_live s l (fun live => with_members live (remove_member conn (ls_connections live)))) s sessions in
      foldl maybeDispose s sessions
  | None => s
  end.

(** [requireAttached] and the start of [runOperation]. *)
Definition operation (s : Manager) (conn : nat) (id : jstring) : option Manager :=
  connection ← m_connections s !! conn;
  if negb (bool_decide (id ∈ cn_sessionIds connection)) then None
  else
    l ← map_get id (m_liveSessions s); live ← m_lives s !! l;
    if ls_terminal live || bool_decide (ls_disposing live <> None) then None
    else Some (add_task (update_live s l (fun live => with_count live 1)) (T_operation l)).

(** A snapshot has been made for task [t]: [prepareAttach], and the attachment when
    the state has not changed meanwhile. *)
Definition snapshot_ready (s : Manager) (t : nat) : option Manager :=
  match m_tasks s !! t with
  | Some (T_snapshot conn l revision) =>
      live ← m_lives s !! l;
      if revision =? ls_stateRevision live then Some (release (attach s conn l) t l)
      else Some (set_task s t (T_snapshot conn l (ls_stateRevision live)))
  | _ => None
  end.

(** [handleRuntimeEvent] of a progress or a snapshot event. *)
Definition report (s : Manager) (l : nat) : option Manager :=
  live ← m_lives s !! l;
  if ls_subscribed live then
    Some (maybeDispose (update_live s l (fun live => with_runtime live true (ls_terminal live) (ls_idle live) (ls_stateRevision live + 1))) l)
  else None.

(** [handleRuntimeEvent] of an error, and [terminate] while the connections close. *)
Definition runtime_error (s : Manager) (l : nat) : option Manager :=
  live ← m_lives s !! l;
  if ls_subscribed live then
    if ls_terminal live then Some (update_live s l (fun live => with_runtime live true true (ls_idle live) (ls_stateRevision live + 1)))
    else Some (add_task (update_live s l (fun live => with_runtime live false true (ls_idle live) (ls_stateRevision live + 1)))
                 (T_terminating l (ls_connections live)))
  else None.

(** [terminate] once they are closed. *)
Definition terminate (s : Manager) (t : nat) : option Manager :=
  match m_tasks s !! t with
  | Some (T_terminating l connections) => Some (set_task (foldl disconnect s connections) t (T_maybe_dispose l))
  | _ => None
  end.

(** The end of [maybeDispose]: the runtime has been disposed, or failed to be. *)
Definition disposed (s : Manager) (l : nat) : option Manager :=
  live ← m_lives s !! l;
  if bool_decide (ls_disposing live = Some Disposing) then
    let s := update_live s l (fun live => with_disposal live (Some Disposed) (ls_disposes live)) in
    Some (if bool_decide (map_get (ls_id live) (m_liveSessions s) = Some l)
          then with_maps s (map_delete (ls_id live) (m_liveSessions s)) (m_openingSessions s) else s)
  else None.

(** [remove], when the session is not opening or being disposed: its start, one
    connection that has been told or that all of them have, the call of [dispose]
    once no operation is counted, and its end. *)
Definition remove (s : Manager) (id : jstring) : option Manager :=
  match map_get id (m_openingSessions s) with
  | Some _ => None
  | None =>
      l ← map_get id (m_liveSessions s); live ← m_lives s !! l;
      if bool_decide (ls_disposing live <> None) then None else Some (add_task s (T_removing l (ls_connections live)))
  end.

Definition removed_one (s : Manager) (t : nat) : option Manager :=
  match m_tasks s !! t with
  | Some (T_removing l (conn :: connections)) =>
      live ← m_lives s !! l;
      let s := with_connections s (alter (fun c => {| cn_sessionIds := remove_member (ls_id live) (cn_sessionIds c); cn_open := cn_open c |}) conn (m_connections s)) in
      let s := update_live s l (fun live => with_members live (remove_member conn (ls_connections live))) in
      Some (set_task s t (T_removing l connections))
  | Some (T_removing l []) =>
      Some (set_task (update_live s l (fun live => with_runtime live false (ls_terminal live) (ls_idle live) (ls_stateRevision live))) t (T_remove_wait l))
  | _ => None
  end.

Definition remove_dispose (s : Manager) (t : nat) : option Manager :=
  match m_tasks s !! t with
  | Some (T_remove_wait l) =>
      live ← m_lives s !! l;
      if 0 <? ls_operationCount live then None
      else Some (set_task (update_live s l (fun live => with_disposal live (ls_disposing live) (S (ls_disposes live)))) t (T_remove_dispose l))
  | _ => None
  end.

Definition remove_end (s : Manager) (t : nat) : option Manager :=
  match m_tasks s !! t with
  | Some (T_remove_dispose l) =>
      live ← m_lives s !! l;
      let s := set_task s t T_done in
      Some (if bool_decide (map_get (ls_id live) (m_liveSessions s) = Some l)
            then with_maps s (map_delete (ls_id live) (m_liveSessions s)) (m_openingSessions s) else s)
  | _ => None
  end.

(** ** Events *)

Inductive Event :=
| E_attach (conn : nat) (id : jstring)
| E_retry (t : nat)
| E_created (t : nat) (idle : bool)
| E_create_failed (t : nat)
| E_snapshot (t : nat)
| E_failed (t : nat)
| E_detach (conn : nat) (id : jstring)
| E_operation (conn : nat) (id : jstring)
| E_operation_done (t : nat)
| E_maybe_dispose (t : nat)
| E_report (l : nat)
| E_error (l : nat)
| E_terminate (t : nat)
| E_phase (l : nat) (idle : bool)
| E_connect
| E_lost (conn : nat)
| E_disconnect (conn : nat)
| E_disposed (l : nat)
| E_closing
| E_remove (id : jstring)
| E_removed_one (t : nat)
| E_remove_dispose (t : nat)
| E_remove_end (t : nat).

Definition exec (s : Manager) (e : Event) : option Manager :=
  match e with
  | E_attach conn id => _ ← m_connections s !! conn; Some (acquire s None conn id)
  | E_retry t =>
      match m_tasks s !! t with
      | Some (T_wait_dispose conn id l) =>
          live ← m_lives s !! l; if bool_decide (ls_disposing live = Some Disposed) then Some (acquire s (Some t) conn id) else None
      | _ => None
      end
  | E_created t idle => match m_tasks s !! t with Some (T_creating _ id) => Some (created s id idle) | _ => None end
  | E_create_failed t => match m_tasks s !! t with Some (T_creating _ id) => Some (create_failed s id) | _ => None end
  | E_snapshot t => snapshot_ready s t
  | E_failed t =>
      match m_tasks s !! t with
      | Some (T_snapshot _ l _) => Some (release s t l)
      | Some (T_wait_dispose _ _ _) => Some (set_task s t T_done)
      | _ => None
      end
  | E_detach conn id => Some (detach s conn id)
  | E_operation conn id => operation s conn id
  | E_operation_done t => match m_tasks s !! t with Some (T_operation l) => Some (release s t l) | _ => None end
  | E_maybe_dispose t => match m_tasks s !! t with Some (T_maybe_dispose l) => Some (maybeDispose (set_task s t T_done) l) | _ => None end
  | E_report l => report s l
  | E_error l => runtime_error s l
  | E_terminate t => terminate s t
  | E_phase l idle => Some (update_live s l (fun live => with_runtime live (ls_subscribed live) (ls_terminal live) idle (ls_stateRevision live)))
  | E_connect => Some (with_connections s (m_connections s ++ [{| cn_sessionIds := []; cn_open := true |}]))
  | E_lost conn =>
      connection ← m_connections s !! conn;
      Some (with_connections s (<[conn := {| cn_sessionIds := cn_sessionIds connection; cn_open := false |}]> (m_connections s)))
  | E_disconnect conn => Some (disconnect s conn)
  | E_disposed l => disposed s l
  | E_closing =>
      Some {| m_lives := m_lives s; m_liveSessions := m_liveSessions s; m_openingSessions := m_openingSessions s; m_connections := m_connections s;
              m_tasks := m_tasks s; m_closing := true |}
  | E_remove id => remove s id
  | E_removed_one t => removed_one s t
  | E_remove_dispose t => remove_dispose s t
  | E_remove_end t => remove_end s t
  end.

Fixpoint exec_all (s : Manager) (events : list Event) : option Manager :=
  match events with
  | [] => Some s
  | e :: events => s ← exec s e; exec_all s events
  end.

Definition empty_manager : Manager :=
  {| m_lives := []; m_liveSessions := []; m_openingSessions := []; m_connections := []; m_tasks := []; m_closing := false |}.

Definition removal (e : Event) : bool :=
  match e with E_remove _ | E_removed_one _ | E_remove_dispose _ | E_remove_end _ => true | _ => false end.

(** ** The invariant *)

Definition holds (l : nat) (task : Task) : bool :=
  match task with T_snapshot _ l' _ | T_operation l' => bool_decide (l' = l) | _ => false end.

(** The commands that keep a session in use. *)
Fixpoint holders (l : nat) (tasks : list Task) : Z :=
  match tasks with [] => 0 | task :: tasks => (if holds l task then 1 else 0) + holders l tasks end.

Record manager_ok (s : Manager) : Prop := {
  ok_live_wf : map_wf (m_liveSessions s);
  ok_opening_wf : map_wf (m_openingSessions s);
  ok_table : forall id l, map_get id (m_liveSessions s) = Some l ->
    exists live, m_lives s !! l = Some live /\ ls_id live = id /\ ls_disposing live <> Some Disposed;
  ok_active : forall l live, m_lives s !! l = Some live -> ls_disposing live <> Some Disposed -> map_get (ls_id live) (m_liveSessions s) = Some l;
  ok_disposal : forall l live, m_lives s !! l = Some live ->
    match ls_disposing live with
    | None => ls_disposes live = O
    | Some _ => ls_disposes live = 1%nat /\ ls_connections live = [] /\ ls_operationCount live = 0
    end;
  ok_count : forall l live, m_lives s !! l = Some live -> ls_operationCount live = holders l (m_tasks s);
  ok_holders : forall t task l, m_tasks s !! t = Some task -> holds l task = true -> is_Some (m_lives s !! l);
  ok_opening : forall id t, map_get id (m_openingSessions s) = Some t ->
    map_get id (m_liveSessions s) = None /\ exists conn, m_tasks s !! t = Some (T_creating conn id);
  ok_creating : forall t conn id, m_tasks s !! t = Some (T_creating conn id) -> map_get id (m_openingSessions s) = Some t;
  ok_attached : forall c cn id, m_connections s !! c = Some cn -> id ∈ cn_sessionIds cn ->
    exists l live, map_get id (m_liveSessions s) = Some l /\ m_lives s !! l = Some live /\ c ∈ ls_connections live;
  ok_members : forall l live c, m_lives s !! l = Some live -> c ∈ ls_connections live ->
    exists cn, m_connections s !! c = Some cn /\ ls_id live ∈ cn_sessionIds cn;
}.

Lemma lookup_alter_live f l (lives : list LiveSession) k live' : alter f l lives !! k = Some live' ->
  exists live, lives !! k = Some live /\ ((k = l /\ live' = f live) \/ (k <> l /\ live' = live)).
Proof.
  rewrite list_lookup_alter. destruct (decide (l = k)) as [->|Hn].
  - intros (live & Hl & ->)%fmap_Some. exists live. split; [done|by left].
  - intros Hl. exists live'. split; [done|right; by split; [apply not_eq_sym|]].
Qed.

Lemma lookup_alter_is f l (lives : list LiveSession) k live : lives !! k = Some live ->
  alter f l lives !! k = Some (if decide (k = l) then f live else live).
Proof.
  intros Hl. rewrite list_lookup_alter. destruct (decide (l = k)) as [->|Hn]; [by rewrite Hl, decide_True|by rewrite decide_False by congruence].
Qed.

Lemma holders_nonneg l tasks : 0 <= holders l tasks.
Proof. induction tasks as [|task tasks IH]; cbn [holders]; [lia|]. destruct (holds l task); lia. Qed.

Lemma holders_app l a b : holders l (a ++ b) = holders l a + holders l b.
Proof. induction a as [|task a IH]; cbn [holders app]; [lia|]. lia. Qed.

Lemma holders_insert l t old new tasks : tasks !! t = Some old ->
  holders l (<[t := new]> tasks) = holders l tasks - (if holds l old then 1 else 0) + (if holds l new then 1 else 0).
Proof.
  revert t. induction tasks as [|task tasks IH]; intros t Ht; [done|]. destruct t as [|t].
  - injection Ht as ->. change (<[0%nat := new]> (old :: tasks)) with (new :: tasks). cbn [holders]. lia.
  - change (<[S t := new]> (task :: tasks)) with (task :: <[t := new]> tasks). cbn [holders]. rewrite (IH t Ht). lia.
Qed.

Lemma holder_counts l t task tasks : tasks !! t = Some task -> holds l task = true -> 0 < holders l tasks.
Proof.
  revert t. induction tasks as [|task' tasks IH]; intros t Ht Hh; [done|]. cbn [holders]. destruct t as [|t].
  - injection Ht as ->. rewrite Hh. pose proof (holders_nonneg l tasks). lia.
  - specialize (IH t Ht Hh). destruct (holds l task'); lia.
Qed.

(** A session that is used is not being disposed. *)
Lemma held_not_disposing s t task l : manager_ok s -> m_tasks s !! t = Some task -> holds l task = true ->
  exists live, m_lives s !! l = Some live /\ ls_disposing live = None /\ map_get (ls_id live) (m_liveSessions s) = Some l.
Proof.
  intros Hok Ht Hh. destruct (ok_holders s Hok t task l Ht Hh) as [live Hl]. exists live. pose proof (ok_disposal s Hok l live Hl) as Hd.
  pose proof (ok_count s Hok l live Hl) as Hc. pose proof (holder_counts l t task _ Ht Hh). split; [done|].
  destruct (ls_disposing live) eqn:E; [lia|]. split; [done|]. apply (ok_active s Hok); [done|by rewrite E].
Qed.

(** ** Updates that keep the invariant *)

(** Of one session, what the invariant looks at. *)
Lemma update_ok s l f : manager_ok s ->
  (forall live, m_lives s !! l = Some live -> ls_id (f live) = ls_id live /\ ls_connections (f live) = ls_connections live /\ ls_operationCount (f live) = ls_operationCount live /\
     (ls_disposing (f live) = ls_disposing live /\ ls_disposes (f live) = ls_disposes live \/
      ls_disposing live = None /\ ls_disposing (f live) = Some Disposing /\ ls_disposes (f live) = S (ls_disposes live) /\ ls_connections live = [] /\ ls_operationCount live = 0)) ->
  manager_ok (update_live s l f).
Proof.
  intros Hok Hf.
  assert (Hback : forall k live', m_lives (update_live s l f) !! k = Some live' -> exists live, m_lives s !! k = Some live /\ ls_id live' = ls_id live /\
    ls_connections live' = ls_connections live /\ ls_operationCount live' = ls_operationCount live /\ (ls_disposing live' <> Some Disposed -> ls_disposing live <> Some Disposed) /\
    match ls_disposing live' with None => ls_disposes live' = O | Some _ => ls_disposes live' = 1%nat /\ ls_connections live' = [] /\ ls_operationCount live' = 0 end).
  { intros k live' Hk. apply lookup_alter_live in Hk as (live & Hl & Hor). exists live. pose proof (ok_disposal s Hok k live Hl) as Hd.
    destruct Hor as [[-> ->]|[_ ->]]; [|by split_and!]. destruct (Hf live Hl) as (H1 & H2 & H3 & [[H4 H5]|(H4 & H5 & H6 & H7 & H8)]).
    - rewrite H1, H2, H3, H4, H5. by split_and!.
    - rewrite H4 in Hd. rewrite H1, H2, H3, H5, H6, Hd, H4. by split_and!. }
  assert (Hforw : forall k live, m_lives s !! k = Some live -> exists live', m_lives (update_live s l f) !! k = Some live' /\ ls_id live' = ls_id live /\
    ls_connections live' = ls_connections live /\ (ls_disposing live <> Some Disposed -> ls_disposing live' <> Some Disposed)).
  { intros k live Hl. cbn. rewrite (lookup_alter_is f l _ k live Hl). eexists. split; [done|]. destruct (decide (k = l)) as [->|]; [|done].
    destruct (Hf live Hl) as (H1 & H2 & H3 & [[H4 H5]|(H4 & H5 & H6 & H7 & H8)]); [by rewrite H4|]. by rewrite H5. }
  destruct Hok as [W1 W2 T A D C H O R M B]. split; try done.
  - intros id k Hk. destruct (T id k Hk) as (live & Hl & Hid & Hd). destruct (Hforw k live Hl) as (live' & Hl' & Hid' & _ & Hd'). exists live'. split_and!; [done|congruence|by apply Hd'].
  - intros k live' Hk Hd. destruct (Hback k live' Hk) as (live & Hl & -> & _ & _ & Hd' & _). apply A; [done|by apply Hd'].
  - intros k live' Hk. by destruct (Hback k live' Hk) as (live & _ & _ & _ & _ & _ & Hd).
  - intros k live' Hk. destruct (Hback k live' Hk) as (live & Hl & _ & _ & -> & _). by apply C.
  - intros t task k Ht Hh. destruct (H t task k Ht Hh) as [live Hl]. destruct (Hforw k live Hl) as (live' & -> & _). done.
  - intros c cn id Hc Hin. destruct (M c cn id Hc Hin) as (k & live & Hk & Hl & Hin'). destruct (Hforw k live Hl) as (live' & Hl' & _ & Hco & _).
    exists k, live'. by rewrite Hco.
  - intros k live' c Hk Hin. destruct (Hback k live' Hk) as (live & Hl & -> & Hco & _). rewrite Hco in Hin. by apply (B k live c).
Qed.

Lemma maybeDispose_ok s l : manager_ok s -> manager_ok (maybeDispose s l).
Proof.
  intros Hok. apply update_ok; [done|]. intros live Hl. destruct (disposable (m_closing s) live) eqn:E; [|by split_and!; [..|left]].
  split_and!; [done..|]. right. unfold disposable in E. apply negb_true_iff in E. rewrite !orb_false_iff in E.
  destruct E as ((((_ & E1) & E2) & E3) & _). apply bool_decide_eq_false_1, dec_stable in E1, E2. apply Z.ltb_ge in E3.
  pose proof (ok_count s Hok l live Hl) as Hc. pose proof (holders_nonneg l (m_tasks s)). split_and!; [done|done|done|done|lia].
Qed.

Lemma runtime_ok s l (sub ter idl : LiveSession -> bool) (rev : LiveSession -> Z) : manager_ok s ->
  manager_ok (update_live s l (fun live => with_runtime live (sub live) (ter live) (idl live) (rev live))).
Proof. intros Hok. apply update_ok; [done|]. intros live Hl. by split_and!; [..|left]. Qed.

(** Tasks change, and the count of one session with them. *)
Lemma retask_ok s l delta tasks : manager_ok s ->
  (forall k, holders k tasks = holders k (m_tasks s) + (if decide (k = l) then delta else 0)) ->
  (delta <> 0 -> exists live, m_lives s !! l = Some live /\ ls_disposing live = None) ->
  (forall t task k, tasks !! t = Some task -> holds k task = true -> is_Some (m_lives s !! k)) ->
  (forall t conn id, tasks !! t = Some (T_creating conn id) <-> m_tasks s !! t = Some (T_creating conn id)) ->
  manager_ok (with_tasks (update_live s l (fun live => with_count live delta)) tasks).
Proof.
  intros Hok Hcount Hnone Hholds Hcr.
  assert (Hback : forall k live', alter (fun live => with_count live delta) l (m_lives s) !! k = Some live' -> exists live, m_lives s !! k = Some live /\ ls_id live' = ls_id live /\
    ls_connections live' = ls_connections live /\ ls_disposing live' = ls_disposing live /\ ls_disposes live' = ls_disposes live /\
    ls_operationCount live' = ls_operationCount live + (if decide (k = l) then delta else 0)).
  { intros k live' Hk. apply lookup_alter_live in Hk as (live & Hl & [[-> ->]|[Hn ->]]); exists live.
    - destruct (decide (l = l)); [|done]. by split_and!.
    - destruct (decide (k = l)); [done|]. split_and!; [done..|lia]. }
  assert (Hforw : forall k live, m_lives s !! k = Some live -> exists live', alter (fun live => with_count live delta) l (m_lives s) !! k = Some live' /\ ls_id live' = ls_id live /\
    ls_connections live' = ls_connections live /\ ls_disposing live' = ls_disposing live).
  { intros k live Hl. rewrite (lookup_alter_is _ l _ k live Hl). eexists. split; [done|]. by destruct (decide (k = l)). }
  destruct Hok as [W1 W2 T A D C H O R M B]. split; cbn [m_lives m_tasks m_liveSessions m_openingSessions m_connections with_tasks update_live with_lives]; try done.
  - intros id k Hk. destruct (T id k Hk) as (live & Hl & Hid & Hd). destruct (Hforw k live Hl) as (live' & Hl' & Hid' & _ & Hd'). exists live'. split_and!; congruence.
  - intros k live' Hk Hd. destruct (Hback k live' Hk) as (live & Hl & Hid & _ & Hd' & _). rewrite Hid. apply A; congruence.
  - intros k live' Hk. destruct (Hback k live' Hk) as (live & Hl & _ & Hco & Hd & Hds & Hn). rewrite Hco, Hd, Hds, Hn. specialize (D k live Hl).
    destruct (decide (k = l)) as [->|]; [|by rewrite Z.add_0_r]. destruct (decide (delta = 0)) as [->|Hz]; [by rewrite Z.add_0_r|].
    destruct (Hnone Hz) as (live0 & Hl0 & Hd0). assert (live0 = live) as -> by congruence. by rewrite Hd0 in D |- *.
  - intros k live' Hk. destruct (Hback k live' Hk) as (live & Hl & _ & _ & _ & _ & Hn). rewrite Hn, (Hcount k), (C k live Hl). done.
  - intros t task k Ht Hh. destruct (Hholds t task k Ht Hh) as [live Hl]. destruct (Hforw k live Hl) as (live' & -> & _). done.
  - intros id t Ht. destruct (O id t Ht) as [Hn [conn Hc]]. split; [done|]. exists conn. by apply Hcr.
  - intros t conn id Ht. apply Hcr in Ht. by eapply R.
  - intros c cn id Hc Hin. destruct (M c cn id Hc Hin) as (k & live & Hk & Hl & Hin'). destruct (Hforw k live Hl) as (live' & Hl' & _ & Hco & _).
    exists k, live'. by rewrite Hco.
  - intros k live' c Hk Hin. destruct (Hback k live' Hk) as (live & Hl & -> & Hco & _). rewrite Hco in Hin. by apply (B k live c).
Qed.

Definition creating (task : Task) : bool := match task with T_creating _ _ => true | _ => false end.

Lemma with_count_zero s l : update_live s l (fun live => with_count live 0) = s.
Proof.
  destruct s as [lives live opening connections tasks closing]. unfold update_live, with_lives. cbn. f_equal. apply list_eq. intros k.
  rewrite list_lookup_alter. destruct (decide (l = k)) as [->|]; [|done]. destruct (lives !! k) as [[]|]; [|done]. cbn. unfold with_count. cbn. by rewrite Z.add_0_r.
Qed.

Lemma creating_insert (tasks : list Task) t old new : tasks !! t = Some old -> creating old = false -> creating new = false ->
  forall k conn id, <[t := new]> tasks !! k = Some (T_creating conn id) <-> tasks !! k = Some (T_creating conn id).
Proof.
  intros Ht Ho Hn k conn id. destruct (decide (t = k)) as [->|Hk].
  - rewrite list_lookup_insert_eq by (by eapply lookup_lt_Some). rewrite Ht. split; intros [= ->]; done.
  - by rewrite list_lookup_insert_ne.
Qed.

Lemma creating_snoc (tasks : list Task) new : creating new = false ->
  forall k conn id, (tasks ++ [new]) !! k = Some (T_creating conn id) <-> tasks !! k = Some (T_creating conn id).
Proof.
  intros Hn k conn id. rewrite lookup_snoc_Some. split; [intros [[_ H]|[_ ->]]; done|]. intros H. left. split; [by eapply lookup_lt_Some|done].
Qed.

(** A task that holds nothing, instead of another one or at the end. *)
Definition neutral (task : Task) : Prop := creating task = false /\ forall l, holds l task = false.

Lemma holders_valid_insert s t new : manager_ok s -> (forall k, holds k new = true -> is_Some (m_lives s !! k)) ->
  forall t' task k, <[t := new]> (m_tasks s) !! t' = Some task -> holds k task = true -> is_Some (m_lives s !! k).
Proof.
  intros Hok Hn t' task k Ht Hh. destruct (decide (t = t')) as [->|Hne].
  - destruct (decide (t' < length (m_tasks s))%nat) as [Hlt|Hge].
    + rewrite list_lookup_insert_eq in Ht by done. injection Ht as <-. by apply Hn.
    + rewrite list_insert_ge in Ht by lia. by apply (ok_holders s Hok t' task).
  - rewrite list_lookup_insert_ne in Ht by done. by apply (ok_holders s Hok t' task).
Qed.

Lemma holders_valid_snoc s new : manager_ok s -> (forall k, holds k new = true -> is_Some (m_lives s !! k)) ->
  forall t' task k, (m_tasks s ++ [new]) !! t' = Some task -> holds k task = true -> is_Some (m_lives s !! k).
Proof.
  intros Hok Hn t' task k Ht Hh. apply lookup_snoc_Some in Ht as [[_ Ht]|[_ ->]]; [by apply (ok_holders s Hok t' task)|by apply Hn].
Qed.

Lemma set_neutral_ok s t old new : manager_ok s -> m_tasks s !! t = Some old -> neutral old -> neutral new -> manager_ok (set_task s t new).
Proof.
  intros Hok Ht [Ho1 Ho2] [Hn1 Hn2]. unfold set_task. rewrite <- (with_count_zero s 0) at 1. apply retask_ok; [done| |done| |by apply (creating_insert _ t old)].
  - intros k. rewrite (holders_insert k t old new) by done. rewrite Ho2, Hn2. destruct (decide _); lia.
  - apply holders_valid_insert; [done|]. intros k Hk. by rewrite Hn2 in Hk.
Qed.

Lemma add_neutral_ok s new : manager_ok s -> neutral new -> manager_ok (add_task s new).
Proof.
  intros Hok [Hn1 Hn2]. unfold add_task. rewrite <- (with_count_zero s 0) at 1. apply retask_ok; [done| |done| |by apply creating_snoc].
  - intros k. rewrite holders_app. cbn [holders]. rewrite Hn2. destruct (decide _); lia.
  - apply holders_valid_snoc; [done|]. intros k Hk. by rewrite Hn2 in Hk.
Qed.

(** A session in use by one more command. *)
Lemma hold_ok s t l live task : manager_ok s -> m_lives s !! l = Some live -> ls_disposing live = None ->
  (forall k, holds k task = bool_decide (l = k)) -> creating task = false ->
  match t with Some t => exists old, m_tasks s !! t = Some old /\ neutral old | None => True end ->
  manager_ok (place_task (update_live s l (fun live => with_count live 1)) t task).
Proof.
  intros Hok Hl Hd Hh Hc Ht. assert (Hvalid : forall k, holds k task = true -> is_Some (m_lives s !! k)).
  { intros k Hk. rewrite Hh in Hk. apply bool_decide_eq_true_1 in Hk as <-. by exists live. }
  destruct t as [t|]; cbn [place_task].
  - destruct Ht as (old & Ht & Ho1 & Ho2). apply retask_ok; [done| |by exists live|by apply (holders_valid_insert s)|by apply (creating_insert _ t old)].
    intros k. cbn. rewrite (holders_insert k t old task) by done. rewrite Ho2, Hh. destruct (decide (k = l)) as [->|]; [rewrite bool_decide_true by done; lia|].
    rewrite bool_decide_false by congruence. lia.
  - apply retask_ok; [done| |by exists live|by apply (holders_valid_snoc s)|by apply creating_snoc].
    intros k. cbn. rewrite holders_app. cbn [holders]. rewrite Hh. destruct (decide (k = l)) as [->|]; [rewrite bool_decide_true by done; lia|].
    rewrite bool_decide_false by congruence. lia.
Qed.

Lemma release_ok s t l task : manager_ok s -> m_tasks s !! t = Some task -> (forall k, holds k task = bool_decide (l = k)) -> manager_ok (release s t l).
Proof.
  intros Hok Ht Hh. apply maybeDispose_ok. destruct (held_not_disposing s t task l Hok Ht) as (live & Hl & Hd & _); [rewrite Hh; by apply bool_decide_eq_true_2|].
  assert (Hc : creating task = false). { destruct task; try done. specialize (Hh l). by rewrite bool_decide_true in Hh. }
  apply retask_ok; [done| |by exists live| |by apply (creating_insert _ t task)].
  - intros k. cbn. rewrite (holders_insert k t task T_done) by done. rewrite Hh. cbn [holds]. destruct (decide (k = l)) as [->|]; [rewrite bool_decide_true by done; lia|].
    rewrite bool_decide_false by congruence. lia.
  - by apply (holders_valid_insert s).
Qed.

(** ** Attaching and leaving *)

Lemma elem_add_member {A} `{EqDecision A} (x y : A) l : y ∈ add_member x l <-> y = x \/ y ∈ l.
Proof. unfold add_member. case_bool_decide; [naive_solver|]. rewrite elem_of_app, list_elem_of_singleton. naive_solver. Qed.

Lemma elem_remove_member {A} `{EqDecision A} (x y : A) l : y ∈ remove_member x l <-> y ∈ l /\ y <> x.
Proof. unfold remove_member. rewrite list_elem_of_filter. naive_solver. Qed.

Lemma attach_ok s conn l live : manager_ok s -> m_lives s !! l = Some live -> ls_disposing live = None -> manager_ok (attach s conn l).
Proof.
  intros Hok Hl Hd. unfold attach. rewrite Hl. destruct (m_connections s !! conn) as [connection|] eqn:Hc; [|done]. destruct (cn_open connection) eqn:Ho; [|done].
  assert (Hlen : (conn < length (m_connections s))%nat) by by eapply lookup_lt_Some.
  destruct Hok as [W1 W2 T A D C H O R M B]. pose proof (A l live Hl) as Ha. rewrite Hd in Ha. specialize (Ha ltac:(done)).
  split; cbn [m_lives m_tasks m_liveSessions m_openingSessions m_connections with_connections update_live with_lives]; try done.
  - intros id k Hk. destruct (T id k Hk) as (lv & Hlv & Hid & Hds). rewrite (lookup_alter_is _ l _ k lv Hlv). eexists. split; [done|]. by destruct (decide (k = l)).
  - intros k lv' Hk Hds. apply lookup_alter_live in Hk as (lv & Hlv & [[-> ->]|[_ ->]]); exact (A _ lv Hlv Hds).
  - intros k lv' Hk. apply lookup_alter_live in Hk as (lv & Hlv & [[-> ->]|[_ ->]]); [|by apply (D k)].
    assert (lv = live) as -> by congruence. specialize (D l live Hl). cbn. by rewrite Hd in D |- *.
  - intros k lv' Hk. apply lookup_alter_live in Hk as (lv & Hlv & [[-> ->]|[_ ->]]); exact (C _ lv Hlv).
  - intros t task k Ht Hh. destruct (H t task k Ht Hh) as [lv Hlv]. by rewrite (lookup_alter_is _ l _ k lv Hlv).
  - intros c cn id Hcn Hin. destruct (decide (c = conn)) as [->|Hne].
    + rewrite list_lookup_insert_eq in Hcn by done. injection Hcn as <-. cbn in Hin. apply elem_add_member in Hin as [->|Hin].
      * exists l. rewrite (lookup_alter_is _ l _ l live Hl), decide_True by done. eexists. split_and!; [done|done|]. cbn. apply elem_add_member. by left.
      * destruct (M conn connection id Hc Hin) as (k & lv & Hk & Hlv & Hmem). exists k. rewrite (lookup_alter_is _ l _ k lv Hlv). eexists. split_and!; [done|done|].
        destruct (decide (k = l)); [|done]. cbn. apply elem_add_member. by right.
    + rewrite list_lookup_insert_ne in Hcn by done. destruct (M c cn id Hcn Hin) as (k & lv & Hk & Hlv & Hmem). exists k. rewrite (lookup_alter_is _ l _ k lv Hlv).
      eexists. split_and!; [done|done|]. destruct (decide (k = l)); [|done]. cbn. apply elem_add_member. by right.
  - intros k lv' c Hk Hmem. apply lookup_alter_live in Hk as (lv & Hlv & Hor).
    assert (Hold : forall lv, m_lives s !! k = Some lv -> c ∈ ls_connections lv -> exists cn,
      <[conn := {| cn_sessionIds := add_member (ls_id live) (cn_sessionIds connection); cn_open := true |}]> (m_connections s) !! c = Some cn /\ ls_id lv ∈ cn_sessionIds cn).
    { intros lv0 Hlv0 Hm0. destruct (B k lv0 c Hlv0 Hm0) as (cn & Hcn & Hin). destruct (decide (c = conn)) as [->|Hne].
      - rewrite list_lookup_insert_eq by done. eexists. split; [done|]. cbn. apply elem_add_member. right. assert (cn = connection) as -> by congruence. done.
      - exists cn. by rewrite list_lookup_insert_ne. }
    destruct Hor as [[-> ->]|[_ ->]]; [|by apply Hold]. cbn in Hmem |- *. apply elem_add_member in Hmem as [->|Hmem]; [|by apply Hold].
    rewrite list_lookup_insert_eq by done. eexists. split; [done|]. cbn. apply elem_add_member. left. congruence.
Qed.

(** Connections leave: [gone c id] tells which, and the sessions forget them. *)
Lemma leave_ok s lives connections (gone : nat -> jstring -> Prop) : manager_ok s ->
  (forall k live', lives !! k = Some live' -> exists live, m_lives s !! k = Some live /\ live' = with_members live (ls_connections live') /\
     (forall c, c ∈ ls_connections live' <-> c ∈ ls_connections live /\ ~ gone c (ls_id live))) ->
  (forall k live, m_lives s !! k = Some live -> is_Some (lives !! k)) ->
  (forall c cn id, connections !! c = Some cn -> id ∈ cn_sessionIds cn -> ~ gone c id /\ exists cn0, m_connections s !! c = Some cn0 /\ id ∈ cn_sessionIds cn0) ->
  (forall c cn id, m_connections s !! c = Some cn -> id ∈ cn_sessionIds cn -> ~ gone c id -> exists cn', connections !! c = Some cn' /\ id ∈ cn_sessionIds cn') ->
  manager_ok (with_lives (with_connections s connections) lives).
Proof.
  intros Hok Hback Hforw Hids Hkeep.
  assert (Hforw' : forall k live, m_lives s !! k = Some live -> exists live', lives !! k = Some live' /\ live' = with_members live (ls_connections live') /\
     (forall c, c ∈ ls_connections live' <-> c ∈ ls_connections live /\ ~ gone c (ls_id live))).
  { intros k live Hl. destruct (Hforw k live Hl) as [live' Hl']. exists live'. split; [done|]. destruct (Hback k live' Hl') as (live0 & Hl0 & H1 & H2).
    assert (live0 = live) as -> by congruence. done. }
  assert (Hsame : forall lv lv', lv' = with_members lv (ls_connections lv') -> ls_id lv' = ls_id lv /\ ls_disposing lv' = ls_disposing lv /\
    ls_disposes lv' = ls_disposes lv /\ ls_operationCount lv' = ls_operationCount lv) by (intros lv lv' E; rewrite E; done).
  destruct Hok as [W1 W2 T A D C H O R M B].
  split; cbn [m_lives m_tasks m_liveSessions m_openingSessions m_connections with_connections with_lives]; try done.
  - intros id k Hk. destruct (T id k Hk) as (lv & Hlv & Hid & Hds). destruct (Hforw' k lv Hlv) as (lv' & Hlv' & E & _). exists lv'. apply Hsame in E as (E1 & E2 & _). split_and!; congruence.
  - intros k lv' Hk Hds. destruct (Hback k lv' Hk) as (lv & Hlv & E & _). apply Hsame in E as (E1 & E2 & _). rewrite E1. apply A; congruence.
  - intros k lv' Hk. destruct (Hback k lv' Hk) as (lv & Hlv & E & Hm). specialize (D k lv Hlv). apply Hsame in E as (_ & -> & -> & ->). destruct (ls_disposing lv); [|done].
    destruct D as (D1 & D2 & D3). split_and!; [done| |done]. rewrite D2 in Hm. destruct (ls_connections lv') as [|c cs]; [done|].
    exfalso. destruct (proj1 (Hm c)) as [Hin _]; [by left|]. by apply not_elem_of_nil in Hin.
  - intros k lv' Hk. destruct (Hback k lv' Hk) as (lv & Hlv & E & _). apply Hsame in E as (_ & _ & _ & ->). by apply C.
  - intros t task k Ht Hh. destruct (H t task k Ht Hh) as [lv Hlv]. by apply (Hforw k lv).
  - intros c cn id Hcn Hin. destruct (Hids c cn id Hcn Hin) as [Hng (cn0 & Hcn0 & Hin0)]. destruct (M c cn0 id Hcn0 Hin0) as (k & lv & Hk & Hlv & Hmem).
    destruct (Hforw' k lv Hlv) as (lv' & Hlv' & E & Hm). exists k, lv'. split_and!; [done|done|]. apply Hm. split; [done|].
    destruct (T id k Hk) as (lv1 & Hlv1 & Hid & _). assert (lv1 = lv) as -> by congruence. by rewrite Hid.
  - intros k lv' c Hk Hmem. destruct (Hback k lv' Hk) as (lv & Hlv & E & Hm). destruct (proj1 (Hm c) Hmem) as [Hold Hng]. destruct (B k lv c Hlv Hold) as (cn & Hcn & Hin).
    destruct (Hkeep c cn (ls_id lv) Hcn Hin Hng) as (cn' & Hcn' & Hin'). exists cn'. split; [done|]. by apply Hsame in E as (-> & _).
Qed.

Lemma table_live s id : manager_ok s ->
  (map_get id (m_liveSessions s) ≫= (fun l => pair l <$> m_lives s !! l)) =
  match map_get id (m_liveSessions s) with Some l => pair l <$> m_lives s !! l | None => None end /\
  (forall l, map_get id (m_liveSessions s) = Some l -> exists live, m_lives s !! l = Some live /\ ls_id live = id /\ ls_disposing live <> Some Disposed).
Proof. intros Hok. split; [by destruct (map_get id (m_liveSessions s))|]. apply (ok_table s Hok id). Qed.

Lemma detach_ok s conn id : manager_ok s -> manager_ok (detach s conn id).
Proof.
  intros Hok. unfold detach. destruct (m_connections s !! conn) as [connection|] eqn:Hc; [|done]. case_bool_decide as Hin; [|done].
  destruct (ok_attached s Hok conn connection id Hc Hin) as (l & live & Hg & Hl & Hmem). cbn [m_liveSessions m_lives with_connections]. rewrite Hg. cbn. rewrite Hl. cbn.
  assert (Hlen : (conn < length (m_connections s))%nat) by by eapply lookup_lt_Some.
  destruct (ok_table s Hok id l Hg) as (live0 & Hl0 & Hid & _). assert (live0 = live) as -> by congruence.
  set (s' := update_live _ l _). assert (Hs' : manager_ok s').
  { apply (leave_ok s _ _ (fun c i => c = conn /\ i = id)); [done|..].
    - intros k lv' Hk. cbn in Hk. apply lookup_alter_live in Hk as (lv & Hlv & [[-> ->]|[Hn ->]]); exists lv.
      + assert (lv = live) as -> by congruence. split_and!; [done|done|]. intros c. cbn. rewrite elem_remove_member, Hid. naive_solver.
      + split_and!; [done|by destruct lv|]. intros c. split; [intros Hcm|naive_solver]. split; [done|]. intros [-> Hi].
        destruct (ok_members s Hok k lv conn Hlv Hcm) as (cn & Hcn & Hins). rewrite Hi in Hins. apply Hn.
        pose proof (ok_disposal s Hok k lv Hlv) as Hd. pose proof (ok_active s Hok k lv Hlv) as Ha. destruct (ls_disposing lv); [by rewrite (proj1 (proj2 Hd)) in Hcm; apply not_elem_of_nil in Hcm|].
        rewrite Hi in Ha. specialize (Ha ltac:(done)). congruence.
    - intros k lv Hlv. cbn. by rewrite (lookup_alter_is _ l _ k lv Hlv).
    - intros c cn i Hcn Hi. destruct (decide (c = conn)) as [->|Hne].
      + rewrite list_lookup_insert_eq in Hcn by done. injection Hcn as <-. cbn in Hi. apply elem_remove_member in Hi as [Hi Hni]. split; [naive_solver|]. by exists connection.
      + rewrite list_lookup_insert_ne in Hcn by done. split; [naive_solver|]. by exists cn.
    - intros c cn i Hcn Hi Hng. destruct (decide (c = conn)) as [->|Hne].
      + rewrite list_lookup_insert_eq by done. eexists. split; [done|]. cbn. assert (cn = connection) as -> by congruence. apply elem_remove_member. naive_solver.
      + exists cn. by rewrite list_lookup_insert_ne. }
  destruct (_ && _); [by apply add_neutral_ok|by apply maybeDispose_ok].
Qed.

Lemma fold_members conn sessions : forall s,
  let s' := foldl (fun s l => update_live s l (fun live => with_members live (remove_member conn (ls_connections live)))) s sessions in
  s' = with_lives s (m_lives s') /\
  (forall k live', m_lives s' !! k = Some live' -> exists live, m_lives s !! k = Some live /\ live' = with_members live (ls_connections live') /\
     (forall c, c ∈ ls_connections live' <-> c ∈ ls_connections live /\ ~ (c = conn /\ k ∈ sessions))) /\
  (forall k live, m_lives s !! k = Some live -> is_Some (m_lives s' !! k)).
Proof.
  induction sessions as [|l sessions IH]; intros s; cbn [foldl].
  { split; [by destruct s|]. split; [|by eexists]. intros k live Hk. exists live. split_and!; [done|by destruct live|]. intros c. rewrite elem_of_nil. naive_solver. }
  destruct (IH (update_live s l (fun live => with_members live (remove_member conn (ls_connections live))))) as (H1 & H2 & H3). split_and!.
  - rewrite H1. done.
  - intros k live' Hk. destruct (H2 k live' Hk) as (live1 & Hl1 & E1 & Hm1). cbn in Hl1. apply lookup_alter_live in Hl1 as (live & Hl & [[-> ->]|[Hn ->]]); exists live.
    + split_and!; [done|rewrite E1; done|]. intros c. rewrite Hm1. cbn. rewrite elem_remove_member, elem_of_cons. naive_solver.
    + split_and!; [done|done|]. intros c. rewrite Hm1, elem_of_cons. naive_solver.
  - intros k live Hk. destruct (H3 k (if decide (k = l) then with_members live (remove_member conn (ls_connections live)) else live)) as [live' Hl']; [|by exists live'].
    cbn. exact (lookup_alter_is (fun live => with_members live (remove_member conn (ls_connections live))) l (m_lives s) k live Hk).
Qed.

Lemma maybeDispose_all_ok sessions : forall s, manager_ok s -> manager_ok (foldl maybeDispose s sessions).
Proof. induction sessions as [|l sessions IH]; intros s Hok; [done|]. cbn. by apply IH, maybeDispose_ok. Qed.

Lemma disconnect_ok s conn : manager_ok s -> manager_ok (disconnect s conn).
Proof.
  intros Hok. unfold disconnect. destruct (m_connections s !! conn) as [connection|] eqn:Hc; [|done]. apply maybeDispose_all_ok.
  assert (Hlen : (conn < length (m_connections s))%nat) by by eapply lookup_lt_Some. set (sessions := omap _ _). set (s1 := with_connections s _).
  destruct (fold_members conn sessions s1) as (H1 & H2 & H3). rewrite H1. apply (leave_ok s _ _ (fun c i => c = conn)); [done|..].
  - intros k lv' Hk. destruct (H2 k lv' Hk) as (lv & Hlv & E & Hm). exists lv. split_and!; [done|done|]. intros c. rewrite Hm. split; [|naive_solver].
    intros [Hmem Hn]. split; [done|]. intros ->. apply Hn. split; [done|]. destruct (ok_members s Hok k lv conn Hlv Hmem) as (cn & Hcn & Hin).
    assert (cn = connection) as -> by congruence. apply list_elem_of_omap. exists (ls_id lv). split; [done|]. apply (ok_active s Hok k lv Hlv).
    pose proof (ok_disposal s Hok k lv Hlv) as Hd. destruct (ls_disposing lv); [|done]. destruct Hd as (_ & Hd & _). rewrite Hd in Hmem. by apply not_elem_of_nil in Hmem.
  - intros k lv Hlv. by apply (H3 k lv).
  - intros c cn i Hcn Hi. destruct (decide (c = conn)) as [->|Hne].
    + rewrite list_lookup_insert_eq in Hcn by done. injection Hcn as <-. by apply not_elem_of_nil in Hi.
    + rewrite list_lookup_insert_ne in Hcn by done. split; [done|]. by exists cn.
  - intros c cn i Hcn Hi Hng. exists cn. by rewrite list_lookup_insert_ne.
Qed.

Lemma connections_ok s connections : manager_ok s ->
  (forall c cn id, connections !! c = Some cn -> id ∈ cn_sessionIds cn -> exists cn0, m_connections s !! c = Some cn0 /\ id ∈ cn_sessionIds cn0) ->
  (forall c cn id, m_connections s !! c = Some cn -> id ∈ cn_sessionIds cn -> exists cn', connections !! c = Some cn' /\ id ∈ cn_sessionIds cn') ->
  manager_ok (with_connections s connections).
Proof.
  intros Hok H1 H2. assert (He : with_connections s connections = with_lives (with_connections s connections) (m_lives s)) by done. rewrite He.
  apply (leave_ok s _ _ (fun _ _ => False)); [done| |by eexists| |by intros c cn id Hc Hi _; apply (H2 c cn)].
  - intros k lv Hk. exists lv. split_and!; [done|by destruct lv|]. naive_solver.
  - intros c cn id Hc Hi. split; [naive_solver|]. by apply (H1 c cn).
Qed.

(** ** Opening *)

(** The task at [t] or at the end. *)
Lemma place_lookup s t task k : match t with Some t => (t < length (m_tasks s))%nat | None => True end ->
  m_tasks (place_task s t task) !! k = if decide (k = default (length (m_tasks s)) t) then Some task else m_tasks s !! k.
Proof.
  intros Ht. destruct t as [t|]; cbn.
  - destruct (decide (k = t)) as [->|Hn]; [by rewrite list_lookup_insert_eq|by rewrite list_lookup_insert_ne].
  - destruct (decide (k = length (m_tasks s))) as [->|Hn]; [by rewrite lookup_app_r, Nat.sub_diag by lia|].
    destruct (decide (k < length (m_tasks s))%nat); [by rewrite lookup_app_l|]. rewrite lookup_app_r by lia. rewrite (lookup_ge_None_2 (m_tasks s)) by lia.
    destruct (k - length (m_tasks s))%nat eqn:E; [lia|done].
Qed.

Lemma place_holders s t task k : match t with Some t => exists old, m_tasks s !! t = Some old /\ neutral old | None => True end ->
  holds k task = false -> holders k (m_tasks (place_task s t task)) = holders k (m_tasks s).
Proof.
  intros Ht Hh. destruct t as [t|]; cbn.
  - destruct Ht as (old & Ht & _ & Ho). rewrite (holders_insert k t old task) by done. rewrite Ho, Hh. lia.
  - rewrite holders_app. cbn [holders]. rewrite Hh. lia.
Qed.

Lemma start_create_ok s t conn id : manager_ok s -> map_get id (m_liveSessions s) = None -> map_get id (m_openingSessions s) = None ->
  match t with Some t => exists old, m_tasks s !! t = Some old /\ neutral old | None => True end ->
  manager_ok (place_task (with_maps s (m_liveSessions s) (map_set id (default (length (m_tasks s)) t) (m_openingSessions s))) t (T_creating conn id)).
Proof.
  intros Hok Hlive Hopen Ht. set (s1 := with_maps s _ _). set (s2 := place_task s1 t _).
  assert (Hlt : match t with Some t => (t < length (m_tasks s))%nat | None => True end) by (destruct t; [destruct Ht as (old & Ht & _); by eapply lookup_lt_Some|done]).
  assert (Hlook : forall k, m_tasks s2 !! k = if decide (k = default (length (m_tasks s)) t) then Some (T_creating conn id) else m_tasks s !! k).
  { intros k. unfold s2. by rewrite place_lookup. }
  assert (Hhold : forall k, holders k (m_tasks s2) = holders k (m_tasks s)) by (intros k; unfold s2; by rewrite place_holders).
  assert (Hother : forall t' conn' id', m_tasks s !! t' = Some (T_creating conn' id') -> t' <> default (length (m_tasks s)) t).
  { intros t' conn' id' Ht' ->. destruct t as [t|]; cbn in Ht'; [destruct Ht as (old & Ht & Hc & _); rewrite Ht in Ht'; by injection Ht' as ->|].
    rewrite lookup_ge_None_2 in Ht' by lia. done. }
  assert (Hsame : m_lives s2 = m_lives s /\ m_liveSessions s2 = m_liveSessions s /\ m_connections s2 = m_connections s /\
    m_openingSessions s2 = map_set id (default (length (m_tasks s)) t) (m_openingSessions s)) by (by destruct t).
  destruct Hsame as (E1 & E2 & E3 & E4). destruct Hok as [W1 W2 T A D C H O R M B]. split; rewrite ?E1, ?E2, ?E3, ?E4; try done.
  - by apply map_set_wf.
  - intros l live Hl. rewrite Hhold. by apply C.
  - intros k task l Hk Hh. rewrite Hlook in Hk. destruct (decide _); [by injection Hk as <-|]. by apply (H k task).
  - intros i k Hk. rewrite map_get_set in Hk. destruct (decide (i = id)) as [->|Hn]; [injection Hk as <-; split; [done|exists conn; by rewrite Hlook, decide_True]|].
    destruct (O i k Hk) as [Hn' [conn' Hc']]. split; [done|]. exists conn'. rewrite Hlook, decide_False; [done|by eapply Hother].
  - intros k conn' i Hk. rewrite Hlook in Hk. rewrite map_get_set. destruct (decide (k = _)) as [->|Hn]; [injection Hk as -> ->; by rewrite decide_True|].
    rewrite decide_False; [by eapply R|]. intros ->. apply R in Hk. congruence.
Qed.

Lemma acquire_ok s t conn id : manager_ok s ->
  match t with Some t => exists old, m_tasks s !! t = Some old /\ neutral old | None => True end -> manager_ok (acquire s t conn id).
Proof.
  intros Hok Ht. assert (Hneutral : forall task, neutral task -> manager_ok (place_task s t task)).
  { intros task Hn. destruct t as [t|]; cbn; [destruct Ht as (old & Ht & Ho); by apply (set_neutral_ok s t old)|by apply add_neutral_ok]. }
  unfold acquire. destruct (map_get id (m_liveSessions s)) as [l|] eqn:Hg; cbn [mbind option_bind].
  - destruct (ok_table s Hok id l Hg) as (live & Hl & Hid & Hd). rewrite Hl. cbn [fmap option_fmap option_map].
    destruct (ls_terminal live); [by apply Hneutral|]. case_bool_decide as Hdis; [by apply Hneutral|]. apply (hold_ok s t l live); [done|done| |done|done|done].
    destruct (ls_disposing live); [by destruct Hdis|done].
  - destruct (map_get id (m_openingSessions s)) eqn:Ho; [by apply Hneutral|]. by apply start_create_ok.
Qed.

Definition creates (id : jstring) (task : Task) : bool := match task with T_creating _ id' => bool_decide (id' = id) | _ => false end.

Lemma holders_opened id l tasks : Forall (fun task => holds l task = false) tasks ->
  holders l (opened id l <$> tasks) = Z.of_nat (length (List.filter (waits_open id) tasks)) + Z.of_nat (length (List.filter (creates id) tasks)).
Proof.
  induction 1 as [|task tasks Hh _ IH]; [done|]. rewrite fmap_cons. cbn [holders List.filter]. rewrite IH.
  destruct task; cbn [opened waits_open creates holds] in *; rewrite ?Hh; try lia; (case_bool_decide; cbn [holds]; [rewrite bool_decide_true by done; cbn [length]; lia|lia]).
Qed.

Lemma holders_opened_other id l k tasks : k <> l -> holders k (opened id l <$> tasks) = holders k tasks.
Proof.
  intros Hk. induction tasks as [|task tasks IH]; [done|]. rewrite fmap_cons. cbn [holders]. rewrite IH.
  destruct task; cbn [opened holds]; try done; (case_bool_decide; cbn [holds]; [rewrite bool_decide_false by congruence; lia|lia]).
Qed.

Lemma filter_unique (p : Task -> bool) tasks t task : tasks !! t = Some task -> p task = true ->
  (forall t' task', tasks !! t' = Some task' -> p task' = true -> t' = t) -> length (List.filter p tasks) = 1%nat.
Proof.
  revert t. induction tasks as [|x tasks IH]; intros t Ht Hp Hu; [done|]. destruct t as [|t].
  - injection Ht as ->. cbn. rewrite Hp. cbn. f_equal. assert (Hnone : forall y, y ∈ tasks -> p y = false).
    { intros y (k & Hk)%list_elem_of_lookup_1. destruct (p y) eqn:E; [|done]. by specialize (Hu (S k) y Hk E). }
    clear -Hnone. induction tasks as [|y tasks IH]; [done|]. cbn. rewrite (Hnone y) by by left. apply IH. intros z Hz. apply Hnone. by right.
  - cbn. destruct (p x) eqn:E; [by specialize (Hu O x eq_refl E)|]. apply (IH t Ht Hp). intros t' task' Ht' Hp'. specialize (Hu (S t') task' Ht' Hp'). lia.
Qed.

Lemma created_ok s t conn id idle : manager_ok s -> m_tasks s !! t = Some (T_creating conn id) -> manager_ok (created s id idle).
Proof.
  intros Hok Ht. pose proof (ok_creating s Hok t conn id Ht) as Hopen. destruct (ok_opening s Hok id t Hopen) as [Hlive _].
  assert (Hone : length (List.filter (creates id) (m_tasks s)) = 1%nat).
  { apply (filter_unique _ _ t (T_creating conn id)); [done|cbn; by rewrite bool_decide_true|]. intros t' task' Ht' Hc. destruct task'; try done. cbn in Hc.
    apply bool_decide_eq_true_1 in Hc as ->. apply (ok_creating s Hok) in Ht'. congruence. }
  assert (Hfresh : Forall (fun task => holds (length (m_lives s)) task = false) (m_tasks s)).
  { apply Forall_lookup. intros k task Hk. destruct (holds _ task) eqn:E; [|done]. destruct (ok_holders s Hok k task _ Hk E) as [lv Hlv]. apply lookup_lt_Some in Hlv. lia. }
  assert (Hcr : forall k conn' id', (opened id (length (m_lives s)) <$> m_tasks s) !! k = Some (T_creating conn' id') -> m_tasks s !! k = Some (T_creating conn' id') /\ id' <> id).
  { intros k conn' id' Hk. rewrite list_lookup_fmap in Hk. apply fmap_Some in Hk as (task & Hk & E). rewrite Hk. destruct task; cbn in E; try done; case_bool_decide; try done. injection E as -> ->. done. }
  destruct Hok as [W1 W2 T A D C H O R M B]. unfold created. split; cbn [m_lives m_tasks m_liveSessions m_openingSessions m_connections].
  - by apply map_set_wf.
  - by apply map_delete_wf.
  - intros i k Hk. rewrite map_get_set in Hk. destruct (decide (i = id)) as [->|Hn].
    + injection Hk as <-. rewrite lookup_app_r, Nat.sub_diag by lia. by eexists.
    + destruct (T i k Hk) as (lv & Hlv & Hid & Hd). exists lv. by rewrite lookup_app_l by by eapply lookup_lt_Some.
  - intros k lv Hk Hd. apply lookup_snoc_Some in Hk as [[_ Hk]|[-> <-]]; [|cbn; by rewrite map_get_set_eq].
    rewrite map_get_set, decide_False; [by apply A|]. intros E. specialize (A k lv Hk Hd). congruence.
  - intros k lv Hk. apply lookup_snoc_Some in Hk as [[_ Hk]|[-> <-]]; [by apply (D k)|done].
  - intros k lv Hk. apply lookup_snoc_Some in Hk as [[Hlt Hk]|[-> <-]].
    + rewrite holders_opened_other by lia. by apply C.
    + rewrite holders_opened by done. rewrite Hone. cbn. lia.
  - intros k task l Hk Hh. rewrite list_lookup_fmap in Hk. apply fmap_Some in Hk as (task0 & Hk & ->). destruct (decide (l = length (m_lives s))) as [->|Hn].
    + rewrite lookup_app_r, Nat.sub_diag by lia. by eexists.
    + assert (Hold : holds l task0 = true). { destruct task0; cbn in Hh |- *; try done; case_bool_decide; try done; cbn in Hh; apply bool_decide_eq_true_1 in Hh; congruence. }
      destruct (H k task0 l Hk Hold) as [lv Hlv]. exists lv. by rewrite lookup_app_l by by eapply lookup_lt_Some.
  - intros i k Hk. rewrite map_get_delete in Hk by done. destruct (decide (i = id)) as [|Hn]; [done|]. destruct (O i k Hk) as [Hni [conn' Hc]]. split; [by rewrite map_get_set_ne|].
    exists conn'. rewrite list_lookup_fmap, Hc. cbn. by rewrite bool_decide_false.
  - intros k conn' i Hk. destruct (Hcr k conn' i Hk) as [Hk' Hn]. rewrite map_get_delete by done. rewrite decide_False by done. by eapply R.
  - intros c cn i Hc Hi. destruct (M c cn i Hc Hi) as (k & lv & Hk & Hlv & Hmem). exists k, lv. rewrite map_get_set_ne by congruence. rewrite lookup_app_l by by eapply lookup_lt_Some. done.
  - intros k lv c Hk Hmem. apply lookup_snoc_Some in Hk as [[_ Hk]|[-> <-]]; [by apply (B k lv c)|by apply not_elem_of_nil in Hmem].
Qed.

Lemma create_failed_ok s t conn id : manager_ok s -> m_tasks s !! t = Some (T_creating conn id) -> manager_ok (create_failed s id).
Proof.
  intros Hok Ht. assert (Hh : forall k task, holds k (failed id task) = holds k task) by (intros k task; destruct task; cbn; try done; by case_bool_decide).
  assert (Hhold : forall k tasks, holders k (failed id <$> tasks) = holders k tasks).
  { intros k tasks. induction tasks as [|task tasks IH]; [done|]. rewrite fmap_cons. cbn [holders]. by rewrite IH, Hh. }
  destruct Hok as [W1 W2 T A D C H O R M B]. unfold create_failed. split; cbn [m_lives m_tasks m_liveSessions m_openingSessions m_connections with_tasks with_maps]; try done.
  - by apply map_delete_wf.
  - intros l lv Hl. rewrite Hhold. by apply C.
  - intros k task l Hk Hhl. rewrite list_lookup_fmap in Hk. apply fmap_Some in Hk as (task0 & Hk & ->). rewrite Hh in Hhl. by apply (H k task0).
  - intros i k Hk. rewrite map_get_delete in Hk by done. destruct (decide (i = id)) as [|Hn]; [done|]. destruct (O i k Hk) as [Hni [conn' Hc]]. split; [done|].
    exists conn'. rewrite list_lookup_fmap, Hc. cbn. by rewrite bool_decide_false.
  - intros k conn' i Hk. rewrite list_lookup_fmap in Hk. apply fmap_Some in Hk as (task0 & Hk & E). assert (task0 = T_creating conn' i /\ i <> id) as [-> Hn].
    { destruct task0; cbn in E; try done; case_bool_decide; try done. injection E as -> ->. done. }
    rewrite map_get_delete by done. rewrite decide_False by done. by eapply R.
Qed.

Lemma disposed_ok s l live : manager_ok s -> m_lives s !! l = Some live -> ls_disposing live = Some Disposing ->
  manager_ok (with_maps (update_live s l (fun live => with_disposal live (Some Disposed) (ls_disposes live))) (map_delete (ls_id live) (m_liveSessions s)) (m_openingSessions s)).
Proof.
  intros Hok Hl Hd. destruct Hok as [W1 W2 T A D C H O R M B]. pose proof (A l live Hl) as Ha. rewrite Hd in Ha. specialize (Ha ltac:(done)).
  pose proof (D l live Hl) as Hz. rewrite Hd in Hz. destruct Hz as (Hz1 & Hz2 & Hz3).
  split; cbn [m_lives m_tasks m_liveSessions m_openingSessions m_connections with_maps update_live with_lives]; try done.
  - by apply map_delete_wf.
  - intros i k Hk. rewrite map_get_delete in Hk by done. destruct (decide (i = ls_id live)) as [|Hn]; [done|]. destruct (T i k Hk) as (lv & Hlv & Hid & Hds).
    exists lv. rewrite (lookup_alter_is _ l _ k lv Hlv), decide_False; [done|]. intros ->. congruence.
  - intros k lv' Hk Hds. apply lookup_alter_live in Hk as (lv & Hlv & [[-> ->]|[Hn ->]]); [done|]. specialize (A k lv Hlv Hds).
    rewrite map_get_delete by done. rewrite decide_False; [done|]. intros E. congruence.
  - intros k lv' Hk. apply lookup_alter_live in Hk as (lv & Hlv & [[-> ->]|[Hn ->]]); [|by apply (D k)]. assert (lv = live) as -> by congruence. done.
  - intros k lv' Hk. apply lookup_alter_live in Hk as (lv & Hlv & [[-> ->]|[Hn ->]]); exact (C _ lv Hlv).
  - intros t task k Ht Hh. destruct (H t task k Ht Hh) as [lv Hlv]. by rewrite (lookup_alter_is _ l _ k lv Hlv).
  - intros i t Hi. destruct (O i t Hi) as [Hn Hc]. split; [|done]. rewrite map_get_delete by done. by destruct (decide _).
  - intros c cn i Hc Hi. destruct (M c cn i Hc Hi) as (k & lv & Hk & Hlv & Hmem). assert (k <> l). { intros ->. assert (lv = live) as -> by congruence. rewrite Hz2 in Hmem. by apply not_elem_of_nil in Hmem. }
    exists k, lv. rewrite map_get_delete, (lookup_alter_is _ l _ k lv Hlv) by done. rewrite !decide_False; [done|done|]. intros ->. congruence.
  - intros k lv' c Hk Hmem. apply lookup_alter_live in Hk as (lv & Hlv & [[-> ->]|[Hn ->]]); exact (B _ lv c Hlv Hmem).
Qed.

Lemma attach_task s conn l t : m_tasks (attach s conn l) !! t = m_tasks s !! t.
Proof. unfold attach. destruct (m_connections s !! conn) as [connection|], (m_lives s !! l); try done. by destruct (cn_open connection). Qed.

Lemma disconnect_all_ok connections : forall s, manager_ok s -> manager_ok (foldl disconnect s connections).
Proof. induction connections as [|c connections IH]; intros s Hok; [done|]. cbn. by apply IH, disconnect_ok. Qed.

Lemma fold_tasks {A} (f : Manager -> A -> Manager) (l : list A) : (forall s x, m_tasks (f s x) = m_tasks s) -> forall s, m_tasks (foldl f s l) = m_tasks s.
Proof. intros Hf. induction l as [|x l IH]; intros s; [done|]. cbn. by rewrite IH, Hf. Qed.

Lemma disconnect_tasks s c : m_tasks (disconnect s c) = m_tasks s.
Proof. unfold disconnect. destruct (m_connections s !! c); [|done]. by rewrite !fold_tasks. Qed.

(** Every event but the removal of a session keeps the invariant. *)
Lemma exec_ok s e s' : manager_ok s -> removal e = false -> exec s e = Some s' -> manager_ok s'.
Proof.
  intros Hok Hr. destruct e as [conn id|t|t idle|t|t|t|conn id|conn id|t|t|l|l|t|l idle| |conn|conn|l| | | | |]; try done; cbn [exec]; clear Hr; unfold snapshot_ready, report, runtime_error, terminate, disposed.
  - destruct (m_connections s !! conn); [|done]. intros [= <-]. by apply acquire_ok.
  - destruct (m_tasks s !! t) as [task|] eqn:Ht; [|done]. destruct task; try done. destruct (m_lives s !! live); [|done]. cbn. case_bool_decide; [|done].
    intros [= <-]. apply acquire_ok; [done|]. by eexists.
  - destruct (m_tasks s !! t) as [task|] eqn:Ht; [|done]. destruct task; try done. intros [= <-]. by eapply created_ok.
  - destruct (m_tasks s !! t) as [task|] eqn:Ht; [|done]. destruct task; try done. intros [= <-]. by eapply create_failed_ok.
  - destruct (m_tasks s !! t) as [task|] eqn:Ht; [|done]. destruct task as [| | |conn l revision| | | | | | |]; try done.
    assert (Hh : forall k, holds k (T_snapshot conn l revision) = bool_decide (l = k)) by done.
    destruct (held_not_disposing s t _ l Hok Ht) as (live & Hl & Hd & _); [by rewrite Hh, bool_decide_true|]. rewrite Hl. cbn [mbind option_bind].
    destruct (revision =? ls_stateRevision live); intros [= <-].
    + apply (release_ok _ t l (T_snapshot conn l revision)); [by apply (attach_ok s conn l live)|by rewrite attach_task|done].
    + unfold set_task. rewrite <- (with_count_zero s 0) at 1. apply retask_ok; [done| |done| |].
      * intros k. rewrite (holders_insert k t _ _ _ Ht). cbn [holds]. destruct (decide _); lia.
      * apply (holders_valid_insert s); [done|]. intros k Hk. apply (ok_holders s Hok t (T_snapshot conn l revision)); done.
      * by apply (creating_insert _ t (T_snapshot conn l revision)).
  - destruct (m_tasks s !! t) as [task|] eqn:Ht; [|done]. destruct task; try done; intros [= <-]; [by apply (set_neutral_ok s t _ _ Hok Ht)|].
    by apply (release_ok _ t _ _ Hok Ht).
  - intros [= <-]. by apply detach_ok.
  - unfold operation. destruct (m_connections s !! conn) as [connection|]; [|done]. cbn [mbind option_bind]. destruct (negb _); [done|].
    destruct (map_get id (m_liveSessions s)) as [l|]; [|done]. cbn [mbind option_bind]. destruct (m_lives s !! l) as [live|] eqn:Hl; [|done]. cbn [mbind option_bind].
    destruct (ls_terminal live || _) eqn:E; [done|]. intros [= <-]. apply orb_false_iff in E as [_ E]. apply bool_decide_eq_false_1 in E.
    apply (hold_ok s None l live (T_operation l)); [done|done| |done|done|done]. destruct (ls_disposing live); [by destruct E|done].
  - destruct (m_tasks s !! t) as [task|] eqn:Ht; [|done]. destruct task; try done. intros [= <-]. by apply (release_ok _ t _ _ Hok Ht).
  - destruct (m_tasks s !! t) as [task|] eqn:Ht; [|done]. destruct task; try done. intros [= <-]. apply maybeDispose_ok. by apply (set_neutral_ok s t _ _ Hok Ht).
  - destruct (m_lives s !! l) as [live|]; [|done]. cbn [mbind option_bind]. destruct (ls_subscribed live); [|done]. intros [= <-]. by apply maybeDispose_ok, runtime_ok.
  - destruct (m_lives s !! l) as [live|]; [|done]. cbn [mbind option_bind]. destruct (ls_subscribed live); [|done]. destruct (ls_terminal live); intros [= <-]; [by apply runtime_ok|].
    apply add_neutral_ok; [by apply runtime_ok|done].
  - destruct (m_tasks s !! t) as [task|] eqn:Ht; [|done]. destruct task as [| | | | | |l connections| | | |]; try done. intros [= <-].
    apply (set_neutral_ok _ t (T_terminating l connections)); [by apply disconnect_all_ok| |done|done]. by rewrite (fold_tasks _ _ disconnect_tasks).
  - intros [= <-]. by apply runtime_ok.
  - intros [= <-]. apply connections_ok; [done|..].
    + intros c cn i Hc Hi. apply lookup_snoc_Some in Hc as [[_ Hc]|[_ <-]]; [by exists cn|by apply not_elem_of_nil in Hi].
    + intros c cn i Hc Hi. exists cn. split; [|done]. by apply lookup_app_l_Some.
  - destruct (m_connections s !! conn) as [connection|] eqn:Hc; [|done]. intros [= <-]. assert (Hlen : (conn < length (m_connections s))%nat) by by eapply lookup_lt_Some.
    apply connections_ok; [done|..]; intros c cn i Hcn Hi; destruct (decide (c = conn)) as [->|Hn].
    + rewrite list_lookup_insert_eq in Hcn by done. injection Hcn as <-. by exists connection.
    + rewrite list_lookup_insert_ne in Hcn by done. by exists cn.
    + rewrite list_lookup_insert_eq by done. assert (cn = connection) as -> by congruence. by eexists.
    + rewrite list_lookup_insert_ne by done. by exists cn.
  - intros [= <-]. by apply disconnect_ok.
  - destruct (m_lives s !! l) as [live|] eqn:Hl; [|done]. cbn [mbind option_bind]. case_bool_decide as Hd; [|done]. intros [= <-].
    rewrite bool_decide_true; [by apply disposed_ok|]. cbn. apply (ok_active s Hok); [done|by rewrite Hd].
  - intros [= <-]. by destruct Hok as [W1 W2 T A D C H O R M B].
Qed.

Lemma exec_all_ok events : forall s s', manager_ok s -> Forall (fun e => removal e = false) events -> exec_all s events = Some s' -> manager_ok s'.
Proof.
  induction events as [|e events IH]; intros s s' Hok Hr; cbn [exec_all]; [by intros [= <-]|]. apply Forall_cons in Hr as [He Hr].
  destruct (exec s e) as [s1|] eqn:E; [|done]. cbn [mbind option_bind]. apply IH; [by eapply exec_ok|done].
Qed.

Lemma empty_manager_ok : manager_ok empty_manager.
Proof. split; cbn; try done; try (intros; by rewrite lookup_nil in *); by constructor. Qed.

(** C16: whatever commands, failures, runtime reports and lost connections meet in
    whatever order, as long as no session is removed: a runtime is disposed at most
    once, and only while no connection is attached to its session and no command
    uses it, which stays so; a session has one runtime at a time; the uses that are
    counted are those of the commands in progress; and a connection is attached to
    exactly the sessions that have it as a member. *)
Theorem session_table_safe events s :
  Forall (fun e => removal e = false) events -> exec_all empty_manager events = Some s ->
  (forall l live, m_lives s !! l = Some live ->
     (ls_disposes live <= 1)%nat /\ ls_operationCount live = holders l (m_tasks s) /\
     (ls_disposes live <> O -> ls_connections live = [] /\ ls_operationCount live = 0)) /\
  (forall l1 l2 live1 live2, m_lives s !! l1 = Some live1 -> m_lives s !! l2 = Some live2 -> ls_id live1 = ls_id live2 ->
     ls_disposing live1 <> Some Disposed -> ls_disposing live2 <> Some Disposed -> l1 = l2) /\
  (forall c cn id, m_connections s !! c = Some cn ->
     id ∈ cn_sessionIds cn <-> exists l live, map_get id (m_liveSessions s) = Some l /\ m_lives s !! l = Some live /\ c ∈ ls_connections live).
Proof.
  intros Hr He. pose proof (exec_all_ok events _ _ empty_manager_ok Hr He) as Hok. split_and!.
  - intros l live Hl. pose proof (ok_disposal s Hok l live Hl) as Hd. pose proof (ok_count s Hok l live Hl) as Hc.
    destruct (ls_disposing live); [destruct Hd as (-> & -> & Hz); by split_and!|rewrite Hd; split_and!; [lia|done|done]].
  - intros l1 l2 live1 live2 H1 H2 Hid Hd1 Hd2. pose proof (ok_active s Hok l1 live1 H1 Hd1) as A1. pose proof (ok_active s Hok l2 live2 H2 Hd2) as A2. congruence.
  - intros c cn id Hc. split; [by apply (ok_attached s Hok)|]. intros (l & live & Hg & Hl & Hmem). destruct (ok_members s Hok l live c Hl Hmem) as (cn' & Hc' & Hin).
    destruct (ok_table s Hok id l Hg) as (live' & Hl' & <- & _). congruence.
Qed.

(** Two connections open one session, one of them works in it, both leave, and the
    session is opened again while it is being disposed. *)
Definition two_users : list Event :=
  [E_connect; E_connect; E_attach 0 (js "s"); E_attach 1 (js "s"); E_created 0 true; E_snapshot 0; E_report 0; E_snapshot 1; E_snapshot 1;
   E_operation 0 (js "s"); E_detach 0 (js "s"); E_disconnect 1; E_operation_done 2; E_connect; E_attach 2 (js "s"); E_disposed 0; E_retry 4; E_created 4 true].

Lemma session_table_safe_witness : exists s, exec_all empty_manager two_users = Some s /\
  (ls_disposes <$> m_lives s) = [1; 0]%nat /\
  (forall l live, m_lives s !! l = Some live ->
     (ls_disposes live <= 1)%nat /\ ls_operationCount live = holders l (m_tasks s) /\
     (ls_disposes live <> O -> ls_connections live = [] /\ ls_operationCount live = 0)) /\
  (forall l1 l2 live1 live2, m_lives s !! l1 = Some live1 -> m_lives s !! l2 = Some live2 -> ls_id live1 = ls_id live2 ->
     ls_disposing live1 <> Some Disposed -> ls_disposing live2 <> Some Disposed -> l1 = l2) /\
  (forall c cn id, m_connections s !! c = Some cn ->
     id ∈ cn_sessionIds cn <-> exists l live, map_get id (m_liveSessions s) = Some l /\ m_lives s !! l = Some live /\ c ∈ ls_connections live).
Proof.
  destruct (exec_all empty_manager two_users) as [s|] eqn:E; [|vm_compute in E; discriminate E]. exists s. split; [reflexivity|].
  assert (Hr : Forall (fun e => removal e = false) two_users) by (apply (bool_decide_unpack _); vm_compute; exact I).
  split; [|exact (session_table_safe two_users s Hr E)]. vm_compute in E. injection E as <-. vm_compute. reflexivity.
Defined.

(** Removal is not safe in the same way.  A session that is removed while an
    operation runs is disposed twice: by the end of the operation and by the
    removal. *)
Example removed_disposed_twice :
  (fun s => ls_disposes <$> m_lives s) <$> exec_all empty_manager
    [E_connect; E_attach 0 (js "s"); E_created 0 true; E_snapshot 0; E_operation 0 (js "s");
     E_remove (js "s"); E_removed_one 2; E_removed_one 2; E_operation_done 1; E_remove_dispose 2] = Some [2]%nat.
Proof. vm_compute. reflexivity. Qed.

(** A connection that attaches while the session is removed stays attached to a
    runtime that has been disposed. *)
Example attached_to_removed :
  (fun s => (fun live => (ls_disposes live, ls_connections live)) <$> m_lives s) <$> exec_all empty_manager
    [E_connect; E_connect; E_attach 0 (js "s"); E_created 0 true; E_snapshot 0; E_remove (js "s"); E_attach 1 (js "s"); E_removed_one 1; E_removed_one 1;
     E_snapshot 2; E_remove_dispose 1] = Some [(1%nat, [1%nat])].
Proof. vm_compute. reflexivity. Qed.

(** An attachment in progress ends in a session that has failed meanwhile. *)
Example attached_to_terminated :
  (fun s => (fun live => (ls_terminal live, ls_connections live)) <$> m_lives s) <$> exec_all empty_manager
    [E_connect; E_attach 0 (js "s"); E_created 0 true; E_error 0; E_snapshot 0; E_snapshot 0; E_terminate 1] = Some [(true, [0%nat])].
Proof. vm_compute. reflexivity. Qed.
