(* ===== verification/TransformMessages.v ===== *)
(** * Messages for a provider

    packages/ai/src/api/transform-messages.ts: the messages of a context are made
    acceptable to the model they are sent to.  System messages are split off,
    images and thinking that the model cannot take are replaced or dropped, the
    ids of tool calls are normalized, and tool calls without a result get one.
    Where every message came from is tracked for the cache of the provider.

    The code mutates a map of renamed ids and the lists of a second pass; both are
    threaded.  Messages have their declared types, so content is never null, and
    indices are integers.  [now n] is the clock when the result has [n] messages;
    [normalizeToolCallId] comes from the provider. *)

From stdpp Require Import base list strings pretty.
From Stdlib Require Import ZArith Lia.
From S2P Require Import Prelude SessionTypes Compaction EditDiff SessionManager.

Open Scope Z_scope.

(** The fields of a model that are read; [tm_images]: its input includes image. *)
Record TargetModel := { tm_id : jstring; tm_api : jstring; tm_provider : jstring; tm_images : bool }.

(** ** System messages and cache sources *)

Definition is_system (message : Message) : bool := match message with M_system _ => true | _ => false end.

Definition block_text (block : UserBlock) : option jstring := match block with UB_text t => Some (text_text t) | UB_image _ => None end.

Definition system_text (message : Message) : option jstring :=
  match message with
  | M_system m => Some (match sys_content m with UC_string s => s | UC_blocks blocks => join [10] (omap block_text blocks) end)
  | _ => None
  end.

Definition splitSystemMessages (messages : list Message) (systemPrompt : option jstring) : jstring * list Message :=
  match truthy systemPrompt with
  | Some prompt => (prompt, messages)
  | None =>
      match omap system_text messages with
      | [] => ([], messages)
      | texts => (join [10; 10] texts, List.filter (fun m => negb (is_system m)) messages)
      end
  end.

Record CacheOptions := { co_volatileFrom : option Z; co_sourceIndices : option (list Z) }.

Definition cacheMessageSources (messages : list Message) (options : option CacheOptions) (systemPrompt : option jstring) : option (list Z) :=
  match options ≫= co_volatileFrom with
  | None => None
  | Some volatileFrom =>
      if volatileFrom <? 0 then None
      else
        let indices := options ≫= co_sourceIndices in
        let invalid :=
          match indices with
          | Some indices => negb (Nat.eqb (length indices) (length messages)) || existsb (fun index => index <? 0) indices
          | None => false
          end in
        if invalid then None
        else
          Some (mjoin (imap (fun index message =>
            if bool_decide (truthy systemPrompt = None) && is_system message then []
            else [default (Z.of_nat index) (indices ≫= (fun indices => indices !! index))]) messages))
  end.

(** An index that is undefined compares as false. *)
Definition unsafe_index (volatileFrom : Z) (index : option Z) : bool :=
  match index with Some index => (index <? 0) || (volatileFrom <=? index) | None => false end.

Fixpoint cacheSafePrefix (sources : list (list (option Z))) (volatileFrom : Z) : nat :=
  match sources with
  | [] => O
  | group :: sources => if existsb (unsafe_index volatileFrom) group then O else S (cacheSafePrefix sources volatileFrom)
  end.

(** ** Images *)

Definition NON_VISION_USER_IMAGE_PLACEHOLDER : jstring := js "(image omitted: model does not support images)".
Definition NON_VISION_TOOL_IMAGE_PLACEHOLDER : jstring := js "(tool image omitted: model does not support images)".

Definition plain_text (text : jstring) : TextContent := {| text_text := text; text_textSignature := None |}.

Fixpoint replace_images (placeholder : jstring) (previousWasPlaceholder : bool) (content : list UserBlock) : list UserBlock :=
  match content with
  | [] => []
  | UB_image _ :: content =>
      (if previousWasPlaceholder then [] else [UB_text (plain_text placeholder)]) ++ replace_images placeholder true content
  | UB_text t :: content => UB_text t :: replace_images placeholder (bool_decide (text_text t = placeholder)) content
  end.

Definition replaceImagesWithPlaceholder (content : list UserBlock) (placeholder : jstring) : list UserBlock := replace_images placeholder false content.

Definition with_result_content (m : ToolResultMessage) (content : list UserBlock) : ToolResultMessage :=
  {| tres_toolCallId := tres_toolCallId m; tres_toolName := tres_toolName m; tres_content := content; tres_details := tres_details m;
     tres_usage := tres_usage m; tres_addedToolNames := tres_addedToolNames m; tres_isError := tres_isError m; tres_timestamp := tres_timestamp m |}.

Definition downgrade (message : Message) : Message :=
  match message with
  | M_user m =>
      match user_content m with
      | UC_blocks blocks =>
          M_user {| user_content := UC_blocks (replaceImagesWithPlaceholder blocks NON_VISION_USER_IMAGE_PLACEHOLDER); user_timestamp := user_timestamp m |}
      | UC_string _ => message
      end
  | M_toolResult m => M_toolResult (with_result_content m (replaceImagesWithPlaceholder (tres_content m) NON_VISION_TOOL_IMAGE_PLACEHOLDER))
  | _ => message
  end.

Definition downgradeUnsupportedImages (messages : list Message) (model : TargetModel) : list Message :=
  if tm_images model then messages else downgrade <$> messages.

(** ** The first pass *)

Definition isSameModel (model : TargetModel) (m : AssistantMessage) : bool :=
  bool_decide (asst_provider m = tm_provider model) && bool_decide (asst_api m = tm_api model) && bool_decide (asst_model m = tm_id model).

Definition with_content (m : AssistantMessage) (content : list AssistantBlock) : AssistantMessage :=
  {| asst_content := content; asst_api := asst_api m; asst_provider := asst_provider m; asst_model := asst_model m; asst_responseModel := asst_responseModel m;
     asst_responseId := asst_responseId m; asst_diagnostics := asst_diagnostics m; asst_usage := asst_usage m; asst_stopReason := asst_stopReason m;
     asst_deferred := asst_deferred m; asst_errorMessage := asst_errorMessage m; asst_rawStopReason := asst_rawStopReason m; asst_endTurn := asst_endTurn m;
     asst_timestamp := asst_timestamp m |}.

Definition with_toolCallId (m : ToolResultMessage) (id : jstring) : ToolResultMessage :=
  {| tres_toolCallId := id; tres_toolName := tres_toolName m; tres_content := tres_content m; tres_details := tres_details m;
     tres_usage := tres_usage m; tres_addedToolNames := tres_addedToolNames m; tres_isError := tres_isError m; tres_timestamp := tres_timestamp m |}.

Section Transform.
Context (model : TargetModel) (normalizeToolCallId : option (jstring -> TargetModel -> AssistantMessage -> jstring)).

Definition IdMap : Type := list (jstring * jstring).

Definition transform_thinking (same : bool) (block : ThinkingContent) : list AssistantBlock :=
  if bool_decide (thinking_redacted block = Some true) then if same then [AB_thinking block] else []
  else if same && bool_decide (truthy (thinking_thinkingSignature block) <> None) then [AB_thinking block]
  else if bool_decide (trim (thinking_thinking block) = []) then []
  else if same then [AB_thinking block]
  else [AB_text (plain_text (thinking_thinking block))].

(** The id that a call gets. *)
Definition normalized_id (m : AssistantMessage) (id : jstring) : jstring :=
  match normalizeToolCallId with
  | Some normalize => if isSameModel model m then id else normalize id model m
  | None => id
  end.

Definition transform_call (m : AssistantMessage) (call : ToolCall) : ToolCall :=
  {| toolCall_id := normalized_id m (toolCall_id call); toolCall_name := toolCall_name call; toolCall_arguments := toolCall_arguments call;
     toolCall_thoughtSignature :=
       if negb (isSameModel model m) && bool_decide (truthy (toolCall_thoughtSignature call) <> None) then None else toolCall_thoughtSignature call;
     toolCall_namespace := toolCall_namespace call |}.

Definition transform_block (m : AssistantMessage) (block : AssistantBlock) : list AssistantBlock :=
  match block with
  | AB_thinking t => transform_thinking (isSameModel model m) t
  | AB_text t => [if isSameModel model m then AB_text t else AB_text (plain_text (text_text t))]
  | AB_toolCall call => [AB_toolCall (transform_call m call)]
  end.

(** The entry that a call adds to [toolCallIdMap]. *)
Definition record_call (m : AssistantMessage) (ids : IdMap) (block : AssistantBlock) : IdMap :=
  match block with
  | AB_toolCall call =>
      let id := toolCall_id call in
      if bool_decide (normalized_id m id <> id) then map_set id (normalized_id m id) ids else ids
  | _ => ids
  end.

(** The id of a call in a tool result, after the calls before it. *)
Definition renamed (ids : IdMap) (id : jstring) : jstring :=
  match map_get id ids with Some (u :: r) => u :: r | _ => id end.

Definition transform_message (ids : IdMap) (message : Message) : IdMap * Message :=
  match message with
  | M_toolResult m =>
      (ids, if bool_decide (renamed ids (tres_toolCallId m) <> tres_toolCallId m) then M_toolResult (with_toolCallId m (renamed ids (tres_toolCallId m))) else message)
  | M_assistant m => (foldl (record_call m) ids (asst_content m), M_assistant (with_content m (mjoin (transform_block m <$> asst_content m))))
  | M_user _ | M_system _ => (ids, message)
  end.

Fixpoint transform_all (ids : IdMap) (messages : list Message) : list Message :=
  match messages with
  | [] => []
  | message :: messages => let '(ids, message) := transform_message ids message in message :: transform_all ids messages
  end.

Definition first_pass (messages : list Message) : list Message := transform_all [] (downgradeUnsupportedImages messages model).

End Transform.

(** ** The second pass *)

Record Pass := {
  ps_result : list Message;
  ps_indices : option (list (option Z));
  ps_pending : list ToolCall;
  ps_existing : list jstring;
}.

Definition call_of (block : AssistantBlock) : option ToolCall := match block with AB_toolCall call => Some call | _ => None end.
Definition calls (m : AssistantMessage) : list ToolCall := omap call_of (asst_content m).

Section Second.
Context (now : nat -> Z) (sourceIndices : option (list Z)).

Definition synthetic_result (call : ToolCall) (timestamp : Z) : Message :=
  M_toolResult
    {| tres_toolCallId := toolCall_id call; tres_toolName := toolCall_name call; tres_content := [UB_text (plain_text (js "No result provided"))];
       tres_details := None; tres_usage := None; tres_addedToolNames := None; tres_isError := true; tres_timestamp := timestamp |}.

Definition push_message (p : Pass) (message : Message) (index : option Z) : Pass :=
  {| ps_result := ps_result p ++ [message]; ps_indices := (fun indices => indices ++ [index]) <$> ps_indices p;
     ps_pending := ps_pending p; ps_existing := ps_existing p |}.

Definition with_pending (p : Pass) (pending : list ToolCall) (existing : list jstring) : Pass :=
  {| ps_result := ps_result p; ps_indices := ps_indices p; ps_pending := pending; ps_existing := existing |}.

Definition insert_one (p : Pass) (call : ToolCall) : Pass :=
  if bool_decide (toolCall_id call ∈ ps_existing p) then p else push_message p (synthetic_result call (now (length (ps_result p)))) (Some (-1)).

Definition insertSyntheticToolResults (p : Pass) : Pass :=
  match ps_pending p with [] => p | pending => with_pending (foldl insert_one p pending) [] [] end.

Definition skipped (m : AssistantMessage) : bool := bool_decide (asst_stopReason m = SR_error) || bool_decide (asst_stopReason m = SR_aborted).

Definition second_step (p : Pass) (i : nat) (message : Message) : Pass :=
  let index := sourceIndices ≫= (fun indices => indices !! i) in
  match message with
  | M_assistant m =>
      let p := insertSyntheticToolResults p in
      if skipped m then p
      else push_message (match calls m with [] => p | toolCalls => with_pending p toolCalls [] end) message index
  | M_toolResult m => push_message (with_pending p (ps_pending p) (tres_toolCallId m :: ps_existing p)) message index
  | M_user _ => push_message (insertSyntheticToolResults p) message index
  | M_system _ => push_message p message index
  end.

Fixpoint second_loop (p : Pass) (i : nat) (messages : list Message) : Pass :=
  match messages with
  | [] => insertSyntheticToolResults p
  | message :: messages => second_loop (second_step p i message) (S i) messages
  end.

(** The messages, and what [sourceIndices] holds afterwards. *)
Definition transformMessages (messages : list Message) (model : TargetModel)
    (normalizeToolCallId : option (jstring -> TargetModel -> AssistantMessage -> jstring)) : list Message * option (list (option Z)) :=
  let p := second_loop {| ps_result := []; ps_indices := (fun _ => []) <$> sourceIndices; ps_pending := []; ps_existing := [] |} O (first_pass model normalizeToolCallId messages) in
  (ps_result p, ps_indices p).

End Second.

(** [normalizeToolCallId] of packages/ai/src/api/anthropic-messages.ts. *)
Definition id_character (u : Z) : bool :=
  ((97 <=? u) && (u <=? 122)) || ((65 <=? u) && (u <=? 90)) || ((48 <=? u) && (u <=? 57)) || (u =? 95) || (u =? 45).

Definition anthropic_normalizeToolCallId (id : jstring) : jstring := take 64 ((fun u => if id_character u then u else 95) <$> id).

(** ** The second pass as a list *)

Section Emitted.
Context (now : nat -> Z) (sourceIndices : option (list Z)).

(** The results that are made up for pending calls, after [n] messages. *)
Fixpoint synthetic (n : nat) (existing : list jstring) (pending : list ToolCall) : list Message :=
  match pending with
  | [] => []
  | call :: pending =>
      if bool_decide (toolCall_id call ∈ existing) then synthetic n existing pending
      else synthetic_result call (now n) :: synthetic (S n) existing pending
  end.

(** What the pass adds for the messages from the [i]-th on, each with the number
    of the message it comes from. *)
Fixpoint emitted (n i : nat) (pending : list ToolCall) (existing : list jstring) (messages : list Message) : list (option nat * Message) :=
  let inserted := pair None <$> synthetic n existing pending in
  match messages with
  | [] => inserted
  | message :: rest =>
      match message with
      | M_assistant m =>
          inserted ++
          (if skipped m then emitted (n + length inserted) (S i) [] [] rest
           else (Some i, message) :: emitted (S (n + length inserted)) (S i) (calls m) [] rest)
      | M_user _ => inserted ++ (Some i, message) :: emitted (S (n + length inserted)) (S i) [] [] rest
      | M_toolResult m => (Some i, message) :: emitted (S n) (S i) pending (tres_toolCallId m :: existing) rest
      | M_system _ => (Some i, message) :: emitted (S n) (S i) pending existing rest
      end
  end.

Definition origin_index (origin : option nat) : option Z :=
  match origin with Some i => sourceIndices ≫= (fun indices => indices !! i) | None => Some (-1) end.

(** What a state of the pass has got more than another. *)
Definition extends (p p' : Pass) (added : list (option nat * Message)) : Prop :=
  ps_result p' = ps_result p ++ added.*2 /\ ps_indices p' = (fun indices => indices ++ (origin_index <$> added.*1)) <$> ps_indices p.

Lemma extends_app p1 p2 p3 a b : extends p1 p2 a -> extends p2 p3 b -> extends p1 p3 (a ++ b).
Proof using.
  intros [R1 I1] [R2 I2]. split; [by rewrite R2, R1, fmap_app, app_assoc|]. rewrite I2, I1, <- option_fmap_compose. apply option_fmap_ext. intros indices. cbn.
  by rewrite !fmap_app, app_assoc.
Qed.

Lemma extends_nil p pending existing : extends p (with_pending p pending existing) [].
Proof using. split; cbn; [by rewrite app_nil_r|]. rewrite <- (option_fmap_id (ps_indices p)) at 1. apply option_fmap_ext. intros indices. by rewrite app_nil_r. Qed.

Lemma pass_refl p : extends p p [].
Proof using. destruct p as [r i q x]. exact (extends_nil {| ps_result := r; ps_indices := i; ps_pending := q; ps_existing := x |} q x). Qed.

Lemma extends_push p message origin : extends p (push_message p message (origin_index origin)) [(origin, message)].
Proof using. done. Qed.

Lemma insert_extends pending : forall p, let p' := foldl (insert_one now) p pending in
  extends p p' (pair None <$> synthetic (length (ps_result p)) (ps_existing p) pending).
Proof using.
  induction pending as [|call pending IH]; intros p; [apply pass_refl|]. cbn [foldl synthetic]. unfold insert_one at 2. case_bool_decide as Hc; [apply IH|].
  rewrite fmap_cons. apply (extends_app _ (push_message p (synthetic_result call (now (length (ps_result p)))) (Some (-1))) _ [_] _).
  { apply (extends_push p _ None). }
  specialize (IH (push_message p (synthetic_result call (now (length (ps_result p)))) (Some (-1)))). cbn in IH. by rewrite length_app, Nat.add_1_r in IH.
Qed.

Lemma flush_extends p existing : ps_pending p = [] \/ ps_existing p = existing ->
  extends p (insertSyntheticToolResults now p) (pair None <$> synthetic (length (ps_result p)) existing (ps_pending p)) /\
  ps_pending (insertSyntheticToolResults now p) = [].
Proof using.
  intros He. unfold insertSyntheticToolResults. destruct (ps_pending p) as [|call pending] eqn:Hp; [split; [apply pass_refl|done]|]. destruct He as [|<-]; [done|].
  split; [|done]. rewrite <- (app_nil_r (_ <$> _)). eapply extends_app; [apply insert_extends|apply extends_nil].
Qed.

Lemma extends_length p p' added : extends p p' added -> length (ps_result p') = (length (ps_result p) + length added)%nat.
Proof using. intros [-> _]. by rewrite length_app, length_fmap. Qed.

Lemma loop_extends messages : forall p i existing, ps_pending p = [] \/ ps_existing p = existing ->
  extends p (second_loop now sourceIndices p i messages) (emitted (length (ps_result p)) i (ps_pending p) existing messages).
Proof using.
  induction messages as [|message messages IH]; intros p i existing He; [by apply flush_extends|].
  destruct (flush_extends p existing He) as [Hf Hp]. pose proof (extends_length _ _ _ Hf) as Hl.
  cbn [second_loop]. unfold second_step. destruct message as [m|m|m|m]; cbn [emitted].
  - apply (extends_app _ _ _ [_] _ (extends_push p (M_system m) (Some i))). specialize (IH (push_message p (M_system m) (origin_index (Some i))) (S i) existing He).
    cbn in IH |- *. by rewrite length_app, Nat.add_1_r in IH.
  - apply (extends_app _ _ _ _ _ Hf). apply (extends_app _ _ _ [_] _ (extends_push _ (M_user m) (Some i))).
    specialize (IH (push_message (insertSyntheticToolResults now p) (M_user m) (origin_index (Some i))) (S i) [] (or_introl Hp)).
    cbn in IH |- *. rewrite length_app, Nat.add_1_r, Hl, Hp in IH. exact IH.
  - apply (extends_app _ _ _ _ _ Hf). destruct (skipped m).
    + specialize (IH (insertSyntheticToolResults now p) (S i) [] (or_introl Hp)). by rewrite Hl, Hp in IH.
    + set (p1 := match calls m with [] => _ | _ => _ end). assert (Hp1 : extends (insertSyntheticToolResults now p) p1 [] /\ ps_pending p1 = calls m /\ (ps_pending p1 = [] \/ ps_existing p1 = [])).
      { unfold p1. destruct (calls m); [split_and!; [apply pass_refl|done|by left]|split_and!; [apply extends_nil|done|by right]]. }
      destruct Hp1 as (Hx & Hc & He1). apply (extends_app _ _ _ [] _ Hx), (extends_app _ _ _ [_] _ (extends_push p1 (M_assistant m) (Some i))).
      specialize (IH (push_message p1 (M_assistant m) (origin_index (Some i))) (S i) [] He1). cbn in IH |- *.
      rewrite length_app, Nat.add_1_r, (extends_length _ _ _ Hx), Hl, Hc, Nat.add_0_r in IH. exact IH.
  - set (p1 := with_pending p (ps_pending p) (tres_toolCallId m :: ps_existing p)).
    apply (extends_app _ _ _ [] _ (extends_nil p _ _ : extends p p1 [])), (extends_app _ _ _ [_] _ (extends_push p1 (M_toolResult m) (Some i))).
    assert (He1 : ps_pending p1 = [] \/ ps_existing p1 = tres_toolCallId m :: existing) by (destruct He as [|<-]; [by left|by right]).
    specialize (IH (push_message p1 (M_toolResult m) (origin_index (Some i))) (S i) _ He1). cbn in IH |- *. by rewrite length_app, Nat.add_1_r in IH.
Qed.

End Emitted.

(** ** Every call is answered *)

(** The calls that the tool results before the next user or assistant message
    answer. *)
Fixpoint turn_results (messages : list Message) : list jstring :=
  match messages with
  | M_toolResult m :: rest => tres_toolCallId m :: turn_results rest
  | M_system _ :: rest => turn_results rest
  | _ => []
  end.

(** No assistant message failed, and its calls are answered in its turn. *)
Fixpoint answered (messages : list Message) : Prop :=
  match messages with
  | [] => True
  | M_assistant m :: rest => skipped m = false /\ Forall (fun call => toolCall_id call ∈ turn_results rest) (calls m) /\ answered rest
  | _ :: rest => answered rest
  end.

(** The numbers of the messages that are kept. *)
Fixpoint kept_from (i : nat) (messages : list Message) : list nat :=
  match messages with
  | [] => []
  | M_assistant m :: rest => if skipped m then kept_from (S i) rest else i :: kept_from (S i) rest
  | _ :: rest => i :: kept_from (S i) rest
  end.

Section Answered.
Context (now : nat -> Z).

Lemma synthetic_turn existing pending rest : forall n,
  turn_results (synthetic now n existing pending ++ rest) = (toolCall_id <$> filter (fun call => toolCall_id call ∉ existing) pending) ++ turn_results rest.
Proof using.
  induction pending as [|call pending IH]; intros n; [done|]. cbn [synthetic]. rewrite filter_cons. case_bool_decide as Hc.
  - rewrite decide_False by naive_solver. apply IH.
  - rewrite decide_True by done. cbn. by rewrite IH.
Qed.

Lemma synthetic_answers existing pending rest n call : call ∈ pending ->
  toolCall_id call ∈ existing \/ toolCall_id call ∈ turn_results (synthetic now n existing pending ++ rest).
Proof using.
  intros Hc. destruct (decide (toolCall_id call ∈ existing)) as [|Hn]; [by left|right]. rewrite synthetic_turn. apply elem_of_app. left.
  apply list_elem_of_fmap_2. by apply list_elem_of_filter.
Qed.

Lemma synthetic_answered existing pending rest : forall n, answered rest -> answered (synthetic now n existing pending ++ rest).
Proof using. induction pending as [|call pending IH]; intros n Hr; [done|]. cbn [synthetic]. case_bool_decide; [by apply IH|]. cbn. by apply IH. Qed.

Lemma inserted_messages (l : list Message) : (pair (@None nat) <$> l).*2 = l.
Proof using. rewrite <- list_fmap_compose. apply list_fmap_id. Qed.

Lemma emitted_answers messages : forall n i pending existing,
  let out := (emitted now n i pending existing messages).*2 in
  (forall call, call ∈ pending -> toolCall_id call ∈ existing \/ toolCall_id call ∈ turn_results out) /\ answered out.
Proof using.
  induction messages as [|message messages IH]; intros n i pending existing; cbn [emitted].
  - cbn zeta. rewrite inserted_messages. split; [|rewrite <- (app_nil_r (synthetic _ _ _ _)); by apply synthetic_answered].
    intros call Hc. rewrite <- (app_nil_r (synthetic _ _ _ _)). by apply synthetic_answers.
  - destruct message as [m|m|m|m].
    + cbn. apply IH.
    + rewrite fmap_app, inserted_messages. split; [intros call Hc; by apply synthetic_answers|apply synthetic_answered]. cbn. apply IH.
    + rewrite fmap_app, inserted_messages. split; [intros call Hc; by apply synthetic_answers|apply synthetic_answered]. destruct (skipped m) eqn:Hs; [apply IH|].
      cbn. set (n' := S _). destruct (IH n' (S i) (calls m) []) as [IH1 IH2]. split_and!; [done| |done]. apply Forall_forall. intros call Hc. by destruct (IH1 call Hc) as [Hn%not_elem_of_nil|].
    + destruct (IH (S n) (S i) pending (tres_toolCallId m :: existing)) as [IH1 IH2]. cbn. split; [|done]. intros call Hc. specialize (IH1 call Hc).
      rewrite elem_of_cons in IH1 |- *. tauto.
Qed.

Definition from_message (messages : list Message) (i : nat) (item : option nat * Message) : Prop :=
  match item.1 with
  | Some j => (i <= j)%nat /\ messages !! (j - i)%nat = Some item.2
  | None => True
  end.

Lemma from_later message messages i item : from_message messages (S i) item -> from_message (message :: messages) i item.
Proof using.
  unfold from_message. destruct item.1 as [j|]; [|done]. intros [Hl Hm]. split; [lia|]. replace (j - i)%nat with (S (j - S i)) by lia. exact Hm.
Qed.

Lemma from_here message messages i : from_message (message :: messages) i (Some i, message).
Proof using. split; [done|]. by rewrite Nat.sub_diag. Qed.

Lemma inserted_from messages i (l : list Message) : Forall (from_message messages i) (pair None <$> l) /\ omap (@fst (option nat) Message) (pair None <$> l) = [].
Proof using. induction l as [|m l [IH1 IH2]]; [done|]. split; [by constructor|done]. Qed.

Lemma emitted_origins messages : forall n i pending existing,
  Forall (from_message messages i) (emitted now n i pending existing messages) /\ omap fst (emitted now n i pending existing messages) = kept_from i messages.
Proof using.
  assert (Hlater : forall message messages i items, Forall (from_message messages (S i)) items -> Forall (from_message (message :: messages) i) items).
  { intros message ms i items Hf. eapply Forall_impl; [exact Hf|]. intros. by apply from_later. }
  induction messages as [|message messages IH]; intros n i pending existing; cbn [emitted kept_from]; [by apply inserted_from|].
  destruct (inserted_from (message :: messages) i (synthetic now n existing pending)) as [Hi Hi'].
  destruct message as [m|m|m|m].
  - destruct (IH (S n) (S i) pending existing) as [IH1 IH2]. split; [constructor; [apply from_here|by apply Hlater]|]. cbn. by rewrite IH2.
  - match goal with |- context [emitted now ?n' (S i) [] [] messages] => destruct (IH n' (S i) [] []) as [IH1 IH2] end.
    split; [apply Forall_app; split; [done|constructor; [apply from_here|by apply Hlater]]|]. rewrite omap_app, Hi'. cbn. by rewrite IH2.
  - destruct (skipped m).
    + match goal with |- context [emitted now ?n' (S i) [] [] messages] => destruct (IH n' (S i) [] []) as [IH1 IH2] end.
      split; [apply Forall_app; split; [done|by apply Hlater]|]. by rewrite omap_app, Hi'.
    + match goal with |- context [emitted now ?n' (S i) (calls m) [] messages] => destruct (IH n' (S i) (calls m) []) as [IH1 IH2] end.
      split; [apply Forall_app; split; [done|constructor; [apply from_here|by apply Hlater]]|]. rewrite omap_app, Hi'. cbn. by rewrite IH2.
  - destruct (IH (S n) (S i) pending (tres_toolCallId m :: existing)) as [IH1 IH2]. split; [constructor; [apply from_here|by apply Hlater]|]. cbn. by rewrite IH2.
Qed.

End Answered.

Lemma transform_extends now sourceIndices messages model normalize :
  let out := emitted now O O [] [] (first_pass model normalize messages) in
  (transformMessages now sourceIndices messages model normalize).1 = out.*2 /\
  (transformMessages now sourceIndices messages model normalize).2 = (fun _ => origin_index sourceIndices <$> out.*1) <$> sourceIndices.
Proof.
  cbn zeta. unfold transformMessages. set (p := Build_Pass [] _ [] []). destruct (loop_extends now sourceIndices (first_pass model normalize messages) p O [] (or_introl eq_refl)) as [Hr Hi].
  cbn in Hr, Hi |- *. rewrite Hr, Hi. split; [done|]. rewrite <- option_fmap_compose. done.
Qed.

(** C17: whatever the history is, in what is sent to a provider no assistant message
    is one that failed or was aborted, and every tool call is answered by a tool
    result before the next user or assistant message. *)
Theorem calls_answered now sourceIndices messages model normalize : answered (transformMessages now sourceIndices messages model normalize).1.
Proof. rewrite (proj1 (transform_extends now sourceIndices messages model normalize)). apply emitted_answers. Qed.

(** what is sent consists of the messages of the first pass that did not fail,
    each once and in order, and of inserted results; and the source indices that
    are handed back tell for every message which one it is, or -1 if it was
    inserted. *)
Theorem sources_tracked now sourceIndices messages model normalize :
  let first := first_pass model normalize messages in
  exists origins : list (option nat),
    omap id origins = kept_from 0 first /\
    length origins = length (transformMessages now sourceIndices messages model normalize).1 /\
    (forall k i, origins !! k = Some (Some i) -> (transformMessages now sourceIndices messages model normalize).1 !! k = first !! i) /\
    (transformMessages now sourceIndices messages model normalize).2 =
      (fun indices => (fun origin => match origin with Some i => indices !! i | None => Some (-1) end) <$> origins) <$> sourceIndices.
Proof.
  cbn zeta. destruct (transform_extends now sourceIndices messages model normalize) as [-> ->]. set (first := first_pass model normalize messages).
  destruct (emitted_origins now first O O [] []) as [Hf Ho]. set (out := emitted now O O [] [] first) in *. exists out.*1. split_and!.
  - rewrite <- Ho. clear. induction out as [|[[i|] m] out IH]; [done| |exact IH]. cbn. f_equal. exact IH.
  - by rewrite !length_fmap.
  - intros k i Hk. rewrite list_lookup_fmap in Hk. rewrite list_lookup_fmap. destruct (out !! k) as [[o m]|] eqn:E; [|done]. injection Hk as ->. rewrite Forall_lookup in Hf.
    destruct (Hf k _ E) as [_ Hm]. by rewrite Nat.sub_0_r in Hm.
  - by destruct sourceIndices.
Qed.

(** ** Complete histories *)

(** The calls of every assistant message that did not fail are answered in its turn. *)
Fixpoint complete (messages : list Message) : Prop :=
  match messages with
  | [] => True
  | M_assistant m :: rest => (skipped m = false -> Forall (fun call => toolCall_id call ∈ turn_results rest) (calls m)) /\ complete rest
  | _ :: rest => complete rest
  end.

Definition message_calls (message : Message) : list ToolCall := match message with M_assistant m => calls m | _ => [] end.
Definition call_ids (messages : list Message) : list jstring := toolCall_id <$> mjoin (message_calls <$> messages).
Definition kept (message : Message) : bool := match message with M_assistant m => negb (skipped m) | _ => true end.

Lemma synthetic_none now existing pending n : (forall call, call ∈ pending -> toolCall_id call ∈ existing) -> synthetic now n existing pending = [].
Proof.
  induction pending as [|call pending IH]; intros Hp; [done|]. cbn [synthetic]. rewrite bool_decide_true by (apply Hp; left). apply IH. intros c Hc. apply Hp. by right.
Qed.

Lemma emitted_complete now messages : forall n i pending existing, complete messages ->
  (forall call, call ∈ pending -> toolCall_id call ∈ existing \/ toolCall_id call ∈ turn_results messages) ->
  (emitted now n i pending existing messages).*2 = List.filter kept messages.
Proof.
  induction messages as [|message messages IH]; intros n i pending existing Hc Hp; cbn [emitted].
  - rewrite synthetic_none; [done|]. intros call Hin. by destruct (Hp call Hin) as [|Hn%not_elem_of_nil].
  - destruct message as [m|m|m|m]; cbn [complete turn_results List.filter kept] in *.
    + cbn. f_equal. by apply IH.
    + rewrite synthetic_none by (intros call Hin; by destruct (Hp call Hin) as [|Hn%not_elem_of_nil]). cbn. f_equal. apply IH; [done|]. by intros call Hn%not_elem_of_nil.
    + rewrite synthetic_none by (intros call Hin; by destruct (Hp call Hin) as [|Hn%not_elem_of_nil]). destruct Hc as [Hm Hc]. destruct (skipped m); cbn.
      * apply IH; [done|]. by intros call Hn%not_elem_of_nil.
      * f_equal. apply IH; [done|]. intros call Hin. right. specialize (Hm eq_refl). rewrite Forall_forall in Hm. by apply Hm.
    + cbn. f_equal. apply IH; [done|]. intros call Hin. specialize (Hp call Hin). rewrite elem_of_cons in Hp |- *. tauto.
Qed.

Lemma mjoin_cons {A} (l : list A) ls : mjoin (l :: ls) = l ++ mjoin ls.
Proof. done. Qed.

Section Renaming.
Context (model : TargetModel) (normalize : option (jstring -> TargetModel -> AssistantMessage -> jstring)).

Lemma transform_calls m : calls (with_content m (mjoin (transform_block model normalize m <$> asst_content m))) = transform_call model normalize m <$> calls m.
Proof using.
  unfold calls. cbn. induction (asst_content m) as [|block content IH]; [done|]. rewrite fmap_cons, mjoin_cons, omap_app, IH.
  destruct block as [t|t|c]; cbn; [by destruct (isSameModel model m)| |done]. unfold transform_thinking. by repeat case_match.
Qed.

Lemma turn_results_transformed messages : forall ids, turn_results (transform_all model normalize ids messages) = renamed ids <$> turn_results messages.
Proof using.
  induction messages as [|message messages IH]; intros ids; [done|]. destruct message as [m|m|m|m]; cbn; [apply IH|done|done|].
  case_bool_decide as Hr; cbn; rewrite IH; [done|]. f_equal. destruct (decide (renamed ids (tres_toolCallId m) = tres_toolCallId m)); naive_solver.
Qed.

Lemma record_other m content id : forall ids, id ∉ toolCall_id <$> omap call_of content ->
  map_get id (foldl (record_call model normalize m) ids content) = map_get id ids.
Proof using.
  induction content as [|block content IH]; intros ids Hn; [done|]. cbn [foldl]. destruct block as [t|t|c]; cbn in Hn |- *; [by apply IH|by apply IH|].
  apply not_elem_of_cons in Hn as [Hc Hn]. rewrite IH by done. case_bool_decide; [|done]. by apply map_get_set_ne.
Qed.

Lemma record_own m content : forall ids, NoDup (toolCall_id <$> omap call_of content) ->
  (forall id, id ∈ toolCall_id <$> omap call_of content -> map_get id ids = None /\ normalized_id model normalize m id <> []) ->
  forall id, id ∈ toolCall_id <$> omap call_of content -> renamed (foldl (record_call model normalize m) ids content) id = normalized_id model normalize m id.
Proof using.
  induction content as [|block content IH]; intros ids Hd Hids id Hid; [by apply not_elem_of_nil in Hid|].
  cbn [foldl]. destruct block as [t|t|c]; cbn [omap list_omap call_of record_call] in *; [by apply IH|by apply IH|]. rewrite fmap_cons in *.
  apply NoDup_cons in Hd as [Hn Hd]. apply elem_of_cons in Hid as [->|Hid].
  - unfold renamed. rewrite record_other by done. destruct (Hids (toolCall_id c) ltac:(left)) as [Hg Hne].
    case_bool_decide as Hc; [rewrite map_get_set_eq; by destruct (normalized_id model normalize m (toolCall_id c))|].
    rewrite Hg. destruct (decide (normalized_id model normalize m (toolCall_id c) = toolCall_id c)); [done|naive_solver].
  - apply IH; [done| |done]. intros id' Hid'. destruct (Hids id' ltac:(by right)) as [Hg Hne]. split; [|done]. case_bool_decide; [|done]. rewrite map_get_set_ne; [done|].
    by intros ->.
Qed.

Lemma complete_transformed messages : forall ids, complete messages -> NoDup (call_ids messages) ->
  (forall id, id ∈ call_ids messages -> map_get id ids = None) -> (forall m id, normalized_id model normalize m id = [] -> id = []) -> [] ∉ call_ids messages ->
  complete (transform_all model normalize ids messages).
Proof using.
  intros ids Hc Hd Hids Hne. revert ids Hc Hd Hids. induction messages as [|message messages IH]; intros ids Hc Hd Hids He; [done|].
  unfold call_ids in *. rewrite fmap_cons, mjoin_cons, fmap_app in *. apply NoDup_app in Hd as (Hd1 & Hd2 & Hd3). apply not_elem_of_app in He as [He1 He2].
  assert (Hrest : forall ids', (forall id, id ∉ toolCall_id <$> message_calls message -> map_get id ids' = map_get id ids) ->
            complete messages -> complete (transform_all model normalize ids' messages)).
  { intros ids' Hsame Hm. apply IH; [done|done| |done]. intros id Hid. rewrite Hsame; [apply Hids, elem_of_app; by right|]. intros Hin. by apply (Hd2 id Hin). }
  destruct message as [m|m|m|m]; cbn [complete transform_all transform_message] in *; [by apply Hrest|by apply Hrest| |case_bool_decide; by apply Hrest].
  destruct Hc as [Hm Hc]. split; [|apply Hrest; [|done]; intros id Hid; by apply record_other].
  intros Hs. specialize (Hm Hs). rewrite transform_calls. apply Forall_fmap. rewrite turn_results_transformed. eapply Forall_impl; [apply Forall_and; split; [exact Hm|apply Forall_forall; intros c Hcc; exact Hcc]|].
  intros c [Ht Hcc]. cbn. apply list_elem_of_fmap. exists (toolCall_id c). split; [|done]. symmetry. apply record_own; [done| |by apply list_elem_of_fmap_2].
  intros id Hid. split; [apply Hids, elem_of_app; by left|]. intros Hz. apply Hne in Hz. subst id. by apply He1.
Qed.

Lemma downgraded_turn messages : turn_results (downgrade <$> messages) = turn_results messages /\ (complete messages -> complete (downgrade <$> messages)) /\
  call_ids (downgrade <$> messages) = call_ids messages.
Proof using.
  induction messages as [|message messages (IH1 & IH2 & IH3)]; [done|]. unfold call_ids in *. rewrite !fmap_cons, !mjoin_cons, !fmap_app, IH3.
  destruct message as [m|m|m|m]; cbn; [done|by destruct (user_content m)| |by rewrite IH1]. rewrite IH1. split_and!; [done|naive_solver|done].
Qed.

End Renaming.


(** ** What a model can take *)

Definition is_text (block : UserBlock) : Prop := match block with UB_text _ => True | UB_image _ => False end.

(** Without signatures or thinking of another model. *)
Definition portable (block : AssistantBlock) : Prop :=
  match block with
  | AB_text t => text_textSignature t = None
  | AB_thinking _ => False
  | AB_toolCall call => truthy (toolCall_thoughtSignature call) = None
  end.

(** No images in what users and tools say to a model that does not take them, and
    nothing private of another model in an answer.  System messages are left as
    they are, with their images. *)
Definition acceptable (model : TargetModel) (message : Message) : Prop :=
  match message with
  | M_system _ => True
  | M_user m => tm_images model = true \/ match user_content m with UC_blocks blocks => Forall is_text blocks | UC_string _ => True end
  | M_assistant m => isSameModel model m = true \/ Forall portable (asst_content m)
  | M_toolResult m => tm_images model = true \/ Forall is_text (tres_content m)
  end.

(** The blocks of an own message that are sent: all but empty thinking. *)
Definition own_block (block : AssistantBlock) : bool :=
  match block with
  | AB_thinking t =>
      bool_decide (thinking_redacted t = Some true) || bool_decide (truthy (thinking_thinkingSignature t) <> None) || negb (bool_decide (trim (thinking_thinking t) = []))
  | _ => true
  end.

Definition system_message (message : Message) : option SystemMessage := match message with M_system m => Some m | _ => None end.

(** An answer of the model itself that did not fail. *)
Definition own_message (model : TargetModel) (message : Message) : option AssistantMessage :=
  match message with M_assistant m => if isSameModel model m && negb (skipped m) then Some m else None | _ => None end.

Section Acceptable.
Context (model : TargetModel) (normalize : option (jstring -> TargetModel -> AssistantMessage -> jstring)).

Lemma replaced_text placeholder content : forall previous, Forall is_text (replace_images placeholder previous content).
Proof using. induction content as [|[t|i] content IH]; intros previous; cbn; [done|by constructor|]. destruct previous; [apply IH|by constructor]. Qed.

Lemma block_portable m block : isSameModel model m = false -> Forall portable (transform_block model normalize m block).
Proof using.
  intros Hs. unfold transform_block, transform_thinking, transform_call. rewrite Hs. destruct block as [t|t|c]; [by repeat constructor| |].
  - repeat case_match; by repeat constructor.
  - constructor; [|done]. cbn. case_bool_decide as Ht; [done|]. destruct (truthy (toolCall_thoughtSignature c)) eqn:E; [by destruct Ht|done].
Qed.

Lemma own_id m id : isSameModel model m = true -> normalized_id model normalize m id = id.
Proof using. intros Hs. unfold normalized_id. rewrite Hs. by destruct normalize. Qed.

Lemma own_content m : isSameModel model m = true -> mjoin (transform_block model normalize m <$> asst_content m) = List.filter own_block (asst_content m).
Proof using.
  intros Hs. induction (asst_content m) as [|block content IH]; [done|]. rewrite fmap_cons, mjoin_cons, IH. cbn [List.filter]. unfold transform_block, transform_thinking, transform_call. rewrite Hs.
  destruct block as [t|t|c]; cbn [own_block]; [done| |].
  - repeat case_bool_decide; done.
  - cbn [negb andb app]. rewrite own_id by done. by destruct c.
Qed.

Lemma message_acceptable ids message : match message with M_assistant _ => True | _ => acceptable model message end ->
  acceptable model (transform_message model normalize ids message).2.
Proof using.
  destruct message as [m|m|m|m]; cbn; [done|done| |by case_bool_decide]. intros _. change (isSameModel model (with_content m _)) with (isSameModel model m).
  destruct (isSameModel model m) eqn:Hs; [by left|right]. induction (asst_content m) as [|block content IH]; [done|]. rewrite fmap_cons, mjoin_cons. apply Forall_app. split; [by apply block_portable|done].
Qed.

Lemma transformed_acceptable messages : forall ids, Forall (fun message => match message with M_assistant _ => True | _ => acceptable model message end) messages ->
  Forall (acceptable model) (transform_all model normalize ids messages).
Proof using.
  induction messages as [|message messages IH]; intros ids Hf; [done|]. apply Forall_cons in Hf as [Hm Hf]. cbn [transform_all].
  pose proof (message_acceptable ids message Hm) as Ha. destruct (transform_message model normalize ids message) as [ids' message']. constructor; [done|by apply IH].
Qed.

Lemma first_acceptable messages : Forall (acceptable model) (first_pass model normalize messages).
Proof using.
  apply transformed_acceptable. unfold downgradeUnsupportedImages. destruct (tm_images model) eqn:Hi.
  - apply Forall_forall. intros [m|m|m|m] _; cbn; auto.
  - apply Forall_fmap, Forall_forall. intros [m|m|m|m] _; cbn; [done| |done|].
    + destruct (user_content m) eqn:Hc; cbn; [by rewrite Hc; right|right; apply replaced_text].
    + right. apply replaced_text.
Qed.

(** What is read off messages that the first pass leaves alone. *)
Lemma transformed_omap {A} (f : Message -> option A) (g : A -> A) : (forall ids message, f (transform_message model normalize ids message).2 = g <$> f message) ->
  forall messages ids, omap f (transform_all model normalize ids messages) = g <$> omap f messages.
Proof using.
  intros Hf. induction messages as [|message messages IH]; intros ids; [done|]. cbn [transform_all]. specialize (Hf ids message).
  destruct (transform_message model normalize ids message) as [ids' message']. cbn [snd] in Hf. cbn [omap list_omap]. rewrite Hf, IH. by destruct (f message).
Qed.

Lemma downgraded_omap {A} (f : Message -> option A) : (forall message, f (downgrade message) = f message) ->
  forall messages, omap f (downgradeUnsupportedImages messages model) = omap f messages.
Proof using.
  intros Hf messages. unfold downgradeUnsupportedImages. destruct (tm_images model); [done|].
  induction messages as [|message messages IH]; [done|]. cbn [fmap list_fmap omap list_omap]. rewrite Hf. destruct (f message); [f_equal|]; apply IH.
Qed.

(** The second pass drops failed answers and adds results only. *)
Lemma emitted_omap {A} (f : Message -> option A) now : (forall m, f (M_toolResult m) = None) -> (forall m, skipped m = true -> f (M_assistant m) = None) ->
  forall messages n i pending existing, omap f (emitted now n i pending existing messages).*2 = omap f messages.
Proof using.
  intros Hr Hs. assert (Hsyn : forall existing pending n, omap f (pair (@None nat) <$> synthetic now n existing pending).*2 = []).
  { intros existing pending. induction pending as [|c pending IH]; intros n; [done|]. cbn [synthetic]. case_bool_decide; [apply IH|]. cbn [fmap list_fmap omap list_omap snd].
    unfold synthetic_result. rewrite Hr. apply IH. }
  induction messages as [|message messages IH]; intros n i pending existing; cbn [emitted]; [apply Hsyn|].
  destruct message as [m|m|m|m]; rewrite ?fmap_app, ?omap_app, ?Hsyn; cbn [app fmap list_fmap omap list_omap snd]; rewrite ?Hr, ?IH; try done.
  destruct (skipped m) eqn:E; [by rewrite (Hs m E)|]. cbn [fmap list_fmap omap list_omap snd]. by rewrite IH.
Qed.

Lemma own_transformed ids message : own_message model (transform_message model normalize ids message).2 =
  (fun m => with_content m (List.filter own_block (asst_content m))) <$> own_message model message.
Proof using.
  destruct message as [m|m|m|m]; cbn; [done|done| |by case_bool_decide]. change (isSameModel model (with_content m _)) with (isSameModel model m).
  change (skipped (with_content m _)) with (skipped m). destruct (isSameModel model m) eqn:Hs; [|done]. destruct (skipped m); [done|]. cbn. by rewrite own_content.
Qed.

Lemma system_transformed ids message : system_message (transform_message model normalize ids message).2 = id <$> system_message message.
Proof using. destruct message as [m|m|m|m]; cbn; [done..|by case_bool_decide]. Qed.

Lemma emitted_acceptable now messages : forall n i pending existing, Forall (acceptable model) messages -> Forall (acceptable model) (emitted now n i pending existing messages).*2.
Proof using.
  assert (Hs : forall existing pending n, Forall (acceptable model) (pair (@None nat) <$> synthetic now n existing pending).*2).
  { intros existing pending. induction pending as [|c pending IH]; intros n; [done|]. cbn [synthetic]. case_bool_decide; [apply IH|]. constructor; [|apply IH]. right. by repeat constructor. }
  induction messages as [|message messages IH]; intros n i pending existing Hf; cbn [emitted]; [apply Hs|]. apply Forall_cons in Hf as [Hm Hf].
  destruct message as [m|m|m|m]; cbn [fmap list_fmap]; rewrite ?fmap_app; [by constructor; auto| | |by constructor; auto]; apply Forall_app; (split; [apply Hs|]).
  - constructor; auto.
  - destruct (skipped m); [auto|constructor; auto].
Qed.

End Acceptable.

(** C19: whatever the history, a model that does not support images gets none in
    messages of the user and in tool results, and no model gets thinking blocks or
    signatures in answers of another model.  The system messages that are sent are
    exactly those given, unchanged (also where they hold images), and the answers of
    the model itself that did not fail are sent in their order, each as it was but
    for empty thinking blocks. *)
Theorem only_acceptable_sent now sourceIndices messages model normalize :
  let sent := (transformMessages now sourceIndices messages model normalize).1 in
  Forall (acceptable model) sent /\ omap system_message sent = omap system_message messages /\
  omap (own_message model) sent = (fun m => with_content m (List.filter own_block (asst_content m))) <$> omap (own_message model) messages.
Proof.
  cbn zeta. rewrite (proj1 (transform_extends now sourceIndices messages model normalize)). split; [apply emitted_acceptable, first_acceptable|].
  unfold first_pass. split.
  - rewrite emitted_omap by done. rewrite (transformed_omap _ _ _ id (system_transformed model normalize)), list_fmap_id. apply downgraded_omap. intros [?|m|?|?]; [done|cbn; by destruct (user_content m)|done|done].
  - rewrite emitted_omap; [|done|intros m Hm; unfold own_message; by rewrite Hm, andb_false_r].
    rewrite (transformed_omap _ _ _ _ (own_transformed model normalize)). f_equal. apply downgraded_omap. intros [?|m|?|?]; [done|cbn; by destruct (user_content m)|done|done].
Qed.

(** ** The cached prefix *)

Lemma cache_safe_groups sources volatileFrom : Forall (fun group => existsb (unsafe_index volatileFrom) group = false) (take (cacheSafePrefix sources volatileFrom) sources).
Proof. induction sources as [|group sources IH]; [done|]. cbn. destruct (existsb _ group) eqn:E; [done|]. by constructor. Qed.

(** The sources of the messages that are kept, in step with them. *)
Lemma imap_kept {A B} (dropped : A -> bool) (l : list A) : forall (g : nat -> B),
  let sources := mjoin (imap (fun i x => if dropped x then [] else [g i]) l) in
  length sources = length (List.filter (fun x => negb (dropped x)) l) /\
  forall i y, sources !! i = Some y -> exists j, y = g j /\ List.filter (fun x => negb (dropped x)) l !! i = l !! j.
Proof.
  induction l as [|x l IH]; intros g; [done|]. cbn zeta. rewrite imap_cons. change (mjoin (?a :: ?b)) with (a ++ mjoin b). cbn [List.filter].
  specialize (IH (g ∘ S)). cbn zeta in IH. destruct IH as [IH1 IH2]. destruct (dropped x); cbn [negb app].
  - split; [exact IH1|]. intros i y Hi. destruct (IH2 i y Hi) as (j & -> & Hj). by exists (S j).
  - split; [cbn; f_equal; exact IH1|]. intros [|i] y Hi; [injection Hi as <-; by exists O|]. destruct (IH2 i y Hi) as (j & -> & Hj). by exists (S j).
Qed.

Lemma split_clean messages systemPrompt :
  (splitSystemMessages messages systemPrompt).2 = List.filter (fun m => negb (bool_decide (truthy systemPrompt = None) && is_system m)) messages.
Proof.
  unfold splitSystemMessages. destruct (truthy systemPrompt) as [prompt|]; cbn.
  - symmetry. by apply filter_all.
  - destruct (omap system_text messages) eqn:E; cbn; [|done]. symmetry. apply filter_all, Forall_forall. revert E. induction messages as [|m messages IH]; intros E; [done|].
    destruct m; cbn in E; try done; constructor; auto.
Qed.

Lemma first_length model normalize messages : length (first_pass model normalize messages) = length messages.
Proof.
  assert (H : forall l ids, length (transform_all model normalize ids l) = length l).
  { induction l as [|m l IH]; intros ids; [done|]. cbn [transform_all]. destruct (transform_message model normalize ids m). cbn. by rewrite IH. }
  unfold first_pass, downgradeUnsupportedImages. rewrite H. destruct (tm_images model); [done|by rewrite length_fmap].
Qed.

(** A message whose index is safe is one of the messages that were given. *)
Lemma safe_origin now sources messages model normalize volatileFrom k index : length sources = length messages ->
  let '(result, indices) := transformMessages now (Some sources) messages model normalize in
  (indices ≫= (fun indices => indices !! k)) = Some index -> unsafe_index volatileFrom index = false ->
  exists i source, sources !! i = Some source /\ 0 <= source < volatileFrom /\ result !! k = first_pass model normalize messages !! i.
Proof.
  intros Hlen. destruct (transformMessages now (Some sources) messages model normalize) as [result indices] eqn:E.
  pose proof (transform_extends now (Some sources) messages model normalize) as [Hr Hi]. rewrite E in Hr, Hi. cbn in Hr, Hi. subst result indices. cbn.
  destruct (emitted_origins now (first_pass model normalize messages) O O [] []) as [Hf _]. rewrite !list_lookup_fmap.
  destruct (emitted now O O [] [] (first_pass model normalize messages) !! k) as [[origin message]|] eqn:Ek; [|done]. cbn. intros [= <-] Hu.
  rewrite Forall_lookup in Hf. specialize (Hf k _ Ek). unfold from_message in Hf. cbn in Hf. destruct origin as [i|]; [|done]. destruct Hf as [_ Hm]. rewrite Nat.sub_0_r in Hm.
  apply lookup_lt_Some in Hm as Hlt. rewrite first_length, <- Hlen in Hlt. apply lookup_lt_is_Some in Hlt as [source Hs]. exists i, source. rewrite Hm. cbn in Hu. rewrite Hs in Hu. cbn in Hu.
  apply orb_false_iff in Hu as [H1 H2]. split_and!; [done|lia|lia|done].
Qed.

(** C20: the messages of a request under a cache breakpoint, however they are
    grouped, are messages of the context whose sources lie before the volatile
    part; no inserted message and none of the volatile part is among them. *)
Theorem cached_prefix_stable now messages volatileFrom given systemPrompt model normalize sources groups k :
  let options := {| co_volatileFrom := Some volatileFrom; co_sourceIndices := given |} in
  let clean := (splitSystemMessages messages systemPrompt).2 in
  cacheMessageSources messages (Some options) systemPrompt = Some sources ->
  (transformMessages now (Some sources) clean model normalize).2 = Some (mjoin groups) ->
  (k < length (mjoin (take (cacheSafePrefix groups volatileFrom) groups)))%nat ->
  exists i j source, (transformMessages now (Some sources) clean model normalize).1 !! k = first_pass model normalize clean !! i /\ clean !! i = messages !! j /\
    source = default (Z.of_nat j) (given ≫= (fun indices => indices !! j)) /\ 0 <= source < volatileFrom.
Proof.
  intros options clean Hsources Hindices Hk. unfold cacheMessageSources in Hsources. cbn in Hsources. destruct (volatileFrom <? 0); [done|].
  destruct (match given with Some _ => _ | None => _ end); [done|]. injection Hsources as Hsources.
  destruct (imap_kept (fun m => bool_decide (truthy systemPrompt = None) && is_system m) messages (fun j => default (Z.of_nat j) (given ≫= (fun indices => indices !! j)))) as [Hlen Hget].
  rewrite <- (split_clean messages systemPrompt) in Hlen, Hget. fold clean in Hlen, Hget. rewrite Hsources in Hlen, Hget.
  apply lookup_lt_is_Some in Hk as [index Hk]. set (n := cacheSafePrefix groups volatileFrom) in Hk.
  assert (Hu : unsafe_index volatileFrom index = false).
  { pose proof (list_elem_of_lookup_2 _ _ _ Hk) as Hin. apply list_elem_of_join in Hin as (group & Hin & Hg). pose proof (cache_safe_groups groups volatileFrom) as Hs.
    rewrite Forall_forall in Hs. specialize (Hs group Hg). destruct (unsafe_index volatileFrom index) eqn:E; [|done]. rewrite <- Hs. symmetry. apply existsb_exists.
    exists index. split; [by apply list_elem_of_In|done]. }
  assert (Hi : mjoin groups !! k = Some index). { rewrite <- (take_drop n groups), join_app. by apply lookup_app_l_Some. }
  pose proof (safe_origin now sources clean model normalize volatileFrom k index Hlen) as Hsafe.
  destruct (transformMessages now (Some sources) clean model normalize) as [result indices]. cbn in Hindices. subst indices. destruct (Hsafe Hi Hu) as (i & source & Hs & Hb & Hr).
  destruct (Hget i source Hs) as (j & Hj & Hc). exists i, j, source. done.
Qed.

(** ** A history *)

Module History.

Definition zero_usage : Usage :=
  {| usage_input := nzero; usage_output := nzero; usage_cacheRead := nzero; usage_cacheWrite := nzero; usage_cacheWrite1h := None; usage_reasoning := None;
     usage_totalTokens := nzero; usage_cost := {| cost_input := nzero; cost_output := nzero; cost_cacheRead := nzero; cost_cacheWrite := nzero; cost_total := nzero |} |}.

Definition assistant (provider : jstring) (stopReason : StopReason) (content : list AssistantBlock) : AssistantMessage :=
  {| asst_content := content; asst_api := js "api"; asst_provider := provider; asst_model := js "m"; asst_responseModel := None; asst_responseId := None;
     asst_diagnostics := None; asst_usage := zero_usage; asst_stopReason := stopReason; asst_deferred := None; asst_errorMessage := None; asst_rawStopReason := None;
     asst_endTurn := None; asst_timestamp := 0 |}.

Definition call (id : jstring) : AssistantBlock :=
  AB_toolCall {| toolCall_id := id; toolCall_name := js "read"; toolCall_arguments := []; toolCall_thoughtSignature := None; toolCall_namespace := None |}.

Definition result (id : jstring) : Message :=
  M_toolResult {| tres_toolCallId := id; tres_toolName := js "read"; tres_content := []; tres_details := None; tres_usage := None; tres_addedToolNames := None;
                  tres_isError := false; tres_timestamp := 0 |}.

Definition user (text : jstring) : Message := M_user {| user_content := UC_string text; user_timestamp := 0 |}.
Definition system (text : jstring) : Message := M_system {| sys_content := UC_string text; sys_timestamp := 0 |}.
Definition target : TargetModel := {| tm_id := js "m"; tm_api := js "api"; tm_provider := js "own"; tm_images := false |}.
Definition normalize : option (jstring -> TargetModel -> AssistantMessage -> jstring) := Some (fun id _ _ => anthropic_normalizeToolCallId id).

(** A call of another model with its result, and a message that failed. *)
Definition messages : list Message :=
  [user (js "hi"); M_assistant (assistant (js "other") SR_toolUse [call (js "a|1")]); result (js "a|1"); M_assistant (assistant (js "own") SR_error [call (js "b")]); user (js "go on")].

End History.


Lemma cached_prefix_stable_witness :
  let messages := History.system (js "s") :: History.messages in
  let clean := (splitSystemMessages messages None).2 in
  let groups := [[Some 1]; [Some 2; Some 3]; [Some 5]] in
  cacheSafePrefix groups 4 = 2%nat /\
  exists i j source, (transformMessages (fun _ => 0) (Some [1; 2; 3; 4; 5]) clean History.target History.normalize).1 !! 2%nat = first_pass History.target History.normalize clean !! i /\
    clean !! i = messages !! j /\ source = default (Z.of_nat j) (@None (list Z) ≫= (fun indices => indices !! j)) /\ 0 <= source < 4.
Proof.
  split; [vm_compute; reflexivity|]. apply (cached_prefix_stable (fun _ => 0) _ 4 None None History.target History.normalize [1; 2; 3; 4; 5] [[Some 1]; [Some 2; Some 3]; [Some 5]] 2).
  - vm_compute. reflexivity.
  - vm_compute. reflexivity.
  - vm_compute. lia.
Defined.

(** An own answer loses its empty thinking only, and the image of a system message
    is sent to a model that does not support images. *)
Example own_and_system_sent :
  let own content := M_assistant (History.assistant (js "own") SR_stop content) in
  let prompt := M_system {| sys_content := UC_blocks [UB_image {| image_data := js "d"; image_mimeType := js "image/png" |}]; sys_timestamp := 0 |} in
  tm_images History.target = false /\
  (transformMessages (fun _ => 0) None [prompt; own [AB_thinking {| thinking_thinking := js " "; thinking_thinkingSignature := None; thinking_redacted := None |}; AB_text (plain_text (js "t"))]]
     History.target History.normalize).1 = [prompt; own [AB_text (plain_text (js "t"))]].
Proof. split; vm_compute; reflexivity. Qed.

(** A call without a result gets one before the next message of the user. *)
Example interrupted_call_answered :
  turn_results (drop 1 (transformMessages (fun _ => 0) None [M_assistant (History.assistant (js "own") SR_toolUse [History.call (js "a"); History.call (js "b")]); History.result (js "a");
    History.user (js "stop")] History.target None).1) = [js "a"; js "b"].
Proof. vm_compute. reflexivity. Qed.

(** The results of a message that failed are kept, though their calls are not. *)
Example orphaned_result_kept :
  (transformMessages (fun _ => 0) None [M_assistant (History.assistant (js "own") SR_error [History.call (js "a")]); History.result (js "a")] History.target None).1 = [History.result (js "a")].
Proof. vm_compute. reflexivity. Qed.
