(* ===== verification/JsonRepair.v ===== *)
(** * Repairing JSON

    packages/ai/src/utils/json-parse.ts: the arguments of a tool call as a model
    writes them are not always JSON.  [repairJson] escapes control characters
    inside strings and doubles backslashes that start no escape; incomplete texts
    go to the npm package partial-json, which is a parameter. *)

From stdpp Require Import base list strings pretty.
From Stdlib Require Import ZArith Lia.
From S2P Require Import Prelude SessionTypes Numbers Utf8 Cbor SessionContext Compaction EditDiff SessionManager CborCodec Json JsonProperties.

Open Scope Z_scope.

(** ** json-parse.ts *)

(** The characters of [VALID_JSON_ESCAPES]. *)
Definition VALID_JSON_ESCAPES : list Z := [34; 92; 47; 98; 102; 110; 114; 116; 117].

Definition isControlCharacter (char : Z) : bool := (0 <=? char) && (char <=? 31).

Definition escapeControlCharacter (char : Z) : jstring :=
  if char =? 8 then js "\b" else if char =? 12 then js "\f" else if char =? 10 then js "\n" else if char =? 13 then js "\r"
  else if char =? 9 then js "\t" else unicode_escape char.

Definition is_hex (u : Z) : bool := match hex_value u with Some _ => true | None => false end.

(** The loop of [repairJson]. *)
Fixpoint repair (inString : bool) (json : jstring) : jstring :=
  match json with
  | [] => []
  | char :: rest =>
      if negb inString then char :: repair (char =? 34) rest
      else if char =? 34 then char :: repair false rest
      else if char =? 92 then
        match rest with
        | [] => [92; 92]
        | nextChar :: rest1 =>
            let escape := if bool_decide (nextChar ∈ VALID_JSON_ESCAPES) then 92 :: nextChar :: repair true rest1 else 92 :: 92 :: repair true rest in
            if nextChar =? 117 then
              match rest1 with
              | a :: b :: c :: d :: rest2 =>
                  if is_hex a && is_hex b && is_hex c && is_hex d then 92 :: 117 :: a :: b :: c :: d :: repair true rest2 else escape
              | _ => escape
              end
            else escape
        end
      else (if isControlCharacter char then escapeControlCharacter char else [char]) ++ repair true rest
  end.

Definition repairJson (json : jstring) : jstring := repair false json.

Section Parsing.
Context (parse_number : jstring -> option number) (partialParse : jstring -> option json).

(** [None] when it throws. *)
Definition parseJsonWithRepair (text : jstring) : option json :=
  match json_parse parse_number text with
  | Some v => Some v
  | None => if bool_decide (repairJson text <> text) then json_parse parse_number (repairJson text) else None
  end.

(** [result ?? {}] *)
Definition or_empty (result : json) : json := match result with JNull => JObject [] | _ => result end.

Definition parseStreamingJson (partialJson : option jstring) : json :=
  match partialJson with
  | None => JObject []
  | Some text =>
      if bool_decide (trim text = []) then JObject []
      else
        match parseJsonWithRepair text with
        | Some v => v
        | None =>
            match partialParse text with
            | Some result => or_empty result
            | None => match partialParse (repairJson text) with Some result => or_empty result | None => JObject [] end
            end
        end
  end.

End Parsing.

(** ** Valid texts are not changed *)

(** [r] is what is left of [s] after a part that is not changed. *)
Definition unchanged (r s : jstring) : Prop := exists pre, s = pre ++ r /\ repair false s = pre ++ repair false r.

Lemma unchanged_refl s : unchanged s s.
Proof. by exists []. Qed.

Lemma unchanged_trans r s t : unchanged r s -> unchanged s t -> unchanged r t.
Proof. intros (p & -> & Hp) (q & -> & Hq). exists (q ++ p). rewrite <- !app_assoc. split; [done|]. by rewrite Hq, Hp. Qed.

Lemma unchanged_cons u r : u <> 34 -> unchanged r (u :: r).
Proof. intros Hu. exists [u]. split; [done|]. cbn. by destruct (Z.eqb_spec u 34). Qed.

Lemma unchanged_app pre r : Forall (fun u => u <> 34) pre -> unchanged r (pre ++ r).
Proof. induction 1 as [|u pre Hu _ IH]; [apply unchanged_refl|]. eapply unchanged_trans; [exact IH|]. by apply unchanged_cons. Qed.

Lemma unchanged_space s u r : skip_space s = u :: r -> unchanged (u :: r) s.
Proof.
  intros Hs. destruct (skip_space_suffix s) as (pre & E & Hp). rewrite E, Hs. apply unchanged_app. eapply Forall_impl; [exact Hp|]. intros w Hw ->. done.
Qed.

Lemma hex_unit_hex a b c d v : hex_unit a b c d = Some v -> is_hex a && is_hex b && is_hex c && is_hex d = true.
Proof. unfold hex_unit, is_hex. by destruct (hex_value a), (hex_value b), (hex_value c), (hex_value d). Qed.

Lemma simple_escape_valid c v : simple_escape c = Some v -> c ∈ VALID_JSON_ESCAPES.
Proof.
  intros Hc. apply (bool_decide_unpack _). unfold simple_escape in Hc.
  repeat match type of Hc with (if ?b then _ else _) = _ => destruct b eqn:E; [apply Z.eqb_eq in E as ->; exact I|clear E] end. done.
Qed.

(** A string that is read, with its closing quote. *)
Lemma string_unchanged s : forall t r, parse_string s = Some (t, r) -> exists pre, s = pre ++ r /\ repair true s = pre ++ repair false r.
Proof.
  induction s as [s IH] using parse_string_ind. intros t r H. destruct s as [|u s]; [done|]. cbn [parse_string] in H. cbn [repair negb].
  destruct (Z.eqb_spec u 34) as [->|Hu]; [injection H as <- <-; by exists [34]|]. destruct (Z.eqb_spec u 92) as [->|Hb].
  - destruct s as [|c s]; [done|]. destruct (Z.eqb_spec c 117) as [->|Hc].
    + destruct s as [|a [|b [|e [|d s]]]]; try done. destruct (hex_unit a b e d) as [v|] eqn:Hx; [|done]. rewrite (hex_unit_hex _ _ _ _ _ Hx).
      apply cons_unit_Some in H as (t' & H & ->). destruct (IH s ltac:(cbn; lia) _ _ H) as (pre & -> & Hr). exists (92 :: 117 :: a :: b :: e :: d :: pre). by rewrite Hr.
    + destruct (simple_escape c) as [v|] eqn:Hx; [|done]. rewrite bool_decide_true by by eapply simple_escape_valid.
      apply cons_unit_Some in H as (t' & H & ->). destruct (IH s ltac:(cbn; lia) _ _ H) as (pre & -> & Hr). exists (92 :: c :: pre). by rewrite Hr.
  - destruct (Z.ltb_spec u 32) as [|Hl]; [done|]. apply cons_unit_Some in H as (t' & H & ->). destruct (IH s ltac:(cbn; lia) _ _ H) as (pre & -> & Hr).
    exists (u :: pre). split; [done|]. unfold isControlCharacter. destruct (Z.leb_spec u 31); [lia|]. rewrite andb_false_r. cbn. by rewrite Hr.
Qed.

Lemma quoted_unchanged s t r : parse_string s = Some (t, r) -> unchanged r (34 :: s).
Proof. intros (pre & -> & Hr)%string_unchanged. exists (34 :: pre). split; [done|]. cbn. by rewrite Hr. Qed.

Lemma expect_unchanged p s r : Forall (fun u => u <> 34) p -> expect p s = Some r -> unchanged r s.
Proof.
  intros Hp. revert s. induction Hp as [|u p Hu _ IH]; intros s Hs; [injection Hs as ->; apply unchanged_refl|]. destruct s as [|w s]; [done|]. cbn in Hs.
  destruct (Z.eqb_spec u w) as [->|]; [|done]. eapply unchanged_trans; [by apply IH|by apply unchanged_cons].
Qed.

Lemma numeric_unchanged s literal r : take_numeric s = (literal, r) -> unchanged r s.
Proof.
  revert literal. induction s as [|u s IH]; intros literal H; cbn in H; [injection H as <- <-; apply unchanged_refl|].
  destruct (numeric u) eqn:Hu; [|injection H as <- <-; apply unchanged_refl]. destruct (take_numeric s) as [l r'] eqn:E. injection H as <- <-.
  eapply unchanged_trans; [by eapply IH|]. apply unchanged_cons. intros ->. done.
Qed.

Section Valid.
Context (parse_number : jstring -> option number).

Lemma parse_unchanged fuel :
  (forall s v r, parse_value parse_number fuel s = Some (v, r) -> unchanged r s) /\
  (forall s ms r, parse_members parse_number fuel s = Some (ms, r) -> unchanged r s) /\
  (forall s l r, parse_elements parse_number fuel s = Some (l, r) -> unchanged r s).
Proof using.
  assert (Hnext : forall s u r, skip_space s = u :: r -> u <> 34 -> unchanged r s).
  { intros s u r Hs Hu. eapply unchanged_trans; [by apply unchanged_cons|by apply unchanged_space]. }
  induction fuel as [|fuel (IHv & IHm & IHe)]; [done|]. split_and!.
  - intros s v r H. cbn [parse_value] in H. destruct (skip_space s) as [|u s1] eqn:Es; [done|].
    destruct (Z.eqb_spec u 34) as [->|Hu].
    { destruct (parse_string s1) as [[t r']|] eqn:E; [|done]. injection H as <- <-. eapply unchanged_trans; [by eapply quoted_unchanged|by apply unchanged_space]. }
    destruct (u =? 123); [|destruct (u =? 91)].
    1,2: eapply unchanged_trans; [|by eapply Hnext]; destruct (skip_space s1) as [|w s2] eqn:E1; [done|];
      match type of H with (if ?b then _ else _) = _ => destruct b eqn:Hw end;
      [injection H as <- <-; apply Z.eqb_eq in Hw as ->; by eapply Hnext|split_parse H; injection H as <- <-; first [by eapply IHm|by eapply IHe]].
    unfold as_value in H.
    destruct (u =? 110); [split_parse H; injection H as <- <-; eapply unchanged_trans; [|by eapply Hnext]; eapply expect_unchanged; [|done]; by repeat constructor|].
    destruct (u =? 116); [split_parse H; injection H as <- <-; eapply unchanged_trans; [|by eapply Hnext]; eapply expect_unchanged; [|done]; by repeat constructor|].
    destruct (u =? 102); [split_parse H; injection H as <- <-; eapply unchanged_trans; [|by eapply Hnext]; eapply expect_unchanged; [|done]; by repeat constructor|].
    destruct (take_numeric (u :: s1)) as [lit rest] eqn:E. destruct (parse_number lit) as [n|]; [|done]. injection H as <- <-.
    eapply unchanged_trans; [by eapply numeric_unchanged|by apply unchanged_space].
  - intros s ms r H. cbn [parse_members] in H. destruct (skip_space s) as [|u s1] eqn:Es; [done|]. destruct (Z.eqb_spec u 34) as [->|]; [|done].
    destruct (parse_string s1) as [[k r1]|] eqn:E1; [|done]. destruct (skip_space r1) as [|c r2] eqn:E2; [done|]. destruct (Z.eqb_spec c 58) as [->|]; [|done].
    destruct (parse_value parse_number fuel r2) as [[v r3]|] eqn:E3; [|done]. destruct (skip_space r3) as [|d r4] eqn:E4; [done|].
    assert (Hr3 : unchanged r3 s).
    { eapply unchanged_trans; [by eapply IHv|]. eapply unchanged_trans; [by eapply Hnext|]. eapply unchanged_trans; [by eapply quoted_unchanged|by apply unchanged_space]. }
    destruct (Z.eqb_spec d 44) as [->|].
    + destruct (parse_members parse_number fuel r4) as [[ms' r5]|] eqn:E5; [|done]. injection H as <- <-.
      eapply unchanged_trans; [by eapply IHm|]. eapply unchanged_trans; [by eapply Hnext|done].
    + destruct (Z.eqb_spec d 125) as [->|]; [|done]. injection H as <- <-. eapply unchanged_trans; [by eapply Hnext|done].
  - intros s l r H. cbn [parse_elements] in H. destruct (parse_value parse_number fuel s) as [[v r3]|] eqn:E3; [|done].
    pose proof (IHv _ _ _ E3) as Hr3. destruct (skip_space r3) as [|d r4] eqn:E4; [done|]. destruct (Z.eqb_spec d 44) as [->|].
    + destruct (parse_elements parse_number fuel r4) as [[ms' r5]|] eqn:E5; [|done]. injection H as <- <-.
      eapply unchanged_trans; [by eapply IHe|]. eapply unchanged_trans; [by eapply Hnext|done].
    + destruct (Z.eqb_spec d 93) as [->|]; [|done]. injection H as <- <-. eapply unchanged_trans; [by eapply Hnext|done].
Qed.

Lemma spaces_unchanged s : skip_space s = [] -> repair false s = s.
Proof using.
  intros Hs. destruct (skip_space_suffix s) as (pre & E & Hp). rewrite Hs, app_nil_r in E. subst pre. clear Hs.
  induction Hp as [|u s Hu _ IH]; [done|]. cbn. destruct (Z.eqb_spec u 34) as [->|]; [done|]. by rewrite IH.
Qed.

Lemma valid_unchanged s v : json_parse parse_number s = Some v -> repairJson s = s.
Proof using.
  unfold json_parse. destruct (parse_value parse_number (2 * length s + 1) s) as [[v' rest]|] eqn:E; [|done]. destruct (skip_space rest) eqn:Es; [|done]. intros _.
  destruct (proj1 (parse_unchanged _) _ _ _ E) as (pre & Hs & Hr). unfold repairJson. rewrite Hr, (spaces_unchanged _ Es). done.
Qed.

End Valid.

(** ** Repairing twice *)

(** What is written for a control character is kept by a second repair. *)
Lemma control_kept char s : isControlCharacter char = true -> repair true (escapeControlCharacter char ++ s) = escapeControlCharacter char ++ repair true s.
Proof.
  unfold isControlCharacter. rewrite andb_true_iff, !Z.leb_le. intros Hc.
  assert (char ∈ (fun n => Z.of_nat n) <$> seq 0 32) as Hin.
  { apply list_elem_of_fmap. exists (Z.to_nat char). rewrite elem_of_seq. lia. }
  revert Hin. change ((fun n => Z.of_nat n) <$> seq 0 32) with ([0; 1; 2; 3; 4; 5; 6; 7; 8; 9; 10; 11; 12; 13; 14; 15; 16; 17; 18; 19; 20; 21; 22; 23; 24; 25; 26; 27; 28; 29; 30; 31]).
  intros Hin. repeat (apply elem_of_cons in Hin as [->|Hin]; [reflexivity|]). by apply not_elem_of_nil in Hin.
Qed.

Lemma escape_kept c s : c ∈ VALID_JSON_ESCAPES -> (c <> 117 \/ match s with a :: b :: c :: d :: _ => is_hex a && is_hex b && is_hex c && is_hex d = false | _ => True end) ->
  repair true (92 :: c :: s) = 92 :: c :: repair true s.
Proof.
  intros Hc Hu. cbn [repair negb]. change (92 =? 34) with false. change (92 =? 92) with true. cbv iota. rewrite bool_decide_true by done.
  destruct (Z.eqb_spec c 117) as [->|]; [|done]. destruct Hu as [|Hu]; [done|]. destruct s as [|a [|b [|e [|d s]]]]; try done. by rewrite Hu.
Qed.

Definition hex4 (s : jstring) : bool := match s with a :: b :: c :: d :: _ => is_hex a && is_hex b && is_hex c && is_hex d | _ => false end.

Lemma hex_range u : is_hex u = true -> 48 <= u /\ u <> 92.
Proof.
  unfold is_hex, hex_value. intros H.
  destruct (Z.leb_spec 48 u), (Z.leb_spec u 57), (Z.leb_spec 97 u), (Z.leb_spec u 102), (Z.leb_spec 65 u), (Z.leb_spec u 70); cbn in H; (lia || discriminate H).
Qed.

Lemma repair_hex u s : is_hex u = true -> repair true (u :: s) = u :: repair true s.
Proof.
  intros Hu. apply hex_range in Hu as [H1 H2]. cbn [repair negb]. destruct (Z.eqb_spec u 34); [lia|]. destruct (Z.eqb_spec u 92); [done|].
  unfold isControlCharacter. destruct (Z.leb_spec u 31); [lia|]. by rewrite andb_false_r.
Qed.

Lemma control_head char : isControlCharacter char = true -> exists s, escapeControlCharacter char = 92 :: s.
Proof. intros _. unfold escapeControlCharacter. repeat (case_match; [by eexists|]). unfold unicode_escape. by eexists. Qed.

Lemma repair_head u s : is_hex u = false -> exists w r, repair true (u :: s) = w :: r /\ is_hex w = false.
Proof.
  intros Hu. cbn [repair negb]. destruct (Z.eqb_spec u 34) as [->|]; [by eexists _, _|]. destruct (Z.eqb_spec u 92) as [->|].
  - repeat case_match; by eexists _, _.
  - destruct (isControlCharacter u) eqn:Hc; [|by eexists _, _]. destruct (control_head u Hc) as [r Hr]. rewrite Hr. by eexists _, _.
Qed.

Lemma repair_hex4 s : hex4 (repair true s) = hex4 s.
Proof.
  assert (Hhead : forall u s (f : Z -> jstring -> bool), is_hex u = false -> (forall w r, is_hex w = false -> f w r = false) ->
            match repair true (u :: s) with w :: r => f w r | [] => false end = false).
  { intros u s' f Hu Hf. destruct (repair_head u s' Hu) as (w & r & Hr & Hw). rewrite Hr. by apply Hf. }
  destruct s as [|a s]; [done|]. destruct (is_hex a) eqn:Ha; [rewrite repair_hex by done|].
  2: { destruct (repair_head a s Ha) as (w & r & Hr & Hw). rewrite Hr. cbn [hex4]. rewrite Ha. destruct s as [|b [|c [|d s]]], r as [|b' [|c' [|d' r]]]; cbn; by rewrite ?Hw. }
  destruct s as [|b s]; [done|]. destruct (is_hex b) eqn:Hb; [rewrite repair_hex by done|].
  2: { destruct (repair_head b s Hb) as (w & r & Hr & Hw). rewrite Hr. cbn [hex4]. rewrite Ha, Hb. destruct s as [|c [|d s]], r as [|c' [|d' r]]; cbn; by rewrite ?Hw. }
  destruct s as [|c s]; [done|]. destruct (is_hex c) eqn:Hc; [rewrite repair_hex by done|].
  2: { destruct (repair_head c s Hc) as (w & r & Hr & Hw). rewrite Hr. cbn [hex4]. rewrite Ha, Hb, Hc. destruct s as [|d s], r as [|d' r]; cbn; by rewrite ?Hw. }
  destruct s as [|d s]; [done|]. destruct (is_hex d) eqn:Hd; [rewrite repair_hex by done; cbn; by rewrite Ha, Hb, Hc, Hd|].
  destruct (repair_head d s Hd) as (w & r & Hr & Hw). rewrite Hr. cbn [hex4]. by rewrite Ha, Hb, Hc, Hd, Hw.
Qed.

Lemma repair_escape c s : repair true (92 :: c :: s) =
  if (c =? 117) && hex4 s then 92 :: 117 :: take 4 s ++ repair true (drop 4 s)
  else if bool_decide (c ∈ VALID_JSON_ESCAPES) then 92 :: c :: repair true s else 92 :: 92 :: repair true (c :: s).
Proof.
  cbn [repair negb]. change (92 =? 34) with false. change (92 =? 92) with true. cbv iota. destruct (Z.eqb_spec c 117) as [->|]; [|done]. cbn [andb].
  destruct s as [|a [|b [|e [|d s]]]]; by cbn [hex4].
Qed.

Lemma repair_twice s : forall inString, repair inString (repair inString s) = repair inString s.
Proof.
  induction s as [s IH] using parse_string_ind. intros inString. destruct s as [|u s]; [done|]. destruct inString.
  2: { cbn [repair negb]. f_equal. apply IH. cbn. lia. }
  destruct (Z.eqb_spec u 34) as [->|Hq]; [change (repair true (34 :: ?r)) with (34 :: repair false r); change (repair true (34 :: ?r)) with (34 :: repair false r); f_equal; apply IH; cbn; lia|].
  destruct (Z.eqb_spec u 92) as [->|Hb].
  - destruct s as [|c s]; [done|]. rewrite repair_escape. destruct ((c =? 117) && hex4 s) eqn:Hu.
    + apply andb_true_iff in Hu as [_ Hh]. destruct s as [|a [|b [|e [|d s]]]]; try done. change (hex4 (a :: b :: e :: d :: s)) with (is_hex a && is_hex b && is_hex e && is_hex d) in Hh.
      change (take 4 (a :: b :: e :: d :: s)) with [a; b; e; d]. change (drop 4 (a :: b :: e :: d :: s)) with s. cbn [app]. rewrite repair_escape. cbn [hex4]. rewrite Hh. change (117 =? 117) with true. cbn [andb take drop app]. rewrite take_0, drop_0. cbn [app]. rewrite IH; [done|]. cbn. lia.
    + case_bool_decide as Hv; rewrite repair_escape.
      * rewrite repair_hex4, Hu, bool_decide_true by done. do 2 f_equal. apply IH. cbn. lia.
      * change ((92 =? 117) && hex4 (repair true (c :: s))) with false. cbv iota. rewrite bool_decide_true by (apply (bool_decide_unpack _); exact I). do 2 f_equal. apply IH. cbn. lia.
  - assert (Hstep : repair true (u :: s) = (if isControlCharacter u then escapeControlCharacter u else [u]) ++ repair true s).
    { cbn [repair negb]. destruct (Z.eqb_spec u 34); [done|]. by destruct (Z.eqb_spec u 92). }
    rewrite Hstep. destruct (isControlCharacter u) eqn:Hc.
    + rewrite control_kept by done. f_equal. apply IH. cbn. lia.
    + cbn [app]. cbn [repair negb]. destruct (Z.eqb_spec u 34); [done|]. destruct (Z.eqb_spec u 92); [done|]. rewrite Hc. cbn [app]. f_equal. apply IH. cbn. lia.
Qed.

(** C22: repairing a text is safe: a text that is JSON is not changed, and a second
    repair changes nothing. *)
Theorem repair_conservative parse_number text :
  (forall v, json_parse parse_number text = Some v -> repairJson text = text) /\ repairJson (repairJson text) = repairJson text.
Proof. split; [intros v; apply valid_unchanged|apply repair_twice]. Qed.

(** ** Texts with raw control characters *)

Section Lenient.
Context (raw : Z -> bool) (number_to_string : number -> jstring) (parse_number : jstring -> option number) (partialParse : jstring -> option json).

(** [JSON.stringify], but for the control characters that are written as they are. *)
Definition lenient_unit (u : Z) : jstring := if (u <? 32) && raw u then [u] else escape_unit u.

Fixpoint lenient_string (s : jstring) : jstring :=
  match s with
  | [] => []
  | u :: s' =>
      if (0xD800 <=? u) && (u <=? 0xDBFF) then
        match s' with
        | v :: s'' =>
            if (0xDC00 <=? v) && (v <=? 0xDFFF) then u :: v :: lenient_string s''
            else unicode_escape u ++ lenient_string s'
        | [] => unicode_escape u
        end
      else if (0xDC00 <=? u) && (u <=? 0xDFFF) then unicode_escape u ++ lenient_string s'
      else lenient_unit u ++ lenient_string s'
  end.

Definition lenient_quote (s : jstring) : jstring := [34] ++ lenient_string s ++ [34].

Fixpoint lenient (j : json) : jstring :=
  match j with
  | JString s => lenient_quote s
  | JArray l => js "[" ++ join (js ",") (map lenient l) ++ js "]"
  | JObject l => js "{" ++ join (js ",") (map (fun p => lenient_quote p.1 ++ js ":" ++ lenient p.2) l) ++ js "}"
  | _ => json_stringify number_to_string j
  end.

Lemma repair_plain u s : u <> 34 -> u <> 92 -> isControlCharacter u = false -> repair true (u :: s) = u :: repair true s.
Proof using. intros H1 H2 H3. cbn [repair negb]. destruct (Z.eqb_spec u 34); [done|]. destruct (Z.eqb_spec u 92); [done|]. by rewrite H3. Qed.

Lemma repair_outside pre rest : Forall (fun u => u <> 34) pre -> repair false (pre ++ rest) = pre ++ repair false rest.
Proof using. induction 1 as [|u pre Hu _ IH]; [done|]. cbn. destruct (Z.eqb_spec u 34); [done|]. by rewrite IH. Qed.

Lemma repair_unicode u s : code_unit u -> repair true (unicode_escape u ++ s) = unicode_escape u ++ repair true s.
Proof using.
  intros [H0 H1]. unfold unicode_escape. change (js "\u") with [92; 117]. cbn [app]. rewrite repair_escape. change (117 =? 117) with true. cbn [andb hex4].
  assert (0 <= u / 4096 < 16) by (split; [apply Z.div_pos; lia|apply Z.div_lt_upper_bound; lia]).
  unfold is_hex. rewrite !hex_digit_value by (done || apply Z.mod_pos_bound; lia). done.
Qed.

Lemma control_escape u : isControlCharacter u = true -> escape_unit u = escapeControlCharacter u.
Proof using.
  unfold isControlCharacter. rewrite andb_true_iff, !Z.leb_le. intros Hu. unfold escape_unit, escapeControlCharacter.
  destruct (Z.eqb_spec u 8); [done|]. destruct (Z.eqb_spec u 9) as [->|]; [done|]. destruct (Z.eqb_spec u 10) as [->|]; [done|]. destruct (Z.eqb_spec u 12); [done|].
  destruct (Z.eqb_spec u 13); [done|]. destruct (Z.eqb_spec u 34); [lia|]. destruct (Z.eqb_spec u 92); [lia|]. destruct (Z.ltb_spec u 32); [done|lia].
Qed.

Lemma repair_unit u s : code_unit u -> repair true (lenient_unit u ++ s) = escape_unit u ++ repair true s.
Proof using.
  intros [H0 H1]. unfold lenient_unit. destruct (isControlCharacter u) eqn:Hc.
  - rewrite control_escape by done. destruct (_ && _); [|by apply control_kept]. cbn [app repair negb]. unfold isControlCharacter in Hc. apply andb_true_iff in Hc as [_ Hl%Z.leb_le].
    destruct (Z.eqb_spec u 34); [lia|]. destruct (Z.eqb_spec u 92); [lia|]. unfold isControlCharacter. destruct (Z.leb_spec 0 u); [|lia]. by destruct (Z.leb_spec u 31); [|lia].
  - pose proof Hc as Hl. unfold isControlCharacter in Hl. destruct (Z.leb_spec 0 u); [|lia]. destruct (Z.leb_spec u 31); [done|]. destruct (Z.ltb_spec u 32); [lia|]. cbn [andb].
    unfold escape_unit. destruct (Z.eqb_spec u 8); [lia|]. destruct (Z.eqb_spec u 9); [lia|]. destruct (Z.eqb_spec u 10); [lia|]. destruct (Z.eqb_spec u 12); [lia|]. destruct (Z.eqb_spec u 13); [lia|].
    destruct (Z.eqb_spec u 34) as [->|]; [done|]. destruct (Z.eqb_spec u 92) as [->|]; [done|]. destruct (Z.ltb_spec u 32); [lia|]. cbn [app]. by apply repair_plain.
Qed.

Lemma surrogate_plain u s : 0xD800 <= u <= 0xDFFF -> repair true (u :: s) = u :: repair true s.
Proof using. intros Hu. apply repair_plain; [lia|lia|]. unfold isControlCharacter. destruct (Z.leb_spec u 31); [lia|]. by rewrite andb_false_r. Qed.

Lemma repair_string s : forall rest, Forall code_unit s -> repair true (lenient_string s ++ 34 :: rest) = escape_string s ++ 34 :: repair false rest.
Proof using.
  induction s as [s IH] using parse_string_ind. intros rest Hs. destruct s as [|u s]; [done|]. apply Forall_cons in Hs as [Hu Hs]. cbn [lenient_string escape_string].
  destruct ((0xD800 <=? u) && (u <=? 0xDBFF)) eqn:Hh.
  - apply andb_true_iff in Hh as [H1%Z.leb_le H2%Z.leb_le]. destruct s as [|v s]; [by rewrite repair_unicode|]. destruct ((0xDC00 <=? v) && (v <=? 0xDFFF)) eqn:Hl.
    + apply andb_true_iff in Hl as [H3%Z.leb_le H4%Z.leb_le]. apply Forall_cons in Hs as [_ Hs]. cbn [app]. rewrite !surrogate_plain by lia. by rewrite IH by (done || (cbn; lia)).
    + rewrite <- !app_assoc, repair_unicode by done. by rewrite (IH (v :: s)) by (done || (cbn; lia)).
  - destruct ((0xDC00 <=? u) && (u <=? 0xDFFF)); rewrite <- !app_assoc; [rewrite repair_unicode by done|rewrite repair_unit by done]; by rewrite IH by (done || (cbn; lia)).
Qed.

Lemma repair_quote s rest : Forall code_unit s -> repair false (lenient_quote s ++ rest) = quote_string s ++ repair false rest.
Proof using.
  intros Hs. unfold lenient_quote, quote_string. rewrite <- !app_assoc. change (repair false ([34] ++ ?x)) with (34 :: repair true x). cbn [app]. f_equal.
  change ([34] ++ ?r) with (34 :: r). by apply repair_string.
Qed.

Lemma repair_join {A} (f g : A -> jstring) l : (forall i x, l !! i = Some x -> forall rest, repair false (f x ++ rest) = g x ++ repair false rest) ->
  forall rest, repair false (join (js ",") (map f l) ++ rest) = join (js ",") (map g l) ++ repair false rest.
Proof using.
  induction l as [|x l IH]; intros Hl rest; [done|]. specialize (IH (fun i => Hl (S i))). pose proof (Hl O x eq_refl) as Hx.
  destruct l as [|y l]; [apply Hx|]. cbn [map join] in *. rewrite <- !app_assoc, Hx. f_equal. change (repair false (js "," ++ ?r)) with (js "," ++ repair false r). f_equal.
  specialize (IH rest). rewrite <- ?app_assoc in IH. exact IH.
Qed.

Lemma repair_value v : json_ok number_to_string parse_number v -> forall rest, repair false (lenient v ++ rest) = json_stringify number_to_string v ++ repair false rest.
Proof using.
  induction v as [|b|n|s|l IH|l IH] using json_rect_nested; intros Hok rest; inversion Hok as [| |? (Hf & _ & Hn & _)|? Hs|? Hl|? Hk Hl Hnd Hown]; subst; cbn [lenient].
  - done.
  - by destruct b.
  - cbn [json_stringify]. rewrite Hf. apply repair_outside. eapply Forall_impl; [exact Hn|]. intros u Hu ->. done.
  - by apply repair_quote.
  - cbn [json_stringify]. rewrite <- !app_assoc. change (repair false (js "[" ++ ?r)) with (js "[" ++ repair false r). f_equal.
    rewrite (repair_join _ (json_stringify number_to_string)); [done|]. intros i x Hx. eapply IH; [done|by eapply Hl].
  - cbn [json_stringify]. rewrite <- !app_assoc. change (repair false (js "{" ++ ?r)) with (js "{" ++ repair false r). f_equal.
    rewrite (repair_join _ (fun p => quote_string p.1 ++ js ":" ++ json_stringify number_to_string p.2)); [done|]. intros i [k x] Hx r. cbn [fst snd]. rewrite <- !app_assoc.
    rewrite repair_quote by by eapply Hk. f_equal. change (repair false (js ":" ++ ?t)) with (js ":" ++ repair false t). f_equal. eapply IH; [done|by eapply Hl].
Qed.

Lemma lenient_nonblank v : json_ok number_to_string parse_number v -> trim (lenient v) <> [].
Proof using.
  assert (Ht : forall u s, is_white_space u = false -> trim (u :: s) <> []).
  { intros u s Hu. unfold trim. cbn [trimEnd]. destruct (trimEnd s) as [|w t]; [rewrite Hu|]; cbn [trimStart]; by rewrite Hu. }
  intros Hok. inversion Hok as [|b|n (Hf & Hne & Hn & _)|s Hs|l Hl|l Hk Hl Hnd Hown]; subst; cbn [lenient json_stringify]; try (by apply Ht).
  - destruct b; by apply Ht.
  - rewrite Hf. destruct (number_to_string n) as [|u t]; [done|]. apply Ht. apply Forall_inv in Hn. unfold is_white_space. unfold numeric in Hn.
    rewrite !orb_true_iff, andb_true_iff, !Z.leb_le, !Z.eqb_eq in Hn. apply orb_false_iff. split; [|apply andb_false_iff; left; apply Z.leb_gt; lia].
    apply bool_decide_eq_false_2. rewrite !elem_of_cons, elem_of_nil. lia.
Qed.

(** C21: a value that is written as JSON but for raw control characters in its
    strings, whichever they are, is read as that value. *)
Theorem lenient_json_recovered v : json_ok number_to_string parse_number v ->
  parseJsonWithRepair parse_number (lenient v) = Some v /\ parseStreamingJson parse_number partialParse (Some (lenient v)) = v.
Proof using.
  intros Hok. assert (Hrepair : repairJson (lenient v) = json_stringify number_to_string v).
  { pose proof (repair_value v Hok []) as H. rewrite !app_nil_r in H. exact H. }
  pose proof (json_roundtrip number_to_string parse_number v Hok) as Hparse. rewrite <- Hrepair in Hparse.
  assert (Hp : parseJsonWithRepair parse_number (lenient v) = Some v).
  { unfold parseJsonWithRepair. destruct (json_parse parse_number (lenient v)) as [w|] eqn:E.
    - rewrite (valid_unchanged parse_number _ w E) in Hparse. congruence.
    - rewrite bool_decide_true; [done|]. intros Hsame. rewrite Hsame in Hparse. congruence. }
  split; [done|]. unfold parseStreamingJson. rewrite bool_decide_false by by apply lenient_nonblank. by rewrite Hp.
Qed.

End Lenient.

(** Arguments with a line break and a tabulator inside a string. *)
Definition raw_arguments : json := JObject [(js "text", JString [97; 10; 98; 9]); (js "last", JBool true)].

Definition no_number_text (n : number) : jstring := [].
Definition no_number (literal : jstring) : option number := None.

Lemma lenient_json_recovered_witness :
  lenient (fun _ => true) no_number_text raw_arguments = [123; 34] ++ js "text" ++ [34; 58; 34; 97; 10; 98; 9; 34; 44; 34] ++ js "last" ++ [34; 58] ++ js "true}" /\
  parseJsonWithRepair no_number (lenient (fun _ => true) no_number_text raw_arguments) = Some raw_arguments /\
  parseStreamingJson no_number (fun _ => None) (Some (lenient (fun _ => true) no_number_text raw_arguments)) = raw_arguments.
Proof.
  split; [vm_compute; reflexivity|]. apply (lenient_json_recovered (fun _ => true) no_number_text no_number (fun _ => None) raw_arguments).
  apply jok_object.
  - intros i k x Hi. destruct i as [|[|i]]; [injection Hi as <- _|injection Hi as <- _|done]; repeat (apply Forall_cons_2; [unfold code_unit; lia|]); apply Forall_nil_2.
  - intros i k x Hi. destruct i as [|[|i]]; [injection Hi as _ <-|injection Hi as _ <-|done]; [|constructor].
    constructor. repeat (apply Forall_cons_2; [unfold code_unit; lia|]). apply Forall_nil_2.
  - apply (bool_decide_unpack _). vm_compute. exact I.
  - vm_compute. reflexivity.
Defined.

Lemma repair_conservative_witness : repairJson (js "[true, null]") = js "[true, null]".
Proof. apply (proj1 (repair_conservative no_number (js "[true, null]")) (JArray [JBool true; JNull])). vm_compute. reflexivity. Defined.

(** A backslash before a character that it cannot escape is doubled, but [\u]
    without four digits is left as it is and the text stays invalid. *)
Example unicode_escape_not_repaired :
  repairJson [34; 92; 100; 34] = [34; 92; 92; 100; 34] /\
  repairJson [34; 92; 117; 49; 34] = [34; 92; 117; 49; 34] /\ json_parse no_number [34; 92; 117; 49; 34] = None.
Proof. split_and!; vm_compute; reflexivity. Qed.

(** A complete text that is not an object is returned as what it is. *)
Example streaming_not_object : parseStreamingJson no_number (fun _ => None) (Some (js "null")) = JNull.
Proof. vm_compute. reflexivity. Qed.
